(* ===== verification/_CoqProject ===== *)
-Q . S2P
Prelude.v
BTree.v
Bytes.v
Position.v
Cell.v
Layout.v
KeyShape.v
WalEntry.v
Allocator.v
Tracker.v
Flat.v
FlatFacts.v
IndexTable.v
IndexOps.v
IndexTableFacts.v
IndexWalk.v
IndexPromote.v
IndexFlush.v
IndexUnmerge.v
IndexCodec.v
IndexClean.v
Levels.v
IterCache.v
Loader.v
Flusher.v
FlusherFacts.v
FlusherShards.v
FlushCommand.v
IndexFormat.v
UniformLookup.v
LookupHeader.v
LookupHeaderFacts.v
HeaderBlob.v
VarlenBlob.v
IndexStore.v
FlushSpec.v
FlushRelocation.v
TableEntry.v
LargeTable.v
Snapshot.v
ReplayBuffer.v
Replay.v
Crc.v
WalFiles.v
Wal.v
WalFacts.v
WalWrite.v
WalSession.v
PositionCache.v
PositionCacheFacts.v
IndexBlobCache.v
RecordRead.v
Control.v
Registry.v
Pending.v
Batch.v
BatchFacts.v
Relocation.v
RelocationFacts.v
RelocationDemo.v
RelocationCorrect.v
CellOps.v
CellSystem.v
CellInvariant.v
CellSteps.v
CellReads.v
CellWalk.v
CellCorrect.v
TableIter.v
DbIter.v
CellView.v
CellHandlers.v
Engine.v
