(* ===== verification/Prelude.v ===== *)
(** * Tidehunter: a verification development of the storage engine

    Tidehunter (src/tidehunter/src) is an embedded key-value store.  Every write
    is appended to a write-ahead log at a position handed out by a lock-free
    allocator; a tracker thread learns which positions have reached the
    in-memory index and publishes a frontier, [last_processed].  The index is
    split into cells; a cell keeps an [IndexTable] (a write buffer of positions
    per key over a compact sorted buffer) in front of on-disk index blobs
    arranged in levels.  A flush merges a snapshot of a table into a blob as of
    the frontier, writes it, and removes what became durable from the live
    table, while writers and a promotion job keep changing that table.
    Transactions park their updates in a pending table until they commit.
    Relocation copies live records to the end of the log so that old log files
    can go, and the control region, stored on disk from time to time, says where
    the index blobs are and from where the log has to be replayed.  Caches sit in
    front of index blobs, decompressed batches, values and iterator positions.

    ** Files and what they model

    - [Prelude]: the [outcome] type of code that can panic, fixed-width integer
      arithmetic, shared list and option lemmas and tactics.
    - [BTree]: [BTreeMap] as an association list in strictly ascending key order
      over the class [OrdKey]; range queries and the two-way ordered merge.
    - [Bytes]: byte strings and big-endian codecs (what the code uses of the
      [bytes] crate's [Buf] and [BufMut]); primitives/var_int.rs,
      primitives/slice_buf.rs, math.rs.
    - [Position]: wal/position.rs.  [Cell]: cell.rs.  [Crc]: crc.rs.
    - [Layout]: wal/layout.rs and the alignment helpers of file_reader.rs.
    - [Allocator]: wal/allocator.rs.  [allocate_attempt] is one turn of the
      compare-exchange loop; [alloc_step] interleaves any number of threads.
    - [Tracker]: wal/tracker.rs.  [tracker_handle] is one turn of
      [WalTrackerThread::run]; [tracker_step] is the system of allocator,
      guards, FIFO channel and thread.
    - [Flat], [FlatFacts]: index/index_table/flat.rs byte for byte, and its
      abstraction relation [flat_repr].
    - [IndexTable], [IndexOps]: index/index_table/mod.rs; the table, lookups,
      walks and live writes in the first, the bulk operations (promotion, merge,
      unmerge, filters, compaction, relocation updates, blob codec) in the
      second.  Definitions only.
    - [IndexTableFacts]: the invariant [it_wf], the counters [it_stats], the
      logical content [it_view] (newest write) and [it_view_at] (newest write
      below a frontier); lookups and writes.  [IndexWalk]: ordered iteration.
      [IndexPromote]: promotion.  [IndexFlush]: the flush merge and frontier
      filter.  [IndexUnmerge]: completing a flush.  [IndexCodec]: the blob.
      [IndexClean]: settling, compaction, clearing.
    - [Levels]: index/levels.rs and index/utils.rs.
    - [IndexFormat]: index/index_format.rs; the trait of the on-disk formats, the
      binary search over fixed-size elements and the iterator caches.
      [UniformLookup]: index/uniform_lookup.rs.  [LookupHeader]:
      index/lookup_header.rs, proofs in [LookupHeaderFacts] (the micro-cell
      walk), [HeaderBlob] (fixed-size keys) and [VarlenBlob] (variable-size
      keys).
    - [Loader]: the trait [Loader] of large_table.rs, the contract [LoaderSpec]
      its clients rely on, and the content [levels_view] of a cell's blobs.
      [IndexStore]: [impl Loader for Db] and [write_index], [read_index] of db.rs,
      over an index log that keeps what is written to it ([FrameStore]).
    - [Flusher]: flusher.rs ([handle_command] and all its helpers) and
      relocation/updates.rs, against the loader interface.  [FlusherFacts],
      [FlusherShards], [FlushCommand]: its steps on tables, on shards, and the
      whole command.  [FlushSpec]: the contract, at the database's loader.
      [FlushRelocation]: flushes with relocation updates or a cutoff.
    - [Pending]: index/pending_table.rs.
    - [KeyShape]: key_shape.rs; key types and indexing, the cell of a key, the
      prefix range and the key range of a cell.
    - [WalEntry]: the [WalEntry] codec of db.rs and compressed_batch.rs.
    - [TableEntry], [LargeTable]: large_table.rs; a cell's entry with its state,
      clearing it and applying replayed writes in the first, rows, cell index
      and the dropping of cells in the second.
    - [Snapshot]: container.rs and [LargeTable::from_unloaded].
    - [CellOps]: the live operations of [LargeTableEntry] (large_table.rs), the
      copy-on-write handle of its table (primitives/arc_cow.rs).  [CellSystem]:
      the life of a cell as a step relation, writers, promotion job, loads,
      snapshots, flusher and frontier in any interleaving, with the history of
      writes as its abstract state.  [CellInvariant], [CellSteps]: the invariant
      and that each step keeps it.  [CellReads]: [get], [get_checkpoint],
      [update_lru] and what [Db::get], [Db::exists] make of them.  [CellCorrect]:
      what follows for every reachable cell.  [CellHandlers]: [LargeTable]'s own
      handlers, shown to be sequences of steps.  [CellView]: the view of a cell
      that relocation goes over ([get_index_for_cell]).
    - [IterCache], [CellWalk], [TableIter]: iteration; the iterator's cache, one
      walk over write buffer and levels, [LargeTable::next_entry] and
      [Db::next_entry].  [DbIter]: iterators/db_iterator.rs.
    - [Engine]: checkpoint.rs, over the composition of tracker, cell, flusher and
      transactions.
    - [ReplayBuffer]: replay_buffer.rs.  [Replay]: wal_replay.rs and
      [LargeTable::apply_replay_buffer]; [replay_frame] is one turn of the loop.
    - [WalFiles], [Wal]: wal/mod.rs, wal/files.rs, wal/mapper.rs; files, mapped
      fragments, the mapper's message loop, reader, writer and iterator.
      [WalFacts], [WalWrite], [WalSession]: what reads see, what writes leave,
      and sessions of writing, crashing, replaying and taking over.
    - [PositionCache]: position_cache.rs, every critical section and the threads
      over them; [PositionCacheFacts]: its invariants.  [IndexBlobCache]:
      index_blob_cache.rs and the readers of db.rs that use it.
    - [RecordRead]: the reading of a record at a position (db.rs), with the cache
      of decompressed batches.
    - [Batch], [BatchFacts]: batch.rs and [Db::do_write_batch].
    - [Relocation]: relocation/mod.rs, watermark.rs and cell_reference.rs over
      the interface [RelocationDb]; [RelocationFacts]: the contract
      [RelocationSpec] and the loops; [RelocationDemo]: a small database that
      keeps the contract; [RelocationCorrect]: both strategies.
    - [Control]: control.rs and the end of [Db::rebuild_control_region_from].
    - [Registry]: the canonical order of key spaces (key_shape.rs) and the shape
      file, the shape part of [Db::open] and the destroying of a key space
      (db.rs).

    ** How the code is translated

    Definitions follow a release build: [debug_assert!] and code under
    [cfg(debug_assertions)] or [cfg(test)] have no counterpart, and unsigned
    arithmetic that may overflow wraps.  [assert!], [panic!], [expect], slice
    indexing and reads past the end of a buffer return [Panic].  A mutable
    [self] is passed in and out.  [usize] lengths of byte buffers and vectors
    are [nat]; WAL offsets, lengths and counters are [Z].  A [HashMap] is a
    stdpp [gmap].  Loops over iterators are structural recursion on the list
    iterated; binary search on a sorted position list ([binary_search],
    [partition_point]) returns the match or the insertion point.  Metrics and
    logging are left out.  The checksum of the crc32fast crate is a parameter;
    the only thing assumed of it is that it returns a u32.  The blake2 hash, the
    lz4 codec (assumed to round-trip) and the loader of index blobs are
    parameters too.  The bloom filter of the fastbloom crate is the list of the
    keys put into it and a parameter, [BloomHashes], that says which other keys
    it takes for members.  Where a handler drops the guard of its write the
    frontier may move; the drop is a function on the store, an argument of the
    handler.

    Loops that are not structural take fuel, always with enough: the tracker's
    [drain_pending] gets one more than the number of pending entries, each turn
    removing one; [flat_bound_loop] one more than the number of entries, each
    turn shrinking the interval; the blob decoders one more than the number of
    bytes, each turn consuming some; [drop_cells_loop] one per cell of an array,
    or one more than the number of indexed cells; [split_recursive] one per
    entry, each turn halving them; [binary_search_loop] one more than the number
    of elements; [window_loop] and [next_window_loop] one per element of the
    blob and one more, as a window that moves covers a new one;
    [micro_cell_loop] one per micro-cell; [evict_one] the [evict_fuel] of its
    shard, as a turn clears a mark or drops an offset of the ring, and
    [evict_loop] two more than the ring is long; [decompress_loop] two
    turns, as a second fill by the same reader leads; [index_loop] and [wal_loop]
    one more than the number of cells, and [skip_destroyed] one per key space.
    The theorems state results, so running
    out of fuel (which yields [Panic] or a short result) is excluded by them.

    Hypotheses of the theorems name the ranges the formats have room for:
    [iwp_fits] (offset a u64, length below 2^30, as two bits hold the entry
    kind), [size_fits] (a variable-size section below 4 GiB, as its offsets are
    u32), [it_fits], [merge_fits] and [disk_fits] (keys of the size the layout
    expects, and the result fits), [layout_ok] (what [assert_layout] checks), and
    in [alloc_step_room] that the log position is two fragments away from 2^64.
    [writes_fit] and [op_input_ok] say the same of the writes of a log and of its
    keys and dropped ranges.
    [universe_ok] says that the keys of a cell, all together, fit the flat and
    the disk layouts, and [cell_table] that a table has only such keys, so no
    merge on the flush path can run out of room; [levels_ok] that every blob of
    the levels can be loaded and holds such keys, shards in their ranges;
    [key_space_ok] that the keys of a cell fit and serialize, that its key space
    has no compactor and that unloading is enabled;
    [flush_closed] that a key whose newest flushed write is below the WAL floor
    has nothing newer under it; [format_ok] that the format suits the key space
    (fixed-size keys, and at least two elements to a window of the uniform one);
    [FrameStoreSpec] that the index log keeps a payload it accepted.

    ** What is shown

    - Index: a write is recorded exactly or, for a reused offset, panics; the
      order of writes does not matter; lookups and walks agree with the logical
      content; promotion, flush completion, and clearing after a flush change no
      read at or above the frontier; the merge and the frontier filter compute
      the as-of content; cleaning and compaction keep live keys and, where the
      level rules ask, tombstones; counters stay exact throughout.
    - Flat buffers and blobs: both layouts round-trip, searches are exact.
    - Log: allocations are disjoint, aligned and whole; the published frontier is
      sound, monotone, respects latches and never lags behind what it could be;
      frames, skip markers and unwritten space are told apart.
    - Index formats: lookups and iteration on a stored blob, by interpolation or
      through the micro-cell header, cached or not, agree with the table that was
      written; for variable-size keys, with the exception of tombstones, which
      the code reads as valid positions ([varlen_tombstone_reads_live]).
    - Flusher: a flush changes no read ([flush_command_keeps_reads]), whichever
      of its paths it takes; splitting into shards ends and loses nothing.
      Relocation updates re-point exactly the keys they name
      ([update_flush_repoints]); a cutoff drops what the candidate for L0 holds
      below it, entries and tombstones, and leaves deeper levels as they are
      ([cutoff_flush_sheds]).
    - Live cells: in every interleaving a lookup answers with the newest write
      ([cell_reads_newest]), a checkpoint lookup with the newest write below its
      frontier ([checkpoint_reads_as_of]), blobs and log together always hold
      every key's newest write ([cell_durable]), no operation panics
      ([cell_steps_succeed]), and the table's handlers are such steps
      ([table_insert_steps], [promote_job_steps]).  The one thing that breaks the
      reads is a cache fill after the row lock is released: with a removal of the
      key in between, any such fill does ([late_cache_fill_stale]).
    - Iteration: a step of an iterator finds the nearest record in its direction
      ([iteration_next_record]) and a whole iteration between bounds lists
      exactly the records there ([ranged_iteration_exact]); an iterator that is
      given an upper bound and then reversed, or reversed twice, loses every key
      outside the cell it starts in, and with variable-size keys a lower bound
      lets through every key between its predecessor of the same length and
      itself ([reversed_iterator_loses_keys], [varlen_lower_bound_leaks]).
    - Checkpoints: what was written after a checkpoint was opened is not seen
      through it ([checkpoint_isolated]).
    - Log files: over intact files, what was written is what a reopened log lists
      ([wal_log_exact]), and the mapper keeps the writer's fragments mapped
      ([mapper_stays_ahead]); an example shows frames behind a hole that a crash
      left listed again by a later start ([stale_fragment_replayed]).
    - Caches: whatever the interleaving the position cache serves only what was
      at the position, stays in its budget and makes progress
      ([position_cache_coherent], [position_cache_within_budget],
      [position_cache_progress]); reading a blob or a record through its cache
      is reading it from the log ([index_reader_transparent], [record_reads]).
    - Batches: applying a batch and replaying it give the same cells
      ([batch_live_is_replay]).
    - Relocation: in a database that keeps the contract [RelocationSpec], with
      clients writing and removing meanwhile, a complete run loses nothing that
      has to be kept and no client touched ([index_relocation_keeps], for keys
      that are their own index keys, and [wal_relocation_keeps]); a run by index
      over reduced keys does ([reduced_key_relocation_loses]), and examples show
      that a cancelled or resumed one does ([unfinished_runs_reclaim]).  What the
      contract says of views and flushes is what [cell_view_covers],
      [update_flush_repoints] and [cutoff_flush_sheds] show of the code.
    - Control region: it reads back as stored, across new key spaces
      ([control_region_roundtrip]), and a rebuild can crash anywhere, with the
      temporary file half written or some of the files unlinked
      ([rebuild_crash_safe]).
    - Key space registry: ids are stable over any history
      ([key_space_ids_stable]) for shapes the builder makes; opening with the
      shape read back from a registry in which a name was destroyed and declared
      again panics or destroys the live key space ([loaded_shape_destroys]).
    - Levels: shard pickers and the k-way merge step find the nearest entry.
    - Transactions: only committed updates leave the pending table, all of them
      and in order.
    - Recovery: [from_unloaded] gives every cell its part of the snapshot;
      replaying a log, cut anywhere inside a last batch, leaves every cell
      answering with the newest write of each key since it was last dropped and
      nothing of the torn batch ([replay_recovers], against the reference
      [cell_writes] and [cell_start] read off the log); dropping a range of
      cells empties exactly those cells.
    - Key shapes: a key's index prefix is in the range of its cell; ranges of
      keys and ranges of cells agree.
    - Codecs: positions, cell ids, varints, WAL entries and compressed batches;
      key prefixes are monotone.

    The pieces fit together as in the code: [tracker_frontier_sound] is why a
    flush may assume that writers arriving during it are at or above its
    frontier (the first rule of [live_step]); [opened_table_ok] discharges what
    [replay_recovers] asks of the table; [index_store_spec] makes the database
    the loader the flusher's theorems ask for, from the index formats' promise
    ([format_blob_ok]) and the log's; [cell_id_cell_ok] and
    [key_range_to_cells] what the operations on cells ask of their cells.

    ** Not modelled

    - Forced relocation of a cell, the synchronous flush and the flushes of
      relocation are not steps of the cell system of [CellSystem]; the last have
      theorems of their own in [FlushRelocation].
    - [RelocationSpec] is discharged by the small database of [RelocationDemo],
      field by field; for the engine its fields on views and flushes are shown
      of single operations ([CellView], [FlushRelocation]), not of the composed
      system, which would need the point above.  It leaves out cells created
      during a run and errors of the disk.
    - The wait loop of [lock_cell_waiting_for_flush], and an index blob that
      cannot be loaded when the bloom filters are rebuilt at start-up (the code
      panics).
    - Worker threads and channels (flusher, syncer, unlink and promotion
      threads), thread start and join; concurrent writers' copies into mapped
      memory (a writer copies alone, its allocation is interleaved).
    - The rest of [Db::open], which starts the threads, the periodic snapshot,
      state_snapshot.rs (copies of files), configuration and its file, locks,
      metrics, failpoints, memory mapping, fsync and file I/O: operating-system
      effects and plumbing.
    - The floating-point target of a ratio ([compute_target_position_from_ratio]).
    - Code of other crates: bincode, serde_yaml, lru, lz4_flex, crc32fast,
      fastbloom and blake2 are parameters or, for the value cache, an interface. *)

From Stdlib Require Import ZArith Lia List Sorting.Sorted.
From stdpp Require Import base tactics list gmap strings.

Local Open Scope Z_scope.

(** ** Outcomes: code that can panic

    A Rust function that may panic returns an [outcome]; [Panic] carries the
    message of the [assert!], [panic!] or [expect] that fired. *)

Inductive outcome (A : Type) : Type :=
| Ok (a : A)
| Panic (msg : string).
Arguments Ok {A} _.
Arguments Panic {A} _.

#[export] Instance outcome_ret : MRet outcome := fun A a => Ok a.

#[export] Instance outcome_bind : MBind outcome :=
  fun A B f m => match m with Ok a => f a | Panic e => Panic e end.

#[export] Instance outcome_fmap : FMap outcome :=
  fun A B f m => match m with Ok a => Ok (f a) | Panic e => Panic e end.

(** Rust's [assert!(b, msg)]. *)
Definition assert_that (b : bool) (msg : string) : outcome unit :=
  if b then Ok tt else Panic msg.

(** Rust's [opt.expect(msg)] and [opt.unwrap()]. *)
Definition expect {A} (o : option A) (msg : string) : outcome A :=
  match o with Some a => Ok a | None => Panic msg end.

Definition is_ok {A} (m : outcome A) : bool :=
  match m with Ok _ => true | Panic _ => false end.

(** ** Machine integers

    A w-bit unsigned integer is a [Z]; arithmetic that a release build wraps
    is written with [u64_add], [u64_mul], ... *)

Definition u8_max : Z := 2 ^ 8 - 1.
Definition u16_max : Z := 2 ^ 16 - 1.
Definition u32_max : Z := 2 ^ 32 - 1.
Definition u64_max : Z := 2 ^ 64 - 1.

Definition is_u8 (z : Z) : Prop := 0 <= z < 2 ^ 8.
Definition is_u16 (z : Z) : Prop := 0 <= z < 2 ^ 16.
Definition is_u32 (z : Z) : Prop := 0 <= z < 2 ^ 32.
Definition is_u64 (z : Z) : Prop := 0 <= z < 2 ^ 64.

Definition wrap8 (z : Z) : Z := z mod 2 ^ 8.
Definition wrap16 (z : Z) : Z := z mod 2 ^ 16.
Definition wrap32 (z : Z) : Z := z mod 2 ^ 32.
Definition wrap64 (z : Z) : Z := z mod 2 ^ 64.

Definition u64_add (a b : Z) : Z := wrap64 (a + b).
Definition u64_sub (a b : Z) : Z := wrap64 (a - b).
Definition u64_mul (a b : Z) : Z := wrap64 (a * b).

(** [a.checked_sub(b)] *)
Definition checked_sub (a b : Z) : option Z :=
  if b <=? a then Some (a - b) else None.

(** ** Automation *)

Create HintDb tide discriminated.

(** Case analysis on the scrutinee of a match or if in the goal. *)
Ltac case_scrut :=
  match goal with
  | |- context [match ?e with _ => _ end] =>
      lazymatch e with
      | context [match _ with _ => _ end] => fail
      | _ => destruct e eqn:?
      end
  end.

(** The same in a hypothesis. *)
Ltac case_scrut_in H :=
  match type of H with
  | context [match ?e with _ => _ end] =>
      lazymatch e with
      | context [match _ with _ => _ end] => fail
      | _ => destruct e eqn:?
      end
  end.

(** Turns boolean comparisons of the context into propositions. *)
Ltac b2p :=
  repeat
    match goal with
    | H : (_ && _)%bool = true |- _ => apply andb_true_iff in H as [? ?]
    | H : (_ || _)%bool = false |- _ => apply orb_false_iff in H as [? ?]
    | H : negb _ = true |- _ => apply negb_true_iff in H
    | H : negb _ = false |- _ => apply negb_false_iff in H
    | H : (_ =? _) = true |- _ => apply Z.eqb_eq in H
    | H : (_ =? _) = false |- _ => apply Z.eqb_neq in H
    | H : (_ <? _) = true |- _ => apply Z.ltb_lt in H
    | H : (_ <? _) = false |- _ => apply Z.ltb_ge in H
    | H : (_ <=? _) = true |- _ => apply Z.leb_le in H
    | H : (_ <=? _) = false |- _ => apply Z.leb_gt in H
    | H : (_ =? _)%nat = true |- _ => apply Nat.eqb_eq in H
    | H : (_ =? _)%nat = false |- _ => apply Nat.eqb_neq in H
    | H : (_ <? _)%nat = true |- _ => apply Nat.ltb_lt in H
    | H : (_ <? _)%nat = false |- _ => apply Nat.ltb_ge in H
    | H : (_ <=? _)%nat = true |- _ => apply Nat.leb_le in H
    | H : (_ <=? _)%nat = false |- _ => apply Nat.leb_gt in H
    | H : bool_decide _ = true |- _ => apply bool_decide_eq_true in H
    | H : bool_decide _ = false |- _ => apply bool_decide_eq_false in H
    end.

(** Inverts a successful outcome computation in [H]. *)
Ltac inv_ok H :=
  unfold mbind, outcome_bind, mret, outcome_ret, assert_that, expect in H;
  repeat (case_scrut_in H; try discriminate H); simplify_eq.

(** ** Generic lemmas *)

Lemma outcome_bind_ok {A B} (m : outcome A) (f : A -> outcome B) b :
  (m ≫= f) = Ok b <-> exists a, m = Ok a /\ f a = Ok b.
Proof. destruct m; cbn; naive_solver. Qed.

Lemma wrap64_small z : is_u64 z -> wrap64 z = z.
Proof. unfold is_u64, wrap64. intros. by apply Z.mod_small. Qed.

Lemma wrap64_bound z : is_u64 (wrap64 z).
Proof. unfold is_u64, wrap64. apply Z.mod_pos_bound. lia. Qed.

Lemma wrap32_small z : is_u32 z -> wrap32 z = z.
Proof. unfold is_u32, wrap32. intros. by apply Z.mod_small. Qed.

Lemma u64_add_small a b : 0 <= a -> 0 <= b -> a + b <= u64_max -> u64_add a b = a + b.
Proof. unfold u64_add, u64_max. intros. apply wrap64_small. unfold is_u64. lia. Qed.

Lemma u64_sub_small a b : 0 <= b <= a -> a <= u64_max -> u64_sub a b = a - b.
Proof. unfold u64_sub, u64_max. intros. apply wrap64_small. unfold is_u64. lia. Qed.

Lemma u64_mul_small a b : 0 <= a -> 0 <= b -> a * b <= u64_max -> u64_mul a b = a * b.
Proof. unfold u64_mul, u64_max. intros. apply wrap64_small. unfold is_u64. nia. Qed.

(** *** Filters *)

Lemma filter_none {A} (f : A -> bool) l : Forall (fun x => f x = false) l -> List.filter f l = [].
Proof. induction 1 as [|x l Hx Hl IH]; cbn; [done|]. by rewrite Hx. Qed.

Lemma filter_all {A} (f : A -> bool) l : Forall (fun x => f x = true) l -> List.filter f l = l.
Proof. induction 1 as [|x l Hx Hl IH]; cbn; [done|]. by rewrite Hx, IH. Qed.

Lemma StronglySorted_app_inv {A} (R : A -> A -> Prop) (a b : list A) :
  StronglySorted R (a ++ b) ->
  StronglySorted R a /\ StronglySorted R b /\ forall x y, In x a -> In y b -> R x y.
Proof.
  induction a as [|x a IH]; cbn; intros Hs; [split_and!; [constructor|done|done]|].
  apply StronglySorted_inv in Hs as [Hs Hf]. destruct (IH Hs) as (Ha & Hb & Hab).
  apply Forall_app in Hf as [Hfa Hfb]. split_and!; [by constructor|done|].
  rewrite List.Forall_forall in Hfb. intros y z [<-|Hy] Hz; auto.
Qed.

Lemma StronglySorted_app_intro {A} (R : A -> A -> Prop) (a b : list A) :
  StronglySorted R a -> StronglySorted R b -> (forall x y, In x a -> In y b -> R x y) -> StronglySorted R (a ++ b).
Proof.
  induction 1 as [|x a Hs IH Hf]; cbn; intros Hb Hab; [done|]. constructor; [apply IH; auto|].
  apply Forall_app. split; [done|]. apply List.Forall_forall. intros y Hy. apply Hab; auto.
Qed.

Lemma NoDup_filter_fst {A B} (f : A * B -> bool) (l : list (A * B)) :
  NoDup (List.map fst l) -> NoDup (List.map fst (List.filter f l)).
Proof.
  induction l as [|x l IH]; cbn; [done|]. rewrite NoDup_cons. intros [Hn Hd]. destruct (f x); [|auto]. cbn.
  apply NoDup_cons. split; [|auto]. intros Hin. apply Hn. apply list_elem_of_In, in_map_iff in Hin as (y & E & Hy).
  apply filter_In in Hy as [Hy _]. apply list_elem_of_In, in_map_iff. eauto.
Qed.

Create Rewrite HintDb tide_u64.

Create Rewrite HintDb tide_len.

#[export] Hint Rewrite u64_add_small u64_sub_small u64_mul_small using lia : tide_u64.
#[export] Hint Resolve wrap64_bound : tide.

#[export] Instance In_decision {A} `{EqDecision A} (x : A) (l : list A) : Decision (In x l) :=
  in_dec (fun a b => decide (a = b)) x l.
