(* ===== verification/BTree.v ===== *)
(** * Ordered maps

    [BTreeMap] and [BTreeSet] of the Rust standard library as association
    lists in strictly ascending key order, with the operations the code uses:
    [get], [insert], [remove], [retain], the range queries [..k], [..=k] and
    [(Excluded k, ..)] with [next] / [next_back], and the two-way ordered merge
    loop the index code writes over [peekable] iterators. *)

From Stdlib Require Import ZArith Lia List Sorting.Sorted.
From stdpp Require Import base tactics list strings.
From S2P Require Import Prelude.

Local Open Scope Z_scope.

(** [Ord]: a total order given by a three-way comparison. *)
Class OrdKey (K : Type) := {
  kcmp : K -> K -> comparison;
  kcmp_eq : forall a b, kcmp a b = Eq <-> a = b;
  kcmp_antisym : forall a b, kcmp b a = CompOpp (kcmp a b);
  kcmp_trans : forall a b c, kcmp a b = Lt -> kcmp b c = Lt -> kcmp a c = Lt;
}.

Definition kltb {K} `{OrdKey K} (a b : K) : bool :=
  match kcmp a b with Lt => true | _ => false end.

Definition kleb {K} `{OrdKey K} (a b : K) : bool :=
  match kcmp a b with Gt => false | _ => true end.

Definition keqb {K} `{OrdKey K} (a b : K) : bool :=
  match kcmp a b with Eq => true | _ => false end.

Definition klt {K} `{OrdKey K} (a b : K) : Prop := kcmp a b = Lt.

Definition kle {K} `{OrdKey K} (a b : K) : Prop := kcmp a b <> Gt.

Section btree.
Context {K V : Type} `{OrdKey K}.

(** [map.get(k)] *)
Fixpoint bt_get (k : K) (m : list (K * V)) : option V :=
  match m with
  | [] => None
  | (k', v) :: m' =>
      match kcmp k k' with Eq => Some v | Lt => None | Gt => bt_get k m' end
  end.

(** [map.insert(k, v)] *)
Fixpoint bt_insert (k : K) (v : V) (m : list (K * V)) : list (K * V) :=
  match m with
  | [] => [(k, v)]
  | (k', v') :: m' =>
      match kcmp k k' with
      | Lt => (k, v) :: m
      | Eq => (k, v) :: m'
      | Gt => (k', v') :: bt_insert k v m'
      end
  end.

(** [map.remove(k)] *)
Definition bt_remove (k : K) (m : list (K * V)) : list (K * V) :=
  List.filter (fun kv => negb (keqb kv.1 k)) m.

(** [map.contains_key(k)] *)
Definition bt_mem (k : K) (m : list (K * V)) : bool :=
  match bt_get k m with Some _ => true | None => false end.

(** [map.range((Excluded(k), Unbounded))] *)
Definition bt_above (k : K) (m : list (K * V)) : list (K * V) :=
  List.filter (fun kv => kltb k kv.1) m.

(** [map.range((Unbounded, Excluded(k)))] *)
Definition bt_below (k : K) (m : list (K * V)) : list (K * V) :=
  List.filter (fun kv => kltb kv.1 k) m.

(** [map.range((Unbounded, Included(k)))] *)
Definition bt_upto (k : K) (m : list (K * V)) : list (K * V) :=
  List.filter (fun kv => kleb kv.1 k) m.

(** [map.retain(f)] *)
Definition bt_retain (f : K -> V -> bool) (m : list (K * V)) : list (K * V) :=
  List.filter (fun kv => f kv.1 kv.2) m.

(** The merge loop over two ascending iterators; the entry of [r] wins on
    equal keys and the entry of [l] is dropped. *)
Fixpoint ordered_merge (l : list (K * V)) : list (K * V) -> list (K * V) :=
  fix go (r : list (K * V)) : list (K * V) :=
    match l with
    | [] => r
    | x :: l' =>
        match r with
        | [] => l
        | y :: r' =>
            match kcmp x.1 y.1 with
            | Lt => x :: ordered_merge l' r
            | Gt => y :: go r'
            | Eq => y :: ordered_merge l' r'
            end
        end
    end.

(** Strictly ascending keys: what a [BTreeMap] guarantees of its iteration
    order. *)
Definition bt_sorted (m : list (K * V)) : Prop :=
  StronglySorted (fun x y => klt x.1 y.1) m.
End btree.

(** ** Order facts *)

Section order_facts.
Context {K : Type} `{OrdKey K}.

Lemma kcmp_refl a : kcmp a a = Eq.
Proof. by apply kcmp_eq. Qed.

Lemma kcmp_gt a b : kcmp a b = Gt <-> klt b a.
Proof. unfold klt. rewrite (kcmp_antisym a b). destruct (kcmp a b); naive_solver. Qed.

Lemma klt_irrefl a : ~ klt a a.
Proof. unfold klt. rewrite kcmp_refl. done. Qed.

Lemma klt_trans a b c : klt a b -> klt b c -> klt a c.
Proof. apply kcmp_trans. Qed.

Lemma klt_asym a b : klt a b -> ~ klt b a.
Proof. intros H1 H2. eapply klt_irrefl, klt_trans; eauto. Qed.

Lemma klt_ne a b : klt a b -> a <> b.
Proof. intros Hlt ->. by eapply klt_irrefl. Qed.

Lemma k_total a b : klt a b \/ a = b \/ klt b a.
Proof.
  destruct (kcmp a b) eqn:E; [right; left; by apply kcmp_eq | by left |].
  right; right. by apply kcmp_gt.
Qed.

Lemma kle_iff a b : kle a b <-> klt a b \/ a = b.
Proof.
  unfold kle, klt. destruct (kcmp a b) eqn:E.
  - apply kcmp_eq in E as ->. naive_solver.
  - naive_solver.
  - split; [done|]. intros [?| ->]; [done|]. by rewrite kcmp_refl in E.
Qed.

Lemma kle_lt_trans a b c : kle a b -> klt b c -> klt a c.
Proof. rewrite kle_iff. intros [?| ->]; eauto using klt_trans. Qed.

Lemma klt_le_trans a b c : klt a b -> kle b c -> klt a c.
Proof. rewrite kle_iff. intros ? [?| <-]; eauto using klt_trans. Qed.

Lemma kle_not_lt a b : kle a b <-> ~ klt b a.
Proof. unfold kle. rewrite <- kcmp_gt. done. Qed.

Lemma kltb_spec a b : reflect (klt a b) (kltb a b).
Proof. unfold kltb, klt. destruct (kcmp a b); by constructor. Qed.

Lemma kleb_spec a b : reflect (kle a b) (kleb a b).
Proof. unfold kleb, kle. destruct (kcmp a b); constructor; naive_solver. Qed.

Lemma keqb_spec a b : reflect (a = b) (keqb a b).
Proof.
  unfold keqb. destruct (kcmp a b) eqn:E; constructor.
  - by apply kcmp_eq.
  - by apply klt_ne.
  - intros ->. by rewrite kcmp_refl in E.
Qed.

Lemma keqb_refl a : keqb a a = true.
Proof. by destruct (keqb_spec a a). Qed.

#[global] Instance ord_eq_decision : EqDecision K.
Proof. intros a b. unfold Decision. destruct (keqb_spec a b); auto. Defined.

#[global] Instance klt_decision a b : Decision (klt a b).
Proof. unfold Decision. destruct (kltb_spec a b); auto. Defined.
End order_facts.

(** ** Map facts *)

Section map_facts.
Context {K V : Type} `{OrdKey K}.
Implicit Types (m l r : list (K * V)) (k : K).

Lemma bt_sorted_nil : bt_sorted ([] : list (K * V)).
Proof. constructor. Qed.

Lemma bt_sorted_cons k v m :
  bt_sorted ((k, v) :: m) <-> bt_sorted m /\ Forall (fun kv => klt k kv.1) m.
Proof.
  split; [intros Hs; by apply StronglySorted_inv in Hs|].
  intros [??]. by constructor.
Qed.

Lemma bt_get_above k m : Forall (fun kv => klt k kv.1) m -> bt_get k m = None.
Proof. destruct 1 as [|[k' v] m' Hk]; cbn; [done|]. cbn in Hk. by rewrite Hk. Qed.

Lemma Forall_klt_trans k k' m :
  klt k k' -> Forall (fun kv => klt k' kv.1) m -> Forall (fun kv => klt k kv.1) m.
Proof. intros ? Hf. eapply Forall_impl; [done|]. eauto using klt_trans. Qed.

Lemma bt_get_cons k k' v m :
  bt_sorted ((k', v) :: m) ->
  bt_get k ((k', v) :: m) = if keqb k k' then Some v else bt_get k m.
Proof.
  intros [_ Hf]%bt_sorted_cons. cbn. unfold keqb. destruct (kcmp k k') eqn:E; try done.
  symmetry. apply bt_get_above. by eapply Forall_klt_trans.
Qed.

Lemma bt_get_In k v m : bt_sorted m -> bt_get k m = Some v <-> In (k, v) m.
Proof.
  induction m as [|[k' v'] m IH]; intros Hs; [naive_solver|].
  rewrite bt_get_cons by done. pose proof Hs as [Hs' Hf]%bt_sorted_cons.
  destruct (keqb_spec k k') as [->|Hne]; cbn.
  - split; [naive_solver|]. intros [?|Hin]; [naive_solver|].
    rewrite Forall_forall in Hf. apply list_elem_of_In in Hin. apply Hf in Hin.
    by apply klt_irrefl in Hin.
  - rewrite IH by done. naive_solver.
Qed.

Lemma bt_get_None k m : bt_sorted m -> bt_get k m = None <-> forall v, ~ In (k, v) m.
Proof.
  intros Hs. destruct (bt_get k m) eqn:E.
  - apply bt_get_In in E; [|done]. naive_solver.
  - split; [|done]. intros _ v Hin. apply bt_get_In in Hin; [|done]. congruence.
Qed.

(** A sorted map splits at a key in one way. *)
Lemma bt_split_unique k (v v' : V) (pre post pre' post' : list (K * V)) :
  bt_sorted (pre ++ (k, v) :: post) -> pre ++ (k, v) :: post = pre' ++ (k, v') :: post' ->
  pre' = pre /\ v' = v /\ post' = post.
Proof.
  revert pre'. induction pre as [|[q w] pre IH]; intros [|[q' w'] pre'] Hs E; cbn [app] in *;
    apply bt_sorted_cons in Hs as [Hs Hf].
  - by injection E as -> ->.
  - injection E as -> -> E. rewrite E, List.Forall_forall in Hf. exfalso. apply (klt_irrefl q'), (Hf (q', v')), in_or_app. right. by left.
  - injection E as -> -> E. rewrite List.Forall_forall in Hf. exfalso. apply (klt_irrefl k), (Hf (k, v)), in_or_app. right. by left.
  - injection E as -> -> E. destruct (IH pre' Hs E) as (-> & -> & ->). done.
Qed.

Lemma bt_sorted_ext m1 m2 :
  bt_sorted m1 -> bt_sorted m2 -> (forall k, bt_get k m1 = bt_get k m2) -> m1 = m2.
Proof.
  revert m2. induction m1 as [|[k1 v1] m1 IH]; intros [|[k2 v2] m2] Hs1 Hs2 Hext; [done| | |].
  - specialize (Hext k2). cbn in Hext. by rewrite kcmp_refl in Hext.
  - specialize (Hext k1). cbn in Hext. by rewrite kcmp_refl in Hext.
  - pose proof Hs1 as [Hs1' Hf1]%bt_sorted_cons. pose proof Hs2 as [Hs2' Hf2]%bt_sorted_cons.
    assert (k1 = k2) as <-.
    { destruct (k_total k1 k2) as [Hlt|[?|Hlt]]; [|done|]; exfalso.
      - specialize (Hext k1). cbn in Hext. by rewrite kcmp_refl, Hlt in Hext.
      - specialize (Hext k2). cbn in Hext. by rewrite kcmp_refl, Hlt in Hext. }
    assert (v1 = v2) as <-.
    { specialize (Hext k1). cbn in Hext. rewrite kcmp_refl in Hext. congruence. }
    f_equal. apply IH; [done..|]. intros k. specialize (Hext k).
    rewrite !bt_get_cons in Hext by done. revert Hext.
    destruct (keqb_spec k k1) as [Heq|]; [|done]. subst k.
    rewrite !bt_get_above by done. done.
Qed.

Lemma bt_get_insert k k' v m :
  bt_sorted m -> bt_get k (bt_insert k' v m) = if keqb k k' then Some v else bt_get k m.
Proof.
  unfold keqb. induction m as [|[k0 v0] m IH]; intros Hs; cbn.
  - by destruct (kcmp k k').
  - pose proof Hs as [Hs' Hf]%bt_sorted_cons. destruct (kcmp k' k0) eqn:E.
    + apply kcmp_eq in E as ->. cbn. destruct (kcmp k k0); done.
    + cbn. destruct (kcmp k k') eqn:E'; [done| |done].
      by rewrite (kcmp_trans _ _ _ E' E).
    + cbn. rewrite IH by done. destruct (kcmp k k0) eqn:E'; [| |done].
      * apply kcmp_eq in E' as ->. apply kcmp_gt in E. by rewrite E.
      * apply kcmp_gt in E. by rewrite (klt_trans _ _ _ E' E).
Qed.

Lemma bt_insert_Forall (P : K * V -> Prop) k v m :
  P (k, v) -> Forall P m -> Forall P (bt_insert k v m).
Proof.
  intros Hp. induction 1 as [|[k0 v0] m ?? IH]; cbn; [auto|].
  destruct (kcmp k k0); auto.
Qed.

Lemma bt_insert_sorted k v m : bt_sorted m -> bt_sorted (bt_insert k v m).
Proof.
  induction m as [|[k0 v0] m IH]; intros Hs; cbn; [by repeat constructor|].
  pose proof Hs as [Hs' Hf]%bt_sorted_cons. destruct (kcmp k k0) eqn:E.
  - apply kcmp_eq in E as ->. by apply bt_sorted_cons.
  - apply bt_sorted_cons. split; [done|]. constructor; [done|]. by eapply Forall_klt_trans.
  - apply bt_sorted_cons. split; [by apply IH|]. apply bt_insert_Forall; [|done].
    by apply kcmp_gt in E.
Qed.

Lemma bt_insert_twice k v w m : bt_insert k v (bt_insert k w m) = bt_insert k v m.
Proof.
  induction m as [|[k' v'] m IH]; cbn; [by rewrite kcmp_refl|].
  destruct (kcmp k k') eqn:E; cbn; rewrite ?kcmp_refl, ?E, ?IH; done.
Qed.

Lemma Forall_List_filter {A} (P : A -> Prop) (f : A -> bool) (l : list A) :
  Forall P l -> Forall P (List.filter f l).
Proof. induction 1; cbn; [done|]. destruct (f _); auto. Qed.

Lemma bt_filter_sorted (f : K * V -> bool) m : bt_sorted m -> bt_sorted (List.filter f m).
Proof.
  induction m as [|[k v] m IH]; intros Hs; cbn; [done|].
  pose proof Hs as [Hs' Hf]%bt_sorted_cons. destruct (f (k, v)); [|by apply IH].
  apply bt_sorted_cons. split; [by apply IH|]. by apply Forall_List_filter.
Qed.

Lemma bt_get_filter (f : K * V -> bool) k m :
  bt_sorted m ->
  bt_get k (List.filter f m) =
    match bt_get k m with Some v => if f (k, v) then Some v else None | None => None end.
Proof.
  intros Hs. pose proof (bt_filter_sorted f m Hs) as Hs'.
  destruct (bt_get k m) as [v|] eqn:E.
  - apply bt_get_In in E; [|done]. destruct (f (k, v)) eqn:Ef.
    + apply bt_get_In; [done|]. by apply filter_In.
    + apply bt_get_None; [done|]. intros v' [Hin Hf]%filter_In.
      apply bt_get_In in E; [|done]. apply bt_get_In in Hin; [|done]. congruence.
  - apply bt_get_None; [done|]. intros v [Hin _]%filter_In.
    apply bt_get_In in Hin; [|done]. congruence.
Qed.

Lemma bt_get_remove k k' m :
  bt_sorted m -> bt_get k (bt_remove k' m) = if keqb k k' then None else bt_get k m.
Proof.
  intros Hs. unfold bt_remove. rewrite bt_get_filter by done. cbn.
  destruct (bt_get k m); by destruct (keqb k k').
Qed.

Lemma filter_length_lt {A} (f : A -> bool) (l : list A) x :
  In x l -> f x = false -> (length (List.filter f l) < length l)%nat.
Proof.
  induction l as [|y l IH]; cbn; [done|]. intros [->|Hin] Hf.
  - rewrite Hf. pose proof (List.filter_length_le f l). lia.
  - specialize (IH Hin Hf). destruct (f y); cbn; lia.
Qed.

Lemma bt_remove_length k v m :
  bt_sorted m -> bt_get k m = Some v -> (length (bt_remove k m) < length m)%nat.
Proof.
  intros Hs Hg%bt_get_In; [|done]. eapply filter_length_lt; [done|]. cbn. by rewrite keqb_refl.
Qed.

Lemma bt_remove_sorted k m : bt_sorted m -> bt_sorted (bt_remove k m).
Proof. apply bt_filter_sorted. Qed.

Lemma bt_get_map {W} (f : V -> W) k m :
  bt_get k (List.map (fun kv => (kv.1, f kv.2)) m) = f <$> bt_get k m.
Proof.
  induction m as [|[k' v] m IH]; cbn; [done|]. by destruct (kcmp k k').
Qed.

Lemma bt_sorted_map {W} (f : K * V -> W) m :
  bt_sorted m -> bt_sorted (List.map (fun kv => (kv.1, f kv)) m).
Proof.
  induction m as [|[k v] m IH]; intros Hs; cbn; [constructor|].
  pose proof Hs as [Hs' Hf]%bt_sorted_cons. constructor; [by apply IH|].
  apply Forall_map. eapply Forall_impl; [done|]. done.
Qed.

(** *** The ordered merge *)

Lemma ordered_merge_nil_r l : ordered_merge l [] = l.
Proof. by destruct l. Qed.

Lemma ordered_merge_cons x l y r :
  ordered_merge (x :: l) (y :: r) =
    match kcmp x.1 y.1 with
    | Lt => x :: ordered_merge l (y :: r)
    | Gt => y :: ordered_merge (x :: l) r
    | Eq => y :: ordered_merge l r
    end.
Proof. done. Qed.

Lemma ordered_merge_Forall (P : K * V -> Prop) l r :
  Forall P l -> Forall P r -> Forall P (ordered_merge l r).
Proof.
  intros Hl. revert r. induction Hl as [|x l Hx Hl IH]; intros r Hr; [by destruct r|].
  induction Hr as [|y r Hy Hr IHr]; [by constructor|].
  rewrite ordered_merge_cons. destruct (kcmp x.1 y.1); constructor; auto.
Qed.

Lemma ordered_merge_sorted l r : bt_sorted l -> bt_sorted r -> bt_sorted (ordered_merge l r).
Proof.
  revert r. induction l as [|[kx vx] l IH]; intros r Hl Hr; [by destruct r|].
  induction r as [|[ky vy] r IHr]; [done|].
  pose proof Hl as [Hl' Hfl]%bt_sorted_cons. pose proof Hr as [Hr' Hfr]%bt_sorted_cons.
  rewrite ordered_merge_cons; cbn [fst]. destruct (kcmp kx ky) eqn:E.
  - apply kcmp_eq in E as ->. apply bt_sorted_cons. split; [auto|].
    by apply ordered_merge_Forall.
  - apply bt_sorted_cons. split; [auto|]. apply ordered_merge_Forall; [done|].
    constructor; [done|]. by eapply Forall_klt_trans.
  - apply kcmp_gt in E. apply bt_sorted_cons. split; [auto|].
    apply ordered_merge_Forall; [|done]. constructor; [done|]. by eapply Forall_klt_trans.
Qed.

(** A merged lookup reads [r] first and falls back to [l]. *)
Lemma bt_get_ordered_merge k l r :
  bt_sorted l -> bt_sorted r ->
  bt_get k (ordered_merge l r) =
    match bt_get k r with Some v => Some v | None => bt_get k l end.
Proof.
  revert r. induction l as [|[kx vx] l IH]; intros r Hl Hr.
  { replace (ordered_merge [] r) with r by (by destruct r). by destruct (bt_get k r). }
  induction r as [|[ky vy] r IHr]; [done|].
  pose proof (ordered_merge_sorted _ _ Hl Hr) as Hm.
  pose proof Hl as [Hl' Hfl]%bt_sorted_cons. pose proof Hr as [Hr' Hfr]%bt_sorted_cons.
  rewrite ordered_merge_cons in *; cbn [fst] in *. destruct (kcmp kx ky) eqn:E.
  - apply kcmp_eq in E as ->. rewrite !bt_get_cons by done. rewrite IH by done.
    by destruct (keqb k ky).
  - rewrite (bt_get_cons k kx) by done. rewrite IH by done.
    rewrite (bt_get_cons k kx vx l) by done.
    destruct (keqb_spec k kx) as [->|]; [|done]. by rewrite bt_get_above
      by (constructor; [done|by eapply Forall_klt_trans]).
  - rewrite (bt_get_cons k ky) by done. rewrite IHr by done.
    rewrite (bt_get_cons k ky vy r) by done. by destruct (keqb k ky).
Qed.
End map_facts.

#[export] Hint Resolve bt_sorted_nil bt_insert_sorted bt_remove_sorted bt_filter_sorted
  ordered_merge_sorted bt_sorted_map klt_trans : tide.

(** [filter_map] on the values: keys stay, entries whose image is [None] go. *)
Definition bt_omap {K V W} (f : K -> V -> option W) (m : list (K * V)) : list (K * W) :=
  omap (fun kv => match f kv.1 kv.2 with Some w => Some (kv.1, w) | None => None end) m.

Section omap_facts.
Context {K V W : Type} `{OrdKey K} (f : K -> V -> option W).
Implicit Types (m : list (K * V)).

Lemma bt_omap_cons k v m :
  bt_omap f ((k, v) :: m) = match f k v with Some w => (k, w) :: bt_omap f m | None => bt_omap f m end.
Proof. unfold bt_omap. cbn. by destruct (f k v). Qed.

Lemma bt_omap_Forall (P : K -> Prop) m :
  Forall (fun kv => P kv.1) m -> Forall (fun kw => P kw.1) (bt_omap f m).
Proof.
  induction 1 as [|[k v] m Hk Hf IH]; [constructor|]. rewrite bt_omap_cons.
  destruct (f k v); [by constructor|done].
Qed.

Lemma bt_omap_sorted m : bt_sorted m -> bt_sorted (bt_omap f m).
Proof.
  induction m as [|[k v] m IH]; [constructor|]. intros [Hs Hf]%bt_sorted_cons. rewrite bt_omap_cons.
  destruct (f k v); [|by apply IH]. apply bt_sorted_cons. split; [by apply IH|].
  by apply (bt_omap_Forall (klt k)).
Qed.

Lemma bt_get_omap k m : bt_sorted m -> bt_get k (bt_omap f m) = bt_get k m ≫= f k.
Proof.
  induction m as [|[k' v] m IH]; [done|]. intros Hs. rewrite bt_get_cons by done.
  pose proof Hs as [Hs' Hf]%bt_sorted_cons. rewrite bt_omap_cons.
  destruct (f k' v) as [w|] eqn:E.
  - rewrite bt_get_cons, IH;
      [| done | apply bt_sorted_cons; split; [by apply bt_omap_sorted | by apply (bt_omap_Forall (klt k'))]].
    destruct (keqb_spec k k') as [->|]; cbn; by rewrite ?E.
  - rewrite IH by done. destruct (keqb_spec k k') as [->|]; [|done]. cbn.
    by rewrite E, bt_get_above.
Qed.
End omap_facts.

#[export] Hint Resolve bt_omap_sorted : tide.

(** ** Instances *)

#[export] Program Instance Z_ord : OrdKey Z := {| kcmp := Z.compare |}.
Next Obligation. apply Z.compare_eq_iff. Qed.
Next Obligation. intros. apply Z.compare_antisym. Qed.
Next Obligation. intros a b c. rewrite !Z.compare_lt_iff. lia. Qed.

(** Pairs are ordered lexicographically, as by [#[derive(Ord)]]. *)
Definition pair_cmp {A B} `{OrdKey A, OrdKey B} (x y : A * B) : comparison :=
  match kcmp x.1 y.1 with Eq => kcmp x.2 y.2 | c => c end.

#[export] Program Instance pair_ord {A B} `{OrdKey A, OrdKey B} : OrdKey (A * B) :=
  {| kcmp := pair_cmp |}.
Next Obligation.
  intros A B ?? [a1 b1] [a2 b2]. unfold pair_cmp. cbn. destruct (kcmp a1 a2) eqn:E.
  - apply kcmp_eq in E as ->. rewrite kcmp_eq. naive_solver.
  - split; [done|]. intros [= -> ->]. by rewrite kcmp_refl in E.
  - split; [done|]. intros [= -> ->]. by rewrite kcmp_refl in E.
Qed.
Next Obligation.
  intros A B ?? [a1 b1] [a2 b2]. unfold pair_cmp. cbn.
  rewrite (kcmp_antisym a1 a2), (kcmp_antisym b1 b2). by destruct (kcmp a1 a2).
Qed.
Next Obligation.
  intros A B ?? [a1 b1] [a2 b2] [a3 b3]. unfold pair_cmp. cbn.
  destruct (kcmp a1 a2) eqn:E1, (kcmp a2 a3) eqn:E2; try done;
    rewrite ?kcmp_eq in E1; rewrite ?kcmp_eq in E2; subst.
  - rewrite kcmp_refl. apply kcmp_trans.
  - by rewrite E2.
  - by rewrite E1.
  - by rewrite (kcmp_trans _ _ _ E1 E2).
Qed.
