(* ===== verification/Bytes.v ===== *)
(** * Byte strings, integer codecs, and the numeric helpers over them

    Byte strings ([&[u8]], [Vec<u8>], [Bytes], [BytesMut]) are lists of [Z],
    compared lexicographically.  [be_bytes n v] is [v.to_be_bytes()] at [n]
    bytes and [be_val] is [from_be_bytes]; [get_u8] ... [get_u64] read a [Buf]
    cursor (the remaining bytes) and panic when it is exhausted.

    Also here: [src/tidehunter/src/primitives/var_int.rs] (the u16 varint),
    [src/tidehunter/src/primitives/slice_buf.rs] and
    [src/tidehunter/src/math.rs]. *)

From Stdlib Require Import ZArith Lia List Sorting.Sorted.
From stdpp Require Import base tactics list strings.
From S2P Require Import Prelude BTree.

Local Open Scope Z_scope.

(** ** Lexicographic order on byte strings *)

Fixpoint bytes_cmp (a b : list Z) : comparison :=
  match a, b with
  | [], [] => Eq
  | [], _ :: _ => Lt
  | _ :: _, [] => Gt
  | x :: a', y :: b' => match x ?= y with Eq => bytes_cmp a' b' | c => c end
  end.

(** ** Slicing *)

(** [&b[from..to]] *)
Definition slice (b : list Z) (from to : nat) : outcome (list Z) :=
  if (from <=? to)%nat && (to <=? length b)%nat then Ok (take (to - from) (drop from b))
  else Panic "slice index out of range".

(** [&b[from..]] *)
Definition slice_from (b : list Z) (from : nat) : outcome (list Z) :=
  if (from <=? length b)%nat then Ok (drop from b)
  else Panic "slice index out of range".

(** [dst[at..at + src.len()].copy_from_slice(src)] *)
Definition copy_at (dst : list Z) (at_ : nat) (src : list Z) : list Z :=
  take at_ dst ++ src ++ drop (at_ + length src) dst.

(** ** Big-endian integers *)

Fixpoint be_bytes (n : nat) (z : Z) : list Z :=
  match n with
  | O => []
  | S n' => be_bytes n' (z / 256) ++ [z mod 256]
  end.

Definition be_val (l : list Z) : Z := fold_left (fun acc b => acc * 256 + b) l 0.

(** Reads [n] bytes off a cursor as a big-endian integer. *)
Definition get_be (n : nat) (b : list Z) : outcome (Z * list Z) :=
  if (n <=? length b)%nat then Ok (be_val (take n b), drop n b)
  else Panic "advance out of bounds".

Definition get_u8 : list Z -> outcome (Z * list Z) := get_be 1.
Definition get_u16 : list Z -> outcome (Z * list Z) := get_be 2.
Definition get_u32 : list Z -> outcome (Z * list Z) := get_be 4.
Definition get_u64 : list Z -> outcome (Z * list Z) := get_be 8.

(** ** [primitives/slice_buf.rs]

    A [SliceBuf] is the buffer with the offset reached in it. *)

Record SliceBuf := mkSliceBuf { sb_data : list Z; sb_offset : nat }.

Definition slice_buf_new (data : list Z) : SliceBuf := mkSliceBuf data 0.

Definition slice_buf_remaining (b : SliceBuf) : nat := length (sb_data b) - sb_offset b.

Definition slice_n (b : SliceBuf) (n : nat) : outcome (list Z * SliceBuf) :=
  if (slice_buf_remaining b <? n)%nat then Panic "Requested bytes not available"
  else
    s ← slice (sb_data b) (sb_offset b) (sb_offset b + n);
    Ok (s, mkSliceBuf (sb_data b) (sb_offset b + n)).

Definition slice_buf_chunk (b : SliceBuf) : outcome (list Z) :=
  slice_from (sb_data b) (sb_offset b).

Definition slice_buf_advance (b : SliceBuf) (cnt : nat) : SliceBuf :=
  mkSliceBuf (sb_data b) (Nat.min (sb_offset b + cnt) (length (sb_data b))).

(** ** [primitives/var_int.rs] *)

Definition MAX_U16_VARINT : Z := 0x7FFF.

Definition MAX_SINGLE_BYTE_EXCLUDED : Z := 0x80.

Definition serialize_u16_varint (value : Z) (buf : list Z) : outcome (list Z) :=
  if MAX_U16_VARINT <? value then Panic "Value exceeds maximum encodable value"
  else if value <? MAX_SINGLE_BYTE_EXCLUDED then Ok (buf ++ [wrap8 value])
  else
    let low := wrap8 (Z.land value 0x7F) in
    let high := wrap8 (Z.shiftr value 7) in
    Ok (buf ++ [Z.lor (wrap8 MAX_SINGLE_BYTE_EXCLUDED) low; high]).

Definition deserialize_u16_varint (buf : list Z) : outcome (Z * list Z) :=
  match buf with
  | [] => Panic "Attempted to deserialize from empty buffer"
  | first :: rest =>
      if first <? 0x80 then Ok (first, rest)
      else
        match rest with
        | [] => Panic "Insufficient bytes for two-byte encoding"
        | second :: rest' =>
            let low := Z.land first 0x7F in
            let high := wrap16 (Z.shiftl second 7) in
            Ok (Z.lor high low, rest')
        end
  end.

(** ** [math.rs] *)

Definition rescale_u32 (v from_upper_bound_exclusive to_upper_bound_exclusive : Z) : outcome Z :=
  _ ← assert_that (v <? from_upper_bound_exclusive) "v out of range";
  _ ← assert_that (0 <? to_upper_bound_exclusive) "to_upper_bound_exclusive > 0";
  let bucket := u64_mul v to_upper_bound_exclusive / from_upper_bound_exclusive in
  if bucket <=? u32_max then Ok bucket else Panic "TryFromIntError".

Definition downscale_u32 (v upper_bound_exclusive : Z) : outcome Z :=
  rescale_u32 v (u32_max + 1) upper_bound_exclusive.

Definition starting_u32 (b : list Z) : Z :=
  let copy := Nat.min (length b) 4 in
  be_val (copy_at [0; 0; 0; 0] 0 (take copy b)).

Definition ending_u32 (b : list Z) : Z :=
  let copy := Nat.min (length b) 4 in
  be_val (copy_at [0; 0; 0; 0] (4 - copy) (drop (length b - copy) b)).

Definition starting_u64 (b : list Z) : Z :=
  let copy := Nat.min (length b) 8 in
  be_val (copy_at [0; 0; 0; 0; 0; 0; 0; 0] 0 (take copy b)).

Definition next_bounded (n max_excluded : Z) (reverse : bool) : option Z :=
  if reverse then checked_sub n 1
  else if u64_sub max_excluded 1 <=? n then None
  else Some (u64_add n 1).

(** ** Order *)

Lemma bytes_cmp_eq a b : bytes_cmp a b = Eq <-> a = b.
Proof.
  revert b. induction a as [|x a IH]; intros [|y b]; cbn; try done.
  destruct (Z.compare_spec x y) as [->|?|?]; [rewrite IH; naive_solver| |];
    (split; [done|]); intros [= -> ->]; lia.
Qed.

Lemma bytes_cmp_antisym a b : bytes_cmp b a = CompOpp (bytes_cmp a b).
Proof.
  revert b. induction a as [|x a IH]; intros [|y b]; cbn; try done.
  rewrite (Z.compare_antisym x y). destruct (x ?= y); cbn; auto.
Qed.

Lemma bytes_cmp_trans a b c : bytes_cmp a b = Lt -> bytes_cmp b c = Lt -> bytes_cmp a c = Lt.
Proof.
  revert b c. induction a as [|x a IH]; intros [|y b] [|z c]; cbn; try done.
  destruct (Z.compare_spec x y) as [->|Hxy|], (Z.compare_spec y z) as [->|Hyz|]; try done.
  - apply IH.
  - intros _ _. by apply Z.compare_lt_iff in Hxy as ->.
  - intros _ _. assert (x < z) as Hxz by lia. by apply Z.compare_lt_iff in Hxz as ->.
Qed.

#[export] Instance bytes_ord : OrdKey (list Z) :=
  {| kcmp := bytes_cmp; kcmp_eq := bytes_cmp_eq; kcmp_antisym := bytes_cmp_antisym;
     kcmp_trans := bytes_cmp_trans |}.

(** ** Codec lemmas *)

Lemma length_be_bytes n z : length (be_bytes n z) = n.
Proof. revert z. induction n as [|n IH]; intros z; cbn; [done|]. rewrite length_app, IH. cbn. lia. Qed.

Lemma be_val_snoc l b : be_val (l ++ [b]) = be_val l * 256 + b.
Proof. unfold be_val. by rewrite fold_left_app. Qed.

Lemma be_val_be_bytes_mod n z : be_val (be_bytes n z) = z mod 256 ^ Z.of_nat n.
Proof.
  revert z. induction n as [|n IH]; intros z; cbn [be_bytes].
  - cbn. by rewrite Z.mod_1_r.
  - rewrite be_val_snoc, IH. rewrite Nat2Z.inj_succ, Z.pow_succ_r by lia.
    rewrite Z.rem_mul_r by lia. lia.
Qed.

Lemma be_val_be_bytes n z : 0 <= z < 256 ^ Z.of_nat n -> be_val (be_bytes n z) = z.
Proof. intros. rewrite be_val_be_bytes_mod. by apply Z.mod_small. Qed.

Lemma be_val_u16 z : is_u16 z -> be_val (be_bytes 2 z) = z.
Proof. intros. by apply be_val_be_bytes. Qed.

Lemma be_val_u32 z : is_u32 z -> be_val (be_bytes 4 z) = z.
Proof. intros. by apply be_val_be_bytes. Qed.

Lemma be_val_u64 z : is_u64 z -> be_val (be_bytes 8 z) = z.
Proof. intros. by apply be_val_be_bytes. Qed.

Lemma be_bytes_u8 n z : Forall is_u8 (be_bytes n z).
Proof.
  revert z. induction n as [|n IH]; intros z; cbn; [constructor|].
  apply Forall_app. split; [done|]. constructor; [|done]. unfold is_u8.
  apply Z.mod_pos_bound. lia.
Qed.

Lemma be_val_bound l : Forall is_u8 l -> 0 <= be_val l < 256 ^ Z.of_nat (length l).
Proof.
  induction l as [|b l IH] using rev_ind; intros Hf; [cbn; lia|].
  apply Forall_app in Hf as [Hl Hb]. inversion_clear Hb as [|?? Hb' _].
  rewrite be_val_snoc, length_app. cbn. rewrite Nat.add_1_r, Nat2Z.inj_succ, Z.pow_succ_r by lia.
  unfold is_u8 in Hb'. specialize (IH Hl). nia.
Qed.

Lemma be_bytes_be_val l : Forall is_u8 l -> be_bytes (length l) (be_val l) = l.
Proof.
  induction l as [|b l IH] using rev_ind; intros Hf; [done|].
  apply Forall_app in Hf as [Hl Hb]. inversion_clear Hb as [|?? Hb' _]. unfold is_u8 in Hb'.
  rewrite length_app, Nat.add_1_r, be_val_snoc. cbn [be_bytes].
  rewrite Z.div_add_l by lia. rewrite (Z.div_small b) by lia. rewrite Z.add_0_r, IH by done.
  do 2 f_equal. rewrite Z.add_comm, Z.mod_add by lia. by apply Z.mod_small.
Qed.

Lemma get_be_app n z rest :
  0 <= z < 256 ^ Z.of_nat n -> get_be n (be_bytes n z ++ rest) = Ok (z, rest).
Proof.
  intros Hz. unfold get_be. rewrite length_app, length_be_bytes.
  destruct (Nat.leb_spec n (n + length rest)); [|lia].
  rewrite take_app_length', drop_app_length' by (by rewrite length_be_bytes).
  by rewrite be_val_be_bytes.
Qed.

Lemma slice_app_mid (a m c : list Z) :
  slice (a ++ m ++ c) (length a) (length a + length m) = Ok m.
Proof.
  unfold slice. rewrite !length_app.
  destruct (Nat.leb_spec (length a) (length a + length m)); [|lia].
  destruct (Nat.leb_spec (length a + length m) (length a + (length m + length c))); [|lia].
  cbn. rewrite drop_app_length. f_equal.
  replace (length a + length m - length a)%nat with (length m) by lia.
  apply take_app_length.
Qed.

Lemma slice_mid (b a m c : list Z) (i j : nat) :
  b = a ++ m ++ c -> i = length a -> j = (length a + length m)%nat -> slice b i j = Ok m.
Proof. intros -> -> ->. apply slice_app_mid. Qed.

(** On byte strings of equal length the order is the order of the big-endian
    values. *)
Lemma be_val_cons b l : be_val (b :: l) = b * 256 ^ Z.of_nat (length l) + be_val l.
Proof.
  induction l as [|c l IH] using rev_ind; [cbn; lia|].
  rewrite app_comm_cons, !be_val_snoc, IH, length_app, Nat.add_1_r, Nat2Z.inj_succ,
    Z.pow_succ_r by lia. lia.
Qed.

Lemma bytes_cmp_be_val a b :
  length a = length b -> Forall is_u8 a -> Forall is_u8 b ->
  bytes_cmp a b = (be_val a ?= be_val b).
Proof.
  revert b. induction a as [|x a IH]; intros [|y b] Hl Ha Hb; try done.
  inversion_clear Ha as [|?? Hx Ha']. inversion_clear Hb as [|?? Hy Hb'].
  injection Hl as Hl. cbn [bytes_cmp]. rewrite !be_val_cons, Hl.
  pose proof (be_val_bound a Ha'). pose proof (be_val_bound b Hb'). rewrite Hl in *.
  destruct (Z.compare_spec x y) as [->|Hlt|Hlt].
  - rewrite IH by done. destruct (Z.compare_spec (be_val a) (be_val b)); symmetry.
    + apply Z.compare_eq_iff. lia.
    + apply Z.compare_lt_iff. lia.
    + apply Z.compare_gt_iff. lia.
  - symmetry. apply Z.compare_lt_iff. nia.
  - symmetry. apply Z.compare_gt_iff. nia.
Qed.

Lemma get_u8_cons t rest : get_u8 (t :: rest) = Ok (t, rest).
Proof. done. Qed.

#[export] Hint Rewrite length_be_bytes @length_app : tide_len.

Arguments be_bytes : simpl never.
Arguments be_val : simpl never.
Arguments get_be : simpl never.
Arguments get_u8 : simpl never.
Arguments get_u16 : simpl never.
Arguments get_u32 : simpl never.
Arguments get_u64 : simpl never.

(** ** Bit packing *)

Lemma land_shiftl_small h low n :
  0 <= n -> 0 <= low < 2 ^ n -> Z.land (Z.shiftl h n) low = 0.
Proof.
  intros Hn Hlow. apply Z.bits_inj'. intros i Hi. rewrite Z.land_spec, Z.bits_0.
  destruct (Z.ltb_spec i n).
  - by rewrite Z.shiftl_spec_low.
  - rewrite <- (Z.mod_small low (2 ^ n)) by done.
    rewrite Z.mod_pow2_bits_high by lia. apply andb_false_r.
Qed.

Lemma lor_shiftl_small h low n :
  0 <= n -> 0 <= low < 2 ^ n -> Z.lor (Z.shiftl h n) low = h * 2 ^ n + low.
Proof.
  intros Hn Hlow. rewrite <- Z.shiftl_mul_pow2 by done.
  pose proof (Z.add_lor_land (Z.shiftl h n) low) as E.
  rewrite land_shiftl_small in E by done. lia.
Qed.

Lemma land_ones_mod z n : 0 <= n -> Z.land z (2 ^ n - 1) = z mod 2 ^ n.
Proof. intros. rewrite <- Z.land_ones by done. by rewrite Z.ones_equiv. Qed.

(** ** The varint round trip *)

Lemma varint_two_byte_split v :
  MAX_SINGLE_BYTE_EXCLUDED <= v <= MAX_U16_VARINT ->
  wrap8 (Z.land v 0x7F) = v mod 128 /\ wrap8 (Z.shiftr v 7) = v / 128 /\
  Z.lor (wrap8 MAX_SINGLE_BYTE_EXCLUDED) (v mod 128) = 128 + v mod 128.
Proof.
  unfold MAX_SINGLE_BYTE_EXCLUDED, MAX_U16_VARINT, wrap8. intros Hv.
  pose proof (Z.mod_pos_bound v 128 ltac:(lia)).
  change 0x7F with (2 ^ 7 - 1). rewrite land_ones_mod, Z.shiftr_div_pow2 by lia.
  change (2 ^ 7) with 128. split; [apply Z.mod_small; lia|]. split.
  - apply Z.mod_small. split; [apply Z.div_pos; lia|]. apply Z.div_lt_upper_bound; lia.
  - change (0x80 mod 2 ^ 8) with (Z.shiftl 1 7). rewrite lor_shiftl_small; lia.
Qed.

Lemma varint_two_byte_join lo hi :
  0 <= lo < 128 -> 0 <= hi < 256 ->
  Z.lor (wrap16 (Z.shiftl hi 7)) (Z.land (128 + lo) 0x7F) = hi * 128 + lo.
Proof.
  intros Hlo Hhi. change 0x7F with (2 ^ 7 - 1). rewrite land_ones_mod by lia.
  change (2 ^ 7) with 128. replace ((128 + lo) mod 128) with lo.
  - unfold wrap16. rewrite Z.mod_small by (rewrite Z.shiftl_mul_pow2; lia).
    by rewrite lor_shiftl_small.
  - rewrite <- Zplus_mod_idemp_l, Z.mod_same by lia. by rewrite Z.mod_small.
Qed.

Lemma varint_roundtrip_aux v rest :
  0 <= v <= MAX_U16_VARINT ->
  exists enc, (forall out, serialize_u16_varint v out = Ok (out ++ enc)) /\
    (1 <= length enc <= 2)%nat /\ deserialize_u16_varint (enc ++ rest) = Ok (v, rest).
Proof.
  intros Hv. unfold serialize_u16_varint. destruct (Z.ltb_spec MAX_U16_VARINT v); [lia|].
  destruct (Z.ltb_spec v MAX_SINGLE_BYTE_EXCLUDED) as [Hs|Hb].
  - exists [wrap8 v]. split_and!; [done|cbn; lia|cbn; lia|]. unfold MAX_SINGLE_BYTE_EXCLUDED in Hs.
    cbn. unfold wrap8. rewrite Z.mod_small by lia. by destruct (Z.ltb_spec v 128); [|lia].
  - destruct (varint_two_byte_split v ltac:(lia)) as (-> & -> & ->). eexists. split; [done|].
    split; [cbn; lia|]. cbn [app deserialize_u16_varint].
    pose proof (Z.mod_pos_bound v 128 ltac:(lia)).
    destruct (Z.ltb_spec (128 + v mod 128) 128); [lia|]. unfold MAX_U16_VARINT, MAX_SINGLE_BYTE_EXCLUDED in *.
    rewrite varint_two_byte_join; [|lia|].
    + do 2 f_equal. rewrite (Z.div_mod v 128) at 3 by lia. lia.
    + split; [apply Z.div_pos; lia|]. apply Z.div_lt_upper_bound; lia.
Qed.

(** ** Monotonicity of the key prefixes *)

(** The first [n] bytes of [l], padded with zeroes. *)
Fixpoint pad (n : nat) (l : list Z) : list Z :=
  match n with
  | O => []
  | S n' => match l with [] => 0 :: pad n' [] | x :: l' => x :: pad n' l' end
  end.

Lemma pad_spec n l : pad n l = take (Nat.min (length l) n) l ++ replicate (n - length l) 0.
Proof.
  revert l. induction n as [|n IH]; intros [|x l]; cbn; try done.
  - f_equal. rewrite IH. cbn. by rewrite Nat.sub_0_r.
  - f_equal. by rewrite IH.
Qed.

Lemma length_pad n l : length (pad n l) = n.
Proof. revert l. induction n as [|n IH]; intros [|x l]; cbn; auto. Qed.

Lemma pad_u8 n l : Forall is_u8 l -> Forall is_u8 (pad n l).
Proof.
  revert l. induction n as [|n IH]; intros [|x l]; cbn; [done|done| |].
  - constructor; [unfold is_u8; lia|auto].
  - inversion_clear 1. auto.
Qed.

Lemma pad_mono n a b :
  Forall is_u8 b -> bytes_cmp a b <> Gt -> bytes_cmp (pad n a) (pad n b) <> Gt.
Proof.
  revert a b. induction n as [|n IH]; intros a b Hb Hab; [done|].
  destruct a as [|x a], b as [|y b]; cbn [pad bytes_cmp] in *.
  - apply IH; done.
  - inversion_clear Hb as [|?? Hy Hb']. unfold is_u8 in Hy.
    destruct (Z.compare_spec 0 y); [|done|lia]. apply IH; [done|]. by destruct b.
  - done.
  - inversion_clear Hb. destruct (x ?= y); [auto|done|done].
Qed.

Lemma starting_u32_pad b : starting_u32 b = be_val (pad 4 b).
Proof.
  unfold starting_u32, copy_at. f_equal. rewrite pad_spec. cbn [app take].
  f_equal. change [0; 0; 0; 0] with (replicate 4 0).
  rewrite drop_replicate, length_take. f_equal. lia.
Qed.

Lemma starting_u64_pad b : starting_u64 b = be_val (pad 8 b).
Proof.
  unfold starting_u64, copy_at. f_equal. rewrite pad_spec. cbn [app take].
  f_equal. change [0; 0; 0; 0; 0; 0; 0; 0] with (replicate 8 0).
  rewrite drop_replicate, length_take. f_equal. lia.
Qed.

Lemma be_val_pad_mono n a b :
  Forall is_u8 a -> Forall is_u8 b -> bytes_cmp a b <> Gt -> be_val (pad n a) <= be_val (pad n b).
Proof.
  intros Ha Hb Hab. pose proof (pad_mono n a b Hb Hab) as Hp.
  rewrite bytes_cmp_be_val in Hp by (rewrite ?length_pad; auto using pad_u8).
  by apply Z.compare_le_iff.
Qed.

Lemma be_val_pad_bound n b : Forall is_u8 b -> 0 <= be_val (pad n b) < 256 ^ Z.of_nat n.
Proof. intros Hb. rewrite <- (length_pad n b) at 3. by apply be_val_bound, pad_u8. Qed.

Lemma downscale_u32_spec v n :
  is_u32 v -> 0 < n <= u32_max ->
  downscale_u32 v n = Ok (v * n / 2 ^ 32) /\ 0 <= v * n / 2 ^ 32 < n.
Proof.
  unfold is_u32, u32_max. intros Hv Hn.
  assert (0 <= v * n / 2 ^ 32 < n) as Hb.
  { split; [apply Z.div_pos; nia|]. apply Z.div_lt_upper_bound; nia. }
  split; [|done]. unfold downscale_u32, rescale_u32, assert_that, mbind, outcome_bind, u32_max.
  replace (2 ^ 32 - 1 + 1) with (2 ^ 32) by lia.
  destruct (Z.ltb_spec v (2 ^ 32)); [|lia]. destruct (Z.ltb_spec 0 n); [|lia].
  rewrite u64_mul_small by (unfold u64_max; nia).
  destruct (Z.leb_spec (v * n / 2 ^ 32) (2 ^ 32 - 1)); [done|lia].
Qed.

(** Key prefixes preserve key order: on byte strings a key not above
    another has a [starting_u32] (and [starting_u64]) prefix not above the
    other's, and [downscale_u32] keeps that order inside the bound, so keys are
    spread over cells in key order. *)
Lemma key_prefix_monotone a b n :
  Forall is_u8 a -> Forall is_u8 b -> kle a b -> 0 < n <= u32_max ->
  starting_u32 a <= starting_u32 b /\ starting_u64 a <= starting_u64 b /\
  exists da db, downscale_u32 (starting_u32 a) n = Ok da /\ downscale_u32 (starting_u32 b) n = Ok db /\
    0 <= da <= db /\ db < n.
Proof.
  intros Ha Hb Hab Hn. rewrite !starting_u32_pad, !starting_u64_pad.
  pose proof (be_val_pad_mono 4 a b Ha Hb Hab) as H4. pose proof (be_val_pad_mono 8 a b Ha Hb Hab) as H8.
  pose proof (be_val_pad_bound 4 a Ha) as Ba. pose proof (be_val_pad_bound 4 b Hb) as Bb.
  change (256 ^ Z.of_nat 4) with (2 ^ 32) in *.
  destruct (downscale_u32_spec (be_val (pad 4 a)) n Ba Hn) as [-> Hda].
  destruct (downscale_u32_spec (be_val (pad 4 b)) n Bb Hn) as [-> Hdb].
  split_and!; [done|done|]. eexists _, _. split_and!; [done|done|lia| |lia].
  apply Z.div_le_mono; nia.
Qed.

(** The u16 varint: every length up to [MAX_U16_VARINT] is written in one or
    two bytes and read back, leaving what follows; a larger one panics. *)
Lemma u16_varint_roundtrip v :
  (0 <= v <= MAX_U16_VARINT ->
     exists enc, (forall out, serialize_u16_varint v out = Ok (out ++ enc)) /\
       (1 <= length enc <= 2)%nat /\ forall rest, deserialize_u16_varint (enc ++ rest) = Ok (v, rest)) /\
  (MAX_U16_VARINT < v -> forall out, is_ok (serialize_u16_varint v out) = false).
Proof.
  split.
  - intros Hv. destruct (varint_roundtrip_aux v [] Hv) as (enc & Hs & Hl & _). exists enc.
    split_and!; [done|lia|lia|]. intros rest.
    destruct (varint_roundtrip_aux v rest Hv) as (enc' & Hs' & _ & Hd).
    specialize (Hs []). specialize (Hs' []). rewrite Hs in Hs'. by simplify_eq/=.
  - intros Hv out. unfold serialize_u16_varint. by rewrite (proj2 (Z.ltb_lt _ _) Hv).
Qed.

