(* ===== verification/Position.v ===== *)
(** * WAL positions

    [src/tidehunter/src/wal/position.rs]: [WalPosition] and its 12-byte
    encoding, the newtypes [MapId], [WalFileId] and [LastProcessed], and the
    [HasOffset] trait as a class. *)

From Stdlib Require Import ZArith Lia List.
From stdpp Require Import base tactics list strings.
From S2P Require Import Prelude BTree Bytes.

Local Open Scope Z_scope.

(** The trait [HasOffset]. *)
Class HasOffset (A : Type) := has_offset : A -> Z.

Record WalPosition := mkWalPosition { wp_offset : Z; wp_len : Z }.

Definition WalFileId : Type := Z.
Definition MapId : Type := Z.
Definition LastProcessed : Type := Z.

Definition WalPosition_MAX : WalPosition := mkWalPosition u64_max u32_max.
Definition WalPosition_INVALID : WalPosition := WalPosition_MAX.
Definition WalPosition_LENGTH : nat := 12.

Definition wp_new (offset len : Z) : WalPosition := mkWalPosition offset len.

Definition wp_write_to_buf (p : WalPosition) (buf : list Z) : list Z :=
  (buf ++ be_bytes 8 (wp_offset p)) ++ be_bytes 4 (wp_len p).

Definition wp_to_vec (p : WalPosition) : list Z := wp_write_to_buf p [].

Definition wp_read_from_buf (buf : list Z) : outcome (WalPosition * list Z) :=
  '(offset, buf) ← get_u64 buf;
  '(len, buf) ← get_u32 buf;
  Ok (wp_new offset len, buf).

Definition wp_from_slice (slice : list Z) : outcome WalPosition :=
  '(r, slice) ← wp_read_from_buf slice;
  _ ← assert_that (length slice =? 0)%nat "assertion failed: 0 == slice.len()";
  Ok r.

Definition wp_frame_len (p : WalPosition) : Z := wp_len p.

(** [CrcFrame::CRC_HEADER_LENGTH] *)
Definition CRC_HEADER_LENGTH : nat := 8.

Definition wp_payload_len (p : WalPosition) : outcome Z :=
  expect (checked_sub (wp_frame_len p) (Z.of_nat CRC_HEADER_LENGTH))
    "Frame length must be greater or equal to crc header length".

#[export] Instance WalPosition_eq_dec : EqDecision WalPosition.
Proof. solve_decision. Defined.

Definition wp_valid (p : WalPosition) : option WalPosition :=
  if bool_decide (p = WalPosition_INVALID) then None else Some p.

Definition wp_is_valid (p : WalPosition) : bool :=
  negb (bool_decide (p = WalPosition_INVALID)).

#[export] Instance wp_has_offset : HasOffset WalPosition := wp_offset.

Definition map_id_prev_map (m : MapId) : option MapId := checked_sub m 1.

Definition map_id_next_map (m : MapId) : MapId := u64_add m 1.

Definition last_processed_none : LastProcessed := 0.

(** [LastProcessed::is_processed]: strictly below the frontier. *)
Definition is_processed {A} `{HasOffset A} (lp : LastProcessed) (pos : A) : bool :=
  has_offset pos <? lp.

(** ** Lemmas *)

(** The field ranges of [struct WalPosition { offset: u64, len: u32 }]. *)
Definition wp_ok (p : WalPosition) : Prop := is_u64 (wp_offset p) /\ is_u32 (wp_len p).

Lemma wp_ok_INVALID : wp_ok WalPosition_INVALID.
Proof. by split. Qed.

Lemma wp_write_to_buf_app p buf :
  wp_write_to_buf p buf = buf ++ be_bytes 8 (wp_offset p) ++ be_bytes 4 (wp_len p).
Proof. unfold wp_write_to_buf. by rewrite app_assoc. Qed.

Lemma wp_read_write p rest :
  wp_ok p ->
  wp_read_from_buf (be_bytes 8 (wp_offset p) ++ be_bytes 4 (wp_len p) ++ rest) = Ok (p, rest).
Proof.
  intros [Ho Hl]. unfold wp_read_from_buf, get_u64, get_u32.
  rewrite (get_be_app 8) by done. cbn. rewrite (get_be_app 4) by done. by destruct p.
Qed.

Lemma wp_is_valid_iff p : wp_is_valid p = true <-> p <> WalPosition_INVALID.
Proof. unfold wp_is_valid. rewrite negb_true_iff, bool_decide_eq_false. done. Qed.

Lemma wp_is_valid_false p : wp_is_valid p = false <-> p = WalPosition_INVALID.
Proof. unfold wp_is_valid. rewrite negb_false_iff, bool_decide_eq_true. done. Qed.

#[export] Hint Resolve wp_ok_INVALID : tide.

(** A WAL position survives its 12-byte encoding: writing it appends
    [LENGTH] bytes, and reading them gives it back and leaves what follows. *)
Lemma wal_position_roundtrip p buf rest :
  wp_ok p ->
  wp_write_to_buf p buf = buf ++ wp_to_vec p /\ length (wp_to_vec p) = WalPosition_LENGTH /\
  wp_read_from_buf (wp_to_vec p ++ rest) = Ok (p, rest) /\ wp_from_slice (wp_to_vec p) = Ok p.
Proof.
  intros Hp. unfold wp_to_vec. rewrite !wp_write_to_buf_app. cbn [app].
  assert (forall r, wp_read_from_buf ((be_bytes 8 (wp_offset p) ++ be_bytes 4 (wp_len p)) ++ r) = Ok (p, r)) as Hr.
  { intros r. rewrite <- app_assoc. by apply wp_read_write. }
  split_and!; [done|by rewrite length_app, !length_be_bytes|apply Hr|].
  unfold wp_from_slice. specialize (Hr []). rewrite app_nil_r in Hr. by rewrite Hr.
Qed.

