(* ===== verification/Cell.v ===== *)
(** * Cell identifiers

    [src/tidehunter/src/cell.rs]: [CellId], its order and its encoding. *)

From Stdlib Require Import ZArith Lia List.
From stdpp Require Import base tactics list strings.
From S2P Require Import Prelude BTree Bytes.

Local Open Scope Z_scope.

Inductive CellId :=
| CellInteger (p : Z)
| CellBytes (b : list Z).

#[export] Instance CellId_eq_dec : EqDecision CellId.
Proof. solve_decision. Defined.

Definition CELL_ID_INTEGER : Z := 0.
Definition CELL_ID_BYTES : Z := 1.

Definition mutex_seed (c : CellId) : Z :=
  match c with CellInteger p => p | CellBytes b => ending_u32 b end.

Definition assume_bytes_id (c : CellId) : outcome (list Z) :=
  match c with
  | CellInteger _ => Panic "assume_bytes_id called on integer cell id"
  | CellBytes b => Ok b
  end.

Definition cell_id_from_bytes (b : list Z) : outcome (CellId * list Z) :=
  '(cell_type, b) ← get_u8 b;
  if cell_type =? CELL_ID_INTEGER then
    '(val, b) ← get_u64 b;
    Ok (CellInteger val, b)
  else if cell_type =? CELL_ID_BYTES then
    '(len, b) ← get_u16 b;
    vec ← slice b 0 (Z.to_nat len);
    Ok (CellBytes vec, drop (Z.to_nat len) b)
  else Panic "Unknown cell id type".

Definition cell_id_cmp (a b : CellId) : outcome comparison :=
  match a, b with
  | CellInteger x, CellInteger y => Ok (Z.compare x y)
  | CellBytes x, CellBytes y => Ok (bytes_cmp x y)
  | CellInteger _, CellBytes _ => Panic "Not comparable cell ids: left integer, right bytes"
  | CellBytes _, CellInteger _ => Panic "Not comparable cell ids: left bytes, right integer"
  end.

Definition cell_id_len (c : CellId) : nat :=
  match c with CellInteger _ => 1 + 8 | CellBytes b => 1 + 2 + length b end.

Definition cell_id_write_into_bytes (c : CellId) (buf : list Z) : outcome (list Z) :=
  match c with
  | CellInteger val => Ok (buf ++ [CELL_ID_INTEGER] ++ be_bytes 8 val)
  | CellBytes b =>
      let buf := buf ++ [CELL_ID_BYTES] in
      _ ← assert_that (Z.of_nat (length b) <=? u16_max) "Cell ID bytes length exceeds u16::MAX";
      Ok (buf ++ be_bytes 2 (wrap16 (Z.of_nat (length b))) ++ b)
  end.

(** The ranges a [CellId] of the program is in: a [usize], or bytes short
    enough for the u16 length. *)
Definition cell_id_ok (c : CellId) : Prop :=
  match c with CellInteger v => is_u64 v | CellBytes b => Z.of_nat (length b) <= u16_max end.

(** A cell id's bytes do not depend on the buffer, are [cell_id_len] many, and
    parse back, leaving what follows. *)
Lemma cell_id_encodes c :
  cell_id_ok c ->
  exists enc, (forall buf, cell_id_write_into_bytes c buf = Ok (buf ++ enc)) /\
    length enc = cell_id_len c /\ forall rest, cell_id_from_bytes (enc ++ rest) = Ok (c, rest).
Proof.
  destruct c as [v|b]; cbn; intros Hok.
  - eexists. split; [done|]. split; [cbn; by rewrite length_be_bytes|]. intros rest.
    unfold cell_id_from_bytes. cbn. rewrite get_u8_cons. cbn.
    unfold get_u64. by rewrite (get_be_app 8).
  - destruct (Z.leb_spec (Z.of_nat (length b)) u16_max); [|lia]. cbn.
    assert (is_u16 (Z.of_nat (length b))) as Hu by (unfold is_u16, u16_max in *; lia).
    unfold wrap16. rewrite Z.mod_small by done.
    exists (CELL_ID_BYTES :: be_bytes 2 (Z.of_nat (length b)) ++ b).
    split; [intros buf; by rewrite <- app_assoc|]. split.
    { cbn. rewrite length_app, length_be_bytes. lia. }
    intros rest. unfold cell_id_from_bytes. cbn. rewrite get_u8_cons. cbn. rewrite <- app_assoc.
    unfold get_u16. rewrite (get_be_app 2) by done. cbn. rewrite Nat2Z.id.
    rewrite (slice_mid _ [] b rest) by done. cbn. by rewrite drop_app_length.
Qed.

(** A cell id survives the control region: what [write_into_bytes] appends
    has exactly [len] bytes, and [from_bytes] reads the cell id back and stops
    where it ends. *)
Lemma cell_id_roundtrip c buf rest :
  cell_id_ok c ->
  exists enc, cell_id_write_into_bytes c buf = Ok (buf ++ enc) /\
    length enc = cell_id_len c /\ cell_id_from_bytes (enc ++ rest) = Ok (c, rest).
Proof. intros Hc. destruct (cell_id_encodes c Hc) as (enc & ? & ? & ?). by exists enc. Qed.

