(* ===== verification/Layout.v ===== *)
(** * WAL layout

    [src/tidehunter/src/wal/layout.rs] and the alignment helpers of
    [src/tidehunter/src/file_reader.rs]: how positions are aligned, which map
    (fragment) and which WAL file a position falls in, and where an entry is
    placed so that it does not cross a fragment. *)

From Stdlib Require Import ZArith Lia List.
From stdpp Require Import base tactics list strings.
From S2P Require Import Prelude BTree Bytes Position.

Local Open Scope Z_scope.

(** ** Alignment: [file_reader.rs] *)

Definition DEFAULT_ALIGNMENT : Z := 8.
Definition DIRECT_IO_ALIGNMENT : Z := 512.

Definition align_down (v align : Z) : Z := u64_mul (v / align) align.

Definition align_up (v align : Z) : Z := align_down (u64_sub (u64_add v align) 1) align.

Definition align_size (v : Z) (direct_io : bool) : Z :=
  if direct_io then align_up v DIRECT_IO_ALIGNMENT else align_up v DEFAULT_ALIGNMENT.

(** [align_range]: the widened read range and the requested range inside it. *)
Definition align_range (start end_ : Z) : (Z * Z) * (Z * Z) :=
  let range_len := u64_sub end_ start in
  let read_start := align_down start DIRECT_IO_ALIGNMENT in
  let read_end := align_up end_ DIRECT_IO_ALIGNMENT in
  let map_start := u64_sub start read_start in
  let map_end := u64_add map_start range_len in
  ((read_start, read_end), (map_start, map_end)).

(** ** [WalLayout] *)

Inductive WalKind := Replay | Index.

Record WalLayout := mkWalLayout {
  frag_size : Z;
  max_maps : Z;
  direct_io : bool;
  wal_file_size : Z;
  layout_kind : WalKind;
}.

Definition layout_align (l : WalLayout) (v : Z) : Z := align_size v (direct_io l).

(** Integer division and remainder panic on a zero divisor. *)
Definition u64_div (a b : Z) : outcome Z :=
  if b =? 0 then Panic "attempt to divide by zero" else Ok (a / b).

Definition u64_rem (a b : Z) : outcome Z :=
  if b =? 0 then Panic "attempt to calculate the remainder with a divisor of zero"
  else Ok (a mod b).

Definition assert_layout (l : WalLayout) : outcome unit :=
  _ ← assert_that (frag_size l <=? u32_max) "Frag size too large";
  _ ← assert_that (frag_size l =? layout_align l (frag_size l)) "Frag size not aligned";
  r ← u64_rem (wal_file_size l) (frag_size l);
  assert_that (r =? 0) "WAL file size must be a multiple of the frag size".

Definition next_after_wal_position (l : WalLayout) (p : WalPosition) : outcome Z :=
  _ ← assert_that (wp_is_valid p) "assertion failed: wal_position.is_valid()";
  let len_aligned := layout_align l (wp_len p) in
  _ ← assert_that (len_aligned <=? frag_size l) "Entry is larger then frag_size";
  Ok (u64_add (wp_offset p) len_aligned).

Definition locate (l : WalLayout) (pos : Z) : outcome (MapId * Z) :=
  m ← u64_div pos (frag_size l);
  r ← u64_rem pos (frag_size l);
  Ok (m, r).

Definition first_in_frag (l : WalLayout) (map : MapId) : Z := u64_mul map (frag_size l).

Definition next_position (l : WalLayout) (pos len_aligned : Z) : outcome Z :=
  _ ← assert_that (len_aligned <=? frag_size l) "Entry is larger then frag_size";
  '(map_start, _) ← locate l pos;
  '(map_end, _) ← locate l (u64_sub (u64_add pos len_aligned) 1);
  Ok (if negb (map_start =? map_end) then first_in_frag l (map_id_next_map map_start) else pos).

Definition is_first_in_frag (l : WalLayout) (pos : Z) : outcome (option MapId) :=
  '(frag, offset) ← locate l pos;
  Ok (if offset =? 0 then Some frag else None).

(** Ranges are half open: [(start, end)]. *)
Definition map_range (l : WalLayout) (map : MapId) : Z * Z :=
  (u64_mul (frag_size l) map, u64_mul (frag_size l) (u64_add map 1)).

Definition wal_file_range (l : WalLayout) (file : WalFileId) : Z * Z :=
  (u64_mul (wal_file_size l) file, u64_mul (wal_file_size l) (u64_add file 1)).

Definition locate_file (l : WalLayout) (offset : Z) : outcome WalFileId :=
  u64_div offset (wal_file_size l).

Definition file_for_map (l : WalLayout) (map : MapId) : outcome WalFileId :=
  locate_file l (fst (map_range l map)).

Definition offset_in_wal_file (l : WalLayout) (offset : Z) : outcome Z :=
  u64_rem offset (wal_file_size l).

Definition wal_kind_name (k : WalKind) : string :=
  match k with Replay => "wal" | Index => "index" end.

(** ** Facts *)

(** The alignment the layout rounds to. *)
Definition layout_alignment (l : WalLayout) : Z :=
  if direct_io l then DIRECT_IO_ALIGNMENT else DEFAULT_ALIGNMENT.

(** What [assert_layout] establishes of a layout of machine integers. *)
Definition layout_ok (l : WalLayout) : Prop :=
  0 < frag_size l <= u32_max /\ (layout_alignment l | frag_size l) /\
  0 < wal_file_size l <= u64_max /\ (frag_size l | wal_file_size l).

Lemma align_down_spec v a : 0 <= v <= u64_max -> 0 < a -> align_down v a = v / a * a.
Proof.
  intros Hv Ha. unfold align_down. apply u64_mul_small; [apply Z.div_pos; lia|lia|].
  pose proof (Z.mul_div_le v a Ha). lia.
Qed.

Lemma align_up_spec v a :
  0 <= v -> 0 < a -> v + a <= u64_max ->
  v <= align_up v a < v + a /\ (a | align_up v a).
Proof.
  intros Hv Ha Hb. unfold align_up. rewrite u64_add_small, u64_sub_small by lia.
  rewrite align_down_spec by lia. split; [|apply Z.divide_factor_r].
  pose proof (Z.mul_div_le (v + a - 1) a Ha).
  pose proof (Z.mul_succ_div_gt (v + a - 1) a Ha). lia.
Qed.

Lemma layout_alignment_pos l : 0 < layout_alignment l <= 512.
Proof. unfold layout_alignment. by destruct (direct_io l). Qed.

Lemma layout_align_eq l v : layout_align l v = align_up v (layout_alignment l).
Proof. unfold layout_align, align_size, layout_alignment. by destruct (direct_io l). Qed.

Lemma layout_align_spec l v :
  0 <= v -> v + 512 <= u64_max ->
  v <= layout_align l v < v + layout_alignment l /\ (layout_alignment l | layout_align l v).
Proof.
  intros. rewrite layout_align_eq. pose proof (layout_alignment_pos l).
  apply align_up_spec; lia.
Qed.

(** [align_up] leaves aligned values alone. *)
Lemma align_up_aligned v a :
  0 <= v -> 0 < a -> v + a <= u64_max -> (a | v) -> align_up v a = v.
Proof.
  intros Hv Ha Hb [c ->]. destruct (align_up_spec (c * a) a Hv Ha Hb) as [Hr [d Hd]].
  rewrite Hd in *. replace (c * a + a) with ((c + 1) * a) in Hr by lia.
  rewrite <- Z.mul_le_mono_pos_r, <- Z.mul_lt_mono_pos_r in Hr by done. f_equal. lia.
Qed.

(** [assert_layout] accepts exactly the layouts of [layout_ok]. *)
Lemma assert_layout_ok l :
  0 <= frag_size l -> 0 < wal_file_size l <= u64_max ->
  assert_layout l = Ok tt <-> layout_ok l.
Proof.
  intros Hf Hw. pose proof (layout_alignment_pos l) as Hal.
  unfold assert_layout, layout_ok, assert_that, u64_rem, mbind, outcome_bind.
  destruct (Z.leb_spec (frag_size l) u32_max); [|naive_solver lia].
  rewrite layout_align_eq. unfold u32_max in *.
  destruct (Z.eqb_spec (frag_size l) (align_up (frag_size l) (layout_alignment l))) as [He|He].
  - assert (layout_alignment l | frag_size l).
    { rewrite He. apply align_up_spec; unfold u64_max; lia. }
    destruct (Z.eqb_spec (frag_size l) 0) as [Hz|Hz]; [naive_solver lia|].
    rewrite <- (Z.mod_divide (wal_file_size l) (frag_size l)) by done.
    destruct (Z.eqb_spec (wal_file_size l mod frag_size l) 0); naive_solver lia.
  - split; [done|]. intros (?&?&?&?). exfalso. apply He.
    symmetry. apply align_up_aligned; unfold u64_max; [lia..|done].
Qed.

Lemma u64_div_ok a b : b <> 0 -> u64_div a b = Ok (a / b).
Proof. intros. unfold u64_div. by destruct (Z.eqb_spec b 0). Qed.

Lemma u64_rem_ok a b : b <> 0 -> u64_rem a b = Ok (a mod b).
Proof. intros. unfold u64_rem. by destruct (Z.eqb_spec b 0). Qed.

Lemma locate_ok l pos :
  frag_size l <> 0 -> locate l pos = Ok (pos / frag_size l, pos mod frag_size l).
Proof. intros. unfold locate. by rewrite u64_div_ok, u64_rem_ok. Qed.

(** A position with room for the entry keeps the entry in one fragment. *)
Definition in_one_frag (l : WalLayout) (pos len : Z) : Prop :=
  pos / frag_size l = (pos + len - 1) / frag_size l.

(** Where [next_position] puts an entry: it never moves back, skips less than
    the entry's length and only to the start of the next fragment, and the
    entry ends in the fragment it starts in. *)
Lemma next_position_spec l pos len :
  layout_ok l -> 0 <= pos -> 0 < len <= frag_size l -> pos + 2 * frag_size l <= u64_max ->
  exists p, next_position l pos len = Ok p /\ pos <= p < pos + len /\ in_one_frag l p len /\
    (p = pos \/ (p = (pos / frag_size l + 1) * frag_size l /\ ~ in_one_frag l pos len)).
Proof.
  intros ((Hf0 & Hf1) & _) Hpos [Hl0 Hl1] Hb. set (f := frag_size l) in *.
  unfold next_position, assert_that, mbind, outcome_bind. fold f.
  destruct (Z.leb_spec len f); [|lia]. rewrite !locate_ok by (fold f; lia). fold f.
  rewrite u64_add_small, u64_sub_small by lia. eexists. split; [done|].
  pose proof (Z.mul_div_le pos f Hf0). pose proof (Z.mul_succ_div_gt pos f Hf0).
  assert (0 <= pos / f) by (apply Z.div_pos; lia).
  unfold in_one_frag. fold f.
  destruct (Z.eqb_spec (pos / f) ((pos + len - 1) / f)) as [He|He]; cbn; [naive_solver lia|].
  assert (pos / f < (pos + len - 1) / f) as Hlt.
  { pose proof (Z.div_le_mono pos (pos + len - 1) f Hf0). lia. }
  pose proof (Z.mul_div_le (pos + len - 1) f Hf0).
  assert (map_id_next_map (pos / f) = pos / f + 1) as Hn.
  { unfold map_id_next_map. apply u64_add_small; nia. }
  unfold first_in_frag. fold f. rewrite Hn, u64_mul_small by nia.
  split; [nia|]. split; [|naive_solver]. rewrite Z.div_mul by lia.
  apply Z.div_unique with (r := len - 1); lia.
Qed.

(** An entry inside one fragment is inside one WAL file. *)
Lemma in_one_frag_one_file l pos len :
  layout_ok l -> 0 <= pos -> 0 < len -> in_one_frag l pos len ->
  pos / wal_file_size l = (pos + len - 1) / wal_file_size l.
Proof.
  intros ((Hf0 & _) & _ & (Hw0 & _) & [c Hc]) Hp Hl Hin. unfold in_one_frag in Hin.
  assert (0 < c) by nia. rewrite Hc, (Z.mul_comm c).
  rewrite <- !Z.div_div by lia. by rewrite Hin.
Qed.

(** Placement keeps entries whole: for a layout that passes
    [assert_layout], [next_position] returns a position at or after the one
    given, moved by less than the entry's length and only to the start of the
    next fragment when the entry would cross it; the entry then lies in one
    fragment, hence in one WAL file. *)
Lemma next_position_one_fragment l pos len :
  assert_layout l = Ok tt -> 0 <= frag_size l -> 0 < wal_file_size l <= u64_max ->
  0 <= pos -> 0 < len <= frag_size l -> pos + 2 * frag_size l <= u64_max ->
  exists p, next_position l pos len = Ok p /\ pos <= p < pos + len /\ in_one_frag l p len /\
    (p = pos \/ (p = (pos / frag_size l + 1) * frag_size l /\ ~ in_one_frag l pos len)) /\
    p / wal_file_size l = (p + len - 1) / wal_file_size l.
Proof.
  intros Ha Hf Hw Hp Hl Hroom. apply assert_layout_ok in Ha; [|done|done].
  destruct (next_position_spec l pos len Ha Hp Hl Hroom) as (p & Hn & Hb & Hin & Hor).
  exists p. split_and!; try done; try lia. apply (in_one_frag_one_file l p len Ha); [lia|lia|done].
Qed.

