(* ===== verification/KeyShape.v ===== *)
(** * Key shapes: which cell a key belongs to

    [src/tidehunter/src/key_shape.rs]: the descriptor of a key space, how a key
    is reduced for the index, and how keys are assigned to cells, for uniform
    keys (dense integer cells) and prefixed keys (cells named by a prefix whose
    last bits are clustered).  The options of [KeySpaceConfig], which do not take
    part in the placement of keys, the registry of names and the YAML form are
    not modelled.  The BLAKE2b digest of [KeyIndexing::Hash] is a third-party
    function and a parameter. *)

From Stdlib Require Import ZArith Lia List.
From stdpp Require Import base tactics list strings.
From S2P Require Import Prelude BTree Bytes Position Cell Layout.

Local Open Scope Z_scope.

Definition CELL_PREFIX_LENGTH : nat := 4.
Definition MAX_U32_PLUS_ONE : Z := u32_max + 1.
Definition MAX_KEY_LEN : Z := u16_max.

(** ** Data *)

Inductive KeyIndexing :=
| Fixed (key_size : nat)
| Reduction (key_size : nat) (from to : nat)
| VariableLength
| Hash.

Record PrefixedUniformKeyConfig := mkPrefixed {
  prefix_len_bytes : nat;
  pc_cluster_bits : Z;
  reset_mask : Z;
}.

Inductive KeyType :=
| Uniform (cells_per_mutex : Z)
| PrefixedUniform (config : PrefixedUniformKeyConfig).

Record KeySpaceDesc := mkKeySpace {
  ks_id : Z;
  ks_name : string;
  ks_key_indexing : KeyIndexing;
  ks_mutexes : Z;
  ks_key_type : KeyType;
  ks_destroyed : bool;
}.

#[export] Instance KeyIndexing_eq_dec : EqDecision KeyIndexing.
Proof. solve_decision. Defined.

#[export] Instance PrefixedUniformKeyConfig_eq_dec : EqDecision PrefixedUniformKeyConfig.
Proof. solve_decision. Defined.

#[export] Instance KeyType_eq_dec : EqDecision KeyType.
Proof. solve_decision. Defined.

(** ** Construction *)

(** [usize::is_power_of_two] *)
Definition is_power_of_two (z : Z) : bool := (0 <? z) && (Z.land z (z - 1) =? 0).

Definition uniform (cells_per_mutex : Z) : outcome KeyType :=
  _ ← assert_that (0 <? cells_per_mutex) "cells_per_mutex should be greater then 0";
  _ ← assert_that (is_power_of_two cells_per_mutex) "cells_per_mutex should be power of two";
  Ok (Uniform cells_per_mutex).

Definition make_reset_mask (cluster_bits : Z) : outcome Z :=
  _ ← assert_that (cluster_bits <? 8) "cluster_bits must be less then 8, reduce prefix_len_bytes otherwise";
  Ok (u8_max - (Z.shiftl 1 cluster_bits - 1)).

Definition prefixed_config_new (prefix_len : nat) (cluster_bits : Z) : outcome PrefixedUniformKeyConfig :=
  _ ← assert_that (0 <? prefix_len)%nat
        "prefix_len_bytes must be greater then zero, otherwise Uniform key type must be used";
  mask ← make_reset_mask cluster_bits;
  Ok (mkPrefixed prefix_len cluster_bits mask).

Definition prefix_uniform (prefix_len : nat) (cluster_bits : Z) : outcome KeyType :=
  c ← prefixed_config_new prefix_len cluster_bits;
  Ok (PrefixedUniform c).

Definition from_prefix_bits (prefix_bits : Z) : outcome KeyType :=
  _ ← assert_that (0 <? prefix_bits) "prefix_bits must be greater than 0";
  _ ← assert_that (prefix_bits <=? MAX_KEY_LEN * 8) "prefix_bits exceeds maximum key length in bits";
  let prefix_len := Z.to_nat ((prefix_bits + 7) / 8) in
  let cluster_bits := if prefix_bits mod 8 =? 0 then 0 else 8 - prefix_bits mod 8 in
  prefix_uniform prefix_len cluster_bits.

Definition verify_key_size (kt : KeyType) (key_size : option nat) : outcome unit :=
  match kt, key_size with
  | Uniform _, _ => Ok tt
  | PrefixedUniform config, Some key_size =>
      assert_that (prefix_len_bytes config <? key_size)%nat "key_size must be greater then prefix len"
  | PrefixedUniform _, None => Ok tt
  end.

Definition check_configured_key_size (key_size : nat) : outcome unit :=
  assert_that (Z.of_nat key_size <=? MAX_KEY_LEN) "Specified key size exceeding max key length".

Definition key_indexing_fixed (key_length : nat) : outcome KeyIndexing :=
  _ ← check_configured_key_size key_length; Ok (Fixed key_length).

Definition key_reduction (key_length from to : nat) : outcome KeyIndexing :=
  _ ← check_configured_key_size key_length; Ok (Reduction key_length from to).

Definition add_key_space_config_indexing (key_spaces : list KeySpaceDesc) (name : string)
    (key_indexing : KeyIndexing) (mutexes : Z) (key_type : KeyType) : outcome (list KeySpaceDesc) :=
  _ ← assert_that (forallb (fun ks => negb (String.eqb (ks_name ks) name)) key_spaces) "Duplicate key space name";
  _ ← assert_that (0 <? mutexes) "mutexes should be greater then 0";
  _ ← assert_that (is_power_of_two mutexes) "mutexes should be power of 2";
  _ ← assert_that (Z.of_nat (length key_spaces) <? u8_max - 1) "Maximum key spaces allowed";
  Ok (key_spaces ++
      [mkKeySpace (wrap8 (Z.of_nat (length key_spaces))) name key_indexing mutexes key_type false]).

(** ** Key indexing *)

Definition index_key_size (ki : KeyIndexing) : option nat :=
  match ki with
  | Fixed key_size => Some key_size
  | Reduction _ from to => Some (to - from)%nat
  | Hash => Some 16%nat
  | VariableLength => None
  end.

Definition check_key_size (ki : KeyIndexing) (k : nat) : outcome unit :=
  match ki with
  | Fixed key_size | Reduction key_size _ _ =>
      if (key_size =? k)%nat then Ok tt else Panic "Key space accepts keys of another size"
  | Hash | VariableLength =>
      if MAX_KEY_LEN <? Z.of_nat k then Panic "Key space accepts shorter keys" else Ok tt
  end.

(** [KeySpaceDesc::index_key_size] and what derives from it; the [require_]
    forms panic for variable-length keys. *)
Definition ks_index_key_size (ks : KeySpaceDesc) : option nat := index_key_size (ks_key_indexing ks).

Definition index_element_size (ks : KeySpaceDesc) : option nat :=
  option_map (fun i => (i + WalPosition_LENGTH)%nat) (ks_index_key_size ks).

Definition require_index_key_size (ks : KeySpaceDesc) (reason : string) : outcome nat :=
  expect (ks_index_key_size ks) reason.

Definition require_index_element_size (ks : KeySpaceDesc) : outcome nat :=
  expect (index_element_size ks) "Ks uses uniform index that requires key length known ahead of time".

Definition index_element_size_for_capacity (ks : KeySpaceDesc) : nat := default 64%nat (index_element_size ks).

Definition index_key_element_size (ks : KeySpaceDesc) : outcome (option (nat * nat)) :=
  match ks_index_key_size ks with
  | Some key_size => element_size ← expect (index_element_size ks) "called `Option::unwrap()` on a `None` value";
                     Ok (Some (key_size, element_size))
  | None => Ok None
  end.

Definition need_check_index_key (ks : KeySpaceDesc) : bool :=
  match ks_key_indexing ks with Reduction _ _ _ => true | _ => false end.

Section digest.
Context (blake2b256 : list Z -> list Z).

Definition hash_key (key : list Z) : outcome (list Z) := slice (blake2b256 key) 0 16.

(** [reduce_key] and [reduced_key_bytes] differ only in ownership. *)
Definition reduce_key (ki : KeyIndexing) (key : list Z) : outcome (list Z) :=
  match ki with
  | Fixed _ | VariableLength => Ok key
  | Reduction _ from to => slice key from to
  | Hash => hash_key key
  end.
End digest.

(** ** Clustering *)

Definition cluster_bits (c : PrefixedUniformKeyConfig) (v : Z) : Z := Z.land v (reset_mask c).

Definition has_cluster_bits (c : PrefixedUniformKeyConfig) : bool := negb (reset_mask c =? u8_max).

Definition discard_prefix_bytes (c : PrefixedUniformKeyConfig) : nat :=
  if has_cluster_bits c then prefix_len_bytes c - 1 else prefix_len_bytes c.

(** The bounds of the inclusive range. *)
Definition prefix_range_u8 (c : PrefixedUniformKeyConfig) (last_byte : Z) : Z * Z :=
  let min_byte := Z.land last_byte (reset_mask c) in
  let compliment_mask := Z.lxor (reset_mask c) u8_max in
  (min_byte, wrap8 (min_byte + compliment_mask)).

Definition prefix_range (c : PrefixedUniformKeyConfig) (last_byte : Z) : Z * Z :=
  if has_cluster_bits c then
    let '(lo, hi) := prefix_range_u8 c last_byte in
    (wrap64 (Z.shiftl lo 24), u64_add (wrap64 (Z.shiftl hi 24)) 0x1000000)
  else (0, MAX_U32_PLUS_ONE).

(** ** Cells *)

Definition num_cells (cells_per_mutex : Z) (ks : KeySpaceDesc) : Z :=
  u64_mul cells_per_mutex (ks_mutexes ks).

Definition next_cell (cells_per_mutex : Z) (ks : KeySpaceDesc) (cell : Z) (reverse : bool) : option CellId :=
  option_map CellInteger (next_bounded cell (num_cells cells_per_mutex ks) reverse).

Definition cell_id (ks : KeySpaceDesc) (k : list Z) : outcome CellId :=
  match ks_key_type ks with
  | Uniform config =>
      cell ← downscale_u32 (starting_u32 k) (wrap32 (num_cells config ks));
      Ok (CellInteger cell)
  | PrefixedUniform config =>
      prefix ← slice k 0 (prefix_len_bytes config);
      b ← expect (prefix !! (prefix_len_bytes config - 1)%nat) "index out of bounds";
      Ok (CellBytes (<[(prefix_len_bytes config - 1)%nat := cluster_bits config b]> prefix))
  end.

Definition index_prefix (kt : KeyType) (k : list Z) : outcome (list Z) :=
  match kt with
  | Uniform _ => Ok k
  | PrefixedUniform config => slice_from k (discard_prefix_bytes config)
  end.

Definition index_prefix_u32 (ks : KeySpaceDesc) (k : list Z) : outcome Z :=
  p ← index_prefix (ks_key_type ks) k; Ok (starting_u32 p).

Definition index_prefix_u64 (ks : KeySpaceDesc) (k : list Z) : outcome Z :=
  p ← index_prefix (ks_key_type ks) k; Ok (starting_u64 p).

Definition index_prefix_range (ks : KeySpaceDesc) (cell : CellId) : outcome (Z * Z) :=
  match ks_key_type ks, cell with
  | Uniform config, CellInteger cell =>
      cell_size ← u64_div MAX_U32_PLUS_ONE (num_cells config ks);
      Ok (u64_mul cell cell_size, u64_mul (u64_add cell 1) cell_size)
  | PrefixedUniform config, CellBytes cell =>
      b ← expect (last cell) "index out of bounds";
      Ok (prefix_range config b)
  | Uniform _, CellBytes _ => Panic "index_prefix_range called for uniform key type and bytes cell id"
  | PrefixedUniform _, CellInteger _ => Panic "index_prefix_range called for prefix key type and integer cell id"
  end.

Definition mutex_for_cell (ks : KeySpaceDesc) (cell : CellId) : outcome Z :=
  u64_rem (mutex_seed cell) (ks_mutexes ks).

Definition cell_by_location (ks : KeySpaceDesc) (row offset : Z) : Z :=
  u64_add (u64_mul offset (ks_mutexes ks)) row.

Definition first_cell (ks : KeySpaceDesc) : CellId :=
  match ks_key_type ks with
  | Uniform _ => CellInteger 0
  | PrefixedUniform config => CellBytes (replicate (prefix_len_bytes config) 0)
  end.

Definition last_cell (ks : KeySpaceDesc) : CellId :=
  match ks_key_type ks with
  | Uniform config => CellInteger (u64_sub (num_cells config ks) 1)
  | PrefixedUniform config => CellBytes (replicate (prefix_len_bytes config) 255)
  end.

(** [dst[0..n].copy_from_slice(src)] *)
Definition copy_prefix (dst : list Z) (n : nat) (src : list Z) : outcome (list Z) :=
  if (n <=? length dst)%nat && (length src =? n)%nat then Ok (src ++ drop n dst)
  else Panic "copy_from_slice: source slice length does not match destination slice length".

Definition cell_range (ks : KeySpaceDesc) (cell : CellId) : outcome (list Z * list Z) :=
  key_len ← expect (index_key_size (ks_key_indexing ks)) "Ks does not support variable length keys for cell_range";
  let first_key := replicate key_len 0 in
  let last_key := replicate key_len 255 in
  match ks_key_type ks with
  | Uniform _ =>
      '(start, end_) ← index_prefix_range ks cell;
      first_key ← copy_prefix first_key CELL_PREFIX_LENGTH (be_bytes 4 (wrap32 start));
      last_key ← copy_prefix last_key CELL_PREFIX_LENGTH (be_bytes 4 (wrap32 (u64_sub end_ 1)));
      Ok (first_key, last_key)
  | PrefixedUniform config =>
      prefix ← assume_bytes_id cell;
      let n := prefix_len_bytes config in
      first_key ← copy_prefix first_key n prefix;
      last_key ← copy_prefix last_key n prefix;
      if has_cluster_bits config then
        b ← expect (prefix !! (n - 1)%nat) "index out of bounds";
        Ok (first_key, <[(n - 1)%nat := (prefix_range_u8 config b).2]> last_key)
      else Ok (first_key, last_key)
  end.

Definition map_key_range_to_cell_range (ks : KeySpaceDesc) (from_inclusive to_inclusive : list Z) :
    outcome (CellId * CellId) :=
  from_cell ← cell_id ks from_inclusive;
  to_cell ← cell_id ks to_inclusive;
  '(first_key, _) ← cell_range ks from_cell;
  _ ← assert_that (keqb from_inclusive first_key) "from_inclusive is not the first key in its cell";
  '(_, last_key) ← cell_range ks to_cell;
  _ ← assert_that (keqb to_inclusive last_key) "to_inclusive is not the last key in its cell";
  Ok (from_cell, to_cell).

Definition needs_large_table_cell_index (ks : KeySpaceDesc) : bool :=
  match ks_key_type ks with PrefixedUniform _ => true | Uniform _ => false end.

(** [assert_layout_matches]: the stored layout is kept across reopens. *)
Definition assert_layout_matches (declared stored : KeySpaceDesc) : outcome unit :=
  if bool_decide (ks_mutexes declared = ks_mutexes stored) &&
     bool_decide (ks_key_type declared = ks_key_type stored) &&
     bool_decide (ks_key_indexing declared = ks_key_indexing stored) then Ok tt
  else Panic "Key space was created with a different layout than the configuration declares".

(** ** Well-formed key spaces: what the builders check

    The product of mutexes and cells per mutex has to fit the [u32] it is cast
    to. *)
Definition ks_ok (ks : KeySpaceDesc) : Prop :=
  is_power_of_two (ks_mutexes ks) = true /\
  match ks_key_type ks with
  | Uniform c => uniform c = Ok (Uniform c) /\ c * ks_mutexes ks <= u32_max
  | PrefixedUniform c =>
      0 <= pc_cluster_bits c /\ prefixed_config_new (prefix_len_bytes c) (pc_cluster_bits c) = Ok c
  end.

(** The keys long enough to have a cell. *)
Definition key_ok (ks : KeySpaceDesc) (k : list Z) : Prop :=
  Forall is_u8 k /\
  match ks_key_type ks with Uniform _ => True | PrefixedUniform c => (prefix_len_bytes c <= length k)%nat end.

(** The cells of a key space. *)
Definition cell_ok (ksd : KeySpaceDesc) (c : CellId) : Prop :=
  match ks_key_type ksd, c with
  | Uniform u, CellInteger i => 0 <= i < num_cells u ksd
  | PrefixedUniform _, CellBytes _ => True
  | _, _ => False
  end.

(** Membership of a cell in an inclusive range of cells. *)
Definition in_cells (from to c : CellId) : bool :=
  match from, to, c with
  | CellInteger a, CellInteger b, CellInteger i => (a <=? i) && (i <=? b)
  | CellBytes a, CellBytes b, CellBytes x => kleb a x && kleb x b
  | _, _, _ => false
  end.

Definition range_ordered (from to : CellId) : Prop :=
  match from, to with
  | CellInteger a, CellInteger b => a <= b
  | CellBytes a, CellBytes b => kle a b
  | _, _ => False
  end.

Lemma is_power_of_two_spec z : is_power_of_two z = true -> exists i, 0 <= i /\ z = 2 ^ i.
Proof.
  unfold is_power_of_two. rewrite andb_true_iff, Z.ltb_lt, Z.eqb_eq. intros [Hz Hl].
  exists (Z.log2 z). split; [apply Z.log2_nonneg|]. destruct (Z.eq_dec z (2 ^ Z.log2 z)) as [|Hn]; [done|exfalso].
  pose proof (Z.log2_spec z Hz) as Hb.
  assert (Z.log2 (z - 1) = Z.log2 z) as Hlog by (apply Z.log2_unique; [apply Z.log2_nonneg|lia]).
  assert (Z.testbit (Z.land z (z - 1)) (Z.log2 z) = true) as Ht.
  { rewrite Z.land_spec, Z.bit_log2 by done. rewrite <- Hlog, Z.bit_log2; [done|].
    pose proof (Z.pow_pos_nonneg 2 (Z.log2 z) ltac:(lia) (Z.log2_nonneg z)). lia. }
  by rewrite Hl, Z.testbit_0_l in Ht.
Qed.

(** Facts about the 8 masks and 256 bytes, by evaluation. *)
Lemma mask_table :
  forallb (fun c =>
    (Z.lxor (256 - 2 ^ c) 255 =? 2 ^ c - 1) &&
    forallb (fun v => Z.land v (256 - 2 ^ c) =? v / 2 ^ c * 2 ^ c) (seqZ 0 256)) (seqZ 0 8) = true.
Proof. vm_compute. reflexivity. Qed.

Lemma mask_facts c :
  0 <= c < 8 ->
  Z.lxor (256 - 2 ^ c) 255 = 2 ^ c - 1 /\
  forall v, is_u8 v -> Z.land v (256 - 2 ^ c) = v / 2 ^ c * 2 ^ c.
Proof.
  intros Hc. pose proof mask_table as H. rewrite forallb_forall in H.
  specialize (H c ltac:(apply list_elem_of_In, elem_of_seqZ; lia)).
  apply andb_true_iff in H as [Hx Hl]. apply Z.eqb_eq in Hx. split; [done|]. intros v Hv.
  rewrite forallb_forall in Hl. apply Z.eqb_eq, Hl, list_elem_of_In, elem_of_seqZ. unfold is_u8 in Hv. lia.
Qed.

(** A cluster: [2 ^ c] consecutive bytes from a multiple of it. *)
Record cluster_spec (cfg : PrefixedUniformKeyConfig) (c : Z) : Prop := {
  cs_bits : 0 <= c < 8;
  cs_len : (0 < prefix_len_bytes cfg)%nat;
  cs_cluster v : is_u8 v -> cluster_bits cfg v = v / 2 ^ c * 2 ^ c;
  cs_range v : is_u8 v -> prefix_range_u8 cfg v = (v / 2 ^ c * 2 ^ c, v / 2 ^ c * 2 ^ c + (2 ^ c - 1));
  cs_has : has_cluster_bits cfg = negb (c =? 0);
}.

Lemma cluster_bound c v : 0 <= c < 8 -> is_u8 v ->
  0 <= v / 2 ^ c * 2 ^ c <= v /\ v < v / 2 ^ c * 2 ^ c + 2 ^ c /\ v / 2 ^ c * 2 ^ c + 2 ^ c <= 256.
Proof.
  unfold is_u8. intros Hc Hv. pose proof (Z.pow_pos_nonneg 2 c ltac:(lia) ltac:(lia)).
  pose proof (Z.div_mod v (2 ^ c) ltac:(lia)). pose proof (Z.mod_pos_bound v (2 ^ c) ltac:(lia)).
  pose proof (Z.div_pos v (2 ^ c) ltac:(lia) ltac:(lia)).
  assert (256 = 2 ^ (8 - c) * 2 ^ c) as E by (rewrite <- Z.pow_add_r by lia; by replace (8 - c + c) with 8 by lia).
  assert (v / 2 ^ c < 2 ^ (8 - c)) by (apply Z.div_lt_upper_bound; lia). split_and!; nia.
Qed.

Lemma prefixed_spec cfg :
  0 <= pc_cluster_bits cfg -> prefixed_config_new (prefix_len_bytes cfg) (pc_cluster_bits cfg) = Ok cfg ->
  cluster_spec cfg (pc_cluster_bits cfg).
Proof.
  destruct cfg as [n c m]. cbn. intros Hc H. unfold prefixed_config_new, make_reset_mask, assert_that in H.
  destruct (Nat.ltb_spec 0 n) as [Hn|]; [|done]. cbn in H. destruct (Z.ltb_spec c 8); [|done]. cbn in H.
  assert (m = 256 - 2 ^ c) as ->.
  { injection H as <-. rewrite Z.shiftl_1_l. unfold u8_max. lia. }
  destruct (mask_facts c ltac:(lia)) as [Hx Hl]. split; cbn; [lia|done|exact Hl| |].
  - intros v Hv. unfold prefix_range_u8. cbn. change u8_max with 255. rewrite Hl, Hx by done.
    destruct (cluster_bound c v ltac:(lia) Hv) as (? & ? & ?).
    unfold wrap8. rewrite Z.mod_small by lia. done.
  - unfold has_cluster_bits. cbn. unfold u8_max. f_equal.
    destruct (Z.eqb_spec c 0) as [->|]; [done|]. apply Z.eqb_neq.
    pose proof (Z.pow_gt_1 2 c ltac:(lia)). lia.
Qed.

(** ** Uniform cells *)

(** A uniform key space has [2 ^ i] cells of [2 ^ (32 - i)] prefixes each. *)
Lemma uniform_cells ks c :
  ks_ok ks -> ks_key_type ks = Uniform c ->
  exists n m, num_cells c ks = n /\ 0 < n <= u32_max /\ 0 < m /\ n * m = 2 ^ 32.
Proof.
  intros [Hm H] Hk. rewrite Hk in H. destruct H as [Hc Hb].
  apply is_power_of_two_spec in Hm as (j & Hj & Ej).
  unfold uniform, assert_that in Hc. destruct (Z.ltb_spec 0 c); [|done]. cbn in Hc.
  destruct (is_power_of_two c) eqn:Hp; [|done]. apply is_power_of_two_spec in Hp as (i & Hi & Ei).
  assert (c * ks_mutexes ks = 2 ^ (i + j)) as En by (rewrite Ei, Ej, <- Z.pow_add_r by lia; done).
  pose proof (Z.pow_pos_nonneg 2 (i + j) ltac:(lia) ltac:(lia)).
  assert (i + j < 32) by (apply (Z.pow_lt_mono_r_iff 2); unfold u32_max in *; lia).
  exists (2 ^ (i + j)), (2 ^ (32 - (i + j))). split_and!; [|lia|lia|apply Z.pow_pos_nonneg; lia|].
  - unfold num_cells. rewrite u64_mul_small; [done| | |]; unfold u32_max, u64_max in *;
      pose proof (Z.pow_pos_nonneg 2 i ltac:(lia) Hi); pose proof (Z.pow_pos_nonneg 2 j ltac:(lia) Hj); lia.
  - rewrite <- Z.pow_add_r by lia. f_equal. lia.
Qed.

Lemma starting_u32_bound k : Forall is_u8 k -> is_u32 (starting_u32 k).
Proof. intros Hk. rewrite starting_u32_pad. apply (be_val_pad_bound 4 k Hk). Qed.

(** The uniform cell of a key, and the prefixes of that cell. *)
Lemma uniform_cell ks c n m k :
  ks_key_type ks = Uniform c -> num_cells c ks = n -> 0 < n <= u32_max -> 0 < m -> n * m = 2 ^ 32 ->
  Forall is_u8 k -> cell_id ks k = Ok (CellInteger (starting_u32 k / m)).
Proof.
  intros Hk Hn Hb Hm Hnm Hu. unfold cell_id. rewrite Hk, Hn.
  rewrite wrap32_small by (unfold is_u32, u32_max in *; lia).
  destruct (downscale_u32_spec (starting_u32 k) n (starting_u32_bound k Hu) Hb) as [-> _]. cbn. do 2 f_equal.
  rewrite <- Hnm, (Z.mul_comm n m), Z.div_mul_cancel_r by lia. done.
Qed.

Lemma uniform_prefix_range ks c n m cell :
  ks_key_type ks = Uniform c -> num_cells c ks = n -> 0 < n <= u32_max -> 0 < m -> n * m = 2 ^ 32 ->
  0 <= cell < n -> index_prefix_range ks (CellInteger cell) = Ok (cell * m, (cell + 1) * m).
Proof.
  intros Hk Hn Hb Hm Hnm Hc. unfold index_prefix_range. rewrite Hk, Hn. unfold u64_div.
  destruct (Z.eqb_spec n 0); [lia|]. cbn. unfold MAX_U32_PLUS_ONE, u32_max in *.
  replace (2 ^ 32 - 1 + 1) with (m * n) by lia. rewrite Z.div_mul by lia.
  assert (m <= 2 ^ 32) by nia.
  rewrite u64_add_small, !u64_mul_small by (unfold u64_max; nia). done.
Qed.

Lemma uniform_cell_bound n m v : 0 < n -> 0 < m -> n * m = 2 ^ 32 -> is_u32 v -> 0 <= v / m < n.
Proof.
  unfold is_u32. intros Hn Hm Hnm Hv. split; [apply Z.div_pos; lia|]. apply Z.div_lt_upper_bound; lia.
Qed.

(** ** Prefixed cells *)

(** A key long enough splits around the last byte of its prefix. *)
Lemma key_split n (k : list Z) :
  (0 < n <= length k)%nat ->
  exists p x r, k = p ++ x :: r /\ length p = (n - 1)%nat.
Proof.
  intros Hn. exists (take (n - 1) k). destruct (drop (n - 1) k) as [|x r] eqn:E.
  - apply (f_equal length) in E. rewrite length_drop in E. cbn in E. lia.
  - exists x, r. split; [by rewrite <- E, take_drop|]. rewrite length_take. lia.
Qed.

Lemma prefixed_cell ks cfg c p x r :
  ks_key_type ks = PrefixedUniform cfg -> cluster_spec cfg c -> length p = (prefix_len_bytes cfg - 1)%nat ->
  is_u8 x -> cell_id ks (p ++ x :: r) = Ok (CellBytes (p ++ [x / 2 ^ c * 2 ^ c])).
Proof.
  intros Hk Hs Hp Hx. unfold cell_id. rewrite Hk. pose proof (cs_len _ _ Hs).
  replace (p ++ x :: r) with ([] ++ (p ++ [x]) ++ r) by (cbn; by rewrite <- app_assoc).
  rewrite (slice_mid _ [] (p ++ [x]) r); [|done|done|rewrite length_app; cbn; lia].
  cbn [mbind outcome_bind]. rewrite <- Hp, lookup_app_r, Nat.sub_diag by lia. cbn.
  rewrite insert_app_r_alt, Nat.sub_diag by lia. cbn. by rewrite (cs_cluster _ _ Hs).
Qed.

Lemma starting_u32_cons x r :
  Forall is_u8 (x :: r) -> x * 2 ^ 24 <= starting_u32 (x :: r) < (x + 1) * 2 ^ 24.
Proof.
  inversion_clear 1 as [|?? Hx Hr]. rewrite starting_u32_pad. change (pad 4 (x :: r)) with (x :: pad 3 r).
  rewrite be_val_cons, length_pad. pose proof (be_val_pad_bound 3 r Hr).
  change (256 ^ Z.of_nat 3) with (2 ^ 24) in *. lia.
Qed.

(** ** Keys fall in the prefix range of their cell *)

Lemma cell_prefix_uniform ks c k :
  ks_ok ks -> ks_key_type ks = Uniform c -> Forall is_u8 k ->
  exists cell p s e, cell_id ks k = Ok cell /\ index_prefix_u32 ks k = Ok p /\
    index_prefix_range ks cell = Ok (s, e) /\ 0 <= s <= p /\ p < e <= 2 ^ 32.
Proof.
  intros Hok Hk Hu. destruct (uniform_cells ks c Hok Hk) as (n & m & Hn & Hb & Hm & Hnm).
  pose proof (starting_u32_bound k Hu) as Hv.
  pose proof (uniform_cell_bound n m _ ltac:(lia) Hm Hnm Hv) as Hc.
  eexists _, _, _, _. split; [by eapply uniform_cell|].
  split; [unfold index_prefix_u32; by rewrite Hk|].
  split; [by eapply uniform_prefix_range|].
  pose proof (Z.div_mod (starting_u32 k) m ltac:(lia)). pose proof (Z.mod_pos_bound (starting_u32 k) m Hm).
  nia.
Qed.

Lemma cell_prefix_prefixed ks cfg k :
  ks_ok ks -> ks_key_type ks = PrefixedUniform cfg -> key_ok ks k ->
  exists cell p s e, cell_id ks k = Ok cell /\ index_prefix_u32 ks k = Ok p /\
    index_prefix_range ks cell = Ok (s, e) /\ 0 <= s <= p /\ p < e <= 2 ^ 32.
Proof.
  intros [_ Hok] Hk [Hu Hlen]. rewrite Hk in Hok, Hlen. destruct Hok as [Hc0 Hcfg].
  pose proof (prefixed_spec cfg Hc0 Hcfg) as Hs. set (c := pc_cluster_bits cfg) in *.
  pose proof (cs_len _ _ Hs). pose proof (cs_bits _ _ Hs) as Hc.
  destruct (key_split (prefix_len_bytes cfg) k ltac:(lia)) as (p & x & r & -> & Hp).
  apply Forall_app in Hu as [_ Hxr]. pose proof Hxr as Hxr'. inversion_clear Hxr' as [|?? Hx Hr].
  pose proof (cluster_bound c x Hc Hx) as (Hlo & Hhi & Hmax).
  assert (is_u8 (x / 2 ^ c * 2 ^ c)) as Hlo8 by (unfold is_u8 in *; lia).
  exists (CellBytes (p ++ [x / 2 ^ c * 2 ^ c])).
  unfold index_prefix_u32, index_prefix, index_prefix_range. rewrite Hk. cbn [mbind outcome_bind].
  rewrite last_snoc. cbn [expect]. unfold discard_prefix_bytes, prefix_range, slice_from.
  rewrite (cs_has _ _ Hs). rewrite length_app in *. cbn [length] in *.
  destruct (Z.eqb_spec c 0) as [E|Hne]; cbn [negb]; eexists _, _, _; (split; [by eapply prefixed_cell|]).
  - destruct (Nat.leb_spec (prefix_len_bytes cfg) (length p + S (length r))); [|lia].
    split; [done|]. split; [done|].
    assert (drop (prefix_len_bytes cfg) (p ++ x :: r) = r) as ->.
    { rewrite cons_middle, app_assoc, drop_app_length'; [done|]. rewrite length_app. cbn. lia. }
    pose proof (starting_u32_bound r Hr). unfold is_u32, MAX_U32_PLUS_ONE, u32_max in *. lia.
  - destruct (Nat.leb_spec (prefix_len_bytes cfg - 1) (length p + S (length r))); [|lia].
    split; [done|]. cbn [mbind outcome_bind]. rewrite (cs_range _ _ Hs) by done.
    assert (0 < 2 ^ c) by (apply Z.pow_pos_nonneg; lia).
    rewrite Z.div_mul by lia. rewrite !Z.shiftl_mul_pow2 by lia.
    unfold wrap64. rewrite !Z.mod_small by lia. rewrite u64_add_small by (unfold u64_max; lia).
    split; [done|]. rewrite <- Hp, drop_app_length. pose proof (starting_u32_cons x r Hxr). lia.
Qed.

(** ** Cells are in key order *)

Lemma bytes_cmp_app a b c d :
  length a = length c ->
  bytes_cmp (a ++ b) (c ++ d) = match bytes_cmp a c with Eq => bytes_cmp b d | o => o end.
Proof.
  revert c. induction a as [|x a IH]; intros [|y c] Hl; cbn in *; try lia; [done|].
  destruct (x ?= y); [apply IH; lia|done|done].
Qed.

Lemma cluster_mono c x y : 0 <= c < 8 -> x <= y -> x / 2 ^ c * 2 ^ c <= y / 2 ^ c * 2 ^ c.
Proof.
  intros Hc Hxy. assert (0 < 2 ^ c) by (apply Z.pow_pos_nonneg; lia).
  pose proof (Z.div_le_mono x y (2 ^ c) ltac:(lia) Hxy). nia.
Qed.

Lemma cell_id_mono ks a b :
  ks_ok ks -> key_ok ks a -> key_ok ks b -> kle a b ->
  exists ca cb o, cell_id ks a = Ok ca /\ cell_id ks b = Ok cb /\ cell_id_cmp ca cb = Ok o /\ o <> Gt.
Proof.
  intros Hok [Ha Hla] [Hb Hlb] Hab. destruct (ks_key_type ks) as [c|cfg] eqn:Hk.
  - destruct (uniform_cells ks c Hok Hk) as (n & m & Hn & Hbn & Hm & Hnm).
    eexists _, _, _. split; [by eapply uniform_cell|]. split; [by eapply uniform_cell|]. split; [done|].
    apply Z.compare_le_iff, Z.div_le_mono; [done|]. rewrite !starting_u32_pad. by apply be_val_pad_mono.
  - destruct Hok as [_ Hok]. rewrite Hk in Hok. destruct Hok as [Hc0 Hcfg].
    pose proof (prefixed_spec cfg Hc0 Hcfg) as Hs. pose proof (cs_len _ _ Hs).
    destruct (key_split (prefix_len_bytes cfg) a ltac:(lia)) as (p & x & r & -> & Hp).
    destruct (key_split (prefix_len_bytes cfg) b ltac:(lia)) as (p' & x' & r' & -> & Hp').
    apply Forall_app in Ha as [_ Ha]. apply Forall_app in Hb as [_ Hb]. inversion_clear Ha. inversion_clear Hb.
    eexists _, _, _. split; [by eapply prefixed_cell|]. split; [by eapply prefixed_cell|]. split; [done|].
    unfold kle, kcmp, bytes_ord in Hab. rewrite bytes_cmp_app in * by lia.
    destruct (bytes_cmp p p'); [|done|done]. cbn in *.
    destruct (Z.compare_spec x x') as [->|Hlt|]; [by rewrite Z.compare_refl| |done].
    destruct (Z.compare_spec (x / 2 ^ pc_cluster_bits cfg * 2 ^ pc_cluster_bits cfg)
                (x' / 2 ^ pc_cluster_bits cfg * 2 ^ pc_cluster_bits cfg)); try done.
    pose proof (cluster_mono (pc_cluster_bits cfg) x x' (cs_bits _ _ Hs) ltac:(lia)). lia.
Qed.

Lemma cell_id_cmp_opp ca cb o : cell_id_cmp ca cb = Ok o -> cell_id_cmp cb ca = Ok (CompOpp o).
Proof.
  destruct ca, cb; cbn; try done; intros [= <-]; f_equal; [apply Z.compare_antisym|apply bytes_cmp_antisym].
Qed.

Lemma cell_id_cmp_eq ca cb : cell_id_cmp ca cb = Ok Eq -> ca = cb.
Proof.
  destruct ca, cb; cbn; try done; intros [= H]; f_equal; [by apply Z.compare_eq|by apply bytes_cmp_eq].
Qed.

Lemma kle_total (a b : list Z) : kle a b \/ kle b a.
Proof. unfold kle. rewrite (kcmp_antisym a b). destruct (kcmp a b); cbn; auto. Qed.

(** Comparing the cells of two keys. *)
Lemma cell_order ks a b :
  ks_ok ks -> key_ok ks a -> key_ok ks b ->
  exists ca cb o, cell_id ks a = Ok ca /\ cell_id ks b = Ok cb /\ cell_id_cmp ca cb = Ok o /\
    (kle a b -> o <> Gt) /\ (kle b a -> o <> Lt).
Proof.
  intros Hok Ha Hb.
  destruct (kle_total a b) as [Hab|Hba].
  - destruct (cell_id_mono ks a b Hok Ha Hb Hab) as (ca & cb & o & Hca & Hcb & Ho & Hn).
    exists ca, cb, o. do 4 (split; [done|]). intros Hba ->.
    destruct (cell_id_mono ks b a Hok Hb Ha Hba) as (cb' & ca' & o' & Hcb' & Hca' & Ho' & Hn').
    assert (ca' = ca) as -> by congruence. assert (cb' = cb) as -> by congruence.
    apply cell_id_cmp_opp in Ho'. rewrite Ho in Ho'. by destruct o'.
  - destruct (cell_id_mono ks b a Hok Hb Ha Hba) as (cb & ca & o & Hcb & Hca & Ho & Hn).
    exists ca, cb, (CompOpp o). do 2 (split; [done|]). split; [by apply cell_id_cmp_opp|].
    split; [|by destruct o]. intros Hab E.
    destruct (cell_id_mono ks a b Hok Ha Hb Hab) as (ca' & cb' & o' & Hca' & Hcb' & Ho' & Hn').
    assert (ca' = ca) as -> by congruence. assert (cb' = cb) as -> by congruence.
    apply cell_id_cmp_opp in Ho. rewrite Ho' in Ho. by destruct o, o'.
Qed.

Lemma cell_id_key_ok ks k c : cell_id ks k = Ok c -> Forall is_u8 k -> key_ok ks k.
Proof.
  intros Hc Hu. split; [done|]. unfold cell_id in Hc. destruct (ks_key_type ks) as [|cfg]; [done|].
  unfold slice in Hc. destruct (Nat.leb_spec (prefix_len_bytes cfg) (length k)); [done|].
  by rewrite andb_false_r in Hc.
Qed.

(** ** The first and last key of a cell *)

(** A key's cell is a cell of the key space. *)
Lemma cell_id_cell_ok ks k c : ks_ok ks -> Forall is_u8 k -> cell_id ks k = Ok c -> cell_ok ks c.
Proof.
  intros Hk Hu Hc. unfold cell_ok. destruct (ks_key_type ks) as [u|cfg] eqn:Ht.
  - destruct (uniform_cells ks u Hk Ht) as (n & m & Hn & Hb & Hm & Hnm).
    rewrite (uniform_cell ks u n m k Ht Hn Hb Hm Hnm Hu) in Hc. injection Hc as <-. rewrite Hn.
    apply uniform_cell_bound; [lia|done|done|by apply starting_u32_bound].
  - unfold cell_id in Hc. rewrite Ht in Hc. destruct (slice _ _ _) as [p|]; [|done]. cbn in Hc.
    destruct (expect _ _); [|done]. cbn in Hc. by injection Hc as <-.
Qed.

Lemma zeros_least n l : Forall is_u8 l -> length l = n -> kle (replicate n 0) l.
Proof.
  intros Hl <-. unfold kle, kcmp, bytes_ord. induction Hl as [|x l Hx Hl IH]; [done|]. cbn [length replicate bytes_cmp].
  unfold is_u8 in Hx. destruct (Z.compare_spec 0 x); [exact IH|done|lia].
Qed.

Lemma ones_greatest n l : Forall is_u8 l -> length l = n -> kle l (replicate n 255).
Proof.
  intros Hl <-. unfold kle, kcmp, bytes_ord. induction Hl as [|x l Hx Hl IH]; [done|]. cbn [length replicate bytes_cmp].
  unfold is_u8 in Hx. destruct (Z.compare_spec x 255); [exact IH|done|lia].
Qed.

Lemma kle_app (a b c d : list Z) :
  length a = length c -> klt a c \/ (a = c /\ kle b d) -> kle (a ++ b) (c ++ d).
Proof.
  unfold klt, kle, kcmp, bytes_ord. intros Hl H. rewrite bytes_cmp_app by done.
  destruct H as [->|[-> H]]; [done|]. by rewrite (proj2 (bytes_cmp_eq c c) eq_refl).
Qed.

Lemma be_bytes_order n z l :
  0 <= z < 256 ^ Z.of_nat n -> Forall is_u8 l -> length l = n ->
  (z <= be_val l -> klt (be_bytes n z) l \/ be_bytes n z = l) /\
  (be_val l <= z -> klt l (be_bytes n z) \/ l = be_bytes n z).
Proof.
  intros Hz Hl Hn. unfold klt, kcmp, bytes_ord.
  assert (bytes_cmp (be_bytes n z) l = (z ?= be_val l)) as E.
  { rewrite bytes_cmp_be_val; [by rewrite be_val_be_bytes|by rewrite length_be_bytes|apply be_bytes_u8|done]. }
  rewrite (bytes_cmp_antisym (be_bytes n z) l), <- !bytes_cmp_eq, (bytes_cmp_antisym (be_bytes n z) l), E.
  destruct (Z.compare_spec z (be_val l)); cbn; split; intros; auto; lia.
Qed.

(** What [cell_range] needs: room for the prefix it writes. *)
Definition range_ok (ks : KeySpaceDesc) (n : nat) : Prop :=
  match ks_key_type ks with
  | Uniform _ => (CELL_PREFIX_LENGTH <= n)%nat
  | PrefixedUniform c => verify_key_size (PrefixedUniform c) (Some n) = Ok tt
  end.

Lemma copy_prefix_replicate n m z p :
  length p = m -> (m <= n)%nat -> copy_prefix (replicate n z) m p = Ok (p ++ replicate (n - m) z).
Proof.
  intros Hp Hn. unfold copy_prefix. rewrite length_replicate.
  destruct (Nat.leb_spec m n); [|lia]. destruct (Nat.eqb_spec (length p) m); [|lia]. cbn.
  by rewrite drop_replicate.
Qed.

Lemma cell_range_uniform ks u n k cell :
  ks_ok ks -> ks_key_type ks = Uniform u -> index_key_size (ks_key_indexing ks) = Some n ->
  (4 <= n)%nat -> Forall is_u8 k -> length k = n -> cell_id ks k = Ok cell ->
  exists first last, cell_range ks cell = Ok (first, last) /\ kle first k /\ kle k last.
Proof.
  intros Hok Hk Hki Hn Hu Hl Hc. destruct (uniform_cells ks u Hok Hk) as (nn & m & En & Hb & Hm & Hnm).
  rewrite (uniform_cell ks u nn m k) in Hc by done. injection Hc as <-.
  pose proof (starting_u32_bound k Hu) as Hv. pose proof (uniform_cell_bound nn m _ ltac:(lia) Hm Hnm Hv) as Hcb.
  unfold cell_range. rewrite Hki. cbn [expect mbind outcome_bind]. rewrite Hk.
  rewrite (uniform_prefix_range ks u nn m) by done. cbn [mbind outcome_bind].
  set (cell := starting_u32 k / m) in *.
  pose proof (Z.div_mod (starting_u32 k) m ltac:(lia)) as Hd. fold cell in Hd.
  pose proof (Z.mod_pos_bound (starting_u32 k) m Hm). unfold is_u32 in Hv.
  assert ((cell + 1) * m <= 2 ^ 32) by nia. assert (0 <= cell * m) by nia.
  rewrite u64_sub_small by (unfold u64_max; nia).
  rewrite !wrap32_small by (unfold is_u32; nia).
  rewrite !copy_prefix_replicate by (rewrite ?length_be_bytes; done).
  eexists _, _. split; [reflexivity|].
  rewrite <- (take_drop 4 k). pose proof (Forall_take is_u8 4 k Hu) as Ht. pose proof (Forall_drop is_u8 4 k Hu) as Hdr.
  assert (length (take 4 k) = 4%nat) as Hl4 by (rewrite length_take; lia).
  assert (length (drop 4 k) = (n - 4)%nat) as Hln by (rewrite length_drop; lia).
  assert (starting_u32 k = be_val (take 4 k)) as Hsv.
  { rewrite starting_u32_pad, pad_spec. replace (4 - length k)%nat with 0%nat by lia.
    cbn [replicate]. rewrite app_nil_r. do 2 f_equal. lia. }
  split; apply kle_app; rewrite ?length_be_bytes; try done.
  - destruct (proj1 (be_bytes_order 4 (cell * m) (take 4 k) ltac:(lia) Ht Hl4) ltac:(lia)) as [|E]; [by left|].
    right. split; [done|]. by apply zeros_least.
  - destruct (proj2 (be_bytes_order 4 ((cell + 1) * m - 1) (take 4 k) ltac:(lia) Ht Hl4) ltac:(lia)) as [|E]; [by left|].
    right. split; [done|]. by apply ones_greatest.
Qed.

Lemma cell_range_prefixed ks cfg n k cell :
  ks_ok ks -> ks_key_type ks = PrefixedUniform cfg -> index_key_size (ks_key_indexing ks) = Some n ->
  (prefix_len_bytes cfg < n)%nat -> Forall is_u8 k -> length k = n -> cell_id ks k = Ok cell ->
  exists first last, cell_range ks cell = Ok (first, last) /\ kle first k /\ kle k last.
Proof.
  intros [_ Hok] Hk Hki Hn Hu Hl Hc. rewrite Hk in Hok. destruct Hok as [Hc0 Hcfg].
  pose proof (prefixed_spec cfg Hc0 Hcfg) as Hs. set (c := pc_cluster_bits cfg) in *.
  pose proof (cs_len _ _ Hs). pose proof (cs_bits _ _ Hs) as Hcb.
  destruct (key_split (prefix_len_bytes cfg) k ltac:(lia)) as (p & x & r & -> & Hp).
  apply Forall_app in Hu as [_ Hxr]. inversion_clear Hxr as [|?? Hx Hr].
  rewrite (prefixed_cell ks cfg c p x r) in Hc by done. injection Hc as <-.
  pose proof (cluster_bound c x Hcb Hx) as (Hlo & Hhi & Hmax).
  set (lo := x / 2 ^ c * 2 ^ c) in *. rewrite length_app in Hl. cbn [length] in Hl.
  assert (length (p ++ [lo]) = prefix_len_bytes cfg) as Hpl by (rewrite length_app; cbn; lia).
  assert (length r = (n - prefix_len_bytes cfg)%nat) as Hlr by lia.
  exists (p ++ [lo] ++ replicate (n - prefix_len_bytes cfg) 0),
    (p ++ [lo + (2 ^ c - 1)] ++ replicate (n - prefix_len_bytes cfg) 255).
  split.
  - unfold cell_range. rewrite Hki. cbn [expect mbind outcome_bind]. rewrite Hk. cbn [assume_bytes_id mbind outcome_bind].
    rewrite !copy_prefix_replicate by lia. cbn [mbind outcome_bind]. rewrite <- !app_assoc, (cs_has _ _ Hs).
    destruct (Z.eqb_spec c 0) as [E|]; cbn [negb].
    + rewrite E. replace (lo + (2 ^ 0 - 1)) with lo by lia. done.
    + rewrite <- Hp, lookup_app_r, Nat.sub_diag by lia. cbn [lookup list_lookup expect mbind outcome_bind app].
      rewrite insert_app_r_alt, Nat.sub_diag by lia. cbn [insert list_insert].
      rewrite (cs_range _ _ Hs) by (unfold is_u8 in *; lia). unfold lo.
      rewrite Z.div_mul by (apply Z.pow_nonzero; lia). done.
  - split; (apply kle_app; [done|]; right; split; [done|]); cbn [app];
      unfold kle, kcmp, bytes_ord; cbn [bytes_cmp].
    + destruct (Z.compare_spec lo x); [|done|lia]. by apply zeros_least.
    + destruct (Z.compare_spec x (lo + (2 ^ c - 1))); [|done|lia]. by apply ones_greatest.
Qed.

Lemma cell_range_ok ks n k cell :
  ks_ok ks -> index_key_size (ks_key_indexing ks) = Some n -> range_ok ks n ->
  Forall is_u8 k -> length k = n -> cell_id ks k = Ok cell ->
  exists first last, cell_range ks cell = Ok (first, last) /\ kle first k /\ kle k last.
Proof.
  intros Hok Hki Hr Hu Hl Hc. unfold range_ok in Hr. destruct (ks_key_type ks) as [u|cfg] eqn:Hk.
  - by eapply cell_range_uniform.
  - eapply cell_range_prefixed; try done. unfold verify_key_size, assert_that in Hr.
    by destruct (Nat.ltb_spec (prefix_len_bytes cfg) n).
Qed.

Lemma map_key_range_inv ks a b ca cb :
  map_key_range_to_cell_range ks a b = Ok (ca, cb) ->
  cell_id ks a = Ok ca /\ cell_id ks b = Ok cb /\
  (exists l, cell_range ks ca = Ok (a, l)) /\ exists f, cell_range ks cb = Ok (f, b).
Proof.
  unfold map_key_range_to_cell_range, assert_that. intros H.
  destruct (cell_id ks a) as [ca'|]; [|done]. cbn in H. destruct (cell_id ks b) as [cb'|]; [|done]. cbn in H.
  destruct (cell_range ks ca') as [[f l]|] eqn:Ea; [|done]. cbn in H.
  destruct (keqb_spec a f) as [->|]; [|done]. cbn in H.
  destruct (cell_range ks cb') as [[f' l']|] eqn:Eb; [|done]. cbn in H.
  destruct (keqb_spec b l') as [->|]; [|done]. cbn in H. injection H as <- <-.
  split_and!; [done|done|by exists l|by exists f'].
Qed.

Lemma key_prefix_in_range ks k :
  ks_ok ks -> key_ok ks k ->
  exists cell p s e, cell_id ks k = Ok cell /\ index_prefix_u32 ks k = Ok p /\
    index_prefix_range ks cell = Ok (s, e) /\ 0 <= s <= p /\ p < e <= 2 ^ 32.
Proof.
  intros Hok Hk. destruct (ks_key_type ks) as [u|cfg] eqn:E.
  - eapply cell_prefix_uniform; [done|done|apply Hk].
  - by eapply cell_prefix_prefixed.
Qed.

(** Inside a cell, prefixes follow key order. *)
Lemma index_prefix_mono ks cell a b :
  ks_ok ks -> key_ok ks a -> key_ok ks b -> cell_id ks a = Ok cell -> cell_id ks b = Ok cell -> kle a b ->
  exists pa pb, index_prefix_u32 ks a = Ok pa /\ index_prefix_u32 ks b = Ok pb /\ pa <= pb.
Proof.
  intros Hok [Ha Hla] [Hb Hlb] Hca Hcb Hab. unfold index_prefix_u32, index_prefix.
  destruct (ks_key_type ks) as [c|cfg] eqn:Hk; cbn [mbind outcome_bind].
  { eexists _, _. split_and!; [done|done|]. rewrite !starting_u32_pad. by apply be_val_pad_mono. }
  destruct Hok as [_ Hok]. rewrite Hk in Hok. destruct Hok as [Hc0 Hcfg].
  pose proof (prefixed_spec cfg Hc0 Hcfg) as Hs. pose proof (cs_len _ _ Hs).
  destruct (key_split (prefix_len_bytes cfg) a ltac:(lia)) as (p & x & r & -> & Hp).
  destruct (key_split (prefix_len_bytes cfg) b ltac:(lia)) as (p' & x' & r' & -> & Hp').
  apply Forall_app in Ha as [_ Ha]. apply Forall_app in Hb as [_ Hb]. pose proof Ha as Ha'. pose proof Hb as Hb'.
  inversion_clear Ha' as [|?? Hx Hr]. inversion_clear Hb' as [|?? Hx' Hr'].
  rewrite (prefixed_cell ks cfg _ p x r Hk Hs Hp Hx) in Hca. rewrite (prefixed_cell ks cfg _ p' x' r' Hk Hs Hp' Hx') in Hcb.
  assert (p = p' /\ x / 2 ^ pc_cluster_bits cfg * 2 ^ pc_cluster_bits cfg = x' / 2 ^ pc_cluster_bits cfg * 2 ^ pc_cluster_bits cfg)
    as [<- Hxx].
  { rewrite <- Hcb in Hca. injection Hca as E. apply app_inj_tail in E. done. }
  unfold kle, kcmp, bytes_ord in Hab. rewrite bytes_cmp_app, (proj2 (bytes_cmp_eq p p) eq_refl) in Hab by done.
  unfold discard_prefix_bytes. rewrite (cs_has _ _ Hs). rewrite !length_app in *. cbn [length] in *.
  destruct (Z.eqb_spec (pc_cluster_bits cfg) 0) as [E|Hne]; cbn [negb]; unfold slice_from; rewrite !length_app; cbn [length].
  - destruct (Nat.leb_spec (prefix_len_bytes cfg) (length p + S (length r))); [|lia].
    destruct (Nat.leb_spec (prefix_len_bytes cfg) (length p + S (length r'))); [|lia]. cbn [mbind outcome_bind].
    rewrite E in Hxx. rewrite !Z.div_1_r, !Z.mul_1_r in Hxx. subst x'. eexists _, _. split_and!; [done|done|].
    assert (forall t, drop (prefix_len_bytes cfg) (p ++ x :: t) = t) as Hdrop.
    { intros t. rewrite cons_middle, app_assoc, drop_app_length'; [done|]. rewrite length_app. cbn. lia. }
    rewrite !Hdrop. rewrite !starting_u32_pad. apply be_val_pad_mono; [done|done|].
    cbn in Hab. by rewrite Z.compare_refl in Hab.
  - destruct (Nat.leb_spec (prefix_len_bytes cfg - 1) (length p + S (length r))); [|lia].
    destruct (Nat.leb_spec (prefix_len_bytes cfg - 1) (length p + S (length r'))); [|lia]. cbn [mbind outcome_bind].
    rewrite <- Hp, !drop_app_length. eexists _, _. split_and!; [done|done|]. rewrite !starting_u32_pad. by apply be_val_pad_mono.
Qed.

(** ** Properties *)

(** Keys fall in the prefix range of their cell: for every key space the
    builders accept (with at most [u32::MAX] cells) and every key long enough
    for it, the cell is computed without panic and the key's 4-byte index prefix
    lies in that cell's [index_prefix_range], which is inside the u32 range: the
    position of a key inside its cell never underflows. *)
Lemma key_prefix_in_cell_range ks k :
  ks_ok ks -> key_ok ks k ->
  exists cell p s e, cell_id ks k = Ok cell /\ index_prefix_u32 ks k = Ok p /\
    index_prefix_range ks cell = Ok (s, e) /\ 0 <= s <= p /\ p < e <= 2 ^ 32.
Proof. apply key_prefix_in_range. Qed.

(** Key ranges and cell ranges agree: cells follow key order, and when
    [map_key_range_to_cell_range] accepts a range of keys, a fixed-size key is
    in that range exactly when its cell is in the range of cells returned, so
    dropping those cells drops those keys and no others. *)
Lemma key_range_to_cells ks n a b k ca cb :
  ks_ok ks -> index_key_size (ks_key_indexing ks) = Some n -> range_ok ks n ->
  Forall is_u8 a -> Forall is_u8 b -> Forall is_u8 k -> length k = n ->
  map_key_range_to_cell_range ks a b = Ok (ca, cb) ->
  exists c lo hi, cell_id ks k = Ok c /\ cell_id_cmp ca c = Ok lo /\ cell_id_cmp c cb = Ok hi /\
    (kle a k /\ kle k b <-> lo <> Gt /\ hi <> Gt).
Proof.
  intros Hok Hki Hr Ha Hb Hk Hl Hm. apply map_key_range_inv in Hm as (Hca & Hcb & (l & Hra) & f & Hrb).
  pose proof (cell_id_key_ok _ _ _ Hca Ha) as Hka. pose proof (cell_id_key_ok _ _ _ Hcb Hb) as Hkb.
  assert (key_ok ks k) as Hkk.
  { split; [done|]. unfold range_ok in Hr. destruct (ks_key_type ks) as [|cfg]; [done|].
    unfold verify_key_size, assert_that in Hr. destruct (Nat.ltb_spec (prefix_len_bytes cfg) n); [lia|done]. }
  destruct (cell_order ks a k Hok Hka Hkk) as (ca' & c & lo & Hca' & Hc & Hlo & Hle & Hge).
  destruct (cell_order ks k b Hok Hkk Hkb) as (c' & cb' & hi & Hc' & Hcb' & Hhi & Hle' & Hge').
  assert (ca' = ca) as -> by congruence. assert (cb' = cb) as -> by congruence. assert (c' = c) as -> by congruence.
  exists c, lo, hi. do 3 (split; [done|]).
  destruct (cell_range_ok ks n k c Hok Hki Hr Hk Hl Hc) as (first & last & Hrc & Hf & Hla).
  split; [intros []; auto|]. intros [Hn Hn']. split.
  - destruct (kle_total a k) as [|Hka']; [done|].
    specialize (Hge Hka'). destruct lo; try done. apply cell_id_cmp_eq in Hlo as ->. congruence.
  - destruct (kle_total k b) as [|Hbk]; [done|].
    specialize (Hge' Hbk). destruct hi; try done. apply cell_id_cmp_eq in Hhi as ->. congruence.
Qed.

(** ** Examples: 8 clustered 12-bit prefixes, and 16 uniform cells *)

Definition demo_prefixed : KeySpaceDesc :=
  mkKeySpace 0 "p" (Fixed 4) 4 (PrefixedUniform (mkPrefixed 2 4 240)) false.

Definition demo_uniform : KeySpaceDesc := mkKeySpace 1 "u" (Fixed 5) 4 (Uniform 4) false.

Lemma demo_prefixed_ok : ks_ok demo_prefixed.
Proof. split; [done|]. split; [cbn; lia|done]. Qed.

Lemma demo_uniform_ok : ks_ok demo_uniform.
Proof. split; [done|]. split; [done|cbn; unfold u32_max; lia]. Qed.

