(* ===== verification/WalEntry.v ===== *)
(** * WAL entries and compressed batches

    [WalEntry] of [src/tidehunter/src/db.rs], the payload of a WAL frame, with
    its encoding, and [src/tidehunter/src/compressed_batch.rs]: a whole batch in
    one frame.  The LZ4 functions come from a third-party crate and are
    parameters; what is relied on is that decompression with the recorded length
    inverts compression. *)

From Stdlib Require Import ZArith Lia List.
From stdpp Require Import base tactics list strings.
From S2P Require Import Prelude BTree Bytes Position Cell.

Local Open Scope Z_scope.

(** ** Data *)

Inductive BatchCodec := Lz4.

Definition KeySpace := Z.

Inductive WalEntry :=
| WalRecord (ks : KeySpace) (k v : list Z) (relocated : bool)
| WalIndex (ks : KeySpace) (index : list Z)
| WalRemove (ks : KeySpace) (k : list Z)
| WalBatchStart (size : Z)
| WalDropCells (ks : KeySpace) (from_cell to_cell : CellId)
| WalCompressedBatch (codec : BatchCodec) (uncompressed_len : Z) (body : list Z).

Definition WAL_ENTRY_RECORD : Z := 1.
Definition WAL_ENTRY_INDEX : Z := 2.
Definition WAL_ENTRY_REMOVE : Z := 3.
Definition WAL_ENTRY_BATCH_START : Z := 4.
Definition WAL_ENTRY_RELOCATED_RECORD : Z := 5.
Definition WAL_ENTRY_DROP_CELLS : Z := 6.
Definition WAL_ENTRY_COMPRESSED_BATCH : Z := 7.

Definition codec_to_u8 (c : BatchCodec) : Z := match c with Lz4 => 1 end.

Definition codec_from_u8 (v : Z) : outcome BatchCodec :=
  if v =? 1 then Ok Lz4 else Panic "Unknown compressed-batch codec byte in WAL".

(** ** Encoding *)

Definition record_len (k v : list Z) : nat := 1 + 1 + 2 + length k + length v.

Definition wal_entry_len (e : WalEntry) : nat :=
  match e with
  | WalRecord _ k v _ => record_len k v
  | WalIndex _ index => 1 + 1 + length index
  | WalRemove _ k => 1 + 1 + length k
  | WalBatchStart _ => 1 + 4
  | WalDropCells _ from_cell to_cell => 1 + 1 + cell_id_len from_cell + cell_id_len to_cell
  | WalCompressedBatch _ _ body => 1 + 1 + 4 + length body
  end.

Definition wal_entry_write (e : WalEntry) (buf : list Z) : outcome (list Z) :=
  match e with
  | WalRecord ks k v relocated =>
      let buf := buf ++ [if relocated then WAL_ENTRY_RELOCATED_RECORD else WAL_ENTRY_RECORD] in
      Ok (buf ++ [ks] ++ be_bytes 2 (wrap16 (Z.of_nat (length k))) ++ k ++ v)
  | WalIndex ks bytes => Ok (buf ++ [WAL_ENTRY_INDEX; ks] ++ bytes)
  | WalRemove ks k => Ok (buf ++ [WAL_ENTRY_REMOVE; ks] ++ k)
  | WalBatchStart size => Ok (buf ++ [WAL_ENTRY_BATCH_START] ++ be_bytes 4 size)
  | WalDropCells ks from_cell to_cell =>
      buf ← cell_id_write_into_bytes from_cell (buf ++ [WAL_ENTRY_DROP_CELLS; ks]);
      cell_id_write_into_bytes to_cell buf
  | WalCompressedBatch codec uncompressed_len body =>
      Ok (buf ++ [WAL_ENTRY_COMPRESSED_BATCH; codec_to_u8 codec] ++ be_bytes 4 uncompressed_len ++ body)
  end.

Definition wal_entry_from_bytes (bytes : list Z) : outcome WalEntry :=
  '(entry_type, b) ← get_u8 bytes;
  if (entry_type =? WAL_ENTRY_RECORD) || (entry_type =? WAL_ENTRY_RELOCATED_RECORD) then
    '(ks, b) ← get_u8 b;
    '(key_len, b) ← get_u16 b;
    k ← slice bytes 4 (4 + Z.to_nat key_len);
    v ← slice_from bytes (4 + Z.to_nat key_len);
    Ok (WalRecord ks k v (entry_type =? WAL_ENTRY_RELOCATED_RECORD))
  else if entry_type =? WAL_ENTRY_INDEX then
    '(ks, b) ← get_u8 b;
    index ← slice_from bytes 2;
    Ok (WalIndex ks index)
  else if entry_type =? WAL_ENTRY_REMOVE then
    '(ks, b) ← get_u8 b;
    k ← slice_from bytes 2;
    Ok (WalRemove ks k)
  else if entry_type =? WAL_ENTRY_BATCH_START then
    '(size, b) ← get_u32 b;
    Ok (WalBatchStart size)
  else if entry_type =? WAL_ENTRY_DROP_CELLS then
    '(ks, b) ← get_u8 b;
    '(from_cell, b) ← cell_id_from_bytes b;
    '(to_cell, b) ← cell_id_from_bytes b;
    Ok (WalDropCells ks from_cell to_cell)
  else if entry_type =? WAL_ENTRY_COMPRESSED_BATCH then
    '(c, b) ← get_u8 b;
    codec ← codec_from_u8 c;
    '(uncompressed_len, b) ← get_u32 b;
    body ← slice_from bytes (1 + 1 + 4);
    Ok (WalCompressedBatch codec uncompressed_len body)
  else Panic "Unknown wal entry type".

(** ** Compressed batches *)

(** The loop of [encode] over the entries. *)
Fixpoint encode_entries (entries : list WalEntry) (buf : list Z) : outcome (list Z) :=
  match entries with
  | [] => Ok buf
  | e :: rest =>
      buf ← wal_entry_write e (buf ++ be_bytes 4 (wrap32 (Z.of_nat (wal_entry_len e))));
      encode_entries rest buf
  end.

(** [InnerIter]: the entries left in [data] from [offset] on. *)
Fixpoint inner_entries (remaining : nat) (data : list Z) (offset : nat) : outcome (list WalEntry) :=
  match remaining with
  | O => Ok []
  | S remaining' =>
      hdr ← slice_from data offset;
      '(entry_len, _) ← get_u32 hdr;
      let entry_start := (offset + 4)%nat in
      let entry_end := (entry_start + Z.to_nat entry_len)%nat in
      entry_bytes ← slice data entry_start entry_end;
      e ← wal_entry_from_bytes entry_bytes;
      rest ← inner_entries remaining' data entry_end;
      Ok (e :: rest)
  end.

Definition inner_iter (decompressed : list Z) : outcome (list WalEntry) :=
  '(count, _) ← get_u32 decompressed;
  inner_entries (Z.to_nat count) decompressed 4.

(** [find_record_by] pulls entries until one matches. *)
Fixpoint find_inner (remaining : nat) (data : list Z) (offset : nat) (target_ks : KeySpace)
    (matches : list Z -> outcome bool) : outcome (option (list Z * list Z)) :=
  match remaining with
  | O => Ok None
  | S remaining' =>
      hdr ← slice_from data offset;
      '(entry_len, _) ← get_u32 hdr;
      let entry_start := (offset + 4)%nat in
      let entry_end := (entry_start + Z.to_nat entry_len)%nat in
      entry_bytes ← slice data entry_start entry_end;
      e ← wal_entry_from_bytes entry_bytes;
      match e with
      | WalRecord ks key value _ =>
          found ← (if ks =? target_ks then matches key else Ok false);
          if found : bool then Ok (Some (key, value)) else find_inner remaining' data entry_end target_ks matches
      | _ => find_inner remaining' data entry_end target_ks matches
      end
  end.

Definition find_record_by (decompressed : list Z) (target_ks : KeySpace) (matches : list Z -> outcome bool) :
    outcome (option (list Z * list Z)) :=
  '(count, _) ← get_u32 decompressed;
  find_inner (Z.to_nat count) decompressed 4 target_ks matches.

Definition find_record (decompressed : list Z) (target_ks : KeySpace) (target_key : list Z) :
    outcome (option (list Z)) :=
  found ← find_record_by decompressed target_ks (fun k => Ok (keqb k target_key));
  Ok (option_map snd found).

Section lz4.
Context (lz4_compress : list Z -> list Z) (lz4_decompress : list Z -> Z -> option (list Z)).

Definition compressed_batch_encode (entries : list WalEntry) : outcome WalEntry :=
  raw_body ← encode_entries entries (be_bytes 4 (wrap32 (Z.of_nat (length entries))));
  Ok (WalCompressedBatch Lz4 (wrap32 (Z.of_nat (length raw_body))) (lz4_compress raw_body)).

(** [CompressedBatch::decompress]; [None] for the other entries. *)
Definition decompress_wal_entry (entry : WalEntry) : outcome (option (list Z)) :=
  match entry with
  | WalCompressedBatch Lz4 uncompressed_len body =>
      out ← expect (lz4_decompress body uncompressed_len) "CompressedBatch decompression failed";
      Ok (Some out)
  | _ => Ok None
  end.
End lz4.

(** ** Round trips *)

(** What the program writes: field values in the ranges of their types. *)
Definition wal_entry_ok (e : WalEntry) : Prop :=
  match e with
  | WalRecord ks k _ _ => is_u8 ks /\ Z.of_nat (length k) <= u16_max
  | WalIndex ks _ | WalRemove ks _ => is_u8 ks
  | WalBatchStart size => is_u32 size
  | WalDropCells ks from_cell to_cell => is_u8 ks /\ cell_id_ok from_cell /\ cell_id_ok to_cell
  | WalCompressedBatch _ uncompressed_len _ => is_u32 uncompressed_len
  end.

Lemma slice_from_mid (b a c : list Z) (i : nat) : b = a ++ c -> i = length a -> slice_from b i = Ok c.
Proof.
  intros -> ->. unfold slice_from. rewrite length_app, drop_app_length.
  by destruct (Nat.leb_spec (length a) (length a + length c)); [|lia].
Qed.

(** An entry's bytes, and that they parse back. *)
Definition entry_encodes (e : WalEntry) : Prop :=
  exists enc, (forall buf, wal_entry_write e buf = Ok (buf ++ enc)) /\ length enc = wal_entry_len e /\
    wal_entry_from_bytes enc = Ok e.

Lemma record_encodes ks k v r : wal_entry_ok (WalRecord ks k v r) -> entry_encodes (WalRecord ks k v r).
Proof.
  intros [Hks Hk]. set (t := if r then WAL_ENTRY_RELOCATED_RECORD else WAL_ENTRY_RECORD).
  exists (t :: ks :: be_bytes 2 (wrap16 (Z.of_nat (length k))) ++ k ++ v).
  split; [intros buf; cbn [wal_entry_write]; by rewrite <- app_assoc|]. split.
  { cbn [length wal_entry_len]. unfold record_len. rewrite !length_app, length_be_bytes. lia. }
  unfold wrap16. rewrite Z.mod_small by (unfold u16_max in Hk; lia).
  unfold wal_entry_from_bytes. rewrite get_u8_cons. cbn [mbind outcome_bind].
  replace ((t =? WAL_ENTRY_RECORD) || (t =? WAL_ENTRY_RELOCATED_RECORD)) with true by (by destruct r).
  rewrite get_u8_cons. cbn [mbind outcome_bind]. unfold get_u16.
  rewrite (get_be_app 2) by (unfold u16_max in Hk; cbn; lia). cbn [mbind outcome_bind]. rewrite Nat2Z.id.
  rewrite (slice_mid _ (t :: ks :: be_bytes 2 (Z.of_nat (length k))) k v);
    [|by rewrite <- !app_comm_cons|cbn; by rewrite length_be_bytes|cbn; rewrite length_be_bytes; lia].
  cbn [mbind outcome_bind].
  rewrite (slice_from_mid _ (t :: ks :: be_bytes 2 (Z.of_nat (length k)) ++ k) v);
    [|by rewrite <- !app_comm_cons, <- app_assoc|cbn; by rewrite length_app, length_be_bytes].
  cbn [mbind outcome_bind]. do 2 f_equal. by destruct r.
Qed.

Lemma drop_cells_encodes ks f t : wal_entry_ok (WalDropCells ks f t) -> entry_encodes (WalDropCells ks f t).
Proof.
  intros (Hks & Hf & Ht). destruct (cell_id_encodes f Hf) as (fe & Hfw & Hfl & Hfr).
  destruct (cell_id_encodes t Ht) as (te & Htw & Htl & Htr).
  exists (WAL_ENTRY_DROP_CELLS :: ks :: fe ++ te). split.
  { intros buf. cbn [wal_entry_write]. rewrite Hfw. cbn [mbind outcome_bind]. rewrite Htw. by rewrite <- !app_assoc. }
  split; [cbn [length wal_entry_len]; rewrite length_app; lia|].
  unfold wal_entry_from_bytes. rewrite !get_u8_cons. cbn -[cell_id_from_bytes get_u8].
  rewrite get_u8_cons. cbn -[cell_id_from_bytes]. rewrite Hfr. cbn -[cell_id_from_bytes].
  rewrite <- (app_nil_r te), Htr. done.
Qed.

Lemma compressed_encodes c ul body :
  wal_entry_ok (WalCompressedBatch c ul body) -> entry_encodes (WalCompressedBatch c ul body).
Proof.
  intros Hul. destruct c. exists (WAL_ENTRY_COMPRESSED_BATCH :: 1 :: be_bytes 4 ul ++ body). split; [done|].
  split; [cbn [length wal_entry_len]; rewrite length_app, length_be_bytes; lia|].
  unfold wal_entry_from_bytes. rewrite get_u8_cons. cbn -[get_u8 get_u32 slice_from be_bytes].
  rewrite get_u8_cons. cbn -[get_u32 slice_from be_bytes]. unfold get_u32. rewrite (get_be_app 4) by done.
  cbn -[slice_from be_bytes].
  rewrite (slice_from_mid _ (WAL_ENTRY_COMPRESSED_BATCH :: 1 :: be_bytes 4 ul) body);
    [done|done|cbn [length]; by rewrite length_be_bytes].
Qed.

Lemma wal_entry_encodes e : wal_entry_ok e -> entry_encodes e.
Proof.
  destruct e as [ks k v r|ks ix|ks k|size|ks f t|c ul body]; intros Hok;
    [by apply record_encodes| | | |by apply drop_cells_encodes|by apply compressed_encodes].
  - exists (WAL_ENTRY_INDEX :: ks :: ix). split; [done|]. split; [done|].
    unfold wal_entry_from_bytes. by rewrite !get_u8_cons.
  - exists (WAL_ENTRY_REMOVE :: ks :: k). split; [done|]. split; [done|].
    unfold wal_entry_from_bytes. by rewrite !get_u8_cons.
  - exists (WAL_ENTRY_BATCH_START :: be_bytes 4 size). split; [done|].
    split; [cbn [length]; by rewrite length_be_bytes|].
    unfold wal_entry_from_bytes. rewrite get_u8_cons. cbn [mbind outcome_bind].
    unfold get_u32. rewrite <- (app_nil_r (be_bytes 4 size)), (get_be_app 4) by done. done.
Qed.

(** One entry of a batch body: length and bytes. *)
Definition batch_entry_ok (e : WalEntry) : Prop :=
  wal_entry_ok e /\ Z.of_nat (wal_entry_len e) <= u32_max.

(** The first record whose key matches. *)
Fixpoint record_by (entries : list WalEntry) (ks : KeySpace) (matches : list Z -> outcome bool) : outcome (option (list Z * list Z)) :=
  match entries with
  | [] => Ok None
  | WalRecord ks' key v _ :: rest =>
      found ← (if ks' =? ks then matches key else Ok false);
      if found : bool then Ok (Some (key, v)) else record_by rest ks matches
  | _ :: rest => record_by rest ks matches
  end.

(** The value of the first record of [key]. *)
Fixpoint record_value (entries : list WalEntry) (ks : KeySpace) (key : list Z) : option (list Z) :=
  match entries with
  | [] => None
  | WalRecord ks' key' v _ :: rest =>
      if (ks' =? ks) && keqb key' key then Some v else record_value rest ks key
  | _ :: rest => record_value rest ks key
  end.

(** Reading one entry of the body at its offset. *)
Lemma inner_entry_read (pre enc post : list Z) :
  Z.of_nat (length enc) <= u32_max ->
  slice_from (pre ++ (be_bytes 4 (Z.of_nat (length enc)) ++ enc) ++ post) (length pre) =
    Ok (be_bytes 4 (Z.of_nat (length enc)) ++ enc ++ post) /\
  get_u32 (be_bytes 4 (Z.of_nat (length enc)) ++ enc ++ post) = Ok (Z.of_nat (length enc), enc ++ post) /\
  slice (pre ++ (be_bytes 4 (Z.of_nat (length enc)) ++ enc) ++ post) (length pre + 4)
    (length pre + 4 + length enc) = Ok enc.
Proof.
  intros Hl. split_and!.
  - apply (slice_from_mid _ pre); [by rewrite <- !app_assoc|done].
  - unfold get_u32. apply (get_be_app 4). unfold u32_max in Hl. cbn. lia.
  - eapply (slice_mid _ (pre ++ be_bytes 4 (Z.of_nat (length enc))) enc post);
      rewrite ?length_app, ?length_be_bytes; [by rewrite <- !app_assoc|done|done].
Qed.

Lemma encode_entries_ok entries :
  Forall batch_entry_ok entries ->
  exists img, (forall buf, encode_entries entries buf = Ok (buf ++ img)) /\
    forall pre post,
      inner_entries (length entries) (pre ++ img ++ post) (length pre) = Ok entries /\
      forall ks matches, find_inner (length entries) (pre ++ img ++ post) (length pre) ks matches = record_by entries ks matches.
Proof.
  induction 1 as [|e entries [He Hlen] _ (img & Henc & Hread)].
  - exists []. split; [intros buf; by rewrite app_nil_r|]. intros pre post. done.
  - destruct (wal_entry_encodes e He) as (enc & Hw & Hl & Hr). rewrite <- Hl in Hlen.
    exists ((be_bytes 4 (Z.of_nat (length enc)) ++ enc) ++ img). split.
    { intros buf. cbn [encode_entries]. rewrite <- Hl. rewrite wrap32_small by (unfold is_u32, u32_max in *; lia).
      rewrite Hw. cbn [mbind outcome_bind]. rewrite Henc. by rewrite <- !app_assoc. }
    intros pre post. rewrite <- app_assoc. destruct (inner_entry_read pre enc (img ++ post) Hlen) as (H1 & H2 & H3).
    specialize (Hread (pre ++ be_bytes 4 (Z.of_nat (length enc)) ++ enc) post) as [Hin Hfind].
    rewrite <- app_assoc in Hin. rewrite !length_app, length_be_bytes in Hin.
    replace (length pre + (4 + length enc))%nat with (length pre + 4 + length enc)%nat in Hin by lia.
    cbn [length inner_entries find_inner]. rewrite H1. cbn [mbind outcome_bind]. rewrite H2. cbn [mbind outcome_bind].
    rewrite Nat2Z.id, H3. cbn [mbind outcome_bind]. rewrite Hr. cbn [mbind outcome_bind]. split; [by rewrite Hin|].
    intros ks matches. specialize (Hfind ks matches). rewrite <- app_assoc in Hfind.
    rewrite !length_app, length_be_bytes in Hfind.
    replace (length pre + (4 + length enc))%nat with (length pre + 4 + length enc)%nat in Hfind by lia.
    destruct e as [ks' key' v r| | | | |]; cbn [record_by]; by rewrite ?Hfind.
Qed.

Lemma record_by_value entries ks key :
  exists k, record_by entries ks (fun k => Ok (keqb k key)) = Ok (option_map (pair k) (record_value entries ks key)).
Proof.
  induction entries as [|e entries [k IH]]; cbn [record_by record_value]; [by exists []|].
  destruct e as [ks' key' v r| | | | |]; try (by exists k). destruct (ks' =? ks); cbn; [|by exists k]. destruct (keqb key' key); [by exists key'|by exists k].
Qed.

(** ** Properties *)

(** WAL entries survive their encoding: every entry whose fields are in the
    ranges of their types is written in exactly [len] bytes, whatever the buffer
    holds already, and parses back to itself. *)
Lemma wal_entry_roundtrip e :
  wal_entry_ok e ->
  exists enc, (forall buf, wal_entry_write e buf = Ok (buf ++ enc)) /\ length enc = wal_entry_len e /\
    wal_entry_from_bytes enc = Ok e.
Proof. apply wal_entry_encodes. Qed.

(** The frame of a compressed batch. *)
Lemma compressed_frame_reads lz4_compress lz4_decompress entries :
  (forall b, lz4_decompress (lz4_compress b) (Z.of_nat (length b)) = Some b) ->
  Forall batch_entry_ok entries -> Z.of_nat (length entries) <= u32_max ->
  (forall raw, encode_entries entries (be_bytes 4 (Z.of_nat (length entries))) = Ok raw ->
     Z.of_nat (length raw) <= u32_max) ->
  exists frame body, compressed_batch_encode lz4_compress entries = Ok frame /\ wal_entry_ok frame /\
    decompress_wal_entry lz4_decompress frame = Ok (Some body) /\ inner_iter body = Ok entries /\
    (forall ks matches, find_record_by body ks matches = record_by entries ks matches) /\
    forall ks key, find_record body ks key = Ok (record_value entries ks key).
Proof.
  intros Hlz Hok Hn Hraw. destruct (encode_entries_ok entries Hok) as (img & Henc & Hread).
  specialize (Hraw _ (Henc _)). unfold compressed_batch_encode.
  assert (is_u32 (Z.of_nat (length entries))) as Hn' by (unfold is_u32, u32_max in *; lia).
  rewrite (wrap32_small _ Hn'), Henc. cbn [mbind outcome_bind].
  rewrite wrap32_small by (unfold is_u32, u32_max in *; lia).
  specialize (Hread (be_bytes 4 (Z.of_nat (length entries))) []) as [Hin Hfind].
  rewrite app_nil_r, length_be_bytes in Hin.
  eexists _, _. split; [reflexivity|]. split; [unfold wal_entry_ok, is_u32, u32_max in *; lia|].
  split; [cbn [decompress_wal_entry]; rewrite Hlz; reflexivity|].
  unfold inner_iter, find_record, find_record_by, get_u32. rewrite (get_be_app 4) by done.
  cbn [mbind outcome_bind]. rewrite Nat2Z.id. split; [done|]. rewrite app_nil_r, length_be_bytes in Hfind. split; [done|].
  intros ks key. rewrite Hfind. destruct (record_by_value entries ks key) as [k ->]. cbn. by destruct (record_value entries ks key).
Qed.

Lemma compressed_frame_ok lz4_compress lz4_decompress entries :
  (forall b, lz4_decompress (lz4_compress b) (Z.of_nat (length b)) = Some b) ->
  Forall batch_entry_ok entries -> Z.of_nat (length entries) <= u32_max ->
  (forall raw, encode_entries entries (be_bytes 4 (Z.of_nat (length entries))) = Ok raw ->
     Z.of_nat (length raw) <= u32_max) ->
  exists frame body, compressed_batch_encode lz4_compress entries = Ok frame /\ wal_entry_ok frame /\
    decompress_wal_entry lz4_decompress frame = Ok (Some body) /\ inner_iter body = Ok entries.
Proof.
  intros Hlz Hok Hn Hraw. destruct (compressed_frame_reads lz4_compress lz4_decompress entries Hlz Hok Hn Hraw) as (fr & body & ? & ? & ? & ? & _ & _).
  by exists fr, body.
Qed.

(** A compressed batch keeps its entries: with a compressor that decompresses
    to what was compressed, the frame encoded from a batch decompresses to a body
    that iterates over exactly the entries of the batch, in order, and in which a
    point lookup finds the value of the key's first record, or nothing. *)
Lemma compressed_batch_reads lz4_compress lz4_decompress entries :
  (forall b, lz4_decompress (lz4_compress b) (Z.of_nat (length b)) = Some b) ->
  Forall batch_entry_ok entries -> Z.of_nat (length entries) <= u32_max ->
  (forall raw, encode_entries entries (be_bytes 4 (Z.of_nat (length entries))) = Ok raw ->
     Z.of_nat (length raw) <= u32_max) ->
  exists frame body, compressed_batch_encode lz4_compress entries = Ok frame /\ wal_entry_ok frame /\
    decompress_wal_entry lz4_decompress frame = Ok (Some body) /\ inner_iter body = Ok entries /\
    forall ks key, find_record body ks key = Ok (record_value entries ks key).
Proof.
  intros Hlz Hok Hn Hraw. destruct (compressed_frame_reads lz4_compress lz4_decompress entries Hlz Hok Hn Hraw) as (fr & body & ? & ? & ? & ? & _ & ?).
  by exists fr, body.
Qed.

(** The identity as a compressor. *)
Definition store_decompress (b : list Z) (n : Z) : option (list Z) :=
  if Z.of_nat (length b) =? n then Some b else None.

