(* ===== verification/Allocator.v ===== *)
(** * The WAL allocator

    [src/tidehunter/src/wal/allocator.rs]: the lock-free position allocator.
    [allocate_attempt] is one iteration of the compare-and-swap loop up to the
    [compare_exchange]; [allocate] is the call without contention; [alloc_step]
    interleaves the loads and swaps of any number of threads. *)

From Stdlib Require Import ZArith Lia List Sorting.Sorted.
From stdpp Require Import base tactics list gmap strings relations.
From S2P Require Import Prelude BTree Bytes Position Layout.

Local Open Scope Z_scope.

Record AllocationResult := mkAllocationResult {
  allocated_position : Z;
  previous_position : Z;
  len_aligned : Z;
}.

#[export] Instance AllocationResult_eq_dec : EqDecision AllocationResult.
Proof. solve_decision. Defined.

#[export] Instance allocation_has_offset : HasOffset AllocationResult := allocated_position.

Definition alloc_next_position (r : AllocationResult) : Z :=
  u64_add (allocated_position r) (len_aligned r).

Definition need_skip_marker (r : AllocationResult) : option Z :=
  if negb (previous_position r =? allocated_position r) then Some (previous_position r) else None.

(** One iteration of the loop of [allocate] from the loaded [current_pos]: the
    result it will return and the position it tries to store. *)
Definition allocate_attempt (l : WalLayout) (len current_pos : Z) :
    outcome (AllocationResult * Z) :=
  let len_aligned := layout_align l len in
  allocated_pos ← next_position l current_pos len_aligned;
  let next_pos := u64_add allocated_pos len_aligned in
  Ok (mkAllocationResult allocated_pos current_pos len_aligned, next_pos).

(** [allocate] when no other thread interferes: the first swap succeeds. *)
Definition allocate (l : WalLayout) (position len : Z) : outcome (AllocationResult * Z) :=
  allocate_attempt l len position.

(** ** Interleavings

    A call allocates for a frame, whose length is a non-zero u32.  A thread
    whose entry does not fit in a fragment panics in [next_position]: it has
    no step. *)

(** Where a thread is inside [allocate]: about to load, or about to swap. *)
Inductive alloc_pc :=
| PcLoad (len : Z)
| PcSwap (len current_pos : Z).

(** The shared [position], the threads inside [allocate], and the results
    returned so far, in the order of their swaps. *)
Record alloc_state := mkAllocState {
  as_position : Z;
  as_threads : gmap nat alloc_pc;
  as_results : list AllocationResult;
}.

Definition alloc_init (initial_position : Z) : alloc_state :=
  mkAllocState initial_position ∅ [].

Inductive alloc_step (l : WalLayout) : alloc_state -> alloc_state -> Prop :=
| alloc_call s t len :
    as_threads s !! t = None ->
    0 < len <= u32_max ->
    alloc_step l s
      (mkAllocState (as_position s) (<[t := PcLoad len]> (as_threads s)) (as_results s))
| alloc_load s t len :
    as_threads s !! t = Some (PcLoad len) ->
    alloc_step l s
      (mkAllocState (as_position s) (<[t := PcSwap len (as_position s)]> (as_threads s))
         (as_results s))
| alloc_swap_ok s t len current_pos r next_pos :
    as_threads s !! t = Some (PcSwap len current_pos) ->
    allocate_attempt l len current_pos = Ok (r, next_pos) ->
    as_position s = current_pos ->
    alloc_step l s
      (mkAllocState next_pos (delete t (as_threads s)) (as_results s ++ [r]))
| alloc_swap_fail s t len current_pos r next_pos :
    as_threads s !! t = Some (PcSwap len current_pos) ->
    allocate_attempt l len current_pos = Ok (r, next_pos) ->
    as_position s <> current_pos ->
    alloc_step l s
      (mkAllocState (as_position s) (<[t := PcLoad len]> (as_threads s)) (as_results s)).

(** The steps of a log that has not used up the 64-bit offset space. *)
Definition alloc_step_room (l : WalLayout) (s s' : alloc_state) : Prop :=
  alloc_step l s s' /\ as_position s + 2 * frag_size l <= u64_max.

(** ** What the allocations of a log look like *)

(** One allocation: it starts at the first place from [previous_position] where
    it fits in one fragment, and its extent is aligned. *)
Definition allocation_ok (l : WalLayout) (r : AllocationResult) : Prop :=
  0 <= previous_position r <= allocated_position r /\
  allocated_position r < previous_position r + len_aligned r /\
  0 < len_aligned r <= frag_size l /\ (layout_alignment l | len_aligned r) /\
  in_one_frag l (allocated_position r) (len_aligned r) /\
  allocated_position r + len_aligned r <= u64_max.

(** [rs] is contiguous from [start] to [stop]: every allocation's
    [previous_position] is where the one before it ended. *)
Fixpoint alloc_chain (start : Z) (rs : list AllocationResult) (stop : Z) : Prop :=
  match rs with
  | [] => start = stop
  | r :: rs' => previous_position r = start /\ alloc_chain (alloc_next_position r) rs' stop
  end.

Lemma alloc_next_ok l r :
  allocation_ok l r -> alloc_next_position r = allocated_position r + len_aligned r.
Proof. intros (?&?&?&?&?&?). apply u64_add_small; lia. Qed.

Lemma alloc_chain_snoc start rs mid r :
  alloc_chain start rs mid -> previous_position r = mid ->
  alloc_chain start (rs ++ [r]) (alloc_next_position r).
Proof.
  revert start. induction rs as [|r' rs IH]; intros start; cbn; [naive_solver|].
  intros [-> ?] ?. split; [done|]. by apply IH.
Qed.

Lemma alloc_chain_bounds l start rs stop :
  Forall (allocation_ok l) rs -> alloc_chain start rs stop ->
  start <= stop /\
  Forall (fun r => start <= previous_position r /\ alloc_next_position r <= stop) rs.
Proof.
  intros Hf. revert start. induction Hf as [|r rs Hr Hf IH]; intros start; cbn.
  { intros ->. split; [lia|done]. }
  intros [<- Hc]. apply IH in Hc as [Hle Hall]. pose proof (alloc_next_ok _ _ Hr) as Hn.
  destruct Hr as (?&?&?&?&?&?). rewrite Hn in *. split; [lia|]. constructor; [lia|].
  eapply Forall_impl; [done|]. cbn. intros. lia.
Qed.

Lemma alloc_chain_app start a b stop :
  alloc_chain start (a ++ b) stop <->
  exists mid, alloc_chain start a mid /\ alloc_chain mid b stop.
Proof.
  revert start. induction a as [|r a IH]; intros start; cbn; [naive_solver|].
  rewrite IH. naive_solver.
Qed.

Lemma alloc_chain_fun start rs stop stop' :
  alloc_chain start rs stop -> alloc_chain start rs stop' -> stop = stop'.
Proof.
  revert start. induction rs as [|r rs IH]; intros start; cbn; [congruence|].
  intros [_ H1] [_ H2]. by eapply IH.
Qed.

(** Later allocations of a chain have greater [previous_position]s. *)
Lemma alloc_chain_prev_lt l start r rs stop r' :
  Forall (allocation_ok l) (r :: rs) -> alloc_chain start (r :: rs) stop -> r' ∈ rs ->
  previous_position r < previous_position r'.
Proof.
  intros [Hr Hf]%Forall_cons [_ Hc] Hin.
  destruct (alloc_chain_bounds _ _ _ _ Hf Hc) as [_ Hall].
  rewrite Forall_forall in Hall. destruct (Hall _ Hin) as [Hle _].
  rewrite (alloc_next_ok _ _ Hr) in Hle. destruct Hr as (?&?&?&_). lia.
Qed.

Lemma alloc_chain_prev_inj l start rs stop r r' :
  Forall (allocation_ok l) rs -> alloc_chain start rs stop -> r ∈ rs -> r' ∈ rs ->
  previous_position r = previous_position r' -> r = r'.
Proof.
  intros Hf. revert start. induction Hf as [|x rs Hx Hf IH]; intros start Hc Hr Hr' Heq.
  { by apply not_elem_of_nil in Hr. }
  assert (Hlt : forall y, y ∈ rs -> previous_position x < previous_position y).
  { intros y. eapply alloc_chain_prev_lt; [by constructor|done]. }
  apply elem_of_cons in Hr as [->|Hr], Hr' as [->|Hr']; [done| | |].
  - apply Hlt in Hr'. lia.
  - apply Hlt in Hr. lia.
  - destruct Hc as [_ Hc]. eauto.
Qed.

(** The allocations of a chain are in order and disjoint. *)
Lemma alloc_chain_disjoint l start rs stop :
  Forall (allocation_ok l) rs -> alloc_chain start rs stop ->
  StronglySorted (fun a b => allocated_position a + len_aligned a <= allocated_position b) rs.
Proof.
  intros Hf. revert start. induction Hf as [|r rs Hr Hf IH]; intros start; cbn; [constructor|].
  intros [<- Hc]. constructor; [by eapply IH|].
  destruct (alloc_chain_bounds _ _ _ _ Hf Hc) as [_ Hall].
  rewrite (alloc_next_ok _ _ Hr) in Hall.
  eapply Forall_impl; [apply (proj2 (Forall_and _ _) (conj Hf Hall))|].
  intros r' [((?&?)&_) [? _]]. lia.
Qed.

Lemma layout_align_u32 l len :
  0 < len <= u32_max ->
  0 < layout_align l len /\ (layout_alignment l | layout_align l len).
Proof.
  unfold u32_max. intros Hl.
  destruct (layout_align_spec l len) as [[? ?] ?]; unfold u64_max; [lia..|]. split; [lia|done].
Qed.

(** An attempt whose entry fits in a fragment yields a well-formed allocation
    from the loaded position, and stores the position right behind it. *)
Lemma allocate_attempt_spec l len pos :
  layout_ok l -> 0 <= pos -> 0 < len <= u32_max -> layout_align l len <= frag_size l ->
  pos + 2 * frag_size l <= u64_max ->
  exists r, allocate_attempt l len pos = Ok (r, alloc_next_position r) /\
    allocation_ok l r /\ previous_position r = pos /\ len_aligned r = layout_align l len.
Proof.
  intros Hok Hp Hl Hfit Hb. destruct (layout_align_u32 l len Hl) as [Hpos Hdiv].
  destruct (next_position_spec l pos (layout_align l len)) as (p & Hnp & Hr & Hin & _); [done|lia..|].
  unfold allocate_attempt. rewrite Hnp. cbn.
  exists (mkAllocationResult p pos (layout_align l len)). split; [done|]. cbn.
  split; [|done]. unfold allocation_ok. cbn. split_and!; try done; lia.
Qed.

(** An attempt that does not panic had an entry that fits. *)
Lemma allocate_attempt_fits l len pos r next :
  allocate_attempt l len pos = Ok (r, next) -> layout_align l len <= frag_size l.
Proof.
  unfold allocate_attempt, next_position, assert_that, mbind, outcome_bind.
  destruct (Z.leb_spec (layout_align l len) (frag_size l)); done.
Qed.

(** What every reachable state satisfies: the results form one contiguous
    chain ending at the shared position, and a thread waiting to swap has a
    frame length. *)
Definition alloc_inv (l : WalLayout) (p0 : Z) (s : alloc_state) : Prop :=
  alloc_chain p0 (as_results s) (as_position s) /\ Forall (allocation_ok l) (as_results s) /\
  0 <= as_position s /\
  map_Forall (fun _ pc => match pc with PcLoad len | PcSwap len _ => 0 < len <= u32_max end)
    (as_threads s).

Lemma alloc_step_inv l p0 s s' :
  layout_ok l -> alloc_inv l p0 s -> alloc_step_room l s s' -> alloc_inv l p0 s'.
Proof.
  intros Hok (Hc & Hf & Hp & Ht) [Hstep Hroom].
  destruct Hstep as [s t len Hn Hl|s t len Hn|s t len cur r next Hn Ha Heq|s t len cur r next Hn Ha Hne];
    unfold alloc_inv; cbn.
  - split_and!; [done..|]. by apply map_Forall_insert_2.
  - split_and!; [done..|]. apply map_Forall_insert_2; [|done]. by apply (Ht _ _ Hn).
  - subst cur. pose proof (Ht _ _ Hn) as Hl. cbn in Hl.
    destruct (allocate_attempt_spec l len (as_position s) Hok Hp Hl
      (allocate_attempt_fits _ _ _ _ _ Ha) Hroom) as (r' & Ha' & Hr & Hprev & _).
    rewrite Ha in Ha'. injection Ha' as <- ->. split_and!.
    + by eapply alloc_chain_snoc.
    + apply Forall_app. auto.
    + rewrite (alloc_next_ok _ _ Hr). destruct Hr as (?&?&?&_). lia.
    + by apply map_Forall_delete.
  - split_and!; [done..|]. apply map_Forall_insert_2; [|done]. by apply (Ht _ _ Hn).
Qed.

Lemma alloc_reachable_inv l p0 s :
  layout_ok l -> 0 <= p0 -> rtc (alloc_step_room l) (alloc_init p0) s -> alloc_inv l p0 s.
Proof.
  intros Hok Hp Hr. assert (alloc_inv l p0 (alloc_init p0)) as Hi.
  { split_and!; cbn; [done..|]. apply map_Forall_empty. }
  revert Hi. induction Hr; eauto using alloc_step_inv.
Qed.

(** C26. Whatever the interleaving of the threads inside [allocate], the
    positions handed out are aligned extents inside one fragment each, in
    increasing order and disjoint, and they form one gapless chain from the
    initial position to the shared counter (gaps inside it are exactly the
    skip markers). *)
Theorem allocations_disjoint l p0 s :
  layout_ok l -> 0 <= p0 -> rtc (alloc_step_room l) (alloc_init p0) s ->
  StronglySorted (fun a b => allocated_position a + len_aligned a <= allocated_position b) (as_results s) /\
  Forall (allocation_ok l) (as_results s) /\ alloc_chain p0 (as_results s) (as_position s).
Proof.
  intros Hl Hp Hr. destruct (alloc_reachable_inv l p0 s Hl Hp Hr) as (Hc & Hf & _).
  split_and!; [|done|done]. by eapply alloc_chain_disjoint.
Qed.

(** A small layout for examples: fragments of 1024 bytes, files of four. *)
Definition demo_layout : WalLayout := mkWalLayout 1024 4 false 4096 Replay.

Lemma demo_layout_ok : layout_ok demo_layout.
Proof.
  apply assert_layout_ok; cbn; unfold u64_max; [lia|lia|reflexivity].
Qed.

Lemma allocations_disjoint_witness :
  exists s, length (as_results s) = 2%nat /\
    StronglySorted (fun a b => allocated_position a + len_aligned a <= allocated_position b) (as_results s).
Proof.
  eexists (mkAllocState 1624 ∅ [mkAllocationResult 0 0 600; mkAllocationResult 1024 600 600]).
  split; [reflexivity|].
  refine (proj1 (allocations_disjoint demo_layout 0 _ demo_layout_ok ltac:(lia) _)).
  assert (forall p t rs q, p + 2048 <= u64_max -> t = (∅ : gmap nat alloc_pc) ->
    allocate_attempt demo_layout 600 p = Ok (q, alloc_next_position q) ->
    rtc (alloc_step_room demo_layout) (mkAllocState p t rs) (mkAllocState (alloc_next_position q) ∅ (rs ++ [q]))) as Hcall.
  { intros p t rs q Hroom -> Hq.
    eapply rtc_l; [split; [apply (alloc_call _ _ 0%nat 600)|]; cbn; [done|unfold u32_max; lia|lia]|].
    eapply rtc_l; [split; [eapply (alloc_load _ _ 0%nat 600)|]; cbn; [by simplify_map_eq|lia]|].
    eapply rtc_l; [split; [eapply (alloc_swap_ok _ _ 0%nat 600 p q)|]; cbn; [by simplify_map_eq|done|done|lia]|].
    cbn. rewrite insert_insert_eq, delete_insert_id by done. apply rtc_refl. }
  trans (mkAllocState 600 ∅ [mkAllocationResult 0 0 600]).
  - refine (Hcall 0 ∅ [] (mkAllocationResult 0 0 600) _ eq_refl eq_refl). unfold u64_max. lia.
  - refine (Hcall 600 ∅ [mkAllocationResult 0 0 600] (mkAllocationResult 1024 600 600) _ eq_refl eq_refl).
    unfold u64_max. lia.
Defined.
