(* ===== verification/Tracker.v ===== *)
(** * The WAL tracker

    [src/tidehunter/src/wal/tracker.rs]: the thread that turns "this WAL
    position is now in the in-memory index" notifications, arriving in any
    order, into the frontier [last_processed], and the latches that pin the
    frontier other threads observe.

    [tracker_handle] is one iteration of [WalTrackerThread::run]: it takes the
    thread's state and a message and returns the new state with the replies and
    finalized maps it sends out.  [tracker_step] puts the thread behind its FIFO
    channel, with the guards that hold it back. *)

From Stdlib Require Import ZArith Lia List Sorting.Sorted.
From stdpp Require Import base tactics list gmap strings relations.
From S2P Require Import Prelude BTree Bytes Position Layout Allocator.

Local Open Scope Z_scope.

(** ** [WalTrackerState] *)

Record WalTrackerState := mkTrackerState {
  ts_pending : list (Z * AllocationResult);
  ts_last_processed : LastProcessed;
  ts_highest_seen : Z;
}.

Definition tracker_state_new_empty (last_processed : LastProcessed) : WalTrackerState :=
  mkTrackerState [] last_processed last_processed.

(** The [while let Some(next_result) = self.pending.remove(&result.next_position())]
    loop: it follows the chain of pending allocations from [result]; the third
    component lists the allocations the callback is called on.  Every turn
    removes an entry, so [fuel] above the number of pending entries is enough. *)
Fixpoint drain_pending (fuel : nat) (pending : list (Z * AllocationResult))
    (result : AllocationResult) :
    list (Z * AllocationResult) * AllocationResult * list AllocationResult :=
  match fuel with
  | O => (pending, result, [])
  | S fuel' =>
      match bt_get (alloc_next_position result) pending with
      | None => (pending, result, [])
      | Some next_result =>
          let '(p, r, cb) :=
            drain_pending fuel' (bt_remove (alloc_next_position result) pending) next_result in
          (p, r, next_result :: cb)
      end
  end.

(** [add_processed]: the new state, the frontier if it advanced, and the
    allocations passed to the callback in order. *)
Definition add_processed (st : WalTrackerState) (result : AllocationResult) :
    WalTrackerState * option LastProcessed * list AllocationResult :=
  let highest_seen := Z.max (ts_highest_seen st) (alloc_next_position result) in
  if negb (ts_last_processed st =? previous_position result) then
    (mkTrackerState (bt_insert (previous_position result) result (ts_pending st))
       (ts_last_processed st) highest_seen, None, [])
  else
    let '(pending, last, cb) :=
      drain_pending (S (length (ts_pending st))) (ts_pending st) result in
    let last_processed := alloc_next_position last in
    (mkTrackerState pending last_processed highest_seen, Some last_processed, result :: cb).

(** ** [WalTrackerThread] *)

Record WalTrackerLatch := mkLatch { latch_id : Z; latch_position : LastProcessed }.

(** Response channels are named by a number. *)
Record PendingLatchRequest := mkLatchRequest { plr_target : Z; plr_id : Z; plr_response : nat }.
Record PendingWait := mkPendingWait { pw_target : Z; pw_response : nat }.

Record WalTrackerThread := mkTracker {
  tt_last_processed : LastProcessed;
  tt_state : WalTrackerState;
  tt_latches : list ((Z * Z) * unit);
  tt_next_latch_id : Z;
  tt_pending_requests : list PendingLatchRequest;
  tt_pending_waits : list PendingWait;
}.

Definition tracker_start (last_processed : LastProcessed) : WalTrackerThread :=
  mkTracker last_processed (tracker_state_new_empty last_processed) [] 0 [] [].

Inductive WalTrackerMessage :=
| AllocationMessage (result : AllocationResult)
| LatchRequest (response : nat)
| LatchRelease (latch : WalTrackerLatch)
| WaitProcessed (response : nat)
| BarrierMessage.

(** What the thread sends: [mapper.map_finalized], latch replies, wait replies. *)
Inductive tracker_event :=
| MapFinalized (map : MapId)
| LatchReply (response : nat) (latch : WalTrackerLatch)
| WaitReply (response : nat).

(** The internal frontier capped by the smallest latched position. *)
Definition latch_cap (latches : list ((Z * Z) * unit)) (internal : LastProcessed) : LastProcessed :=
  match latches with
  | [] => internal
  | ((min_position, _), _) :: _ => Z.min internal min_position
  end.

(** [publish]: sets the externally observed frontier. *)
Definition tracker_publish (t : WalTrackerThread) : WalTrackerThread :=
  let internal := ts_last_processed (tt_state t) in
  let external := latch_cap (tt_latches t) internal in
  mkTracker external (tt_state t) (tt_latches t) (tt_next_latch_id t)
    (tt_pending_requests t) (tt_pending_waits t).

Definition fulfill_pending_requests (t : WalTrackerThread) :
    WalTrackerThread * list tracker_event :=
  let last_processed := ts_last_processed (tt_state t) in
  let ready_latch := fun r => plr_target r <=? last_processed in
  let ready_wait := fun w => pw_target w <=? last_processed in
  (mkTracker (tt_last_processed t) (tt_state t) (tt_latches t) (tt_next_latch_id t)
     (List.filter (fun r => negb (ready_latch r)) (tt_pending_requests t))
     (List.filter (fun w => negb (ready_wait w)) (tt_pending_waits t)),
   List.map (fun r => LatchReply (plr_response r) (mkLatch (plr_id r) (plr_target r)))
     (List.filter ready_latch (tt_pending_requests t)) ++
   List.map (fun w => WaitReply (pw_response w)) (List.filter ready_wait (tt_pending_waits t))).

(** The callback of the allocation message: the first allocation of a fragment
    finalizes the fragment before it. *)
Fixpoint finalized_maps (l : WalLayout) (processed : list AllocationResult) :
    outcome (list tracker_event) :=
  match processed with
  | [] => Ok []
  | r :: rest =>
      frag ← is_first_in_frag l (allocated_position r);
      evs ← finalized_maps l rest;
      Ok (match frag ≫= map_id_prev_map with
          | Some prev_frag => MapFinalized prev_frag :: evs
          | None => evs
          end)
  end.

Definition set_tracker_state (t : WalTrackerThread) (st : WalTrackerState) : WalTrackerThread :=
  mkTracker (tt_last_processed t) st (tt_latches t) (tt_next_latch_id t)
    (tt_pending_requests t) (tt_pending_waits t).

(** One message of [WalTrackerThread::run]; an allocation message reaches this
    point only after its guard mutex was acquired. *)
Definition tracker_handle (l : WalLayout) (t : WalTrackerThread) (m : WalTrackerMessage) :
    outcome (WalTrackerThread * list tracker_event) :=
  match m with
  | AllocationMessage result =>
      let '(st, advanced, processed) := add_processed (tt_state t) result in
      maps ← finalized_maps l processed;
      let t := set_tracker_state t st in
      match advanced with
      | None => Ok (t, maps)
      | Some _ =>
          let t := tracker_publish t in
          match tt_pending_requests t, tt_pending_waits t with
          | [], [] => Ok (t, maps)
          | _, _ =>
              let '(t, replies) := fulfill_pending_requests t in
              Ok (t, maps ++ replies)
          end
      end
  | LatchRequest response =>
      let id := tt_next_latch_id t in
      let target := ts_highest_seen (tt_state t) in
      let latches := bt_insert (target, id) tt (tt_latches t) in
      if target <=? ts_last_processed (tt_state t) then
        Ok (tracker_publish
              (mkTracker (tt_last_processed t) (tt_state t) latches (u64_add id 1)
                 (tt_pending_requests t) (tt_pending_waits t)),
            [LatchReply response (mkLatch id target)])
      else
        Ok (tracker_publish
              (mkTracker (tt_last_processed t) (tt_state t) latches (u64_add id 1)
                 (tt_pending_requests t ++ [mkLatchRequest target id response])
                 (tt_pending_waits t)), [])
  | LatchRelease latch =>
      Ok (tracker_publish
            (mkTracker (tt_last_processed t) (tt_state t)
               (bt_remove (latch_position latch, latch_id latch) (tt_latches t))
               (tt_next_latch_id t) (tt_pending_requests t) (tt_pending_waits t)), [])
  | WaitProcessed response =>
      let target := ts_highest_seen (tt_state t) in
      if target <=? ts_last_processed (tt_state t) then Ok (t, [WaitReply response])
      else
        Ok (mkTracker (tt_last_processed t) (tt_state t) (tt_latches t) (tt_next_latch_id t)
              (tt_pending_requests t) (tt_pending_waits t ++ [mkPendingWait target response]), [])
  | BarrierMessage => Ok (t, [])
  end.

(** ** The thread behind its channel

    [sys_issued]: the allocations the allocator has handed out, in order;
    [sys_sent]: those announced by [WalTracker::allocated]; [sys_held]: those
    whose guard is alive (named by [previous_position], which is unique);
    [sys_queue]: the channel; [sys_done]: the allocation messages handled. *)
Record tracker_sys := mkSys {
  sys_end : Z;
  sys_issued : list AllocationResult;
  sys_sent : list AllocationResult;
  sys_held : gset Z;
  sys_queue : list WalTrackerMessage;
  sys_done : list AllocationResult;
  sys_thread : WalTrackerThread;
}.

Definition sys_init (last_processed : LastProcessed) : tracker_sys :=
  mkSys last_processed [] [] ∅ [] [] (tracker_start last_processed).

Inductive tracker_step (l : WalLayout) : tracker_sys -> tracker_sys -> Prop :=
| sys_allocate s r :
    (** [WalAllocator::allocate] returned [r]. *)
    allocation_ok l r -> previous_position r = sys_end s ->
    tracker_step l s
      (mkSys (alloc_next_position r) (sys_issued s ++ [r]) (sys_sent s) (sys_held s)
         (sys_queue s) (sys_done s) (sys_thread s))
| sys_announce s r :
    (** [WalTracker::allocated]: lock the guard, send the message. *)
    r ∈ sys_issued s -> r ∉ sys_sent s ->
    tracker_step l s
      (mkSys (sys_end s) (sys_issued s) (sys_sent s ++ [r])
         ({[previous_position r]} ∪ sys_held s)
         (sys_queue s ++ [AllocationMessage r]) (sys_done s) (sys_thread s))
| sys_drop_guard s r :
    (** The last [WalGuard] of an announced allocation is dropped. *)
    tracker_step l s
      (mkSys (sys_end s) (sys_issued s) (sys_sent s) (sys_held s ∖ {[previous_position r]})
         (sys_queue s) (sys_done s) (sys_thread s))
| sys_send s m :
    (** Latch requests and releases, waits and barriers. *)
    (forall r, m <> AllocationMessage r) ->
    tracker_step l s
      (mkSys (sys_end s) (sys_issued s) (sys_sent s) (sys_held s) (sys_queue s ++ [m])
         (sys_done s) (sys_thread s))
| sys_recv_alloc s r q t evs :
    (** The thread gets an allocation's guard mutex and handles the message. *)
    sys_queue s = AllocationMessage r :: q -> previous_position r ∉ sys_held s ->
    tracker_handle l (sys_thread s) (AllocationMessage r) = Ok (t, evs) ->
    tracker_step l s
      (mkSys (sys_end s) (sys_issued s) (sys_sent s) (sys_held s) q (sys_done s ++ [r]) t)
| sys_recv_other s m q t evs :
    sys_queue s = m :: q -> (forall r, m <> AllocationMessage r) ->
    tracker_handle l (sys_thread s) m = Ok (t, evs) ->
    tracker_step l s
      (mkSys (sys_end s) (sys_issued s) (sys_sent s) (sys_held s) q (sys_done s) t).

(** ** The frontier *)

(** The pending map holds exactly the handled allocations of [b], each under
    its [previous_position]. *)
Definition pending_repr (D b : list AllocationResult) (pending : list (Z * AllocationResult)) : Prop :=
  bt_sorted pending /\
  forall k r, bt_get k pending = Some r <-> r ∈ D /\ r ∈ b /\ previous_position r = k.

(** [b] starts with an allocation that was not handled, if with any. *)
Definition head_not_in (D b : list AllocationResult) : Prop :=
  match b with [] => True | r :: _ => r ∉ D end.

(** The state splits the issued allocations into the handled prefix [a], which
    [last_processed] ends, and the rest [b], whose head is not handled. *)
Definition frontier_inv (p0 : Z) (rs D : list AllocationResult) (st : WalTrackerState) : Prop :=
  exists a b, rs = a ++ b /\ alloc_chain p0 a (ts_last_processed st) /\
    (forall r, r ∈ a -> r ∈ D) /\ head_not_in D b /\ pending_repr D b (ts_pending st).

Lemma pending_repr_head l D r b start stop pending :
  Forall (allocation_ok l) (r :: b) -> alloc_chain start (r :: b) stop ->
  pending_repr D (r :: b) pending ->
  bt_get (previous_position r) pending = (if decide (r ∈ D) then Some r else None) /\
  pending_repr D b (bt_remove (previous_position r) pending).
Proof.
  intros Hf Hc [Hs Hp].
  assert (Hlt : forall r', r' ∈ b -> previous_position r < previous_position r').
  { intros r'. by eapply alloc_chain_prev_lt. }
  split.
  - destruct (decide (r ∈ D)) as [Hd|Hd].
    + apply Hp. split_and!; [done|by left|done].
    + destruct (bt_get _ pending) as [r'|] eqn:E; [|done].
      apply Hp in E as (Hr' & [->|Hin]%elem_of_cons & Heq); [done|].
      apply Hlt in Hin. lia.
  - split; [by apply bt_filter_sorted|]. intros k r'. rewrite bt_get_remove by done.
    destruct (keqb_spec k (previous_position r)) as [->|Hne].
    + split; [done|]. intros (_ & Hin & Heq). apply Hlt in Hin. lia.
    + rewrite Hp, elem_of_cons. naive_solver.
Qed.

Lemma drain_pending_spec l D b fuel pending r0 stop :
  Forall (allocation_ok l) (r0 :: b) -> alloc_chain (previous_position r0) (r0 :: b) stop ->
  pending_repr D b pending -> (length pending < fuel)%nat ->
  exists a' b' pending' r', drain_pending fuel pending r0 = (pending', r', a') /\
    b = a' ++ b' /\ alloc_chain (alloc_next_position r0) a' (alloc_next_position r') /\
    (forall r, r ∈ a' -> r ∈ D) /\ head_not_in D b' /\ pending_repr D b' pending' /\
    (r' = r0 \/ r' ∈ a').
Proof.
  revert fuel pending r0. induction b as [|r1 b IH]; intros fuel pending r0 Hf Hc Hp Hfuel;
    (destruct fuel as [|fuel]; [lia|]); cbn [drain_pending].
  - destruct (bt_get (alloc_next_position r0) pending) as [r|] eqn:E.
    { apply Hp in E as (_ & Hin & _). by apply not_elem_of_nil in Hin. }
    exists [], [], pending, r0. split_and!; [done|done|done|set_solver|done|done|by left].
  - pose proof Hc as [_ Hc']. pose proof Hf as [_ Hf']%Forall_cons.
    assert (previous_position r1 = alloc_next_position r0) as Heq by apply Hc'.
    destruct (pending_repr_head _ _ _ _ _ _ _ Hf' Hc' Hp) as [Hg Hp'].
    rewrite <- Heq, Hg. destruct (decide (r1 ∈ D)) as [Hd|Hd].
    + destruct (IH fuel (bt_remove (previous_position r1) pending) r1)
        as (a' & b' & p' & r' & Hdr & -> & Hch & Ha & Hh & Hpr & Hor).
      { done. }
      { split; [done|]. apply Hc'. }
      { done. }
      { destruct Hp as [Hs _]. pose proof (bt_remove_length _ _ _ Hs Hg). lia. }
      rewrite Hdr. exists (r1 :: a'), b', p', r'. split_and!; [done|done|done| |done|done|].
      * intros r [->|?]%elem_of_cons; auto.
      * right. rewrite elem_of_cons. destruct Hor; auto.
    + exists [], (r1 :: b), pending, r0.
      split_and!; [done|done|done|set_solver|done|done|by left].
Qed.

Lemma pending_repr_insert D b pending r :
  pending_repr D b pending -> r ∈ b -> (forall r', r' ∈ b -> previous_position r' = previous_position r -> r' = r) ->
  pending_repr (D ++ [r]) b (bt_insert (previous_position r) r pending).
Proof.
  intros [Hs Hp] Hin Huniq. split; [by apply bt_insert_sorted|]. intros k r'.
  rewrite bt_get_insert by done. rewrite elem_of_app, list_elem_of_singleton.
  destruct (keqb_spec k (previous_position r)) as [->|Hne].
  - split; [naive_solver|]. intros (_ & Hin' & Heq). f_equal. symmetry. by apply Huniq.
  - rewrite Hp. split; [naive_solver|]. intros ([?|<-]&?&?); [done|]. by exfalso; apply Hne.
Qed.

Lemma pending_repr_mono D b r pending :
  r ∉ b -> pending_repr D b pending -> pending_repr (D ++ [r]) b pending.
Proof.
  intros Hn [Hs Hp]. split; [done|]. intros k r'. rewrite Hp, elem_of_app, list_elem_of_singleton.
  naive_solver.
Qed.

(** Handling one more allocation, whichever it is, keeps the frontier exact. *)
Lemma add_processed_frontier l p0 rs D st r e :
  Forall (allocation_ok l) rs -> alloc_chain p0 rs e ->
  frontier_inv p0 rs D st -> r ∈ rs -> r ∉ D ->
  frontier_inv p0 rs (D ++ [r]) (add_processed st r).1.1.
Proof.
  intros Hf Hc (a & b & -> & Hca & Ha & Hh & Hp) Hin HnD.
  pose proof Hf as [Hfa Hfb]%Forall_app. apply alloc_chain_app in Hc as (mid & Hca' & Hcb).
  assert (mid = ts_last_processed st) as ->.
  { clear -Hca Hca'. revert p0 Hca Hca'. induction a as [|x a IH]; cbn; intros; [congruence|].
    destruct Hca, Hca'. eauto. }
  assert (r ∈ b) as Hinb by (apply elem_of_app in Hin as [?|?]; [by exfalso; eauto|done]).
  unfold add_processed. destruct b as [|r0 b]; [by apply not_elem_of_nil in Hinb|].
  pose proof Hcb as [Hprev _].
  destruct (Z.eqb_spec (ts_last_processed st) (previous_position r)) as [He|He]; cbn [negb].
  - assert (r = r0) as ->.
    { apply elem_of_cons in Hinb as [->|Hinb]; [done|].
      pose proof (alloc_chain_prev_lt _ _ _ _ _ _ Hfb Hcb Hinb). lia. }
    destruct (pending_repr_head _ _ _ _ _ _ _ Hfb Hcb Hp) as [Hg Hp'].
    rewrite decide_False in Hg by done.
    assert (r0 ∉ b) as Hnb.
    { intros Hb. pose proof (alloc_chain_prev_lt _ _ _ _ _ _ Hfb Hcb Hb). lia. }
    assert (pending_repr (D ++ [r0]) b (ts_pending st)) as Hp2.
    { apply pending_repr_mono; [done|]. destruct Hp as [Hs Hp]. split; [done|].
      intros k r'. rewrite Hp, elem_of_cons. naive_solver. }
    destruct (drain_pending_spec l (D ++ [r0]) b (S (length (ts_pending st))) (ts_pending st) r0 e)
      as (a' & b' & p' & r' & -> & -> & Hch & Ha' & Hh' & Hpr & _); [done| |done|lia|].
    { by rewrite <- He. }
    cbn. exists (a ++ r0 :: a'), b'. split_and!; [by rewrite <- app_assoc| | |done|done].
    + cbn. apply alloc_chain_app. eexists. split; [done|]. cbn. by split.
    + intros x. rewrite elem_of_app, elem_of_cons. intros [?|[->|?]]; auto.
      * apply elem_of_app. auto.
      * apply elem_of_app. right. by left.
  - cbn. exists a, (r0 :: b). split_and!; try done.
    + intros x Hx. apply elem_of_app. auto.
    + cbn in Hh |- *. rewrite elem_of_app, list_elem_of_singleton. intros [?| ->]; [done|]. congruence.
    + apply pending_repr_insert; [done|done|]. intros r' Hr' Hpp.
      by eapply alloc_chain_prev_inj.
Qed.

(** ** Latches *)

Lemma pair_klt_fst (x y : Z * Z) : klt x y -> x.1 <= y.1.
Proof.
  unfold klt. cbn. unfold pair_cmp. cbn. destruct (Z.compare_spec x.1 y.1); [lia|lia|done].
Qed.

(** The cap is the greatest lower bound of the internal frontier and the
    latched positions. *)
Lemma latch_cap_glb latches internal z :
  bt_sorted latches ->
  z <= latch_cap latches internal <->
  z <= internal /\ forall p id, In ((p, id), tt) latches -> z <= p.
Proof.
  destruct latches as [|[[m i] []] ls]; cbn; intros Hs; [naive_solver|].
  apply bt_sorted_cons in Hs as [_ Hf]. rewrite Z.min_glb_iff. split.
  - intros [Hi Hm]. split; [done|]. intros p id [[= <- <-]|Hin]; [done|].
    rewrite Forall_forall in Hf. apply list_elem_of_In, Hf, pair_klt_fst in Hin. cbn in Hin. lia.
  - intros [Hi Hall]. split; [done|]. apply (Hall m i). by left.
Qed.

Lemma latch_cap_le latches internal : bt_sorted latches -> latch_cap latches internal <= internal.
Proof. intros Hs. by apply (proj1 (latch_cap_glb _ internal _ Hs)). Qed.

Lemma latch_cap_le_latch latches internal p id :
  bt_sorted latches -> In ((p, id), tt) latches -> latch_cap latches internal <= p.
Proof. intros Hs. by apply (proj1 (latch_cap_glb _ internal _ Hs)). Qed.

Lemma bt_insert_In {K V} `{OrdKey K} (k : K) (v : V) m kv :
  bt_sorted m -> In kv (bt_insert k v m) -> kv = (k, v) \/ In kv m.
Proof.
  destruct kv as [k' v']. intros Hs Hin.
  apply bt_get_In in Hin; [|by apply bt_insert_sorted]. rewrite bt_get_insert in Hin by done.
  destruct (keqb_spec k' k) as [->|]; [naive_solver|]. right. by apply bt_get_In.
Qed.

(** What the thread's state satisfies between messages. *)
Definition tracker_pending_ok (st : WalTrackerState) : Prop :=
  bt_sorted (ts_pending st) /\
  forall k r, bt_get k (ts_pending st) = Some r ->
    previous_position r = k /\ k <= alloc_next_position r <= ts_highest_seen st.

Record tracker_inv (t : WalTrackerThread) : Prop := {
  inv_seen : ts_last_processed (tt_state t) <= ts_highest_seen (tt_state t);
  inv_pending : tracker_pending_ok (tt_state t);
  inv_latches : bt_sorted (tt_latches t);
  inv_latched : forall p id, In ((p, id), tt) (tt_latches t) -> p <= ts_highest_seen (tt_state t);
  inv_external : tt_last_processed t = latch_cap (tt_latches t) (ts_last_processed (tt_state t));
}.

(** Allocation messages carry allocations that do not end before they start. *)
Definition tracker_msg_ok (m : WalTrackerMessage) : Prop :=
  match m with
  | AllocationMessage r => previous_position r <= alloc_next_position r
  | _ => True
  end.

Lemma drain_pending_mono fuel pending r hs pending' r' cb :
  bt_sorted pending ->
  (forall k x, bt_get k pending = Some x ->
     previous_position x = k /\ k <= alloc_next_position x <= hs) ->
  alloc_next_position r <= hs ->
  drain_pending fuel pending r = (pending', r', cb) ->
  alloc_next_position r <= alloc_next_position r' <= hs /\ bt_sorted pending' /\
  (forall k x, bt_get k pending' = Some x ->
     previous_position x = k /\ k <= alloc_next_position x <= hs).
Proof.
  revert pending r cb. induction fuel as [|fuel IH]; intros pending r cb Hs Hp Hr; cbn.
  { intros [= <- <- <-]. split; [lia|done]. }
  destruct (bt_get (alloc_next_position r) pending) as [x|] eqn:E.
  2: { intros [= <- <- <-]. split; [lia|done]. }
  destruct (drain_pending fuel _ x) as [[p2 r2] cb2] eqn:Ed. intros [= <- <- <-].
  apply Hp in E as [He Hx]. apply IH in Ed as (?&?&?); [split; [lia|done]|..|lia].
  - by apply bt_remove_sorted.
  - intros k y. rewrite bt_get_remove by done. destruct (keqb k _); [done|]. apply Hp.
Qed.

(** [add_processed] never moves the frontier back and stays below the highest
    position seen. *)
Lemma add_processed_mono st r st' adv cb :
  tracker_pending_ok st -> ts_last_processed st <= ts_highest_seen st ->
  previous_position r <= alloc_next_position r ->
  add_processed st r = (st', adv, cb) ->
  tracker_pending_ok st' /\ ts_last_processed st <= ts_last_processed st' <= ts_highest_seen st' /\
  ts_highest_seen st <= ts_highest_seen st' /\
  (adv = None -> ts_last_processed st' = ts_last_processed st).
Proof.
  intros [Hs Hp] Hlp Hr. unfold add_processed.
  assert (Hp' : forall k x, bt_get k (ts_pending st) = Some x ->
    previous_position x = k /\
    k <= alloc_next_position x <= Z.max (ts_highest_seen st) (alloc_next_position r)).
  { intros k x Hx. apply Hp in Hx as [? ?]. split; [done|lia]. }
  destruct (Z.eqb_spec (ts_last_processed st) (previous_position r)) as [He|He]; cbn [negb].
  - destruct (drain_pending _ _ _) as [[p2 r2] cb2] eqn:Ed. intros [= <- <- <-]. cbn.
    apply (drain_pending_mono _ _ _ _ _ _ _ Hs Hp') in Ed as (?&?&?); [|lia].
    split; [by split|]. split; [lia|]. split; [lia|done].
  - intros [= <- <- <-]. cbn. split; [|split_and!; auto; lia].
    split; cbn; [by apply bt_insert_sorted|]. intros k x. rewrite bt_get_insert by done.
    destruct (keqb_spec k (previous_position r)) as [->|].
    + intros [= <-]. split; [done|lia].
    + apply Hp'.
Qed.

Lemma fulfill_pending_requests_spec t t' evs :
  fulfill_pending_requests t = (t', evs) ->
  tt_last_processed t' = tt_last_processed t /\ tt_state t' = tt_state t /\
  tt_latches t' = tt_latches t /\
  (forall resp latch, LatchReply resp latch ∈ evs ->
     latch_position latch <= ts_last_processed (tt_state t)).
Proof.
  intros [= <- <-]. cbn. split_and!; [done..|]. intros resp latch.
  rewrite elem_of_app, !list_elem_of_In, !in_map_iff.
  intros [(x & [= <- <-] & Hin)|(x & ? & ?)]; [|done].
  apply filter_In in Hin as [_ Hle]. cbn. b2p. done.
Qed.

Lemma finalized_maps_no_reply l rs evs resp latch :
  finalized_maps l rs = Ok evs -> LatchReply resp latch ∉ evs.
Proof.
  revert evs. induction rs as [|r rs IH]; cbn; intros evs.
  - intros [= <-]. apply not_elem_of_nil.
  - destruct (is_first_in_frag l _); [|done]. cbn. destruct (finalized_maps l rs); [|done].
    cbn. intros [= <-]. destruct (a ≫= _); [|by apply IH].
    rewrite elem_of_cons. intros [?|?]; [done|]. by eapply IH.
Qed.

(** What a message may do: it keeps the invariant, never moves either frontier
    back, and answers a latch request only once the latched position is
    processed. *)
Definition tracker_progress (t t' : WalTrackerThread) (evs : list tracker_event) : Prop :=
  tracker_inv t' /\ tt_last_processed t <= tt_last_processed t' /\
  ts_last_processed (tt_state t) <= ts_last_processed (tt_state t') /\
  (forall resp latch, LatchReply resp latch ∈ evs ->
     latch_position latch <= ts_last_processed (tt_state t')).

Lemma tracker_inv_same t t' :
  tracker_inv t -> tt_last_processed t' = tt_last_processed t -> tt_state t' = tt_state t ->
  tt_latches t' = tt_latches t -> tracker_inv t'.
Proof. intros [????] He Hs Hl. split; rewrite ?He, ?Hs, ?Hl; done. Qed.

Lemma latch_cap_mono latches i i' :
  bt_sorted latches -> i <= i' -> latch_cap latches i <= latch_cap latches i'.
Proof.
  intros Hs Hi. apply latch_cap_glb; [done|]. split; [etrans; [by apply latch_cap_le|done]|].
  intros p id Hin. by eapply latch_cap_le_latch.
Qed.

Lemma latch_cap_remove latches i k :
  bt_sorted latches -> latch_cap latches i <= latch_cap (bt_remove k latches) i.
Proof.
  intros Hs. apply latch_cap_glb; [by apply bt_remove_sorted|]. split; [by apply latch_cap_le|].
  intros p id [Hin _]%filter_In. by eapply latch_cap_le_latch.
Qed.

Lemma latch_cap_insert latches i p id :
  bt_sorted latches -> i <= p -> latch_cap latches i <= latch_cap (bt_insert (p, id) tt latches) i.
Proof.
  intros Hs Hp. apply latch_cap_glb; [by apply bt_insert_sorted|].
  pose proof (latch_cap_le _ i Hs). split; [done|].
  intros p' id' [[= -> ->]|Hin]%bt_insert_In; [lia| |done].
  by eapply latch_cap_le_latch.
Qed.

Lemma tracker_alloc_progress l t r t' evs :
  tracker_inv t -> previous_position r <= alloc_next_position r ->
  tracker_handle l t (AllocationMessage r) = Ok (t', evs) -> tracker_progress t t' evs.
Proof.
  intros [Hseen Hpend Hls Hld Hext] Hm. unfold tracker_handle, mbind, outcome_bind. cbv zeta.
  destruct (add_processed (tt_state t) r) as [[st adv] cb] eqn:Ea.
  apply add_processed_mono in Ea as (Hp' & Hlp & Hhs & Hnone); [|done..].
  destruct (finalized_maps l cb) as [maps|] eqn:Em; [|done].
  pose proof (latch_cap_mono _ _ _ Hls (proj1 Hlp)) as Hcap.
  assert (Hno : forall x lt, LatchReply x lt ∉ maps) by (intros; by eapply finalized_maps_no_reply).
  assert (Hld' : forall p id, In ((p, id), tt) (tt_latches t) -> p <= ts_highest_seen st).
  { intros p id Hin. apply Hld in Hin. lia. }
  destruct adv as [lp|].
  - set (t1 := tracker_publish (set_tracker_state t st)).
    assert (tracker_inv t1) as Hi1 by (split; cbn; [lia|done..]).
    assert (tracker_progress t t1 maps) as Hpr1.
    { split_and!; [done|cbn; lia|cbn; lia|]. intros x lt Hin. by apply Hno in Hin. }
    destruct (fulfill_pending_requests t1) as [t2 replies] eqn:Ef.
    pose proof (fulfill_pending_requests_spec _ _ _ Ef) as (He & Hst & Hl & Hrep).
    assert (tracker_progress t t2 (maps ++ replies)) as Hpr2.
    { split_and!; [by eapply tracker_inv_same|by rewrite He; apply Hpr1|by rewrite Hst; apply Hpr1|].
      intros x lt [Hin|Hin]%elem_of_app; [by apply Hno in Hin|]. rewrite Hst. eauto. }
    clearbody t1.
    destruct (tt_pending_requests t1), (tt_pending_waits t1);
      intros Heq; injection Heq as <- <-; done.
  - intros [= <- <-]. specialize (Hnone eq_refl). split_and!; cbn; [|lia|lia|].
    + split; cbn; [lia|done|done|done|]. by rewrite Hnone.
    + intros x lt Hin. by apply Hno in Hin.
Qed.

Lemma tracker_handle_progress l t m t' evs :
  tracker_inv t -> tracker_msg_ok m -> tracker_handle l t m = Ok (t', evs) ->
  tracker_progress t t' evs.
Proof.
  intros Hi Hm. destruct m as [r|resp|latch|resp|]; [by apply tracker_alloc_progress|..];
    pose proof Hi as [Hseen Hpend Hls Hld Hext]; cbn; clear Hm.
  - assert (Hi' : forall ps id', tracker_inv (tracker_publish
      (mkTracker (tt_last_processed t) (tt_state t)
         (bt_insert (ts_highest_seen (tt_state t), tt_next_latch_id t) tt (tt_latches t))
         id' ps (tt_pending_waits t)))).
    { intros ps id'. split; cbn; [done|done|by apply bt_insert_sorted| |done].
      intros p id [[= -> _]|Hin]%bt_insert_In; [lia|eauto|done]. }
    pose proof (latch_cap_insert _ _ _ (tt_next_latch_id t) Hls Hseen) as Hcap.
    case_scrut; intros [= <- <-]; b2p; split_and!; cbn; auto; try lia.
    + intros x lt Hin. apply list_elem_of_singleton in Hin as [= -> ->]. done.
    + intros x lt Hin. by apply not_elem_of_nil in Hin.
  - intros [= <- <-]. split_and!; cbn;
      [|rewrite Hext; by apply latch_cap_remove|lia|intros x lt Hin; by apply not_elem_of_nil in Hin].
    split; cbn; [done|done|by apply bt_remove_sorted| |done].
    intros p id [Hin _]%filter_In. eauto.
  - case_scrut; intros [= <- <-]; (split_and!; cbn; [|lia|lia|set_solver]); [done|].
    by eapply tracker_inv_same.
  - intros [= <- <-]. split_and!; [done|lia|lia|set_solver].
Qed.

Lemma tracker_inv_start lp : tracker_inv (tracker_start lp).
Proof. split; cbn; [lia|split; cbn; [constructor|done]|constructor|done|done]. Qed.

(** A held latch pins the external frontier. *)
Lemma tracker_latch_pins t p id :
  tracker_inv t -> In ((p, id), tt) (tt_latches t) -> tt_last_processed t <= p.
Proof.
  intros [_ _ Hs _ ->] Hin. by eapply latch_cap_le_latch.
Qed.

(** ** The system *)

Definition is_alloc_msg (m : WalTrackerMessage) : bool :=
  match m with AllocationMessage _ => true | _ => false end.

(** What every reachable state of the tracker behind its channel satisfies. *)
Record sys_inv (l : WalLayout) (p0 : Z) (s : tracker_sys) : Prop := {
  si_chain : alloc_chain p0 (sys_issued s) (sys_end s);
  si_ok : Forall (allocation_ok l) (sys_issued s);
  si_sent : forall r, r ∈ sys_sent s -> r ∈ sys_issued s;
  si_queue : forall r, AllocationMessage r ∈ sys_queue s -> r ∈ sys_sent s /\ r ∉ sys_done s;
  si_queue_once : NoDup (List.filter is_alloc_msg (sys_queue s));
  si_done : forall r, r ∈ sys_done s -> r ∈ sys_sent s /\ previous_position r ∉ sys_held s;
  si_frontier : frontier_inv p0 (sys_issued s) (sys_done s) (tt_state (sys_thread s));
}.

(** Messages other than allocations leave the frontier state alone. *)
Lemma tracker_handle_other l t m t' evs :
  (forall r, m <> AllocationMessage r) -> tracker_handle l t m = Ok (t', evs) ->
  tt_state t' = tt_state t.
Proof.
  destruct m as [r|resp|latch|resp|]; cbn; intros Hm.
  - by destruct (Hm r).
  - case_scrut; by intros [= <- _].
  - by intros [= <- _].
  - case_scrut; by intros [= <- _].
  - by intros [= <- _].
Qed.

Lemma tracker_handle_alloc_state l t r t' evs :
  tracker_handle l t (AllocationMessage r) = Ok (t', evs) ->
  tt_state t' = (add_processed (tt_state t) r).1.1.
Proof.
  unfold tracker_handle, mbind, outcome_bind. destruct (add_processed _ r) as [[st adv] cb].
  destruct (finalized_maps l cb); [|done]. destruct adv; [|by intros [= <- _]]. cbn.
  repeat case_scrut; by intros [= <- _].
Qed.

Lemma frontier_inv_issue p0 rs D st r :
  frontier_inv p0 rs D st -> r ∉ D -> frontier_inv p0 (rs ++ [r]) D st.
Proof.
  intros (a & b & -> & Hca & Ha & Hh & Hs & Hp) Hr. exists a, (b ++ [r]).
  split; [by rewrite app_assoc|]. split; [done|]. split; [done|]. split.
  - by destruct b.
  - split; [done|]. intros k r'. rewrite Hp, elem_of_app, list_elem_of_singleton. naive_solver.
Qed.

Lemma filter_In_elem {A} (f : A -> bool) (l : list A) x : x ∈ List.filter f l <-> x ∈ l /\ f x = true.
Proof. rewrite !list_elem_of_In. apply filter_In. Qed.

Lemma sys_inv_init l p0 : sys_inv l p0 (sys_init p0).
Proof.
  split; cbn; [done|constructor|set_solver|set_solver|constructor|set_solver|].
  exists [], []. split; [done|]. split; [done|]. split; [set_solver|]. split; [done|].
  split; [constructor|]. cbn. set_solver.
Qed.

Lemma sys_inv_step l p0 s s' : sys_inv l p0 s -> tracker_step l s s' -> sys_inv l p0 s'.
Proof.
  intros Hi Hstep.
  destruct Hstep as [s1 r Hr Hprev|s1 r Hin Hnew|s1 r|s1 m Hm|s1 r q t evs Hqeq Hheld Hh
    |s1 m q t evs Hqeq Hm Hh]; destruct Hi as [Hc Hok Hsent Hq Hq1 Hd Hfr].
  - (* a new allocation is issued *)
    assert (r ∉ sys_done s1) as Hnd.
    { intros Hdone. apply Hd in Hdone as [Hse _]. apply Hsent in Hse.
      destruct (alloc_chain_bounds _ _ _ _ Hok Hc) as [_ Hall].
      rewrite Forall_forall in Hall. destruct (Hall _ Hse) as [_ Hle].
      rewrite (alloc_next_ok _ _ Hr) in Hle. destruct Hr as (?&?&?&_). lia. }
    split; cbn; try done.
    + by eapply alloc_chain_snoc.
    + apply Forall_app. auto.
    + intros r' Hr'. apply elem_of_app. auto.
    + by apply frontier_inv_issue.
  - (* an allocation is announced *)
    assert (AllocationMessage r ∉ sys_queue s1) as Hnq by (intros Hx; by apply Hq in Hx as [? _]).
    assert (r ∉ sys_done s1) as Hnd by (intros Hx; by apply Hd in Hx as [? _]).
    split; cbn; try done.
    + intros r' [?| ->%list_elem_of_singleton]%elem_of_app; auto.
    + intros r' [Hx|Hx%list_elem_of_singleton]%elem_of_app.
      * apply Hq in Hx as [? ?]. split; [apply elem_of_app; auto|done].
      * injection Hx as ->. split; [apply elem_of_app; right; by left|done].
    + rewrite List.filter_app. cbn. apply NoDup_app. split_and!; [done| |apply NoDup_singleton].
      intros x [Hx _]%filter_In_elem ->%list_elem_of_singleton. done.
    + intros r' Hr'. apply Hd in Hr' as Hdr. destruct Hdr as [Hs' Hh']. split; [apply elem_of_app; auto|].
      rewrite elem_of_union, elem_of_singleton. intros [Heq|?]; [|done].
      assert (r' = r) as ->; [|done]. by eapply alloc_chain_prev_inj; eauto.
  - (* a guard is dropped *)
    split; cbn; try done. intros r' Hr'. apply Hd in Hr' as [? ?]. set_solver.
  - (* another message is sent *)
    split; cbn; try done.
    + intros r' [Hx|Hx%list_elem_of_singleton]%elem_of_app; [auto|]. by destruct (Hm r').
    + rewrite List.filter_app. cbn. destruct m; [by destruct (Hm result)|..]; cbn; by rewrite app_nil_r.
  - (* an allocation message is handled *)
    rewrite Hqeq in Hq, Hq1. cbn in Hq1. apply NoDup_cons in Hq1 as [Hnq Hq1].
    destruct (Hq r) as [Hse Hnd]; [by left|]. split; cbn; try done.
    + intros r' Hr'. destruct (Hq r') as [? ?]; [by right|]. split; [done|].
      rewrite elem_of_app, list_elem_of_singleton. intros [?| ->]; [done|].
      apply Hnq, filter_In_elem. done.
    + intros r' [Hx| ->%list_elem_of_singleton]%elem_of_app; auto.
    + rewrite (tracker_handle_alloc_state _ _ _ _ _ Hh).
      eapply add_processed_frontier; eauto.
  - (* another message is handled *)
    rewrite Hqeq in Hq, Hq1. split; cbn; try done.
    + intros r' Hr'. apply Hq. by right.
    + destruct m; [by destruct (Hm result)|..]; done.
    + by rewrite (tracker_handle_other _ _ _ _ _ Hm Hh).
Qed.

Lemma sys_inv_reachable l p0 s : rtc (tracker_step l) (sys_init p0) s -> sys_inv l p0 s.
Proof.
  intros Hr. pose proof (sys_inv_init l p0) as Hi. revert Hi.
  induction Hr; eauto using sys_inv_step.
Qed.

(** Reachable threads satisfy the thread invariant too. *)
Lemma sys_tracker_inv_step l p0 s s' :
  sys_inv l p0 s -> tracker_inv (sys_thread s) -> tracker_step l s s' ->
  tracker_inv (sys_thread s') /\ tt_last_processed (sys_thread s) <= tt_last_processed (sys_thread s').
Proof.
  intros Hi Ht Hs. destruct Hs as [s r Hok Hp|s r Hin Hn|s r|s m Hm|s r q t evs Hq Hh Hr|s m q t evs Hq Hm Hr];
    cbn [sys_thread]; try (split; [done|lia]).
  - assert (r ∈ sys_issued s) as Hiss.
    { apply (si_sent l p0 s Hi), (si_queue l p0 s Hi). rewrite Hq. left. }
    pose proof (si_ok l p0 s Hi) as Hf. rewrite Forall_forall in Hf. specialize (Hf r Hiss).
    destruct (tracker_handle_progress l (sys_thread s) (AllocationMessage r) t evs Ht) as (H1 & H2 & _); [|done|done].
    cbn. rewrite (alloc_next_ok l r Hf). destruct Hf as (? & ? & ? & _). lia.
  - destruct (tracker_handle_progress l (sys_thread s) m t evs Ht) as (H1 & H2 & _); [|done|done].
    destruct m; try done. by destruct (Hm result).
Qed.

(** The internal frontier never moves back. *)
Lemma internal_frontier_mono l p0 s s' :
  sys_inv l p0 s -> tracker_inv (sys_thread s) -> tracker_step l s s' ->
  ts_last_processed (tt_state (sys_thread s)) <= ts_last_processed (tt_state (sys_thread s')).
Proof.
  intros Hi Ht Hs. destruct Hs as [s r Hok Hp|s r Hin Hn|s r|s m Hm|s r q t evs Hq Hh Hr|s m q t evs Hq Hm Hr]; cbn [sys_thread]; try lia.
  - assert (r ∈ sys_issued s) as Hiss by (apply (si_sent l p0 s Hi), (si_queue l p0 s Hi); rewrite Hq; left).
    pose proof (si_ok l p0 s Hi) as Hf. rewrite Forall_forall in Hf. specialize (Hf r Hiss).
    destruct (tracker_handle_progress l (sys_thread s) (AllocationMessage r) t evs Ht) as (_ & _ & H3 & _); [|done|done].
    cbn. rewrite (alloc_next_ok l r Hf). destruct Hf as (? & ? & ? & _). lia.
  - by rewrite (tracker_handle_other _ _ _ _ _ Hm Hr).
Qed.

Lemma sys_tracker_inv_reachable l p0 s :
  rtc (tracker_step l) (sys_init p0) s -> sys_inv l p0 s /\ tracker_inv (sys_thread s).
Proof.
  intros Hr. pose proof (conj (sys_inv_init l p0) (tracker_inv_start p0)) as Hi.
  change (tracker_start p0) with (sys_thread (sys_init p0)) in Hi. revert Hi.
  induction Hr as [|x y z Hs Hr IH]; [done|]. intros [H1 H2]. apply IH. split.
  - by eapply sys_inv_step.
  - by eapply sys_tracker_inv_step.
Qed.

(** An allocation that starts below the internal frontier was handled. *)
Lemma frontier_done l p0 s r :
  sys_inv l p0 s -> r ∈ sys_issued s -> previous_position r < ts_last_processed (tt_state (sys_thread s)) -> r ∈ sys_done s.
Proof.
  intros Hi Hin Hlt. destruct (si_frontier l p0 s Hi) as (a & b & Heq & Ha & Hsub & _ & _).
  pose proof (si_ok l p0 s Hi) as Hf. pose proof (si_chain l p0 s Hi) as Hc.
  rewrite Heq in Hin, Hf, Hc. apply elem_of_app in Hin as [Hin|Hin]; [by apply Hsub|]. exfalso.
  apply alloc_chain_app in Hc as (mid & Hc1 & Hc2). apply Forall_app in Hf as [Hf1 Hf2].
  assert (mid = ts_last_processed (tt_state (sys_thread s))) as -> by (by eapply alloc_chain_fun).
  destruct (alloc_chain_bounds l _ b _ Hf2 Hc2) as [_ Hb]. rewrite Forall_forall in Hb. specialize (Hb r Hin). lia.
Qed.

(** The observed frontier is not past the internal one. *)
Lemma external_le_internal t : tracker_inv t -> tt_last_processed t <= ts_last_processed (tt_state t).
Proof. intros Ht. rewrite (inv_external _ Ht). apply latch_cap_le, (inv_latches _ Ht). Qed.

(** C25. The frontier other threads observe is sound, however announcements,
    guard drops and messages interleave: every allocation that starts before
    it (the skipped gap in front included) has been announced and handled, and
    its guard is gone, so its entry is in the in-memory index. *)
Theorem tracker_frontier_sound l p0 s r :
  rtc (tracker_step l) (sys_init p0) s -> r ∈ sys_issued s ->
  previous_position r < tt_last_processed (sys_thread s) ->
  r ∈ sys_done s /\ previous_position r ∉ sys_held s.
Proof.
  intros Hr Hin Hlt. destruct (sys_tracker_inv_reachable l p0 s Hr) as [Hi Ht].
  pose proof (external_le_internal _ Ht) as Hle.
  assert (r ∈ sys_done s) as Hd by (eapply frontier_done; [done|done|lia]). split; [done|by apply (si_done l p0 s Hi)].
Qed.

(** The internal frontier is as far as it can be: it has reached the end of
    everything allocated, or it stands at the start of an allocation whose
    message was not handled yet. *)
Lemma tracker_frontier_maximal l p0 s :
  rtc (tracker_step l) (sys_init p0) s ->
  ts_last_processed (tt_state (sys_thread s)) = sys_end s \/
  exists r, r ∈ sys_issued s /\ r ∉ sys_done s /\
    previous_position r = ts_last_processed (tt_state (sys_thread s)).
Proof.
  intros Hr. destruct (sys_tracker_inv_reachable l p0 s Hr) as [Hi _].
  destruct (si_frontier l p0 s Hi) as (a & b & Heq & Ha & _ & Hh & _).
  pose proof (si_chain l p0 s Hi) as Hc. rewrite Heq in Hc. apply alloc_chain_app in Hc as (mid & Hc1 & Hc2).
  assert (mid = ts_last_processed (tt_state (sys_thread s))) as -> by (by eapply alloc_chain_fun).
  destruct b as [|r b]; [by left|right]. exists r. destruct Hc2 as [Hp _]. split_and!; [|done|done].
  rewrite Heq. apply elem_of_app. right. left.
Qed.

(** The observed frontier never moves back, and while a latch is held it
    does not pass the latched position: readers of a checkpoint keep a fixed
    view. *)
Lemma tracker_frontier_monotone_latched l p0 s s' :
  rtc (tracker_step l) (sys_init p0) s -> tracker_step l s s' ->
  tt_last_processed (sys_thread s) <= tt_last_processed (sys_thread s') /\
  forall p id, In ((p, id), tt) (tt_latches (sys_thread s')) -> tt_last_processed (sys_thread s') <= p.
Proof.
  intros Hr Hs. destruct (sys_tracker_inv_reachable l p0 s Hr) as [Hi Ht].
  destruct (sys_tracker_inv_step l p0 s s' Hi Ht Hs) as [Ht' Hm]. split; [done|].
  intros p id Hin. by eapply tracker_latch_pins.
Qed.

(** *** What a latch covers *)

(** An announced allocation is in the channel or handled, and what was handled
    was seen. *)
Definition announced_seen (s : tracker_sys) : Prop :=
  (forall r, r ∈ sys_sent s -> r ∈ sys_done s \/ AllocationMessage r ∈ sys_queue s) /\
  (forall r, r ∈ sys_done s -> alloc_next_position r <= ts_highest_seen (tt_state (sys_thread s))).

Lemma add_processed_seen st r :
  ts_highest_seen (add_processed st r).1.1 = Z.max (ts_highest_seen st) (alloc_next_position r).
Proof. unfold add_processed. destruct (negb _); [done|]. by destruct (drain_pending _ _ _) as [[p last] cb]. Qed.

Lemma announced_seen_step l s s' : announced_seen s -> tracker_step l s s' -> announced_seen s'.
Proof.
  intros [Hq Hd] Hs. destruct Hs as [s r Hok Hp|s r Hin Hn|s r|s m Hm|s r q t evs Hqe Hh Hr|s m q t evs Hqe Hm Hr];
    split; cbn [sys_sent sys_done sys_queue sys_thread]; try done.
  - intros r' [Hx| ->%list_elem_of_singleton]%elem_of_app.
    + destruct (Hq r' Hx); [by left|right]. apply elem_of_app. by left.
    + right. apply elem_of_app. right. by apply list_elem_of_singleton.
  - intros r' Hx. destruct (Hq r' Hx); [by left|right]. apply elem_of_app. by left.
  - intros r' Hx. rewrite elem_of_app, list_elem_of_singleton. destruct (Hq r' Hx) as [?|Hi]; [auto|]. rewrite Hqe in Hi.
    apply elem_of_cons in Hi as [[= ->]|?]; auto.
  - rewrite (tracker_handle_alloc_state _ _ _ _ _ Hr), add_processed_seen.
    intros r' [Hx%Hd| ->%list_elem_of_singleton]%elem_of_app; lia.
  - intros r' Hx. destruct (Hq r' Hx) as [?|Hi]; [auto|]. rewrite Hqe in Hi. apply elem_of_cons in Hi as [E|?]; [|auto].
    by destruct (Hm r').
  - by rewrite (tracker_handle_other _ _ _ _ _ Hm Hr).
Qed.

(** A latch covers every write announced before it.  When the tracker
    handles a latch request it takes a latch, answered at once or queued until
    its position is processed, and every allocation announced so far ends at or
    below the latched position, except those whose message is behind the request
    in the channel: a checkpoint sees the writes acknowledged before it was
    asked for. *)
Lemma latch_covers_announced l p0 s response q t evs :
  rtc (tracker_step l) (sys_init p0) s -> sys_queue s = LatchRequest response :: q ->
  tracker_handle l (sys_thread s) (LatchRequest response) = Ok (t, evs) ->
  exists latch, In ((latch_position latch, latch_id latch), tt) (tt_latches t) /\
    (evs = [LatchReply response latch] \/
     evs = [] /\ In (mkLatchRequest (latch_position latch) (latch_id latch) response) (tt_pending_requests t)) /\
    forall r, r ∈ sys_sent s -> AllocationMessage r ∉ q -> alloc_next_position r <= latch_position latch.
Proof.
  intros Hr Hqe Hh. destruct (sys_tracker_inv_reachable l p0 s Hr) as [_ Ht].
  assert (announced_seen s) as [Hq Hd].
  { assert (announced_seen (sys_init p0)) as H0 by (split; cbn; set_solver). revert H0. clear -Hr. induction Hr; eauto using announced_seen_step. }
  set (st := tt_state (sys_thread s)) in *. exists (mkLatch (tt_next_latch_id (sys_thread s)) (ts_highest_seen st)).
  cbn [latch_position latch_id]. split; [|split].
  - assert (tt_latches t = bt_insert (ts_highest_seen st, tt_next_latch_id (sys_thread s)) tt (tt_latches (sys_thread s))) as ->.
    { cbn in Hh. fold st in Hh. destruct (_ <=? _) in Hh; by injection Hh as <- _. }
    apply bt_get_In; [apply bt_insert_sorted, (inv_latches _ Ht)|]. rewrite bt_get_insert by apply (inv_latches _ Ht).
    by rewrite keqb_refl.
  - cbn in Hh. fold st in Hh. destruct (_ <=? _) in Hh; injection Hh as <- <-; [by left|]. right. split; [done|]. cbn. apply in_app_iff.
    right. by left.
  - intros r Hs Hnq. apply Hd. destruct (Hq r Hs) as [?|Hi]; [done|]. rewrite Hqe in Hi. by apply elem_of_cons in Hi as [?|?].
Qed.

(** ** Example runs *)

Definition demo_alloc : AllocationResult := mkAllocationResult 0 0 600.

(** The system once one allocation was announced, dropped and handled. *)
Definition demo_sys : tracker_sys :=
  mkSys 600 [demo_alloc] [demo_alloc] (({[0]} ∪ ∅) ∖ {[0]}) [] [demo_alloc]
    (mkTracker 600 (mkTrackerState [] 600 600) [] 0 [] []).

Lemma demo_alloc_ok : allocation_ok demo_layout demo_alloc.
Proof.
  unfold allocation_ok, in_one_frag, u64_max. cbn. split_and!; try (reflexivity || lia). by exists 75.
Qed.

Lemma demo_run : rtc (tracker_step demo_layout) (sys_init 0) demo_sys.
Proof.
  eapply rtc_l; [apply (sys_allocate _ _ demo_alloc demo_alloc_ok); reflexivity|].
  eapply rtc_l; [apply (sys_announce _ _ demo_alloc); cbn; [left|set_solver]|].
  eapply rtc_l; [apply (sys_drop_guard _ _ demo_alloc)|].
  eapply rtc_l; [eapply (sys_recv_alloc _ _ demo_alloc); cbn; [reflexivity|set_solver|reflexivity]|].
  apply rtc_refl.
Qed.

Lemma tracker_frontier_sound_witness :
  demo_alloc ∈ sys_done demo_sys /\ previous_position demo_alloc ∉ sys_held demo_sys.
Proof.
  apply (tracker_frontier_sound demo_layout 0 demo_sys demo_alloc demo_run); [left|cbn; lia].
Defined.

