(* ===== verification/Flat.v ===== *)
(** * The flat index buffer

    [src/tidehunter/src/index/index_table/flat.rs]: the compact sorted buffer an
    [IndexTable] keeps its promoted entries in, byte for byte, in its two
    formats (fixed-length keys packed back to back; variable-length keys behind
    a count and an offset table), its readers, binary searches and writers.
    [IndexWalPosition] and [IndexEntryKind] of
    [src/tidehunter/src/index/index_table/mod.rs] are here too. *)

From Stdlib Require Import ZArith Lia List Sorting.Sorted.
From stdpp Require Import base tactics list strings.
From S2P Require Import Prelude BTree Bytes Position.

Local Open Scope Z_scope.

(** ** Index positions: [index_table/mod.rs] *)

Inductive IndexEntryKind := Clean | Modified | Removed.

#[export] Instance IndexEntryKind_eq_dec : EqDecision IndexEntryKind.
Proof. solve_decision. Defined.

Record IndexWalPosition := mkIWP { iwp_offset : Z; iwp_len : Z; iwp_kind : IndexEntryKind }.

#[export] Instance IndexWalPosition_eq_dec : EqDecision IndexWalPosition.
Proof. solve_decision. Defined.

#[export] Instance iwp_has_offset : HasOffset IndexWalPosition := iwp_offset.

Definition kind_to_u8 (k : IndexEntryKind) : Z :=
  match k with Clean => 0 | Modified => 1 | Removed => 2 end.

Definition kind_from_u8 (b : Z) : IndexEntryKind :=
  if b =? 1 then Modified else if b =? 2 then Removed else Clean.

Definition iwp_new_clean (w : WalPosition) : IndexWalPosition :=
  mkIWP (wp_offset w) (wp_len w) Clean.

Definition iwp_new_modified (w : WalPosition) : IndexWalPosition :=
  mkIWP (wp_offset w) (wp_len w) Modified.

Definition iwp_new_removed (w : WalPosition) : IndexWalPosition :=
  mkIWP (wp_offset w) (wp_len w) Removed.

Definition iwp_from_disk (w : WalPosition) : IndexWalPosition :=
  if bool_decide (w = WalPosition_INVALID) then mkIWP (wp_offset w) 0 Removed
  else iwp_new_clean w.

Definition into_wal_position (p : IndexWalPosition) : WalPosition :=
  match iwp_kind p with
  | Clean | Modified => wp_new (iwp_offset p) (iwp_len p)
  | Removed => WalPosition_INVALID
  end.

Definition into_update_position (p : IndexWalPosition) : WalPosition :=
  wp_new (iwp_offset p) (iwp_len p).

Definition replace_wal_position (p : IndexWalPosition) (w : WalPosition) : IndexWalPosition :=
  mkIWP (wp_offset w) (wp_len w) (iwp_kind p).

Definition is_removed (p : IndexWalPosition) : bool := bool_decide (iwp_kind p = Removed).

Definition is_clean (p : IndexWalPosition) : bool := bool_decide (iwp_kind p = Clean).

Definition as_clean_modified (p : IndexWalPosition) : outcome IndexWalPosition :=
  match iwp_kind p with
  | Clean | Modified => Ok (mkIWP (iwp_offset p) (iwp_len p) Clean)
  | Removed => Panic "Can't call as_clean_modified on IndexEntryKind::Removed"
  end.

(** ** Kind packing *)

Definition encode_kind_in_len (len : Z) (kind : IndexEntryKind) : outcome Z :=
  _ ← assert_that (len <? Z.shiftl 1 30) "encode_kind_in_len: len must be < 2^30";
  Ok (Z.lor len (wrap32 (Z.shiftl (kind_to_u8 kind) 30))).

Definition decode_kind_from_len (encoded : Z) : Z * IndexEntryKind :=
  (Z.land encoded 0x3FFFFFFF, kind_from_u8 (wrap8 (Z.shiftr encoded 30))).

(** ** Variable-length format *)

(** An entry of a buffer: its key and position. *)
Abbreviation entry := (list Z * IndexWalPosition)%type.

Definition var_flat_entry_count (flat : list Z) : nat :=
  if (length flat <? 4)%nat then 0%nat else Z.to_nat (be_val (take 4 flat)).

Definition var_flat_entries_section_start (count : nat) : nat := 4 + 4 * count.

Definition var_flat_read_entry_offset (flat : list Z) (idx : nat) : outcome nat :=
  let pos := (4 + 4 * idx)%nat in
  s ← slice flat pos (pos + 4);
  Ok (Z.to_nat (be_val s)).

Definition var_flat_parse_entry (entries_section : list Z) (byte_offset : nat) : outcome entry :=
  s ← slice entries_section byte_offset (byte_offset + 2);
  let key_len := Z.to_nat (be_val s) in
  key ← slice entries_section (byte_offset + 2) (byte_offset + 2 + key_len);
  let wal_start := (byte_offset + 2 + key_len)%nat in
  o ← slice entries_section wal_start (wal_start + 8);
  e ← slice entries_section (wal_start + 8) (wal_start + 12);
  let '(wal_len, kind) := decode_kind_from_len (be_val e) in
  Ok (key, mkIWP (be_val o) wal_len kind).

(** ** Both formats *)

Definition flat_count (flat : list Z) (key_size : option nat) : nat :=
  match flat with
  | [] => 0
  | _ =>
      match key_size with
      | None => var_flat_entry_count flat
      | Some ks => length flat / (ks + WalPosition_LENGTH)
      end
  end.

(** A fixed-length entry at byte [start]. *)
Definition fixed_flat_parse_entry (flat : list Z) (ks start : nat) : outcome entry :=
  let elem_size := (ks + WalPosition_LENGTH)%nat in
  key ← slice flat start (start + ks);
  o ← slice flat (start + ks) (start + ks + 8);
  e ← slice flat (start + ks + 8) (start + elem_size);
  let '(len, kind) := decode_kind_from_len (be_val e) in
  Ok (key, mkIWP (be_val o) len kind).

Definition flat_entry_at (flat : list Z) (key_size : option nat) (idx : nat) : outcome entry :=
  match key_size with
  | None =>
      let count := var_flat_entry_count flat in
      entries ← slice_from flat (var_flat_entries_section_start count);
      off ← var_flat_read_entry_offset flat idx;
      var_flat_parse_entry entries off
  | Some ks => fixed_flat_parse_entry flat ks (idx * (ks + WalPosition_LENGTH))
  end.

(** The loop of the two binary searches: [right mid_key] moves [lo] past [mid].
    Every turn shrinks [hi - lo], so [fuel] above the entry count is enough. *)
Fixpoint flat_bound_loop (fuel : nat) (flat : list Z) (key_size : option nat)
    (right : list Z -> bool) (lo hi : nat) : outcome nat :=
  match fuel with
  | O => Ok lo
  | S fuel' =>
      if (lo <? hi)%nat then
        let mid := ((lo + hi) / 2)%nat in
        '(mid_key, _) ← flat_entry_at flat key_size mid;
        if right mid_key then flat_bound_loop fuel' flat key_size right (mid + 1) hi
        else flat_bound_loop fuel' flat key_size right lo mid
      else Ok lo
  end.

Definition flat_lower_bound (flat : list Z) (key_size : option nat) (target : list Z) : outcome nat :=
  let count := flat_count flat key_size in
  flat_bound_loop (S count) flat key_size (fun mid_key => kltb mid_key target) 0 count.

Definition flat_upper_bound (flat : list Z) (key_size : option nat) (target : list Z) : outcome nat :=
  let count := flat_count flat key_size in
  flat_bound_loop (S count) flat key_size (fun mid_key => kleb mid_key target) 0 count.

(** ** Writers *)

(** The fill loop of the variable-length writers: appends each entry and
    back-fills its slot of the offset table. *)
Fixpoint append_var_entries (entries : list entry) (offsets_start data_start i : nat)
    (out : list Z) : outcome (list Z) :=
  match entries with
  | [] => Ok out
  | (key, iwp) :: rest =>
      let entry_offset := Z.of_nat (length out - data_start) in
      _ ← assert_that (entry_offset <=? u32_max) "flat buffer exceeds u32 offset range";
      let out := copy_at out (offsets_start + 4 * i) (be_bytes 4 entry_offset) in
      enc ← encode_kind_in_len (iwp_len iwp) (iwp_kind iwp);
      let out := (((out ++ be_bytes 2 (wrap16 (Z.of_nat (length key)))) ++ key)
                    ++ be_bytes 8 (iwp_offset iwp)) ++ be_bytes 4 enc in
      append_var_entries rest offsets_start data_start (S i) out
  end.

Definition append_flat_varlen (entries : list entry) (out : list Z) : outcome (list Z) :=
  match entries with
  | [] => Ok out
  | _ =>
      let n := length entries in
      let header_start := length out in
      let offsets_start := (header_start + 4)%nat in
      let data_start := (offsets_start + 4 * n)%nat in
      let count := be_bytes 4 (wrap32 (Z.of_nat n)) in
      let out := (out ++ count) ++ replicate (4 * n) 0 in
      out ← append_var_entries entries offsets_start data_start 0 out;
      Ok (copy_at out header_start count)
  end.

(** The fill loop of the fixed-length writers. *)
Fixpoint append_fixed_entries (entries : list entry) (out : list Z) : outcome (list Z) :=
  match entries with
  | [] => Ok out
  | (key, iwp) :: rest =>
      enc ← encode_kind_in_len (iwp_len iwp) (iwp_kind iwp);
      append_fixed_entries rest (((out ++ key) ++ be_bytes 8 (iwp_offset iwp)) ++ be_bytes 4 enc)
  end.

Definition build_flat_bytes (entries : list entry) (key_size : option nat) : outcome (list Z) :=
  match entries with
  | [] => Ok []
  | _ =>
      match key_size with
      | Some _ => append_fixed_entries entries []
      | None => append_flat_varlen entries []
      end
  end.

(** ** Sequential reading: [FlatIter] collected *)

Fixpoint read_entries (read : nat -> outcome entry) (index count : nat) : outcome (list entry) :=
  match count with
  | O => Ok []
  | S count' =>
      e ← read index;
      rest ← read_entries read (S index) count';
      Ok (e :: rest)
  end.

Definition flat_iter (flat : list Z) (key_size : option nat) : outcome (list entry) :=
  match flat with
  | [] => Ok []
  | _ =>
      match key_size with
      | None =>
          let count := var_flat_entry_count flat in
          let section_start := var_flat_entries_section_start count in
          entries_section ← (if (0 <? count)%nat then slice_from flat section_start else Ok []);
          read_entries
            (fun index =>
               byte_offset ← var_flat_read_entry_offset flat index;
               var_flat_parse_entry entries_section byte_offset) 0 count
      | Some ks =>
          let elem_size := (ks + WalPosition_LENGTH)%nat in
          let count := (length flat / elem_size)%nat in
          read_entries (fun index => fixed_flat_parse_entry flat ks (index * elem_size)) 0 count
      end
  end.

(** ** Merging the write buffer into the flat buffer *)

(** The [data] overlay: a key's positions, ascending. *)
Abbreviation overlay := (list (list Z * list IndexWalPosition)).

(** [data_latest_per_key]: one entry per key, its last position. *)
Fixpoint data_latest_per_key (data : overlay) : outcome (list entry) :=
  match data with
  | [] => Ok []
  | (k, positions) :: rest =>
      latest ← expect (last positions) "data positions are never empty";
      rest ← data_latest_per_key rest;
      Ok ((k, latest) :: rest)
  end.

(** The entries [merge_walk] visits, in order. *)
Definition merge_walk (flat : list Z) (key_size : option nat) (data : overlay)
    (last_processed : LastProcessed) : outcome (list entry) :=
  flat_entries ← flat_iter flat key_size;
  latest ← data_latest_per_key data;
  Ok (ordered_merge flat_entries (List.filter (fun kv => is_processed last_processed kv.2) latest)).

Definition merge_into_flat (flat : list Z) (key_size : option nat) (data : overlay)
    (last_processed : LastProcessed) : outcome (list Z * nat) :=
  entries ← merge_walk flat key_size data last_processed;
  let entry_count := length entries in
  let dirty_count := length (List.filter (fun kv => negb (is_clean kv.2)) entries) in
  if (entry_count =? 0)%nat then Ok ([], 0%nat)
  else
    new_flat ←
      (match key_size with
       | Some _ => append_fixed_entries entries []
       | None =>
           let out := be_bytes 4 (wrap32 (Z.of_nat entry_count)) in
           let offsets_start := length out in
           let out := out ++ replicate (4 * entry_count) 0 in
           let data_start := length out in
           append_var_entries entries offsets_start data_start 0 out
       end);
    Ok (new_flat, dirty_count).
