(* ===== verification/FlatFacts.v ===== *)
(** * The flat buffer represents a sorted entry list

    [flat_image] is the byte image of a list of entries; the writers of [Flat]
    produce it, the readers give the entries back, and the binary searches
    find the bounds they promise.  [flat_repr flat key_size es] is the
    abstraction relation the index table is verified against. *)

From Stdlib Require Import ZArith Lia List Sorting.Sorted.
From stdpp Require Import base tactics list strings.
From S2P Require Import Prelude BTree Bytes Position Flat.

Local Open Scope Z_scope.

(** ** Kind packing *)

(** The ranges of an [IndexWalPosition] the buffer can hold: WAL frames are
    shorter than 2^30. *)
Definition iwp_fits (p : IndexWalPosition) : Prop :=
  is_u64 (iwp_offset p) /\ 0 <= iwp_len p < 2 ^ 30.

Definition enc_len (p : IndexWalPosition) : Z :=
  kind_to_u8 (iwp_kind p) * 2 ^ 30 + iwp_len p.

Lemma kind_to_u8_bound k : 0 <= kind_to_u8 k <= 2.
Proof. by destruct k. Qed.

Lemma kind_from_to k : kind_from_u8 (kind_to_u8 k) = k.
Proof. by destruct k. Qed.

Lemma encode_kind_ok p :
  iwp_fits p -> encode_kind_in_len (iwp_len p) (iwp_kind p) = Ok (enc_len p).
Proof.
  intros [_ Hl]. unfold encode_kind_in_len, assert_that, enc_len.
  change (Z.shiftl 1 30) with (2 ^ 30). destruct (Z.ltb_spec (iwp_len p) (2 ^ 30)); [|lia].
  cbn [mbind outcome_bind]. f_equal. pose proof (kind_to_u8_bound (iwp_kind p)).
  rewrite wrap32_small by (unfold is_u32; rewrite Z.shiftl_mul_pow2; lia).
  rewrite Z.lor_comm. apply lor_shiftl_small; lia.
Qed.

Lemma enc_len_u32 p : iwp_fits p -> is_u32 (enc_len p).
Proof.
  intros [_ Hl]. unfold is_u32, enc_len. pose proof (kind_to_u8_bound (iwp_kind p)). lia.
Qed.

Lemma decode_enc_len p :
  iwp_fits p -> decode_kind_from_len (enc_len p) = (iwp_len p, iwp_kind p).
Proof.
  intros [_ Hl]. pose proof (kind_to_u8_bound (iwp_kind p)) as Hk.
  unfold decode_kind_from_len, enc_len. change 0x3FFFFFFF with (2 ^ 30 - 1).
  rewrite land_ones_mod by lia. rewrite Z.shiftr_div_pow2, Z.div_add_l by lia.
  rewrite (Z.div_small (iwp_len p)), Z.add_0_r by lia.
  unfold wrap8. rewrite (Z.mod_small (kind_to_u8 _)) by lia. rewrite kind_from_to. f_equal.
  rewrite Z.add_comm, Z.mod_add by lia. by apply Z.mod_small.
Qed.

(** ** Images *)

Definition entry_fits (ks : option nat) (e : entry) : Prop :=
  iwp_fits e.2 /\
  match ks with Some n => length e.1 = n | None => Z.of_nat (length e.1) <= u16_max end.

Definition fixed_image (e : entry) : list Z :=
  e.1 ++ be_bytes 8 (iwp_offset e.2) ++ be_bytes 4 (enc_len e.2).

Definition var_image (e : entry) : list Z :=
  be_bytes 2 (Z.of_nat (length e.1)) ++ e.1 ++ be_bytes 8 (iwp_offset e.2) ++
  be_bytes 4 (enc_len e.2).

Definition var_section (es : list entry) : list Z := concat (List.map var_image es).

(** The offset table: each entry's start relative to the entries section. *)
Fixpoint var_offsets (start : nat) (es : list entry) : list Z :=
  match es with
  | [] => []
  | e :: es' => be_bytes 4 (Z.of_nat start) ++ var_offsets (start + length (var_image e)) es'
  end.

Definition flat_image (ks : option nat) (es : list entry) : list Z :=
  match es with
  | [] => []
  | _ =>
      match ks with
      | Some _ => concat (List.map fixed_image es)
      | None => be_bytes 4 (Z.of_nat (length es)) ++ var_offsets 0 es ++ var_section es
      end
  end.

(** The entries section is addressable by the u32 offset table. *)
Definition size_fits (ks : option nat) (es : list entry) : Prop :=
  match ks with Some _ => True | None => Z.of_nat (length (var_section es)) <= u32_max end.

Definition flat_repr (flat : list Z) (ks : option nat) (es : list entry) : Prop :=
  flat = flat_image ks es /\ bt_sorted es /\ Forall (entry_fits ks) es /\ size_fits ks es.

(** ** Reading one entry *)

(** Closes the side conditions of [slice_mid] on concatenations. *)
Ltac slice_side :=
  repeat rewrite <- app_assoc; rewrite ?length_app, ?length_be_bytes;
  first [reflexivity | unfold WalPosition_LENGTH; lia].

Lemma fixed_parse_image flat ks pre e post :
  entry_fits (Some ks) e -> flat = pre ++ fixed_image e ++ post ->
  fixed_flat_parse_entry flat ks (length pre) = Ok e.
Proof.
  destruct e as [k p]. unfold entry_fits, fixed_image. cbn [fst snd]. intros [Hp Hk] ->.
  unfold fixed_flat_parse_entry. subst ks. cbv zeta.
  set (o := be_bytes 8 (iwp_offset p)). set (e := be_bytes 4 (enc_len p)).
  set (s := length pre). set (flat := pre ++ _ ++ post).
  rewrite (slice_mid flat pre k (o ++ e ++ post) s (s + length k)) by (unfold flat; slice_side).
  rewrite (slice_mid flat (pre ++ k) o (e ++ post) (s + length k) (s + length k + 8))
    by (unfold flat, o, s; slice_side).
  rewrite (slice_mid flat ((pre ++ k) ++ o) e post (s + length k + 8)
    (s + (length k + WalPosition_LENGTH))) by (unfold flat, o, e, s; slice_side).
  cbn [mbind outcome_bind]. unfold e, o.
  rewrite be_val_u32 by by apply enc_len_u32. rewrite decode_enc_len by done.
  destruct Hp as [Ho _]. rewrite be_val_u64 by done. by destruct p.
Qed.

Lemma var_parse_image section pre e post :
  entry_fits None e -> section = pre ++ var_image e ++ post ->
  var_flat_parse_entry section (length pre) = Ok e.
Proof.
  destruct e as [k p]. unfold entry_fits, var_image. cbn [fst snd]. intros [Hp Hk] ->.
  unfold var_flat_parse_entry. cbv zeta.
  set (kl := be_bytes 2 (Z.of_nat (length k))).
  set (o := be_bytes 8 (iwp_offset p)). set (e := be_bytes 4 (enc_len p)).
  set (s := length pre). set (flat := pre ++ _ ++ post).
  rewrite (slice_mid flat pre kl (k ++ o ++ e ++ post) s (s + 2)) by (unfold flat, kl; slice_side).
  cbn [mbind outcome_bind].
  replace (Z.to_nat (be_val kl)) with (length k)
    by (unfold kl; rewrite be_val_u16 by (unfold is_u16, u16_max in *; lia); lia).
  rewrite (slice_mid flat (pre ++ kl) k (o ++ e ++ post) (s + 2) (s + 2 + length k))
    by (unfold flat, kl, s; slice_side).
  rewrite (slice_mid flat ((pre ++ kl) ++ k) o (e ++ post) (s + 2 + length k) (s + 2 + length k + 8))
    by (unfold flat, kl, o, s; slice_side).
  rewrite (slice_mid flat (((pre ++ kl) ++ k) ++ o) e post (s + 2 + length k + 8)
    (s + 2 + length k + 12)) by (unfold flat, kl, o, e, s; slice_side).
  cbn [mbind outcome_bind]. unfold e, o.
  rewrite be_val_u32 by by apply enc_len_u32. rewrite decode_enc_len by done.
  destruct Hp as [Ho _]. rewrite be_val_u64 by done. by destruct p.
Qed.

(** ** The writers produce the image *)

Lemma append_fixed_entries_image ks es out :
  Forall (entry_fits (Some ks)) es ->
  append_fixed_entries es out = Ok (out ++ concat (List.map fixed_image es)).
Proof.
  intros Hf. revert out. induction Hf as [|[k p] es [Hp _] Hf IH]; intros out; cbn.
  - by rewrite app_nil_r.
  - rewrite encode_kind_ok by done. cbn. rewrite IH. unfold fixed_image at 2. cbn.
    by rewrite <- !app_assoc.
Qed.

Lemma copy_at_mid (a b c b' : list Z) :
  length b' = length b -> copy_at (a ++ b ++ c) (length a) b' = a ++ b' ++ c.
Proof.
  intros Hl. unfold copy_at. rewrite take_app_length. do 2 f_equal.
  rewrite app_assoc. rewrite drop_app_length'; [done|]. rewrite length_app. lia.
Qed.

Lemma length_var_image e : length (var_image e) = (14 + length e.1)%nat.
Proof. unfold var_image. rewrite !length_app, !length_be_bytes. lia. Qed.

Lemma length_fixed_image ks e :
  entry_fits (Some ks) e -> length (fixed_image e) = (ks + WalPosition_LENGTH)%nat.
Proof.
  intros [_ Hk]. unfold fixed_image. rewrite !length_app, !length_be_bytes, Hk.
  unfold WalPosition_LENGTH. lia.
Qed.

Lemma var_section_app a b : var_section (a ++ b) = var_section a ++ var_section b.
Proof. unfold var_section. by rewrite List.map_app, concat_app. Qed.

Lemma append_var_entries_image es pre filled sec ds i :
  Forall (entry_fits None) es ->
  length filled = (4 * i)%nat -> ds = (length pre + 4 * i + 4 * length es)%nat ->
  Z.of_nat (length sec + length (var_section es)) <= u32_max ->
  append_var_entries es (length pre) ds i
    (pre ++ filled ++ replicate (4 * length es) 0 ++ sec) =
  Ok (pre ++ (filled ++ var_offsets (length sec) es) ++ (sec ++ var_section es)).
Proof.
  intros Hf. revert filled sec i. induction Hf as [|[k p] es [Hp Hk] Hf IH];
    intros filled sec i Hfl Hds Hsz; cbn [append_var_entries].
  { cbn. by rewrite !app_nil_r. }
  set (out := pre ++ _).
  assert (length out = ds + length sec)%nat as Hout.
  { unfold out. rewrite !length_app, length_replicate. lia. }
  replace (length out - ds)%nat with (length sec) by lia.
  cbn [snd] in Hp. unfold assert_that. destruct (Z.leb_spec (Z.of_nat (length sec)) u32_max); [|lia].
  rewrite encode_kind_ok by done. cbn [mbind outcome_bind].
  unfold wrap16. rewrite Z.mod_small by (unfold u16_max in Hk; cbn in Hk; lia).
  replace out with ((pre ++ filled) ++ replicate 4 0 ++ replicate (4 * length es) 0 ++ sec).
  2: { unfold out. cbn [length]. replace (4 * S (length es))%nat with (4 + 4 * length es)%nat by lia.
       rewrite replicate_add. by rewrite <- !app_assoc. }
  replace (length pre + 4 * i)%nat with (length (pre ++ filled)) by (rewrite length_app; lia).
  rewrite copy_at_mid by (by rewrite length_be_bytes).
  pose proof (IH (filled ++ be_bytes 4 (Z.of_nat (length sec))) (sec ++ var_image (k, p)) (S i)) as IH'.
  cbn [var_offsets]. replace (var_section ((k, p) :: es)) with (var_image (k, p) ++ var_section es)
    in Hsz |- * by done.
  rewrite (length_app sec) in IH'. rewrite length_app in Hsz.
  etrans; [etrans; [|apply IH'; [rewrite length_app, length_be_bytes; lia|cbn in Hds; lia|lia]]|].
  - f_equal. unfold var_image. cbn [fst snd]. by rewrite <- !app_assoc.
  - f_equal. by rewrite <- !app_assoc.
Qed.

Lemma length_var_section_ge es : (14 * length es <= length (var_section es))%nat.
Proof.
  induction es as [|e es IH]; [done|].
  replace (var_section (e :: es)) with (var_image e ++ var_section es) by done.
  rewrite length_app, length_var_image. cbn. lia.
Qed.

Lemma size_fits_count es : size_fits None es -> is_u32 (Z.of_nat (length es)).
Proof. unfold size_fits, is_u32, u32_max. pose proof (length_var_section_ge es). lia. Qed.

Lemma append_flat_varlen_image es out :
  Forall (entry_fits None) es -> size_fits None es ->
  append_flat_varlen es out = Ok (out ++ flat_image None es).
Proof.
  intros Hf Hs. destruct es as [|e es]; [cbn; by rewrite app_nil_r|].
  unfold append_flat_varlen. cbv zeta. set (l := e :: es) in *.
  rewrite wrap32_small by by apply size_fits_count.
  set (cnt := be_bytes 4 (Z.of_nat (length l))).
  replace (length out + 4)%nat with (length (out ++ cnt))
    by (unfold cnt; rewrite length_app, length_be_bytes; lia).
  pose proof (append_var_entries_image l (out ++ cnt) [] []
    (length (out ++ cnt) + 4 * length l) 0 Hf eq_refl) as Ha. cbn [app length] in Ha.
  rewrite app_nil_r in Ha. rewrite Ha; [|lia|done].
  cbn [mbind outcome_bind]. f_equal. rewrite <- !app_assoc. rewrite copy_at_mid by done. done.
Qed.

Lemma build_flat_bytes_image es ks :
  Forall (entry_fits ks) es -> size_fits ks es -> build_flat_bytes es ks = Ok (flat_image ks es).
Proof.
  intros Hf Hs. destruct es as [|e es]; [done|]. unfold build_flat_bytes. destruct ks as [ks|].
  - by rewrite (append_fixed_entries_image ks).
  - by rewrite append_flat_varlen_image.
Qed.

(** ** The readers give the entries back *)

Lemma length_concat_fixed ks es :
  Forall (entry_fits (Some ks)) es ->
  length (concat (List.map fixed_image es)) = (length es * (ks + WalPosition_LENGTH))%nat.
Proof.
  induction 1 as [|e es He Hf IH]; cbn; [done|].
  rewrite length_app, IH, (length_fixed_image ks) by done. done.
Qed.

Lemma length_var_offsets s es : length (var_offsets s es) = (4 * length es)%nat.
Proof.
  revert s. induction es as [|e es IH]; intros s; cbn [var_offsets length]; [done|].
  rewrite length_app, length_be_bytes, IH. lia.
Qed.

Lemma var_offsets_app s a b :
  var_offsets s (a ++ b) = var_offsets s a ++ var_offsets (s + length (var_section a)) b.
Proof.
  revert s. induction a as [|e a IH]; intros s; cbn [var_offsets app].
  - by rewrite Nat.add_0_r.
  - rewrite IH, <- app_assoc. do 2 f_equal.
    replace (var_section (e :: a)) with (var_image e ++ var_section a) by done.
    rewrite length_app. f_equal. lia.
Qed.

(** The parts of a variable-length image. *)
Lemma var_count_image e es :
  size_fits None (e :: es) -> var_flat_entry_count (flat_image None (e :: es)) = length (e :: es).
Proof.
  intros Hs%size_fits_count. unfold var_flat_entry_count, flat_image.
  rewrite length_app, length_be_bytes. rewrite take_app_length' by (by rewrite length_be_bytes).
  rewrite be_val_u32 by done. rewrite Nat2Z.id. done.
Qed.

Lemma var_slice_section e es :
  slice_from (flat_image None (e :: es)) (var_flat_entries_section_start (length (e :: es))) =
  Ok (var_section (e :: es)).
Proof.
  unfold slice_from, flat_image, var_flat_entries_section_start. rewrite app_assoc.
  set (hd := _ ++ var_offsets 0 _).
  assert (length hd = 4 + 4 * length (e :: es))%nat as Hh.
  { unfold hd. rewrite length_app, length_be_bytes, length_var_offsets. done. }
  rewrite <- Hh, length_app. destruct (Nat.leb_spec (length hd) (length hd + length (var_section (e :: es))));
    [|lia]. by rewrite drop_app_length.
Qed.

Lemma var_read_offset es a x b :
  es = a ++ x :: b -> size_fits None es ->
  var_flat_read_entry_offset (flat_image None es) (length a) = Ok (length (var_section a)).
Proof.
  intros -> Hs. unfold var_flat_read_entry_offset. cbv zeta.
  assert (length (var_section a) <= length (var_section (a ++ x :: b)))%nat as Hle.
  { rewrite var_section_app, length_app. lia. }
  assert (is_u32 (Z.of_nat (length (var_section a)))) as Hu.
  { unfold size_fits, is_u32, u32_max in *. lia. }
  destruct (a ++ x :: b) as [|e es] eqn:E; [by destruct a|]. rewrite <- E.
  unfold flat_image. rewrite E, <- E.
  set (cnt := be_bytes 4 (Z.of_nat (length (a ++ x :: b)))).
  rewrite (slice_mid _ (cnt ++ var_offsets 0 a) (be_bytes 4 (Z.of_nat (length (var_section a))))
    (var_offsets (length (var_section a) + length (var_image x)) b ++ var_section (a ++ x :: b))).
  - cbn [mbind outcome_bind]. rewrite be_val_u32 by done. by rewrite Nat2Z.id.
  - rewrite var_offsets_app. cbn [var_offsets]. by rewrite <- !app_assoc.
  - unfold cnt. rewrite length_app, length_be_bytes, length_var_offsets. lia.
  - unfold cnt. rewrite length_app, !length_be_bytes, length_var_offsets. lia.
Qed.

Lemma Forall_middle {A} (P : A -> Prop) a x b : Forall P (a ++ x :: b) -> P x.
Proof. rewrite Forall_app, Forall_cons. naive_solver. Qed.

Lemma concat_map_middle {A B} (f : A -> list B) a x b :
  concat (List.map f (a ++ x :: b)) = concat (List.map f a) ++ f x ++ concat (List.map f b).
Proof. by rewrite List.map_app, concat_app. Qed.

Lemma flat_image_Some ks es : flat_image (Some ks) es = concat (List.map fixed_image es).
Proof. by destruct es. Qed.

Lemma flat_image_nonempty ks e es :
  Forall (entry_fits ks) (e :: es) -> exists b bs, flat_image ks (e :: es) = b :: bs.
Proof.
  intros Hf. destruct (flat_image ks (e :: es)) as [|b bs] eqn:E; [exfalso|by eauto].
  apply (f_equal length) in E. destruct ks as [ks|]; cbn [flat_image] in E.
  - rewrite (length_concat_fixed ks) in E by done. unfold WalPosition_LENGTH in E. cbn in E. lia.
  - rewrite !length_app, length_be_bytes in E. cbn in E. lia.
Qed.

Lemma flat_entry_at_image ks es a x b :
  es = a ++ x :: b -> Forall (entry_fits ks) es -> size_fits ks es ->
  flat_entry_at (flat_image ks es) ks (length a) = Ok x.
Proof.
  intros -> Hf Hs. unfold flat_entry_at. destruct ks as [ks|].
  - rewrite <- (length_concat_fixed ks a) by (by apply Forall_app in Hf as [? _]).
    rewrite flat_image_Some, concat_map_middle.
    apply fixed_parse_image with (post := concat (List.map fixed_image b)); [|done].
    by apply Forall_middle in Hf.
  - destruct (a ++ x :: b) as [|e es] eqn:E; [by destruct a|].
    rewrite var_count_image, var_slice_section by done. cbn [mbind outcome_bind].
    rewrite (var_read_offset _ a x b) by done. cbn [mbind outcome_bind]. rewrite <- E in *.
    unfold var_section. rewrite concat_map_middle.
    apply var_parse_image with (post := concat (List.map var_image b)); [|done].
    by apply Forall_middle in Hf.
Qed.

Lemma flat_count_image ks es :
  Forall (entry_fits ks) es -> size_fits ks es -> flat_count (flat_image ks es) ks = length es.
Proof.
  intros Hf Hs. destruct es as [|e es]; [done|].
  destruct (flat_image_nonempty ks e es Hf) as (b & bs & Hb). unfold flat_count. rewrite Hb, <- Hb.
  destruct ks as [ks|].
  - rewrite flat_image_Some, (length_concat_fixed ks) by done.
    apply Nat.div_mul. unfold WalPosition_LENGTH. lia.
  - by apply var_count_image.
Qed.

Lemma read_entries_spec read es idx :
  (forall a x b, es = a ++ x :: b -> read (idx + length a)%nat = Ok x) ->
  read_entries read idx (length es) = Ok es.
Proof.
  revert idx. induction es as [|e es IH]; intros idx Hr; cbn; [done|].
  pose proof (Hr [] e es eq_refl) as He. rewrite Nat.add_0_r in He. rewrite He. cbn.
  rewrite (IH (S idx)); [done|]. intros a x b ->. rewrite <- (Hr (e :: a) x b) by done.
  f_equal. cbn. lia.
Qed.

Lemma flat_iter_image ks es :
  Forall (entry_fits ks) es -> size_fits ks es -> flat_iter (flat_image ks es) ks = Ok es.
Proof.
  intros Hf Hs. destruct es as [|e es]; [done|].
  destruct (flat_image_nonempty ks e es Hf) as (bt & bs & Hb). unfold flat_iter. rewrite Hb, <- Hb.
  pose proof (fun a x b E => flat_entry_at_image ks (e :: es) a x b E Hf Hs) as Hat.
  destruct ks as [ks|]; cbv zeta.
  - rewrite flat_image_Some, (length_concat_fixed ks), Nat.div_mul by (done || unfold WalPosition_LENGTH; lia).
    apply read_entries_spec. intros a x b Heq. rewrite <- flat_image_Some with (ks := ks).
    by apply (Hat a x b).
  - rewrite var_count_image by done. cbn [Nat.ltb]. destruct (Nat.ltb_spec 0 (length (e :: es))); [|cbn in *; lia].
    rewrite var_slice_section. cbn [mbind outcome_bind].
    apply read_entries_spec. intros a x b Heq. pose proof (Hat a x b Heq) as H'.
    unfold flat_entry_at in H'. rewrite var_count_image, var_slice_section in H' by done. exact H'.
Qed.

(** ** The binary searches *)

(** A predicate that holds on a prefix of every ascending list. *)
Definition downward (right : list Z -> bool) : Prop :=
  forall k k', klt k k' -> right k' = true -> right k = true.

Lemma downward_lt t : downward (fun k => kltb k t).
Proof.
  intros k k' Hlt. destruct (kltb_spec k' t), (kltb_spec k t); try done. intros _.
  destruct n. by eapply klt_trans.
Qed.

Lemma downward_le t : downward (fun k => kleb k t).
Proof.
  intros k k' Hlt. destruct (kleb_spec k' t) as [Hle|], (kleb_spec k t) as [|Hn]; try done. intros _.
  destruct Hn. apply kle_iff. left. by eapply klt_le_trans.
Qed.

Lemma sorted_split (right : list Z -> bool) (es : list entry) :
  bt_sorted es -> downward right ->
  es = List.filter (fun e => right e.1) es ++ List.filter (fun e => negb (right e.1)) es.
Proof.
  intros Hs Hd. induction es as [|[k v] es IH]; [done|].
  pose proof Hs as [Hs' Hf]%bt_sorted_cons. cbn. destruct (right k) eqn:E; cbn.
  - f_equal. by apply IH.
  - assert (Forall (fun e : entry => right e.1 = false) es) as Hall.
    { eapply Forall_impl; [done|]. cbn. intros [k' v'] Hlt. cbn in *.
      destruct (right k') eqn:E'; [|done]. by rewrite (Hd _ _ Hlt E') in E. }
    rewrite filter_none by done. rewrite filter_all; [done|].
    eapply Forall_impl; [done|]. intros x Hx. cbn in *. by rewrite Hx.
Qed.

Lemma flat_bound_loop_image ks es right fuel lo hi :
  flat_repr (flat_image ks es) ks es -> downward right ->
  let cnt := length (List.filter (fun e => right e.1) es) in
  (lo <= cnt <= hi)%nat -> (hi <= length es)%nat -> (hi - lo < fuel)%nat ->
  flat_bound_loop fuel (flat_image ks es) ks right lo hi = Ok cnt.
Proof.
  intros (_ & Hs & Hf & Hsz) Hd cnt. revert lo hi.
  induction fuel as [|fuel IH]; intros lo hi Hc Hh Hfuel; [lia|]. cbn [flat_bound_loop].
  destruct (Nat.ltb_spec lo hi) as [Hlt|]; [|f_equal; lia].
  set (mid := ((lo + hi) / 2)%nat).
  assert (lo <= mid < hi)%nat as Hmid.
  { unfold mid. split; [apply Nat.div_le_lower_bound|apply Nat.Div0.div_lt_upper_bound]; lia. }
  assert (exists a x b, es = a ++ x :: b /\ length a = mid) as (a & x & b & Hes & Ha).
  { destruct (es !! mid) as [x|] eqn:E.
    - exists (take mid es), x, (drop (S mid) es). split; [by rewrite take_drop_middle|].
      rewrite length_take. lia.
    - apply lookup_ge_None in E. lia. }
  rewrite <- Ha. rewrite (flat_entry_at_image ks es a x b) by done. cbn [mbind outcome_bind].
  destruct x as [k v]. rewrite Ha.
  assert (es !! mid = Some (k, v)) as Hlk.
  { rewrite Hes. rewrite lookup_app_r by lia. by rewrite Ha, Nat.sub_diag. }
  pose proof (sorted_split right es Hs Hd) as Hsp.
  rewrite Hsp in Hlk. destruct (right k) eqn:E.
  - destruct (Nat.le_gt_cases cnt mid) as [Hge|?]; [exfalso|apply IH; lia].
    rewrite lookup_app_r in Hlk by done. apply list_elem_of_lookup_2, list_elem_of_In, filter_In in Hlk
      as [_ Hr]. cbn in Hr. by rewrite E in Hr.
  - destruct (Nat.le_gt_cases cnt mid) as [Hge|Hlt']; [apply IH; lia|exfalso].
    rewrite lookup_app_l in Hlk by done. apply list_elem_of_lookup_2, list_elem_of_In, filter_In in Hlk
      as [_ Hr]. cbn in Hr. by rewrite E in Hr.
Qed.

Lemma flat_bound_image ks es right :
  flat_repr (flat_image ks es) ks es -> downward right ->
  flat_bound_loop (S (flat_count (flat_image ks es) ks)) (flat_image ks es) ks right 0
    (flat_count (flat_image ks es) ks) =
  Ok (length (List.filter (fun e => right e.1) es)).
Proof.
  intros Hr Hd. pose proof Hr as (_ & _ & Hf & Hs). rewrite flat_count_image by done.
  apply flat_bound_loop_image; [done|done| |lia|lia]. split; [lia|]. apply List.filter_length_le.
Qed.

(** [flat_lower_bound] is the number of keys below the target. *)
Lemma flat_lower_bound_repr flat ks es target :
  flat_repr flat ks es ->
  flat_lower_bound flat ks target = Ok (length (bt_below target es)).
Proof.
  intros Hr. pose proof Hr as (Heq & _). subst flat.
  unfold flat_lower_bound, bt_below. cbv zeta.
  by rewrite (flat_bound_image ks es (fun k => kltb k target)) by (done || apply downward_lt).
Qed.

(** [flat_upper_bound] is the number of keys at or below the target. *)
Lemma flat_upper_bound_repr flat ks es target :
  flat_repr flat ks es ->
  flat_upper_bound flat ks target = Ok (length (bt_upto target es)).
Proof.
  intros Hr. pose proof Hr as (Heq & _). subst flat.
  unfold flat_upper_bound, bt_upto. cbv zeta.
  by rewrite (flat_bound_image ks es (fun k => kleb k target)) by (done || apply downward_le).
Qed.

(** ** The abstraction relation *)

Lemma flat_repr_nil ks : flat_repr [] ks [].
Proof. split; [done|]. split; [constructor|]. split; [done|]. destruct ks; done. Qed.

Lemma flat_repr_iter flat ks es : flat_repr flat ks es -> flat_iter flat ks = Ok es.
Proof. intros (-> & _ & Hf & Hs). by apply flat_iter_image. Qed.

Lemma flat_repr_count flat ks es : flat_repr flat ks es -> flat_count flat ks = length es.
Proof. intros (-> & _ & Hf & Hs). by apply flat_count_image. Qed.

Lemma flat_repr_empty flat ks es : flat_repr flat ks es -> flat = [] <-> es = [].
Proof.
  intros (-> & _ & Hf & _). destruct es as [|e es]; [done|].
  destruct (flat_image_nonempty ks e es Hf) as (b & bs & ->). done.
Qed.

Lemma flat_repr_at flat ks es a x b :
  flat_repr flat ks es -> es = a ++ x :: b -> flat_entry_at flat ks (length a) = Ok x.
Proof. intros (-> & _ & Hf & Hs) Hes. by apply flat_entry_at_image with (b := b). Qed.

Lemma flat_repr_build es ks :
  bt_sorted es -> Forall (entry_fits ks) es -> size_fits ks es ->
  exists flat, build_flat_bytes es ks = Ok flat /\ flat_repr flat ks es.
Proof.
  intros Hso Hf Hs. exists (flat_image ks es). split; [by apply build_flat_bytes_image|].
  done.
Qed.

(** A part of a list that fits, fits. *)
Lemma size_fits_filter ks f es : size_fits ks es -> size_fits ks (List.filter f es).
Proof.
  destruct ks as [|]; [done|]. unfold size_fits. intros Hs. etrans; [|done].
  apply Nat2Z.inj_le. clear Hs. induction es as [|e es IH]; [done|]. cbn [List.filter].
  replace (var_section (e :: es)) with (var_image e ++ var_section es) by done.
  rewrite length_app. destruct (f e).
  - replace (var_section (e :: List.filter f es)) with (var_image e ++ var_section (List.filter f es)) by done.
    rewrite length_app. lia.
  - lia.
Qed.

(** The flat buffer is a faithful sorted map: entries built into it, in
    either key layout, are read back by iteration, counted, and found at their
    index; the binary searches return the number of keys below, and not above,
    the target. *)
Lemma flat_build_read ks es :
  bt_sorted es -> Forall (entry_fits ks) es -> size_fits ks es ->
  exists flat, build_flat_bytes es ks = Ok flat /\ flat_iter flat ks = Ok es /\
    flat_count flat ks = length es /\
    (forall i e, es !! i = Some e -> flat_entry_at flat ks i = Ok e) /\
    forall target,
      flat_lower_bound flat ks target = Ok (length (bt_below target es)) /\
      flat_upper_bound flat ks target = Ok (length (bt_upto target es)).
Proof.
  intros Hs Hf Hz. destruct (flat_repr_build es ks Hs Hf Hz) as (flat & Hb & Hr). exists flat.
  split_and!; [done|by apply flat_repr_iter|by apply flat_repr_count| |].
  - intros i e He. apply list_elem_of_split_length in He as (a & b & Heq & ->). by eapply flat_repr_at.
  - intros target. split; [by apply flat_lower_bound_repr|by apply flat_upper_bound_repr].
Qed.

