(* ===== verification/IndexTable.v ===== *)
(** * The in-memory index table

    [src/tidehunter/src/index/index_table/mod.rs]: the per-cell index, a write
    buffer [data] (every key with its ascending WAL positions) over the compact
    sorted buffer [flat].  Definitions only; [IndexTableFacts] and the files
    after it verify them.

    Slices kept sorted by the code are searched with the standard library's
    [binary_search] and [partition_point]; on a sorted slice these return the
    match or the insertion point, which is how they are written here. *)

From Stdlib Require Import ZArith Lia List Sorting.Sorted.
From stdpp Require Import base tactics list strings.
From S2P Require Import Prelude BTree Bytes Position Flat.

Local Open Scope Z_scope.

(** ** Data *)

(** [it_key_bytes] and [it_dirty_count] are counters of memory-resident items;
    they are kept as plain integers. *)
Record IndexTable := mkIT {
  it_data : overlay;
  it_key_bytes : Z;
  it_dirty_count : Z;
  it_flat : list Z;
  it_key_size : option nat;
}.

Definition it_default : IndexTable := mkIT [] 0 0 [] None.

Inductive WriteOrder := Latest | Stale.

Inductive Direction := Forward | Backward.

#[export] Instance Direction_eq_dec : EqDecision Direction.
Proof. solve_decision. Defined.

Definition direction_from_bool (reverse : bool) : Direction :=
  if reverse then Backward else Forward.

Definition adjust_dirty_count (dirty_count : Z) (was_dirty is_dirty : bool) : Z :=
  match was_dirty, is_dirty with
  | true, false => dirty_count - 1
  | false, true => dirty_count + 1
  | _, _ => dirty_count
  end.

(** [#[derive(Ord)]] on [IndexWalPosition]: offset, then length, then kind. *)
Definition iwp_cmp (a b : IndexWalPosition) : comparison :=
  match iwp_offset a ?= iwp_offset b with
  | Eq =>
      match iwp_len a ?= iwp_len b with
      | Eq => kind_to_u8 (iwp_kind a) ?= kind_to_u8 (iwp_kind b)
      | c => c
      end
  | c => c
  end.

(** ** The data overlay *)

Definition data_get_latest (t : IndexTable) (key : list Z) : outcome (option IndexWalPosition) :=
  match bt_get key (it_data t) with
  | None => Ok None
  | Some positions =>
      p ← expect (last positions) "data positions are never empty"; Ok (Some p)
  end.

(** [positions.insert(slot, v)] *)
Definition insert_at {A} (slot : nat) (v : A) (l : list A) : list A :=
  take slot l ++ v :: drop slot l.

(** [partition_point]: the length of the leading run satisfying [f]. *)
Fixpoint partition_point {A} (f : A -> bool) (l : list A) : nat :=
  match l with
  | [] => 0
  | x :: l' => if f x then S (partition_point f l') else 0
  end.

Definition data_insert_sorted (data : overlay) (key : list Z) (iwp : IndexWalPosition) : overlay :=
  let positions := default [] (bt_get key data) in
  let slot := partition_point (fun p => match iwp_cmp p iwp with Lt => true | _ => false end) positions in
  match positions !! slot with
  | Some p =>
      if bool_decide (p = iwp) then bt_insert key positions data
      else bt_insert key (insert_at slot iwp positions) data
  | None => bt_insert key (insert_at slot iwp positions) data
  end.

Definition processed_prefix (positions : list IndexWalPosition) (last_processed : LastProcessed) :
    list IndexWalPosition :=
  take (partition_point (is_processed last_processed) positions) positions.

Definition data_get_latest_processed (t : IndexTable) (key : list Z)
    (last_processed : LastProcessed) : option IndexWalPosition :=
  match bt_get key (it_data t) with
  | None => None
  | Some positions => last (processed_prefix positions last_processed)
  end.

Definition data_contains_key (t : IndexTable) (key : list Z) : bool := bt_mem key (it_data t).

Definition data_iter_latest (t : IndexTable) : outcome (list entry) :=
  data_latest_per_key (it_data t).

Definition data_unique_key_count (t : IndexTable) : nat := length (it_data t).

(** [self.data.range(..)] after [prev], or before it in reverse. *)
Definition data_range (t : IndexTable) (prev : option (list Z)) (d : Direction) : overlay :=
  match prev, d with
  | None, _ => it_data t
  | Some p, Forward => bt_above p (it_data t)
  | Some p, Backward => bt_below p (it_data t)
  end.

Definition with_latest (kv : option (list Z * list IndexWalPosition)) : outcome (option entry) :=
  match kv with
  | None => Ok None
  | Some (k, positions) =>
      p ← expect (last positions) "data positions are never empty"; Ok (Some (k, p))
  end.

Definition data_next_forward (t : IndexTable) (prev : option (list Z)) : outcome (option entry) :=
  with_latest (head (data_range t prev Forward)).

Definition data_next_reverse (t : IndexTable) (prev : option (list Z)) : outcome (option entry) :=
  with_latest (last (data_range t prev Backward)).

(** The latest processed position, found from the back of the list. *)
Definition latest_processed (last_processed : LastProcessed) (positions : list IndexWalPosition) :
    option IndexWalPosition :=
  head (List.filter (is_processed last_processed) (rev positions)).

(** [find_map] over a range of the overlay. *)
Fixpoint find_processed (last_processed : LastProcessed) (l : overlay) : option entry :=
  match l with
  | [] => None
  | (k, positions) :: l' =>
      match latest_processed last_processed positions with
      | Some v => Some (k, v)
      | None => find_processed last_processed l'
      end
  end.

Definition data_next_forward_at (t : IndexTable) (prev : option (list Z))
    (last_processed : LastProcessed) : option entry :=
  find_processed last_processed (data_range t prev Forward).

Definition data_next_reverse_at (t : IndexTable) (prev : option (list Z))
    (last_processed : LastProcessed) : option entry :=
  find_processed last_processed (rev (data_range t prev Backward)).

(** ** Counters *)

Definition dirty_len (es : list entry) : Z :=
  Z.of_nat (length (List.filter (fun e => negb (is_clean e.2)) es)).

Definition keys_len (es : list entry) : Z :=
  fold_right (fun e acc => Z.of_nat (length e.1) + acc) 0 es.

Definition recount_data_stats (t : IndexTable) : outcome (Z * Z) :=
  latest ← data_iter_latest t;
  Ok (keys_len latest, dirty_len latest).

Definition recount_stats (t : IndexTable) : outcome (Z * Z) :=
  es ← flat_iter (it_flat t) (it_key_size t);
  '(key_bytes, data_dirty) ← recount_data_stats t;
  Ok (key_bytes, dirty_len es + data_dirty).

(** [let (kb, dc) = self.recount_stats(); self.key_bytes = kb; self.dirty_count = dc;] *)
Definition refresh_stats (t : IndexTable) : outcome IndexTable :=
  '(kb, dc) ← recount_stats t;
  Ok (mkIT (it_data t) kb dc (it_flat t) (it_key_size t)).

(** ** Live writes *)

Definition checked_insert (t : IndexTable) (k : list Z) (v : IndexWalPosition) :
    outcome (IndexTable * WriteOrder) :=
  match bt_get k (it_data t) with
  | Some positions =>
      prev ← expect (last positions) "called `Option::unwrap()` on a `None` value";
      if iwp_offset v <? iwp_offset prev then
        let slot := partition_point (fun p => iwp_offset p <? iwp_offset v) positions in
        match positions !! slot with
        | Some p =>
            if iwp_offset p =? iwp_offset v then Panic "Index WAL position must be unique per key"
            else
              Ok (mkIT (bt_insert k (insert_at slot v positions) (it_data t)) (it_key_bytes t)
                    (it_dirty_count t) (it_flat t) (it_key_size t), Stale)
        | None =>
            Ok (mkIT (bt_insert k (insert_at slot v positions) (it_data t)) (it_key_bytes t)
                  (it_dirty_count t) (it_flat t) (it_key_size t), Stale)
        end
      else
        _ ← assert_that (iwp_offset prev <? iwp_offset v) "Index WAL position must be unique per key";
        Ok (mkIT (bt_insert k (positions ++ [v]) (it_data t)) (it_key_bytes t)
              (adjust_dirty_count (it_dirty_count t) (negb (is_clean prev)) (negb (is_clean v)))
              (it_flat t) (it_key_size t), Latest)
  | None =>
      Ok (mkIT (bt_insert k [v] (it_data t)) (it_key_bytes t + Z.of_nat (length k))
            (adjust_dirty_count (it_dirty_count t) false (negb (is_clean v)))
            (it_flat t) (it_key_size t), Latest)
  end.

Definition it_insert (t : IndexTable) (k : list Z) (v : WalPosition) : outcome (IndexTable * WriteOrder) :=
  checked_insert t k (iwp_new_modified v).

Definition it_remove (t : IndexTable) (k : list Z) (v : WalPosition) : outcome (IndexTable * WriteOrder) :=
  checked_insert t k (iwp_new_removed v).

(** ** Lookups *)

(** Reads the flat entry at a bound found by a search, if it is in range. *)
Definition flat_entry_in_range (t : IndexTable) (idx : nat) : outcome (option entry) :=
  if (flat_count (it_flat t) (it_key_size t) <=? idx)%nat then Ok None
  else e ← flat_entry_at (it_flat t) (it_key_size t) idx; Ok (Some e).

Definition flat_binary_search (t : IndexTable) (key : list Z) : outcome (option IndexWalPosition) :=
  match it_flat t with
  | [] => Ok None
  | _ =>
      idx ← flat_lower_bound (it_flat t) (it_key_size t) key;
      found ← flat_entry_in_range t idx;
      Ok (match found with
          | Some (found_key, iwp) => if keqb found_key key then Some iwp else None
          | None => None
          end)
  end.

Definition flat_next_forward (t : IndexTable) (prev : option (list Z)) :
    outcome (option (list Z * WalPosition)) :=
  match it_flat t with
  | [] => Ok None
  | _ =>
      idx ← (match prev with
             | Some p => flat_upper_bound (it_flat t) (it_key_size t) p
             | None => Ok 0%nat
             end);
      found ← flat_entry_in_range t idx;
      Ok (match found with Some (k, iwp) => Some (k, into_wal_position iwp) | None => None end)
  end.

Definition flat_next_reverse (t : IndexTable) (prev : option (list Z)) :
    outcome (option (list Z * WalPosition)) :=
  match it_flat t with
  | [] => Ok None
  | _ =>
      bound ← (match prev with
               | Some p => flat_lower_bound (it_flat t) (it_key_size t) p
               | None => Ok (flat_count (it_flat t) (it_key_size t))
               end);
      if (bound =? 0)%nat then Ok None
      else
        '(k, iwp) ← flat_entry_at (it_flat t) (it_key_size t) (bound - 1);
        Ok (Some (k, into_wal_position iwp))
  end.

Definition it_contains_key (t : IndexTable) (k : list Z) : outcome bool :=
  if data_contains_key t k then Ok true
  else f ← flat_binary_search t k; Ok (match f with Some _ => true | None => false end).

Definition it_get (t : IndexTable) (k : list Z) : outcome (option WalPosition) :=
  latest ← data_get_latest t k;
  match latest with
  | Some p => Ok (Some (into_wal_position p))
  | None => f ← flat_binary_search t k; Ok (option_map into_wal_position f)
  end.

Definition it_get_at (t : IndexTable) (k : list Z) (last_processed : LastProcessed) :
    outcome (option WalPosition) :=
  match data_get_latest_processed t k last_processed with
  | Some p => Ok (Some (into_wal_position p))
  | None => f ← flat_binary_search t k; Ok (option_map into_wal_position f)
  end.

(** ** Ordered walks *)

(** The choice between the overlay's and the flat buffer's candidate: the
    nearer key wins, the overlay on ties. *)
Definition pick_candidate (data_cand : option entry) (flat_cand : option (list Z * WalPosition))
    (direction : Direction) : option (list Z * WalPosition) :=
  match data_cand, flat_cand with
  | None, None => None
  | Some (bk, bv), None => Some (bk, into_wal_position bv)
  | None, Some (fk, fv) => Some (fk, fv)
  | Some (bk, bv), Some (fk, fv) =>
      let data_wins :=
        match direction with
        | Forward => match kcmp bk fk with Gt => false | _ => true end
        | Backward => match kcmp bk fk with Lt => false | _ => true end
        end in
      if data_wins : bool then Some (bk, into_wal_position bv) else Some (fk, fv)
  end.

Definition next_entry_directional (t : IndexTable) (prev : option (list Z)) (direction : Direction) :
    outcome (option (list Z * WalPosition)) :=
  data_cand ← (match direction with
               | Forward => data_next_forward t prev
               | Backward => data_next_reverse t prev
               end);
  flat_cand ← (match direction with
               | Forward => flat_next_forward t prev
               | Backward => flat_next_reverse t prev
               end);
  Ok (pick_candidate data_cand flat_cand direction).

Definition next_entry_directional_at (t : IndexTable) (prev : option (list Z)) (direction : Direction)
    (last_processed : LastProcessed) : outcome (option (list Z * WalPosition)) :=
  let data_cand :=
    match direction with
    | Forward => data_next_forward_at t prev last_processed
    | Backward => data_next_reverse_at t prev last_processed
    end in
  flat_cand ← (match direction with
               | Forward => flat_next_forward t prev
               | Backward => flat_next_reverse t prev
               end);
  Ok (pick_candidate data_cand flat_cand direction).

Definition next_entry (t : IndexTable) (prev : option (list Z)) (reverse : bool) :
    outcome (option (list Z * WalPosition)) :=
  next_entry_directional t prev (direction_from_bool reverse).

Definition next_entry_at (t : IndexTable) (prev : option (list Z)) (reverse : bool)
    (last_processed : LastProcessed) : outcome (option (list Z * WalPosition)) :=
  next_entry_directional_at t prev (direction_from_bool reverse) last_processed.

Definition iter_combined (t : IndexTable) : outcome (list entry) :=
  flat_es ← flat_iter (it_flat t) (it_key_size t);
  latest ← data_iter_latest t;
  Ok (ordered_merge flat_es latest).

Definition iter_inner (t : IndexTable) (include_tombstones : bool) :
    outcome (list (list Z * WalPosition)) :=
  es ← iter_combined t;
  Ok (List.filter (fun kp => include_tombstones || wp_is_valid kp.2)
        (List.map (fun e => (e.1, into_wal_position e.2)) es)).

Definition it_iter (t : IndexTable) : outcome (list (list Z * WalPosition)) := iter_inner t false.

Definition iter_with_tombstones (t : IndexTable) : outcome (list (list Z * WalPosition)) :=
  iter_inner t true.

Definition it_keys (t : IndexTable) : outcome (list (list Z)) :=
  es ← iter_combined t;
  Ok (List.map fst (List.filter (fun e => negb (is_removed e.2)) es)).

Definition it_len (t : IndexTable) : nat :=
  flat_count (it_flat t) (it_key_size t) + data_unique_key_count t.

Definition it_is_empty (t : IndexTable) : bool :=
  match it_data t, it_flat t with [], [] => true | _, _ => false end.

(** [into_entries]: the live entries of a flat-only table. *)
Definition into_entries (t : IndexTable) : outcome (list (list Z * WalPosition)) :=
  _ ← assert_that (match it_data t with [] => true | _ => false end)
        "into_entries: the table must be flat-only";
  let count := flat_count (it_flat t) (it_key_size t) in
  es ← read_entries (flat_entry_at (it_flat t) (it_key_size t)) 0 count;
  Ok (List.filter (fun kp => wp_is_valid kp.2)
        (List.map (fun e => (e.1, into_wal_position e.2)) es)).
