(* ===== verification/IndexOps.v ===== *)
(** * Bulk operations of the index table

    The rest of [src/tidehunter/src/index/index_table/mod.rs]: promotion of the
    write buffer into the flat buffer, the merges and filters of the flush path,
    compaction, and the on-disk serialization.  Definitions only. *)

From Stdlib Require Import ZArith Lia List Sorting.Sorted.
From stdpp Require Import base tactics list strings.
From S2P Require Import Prelude BTree Bytes Position Flat IndexTable.

Local Open Scope Z_scope.

(** ** Promotion *)

Definition PROMOTE_THRESHOLD : nat := 128.
Definition PROMOTE_POSITIONS_THRESHOLD : nat := 1024.

Definition positions_processed (last_processed : LastProcessed)
    (positions : list IndexWalPosition) : outcome bool :=
  latest ← expect (last positions) "data positions are never empty";
  Ok (is_processed last_processed latest).

Fixpoint drainable_positions (last_processed : LastProcessed) (data : overlay) : outcome nat :=
  match data with
  | [] => Ok 0%nat
  | (_, positions) :: rest =>
      b ← positions_processed last_processed positions;
      n ← drainable_positions last_processed rest;
      Ok (if (b : bool) then (length positions + n)%nat else n)
  end.

Definition drainable_position_count (t : IndexTable) (last_processed : LastProcessed) : outcome nat :=
  drainable_positions last_processed (it_data t).

Definition should_promote (t : IndexTable) (key_threshold : nat) (last_processed : LastProcessed) :
    outcome bool :=
  if (key_threshold <? data_unique_key_count t)%nat then Ok true
  else
    n ← drainable_position_count t last_processed;
    Ok (PROMOTE_POSITIONS_THRESHOLD <? n)%nat.

Definition should_promote_to_flat (t : IndexTable) (last_processed : LastProcessed) : outcome bool :=
  should_promote t PROMOTE_THRESHOLD last_processed.

(** [drop_data_keys]: keeps the keys whose latest position satisfies [f]. *)
Fixpoint drop_data_keys (data : overlay) (f : list Z -> IndexWalPosition -> bool) : outcome overlay :=
  match data with
  | [] => Ok []
  | (k, positions) :: rest =>
      latest ← expect (last positions) "data positions are never empty";
      rest ← drop_data_keys rest f;
      Ok (if f k latest then (k, positions) :: rest else rest)
  end.

Definition promote_to_flat_unconditionally (t : IndexTable) (last_processed : LastProcessed) :
    outcome IndexTable :=
  '(new_flat, flat_dirty) ← merge_into_flat (it_flat t) (it_key_size t) (it_data t) last_processed;
  data ← drop_data_keys (it_data t) (fun _ v => negb (is_processed last_processed v));
  let t := mkIT data (it_key_bytes t) (it_dirty_count t) new_flat (it_key_size t) in
  '(data_key_bytes, data_dirty) ← recount_data_stats t;
  Ok (mkIT data data_key_bytes (Z.of_nat flat_dirty + data_dirty) new_flat (it_key_size t)).

Definition promote_to_flat_inner (t : IndexTable) (threshold : nat) (last_processed : LastProcessed) :
    outcome (IndexTable * bool) :=
  b ← should_promote t threshold last_processed;
  if negb b then Ok (t, false)
  else t ← promote_to_flat_unconditionally t last_processed; Ok (t, true).

Definition promote_to_flat (t : IndexTable) (last_processed : LastProcessed) :
    outcome (IndexTable * bool) :=
  promote_to_flat_inner t PROMOTE_THRESHOLD last_processed.

(** ** Merging a dirty overlay into a loaded base *)

(** The demotion of the flush path: a non-tombstone becomes clean. *)
Definition demote (promote_to_clean : bool) (iwp : IndexWalPosition) : IndexWalPosition :=
  if promote_to_clean && negb (is_removed iwp) then mkIWP (iwp_offset iwp) (iwp_len iwp) Clean
  else iwp.

Definition merge_dirty_data (data dirty : overlay) (promote_to_clean : bool) : overlay :=
  fold_left
    (fun data kp =>
       fold_left (fun data v => data_insert_sorted data kp.1 (demote promote_to_clean v)) kp.2 data)
    dirty data.

(** [fold_dirty_flat]: the table with the merged flat, and the number of dirty
    entries in it. *)
Definition fold_dirty_flat (self dirty : IndexTable) (promote_to_clean : bool) :
    outcome (IndexTable * Z) :=
  let key_size := match it_flat self with [] => it_key_size dirty | _ => it_key_size self end in
  self_es ← flat_iter (it_flat self) key_size;
  dirty_es ← flat_iter (it_flat dirty) (it_key_size dirty);
  let merged :=
    ordered_merge self_es (List.map (fun e => (e.1, demote promote_to_clean e.2)) dirty_es) in
  let keys_from_dirty := List.filter (fun e => negb (data_contains_key dirty e.1)) dirty_es in
  let data := fold_left (fun data e => bt_remove e.1 data) keys_from_dirty (it_data self) in
  flat ← build_flat_bytes merged key_size;
  Ok (mkIT data (it_key_bytes self) (it_dirty_count self) flat key_size, dirty_len merged).

Definition merge_dirty (self dirty : IndexTable) (promote_to_clean : bool) : outcome IndexTable :=
  let self :=
    mkIT (merge_dirty_data (it_data self) (it_data dirty) promote_to_clean) (it_key_bytes self)
      (it_dirty_count self) (it_flat self) (it_key_size self) in
  '(self, flat_dirty) ←
    (match it_flat dirty with
     | [] => es ← flat_iter (it_flat self) (it_key_size self); Ok (self, dirty_len es)
     | _ => fold_dirty_flat self dirty promote_to_clean
     end);
  latest ← data_iter_latest self;
  Ok (mkIT (it_data self) (keys_len latest) (flat_dirty + dirty_len latest)
        (it_flat self) (it_key_size self)).

Definition merge_dirty_and_clean (self dirty : IndexTable) : outcome IndexTable :=
  merge_dirty self dirty true.

Definition merge_dirty_no_clean (self dirty : IndexTable) : outcome IndexTable :=
  merge_dirty self dirty false.

(** ** Removing what a flush made durable *)

(** The [while] of the single-pass diff: skips the flushed positions below
    [offset], remembering the last one skipped. *)
Fixpoint skip_flushed (offset : Z) (processed : list IndexWalPosition)
    (last_unmatched : option IndexWalPosition) :
    list IndexWalPosition * option IndexWalPosition :=
  match processed with
  | p :: rest =>
      if iwp_offset p <? offset then skip_flushed offset rest (Some p)
      else (processed, last_unmatched)
  | [] => ([], last_unmatched)
  end.

(** [live.retain(..)]: the positions kept, the flushed positions not reached,
    and the newest flushed position without a match. *)
Fixpoint unmerge_positions (processed live : list IndexWalPosition)
    (last_unmatched : option IndexWalPosition) :
    list IndexWalPosition * list IndexWalPosition * option IndexWalPosition :=
  match live with
  | [] => ([], processed, last_unmatched)
  | sv :: live' =>
      let '(processed, last_unmatched) := skip_flushed (iwp_offset sv) processed last_unmatched in
      match processed with
      | p :: rest =>
          if bool_decide (into_update_position p = into_update_position sv)
          then unmerge_positions rest live' last_unmatched
          else
            let '(kept, remaining, u) := unmerge_positions processed live' last_unmatched in
            (sv :: kept, remaining, u)
      | [] =>
          let '(kept, remaining, u) := unmerge_positions processed live' last_unmatched in
          (sv :: kept, remaining, u)
      end
  end.

(** The walk over [original.data]: the new overlay and [pending_flat]. *)
Fixpoint unmerge_data (data original : overlay) (pending_flat : list entry)
    (last_processed : LastProcessed) : overlay * list entry :=
  match original with
  | [] => (data, pending_flat)
  | (k, orig_positions) :: rest =>
      let processed := processed_prefix orig_positions last_processed in
      match last processed with
      | None => unmerge_data data rest pending_flat last_processed
      | Some newest =>
          match bt_get k data with
          | None => unmerge_data data rest (bt_insert k newest pending_flat) last_processed
          | Some live =>
              let '(kept, remaining, u) := unmerge_positions processed live None in
              let u := match remaining with [] => u | _ => Some newest end in
              let pending_flat := match u with Some v => bt_insert k v pending_flat | None => pending_flat end in
              let data := match kept with [] => bt_remove k data | _ => bt_insert k kept data end in
              unmerge_data data rest pending_flat last_processed
          end
      end
  end.

(** [while orig_it.peek() < sk { orig_it.next(); }] *)
Fixpoint skip_smaller (sk : list Z) (orig : list entry) : list entry :=
  match orig with
  | (ok, _) :: rest => if kltb ok sk then skip_smaller sk rest else orig
  | [] => []
  end.

(** The rebuild of [self.flat]: the entries kept. *)
Fixpoint unmerge_flat (self_es orig_es pending_flat : list entry) : list entry :=
  match self_es with
  | [] => []
  | (sk, s_iwp) :: rest =>
      let orig_es := skip_smaller sk orig_es in
      let '(remove_by_flat, orig_es) :=
        match orig_es with
        | (ok, o_iwp) :: orig_rest =>
            if keqb ok sk
            then (bool_decide (into_update_position s_iwp = into_update_position o_iwp), orig_rest)
            else (false, orig_es)
        | [] => (false, [])
        end in
      let remove_by_data :=
        negb remove_by_flat &&
        match bt_get sk pending_flat with
        | Some o_iwp => bool_decide (into_update_position s_iwp = into_update_position o_iwp)
        | None => false
        end in
      let kept := unmerge_flat rest orig_es pending_flat in
      if negb remove_by_flat && negb remove_by_data then (sk, s_iwp) :: kept else kept
  end.

Definition unmerge_flushed (self original : IndexTable) (last_processed : LastProcessed) :
    outcome IndexTable :=
  let '(data, pending_flat) := unmerge_data (it_data self) (it_data original) [] last_processed in
  flat ←
    (match it_flat original, pending_flat with
     | [], [] => Ok (it_flat self)
     | _, _ =>
         orig_es ← flat_iter (it_flat original) (it_key_size original);
         self_es ← flat_iter (it_flat self) (it_key_size self);
         build_flat_bytes (unmerge_flat self_es orig_es pending_flat) (it_key_size self)
     end);
  refresh_stats (mkIT data (it_key_bytes self) (it_dirty_count self) flat (it_key_size self)).

(** ** Filters *)

Definition it_retain (t : IndexTable) (f : list Z -> IndexWalPosition -> bool) : outcome IndexTable :=
  data ← drop_data_keys (it_data t) f;
  refresh_stats (mkIT data (it_key_bytes t) (it_dirty_count t) (it_flat t) (it_key_size t)).

(** [filter_map] over the flat entries. *)
Definition filter_map_entries (keep : list Z -> IndexWalPosition -> option IndexWalPosition)
    (es : list entry) : list entry :=
  bt_omap keep es.

Definition retain_flat (t : IndexTable)
    (keep : list Z -> IndexWalPosition -> option IndexWalPosition) : outcome IndexTable :=
  match it_flat t with
  | [] => Ok t
  | _ =>
      es ← flat_iter (it_flat t) (it_key_size t);
      flat ← build_flat_bytes (filter_map_entries keep es) (it_key_size t);
      Ok (mkIT (it_data t) (it_key_bytes t) (it_dirty_count t) flat (it_key_size t))
  end.

(** The settled overlay of [clean_self]. *)
Definition clean_data (latest : list entry) : overlay :=
  bt_omap (fun _ p =>
             match iwp_kind p with
             | Clean => Some [p]
             | Modified => Some [mkIWP (iwp_offset p) (iwp_len p) Clean]
             | Removed => None
             end) latest.

Definition clean_self (t : IndexTable) : outcome IndexTable :=
  latest ← data_iter_latest t;
  let tombstoned := List.filter (fun e => is_removed e.2) latest in
  let t := mkIT (clean_data latest) (it_key_bytes t) (it_dirty_count t) (it_flat t) (it_key_size t) in
  t ← retain_flat t
        (fun k iwp =>
           if is_removed iwp || bt_mem k tombstoned then None
           else Some (mkIWP (iwp_offset iwp) (iwp_len iwp) Clean));
  refresh_stats t.

(** Per-position filter of the overlay; keys left without positions go. *)
Definition retain_positions (f : IndexWalPosition -> bool) (data : overlay) : overlay :=
  List.filter (fun kp => negb (bool_decide (kp.2 = [])))
    (List.map (fun kp => (kp.1, List.filter f kp.2)) data).

Definition retain_unprocessed (t : IndexTable) (last_processed : LastProcessed) : outcome IndexTable :=
  let t := mkIT (retain_positions (fun v => negb (is_processed last_processed v)) (it_data t))
             (it_key_bytes t) (it_dirty_count t) [] (it_key_size t) in
  '(kb, dc) ← recount_data_stats t;
  Ok (mkIT (it_data t) kb dc (it_flat t) (it_key_size t)).

Definition has_unprocessed (t : IndexTable) (last_processed : LastProcessed) : bool :=
  existsb (fun kp => existsb (fun v => negb (is_processed last_processed v)) kp.2) (it_data t).

Definition retain_above_position (t : IndexTable) (last_processed : Z) : outcome IndexTable :=
  t ← retain_flat t (fun _ iwp => if last_processed <=? iwp_offset iwp then Some iwp else None);
  it_retain t (fun _ v => last_processed <=? iwp_offset v).

(** [compact_with]: the compactor maps the live keys to the set to retain. *)
Definition compact_with (t : IndexTable) (compactor : list (list Z) -> list (list Z)) :
    outcome IndexTable :=
  all_keys ← it_keys t;
  let to_retain := compactor all_keys in
  let retained := fun k => existsb (keqb k) to_retain in
  t ← retain_flat t (fun k iwp => if is_removed iwp || retained k then Some iwp else None);
  it_retain t (fun k v => is_removed v || retained k).

Definition retain_processed (t : IndexTable) (last_processed : LastProcessed) : outcome IndexTable :=
  refresh_stats
    (mkIT (retain_positions (is_processed last_processed) (it_data t)) (it_key_bytes t)
       (it_dirty_count t) (it_flat t) (it_key_size t)).

Definition rebase_on_as_of (t as_of : IndexTable) (last_processed : LastProcessed) :
    outcome IndexTable :=
  let post_frontier :=
    flat_map (fun kp => List.map (fun v => (kp.1, v))
                          (List.filter (fun v => negb (is_processed last_processed v)) kp.2))
      (it_data t) in
  let data := fold_left (fun data e => data_insert_sorted data e.1 e.2) post_frontier (it_data as_of) in
  refresh_stats
    (mkIT data (it_key_bytes as_of) (it_dirty_count as_of) (it_flat as_of) (it_key_size as_of)).

Definition apply_update (t : IndexTable) (key : list Z)
    (update : IndexWalPosition -> IndexWalPosition) : outcome IndexTable :=
  found ← data_get_latest t key;
  match found with
  | Some latest =>
      let new_iwp := update latest in
      let dirty := adjust_dirty_count (it_dirty_count t) (negb (is_clean latest)) (negb (is_clean new_iwp)) in
      positions ← expect (bt_get key (it_data t)) "data_get_latest found the key";
      let positions := removelast positions in
      let data := data_insert_sorted (bt_insert key positions (it_data t)) key new_iwp in
      Ok (mkIT data (it_key_bytes t) dirty (it_flat t) (it_key_size t))
  | None =>
      found ← flat_binary_search t key;
      match found with
      | None => Ok t
      | Some original =>
          let iwp := update original in
          if bool_decide (iwp = original) then Ok t
          else
            let dirty := adjust_dirty_count (it_dirty_count t) (negb (is_clean original)) (negb (is_clean iwp)) in
            Ok (mkIT (bt_insert key [iwp] (it_data t)) (it_key_bytes t + Z.of_nat (length key))
                  dirty (it_flat t) (it_key_size t))
      end
  end.

Definition total_key_bytes (t : IndexTable) : Z := it_key_bytes t + Z.of_nat (length (it_flat t)).

(** ** Serialization *)

Definition from_varlen_flat_bytes (flat : list Z) : IndexTable := mkIT [] 0 0 flat None.

Definition from_sorted_entries (entries : list entry) : outcome IndexTable :=
  flat ← build_flat_bytes entries None;
  Ok (mkIT [] 0 (dirty_len entries) flat None).

(** [write_key_val]; the visitor calls are accumulated in [visits]. *)
Definition write_key_val (index_key_size : option nat) (out : list Z) (visits : list (list Z * nat))
    (key : list Z) (pos : WalPosition) : outcome (list Z * list (list Z * nat)) :=
  let visits := visits ++ [(key, length out)] in
  out ← (match index_key_size with
         | Some expected_size =>
             if (length key =? expected_size)%nat then Ok out
             else Panic "Index contains key of unexpected length"
         | None =>
             if MAX_U16_VARINT <? Z.of_nat (length key) then Panic "Key length over the maximum allowed"
             else serialize_u16_varint (wrap16 (Z.of_nat (length key))) out
         end);
  Ok (wp_write_to_buf pos (out ++ key), visits).

Fixpoint write_entries (index_key_size : option nat) (es : list entry) (out : list Z)
    (visits : list (list Z * nat)) : outcome (list Z * list (list Z * nat)) :=
  match es with
  | [] => Ok (out, visits)
  | (key, iwp) :: rest =>
      let pos := if is_removed iwp then WalPosition_INVALID else into_update_position iwp in
      '(out, visits) ← write_key_val index_key_size out visits key pos;
      write_entries index_key_size rest out visits
  end.

Definition serialize_index_entries_with_visitor (t : IndexTable) (index_key_size : option nat)
    (out : list Z) (visits : list (list Z * nat)) : outcome (list Z * list (list Z * nat)) :=
  match it_flat t with
  | [] => es ← data_iter_latest t; write_entries index_key_size es out visits
  | _ =>
      flat_es ← flat_iter (it_flat t) (it_key_size t);
      latest ← data_iter_latest t;
      write_entries index_key_size (ordered_merge flat_es latest) out visits
  end.

Definition serialize_index_entries (t : IndexTable) (index_key_size : option nat) (out : list Z) :
    outcome (list Z) :=
  '(out, _) ← serialize_index_entries_with_visitor t index_key_size out [];
  Ok out.

(** The sortedness check both deserializers make against the previous key. *)
Definition check_order (prev_key : option (list Z)) (key : list Z) : outcome unit :=
  match prev_key with
  | None => Ok tt
  | Some prev =>
      match kcmp prev key with
      | Lt => Ok tt
      | Eq => Panic "Duplicate keys detected in index"
      | Gt => Panic "Out-of-order keys detected in index (flat requires sorted input)"
      end
  end.

(** The validation pass over [chunks_exact(elem_size)]: checks the order and
    reports whether a tombstone was seen.  [count] chunks remain. *)
Fixpoint scan_fixed (key_size count : nat) (bytes : list Z) (prev_key : option (list Z))
    (has_tombstone : bool) : outcome bool :=
  match count with
  | O => Ok has_tombstone
  | S count' =>
      let elem_size := (key_size + WalPosition_LENGTH)%nat in
      let chunk := take elem_size bytes in
      key ← slice chunk 0 key_size;
      _ ← check_order prev_key key;
      o ← slice chunk key_size (key_size + 8);
      scan_fixed key_size count' (drop elem_size bytes) (Some key)
        (has_tombstone || (be_val o =? u64_max))
  end.

(** The decode loop of the slow path.  Every entry takes at least 12 bytes, so
    [fuel] above the buffer's length is enough. *)
Fixpoint decode_fixed (fuel key_size : nat) (bytes : list Z) : outcome (list entry) :=
  match fuel, bytes with
  | _, [] => Ok []
  | O, _ => Panic "out of fuel"
  | S fuel', _ =>
      key ← slice bytes 0 key_size;
      '(value, rest) ← wp_read_from_buf (drop key_size bytes);
      es ← decode_fixed fuel' key_size rest;
      Ok ((key, iwp_from_disk value) :: es)
  end.

Definition deserialize_fixed_size (key_size : nat) (bytes : list Z) : outcome IndexTable :=
  let elem_size := (key_size + WalPosition_LENGTH)%nat in
  _ ← assert_that (length bytes mod elem_size =? 0)%nat
        "fixed-size index blob length is not a multiple of element size";
  has_tombstone ← scan_fixed key_size (length bytes / elem_size) bytes None false;
  if negb has_tombstone then Ok (mkIT [] 0 0 bytes (Some key_size))
  else
    entries ← decode_fixed (S (length bytes)) key_size bytes;
    flat ← build_flat_bytes entries (Some key_size);
    Ok (mkIT [] 0 0 flat (Some key_size)).

Fixpoint decode_varlen (fuel : nat) (bytes : list Z) (prev_key : option (list Z)) :
    outcome (list entry) :=
  match fuel, bytes with
  | _, [] => Ok []
  | O, _ => Panic "out of fuel"
  | S fuel', _ =>
      '(key_len, rest) ← deserialize_u16_varint bytes;
      key ← slice rest 0 (Z.to_nat key_len);
      '(value, rest) ← wp_read_from_buf (drop (Z.to_nat key_len) rest);
      _ ← check_order prev_key key;
      es ← decode_varlen fuel' rest (Some key);
      Ok ((key, iwp_from_disk value) :: es)
  end.

Definition deserialize_varlen (bytes : list Z) : outcome IndexTable :=
  entries ← decode_varlen (S (length bytes)) bytes None;
  flat ← build_flat_bytes entries None;
  Ok (mkIT [] 0 0 flat None).

Definition deserialize_index_entries (index_key_size : option nat) (bytes : list Z) :
    outcome IndexTable :=
  match index_key_size with
  | Some key_size => deserialize_fixed_size key_size bytes
  | None => deserialize_varlen bytes
  end.
