(* ===== verification/IndexTableFacts.v ===== *)
(** * The index table: well-formedness, lookups and live writes

    What [IndexTable] (src/tidehunter/src/index/index_table/mod.rs) keeps as an
    invariant, its logical content (the newest write of a key, and the newest
    write below a frontier), and the theorems on lookups and on
    [checked_insert]. *)

From Stdlib Require Import ZArith Lia List Sorting.Sorted.
From stdpp Require Import base tactics list strings.
From S2P Require Import Prelude BTree Bytes Position Flat FlatFacts IndexTable.

Local Open Scope Z_scope.

(** ** A key's positions *)

(** Ascending strictly by offset: [offsets_strictly_ascending]. *)
Definition pos_sorted (ps : list IndexWalPosition) : Prop :=
  StronglySorted (fun p q => iwp_offset p < iwp_offset q) ps.

Definition positions_ok (ps : list IndexWalPosition) : Prop :=
  ps <> [] /\ pos_sorted ps /\ Forall iwp_fits ps.

(** The positions below a frontier. *)
Definition processed_of (lp : LastProcessed) (ps : list IndexWalPosition) : list IndexWalPosition :=
  List.filter (is_processed lp) ps.

(** The list with a write added at its place. *)
Definition pos_insert (v : IndexWalPosition) (ps : list IndexWalPosition) : list IndexWalPosition :=
  List.filter (fun p => iwp_offset p <? iwp_offset v) ps ++
  v :: List.filter (fun p => negb (iwp_offset p <? iwp_offset v)) ps.

Lemma pos_sorted_cons p ps :
  pos_sorted (p :: ps) <-> pos_sorted ps /\ Forall (fun q => iwp_offset p < iwp_offset q) ps.
Proof.
  unfold pos_sorted. split.
  - by inversion 1.
  - intros [? ?]. by constructor.
Qed.

Lemma pos_sorted_filter f ps : pos_sorted ps -> pos_sorted (List.filter f ps).
Proof.
  induction ps as [|p ps IH]; [done|]. intros [Hs Hf]%pos_sorted_cons. cbn.
  destruct (f p); [|by apply IH]. apply pos_sorted_cons. split; [by apply IH|].
  by apply Forall_List_filter.
Qed.

Lemma pos_sorted_app a b :
  pos_sorted (a ++ b) <->
  pos_sorted a /\ pos_sorted b /\
  forall p q, In p a -> In q b -> iwp_offset p < iwp_offset q.
Proof.
  induction a as [|x a IH]; cbn [app].
  - split; [|naive_solver]. intros ?. split; [constructor|]. naive_solver.
  - rewrite !pos_sorted_cons, IH, Forall_app, !List.Forall_forall. cbn [In]. naive_solver.
Qed.

Lemma pos_sorted_snoc ps v :
  pos_sorted (ps ++ [v]) <-> pos_sorted ps /\ Forall (fun q => iwp_offset q < iwp_offset v) ps.
Proof.
  rewrite pos_sorted_app, List.Forall_forall. cbn. split.
  - intros (? & _ & H). split; [done|]. intros. apply H; naive_solver.
  - intros [? H]. split_and!; [done| |naive_solver]. repeat constructor.
Qed.

(** Equal members at equal offsets. *)
Lemma pos_sorted_inj ps p q :
  pos_sorted ps -> In p ps -> In q ps -> iwp_offset p = iwp_offset q -> p = q.
Proof.
  induction ps as [|x ps IH]; [done|]. intros [Hs Hf]%pos_sorted_cons.
  rewrite List.Forall_forall in Hf. intros [->|Hp] [->|Hq] He; try done.
  - specialize (Hf _ Hq). lia.
  - specialize (Hf _ Hp). lia.
  - by apply IH.
Qed.

(** Sorted position lists with the same members are equal. *)
Lemma pos_sorted_ext ps qs :
  pos_sorted ps -> pos_sorted qs -> (forall p, In p ps <-> In p qs) -> ps = qs.
Proof.
  revert qs. induction ps as [|p ps IH]; intros [|q qs] Hp Hq He; [done| | |].
  - destruct (He q) as [_ []]. by left.
  - destruct (He p) as [[] _]. by left.
  - apply pos_sorted_cons in Hp as [Hp Fp]. apply pos_sorted_cons in Hq as [Hq Fq].
    rewrite List.Forall_forall in Fp, Fq.
    assert (p = q) as ->.
    { destruct (He p) as [[Hpq|Hpq] _]; [by left|done|].
      destruct (He q) as [_ [Hqp|Hqp]]; [by left|done|].
      specialize (Fp _ Hqp). specialize (Fq _ Hpq). lia. }
    f_equal. apply IH; [done|done|]. intros x. split; intros Hx.
    + destruct (He x) as [[<-|?] _]; [by right| |done]. specialize (Fp _ Hx). lia.
    + destruct (He x) as [_ [<-|?]]; [by right| |done]. specialize (Fq _ Hx). lia.
Qed.

(** The last position is the one of highest offset. *)
Lemma pos_last_spec ps p :
  pos_sorted ps ->
  last ps = Some p <-> In p ps /\ forall q, In q ps -> iwp_offset q <= iwp_offset p.
Proof.
  intros Hs. destruct ps as [|x ps _] using rev_ind; [naive_solver|]. rewrite last_snoc.
  apply pos_sorted_snoc in Hs as [_ Hf]. rewrite List.Forall_forall in Hf. split.
  - intros [= ->]. split; [apply in_app_iff; cbn; tauto|]. intros q [Hq|[->|[]]]%in_app_iff; [|lia].
    specialize (Hf _ Hq). lia.
  - intros [[Hp|[->|[]]]%in_app_iff Hm]; [|done]. specialize (Hf _ Hp).
    assert (iwp_offset x <= iwp_offset p) by (apply Hm, in_app_iff; cbn; tauto). lia.
Qed.

Lemma pos_insert_In v ps p : In p (pos_insert v ps) <-> p = v \/ In p ps.
Proof.
  unfold pos_insert. rewrite in_app_iff. cbn [In]. rewrite !filter_In.
  destruct (iwp_offset p <? iwp_offset v); naive_solver.
Qed.

Lemma pos_insert_sorted v ps :
  pos_sorted ps -> Forall (fun p => iwp_offset p <> iwp_offset v) ps -> pos_sorted (pos_insert v ps).
Proof.
  intros Hs Hn. rewrite List.Forall_forall in Hn. unfold pos_insert.
  rewrite pos_sorted_app, pos_sorted_cons.
  split_and!; try by apply pos_sorted_filter.
  - apply List.Forall_forall. intros q [Hq Hb]%filter_In. b2p. specialize (Hn _ Hq). lia.
  - intros p q [Hp Hb]%filter_In [<-|[Hq Hb']%filter_In]; b2p; [done|lia].
Qed.

Lemma pos_insert_nonempty v ps : pos_insert v ps <> [].
Proof. unfold pos_insert. by destruct (List.filter _ ps). Qed.

Lemma pos_insert_ok v ps :
  pos_sorted ps -> Forall iwp_fits ps -> iwp_fits v ->
  Forall (fun p => iwp_offset p <> iwp_offset v) ps -> positions_ok (pos_insert v ps).
Proof.
  intros Hs Hf Hv Hn. split_and!.
  - apply pos_insert_nonempty.
  - by apply pos_insert_sorted.
  - rewrite List.Forall_forall in *. intros p [->|?]%pos_insert_In; auto.
Qed.

(** Two writes at different offsets can be added in either order. *)
Lemma pos_insert_comm v w ps :
  pos_sorted ps -> iwp_offset v <> iwp_offset w ->
  Forall (fun p => iwp_offset p <> iwp_offset v) ps ->
  Forall (fun p => iwp_offset p <> iwp_offset w) ps ->
  pos_insert v (pos_insert w ps) = pos_insert w (pos_insert v ps).
Proof.
  intros Hs Hne Hv Hw. apply pos_sorted_ext.
  - apply pos_insert_sorted; [by apply pos_insert_sorted|].
    rewrite List.Forall_forall in *. intros p [->|?]%pos_insert_In; auto.
  - apply pos_insert_sorted; [by apply pos_insert_sorted|].
    rewrite List.Forall_forall in *. intros p [->|?]%pos_insert_In; auto.
  - intros p. rewrite !pos_insert_In. tauto.
Qed.

(** [partition_point] splits a sorted list where a downward-closed test stops
    holding. *)
Definition pos_downward (f : IndexWalPosition -> bool) : Prop :=
  forall p q, iwp_offset p < iwp_offset q -> f q = true -> f p = true.

Lemma partition_point_split f ps :
  pos_sorted ps -> pos_downward f ->
  take (partition_point f ps) ps = List.filter f ps /\
  drop (partition_point f ps) ps = List.filter (fun p => negb (f p)) ps.
Proof.
  intros Hs Hd. induction ps as [|p ps IH]; [done|]. apply pos_sorted_cons in Hs as [Hs Hf]. cbn.
  destruct (f p) eqn:E; cbn.
  - destruct (IH Hs) as [-> ->]. done.
  - assert (Forall (fun q => f q = false) ps) as Hall.
    { eapply Forall_impl; [exact Hf|]. intros q Hq. destruct (f q) eqn:Eq; [|done].
      by rewrite (Hd p q Hq Eq) in E. }
    rewrite (filter_none f) by done. split; [done|]. f_equal. symmetry. apply filter_all.
    eapply Forall_impl; [exact Hall|]. intros q Hq. cbn in *. by rewrite Hq.
Qed.

Lemma pos_downward_lt x : pos_downward (fun p => iwp_offset p <? x).
Proof. intros p q ? ?. b2p. apply Z.ltb_lt. lia. Qed.

Lemma pos_downward_processed lp : pos_downward (is_processed lp).
Proof. apply pos_downward_lt. Qed.

Lemma processed_prefix_of lp ps : pos_sorted ps -> processed_prefix ps lp = processed_of lp ps.
Proof.
  intros Hs. unfold processed_prefix.
  by destruct (partition_point_split (is_processed lp) ps Hs (pos_downward_processed lp)).
Qed.

Lemma insert_at_pos_insert v ps :
  pos_sorted ps ->
  insert_at (partition_point (fun p => iwp_offset p <? iwp_offset v) ps) v ps = pos_insert v ps.
Proof.
  intros Hs. unfold insert_at, pos_insert.
  by destruct (partition_point_split _ ps Hs (pos_downward_lt (iwp_offset v))) as [-> ->].
Qed.

Lemma latest_processed_of lp ps : latest_processed lp ps = last (processed_of lp ps).
Proof.
  unfold latest_processed, processed_of. induction ps as [|p ps IH]; [done|]. cbn [rev List.filter].
  rewrite List.filter_app. cbn [List.filter].
  assert (forall (a : list IndexWalPosition) b, head (a ++ b) = match head a with Some x => Some x | None => head b end) as Hh
    by (by intros []).
  rewrite Hh, IH. destruct (is_processed lp p); cbn [head].
  - rewrite last_cons. by destruct (last _).
  - by destruct (last _).
Qed.

(** Where the insertion slot of [checked_insert] points. *)
Lemma insert_slot v ps :
  pos_sorted ps ->
  match ps !! partition_point (fun p => iwp_offset p <? iwp_offset v) ps with
  | Some p => In p ps /\ (iwp_offset p = iwp_offset v \/
                          Forall (fun q => iwp_offset q <> iwp_offset v) ps)
  | None => Forall (fun q => iwp_offset q <> iwp_offset v) ps
  end.
Proof.
  set (f := fun p => iwp_offset p <? iwp_offset v). intros Hs.
  induction ps as [|p ps IH]; [constructor|]. apply pos_sorted_cons in Hs as [Hs Hf]. cbn.
  destruct (f p) eqn:E; unfold f in E; b2p; cbn.
  - specialize (IH Hs). destruct (ps !! _) as [q|].
    + destruct IH as [Hin [He|Hn]]; split; auto. right. constructor; [lia|done].
    + constructor; [lia|done].
  - split; [by left|]. destruct (decide (iwp_offset p = iwp_offset v)); [by left|right].
    constructor; [done|]. eapply Forall_impl; [exact Hf|]. cbn. lia.
Qed.

(** ** Well-formed tables and their content *)

Definition overlay_wf (data : overlay) : Prop :=
  bt_sorted data /\ Forall (fun kp => positions_ok kp.2) data.

(** [es] are the entries of the flat buffer. *)
Definition it_wf (t : IndexTable) (es : list entry) : Prop :=
  overlay_wf (it_data t) /\ flat_repr (it_flat t) (it_key_size t) es.

(** The newest write of every key of the overlay. *)
Definition latest_of (data : overlay) : list entry := bt_omap (fun _ ps => last ps) data.

Definition positions_of (data : overlay) (k : list Z) : list IndexWalPosition :=
  default [] (bt_get k data).

(** The counters: [key_bytes] over the overlay, [dirty_count] over both
    parts. *)
Definition it_stats (t : IndexTable) (es : list entry) : Prop :=
  it_key_bytes t = keys_len (latest_of (it_data t)) /\
  it_dirty_count t = dirty_len es + dirty_len (latest_of (it_data t)).

(** The index entry a key resolves to: its newest write, or its flat entry. *)
Definition it_view (t : IndexTable) (es : list entry) (k : list Z) : option IndexWalPosition :=
  match last (positions_of (it_data t) k) with
  | Some p => Some p
  | None => bt_get k es
  end.

(** The same as of a frontier: only the writes below it count. *)
Definition it_view_at (t : IndexTable) (es : list entry) (k : list Z) (lp : LastProcessed) :
    option IndexWalPosition :=
  match last (processed_of lp (positions_of (it_data t) k)) with
  | Some p => Some p
  | None => bt_get k es
  end.

Lemma overlay_wf_nil : overlay_wf [].
Proof. split; constructor. Qed.

Lemma overlay_wf_cons k ps data :
  overlay_wf ((k, ps) :: data) <->
  positions_ok ps /\ overlay_wf data /\ Forall (fun kv => klt k kv.1) data.
Proof. unfold overlay_wf. rewrite bt_sorted_cons, Forall_cons. cbn. tauto. Qed.

Lemma overlay_get_ok data k ps : overlay_wf data -> bt_get k data = Some ps -> positions_ok ps.
Proof.
  intros [Hs Hf] H. apply bt_get_In in H; [|done]. rewrite List.Forall_forall in Hf. by apply (Hf (k, ps)).
Qed.

Lemma positions_of_sorted data k : overlay_wf data -> pos_sorted (positions_of data k).
Proof.
  intros Hw. unfold positions_of. destruct (bt_get k data) eqn:E; [|constructor].
  by eapply overlay_get_ok in E as (_ & ? & _).
Qed.

Lemma positions_of_fits data k : overlay_wf data -> Forall iwp_fits (positions_of data k).
Proof.
  intros Hw. unfold positions_of. destruct (bt_get k data) eqn:E; [|constructor].
  by eapply overlay_get_ok in E as (_ & _ & ?).
Qed.

Lemma overlay_wf_insert data k ps : overlay_wf data -> positions_ok ps -> overlay_wf (bt_insert k ps data).
Proof. intros [Hs Hf] Hp. split; [by apply bt_insert_sorted|]. by apply bt_insert_Forall. Qed.

Lemma positions_of_insert data k k' ps :
  overlay_wf data ->
  positions_of (bt_insert k ps data) k' = if keqb k' k then ps else positions_of data k'.
Proof.
  intros [Hs _]. unfold positions_of. rewrite bt_get_insert by done. by destruct (keqb k' k).
Qed.

Lemma positions_ok_last ps : positions_ok ps -> exists p, last ps = Some p.
Proof.
  intros (Hn & _ & _). destruct (last ps) as [p|] eqn:E; [eauto|]. by apply last_None in E.
Qed.

(** [data_latest_per_key] does not panic on a well-formed overlay. *)
Lemma data_latest_ok data : overlay_wf data -> data_latest_per_key data = Ok (latest_of data).
Proof.
  induction data as [|[k ps] data IH]; [done|]. intros (Hp & Hw & _)%overlay_wf_cons.
  destruct (positions_ok_last ps Hp) as [p E]. cbn [data_latest_per_key]. rewrite E, IH by done.
  unfold latest_of. by rewrite bt_omap_cons, E.
Qed.

Lemma latest_of_sorted data : overlay_wf data -> bt_sorted (latest_of data).
Proof. intros [? _]. by apply bt_omap_sorted. Qed.

Lemma bt_get_latest_of data k : overlay_wf data -> bt_get k (latest_of data) = last (positions_of data k).
Proof.
  intros [Hs _]. unfold latest_of. rewrite bt_get_omap by done. unfold positions_of.
  by destruct (bt_get k data).
Qed.

(** ** Lookups *)

Lemma data_get_latest_ok t k :
  overlay_wf (it_data t) -> data_get_latest t k = Ok (last (positions_of (it_data t) k)).
Proof.
  intros Hw. unfold data_get_latest, positions_of. destruct (bt_get k (it_data t)) as [ps|] eqn:E; [|done].
  destruct (positions_ok_last ps) as [p Hp]; [by eapply overlay_get_ok|]. cbn. by rewrite Hp.
Qed.

Lemma data_get_latest_processed_ok t k lp :
  overlay_wf (it_data t) ->
  data_get_latest_processed t k lp = last (processed_of lp (positions_of (it_data t) k)).
Proof.
  intros Hw. unfold data_get_latest_processed, positions_of.
  destruct (bt_get k (it_data t)) as [ps|] eqn:E; [|done]. cbn.
  rewrite processed_prefix_of; [done|]. by eapply overlay_get_ok in E as (_ & ? & _).
Qed.

(** A flat entry found by index is the one the list has there. *)
Lemma flat_entry_in_range_ok t es idx :
  flat_repr (it_flat t) (it_key_size t) es -> flat_entry_in_range t idx = Ok (es !! idx).
Proof.
  intros Hr. unfold flat_entry_in_range. rewrite (flat_repr_count _ _ _ Hr).
  destruct (Nat.leb_spec (length es) idx) as [Hle|Hlt].
  - by rewrite lookup_ge_None_2.
  - destruct (lookup_lt_is_Some_2 es idx Hlt) as [e He]. rewrite He.
    apply list_elem_of_split_length in He as (a & b & -> & ->).
    by rewrite (flat_repr_at _ _ _ _ _ _ Hr eq_refl).
Qed.

Lemma lookup_app_head {A} (a b : list A) : (a ++ b) !! length a = head b.
Proof. rewrite lookup_app_r, Nat.sub_diag by done. by destruct b. Qed.

(** The entry at the lower bound of [k] is the first not below it. *)
Lemma lookup_below (es : list entry) k :
  bt_sorted es -> es !! length (bt_below k es) = head (List.filter (fun e => negb (kltb e.1 k)) es).
Proof.
  intros Hs. rewrite <- (lookup_app_head (bt_below k es)). f_equal.
  apply (sorted_split (fun x => kltb x k) es Hs (downward_lt k)).
Qed.

Lemma head_not_below (es : list entry) k :
  bt_sorted es ->
  match head (List.filter (fun e => negb (kltb e.1 k)) es) with
  | Some (k', v) => if keqb k' k then Some v else None
  | None => None
  end = bt_get k es.
Proof.
  induction es as [|[k' v] es IH]; [done|]. intros Hs. rewrite bt_get_cons by done.
  apply bt_sorted_cons in Hs as [Hs Hf]. cbn [List.filter fst].
  destruct (kltb_spec k' k) as [Hlt|Hge]; cbn.
  - rewrite IH by done. destruct (keqb_spec k k') as [->|]; [|done]. by apply klt_irrefl in Hlt.
  - destruct (keqb_spec k' k) as [->|Hne]; [by rewrite keqb_refl|].
    destruct (keqb_spec k k') as [->|_]; [done|]. symmetry. apply bt_get_above.
    apply Forall_klt_trans with k'; [|done]. destruct (k_total k k') as [?|[?|?]]; done.
Qed.

(** The binary search over the flat bytes is the map lookup. *)
Lemma flat_binary_search_ok t es k :
  flat_repr (it_flat t) (it_key_size t) es -> flat_binary_search t k = Ok (bt_get k es).
Proof.
  intros Hr. pose proof Hr as (_ & Hs & _). unfold flat_binary_search.
  destruct (it_flat t) eqn:E.
  - rewrite (proj1 (flat_repr_empty [] _ es Hr) eq_refl). done.
  - rewrite <- E in *. rewrite (flat_lower_bound_repr _ _ _ k Hr). cbn [mbind outcome_bind].
    rewrite (flat_entry_in_range_ok t es) by done. cbn [mbind outcome_bind].
    rewrite lookup_below, <- head_not_below by done. done.
Qed.

Lemma it_get_ok t es k :
  it_wf t es -> it_get t k = Ok (option_map into_wal_position (it_view t es k)).
Proof.
  intros [Hw Hr]. unfold it_get, it_view. rewrite data_get_latest_ok by done. cbn [mbind outcome_bind].
  destruct (last _); [done|]. by rewrite (flat_binary_search_ok t es k Hr).
Qed.

Lemma it_get_at_ok t es k lp :
  it_wf t es -> it_get_at t k lp = Ok (option_map into_wal_position (it_view_at t es k lp)).
Proof.
  intros [Hw Hr]. unfold it_get_at, it_view_at. rewrite data_get_latest_processed_ok by done.
  destruct (last _); [done|]. by rewrite (flat_binary_search_ok t es k Hr).
Qed.

Lemma it_contains_key_ok t es k :
  it_wf t es -> it_contains_key t k = Ok (bool_decide (is_Some (it_view t es k))).
Proof.
  intros [Hw Hr]. unfold it_contains_key, data_contains_key, bt_mem, it_view, positions_of.
  destruct (bt_get k (it_data t)) as [ps|] eqn:E; cbn.
  - destruct (positions_ok_last ps) as [p ->]; [by eapply overlay_get_ok|]. done.
  - rewrite (flat_binary_search_ok t es k Hr). cbn. by destruct (bt_get k es).
Qed.

(** ** Counting *)

(** Both counters are sums of a weight over the entries. *)
Definition sum_entries (g : entry -> Z) (es : list entry) : Z :=
  fold_right (fun e acc => g e + acc) 0 es.

Definition dirty_weight (e : entry) : Z := if is_clean e.2 then 0 else 1.

Definition key_weight (e : entry) : Z := Z.of_nat (length e.1).

Lemma keys_len_sum es : keys_len es = sum_entries key_weight es.
Proof. done. Qed.

Lemma sum_entries_cons g e es : sum_entries g (e :: es) = g e + sum_entries g es.
Proof. done. Qed.

Lemma dirty_len_sum es : dirty_len es = sum_entries dirty_weight es.
Proof.
  unfold dirty_len. induction es as [|e es IH]; [done|]. rewrite sum_entries_cons, <- IH.
  cbn [List.filter]. unfold dirty_weight. destruct (is_clean e.2); cbn [negb length]; lia.
Qed.

Lemma sum_entries_insert g k v m :
  bt_sorted m ->
  sum_entries g (bt_insert k v m) =
  sum_entries g m - match bt_get k m with Some w => g (k, w) | None => 0 end + g (k, v).
Proof.
  induction m as [|[k' v'] m IH]; intros Hs; cbn [bt_insert bt_get].
  - rewrite sum_entries_cons. cbn [sum_entries fold_right]. lia.
  - apply bt_sorted_cons in Hs as [Hs Hf].
    destruct (kcmp k k') eqn:E; rewrite ?sum_entries_cons.
    + apply kcmp_eq in E as ->. lia.
    + lia.
    + rewrite IH by done. lia.
Qed.

Lemma latest_of_insert data k ps p :
  overlay_wf data -> last ps = Some p ->
  latest_of (bt_insert k ps data) = bt_insert k p (latest_of data).
Proof.
  intros [Hs Hf] Hp. apply bt_sorted_ext.
  - by apply bt_omap_sorted, bt_insert_sorted.
  - by apply bt_insert_sorted, bt_omap_sorted.
  - intros k'. unfold latest_of. rewrite bt_get_insert, !bt_get_omap, bt_get_insert
      by (try apply bt_omap_sorted; try apply bt_insert_sorted; done).
    destruct (keqb k' k); [cbn; by rewrite Hp | done].
Qed.

Lemma adjust_dirty_count_weight n (k : list Z) old new :
  adjust_dirty_count n (negb (is_clean old)) (negb (is_clean new)) =
  n - dirty_weight (k, old) + dirty_weight (k, new).
Proof. unfold adjust_dirty_count, dirty_weight. cbn. destruct (is_clean old), (is_clean new); cbn; lia. Qed.

Lemma it_stats_insert t es k ps p kb dc :
  it_wf t es -> it_stats t es -> last ps = Some p ->
  kb = it_key_bytes t + (if bt_mem k (it_data t) then 0 else Z.of_nat (length k)) ->
  dc = it_dirty_count t
       - match last (positions_of (it_data t) k) with Some q => dirty_weight (k, q) | None => 0 end
       + dirty_weight (k, p) ->
  it_stats (mkIT (bt_insert k ps (it_data t)) kb dc (it_flat t) (it_key_size t)) es.
Proof.
  intros [Hw Hr] [Hk Hd] Hp -> ->. unfold it_stats. cbn [it_data it_key_bytes it_dirty_count].
  rewrite (latest_of_insert _ _ _ p) by done.
  rewrite Hk, Hd, (keys_len_sum (latest_of _)), (keys_len_sum (bt_insert _ _ _)), !dirty_len_sum.
  rewrite !sum_entries_insert, !bt_get_latest_of by (done || by apply latest_of_sorted). split; [|lia].
  unfold bt_mem, positions_of. destruct (bt_get k (it_data t)) as [qs|] eqn:E.
  - destruct (positions_ok_last qs) as [q Hq]; [by eapply overlay_get_ok|].
    cbn [default from_option id]. rewrite Hq. unfold key_weight. cbn [fst]. lia.
  - unfold key_weight. cbn. lia.
Qed.

(** ** Live writes *)

Definition same_offset (v p : IndexWalPosition) : bool := iwp_offset p =? iwp_offset v.

Definition below_offset (v p : IndexWalPosition) : bool := iwp_offset p <? iwp_offset v.

(** The table [checked_insert] leaves. *)
Definition with_write (t : IndexTable) (k : list Z) (v : IndexWalPosition) (kb dc : Z) : IndexTable :=
  mkIT (bt_insert k (pos_insert v (positions_of (it_data t) k)) (it_data t)) kb dc
    (it_flat t) (it_key_size t).

Lemma pos_insert_last v ps p :
  pos_sorted ps -> Forall (fun q => iwp_offset q <> iwp_offset v) ps ->
  last ps = Some p ->
  last (pos_insert v ps) = Some (if iwp_offset v <? iwp_offset p then p else v).
Proof.
  intros Hs Hn Hp. pose proof (pos_insert_sorted v ps Hs Hn) as Hs'.
  apply pos_last_spec in Hp as [Hin Hmax]; [|done]. apply pos_last_spec; [done|].
  rewrite List.Forall_forall in Hn. destruct (Z.ltb_spec (iwp_offset v) (iwp_offset p)).
  - split; [apply pos_insert_In; by right|]. intros q [->|Hq]%pos_insert_In; [lia|auto].
  - split; [apply pos_insert_In; by left|]. intros q [->|Hq]%pos_insert_In; [lia|].
    specialize (Hmax _ Hq). lia.
Qed.

Lemma pos_insert_snoc v ps :
  Forall (fun q => iwp_offset q < iwp_offset v) ps -> pos_insert v ps = ps ++ [v].
Proof.
  intros Hf. unfold pos_insert. f_equal.
  - apply filter_all. eapply Forall_impl; [exact Hf|]. cbn. intros. by apply Z.ltb_lt.
  - f_equal. apply filter_none. eapply Forall_impl; [exact Hf|]. cbn. intros.
    by apply negb_false_iff, Z.ltb_lt.
Qed.

Lemma existsb_same_offset v ps :
  existsb (same_offset v) ps = false <-> Forall (fun q => iwp_offset q <> iwp_offset v) ps.
Proof.
  induction ps as [|p ps IH]; [split; [constructor|done]|]. cbn.
  rewrite orb_false_iff, Forall_cons, IH. unfold same_offset. by rewrite Z.eqb_neq.
Qed.

Lemma existsb_same_offset_In v ps p : In p ps -> iwp_offset p = iwp_offset v -> existsb (same_offset v) ps = true.
Proof. intros Hin He. apply existsb_exists. exists p. split; [done|]. by apply Z.eqb_eq. Qed.

Lemma stale_not_latest v ps p :
  In p ps -> iwp_offset v < iwp_offset p -> forallb (below_offset v) ps = false.
Proof.
  intros Hin Hlt. destruct (forallb _ ps) eqn:E; [|done]. rewrite forallb_forall in E.
  specialize (E _ Hin). unfold below_offset in E. b2p. lia.
Qed.

(** [checked_insert] on every branch: a reused offset panics; otherwise the
    write takes its place among the key's positions, and is reported stale when
    a newer write of the key is already there. *)
Lemma checked_insert_ok t es k v :
  it_wf t es ->
  let ps := positions_of (it_data t) k in
  (existsb (same_offset v) ps = true /\
     checked_insert t k v = Panic "Index WAL position must be unique per key") \/
  (existsb (same_offset v) ps = false /\
     exists kb dc,
       checked_insert t k v =
         Ok (with_write t k v kb dc, if forallb (below_offset v) ps then Latest else Stale) /\
       (it_stats t es -> it_stats (with_write t k v kb dc) es)).
Proof.
  intros Hwf ps. pose proof Hwf as [Hw Hr].
  pose proof (positions_of_sorted (it_data t) k Hw) as Hs. unfold ps, checked_insert, with_write.
  destruct (bt_get k (it_data t)) as [qs|] eqn:Eg.
  - assert (positions_of (it_data t) k = qs) as Eq by (unfold positions_of; by rewrite Eg).
    assert (bt_mem k (it_data t) = true) as Em by (unfold bt_mem; by rewrite Eg).
    rewrite Eq in *. destruct (positions_ok_last qs) as [p Hp]; [by eapply overlay_get_ok|].
    rewrite Hp. cbn [expect mbind outcome_bind].
    pose proof (proj1 (pos_last_spec qs p Hs) Hp) as [Hin Hmax].
    destruct (existsb (same_offset v) qs) eqn:Ex; [left|right]; (split; [done|]).
    + apply existsb_exists in Ex as (q & Hq & Ho). unfold same_offset in Ho. b2p.
      destruct (Z.ltb_spec (iwp_offset v) (iwp_offset p)) as [Hlt|Hge].
      * pose proof (insert_slot v qs Hs) as Hslot. destruct (qs !! _) as [r|].
        { destruct Hslot as [_ [->|Hn]]; [by rewrite Z.eqb_refl|].
          rewrite List.Forall_forall in Hn. by destruct (Hn q Hq). }
        rewrite List.Forall_forall in Hslot. by destruct (Hslot q Hq).
      * specialize (Hmax _ Hq). unfold assert_that.
        by destruct (Z.ltb_spec (iwp_offset p) (iwp_offset v)); [lia|].
    + apply existsb_same_offset in Ex.
      assert (last (pos_insert v qs) = Some (if iwp_offset v <? iwp_offset p then p else v)) as Hl
        by (by apply pos_insert_last).
      destruct (Z.ltb_spec (iwp_offset v) (iwp_offset p)) as [Hlt|Hge].
      * rewrite (insert_at_pos_insert v qs Hs), (stale_not_latest v qs p) by done.
        exists (it_key_bytes t), (it_dirty_count t). split.
        { pose proof (insert_slot v qs Hs) as Hslot. destruct (qs !! _) as [r|]; [|done].
          rewrite List.Forall_forall in Ex.
          by rewrite (proj2 (Z.eqb_neq _ _) (Ex r (proj1 Hslot))). }
        intros Hst. apply (it_stats_insert t es k _ p); rewrite ?Em, ?Eq, ?Hp; (done || lia).
      * rewrite List.Forall_forall in Ex. pose proof (Ex _ Hin).
        assert (Forall (fun q => iwp_offset q < iwp_offset v) qs) as Hall.
        { apply List.Forall_forall. intros q Hq. specialize (Hmax _ Hq). specialize (Ex _ Hq). lia. }
        unfold assert_that. destruct (Z.ltb_spec (iwp_offset p) (iwp_offset v)); [|lia].
        cbn [mbind outcome_bind]. eexists _, _. rewrite (pos_insert_snoc v qs Hall). split.
        { rewrite (proj2 (forallb_forall _ _)); [done|]. intros q Hq. rewrite List.Forall_forall in Hall.
          by apply Z.ltb_lt, Hall. }
        rewrite (pos_insert_snoc v qs Hall) in Hl.
        intros Hst. apply (it_stats_insert t es k _ v); rewrite ?Em, ?Eq, ?Hp, ?last_snoc; try (done || lia).
        by rewrite (adjust_dirty_count_weight _ k).
  - assert (positions_of (it_data t) k = []) as Eq by (unfold positions_of; by rewrite Eg).
    rewrite Eq. cbn. right. split; [done|]. eexists _, _. split; [done|].
    intros Hst. apply (it_stats_insert t es k _ v); rewrite ?Eq; unfold bt_mem; rewrite ?Eg; try done; cbn.
    unfold dirty_weight. cbn. destruct (is_clean v); cbn; lia.
Qed.

Lemma with_write_wf t es k v kb dc :
  it_wf t es -> iwp_fits v -> existsb (same_offset v) (positions_of (it_data t) k) = false ->
  it_wf (with_write t k v kb dc) es.
Proof.
  intros [Hw Hr] Hv Hn%existsb_same_offset. split; [|done]. apply overlay_wf_insert; [done|].
  apply pos_insert_ok; auto using positions_of_sorted, positions_of_fits.
Qed.

Lemma with_write_positions t es k v kb dc k' :
  it_wf t es ->
  positions_of (it_data (with_write t k v kb dc)) k' =
  if keqb k' k then pos_insert v (positions_of (it_data t) k) else positions_of (it_data t) k'.
Proof. intros [Hw _]. by apply positions_of_insert. Qed.

Lemma filter_comm_bool {A} (f g : A -> bool) (l : list A) :
  List.filter f (List.filter g l) = List.filter g (List.filter f l).
Proof.
  induction l as [|x l IH]; [done|]. cbn.
  destruct (f x) eqn:Ef, (g x) eqn:Eg; cbn; rewrite ?Ef, ?Eg, ?IH; done.
Qed.

Lemma processed_of_insert lp v ps :
  processed_of lp (pos_insert v ps) =
  if is_processed lp v then pos_insert v (processed_of lp ps) else processed_of lp ps.
Proof.
  unfold processed_of, pos_insert. rewrite List.filter_app. cbn [List.filter].
  rewrite !(filter_comm_bool (is_processed lp)). destruct (is_processed lp v) eqn:E; [done|].
  assert (Forall (fun p => negb (iwp_offset p <? iwp_offset v) = false) (List.filter (is_processed lp) ps)) as Hb.
  { apply List.Forall_forall. intros p [_ Hp]%filter_In. unfold is_processed, has_offset, iwp_has_offset in *.
    b2p. apply negb_false_iff, Z.ltb_lt. lia. }
  rewrite (filter_none (fun p => negb _)) by done. rewrite app_nil_r. apply filter_all.
  eapply Forall_impl; [exact Hb|]. cbn. intros p Hp. by apply negb_false_iff.
Qed.

Lemma pos_insert_last_eq v ps :
  pos_sorted ps -> Forall (fun q => iwp_offset q <> iwp_offset v) ps ->
  last (pos_insert v ps) = if forallb (below_offset v) ps then Some v else last ps.
Proof.
  intros Hs Hn. destruct (last ps) as [p|] eqn:Hp.
  - rewrite (pos_insert_last v ps p) by done. apply pos_last_spec in Hp as [Hin Hmax]; [|done].
    destruct (Z.ltb_spec (iwp_offset v) (iwp_offset p)) as [Hlt|Hge].
    + by rewrite (stale_not_latest v ps p).
    + rewrite (proj2 (forallb_forall _ _)); [done|]. intros q Hq. rewrite List.Forall_forall in Hn.
      specialize (Hn _ Hq). specialize (Hmax _ Hq). apply Z.ltb_lt. lia.
  - by apply last_None in Hp as ->.
Qed.

(** What a write changes for a reader at frontier [lp]. *)
Lemma with_write_view_at t es k v kb dc k' lp :
  it_wf t es -> existsb (same_offset v) (positions_of (it_data t) k) = false ->
  it_view_at (with_write t k v kb dc) es k' lp =
  if keqb k' k && is_processed lp v &&
     forallb (below_offset v) (processed_of lp (positions_of (it_data t) k))
  then Some v else it_view_at t es k' lp.
Proof.
  intros Hwf Hn%existsb_same_offset. pose proof Hwf as [Hw _]. unfold it_view_at.
  rewrite (with_write_positions t es) by done. destruct (keqb_spec k' k) as [->|_]; [|done]. cbn [andb].
  rewrite processed_of_insert. destruct (is_processed lp v); [|done]. cbn [andb].
  rewrite pos_insert_last_eq; [by destruct (forallb _ _)| |].
  - by apply pos_sorted_filter, positions_of_sorted.
  - by apply Forall_List_filter.
Qed.

Lemma with_write_view t es k v kb dc k' :
  it_wf t es -> existsb (same_offset v) (positions_of (it_data t) k) = false ->
  it_view (with_write t k v kb dc) es k' =
  if keqb k' k && forallb (below_offset v) (positions_of (it_data t) k)
  then Some v else it_view t es k'.
Proof.
  intros Hwf Hn%existsb_same_offset. pose proof Hwf as [Hw _]. unfold it_view.
  rewrite (with_write_positions t es) by done. destruct (keqb_spec k' k) as [->|_]; [|done]. cbn [andb].
  rewrite pos_insert_last_eq; [by destruct (forallb _ _)| |done]. by apply positions_of_sorted.
Qed.

(** Overlays with the same positions are equal. *)
Lemma overlay_ext d1 d2 :
  overlay_wf d1 -> overlay_wf d2 -> (forall k, positions_of d1 k = positions_of d2 k) -> d1 = d2.
Proof.
  intros H1 H2 He. apply bt_sorted_ext; [by destruct H1|by destruct H2|]. intros k. specialize (He k).
  unfold positions_of in He. destruct (bt_get k d1) as [p1|] eqn:E1, (bt_get k d2) as [p2|] eqn:E2;
    cbn in He; subst; try done.
  - by apply overlay_get_ok in E1 as (? & _).
  - by apply overlay_get_ok in E2 as (? & _).
Qed.

Lemma it_ext t1 t2 es :
  it_wf t1 es -> it_wf t2 es -> it_stats t1 es -> it_stats t2 es ->
  it_flat t1 = it_flat t2 -> it_key_size t1 = it_key_size t2 ->
  (forall k, positions_of (it_data t1) k = positions_of (it_data t2) k) -> t1 = t2.
Proof.
  intros [H1 _] [H2 _] [Hk1 Hd1] [Hk2 Hd2] Hf Hs He. pose proof (overlay_ext _ _ H1 H2 He) as Hd.
  destruct t1, t2. cbn in *. subst. done.
Qed.

(** A batch of live writes, applied in the order given. *)
Fixpoint insert_all (t : IndexTable) (ws : list entry) : outcome IndexTable :=
  match ws with
  | [] => Ok t
  | (k, v) :: ws' => '(t, _) ← checked_insert t k v; insert_all t ws'
  end.

(** No two writes of the batch, and no write of the table, share key and
    offset. *)
Definition fresh_writes (t : IndexTable) (ws : list entry) : Prop :=
  NoDup (List.map (fun w : entry => (w.1, iwp_offset w.2)) ws) /\
  Forall (fun w => existsb (same_offset w.2) (positions_of (it_data t) w.1) = false) ws.

Lemma insert_all_ok t es ws :
  it_wf t es -> it_stats t es -> Forall (fun w => iwp_fits w.2) ws -> fresh_writes t ws ->
  exists t', insert_all t ws = Ok t' /\ it_wf t' es /\ it_stats t' es /\
    it_flat t' = it_flat t /\ it_key_size t' = it_key_size t /\
    forall k p, In p (positions_of (it_data t') k) <-> In p (positions_of (it_data t) k) \/ In (k, p) ws.
Proof.
  revert t. induction ws as [|[k v] ws IH]; intros t Hwf Hst Hf [Hnd Hfr].
  { exists t. cbn. naive_solver. }
  apply Forall_cons in Hf as [Hv Hf]. apply Forall_cons in Hfr as [Hn Hfr]. cbn in Hv, Hn, Hnd.
  apply NoDup_cons in Hnd as [Hni Hnd].
  destruct (checked_insert_ok t es k v Hwf) as [[Hc _]|(_ & kb & dc & Hc & Hst')]; [congruence|].
  destruct (IH (with_write t k v kb dc)) as (t' & Ht & Hwf' & Hst'' & Hfl & Hks & Hp);
    [by apply with_write_wf|by apply Hst'|done| |].
  { split; [done|]. rewrite List.Forall_forall in *. intros [k' v'] Hin. specialize (Hfr _ Hin). cbn [fst snd] in *.
    rewrite (with_write_positions t es) by done. destruct (keqb_spec k' k) as [->|]; [|done].
    apply existsb_same_offset. apply existsb_same_offset in Hfr. rewrite List.Forall_forall in *.
    intros q [->|Hq]%pos_insert_In; [|auto]. intros E. apply Hni. apply list_elem_of_In, in_map_iff.
    exists (k, v'). by rewrite E. }
  exists t'. cbn [insert_all]. rewrite Hc. cbn [mbind outcome_bind]. split_and!; try done.
  intros k' p. rewrite Hp, (with_write_positions t es) by done. cbn [In].
  destruct (keqb_spec k' k) as [->|]; [rewrite pos_insert_In|]; naive_solver.
Qed.

Lemma insert_all_perm_aux t es ws ws' :
  it_wf t es -> it_stats t es -> Forall (fun w => iwp_fits w.2) ws -> fresh_writes t ws ->
  ws ≡ₚ ws' -> exists t', insert_all t ws = Ok t' /\ insert_all t ws' = Ok t' /\ it_wf t' es.
Proof.
  intros Hwf Hst Hf Hfr Hp.
  destruct (insert_all_ok t es ws) as (t1 & H1 & Hw1 & Hs1 & Hf1 & Hk1 & Hp1); try done.
  destruct (insert_all_ok t es ws') as (t2 & H2 & Hw2 & Hs2 & Hf2 & Hk2 & Hp2); try done.
  { by rewrite <- Hp. }
  { destruct Hfr as [Hnd Hfr]. split; [|by rewrite <- Hp].
    eapply NoDup_Permutation_proper; [symmetry; by apply Permutation_map|done]. }
  exists t1. split_and!; [done| |done]. rewrite H2. f_equal.
  eapply it_ext; try done; try congruence. intros k. apply pos_sorted_ext.
  - apply positions_of_sorted, Hw2.
  - apply positions_of_sorted, Hw1.
  - intros p. rewrite Hp1, Hp2. by rewrite Hp.
Qed.

(** ** Properties *)

(** Lookups: on a well-formed table [get] returns the key's newest write,
    or its flat entry when the overlay has none ([Removed] as the INVALID
    position), and [get_at] does the same with only the writes below the
    frontier counting; neither panics. *)
Lemma get_resolves t es k lp :
  it_wf t es ->
  it_get t k = Ok (option_map into_wal_position (it_view t es k)) /\
  it_get_at t k lp = Ok (option_map into_wal_position (it_view_at t es k lp)).
Proof. intros Hw. split; [by apply it_get_ok|by apply it_get_at_ok]. Qed.

(** A live write: reusing an offset of the key panics; otherwise the table
    stays well formed with exact counters, the write is reported [Latest] when
    no newer write of the key is there and [Stale] otherwise, and a reader at
    any frontier sees it exactly when it is below the frontier and the newest
    of the key's writes there; other keys are untouched. *)
Lemma checked_insert_spec t es k v :
  it_wf t es -> it_stats t es -> iwp_fits v ->
  let ps := positions_of (it_data t) k in
  if existsb (same_offset v) ps
  then checked_insert t k v = Panic "Index WAL position must be unique per key"
  else
    exists t', checked_insert t k v = Ok (t', if forallb (below_offset v) ps then Latest else Stale) /\
      it_wf t' es /\ it_stats t' es /\
      forall k' lp,
        it_get_at t' k' lp =
        if keqb k' k && is_processed lp v && forallb (below_offset v) (processed_of lp ps)
        then Ok (Some (into_wal_position v)) else it_get_at t k' lp.
Proof.
  intros Hw Hst Hv ps. destruct (checked_insert_ok t es k v Hw) as [[E Hc]|(E & kb & dc & Hc & Hs')];
    fold ps in E, Hc; rewrite E; [done|].
  exists (with_write t k v kb dc). split; [done|]. split; [by apply with_write_wf|]. split; [by apply Hs'|].
  intros k' lp. rewrite (it_get_at_ok _ es), (it_get_at_ok t es) by (done || by apply with_write_wf).
  rewrite with_write_view_at by done. fold ps. by destruct (keqb k' k && _ && _).
Qed.

(** Writes commute: a batch of writes with distinct (key, offset) pairs
    leaves the same table, counters included, in whatever order the writers
    reach it. *)
Lemma writes_order_independent t es ws ws' :
  it_wf t es -> it_stats t es -> Forall (fun w => iwp_fits w.2) ws -> fresh_writes t ws -> ws ≡ₚ ws' ->
  exists t', insert_all t ws = Ok t' /\ insert_all t ws' = Ok t' /\ it_wf t' es.
Proof. apply insert_all_perm_aux. Qed.

(** ** An example table *)

Definition demo_es : list entry := [([2], mkIWP 8 20 Clean)].

Definition demo_table : IndexTable :=
  mkIT [([1], [mkIWP 100 16 Modified; mkIWP 300 16 Removed]); ([2], [mkIWP 200 16 Modified])] 2 2
    (flat_image None demo_es) None.

Lemma demo_wf : it_wf demo_table demo_es.
Proof.
  split; [split; repeat constructor; cbn; try (done || lia)|].
  split_and!; [done|repeat constructor| |vm_compute; discriminate].
  repeat constructor; cbn; unfold u16_max; lia.
Qed.

Lemma demo_stats : it_stats demo_table demo_es.
Proof. split; reflexivity. Qed.

