(* ===== verification/IndexWalk.v ===== *)
(** * Ordered walks of the index table

    [next_entry], [next_entry_at], [iter_combined] and the iterators built on
    it (src/tidehunter/src/index/index_table/mod.rs) against the sorted list of
    the table's logical entries. *)

From Stdlib Require Import ZArith Lia List Sorting.Sorted.
From stdpp Require Import base tactics list strings.
From S2P Require Import Prelude BTree Bytes Position Flat FlatFacts IndexTable IndexTableFacts.

Local Open Scope Z_scope.

(** ** The reference: one sorted list *)

(** The newest write below a frontier of every key of the overlay. *)
Definition latest_at (lp : LastProcessed) (data : overlay) : list entry :=
  bt_omap (fun _ ps => last (processed_of lp ps)) data.

(** Every key of the table with the entry it resolves to, ascending. *)
Definition combined (t : IndexTable) (es : list entry) : list entry :=
  ordered_merge es (latest_of (it_data t)).

Definition combined_at (t : IndexTable) (es : list entry) (lp : LastProcessed) : list entry :=
  ordered_merge es (latest_at lp (it_data t)).

(** The entry nearest to [prev] in a sorted list: strictly after it, or
    strictly before it. *)
Definition nearest {V} (m : list (list Z * V)) (prev : option (list Z)) (d : Direction) : option (list Z * V) :=
  match d with
  | Forward => head (match prev with Some p => bt_above p m | None => m end)
  | Backward => last (match prev with Some p => bt_below p m | None => m end)
  end.

Definition as_wal (e : entry) : list Z * WalPosition := (e.1, into_wal_position e.2).

Lemma bt_get_latest_at lp data k :
  overlay_wf data -> bt_get k (latest_at lp data) = last (processed_of lp (positions_of data k)).
Proof.
  intros [Hs _]. unfold latest_at. rewrite bt_get_omap by done. unfold positions_of.
  by destruct (bt_get k data).
Qed.

Lemma latest_at_sorted lp data : overlay_wf data -> bt_sorted (latest_at lp data).
Proof. intros [? _]. by apply bt_omap_sorted. Qed.

Lemma combined_sorted t es : it_wf t es -> bt_sorted (combined t es).
Proof. intros [Hw (_ & Hs & _)]. apply ordered_merge_sorted; [done|by apply latest_of_sorted]. Qed.

Lemma bt_get_combined t es k : it_wf t es -> bt_get k (combined t es) = it_view t es k.
Proof.
  intros [Hw (_ & Hs & _)]. unfold combined.
  rewrite bt_get_ordered_merge, bt_get_latest_of by (done || by apply latest_of_sorted). done.
Qed.

Lemma combined_at_sorted t es lp : it_wf t es -> bt_sorted (combined_at t es lp).
Proof. intros [Hw (_ & Hs & _)]. apply ordered_merge_sorted; [done|by apply latest_at_sorted]. Qed.

Lemma bt_get_combined_at t es lp k : it_wf t es -> bt_get k (combined_at t es lp) = it_view_at t es k lp.
Proof.
  intros [Hw (_ & Hs & _)]. unfold combined_at.
  rewrite bt_get_ordered_merge, bt_get_latest_at by (done || by apply latest_at_sorted). done.
Qed.

Lemma iter_combined_ok t es : it_wf t es -> iter_combined t = Ok (combined t es).
Proof.
  intros [Hw Hr]. unfold iter_combined, data_iter_latest.
  rewrite (flat_repr_iter _ _ _ Hr). cbn [mbind outcome_bind]. by rewrite data_latest_ok.
Qed.

(** ** Heads and lasts of sorted lists *)

Lemma bt_last_spec {V} (m : list (list Z * V)) k v :
  bt_sorted m -> last m = Some (k, v) <-> In (k, v) m /\ forall e, In e m -> kle e.1 k.
Proof.
  revert k v. induction m as [|[k' v'] m IH]; intros k v; [naive_solver|]. intros [Hs Hf]%bt_sorted_cons.
  rewrite last_cons. rewrite List.Forall_forall in Hf. specialize (fun k v => IH k v Hs).
  destruct (last m) as [[kl vl]|] eqn:El; [|apply last_None in El as ->].
  - destruct (proj1 (IH kl vl) eq_refl) as [Hin Hmax]. split.
    + intros [= -> ->]. split; [by right|]. intros e [<-|He]; [|auto]. apply kle_iff. left. by apply (Hf (k, v)).
    + intros [[[= -> ->]|Hin'] Hm]; [|apply IH; split; [done|]; intros; apply Hm; by right].
      exfalso. specialize (Hm (kl, vl) (or_intror Hin)). apply kle_not_lt in Hm. by apply Hm, (Hf (kl, vl)).
  - cbn. split.
    + intros [= -> ->]. split; [by left|]. intros e [<-|[]]. apply kle_iff. by right.
    + naive_solver.
Qed.

Lemma sorted_key_inj {V} (m : list (list Z * V)) k v w : bt_sorted m -> In (k, v) m -> In (k, w) m -> v = w.
Proof. intros Hs H1 H2. apply bt_get_In in H1, H2; [|done..]. congruence. Qed.

(** Filtering by key commutes with the merge. *)
Lemma ordered_merge_filter {V} (f : list Z -> bool) (l r : list (list Z * V)) :
  bt_sorted l -> bt_sorted r ->
  List.filter (fun e => f e.1) (ordered_merge l r) =
  ordered_merge (List.filter (fun e => f e.1) l) (List.filter (fun e => f e.1) r).
Proof.
  intros Hl Hr. apply bt_sorted_ext; auto with tide. intros k.
  rewrite bt_get_filter, !bt_get_ordered_merge, !bt_get_filter by auto with tide. cbn [fst].
  destruct (bt_get k l), (bt_get k r); by destruct (f k).
Qed.

(** The nearer of two candidates, the first on ties. *)
Definition pick_near {V} (a b : option (list Z * V)) (d : Direction) : option (list Z * V) :=
  match a, b with
  | Some x, Some y =>
      if (match d with Forward => kleb x.1 y.1 | Backward => kleb y.1 x.1 end) then Some x else Some y
  | Some x, None => Some x
  | None, b => b
  end.

Lemma pick_candidate_near (a b : option entry) d :
  pick_candidate a (option_map as_wal b) d = option_map as_wal (pick_near a b d).
Proof.
  destruct a as [[ak av]|], b as [[bk bv]|]; try done. unfold pick_candidate, pick_near, as_wal, kleb.
  cbn [option_map fst snd]. destruct d; [by destruct (kcmp ak bk)|].
  rewrite (kcmp_antisym ak bk). by destruct (kcmp ak bk).
Qed.

(** The nearer of the heads, or lasts, is the head, or last, of the merge. *)
Lemma pick_head {V} (l r : list (list Z * V)) :
  pick_near (head r) (head l) Forward = head (ordered_merge l r).
Proof.
  destruct l as [|[lk lv] l], r as [|[rk rv] r]; try done.
  rewrite ordered_merge_cons. unfold pick_near, kleb. cbn [head fst snd].
  rewrite (kcmp_antisym lk rk). by destruct (kcmp lk rk).
Qed.

Lemma ordered_merge_In {V} (l r : list (list Z * V)) e :
  bt_sorted l -> bt_sorted r -> In e (ordered_merge l r) -> In e l \/ In e r.
Proof.
  intros Hl Hr. destruct e as [k v]. rewrite <- !bt_get_In, bt_get_ordered_merge by auto with tide.
  destruct (bt_get k r); naive_solver.
Qed.

Lemma pick_last {V} (l r : list (list Z * V)) :
  bt_sorted l -> bt_sorted r -> pick_near (last r) (last l) Backward = last (ordered_merge l r).
Proof.
  intros Hl Hr. pose proof (ordered_merge_sorted l r Hl Hr) as Hm.
  destruct (last r) as [[rk rv]|] eqn:Er; [|apply last_None in Er as ->; by rewrite ordered_merge_nil_r].
  destruct (last l) as [[lk lv]|] eqn:El; [|apply last_None in El as ->; by destruct r].
  apply bt_last_spec in Er as [Ir Mr]; [|done]. apply bt_last_spec in El as [Il Ml]; [|done].
  symmetry. unfold pick_near. cbn [fst snd]. destruct (kleb_spec lk rk) as [Hle|Hgt].
  - apply bt_last_spec; [done|]. split.
    + apply bt_get_In in Ir; [|done]. apply bt_get_In; [done|]. rewrite bt_get_ordered_merge by done. by rewrite Ir.
    + intros e [He|He]%ordered_merge_In; [|auto|done|done]. specialize (Ml _ He).
      apply kle_iff. apply kle_iff in Hle as [Hlt|<-]; [left; by eapply kle_lt_trans|by apply kle_iff].
  - assert (klt rk lk) as Hlt by (destruct (k_total rk lk) as [?|[->|?]]; [done| |]; destruct Hgt; apply kle_iff; auto).
    apply bt_last_spec; [done|]. split.
    + apply bt_get_In in Il; [|done]. apply bt_get_In; [done|]. rewrite bt_get_ordered_merge by done.
      destruct (bt_get lk r) eqn:E; [|done]. apply bt_get_In in E; [|done]. specialize (Mr _ E).
      by apply kle_not_lt in Mr.
    + intros e [He|He]%ordered_merge_In; [auto| |done|done]. apply kle_iff. left.
      eapply kle_lt_trans; [by apply Mr|done].
Qed.

(** The nearest entry of a merge is the nearer of both sides' nearest. *)
Lemma nearest_merge {V} (l r : list (list Z * V)) prev d :
  bt_sorted l -> bt_sorted r ->
  pick_near (nearest r prev d) (nearest l prev d) d = nearest (ordered_merge l r) prev d.
Proof.
  intros Hl Hr. destruct d, prev as [p|]; cbn [nearest]; unfold bt_above, bt_below.
  - rewrite (ordered_merge_filter (fun k => kltb p k)) by done. apply pick_head.
  - apply pick_head.
  - rewrite (ordered_merge_filter (fun k => kltb k p)) by done. apply pick_last; auto with tide.
  - by apply pick_last.
Qed.

(** ** The flat buffer's neighbours *)

Lemma flat_next_forward_ok t es prev :
  flat_repr (it_flat t) (it_key_size t) es ->
  flat_next_forward t prev = Ok (option_map as_wal (nearest es prev Forward)).
Proof.
  intros Hr. pose proof Hr as (_ & Hs & _). unfold flat_next_forward.
  destruct (it_flat t) eqn:E.
  { rewrite (proj1 (flat_repr_empty [] _ es Hr) eq_refl). by destruct prev. }
  rewrite <- E in *. clear E. destruct prev as [p|]; cbn [mbind outcome_bind].
  - rewrite (flat_upper_bound_repr _ _ _ p Hr). cbn [mbind outcome_bind].
    rewrite (flat_entry_in_range_ok t es) by done. cbn [mbind outcome_bind nearest]. f_equal.
    assert (es !! length (bt_upto p es) = head (bt_above p es)) as ->; [|by destruct (head _) as [[? ?]|]].
    rewrite <- (lookup_app_head (bt_upto p es)). f_equal.
    rewrite (sorted_split (fun x => kleb x p) es Hs (downward_le p)) at 1. unfold bt_upto, bt_above.
    f_equal. apply List.filter_ext. intros [k v]. cbn.
    unfold kleb, kltb. rewrite (kcmp_antisym p k). by destruct (kcmp p k).
  - rewrite (flat_entry_in_range_ok t es) by done. cbn. by destruct es as [|[? ?] ?].
Qed.

Lemma flat_next_reverse_ok t es prev :
  flat_repr (it_flat t) (it_key_size t) es ->
  flat_next_reverse t prev = Ok (option_map as_wal (nearest es prev Backward)).
Proof.
  intros Hr. pose proof Hr as (_ & Hs & _). unfold flat_next_reverse.
  destruct (it_flat t) eqn:E.
  { rewrite (proj1 (flat_repr_empty [] _ es Hr) eq_refl). by destruct prev. }
  rewrite <- E in *. clear E.
  assert (exists a b, es = a ++ b /\ nearest es prev Backward = last a /\
            match prev with
            | Some p => flat_lower_bound (it_flat t) (it_key_size t) p
            | None => Ok (flat_count (it_flat t) (it_key_size t))
            end = Ok (length a)) as (a & b & Hes & -> & ->).
  { destruct prev as [p|].
    - exists (bt_below p es), (List.filter (fun e => negb (kltb e.1 p)) es). split_and!; [|done|].
      + apply (sorted_split (fun x => kltb x p) es Hs (downward_lt p)).
      + by rewrite (flat_lower_bound_repr _ _ _ p Hr).
    - exists es, []. rewrite app_nil_r. split_and!; [done|done|]. by rewrite (flat_repr_count _ _ _ Hr). }
  cbn [mbind outcome_bind]. destruct a as [|[k v] a _] using rev_ind; [done|].
  rewrite length_app, last_snoc. cbn [length].
  destruct (Nat.eqb_spec (length a + 1) 0); [lia|].
  replace (length a + 1 - 1)%nat with (length a) by lia.
  rewrite (flat_repr_at _ _ _ a (k, v) b Hr); [done|]. by rewrite Hes, <- app_assoc.
Qed.

(** ** The overlay's neighbours *)

Lemma bt_omap_filter {V W} (g : list Z -> V -> option W) (f : list Z -> bool) m :
  bt_omap g (List.filter (fun e => f e.1) m) = List.filter (fun e => f e.1) (bt_omap g m).
Proof.
  induction m as [|[k v] m IH]; [done|]. cbn [List.filter fst]. rewrite bt_omap_cons.
  destruct (f k) eqn:Ef; rewrite ?bt_omap_cons; destruct (g k v); cbn [List.filter fst]; rewrite ?Ef, ?IH; done.
Qed.

Lemma bt_omap_rev {V W} (g : list Z -> V -> option W) m : bt_omap g (rev m) = rev (bt_omap g m).
Proof.
  induction m as [|[k v] m IH]; [done|]. cbn [rev]. rewrite bt_omap_cons. unfold bt_omap in *.
  rewrite omap_app, IH. cbn. by destruct (g k v); cbn; rewrite ?app_nil_r.
Qed.

Lemma head_rev {A} (l : list A) : head (rev l) = last l.
Proof.
  destruct l as [|x l _] using rev_ind; [done|]. by rewrite rev_unit, last_snoc.
Qed.

Lemma data_range_wf t prev d : overlay_wf (it_data t) -> overlay_wf (data_range t prev d).
Proof.
  intros [Hs Hf]. destruct prev, d; cbn [data_range]; unfold bt_above, bt_below;
    (split; [try by apply bt_filter_sorted | by try apply Forall_List_filter]); done.
Qed.

Lemma latest_of_range t prev d :
  nearest (latest_of (it_data t)) prev d =
  match d with
  | Forward => head (latest_of (data_range t prev d))
  | Backward => last (latest_of (data_range t prev d))
  end.
Proof.
  unfold latest_of. destruct prev as [p|], d; cbn [data_range nearest]; try done;
    unfold bt_above, bt_below.
  - by rewrite (bt_omap_filter _ (fun k => kltb p k)).
  - by rewrite (bt_omap_filter _ (fun k => kltb k p)).
Qed.

Lemma with_latest_head data : overlay_wf data -> with_latest (head data) = Ok (head (latest_of data)).
Proof.
  destruct data as [|[k ps] data]; [done|]. intros (Hp & _)%overlay_wf_cons.
  destruct (positions_ok_last ps Hp) as [p E]. unfold latest_of. rewrite bt_omap_cons, E. cbn.
  by rewrite E.
Qed.

Lemma with_latest_last data : overlay_wf data -> with_latest (last data) = Ok (last (latest_of data)).
Proof.
  intros [Hs Hf]. rewrite <- (head_rev (latest_of data)), <- (head_rev data). unfold latest_of.
  rewrite <- bt_omap_rev. assert (Forall (fun kp : list Z * list IndexWalPosition => positions_ok kp.2) (rev data)) as Hr
    by (by apply Forall_rev).
  destruct (rev data) as [|[k ps] l]; [done|]. apply Forall_cons in Hr as [Hp _].
  destruct (positions_ok_last ps Hp) as [p E]. rewrite bt_omap_cons, E. cbn. by rewrite E.
Qed.

Lemma find_processed_head lp l :
  find_processed lp l = head (bt_omap (fun _ ps => last (processed_of lp ps)) l).
Proof.
  induction l as [|[k ps] l IH]; [done|]. cbn [find_processed]. rewrite bt_omap_cons, latest_processed_of.
  by destruct (last (processed_of lp ps)).
Qed.

Lemma latest_at_range t lp prev d :
  match d with
  | Forward => data_next_forward_at t prev lp
  | Backward => data_next_reverse_at t prev lp
  end = nearest (latest_at lp (it_data t)) prev d.
Proof.
  unfold data_next_forward_at, data_next_reverse_at, latest_at.
  destruct d; rewrite find_processed_head, ?bt_omap_rev, ?head_rev;
    destruct prev as [p|]; cbn [data_range nearest]; try done; unfold bt_above, bt_below.
  - by rewrite (bt_omap_filter _ (fun k => kltb p k)).
  - by rewrite (bt_omap_filter _ (fun k => kltb k p)).
Qed.

(** ** The walks *)

Lemma pick_nearest (l r : list entry) prev d :
  bt_sorted l -> bt_sorted r ->
  pick_candidate (nearest r prev d) (option_map as_wal (nearest l prev d)) d =
  option_map as_wal (nearest (ordered_merge l r) prev d).
Proof. intros Hl Hr. by rewrite pick_candidate_near, nearest_merge. Qed.

Lemma next_entry_ok t es prev reverse :
  it_wf t es ->
  next_entry t prev reverse =
  Ok (option_map as_wal (nearest (combined t es) prev (direction_from_bool reverse))).
Proof.
  intros [Hw Hr]. pose proof Hr as (_ & Hs & _). unfold next_entry, next_entry_directional, combined.
  set (d := direction_from_bool reverse).
  rewrite <- pick_nearest by (done || by apply latest_of_sorted). rewrite latest_of_range.
  destruct d; unfold data_next_forward, data_next_reverse.
  - rewrite with_latest_head by (by apply data_range_wf). cbn [mbind outcome_bind].
    by rewrite (flat_next_forward_ok t es).
  - rewrite with_latest_last by (by apply data_range_wf). cbn [mbind outcome_bind].
    by rewrite (flat_next_reverse_ok t es).
Qed.

Lemma next_entry_at_ok t es prev reverse lp :
  it_wf t es ->
  next_entry_at t prev reverse lp =
  Ok (option_map as_wal (nearest (combined_at t es lp) prev (direction_from_bool reverse))).
Proof.
  intros [Hw Hr]. pose proof Hr as (_ & Hs & _). unfold next_entry_at, next_entry_directional_at, combined_at.
  set (d := direction_from_bool reverse).
  rewrite <- pick_nearest by (done || by apply latest_at_sorted). rewrite <- latest_at_range. cbv zeta.
  destruct d; cbn [mbind outcome_bind].
  - by rewrite (flat_next_forward_ok t es).
  - by rewrite (flat_next_reverse_ok t es).
Qed.

(** ** [nearest], declaratively *)

(** [k] lies past the cursor in direction [d]. *)
Definition past (prev : option (list Z)) (d : Direction) (k : list Z) : Prop :=
  match prev, d with
  | None, _ => True
  | Some p, Forward => klt p k
  | Some p, Backward => klt k p
  end.

(** [a] comes before [b] in direction [d]. *)
Definition not_after (d : Direction) (a b : list Z) : Prop :=
  match d with Forward => kle a b | Backward => kle b a end.

Lemma bt_head_spec {V} (m : list (list Z * V)) k v :
  bt_sorted m -> head m = Some (k, v) -> In (k, v) m /\ forall e, In e m -> kle k e.1.
Proof.
  destruct m as [|[k' v'] m]; [done|]. intros [_ Hf]%bt_sorted_cons [= -> ->]. split; [by left|].
  rewrite List.Forall_forall in Hf. intros e [<-|He]; apply kle_iff; [by right|left]. by apply Hf.
Qed.

Lemma range_In {V} (m : list (list Z * V)) prev d e :
  In e (match d with
        | Forward => match prev with Some p => bt_above p m | None => m end
        | Backward => match prev with Some p => bt_below p m | None => m end
        end) <-> In e m /\ past prev d e.1.
Proof.
  destruct d, prev as [p|]; cbn [past]; unfold bt_above, bt_below; rewrite ?filter_In; try tauto.
  - destruct (kltb_spec p e.1); naive_solver.
  - destruct (kltb_spec e.1 p); naive_solver.
Qed.

Lemma nearest_spec {V} (m : list (list Z * V)) prev d :
  bt_sorted m ->
  match nearest m prev d with
  | Some (k, v) =>
      bt_get k m = Some v /\ past prev d k /\
      forall k', is_Some (bt_get k' m) -> past prev d k' -> not_after d k k'
  | None => forall k', is_Some (bt_get k' m) -> ~ past prev d k'
  end.
Proof.
  intros Hs. pose proof (range_In m prev d) as HIn.
  assert (forall k' w, bt_get k' m = Some w -> past prev d k' -> In (k', w)
    (match d with
     | Forward => match prev with Some p => bt_above p m | None => m end
     | Backward => match prev with Some p => bt_below p m | None => m end
     end)) as Hr.
  { intros k' w Hg Hp. apply HIn. split; [by apply bt_get_In|done]. }
  assert (bt_sorted (match prev with Some p => bt_above p m | None => m end) /\
          bt_sorted (match prev with Some p => bt_below p m | None => m end)) as [Hs1 Hs2].
  { unfold bt_above, bt_below. destruct prev; auto with tide. }
  unfold nearest. destruct d.
  - destruct (head _) as [[k v]|] eqn:E.
    + apply bt_head_spec in E as [Hin Hmin]; [|done]. apply HIn in Hin as [Hin Hp].
      split_and!; [by apply bt_get_In|done|]. intros k' [w Hw] Hp'. by apply (Hmin (k', w)), Hr.
    + intros k' [w Hw] Hp. specialize (Hr k' w Hw Hp). destruct (match prev with Some _ => _ | None => _ end); done.
  - destruct (last _) as [[k v]|] eqn:E.
    + apply bt_last_spec in E as [Hin Hmax]; [|done]. apply HIn in Hin as [Hin Hp].
      split_and!; [by apply bt_get_In|done|]. intros k' [w Hw] Hp'. by apply (Hmax (k', w)), Hr.
    + intros k' [w Hw] Hp. specialize (Hr k' w Hw Hp). apply last_None in E. by rewrite E in Hr.
Qed.

(** ** Properties *)

(** What [next_entry] and [next_entry_at] promise, for the view [view] of the
    table: the nearest key past the cursor with its position, tombstones
    included; nothing only when no key lies past the cursor. *)
Definition finds_nearest (view : list Z -> option IndexWalPosition) (prev : option (list Z)) (d : Direction)
    (found : option (list Z * WalPosition)) : Prop :=
  match found with
  | Some (k, w) =>
      (exists p, view k = Some p /\ w = into_wal_position p) /\ past prev d k /\
      forall k', is_Some (view k') -> past prev d k' -> not_after d k k'
  | None => forall k', is_Some (view k') -> ~ past prev d k'
  end.

Lemma nearest_finds (m : list entry) view prev d :
  bt_sorted m -> (forall k, bt_get k m = view k) ->
  finds_nearest view prev d (option_map as_wal (nearest m prev d)).
Proof.
  intros Hs Hv. pose proof (nearest_spec m prev d Hs) as Hn. unfold finds_nearest.
  destruct (nearest m prev d) as [[k p]|]; cbn.
  - destruct Hn as (Hg & Hp & Hm). rewrite Hv in Hg. split_and!; [by exists p|done|].
    intros k' Hk'. rewrite <- Hv in Hk'. by apply Hm.
  - intros k' Hk'. rewrite <- Hv in Hk'. by apply Hn.
Qed.

(** Ordered iteration, in both directions: [next_entry] never panics on a
    well-formed table and returns the nearest key strictly past the cursor over
    the overlay and the flat buffer together, resolved as [get] resolves it. *)
Lemma next_entry_nearest t es prev reverse :
  it_wf t es ->
  exists found, next_entry t prev reverse = Ok found /\
    finds_nearest (it_view t es) prev (direction_from_bool reverse) found.
Proof.
  intros Hw. eexists. split; [by apply next_entry_ok|]. apply nearest_finds; [by apply combined_sorted|].
  intros k. by apply bt_get_combined.
Qed.

(** Ordered iteration at a frontier: [next_entry_at] walks exactly the keys
    [get_at] resolves at that frontier, nearest first. *)
Lemma next_entry_at_nearest t es prev reverse lp :
  it_wf t es ->
  exists found, next_entry_at t prev reverse lp = Ok found /\
    finds_nearest (fun k => it_view_at t es k lp) prev (direction_from_bool reverse) found.
Proof.
  intros Hw. eexists. split; [by apply next_entry_at_ok|]. apply nearest_finds; [by apply combined_at_sorted|].
  intros k. by apply bt_get_combined_at.
Qed.

