(* ===== verification/IndexPromote.v ===== *)
(** * Promotion of the write buffer into the flat buffer

    [merge_into_flat] (src/tidehunter/src/index/index_table/flat.rs) and
    [promote_to_flat*] (src/tidehunter/src/index/index_table/mod.rs): promotion
    never changes what a reader sees, live or at a frontier not below the one
    promoted at, and does not panic on tables whose flat buffer can hold the
    result. *)

From Stdlib Require Import ZArith Lia List Sorting.Sorted.
From stdpp Require Import base tactics list strings.
From S2P Require Import Prelude BTree Bytes Position Flat FlatFacts IndexTable IndexOps IndexTableFacts.
From S2P Require Import IndexWalk.

Local Open Scope Z_scope.

(** ** Room in the flat buffer *)

(** A key the layout can hold. *)
Definition key_fits (ks : option nat) (k : list Z) : Prop :=
  match ks with Some n => length k = n | None => Z.of_nat (length k) <= u16_max end.

Definition keys_fit (ks : option nat) (data : overlay) : Prop :=
  Forall (fun kp => key_fits ks kp.1) data.

(** The bytes the variable-length entries of these keys take. *)
Fixpoint keys_size (ks : list (list Z)) : nat :=
  match ks with [] => 0 | k :: ks' => 14 + length k + keys_size ks' end.

Lemma length_var_section es : length (var_section es) = keys_size (List.map fst es).
Proof.
  induction es as [|e es IH]; [done|].
  replace (var_section (e :: es)) with (var_image e ++ var_section es) by done.
  rewrite length_app, length_var_image, IH. done.
Qed.

Lemma keys_size_app a b : keys_size (a ++ b) = (keys_size a + keys_size b)%nat.
Proof. induction a as [|k a IH]; [done|]. cbn. rewrite IH. lia. Qed.

Lemma keys_size_perm a b : a ≡ₚ b -> keys_size a = keys_size b.
Proof. induction 1; cbn; lia. Qed.

Lemma keys_size_subset a b :
  NoDup a -> (forall k, In k a -> In k b) -> (keys_size a <= keys_size b)%nat.
Proof.
  intros Hnd Hsub. assert (a ⊆+ b) as Hs.
  { apply NoDup_submseteq; [done|]. intros k. rewrite !list_elem_of_In. apply Hsub. }
  apply submseteq_Permutation in Hs as [c Hc]. rewrite (keys_size_perm _ _ Hc), keys_size_app. lia.
Qed.

Lemma sorted_keys_NoDup {V} (m : list (list Z * V)) : bt_sorted m -> NoDup (List.map fst m).
Proof.
  induction m as [|[k v] m IH]; [constructor|]. intros [Hs Hf]%bt_sorted_cons. cbn.
  apply NoDup_cons. split; [|by apply IH]. rewrite list_elem_of_In, in_map_iff. intros ([k' v'] & <- & Hin).
  rewrite List.Forall_forall in Hf. specialize (Hf _ Hin). by apply klt_irrefl in Hf.
Qed.

(** A list with fewer keys fits wherever a larger one does. *)
Lemma size_fits_subset ks (a b : list entry) :
  bt_sorted a -> (forall k, is_Some (bt_get k a) -> is_Some (bt_get k b)) -> bt_sorted b ->
  size_fits ks b -> size_fits ks a.
Proof.
  intros Ha Hsub Hb. destruct ks as [n|]; [done|]. unfold size_fits. rewrite !length_var_section.
  intros Hs. etrans; [|exact Hs]. apply Nat2Z.inj_le, keys_size_subset; [by apply sorted_keys_NoDup|].
  intros k. rewrite !in_map_iff. intros ([k' v] & <- & Hin). apply bt_get_In in Hin; [|done].
  destruct (Hsub k') as [w Hw]; [by rewrite Hin|]. exists (k', w). split; [done|]. by apply bt_get_In.
Qed.

Lemma latest_of_fits ks data :
  overlay_wf data -> keys_fit ks data -> Forall (entry_fits ks) (latest_of data).
Proof.
  intros [_ Hf] Hk. unfold latest_of. induction data as [|[k ps] data IH]; [constructor|].
  apply Forall_cons in Hf as [(_ & _ & Hp) Hf]. apply Forall_cons in Hk as [Hk1 Hk].
  rewrite bt_omap_cons. destruct (last ps) as [p|] eqn:E; [|by apply IH].
  constructor; [|by apply IH]. split; [|done]. cbn. apply last_Some in E as [l ->].
  by apply Forall_app in Hp as [_ [? _]%Forall_cons].
Qed.

(** The table's whole content fits one flat buffer. *)
Definition it_fits (t : IndexTable) (es : list entry) : Prop :=
  keys_fit (it_key_size t) (it_data t) /\ size_fits (it_key_size t) (combined t es).

(** ** Promotion *)

(** The keys a promotion at [lp] moves. *)
Definition promoted (lp : LastProcessed) (data : overlay) : list entry :=
  List.filter (fun kv => is_processed lp kv.2) (latest_of data).

Definition promoted_flat (lp : LastProcessed) (t : IndexTable) (es : list entry) : list entry :=
  ordered_merge es (promoted lp (it_data t)).

Definition kept_data (lp : LastProcessed) (data : overlay) : overlay :=
  bt_omap (fun _ ps => match last ps with
                       | Some p => if is_processed lp p then None else Some ps
                       | None => None
                       end) data.

Lemma drop_data_keys_ok data lp :
  overlay_wf data ->
  drop_data_keys data (fun _ v => negb (is_processed lp v)) = Ok (kept_data lp data).
Proof.
  induction data as [|[k ps] data IH]; [done|]. intros (Hp & Hw & _)%overlay_wf_cons.
  destruct (positions_ok_last ps Hp) as [p E]. cbn [drop_data_keys]. rewrite E, IH by done.
  unfold kept_data. rewrite bt_omap_cons, E. cbn. by destruct (is_processed lp p).
Qed.

Lemma promoted_sorted lp data : overlay_wf data -> bt_sorted (promoted lp data).
Proof. intros H. by apply bt_filter_sorted, latest_of_sorted. Qed.

Lemma bt_get_promoted lp data k :
  overlay_wf data ->
  bt_get k (promoted lp data) =
  match last (positions_of data k) with
  | Some p => if is_processed lp p then Some p else None
  | None => None
  end.
Proof.
  intros Hw. unfold promoted. rewrite bt_get_filter, bt_get_latest_of by (done || by apply latest_of_sorted). done.
Qed.

Lemma kept_data_wf lp data : overlay_wf data -> overlay_wf (kept_data lp data).
Proof.
  intros [Hs Hf]. split; [by apply bt_omap_sorted|]. unfold kept_data.
  clear Hs. induction Hf as [|[k ps] data Hp Hf IH]; [constructor|]. rewrite bt_omap_cons.
  destruct (last ps) as [p|]; [|done]. destruct (is_processed lp p); [done|by constructor].
Qed.

Lemma positions_of_kept lp data k :
  overlay_wf data ->
  positions_of (kept_data lp data) k =
  match last (positions_of data k) with
  | Some p => if is_processed lp p then [] else positions_of data k
  | None => []
  end.
Proof.
  intros [Hs _]. unfold positions_of, kept_data. rewrite bt_get_omap by done.
  destruct (bt_get k data) as [ps|]; [|done]. cbn. destruct (last ps) as [p|]; [|done].
  by destruct (is_processed lp p).
Qed.

Lemma promoted_flat_sorted lp t es : it_wf t es -> bt_sorted (promoted_flat lp t es).
Proof. intros [Hw (_ & Hs & _)]. apply ordered_merge_sorted; [done|by apply promoted_sorted]. Qed.

Lemma bt_get_promoted_flat lp t es k :
  it_wf t es ->
  bt_get k (promoted_flat lp t es) =
  match last (positions_of (it_data t) k) with
  | Some p => if is_processed lp p then Some p else bt_get k es
  | None => bt_get k es
  end.
Proof.
  intros [Hw (_ & Hs & _)]. unfold promoted_flat.
  rewrite bt_get_ordered_merge, bt_get_promoted by (done || by apply promoted_sorted).
  destruct (last _) as [p|]; [|done]. by destruct (is_processed lp p).
Qed.

Lemma promoted_flat_repr lp t es :
  it_wf t es -> it_fits t es ->
  flat_repr (flat_image (it_key_size t) (promoted_flat lp t es)) (it_key_size t) (promoted_flat lp t es).
Proof.
  intros Hwf [Hk Hsz]. pose proof Hwf as [Hw (_ & Hs & Hf & _)]. split_and!.
  - done.
  - by apply promoted_flat_sorted.
  - apply ordered_merge_Forall; [done|]. by apply Forall_List_filter, latest_of_fits.
  - eapply size_fits_subset; [by apply promoted_flat_sorted| |by apply combined_sorted|exact Hsz].
    intros k. rewrite bt_get_promoted_flat, bt_get_combined by done. unfold it_view.
    destruct (last _) as [p|]; [|done]. by destruct (is_processed lp p).
Qed.

Lemma merge_into_flat_ok lp t es :
  it_wf t es -> it_fits t es ->
  merge_into_flat (it_flat t) (it_key_size t) (it_data t) lp =
  Ok (flat_image (it_key_size t) (promoted_flat lp t es),
      length (List.filter (fun kv => negb (is_clean kv.2)) (promoted_flat lp t es))).
Proof.
  intros Hwf Hfit. pose proof (promoted_flat_repr lp t es Hwf Hfit) as (_ & _ & Hf & Hsz).
  destruct Hwf as [Hw Hr]. unfold merge_into_flat, merge_walk.
  rewrite (flat_repr_iter _ _ _ Hr). cbn [mbind outcome_bind]. rewrite data_latest_ok by done.
  cbn [mbind outcome_bind]. fold (promoted lp (it_data t)). fold (promoted_flat lp t es).
  set (m := promoted_flat lp t es) in *. clearbody m. destruct (it_key_size t) as [n|].
  - rewrite (append_fixed_entries_image n) by done. cbv zeta. by destruct m.
  - pose proof (append_var_entries_image m (be_bytes 4 (Z.of_nat (length m))) [] []
      (4 + 4 * length m)%nat 0 Hf) as Ha. cbn [app length] in Ha.
    destruct m as [|e m'] eqn:Em; [done|]. rewrite <- Em in *.
    assert (length m <> 0)%nat by (by rewrite Em). destruct (Nat.eqb_spec (length m) 0); [done|].
    assert (wrap32 (Z.of_nat (length m)) = Z.of_nat (length m)) as -> by (by apply wrap32_small, size_fits_count).
    cbv zeta. rewrite length_app, length_replicate, length_be_bytes in *. rewrite app_nil_r in Ha.
    rewrite Ha by (done || lia). cbn [mbind outcome_bind]. unfold flat_image. by rewrite Em.
Qed.

(** Promotion at [lp]: it succeeds, keeps the invariant and the counters, and
    no reader can tell, live or at a frontier [lp' >= lp]. *)
Lemma promote_ok lp t es :
  it_wf t es -> it_fits t es ->
  exists t', promote_to_flat_unconditionally t lp = Ok t' /\
    it_wf t' (promoted_flat lp t es) /\ it_stats t' (promoted_flat lp t es) /\
    it_key_size t' = it_key_size t /\ it_data t' = kept_data lp (it_data t) /\
    (forall k, it_view t' (promoted_flat lp t es) k = it_view t es k) /\
    (forall k lp', lp <= lp' -> it_view_at t' (promoted_flat lp t es) k lp' = it_view_at t es k lp').
Proof.
  intros Hwf Hfit. pose proof Hwf as [Hw Hr]. unfold promote_to_flat_unconditionally.
  rewrite (merge_into_flat_ok lp t es) by done. cbn [mbind outcome_bind].
  rewrite drop_data_keys_ok by done. cbn [mbind outcome_bind].
  pose proof (kept_data_wf lp _ Hw) as Hk.
  unfold recount_data_stats, data_iter_latest. cbn [it_data]. rewrite data_latest_ok by done.
  cbn [mbind outcome_bind]. eexists. split; [done|]. split_and!; cbn [it_key_size it_data]; try done.
  - split; [done|]. cbn [it_flat it_key_size]. by apply promoted_flat_repr.
  - intros k. unfold it_view. cbn [it_data]. rewrite positions_of_kept, bt_get_promoted_flat by done.
    destruct (last (positions_of _ k)) as [p|] eqn:E; [|done]. destruct (is_processed lp p); [done|]. by rewrite E.
  - intros k lp' Hle. unfold it_view_at. cbn [it_data]. rewrite positions_of_kept, bt_get_promoted_flat by done.
    destruct (last (positions_of _ k)) as [p|] eqn:E.
    + destruct (is_processed lp p) eqn:Ep; [|done]. cbn [processed_of List.filter last].
      assert (processed_of lp' (positions_of (it_data t) k) = positions_of (it_data t) k) as ->; [|by rewrite E].
      pose proof (positions_of_sorted _ k Hw) as Hs. apply pos_last_spec in E as [_ Hmax]; [|done].
      apply filter_all, List.Forall_forall. intros q Hq. specialize (Hmax _ Hq).
      unfold is_processed, has_offset, iwp_has_offset in *. b2p. apply Z.ltb_lt. lia.
    + apply last_None in E as ->. done.
Qed.

(** ** Properties *)

(** Promotion is invisible: moving the processed part of the write buffer
    into the flat buffer succeeds, leaves a well-formed table with exact
    counters, and no live read and no read at a frontier at or above the
    promotion's changes. *)
Lemma promotion_invisible t es lp :
  it_wf t es -> it_fits t es ->
  exists t' es', promote_to_flat_unconditionally t lp = Ok t' /\ it_wf t' es' /\ it_stats t' es' /\
    forall k, it_get t' k = it_get t k /\ forall lp', lp <= lp' -> it_get_at t' k lp' = it_get_at t k lp'.
Proof.
  intros Hw Hf. destruct (promote_ok lp t es Hw Hf) as (t' & Hp & Hw' & Hst & _ & _ & Hv & Hva).
  exists t', (promoted_flat lp t es). do 3 (split; [done|]). intros k. split.
  - by rewrite (it_get_ok t' _ k Hw'), (it_get_ok t es k Hw), Hv.
  - intros lp' Hle. by rewrite (it_get_at_ok t' _ k lp' Hw'), (it_get_at_ok t es k lp' Hw), Hva.
Qed.

Lemma demo_fits : it_fits demo_table demo_es.
Proof. split; [repeat constructor; cbn; unfold u16_max; lia|]. vm_compute. discriminate. Qed.

