(* ===== verification/IndexFlush.v ===== *)
(** * Flushing an index table

    The frontier filter [retain_processed] and the merge [merge_dirty_and_clean]
    into a loaded base (src/tidehunter/src/index/index_table/mod.rs): together
    they compute the content of the overlay and the base as of the frontier. *)

From Stdlib Require Import ZArith Lia List Sorting.Sorted.
From stdpp Require Import base tactics list strings.
From S2P Require Import Prelude BTree Bytes Position Flat FlatFacts IndexTable IndexOps IndexTableFacts.
From S2P Require Import IndexWalk IndexPromote.

Local Open Scope Z_scope.

(** ** Counters after a bulk operation *)

Lemma refresh_stats_ok t es :
  it_wf t es -> exists t', refresh_stats t = Ok t' /\ it_stats t' es /\
    it_data t' = it_data t /\ it_flat t' = it_flat t /\ it_key_size t' = it_key_size t.
Proof.
  intros [Hw Hr]. unfold refresh_stats, recount_stats, recount_data_stats, data_iter_latest.
  rewrite (flat_repr_iter _ _ _ Hr). cbn [mbind outcome_bind]. rewrite data_latest_ok by done.
  cbn [mbind outcome_bind]. eexists. split; [done|]. done.
Qed.

Lemma it_wf_same t t' es :
  it_wf t es -> it_data t' = it_data t -> it_flat t' = it_flat t -> it_key_size t' = it_key_size t ->
  it_wf t' es.
Proof. unfold it_wf. by intros ? -> -> ->. Qed.

(** ** [retain_processed]: the table as of a frontier *)

Lemma retain_positions_get f data k :
  bt_sorted data ->
  bt_get k (retain_positions f data) =
  match bt_get k data with
  | Some ps => if bool_decide (List.filter f ps = []) then None else Some (List.filter f ps)
  | None => None
  end.
Proof.
  intros Hs. unfold retain_positions.
  rewrite bt_get_filter by (by apply (bt_sorted_map (fun kp => List.filter f kp.2))).
  rewrite (bt_get_map (List.filter f)). destruct (bt_get k data); [|done]. cbn.
  by destruct (bool_decide _).
Qed.

Lemma retain_positions_wf f data : overlay_wf data -> overlay_wf (retain_positions f data).
Proof.
  intros [Hs Hf]. split.
  - apply bt_filter_sorted. by apply (bt_sorted_map (fun kp => List.filter f kp.2)).
  - unfold retain_positions. apply List.Forall_forall. intros [k ps] [Hin Hne]%filter_In.
    apply in_map_iff in Hin as ([k' qs] & [= -> <-] & Hin). cbn in *.
    rewrite List.Forall_forall in Hf. destruct (Hf _ Hin) as (_ & Hq & Hfit). b2p. split_and!.
    + done.
    + by apply pos_sorted_filter.
    + by apply Forall_List_filter.
Qed.

Lemma positions_of_retain f data k :
  overlay_wf data -> positions_of (retain_positions f data) k = List.filter f (positions_of data k).
Proof.
  intros [Hs _]. unfold positions_of. rewrite retain_positions_get by done.
  destruct (bt_get k data) as [ps|]; [|done]. cbn. by case_bool_decide as E; [rewrite E|].
Qed.

Lemma retain_processed_ok t es lp :
  it_wf t es ->
  exists t', retain_processed t lp = Ok t' /\ it_wf t' es /\ it_stats t' es /\
    it_key_size t' = it_key_size t /\
    (forall k, positions_of (it_data t') k = processed_of lp (positions_of (it_data t) k)) /\
    (forall k, it_view t' es k = it_view_at t es k lp).
Proof.
  intros [Hw Hr]. unfold retain_processed.
  destruct (refresh_stats_ok (mkIT (retain_positions (is_processed lp) (it_data t)) (it_key_bytes t)
    (it_dirty_count t) (it_flat t) (it_key_size t)) es) as (t' & -> & Hst & Hd & Hf & Hk).
  { split; [by apply retain_positions_wf|done]. }
  assert (forall k, positions_of (it_data t') k = processed_of lp (positions_of (it_data t) k)) as Hp.
  { intros k. rewrite Hd. cbn [it_data]. by rewrite positions_of_retain. }
  exists t'. split_and!; try done.
  - eapply it_wf_same; [|done..]. split; [by apply retain_positions_wf|done].
  - intros k. unfold it_view, it_view_at. by rewrite Hp.
Qed.

(** ** [merge_dirty_and_clean] into a base with no overlay *)

(** A base as the flusher has it: decoded from a blob, nothing in [data]. *)
Definition flat_only (t : IndexTable) (es : list entry) : Prop :=
  it_data t = [] /\ flat_repr (it_flat t) (it_key_size t) es.

Definition demote_entry (b : bool) (e : entry) : entry := (e.1, demote b e.2).

Definition demote_data (b : bool) (data : overlay) : overlay :=
  List.map (fun kp => (kp.1, List.map (demote b) kp.2)) data.

Lemma demote_offset b p : iwp_offset (demote b p) = iwp_offset p.
Proof. unfold demote. by destruct (b && _). Qed.

Lemma demote_len b p : iwp_len (demote b p) = iwp_len p.
Proof. unfold demote. by destruct (b && _). Qed.

Lemma demote_wal b p : into_wal_position (demote b p) = into_wal_position p.
Proof.
  unfold demote, into_wal_position, is_removed. destruct b; [|done]. cbn.
  destruct p as [o l []]; cbn; done.
Qed.

Lemma demote_fits b p : iwp_fits p -> iwp_fits (demote b p).
Proof. unfold iwp_fits. by rewrite demote_offset, demote_len. Qed.

Lemma pos_sorted_map_demote b ps : pos_sorted ps -> pos_sorted (List.map (demote b) ps).
Proof.
  induction ps as [|p ps IH]; [done|]. intros [Hs Hf]%pos_sorted_cons. cbn. apply pos_sorted_cons.
  split; [by apply IH|]. apply Forall_map. eapply Forall_impl; [exact Hf|]. cbn. intros q.
  by rewrite !demote_offset.
Qed.

(** Inserting past every position of the key appends. *)
Lemma data_insert_sorted_snoc data k ps v :
  positions_of data k = ps ->
  Forall (fun p => iwp_offset p < iwp_offset v) ps ->
  data_insert_sorted data k v = bt_insert k (ps ++ [v]) data.
Proof.
  intros Hps Hlt. unfold data_insert_sorted. unfold positions_of in Hps. rewrite Hps.
  assert (partition_point (fun p => match iwp_cmp p v with Lt => true | _ => false end) ps = length ps) as ->.
  { clear Hps. induction Hlt as [|p ps Hp Hlt IH]; [done|]. cbn. unfold iwp_cmp.
    rewrite (proj2 (Z.compare_lt_iff _ _) Hp). by rewrite <- IH. }
  rewrite lookup_ge_None_2 by done. unfold insert_at.
  by rewrite firstn_all, skipn_all.
Qed.

Lemma data_insert_all b data k ps pre :
  overlay_wf data -> positions_of data k = pre -> pos_sorted (pre ++ List.map (demote b) ps) ->
  Forall iwp_fits ps -> (pre <> [] \/ ps <> []) ->
  fold_left (fun d v => data_insert_sorted d k (demote b v)) ps data =
  (if bool_decide (ps = []) then data else bt_insert k (pre ++ List.map (demote b) ps) data).
Proof.
  revert data pre. induction ps as [|p ps IH]; intros data pre Hw Hpre Hs Hf Hne; [done|].
  apply Forall_cons in Hf as [Hp Hf]. cbn [fold_left List.map] in *.
  assert (Forall (fun q => iwp_offset q < iwp_offset (demote b p)) pre) as Hlt.
  { apply pos_sorted_app in Hs as (_ & _ & H). apply List.Forall_forall. intros q Hq.
    apply H; [done|by left]. }
  rewrite (data_insert_sorted_snoc data k pre) by done.
  assert (overlay_wf (bt_insert k (pre ++ [demote b p]) data)) as Hw'.
  { apply overlay_wf_insert; [done|]. split_and!; [by destruct pre| |].
    - change (demote b p :: List.map (demote b) ps) with ([demote b p] ++ List.map (demote b) ps) in Hs.
      rewrite app_assoc in Hs. by apply pos_sorted_app in Hs as (? & _).
    - apply Forall_app. split; [rewrite <- Hpre; by apply positions_of_fits|].
      constructor; [by apply demote_fits|constructor]. }
  rewrite (IH _ (pre ++ [demote b p])); [|done| | |done|left; by destruct pre].
  - case_bool_decide as E; [by subst ps|]. rewrite bool_decide_eq_false_2 by done.
    rewrite <- app_assoc. cbn [app]. by rewrite bt_insert_twice.
  - by rewrite positions_of_insert, keqb_refl.
  - by rewrite <- app_assoc.
Qed.

Lemma demote_data_wf b data : overlay_wf data -> overlay_wf (demote_data b data).
Proof.
  intros [Hs Hf]. split; [by apply (bt_sorted_map (fun kp => List.map (demote b) kp.2))|].
  apply Forall_map. eapply Forall_impl; [exact Hf|]. intros [k ps] (Hn & Hp & Hfit). cbn in *. split_and!.
  - by destruct ps.
  - by apply pos_sorted_map_demote.
  - apply Forall_map. eapply Forall_impl; [exact Hfit|]. intros p. apply demote_fits.
Qed.

Lemma positions_of_demote b data k : positions_of (demote_data b data) k = List.map (demote b) (positions_of data k).
Proof.
  unfold positions_of, demote_data. rewrite (bt_get_map (List.map (demote b))). by destruct (bt_get k data).
Qed.

Lemma merge_dirty_data_app b data dirty :
  overlay_wf data -> overlay_wf dirty -> (forall k, is_Some (bt_get k dirty) -> bt_get k data = None) ->
  overlay_wf (merge_dirty_data data dirty b) /\
  forall k, positions_of (merge_dirty_data data dirty b) k =
    match bt_get k dirty with Some ps => List.map (demote b) ps | None => positions_of data k end.
Proof.
  revert data. induction dirty as [|[k ps] dirty IH]; intros data Hw Hd Hdis; [done|].
  pose proof Hd as ((Hn & Hs & Hf) & Hd' & Hlt)%overlay_wf_cons. unfold merge_dirty_data. cbn [fold_left fst snd].
  assert (bt_get k data = None) as Hk.
  { apply Hdis. cbn [bt_get]. by rewrite kcmp_refl. }
  rewrite (data_insert_all b data k ps []); [|done|by unfold positions_of; rewrite Hk| |done|by right].
  2: by apply pos_sorted_map_demote.
  rewrite bool_decide_eq_false_2 by done. cbn [app]. fold (merge_dirty_data (bt_insert k (List.map (demote b) ps) data) dirty b).
  assert (positions_ok (List.map (demote b) ps)) as Hok.
  { split_and!; [by destruct ps|by apply pos_sorted_map_demote|].
    apply Forall_map. eapply Forall_impl; [exact Hf|]. intros p. apply demote_fits. }
  destruct (IH (bt_insert k (List.map (demote b) ps) data)) as [Hw' Hp']; [by apply overlay_wf_insert|done| |].
  { intros k' Hk'. rewrite bt_get_insert by apply Hw. destruct (keqb_spec k' k) as [->|Hne].
    - rewrite bt_get_above in Hk' by done. by destruct Hk'.
    - apply Hdis. rewrite bt_get_cons by apply Hd. by destruct (keqb k' k). }
  split; [done|]. intros k'. rewrite Hp'. rewrite bt_get_cons by apply Hd.
  destruct (bt_get k' dirty) eqn:E; destruct (keqb_spec k' k) as [->|Hne]; rewrite ?positions_of_insert, ?keqb_refl by done.
  - by rewrite bt_get_above in E.
  - done.
  - done.
  - by destruct (keqb_spec k' k).
Qed.

Lemma merge_dirty_data_nil b dirty : overlay_wf dirty -> merge_dirty_data [] dirty b = demote_data b dirty.
Proof.
  intros Hd. destruct (merge_dirty_data_app b [] dirty overlay_wf_nil Hd ltac:(done)) as [Hw Hp].
  apply overlay_ext; [done|by apply demote_data_wf|]. intros k. rewrite Hp, positions_of_demote.
  unfold positions_of. by destruct (bt_get k dirty).
Qed.

(** The flat entries of the merged table. *)
Definition merged_flat (b : bool) (base dirty : list entry) : list entry :=
  ordered_merge base (List.map (demote_entry b) dirty).

(** The layout the merge writes: the base's, or the overlay's when the base
    has none yet. *)
Definition merged_key_size (base dirty : IndexTable) : option nat :=
  match it_flat dirty with
  | [] => it_key_size base
  | _ => match it_flat base with [] => it_key_size dirty | _ => it_key_size base end
  end.

(** The merged flat entries fit the layout they are written in. *)
Definition merge_fits (base dirty : IndexTable) (bes des : list entry) : Prop :=
  Forall (fun e => key_fits (merged_key_size base dirty) e.1) des /\
  size_fits (merged_key_size base dirty) (merged_flat true bes des).

Lemma demote_entries_sorted b es : bt_sorted es -> bt_sorted (List.map (demote_entry b) es).
Proof. apply (bt_sorted_map (fun e => demote b e.2)). Qed.

Lemma bt_get_demoted b es k : bt_get k (List.map (demote_entry b) es) = option_map (demote b) (bt_get k es).
Proof. unfold demote_entry. rewrite (bt_get_map (demote b)). by destruct (bt_get k es). Qed.

Lemma merged_flat_sorted b bes des : bt_sorted bes -> bt_sorted des -> bt_sorted (merged_flat b bes des).
Proof. intros. apply ordered_merge_sorted; [done|by apply demote_entries_sorted]. Qed.

Lemma bt_get_merged_flat b bes des k :
  bt_sorted bes -> bt_sorted des ->
  bt_get k (merged_flat b bes des) =
  match bt_get k des with Some p => Some (demote b p) | None => bt_get k bes end.
Proof.
  intros Hb Hd. unfold merged_flat. rewrite bt_get_ordered_merge, bt_get_demoted by (done || by apply demote_entries_sorted).
  by destruct (bt_get k des).
Qed.

(** The cleanup of [self.data] leaves the folded overlay alone. *)
Lemma fold_remove_id (keys : list entry) (data : overlay) :
  bt_sorted data -> Forall (fun e => bt_get e.1 data = None) keys ->
  fold_left (fun d e => bt_remove e.1 d) keys data = data.
Proof.
  intros Hs. induction 1 as [|[k v] keys Hk Hf IH]; [done|]. cbn.
  assert (bt_remove k data = data) as ->; [|done].
  apply bt_sorted_ext; [by apply bt_remove_sorted|done|]. intros k'. rewrite bt_get_remove by done.
  destruct (keqb_spec k' k) as [->|]; [|done]. by symmetry.
Qed.

Lemma demote_last b ps : last (List.map (demote b) ps) = option_map (demote b) (last ps).
Proof.
  induction ps as [|p ps IH]; [done|]. cbn [List.map]. rewrite !last_cons, IH. by destruct (last ps).
Qed.

Lemma demote_processed b lp ps :
  processed_of lp (List.map (demote b) ps) = List.map (demote b) (processed_of lp ps).
Proof.
  unfold processed_of. induction ps as [|p ps IH]; [done|]. cbn [List.map List.filter].
  assert (is_processed lp (demote b p) = is_processed lp p) as ->.
  { unfold is_processed, has_offset, iwp_has_offset. by rewrite demote_offset. }
  rewrite IH. by destruct (is_processed lp p).
Qed.

Lemma merged_flat_repr b base dirty bes des :
  flat_only base bes -> it_wf dirty des -> merge_fits base dirty bes des ->
  flat_repr (flat_image (merged_key_size base dirty) (merged_flat b bes des))
    (merged_key_size base dirty) (merged_flat b bes des).
Proof.
  intros [Hbd Hbr] [Hdw Hdr] [Hk Hsz]. pose proof Hbr as (_ & Hbs & Hbf & _). pose proof Hdr as (_ & Hds & Hdf & _).
  split_and!; [done|by apply merged_flat_sorted| |].
  2:{ eapply size_fits_subset; [by apply merged_flat_sorted| |by apply (merged_flat_sorted true bes des)|done].
      intros k. rewrite !bt_get_merged_flat by done. by destruct (bt_get k des). }
  apply ordered_merge_Forall.
  - unfold merged_key_size in *. destruct (it_flat dirty); [done|].
    destruct (it_flat base) eqn:Eb; [|done]. by rewrite (proj1 (flat_repr_empty [] _ bes Hbr) eq_refl).
  - apply Forall_map, List.Forall_forall. intros e He. rewrite List.Forall_forall in *. split; cbn.
    + apply demote_fits. by apply (Hdf e).
    + by apply Hk.
Qed.

Lemma fold_dirty_flat_ok b base dirty bes des kb dc :
  flat_only base bes -> it_wf dirty des -> merge_fits base dirty bes des -> it_flat dirty <> [] ->
  fold_dirty_flat (mkIT (demote_data b (it_data dirty)) kb dc (it_flat base) (it_key_size base)) dirty b =
  Ok (mkIT (demote_data b (it_data dirty)) kb dc
        (flat_image (merged_key_size base dirty) (merged_flat b bes des)) (merged_key_size base dirty),
      dirty_len (merged_flat b bes des)).
Proof.
  intros Hb Hd Hfit Hne. pose proof (merged_flat_repr b base dirty bes des Hb Hd Hfit) as (_ & _ & Hf & Hsz).
  destruct Hb as [Hbd Hbr], Hd as [Hdw Hdr]. unfold fold_dirty_flat. cbn [it_flat it_key_size it_data it_key_bytes it_dirty_count].
  assert (match it_flat base with [] => it_key_size dirty | _ :: _ => it_key_size base end =
          merged_key_size base dirty) as ->.
  { unfold merged_key_size. by destruct (it_flat dirty). }
  assert (flat_iter (it_flat base) (merged_key_size base dirty) = Ok bes) as ->.
  { unfold merged_key_size. destruct (it_flat dirty); [done|].
    destruct (it_flat base) eqn:Eb; [|rewrite <- Eb in *; by apply flat_repr_iter].
    by rewrite (proj1 (flat_repr_empty [] _ bes Hbr) eq_refl). }
  cbn [mbind outcome_bind]. rewrite (flat_repr_iter _ _ _ Hdr). cbn [mbind outcome_bind]. cbv zeta.
  fold (merged_flat b bes des).
  replace (ordered_merge bes (List.map (fun e => (e.1, demote b e.2)) des)) with (merged_flat b bes des) by done.
  rewrite build_flat_bytes_image by done. cbn [mbind outcome_bind].
  rewrite fold_remove_id; [done|by apply demote_data_wf|].
  apply List.Forall_forall. intros [k v] [Hin Hnk]%filter_In. cbn [fst] in *. b2p.
  unfold data_contains_key, bt_mem in Hnk. unfold demote_data. rewrite (bt_get_map (List.map (demote b))).
  by destruct (bt_get k (it_data dirty)).
Qed.

(** The merge of [dirty] into a base: the overlay keeps every position, and the
    fresher side wins in the flat buffer. *)
Lemma merge_dirty_gen b base dirty bes des :
  flat_only base bes -> it_wf dirty des -> merge_fits base dirty bes des ->
  exists t', merge_dirty base dirty b = Ok t' /\ it_wf t' (merged_flat b bes des) /\
    it_stats t' (merged_flat b bes des) /\ it_key_size t' = merged_key_size base dirty /\
    it_data t' = demote_data b (it_data dirty).
Proof.
  intros Hb Hd Hfit. pose proof (merged_flat_repr b base dirty bes des Hb Hd Hfit) as Hm.
  pose proof Hb as [Hbd Hbr]. pose proof Hd as [Hdw Hdr].
  pose proof (demote_data_wf b _ Hdw) as Hw'.
  unfold merge_dirty. rewrite Hbd, (merge_dirty_data_nil b) by done.
  cbn [it_flat it_key_size]. destruct (it_flat dirty) eqn:Ed.
  - pose proof (proj1 (flat_repr_empty [] _ des Hdr) eq_refl) as ->.
    unfold merged_flat, merged_key_size in *. rewrite Ed in *. cbn [List.map] in *. rewrite ordered_merge_nil_r in *.
    rewrite (flat_repr_iter _ _ _ Hbr). cbn [mbind outcome_bind]. unfold data_iter_latest. cbn [it_data].
    rewrite data_latest_ok by done. cbn [mbind outcome_bind it_flat it_key_size]. eexists. split; [done|]. done.
  - rewrite (fold_dirty_flat_ok b base dirty bes des) by (done || by rewrite Ed). cbn [mbind outcome_bind].
    unfold data_iter_latest. cbn [it_data]. rewrite data_latest_ok by done.
    cbn [mbind outcome_bind it_flat it_key_size]. eexists. split; [done|]. done.
Qed.

Lemma merge_dirty_ok base dirty bes des :
  flat_only base bes -> it_wf dirty des -> merge_fits base dirty bes des ->
  exists t', merge_dirty_and_clean base dirty = Ok t' /\ it_wf t' (merged_flat true bes des) /\
    it_stats t' (merged_flat true bes des) /\ it_key_size t' = merged_key_size base dirty /\
    it_data t' = demote_data true (it_data dirty).
Proof. apply merge_dirty_gen. Qed.

(** A flushed blob's content: merge, then the frontier filter. *)
Definition flushed_view (bes : list entry) (dirty : IndexTable) (des : list entry) (lp : LastProcessed)
    (k : list Z) : option IndexWalPosition :=
  match it_view_at dirty des k lp with
  | Some p => Some (demote true p)
  | None => bt_get k bes
  end.

Lemma merge_retain_ok base dirty bes des lp :
  flat_only base bes -> it_wf dirty des -> merge_fits base dirty bes des ->
  exists m t', merge_dirty_and_clean base dirty = Ok m /\ retain_processed m lp = Ok t' /\
    it_wf t' (merged_flat true bes des) /\
    forall k, it_view t' (merged_flat true bes des) k = flushed_view bes dirty des lp k.
Proof.
  intros Hb Hd Hfit. destruct (merge_dirty_ok base dirty bes des Hb Hd Hfit) as (m & Hm & Hwm & _ & _ & Hdata).
  destruct (retain_processed_ok m _ lp Hwm) as (t' & Ht & Hwt & _ & _ & _ & Hv).
  exists m, t'. split_and!; [done|done| |].
  - done.
  - intros k. rewrite Hv. unfold it_view_at, flushed_view, it_view_at.
    rewrite Hdata, positions_of_demote, demote_processed, demote_last.
    destruct Hb as [_ (_ & Hbs & _)], Hd as [_ (_ & Hds & _)]. rewrite bt_get_merged_flat by done.
    by destruct (last _).
Qed.

(** ** Properties *)

(** The frontier filter of the flusher: after [retain_processed] live reads
    of the table are the reads at the frontier of the table before. *)
Lemma retain_processed_as_of t es lp :
  it_wf t es ->
  exists t', retain_processed t lp = Ok t' /\ it_wf t' es /\ it_stats t' es /\
    forall k, it_get t' k = it_get_at t k lp.
Proof.
  intros Hw. destruct (retain_processed_ok t es lp Hw) as (t' & Ht & Hw' & Hst & _ & _ & Hv).
  exists t'. do 3 (split; [done|]). intros k.
  by rewrite (it_get_ok t' es k Hw'), (it_get_at_ok t es k lp Hw), Hv.
Qed.

(** A read through a table and the level below it: the first hit decides, a
    tombstone included. *)
Definition read_through (upper : outcome (option WalPosition)) (lower : outcome (option WalPosition)) :
    outcome (option WalPosition) :=
  w ← upper;
  match w with Some w => Ok (Some w) | None => lower end.

(** The flush merge: merging the overlay snapshot into the loaded base
    blob succeeds, keeps the table well formed with exact counters, and every
    key of the result reads, live and at any frontier, as the snapshot read
    through to the base. *)
Lemma merge_dirty_reads base dirty bes des :
  flat_only base bes -> it_wf dirty des -> merge_fits base dirty bes des ->
  exists t' es', merge_dirty_and_clean base dirty = Ok t' /\ it_wf t' es' /\ it_stats t' es' /\
    forall k,
      it_get t' k = read_through (it_get dirty k) (it_get base k) /\
      forall lp, it_get_at t' k lp = read_through (it_get_at dirty k lp) (it_get base k).
Proof.
  intros Hb Hd Hf. destruct (merge_dirty_ok base dirty bes des Hb Hd Hf) as (t' & Hm & Hw & Hst & _ & Hdata).
  assert (it_wf base bes) as Hwb.
  { destruct Hb as [E Hr]. split; [|done]. rewrite E. apply overlay_wf_nil. }
  assert (forall k, it_view base bes k = bt_get k bes) as Hvb.
  { intros k. unfold it_view, positions_of. by rewrite (proj1 Hb). }
  exists t', (merged_flat true bes des). do 3 (split; [done|]).
  destruct Hb as [_ (_ & Hbs & _)]. pose proof Hd as [_ (_ & Hds & _)]. intros k. split; [|intros lp].
  - rewrite (it_get_ok t' _ k Hw), (it_get_ok dirty des k Hd), (it_get_ok base bes k Hwb), Hvb.
    unfold it_view. rewrite Hdata, positions_of_demote, demote_last, bt_get_merged_flat by done.
    destruct (last _); cbn; [by rewrite demote_wal|]. destruct (bt_get k des); cbn; by rewrite ?demote_wal.
  - rewrite (it_get_at_ok t' _ k lp Hw), (it_get_at_ok dirty des k lp Hd), (it_get_ok base bes k Hwb), Hvb.
    unfold it_view_at. rewrite Hdata, positions_of_demote, demote_processed, demote_last, bt_get_merged_flat by done.
    destruct (last _); cbn; [by rewrite demote_wal|]. destruct (bt_get k des); cbn; by rewrite ?demote_wal.
Qed.

(** A base blob for examples. *)
Definition demo_base_es : list entry := [([1], mkIWP 16 24 Clean); ([9], mkIWP 24 24 Clean)].

Definition demo_base : IndexTable := mkIT [] 0 0 (flat_image None demo_base_es) None.

Lemma demo_base_flat_only : flat_only demo_base demo_base_es.
Proof.
  split; [done|]. split_and!; [done|repeat constructor| |vm_compute; discriminate].
  repeat constructor; cbn; unfold u16_max; lia.
Qed.

Lemma demo_merge_fits : merge_fits demo_base demo_table demo_base_es demo_es.
Proof.
  split; [|vm_compute; discriminate]. apply Forall_cons. split; [vm_compute; discriminate|by apply Forall_nil].
Qed.

