(* ===== verification/IndexUnmerge.v ===== *)
(** * Completing a flush

    [unmerge_flushed] (src/tidehunter/src/index/index_table/mod.rs): a flush
    works on a snapshot of the table while writers and the promotion job keep
    changing the live one; at completion the positions that became durable are
    removed from the live table.  The relation between snapshot and live table
    is kept by every step those actors take, and under it completion changes no
    read. *)

From Stdlib Require Import ZArith Lia List Sorting.Sorted.
From stdpp Require Import base tactics list strings relations.
From S2P Require Import Prelude BTree Bytes Position Flat FlatFacts IndexTable IndexOps IndexTableFacts.
From S2P Require Import IndexWalk IndexPromote IndexFlush.

Local Open Scope Z_scope.

(** ** The single-pass position diff *)

Lemma skip_flushed_none x ps u :
  Forall (fun p => x <= iwp_offset p) ps -> skip_flushed x ps u = (ps, u).
Proof.
  destruct ps as [|p ps]; [done|]. intros [Hp _]%Forall_cons. cbn.
  by destruct (Z.ltb_spec (iwp_offset p) x); [lia|].
Qed.

Lemma skip_flushed_all x ps u :
  Forall (fun p => iwp_offset p < x) ps ->
  skip_flushed x ps u = ([], match last ps with Some p => Some p | None => u end).
Proof.
  intros Hf. revert u. induction Hf as [|p ps Hp Hf IH]; intros u; [done|]. cbn [skip_flushed].
  rewrite (proj2 (Z.ltb_lt _ _) Hp), IH, last_cons. by destruct (last ps).
Qed.

Lemma unmerge_positions_nil live u : unmerge_positions [] live u = (live, [], u).
Proof. induction live as [|x live IH]; [done|]. cbn. by rewrite IH. Qed.

(** Flushed positions that are all still live are removed, and nothing else. *)
Lemma unmerge_positions_sub flushed live u :
  pos_sorted flushed -> pos_sorted live -> (forall p, In p flushed -> In p live) ->
  unmerge_positions flushed live u =
  (List.filter (fun p => negb (bool_decide (In p flushed))) live, [], u).
Proof.
  revert flushed. induction live as [|x live IH]; intros flushed Hf Hl Hsub.
  { destruct flushed as [|p ps]; [done|]. by destruct (Hsub p (or_introl eq_refl)). }
  pose proof Hl as [Hl' Hx]%pos_sorted_cons. rewrite List.Forall_forall in Hx.
  destruct flushed as [|p ps].
  { rewrite unmerge_positions_nil. f_equal. f_equal. symmetry. apply filter_all, List.Forall_forall. done. }
  pose proof Hf as [Hf' Hp]%pos_sorted_cons. rewrite List.Forall_forall in Hp.
  cbn [unmerge_positions]. rewrite skip_flushed_none.
  2:{ apply List.Forall_forall. intros q Hq. destruct (Hsub q Hq) as [->|Hin]; [lia|]. specialize (Hx _ Hin). lia. }
  case_bool_decide as E.
  - assert (p = x) as ->.
    { injection E as Eo _. destruct (Hsub p (or_introl eq_refl)) as [->|Hin]; [done|].
      specialize (Hx _ Hin). lia. }
    rewrite IH; [|done|done|].
    2:{ intros q Hq. destruct (Hsub q (or_intror Hq)) as [->|]; [|done]. specialize (Hp _ Hq). lia. }
    cbn [List.filter]. rewrite bool_decide_eq_true_2 by (by left). cbn [negb]. f_equal. f_equal.
    apply List.filter_ext_in. intros q Hq. f_equal. apply bool_decide_ext. cbn. split; [by right|].
    intros [->|]; [|done]. specialize (Hx _ Hq). lia.
  - assert (forall q, In q (p :: ps) -> q <> x) as Hnx.
    { intros q [->|Hq] ->; [done|]. specialize (Hp _ Hq). destruct (Hsub p (or_introl eq_refl)) as [->|Hin]; [done|].
      specialize (Hx _ Hin). lia. }
    rewrite IH; [|done|done|].
    2:{ intros q Hq. destruct (Hsub q Hq) as [->|]; [|done]. by destruct (Hnx q Hq). }
    cbn [List.filter]. rewrite bool_decide_eq_false_2; [done|]. intros Hin. by destruct (Hnx x Hin).
Qed.

(** Flushed positions all below the live ones are all unmatched. *)
Lemma unmerge_positions_below flushed live x u :
  Forall (fun p => iwp_offset p < x) flushed -> Forall (fun p => x <= iwp_offset p) live -> live <> [] ->
  unmerge_positions flushed live u = (live, [], match last flushed with Some p => Some p | None => u end).
Proof.
  intros Hf Hl Hne. destruct live as [|y live]; [done|]. apply Forall_cons in Hl as [Hy _].
  cbn [unmerge_positions]. rewrite skip_flushed_all.
  2:{ eapply Forall_impl; [exact Hf|]. cbn. lia. }
  by rewrite unmerge_positions_nil.
Qed.

(** ** The walk over the overlay *)

(** What the walk does to one key: its new positions and its flat request. *)
Definition unmerge_key (lp : LastProcessed) (orig : list IndexWalPosition)
    (live : option (list IndexWalPosition)) : option (list IndexWalPosition) * option IndexWalPosition :=
  let processed := processed_prefix orig lp in
  match last processed with
  | None => (live, None)
  | Some newest =>
      match live with
      | None => (None, Some newest)
      | Some l =>
          let '(kept, remaining, u) := unmerge_positions processed l None in
          (match kept with [] => None | _ => Some kept end,
           match remaining with [] => u | _ => Some newest end)
      end
  end.

Definition or_else {A} (a b : option A) : option A := match a with Some x => Some x | None => b end.

Lemma or_else_None_r {A} (a : option A) : or_else a None = a.
Proof. by destruct a. Qed.

Lemma unmerge_data_key lp data orig pend :
  bt_sorted data -> bt_sorted orig -> bt_sorted pend ->
  let '(data', pend') := unmerge_data data orig pend lp in
  bt_sorted data' /\ bt_sorted pend' /\
  forall k,
    bt_get k data' = match bt_get k orig with
                     | Some po => (unmerge_key lp po (bt_get k data)).1
                     | None => bt_get k data
                     end /\
    bt_get k pend' = match bt_get k orig with
                     | Some po => or_else (unmerge_key lp po (bt_get k data)).2 (bt_get k pend)
                     | None => bt_get k pend
                     end.
Proof.
  revert data pend. induction orig as [|[k po] orig IH]; intros data pend Hd Ho Hp; [done|].
  cbn [unmerge_data].
  set (uk := unmerge_key lp po (bt_get k data)).
  set (data1 := match uk.1 with Some l => bt_insert k l data | None => bt_remove k data end).
  set (pend1 := match uk.2 with Some v => bt_insert k v pend | None => pend end).
  assert (bt_sorted data1 /\ bt_sorted pend1) as [Hd1 Hp1].
  { unfold data1, pend1. destruct uk.1, uk.2; auto with tide. }
  assert (forall d1, bt_sorted d1 -> (forall k', bt_get k' d1 = bt_get k' data1) -> d1 = data1) as Hext.
  { intros d1 H1 H2. by apply bt_sorted_ext. }
  assert (unmerge_data data ((k, po) :: orig) pend lp = unmerge_data data1 orig pend1 lp) as Heq.
  { cbn [unmerge_data]. unfold data1, pend1, uk, unmerge_key.
    destruct (last (processed_prefix po lp)) as [newest|]; cbn [fst snd].
    - destruct (bt_get k data) as [live|] eqn:E.
      + destruct (unmerge_positions _ live None) as [[kept remaining] u]. cbn [fst snd].
        by destruct kept, remaining, u.
      + cbn [fst snd]. f_equal. apply bt_sorted_ext; [done|by apply bt_remove_sorted|]. intros k'.
        rewrite bt_get_remove by done. by destruct (keqb_spec k' k) as [->|].
    - f_equal. destruct (bt_get k data) as [live|] eqn:E.
      + apply bt_sorted_ext; [done|by apply bt_insert_sorted|]. intros k'. rewrite bt_get_insert by done.
        by destruct (keqb_spec k' k) as [->|].
      + apply bt_sorted_ext; [done|by apply bt_remove_sorted|]. intros k'.
        rewrite bt_get_remove by done. by destruct (keqb_spec k' k) as [->|]. }
  cbn [unmerge_data] in Heq. rewrite Heq. pose proof Ho as [Ho' Hlt]%bt_sorted_cons.
  specialize (IH data1 pend1 Hd1 Ho' Hp1). destruct (unmerge_data data1 orig pend1 lp) as [data' pend'].
  destruct IH as (Hs1 & Hs2 & IH). split_and!; [done|done|]. intros k'. destruct (IH k') as [-> ->].
  rewrite bt_get_cons by done.
  assert (bt_get k' data1 = if keqb k' k then uk.1 else bt_get k' data) as ->.
  { unfold data1. destruct uk.1; [by rewrite bt_get_insert|by rewrite bt_get_remove]. }
  assert (bt_get k' pend1 = if keqb k' k then or_else uk.2 (bt_get k' pend) else bt_get k' pend) as ->.
  { unfold pend1. destruct uk.2; cbn [or_else]; [by rewrite bt_get_insert|]. by destruct (keqb k' k). }
  destruct (keqb_spec k' k) as [->|]; [|done]. rewrite (bt_get_above k orig) by done. done.
Qed.

(** ** The rebuild of the flat buffer *)

(** Position match: same offset and length, whatever the kind. *)
Definition pos_match (p : IndexWalPosition) (o : option IndexWalPosition) : bool :=
  match o with
  | Some q => bool_decide (into_update_position p = into_update_position q)
  | None => false
  end.

Lemma skip_smaller_get sk (orig : list entry) k :
  bt_sorted orig -> kle sk k -> bt_get k (skip_smaller sk orig) = bt_get k orig.
Proof.
  induction orig as [|[ok o] orig IH]; [done|]. intros Hs Hle. pose proof Hs as [Hs' Hf]%bt_sorted_cons.
  cbn [skip_smaller]. destruct (kltb_spec ok sk) as [Hlt|]; [|done]. rewrite IH, bt_get_cons by done.
  destruct (keqb_spec k ok) as [->|]; [|done]. by apply kle_not_lt in Hle.
Qed.

Lemma skip_smaller_sorted sk (orig : list entry) : bt_sorted orig -> bt_sorted (skip_smaller sk orig).
Proof.
  induction orig as [|[ok o] orig IH]; [done|]. intros Hs. pose proof Hs as [Hs' Hf]%bt_sorted_cons.
  cbn [skip_smaller]. destruct (kltb_spec ok sk); [by apply IH|done].
Qed.

Lemma skip_smaller_head sk (orig : list entry) ok o rest :
  skip_smaller sk orig = (ok, o) :: rest -> kle sk ok.
Proof.
  induction orig as [|[ok' o'] orig IH]; [done|]. cbn [skip_smaller].
  destruct (kltb_spec ok' sk) as [|Hn]; [done|]. intros [= -> -> ->]. by apply kle_not_lt.
Qed.

Lemma unmerge_flat_filter self orig pend :
  bt_sorted self -> bt_sorted orig ->
  unmerge_flat self orig pend =
  List.filter (fun e => negb (pos_match e.2 (bt_get e.1 orig)) && negb (pos_match e.2 (bt_get e.1 pend))) self.
Proof.
  revert orig. induction self as [|[sk s] self IH]; intros orig Hs Ho; [done|].
  pose proof Hs as [Hs' Hf]%bt_sorted_cons. rewrite List.Forall_forall in Hf. cbn [unmerge_flat].
  set (orig1 := skip_smaller sk orig).
  assert (bt_sorted orig1) as Ho1 by (by apply skip_smaller_sorted).
  assert (forall k, kle sk k -> bt_get k orig1 = bt_get k orig) as Hg by (intros; by apply skip_smaller_get).
  assert (exists orig2, bt_sorted orig2 /\ (forall k, klt sk k -> bt_get k orig2 = bt_get k orig) /\
    match orig1 with
    | (ok, o_iwp) :: orig_rest =>
        if keqb ok sk
        then (bool_decide (into_update_position s = into_update_position o_iwp), orig_rest)
        else (false, orig1)
    | [] => (false, [])
    end = (pos_match s (bt_get sk orig), orig2)) as (orig2 & Ho2 & Hg2 & ->).
  { rewrite <- (Hg sk) by (apply kle_iff; by right). destruct orig1 as [|[ok o] rest] eqn:E1.
    - exists []. split_and!; [constructor| |done]. intros k Hk. rewrite <- Hg; [done|]. apply kle_iff. by left.
    - pose proof (skip_smaller_head sk orig ok o rest E1) as Hok.
      pose proof Ho1 as [Hr Hall]%bt_sorted_cons. rewrite bt_get_cons by done.
      destruct (keqb_spec ok sk) as [->|Hne].
      + exists rest. rewrite keqb_refl. split_and!; [done| |done]. intros k Hk.
        rewrite <- Hg by (apply kle_iff; by left). rewrite bt_get_cons by done.
        destruct (keqb_spec k sk) as [->|]; [by apply klt_irrefl in Hk|done].
      + exists ((ok, o) :: rest). split_and!; [done| |].
        * intros k Hk. rewrite <- Hg; [done|]. apply kle_iff. by left.
        * destruct (keqb_spec sk ok) as [->|]; [done|]. rewrite bt_get_above; [done|].
          eapply Forall_klt_trans; [|exact Hall]. apply kle_iff in Hok as [?|?]; [done|congruence]. }
  rewrite IH by done. cbn [List.filter fst snd].
  assert (List.filter (fun e => negb (pos_match e.2 (bt_get e.1 orig2)) && negb (pos_match e.2 (bt_get e.1 pend))) self =
          List.filter (fun e => negb (pos_match e.2 (bt_get e.1 orig)) && negb (pos_match e.2 (bt_get e.1 pend))) self) as ->.
  { apply List.filter_ext_in. intros e He. by rewrite Hg2 by (by apply Hf). }
  fold (pos_match s (bt_get sk pend)).
  by destruct (pos_match s (bt_get sk orig)), (pos_match s (bt_get sk pend)).
Qed.

(** ** Snapshot and live table *)

(** How a key of the live table may differ from the snapshot taken for a flush
    at frontier [lp].  Either it was not promoted since: the snapshot's
    positions are all there, with newer ones from at or above the frontier, over
    the same flat entry; or it was, at a frontier not past [lp]: the flat entry is
    the newest write of the snapshot's overlay, all of which is below [lp], and
    the positions are newer ones. *)
Definition key_rel (lp : LastProcessed) (po : list IndexWalPosition) (fo : option IndexWalPosition)
    (pl : list IndexWalPosition) (fl : option IndexWalPosition) : Prop :=
  ((forall p, In p po -> In p pl) /\ (forall p, In p pl -> In p po \/ lp <= iwp_offset p) /\ fl = fo) \/
  (Forall (fun p => lp <= iwp_offset p) pl /\ Forall (fun p => iwp_offset p < lp) po /\
   po <> [] /\ fl = last po).

Definition flush_rel (lp : LastProcessed) (orig : IndexTable) (oes : list entry)
    (live : IndexTable) (les : list entry) : Prop :=
  forall k, key_rel lp (positions_of (it_data orig) k) (bt_get k oes)
              (positions_of (it_data live) k) (bt_get k les).

(** What completion leaves of a key's positions. *)
Definition unmerged_positions (lp : LastProcessed) (po pl : list IndexWalPosition) : list IndexWalPosition :=
  List.filter (fun p => negb (bool_decide (In p (processed_of lp po)))) pl.

Lemma processed_In lp ps p : In p (processed_of lp ps) <-> In p ps /\ iwp_offset p < lp.
Proof.
  unfold processed_of. rewrite filter_In. unfold is_processed, has_offset, iwp_has_offset.
  by rewrite Z.ltb_lt.
Qed.

Lemma processed_sorted lp ps : pos_sorted ps -> pos_sorted (processed_of lp ps).
Proof. apply pos_sorted_filter. Qed.

Lemma unmerged_all lp po pl :
  (forall p, In p pl -> In p (processed_of lp po) -> False) -> unmerged_positions lp po pl = pl.
Proof.
  intros H. apply filter_all, List.Forall_forall. intros p Hp. rewrite bool_decide_eq_false_2; [done|].
  intros Hin. by eapply H.
Qed.

Definition opt_list {A} (l : list A) : option (list A) := match l with [] => None | _ => Some l end.

Lemma opt_list_default {A} (l : list A) : default [] (opt_list l) = l.
Proof. by destruct l. Qed.

(** The walk on a key that was not promoted: nothing goes to the flat pass. *)
Lemma unmerge_key_kept lp po pl :
  pos_sorted po -> pos_sorted pl -> (forall p, In p po -> In p pl) ->
  unmerge_key lp po (opt_list pl) = (opt_list (unmerged_positions lp po pl), None).
Proof.
  intros Ho Hl Hsub. unfold unmerge_key. rewrite processed_prefix_of by done.
  destruct (last (processed_of lp po)) as [n|] eqn:En.
  - apply last_Some_elem_of in En. destruct pl as [|x pl'] eqn:Epl.
    { apply list_elem_of_In, processed_In in En as [Hin _]. by destruct (Hsub n Hin). }
    cbn [opt_list]. rewrite <- Epl in *. rewrite unmerge_positions_sub;
      [|by apply processed_sorted|done|intros p [Hp _]%processed_In; auto].
    fold (unmerged_positions lp po pl). by destruct (unmerged_positions lp po pl).
  - apply last_None in En. rewrite unmerged_all; [done|]. intros p _ Hp. by rewrite En in Hp.
Qed.

(** The walk on a promoted key: its newest flushed position goes to the flat
    pass and the positions stay. *)
Lemma unmerge_key_promoted lp po pl :
  pos_sorted po -> Forall (fun p => lp <= iwp_offset p) pl ->
  unmerge_key lp po (opt_list pl) = (opt_list (unmerged_positions lp po pl), last (processed_of lp po)).
Proof.
  intros Ho Hl. unfold unmerge_key. rewrite processed_prefix_of by done.
  rewrite unmerged_all.
  2:{ intros p Hp [_ Hlt]%processed_In. rewrite List.Forall_forall in Hl. specialize (Hl _ Hp). lia. }
  destruct (last (processed_of lp po)) as [n|] eqn:En; [|done].
  destruct pl as [|x pl'] eqn:Epl; [done|]. cbn [opt_list]. rewrite <- Epl in *.
  rewrite (unmerge_positions_below _ pl lp).
  - rewrite En. by subst pl.
  - apply List.Forall_forall. by intros p [_ ?]%processed_In.
  - done.
  - by subst pl.
Qed.

(** Reads of a key: the newest position below [lp'], the flat entry, the level
    below. *)
Definition resolve (lp' : LastProcessed) (ps : list IndexWalPosition) (f d : option IndexWalPosition) :
    option IndexWalPosition :=
  or_else (or_else (last (processed_of lp' ps)) f) d.

(** Completion at [lp], with what was flushed at a frontier [lp2] not before it
    below, changes no read of the key from [lp2] on. *)
Lemma key_rel_reads lp lp2 lp' po fo pl fl d :
  pos_sorted po -> pos_sorted pl -> lp <= lp2 <= lp' -> key_rel lp po fo pl fl ->
  resolve lp' (unmerged_positions lp po pl) None (resolve lp2 po fo d) = resolve lp' pl fl d.
Proof.
  intros Ho Hl [Hle Hle'] [(Hsub & Hnew & ->)|(Hge & Hlt & Hne & ->)]; unfold resolve.
  - assert (processed_of lp' (unmerged_positions lp po pl) = unmerged_positions lp po (processed_of lp' pl)) as ->.
    { unfold processed_of at 1, unmerged_positions, processed_of at 2. by rewrite filter_comm_bool. }
    destruct (last (unmerged_positions lp po (processed_of lp' pl))) as [q|] eqn:Eq.
    + apply pos_last_spec in Eq as [Hq Hmax]; [|by repeat apply pos_sorted_filter].
      unfold unmerged_positions in Hq. apply filter_In in Hq as [Hq Hnq]. b2p.
      assert (last (processed_of lp' pl) = Some q) as ->; [|done].
      apply pos_last_spec; [by apply processed_sorted|]. split; [done|]. intros r Hr.
      destruct (bool_decide_reflect (In r (processed_of lp po))) as [Hin|Hout].
      * apply processed_In in Hin as [_ Hr']. apply processed_In in Hq as [Hq _].
        destruct (Hnew _ Hq) as [Hqo|]; [|lia]. destruct (Z.lt_ge_cases (iwp_offset q) lp); [|lia].
        destruct Hnq. by apply processed_In.
      * apply Hmax. apply filter_In. split; [done|]. by rewrite bool_decide_eq_false_2.
    + apply last_None in Eq. assert (processed_of lp' pl = processed_of lp2 po) as ->; [|done].
      apply pos_sorted_ext; [by apply processed_sorted..|]. intros p. split.
      * intros Hp. destruct (bool_decide_reflect (In p (processed_of lp po))) as [Hin|Hn].
        { apply processed_In in Hin as [Hin Hlt]. apply processed_In. split; [done|lia]. }
        exfalso. cut (In p []); [done|]. rewrite <- Eq. apply filter_In. split; [done|].
        by rewrite bool_decide_eq_false_2.
      * intros [Hp Hlt]%processed_In. apply processed_In. split; [auto|lia].
  - rewrite unmerged_all.
    2:{ intros p Hp [_ Hlt']%processed_In. rewrite List.Forall_forall in Hge. specialize (Hge _ Hp). lia. }
    assert (processed_of lp2 po = po) as ->.
    { apply filter_all. eapply Forall_impl; [exact Hlt|]. intros p Hp. cbv beta in Hp.
      apply Z.ltb_lt. unfold has_offset, iwp_has_offset. lia. }
    destruct (last (processed_of lp' pl)); [done|]. cbn [or_else].
    destruct (last po) as [f|] eqn:E; [done|]. by apply last_None in E.
Qed.

(** ** [unmerge_flushed] *)

Lemma bt_get_opt_list data k : overlay_wf data -> bt_get k data = opt_list (positions_of data k).
Proof.
  intros Hw. unfold positions_of. destruct (bt_get k data) as [ps|] eqn:E; [|done].
  apply overlay_get_ok in E as (Hn & _); [|done]. by destruct ps.
Qed.

(** The walk, key by key, on related tables. *)
Lemma unmerge_data_rel lp orig oes live les :
  it_wf orig oes -> it_wf live les -> flush_rel lp orig oes live les ->
  let '(data, pend) := unmerge_data (it_data live) (it_data orig) [] lp in
  overlay_wf data /\ bt_sorted pend /\
  forall k,
    positions_of data k = unmerged_positions lp (positions_of (it_data orig) k) (positions_of (it_data live) k) /\
    forall f, bt_get k les = Some f -> pos_match f (bt_get k oes) = true \/ pos_match f (bt_get k pend) = true.
Proof.
  intros [Ho _] [Hl _] Hrel.
  pose proof (unmerge_data_key lp (it_data live) (it_data orig) [] (proj1 Hl) (proj1 Ho) bt_sorted_nil) as Hk.
  destruct (unmerge_data _ _ _ _) as [data pend]. destruct Hk as (Hs & Hp & Hk).
  assert (forall k, let po := positions_of (it_data orig) k in
            let pl := positions_of (it_data live) k in
            bt_get k data = opt_list (unmerged_positions lp po pl) /\
            forall f, bt_get k les = Some f -> pos_match f (bt_get k oes) = true \/ pos_match f (bt_get k pend) = true) as Hall.
  { intros k po pl. destruct (Hk k) as [Hd Hpk]. rewrite (bt_get_opt_list (it_data live)) in Hd, Hpk by done.
    rewrite (bt_get_opt_list (it_data orig)) in Hd, Hpk by done. fold po pl in Hd, Hpk.
    pose proof (positions_of_sorted (it_data orig) k Ho) as Hso.
    pose proof (positions_of_sorted (it_data live) k Hl) as Hsl. fold po in Hso. fold pl in Hsl.
    specialize (Hrel k). fold po pl in Hrel. clearbody po pl.
    destruct Hrel as [(Hsub & Hnew & Hf)|(Hge & Hlt & Hne & Hf)].
    - assert (bt_get k data = opt_list (unmerged_positions lp po pl)) as ->.
      { destruct po as [|x po'] eqn:Epo; cbn [opt_list] in Hd, Hpk.
        - rewrite unmerged_all by done. done.
        - rewrite unmerge_key_kept in Hd, Hpk by done. done. }
      split; [done|]. rewrite Hf. intros g ->. left. cbn. by apply bool_decide_eq_true_2.
    - assert (processed_of lp po = po) as Epo.
      { apply filter_all. eapply Forall_impl; [exact Hlt|]. intros p Hlp. cbv beta in Hlp. by apply Z.ltb_lt. }
      destruct po as [|x po'] eqn:Ep; [done|]. cbn [opt_list] in Hd, Hpk. rewrite <- Ep in *.
      assert (opt_list po = Some po) as Eo by (by subst po).
      rewrite unmerge_key_promoted in Hd, Hpk by done. cbn [fst snd] in *. split; [done|].
      intros g Hg. right. rewrite Hpk, Epo, <- Hf, Hg. cbn. by apply bool_decide_eq_true_2. }
  split_and!; [|done|].
  - split; [done|]. apply List.Forall_forall. intros [k ps] Hin. apply bt_get_In in Hin; [|done].
    destruct (Hall k) as [Hd _]. rewrite Hin in Hd. cbn [snd].
    assert (ps = unmerged_positions lp (positions_of (it_data orig) k) (positions_of (it_data live) k) /\ ps <> [])
      as [-> Hne] by (destruct (unmerged_positions _ _ _); by simplify_eq/=).
    split_and!; [done|by apply pos_sorted_filter, positions_of_sorted|].
    by apply Forall_List_filter, positions_of_fits.
  - intros k. destruct (Hall k) as [Hd Hka]. split; [|done]. unfold positions_of at 1. rewrite Hd.
    by rewrite opt_list_default.
Qed.

(** Completion empties the flat buffer: what it held was flushed. *)
Lemma unmerge_flushed_ok lp orig oes live les :
  it_wf orig oes -> it_wf live les -> flush_rel lp orig oes live les ->
  exists t', unmerge_flushed live orig lp = Ok t' /\ it_wf t' [] /\ it_stats t' [] /\
    it_key_size t' = it_key_size live /\
    forall k, positions_of (it_data t') k =
      unmerged_positions lp (positions_of (it_data orig) k) (positions_of (it_data live) k).
Proof.
  intros Ho Hl Hrel. pose proof (unmerge_data_rel lp orig oes live les Ho Hl Hrel) as Hu.
  unfold unmerge_flushed. destruct (unmerge_data _ _ _ _) as [data pend]. destruct Hu as (Hw & Hp & Hk).
  destruct Ho as [_ Hor], Hl as [_ Hlr]. pose proof Hor as (_ & Hos & _). pose proof Hlr as (Hli & Hls & Hlf & Hlz).
  assert (List.filter (fun e => negb (pos_match e.2 (bt_get e.1 oes)) && negb (pos_match e.2 (bt_get e.1 pend))) les = []) as Enil.
  { apply filter_none, List.Forall_forall. intros [k f] Hin. apply bt_get_In in Hin; [|done]. cbn [fst snd].
    destruct (proj2 (Hk k) f Hin) as [-> | ->]; [done|]. by rewrite andb_false_r. }
  assert (exists flat,
    match it_flat orig, pend with
    | [], [] => Ok (it_flat live)
    | _, _ => orig_es ← flat_iter (it_flat orig) (it_key_size orig);
              self_es ← flat_iter (it_flat live) (it_key_size live);
              build_flat_bytes (unmerge_flat self_es orig_es pend) (it_key_size live)
    end = Ok flat /\ flat_repr flat (it_key_size live) []) as (flat & -> & Hfr).
  { assert (exists flat, (orig_es ← flat_iter (it_flat orig) (it_key_size orig);
              self_es ← flat_iter (it_flat live) (it_key_size live);
              build_flat_bytes (unmerge_flat self_es orig_es pend) (it_key_size live)) = Ok flat /\
              flat_repr flat (it_key_size live) []) as (flat & Hb & Hfr).
    { rewrite (flat_repr_iter _ _ _ Hor). cbn [mbind outcome_bind]. rewrite (flat_repr_iter _ _ _ Hlr).
      cbn [mbind outcome_bind]. rewrite unmerge_flat_filter, Enil by done.
      apply flat_repr_build; [apply bt_sorted_nil|constructor|]. rewrite <- Enil. by apply size_fits_filter. }
    destruct (it_flat orig) eqn:Eo; [|by exists flat]. destruct pend; [|by exists flat].
    exists (it_flat live). split; [done|]. pose proof (proj1 (flat_repr_empty [] _ oes Hor) eq_refl) as ->.
    rewrite filter_all in Enil by (by apply List.Forall_forall; intros []). by rewrite Enil in Hlr. }
  cbn [mbind outcome_bind].
  destruct (refresh_stats_ok (mkIT data (it_key_bytes live) (it_dirty_count live) flat (it_key_size live)) [])
    as (t' & -> & Hst & Hd & Hfl & Hks); [done|].
  exists t'. split; [done|]. split; [eapply it_wf_same; [|done..]; done|]. split; [done|].
  split; [done|]. intros k. rewrite Hd. cbn [it_data]. apply Hk.
Qed.

(** Flush completion is invisible at every frontier not below the flusher's: the
    live table over the level below reads as the unmerged table over the
    flushed content. *)
Lemma unmerge_reads lp orig oes live les :
  it_wf orig oes -> it_wf live les -> flush_rel lp orig oes live les ->
  exists t', unmerge_flushed live orig lp = Ok t' /\ it_wf t' [] /\ it_stats t' [] /\
    forall k lp2 lp' d, lp <= lp2 <= lp' ->
      or_else (it_view_at t' [] k lp') (or_else (it_view_at orig oes k lp2) d) =
      or_else (it_view_at live les k lp') d.
Proof.
  intros Ho Hl Hrel. destruct (unmerge_flushed_ok lp orig oes live les Ho Hl Hrel)
    as (t' & Hu & Hw & Hst & _ & Hk).
  exists t'. do 3 (split; [done|]). intros k lp2 lp' d Hle. unfold it_view_at. rewrite Hk.
  apply (key_rel_reads lp lp2 lp' _ _ _ _ d (positions_of_sorted _ k (proj1 Ho))
           (positions_of_sorted _ k (proj1 Hl)) Hle (Hrel k)).
Qed.

(** Live reads are reads at a frontier above every offset. *)
Lemma it_view_max t es k : it_wf t es -> it_view t es k = it_view_at t es k (2 ^ 64).
Proof.
  intros [Hw _]. unfold it_view, it_view_at, processed_of. rewrite filter_all; [done|].
  eapply Forall_impl; [by apply positions_of_fits|]. intros p [[_ Ho] _].
  unfold is_processed, has_offset, iwp_has_offset. by apply Z.ltb_lt.
Qed.

(** ** The steps taken while a flush runs *)

Section while_flushing.
(** The flush frontier, the snapshot and its flat entries. *)
Context (lp : LastProcessed) (orig : IndexTable) (oes : list entry).

(** Writers insert at or above the flush frontier (every write below it was in
    the snapshot); the promotion job does not promote past it. *)
Inductive live_step : IndexTable * list entry -> IndexTable * list entry -> Prop :=
| step_insert t es k v t' o :
    lp <= iwp_offset v -> iwp_fits v -> checked_insert t k v = Ok (t', o) ->
    live_step (t, es) (t', es)
| step_promote t es lp' t' :
    lp' <= lp -> it_fits t es -> promote_to_flat_unconditionally t lp' = Ok t' ->
    live_step (t, es) (t', promoted_flat lp' t es).

Definition live_inv (st : IndexTable * list entry) : Prop :=
  it_wf orig oes /\ it_wf st.1 st.2 /\ flush_rel lp orig oes st.1 st.2.

Lemma live_inv_init : it_wf orig oes -> live_inv (orig, oes).
Proof. intros Hw. split_and!; [apply Hw..|]. intros k. left. naive_solver. Qed.

Lemma live_inv_insert t es k v kb dc :
  live_inv (t, es) -> lp <= iwp_offset v -> iwp_fits v ->
  existsb (same_offset v) (positions_of (it_data t) k) = false ->
  live_inv (with_write t k v kb dc, es).
Proof.
  intros (Hwo & Hw & Hrel) Hv Hfit Hfr. cbn [fst snd] in *. split; [done|]. split; [by apply with_write_wf|].
  intros k'. specialize (Hrel k'). cbn [fst snd]. rewrite (with_write_positions t es) by done.
  destruct (keqb_spec k' k) as [->|]; [|done].
  destruct Hrel as [(Hsub & Hnew & Hf)|(Hge & Hf)]; [left|right].
  - split_and!; [| |done].
    + intros p Hp. apply pos_insert_In. auto.
    + intros p [->|Hp]%pos_insert_In; auto.
  - split; [|done]. rewrite List.Forall_forall in *. intros p [->|Hp]%pos_insert_In; auto.
Qed.

Lemma live_inv_promote t es lp' t' :
  live_inv (t, es) -> lp' <= lp -> it_fits t es -> promote_to_flat_unconditionally t lp' = Ok t' ->
  live_inv (t', promoted_flat lp' t es).
Proof.
  intros (Hwo & Hw & Hrel) Hle Hfit Hp. cbn [fst snd] in *.
  destruct (promote_ok lp' t es Hw Hfit) as (t'' & Hp' & Hw' & _ & _ & Hd & _).
  assert (t'' = t') as -> by congruence. pose proof (proj1 Hw) as Hov. do 2 (split; [done|]).
  intros k. specialize (Hrel k). cbn [fst snd]. rewrite Hd, positions_of_kept, bt_get_promoted_flat by done.
  pose proof (positions_of_sorted (it_data t) k Hov) as Hs.
  pose proof (positions_of_sorted (it_data orig) k (proj1 Hwo)) as Hso.
  destruct (last (positions_of (it_data t) k)) as [p|] eqn:E.
  - apply (pos_last_spec _ _ Hs) in E as [Hin Hmax].
    destruct (is_processed lp' p) eqn:Ep; [|done]. apply Z.ltb_lt in Ep. unfold has_offset, iwp_has_offset in Ep.
    destruct Hrel as [(Hsub & Hnew & _)|(Hge & _)]; [right|].
    + destruct (Hnew p Hin) as [Hpo|]; [|lia]. split; [constructor|].
      assert (last (positions_of (it_data orig) k) = Some p) as El by (apply pos_last_spec; auto).
      split_and!; [|by intros E0; rewrite E0 in El|done]. apply List.Forall_forall. intros q Hq. specialize (Hmax q (Hsub q Hq)). lia.
    + rewrite List.Forall_forall in Hge. specialize (Hge p Hin). lia.
  - apply last_None in E. by rewrite E in Hrel.
Qed.

Lemma live_inv_step st st' : live_inv st -> live_step st st' -> live_inv st'.
Proof.
  intros Hi Hs. destruct Hs as [t es k v t' o Hv Hfit Hc|t es lp' t' Hle Hfit Hp].
  - pose proof Hi as (_ & Hw & _). cbn [fst snd] in Hw.
    destruct (checked_insert_ok t es k v Hw) as [[_ Hc']|(Hfr & kb & dc & Hc' & _)]; [congruence|].
    assert (t' = with_write t k v kb dc) as -> by congruence. by apply live_inv_insert.
  - by eapply live_inv_promote.
Qed.

Lemma live_inv_reachable st :
  it_wf orig oes -> rtc live_step (orig, oes) st -> live_inv st.
Proof.
  intros Hw Hr. pose proof (live_inv_init Hw) as Hi. revert Hi.
  induction Hr as [|x y z Hs Hr IH]; [done|]. intros Hi. by apply IH, (live_inv_step x).
Qed.
End while_flushing.

(** ** Properties *)

Lemma read_through_views u l :
  read_through (Ok (option_map into_wal_position u)) (Ok (option_map into_wal_position l)) =
  Ok (option_map into_wal_position (or_else u l)).
Proof. by destruct u. Qed.

(** C6. A completed flush is invisible.  A flush requested at frontier [lp] takes
    a snapshot of the live table; the flusher, at a frontier [lp2] of its own,
    merges it into the base blob, keeps what is below [lp2] and writes that as
    the new blob; meanwhile writers insert and the promotion job promotes, in
    any order.  When the positions below [lp] are then unmerged from the live
    table, nothing panics, the table stays well formed, and every key reads
    through to the new blob as it read through to the old one, live and at every
    frontier from [lp2] on. *)
Theorem flush_completion_invisible lp lp2 base bes orig oes live les :
  lp <= lp2 <= 2 ^ 64 -> flat_only base bes -> it_wf orig oes -> merge_fits base orig bes oes ->
  rtc (live_step lp) (orig, oes) (live, les) ->
  exists merged blob live',
    merge_dirty_and_clean base orig = Ok merged /\ retain_processed merged lp2 = Ok blob /\
    unmerge_flushed live orig lp = Ok live' /\ it_wf live' [] /\ it_stats live' [] /\
    forall k,
      read_through (it_get live' k) (it_get blob k) = read_through (it_get live k) (it_get base k) /\
      forall lp', lp2 <= lp' ->
        read_through (it_get_at live' k lp') (it_get blob k) =
        read_through (it_get_at live k lp') (it_get base k).
Proof.
  intros Hlp Hb Ho Hfit Hsteps.
  destruct (live_inv_reachable lp orig oes (live, les) Ho Hsteps) as (_ & Hl & Hrel). cbn [fst snd] in *.
  destruct (merge_retain_ok base orig bes oes lp2 Hb Ho Hfit) as (m & blob & Hm & Hr & Hwb & Hvb).
  destruct (unmerge_reads lp orig oes live les Ho Hl Hrel) as (live' & Hu & Hw' & Hst & Hv).
  exists m, blob, live'. do 5 (split; [done|]).
  assert (it_wf base bes) as Hbase.
  { destruct Hb as [E Hbr]. split; [|done]. rewrite E. apply overlay_wf_nil. }
  assert (forall k, it_get base k = Ok (option_map into_wal_position (bt_get k bes))) as Hgb.
  { intros k. rewrite (it_get_ok base bes k Hbase). unfold it_view, positions_of. by rewrite (proj1 Hb). }
  assert (forall k, it_get blob k =
            Ok (option_map into_wal_position (or_else (it_view_at orig oes k lp2) (bt_get k bes)))) as Hgn.
  { intros k. rewrite (it_get_ok blob _ k Hwb), Hvb. unfold flushed_view.
    destruct (it_view_at orig oes k lp2); cbn; [by rewrite demote_wal|done]. }
  intros k. split; [|intros lp' Hle].
  - rewrite (it_get_ok live' [] k Hw'), (it_get_ok live les k Hl), Hgb, Hgn, !read_through_views.
    rewrite !it_view_max by done. by rewrite Hv by lia.
  - rewrite (it_get_at_ok live' [] k lp' Hw'), (it_get_at_ok live les k lp' Hl), Hgb, Hgn, !read_through_views.
    by rewrite Hv by lia.
Qed.

(** A write and a promotion while the flush at 250 runs. *)
Lemma demo_live_steps :
  exists live les, rtc (live_step 250) (demo_table, demo_es) (live, les) /\
    it_get live [5] = Ok (Some (mkWalPosition 400 16)).
Proof.
  eexists _, _. split.
  - eapply rtc_l.
    { eapply (step_insert _ _ _ [5] (mkIWP 400 16 Modified)); cbn; [lia|repeat split; cbn; lia|reflexivity]. }
    eapply rtc_l.
    { eapply (step_promote _ _ _ 220); [lia| |vm_compute; reflexivity].
      split; [repeat constructor; cbn; unfold u16_max; lia|]. vm_compute. discriminate. }
    apply rtc_refl.
  - vm_compute. reflexivity.
Qed.

Lemma flush_completion_invisible_witness :
  exists live blob live', unmerge_flushed live demo_table 250 = Ok live' /\
    read_through (it_get live' [5]) (it_get blob [5]) = Ok (Some (mkWalPosition 400 16)).
Proof.
  destruct demo_live_steps as (live & les & Hs & Hg).
  destruct (flush_completion_invisible 250 300 demo_base demo_base_es demo_table demo_es live les ltac:(lia)
    demo_base_flat_only demo_wf demo_merge_fits Hs)
    as (merged & blob & live' & _ & _ & Hu & _ & _ & Hr).
  exists live, blob, live'. split; [exact Hu|]. rewrite (proj1 (Hr [5])), Hg. reflexivity.
Defined.
