(* ===== verification/IndexCodec.v ===== *)
(** * The on-disk index section

    [serialize_index_entries] and [deserialize_index_entries]
    (src/tidehunter/src/index/index_table/mod.rs), for both key layouts: what
    is written is read back, tombstones included, and every key resolves as it
    did in the table serialized. *)

From Stdlib Require Import ZArith Lia List Sorting.Sorted.
From stdpp Require Import base tactics list strings.
From S2P Require Import Prelude BTree Bytes Position Flat FlatFacts IndexTable IndexOps IndexTableFacts.
From S2P Require Import IndexWalk IndexPromote.

Local Open Scope Z_scope.

(** ** What is on disk *)

(** The position written for an entry, and the entry it reads back as. *)
Definition disk_position (p : IndexWalPosition) : WalPosition :=
  if is_removed p then WalPosition_INVALID else into_update_position p.

Definition disk_entry (e : entry) : entry := (e.1, iwp_from_disk (disk_position e.2)).

Lemma disk_position_ok p : iwp_fits p -> wp_ok (disk_position p).
Proof.
  intros [Ho Hl]. unfold disk_position. destruct (is_removed p); [apply wp_ok_INVALID|].
  split; cbn; [done|]. unfold is_u32. lia.
Qed.

Lemma update_position_valid p : iwp_fits p -> into_update_position p <> WalPosition_INVALID.
Proof. intros [_ Hl] [= _ E]. unfold u32_max in E. lia. Qed.

Lemma disk_entry_eq k p :
  iwp_fits p ->
  disk_entry (k, p) =
  (k, if is_removed p then mkIWP u64_max 0 Removed else mkIWP (iwp_offset p) (iwp_len p) Clean).
Proof.
  intros Hf. unfold disk_entry, disk_position, iwp_from_disk. cbn [fst snd]. f_equal.
  destruct (is_removed p); [by rewrite bool_decide_eq_true_2|].
  by rewrite bool_decide_eq_false_2 by (by apply update_position_valid).
Qed.

Lemma disk_entry_fits ks e : entry_fits ks e -> entry_fits ks (disk_entry e).
Proof.
  destruct e as [k p]. intros [Hf Hk]. rewrite disk_entry_eq by done. split; [|done]. cbn.
  destruct (is_removed p); [|done]. split; cbn; [unfold is_u64, u64_max; lia|lia].
Qed.

Lemma disk_entry_wal k p :
  iwp_fits p -> into_wal_position (disk_entry (k, p)).2 = into_wal_position p.
Proof.
  intros Hf. rewrite disk_entry_eq by done. cbn [snd]. unfold is_removed, into_wal_position.
  by destruct p as [o l []].
Qed.

Lemma disk_entries_sorted es : bt_sorted es -> bt_sorted (List.map disk_entry es).
Proof. apply (bt_sorted_map (fun e : entry => iwp_from_disk (disk_position e.2))). Qed.

Lemma bt_get_disk es k :
  bt_get k (List.map disk_entry es) = option_map (fun p => iwp_from_disk (disk_position p)) (bt_get k es).
Proof.
  unfold disk_entry. rewrite (bt_get_map (fun p => iwp_from_disk (disk_position p))). by destruct (bt_get k es).
Qed.

(** A key the disk format can hold. *)
Definition disk_key_fits (ks : option nat) (k : list Z) : Prop :=
  match ks with Some n => length k = n | None => Z.of_nat (length k) <= MAX_U16_VARINT end.

Lemma slice_prefix (k c : list Z) n : length k = n -> slice (k ++ c) 0 n = Ok k.
Proof. intros <-. by apply (slice_mid _ [] k c). Qed.

(** ** Fixed-size keys *)

Definition disk_image (e : entry) : list Z :=
  e.1 ++ be_bytes 8 (wp_offset (disk_position e.2)) ++ be_bytes 4 (wp_len (disk_position e.2)).

Lemma length_disk_image n e : length e.1 = n -> length (disk_image e) = (n + WalPosition_LENGTH)%nat.
Proof. intros <-. unfold disk_image. rewrite !length_app, !length_be_bytes. unfold WalPosition_LENGTH. lia. Qed.

Lemma write_entries_fixed n es out visits :
  Forall (fun e => length e.1 = n) es ->
  exists visits', write_entries (Some n) es out visits = Ok (out ++ concat (List.map disk_image es), visits').
Proof.
  intros Hf. revert out visits. induction Hf as [|[k p] es Hk Hf IH]; intros out visits; cbn.
  { rewrite app_nil_r. by eexists. }
  cbn in Hk. rewrite (proj2 (Nat.eqb_eq _ _) Hk). cbn [mbind outcome_bind].
  fold (disk_position p). destruct (IH (wp_write_to_buf (disk_position p) (out ++ k)) (visits ++ [(k, length out)]))
    as [v' ->].
  exists v'. do 2 f_equal. rewrite wp_write_to_buf_app. unfold disk_image at 2. cbn [fst snd].
  by rewrite <- !app_assoc.
Qed.

Definition disk_tombstone (e : entry) : bool := wp_offset (disk_position e.2) =? u64_max.

Lemma scan_fixed_ok n es prev tomb :
  Forall (fun e => length e.1 = n) es -> Forall (fun e => iwp_fits e.2) es ->
  bt_sorted es -> (match prev with Some pk => Forall (fun e => klt pk e.1) es | None => True end) ->
  scan_fixed n (length es) (concat (List.map disk_image es)) prev tomb =
  Ok (tomb || existsb disk_tombstone es).
Proof.
  intros Hk. revert prev tomb. induction Hk as [|[k p] es Hk Hf IH]; intros prev tomb Hfit Hs Hprev.
  { cbn. by rewrite orb_false_r. }
  apply Forall_cons in Hfit as [Hp Hfit]. apply bt_sorted_cons in Hs as [Hs Hlt]. cbn in Hk, Hp.
  set (img := disk_image (k, p)). set (rest := concat (List.map disk_image es)).
  assert (length img = n + WalPosition_LENGTH)%nat as Hl by (by apply length_disk_image).
  cbn [scan_fixed length List.map concat]. fold img rest. cbv zeta.
  rewrite <- Hl, take_app_length, drop_app_length.
  rewrite (slice_mid img [] k _ 0 n eq_refl eq_refl (eq_sym Hk)).
  cbn [mbind outcome_bind].
  assert (check_order prev k = Ok tt) as ->.
  { destruct prev as [pk|]; [|done]. apply Forall_cons in Hprev as [Hpk _].
    unfold check_order. unfold klt in Hpk. cbn [fst] in Hpk. by rewrite Hpk. }
  cbn [mbind outcome_bind].
  rewrite (slice_mid img k (be_bytes 8 (wp_offset (disk_position p))) _ n (n + 8) eq_refl (eq_sym Hk))
    by (rewrite length_be_bytes; lia).
  cbn [mbind outcome_bind]. rewrite be_val_u64 by (by apply disk_position_ok).
  unfold rest. rewrite IH by done. cbn [existsb]. unfold disk_tombstone at 2. cbn [snd].
  by rewrite orb_assoc.
Qed.

Lemma decode_fixed_step fuel n bytes :
  bytes <> [] ->
  decode_fixed (S fuel) n bytes =
    (key ← slice bytes 0 n;
     '(value, rest) ← wp_read_from_buf (drop n bytes);
     es ← decode_fixed fuel n rest;
     Ok ((key, iwp_from_disk value) :: es)).
Proof. by destruct bytes. Qed.

Lemma decode_fixed_ok n es fuel :
  Forall (fun e => length e.1 = n) es -> Forall (fun e => iwp_fits e.2) es -> (length es < fuel)%nat ->
  decode_fixed fuel n (concat (List.map disk_image es)) = Ok (List.map disk_entry es).
Proof.
  intros Hk. revert fuel. induction Hk as [|[k p] es Hk Hf IH]; intros fuel Hfit Hfuel.
  { by destruct fuel. }
  apply Forall_cons in Hfit as [Hp Hfit]. cbn [fst snd] in Hk, Hp. destruct fuel as [|fuel]; [lia|].
  cbn [List.map concat]. set (rest := concat (List.map disk_image es)).
  assert (disk_image (k, p) ++ rest =
          k ++ (be_bytes 8 (wp_offset (disk_position p)) ++ be_bytes 4 (wp_len (disk_position p)) ++ rest)) as ->.
  { unfold disk_image. cbn [fst snd]. by rewrite <- !app_assoc. }
  rewrite decode_fixed_step.
  2:{ intros E. apply (f_equal length) in E. rewrite !length_app, !length_be_bytes in E. cbn in E. lia. }
  rewrite (slice_prefix k _ n Hk). cbn [mbind outcome_bind].
  rewrite <- Hk at 1. rewrite drop_app_length, wp_read_write by (by apply disk_position_ok).
  cbn [mbind outcome_bind]. unfold rest. rewrite IH by (done || (cbn in Hfuel; lia)). done.
Qed.

(** Without tombstones the blob is the flat buffer. *)
Lemma disk_image_flat es :
  Forall (fun e => iwp_fits e.2) es -> existsb disk_tombstone es = false ->
  concat (List.map disk_image es) = concat (List.map fixed_image (List.map disk_entry es)).
Proof.
  induction 1 as [|[k p] es Hp Hf IH]; [done|]. cbn [existsb]. intros [Ht Hts]%orb_false_iff.
  cbn [List.map concat]. rewrite IH by done. f_equal. cbn in Hp. rewrite disk_entry_eq by done.
  unfold disk_tombstone, disk_image, disk_position, fixed_image, enc_len in *. cbn [fst snd] in *.
  by destruct (is_removed p).
Qed.

Lemma deserialize_fixed_ok n es :
  Forall (entry_fits (Some n)) es -> bt_sorted es ->
  exists t', deserialize_fixed_size n (concat (List.map disk_image es)) = Ok t' /\
    flat_repr (it_flat t') (it_key_size t') (List.map disk_entry es) /\ it_data t' = [] /\
    it_key_size t' = Some n.
Proof.
  intros Hf Hs.
  assert (Forall (fun e => length e.1 = n) es) as Hk by (eapply Forall_impl; [exact Hf|]; by intros e [_ ?]).
  assert (Forall (fun e => iwp_fits e.2) es) as Hp by (eapply Forall_impl; [exact Hf|]; by intros e [? _]).
  assert (Forall (entry_fits (Some n)) (List.map disk_entry es)) as Hf'.
  { apply Forall_map. eapply Forall_impl; [exact Hf|]. intros e. apply disk_entry_fits. }
  assert (length (concat (List.map disk_image es)) = length es * (n + WalPosition_LENGTH))%nat as Hl.
  { clear -Hk. induction Hk as [|e es He Hk IH]; [done|]. cbn [List.map concat length].
    rewrite length_app, IH, (length_disk_image n) by done. lia. }
  unfold deserialize_fixed_size. cbv zeta. rewrite Hl, Nat.Div0.mod_mul. cbn [Nat.eqb assert_that mbind outcome_bind].
  rewrite Nat.div_mul by (unfold WalPosition_LENGTH; lia).
  rewrite (scan_fixed_ok n es None false) by done. cbn [mbind outcome_bind orb].
  destruct (existsb disk_tombstone es) eqn:Et; cbn [negb].
  - rewrite decode_fixed_ok by (done || (rewrite ?Hl; unfold WalPosition_LENGTH; nia)). cbn [mbind outcome_bind].
    destruct (flat_repr_build (List.map disk_entry es) (Some n)) as (flat & -> & Hr);
      [by apply disk_entries_sorted|done|done|]. by eexists.
  - eexists. split; [done|]. cbn [it_flat it_key_size]. split; [|done]. split_and!.
    + rewrite flat_image_Some. by apply disk_image_flat.
    + by apply disk_entries_sorted.
    + done.
    + done.
Qed.

(** ** Variable-size keys *)

Lemma write_entries_var es out visits :
  Forall (fun e => Z.of_nat (length e.1) <= MAX_U16_VARINT) es -> Forall (fun e => iwp_fits e.2) es ->
  bt_sorted es ->
  exists enc visits', write_entries None es out visits = Ok (out ++ enc, visits') /\
    forall prev fuel,
      (match prev with Some pk => Forall (fun e => klt pk e.1) es | None => True end) ->
      (length enc < fuel)%nat ->
      decode_varlen fuel enc prev = Ok (List.map disk_entry es).
Proof.
  intros Hk. revert out visits. induction Hk as [|[k p] es Hk Hf IH]; intros out visits Hfit Hs.
  { exists [], visits. rewrite app_nil_r. split; [done|]. by intros prev []. }
  apply Forall_cons in Hfit as [Hp Hfit]. apply bt_sorted_cons in Hs as [Hs Hlt]. cbn [fst snd] in Hk, Hp.
  pose proof (disk_position_ok p Hp) as Hok.
  set (tail := be_bytes 8 (wp_offset (disk_position p)) ++ be_bytes 4 (wp_len (disk_position p))).
  assert (wrap16 (Z.of_nat (length k)) = Z.of_nat (length k)) as Hw.
  { unfold wrap16, MAX_U16_VARINT in *. apply Z.mod_small. lia. }
  destruct (varint_roundtrip_aux (Z.of_nat (length k)) [] ltac:(lia)) as (enc1 & Hser & Hlen & _).
  destruct (IH (((out ++ enc1) ++ k) ++ tail) (visits ++ [(k, length out)]) Hfit Hs) as (enc & v' & Hwr & Hdec).
  exists (enc1 ++ k ++ tail ++ enc), v'. split.
  - cbn [write_entries]. fold (disk_position p). unfold write_key_val.
    destruct (Z.ltb_spec MAX_U16_VARINT (Z.of_nat (length k))); [lia|]. rewrite Hw, Hser.
    cbn [mbind outcome_bind]. rewrite wp_write_to_buf_app. fold tail. rewrite Hwr. do 2 f_equal.
    by rewrite <- !app_assoc.
  - intros prev fuel Hprev Hfuel. destruct fuel as [|fuel]; [lia|].
    destruct (varint_roundtrip_aux (Z.of_nat (length k)) (k ++ tail ++ enc) ltac:(lia)) as (enc2 & Hser2 & _ & Hd).
    assert (enc2 = enc1) as ->.
    { specialize (Hser []). specialize (Hser2 []). rewrite Hser in Hser2. by simplify_eq/=. }
    cbn [decode_varlen]. destruct (enc1 ++ k ++ tail ++ enc) eqn:E.
    { apply (f_equal length) in E. rewrite !length_app in E. cbn in E. lia. }
    rewrite <- E in *. rewrite Hd. cbn [mbind outcome_bind]. rewrite Nat2Z.id.
    rewrite (slice_prefix k _ (length k) eq_refl). cbn [mbind outcome_bind].
    rewrite drop_app_length. unfold tail. rewrite <- app_assoc, wp_read_write by done. cbn [mbind outcome_bind].
    assert (check_order prev k = Ok tt) as ->.
    { destruct prev as [pk|]; [|done]. apply Forall_cons in Hprev as [Hpk _].
      unfold check_order. unfold klt in Hpk. cbn [fst] in Hpk. by rewrite Hpk. }
    cbn [mbind outcome_bind]. rewrite Hdec; [done|done|]. rewrite !length_app in Hfuel. lia.
Qed.

(** ** The round trip *)

Definition disk_fits (ks : option nat) (es : list entry) : Prop :=
  Forall (fun e => disk_key_fits ks e.1) es /\ size_fits ks es.

Lemma combined_fits t es : it_wf t es -> Forall (fun e => iwp_fits e.2) (combined t es).
Proof.
  intros [Hw (_ & _ & Hf & _)]. apply ordered_merge_Forall.
  - eapply Forall_impl; [exact Hf|]. by intros e [? _].
  - apply List.Forall_forall. intros [k p] Hin. apply bt_get_In in Hin; [|by apply latest_of_sorted].
    rewrite bt_get_latest_of in Hin by done. apply last_Some_elem_of, list_elem_of_In in Hin.
    pose proof (positions_of_fits (it_data t) k Hw) as Hp. rewrite List.Forall_forall in Hp. by apply Hp.
Qed.

Lemma serialize_visitor_combined t es ks out visits :
  it_wf t es ->
  serialize_index_entries_with_visitor t ks out visits = write_entries ks (combined t es) out visits.
Proof.
  intros [Hw Hr]. unfold serialize_index_entries_with_visitor, combined, data_iter_latest.
  destruct (it_flat t) eqn:E.
  - rewrite (proj1 (flat_repr_empty [] _ es Hr) eq_refl), data_latest_ok by done.
    cbn [mbind outcome_bind]. by destruct (latest_of (it_data t)).
  - rewrite <- E in *. rewrite (flat_repr_iter _ _ _ Hr). cbn [mbind outcome_bind].
    by rewrite data_latest_ok.
Qed.

Lemma size_fits_disk ks es : size_fits ks es -> size_fits ks (List.map disk_entry es).
Proof.
  destruct ks; [done|]. unfold size_fits. rewrite !length_var_section, map_map. done.
Qed.

Lemma disk_key_fits_key ks es :
  Forall (fun e => disk_key_fits ks e.1) es -> Forall (fun e => iwp_fits e.2) es -> Forall (entry_fits ks) es.
Proof.
  intros Hk Hf. rewrite List.Forall_forall in *. intros e He. split; [by apply Hf|].
  specialize (Hk e He). destruct ks; [done|]. cbn in *. unfold MAX_U16_VARINT, u16_max in *. lia.
Qed.

Lemma deserialize_ok ks es out visits :
  bt_sorted es -> disk_fits ks es -> Forall (fun e => iwp_fits e.2) es ->
  exists enc visits' t', write_entries ks es out visits = Ok (out ++ enc, visits') /\
    deserialize_index_entries ks enc = Ok t' /\ it_data t' = [] /\ it_key_size t' = ks /\
    flat_repr (it_flat t') (it_key_size t') (List.map disk_entry es).
Proof.
  intros Hs [Hk Hsz] Hf. pose proof (disk_key_fits_key ks es Hk Hf) as He. destruct ks as [n|].
  - destruct (write_entries_fixed n es out visits Hk) as (v' & ->).
    destruct (deserialize_fixed_ok n es He Hs) as (t' & Hd & Hr & Hdata & Hks).
    by exists (concat (List.map disk_image es)), v', t'.
  - destruct (write_entries_var es out visits Hk Hf Hs) as (enc & v' & -> & Hd).
    destruct (flat_repr_build (List.map disk_entry es) None) as (flat & Hb & Hr).
    { by apply disk_entries_sorted. }
    { apply Forall_map. eapply Forall_impl; [exact He|]. intros e. apply disk_entry_fits. }
    { by apply size_fits_disk. }
    exists enc, v', (mkIT [] 0 0 flat None). split; [done|]. split; [|done].
    cbn [deserialize_index_entries]. unfold deserialize_varlen. rewrite Hd by (done || lia).
    cbn [mbind outcome_bind]. by rewrite Hb.
Qed.

Lemma flat_only_view t es k : it_data t = [] -> it_view t es k = bt_get k es.
Proof. intros E. unfold it_view, positions_of. by rewrite E. Qed.

Lemma disk_roundtrip_view t es k :
  it_wf t es ->
  option_map into_wal_position (bt_get k (List.map disk_entry (combined t es))) =
  option_map into_wal_position (it_view t es k).
Proof.
  intros Hw. rewrite bt_get_disk, bt_get_combined by done. destruct (it_view t es k) as [p|] eqn:E; [|done].
  cbn. f_equal. apply (disk_entry_wal k). rewrite <- bt_get_combined in E by done.
  apply bt_get_In in E; [|by apply combined_sorted]. pose proof (combined_fits t es Hw) as Hf.
  rewrite List.Forall_forall in Hf. by apply (Hf (k, p)).
Qed.

Lemma serialize_roundtrip_aux ks t es :
  it_wf t es -> disk_fits ks (combined t es) ->
  exists out t', serialize_index_entries t ks [] = Ok out /\ deserialize_index_entries ks out = Ok t' /\
    it_data t' = [] /\ (exists es', it_wf t' es') /\ forall k, it_get t' k = it_get t k.
Proof.
  intros Hw Hfit. destruct (deserialize_ok ks (combined t es) [] []) as (enc & v' & t' & Hwr & Hd & Hdata & Hks & Hr);
    [by apply combined_sorted|done|by apply combined_fits|].
  exists enc, t'. split.
  { unfold serialize_index_entries. rewrite (serialize_visitor_combined t es) by done. by rewrite Hwr. }
  assert (it_wf t' (List.map disk_entry (combined t es))) as Hw'.
  { split; [|done]. rewrite Hdata. apply overlay_wf_nil. }
  split_and!; [done|done|by eexists|]. intros k. rewrite (it_get_ok t' _ k Hw'), (it_get_ok t es k Hw).
  rewrite flat_only_view by done. by rewrite disk_roundtrip_view.
Qed.

(** ** Properties *)

(** The index blob round trip, for fixed-size and variable-size keys:
    serializing a well-formed table whose keys the disk format can hold and
    deserializing the bytes gives a well-formed flat-only table in which every
    key resolves as before, deletions included. *)
Lemma index_blob_roundtrip ks t es :
  it_wf t es -> disk_fits ks (combined t es) ->
  exists out t', serialize_index_entries t ks [] = Ok out /\ deserialize_index_entries ks out = Ok t' /\
    it_data t' = [] /\ (exists es', it_wf t' es') /\ forall k, it_get t' k = it_get t k.
Proof. apply serialize_roundtrip_aux. Qed.

(** The example blob, its one tombstone included, has [dirty_count] 0. *)
Lemma demo_blob_dirty_count :
  exists out t', serialize_index_entries demo_table (Some 1%nat) [] = Ok out /\
    deserialize_index_entries (Some 1%nat) out = Ok t' /\ it_dirty_count t' = 0 /\
    flat_iter (it_flat t') (it_key_size t') =
      Ok [([1], mkIWP u64_max 0 Removed); ([2], mkIWP 200 16 Clean)].
Proof.
  eexists _, _. split; [vm_compute; reflexivity|]. split; [vm_compute; reflexivity|].
  split; vm_compute; reflexivity.
Qed.
