(* ===== verification/IndexClean.v ===== *)
(** * Settling, compacting and clearing an index table

    [clean_self], [compact_with], [retain_above_position] and
    [retain_unprocessed] (src/tidehunter/src/index/index_table/mod.rs): which
    keys survive, that tombstones are stripped or preserved as the level rules
    ask, and the counters afterwards. *)

From Stdlib Require Import ZArith Lia List Sorting.Sorted.
From stdpp Require Import base tactics list strings.
From S2P Require Import Prelude BTree Bytes Position Flat FlatFacts IndexTable IndexOps IndexTableFacts.
From S2P Require Import IndexWalk IndexPromote IndexFlush IndexUnmerge IndexCodec.

Local Open Scope Z_scope.

(** ** The two filters *)

(** A rewrite of the flat entries that keeps them encodable. *)
Definition keep_fits (keep : list Z -> IndexWalPosition -> option IndexWalPosition) : Prop :=
  forall k p q, iwp_fits p -> keep k p = Some q -> iwp_fits q.

Lemma retain_flat_ok t es keep :
  it_wf t es -> keep_fits keep ->
  exists t', retain_flat t keep = Ok t' /\ it_wf t' (bt_omap keep es) /\ it_data t' = it_data t.
Proof.
  intros [Hw Hr] Hk. pose proof Hr as (_ & Hs & Hf & Hz). unfold retain_flat.
  destruct (it_flat t) eqn:E.
  { rewrite (proj1 (flat_repr_empty [] _ es Hr) eq_refl) in *. exists t. rewrite <- E in Hr. done. }
  rewrite <- E in *. rewrite (flat_repr_iter _ _ _ Hr). cbn [mbind outcome_bind]. unfold filter_map_entries.
  destruct (flat_repr_build (bt_omap keep es) (it_key_size t)) as (flat & -> & Hr').
  - by apply bt_omap_sorted.
  - clear -Hf Hk. induction Hf as [|[k p] es [Hp Hl] Hf IH]; [constructor|]. rewrite bt_omap_cons.
    destruct (keep k p) as [q|] eqn:Eq; [|done]. constructor; [|done]. split; [|done]. by eapply Hk.
  - apply (size_fits_subset _ _ es); [by apply bt_omap_sorted| |done|done].
    intros k. rewrite bt_get_omap by done. destruct (bt_get k es); [done|]. by intros [].
  - cbn [mbind outcome_bind]. by eexists.
Qed.

Definition kept_keys (f : list Z -> IndexWalPosition -> bool) (data : overlay) : overlay :=
  bt_omap (fun k ps => match last ps with Some p => if f k p then Some ps else None | None => None end) data.

Lemma drop_data_keys_kept data f : overlay_wf data -> drop_data_keys data f = Ok (kept_keys f data).
Proof.
  induction data as [|[k ps] data IH]; [done|]. intros (Hp & Hw & _)%overlay_wf_cons.
  destruct (positions_ok_last ps Hp) as [p E]. cbn [drop_data_keys]. rewrite E, IH by done.
  unfold kept_keys. rewrite bt_omap_cons, E. cbn. by destruct (f k p).
Qed.

Lemma kept_keys_wf f data : overlay_wf data -> overlay_wf (kept_keys f data).
Proof.
  intros [Hs Hf]. split; [by apply bt_omap_sorted|]. unfold kept_keys.
  clear Hs. induction Hf as [|[k ps] data Hp Hf IH]; [constructor|]. rewrite bt_omap_cons.
  destruct (last ps) as [p|]; [|done]. destruct (f k p); [by constructor|done].
Qed.

Lemma last_kept_keys f data k :
  overlay_wf data ->
  last (positions_of (kept_keys f data) k) =
  match last (positions_of data k) with Some p => if f k p then Some p else None | None => None end.
Proof.
  intros [Hs _]. unfold positions_of, kept_keys. rewrite bt_get_omap by done.
  destruct (bt_get k data) as [ps|]; [|done]. cbn [default from_option id mbind option_bind].
  destruct (last ps) as [p|] eqn:E; [|done]. destruct (f k p); [|done]. exact E.
Qed.

Lemma it_retain_ok t es f :
  it_wf t es ->
  exists t', it_retain t f = Ok t' /\ it_wf t' es /\ it_stats t' es /\ it_data t' = kept_keys f (it_data t).
Proof.
  intros [Hw Hr]. unfold it_retain. rewrite drop_data_keys_kept by done. cbn [mbind outcome_bind].
  destruct (refresh_stats_ok (mkIT (kept_keys f (it_data t)) (it_key_bytes t) (it_dirty_count t) (it_flat t)
    (it_key_size t)) es) as (t' & -> & Hst & Hd & Hfl & Hks).
  { split; [by apply kept_keys_wf|done]. }
  exists t'. split; [done|]. split; [|done]. eapply it_wf_same; [|done..]. split; [by apply kept_keys_wf|done].
Qed.

(** ** [clean_self] *)

(** The positions a reader treats as present. *)
Definition live_entry (o : option IndexWalPosition) : option IndexWalPosition :=
  match o with Some p => if is_removed p then None else Some p | None => None end.

Definition as_clean (p : IndexWalPosition) : IndexWalPosition := mkIWP (iwp_offset p) (iwp_len p) Clean.

Lemma clean_data_alt latest :
  clean_data latest = bt_omap (fun _ p => if is_removed p then None else Some [as_clean p]) latest.
Proof.
  unfold clean_data. induction latest as [|[k p] latest IH]; [done|]. rewrite !bt_omap_cons, IH.
  unfold is_removed, as_clean. by destruct p as [o l []].
Qed.

Lemma clean_data_wf data : overlay_wf data -> overlay_wf (clean_data (latest_of data)).
Proof.
  intros Hw. rewrite clean_data_alt. split; [by apply bt_omap_sorted, latest_of_sorted|].
  apply List.Forall_forall. intros [k ps] Hin.
  apply bt_get_In in Hin; [|by apply bt_omap_sorted, latest_of_sorted].
  rewrite bt_get_omap, bt_get_latest_of in Hin by (done || by apply latest_of_sorted).
  destruct (last (positions_of data k)) as [p|] eqn:E; [|done]. cbn in Hin. destruct (is_removed p); [done|].
  injection Hin as <-. apply last_Some_elem_of, list_elem_of_In in E.
  pose proof (positions_of_fits data k Hw) as Hf. rewrite List.Forall_forall in Hf. specialize (Hf _ E).
  split_and!; [done|repeat constructor|]. constructor; [done|constructor].
Qed.

Lemma positions_of_clean data k :
  overlay_wf data ->
  positions_of (clean_data (latest_of data)) k =
  match last (positions_of data k) with
  | Some p => if is_removed p then [] else [as_clean p]
  | None => []
  end.
Proof.
  intros Hw. rewrite clean_data_alt. unfold positions_of at 1.
  rewrite bt_get_omap, bt_get_latest_of by (done || by apply latest_of_sorted).
  destruct (last (positions_of data k)) as [p|]; [|done]. cbn. by destruct (is_removed p).
Qed.

Definition clean_keep (tombstoned : list entry) (k : list Z) (p : IndexWalPosition) : option IndexWalPosition :=
  if is_removed p || bt_mem k tombstoned then None else Some (as_clean p).

Lemma clean_keep_fits ts : keep_fits (clean_keep ts).
Proof. intros k p q Hp. unfold clean_keep. destruct (_ || _); [done|]. by intros [= <-]. Qed.

Lemma sum_dirty_clean es : Forall (fun e => is_clean e.2 = true) es -> dirty_len es = 0.
Proof.
  rewrite dirty_len_sum. induction 1 as [|e es He Hf IH]; [done|]. rewrite sum_entries_cons, IH.
  unfold dirty_weight. by rewrite He.
Qed.

Lemma clean_self_ok t es :
  it_wf t es ->
  exists t' es', clean_self t = Ok t' /\ it_wf t' es' /\ it_stats t' es' /\ it_dirty_count t' = 0 /\
    forall k, it_view t' es' k = option_map as_clean (live_entry (it_view t es k)).
Proof.
  intros Hwf. pose proof Hwf as [Hw Hr]. pose proof Hr as (_ & Hs & _).
  unfold clean_self, data_iter_latest. rewrite data_latest_ok by done. cbn [mbind outcome_bind]. cbv zeta.
  set (ts := List.filter (fun e => is_removed e.2) (latest_of (it_data t))).
  set (t1 := mkIT (clean_data (latest_of (it_data t))) (it_key_bytes t) (it_dirty_count t) (it_flat t) (it_key_size t)).
  destruct (retain_flat_ok t1 es (clean_keep ts)) as (t2 & H2 & Hw2 & Hd2).
  { split; [by apply clean_data_wf|done]. }
  { apply clean_keep_fits. }
  unfold clean_keep in H2 at 1. unfold as_clean in H2 at 1. rewrite H2. cbn [mbind outcome_bind].
  destruct (refresh_stats_ok t2 (bt_omap (clean_keep ts) es) Hw2) as (t' & -> & Hst & Hd & Hfl & Hks).
  exists t', (bt_omap (clean_keep ts) es). split; [done|]. split; [by eapply it_wf_same|]. split; [done|]. split.
  - destruct Hst as [_ ->]. rewrite !sum_dirty_clean; [done| |].
    + rewrite Hd, Hd2. cbn [it_data t1]. apply List.Forall_forall. intros [k p] Hin.
      apply bt_get_In in Hin; [|by apply latest_of_sorted, clean_data_wf].
      rewrite bt_get_latest_of, positions_of_clean in Hin by (done || by apply clean_data_wf).
      destruct (last (positions_of (it_data t) k)) as [q|]; [|done]. destruct (is_removed q); [done|]. by injection Hin as <-.
    + clear. induction es as [|[k p] es IH]; [constructor|]. rewrite bt_omap_cons. unfold clean_keep at 1.
      destruct (_ || _); [done|]. by constructor.
  - intros k. unfold it_view. rewrite Hd, Hd2. cbn [it_data t1]. rewrite positions_of_clean, bt_get_omap by done.
    assert (bt_mem k ts = match last (positions_of (it_data t) k) with Some p => is_removed p | None => false end) as Ht.
    { unfold bt_mem, ts. rewrite bt_get_filter, bt_get_latest_of by (done || by apply latest_of_sorted).
      destruct (last _) as [p|]; [|done]. cbn. by destruct (is_removed p). }
    destruct (last (positions_of (it_data t) k)) as [p|] eqn:E.
    + cbn [live_entry]. destruct (is_removed p) eqn:Ep; [|done]. cbn.
      destruct (bt_get k es) as [f|]; [|done]. cbn. unfold clean_keep. by rewrite Ht, orb_true_r.
    + cbn. destruct (bt_get k es) as [f|]; [|done]. cbn. unfold clean_keep. rewrite Ht, orb_false_r.
      by destruct (is_removed f).
Qed.

(** ** [compact_with] *)

Lemma it_keys_ok t es :
  it_wf t es ->
  it_keys t = Ok (List.map fst (List.filter (fun e => negb (is_removed e.2)) (combined t es))).
Proof. intros Hw. unfold it_keys. by rewrite (iter_combined_ok t es). Qed.

Lemma it_keys_In t es k :
  it_wf t es ->
  In k (List.map fst (List.filter (fun e => negb (is_removed e.2)) (combined t es))) <->
  is_Some (live_entry (it_view t es k)).
Proof.
  intros Hw. rewrite in_map_iff, <- bt_get_combined by done. unfold live_entry. split.
  - intros ([k' p] & <- & [Hin Hr]%filter_In). apply bt_get_In in Hin; [|by apply combined_sorted].
    cbn [fst snd] in *. rewrite Hin. by destruct (is_removed p).
  - destruct (bt_get k (combined t es)) as [p|] eqn:E; [|by intros []].
    destruct (is_removed p) eqn:Er; [by intros []|]. intros _. exists (k, p). split; [done|].
    apply filter_In. split; [|by cbn; rewrite Er]. apply bt_get_In; [by apply combined_sorted|done].
Qed.

Lemma compact_with_ok t es compactor :
  it_wf t es ->
  let keys := List.map fst (List.filter (fun e => negb (is_removed e.2)) (combined t es)) in
  let retained := fun k => existsb (keqb k) (compactor keys) in
  exists t' es', compact_with t compactor = Ok t' /\ it_wf t' es' /\ it_stats t' es' /\
    forall k,
      live_entry (it_view t' es' k) = (if retained k then live_entry (it_view t es k) else None) /\
      (live_entry (it_view t es k) = None -> it_view t' es' k = it_view t es k).
Proof.
  intros Hwf keys retained. pose proof Hwf as [Hw Hr]. pose proof Hr as (_ & Hs & _).
  set (keep := fun k iwp => if is_removed iwp || retained k then Some iwp else None).
  assert (compact_with t compactor =
          (t ← retain_flat t keep; it_retain t (fun k v => is_removed v || retained k))) as ->.
  { unfold compact_with. by rewrite (it_keys_ok t es). }
  destruct (retain_flat_ok t es keep Hwf) as (t1 & -> & Hw1 & Hd1).
  { intros k p q Hp. unfold keep. destruct (_ || _); [|done]. by intros [= <-]. }
  cbn [mbind outcome_bind].
  destruct (it_retain_ok t1 (bt_omap keep es) (fun k v => is_removed v || retained k) Hw1)
    as (t' & -> & Hw' & Hst & Hd).
  exists t', (bt_omap keep es). split; [done|]. split; [done|]. split; [done|]. intros k.
  unfold it_view. rewrite Hd, Hd1, last_kept_keys, bt_get_omap by done.
  destruct (last (positions_of (it_data t) k)) as [p|]; cbn [live_entry].
  - destruct (is_removed p) eqn:Ep; cbn [orb live_entry].
    + rewrite Ep. by destruct (retained k).
    + destruct (retained k) eqn:Er; cbn [live_entry]; [by rewrite Ep|]. split; [|done].
      destruct (bt_get k es) as [f|]; [|done]. cbn [mbind option_bind]. unfold keep. rewrite Er, orb_false_r.
      destruct (is_removed f) eqn:Ef; cbn [live_entry]; [by rewrite Ef|done].
  - destruct (bt_get k es) as [f|]; cbn [mbind option_bind live_entry]; [|by destruct (retained k)]. unfold keep.
    destruct (is_removed f) eqn:Ef; cbn [orb live_entry]; [rewrite Ef; by destruct (retained k)|].
    destruct (retained k); cbn [live_entry]; [by rewrite Ef|done].
Qed.

(** ** [retain_unprocessed] *)

Lemma retain_unprocessed_ok t es lp :
  it_wf t es ->
  exists t', retain_unprocessed t lp = Ok t' /\ it_wf t' [] /\ it_stats t' [] /\
    forall k, positions_of (it_data t') k =
      List.filter (fun p => negb (is_processed lp p)) (positions_of (it_data t) k).
Proof.
  intros [Hw Hr]. unfold retain_unprocessed, recount_data_stats, data_iter_latest. cbn [it_data].
  rewrite data_latest_ok by (by apply retain_positions_wf). cbn [mbind outcome_bind].
  eexists. split; [done|]. split; [|split; [done|]].
  - split; cbn [it_data it_flat it_key_size]; [by apply retain_positions_wf|]. apply flat_repr_nil.
  - intros k. cbn [it_data]. by rewrite positions_of_retain.
Qed.

Lemma retain_unprocessed_reads t es lp :
  it_wf t es ->
  exists t', retain_unprocessed t lp = Ok t' /\ it_wf t' [] /\
    forall k lp2 lp' d, lp <= lp2 <= lp' ->
      or_else (it_view_at t' [] k lp') (or_else (it_view_at t es k lp2) d) = or_else (it_view_at t es k lp') d.
Proof.
  intros Hwf. destruct (retain_unprocessed_ok t es lp Hwf) as (t' & Ht & Hw' & _ & Hp).
  exists t'. split; [done|]. split; [done|]. intros k lp2 lp' d Hle. unfold it_view_at. rewrite Hp.
  set (ps := positions_of (it_data t) k). pose proof (positions_of_sorted (it_data t) k (proj1 Hwf)) as Hs. fold ps in Hs.
  assert (List.filter (fun p => negb (is_processed lp p)) ps = unmerged_positions lp ps ps) as ->.
  { unfold unmerged_positions. apply List.filter_ext_in. intros p Hin. f_equal.
    destruct (is_processed lp p) eqn:E.
    - symmetry. apply bool_decide_eq_true_2, filter_In. done.
    - symmetry. apply bool_decide_eq_false_2. intros [_ E']%filter_In. congruence. }
  apply (key_rel_reads lp lp2 lp' ps (bt_get k es) ps (bt_get k es) d Hs Hs Hle).
  left. split_and!; [done|by left|done].
Qed.

(** ** [retain_above_position] *)

Definition at_or_above (x : Z) (o : option IndexWalPosition) : option IndexWalPosition :=
  match o with Some p => if x <=? iwp_offset p then Some p else None | None => None end.

Lemma retain_above_ok t es x :
  it_wf t es ->
  exists t' es', retain_above_position t x = Ok t' /\ it_wf t' es' /\ it_stats t' es' /\
    forall k, last (positions_of (it_data t') k) = at_or_above x (last (positions_of (it_data t) k)) /\
              bt_get k es' = at_or_above x (bt_get k es).
Proof.
  intros Hwf. pose proof Hwf as [Hw Hr]. pose proof Hr as (_ & Hs & _). unfold retain_above_position.
  set (keep := fun (_ : list Z) iwp => if x <=? iwp_offset iwp then Some iwp else None).
  destruct (retain_flat_ok t es keep Hwf) as (t1 & -> & Hw1 & Hd1).
  { intros k p q Hp. unfold keep. destruct (_ <=? _); [|done]. by intros [= <-]. }
  cbn [mbind outcome_bind].
  destruct (it_retain_ok t1 (bt_omap keep es) (fun _ v => x <=? iwp_offset v) Hw1) as (t' & -> & Hw' & Hst & Hd).
  exists t', (bt_omap keep es). split; [done|]. split; [done|]. split; [done|]. intros k.
  rewrite Hd, Hd1, last_kept_keys, bt_get_omap by done. by destruct (bt_get k es).
Qed.

(** ** Properties *)

Lemma live_entry_wal o :
  (forall p, o = Some p -> iwp_fits p) ->
  option_map into_wal_position (option_map as_clean (live_entry o)) =
  match option_map into_wal_position o with Some w => wp_valid w | None => None end.
Proof.
  intros Hf. destruct o as [p|]; [|done]. specialize (Hf p eq_refl).
  assert (wp_valid (into_update_position p) = Some (into_update_position p)) as Hv.
  { unfold wp_valid. rewrite bool_decide_eq_false_2; [done|]. by apply update_position_valid. }
  destruct p as [off len []]; [by symmetry|by symmetry|done].
Qed.

Lemma it_view_fits t es k p : it_wf t es -> it_view t es k = Some p -> iwp_fits p.
Proof.
  intros Hw E. rewrite <- bt_get_combined in E by done. apply bt_get_In in E; [|by apply combined_sorted].
  pose proof (combined_fits t es Hw) as Hf. rewrite List.Forall_forall in Hf. by apply (Hf (k, p)).
Qed.

(** [clean_self] settles the deepest level: it succeeds, no dirty entry is
    left, live keys resolve as before, and deleted keys are gone, the flat
    entries their tombstones shadowed included. *)
Lemma clean_self_settles t es :
  it_wf t es ->
  exists t' es', clean_self t = Ok t' /\ it_wf t' es' /\ it_stats t' es' /\ it_dirty_count t' = 0 /\
    forall k, it_get t' k = (w ← it_get t k; Ok (match w with Some w => wp_valid w | None => None end)).
Proof.
  intros Hw. destruct (clean_self_ok t es Hw) as (t' & es' & Hc & Hw' & Hst & Hd & Hv).
  exists t', es'. do 4 (split; [done|]). intros k.
  rewrite (it_get_ok t' es' k Hw'), (it_get_ok t es k Hw), Hv. cbn [mbind outcome_bind]. f_equal.
  apply live_entry_wal. intros p. by apply it_view_fits.
Qed.

(** Compaction keeps tombstones: the compactor is given the keys that have
    a value; afterwards exactly those it returns still have one, unchanged, and
    every deletion that shadows a deeper level is still there. *)
Lemma compact_keeps_tombstones t es compactor :
  it_wf t es ->
  exists keys t' es', it_keys t = Ok keys /\ compact_with t compactor = Ok t' /\ it_wf t' es' /\ it_stats t' es' /\
    (forall k, In k keys <-> is_Some (live_entry (it_view t es k))) /\
    forall k,
      live_entry (it_view t' es' k) =
        (if existsb (keqb k) (compactor keys) then live_entry (it_view t es k) else None) /\
      (live_entry (it_view t es k) = None -> it_view t' es' k = it_view t es k).
Proof.
  intros Hw. destruct (compact_with_ok t es compactor Hw) as (t' & es' & Hc & Hw' & Hst & Hv).
  eexists _, t', es'. split; [by apply it_keys_ok|]. do 3 (split; [done|]). split; [|done].
  intros k. by apply it_keys_In.
Qed.

(** Clearing an unchanged table after a flush: once the as-of-frontier
    content is below, dropping everything but the positions at or above the
    frontier changes no read from the frontier on. *)
Lemma retain_unprocessed_invisible t es lp bes base blob merged :
  it_wf t es -> flat_only base bes -> merge_fits base t bes es ->
  merge_dirty_and_clean base t = Ok merged -> retain_processed merged lp = Ok blob ->
  exists t', retain_unprocessed t lp = Ok t' /\ it_wf t' [] /\
    forall k lp', lp <= lp' ->
      read_through (it_get_at t' k lp') (it_get blob k) = read_through (it_get_at t k lp') (it_get base k).
Proof.
  intros Hw Hb Hfit Hm Hr. destruct (retain_unprocessed_reads t es lp Hw) as (t' & Ht & Hw' & Hv).
  destruct (merge_retain_ok base t bes es lp Hb Hw Hfit) as (m & blob' & Hm' & Hr' & Hwb & Hvb).
  assert (m = merged) as -> by congruence. assert (blob' = blob) as -> by congruence.
  assert (it_wf base bes) as Hbase.
  { destruct Hb as [E Hbr]. split; [|done]. rewrite E. apply overlay_wf_nil. }
  exists t'. do 2 (split; [done|]). intros k lp' Hle.
  rewrite (it_get_at_ok t' [] k lp' Hw'), (it_get_at_ok t es k lp' Hw), (it_get_ok blob _ k Hwb), (it_get_ok base bes k Hbase).
  rewrite (flat_only_view base bes k (proj1 Hb)), Hvb, !read_through_views, <- (Hv k lp lp') by lia. unfold flushed_view.
  destruct (it_view_at t' [] k lp'); [done|].
  cbn. destruct (it_view_at t es k lp); cbn; by rewrite ?demote_wal.
Qed.

