(* ===== verification/Levels.v ===== *)
(** * Index levels

    [src/tidehunter/src/index/levels.rs]: the list of on-disk index blobs of a
    cell, freshest first, with an optional map of shards in place of the L1
    blob; and [src/tidehunter/src/index/utils.rs]: the k-way merge step that
    walks the overlay and the levels together.  Debug-build assertions
    ([debug_assert!], [debug_assert_shards]) are not part of the definitions;
    the condition [debug_assert_shards] checks is [shards_ok]. *)

From Stdlib Require Import ZArith Lia List Sorting.Sorted.
From stdpp Require Import base tactics list strings.
From S2P Require Import Prelude BTree Bytes Position Flat IndexTable IndexWalk.

Local Open Scope Z_scope.

(** ** Data *)

Record IndexShard := mkShard { shard_position : WalPosition; shard_max_key : list Z }.

Record IndexLevels := mkLevels {
  lv_positions : list WalPosition;
  lv_shards : list (list Z * IndexShard);
}.

(** ** Constructors *)

Definition levels_new : IndexLevels := mkLevels [] [].

Definition levels_single (position : WalPosition) : IndexLevels := mkLevels [position] [].

Definition levels_promoted (l1 : WalPosition) : IndexLevels := mkLevels [WalPosition_INVALID; l1] [].

Definition levels_from_legacy_position (position : WalPosition) : IndexLevels :=
  if wp_is_valid position then levels_single position else levels_new.

Definition levels_from_legacy_v2_positions (positions : list WalPosition) : IndexLevels :=
  mkLevels positions [].

Definition levels_sharded (shards : list (list Z * IndexShard)) : IndexLevels :=
  mkLevels [WalPosition_INVALID; WalPosition_INVALID] shards.

Definition levels_sharded_with_l0 (l0 : WalPosition) (shards : list (list Z * IndexShard)) : IndexLevels :=
  mkLevels [l0; WalPosition_INVALID] shards.

(** ** Queries *)

Definition levels_is_empty (l : IndexLevels) : bool :=
  forallb (fun p => negb (wp_is_valid p)) (lv_positions l) &&
  (match lv_shards l with [] => true | _ => false end).

Definition shard_positions (l : IndexLevels) : list WalPosition :=
  List.map (fun s => shard_position s.2) (lv_shards l).

Definition levels_iter (l : IndexLevels) : list WalPosition :=
  List.filter wp_is_valid (lv_positions l) ++ shard_positions l.

(** [enumerate] *)
Fixpoint enumerate_from {A} (i : nat) (l : list A) : list (nat * A) :=
  match l with [] => [] | x :: l' => (i, x) :: enumerate_from (S i) l' end.

Definition levels_iter_with_level (l : IndexLevels) : list (nat * WalPosition) :=
  List.filter (fun ip => wp_is_valid ip.2) (enumerate_from 0 (lv_positions l)) ++
  List.map (fun p => (1%nat, p)) (shard_positions l).

Definition levels_iter_below_l0 (l : IndexLevels) : list WalPosition :=
  List.filter wp_is_valid (drop 1 (lv_positions l)) ++ shard_positions l.

Definition levels_get (l : IndexLevels) (level : nat) : option WalPosition :=
  match lv_positions l !! level with Some p => wp_valid p | None => None end.

Definition levels_l0 (l : IndexLevels) : option WalPosition := levels_get l 0.

Definition levels_l1 (l : IndexLevels) : option WalPosition := levels_get l 1.

Definition levels_set (l : IndexLevels) (level : nat) (position : WalPosition) : outcome IndexLevels :=
  _ ← assert_that (level <=? length (lv_positions l))%nat "level skips past end of levels";
  if (level =? length (lv_positions l))%nat
  then Ok (mkLevels (lv_positions l ++ [position]) (lv_shards l))
  else Ok (mkLevels (<[level := position]> (lv_positions l)) (lv_shards l)).

Definition levels_is_single_level (l : IndexLevels) : bool := (length (levels_iter l) <=? 1)%nat.

Definition levels_is_sharded (l : IndexLevels) : bool :=
  match lv_shards l with [] => false | _ => true end.

(** ** Shard pickers *)

Definition shard_entry_for (l : IndexLevels) (key : list Z) : option (list Z * IndexShard) :=
  match last (bt_upto key (lv_shards l)) with
  | Some (min_key, shard) => if kleb key (shard_max_key shard) then Some (min_key, shard) else None
  | None => None
  end.

Definition shard_for (l : IndexLevels) (key : list Z) : option IndexShard :=
  option_map snd (shard_entry_for l key).

Definition shard_for_iter_forward (l : IndexLevels) (prev_key : option (list Z)) : option IndexShard :=
  match lv_shards l with
  | [] => None
  | _ =>
      match prev_key with
      | None => option_map snd (head (lv_shards l))
      | Some k =>
          let next := option_map snd (head (bt_above k (lv_shards l))) in
          match last (bt_upto k (lv_shards l)) with
          | Some (_, pred) => if kltb k (shard_max_key pred) then Some pred else next
          | None => next
          end
      end
  end.

Definition shard_for_iter_reverse (l : IndexLevels) (prev_key : option (list Z)) : option IndexShard :=
  match lv_shards l with
  | [] => None
  | _ =>
      match prev_key with
      | None => option_map snd (last (lv_shards l))
      | Some k => option_map snd (last (bt_below k (lv_shards l)))
      end
  end.

(** ** The k-way merge step *)

Inductive NextEntryResult :=
| NotFound
| Found (key : list Z) (position : WalPosition)
| SkipDeleted (key : list Z).

(** One turn of the [for] loop over the candidates. *)
Definition merge_candidate (direction : Direction) (winner candidate : option (list Z * WalPosition)) :
    option (list Z * WalPosition) :=
  match candidate with
  | None => winner
  | Some (key, pos) =>
      match winner with
      | None => Some (key, pos)
      | Some (existing_key, _) =>
          let replace :=
            match direction, kcmp key existing_key with
            | Forward, Lt | Backward, Gt => true
            | _, _ => false
            end in
          if replace : bool then Some (key, pos) else winner
      end
  end.

Definition merge_levels_next_entry (candidates : list (option (list Z * WalPosition)))
    (direction : Direction) : NextEntryResult :=
  match fold_left (merge_candidate direction) candidates None with
  | None => NotFound
  | Some (key, pos) => if wp_is_valid pos then Found key pos else SkipDeleted key
  end.

(** ** Well-formed levels: the struct's documented invariants *)

(** Each shard covers [min_key, max_key], and a shard ends before the next
    begins. *)
Fixpoint shards_ok (shards : list (list Z * IndexShard)) : Prop :=
  match shards with
  | [] => True
  | (k, s) :: rest =>
      kle k (shard_max_key s) /\ wp_is_valid (shard_position s) = true /\
      Forall (fun e => klt (shard_max_key s) e.1) rest /\ shards_ok rest
  end.

Lemma shards_ok_sorted shards : shards_ok shards -> bt_sorted shards.
Proof.
  induction shards as [|[k s] rest IH]; [constructor|]. intros (Hle & _ & Hf & Hr).
  apply bt_sorted_cons. split; [by apply IH|]. eapply Forall_impl; [exact Hf|]. intros e He. cbn in *.
  by eapply kle_lt_trans.
Qed.

(** A shard's range. *)
Definition in_shard (key : list Z) (e : list Z * IndexShard) : Prop :=
  kle e.1 key /\ kle key (shard_max_key e.2).

(** Ranges do not overlap: a shard further right starts past the end of the
    one before. *)
Lemma shards_disjoint shards e e' :
  shards_ok shards -> In e shards -> In e' shards -> klt e.1 e'.1 -> klt (shard_max_key e.2) e'.1.
Proof.
  induction shards as [|[k s] rest IH]; [done|]. intros Hok. pose proof (shards_ok_sorted _ Hok) as Hs.
  apply bt_sorted_cons in Hs as [_ Hlt]. destruct Hok as (Hle & _ & Hf & Hr). rewrite List.Forall_forall in Hf, Hlt.
  intros [<-|He] [<-|He'] Hlt'; cbn [fst snd] in *.
  - by apply klt_irrefl in Hlt'.
  - by apply Hf.
  - specialize (Hlt _ He). by apply klt_asym in Hlt'.
  - by apply IH.
Qed.

Lemma shards_min_le_max shards e : shards_ok shards -> In e shards -> kle e.1 (shard_max_key e.2).
Proof.
  induction shards as [|[k s] rest IH]; [done|]. intros (Hle & _ & _ & Hr) [<-|He]; [done|by apply IH].
Qed.

(** The last entry with [min_key <= key]. *)
Lemma last_upto_spec {V} (m : list (list Z * V)) key :
  bt_sorted m ->
  match last (bt_upto key m) with
  | Some e => In e m /\ kle e.1 key /\ forall e', In e' m -> kle e'.1 key -> kle e'.1 e.1
  | None => forall e', In e' m -> klt key e'.1
  end.
Proof.
  intros Hs. destruct (last (bt_upto key m)) as [[k v]|] eqn:E.
  - apply bt_last_spec in E as [Hin Hmax]; [|by apply bt_filter_sorted]. unfold bt_upto in *.
    apply filter_In in Hin as [Hin Hle]. cbn [fst] in *. destruct (kleb_spec k key) as [Hk|]; [|done].
    split_and!; [done|done|]. intros e' He' Hle'. apply Hmax, filter_In. split; [done|].
    by destruct (kleb_spec e'.1 key).
  - apply last_None in E. intros e' He'. destruct (k_total key e'.1) as [?|Hge]; [done|]. exfalso.
    cut (In e' (bt_upto key m)); [by rewrite E|]. apply filter_In. split; [done|].
    destruct (kleb_spec e'.1 key) as [|Hn]; [done|]. destruct Hn. apply kle_iff. naive_solver.
Qed.

Lemma kle_trans (a b c : list Z) : kle a b -> kle b c -> kle a c.
Proof. rewrite !kle_iff. intros [?| ->] [?| ->]; eauto using klt_trans. Qed.

Lemma shard_entry_for_spec l key e :
  shards_ok (lv_shards l) ->
  shard_entry_for l key = Some e <-> In e (lv_shards l) /\ in_shard key e.
Proof.
  intros Hok. pose proof (shards_ok_sorted _ Hok) as Hs. unfold shard_entry_for.
  pose proof (last_upto_spec (lv_shards l) key Hs) as Hl. destruct (last (bt_upto _ _)) as [[k s]|].
  - destruct Hl as (Hin & Hle & Hmax). cbn [fst snd] in *. split.
    + destruct (kleb_spec key (shard_max_key s)); [|done]. by intros [= <-].
    + intros (Hin' & Hk1 & Hk2). specialize (Hmax e Hin' Hk1). apply kle_iff in Hmax as [Hlt|Heq].
      * exfalso. pose proof (shards_disjoint _ e (k, s) Hok Hin' Hin Hlt) as Hd. cbn [fst] in Hd.
        apply kle_not_lt in Hk2. apply Hk2. by eapply klt_le_trans.
      * assert (e = (k, s)) as ->.
        { destruct e as [k' s']. cbn in Heq. subst k'. f_equal. by eapply sorted_key_inj. }
        cbn [snd] in Hk2. by destruct (kleb_spec key (shard_max_key s)).
  - split; [done|]. intros (Hin' & Hk1 & _). specialize (Hl e Hin'). by apply kle_not_lt in Hk1.
Qed.

(** ** Iteration over shards *)

(** The early return on an empty map changes nothing. *)
Lemma shard_for_iter_forward_alt l prev :
  shard_for_iter_forward l prev =
  match prev with
  | None => option_map snd (head (lv_shards l))
  | Some k =>
      match last (bt_upto k (lv_shards l)) with
      | Some (_, pred) =>
          if kltb k (shard_max_key pred) then Some pred
          else option_map snd (head (bt_above k (lv_shards l)))
      | None => option_map snd (head (bt_above k (lv_shards l)))
      end
  end.
Proof. unfold shard_for_iter_forward. by destruct (lv_shards l), prev. Qed.

Lemma shard_for_iter_reverse_alt l prev :
  shard_for_iter_reverse l prev =
  match prev with
  | None => option_map snd (last (lv_shards l))
  | Some k => option_map snd (last (bt_below k (lv_shards l)))
  end.
Proof. unfold shard_for_iter_reverse. by destruct (lv_shards l), prev. Qed.

Section shard_contents.
(** [contents e k]: shard [e] holds key [k].  Both ends of a shard's range are
    keys of it, and it holds none outside. *)
Context (l : IndexLevels) (contents : list Z * IndexShard -> list Z -> Prop).
Context (Hok : shards_ok (lv_shards l)).
Context (Hends : forall e, In e (lv_shards l) -> contents e e.1 /\ contents e (shard_max_key e.2)).
Context (Hrange : forall e k, In e (lv_shards l) -> contents e k -> in_shard k e).

(** The shard picked holds a key past the cursor, and none of the shards holds
    a nearer one; when none is picked no shard holds any. *)
Definition picks_nearest (prev : option (list Z)) (d : Direction) (picked : option IndexShard) : Prop :=
  match picked with
  | Some s =>
      exists e, In e (lv_shards l) /\ e.2 = s /\
        (exists k, contents e k /\ past prev d k) /\
        forall e' k', In e' (lv_shards l) -> contents e' k' -> past prev d k' ->
          exists k, contents e k /\ past prev d k /\ not_after d k k'
  | None => forall e' k', In e' (lv_shards l) -> contents e' k' -> ~ past prev d k'
  end.

(** A shard that starts strictly left of another ends left of it. *)
Lemma shard_left e e' k' :
  In e (lv_shards l) -> In e' (lv_shards l) -> klt e'.1 e.1 -> contents e' k' -> klt k' e.1.
Proof.
  intros He He' Hlt Hc. destruct (Hrange e' k' He' Hc) as [_ Hk]. eapply kle_lt_trans; [exact Hk|].
  by apply (shards_disjoint (lv_shards l)).
Qed.

Lemma shard_same e e' : In e (lv_shards l) -> In e' (lv_shards l) -> e.1 = e'.1 -> e = e'.
Proof.
  intros He He' Heq. destruct e as [k s], e' as [k' s']. cbn in Heq. subst k'. f_equal.
  eapply sorted_key_inj; [by apply shards_ok_sorted|done|done].
Qed.

Lemma next_shard_picks p :
  (forall e' k', In e' (lv_shards l) -> kle e'.1 p -> contents e' k' -> kle k' p) ->
  picks_nearest (Some p) Forward (option_map snd (head (bt_above p (lv_shards l)))).
Proof.
  intros Hleft. pose proof (shards_ok_sorted _ Hok) as Hs.
  pose proof (nearest_spec (lv_shards l) (Some p) Forward Hs) as Hn. cbn [nearest past not_after] in Hn.
  assert (forall e' k', In e' (lv_shards l) -> contents e' k' -> klt p k' -> klt p e'.1) as Hpast.
  { intros e' k' He' Hc Hp. destruct (k_total p e'.1) as [?|Hle]; [done|]. exfalso.
    assert (kle e'.1 p) as Hle' by (apply kle_iff; naive_solver).
    specialize (Hleft e' k' He' Hle' Hc). by apply kle_not_lt in Hleft. }
  destruct (head (bt_above p (lv_shards l))) as [[k s]|]; cbn [option_map picks_nearest].
  - destruct Hn as (Hg & Hk & Hmin). apply bt_get_In in Hg; [|done]. destruct (Hends _ Hg) as [He1 _].
    exists (k, s). split_and!; [done|done|by exists k|]. intros e' k' He' Hc Hp. exists k. split_and!; [done|done|].
    cbn. eapply kle_trans; [|by destruct (Hrange e' k' He' Hc)]. apply Hmin.
    + destruct e' as [ke se]. exists se. by apply bt_get_In.
    + by eapply Hpast.
  - intros e' k' He' Hc Hp. cbn in Hp. apply (Hn e'.1); [|by eapply Hpast].
    destruct e' as [ke se]. exists se. by apply bt_get_In.
Qed.

Lemma shard_for_iter_forward_ok prev : picks_nearest prev Forward (shard_for_iter_forward l prev).
Proof.
  pose proof (shards_ok_sorted _ Hok) as Hs. rewrite shard_for_iter_forward_alt.
  destruct prev as [p|].
  - pose proof (last_upto_spec (lv_shards l) p Hs) as Hl. destruct (last (bt_upto p _)) as [[k s]|].
    + destruct Hl as (Hin & Hle & Hmax). destruct (Hends _ Hin) as [_ Hmaxk]. cbn [fst snd] in *.
      destruct (kltb_spec p (shard_max_key s)) as [Hlt|Hge].
      * exists (k, s). split_and!; [done|done|by exists (shard_max_key s)|].
        intros e' k' He' Hc Hp. cbn in Hp. destruct (k_total e'.1 k) as [Hl|[Heq|Hr]].
        -- pose proof (shard_left (k, s) e' k' Hin He' Hl Hc) as Hk. cbn in Hk. exfalso.
           apply (klt_asym p k'); [done|]. by eapply klt_le_trans.
        -- rewrite (shard_same e' (k, s)) in Hc by done. exists k'. split_and!; [done|done|]. apply kle_iff. by right.
        -- exists (shard_max_key s). split_and!; [done|done|]. cbn. apply kle_iff. left.
           eapply klt_le_trans; [by apply (shards_disjoint _ (k, s) e' Hok)|by destruct (Hrange e' k' He' Hc)].
      * apply next_shard_picks. intros e' k' He' Hle' Hc. assert (kle (shard_max_key s) p) as Hsp by (by apply kle_not_lt).
        specialize (Hmax e' He' Hle'). apply kle_iff in Hmax as [Hl|Heq].
        -- pose proof (shard_left (k, s) e' k' Hin He' Hl Hc) as Hk. cbn in Hk. apply kle_iff. left.
           by eapply klt_le_trans.
        -- rewrite (shard_same e' (k, s)) in Hc by done. eapply kle_trans; [|exact Hsp].
           by destruct (Hrange (k, s) k' Hin Hc).
    + apply next_shard_picks. intros e' k' He' Hle' Hc. specialize (Hl e' He'). by apply kle_not_lt in Hle'.
  - destruct (head (lv_shards l)) as [[k s]|] eqn:Eh.
    2:{ intros e' k' He'. by destruct (lv_shards l). }
    apply bt_head_spec in Eh as [Hin Hmin]; [|done]. destruct (Hends _ Hin) as [He _]. exists (k, s).
    split_and!; [done|done|by exists k|]. intros e' k' He' Hc _. exists k. split_and!; [done|done|]. cbn.
    eapply kle_trans; [by apply Hmin|by destruct (Hrange e' k' He' Hc)].
Qed.

Lemma shard_for_iter_reverse_ok prev : picks_nearest prev Backward (shard_for_iter_reverse l prev).
Proof.
  pose proof (shards_ok_sorted _ Hok) as Hs. rewrite shard_for_iter_reverse_alt.
  destruct prev as [p|].
  - pose proof (nearest_spec (lv_shards l) (Some p) Backward Hs) as Hn. cbn [nearest past not_after] in Hn.
    assert (forall e' k', In e' (lv_shards l) -> contents e' k' -> klt k' p -> klt e'.1 p) as Hpast.
    { intros e' k' He' Hc Hp. eapply kle_lt_trans; [|exact Hp]. by destruct (Hrange e' k' He' Hc). }
    destruct (last (bt_below p (lv_shards l))) as [[k s]|]; cbn [option_map picks_nearest].
    + destruct Hn as (Hg & Hk & Hmax). apply bt_get_In in Hg; [|done]. destruct (Hends _ Hg) as [He1 _].
      exists (k, s). split_and!; [done|done|by exists k|]. intros e' k' He' Hc Hp. cbn [past not_after] in *.
      assert (kle e'.1 k) as Hle.
      { apply Hmax; [|by eapply Hpast]. destruct e' as [ke se]. exists se. by apply bt_get_In. }
      apply kle_iff in Hle as [Hl|Heq].
      * exists k. split_and!; [done|done|]. apply kle_iff. left. by apply (shard_left (k, s) e').
      * rewrite (shard_same e' (k, s)) in Hc by done. exists k'. split_and!; [done|done|]. apply kle_iff. by right.
    + intros e' k' He' Hc Hp. cbn in Hp. apply (Hn e'.1); [|by eapply Hpast].
      destruct e' as [ke se]. exists se. by apply bt_get_In.
  - destruct (last (lv_shards l)) as [[k s]|] eqn:Eh.
    2:{ intros e' k' He'. apply last_None in Eh. by rewrite Eh in He'. }
    apply bt_last_spec in Eh as [Hin Hmax]; [|done]. destruct (Hends _ Hin) as [_ He]. exists (k, s). cbn [fst snd] in *.
    split_and!; [done|done|by exists (shard_max_key s)|]. intros e' k' He' Hc _.
    specialize (Hmax e' He'). apply kle_iff in Hmax as [Hl|Heq].
    + exists k. destruct (Hends _ Hin) as [Hk _]. split_and!; [done|done|]. cbn. apply kle_iff. left.
      by apply (shard_left (k, s) e').
    + rewrite (shard_same e' (k, s)) in Hc by done. exists k'. split_and!; [done|done|]. apply kle_iff. by right.
Qed.
End shard_contents.

(** ** The merge of the levels *)

(** The levels merged into one sorted list, a fresher level winning. *)
Definition merge_all (levels : list (list (list Z * WalPosition))) : list (list Z * WalPosition) :=
  fold_left (fun acc m => ordered_merge m acc) levels [].

Lemma merge_candidate_near d w c : merge_candidate d w c = pick_near w c d.
Proof.
  destruct c as [[k v]|], w as [[k' v']|]; try done. unfold merge_candidate, pick_near, kleb. cbn [fst].
  rewrite (kcmp_antisym k' k). by destruct d, (kcmp k' k).
Qed.

Lemma merge_candidates_nearest levels prev d acc :
  Forall bt_sorted levels -> bt_sorted acc ->
  bt_sorted (fold_left (fun acc m => ordered_merge m acc) levels acc) /\
  fold_left (merge_candidate d) (List.map (fun m => nearest m prev d) levels) (nearest acc prev d) =
  nearest (fold_left (fun acc m => ordered_merge m acc) levels acc) prev d.
Proof.
  intros Hf. revert acc. induction Hf as [|m levels Hm Hf IH]; intros acc Ha; [done|]. cbn.
  rewrite merge_candidate_near, nearest_merge by done. apply IH. auto with tide.
Qed.

Lemma nearest_nil {V} prev d : nearest ([] : list (list Z * V)) prev d = None.
Proof. by destruct d, prev. Qed.

(** The freshest level that has the key decides it. *)
Lemma bt_get_merge_all (levels : list (list (list Z * WalPosition))) k acc :
  Forall bt_sorted levels -> bt_sorted acc ->
  bt_get k (fold_left (fun acc m => ordered_merge m acc) levels acc) =
  fold_left (fun found m => match found with Some v => Some v | None => bt_get k m end) levels (bt_get k acc).
Proof.
  intros Hf. revert acc. induction Hf as [|m levels Hm Hf IH]; intros acc Ha; [done|]. cbn [fold_left].
  rewrite IH by auto with tide. f_equal. by rewrite bt_get_ordered_merge.
Qed.

(** One step of the merge is a step over the merged levels. *)
Lemma merge_levels_step levels prev d :
  Forall bt_sorted levels ->
  bt_sorted (merge_all levels) /\
  (forall k, bt_get k (merge_all levels) =
     fold_left (fun found m => match found with Some v => Some v | None => bt_get k m end) levels None) /\
  merge_levels_next_entry (List.map (fun m => nearest m prev d) levels) d =
    match nearest (merge_all levels) prev d with
    | None => NotFound
    | Some (k, p) => if wp_is_valid p then Found k p else SkipDeleted k
    end.
Proof.
  intros Hf. destruct (merge_candidates_nearest levels prev d [] Hf bt_sorted_nil) as [Hs Hm].
  rewrite nearest_nil in Hm. split; [done|]. split.
  - intros k. apply (bt_get_merge_all levels k [] Hf bt_sorted_nil).
  - unfold merge_levels_next_entry, merge_all. by rewrite Hm.
Qed.

(** ** Properties *)

(** Point lookups pick the right shard: on disjoint shards [shard_entry_for]
    returns a shard exactly when the key lies in its [min_key, max_key] range,
    so at most one shard is ever opened. *)
Lemma shard_entry_for_unique l key e :
  shards_ok (lv_shards l) ->
  shard_entry_for l key = Some e <-> In e (lv_shards l) /\ in_shard key e.
Proof. apply shard_entry_for_spec. Qed.

(** Iteration picks the right shard, forward and in reverse: the shard
    chosen holds the key nearest past the cursor among the keys of all shards,
    and none is chosen only when no shard has a key past the cursor. *)
Lemma shard_for_iter_nearest l contents prev :
  shards_ok (lv_shards l) ->
  (forall e, In e (lv_shards l) -> contents e e.1 /\ contents e (shard_max_key e.2)) ->
  (forall e k, In e (lv_shards l) -> contents e k -> in_shard k e) ->
  picks_nearest l contents prev Forward (shard_for_iter_forward l prev) /\
  picks_nearest l contents prev Backward (shard_for_iter_reverse l prev).
Proof.
  intros Hok He Hr. split; [by apply shard_for_iter_forward_ok|by apply shard_for_iter_reverse_ok].
Qed.

(** The k-way merge step is a step over the merged levels: fed with each
    level's nearest entry, freshest level first, it returns the nearest entry
    of the merge in which a fresher level's entry hides an older one's, as
    [Found], or [SkipDeleted] when that entry is a tombstone. *)
Lemma merge_levels_next levels prev d :
  Forall bt_sorted levels ->
  bt_sorted (merge_all levels) /\
  (forall k, bt_get k (merge_all levels) =
     fold_left (fun found m => match found with Some v => Some v | None => bt_get k m end) levels None) /\
  merge_levels_next_entry (List.map (fun m => nearest m prev d) levels) d =
    match nearest (merge_all levels) prev d with
    | None => NotFound
    | Some (k, p) => if wp_is_valid p then Found k p else SkipDeleted k
    end.
Proof. apply merge_levels_step. Qed.

(** Two shards for examples. *)
Definition demo_shards : IndexLevels :=
  levels_sharded [([1], mkShard (mkWalPosition 8 40) [4]); ([6], mkShard (mkWalPosition 48 40) [9])].

Lemma demo_shards_ok : shards_ok (lv_shards demo_shards).
Proof. cbn. repeat split; try discriminate; repeat constructor. Qed.

(** The example shards hold just their two ends. *)
Definition demo_contents (e : list Z * IndexShard) (k : list Z) : Prop := k = e.1 \/ k = shard_max_key e.2.

Lemma demo_contents_range e k : In e (lv_shards demo_shards) -> demo_contents e k -> in_shard k e.
Proof.
  intros [<-|[<-|[]]] [->| ->]; split; cbn; discriminate.
Qed.

