(* ===== verification/IterCache.v ===== *)
(** * The iterator's caches of index reads

    [IndexIterCache] and [IndexIterCaches] of
    [src/tidehunter/src/index/index_format.rs]: an iterator keeps, for each level
    of the cell it walks, the part of the blob it read last.  A cache names the
    blob it comes from; a step over another blob drops it. *)

From Stdlib Require Import ZArith Lia List.
From stdpp Require Import base tactics list.
From S2P Require Import Prelude Bytes Position.

Local Open Scope Z_scope.

Inductive IndexIterCache :=
| CacheLookupHeader (position : WalPosition) (micro_cell : Z) (buffer : list Z) (last_returned_pos : nat)
| CacheUniformLookup (position : WalPosition) (from_offset to_offset : nat) (buffer : list Z) (last_returned_pos : nat).

Definition cache_position (c : IndexIterCache) : WalPosition :=
  match c with
  | CacheLookupHeader position _ _ _ => position
  | CacheUniformLookup position _ _ _ _ => position
  end.

(** The first step of both [next_entry_unloaded]: a cache of another blob is
    dropped. *)
Definition drop_stale (cache : option IndexIterCache) (position : WalPosition) : option IndexIterCache :=
  match cache with
  | Some c => if bool_decide (cache_position c = position) then cache else None
  | None => None
  end.

(** [IndexIterCaches]: one slot per level, grown on demand. *)
Definition caches_slot (slots : list (option IndexIterCache)) (level : nat) : list (option IndexIterCache) * option IndexIterCache :=
  let slots := if (length slots <=? level)%nat then slots ++ replicate (level + 1 - length slots) None else slots in
  (slots, default None (slots !! level)).

(** What the index reader does with a slot through [slot_mut]. *)
Definition caches_store (slots : list (option IndexIterCache)) (level : nat) (c : option IndexIterCache) : list (option IndexIterCache) :=
  <[level := c]> (caches_slot slots level).1.

(** [IndexIterCaches::clear] *)
Definition caches_clear : list (option IndexIterCache) := [].

(** A slot that holds nothing, or a part of the blob at [p]. *)
Definition cache_at (p : WalPosition) (c : option IndexIterCache) : Prop :=
  forall x, c = Some x -> cache_position x = p.

Lemma drop_stale_at c p : cache_at p (drop_stale c p).
Proof. destruct c as [c|]; cbn; [|done]. case_bool_decide; [|done]. by intros x [= <-]. Qed.

(** The slots after one of them was written. *)
Lemma caches_store_forall (P : option IndexIterCache -> Prop) slots level c :
  P None -> Forall P slots -> P c -> Forall P (caches_store slots level c).
Proof.
  intros Hn Hf Hc. unfold caches_store, caches_slot. cbn [fst]. apply Forall_insert; [|done].
  destruct (_ <=? _)%nat; [|done]. apply Forall_app. split; [done|]. by apply Forall_replicate.
Qed.

Lemma caches_slot_forall (P : option IndexIterCache -> Prop) slots level :
  P None -> Forall P slots -> P (caches_slot slots level).2.
Proof.
  intros Hn Hf. unfold caches_slot. cbn [snd].
  set (l := if (_ <=? _)%nat then _ else _). assert (Forall P l) as Hl.
  { subst l. destruct (_ <=? _)%nat; [|done]. apply Forall_app. split; [done|]. by apply Forall_replicate. }
  destruct (l !! level) as [x|] eqn:E; [|done]. cbn. rewrite Forall_lookup in Hl. by apply (Hl level).
Qed.
