(* ===== verification/Loader.v ===== *)
(** * The loader interface and the tables of a cell

    The [Loader] trait of [src/tidehunter/src/large_table.rs]: what the large
    table and the flusher ask of the database, namely to load an index blob, to
    write one, to look a key up in one, and where the WAL's frontier, tail and
    floor are.  The class [LoaderSpec] states what its clients rely on; the
    database's own loader discharges it in [IndexStore].

    [cell_table] collects what the flush path needs of a table to never run out
    of room: its keys come from a list [U] of keys that fit the flat and disk
    layouts together.  The table operations of the flusher keep it, and the
    lemmas here give their effect on every key. *)

From Stdlib Require Import ZArith Lia List Sorting.Sorted.
From stdpp Require Import base tactics list strings.
From S2P Require Import Prelude BTree Bytes Position Flat FlatFacts IndexTable IndexOps IndexTableFacts.
From S2P Require Import IndexWalk IndexPromote IndexFlush IndexUnmerge IndexCodec IndexClean Levels IterCache.

Local Open Scope Z_scope.

(** ** The interface *)

(** A walk over a blob: the cursor, the direction and the cached part of the
    blob give the next entry and the part cached then. *)
Definition BlobWalk : Type :=
  option (list Z) -> Direction -> option IndexIterCache -> outcome (option (list Z * WalPosition) * option IndexIterCache).

Class Loader (S : Type) := {
  (** [load]: the blob at a position, [None] when it cannot be read. *)
  ld_load : S -> WalPosition -> option IndexTable;
  (** [flush]: writes a blob. *)
  ld_flush : S -> IndexTable -> option (S * WalPosition);
  (** [index_reader] followed by the index format's [lookup_unloaded]. *)
  ld_lookup : S -> WalPosition -> list Z -> option (option WalPosition);
  (** [index_reader], the reader seen through the index format's
      [next_entry_unloaded]; [None] when it cannot be opened. *)
  ld_walk : S -> WalPosition -> option BlobWalk;
  ld_last_processed : S -> LastProcessed;
  ld_current_wal_position : S -> Z;
  ld_min_wal_position : S -> Z;
}.

(** ** Tables with room *)

Section cell_tables.
Context (ks : option nat) (U : list (list Z)).

(** The keys fit the disk layout of the key space and the variable-length
    layout; all together, with their positions, they fit the 32-bit offsets of
    one flat buffer, and of one blob with its 1024-byte header and its tables of
    offsets. *)
Definition universe_ok : Prop :=
  Forall (fun k => disk_key_fits ks k /\ Z.of_nat (length k) <= MAX_U16_VARINT) U /\
  Z.of_nat (1024 + 2 * keys_size U) < u32_max.

Definition keys_within (t : IndexTable) (es : list entry) : Prop :=
  forall k, is_Some (it_view t es k) -> In k U.

Record cell_table (t : IndexTable) (es : list entry) : Prop := mkCellTable {
  ct_wf : it_wf t es;
  ct_keys : keys_within t es;
  ct_layout : it_key_size t = None \/ it_key_size t = ks;
}.

(** A blob as loaded: everything is in the flat buffer. *)
Record cell_blob (t : IndexTable) (es : list entry) : Prop := mkCellBlob {
  cb_table : cell_table t es;
  cb_data : it_data t = [];
}.

Lemma cell_table_default : cell_table it_default [].
Proof.
  split; [|by intros k [p Hp]|by left]. split; [apply overlay_wf_nil|]. by split_and!; [|constructor|constructor|].
Qed.

Lemma cell_blob_default : cell_blob it_default [].
Proof. split; [apply cell_table_default|done]. Qed.

Lemma cell_blob_flat_only t es : cell_blob t es -> flat_only t es.
Proof. intros [[[_ Hr] _ _] Hd]. done. Qed.

Lemma cell_blob_view t es k : cell_blob t es -> it_view t es k = bt_get k es.
Proof. intros [_ Hd]. by apply flat_only_view. Qed.

Lemma flat_keys_within t es k : cell_table t es -> is_Some (bt_get k es) -> In k U.
Proof.
  intros [_ Hk _] [p Hp]. apply Hk. unfold it_view. destruct (last _); [by eexists|]. by rewrite Hp.
Qed.

(** Lists over the universe fit any of its layouts. *)
Lemma universe_size_fits (es : list entry) ks' :
  universe_ok -> bt_sorted es -> (forall k, is_Some (bt_get k es) -> In k U) -> size_fits ks' es.
Proof.
  intros [_ Hu] Hs Hin. destruct ks'; [done|]. unfold size_fits. rewrite length_var_section.
  enough (keys_size (List.map fst es) <= keys_size U)%nat by lia. apply keys_size_subset; [by apply sorted_keys_NoDup|]. intros k.
  rewrite in_map_iff. intros ([k' p] & <- & He). apply Hin. eexists. by apply bt_get_In.
Qed.

Lemma universe_key_fits k ks' : universe_ok -> In k U -> ks' = None \/ ks' = ks -> key_fits ks' k.
Proof.
  intros [Hf _] Hin Hl. rewrite List.Forall_forall in Hf. destruct (Hf k Hin) as [Hd Hm].
  assert (key_fits None k) by (cbn; unfold MAX_U16_VARINT, u16_max in *; lia).
  destruct Hl as [->| ->]; [done|]. by destruct ks.
Qed.

Lemma universe_disk_fits (es : list entry) :
  universe_ok -> bt_sorted es -> (forall k, is_Some (bt_get k es) -> In k U) -> disk_fits ks es.
Proof.
  intros Hu Hs Hin. split; [|by apply universe_size_fits]. apply List.Forall_forall. intros [k p] He.
  destruct Hu as [Hf _]. rewrite List.Forall_forall in Hf. apply Hf, Hin. eexists. by apply bt_get_In.
Qed.

(** ** What the flusher's table operations do to a cell's table *)

Lemma merged_layout base dirty :
  (it_key_size base = None \/ it_key_size base = ks) -> (it_key_size dirty = None \/ it_key_size dirty = ks) ->
  merged_key_size base dirty = None \/ merged_key_size base dirty = ks.
Proof. unfold merged_key_size. destruct (it_flat dirty); [done|]. by destruct (it_flat base). Qed.

Lemma cell_merge_fits base dirty bes des :
  universe_ok -> cell_blob base bes -> cell_table dirty des -> merge_fits base dirty bes des.
Proof.
  intros Hu Hb Hd. pose proof (merged_layout base dirty (ct_layout _ _ (cb_table _ _ Hb)) (ct_layout _ _ Hd)) as Hl.
  destruct (cell_blob_flat_only _ _ Hb) as [_ (_ & Hbs & _)]. destruct (ct_wf _ _ Hd) as [_ (_ & Hds & _)]. split.
  - apply List.Forall_forall. intros [k p] He. apply universe_key_fits; [done| |done].
    eapply (flat_keys_within dirty des); [done|]. eexists. by apply bt_get_In.
  - apply universe_size_fits; [done|by apply merged_flat_sorted|]. intros k. rewrite bt_get_merged_flat by done.
    destruct (bt_get k des) eqn:E; intros Hk.
    + by eapply (flat_keys_within dirty des); [done|rewrite E].
    + by eapply (flat_keys_within base bes); [apply Hb|].
Qed.

(** The overlay part and the flat part of a key's content. *)
Definition over_view (t : IndexTable) (k : list Z) : option IndexWalPosition := last (positions_of (it_data t) k).

Lemma it_view_parts t es k : it_view t es k = or_else (over_view t k) (bt_get k es).
Proof. done. Qed.

Lemma merge_cell_gen b base dirty bes des :
  universe_ok -> cell_blob base bes -> cell_table dirty des ->
  exists t' es', merge_dirty base dirty b = Ok t' /\ cell_table t' es' /\
    (forall k, bt_get k es' = or_else (option_map (demote b) (bt_get k des)) (bt_get k bes)) /\
    forall k, positions_of (it_data t') k = List.map (demote b) (positions_of (it_data dirty) k).
Proof.
  intros Hu Hb Hd. pose proof (cell_merge_fits _ _ _ _ Hu Hb Hd) as Hf. pose proof (cell_blob_flat_only _ _ Hb) as Hbf.
  destruct (merge_dirty_gen b base dirty bes des Hbf (ct_wf _ _ Hd) Hf) as (t' & Hm & Hw & _ & Hks & Hdata).
  destruct Hbf as [_ (_ & Hbs & _)]. destruct (ct_wf _ _ Hd) as [_ (_ & Hds & _)].
  exists t', (merged_flat b bes des). split; [done|].
  assert (forall k, bt_get k (merged_flat b bes des) =
            or_else (option_map (demote b) (bt_get k des)) (bt_get k bes)) as Hg.
  { intros k. rewrite bt_get_merged_flat by done. by destruct (bt_get k des). }
  assert (forall k, positions_of (it_data t') k = List.map (demote b) (positions_of (it_data dirty) k)) as Hp.
  { intros k. by rewrite Hdata, positions_of_demote. }
  split; [|done]. split; [done| |].
  - intros k. unfold it_view. rewrite Hp, demote_last, Hg.
    destruct (last (positions_of (it_data dirty) k)) as [p|] eqn:E.
    { intros _. apply (ct_keys _ _ Hd). unfold it_view. by rewrite E. }
    cbn. destruct (bt_get k des) eqn:E'; cbn; intros Hk.
    + by eapply (flat_keys_within dirty des); [done|rewrite E'].
    + by eapply (flat_keys_within base bes); [apply Hb|].
  - rewrite Hks. apply merged_layout; [apply (cb_table _ _ Hb)|apply Hd].
Qed.

Lemma merge_cell base dirty bes des :
  universe_ok -> cell_blob base bes -> cell_table dirty des ->
  exists t' es', merge_dirty_and_clean base dirty = Ok t' /\ cell_table t' es' /\
    (forall k, bt_get k es' = or_else (option_map (demote true) (bt_get k des)) (bt_get k bes)) /\
    forall k, positions_of (it_data t') k = List.map (demote true) (positions_of (it_data dirty) k).
Proof. apply merge_cell_gen. Qed.

(** Filters keep a table in its cell. *)
Lemma cell_table_filtered t es t' es' :
  cell_table t es -> it_wf t' es' -> it_key_size t' = it_key_size t ->
  (forall k, is_Some (it_view t' es' k) -> is_Some (it_view t es k)) -> cell_table t' es'.
Proof.
  intros [_ Hk Hl] Hw Hks Hv. split; [done| |by rewrite Hks]. intros k Hs. by apply Hk, Hv.
Qed.

Lemma refresh_stats_layout t t' : refresh_stats t = Ok t' -> it_key_size t' = it_key_size t.
Proof. unfold refresh_stats. intros H. by inv_ok H. Qed.

Lemma retain_flat_layout t keep t' : retain_flat t keep = Ok t' -> it_key_size t' = it_key_size t.
Proof. unfold retain_flat. intros H. by inv_ok H. Qed.

Lemma it_retain_layout t f t' : it_retain t f = Ok t' -> it_key_size t' = it_key_size t.
Proof.
  unfold it_retain. intros (d & _ & H)%outcome_bind_ok. by apply refresh_stats_layout in H.
Qed.

Lemma retain_processed_cell t es lp :
  cell_table t es ->
  exists t', retain_processed t lp = Ok t' /\ cell_table t' es /\
    forall k, over_view t' k = last (processed_of lp (positions_of (it_data t) k)).
Proof.
  intros Ht. destruct (retain_processed_ok t es lp (ct_wf _ _ Ht)) as (t' & Hr & Hw & _ & Hks & Hp & _).
  exists t'. split; [done|].
  assert (forall k, over_view t' k = last (processed_of lp (positions_of (it_data t) k))) as Ho.
  { intros k. unfold over_view. by rewrite Hp. }
  split; [|done]. eapply cell_table_filtered; [exact Ht|done|done|].
  - intros k. rewrite it_view_parts, Ho. unfold it_view, processed_of.
    destruct (positions_of (it_data t) k) as [|p ps] eqn:E; [done|]. intros _.
    destruct (last (p :: ps)) eqn:El; [by eexists|]. by apply last_None in El.
Qed.

Lemma retain_above_cell t es x :
  cell_table t es ->
  exists t' es', retain_above_position t x = Ok t' /\ cell_table t' es' /\
    forall k, over_view t' k = at_or_above x (over_view t k) /\ bt_get k es' = at_or_above x (bt_get k es).
Proof.
  intros Ht. destruct (retain_above_ok t es x (ct_wf _ _ Ht)) as (t' & es' & Hr & Hw & _ & Hv).
  exists t', es'. split; [done|]. split; [|exact Hv]. eapply cell_table_filtered; [exact Ht|done| |].
  - unfold retain_above_position in Hr. apply outcome_bind_ok in Hr as (t1 & H1 & H2).
    apply retain_flat_layout in H1. apply it_retain_layout in H2. congruence.
  - intros k. rewrite !it_view_parts. unfold over_view. destruct (Hv k) as [-> ->].
    destruct (last _); cbn; [by eexists|]. by destruct (bt_get k es).
Qed.

Lemma clean_self_cell t es :
  cell_table t es ->
  exists t' es', clean_self t = Ok t' /\ cell_table t' es' /\
    forall k, it_view t' es' k = option_map as_clean (live_entry (it_view t es k)).
Proof.
  intros Ht. destruct (clean_self_ok t es (ct_wf _ _ Ht)) as (t' & es' & Hc & Hw & _ & _ & Hv).
  exists t', es'. split; [done|]. split; [|done]. eapply cell_table_filtered; [exact Ht|done| |].
  - unfold clean_self in Hc. apply outcome_bind_ok in Hc as (l & _ & Hc). cbv zeta in Hc.
    apply outcome_bind_ok in Hc as (t1 & H1 & H2). apply retain_flat_layout in H1.
    apply refresh_stats_layout in H2. cbn in H1. congruence.
  - intros k. rewrite Hv. by destruct (it_view t es k).
Qed.

Lemma insert_cell t es k v :
  cell_table t es -> In k U -> iwp_fits v ->
  existsb (same_offset v) (positions_of (it_data t) k) = false ->
  exists t', checked_insert t k v = Ok (t', if forallb (below_offset v) (positions_of (it_data t) k) then Latest else Stale) /\
    cell_table t' es /\
    forall k', positions_of (it_data t') k' =
      if keqb k' k then pos_insert v (positions_of (it_data t) k) else positions_of (it_data t) k'.
Proof.
  intros Ht Hk Hv Hfresh. pose proof (ct_wf _ _ Ht) as Hw.
  destruct (checked_insert_ok t es k v Hw) as [[Hc _]|(_ & kb & dc & Hc & _)]; [congruence|].
  exists (with_write t k v kb dc). split; [done|].
  split; [|intros k'; by apply (with_write_positions t es)]. split; [by apply with_write_wf| |apply Ht].
  intros k' Hs. rewrite with_write_view in Hs by done.
  revert Hs. destruct (keqb_spec k' k) as [->|_]; [done|]. apply (ct_keys _ _ Ht).
Qed.
End cell_tables.

Lemma iter_with_tombstones_ok t es :
  it_wf t es -> iter_with_tombstones t = Ok (List.map (fun e => (e.1, into_wal_position e.2)) (combined t es)).
Proof.
  intros Hw. unfold iter_with_tombstones, iter_inner. rewrite (iter_combined_ok t es Hw). cbn [mbind outcome_bind].
  rewrite filter_all; [done|]. by apply List.Forall_forall.
Qed.

(** ** What clients rely on *)

(** What is known of the store while blobs are only added. *)
Definition blobs_kept {S} `{Loader S} (s s' : S) : Prop :=
  forall q, is_Some (ld_load s q) ->
    ld_load s' q = ld_load s q /\ (forall k, ld_lookup s' q k = ld_lookup s q k) /\ ld_walk s' q = ld_walk s q.

Definition store_extends {S} `{Loader S} (s s' : S) : Prop :=
  blobs_kept s s' /\
  ld_min_wal_position s' = ld_min_wal_position s /\ ld_last_processed s' = ld_last_processed s /\
  ld_current_wal_position s <= ld_current_wal_position s'.

(** A cache is warm for a walk over the entries [ws] when the steps from it,
    and from the caches they leave, are steps over [ws]. *)
Definition walk_closed (U : list (list Z)) (p : WalPosition) (ws : list (list Z * WalPosition)) (w : BlobWalk)
    (warm : option IndexIterCache -> Prop) : Prop :=
  forall prev d c, (forall k, prev = Some k -> In k U) -> warm c ->
    exists c', w prev d c = Ok (nearest ws prev d, c') /\ warm c' /\ cache_at p c'.

Definition cache_warm (U : list (list Z)) (p : WalPosition) (ws : list (list Z * WalPosition)) (w : BlobWalk)
    (c : option IndexIterCache) : Prop :=
  exists warm, walk_closed U p ws w warm /\ warm c.

(** The blob at [p] loads as a table over the cell's keys with entries [es],
    a lookup in it is a lookup in that table, and a walk over it, from no cache
    or from one of another blob, is a walk over the entries. *)
Record blob_reads {S} `{Loader S} (ks : option nat) (U : list (list Z)) (s : S) (p : WalPosition) (es : list entry) : Prop := mkBlobReads {
  br_load : exists t, ld_load s p = Some t /\ cell_blob ks U t es;
  br_lookup : forall k, In k U -> ld_lookup s p k = Some (option_map into_wal_position (bt_get k es));
  br_walk : exists w, ld_walk s p = Some w /\
    forall c, (forall x, c = Some x -> cache_position x <> p) -> cache_warm U p (List.map as_wal es) w c;
}.

Class LoaderSpec (S : Type) `{Loader S} (ks : option nat) (U : list (list Z)) := {
  (** A written table reads back under a fresh valid position; other blobs
      stay. *)
  ld_flush_ok : forall s t es, cell_table ks U t es ->
    exists s' p, ld_flush s t = Some (s', p) /\ wp_is_valid p = true /\ ld_load s p = None /\
      blob_reads ks U s' p (List.map disk_entry (combined t es)) /\ store_extends s s';
}.

#[export] Instance store_extends_preorder {S} `{Loader S} : PreOrder (store_extends (S := S)).
Proof.
  split.
  - intros s. split_and!; (done || lia).
  - intros s1 s2 s3 (Hl & Hm & Hp & Hc) (Hl' & Hm' & Hp' & Hc'). split_and!; [|congruence|congruence|lia].
    intros q Hq. destruct (Hl q Hq) as (E & Hk & Hw). destruct (Hl' q) as (E' & Hk' & Hw'); [by rewrite E|].
    split_and!; [congruence| |congruence]. intros k. by rewrite Hk', Hk.
Qed.

(** ** The content of blobs and of levels *)

Section content.
Context {S : Type} `{Loader S}.

Definition blob_entries (s : S) (p : WalPosition) : list entry :=
  match ld_load s p with
  | Some t => match flat_iter (it_flat t) (it_key_size t) with Ok es => es | Panic _ => [] end
  | None => []
  end.

Definition blob_view (s : S) (p : WalPosition) (k : list Z) : option IndexWalPosition := bt_get k (blob_entries s p).

Definition blob_ok (ks : option nat) (U : list (list Z)) (s : S) (p : WalPosition) : Prop :=
  blob_reads ks U s p (blob_entries s p).

Lemma blob_entries_eq ks U s p es : blob_reads ks U s p es -> blob_entries s p = es.
Proof.
  intros [(t & Hl & Hb) _ _]. unfold blob_entries. rewrite Hl. destruct (cell_blob_flat_only _ _ _ _ Hb) as [_ Hr].
  by rewrite (flat_repr_iter _ _ _ Hr).
Qed.

Lemma blob_ok_intro ks U s p es : blob_reads ks U s p es -> blob_ok ks U s p.
Proof. intros Hb. unfold blob_ok. by rewrite (blob_entries_eq ks U s p es). Qed.

Lemma blob_ok_load ks U s p : blob_ok ks U s p -> exists t, ld_load s p = Some t /\ cell_blob ks U t (blob_entries s p).
Proof. intros [Hl _ _]. done. Qed.

Lemma blob_ok_loads ks U s p : blob_ok ks U s p -> is_Some (ld_load s p).
Proof. intros [(t & -> & _) _ _]. by eexists. Qed.

Lemma blob_ok_lookup ks U s p k :
  blob_ok ks U s p -> In k U -> ld_lookup s p k = Some (option_map into_wal_position (blob_view s p k)).
Proof. intros [_ Hk _]. apply Hk. Qed.

Lemma blob_entries_kept s s' p : blobs_kept s s' -> is_Some (ld_load s p) -> blob_entries s' p = blob_entries s p.
Proof. intros Hl Hp. unfold blob_entries. by rewrite (proj1 (Hl p Hp)). Qed.

Lemma blob_ok_kept ks U s s' p : blobs_kept s s' -> blob_ok ks U s p -> blob_ok ks U s' p.
Proof.
  intros He Hb. pose proof (blob_ok_loads ks U s p Hb) as Hs. unfold blob_ok. rewrite (blob_entries_kept s s') by done.
  destruct (He p Hs) as (El & Ek & Ew). destruct Hb as [Hl Hk Hw]. split; [by rewrite El| |by rewrite Ew]. intros k Hin. rewrite Ek. by apply Hk.
Qed.

Lemma blob_view_kept ks U s s' p k : blobs_kept s s' -> blob_ok ks U s p -> blob_view s' p k = blob_view s p k.
Proof. intros He Hb%blob_ok_loads. unfold blob_view. by rewrite (blob_entries_kept s s'). Qed.

Lemma blob_entries_extends s s' p : store_extends s s' -> is_Some (ld_load s p) -> blob_entries s' p = blob_entries s p.
Proof. intros [Hl _]. by apply blob_entries_kept. Qed.

Lemma blob_ok_extends ks U s s' p : store_extends s s' -> blob_ok ks U s p -> blob_ok ks U s' p.
Proof. intros [Hl _]. by apply blob_ok_kept. Qed.

Lemma blob_view_extends ks U s s' p k : store_extends s s' -> blob_ok ks U s p -> blob_view s' p k = blob_view s p k.
Proof. intros [Hl _]. by apply blob_view_kept. Qed.

Lemma blob_entries_sorted ks U s p : blob_ok ks U s p -> bt_sorted (blob_entries s p).
Proof. intros [(t & _ & [[[_ (_ & Hs & _)] _ _] _]) _ _]. done. Qed.

Lemma blob_view_within ks U s p k : blob_ok ks U s p -> is_Some (blob_view s p k) -> In k U.
Proof. intros [(t & _ & [Ht _]) _ _]. by apply (flat_keys_within ks U t). Qed.

(** The first hit in a list of levels. *)
Fixpoint first_hit (s : S) (positions : list WalPosition) (k : list Z) : option IndexWalPosition :=
  match positions with
  | [] => None
  | p :: rest => or_else (blob_view s p k) (first_hit s rest k)
  end.

(** What is below L0 for a key: the shard covering it, or L1. *)
Definition below_l0_for (l : IndexLevels) (k : list Z) : option WalPosition :=
  if levels_is_sharded l then option_map shard_position (shard_for l k) else levels_l1 l.

Definition opt_view (s : S) (p : option WalPosition) (k : list Z) : option IndexWalPosition :=
  match p with Some p => blob_view s p k | None => None end.

(** The on-disk content of a cell at a key. *)
Definition levels_view (s : S) (l : IndexLevels) (k : list Z) : option IndexWalPosition :=
  or_else (opt_view s (levels_l0 l) k) (opt_view s (below_l0_for l k) k).

(** The shards of a cell: disjoint, and each blob holds keys of its range
    only, both ends among them. *)
Definition shards_hold (s : S) (shards : list (list Z * IndexShard)) : Prop :=
  Forall (fun e => is_Some (blob_view s (shard_position e.2) e.1) /\
                   is_Some (blob_view s (shard_position e.2) (shard_max_key e.2)) /\
                   forall k, is_Some (blob_view s (shard_position e.2) k) -> in_shard k e) shards.

(** The levels of a cell in a store: at most two slots, every blob readable. *)
Record levels_ok (ks : option nat) (U : list (list Z)) (s : S) (l : IndexLevels) : Prop := mkLevelsOk {
  lo_slots : (length (lv_positions l) <= 2)%nat;
  lo_blobs : Forall (blob_ok ks U s) (levels_iter l);
  lo_shards : shards_ok (lv_shards l);
  lo_hold : shards_hold s (lv_shards l);
  lo_below : levels_is_sharded l = true -> levels_l1 l = None;
}.
End content.
