(* ===== verification/Flusher.v ===== *)
(** * The flusher

    [src/tidehunter/src/flusher.rs]: a flush command turns the snapshot of a
    cell's table and its current levels into new levels, writing blobs through
    the loader; and [src/tidehunter/src/relocation/updates.rs], the
    compare-and-set updates a relocation flush applies.

    Code that reads from and writes to the loader is in the monad [LM], which
    passes the loader's state and fails with the panic of the [expect] calls.
    An [Arc<IndexTable>] is a [SharedTable]: the table and the identity of the
    allocation; identity 0 stands for allocations the flusher makes itself.
    Metrics, the worker threads and the channel they read are left out.  A
    [HashSet] of positions is a list that is only tested for membership and
    emptiness. *)

From Stdlib Require Import ZArith Lia List Sorting.Sorted.
From stdpp Require Import base tactics list strings.
From S2P Require Import Prelude BTree Bytes Position Flat IndexTable IndexOps Levels Loader.

Local Open Scope Z_scope.

(** ** The monad of loader clients *)

Definition LM (S A : Type) : Type := S -> outcome (S * A).

#[export] Instance LM_ret {S} : MRet (LM S) := fun A a s => Ok (s, a).

#[export] Instance LM_bind {S} : MBind (LM S) :=
  fun A B f m s => match m s with Ok (s, a) => f a s | Panic e => Panic e end.

Definition lift {S A} (m : outcome A) : LM S A := fun s => match m with Ok a => Ok (s, a) | Panic e => Panic e end.

Definition asks {S A} (f : S -> A) : LM S A := fun s => Ok (s, f s).

(** ** Relocation updates *)

Record RelocationUpdates := mkRU {
  ru_last_processed : Z;
  ru_updates : list (list Z * WalPosition);
}.

Definition ru_new (last_processed : Z) : RelocationUpdates := mkRU last_processed [].

Definition ru_add (u : RelocationUpdates) (reduced_key : list Z) (new_value : WalPosition) : RelocationUpdates :=
  mkRU (ru_last_processed u) (ru_updates u ++ [(reduced_key, new_value)]).

Definition ru_is_empty (u : RelocationUpdates) : bool := match ru_updates u with [] => true | _ => false end.

(** The closure given to [apply_update]. *)
Definition relocate_value (last_processed : Z) (new_value : WalPosition) (v : IndexWalPosition) : IndexWalPosition :=
  if iwp_offset v <? last_processed then replace_wal_position v new_value else v.

(** One update; the flag is set when the closure is called on a position below
    the frontier. *)
Definition ru_apply_one (last_processed : Z) (index : IndexTable) (key : list Z) (new_value : WalPosition) :
    outcome (IndexTable * bool) :=
  found ← data_get_latest index key;
  found ← match found with Some v => Ok (Some v) | None => flat_binary_search index key end;
  index ← apply_update index key (relocate_value last_processed new_value);
  Ok (index, match found with Some v => iwp_offset v <? last_processed | None => false end).

Fixpoint ru_apply_loop (last_processed : Z) (updates : list (list Z * WalPosition)) (index : IndexTable)
    (changed : bool) : outcome (IndexTable * bool) :=
  match updates with
  | [] => Ok (index, changed)
  | (key, new_value) :: rest =>
      '(index, c) ← ru_apply_one last_processed index key new_value;
      ru_apply_loop last_processed rest index (changed || c)
  end.

Definition ru_apply (u : RelocationUpdates) (index : IndexTable) : outcome (IndexTable * bool) :=
  ru_apply_loop (ru_last_processed u) (ru_updates u) index false.

(** ** Commands *)

Record SharedTable := mkShared { sh_id : nat; sh_table : IndexTable }.

Inductive FlushKind :=
| Flush (dirty : SharedTable) (current_levels : IndexLevels) (loaded : bool) (relocate_positions : list WalPosition)
| ForceRelocate (levels : IndexLevels) (relocate_positions : list WalPosition).

Inductive RelocationFlush :=
| RelocationNone
| RelocationUpdate (updates : RelocationUpdates)
| RelocationCutoff (cutoff : Z).

(** What a flush reads of the key space's context: the compactor, the L0
    capacity, the auto-shard threshold and the index format's serializer. *)
Record FlushCtx := mkFlushCtx {
  fc_compactor : option (list (list Z) -> list (list Z));
  fc_l0_max_entries : nat;
  fc_auto_shard_threshold : Z;
  fc_serialize_index : IndexTable -> outcome (list Z);
}.

Definition positions_contain (p : WalPosition) (l : list WalPosition) : bool := existsb (fun q => bool_decide (q = p)) l.

(** ** Splitting an L1 image *)

Definition shard_bounds (entries : list (list Z * WalPosition)) : outcome (list Z * list Z) :=
  first ← expect (head entries) "entries must be non-empty";
  last ← expect (last entries) "entries must be non-empty";
  Ok (first.1, last.1).

Fixpoint build_shard_table_from (table : IndexTable) (entries : list (list Z * WalPosition)) : outcome IndexTable :=
  match entries with
  | [] => Ok table
  | (k, v) :: rest => '(table, _) ← it_insert table k v; build_shard_table_from table rest
  end.

Definition build_shard_table (entries : list (list Z * WalPosition)) : outcome IndexTable :=
  build_shard_table_from it_default entries.

(** Each call halves the entries; as much fuel as there are entries is
    enough. *)
Fixpoint split_recursive (fuel : nat) (ctx : FlushCtx) (size_limit : Z) (entries : list (list Z * WalPosition))
    (out : list (list Z * list Z * IndexTable)) : outcome (list (list Z * list Z * IndexTable)) :=
  match entries with
  | [] => Ok out
  | _ =>
      table ← build_shard_table entries;
      serialized ← fc_serialize_index ctx table;
      if (Z.of_nat (length serialized) <=? size_limit) || (length entries =? 1)%nat then
        '(min_key, max_key) ← shard_bounds entries;
        Ok (out ++ [(min_key, max_key, table)])
      else
        match fuel with
        | O => Panic "out of fuel"
        | Datatypes.S fuel =>
            let mid := (length entries / 2)%nat in
            out ← split_recursive fuel ctx size_limit (take mid entries) out;
            split_recursive fuel ctx size_limit (drop mid entries) out
        end
  end.

Definition run_compactor (ctx : FlushCtx) (index : IndexTable) : outcome IndexTable :=
  match fc_compactor ctx with
  | Some compactor => compact_with index compactor
  | None => Ok index
  end.

Section flusher.
Context {S : Type} `{Loader S}.

Definition load_expect (p : WalPosition) (msg : string) : LM S IndexTable :=
  fun s => match ld_load s p with Some t => Ok (s, t) | None => Panic msg end.

Definition flush_expect (t : IndexTable) (msg : string) : LM S WalPosition :=
  fun s => match ld_flush s t with Some (s', p) => Ok (s', p) | None => Panic msg end.

Definition load_l1_or_default (l1 : option WalPosition) : LM S IndexTable :=
  match l1 with
  | Some pos => load_expect pos "Failed to load L1 index in flusher thread"
  | None => mret it_default
  end.

Definition process_l1_blob (ctx : FlushCtx) (table : IndexTable) : LM S IndexTable :=
  floor ← asks ld_min_wal_position;
  table ← lift (retain_above_position table floor);
  table ← lift (run_compactor ctx table);
  lift (clean_self table).

Fixpoint flush_shard_tables (tables : list (list Z * list Z * IndexTable)) (target : list (list Z * IndexShard)) :
    LM S (list (list Z * IndexShard)) :=
  match tables with
  | [] => mret target
  | (min_key, max_key, table) :: rest =>
      pos ← flush_expect table "Failed to flush shard";
      flush_shard_tables rest (bt_insert min_key (mkShard pos max_key) target)
  end.

Definition flush_split_l1 (ctx : FlushCtx) (new_l1 : IndexTable) (size_limit : Z) : LM S IndexLevels :=
  entries ← lift (it_iter new_l1);
  shard_tables ← lift (split_recursive (length entries) ctx size_limit entries []);
  shards ← flush_shard_tables shard_tables [];
  mret (levels_sharded shards).

Definition write_promoted_l1 (ctx : FlushCtx) (new_l1 : IndexTable) : LM S IndexLevels :=
  let threshold := fc_auto_shard_threshold ctx in
  serialized ← lift (fc_serialize_index ctx new_l1);
  if threshold <? Z.of_nat (length serialized) then flush_split_l1 ctx new_l1 threshold
  else pos ← flush_expect new_l1 "Failed to flush index"; mret (levels_promoted pos).

(** ** Rewriting shards *)

Section rewrite.
Context {T : Type} (rewrite : IndexTable -> T -> outcome (IndexTable * bool)).

(** The blobs a rewritten, non-empty shard is written as. *)
Definition shard_pieces (ctx : FlushCtx) (shard_table : IndexTable) :
    outcome (list (list Z * list Z * IndexTable)) :=
  let split_threshold := fc_auto_shard_threshold ctx in
  entries ← it_iter shard_table;
  serialized ← fc_serialize_index ctx shard_table;
  if Z.of_nat (length serialized) <=? split_threshold then
    '(min_key, max_key) ← shard_bounds entries;
    Ok [(min_key, max_key, shard_table)]
  else split_recursive (length entries) ctx split_threshold entries [].

Fixpoint rewrite_shards_loop (ctx : FlushCtx) (current_shards : list (list Z * IndexShard)) (work : list (list Z * T))
    (new_shards : list (list Z * IndexShard)) : LM S (list (list Z * IndexShard)) :=
  match current_shards with
  | [] =>
      _ ← lift (assert_that (match work with [] => true | _ => false end)
                  "every work item must match a current shard btree key");
      mret new_shards
  | (btree_key, shard) :: rest =>
      match bt_get btree_key work with
      | None => rewrite_shards_loop ctx rest work (bt_insert btree_key shard new_shards)
      | Some item =>
          let work := bt_remove btree_key work in
          shard_table ← load_expect (shard_position shard) "Failed to load shard for rewrite";
          '(shard_table, changed) ← lift (rewrite shard_table item);
          if negb changed then rewrite_shards_loop ctx rest work (bt_insert btree_key shard new_shards)
          else
            shard_table ← process_l1_blob ctx shard_table;
            if it_is_empty shard_table then rewrite_shards_loop ctx rest work new_shards
            else
              sub_shards ← lift (shard_pieces ctx shard_table);
              new_shards ← flush_shard_tables sub_shards new_shards;
              rewrite_shards_loop ctx rest work new_shards
      end
  end.

Definition rewrite_shards (ctx : FlushCtx) (current_shards : list (list Z * IndexShard)) (work : list (list Z * T)) :
    LM S (list (list Z * IndexShard)) :=
  rewrite_shards_loop ctx current_shards work [].
End rewrite.

(** The shard a key is routed to: the last one starting at or below it, or the
    first one. *)
Definition shard_owner (current_shards : list (list Z * IndexShard)) (first_owner key : list Z) : list Z :=
  match last (bt_upto key current_shards) with Some (bk, _) => bk | None => first_owner end.

(** [partitions.entry(owner).or_default()], then the insert or removal. *)
Fixpoint route_entries (current_shards : list (list Z * IndexShard)) (first_owner : list Z)
    (tombstone_placeholder : WalPosition) (entries : list (list Z * WalPosition))
    (partitions : list (list Z * IndexTable)) : outcome (list (list Z * IndexTable)) :=
  match entries with
  | [] => Ok partitions
  | (key, pos) :: rest =>
      let owner := shard_owner current_shards first_owner key in
      let table := default it_default (bt_get owner partitions) in
      '(table, _) ← (if wp_is_valid pos then it_insert table key pos
                     else it_remove table key tombstone_placeholder);
      route_entries current_shards first_owner tombstone_placeholder rest (bt_insert owner table partitions)
  end.

Definition write_sharded_promote (ctx : FlushCtx) (merged_l0 : IndexTable)
    (current_shards : list (list Z * IndexShard)) : LM S IndexLevels :=
  tail ← asks ld_current_wal_position;
  let tombstone_placeholder := wp_new (Z.max tail 1) 1 in
  first_owner ← lift (expect (head current_shards) "write_sharded_promote requires non-empty current_shards");
  entries ← lift (iter_with_tombstones merged_l0);
  partitions ← lift (route_entries current_shards first_owner.1 tombstone_placeholder entries []);
  new_shards ←
    rewrite_shards
      (fun shard_table dirty_subset => t ← merge_dirty_and_clean shard_table dirty_subset; Ok (t, true))
      ctx current_shards partitions;
  match new_shards with
  | [] => pos ← flush_expect it_default "Failed to flush empty post-collapse L1"; mret (levels_promoted pos)
  | _ => mret (levels_sharded new_shards)
  end.

(** [by_shard.entry(min_key).or_insert_with(..).add(..)] and [local.add(..)] *)
Fixpoint route_updates (levels : IndexLevels) (frontier : Z) (merged_l0 : IndexTable)
    (updates : list (list Z * WalPosition)) (local : RelocationUpdates) (by_shard : list (list Z * RelocationUpdates)) :
    outcome (RelocationUpdates * list (list Z * RelocationUpdates)) :=
  match updates with
  | [] => Ok (local, by_shard)
  | (key, position) :: rest =>
      held ← it_contains_key merged_l0 key;
      if held : bool then route_updates levels frontier merged_l0 rest (ru_add local key position) by_shard
      else
        match shard_entry_for levels key with
        | Some (min_key, _) =>
            let u := default (ru_new frontier) (bt_get min_key by_shard) in
            route_updates levels frontier merged_l0 rest local (bt_insert min_key (ru_add u key position) by_shard)
        | None => route_updates levels frontier merged_l0 rest local by_shard
        end
  end.

Definition apply_relocation_updates_sharded (ctx : FlushCtx) (merged_l0 : IndexTable) (levels : IndexLevels)
    (updates : RelocationUpdates) : LM S (IndexTable * IndexLevels) :=
  let frontier := ru_last_processed updates in
  '(local, by_shard) ← lift (route_updates levels frontier merged_l0 (ru_updates updates) (ru_new frontier) []);
  '(merged_l0, _) ← lift (ru_apply local merged_l0);
  match by_shard with
  | [] => mret (merged_l0, levels)
  | _ =>
      new_shards ← rewrite_shards (fun shard_table shard_updates => ru_apply shard_updates shard_table)
                     ctx (lv_shards levels) by_shard;
      match new_shards with
      | [] => mret (merged_l0, levels_new)
      | _ => mret (merged_l0, levels_sharded new_shards)
      end
  end.

(** ** Moving blobs *)

Definition reflush_blob_at (pos : WalPosition) : LM S WalPosition :=
  table ← load_expect pos "Failed to load blob for sharded force-relocate";
  flush_expect table "Failed to flush blob for sharded force-relocate".

Definition relocate_slot (relocate_positions : list WalPosition) (slot : option WalPosition) : LM S (option WalPosition) :=
  match slot with
  | Some pos =>
      if positions_contain pos relocate_positions then new_pos ← reflush_blob_at pos; mret (Some new_pos)
      else mret (Some pos)
  | None => mret None
  end.

Fixpoint relocate_shards (relocate_positions : list WalPosition) (shards : list (list Z * IndexShard))
    (new_shards : list (list Z * IndexShard)) : LM S (list (list Z * IndexShard)) :=
  match shards with
  | [] => mret new_shards
  | (btree_key, shard) :: rest =>
      new_pos ← (if positions_contain (shard_position shard) relocate_positions
                 then reflush_blob_at (shard_position shard) else mret (shard_position shard));
      relocate_shards relocate_positions rest (bt_insert btree_key (mkShard new_pos (shard_max_key shard)) new_shards)
  end.

Definition relocate_in_levels (levels : IndexLevels) (relocate_positions : list WalPosition) : LM S IndexLevels :=
  match relocate_positions with
  | [] => mret levels
  | _ =>
      new_l0 ← relocate_slot relocate_positions (levels_l0 levels);
      if levels_is_sharded levels then
        new_shards ← relocate_shards relocate_positions (lv_shards levels) [];
        mret (match new_l0 with
              | Some l0 => levels_sharded_with_l0 l0 new_shards
              | None => levels_sharded new_shards
              end)
      else
        new_l1 ← relocate_slot relocate_positions (levels_l1 levels);
        match new_l0, new_l1 with
        | None, None => mret levels_new
        | Some l0, None => mret (levels_single l0)
        | None, Some l1 => mret (levels_promoted l1)
        | Some l0, Some l1 => lift (levels_set (levels_single l0) 1 l1)
        end
  end.

(** ** Handling a command *)

(** The merged L0 candidate and the levels it goes on top of. *)
Definition merge_candidate_l0 (kind : FlushKind) : LM S (SharedTable * IndexTable * IndexLevels) :=
  match kind with
  | Flush dirty current_levels loaded _ =>
      merged ←
        (if loaded then mret (sh_table dirty)
         else
           base ← match levels_l0 current_levels with
                  | Some pos => load_expect pos "Failed to load L0 index in flusher thread"
                  | None => mret it_default
                  end;
           lift (merge_dirty_and_clean base (sh_table dirty)));
      mret (dirty, merged, current_levels)
  | ForceRelocate levels _ =>
      merged ← load_l1_or_default (levels_l1 levels);
      merged ← match levels_l0 levels with
               | Some l0_pos =>
                   l0 ← load_expect l0_pos "Failed to load L0 for forced relocation";
                   lift (merge_dirty_and_clean merged l0)
               | None => mret merged
               end;
      mret (mkShared 0 merged, merged, levels_new)
  end.

(** The relocation part of a flush: the table, the levels it goes on and the
    cutoff. *)
Definition apply_relocation (ctx : FlushCtx) (relocation : RelocationFlush) (merged_l0 : IndexTable)
    (current_levels : IndexLevels) : LM S (IndexTable * IndexLevels * option Z) :=
  match relocation with
  | RelocationUpdate updates =>
      if levels_is_sharded current_levels then
        '(merged_l0, current_levels) ← apply_relocation_updates_sharded ctx merged_l0 current_levels updates;
        mret (merged_l0, current_levels, None)
      else
        merged_l0 ←
          match levels_l1 current_levels with
          | Some l1 =>
              combined ← load_expect l1 "Failed to load L1 index in flusher thread";
              lift (merge_dirty_and_clean combined merged_l0)
          | None => mret merged_l0
          end;
        '(merged_l0, _) ← lift (ru_apply updates merged_l0);
        mret (merged_l0, current_levels, None)
  | RelocationCutoff cutoff => mret (merged_l0, current_levels, Some cutoff)
  | RelocationNone => mret (merged_l0, current_levels, None)
  end.

(** The new levels of a flush, once the L0 candidate is final. *)
Definition write_levels (ctx : FlushCtx) (is_relocation : bool) (merged_l0 : IndexTable) (current_levels : IndexLevels) :
    LM S IndexLevels :=
  let existing_l1 := levels_l1 current_levels in
  let over_threshold := negb is_relocation && (fc_l0_max_entries ctx <? it_len merged_l0)%nat in
  let deeper_level_exists := match existing_l1 with Some _ => true | None => false end || levels_is_sharded current_levels in
  if over_threshold then
    if levels_is_sharded current_levels then write_sharded_promote ctx merged_l0 (lv_shards current_levels)
    else
      new_l1 ← load_l1_or_default existing_l1;
      new_l1 ← lift (merge_dirty_and_clean new_l1 merged_l0);
      new_l1 ← process_l1_blob ctx new_l1;
      write_promoted_l1 ctx new_l1
  else if it_is_empty merged_l0 && deeper_level_exists then
    if levels_is_sharded current_levels then mret (levels_sharded (lv_shards current_levels))
    else l1 ← lift (expect existing_l1 "deeper level below L0 is L1"); mret (levels_promoted l1)
  else
    merged_l0 ← lift (run_compactor ctx merged_l0);
    merged_l0 ← (if negb deeper_level_exists then lift (clean_self merged_l0) else mret merged_l0);
    new_l0_pos ← flush_expect merged_l0 "Failed to flush index";
    if levels_is_sharded current_levels then
      mret (levels_sharded_with_l0 new_l0_pos (lv_shards current_levels))
    else
      match existing_l1 with
      | Some l1 => lift (levels_set (levels_single new_l0_pos) 1 l1)
      | None => mret (levels_single new_l0_pos)
      end.

Definition is_force_relocate (kind : FlushKind) : bool :=
  match kind with ForceRelocate _ _ => true | Flush _ _ _ _ => false end.

(** From the filtered L0 candidate on: write the levels, then move the flagged
    blobs that are still in place. *)
Definition finish_flush (ctx : FlushCtx) (kind : FlushKind) (original_index : SharedTable) (merged_l0 : IndexTable)
    (current_levels : IndexLevels) : LM S (option (SharedTable * IndexLevels)) :=
  new_levels ← write_levels ctx (is_force_relocate kind) merged_l0 current_levels;
  new_levels ←
    match kind with
    | Flush _ _ _ relocate_positions => relocate_in_levels new_levels relocate_positions
    | ForceRelocate _ _ => mret new_levels
    end;
  mret (Some (original_index, new_levels)).

Definition handle_merge (ctx : FlushCtx) (kind : FlushKind) (relocation : RelocationFlush) :
    LM S (option (SharedTable * IndexLevels)) :=
  '(original_index, merged_l0, current_levels) ← merge_candidate_l0 kind;
  last_processed ← asks ld_last_processed;
  merged_l0 ← lift (retain_processed merged_l0 last_processed);
  '(merged_l0, current_levels, cutoff) ← apply_relocation ctx relocation merged_l0 current_levels;
  match cutoff with
  | Some cutoff =>
      let len := it_len merged_l0 in
      merged_l0 ← lift (retain_above_position merged_l0 cutoff);
      if (it_len merged_l0 =? len)%nat then mret None
      else finish_flush ctx kind original_index merged_l0 current_levels
  | None =>
      floor ← asks ld_min_wal_position;
      merged_l0 ← lift (retain_above_position merged_l0 floor);
      finish_flush ctx kind original_index merged_l0 current_levels
  end.

Definition handle_command (ctx : FlushCtx) (kind : FlushKind) (relocation : RelocationFlush) :
    LM S (option (SharedTable * IndexLevels)) :=
  match kind with
  | ForceRelocate levels relocate_positions =>
      if levels_is_sharded levels then
        new_levels ← relocate_in_levels levels relocate_positions;
        mret (Some (mkShared 0 it_default, new_levels))
      else handle_merge ctx kind relocation
  | Flush _ _ _ _ => handle_merge ctx kind relocation
  end.
End flusher.
