(* ===== verification/FlusherFacts.v ===== *)
(** * Flushing keeps a cell's content

    Proofs about [Flusher.v].  [succeeds m s Q] says a client of the loader
    does not panic from state [s] and ends in a state and result satisfying
    [Q].  What a reader can see of an index entry is [visible x]: nothing for a
    tombstone or for a position below the WAL floor [x], whose data is
    reclaimed, and the WAL position otherwise. *)

From Stdlib Require Import ZArith Lia List Sorting.Sorted.
From stdpp Require Import base tactics list strings.
From S2P Require Import Prelude BTree Bytes Position Flat FlatFacts IndexTable IndexOps IndexTableFacts.
From S2P Require Import IndexWalk IndexPromote IndexFlush IndexUnmerge IndexCodec IndexClean Levels Loader Flusher.

Local Open Scope Z_scope.

(** ** Reasoning in [LM] *)

Definition succeeds {S A} (m : LM S A) (s : S) (Q : S -> A -> Prop) : Prop :=
  exists s' a, m s = Ok (s', a) /\ Q s' a.

Section succeeds_rules.
Context {S : Type}.

Lemma succeeds_ret {A} (a : A) (s : S) (Q : S -> A -> Prop) : Q s a -> succeeds (mret a) s Q.
Proof. intros HQ. by exists s, a. Qed.

Lemma succeeds_bind {A B} (m : LM S A) (f : A -> LM S B) (s : S) (Q : S -> B -> Prop) :
  succeeds m s (fun s' a => succeeds (f a) s' Q) -> succeeds (m ≫= f) s Q.
Proof.
  intros (s' & a & Hm & s'' & b & Hf & HQ). exists s'', b. split; [|done].
  unfold mbind, LM_bind. by rewrite Hm.
Qed.

Lemma succeeds_lift {A} (m : outcome A) a (s : S) (Q : S -> A -> Prop) : m = Ok a -> Q s a -> succeeds (lift m) s Q.
Proof. intros -> HQ. by exists s, a. Qed.

Lemma succeeds_asks {A} (f : S -> A) (s : S) (Q : S -> A -> Prop) : Q s (f s) -> succeeds (asks f) s Q.
Proof. intros HQ. by exists s, (f s). Qed.

Lemma succeeds_mono {A} (m : LM S A) (s : S) (P Q : S -> A -> Prop) :
  succeeds m s P -> (forall s' a, P s' a -> Q s' a) -> succeeds m s Q.
Proof. intros (s' & a & Hm & HP) HPQ. exists s', a. auto. Qed.
End succeeds_rules.

(** ** What a reader sees *)

Definition visible (x : Z) (o : option IndexWalPosition) : option WalPosition :=
  match o with
  | Some p => if is_removed p || (iwp_offset p <? x) then None else Some (into_wal_position p)
  | None => None
  end.

Lemma visible_at_or_above x o : visible x (at_or_above x o) = visible x o.
Proof.
  destruct o as [p|]; [|done]. cbn. destruct (Z.leb_spec x (iwp_offset p)) as [|Hlt]; [done|].
  cbn. rewrite (proj2 (Z.ltb_lt _ _) Hlt). by rewrite orb_true_r.
Qed.

Lemma visible_or_else x a b b' : visible x b = visible x b' -> visible x (or_else a b) = visible x (or_else a b').
Proof. by destruct a. Qed.

Lemma visible_demote b x o : visible x (option_map (demote b) o) = visible x o.
Proof.
  destruct o as [p|]; [|done]. cbn. rewrite demote_offset, demote_wal. unfold demote.
  destruct (b && negb (is_removed p)) eqn:E; [|done]. b2p. unfold is_removed at 1. cbn. by destruct (is_removed p).
Qed.

Lemma visible_clean x o : visible x (option_map as_clean (live_entry o)) = visible x o.
Proof.
  destruct o as [p|]; [|done]. cbn. destruct (is_removed p) eqn:E; [done|]. cbn.
  destruct (iwp_offset p <? x); [done|]. unfold is_removed in E. by destruct p as [off len []].
Qed.

Lemma visible_disk x k p : iwp_fits p -> visible x (Some (disk_entry (k, p)).2) = visible x (Some p).
Proof.
  intros Hf. rewrite disk_entry_eq by done. cbn. destruct (is_removed p) eqn:E; [done|]. cbn.
  destruct (iwp_offset p <? x); [done|]. unfold is_removed in E. by destruct p as [off len []].
Qed.

(** An entry below the floor hides nothing visible. *)
Definition floor_closed (x : Z) (upper lower : option IndexWalPosition) : Prop :=
  match upper with Some p => iwp_offset p < x -> visible x lower = None | None => True end.

Lemma visible_filtered x upper lower :
  floor_closed x upper lower ->
  visible x (or_else (at_or_above x upper) lower) = visible x (or_else upper lower).
Proof.
  destruct upper as [p|]; [|done]. cbn. destruct (Z.leb_spec x (iwp_offset p)) as [Hle|Hlt]; [done|].
  intros Hc. cbn. rewrite (Hc Hlt), (proj2 (Z.ltb_lt _ _) Hlt). by rewrite orb_true_r.
Qed.

(** ** Tables of the flush path *)

Section tables.
Context (ks : option nat) (U : list (list Z)) (Hu : universe_ok ks U) (x : Z).

(** The floor filter, then the strip of tombstones. *)
Lemma floor_then_clean t es :
  cell_table ks U t es -> (forall k, floor_closed x (over_view t k) (bt_get k es)) ->
  exists t1 t2 es2, retain_above_position t x = Ok t1 /\ clean_self t1 = Ok t2 /\ cell_table ks U t2 es2 /\
    forall k, visible x (it_view t2 es2 k) = visible x (it_view t es k) /\
              (is_Some (it_view t2 es2 k) -> is_Some (it_view t es k)) /\
              live_entry (it_view t2 es2 k) = it_view t2 es2 k.
Proof.
  intros Ht Hc. destruct (retain_above_cell ks U t es x Ht) as (t1 & es1 & Hr & Ht1 & Hv1).
  destruct (clean_self_cell ks U t1 es1 Ht1) as (t2 & es2 & Hcl & Ht2 & Hv2).
  exists t1, t2, es2. do 3 (split; [done|]). intros k. rewrite Hv2.
  assert (it_view t1 es1 k = or_else (at_or_above x (over_view t k)) (at_or_above x (bt_get k es))) as E.
  { rewrite it_view_parts. by destruct (Hv1 k) as [-> ->]. }
  split_and!.
  - rewrite visible_clean, E. rewrite (visible_or_else x _ _ (bt_get k es)) by apply visible_at_or_above.
    rewrite visible_filtered by done. by rewrite it_view_parts.
  - rewrite E, it_view_parts. destruct (over_view t k); cbn; [by eexists|]. by destruct (bt_get k es).
  - destruct (it_view t1 es1 k) as [p|]; [|done]. cbn. by destruct (is_removed p).
Qed.

(** Merging an upper table into a blob, for a reader. *)
Lemma merge_visible base dirty bes des :
  cell_blob ks U base bes -> cell_table ks U dirty des ->
  exists t' es', merge_dirty_and_clean base dirty = Ok t' /\ cell_table ks U t' es' /\
    (forall k, over_view t' k = option_map (demote true) (over_view dirty k)) /\
    (forall k, bt_get k es' = or_else (option_map (demote true) (bt_get k des)) (bt_get k bes)) /\
    forall k, visible x (it_view t' es' k) = visible x (or_else (it_view dirty des k) (bt_get k bes)).
Proof.
  intros Hb Hd. destruct (merge_cell ks U base dirty bes des Hu Hb Hd) as (t' & es' & Hm & Ht & Hg & Hp).
  exists t', es'. split; [done|]. split; [done|].
  assert (forall k, over_view t' k = option_map (demote true) (over_view dirty k)) as Ho.
  { intros k. unfold over_view. by rewrite Hp, demote_last. }
  do 2 (split; [done|]). intros k. rewrite !it_view_parts, Ho, Hg.
  destruct (over_view dirty k) as [p|]; cbn [or_else option_map]; [apply (visible_demote true x (Some p))|].
  destruct (bt_get k des) as [p|]; cbn [or_else option_map]; [apply (visible_demote true x (Some p))|done].
Qed.

(** Every entry sits at or above the floor. *)
Definition table_above (t : IndexTable) (es : list entry) : Prop :=
  forall k p, over_view t k = Some p \/ bt_get k es = Some p -> x <= iwp_offset p.

Lemma retain_above_table_above t es t' es' :
  (forall k, over_view t' k = at_or_above x (over_view t k) /\ bt_get k es' = at_or_above x (bt_get k es)) ->
  table_above t' es'.
Proof.
  intros Hv k p. destruct (Hv k) as [-> ->]. unfold at_or_above.
  intros [E|E]; repeat case_scrut_in E; simplify_eq; b2p; done.
Qed.

(** The promote merge never hides behind the floor: the upper table is above
    it. *)
Lemma merged_floor_closed base dirty bes des t' es' :
  table_above dirty des ->
  (forall k, over_view t' k = option_map (demote true) (over_view dirty k)) ->
  (forall k, bt_get k es' = or_else (option_map (demote true) (bt_get k des)) (bt_get k bes)) ->
  cell_blob ks U base bes ->
  forall k, floor_closed x (over_view t' k) (bt_get k es').
Proof.
  intros Ha Ho _ _ k. rewrite Ho. destruct (over_view dirty k) as [p|] eqn:E; [|done]. cbn.
  rewrite demote_offset. specialize (Ha k p (or_introl E)). lia.
Qed.
End tables.

(** ** Reading and writing blobs *)

Definition wal_view (o : option IndexWalPosition) : option WalPosition := option_map into_wal_position o.

(** [visible] on the WAL position a lookup returns. *)
Definition visible_wal (x : Z) (o : option WalPosition) : option WalPosition :=
  match o with Some w => if negb (wp_is_valid w) || (wp_offset w <? x) then None else Some w | None => None end.

Lemma into_wal_valid p : iwp_fits p -> wp_is_valid (into_wal_position p) = negb (is_removed p).
Proof.
  intros Hf. destruct (is_removed p) eqn:E; unfold is_removed in E; destruct p as [o l []]; try done;
    apply wp_is_valid_iff, (update_position_valid (mkIWP o l Clean)), Hf.
Qed.

Lemma visible_of_wal x o :
  (forall p, o = Some p -> iwp_fits p) -> visible x o = visible_wal x (wal_view o).
Proof.
  intros Hf. destruct o as [p|]; [|done]. cbn. rewrite into_wal_valid by (by apply Hf). rewrite negb_involutive.
  destruct (is_removed p) eqn:E; [done|]. unfold is_removed in E. by destruct p as [off len []].
Qed.

Lemma is_Some_wal_view o : is_Some (wal_view o) <-> is_Some o.
Proof. apply fmap_is_Some. Qed.

Section blobs.
Context {S : Type} `{Loader S} (ks : option nat) (U : list (list Z)) `{!LoaderSpec S ks U}.
Context (Hu : universe_ok ks U).

Lemma blob_view_fits s p k q : blob_ok ks U s p -> blob_view s p k = Some q -> iwp_fits q.
Proof.
  intros (t & Hl & Hb)%blob_ok_load Hq. apply (it_view_fits t (blob_entries s p) k); [apply Hb|].
  by rewrite (cell_blob_view ks U t _ k Hb).
Qed.

Lemma load_expect_ok s p msg (Q : S -> IndexTable -> Prop) :
  blob_ok ks U s p -> (forall t, cell_blob ks U t (blob_entries s p) -> Q s t) -> succeeds (load_expect p msg) s Q.
Proof. intros (t & Hl & Hb)%blob_ok_load HQ. exists s, t. unfold load_expect. rewrite Hl. auto. Qed.

(** What a freshly written blob holds. *)
Definition written (s s' : S) (p : WalPosition) (t : IndexTable) (es : list entry) : Prop :=
  store_extends s s' /\ wp_is_valid p = true /\ blob_ok ks U s' p /\
  (forall k, wal_view (blob_view s' p k) = wal_view (it_view t es k)) /\
  forall k, is_Some (blob_view s' p k) <-> is_Some (it_view t es k).

Lemma flush_expect_ok s t es msg :
  cell_table ks U t es -> succeeds (flush_expect t msg) s (fun s' p => written s s' p t es).
Proof.
  intros Ht. destruct (ld_flush_ok s t es Ht) as (s' & p & Hf & Hv & _ & Hb & He).
  exists s', p. unfold flush_expect. rewrite Hf. split; [done|].
  assert (forall k, blob_view s' p k = bt_get k (List.map disk_entry (combined t es))) as Hbv.
  { intros k. unfold blob_view. by rewrite (blob_entries_eq ks U s' p _ Hb). }
  split_and!; [done|done|by eapply blob_ok_intro| |].
  - intros k. rewrite Hbv. by apply disk_roundtrip_view, Ht.
  - intros k. rewrite Hbv, bt_get_disk, bt_get_combined by apply Ht. by destruct (it_view t es k).
Qed.

Lemma written_visible x s s' p t es k :
  cell_table ks U t es -> written s s' p t es -> visible x (blob_view s' p k) = visible x (it_view t es k).
Proof.
  intros Ht (_ & _ & Hb & Hv & _). rewrite !visible_of_wal, Hv; [done| |].
  - intros q. apply it_view_fits, Ht.
  - intros q. by apply blob_view_fits.
Qed.

(** ** Cutting an L1 image into shards *)

(** A piece of an image: a table with exactly these entries. *)
Definition piece_holds (pc : list Z * list Z * IndexTable) (es : list (list Z * WalPosition)) : Prop :=
  exists tes, cell_table ks U pc.2 tes /\ (forall k, wal_view (it_view pc.2 tes k) = bt_get k es) /\
    option_map fst (head es) = Some pc.1.1 /\ option_map fst (last es) = Some pc.1.2.

Definition pieces_by (P : list Z * list Z * IndexTable -> list (list Z * WalPosition) -> Prop)
    (pieces : list (list Z * list Z * IndexTable)) (entries : list (list Z * WalPosition)) : Prop :=
  exists ess, Forall2 P pieces ess /\ concat ess = entries.

Definition pieces_of : list (list Z * list Z * IndexTable) -> list (list Z * WalPosition) -> Prop := pieces_by piece_holds.

(** ... that serializes within the limit, unless it is a single entry. *)
Definition piece_fits (ctx : FlushCtx) (limit : Z) (pc : list Z * list Z * IndexTable) (es : list (list Z * WalPosition)) : Prop :=
  piece_holds pc es /\
  exists bytes, fc_serialize_index ctx pc.2 = Ok bytes /\ (Z.of_nat (length bytes) <= limit \/ length es = 1%nat).

(** The live entries of a table: over the cell's keys, valid, and small enough
    for an index entry. *)
Definition image_ok (entries : list (list Z * WalPosition)) : Prop :=
  bt_sorted entries /\
  Forall (fun e => In e.1 U /\ wp_is_valid e.2 = true /\ iwp_fits (iwp_new_modified e.2)) entries.

Lemma image_ok_app a b : image_ok (a ++ b) -> image_ok a /\ image_ok b /\ forall ea eb, In ea a -> In eb b -> klt ea.1 eb.1.
Proof.
  intros [Hs Hf]. apply Forall_app in Hf as [Ha Hb]. revert Hs Ha. induction a as [|[k v] a IH]; intros Hs Ha.
  { split_and!; [split; [constructor|done]|done|done]. }
  cbn in Hs. apply bt_sorted_cons in Hs as [Hs Hlt]. apply Forall_cons in Ha as [Hk Ha].
  destruct (IH Hs Ha) as ([Hsa _] & Hb' & Hlt'). apply Forall_app in Hlt as [Hla Hlb]. split_and!; [|done|].
  - split; [by apply bt_sorted_cons|by constructor].
  - intros ea eb [<-|Hin] Hinb; [|by apply Hlt']. rewrite List.Forall_forall in Hlb. by apply Hlb.
Qed.

Lemma build_shard_table_ok t tes done_ entries :
  cell_table ks U t tes -> tes = [] -> image_ok (done_ ++ entries) ->
  (forall k, positions_of (it_data t) k = match bt_get k done_ with Some w => [iwp_new_modified w] | None => [] end) ->
  exists t', build_shard_table_from t entries = Ok t' /\ cell_table ks U t' [] /\
    forall k, wal_view (it_view t' [] k) = bt_get k (done_ ++ entries).
Proof.
  revert t tes done_. induction entries as [|[k w] entries IH]; intros t tes done_ Ht -> Hok Hp.
  { exists t. split; [done|]. split; [done|]. intros k. rewrite app_nil_r. unfold it_view. rewrite Hp.
    by destruct (bt_get k done_) as [[]|]. }
  destruct (image_ok_app _ _ Hok) as ([Hsd _] & [Hse Hfe] & Hlt). apply Forall_cons in Hfe as [(Hin & Hv & Hfit) _].
  assert (bt_get k done_ = None) as Hk.
  { apply bt_get_None; [done|]. intros v Hd. specialize (Hlt _ (k, w) Hd (or_introl eq_refl)). by apply klt_irrefl in Hlt. }
  destruct (insert_cell ks U t [] k (iwp_new_modified w)) as (t' & Hi & Ht' & Hp'); [done|done|done| |].
  { by rewrite Hp, Hk. }
  cbn [build_shard_table_from]. unfold it_insert. rewrite Hi. cbn [mbind outcome_bind].
  assert (done_ ++ (k, w) :: entries = (done_ ++ [(k, w)]) ++ entries) as E by (by rewrite <- app_assoc).
  rewrite E in *. apply (IH t' [] (done_ ++ [(k, w)])); [done|done|done|]. intros k'. rewrite Hp', Hp, Hk.
  destruct (image_ok_app _ _ Hok) as ([Hsd' _] & _).
  destruct (bt_get k' (done_ ++ [(k, w)])) as [v|] eqn:Ev.
  - apply bt_get_In in Ev; [|done]. apply in_app_iff in Ev as [Ev|[Ev|[]]].
    + destruct (keqb_spec k' k) as [->|_]; [|by rewrite Hp, (proj2 (bt_get_In k' v done_ Hsd) Ev)].
      apply bt_get_In in Ev; [|done]. congruence.
    + injection Ev as -> ->. by rewrite keqb_refl.
  - destruct (keqb_spec k' k) as [->|_].
    + exfalso. eapply (proj1 (bt_get_None k _ Hsd') Ev w), in_app_iff. right. by left.
    + rewrite Hp. destruct (bt_get k' done_) eqn:Ed; [|done]. apply bt_get_In in Ed; [|done].
      exfalso. eapply (proj1 (bt_get_None k' _ Hsd') Ev), in_app_iff. by left.
Qed.

Lemma piece_of_entries entries :
  image_ok entries -> entries <> [] ->
  exists t min_key max_key, build_shard_table entries = Ok t /\ cell_table ks U t [] /\
    shard_bounds entries = Ok (min_key, max_key) /\ piece_holds (min_key, max_key, t) entries.
Proof.
  intros Hok Hne. destruct (build_shard_table_ok it_default [] [] entries) as (t & Hb & Ht & Hv);
    [apply cell_table_default|done|done|done|].
  destruct entries as [|[k0 w0] rest]; [done|]. unfold shard_bounds.
  destruct (last ((k0, w0) :: rest)) as [[k1 w1]|] eqn:El; [|by apply last_None in El].
  exists t, k0, k1. split; [done|]. split; [done|]. split; [done|]. exists []. cbn [fst snd].
  split; [done|]. split; [done|]. split; [done|]. by rewrite El.
Qed.

Lemma pieces_by_app P a b ea eb : pieces_by P a ea -> pieces_by P b eb -> pieces_by P (a ++ b) (ea ++ eb).
Proof.
  intros (esa & Ha & <-) (esb & Hb & <-). exists (esa ++ esb). split; [by apply Forall2_app|]. by rewrite concat_app.
Qed.

Lemma pieces_by_one (P : list Z * list Z * IndexTable -> list (list Z * WalPosition) -> Prop) pc es :
  P pc es -> pieces_by P [pc] es.
Proof. intros Hp. exists [es]. split; [by repeat constructor|cbn; by rewrite app_nil_r]. Qed.

(** The format serializes every table of the cell. *)
Definition serializes (ctx : FlushCtx) : Prop :=
  forall t es, cell_table ks U t es -> exists bytes, fc_serialize_index ctx t = Ok bytes.

(** One call, on a non-empty slice. *)
Lemma split_recursive_step ctx limit fuel entries out :
  serializes ctx -> image_ok entries -> entries <> [] ->
  (exists pc, piece_fits ctx limit pc entries /\ split_recursive fuel ctx limit entries out = Ok (out ++ [pc])) \/
  (2 <= length entries)%nat /\
  split_recursive fuel ctx limit entries out =
    match fuel with
    | O => Panic "out of fuel"
    | Datatypes.S f =>
        out ← split_recursive f ctx limit (take (length entries / 2) entries) out;
        split_recursive f ctx limit (drop (length entries / 2) entries) out
    end.
Proof.
  intros Hser Hok Hne. destruct (piece_of_entries entries Hok Hne) as (t & lo & hi & Hb & Ht & Hsb & Hp).
  destruct (Hser t [] Ht) as [bytes Hbytes].
  destruct ((Z.of_nat (length bytes) <=? limit) || (length entries =? 1)%nat) eqn:E; [left; exists (lo, hi, t)|right]; split.
  - split; [done|]. exists bytes. split; [done|]. apply orb_true_iff in E as [E|E]; [left; by apply Z.leb_le|right; by apply Nat.eqb_eq].
  - destruct fuel, entries; try done; cbn [split_recursive]; rewrite Hb; cbn [mbind outcome_bind]; rewrite Hbytes;
      cbn [mbind outcome_bind]; by rewrite E, Hsb.
  - b2p; destruct entries as [|? [|]]; cbn in *; (done || lia).
  - destruct fuel, entries; try done; cbn [split_recursive]; rewrite Hb; cbn [mbind outcome_bind]; rewrite Hbytes;
      cbn [mbind outcome_bind]; by rewrite E.
Qed.

Lemma split_recursive_fits ctx limit fuel entries out :
  serializes ctx -> image_ok entries -> (length entries <= Datatypes.S fuel)%nat ->
  exists pieces, split_recursive fuel ctx limit entries out = Ok (out ++ pieces) /\ pieces_by (piece_fits ctx limit) pieces entries.
Proof.
  intros Hser. revert entries out. induction fuel as [|fuel IH]; intros entries out Hok Hlen;
    (destruct (decide (entries = [])) as [->|Hne]; [exists []; rewrite app_nil_r; split; [done|by exists []]|]).
  { destruct (split_recursive_step ctx limit 0 entries out Hser Hok Hne) as [(pc & Hpc & ->)|[H2 _]];
      [exists [pc]; split; [done|by apply pieces_by_one]|lia]. }
  destruct (split_recursive_step ctx limit (Datatypes.S fuel) entries out Hser Hok Hne) as [(pc & Hpc & ->)|[H2 ->]];
    [exists [pc]; split; [done|by apply pieces_by_one]|].
  pose proof (Nat.div_lt (length entries) 2 ltac:(lia) ltac:(lia)) as Hd.
  assert (1 <= length entries / 2)%nat as Hd1 by (apply Nat.div_le_lower_bound; lia).
  pose proof Hok as Hok'. rewrite <- (take_drop (length entries / 2) entries) in Hok'.
  destruct (image_ok_app _ _ Hok') as (Hok1 & Hok2 & _).
  destruct (IH (take (length entries / 2) entries) out Hok1) as (p1 & -> & Hp1).
  { rewrite length_take. lia. }
  cbn [mbind outcome_bind].
  destruct (IH (drop (length entries / 2) entries) (out ++ p1) Hok2) as (p2 & -> & Hp2).
  { rewrite length_drop. lia. }
  exists (p1 ++ p2). rewrite app_assoc. split; [done|].
  rewrite <- (take_drop (length entries / 2) entries) at 1. by apply pieces_by_app.
Qed.

Lemma split_recursive_ok ctx limit fuel entries out :
  serializes ctx -> image_ok entries -> (length entries <= Datatypes.S fuel)%nat ->
  exists pieces, split_recursive fuel ctx limit entries out = Ok (out ++ pieces) /\ pieces_of pieces entries.
Proof.
  intros Hser Hok Hlen. destruct (split_recursive_fits ctx limit fuel entries out Hser Hok Hlen) as (pieces & Hs & ess & Hf & E).
  exists pieces. split; [done|]. exists ess. split; [|done]. eapply Forall2_impl; [exact Hf|]. by intros pc es [? _].
Qed.

(** ** Writing the pieces *)

Lemma bt_insert_snoc {V} (k : list Z) (v : V) m : Forall (fun e => klt e.1 k) m -> bt_insert k v m = m ++ [(k, v)].
Proof.
  induction 1 as [|[k' v'] m Hlt Hf IH]; [done|]. cbn [fst] in Hlt. apply kcmp_gt in Hlt.
  cbn [bt_insert app]. rewrite Hlt. by rewrite IH.
Qed.

Definition positions_of_shards (shards : list (list Z * IndexShard)) : list WalPosition :=
  List.map (fun e => shard_position e.2) shards.

(** The shards written for an image: well formed, readable, and holding the
    image. *)
Record shards_written (s : S) (shards : list (list Z * IndexShard)) (entries : list (list Z * WalPosition)) : Prop := {
  sw_ok : shards_ok shards;
  sw_blobs : Forall (fun e => blob_ok ks U s (shard_position e.2)) shards;
  sw_hold : shards_hold s shards;
  sw_keys : Forall (fun e => In e.1 (List.map fst entries) /\ In (shard_max_key e.2) (List.map fst entries)) shards;
  sw_view : forall k, wal_view (first_hit s (positions_of_shards shards) k) = bt_get k entries;
}.

Lemma first_hit_extends s s' ps k :
  store_extends s s' -> Forall (blob_ok ks U s) ps -> first_hit s' ps k = first_hit s ps k.
Proof.
  intros He. induction 1 as [|p ps Hp Hf IH]; [done|]. cbn. by rewrite IH, (blob_view_extends ks U s s').
Qed.

Lemma shards_hold_extends s s' shards :
  store_extends s s' -> Forall (fun e => blob_ok ks U s (shard_position e.2)) shards ->
  shards_hold s shards -> shards_hold s' shards.
Proof.
  intros He Hb Hh. apply List.Forall_forall. intros e Hin. unfold shards_hold in Hh. rewrite List.Forall_forall in Hb, Hh.
  destruct (Hh e Hin) as (H1 & H2 & H3).
  split_and!; [| |intros k]; rewrite (blob_view_extends ks U s s') by auto; auto.
Qed.

Lemma blobs_ok_extends s s' shards :
  store_extends s s' -> Forall (fun e : list Z * IndexShard => blob_ok ks U s (shard_position e.2)) shards ->
  Forall (fun e => blob_ok ks U s' (shard_position e.2)) shards.
Proof. intros He Hb. eapply Forall_impl; [exact Hb|]. intros e. by apply blob_ok_extends. Qed.

Lemma wal_view_or_else a b : wal_view (or_else a b) = or_else (wal_view a) (wal_view b).
Proof. by destruct a. Qed.

Lemma bt_get_app (a b : list (list Z * WalPosition)) k :
  bt_sorted (a ++ b) -> bt_get k (a ++ b) = or_else (bt_get k a) (bt_get k b).
Proof.
  intros Hs. assert (bt_sorted a /\ bt_sorted b) as [Ha Hb].
  { revert Hs. induction a as [|[k' v'] a IH]; [by split; [constructor|]|]. intros [Hs Hf]%bt_sorted_cons.
    apply Forall_app in Hf as [Hf _]. destruct (IH Hs). split; [by apply bt_sorted_cons|done]. }
  destruct (bt_get k a) as [v|] eqn:Ea; cbn.
  { apply bt_get_In in Ea; [|done]. apply bt_get_In; [done|]. apply in_app_iff. by left. }
  destruct (bt_get k b) as [v|] eqn:Eb.
  { apply bt_get_In in Eb; [|done]. apply bt_get_In; [done|]. apply in_app_iff. by right. }
  apply bt_get_None; [done|]. intros v [Hv|Hv]%in_app_iff; apply bt_get_In in Hv; (done || congruence).
Qed.

Lemma piece_ends pc es :
  image_ok es -> piece_holds pc es ->
  In pc.1.1 (List.map fst es) /\ In pc.1.2 (List.map fst es) /\ forall k, In k (List.map fst es) -> kle pc.1.1 k /\ kle k pc.1.2.
Proof.
  intros [Hs _] (tes & _ & _ & Hh & Hl).
  destruct (head es) as [[k0 w0]|] eqn:E0; [|done]. destruct (last es) as [[k1 w1]|] eqn:E1; [|done].
  cbn in Hh, Hl. injection Hh as <-. injection Hl as <-.
  apply bt_head_spec in E0 as [H0 Hmin]; [|done]. apply bt_last_spec in E1 as [H1 Hmax]; [|done].
  rewrite !in_map_iff. split_and!; [by exists (k0, w0)|by exists (k1, w1)|].
  intros k Hk. apply in_map_iff in Hk as ([k' w] & <- & Hin). split; [by apply (Hmin (k', w))|by apply (Hmax (k', w))].
Qed.

Lemma bt_get_key k (es : list (list Z * WalPosition)) : bt_sorted es -> is_Some (bt_get k es) <-> In k (List.map fst es).
Proof.
  intros Hs. rewrite in_map_iff. split.
  - intros [w Hw]. apply bt_get_In in Hw; [|done]. by exists (k, w).
  - intros ([k' w] & <- & Hin). exists w. by apply bt_get_In.
Qed.

(** A written piece in front of the shards of what follows it. *)
Lemma shards_written_cons s pc p es shards rest :
  image_ok (es ++ rest) -> piece_holds pc es -> wp_is_valid p = true -> blob_ok ks U s p ->
  (forall k, wal_view (blob_view s p k) = bt_get k es) -> shards_written s shards rest ->
  shards_written s ((pc.1.1, mkShard p pc.1.2) :: shards) (es ++ rest).
Proof.
  intros Hok Hpc Hv Hb Hview [Hso Hsb Hsh Hsk Hsv]. destruct (image_ok_app _ _ Hok) as (Hoke & _ & Hlt).
  destruct (piece_ends pc es Hoke Hpc) as (Hlo & Hhi & Hin).
  assert (forall k, is_Some (blob_view s p k) <-> In k (List.map fst es)) as Hkeys.
  { intros k. rewrite <- bt_get_key by apply Hoke. rewrite <- Hview. symmetry. apply is_Some_wal_view. }
  split.
  - cbn [shards_ok shard_max_key shard_position]. split_and!; [exact (proj1 (Hin _ Hhi))|done| |done]. eapply Forall_impl; [exact Hsk|]. intros e [He _]. cbn.
    apply in_map_iff in Hhi as (ea & <- & Ha). apply in_map_iff in He as (eb & <- & Hb'). by apply Hlt.
  - by constructor.
  - constructor; [|done]. cbn [fst snd shard_position shard_max_key]. rewrite !Hkeys. split_and!; [done|done|].
    intros k Hk%Hkeys. by apply Hin.
  - rewrite map_app. constructor; [cbn; rewrite !in_app_iff; auto|]. eapply Forall_impl; [exact Hsk|].
    intros e [? ?]. rewrite !in_app_iff. auto.
  - intros k. cbn [positions_of_shards List.map first_hit snd shard_position].
    rewrite wal_view_or_else, Hview, bt_get_app by apply Hok. f_equal. apply Hsv.
Qed.

Lemma flush_shard_tables_ok s pieces entries target :
  pieces_of pieces entries -> image_ok entries ->
  Forall (fun e => forall k, In k (List.map fst entries) -> klt e.1 k) target ->
  succeeds (flush_shard_tables pieces target) s
    (fun s' r => exists shards, r = target ++ shards /\ store_extends s s' /\ shards_written s' shards entries).
Proof.
  intros (ess & Hp & <-). revert s target. induction Hp as [|pc es pieces ess Hpc Hp IH]; intros s target Hok Ht.
  { apply succeeds_ret. exists []. rewrite app_nil_r. split; [done|]. split; [done|].
    split; [done|constructor|constructor|constructor|done]. }
  cbn [concat] in *. destruct pc as [[lo hi] t]. destruct (image_ok_app _ _ Hok) as (Hoke & Hokr & Hlt).
  destruct (piece_ends _ es Hoke Hpc) as (Hlo & _ & _). cbn [fst snd] in Hlo.
  pose proof Hpc as (tes & Htab & Hview & _). cbn [snd] in Htab, Hview.
  apply succeeds_bind. eapply succeeds_mono; [by apply (flush_expect_ok s t tes)|].
  intros s1 p (He1 & Hv & Hb & Hw & _). rewrite bt_insert_snoc.
  2:{ eapply Forall_impl; [exact Ht|]. intros e He. apply He. rewrite map_app, in_app_iff. auto. }
  eapply succeeds_mono; [apply IH; [done|]|].
  - apply Forall_app. split.
    + eapply Forall_impl; [exact Ht|]. intros e He k Hk. apply He. rewrite map_app, in_app_iff. auto.
    + constructor; [|done]. intros k Hk. cbn. apply in_map_iff in Hlo as (ea & <- & Ha).
      apply in_map_iff in Hk as (eb & <- & Hb'). by apply Hlt.
  - intros s2 r (shards & -> & He2 & Hsw). exists ((lo, mkShard p hi) :: shards). rewrite <- app_assoc. split; [done|].
    split; [by etrans|]. apply (shards_written_cons s2 (lo, hi, t)); [done|done|done|by eapply blob_ok_extends| |done].
    intros k. rewrite (blob_view_extends ks U s1 s2) by done. by rewrite Hw.
Qed.

(** ** Reading shards *)

Lemma first_hit_only s shards e k :
  In e shards -> (forall e', In e' shards -> is_Some (blob_view s (shard_position e'.2) k) -> e' = e) ->
  first_hit s (positions_of_shards shards) k = blob_view s (shard_position e.2) k.
Proof.
  intros Hin Honly. induction shards as [|e' shards IH]; [done|]. cbn [positions_of_shards List.map first_hit].
  destruct (blob_view s (shard_position e'.2) k) as [p|] eqn:E; cbn.
  - rewrite (Honly e') in E; [done|by left|by rewrite E].
  - destruct Hin as [->|Hin].
    + rewrite E. clear IH. assert (forall e', In e' shards -> blob_view s (shard_position e'.2) k = None) as Hn.
      { intros e' He'. destruct (blob_view s (shard_position e'.2) k) eqn:E'; [|done].
        rewrite (Honly e') in E'; [congruence|by right|by rewrite E']. }
      clear Honly. induction shards as [|e' shards IH]; [done|]. cbn. rewrite Hn by (by left). cbn. apply IH.
      intros. apply Hn. by right.
    + apply IH; [done|]. intros. apply Honly; [by right|done].
Qed.

Lemma first_hit_none s (shards : list (list Z * IndexShard)) k :
  (forall e, In e shards -> blob_view s (shard_position e.2) k = None) -> first_hit s (positions_of_shards shards) k = None.
Proof.
  induction shards as [|e shards IH]; [done|]. intros Hn. cbn. rewrite Hn by (by left). cbn. apply IH.
  intros. apply Hn. by right.
Qed.

(** A point read through the shard map reads all the shards. *)
Lemma shard_for_view s l k :
  shards_ok (lv_shards l) -> shards_hold s (lv_shards l) ->
  opt_view s (option_map shard_position (shard_for l k)) k = first_hit s (positions_of_shards (lv_shards l)) k.
Proof.
  intros Hok Hh. unfold shards_hold in Hh. rewrite List.Forall_forall in Hh. unfold shard_for.
  destruct (shard_entry_for l k) as [e|] eqn:E; cbn.
  - pose proof (proj1 (shard_entry_for_spec l k e Hok) E) as [Hin Hr].
    symmetry. apply first_hit_only; [done|]. intros e' Hin' Hs.
    assert (shard_entry_for l k = Some e') as E'.
    { apply shard_entry_for_spec; [done|]. split; [done|]. by apply (Hh e' Hin'). }
    congruence.
  - symmetry. apply first_hit_none. intros e Hin. destruct (blob_view s (shard_position e.2) k) eqn:Eb; [|done].
    assert (shard_entry_for l k = Some e) as E'; [|congruence].
    apply shard_entry_for_spec; [done|]. split; [done|]. apply (Hh e Hin). by rewrite Eb.
Qed.

Lemma levels_sharded_l0 shards : levels_l0 (levels_sharded shards) = None.
Proof. done. Qed.

(** A cell on shards alone. *)
Lemma levels_view_sharded s shards k :
  shards_ok shards -> shards_hold s shards ->
  levels_view s (levels_sharded shards) k = first_hit s (positions_of_shards shards) k.
Proof.
  intros Hok Hh. unfold levels_view, below_l0_for. rewrite levels_sharded_l0. cbn [opt_view or_else].
  unfold levels_is_sharded. cbn [lv_shards levels_sharded]. destruct shards as [|e shards]; [done|].
  by apply (shard_for_view s (levels_sharded (e :: shards))).
Qed.

Lemma levels_ok_sharded s shards :
  shards_ok shards -> shards_hold s shards -> Forall (fun e => blob_ok ks U s (shard_position e.2)) shards ->
  levels_ok ks U s (levels_sharded shards).
Proof.
  intros Hok Hh Hb. split; [cbn; lia| |done|done|done]. unfold levels_iter, shard_positions. cbn.
  by apply Forall_map.
Qed.

(** ** Writing a promoted L1 *)

Lemma it_iter_image t es :
  cell_table ks U t es -> (forall k, live_entry (it_view t es k) = it_view t es k) ->
  exists entries, it_iter t = Ok entries /\ image_ok entries /\ forall k, bt_get k entries = wal_view (it_view t es k).
Proof.
  intros Ht Hlive. pose proof (ct_wf _ _ _ _ Ht) as Hw. unfold it_iter, iter_inner.
  rewrite (iter_combined_ok t es Hw). cbn [mbind outcome_bind]. eexists. split; [done|].
  pose proof (combined_sorted t es Hw) as Hs. pose proof (combined_fits t es Hw) as Hf.
  assert (forall k p, In (k, p) (combined t es) -> is_removed p = false /\ it_view t es k = Some p) as Hin.
  { intros k p Hin. apply bt_get_In in Hin; [|done]. rewrite bt_get_combined in Hin by done.
    specialize (Hlive k). rewrite Hin in Hlive. cbn in Hlive. split; [|done]. by destruct (is_removed p). }
  rewrite filter_all.
  2:{ apply List.Forall_forall. intros e He. apply in_map_iff in He as ([k p] & <- & He). cbn.
      rewrite List.Forall_forall in Hf. rewrite into_wal_valid by (by apply (Hf (k, p))).
      by rewrite (proj1 (Hin k p He)). }
  split; [split|].
  - by apply (bt_sorted_map (fun e => into_wal_position e.2)).
  - apply List.Forall_forall. intros e He. apply in_map_iff in He as ([k p] & <- & He). cbn [fst snd].
    destruct (Hin k p He) as [Hr Hv]. rewrite List.Forall_forall in Hf. specialize (Hf _ He). cbn in Hf. split_and!.
    + apply (ct_keys _ _ _ _ Ht). by rewrite Hv.
    + rewrite into_wal_valid by done. by rewrite Hr.
    + unfold is_removed in Hr. by destruct p as [o l []].
  - intros k. rewrite (bt_get_map into_wal_position), bt_get_combined by done. by destruct (it_view t es k).
Qed.

Lemma wp_valid_some p : wp_is_valid p = true -> wp_valid p = Some p.
Proof. intros Hv%wp_is_valid_iff. unfold wp_valid. by rewrite bool_decide_eq_false_2. Qed.

Lemma levels_view_promoted s p k : wp_is_valid p = true -> levels_view s (levels_promoted p) k = blob_view s p k.
Proof.
  intros Hv. unfold levels_view, below_l0_for. replace (levels_l0 (levels_promoted p)) with (@None WalPosition) by done.
  cbn [opt_view or_else]. unfold levels_l1, levels_get, levels_promoted. cbn. by rewrite wp_valid_some.
Qed.

Lemma levels_ok_promoted s p : blob_ok ks U s p -> wp_is_valid p = true -> levels_ok ks U s (levels_promoted p).
Proof.
  intros Hb Hv. split; [cbn; lia| |done|constructor|done]. unfold levels_iter, shard_positions, levels_promoted.
  cbn [lv_positions lv_shards List.filter List.map app]. rewrite Hv. replace (wp_is_valid WalPosition_INVALID) with false by done.
  by constructor.
Qed.

Lemma write_promoted_l1_ok ctx s t es :
  serializes ctx -> cell_table ks U t es -> (forall k, live_entry (it_view t es k) = it_view t es k) ->
  succeeds (write_promoted_l1 ctx t) s
    (fun s' l => store_extends s s' /\ levels_ok ks U s' l /\
       forall k, wal_view (levels_view s' l k) = wal_view (it_view t es k)).
Proof.
  intros Hser Ht Hlive. unfold write_promoted_l1. destruct (Hser t es Ht) as [bytes Hb].
  apply succeeds_bind. eapply succeeds_lift; [exact Hb|].
  destruct (fc_auto_shard_threshold ctx <? Z.of_nat (length bytes)).
  - destruct (it_iter_image t es Ht Hlive) as (entries & Hi & Hok & Hg). unfold flush_split_l1.
    apply succeeds_bind. eapply succeeds_lift; [exact Hi|].
    destruct (split_recursive_ok ctx (fc_auto_shard_threshold ctx) (length entries) entries [] Hser Hok) as (pieces & Hsp & Hp); [lia|].
    apply succeeds_bind. eapply succeeds_lift; [exact Hsp|]. cbn [app].
    apply succeeds_bind. eapply succeeds_mono; [by apply flush_shard_tables_ok|].
    intros s' r (shards & -> & He & [Hso Hsb Hsh _ Hsv]). apply succeeds_ret. cbn [app]. split; [done|].
    split; [by apply levels_ok_sharded|]. intros k. by rewrite levels_view_sharded, Hsv, Hg.
  - apply succeeds_bind. eapply succeeds_mono; [by apply flush_expect_ok|]. intros s' p (He & Hv & Hbl & Hw & _).
    apply succeeds_ret. split; [done|]. split; [by apply levels_ok_promoted|]. intros k. by rewrite levels_view_promoted.
Qed.
End blobs.
