(* ===== verification/FlusherShards.v ===== *)
(** * Rewriting the shards of a cell

    [rewrite_shards] and [write_sharded_promote] of
    [src/tidehunter/src/flusher.rs]: keys are routed to the shard that owns
    them, touched shards are rewritten and possibly split, the others stay, and
    the new shards are again disjoint with every key where a point read looks
    for it. *)

From Stdlib Require Import ZArith Lia List Sorting.Sorted.
From stdpp Require Import base tactics list strings.
From S2P Require Import Prelude BTree Bytes Position Flat FlatFacts IndexTable IndexOps IndexTableFacts.
From S2P Require Import IndexWalk IndexPromote IndexFlush IndexUnmerge IndexCodec IndexClean Levels Loader.
From S2P Require Import Flusher FlusherFacts.

Local Open Scope Z_scope.

(** ** Shard ownership *)

Section ownership.
Context (all : list (list Z * IndexShard)) (fo : list Z).
Context (Hok : shards_ok all) (Hfo : option_map fst (head all) = Some fo).

Notation owner k := (shard_owner all fo k).

Lemma owner_in k : exists sh, In (owner k, sh) all.
Proof.
  unfold shard_owner. pose proof (last_upto_spec all k (shards_ok_sorted _ Hok)) as Hl.
  destruct (last (bt_upto k all)) as [[bk sh]|]; [exists sh; by apply Hl|].
  destruct all as [|[k0 sh] rest]; [done|]. cbn in Hfo. injection Hfo as <-. exists sh. by left.
Qed.

Lemma owner_first e : In e all -> kle fo e.1.
Proof.
  intros Hin. destruct (head all) as [[k0 sh]|] eqn:E; [|done]. cbn in Hfo. injection Hfo as <-.
  apply bt_head_spec in E as [_ Hmin]; [by apply Hmin|by apply shards_ok_sorted].
Qed.

(** A key owned by a shard lies left of every later shard. *)
Lemma owner_before k e : In e all -> klt (owner k) e.1 -> klt k e.1.
Proof.
  unfold shard_owner. pose proof (last_upto_spec all k (shards_ok_sorted _ Hok)) as Hl. intros Hin.
  destruct (last (bt_upto k all)) as [[bk sh]|]; [|by auto].
  destruct Hl as (_ & _ & Hmax). cbn [fst] in Hmax. intros Hlt. destruct (k_total k e.1) as [?|Hge]; [done|].
  assert (kle e.1 k) as Hle by (apply kle_iff; naive_solver).
  specialize (Hmax e Hin Hle). by apply kle_not_lt in Hmax.
Qed.

(** A shard other than the first only owns keys from its own on. *)
Lemma owner_le k : kle (owner k) k \/ owner k = fo.
Proof.
  unfold shard_owner. pose proof (last_upto_spec all k (shards_ok_sorted _ Hok)) as Hl.
  destruct (last (bt_upto k all)) as [[bk sh]|]; [|by right]. left. by apply Hl.
Qed.

(** The keys of a shard's range are its own. *)
Lemma owner_of_range k e : In e all -> in_shard k e -> owner k = e.1.
Proof.
  intros Hin [Hlo Hhi]. unfold shard_owner. pose proof (last_upto_spec all k (shards_ok_sorted _ Hok)) as Hl.
  destruct (last (bt_upto k all)) as [[bk sh]|].
  - destruct Hl as (Hin' & Hle & Hmax). cbn [fst] in *. specialize (Hmax e Hin Hlo).
    apply kle_iff in Hmax as [Hlt|Heq]; [|done]. exfalso.
    pose proof (shards_disjoint all e (bk, sh) Hok Hin Hin' Hlt) as Hd. cbn [fst] in Hd.
    apply kle_not_lt in Hhi. apply Hhi. by eapply klt_le_trans.
  - exfalso. specialize (Hl e Hin). by apply kle_not_lt in Hlo.
Qed.
End ownership.

Lemma shards_ok_app a b :
  shards_ok a -> shards_ok b -> (forall ea eb, In ea a -> In eb b -> klt (shard_max_key ea.2) eb.1) -> shards_ok (a ++ b).
Proof.
  induction a as [|[k sh] a IH]; [done|]. intros (Hle & Hv & Hf & Ha) Hb Hlt. cbn. split_and!; [done|done| |].
  - apply Forall_app. split; [done|]. apply List.Forall_forall. intros eb Heb. by apply (Hlt (k, sh) eb (or_introl eq_refl)).
  - apply IH; [done|done|]. intros ea eb Hea. apply Hlt. by right.
Qed.

Section shards.
Context {S : Type} `{Loader S} (ks : option nat) (U : list (list Z)) `{!LoaderSpec S ks U}.
Context (Hu : universe_ok ks U).

Lemma first_hit_app s a b k : first_hit s (a ++ b) k = or_else (first_hit s a k) (first_hit s b k).
Proof. induction a as [|p a IH]; [done|]. cbn. rewrite IH. by destruct (blob_view s p k). Qed.

(** ** One shard *)

(** No compactor: what a reader sees is not up to the client. *)
Definition no_compactor (ctx : FlushCtx) : Prop := fc_compactor ctx = None.

Lemma process_l1_blob_ok ctx s t es x :
  no_compactor ctx -> x = ld_min_wal_position s -> cell_table ks U t es ->
  (forall k, floor_closed x (over_view t k) (bt_get k es)) ->
  succeeds (process_l1_blob ctx t) s
    (fun s' t' => s' = s /\ exists es', cell_table ks U t' es' /\
       forall k, visible x (it_view t' es' k) = visible x (it_view t es k) /\
                 (is_Some (it_view t' es' k) -> is_Some (it_view t es k)) /\
                 live_entry (it_view t' es' k) = it_view t' es' k).
Proof.
  intros Hc -> Ht Hcl. destruct (floor_then_clean ks U _ t es Ht Hcl) as (t1 & t2 & es2 & H1 & H2 & Ht2 & Hv).
  unfold process_l1_blob. apply succeeds_bind, succeeds_asks. apply succeeds_bind. eapply succeeds_lift; [exact H1|].
  apply succeeds_bind. eapply succeeds_lift; [unfold run_compactor; by rewrite Hc|].
  eapply succeeds_lift; [exact H2|]. split; [done|]. by exists es2.
Qed.

Lemma it_is_empty_view t es : it_wf t es -> it_is_empty t = true -> forall k, it_view t es k = None.
Proof.
  unfold it_is_empty. intros [_ Hr] He k. destruct (it_data t) eqn:Ed; [|done]. destruct (it_flat t) eqn:Ef; [|done].
  rewrite (proj1 (flat_repr_empty [] _ es Hr) eq_refl). unfold it_view, positions_of. by rewrite Ed.
Qed.

Lemma nonempty_has_key t es : it_wf t es -> it_is_empty t = false -> exists k, is_Some (it_view t es k).
Proof.
  unfold it_is_empty. intros [Hw Hr] He. pose proof Hr as (_ & Hs & _). destruct (it_data t) as [|[k ps] d] eqn:Ed.
  - destruct es as [|[k p] es].
    { rewrite (proj2 (flat_repr_empty _ _ _ Hr) eq_refl) in He. done. }
    exists k. unfold it_view, positions_of. rewrite Ed. exists p. apply bt_get_In; [done|by left].
  - exists k. destruct Hw as [Hsd Hf]. assert (bt_get k ((k, ps) :: d) = Some ps) as Hg by (apply bt_get_In; [done|by left]).
    apply Forall_cons in Hf as [Hp _]. destruct (positions_ok_last ps Hp) as [p Hl]. exists p.
    unfold it_view, positions_of. rewrite Ed, Hg. cbn [default from_option id]. by rewrite Hl.
Qed.

(** The pieces a settled shard is written as hold it. *)
Lemma shard_pieces_ok ctx t es :
  serializes ks U ctx -> cell_table ks U t es -> (forall k, live_entry (it_view t es k) = it_view t es k) ->
  it_is_empty t = false ->
  exists pieces entries, shard_pieces ctx t = Ok pieces /\ pieces_of ks U pieces entries /\ image_ok U entries /\
    forall k, bt_get k entries = wal_view (it_view t es k).
Proof.
  intros Hser Ht Hlive Hne. destruct (it_iter_image ks U t es Ht Hlive) as (entries & Hi & Hok & Hg).
  destruct (Hser t es Ht) as [bytes Hb]. unfold shard_pieces. rewrite Hi. cbn [mbind outcome_bind]. rewrite Hb.
  cbn [mbind outcome_bind]. destruct (Z.of_nat (length bytes) <=? fc_auto_shard_threshold ctx).
  - destruct entries as [|[k0 w0] rest] eqn:Ee.
    { destruct (nonempty_has_key t es (ct_wf _ _ _ _ Ht) Hne) as [k Hk]. specialize (Hg k). by destruct (it_view t es k), Hk. }
    unfold shard_bounds. destruct (last ((k0, w0) :: rest)) as [[k1 w1]|] eqn:El; [|by apply last_None in El].
    cbn [head expect mbind outcome_bind fst]. eexists _, ((k0, w0) :: rest). split; [done|]. split; [|done].
    exists [(k0, w0) :: rest]. split; [|cbn; by rewrite app_nil_r]. constructor; [|constructor].
    exists es. cbn [fst snd]. split; [done|]. split; [done|]. split; [done|]. by rewrite El.
  - destruct (split_recursive_ok ks U ctx (fc_auto_shard_threshold ctx) (length entries) entries [] Hser Hok)
      as (pieces & Hs & Hp); [lia|].
    exists pieces, entries. by rewrite Hs.
Qed.

(** ** The loop over the shards *)

Section rewriting.
Context {T : Type} (rewrite : IndexTable -> T -> outcome (IndexTable * bool)).
Context (ctx : FlushCtx) (Hser : serializes ks U ctx) (Hnc : no_compactor ctx).
Context (all : list (list Z * IndexShard)) (fo : list Z) (s0 : S) (x : Z).
Context (Hok : shards_ok all) (Hfo : option_map fst (head all) = Some fo).
Context (Hx : x = ld_min_wal_position s0).
Context (Hblobs : Forall (fun e => blob_ok ks U s0 (shard_position e.2)) all) (Hhold : shards_hold s0 all).

(** [new bk k] is what shard [bk] is to hold for key [k]. *)
Context (new : list Z -> list Z -> option IndexWalPosition).

Notation owner k := (shard_owner all fo k).

(** A work item rewrites its shard's blob into [new], over its own keys. *)
Definition item_ok (bk : list Z) (sh : IndexShard) (item : T) : Prop :=
  forall t, cell_blob ks U t (blob_entries s0 (shard_position sh)) ->
  exists t' es' c, rewrite t item = Ok (t', c) /\
    (c = false -> forall k, visible x (blob_view s0 (shard_position sh) k) = visible x (new bk k)) /\
    (c = true -> cell_table ks U t' es' /\ (forall k, floor_closed x (over_view t' k) (bt_get k es')) /\
       forall k, (is_Some (it_view t' es' k) -> owner k = bk) /\ visible x (it_view t' es' k) = visible x (new bk k)).

(** The shards that stand for shard [bk] in the result. *)
Record stands_for (s : S) (bk : list Z) (v : list Z -> option WalPosition) (P : list (list Z * IndexShard)) : Prop := {
  sf_ok : shards_ok P;
  sf_blobs : Forall (fun e => blob_ok ks U s (shard_position e.2)) P;
  sf_hold : shards_hold s P;
  sf_own : Forall (fun e => owner e.1 = bk /\ owner (shard_max_key e.2) = bk) P;
  sf_only : forall k, owner k <> bk -> first_hit s (positions_of_shards P) k = None;
  sf_view : forall k, owner k = bk -> visible x (first_hit s (positions_of_shards P) k) = v k;
}.

(** A shard left in place. *)
Lemma stands_kept s bk sh :
  store_extends s0 s -> In (bk, sh) all ->
  stands_for s bk (fun k => visible x (blob_view s0 (shard_position sh) k)) [(bk, sh)].
Proof.
  intros He Hin. rewrite List.Forall_forall in Hblobs. pose proof (Hblobs _ Hin) as Hb. cbn in Hb.
  pose proof Hhold as Hh. unfold shards_hold in Hh. rewrite List.Forall_forall in Hh.
  destruct (Hh _ Hin) as (Hlo & Hhi & Hr). cbn [fst snd] in *.
  assert (forall k, blob_view s (shard_position sh) k = blob_view s0 (shard_position sh) k) as Hbv.
  { intros k. by apply (blob_view_extends ks U s0 s). }
  assert (forall k, is_Some (blob_view s0 (shard_position sh) k) -> owner k = bk) as Hown.
  { intros k Hk. apply (owner_of_range all fo Hok k (bk, sh)); [done|by apply Hr]. }
  split.
  - assert (shards_ok [(bk, sh)]); [|done]. split_and!; [by apply (shards_min_le_max all (bk, sh))| |constructor|done].
    clear -Hok Hin. induction all as [|[k' sh'] rest IH]; [done|]. destruct Hok as (_ & Hv & _ & Hr).
    destruct Hin as [[= -> ->]|Hin]; [done|]. by apply IH.
  - constructor; [|constructor]. by eapply blob_ok_extends.
  - constructor; [|constructor]. cbn [fst snd]. rewrite !Hbv. split_and!; [done|done|]. intros k. rewrite Hbv. apply Hr.
  - constructor; [|constructor]. cbn [fst snd]. auto.
  - intros k Hk. cbn. rewrite Hbv. destruct (blob_view s0 (shard_position sh) k) eqn:E; [|done].
    destruct Hk. apply Hown. by rewrite E.
  - intros k _. cbn. rewrite Hbv. by destruct (blob_view s0 (shard_position sh) k).
Qed.

(** A shard rewritten as the pieces of its new table. *)
Lemma stands_rewritten s bk t es entries P :
  cell_table ks U t es -> shards_written ks U s P entries -> image_ok U entries ->
  (forall k, bt_get k entries = wal_view (it_view t es k)) -> (forall k, is_Some (it_view t es k) -> owner k = bk) ->
  stands_for s bk (fun k => visible x (it_view t es k)) P.
Proof.
  intros Ht [Hso Hsb Hsh Hsk Hsv] [Hs _] Hg Hown.
  assert (forall k, In k (List.map fst entries) -> owner k = bk) as Hk.
  { intros k Hk%(bt_get_key k entries Hs). rewrite Hg in Hk. apply Hown. by apply is_Some_wal_view. }
  split; [done|done|done| | |].
  - eapply Forall_impl; [exact Hsk|]. intros e [? ?]. auto.
  - intros k Hn. destruct (first_hit s (positions_of_shards P) k) eqn:E; [|done]. destruct Hn. apply Hk.
    apply bt_get_key; [done|]. rewrite <- Hsv, E. by eexists.
  - intros k _. rewrite !visible_of_wal.
    + by rewrite Hsv, Hg.
    + intros p. by apply it_view_fits, Ht.
    + intros p Hp. clear -Hp Hsb. induction P as [|e P IH]; [done|]. apply Forall_cons in Hsb as [Hb Hsb].
      cbn in Hp. destruct (blob_view s (shard_position e.2) k) eqn:E; [|by apply IH]. cbn in Hp. injection Hp as ->.
      by eapply blob_view_fits.
Qed.

(** Nothing is left of the shard. *)
Lemma stands_empty s bk v : (forall k, owner k = bk -> v k = None) -> stands_for s bk v [].
Proof. intros Hv. split; [done|constructor|constructor|constructor|done|]. intros k Hk. by rewrite Hv. Qed.

Definition good_shards (s : S) (shards : list (list Z * IndexShard)) : Prop :=
  shards_ok shards /\ Forall (fun e => blob_ok ks U s (shard_position e.2)) shards /\ shards_hold s shards.

Lemma good_shards_extends s s' shards : store_extends s s' -> good_shards s shards -> good_shards s' shards.
Proof.
  intros He (Ho & Hb & Hh). split_and!; [done|by eapply blobs_ok_extends|by eapply shards_hold_extends].
Qed.

(** What is expected of shard [bk] for key [k]. *)
Definition expected (work : list (list Z * T)) (bk : list Z) (sh : IndexShard) (k : list Z) : option WalPosition :=
  match bt_get bk work with
  | Some _ => visible x (new bk k)
  | None => visible x (blob_view s0 (shard_position sh) k)
  end.

(** The loop's result from [target] on, over the shards [cur]. *)
Definition loop_post (cur target : list (list Z * IndexShard)) (work : list (list Z * T)) (s s' : S)
    (r : list (list Z * IndexShard)) : Prop :=
  store_extends s s' /\ exists news, r = target ++ news /\ good_shards s' r /\
    forall k,
      (forall sh, In (owner k, sh) cur -> visible x (first_hit s' (positions_of_shards news) k) = expected work (owner k) sh k) /\
      ((forall sh, ~ In (owner k, sh) cur) -> first_hit s' (positions_of_shards news) k = None).

(** The part of [target] stays left of the shards to come. *)
Definition left_of (target cur : list (list Z * IndexShard)) : Prop :=
  forall e e', In e target -> In e' cur -> klt (shard_max_key e.2) e'.1.

Lemma suffix_keys pre bk sh rest :
  all = pre ++ (bk, sh) :: rest -> In (bk, sh) all /\ (forall e, In e rest -> In e all /\ klt bk e.1) /\ (pre <> [] -> bk <> fo).
Proof.
  intros E. pose proof (shards_ok_sorted _ Hok) as Hs. rewrite E in Hs. split; [rewrite E; apply in_app_iff; right; by left|].
  assert (bt_sorted ((bk, sh) :: rest) /\ forall e, In e pre -> klt e.1 bk) as [Hs' Hpre].
  { clear -Hs. induction pre as [|[k v] pre IH]; [done|]. apply bt_sorted_cons in Hs as [Hs Hf]. destruct (IH Hs) as [Hs' Hp].
    split; [done|]. intros e [<-|He]; [|by apply Hp]. rewrite List.Forall_forall in Hf. apply (Hf (bk, sh)), in_app_iff.
    right. by left. }
  split.
  - intros e He. split; [rewrite E; apply in_app_iff; right; by right|].
    apply bt_sorted_cons in Hs' as [_ Hf]. rewrite List.Forall_forall in Hf. by apply Hf.
  - intros Hne ->. destruct pre as [|e0 pre]; [done|]. rewrite E in Hfo. cbn in Hfo. injection Hfo as Hf.
    specialize (Hpre e0 (or_introl eq_refl)). rewrite Hf in Hpre. by apply klt_irrefl in Hpre.
Qed.

(** The shards standing for [bk] extend the target. *)
Lemma target_extends pre bk sh rest target s v P :
  all = pre ++ (bk, sh) :: rest -> good_shards s target -> left_of target ((bk, sh) :: rest) ->
  (pre = [] -> target = []) -> stands_for s bk v P ->
  good_shards s (target ++ P) /\ left_of (target ++ P) rest.
Proof.
  intros E (Ho & Hb & Hh) Hleft Hpre [Po Pb Ph Pown _ _]. destruct (suffix_keys pre bk sh rest E) as (Hin & Hrest & Hnf).
  rewrite List.Forall_forall in Pown. split; [split_and!|].
  - apply shards_ok_app; [done|done|]. intros ea eb Ha Hb'. destruct (Pown eb Hb') as [Hown _].
    destruct (decide (pre = [])) as [Hn|Hne]; [by rewrite (Hpre Hn) in Ha|].
    eapply klt_le_trans; [apply (Hleft ea (bk, sh) Ha (or_introl eq_refl))|]. cbn.
    destruct (owner_le all fo Hok eb.1) as [Hle|Hf]; [by rewrite Hown in Hle|]. rewrite Hown in Hf. by destruct (Hnf Hne).
  - by apply Forall_app.
  - by apply Forall_app.
  - intros e e' [He|He]%in_app_iff He'; [by apply Hleft; [|right]|]. destruct (Pown e He) as [_ Hown].
    destruct (Hrest e' He') as [Hin' Hlt]. apply (owner_before all fo Hok _ e' Hin'). by rewrite Hown.
Qed.

(** A step of the loop followed by the rest. *)
Lemma loop_post_cons pre bk sh rest target work work' s s1 s2 r P :
  all = pre ++ (bk, sh) :: rest -> store_extends s s1 ->
  stands_for s1 bk (fun k => expected work bk sh k) P ->
  (forall bk', bk' <> bk -> bt_get bk' work' = bt_get bk' work) ->
  loop_post rest (target ++ P) work' s1 s2 r -> loop_post ((bk, sh) :: rest) target work s s2 r.
Proof.
  intros E He1 [_ Pb _ _ Ponly Pview] Hw (He2 & news & -> & Hg & Hn). destruct (suffix_keys pre bk sh rest E) as (Hin & Hrest & _).
  split; [by etrans|]. exists (P ++ news). rewrite app_assoc. split; [done|]. split; [done|]. intros k.
  assert (first_hit s2 (positions_of_shards (P ++ news)) k =
          or_else (first_hit s1 (positions_of_shards P) k) (first_hit s2 (positions_of_shards news) k)) as ->.
  { unfold positions_of_shards. rewrite map_app, first_hit_app. f_equal. apply (first_hit_extends ks U); [done|].
    by apply Forall_map. }
  assert (forall e, In e rest -> e.1 <> bk) as Hne.
  { intros e He Heq. destruct (Hrest e He) as [_ Hlt]. rewrite Heq in Hlt. by apply klt_irrefl in Hlt. }
  destruct (Hn k) as [Hn1 Hn2]. split.
  - intros sh' [[= Hbk ->]|Hin'].
    + rewrite (Hn2 (fun sh' Hsh => Hne _ Hsh (eq_sym Hbk))), <- Hbk.
      destruct (first_hit s1 (positions_of_shards P) k) eqn:Ef; cbn [or_else]; rewrite <- Ef; by apply Pview.
    + specialize (Hne _ Hin'). cbn in Hne. rewrite Ponly by done. cbn [or_else]. rewrite (Hn1 sh' Hin').
      unfold expected. by rewrite Hw.
  - intros Hno. rewrite Ponly; [|intros Hbk; apply (Hno sh); left; by rewrite Hbk].
    apply Hn2. intros sh' Hsh. apply (Hno sh'). by right.
Qed.

Lemma insert_after_target target s bk sh rest :
  good_shards s target -> left_of target ((bk, sh) :: rest) -> bt_insert bk sh target = target ++ [(bk, sh)].
Proof.
  intros (Ho & _ & _) Hleft. apply bt_insert_snoc, List.Forall_forall. intros e He.
  eapply kle_lt_trans; [by apply (shards_min_le_max target)|]. by apply (Hleft e (bk, sh) He (or_introl eq_refl)).
Qed.

(** Every work item names a shard still to come and is fit for it. *)
Definition work_ok (cur : list (list Z * IndexShard)) (work : list (list Z * T)) : Prop :=
  bt_sorted work /\ forall bk item, bt_get bk work = Some item -> exists sh, In (bk, sh) cur /\ item_ok bk sh item.

Lemma work_ok_tail bk sh rest work :
  work_ok ((bk, sh) :: rest) work -> work_ok rest (bt_remove bk work) /\
  (bt_get bk work = None -> work_ok rest work) /\ forall bk', bk' <> bk -> bt_get bk' (bt_remove bk work) = bt_get bk' work.
Proof.
  intros [Hs Hw].
  assert (forall bk', bt_get bk' (bt_remove bk work) = if keqb bk' bk then None else bt_get bk' work) as Hr.
  { intros bk'. by rewrite bt_get_remove. }
  split_and!.
  - split; [by apply bt_remove_sorted|]. intros bk' item. rewrite Hr. destruct (keqb_spec bk' bk) as [->|Hne]; [done|].
    intros Hg. destruct (Hw bk' item Hg) as (sh' & [[= -> ->]|Hin] & Hi); [done|]. by exists sh'.
  - intros Hnone. split; [done|]. intros bk' item Hg.
    destruct (Hw bk' item Hg) as (sh' & [[= -> ->]|Hin] & Hi); [congruence|]. by exists sh'.
  - intros bk' Hne. rewrite Hr. by destruct (keqb_spec bk' bk).
Qed.

Lemma loop_keep pre bk sh rest target work s :
  all = pre ++ (bk, sh) :: rest -> store_extends s0 s -> good_shards s target -> left_of target ((bk, sh) :: rest) ->
  (pre = [] -> target = []) ->
  bt_insert bk sh target = target ++ [(bk, sh)] /\ good_shards s (target ++ [(bk, sh)]) /\
  left_of (target ++ [(bk, sh)]) rest /\
  ((forall k, visible x (blob_view s0 (shard_position sh) k) = expected work bk sh k) ->
   stands_for s bk (fun k => expected work bk sh k) [(bk, sh)]).
Proof.
  intros E He Hg Hleft Hpre. destruct (suffix_keys pre bk sh rest E) as (Hin & _).
  pose proof (stands_kept s bk sh He Hin) as Hst.
  destruct (target_extends pre bk sh rest target s _ _ E Hg Hleft Hpre Hst) as [Hg' Hl'].
  split_and!; [by eapply insert_after_target|done|done|]. intros Hv. destruct Hst as [? ? ? ? ? Hview].
  split; try done. intros k Hk. by rewrite Hview, Hv.
Qed.

Lemma app_cons_assoc {A} (a : list A) b c : a ++ b :: c = (a ++ [b]) ++ c.
Proof. by rewrite <- app_assoc. Qed.

Lemma snoc_not_nil {A} (a : list A) b : a ++ [b] = [] -> False.
Proof. by destruct a. Qed.

Lemma rewrite_shards_loop_ok cur pre target work s :
  all = pre ++ cur -> store_extends s0 s -> work_ok cur work -> good_shards s target -> left_of target cur ->
  (pre = [] -> target = []) ->
  succeeds (rewrite_shards_loop rewrite ctx cur work target) s (loop_post cur target work s).
Proof.
  revert pre target work s. induction cur as [|[bk sh] rest IH]; intros pre target work s E He Hw Hg Hleft Hpre.
  { cbn [rewrite_shards_loop]. assert (work = []) as ->.
    { destruct Hw as [Hs Hw]. destruct work as [|[k i] work]; [done|].
      destruct (Hw k i) as (sh & [] & _). apply bt_get_In; [done|by left]. }
    apply succeeds_bind. eapply succeeds_lift; [done|]. apply succeeds_ret. split; [done|]. exists [].
    rewrite app_nil_r. split; [done|]. split; [done|]. intros k. split; [by intros sh []|done]. }
  pose proof (suffix_keys pre bk sh rest E) as (Hin & _).
  destruct (loop_keep pre bk sh rest target work s E He Hg Hleft Hpre) as (Hins & Hgk & Hlk & Hst).
  assert (all = (pre ++ [(bk, sh)]) ++ rest) as E' by (by rewrite E, app_cons_assoc).
  assert (forall A, pre ++ [(bk, sh)] = [] -> A) as Hnil by (intros A Hn; exfalso; by eapply snoc_not_nil).
  destruct (work_ok_tail bk sh rest work Hw) as (Hw' & Hwn & Hsame). cbn [rewrite_shards_loop].
  destruct (bt_get bk work) as [item|] eqn:Ew.
  2:{ rewrite Hins. eapply succeeds_mono; [apply (IH (pre ++ [(bk, sh)])); [done|done|by apply Hwn|done|done|apply Hnil]|].
      intros s' r. apply (loop_post_cons pre); [done|done| |done]. apply Hst. intros k. unfold expected. by rewrite Ew. }
  destruct (proj2 Hw bk item Ew) as (sh' & Hin' & Hitem).
  assert (sh' = sh) as ->.
  { destruct Hin' as [[= ->]|Hin']; [done|]. destruct (suffix_keys pre bk sh rest E) as (_ & Hr & _).
    destruct (Hr _ Hin') as [_ Hlt]. by apply klt_irrefl in Hlt. }
  assert (blob_ok ks U s0 (shard_position sh)) as Hb by (rewrite List.Forall_forall in Hblobs; by apply (Hblobs (bk, sh))).
  apply succeeds_bind. apply (load_expect_ok ks U); [by eapply blob_ok_extends|]. intros t Ht.
  rewrite (blob_entries_extends s0 s) in Ht by (done || by eapply blob_ok_loads).
  destruct (Hitem t Ht) as (t' & es' & c & Hrw & Hfalse & Htrue).
  apply succeeds_bind. eapply succeeds_lift; [exact Hrw|]. destruct c; cbn [negb].
  2:{ rewrite Hins. eapply succeeds_mono; [apply (IH (pre ++ [(bk, sh)])); [done|done|exact Hw'|done|done|apply Hnil]|].
      intros s' r. apply (loop_post_cons pre); [done|done| |done]. apply Hst. intros k. unfold expected. rewrite Ew. by apply Hfalse. }
  destruct (Htrue eq_refl) as (Ht' & Hcl & Hv).
  apply succeeds_bind. eapply succeeds_mono; [apply (process_l1_blob_ok ctx s t' es' x Hnc); [|done|done]|].
  { rewrite Hx. symmetry. apply He. }
  intros s1 t2 (-> & es2 & Ht2 & Hv2). destruct (it_is_empty t2) eqn:Ee.
  - assert (stands_for s bk (fun k => expected work bk sh k) []) as Hse.
    { apply stands_empty. intros k _. unfold expected. rewrite Ew, <- (proj2 (Hv k)), <- (proj1 (Hv2 k)).
      by rewrite (it_is_empty_view t2 es2 (ct_wf _ _ _ _ Ht2) Ee). }
    eapply succeeds_mono; [apply (IH (pre ++ [(bk, sh)])); [done|done|exact Hw'|done| |apply Hnil]|].
    { intros e e' H1 H2. apply Hleft; [done|by right]. }
    intros s' r Hp. eapply (loop_post_cons pre); [done|done|exact Hse|exact Hsame|]. by rewrite app_nil_r.
  - destruct (shard_pieces_ok ctx t2 es2 Hser Ht2) as (pieces & entries & Hsp & Hpo & Him & Hge);
      [intros k; apply Hv2|done|].
    assert (forall k, is_Some (it_view t2 es2 k) -> owner k = bk) as Hown.
    { intros k Hk. apply (Hv k), (Hv2 k), Hk. }
    apply succeeds_bind. eapply succeeds_lift; [exact Hsp|]. apply succeeds_bind.
    eapply succeeds_mono; [apply (flush_shard_tables_ok ks U); [exact Hpo|done|]|].
    { apply List.Forall_forall. intros e He' k Hk%bt_get_key; [|apply Him]. rewrite Hge in Hk.
      apply is_Some_wal_view, Hown in Hk. destruct (decide (pre = [])) as [Hn|Hne]; [by rewrite (Hpre Hn) in He'|].
      destruct (suffix_keys pre bk sh rest E) as (_ & _ & Hnf). destruct Hg as (Hto & _).
      eapply kle_lt_trans; [by apply (shards_min_le_max target)|].
      eapply klt_le_trans; [apply (Hleft e (bk, sh) He' (or_introl eq_refl))|]. cbn.
      destruct (owner_le all fo Hok k) as [Hle|Hf]; [by rewrite Hk in Hle|]. rewrite Hk in Hf. by destruct (Hnf Hne). }
    intros s1 r (P & -> & He1 & Hsw). pose proof (stands_rewritten s1 bk t2 es2 entries P Ht2 Hsw Him Hge Hown) as Hse.
    assert (stands_for s1 bk (fun k => expected work bk sh k) P) as Hse'.
    { destruct Hse as [? ? ? ? ? Hview]. split; try done. intros k Hk. rewrite Hview by done.
      unfold expected. rewrite Ew, <- (proj2 (Hv k)). apply Hv2. }
    pose proof (good_shards_extends s s1 target He1 Hg) as Hg1.
    destruct (target_extends pre bk sh rest target s1 _ _ E Hg1 Hleft Hpre Hse) as [Hg' Hl'].
    eapply succeeds_mono; [apply (IH (pre ++ [(bk, sh)])); [done|by etrans|exact Hw'|done|done|apply Hnil]|].
    intros s' r Hp. by eapply (loop_post_cons pre); [| |exact Hse'|exact Hsame|].
Qed.
End rewriting.

(** ** The sharded promote *)

Section promote.
Context (ctx : FlushCtx) (Hser : serializes ks U ctx) (Hnc : no_compactor ctx).
Context (all : list (list Z * IndexShard)) (fo : list Z) (s0 : S) (x : Z).
Context (Hok : shards_ok all) (Hfo : option_map fst (head all) = Some fo).
Context (Hx : x = ld_min_wal_position s0).
Context (Hblobs : Forall (fun e => blob_ok ks U s0 (shard_position e.2)) all) (Hhold : shards_hold s0 all).
Context (ph : WalPosition) (Hph : iwp_fits (iwp_new_removed ph)) (Hphx : x <= wp_offset ph).

Notation owner k := (shard_owner all fo k).

(** The overlay entry a routed position becomes. *)
Definition routed (w : WalPosition) : IndexWalPosition :=
  if wp_is_valid w then iwp_new_modified w else iwp_new_removed ph.

(** The entries to route: over the cell's keys, small enough, above the
    floor. *)
Definition routable (entries : list (list Z * WalPosition)) : Prop :=
  Forall (fun e => In e.1 U /\ iwp_fits (routed e.2) /\ x <= iwp_offset (routed e.2)) entries.

(** The partition of the entries routed so far. *)
Definition parts_ok (done_ : list (list Z * WalPosition)) (parts : list (list Z * IndexTable)) : Prop :=
  bt_sorted parts /\
  forall bk,
    match bt_get bk parts with
    | Some tab =>
        (exists k, is_Some (bt_get k done_) /\ owner k = bk) /\ cell_table ks U tab [] /\
        forall k, positions_of (it_data tab) k =
          if keqb (owner k) bk then match bt_get k done_ with Some w => [routed w] | None => [] end else []
    | None => forall k, is_Some (bt_get k done_) -> owner k <> bk
    end.

Lemma sorted_snoc_fresh (d : list (list Z * WalPosition)) k w : bt_sorted (d ++ [(k, w)]) -> bt_sorted d /\ bt_get k d = None.
Proof.
  intros Hs. assert (bt_sorted d /\ forall e, In e d -> klt e.1 k) as [Hsd Hlt].
  { induction d as [|[k0 w0] d IH]; [by split; [constructor|]|]. apply bt_sorted_cons in Hs as [Hs Hf].
    destruct (IH Hs) as [Hsd Hl]. apply Forall_app in Hf as [Hf1 Hf2]. apply Forall_cons in Hf2 as [Hf2 _].
    split; [by apply bt_sorted_cons|]. intros e [<-|He]; [done|by apply Hl]. }
  split; [done|]. destruct (bt_get k d) eqn:E; [|done]. apply bt_get_In in E; [|done]. specialize (Hlt _ E).
  by apply klt_irrefl in Hlt.
Qed.

Lemma bt_get_snoc (d : list (list Z * WalPosition)) k w k' :
  bt_sorted (d ++ [(k, w)]) -> bt_get k' (d ++ [(k, w)]) = if keqb k' k then Some w else bt_get k' d.
Proof.
  intros Hs. destruct (sorted_snoc_fresh d k w Hs) as [_ Hn]. rewrite bt_get_app by done.
  rewrite (bt_get_cons k' k w []) by (constructor; constructor).
  destruct (keqb_spec k' k) as [->|_]; [by rewrite Hn|by destruct (bt_get k' d)].
Qed.

Lemma sorted_prefix (a b : list (list Z * WalPosition)) : bt_sorted (a ++ b) -> bt_sorted a.
Proof.
  induction a as [|[k w] a IH]; [constructor|]. intros [Hs Hf]%bt_sorted_cons. apply Forall_app in Hf as [Hf _].
  apply bt_sorted_cons. split; [by apply IH|done].
Qed.

Lemma route_one tab k w :
  cell_table ks U tab [] -> In k U -> iwp_fits (routed w) -> positions_of (it_data tab) k = [] ->
  exists tab' o, (if wp_is_valid w then it_insert tab k w else it_remove tab k ph) = Ok (tab', o) /\
    cell_table ks U tab' [] /\
    forall k', positions_of (it_data tab') k' = if keqb k' k then [routed w] else positions_of (it_data tab) k'.
Proof.
  intros Ht Hk Hf Hp. destruct (insert_cell ks U tab [] k (routed w) Ht Hk Hf) as (tab' & Hi & Ht' & Hp').
  { by rewrite Hp. }
  rewrite Hp in Hi. cbn [forallb] in Hi. exists tab', Latest. split; [|split; [done|]].
  - unfold routed in Hi. unfold it_insert, it_remove. by destruct (wp_is_valid w).
  - intros k'. rewrite Hp', Hp. done.
Qed.

Lemma route_entries_ok entries done_ parts :
  bt_sorted (done_ ++ entries) -> routable entries -> parts_ok done_ parts ->
  exists parts', route_entries all fo ph entries parts = Ok parts' /\ parts_ok (done_ ++ entries) parts'.
Proof.
  revert done_ parts. induction entries as [|[k w] entries IH]; intros done_ parts Hs Hr Hp.
  { exists parts. by rewrite app_nil_r. }
  apply Forall_cons in Hr as [(Hin & Hfit & _) Hr]. rewrite app_cons_assoc in *. cbn [fst snd] in *.
  pose proof (sorted_prefix _ _ Hs) as Hsd. cbn [route_entries].
  assert (forall k', bt_get k' (done_ ++ [(k, w)]) = if keqb k' k then Some w else bt_get k' done_) as Hsn
    by (intros; by apply bt_get_snoc).
  destruct (sorted_snoc_fresh done_ k w Hsd) as [_ Hkn].
  set (tab := default it_default (bt_get (owner k) parts)).
  assert (cell_table ks U tab [] /\ forall k', positions_of (it_data tab) k' =
            if keqb (owner k') (owner k) then match bt_get k' done_ with Some w => [routed w] | None => [] end else []) as [Ht Hpt].
  { unfold tab. destruct Hp as [_ Hp]. specialize (Hp (owner k)). destruct (bt_get (owner k) parts) as [t|]; [by destruct Hp as (_ & ? & ?)|].
    split; [apply cell_table_default|]. intros k'. cbn. destruct (keqb_spec (owner k') (owner k)) as [Eo|]; [|done].
    destruct (bt_get k' done_) eqn:E; [|done]. exfalso. eapply Hp; [|exact Eo]. by rewrite E. }
  destruct (route_one tab k w Ht Hin Hfit) as (tab' & o & Hi & Ht' & Hp').
  { rewrite Hpt, Hkn. by rewrite keqb_refl. }
  rewrite Hi. cbn [mbind outcome_bind]. apply IH; [done|done|]. destruct Hp as [Hps Hp]. split; [by apply bt_insert_sorted|].
  intros bk. rewrite bt_get_insert by done. destruct (keqb_spec bk (owner k)) as [->|Hne].
  - split_and!; [exists k; rewrite Hsn, keqb_refl; split; [by eexists|done]|done|]. intros k'. rewrite Hp', Hpt, Hsn.
    destruct (keqb_spec k' k) as [->|_]; [by rewrite keqb_refl|done].
  - specialize (Hp bk). destruct (bt_get bk parts) as [t|].
    + destruct Hp as ((k0 & Hk0 & Ho) & Hct & Hpos). split_and!; [|done|].
      * exists k0. rewrite Hsn. split; [|done]. destruct (keqb k0 k); [by eexists|done].
      * intros k'. rewrite Hpos, Hsn. destruct (keqb_spec (owner k') bk) as [Eo|]; [|done].
        destruct (keqb_spec k' k) as [->|]; [|done]. by destruct Hne.
    + intros k'. rewrite Hsn. destruct (keqb_spec k' k) as [->|]; [|by apply Hp]. intros _ Ho. by destruct Hne.
Qed.

(** What the shards are to hold: the routed entries over the old shards. *)
Definition promoted_view (entries : list (list Z * WalPosition)) (k : list Z) : option IndexWalPosition :=
  or_else (option_map routed (bt_get k entries)) (first_hit s0 (positions_of_shards all) k).

Definition promoted_in (entries : list (list Z * WalPosition)) (bk k : list Z) : option IndexWalPosition :=
  if keqb (owner k) bk then promoted_view entries k else None.

(** Only the owner of a key holds it. *)
Lemma owner_holds k bk sh :
  In (bk, sh) all -> owner k = bk -> first_hit s0 (positions_of_shards all) k = blob_view s0 (shard_position sh) k.
Proof.
  intros Hin Ho. pose proof Hhold as Hh. unfold shards_hold in Hh. rewrite List.Forall_forall in Hh.
  apply (first_hit_only s0 all (bk, sh)); [done|]. intros [bk' sh'] Hin' Hs.
  pose proof (owner_of_range all fo Hok k (bk', sh') Hin' (proj2 (proj2 (Hh _ Hin')) k Hs)) as Ho'. cbn in Ho'.
  assert (bk' = bk) as -> by congruence. f_equal. eapply sorted_key_inj; [by apply shards_ok_sorted|done|done].
Qed.

Lemma merge_item_ok entries parts bk sh tab :
  routable entries -> bt_sorted entries -> parts_ok entries parts -> bt_get bk parts = Some tab -> In (bk, sh) all ->
  item_ok (fun shard_table dirty_subset => t ← merge_dirty_and_clean shard_table dirty_subset; Ok (t, true))
    all fo s0 x (promoted_in entries) bk sh tab.
Proof.
  intros Hr Hs [_ Hp] Hg Hin t Ht. specialize (Hp bk). rewrite Hg in Hp. destruct Hp as (_ & Htab & Hpos).
  destruct (merge_visible ks U Hu x t tab _ [] Ht Htab) as (t' & es' & Hm & Ht' & Ho & He & Hv).
  exists t', es', true. rewrite Hm. split; [done|]. split; [done|]. intros _. split; [done|].
  assert (forall k, over_view tab k = if keqb (owner k) bk then option_map routed (bt_get k entries) else None) as Hov.
  { intros k. unfold over_view. rewrite Hpos. destruct (keqb (owner k) bk); [|done]. by destruct (bt_get k entries). }
  assert (forall k w, bt_get k entries = Some w -> x <= iwp_offset (routed w)) as Hab.
  { intros k w Hw. apply bt_get_In in Hw; [|done]. unfold routable in Hr. rewrite List.Forall_forall in Hr. by apply (Hr (k, w)). }
  assert (forall k, bt_get k (blob_entries s0 (shard_position sh)) = blob_view s0 (shard_position sh) k) as Hbv by done.
  pose proof Hhold as Hh. unfold shards_hold in Hh. rewrite List.Forall_forall in Hh.
  destruct (Hh _ Hin) as (_ & _ & Hrange). cbn [fst snd] in Hrange.
  split.
  - intros k. rewrite Ho, Hov. destruct (keqb (owner k) bk); [|done]. destruct (bt_get k entries) as [w|] eqn:Ew; [|done].
    cbn. rewrite demote_offset. specialize (Hab k w Ew). lia.
  - intros k. split.
    + rewrite it_view_parts, Ho, Hov, He. destruct (keqb_spec (owner k) bk) as [|Hne]; [done|]. cbn. intros Hk.
      apply (owner_of_range all fo Hok k (bk, sh)); [done|]. by apply Hrange.
    + rewrite Hv. unfold promoted_in, promoted_view. rewrite it_view_parts, Hov. cbn [bt_get].
      destruct (keqb_spec (owner k) bk) as [Eo|Hne].
      * rewrite (owner_holds k bk sh Hin Eo). by destruct (bt_get k entries).
      * cbn. rewrite Hbv. destruct (blob_view s0 (shard_position sh) k) eqn:E; [|done]. exfalso. apply Hne.
        apply (owner_of_range all fo Hok k (bk, sh)); [done|]. apply Hrange. by rewrite E.
Qed.

Lemma rewrite_promoted_ok entries parts :
  routable entries -> bt_sorted entries -> parts_ok entries parts ->
  succeeds (rewrite_shards (fun shard_table dirty_subset => t ← merge_dirty_and_clean shard_table dirty_subset; Ok (t, true))
              ctx all parts) s0
    (fun s' r => store_extends s0 s' /\ good_shards s' r /\
       forall k, visible x (first_hit s' (positions_of_shards r) k) = visible x (promoted_view entries k)).
Proof.
  intros Hr Hs Hp. unfold rewrite_shards. eapply succeeds_mono.
  - apply (rewrite_shards_loop_ok _ ctx Hser Hnc all fo s0 x Hok Hfo Hx Hblobs Hhold (promoted_in entries) all []);
      [done|done| |by split_and!; [|constructor|constructor]|by intros e e' []|done].
    split; [apply Hp|]. intros bk tab Hg. pose proof (proj2 Hp bk) as Hpb. rewrite Hg in Hpb.
    destruct Hpb as ((k & _ & <-) & _). destruct (owner_in all fo Hok Hfo k) as [sh Hin]. exists sh. split; [done|].
    by apply (merge_item_ok entries parts).
  - intros s' r (He & news & -> & Hg & Hv). cbn [app] in *. split; [done|]. split; [done|]. intros k.
    destruct (owner_in all fo Hok Hfo k) as [sh Hin]. rewrite (proj1 (Hv k) sh Hin). unfold expected, promoted_in.
    rewrite keqb_refl. pose proof (proj2 Hp (owner k)) as Hpb. destruct (bt_get (owner k) parts); [done|].
    unfold promoted_view. rewrite (owner_holds k (owner k) sh Hin eq_refl). destruct (bt_get k entries) eqn:E; [|done].
    exfalso. apply (Hpb k); [by rewrite E|done].
Qed.
End promote.
End shards.
