(* ===== verification/FlushCommand.v ===== *)
(** * What a flush command leaves behind

    [handle_command] of [src/tidehunter/src/flusher.rs], from the L0 candidate
    to the new levels: on every branch (a new L0, a promoted or split L1,
    rewritten shards, an empty L0, moved blobs) the new levels hold what a
    reader could see of the candidate over the levels below it. *)

From Stdlib Require Import ZArith Lia List Sorting.Sorted.
From stdpp Require Import base tactics list strings.
From S2P Require Import Prelude BTree Bytes Position Flat FlatFacts IndexTable IndexOps IndexTableFacts.
From S2P Require Import IndexWalk IndexPromote IndexFlush IndexUnmerge IndexCodec IndexClean Levels Loader.
From S2P Require Import Flusher FlusherFacts FlusherShards.

Local Open Scope Z_scope.

Section command.
Context {S : Type} `{Loader S} (ks : option nat) (U : list (list Z)) `{!LoaderSpec S ks U}.
Context (Hu : universe_ok ks U) (ctx : FlushCtx) (Hser : serializes ks U ctx) (Hnc : no_compactor ctx).

(** The WAL floor is not past the tail, and the tail is a WAL offset. *)
Definition wal_bounds_ok (s : S) : Prop :=
  ld_min_wal_position s <= ld_current_wal_position s < 2 ^ 64 /\ 0 <= ld_current_wal_position s.

(** ** Promoting into shards *)

Lemma bt_get_iter t es k :
  it_wf t es -> bt_get k (List.map (fun e => (e.1, into_wal_position e.2)) (combined t es)) = wal_view (it_view t es k).
Proof. intros Hw. rewrite (bt_get_map into_wal_position), bt_get_combined by done. by destruct (it_view t es k). Qed.

Lemma visible_routed x ph p d :
  iwp_fits p -> visible x (or_else (Some (routed ph (into_wal_position p))) d) = visible x (or_else (Some p) d).
Proof.
  intros Hf. cbn [or_else]. unfold routed. rewrite into_wal_valid by done. destruct (is_removed p) eqn:E; cbn [negb].
  - cbn. by rewrite E.
  - unfold is_removed in E. by destruct p as [o l []].
Qed.

Lemma table_routable x t es ph :
  cell_table ks U t es -> table_above x t es -> iwp_fits (iwp_new_removed ph) -> x <= wp_offset ph ->
  routable U x ph (List.map (fun e => (e.1, into_wal_position e.2)) (combined t es)).
Proof.
  intros Ht Ha Hph Hphx. pose proof (ct_wf _ _ _ _ Ht) as Hw. apply List.Forall_forall. intros e He.
  apply in_map_iff in He as ([k p] & <- & He). cbn [fst snd]. apply bt_get_In in He; [|by apply combined_sorted].
  rewrite bt_get_combined in He by done. pose proof (it_view_fits t es k p Hw He) as Hfit.
  assert (x <= iwp_offset p) as Hxp.
  { apply (Ha k). rewrite it_view_parts in He. destruct (over_view t k); cbn in He; auto. }
  split; [apply (ct_keys _ _ _ _ Ht); by rewrite He|]. unfold routed. rewrite into_wal_valid by done.
  destruct (is_removed p) eqn:E; cbn [negb]; [done|]. unfold is_removed in E. by destruct p as [o l []].
Qed.

Lemma write_sharded_promote_ok s x t es shards :
  x = ld_min_wal_position s -> wal_bounds_ok s -> cell_table ks U t es -> table_above x t es ->
  good_shards ks U s shards -> shards <> [] ->
  succeeds (write_sharded_promote ctx t shards) s
    (fun s' l => store_extends s s' /\ levels_ok ks U s' l /\
       forall k, visible x (levels_view s' l k) =
                 visible x (or_else (it_view t es k) (first_hit s (positions_of_shards shards) k))).
Proof.
  intros Hx [Htail Htail0] Ht Ha (Hok & Hblobs & Hhold) Hne. pose proof (ct_wf _ _ _ _ Ht) as Hw.
  unfold write_sharded_promote. apply succeeds_bind, succeeds_asks.
  set (ph := wp_new (Z.max (ld_current_wal_position s) 1) 1).
  assert (iwp_fits (iwp_new_removed ph)) as Hph by (split; [unfold is_u64|]; cbn; lia).
  assert (x <= wp_offset ph) as Hphx by (cbn; lia).
  destruct shards as [|[fo sh0] rest] eqn:Es; [done|]. rewrite <- Es in *.
  assert (option_map fst (head shards) = Some fo) as Hfo by (by rewrite Es).
  apply succeeds_bind. eapply succeeds_lift; [by rewrite Es|]. cbn [fst].
  apply succeeds_bind. eapply succeeds_lift; [by apply (iter_with_tombstones_ok t es)|].
  set (entries := List.map (fun e => (e.1, into_wal_position e.2)) (combined t es)).
  assert (bt_sorted entries) as Hse by (apply (bt_sorted_map (fun e => into_wal_position e.2)); by apply combined_sorted).
  pose proof (table_routable x t es ph Ht Ha Hph Hphx) as Hr. fold entries in Hr.
  destruct (route_entries_ok ks U shards fo x ph entries [] []) as (parts & Hroute & Hparts); [done|done| |].
  { split; [constructor|]. by intros bk k [? ?]. }
  apply succeeds_bind. eapply succeeds_lift; [exact Hroute|]. apply succeeds_bind.
  eapply succeeds_mono; [by apply (rewrite_promoted_ok ks U Hu ctx Hser Hnc shards fo s x Hok Hfo Hx Hblobs Hhold ph entries parts)|].
  intros s' r (He & (Hok' & Hblobs' & Hhold') & Hv).
  assert (forall k, visible x (promoted_view shards s ph entries k) =
            visible x (or_else (it_view t es k) (first_hit s (positions_of_shards shards) k))) as Hpv.
  { intros k. unfold promoted_view, entries. rewrite bt_get_iter by done. destruct (it_view t es k) as [p|] eqn:E; [|done].
    apply visible_routed. by eapply it_view_fits. }
  destruct r as [|e r].
  - apply succeeds_bind. eapply succeeds_mono; [apply (flush_expect_ok ks U s' it_default []), cell_table_default|].
    intros s2 p (He2 & Hval & Hb & Hw2 & _). apply succeeds_ret. split; [by etrans|]. split; [by apply levels_ok_promoted|].
    intros k. rewrite levels_view_promoted, <- Hpv, <- Hv by done. cbn.
    specialize (Hw2 k). by destruct (blob_view s2 p k).
  - apply succeeds_ret. split; [done|]. split; [by apply levels_ok_sharded|]. intros k.
    by rewrite levels_view_sharded, Hv, Hpv.
Qed.

(** ** The shapes of a cell's levels *)

Lemma levels_ok_good s l : levels_ok ks U s l -> good_shards ks U s (lv_shards l).
Proof.
  intros [_ Hb Ho Hh _]. split_and!; [done| |done]. unfold levels_iter, shard_positions in Hb.
  apply Forall_app in Hb as [_ Hb]. exact (proj1 (Forall_map _ _ _) Hb).
Qed.

Lemma levels_get_ok s l i p : levels_ok ks U s l -> levels_get l i = Some p -> blob_ok ks U s p /\ wp_is_valid p = true.
Proof.
  intros [_ Hb _ _ _] Hg. unfold levels_get in Hg. destruct (lv_positions l !! i) as [q|] eqn:E; [|done].
  unfold wp_valid in Hg. case_bool_decide as Hq; [done|]. injection Hg as ->.
  assert (wp_is_valid p = true) as Hv by (by apply wp_is_valid_iff). split; [|done].
  rewrite List.Forall_forall in Hb. apply Hb. unfold levels_iter. apply in_app_iff. left. apply filter_In. split; [|done].
  by apply list_elem_of_lookup_2, list_elem_of_In in E.
Qed.

(** What is below L0, for a reader. *)
Definition below_view (s : S) (l : IndexLevels) (k : list Z) : option IndexWalPosition := opt_view s (below_l0_for l k) k.

Lemma below_view_sharded s l k :
  levels_ok ks U s l -> levels_is_sharded l = true -> below_view s l k = first_hit s (positions_of_shards (lv_shards l)) k.
Proof.
  intros Hl Hs. unfold below_view, below_l0_for. rewrite Hs. destruct (levels_ok_good s l Hl) as (Ho & _ & Hh).
  by apply shard_for_view.
Qed.

Lemma below_view_unsharded s l k : levels_is_sharded l = false -> below_view s l k = opt_view s (levels_l1 l) k.
Proof. intros Hs. unfold below_view, below_l0_for. by rewrite Hs. Qed.

Lemma levels_view_with_l0 s p shards k :
  wp_is_valid p = true -> shards_ok shards -> shards_hold s shards ->
  levels_view s (levels_sharded_with_l0 p shards) k =
  or_else (blob_view s p k) (first_hit s (positions_of_shards shards) k).
Proof.
  intros Hv Ho Hh. unfold levels_view, levels_l0, levels_get, levels_sharded_with_l0. cbn [lv_positions lookup list_lookup].
  rewrite (wp_valid_some p Hv). cbn [opt_view]. f_equal. unfold below_l0_for, levels_is_sharded. cbn [lv_shards].
  destruct shards as [|e shards]; [done|].
  by apply (shard_for_view s (mkLevels [p; WalPosition_INVALID] (e :: shards))).
Qed.

Lemma levels_ok_with_l0 s p shards :
  blob_ok ks U s p -> good_shards ks U s shards -> levels_ok ks U s (levels_sharded_with_l0 p shards).
Proof.
  intros Hb (Ho & Hbs & Hh). split; [cbn; lia| |done|done|done]. unfold levels_iter, shard_positions. cbn.
  replace (wp_is_valid WalPosition_INVALID) with false by done.
  apply Forall_app. split; [destruct (wp_is_valid p); [by constructor|constructor]|]. by apply Forall_map.
Qed.

(** Two slots without shards. *)
Lemma levels_view_pair s p q k :
  wp_is_valid p = true -> levels_view s (mkLevels [p; q] []) k = or_else (blob_view s p k) (opt_view s (wp_valid q) k).
Proof. intros Hv. unfold levels_view, levels_l0, levels_get. cbn. by rewrite (wp_valid_some p Hv). Qed.

Lemma levels_view_single s p k : wp_is_valid p = true -> levels_view s (levels_single p) k = blob_view s p k.
Proof.
  intros Hv. unfold levels_view, levels_l0, levels_get. cbn. rewrite (wp_valid_some p Hv). cbn.
  by destruct (blob_view s p k).
Qed.

Lemma levels_ok_slots s ps :
  (length ps <= 2)%nat -> Forall (fun p => wp_is_valid p = true -> blob_ok ks U s p) ps -> levels_ok ks U s (mkLevels ps []).
Proof.
  intros Hl Hb. split; [done| |done|constructor|done]. unfold levels_iter, shard_positions. cbn. rewrite app_nil_r.
  apply List.Forall_forall. intros p [Hin Hv]%filter_In. rewrite List.Forall_forall in Hb. by apply Hb.
Qed.

Lemma first_hit_fits s ps k p : Forall (blob_ok ks U s) ps -> first_hit s ps k = Some p -> iwp_fits p.
Proof.
  induction 1 as [|q ps Hq Hf IH]; [done|]. cbn. destruct (blob_view s q k) eqn:E; cbn; [|done]. intros [= ->].
  by eapply (blob_view_fits ks U).
Qed.

Lemma below_view_fits s l k p : levels_ok ks U s l -> below_view s l k = Some p -> iwp_fits p.
Proof.
  intros Hl. destruct (levels_is_sharded l) eqn:E.
  - rewrite below_view_sharded by done. apply first_hit_fits. destruct (levels_ok_good s l Hl) as (_ & Hb & _). by apply Forall_map.
  - rewrite below_view_unsharded by done. destruct (levels_l1 l) as [q|] eqn:E1; [|done]. cbn.
    destruct (levels_get_ok s l 1 q Hl E1) as [Hb _]. by apply (blob_view_fits ks U).
Qed.

Lemma levels_view_fits s l k p : levels_ok ks U s l -> levels_view s l k = Some p -> iwp_fits p.
Proof.
  intros Hl. unfold levels_view. fold (below_view s l k). destruct (levels_l0 l) as [q|] eqn:E0; cbn [opt_view].
  - destruct (blob_view s q k) eqn:E; cbn [or_else]; [|by apply below_view_fits].
    intros [= ->]. destruct (levels_get_ok s l 0 q Hl E0) as [Hb _]. by eapply (blob_view_fits ks U).
  - by apply below_view_fits.
Qed.

(** ** Writing the levels *)

(** Post-condition of a flush step: [v] is what readers see of the cell. *)
Definition flushed_to (s : S) (x : Z) (v : list Z -> option IndexWalPosition) (s' : S) (l : IndexLevels) : Prop :=
  store_extends s s' /\ levels_ok ks U s' l /\ forall k, visible x (levels_view s' l k) = visible x (v k).

Lemma load_l1_ok s l (Q : S -> IndexTable -> Prop) :
  levels_ok ks U s l ->
  (forall base bes, cell_blob ks U base bes -> (forall k, bt_get k bes = opt_view s (levels_l1 l) k) -> Q s base) ->
  succeeds (load_l1_or_default (levels_l1 l)) s Q.
Proof.
  intros Hl HQ. unfold load_l1_or_default. destruct (levels_l1 l) as [p|] eqn:E.
  - destruct (levels_get_ok s l 1 p Hl E) as [Hb _]. apply (load_expect_ok ks U); [done|]. intros t Ht. by eapply HQ.
  - apply succeeds_ret. eapply HQ; [apply cell_blob_default|done].
Qed.

Lemma promote_unsharded_ok s x t es l :
  x = ld_min_wal_position s -> cell_table ks U t es -> table_above x t es -> levels_ok ks U s l ->
  succeeds (new_l1 ← load_l1_or_default (levels_l1 l);
            new_l1 ← lift (merge_dirty_and_clean new_l1 t);
            new_l1 ← process_l1_blob ctx new_l1;
            write_promoted_l1 ctx new_l1) s
    (flushed_to s x (fun k => or_else (it_view t es k) (opt_view s (levels_l1 l) k))).
Proof.
  intros Hx Ht Ha Hl. apply succeeds_bind, load_l1_ok; [done|]. intros base bes Hb Hbes.
  destruct (merge_visible ks U Hu x base t bes es Hb Ht) as (t1 & es1 & Hm & Ht1 & Ho & He & Hv).
  apply succeeds_bind. eapply succeeds_lift; [exact Hm|]. apply succeeds_bind.
  eapply succeeds_mono; [apply (process_l1_blob_ok ks U ctx s t1 es1 x Hnc Hx Ht1)|].
  { by apply (merged_floor_closed ks U x base t bes es). }
  intros s1 t2 (-> & es2 & Ht2 & Hv2).
  eapply succeeds_mono; [apply (write_promoted_l1_ok ks U ctx s t2 es2 Hser Ht2); intros k; apply Hv2|].
  intros s' l' (Hext & Hl' & Hview). split; [done|]. split; [done|]. intros k.
  destruct (Hv2 k) as [Hvis _]. rewrite <- Hbes, <- Hv, <- Hvis.
  rewrite (visible_of_wal x (levels_view s' l' k)), Hview, <- visible_of_wal; [done| |].
  - intros p Hp. by eapply (it_view_fits t2 es2); [apply Ht2|].
  - intros p. by apply levels_view_fits.
Qed.

Lemma good_shards_move s s' shards : store_extends s s' -> good_shards ks U s shards -> good_shards ks U s' shards.
Proof. apply good_shards_extends. Qed.

Lemma first_hit_move s s' shards k :
  store_extends s s' -> good_shards ks U s shards ->
  first_hit s' (positions_of_shards shards) k = first_hit s (positions_of_shards shards) k.
Proof. intros He (_ & Hb & _). apply (first_hit_extends ks U); [done|]. by apply Forall_map. Qed.

(** A new L0 blob over what is there. *)
Lemma write_l0_ok s x t es l :
  cell_table ks U t es -> levels_ok ks U s l ->
  succeeds (new_l0_pos ← flush_expect t "Failed to flush index";
            if levels_is_sharded l then mret (levels_sharded_with_l0 new_l0_pos (lv_shards l))
            else match levels_l1 l with
                 | Some l1 => lift (levels_set (levels_single new_l0_pos) 1 l1)
                 | None => mret (levels_single new_l0_pos)
                 end) s
    (flushed_to s x (fun k => or_else (it_view t es k) (below_view s l k))).
Proof.
  intros Ht Hl. apply succeeds_bind. eapply succeeds_mono; [by apply (flush_expect_ok ks U)|].
  intros s' p Hwr. pose proof Hwr as (He & Hv & Hb & Hw & Hsome).
  assert (forall k d, visible x (or_else (blob_view s' p k) d) = visible x (or_else (it_view t es k) d)) as Hvis.
  { intros k d. pose proof (written_visible ks U x s s' p t es k Ht Hwr) as E. specialize (Hsome k).
    destruct (blob_view s' p k), (it_view t es k); cbn [or_else]; [done| | |done].
    - by destruct (proj1 Hsome ltac:(by eexists)).
    - by destruct (proj2 Hsome ltac:(by eexists)). }
  destruct (levels_is_sharded l) eqn:Es.
  - pose proof (levels_ok_good s l Hl) as Hg. pose proof (good_shards_move s s' _ He Hg) as Hg'.
    apply succeeds_ret. split; [done|]. split; [by apply levels_ok_with_l0|]. intros k. destruct Hg' as (Ho' & _ & Hh').
    rewrite levels_view_with_l0, first_hit_move with (s := s), Hvis, below_view_sharded by done. done.
  - destruct (levels_l1 l) as [l1|] eqn:E1.
    + destruct (levels_get_ok s l 1 l1 Hl E1) as [Hb1 Hv1]. apply (succeeds_lift _ (mkLevels [p; l1] [])); [done|].
      split; [done|]. split; [apply levels_ok_slots; [cbn; lia|]; constructor; [done|]; constructor; [|constructor]; intros _; by eapply blob_ok_extends|].
      intros k. rewrite levels_view_pair, (wp_valid_some l1 Hv1), Hvis, below_view_unsharded, E1 by done. cbn [opt_view].
      by rewrite (blob_view_extends ks U s s').
    + apply succeeds_ret. split; [done|]. split; [apply levels_ok_slots; [cbn; lia|]; by constructor|].
      intros k. rewrite levels_view_single, below_view_unsharded, E1 by done. cbn [opt_view].
      specialize (Hvis k None). by destruct (blob_view s' p k).
Qed.

Lemma write_levels_ok s x is_relocation t es l :
  x = ld_min_wal_position s -> wal_bounds_ok s -> cell_table ks U t es -> table_above x t es -> levels_ok ks U s l ->
  succeeds (write_levels ctx is_relocation t l) s
    (flushed_to s x (fun k => or_else (it_view t es k) (below_view s l k))).
Proof.
  intros Hx Hwb Ht Ha Hl. unfold write_levels.
  destruct (negb is_relocation && (fc_l0_max_entries ctx <? it_len t)%nat).
  { destruct (levels_is_sharded l) eqn:Es.
    - eapply succeeds_mono; [apply (write_sharded_promote_ok s x t es (lv_shards l)); [done|done|done|done|by apply levels_ok_good|]|].
      { intros E. unfold levels_is_sharded in Es. by rewrite E in Es. }
      intros s' l' (He & Hl' & Hv). split; [done|]. split; [done|]. intros k. by rewrite Hv, below_view_sharded.
    - eapply succeeds_mono; [by apply promote_unsharded_ok|]. intros s' l' (He & Hl' & Hv). split; [done|]. split; [done|].
      intros k. by rewrite Hv, below_view_unsharded. }
  destruct (it_is_empty t && _) eqn:Ee.
  { apply andb_true_iff in Ee as [Ee Hd]. pose proof (it_is_empty_view t es (ct_wf _ _ _ _ Ht) Ee) as Hnone.
    destruct (levels_is_sharded l) eqn:Es.
    - destruct (levels_ok_good s l Hl) as (Ho & Hb & Hh). apply succeeds_ret. split; [done|].
      split; [by apply levels_ok_sharded|]. intros k. rewrite levels_view_sharded, Hnone, below_view_sharded by done. done.
    - destruct (levels_l1 l) as [l1|] eqn:E1; [|done]. destruct (levels_get_ok s l 1 l1 Hl E1) as [Hb1 Hv1].
      apply succeeds_bind. eapply succeeds_lift; [done|]. apply succeeds_ret. split; [done|].
      split; [by apply levels_ok_promoted|]. intros k. rewrite levels_view_promoted, Hnone, below_view_unsharded, E1 by done. done. }
  apply succeeds_bind. eapply succeeds_lift; [unfold run_compactor; by rewrite Hnc|].
  destruct (match levels_l1 l with Some _ => true | None => false end || levels_is_sharded l) eqn:Ed; cbn [negb].
  - apply succeeds_bind, succeeds_ret. by apply write_l0_ok.
  - destruct (clean_self_cell ks U t es Ht) as (t' & es' & Hc & Ht' & Hv). apply succeeds_bind.
    eapply succeeds_lift; [exact Hc|]. eapply succeeds_mono; [by apply (write_l0_ok s x t' es' l)|].
    intros s' l' (He & Hl' & Hview). split; [done|]. split; [done|]. intros k. rewrite Hview, Hv.
    assert (below_view s l k = None) as ->.
    { apply orb_false_iff in Ed as [E1 Es]. rewrite below_view_unsharded by done. by destruct (levels_l1 l). }
    assert (forall o : option IndexWalPosition, or_else o None = o) as Hor by (by intros []). by rewrite !Hor, visible_clean.
Qed.

(** ** Moving blobs *)

(** The blob at [q] in [s'] is a copy of the one at [p] in [s]. *)
Definition blob_copy (s : S) (p : WalPosition) (s' : S) (q : WalPosition) : Prop :=
  wp_is_valid q = true /\ blob_ok ks U s' q /\ forall k, wal_view (blob_view s' q k) = wal_view (blob_view s p k).

Lemma blob_copy_same s s' p : store_extends s s' -> blob_ok ks U s p -> wp_is_valid p = true -> blob_copy s p s' p.
Proof. intros He Hb Hv. split; [done|]. split; [by eapply blob_ok_extends|]. intros k. by rewrite (blob_view_extends ks U s s'). Qed.

Lemma blob_copy_extends s p s' s'' q : store_extends s' s'' -> blob_copy s p s' q -> blob_copy s p s'' q.
Proof.
  intros He (Hv & Hb & Hw). split; [done|]. split; [by eapply blob_ok_extends|]. intros k.
  by rewrite (blob_view_extends ks U s' s'').
Qed.

Lemma reflush_blob_ok s p : blob_ok ks U s p -> succeeds (reflush_blob_at p) s (fun s' q => store_extends s s' /\ blob_copy s p s' q).
Proof.
  intros Hb. unfold reflush_blob_at. apply succeeds_bind. apply (load_expect_ok ks U); [done|]. intros t Ht.
  eapply succeeds_mono; [apply (flush_expect_ok ks U), Ht|]. intros s' q (He & Hv & Hb' & Hw & _). split; [done|].
  split; [done|]. split; [done|]. intros k. by rewrite Hw, (cell_blob_view ks U t _ k Ht).
Qed.

(** A slot after the pass. *)
Definition slot_copy (s : S) (o : option WalPosition) (s' : S) (o' : option WalPosition) : Prop :=
  match o, o' with Some p, Some q => blob_copy s p s' q | None, None => True | _, _ => False end.

Lemma slot_copy_extends s o s' s'' o' : store_extends s' s'' -> slot_copy s o s' o' -> slot_copy s o s'' o'.
Proof. intros He. destruct o, o'; [by apply blob_copy_extends|done..]. Qed.

Lemma relocate_slot_ok s s1 rp slot :
  store_extends s s1 -> (forall p, slot = Some p -> blob_ok ks U s p /\ wp_is_valid p = true) ->
  succeeds (relocate_slot rp slot) s1 (fun s' slot' => store_extends s1 s' /\ slot_copy s slot s' slot').
Proof.
  intros He Hs. unfold relocate_slot. destruct slot as [p|]; [|by apply succeeds_ret].
  destruct (Hs p eq_refl) as [Hb Hv]. pose proof (blob_ok_extends ks U s s1 p He Hb) as Hb1.
  destruct (positions_contain p rp); [|apply succeeds_ret; split; [done|by apply blob_copy_same]].
  apply succeeds_bind. eapply succeeds_mono; [by apply reflush_blob_ok|]. intros s' q (He' & Hv' & Hb' & Hw). apply succeeds_ret.
  split; [done|]. split; [done|]. split; [done|]. intros k. by rewrite Hw, (blob_view_extends ks U s s1).
Qed.

(** A shard after the pass: same range, a copy of its blob. *)
Definition shard_copy (s s' : S) (e e' : list Z * IndexShard) : Prop :=
  e'.1 = e.1 /\ shard_max_key e'.2 = shard_max_key e.2 /\ blob_copy s (shard_position e.2) s' (shard_position e'.2).

Lemma shard_copies_good s s' l l' :
  good_shards ks U s l -> Forall2 (shard_copy s s') l l' ->
  good_shards ks U s' l' /\
  forall k, wal_view (first_hit s' (positions_of_shards l') k) = wal_view (first_hit s (positions_of_shards l) k).
Proof.
  intros (Ho & Hb & Hh) Hc. induction Hc as [|[k0 sh] [k0' sh'] l l' (Ek & Em & Hv & Hb' & Hw) Hc IH].
  { split; [|done]. split_and!; [done|constructor|constructor]. }
  cbn [fst snd] in *. subst k0'. destruct Ho as (Hle & _ & Hf & Ho). apply Forall_cons in Hb as [Hb0 Hb].
  apply Forall_cons in Hh as [(H1 & H2 & H3) Hh]. destruct (IH Ho Hb Hh) as [(Ho' & Hbs' & Hh') Hfh].
  assert (forall k, is_Some (blob_view s' (shard_position sh') k) <-> is_Some (blob_view s (shard_position sh) k)) as Hi.
  { intros k. rewrite <- !is_Some_wal_view. by rewrite Hw. }
  split.
  - split_and!; [|by constructor|].
    + cbn. rewrite Em. split_and!; [done|done| |done]. clear -Hf Hc.
      induction Hc as [|e e' l l' (Ek & _) Hc IH]; [constructor|]. apply Forall_cons in Hf as [He Hf].
      constructor; [by rewrite Ek|by apply IH].
    + constructor; [|done]. cbn [fst snd] in *. rewrite Em, !Hi. split_and!; [done|done|]. intros k Hk%Hi%H3.
      destruct Hk. split; [done|]. cbn in *. by rewrite Em.
  - intros k. cbn. by rewrite !wal_view_or_else, Hw, Hfh.
Qed.

Lemma relocate_shards_ok s s1 rp shards target :
  store_extends s s1 -> good_shards ks U s shards -> Forall (fun e => forall e', In e' shards -> klt e.1 e'.1) target ->
  succeeds (relocate_shards rp shards target) s1
    (fun s' r => store_extends s1 s' /\ exists l', r = target ++ l' /\ Forall2 (shard_copy s s') shards l').
Proof.
  revert s1 target. induction shards as [|[bk sh] rest IH]; intros s1 target He (Ho & Hb & Hh) Ht.
  { apply succeeds_ret. split; [done|]. exists []. by rewrite app_nil_r. }
  pose proof (shards_ok_sorted _ Ho) as [_ Hlt]%bt_sorted_cons. rewrite List.Forall_forall in Hlt.
  destruct Ho as (_ & Hv & _ & Ho). apply Forall_cons in Hb as [Hb0 Hb]. apply Forall_cons in Hh as [_ Hh]. cbn [fst snd] in *.
  cbn [relocate_shards]. apply succeeds_bind. eapply succeeds_mono.
  { instantiate (1 := fun s' q => store_extends s1 s' /\ blob_copy s (shard_position sh) s' q).
    destruct (positions_contain (shard_position sh) rp); [|apply succeeds_ret; split; [done|by apply blob_copy_same]].
    eapply succeeds_mono; [apply reflush_blob_ok; by eapply blob_ok_extends|]. intros s' q (He' & Hv' & Hb' & Hw).
    split; [done|]. split; [done|]. split; [done|]. intros k. by rewrite Hw, (blob_view_extends ks U s s1). }
  intros s2 q (He2 & Hc). rewrite bt_insert_snoc.
  2:{ eapply Forall_impl; [exact Ht|]. intros e He'. apply (He' (bk, sh)). by left. }
  eapply succeeds_mono; [apply IH; [by etrans|by split_and!|]|].
  - apply Forall_app. split; [eapply Forall_impl; [exact Ht|]; intros e He' e' Hin; apply He'; by right|].
    constructor; [|constructor]. intros e' Hin. by apply Hlt.
  - intros s3 r (He3 & l' & -> & Hf). split; [by etrans|]. exists ((bk, mkShard q (shard_max_key sh)) :: l').
    rewrite <- app_assoc. split; [done|]. constructor; [|done]. split; [done|]. split; [done|]. by eapply blob_copy_extends.
Qed.

Lemma opt_view_copy s o s' o' k :
  slot_copy s o s' o' -> wal_view (opt_view s' o' k) = wal_view (opt_view s o k).
Proof. destruct o, o'; try done. intros (_ & _ & Hw). apply Hw. Qed.

Lemma slot_copy_blob s o s' q : slot_copy s o s' (Some q) -> blob_ok ks U s' q /\ wp_is_valid q = true.
Proof. destruct o; [|done]. by intros (? & ? & _). Qed.

Lemma levels_view_wal s s' l l' x :
  levels_ok ks U s l -> levels_ok ks U s' l' -> store_extends s s' ->
  (forall k, wal_view (levels_view s' l' k) = wal_view (levels_view s l k)) -> flushed_to s x (levels_view s l) s' l'.
Proof.
  intros Hl Hl' He Hw. split; [done|]. split; [done|]. intros k.
  rewrite (visible_of_wal x (levels_view s' l' k)), Hw, <- visible_of_wal; [done| |]; intros p; by apply levels_view_fits.
Qed.

(** The unsharded shapes the pass writes. *)
Lemma relocated_slots_ok s s' l o0 o1 :
  levels_ok ks U s l -> levels_is_sharded l = false ->
  slot_copy s (levels_l0 l) s' o0 -> slot_copy s (levels_l1 l) s' o1 ->
  exists l', match o0, o1 with
             | None, None => Ok levels_new
             | Some l0, None => Ok (levels_single l0)
             | None, Some l1 => Ok (levels_promoted l1)
             | Some l0, Some l1 => levels_set (levels_single l0) 1 l1
             end = Ok l' /\ levels_ok ks U s' l' /\
    forall k, wal_view (levels_view s' l' k) = wal_view (levels_view s l k).
Proof.
  intros Hl Hs H0 H1.
  assert (forall k, wal_view (levels_view s l k) = or_else (wal_view (opt_view s' o0 k)) (wal_view (opt_view s' o1 k))) as Hw.
  { intros k. unfold levels_view, below_l0_for. rewrite Hs, wal_view_or_else.
    by rewrite (opt_view_copy s _ s' o0 k H0), (opt_view_copy s _ s' o1 k H1). }
  destruct o0 as [p|]; [destruct (slot_copy_blob _ _ _ _ H0) as [Hb0 Hv0]|];
    (destruct o1 as [q|]; [destruct (slot_copy_blob _ _ _ _ H1) as [Hb1 Hv1]|]); eexists; (split; [done|]); (split; [|intros k; rewrite Hw]).
  - apply (levels_ok_slots s' [p; q]); [cbn; lia|]. constructor; [done|by constructor].
  - replace (mkLevels _ _) with (mkLevels [p; q] []) by done. rewrite levels_view_pair, (wp_valid_some q Hv1) by done.
    by rewrite wal_view_or_else.
  - apply (levels_ok_slots s' [p]); [cbn; lia|]. by constructor.
  - rewrite levels_view_single by done. cbn [opt_view wal_view]. by destruct (blob_view s' p k).
  - by apply levels_ok_promoted.
  - by rewrite levels_view_promoted.
  - apply (levels_ok_slots s' []); [cbn; lia|constructor].
  - done.
Qed.

Lemma relocate_in_levels_ok s x l rp :
  levels_ok ks U s l -> succeeds (relocate_in_levels l rp) s (flushed_to s x (levels_view s l)).
Proof.
  intros Hl. unfold relocate_in_levels. destruct rp as [|p0 rp']; [by apply succeeds_ret|]. set (rp := p0 :: rp').
  apply succeeds_bind. eapply succeeds_mono; [apply (relocate_slot_ok s s rp (levels_l0 l)); [done|intros p; by apply levels_get_ok]|].
  intros s1 o0 (He1 & H0). destruct (levels_is_sharded l) eqn:Es.
  - pose proof (levels_ok_good s l Hl) as Hg. apply succeeds_bind.
    eapply succeeds_mono; [by apply (relocate_shards_ok s s1 rp (lv_shards l) [])|].
    intros s2 r (He2 & l' & -> & Hc). cbn [app]. destruct (shard_copies_good s s2 _ _ Hg Hc) as [Hg' Hfh].
    pose proof (slot_copy_extends _ _ _ _ _ He2 H0) as H0'. apply succeeds_ret. pose proof Hg' as (Ho' & Hb' & Hh').
    assert (forall k, wal_view (levels_view s l k) = or_else (wal_view (opt_view s2 o0 k)) (wal_view (first_hit s2 (positions_of_shards l') k))) as Hw.
    { intros k. unfold levels_view. fold (below_view s l k). rewrite wal_view_or_else, below_view_sharded by done.
      by rewrite Hfh, (opt_view_copy s _ s2 o0 k H0'). }
    assert (store_extends s s2) by (by etrans).
    destruct o0 as [q|].
    + destruct (slot_copy_blob _ _ _ _ H0') as [Hbq Hvq]. apply levels_view_wal; [done|by apply levels_ok_with_l0|done|].
      intros k. by rewrite Hw, levels_view_with_l0, wal_view_or_else.
    + apply levels_view_wal; [done|by apply levels_ok_sharded|done|]. intros k. by rewrite Hw, levels_view_sharded.
  - apply succeeds_bind. eapply succeeds_mono; [apply (relocate_slot_ok s s1 rp (levels_l1 l)); [done|intros p; by apply levels_get_ok]|].
    intros s2 o1 (He2 & H1). pose proof (slot_copy_extends _ _ _ _ _ He2 H0) as H0'.
    destruct (relocated_slots_ok s s2 l o0 o1 Hl Es H0' H1) as (l' & Hm & Hl' & Hw).
    assert (flushed_to s x (levels_view s l) s2 l') as Hpost by (apply levels_view_wal; [done|done|by etrans|done]).
    destruct o0, o1; (injection Hm as <-; by apply succeeds_ret).
Qed.

(** ** The command *)

Lemma flushed_to_trans s x v s' l s'' l' :
  flushed_to s x v s' l -> flushed_to s' x (levels_view s' l) s'' l' -> flushed_to s x v s'' l'.
Proof.
  intros (He & _ & Hv) (He' & Hl' & Hv'). split; [by etrans|]. split; [done|]. intros k. by rewrite Hv', Hv.
Qed.

(** The floor filter on a candidate, seen over the levels below. *)
Lemma filtered_candidate x t es t' es' k d :
  (forall k, over_view t' k = at_or_above x (over_view t k) /\ bt_get k es' = at_or_above x (bt_get k es)) ->
  floor_closed x (over_view t k) (or_else (bt_get k es) d) -> floor_closed x (bt_get k es) d ->
  visible x (or_else (it_view t' es' k) d) = visible x (or_else (it_view t es k) d).
Proof.
  intros Hf Ha Hb. rewrite !it_view_parts. destruct (Hf k) as [-> ->].
  assert (forall a b : option IndexWalPosition, or_else (or_else a b) d = or_else a (or_else b d)) as Hassoc by (by intros []).
  rewrite !Hassoc, (visible_or_else x _ _ (or_else (bt_get k es) d)) by (by apply visible_filtered). by apply visible_filtered.
Qed.

(** A candidate with nothing below the floor is written over the levels below. *)
Lemma write_candidate_ok s x kind original t es l :
  x = ld_min_wal_position s -> wal_bounds_ok s -> cell_table ks U t es -> levels_ok ks U s l -> table_above x t es ->
  succeeds (finish_flush ctx kind original t l) s
    (fun s' r => exists l', r = Some (original, l') /\
       flushed_to s x (fun k => or_else (it_view t es k) (below_view s l k)) s' l').
Proof.
  intros Hx Hwb Ht Hl Ha. unfold finish_flush. apply succeeds_bind.
  eapply succeeds_mono; [by apply (write_levels_ok s x (is_force_relocate kind) t es l)|]. intros s1 l1 Hf1.
  apply succeeds_bind. destruct kind as [dirty cl loaded rp|lv rp].
  - eapply succeeds_mono; [apply (relocate_in_levels_ok s1 x), Hf1|]. intros s2 l2 Hf2. apply succeeds_ret. exists l2.
    split; [done|]. by eapply flushed_to_trans.
  - apply succeeds_ret, succeeds_ret. by exists l1.
Qed.

Lemma finish_flush_ok s x kind original t es l :
  x = ld_min_wal_position s -> wal_bounds_ok s -> cell_table ks U t es -> levels_ok ks U s l ->
  (forall k, floor_closed x (over_view t k) (or_else (bt_get k es) (below_view s l k)) /\
             floor_closed x (bt_get k es) (below_view s l k)) ->
  succeeds (floor ← asks ld_min_wal_position;
            merged_l0 ← lift (retain_above_position t floor);
            finish_flush ctx kind original merged_l0 l) s
    (fun s' r => exists l', r = Some (original, l') /\
       flushed_to s x (fun k => or_else (it_view t es k) (below_view s l k)) s' l').
Proof.
  intros Hx Hwb Ht Hl Hc. apply succeeds_bind, succeeds_asks. rewrite <- Hx.
  destruct (retain_above_cell ks U t es x Ht) as (t' & es' & Hr & Ht' & Hf). apply succeeds_bind.
  eapply succeeds_lift; [exact Hr|]. eapply succeeds_mono; [apply (write_candidate_ok s x kind original t' es' l); try done; by eapply retain_above_table_above|].
  intros s1 r (l1 & -> & He & Hl1 & Hv). exists l1. split; [done|]. split; [done|]. split; [done|]. intros k. rewrite Hv.
  apply (filtered_candidate x t es t' es'); [done|apply Hc|apply Hc].
Qed.

(** What the flush folds the dirty table over: nothing when it already holds
    L0, L0 otherwise. *)
Definition flush_base (s : S) (l : IndexLevels) (loaded : bool) (k : list Z) : option IndexWalPosition :=
  if loaded then None else opt_view s (levels_l0 l) k.

(** No entry below the floor hides a visible one, among the newest flushed
    write, the flat entry, the L0 entry and what is below. *)
Definition flush_closed (s : S) (x : Z) (d : IndexTable) (des : list entry) (l : IndexLevels) (loaded : bool) : Prop :=
  forall k,
    let flat := or_else (bt_get k des) (flush_base s l loaded k) in
    floor_closed x (last (processed_of (ld_last_processed s) (positions_of (it_data d) k))) (or_else flat (below_view s l k)) /\
    floor_closed x flat (below_view s l k).

Lemma candidate_ok s sh des l loaded rp :
  cell_table ks U (sh_table sh) des -> levels_ok ks U s l ->
  succeeds (merge_candidate_l0 (Flush sh l loaded rp)) s
    (fun s' r => s' = s /\ exists t es, r = (sh, t, l) /\ cell_table ks U t es /\ exists b,
       (forall k, positions_of (it_data t) k = List.map (demote b) (positions_of (it_data (sh_table sh)) k)) /\
       forall k, bt_get k es = or_else (option_map (demote b) (bt_get k des)) (flush_base s l loaded k)).
Proof.
  intros Hd Hl. unfold merge_candidate_l0. apply succeeds_bind. destruct loaded.
  - apply succeeds_ret, succeeds_ret. split; [done|]. exists (sh_table sh), des. do 2 (split; [done|]). exists false.
    assert (forall p, demote false p = p) as Hid by done. split; intros k.
    + symmetry. erewrite map_ext; [apply map_id|done].
    + cbn. by destruct (bt_get k des).
  - apply succeeds_bind. destruct (levels_l0 l) as [p|] eqn:E0.
    + destruct (levels_get_ok s l 0 p Hl E0) as [Hb _]. apply (load_expect_ok ks U); [done|]. intros base Hbase.
      destruct (merge_cell ks U base (sh_table sh) _ des Hu Hbase Hd) as (t & es & Hm & Ht & Hg & Hp).
      eapply succeeds_lift; [exact Hm|]. apply succeeds_ret. split; [done|]. exists t, es. do 2 (split; [done|]).
      exists true. split; [done|]. intros k. rewrite Hg. cbn. by rewrite E0.
    + apply succeeds_ret. destruct (merge_cell ks U it_default (sh_table sh) [] des Hu (cell_blob_default ks U) Hd)
        as (t & es & Hm & Ht & Hg & Hp).
      eapply succeeds_lift; [exact Hm|]. apply succeeds_ret. split; [done|]. exists t, es. do 2 (split; [done|]).
      exists true. split; [done|]. intros k. rewrite Hg. cbn. by rewrite E0.
Qed.

Lemma floor_closed_demote b x o d d' :
  visible x d = visible x d' -> floor_closed x o d -> floor_closed x (option_map (demote b) o) d'.
Proof. intros E. destruct o as [p|]; [|done]. cbn. by rewrite demote_offset, <- E. Qed.

Lemma visible_demote_or b x o d : visible x (or_else (option_map (demote b) o) d) = visible x (or_else o d).
Proof. destruct o as [p|]; [|done]. cbn [option_map or_else]. apply (visible_demote b x (Some p)). Qed.

Lemma or_else_assoc (a b c : option IndexWalPosition) : or_else (or_else a b) c = or_else a (or_else b c).
Proof. by destruct a. Qed.

Lemma demote_or_closed b x f c d :
  floor_closed x (or_else f c) d -> floor_closed x (or_else (option_map (demote b) f) c) d.
Proof. destruct f as [p|]; [|done]. cbn [or_else option_map]. by apply (floor_closed_demote b x (Some p) d d). Qed.

(** What a flush at the loader's frontier keeps of a cell. *)
Definition flush_content (s : S) (d : IndexTable) (des : list entry) (l : IndexLevels) (loaded : bool) (k : list Z) :
    option IndexWalPosition :=
  or_else (it_view_at d des k (ld_last_processed s)) (or_else (flush_base s l loaded k) (below_view s l k)).

(** The newest flushed write of a key. *)
Definition flushed_write (s : S) (d : IndexTable) (k : list Z) : option IndexWalPosition :=
  last (processed_of (ld_last_processed s) (positions_of (it_data d) k)).

(** The L0 candidate, once the writes past the frontier are left out. *)
Record candidate (s : S) (d : IndexTable) (des : list entry) (l : IndexLevels) (loaded : bool) (t : IndexTable) (es : list entry) : Prop := mkCandidate {
  ca_table : cell_table ks U t es;
  ca_content : exists b, (forall k, over_view t k = option_map (demote b) (flushed_write s d k)) /\
    forall k, bt_get k es = or_else (option_map (demote b) (bt_get k des)) (flush_base s l loaded k);
}.

Lemma prepared_ok {A} s sh des l loaded rp (K : SharedTable -> IndexTable -> IndexLevels -> LM S A) (Q : S -> A -> Prop) :
  cell_table ks U (sh_table sh) des -> levels_ok ks U s l ->
  (forall t es, candidate s (sh_table sh) des l loaded t es -> succeeds (K sh t l) s Q) ->
  succeeds ('(original, merged_l0, levels) ← merge_candidate_l0 (Flush sh l loaded rp);
            last_processed ← asks ld_last_processed;
            merged_l0 ← lift (retain_processed merged_l0 last_processed);
            K original merged_l0 levels) s Q.
Proof.
  intros Hd Hl HK. apply succeeds_bind. eapply succeeds_mono; [by apply (candidate_ok s sh des l loaded rp)|].
  intros s1 r (-> & t & es & -> & Ht & b & Hp & Hg). apply succeeds_bind, succeeds_asks.
  destruct (retain_processed_cell ks U t es (ld_last_processed s) Ht) as (t1 & Hr & Ht1 & Ho).
  apply succeeds_bind. eapply succeeds_lift; [exact Hr|]. apply (HK t1 es). split; [done|]. exists b. split; [|done].
  intros k. by rewrite Ho, Hp, demote_processed, demote_last.
Qed.

(** It holds what the flush keeps, written through. *)
Lemma candidate_content s d des l loaded t es k : candidate s d des l loaded t es ->
  option_map (demote true) (or_else (over_view t k) (or_else (bt_get k es) (below_view s l k))) = option_map (demote true) (flush_content s d des l loaded k).
Proof.
  intros [_ (b & Ho & Hg)]. unfold flush_content, it_view_at. fold (flushed_write s d k). rewrite Ho, Hg.
  assert (forall p, demote true (demote b p) = demote true p) as Hdd by (intros [o n []]; by destruct b).
  destruct (flushed_write s d k) as [p|]; cbn; [by rewrite Hdd|]. destruct (bt_get k des) as [p|]; cbn; [by rewrite Hdd|done].
Qed.

Lemma candidate_closed s x d des l loaded t es k : candidate s d des l loaded t es -> flush_closed s x d des l loaded ->
  floor_closed x (over_view t k) (or_else (bt_get k es) (below_view s l k)) /\ floor_closed x (bt_get k es) (below_view s l k).
Proof.
  intros [_ (b & Ho & Hg)] Hc. destruct (Hc k) as [H1 H2]. cbv zeta in H1, H2. rewrite Ho, Hg. split.
  - eapply floor_closed_demote; [|exact H1]. rewrite !or_else_assoc. symmetry. apply visible_demote_or.
  - by apply demote_or_closed.
Qed.

Lemma visible_demoted x o o' : option_map (demote true) o = option_map (demote true) o' -> visible x o = visible x o'.
Proof. intros E. by rewrite <- (visible_demote true x o), E, visible_demote. Qed.

Lemma flush_merge_ok s x sh des l loaded rp :
  x = ld_min_wal_position s -> wal_bounds_ok s -> cell_table ks U (sh_table sh) des -> levels_ok ks U s l ->
  flush_closed s x (sh_table sh) des l loaded ->
  succeeds (handle_merge ctx (Flush sh l loaded rp) RelocationNone) s
    (fun s' r => exists l', r = Some (sh, l') /\ flushed_to s x (flush_content s (sh_table sh) des l loaded) s' l').
Proof.
  intros Hx Hwb Hd Hl Hc. unfold handle_merge. apply (prepared_ok s sh des); [done|done|]. intros t es Hca.
  cbn [apply_relocation]. apply succeeds_bind, succeeds_ret.
  eapply succeeds_mono; [apply (finish_flush_ok s x _ sh t es l); [done|done|apply Hca|done|intros k; by eapply candidate_closed]|].
  intros s' r (l' & -> & He & Hl' & Hv). exists l'. split; [done|]. split; [done|]. split; [done|]. intros k. rewrite Hv.
  apply visible_demoted. rewrite it_view_parts, or_else_assoc. by apply candidate_content.
Qed.

(** ** Forced relocation *)

Lemma relocate_candidate_ok s l rp :
  levels_ok ks U s l -> levels_is_sharded l = false ->
  succeeds (merge_candidate_l0 (ForceRelocate l rp)) s
    (fun s' r => s' = s /\ exists t es, r = (mkShared 0 t, t, levels_new) /\ cell_table ks U t es /\
       (forall k, positions_of (it_data t) k = []) /\
       forall x k, visible x (bt_get k es) = visible x (levels_view s l k)).
Proof.
  intros Hl Hsh. unfold merge_candidate_l0. apply succeeds_bind. apply (load_l1_ok s l); [done|]. intros base bes Hbase Hbes.
  assert (forall k, levels_view s l k = or_else (opt_view s (levels_l0 l) k) (bt_get k bes)) as Hview.
  { intros k. unfold levels_view. fold (below_view s l k). by rewrite below_view_unsharded, Hbes. }
  apply succeeds_bind. destruct (levels_l0 l) as [p|] eqn:E0.
  - destruct (levels_get_ok s l 0 p Hl E0) as [Hb _]. apply succeeds_bind. apply (load_expect_ok ks U); [done|]. intros l0 Hl0.
    destruct (merge_cell ks U base l0 bes _ Hu Hbase (cb_table _ _ _ _ Hl0)) as (t & es & Hm & Ht & Hg & Hp).
    eapply succeeds_lift; [exact Hm|]. apply succeeds_ret. split; [done|]. exists t, es. do 2 (split; [done|]). split.
    + intros k. rewrite Hp, (cb_data _ _ _ _ Hl0). done.
    + intros x k. rewrite Hg, visible_demote_or, Hview. done.
  - apply succeeds_ret, succeeds_ret. split; [done|]. exists base, bes. split; [done|]. split; [by apply Hbase|]. split.
    + intros k. by rewrite (cb_data _ _ _ _ Hbase).
    + intros x k. by rewrite Hview.
Qed.

Lemma force_relocate_ok s x l rp :
  x = ld_min_wal_position s -> wal_bounds_ok s -> levels_ok ks U s l ->
  succeeds (handle_command ctx (ForceRelocate l rp) RelocationNone) s
    (fun s' r => exists sh l', r = Some (sh, l') /\ flushed_to s x (levels_view s l) s' l').
Proof.
  intros Hx Hwb Hl. unfold handle_command. destruct (levels_is_sharded l) eqn:Hsh.
  - apply succeeds_bind. eapply succeeds_mono; [by apply (relocate_in_levels_ok s x l rp)|]. intros s' l' Hf.
    apply succeeds_ret. by eexists _, l'.
  - unfold handle_merge. apply succeeds_bind. eapply succeeds_mono; [by apply (relocate_candidate_ok s l rp)|].
    intros s1 r (-> & t & es & -> & Ht & Hp & Hv). apply succeeds_bind, succeeds_asks.
    destruct (retain_processed_cell ks U t es (ld_last_processed s) Ht) as (t1 & Hr & Ht1 & Ho).
    apply succeeds_bind. eapply succeeds_lift; [exact Hr|]. cbn [apply_relocation]. apply succeeds_bind, succeeds_ret.
    assert (forall k, over_view t1 k = None) as Ho' by (intros k; by rewrite Ho, Hp).
    eapply succeeds_mono; [apply (finish_flush_ok s x _ (mkShared 0 t) t1 es levels_new); [done|done|done| |]|].
    + apply (levels_ok_slots s []); [cbn; lia|constructor].
    + intros k. rewrite Ho'. split; [done|]. destruct (bt_get k es) as [p|]; [|done]. by intros _.
    + intros s' r (l' & -> & He & Hl' & Hv'). exists (mkShared 0 t), l'. split; [done|]. split; [done|]. split; [done|].
      intros k. rewrite Hv', <- Hv, it_view_parts, Ho'. cbn [or_else]. by destruct (bt_get k es).
Qed.

(** ** Every command *)

(** What a command may assume of the cell it flushes, and what readers see of
    that cell. *)
Definition command_ok (s : S) (kind : FlushKind) (des : list entry) : Prop :=
  match kind with
  | Flush sh l loaded _ =>
      cell_table ks U (sh_table sh) des /\ levels_ok ks U s l /\ flush_closed s (ld_min_wal_position s) (sh_table sh) des l loaded
  | ForceRelocate l _ => levels_ok ks U s l
  end.

Definition command_content (s : S) (kind : FlushKind) (des : list entry) : list Z -> option IndexWalPosition :=
  match kind with
  | Flush sh l loaded _ => flush_content s (sh_table sh) des l loaded
  | ForceRelocate l _ => levels_view s l
  end.

Lemma handle_command_ok s kind des :
  wal_bounds_ok s -> command_ok s kind des ->
  succeeds (handle_command ctx kind RelocationNone) s
    (fun s' r => exists sh l', r = Some (sh, l') /\ flushed_to s (ld_min_wal_position s) (command_content s kind des) s' l').
Proof.
  intros Hwb Hc. destruct kind as [sh l loaded rp|l rp]; cbn [command_ok command_content] in *.
  - destruct Hc as (Hd & Hl & Hcl). cbn [handle_command]. eapply succeeds_mono; [by apply flush_merge_ok|].
    intros s' r (l' & -> & Hf). by exists sh, l'.
  - by apply force_relocate_ok.
Qed.
End command.
