(* ===== verification/IndexFormat.v ===== *)
(** * Index blobs: constants, binary search and the format interface

    [src/tidehunter/src/index/index_format.rs] and the [RandomRead] trait of
    [src/tidehunter/src/lookup.rs].  A blob of fixed-size keys is an array of
    [key ++ position] elements; [binary_search] finds a key or its insertion
    point in a buffer of such elements.  A reader of a blob is the blob's bytes:
    [read] is a slice, which panics out of range, and [len] its length.

    [FormatSpec] is what the loader relies on of an index format. *)

From Stdlib Require Import ZArith Lia List Sorting.Sorted.
From stdpp Require Import base tactics list strings.
From S2P Require Import Prelude BTree Bytes Position Cell Layout KeyShape Flat FlatFacts IndexTable IndexOps.
From S2P Require Import IndexTableFacts IndexWalk IndexPromote IndexFlush IndexUnmerge IndexCodec IndexClean Levels IterCache Loader.

Local Open Scope Z_scope.

Definition HEADER_ELEMENTS : nat := 128.
Definition HEADER_ELEMENT_SIZE : nat := 8.
Definition HEADER_SIZE : nat := HEADER_ELEMENTS * HEADER_ELEMENT_SIZE.
Definition PREFIX_LENGTH : nat := 8.

(** [RandomRead for Bytes] *)
Definition random_read (reader : list Z) (from to : nat) : outcome (list Z) := slice reader from to.

Definition reader_len (reader : list Z) : nat := length reader.

(** [Direction::first_in_range] *)
Definition first_in_range (d : Direction) (from to : nat) : nat :=
  match d with Forward => from | Backward => to - 1 end.

(** The entry at an index of a buffer of fixed-size elements. *)
Definition entry_at (buffer : list Z) (element_size key_size pos : nat) : outcome (list Z * WalPosition) :=
  let entry_start := (pos * element_size)%nat in
  key ← slice buffer entry_start (entry_start + key_size);
  value_bytes ← slice buffer (entry_start + key_size) (entry_start + element_size);
  position ← wp_from_slice value_bytes;
  Ok (key, position).

(** ** Binary search *)

(** The [while] loop over [left..=right]; the interval shrinks on every turn. *)
Fixpoint binary_search_loop (fuel : nat) (buffer key : list Z) (element_size key_size left right : nat) :
    outcome (option nat * nat) :=
  if (left <=? right)%nat then
    match fuel with
    | O => Panic "out of fuel"
    | S fuel =>
        let mid := (left + (right - left) / 2)%nat in
        let entry_start := (mid * element_size)%nat in
        entry_key ← slice buffer entry_start (entry_start + key_size);
        match kcmp entry_key key with
        | Eq => Ok (Some mid, left)
        | Lt => binary_search_loop fuel buffer key element_size key_size (mid + 1) right
        | Gt => if (mid =? 0)%nat then Ok (None, left)
                else binary_search_loop fuel buffer key element_size key_size left (mid - 1)
        end
    end
  else Ok (None, left).

Definition binary_search (buffer key : list Z) (element_size key_size : nat) :
    outcome (option nat * nat * option WalPosition) :=
  match buffer with
  | [] => Ok (None, 0%nat, None)
  | _ =>
      let count := (length buffer / element_size)%nat in
      _ ← assert_that (0 <? count)%nat "assertion failed: count > 0";
      '(found_pos, left_) ← binary_search_loop count buffer key element_size key_size 0 (count - 1);
      match found_pos with
      | Some pos =>
          let entry_start := (pos * element_size)%nat in
          pos_slice ← slice buffer (entry_start + key_size) (entry_start + element_size);
          position ← wp_from_slice pos_slice;
          Ok (found_pos, left_, Some position)
      | None => Ok (None, left_, None)
      end
  end.

(** The index in a buffer of the entry next to a searched key, [None] when it
    is before the buffer's start. *)
Definition step_from (direction : Direction) (found_pos : option nat) (insertion_point : nat) : option nat :=
  match direction with
  | Forward => Some (match found_pos with Some p => p + 1 | None => insertion_point end)%nat
  | Backward =>
      match match found_pos with Some p => p | None => insertion_point end with
      | O => None
      | S p => Some p
      end
  end.

(** ** Arrays of elements *)

Definition element (e : list Z * WalPosition) : list Z :=
  e.1 ++ be_bytes 8 (wp_offset e.2) ++ be_bytes 4 (wp_len e.2).

Definition elements (ws : list (list Z * WalPosition)) : list Z := concat (List.map element ws).

(** Keys of one size, ascending, with positions that fit their fields. *)
Definition elements_ok (n : nat) (ws : list (list Z * WalPosition)) : Prop :=
  bt_sorted ws /\ Forall (fun e => length e.1 = n /\ wp_ok e.2) ws.

Lemma length_element n e : length e.1 = n -> length (element e) = (n + WalPosition_LENGTH)%nat.
Proof. intros <-. unfold element. rewrite !length_app, !length_be_bytes. unfold WalPosition_LENGTH. lia. Qed.

Section elements.
Context (n : nat).

Notation es := (n + WalPosition_LENGTH)%nat.

Lemma length_elements ws : Forall (fun e => length e.1 = n /\ wp_ok e.2) ws -> length (elements ws) = (length ws * es)%nat.
Proof.
  induction 1 as [|e ws [He _] Hf IH]; [done|]. unfold elements in *. cbn [List.map concat length].
  rewrite length_app, (length_element n), IH by done. lia.
Qed.

Lemma elements_app a b : elements (a ++ b) = elements a ++ elements b.
Proof. unfold elements. by rewrite map_app, concat_app. Qed.

(** A window of the array. *)
Lemma slice_elements ws i j :
  Forall (fun e => length e.1 = n /\ wp_ok e.2) ws -> (i <= j)%nat -> (j <= length ws)%nat ->
  slice (elements ws) (i * es) (j * es) = Ok (elements (take (j - i) (drop i ws))).
Proof.
  intros Hf Hij Hj. unfold slice. rewrite length_elements by done.
  destruct (Nat.leb_spec (i * es) (j * es)); [|nia]. destruct (Nat.leb_spec (j * es) (length ws * es)); [|nia]. cbn.
  f_equal. rewrite <- (take_drop i ws) at 1. rewrite elements_app.
  assert (Forall (fun e => length e.1 = n /\ wp_ok e.2) (take i ws)) as Ht by (by apply Forall_take).
  assert (Forall (fun e => length e.1 = n /\ wp_ok e.2) (drop i ws)) as Hd by (by apply Forall_drop).
  rewrite drop_app_length' by (rewrite length_elements, length_take by done; nia).
  rewrite <- (take_drop (j - i) (drop i ws)) at 1. rewrite elements_app, take_app_length'; [done|].
  rewrite length_elements by (by apply Forall_take). rewrite length_take, length_drop. nia.
Qed.

Lemma element_parts ws i e :
  Forall (fun e => length e.1 = n /\ wp_ok e.2) ws -> ws !! i = Some e ->
  slice (elements ws) (i * es) (i * es + n) = Ok e.1 /\
  exists b, slice (elements ws) (i * es + n) (i * es + es) = Ok b /\ wp_from_slice b = Ok e.2.
Proof.
  intros Hf Hi. pose proof Hi as Hlen%lookup_lt_Some. rewrite <- (take_drop_middle ws i e Hi).
  assert (Forall (fun e => length e.1 = n /\ wp_ok e.2) (take i ws)) as Ht by (by apply Forall_take).
  rewrite List.Forall_forall in Hf. destruct (Hf e) as [Hk Hw]; [by apply list_elem_of_lookup_2, list_elem_of_In in Hi|].
  assert (elements (take i ws ++ e :: drop (S i) ws) =
          elements (take i ws) ++ e.1 ++ (be_bytes 8 (wp_offset e.2) ++ be_bytes 4 (wp_len e.2)) ++ elements (drop (S i) ws)) as ->.
  { rewrite elements_app. unfold elements at 2. cbn [List.map concat]. unfold element at 1. by rewrite <- !app_assoc. }
  assert (length (elements (take i ws)) = (i * es)%nat) as Hl.
  { rewrite length_elements, length_take by done. nia. }
  split.
  - apply (slice_mid _ (elements (take i ws)) e.1 ((be_bytes 8 (wp_offset e.2) ++ be_bytes 4 (wp_len e.2)) ++ elements (drop (S i) ws)));
      [done|by rewrite Hl|by rewrite Hl, Hk].
  - exists (be_bytes 8 (wp_offset e.2) ++ be_bytes 4 (wp_len e.2)). split.
    + apply (slice_mid _ (elements (take i ws) ++ e.1) (be_bytes 8 (wp_offset e.2) ++ be_bytes 4 (wp_len e.2)) (elements (drop (S i) ws)));
        [by rewrite <- !app_assoc|by rewrite length_app, Hl, Hk|].
      rewrite !length_app, !length_be_bytes, Hl, Hk. unfold WalPosition_LENGTH. lia.
    + unfold wp_from_slice. rewrite <- (app_nil_r (be_bytes 4 (wp_len e.2))). by rewrite wp_read_write.
Qed.

Lemma sorted_lookup {V} (ws : list (list Z * V)) i j a b :
  bt_sorted ws -> ws !! i = Some a -> ws !! j = Some b -> (i < j)%nat -> klt a.1 b.1.
Proof.
  revert i j. induction ws as [|[k v] ws IH]; intros i j Hs Hi Hj Hlt; [done|]. apply bt_sorted_cons in Hs as [Hs Hf].
  destruct j as [|j]; [lia|]. cbn in Hj. destruct i as [|i].
  - cbn in Hi. injection Hi as <-. rewrite List.Forall_forall in Hf. apply Hf. by apply list_elem_of_lookup_2, list_elem_of_In in Hj.
  - cbn in Hi. by apply (IH i j); [..|lia].
Qed.

(** Position [l] splits the array at a key it does not hold. *)
Definition splits_at {V} (ws : list (list Z * V)) (key : list Z) (l : nat) : Prop :=
  (l <= length ws)%nat /\ (forall i e, ws !! i = Some e -> (i < l)%nat -> klt e.1 key) /\
  forall i e, ws !! i = Some e -> (l <= i)%nat -> klt key e.1.

Lemma binary_search_loop_ok ws key fuel lo hi :
  elements_ok n ws -> (hi < length ws)%nat -> (lo <= S hi)%nat -> (S hi - lo <= fuel)%nat ->
  (forall i e, ws !! i = Some e -> (i < lo)%nat -> klt e.1 key) ->
  (forall i e, ws !! i = Some e -> (hi < i)%nat -> klt key e.1) ->
  exists f l, binary_search_loop fuel (elements ws) key es n lo hi = Ok (f, l) /\
    match f with Some i => exists w, ws !! i = Some (key, w) | None => splits_at ws key l end.
Proof.
  intros [Hs Hf]. revert lo hi. induction fuel as [|fuel IH]; intros lo hi Hhi Hlo Hfuel Hbelow Habove; cbn [binary_search_loop].
  { destruct (Nat.leb_spec lo hi); [lia|]. exists None, lo. split; [done|]. split_and!; [lia|done|].
    intros i e Hi Hl. apply (Habove i e Hi). lia. }
  destruct (Nat.leb_spec lo hi) as [Hle|Hgt].
  2:{ exists None, lo. split; [done|]. split_and!; [lia|done|]. intros i e Hi Hl. apply (Habove i e Hi). lia. }
  cbv zeta. pose proof (Nat.Div0.div_le_upper_bound (hi - lo) 2 (hi - lo) ltac:(lia)) as Hd.
  set (mid := (lo + (hi - lo) / 2)%nat) in *. assert (lo <= mid <= hi)%nat as Hmid by lia.
  destruct (lookup_lt_is_Some_2 ws mid ltac:(lia)) as [[k w] Hk].
  destruct (element_parts ws mid (k, w) Hf Hk) as [Hsl _]. cbn [fst] in Hsl.
  rewrite Hsl. cbn [mbind outcome_bind]. destruct (kcmp k key) eqn:E.
  - apply kcmp_eq in E as ->. exists (Some mid), lo. split; [done|]. by exists w.
  - apply IH; [lia|lia|lia| |done]. intros i e Hi Hl. destruct (decide (i = mid)) as [->|Hne].
    + assert (e = (k, w)) as -> by congruence. done.
    + eapply klt_trans; [by apply (sorted_lookup ws i mid e (k, w)); [..|lia]|done].
  - apply kcmp_gt in E. assert (forall i e, ws !! i = Some e -> (mid <= i)%nat -> klt key e.1) as Hab.
    { intros i e Hi Hl. destruct (decide (i = mid)) as [->|Hne].
      - assert (e = (k, w)) as -> by congruence. done.
      - eapply klt_trans; [exact E|]. by apply (sorted_lookup ws mid i (k, w) e); [..|lia]. }
    destruct (Nat.eqb_spec mid 0) as [E0|Hn0].
    + exists None, lo. split; [done|]. split_and!; [lia|done|]. intros i e Hi Hl. apply (Hab i e Hi). lia.
    + apply IH; [lia|lia|lia|done|]. intros i e Hi Hl. apply (Hab i e Hi). lia.
Qed.

(** The search finds the key, or splits the array where it would be. *)
Lemma binary_search_ok ws key :
  elements_ok n ws ->
  exists f l w, binary_search (elements ws) key es n = Ok (f, l, w) /\
    match f with
    | Some i => exists p, ws !! i = Some (key, p) /\ w = Some p
    | None => w = None /\ splits_at ws key l
    end.
Proof.
  intros Hok. pose proof Hok as [Hs Hf]. unfold binary_search. destruct ws as [|e0 ws0] eqn:Ews.
  { exists None, 0%nat, None. split; [done|]. split; [done|]. split_and!; [cbn; lia|done|done]. }
  rewrite <- Ews in *. assert (length (elements ws) = (length ws * es)%nat) as Hl by (by apply length_elements).
  assert (0 < length ws)%nat as Hpos by (rewrite Ews; cbn; lia).
  destruct (elements ws) as [|b0 bs] eqn:Ee.
  { cbn in Hl. unfold WalPosition_LENGTH in *. nia. }
  rewrite <- Ee in *. rewrite Hl, Nat.div_mul by (unfold WalPosition_LENGTH; lia). unfold assert_that.
  destruct (Nat.ltb_spec 0 (length ws)); [|lia]. cbn [mbind outcome_bind].
  destruct (binary_search_loop_ok ws key (length ws) 0 (length ws - 1)) as (f & l & -> & Hres); [done|lia|lia|lia| | |].
  { intros. lia. }
  { intros i e Hi%lookup_lt_Some ?. lia. }
  cbn [mbind outcome_bind]. destruct f as [i|].
  - destruct Hres as [w Hw]. destruct (element_parts ws i (key, w) Hf Hw) as [_ (b & Hb & Hp)].
    rewrite Hb. cbn [mbind outcome_bind]. rewrite Hp. cbn [mbind outcome_bind snd]. exists (Some i), l, (Some w).
    split; [done|]. by exists w.
  - by exists None, l, None.
Qed.

Lemma splits_at_none {V} (ws : list (list Z * V)) key l : bt_sorted ws -> splits_at ws key l -> bt_get key ws = None.
Proof.
  intros Hs (_ & Hb & Ha). destruct (bt_get key ws) as [w|] eqn:E; [|done]. apply bt_get_In in E; [|done].
  apply list_elem_of_In, list_elem_of_lookup in E as [i Hi]. destruct (decide (i < l)%nat) as [Hlt|Hge].
  - specialize (Hb i _ Hi Hlt). by apply klt_irrefl in Hb.
  - specialize (Ha i _ Hi ltac:(lia)). by apply klt_irrefl in Ha.
Qed.

(** A point lookup in a buffer of elements. *)
Lemma binary_search_get ws key :
  elements_ok n ws -> exists f l, binary_search (elements ws) key es n = Ok (f, l, bt_get key ws).
Proof.
  intros Hok. destruct (binary_search_ok ws key Hok) as (f & l & w & Hb & Hres). exists f, l. rewrite Hb. do 2 f_equal.
  destruct f as [i|].
  - destruct Hres as (p & Hp & ->). symmetry. apply bt_get_In; [apply Hok|]. by apply list_elem_of_lookup_2, list_elem_of_In in Hp.
  - destruct Hres as [-> Hsp]. symmetry. by eapply splits_at_none; [apply Hok|].
Qed.
End elements.

(** ** Windows of a sorted list *)

Section windows.
Context {V : Type} (ws : list (list Z * V)) (Hs : bt_sorted ws).

Definition window (i j : nat) : list (list Z * V) := take (j - i) (drop i ws).

(** Whatever is outside of the window is on the far side of the key. *)
Definition covers (key : list Z) (i j : nat) : Prop :=
  (forall x e, ws !! x = Some e -> (x < i)%nat -> klt e.1 key) /\
  forall x e, ws !! x = Some e -> (j <= x)%nat -> klt key e.1.

Lemma window_lookup i j x : (x < j - i)%nat -> window i j !! x = ws !! (i + x)%nat.
Proof. intros Hx. unfold window. by rewrite lookup_take_lt, lookup_drop. Qed.

Lemma length_window i j : (i <= j)%nat -> (j <= length ws)%nat -> length (window i j) = (j - i)%nat.
Proof. intros Hi Hj. unfold window. rewrite length_take, length_drop. lia. Qed.

Lemma window_sorted i j : bt_sorted (window i j).
Proof.
  unfold window. assert (forall n (l : list (list Z * V)), bt_sorted l -> bt_sorted (take n l)) as Ht.
  { intros n l Hl. unfold bt_sorted in *. rewrite <- (take_drop n l) in Hl. by apply StronglySorted_app_inv in Hl as (? & _ & _). }
  assert (forall n (l : list (list Z * V)), bt_sorted l -> bt_sorted (drop n l)) as Hd.
  { intros n l Hl. unfold bt_sorted in *. rewrite <- (take_drop n l) in Hl. by apply StronglySorted_app_inv in Hl as (_ & ? & _). }
  by apply Ht, Hd.
Qed.

Lemma window_Forall (P : list Z * V -> Prop) i j : Forall P ws -> Forall P (window i j).
Proof. intros Hf. by apply Forall_take, Forall_drop. Qed.

Lemma covers_get key i j : (i <= j)%nat -> covers key i j -> bt_get key (window i j) = bt_get key ws.
Proof.
  intros Hij [Hlo Hhi]. destruct (bt_get key ws) as [v|] eqn:E.
  - apply bt_get_In in E; [|done]. apply list_elem_of_In, list_elem_of_lookup in E as [x Hx].
    assert (i <= x < j)%nat as Hr.
    { split; apply Nat.nlt_ge; intros Hlt.
      - by eapply klt_irrefl, (Hlo x (key, v)).
      - by eapply klt_irrefl, (Hhi x (key, v)); [|lia]. }
    apply bt_get_In; [apply window_sorted|]. apply list_elem_of_In, list_elem_of_lookup. exists (x - i)%nat.
    rewrite window_lookup by lia. by replace (i + (x - i))%nat with x by lia.
  - apply bt_get_None; [apply window_sorted|]. intros v Hin. apply list_elem_of_In in Hin.
    apply list_elem_of_lookup in Hin as [x Hx]. unfold window in Hx. apply lookup_take_Some in Hx as [Hx _]. rewrite lookup_drop in Hx.
    eapply bt_get_None; [exact Hs|exact E|]. by apply list_elem_of_lookup_2, list_elem_of_In in Hx.
Qed.

(** [nearest] from a split of the list. *)
Lemma nearest_forward_at key m :
  (forall x e, ws !! x = Some e -> (x < m)%nat -> kle e.1 key) ->
  (forall x e, ws !! x = Some e -> (m <= x)%nat -> klt key e.1) ->
  nearest ws (Some key) Forward = ws !! m.
Proof.
  intros Hlo Hhi. cbn [nearest]. unfold bt_above. rewrite <- (take_drop m ws) at 1. rewrite List.filter_app.
  rewrite filter_none, filter_all; cbn [app].
  - by rewrite head_lookup, lookup_drop, Nat.add_0_r.
  - apply Forall_lookup. intros x e He. rewrite lookup_drop in He. destruct (kltb_spec key e.1) as [|Hn]; [done|].
    destruct Hn. apply (Hhi (m + x)%nat); [done|lia].
  - apply Forall_lookup. intros x e [He Hx]%lookup_take_Some. destruct (kltb_spec key e.1) as [Hc|]; [|done].
    pose proof (Hlo x e He Hx) as Hl. by apply kle_not_lt in Hl.
Qed.

Lemma nearest_backward_at key m :
  (forall x e, ws !! x = Some e -> (x < m)%nat -> klt e.1 key) ->
  (forall x e, ws !! x = Some e -> (m <= x)%nat -> kle key e.1) -> (m <= length ws)%nat ->
  nearest ws (Some key) Backward = match m with O => None | S p => ws !! p end.
Proof.
  intros Hlo Hhi Hm. cbn [nearest]. unfold bt_below. rewrite <- (take_drop m ws) at 1. rewrite List.filter_app.
  rewrite (filter_all _ (take m ws)), (filter_none _ (drop m ws)).
  - rewrite app_nil_r, last_lookup, length_take. destruct m as [|p]; [done|].
    replace (Nat.pred (Nat.min (S p) (length ws))) with p by lia. by rewrite lookup_take_lt by lia.
  - apply Forall_lookup. intros x e He. rewrite lookup_drop in He. destruct (kltb_spec e.1 key) as [Hc|]; [|done].
    pose proof (Hhi _ e He ltac:(lia)) as Hl. by apply kle_not_lt in Hl.
  - apply Forall_lookup. intros x e [He Hx]%lookup_take_Some. destruct (kltb_spec e.1 key) as [|Hn]; [done|].
    destruct Hn. by eapply Hlo.
Qed.

(** What a search in the window found: the key's index, or a split. *)
Definition found_in (key : list Z) (i j : nat) (found_pos : option nat) (insertion_point : nat) : Prop :=
  match found_pos with
  | Some p => exists v, window i j !! p = Some (key, v)
  | None => splits_at (window i j) key insertion_point
  end.

Lemma klt_kle (a b : list Z) : klt a b -> kle a b.
Proof. intros Hl. apply kle_iff. by left. Qed.

Lemma kle_refl (a : list Z) : kle a a.
Proof. apply kle_iff. by right. Qed.

(** The search splits the whole list, at the first key not below the searched
    one ([lo]) and the first above it ([hi]). *)
Lemma found_splits key i j f l :
  (i <= j)%nat -> (j <= length ws)%nat -> covers key i j -> found_in key i j f l ->
  let lo := (i + match f with Some p => p | None => l end)%nat in
  let hi := (i + match f with Some p => p + 1 | None => l end)%nat in
  (hi <= j)%nat /\
  (forall x e, ws !! x = Some e -> (x < lo)%nat -> klt e.1 key) /\ (forall x e, ws !! x = Some e -> (lo <= x)%nat -> kle key e.1) /\
  (forall x e, ws !! x = Some e -> (x < hi)%nat -> kle e.1 key) /\ (forall x e, ws !! x = Some e -> (hi <= x)%nat -> klt key e.1).
Proof.
  intros Hij Hj [Hlo Hhi] Hf lo hi. subst lo hi. destruct f as [p|].
  - destruct Hf as [v Hp]. pose proof (lookup_lt_Some _ _ _ Hp) as Hlt. rewrite length_window in Hlt by done.
    rewrite window_lookup in Hp by done.
    assert (forall x e, ws !! x = Some e -> (x < i + p)%nat -> klt e.1 key) as Hb.
    { intros x e He Hx. by apply (sorted_lookup ws x (i + p) e (key, v)). }
    assert (forall x e, ws !! x = Some e -> (i + p < x)%nat -> klt key e.1) as Ha.
    { intros x e He Hx. by apply (sorted_lookup ws (i + p) x (key, v) e). }
    split_and!; [lia|done| | |].
    + intros x e He Hx. destruct (decide (x = i + p)%nat) as [->|]; [|apply klt_kle, (Ha x); [done|lia]].
      assert (e = (key, v)) as -> by congruence. apply kle_refl.
    + intros x e He Hx. destruct (decide (x = i + p)%nat) as [->|]; [|apply klt_kle, (Hb x); [done|lia]].
      assert (e = (key, v)) as -> by congruence. apply kle_refl.
    + intros x e He Hx. apply (Ha x); [done|lia].
  - destruct Hf as (Hl & Hbelow & Habove). rewrite length_window in Hl by done.
    assert (forall x e, ws !! x = Some e -> (x < i + l)%nat -> klt e.1 key) as Hb.
    { intros x e He Hx. destruct (decide (x < i)%nat); [by eapply Hlo|]. apply (Hbelow (x - i)%nat); [|lia].
      rewrite window_lookup by lia. by replace (i + (x - i))%nat with x by lia. }
    assert (forall x e, ws !! x = Some e -> (i + l <= x)%nat -> klt key e.1) as Ha.
    { intros x e He Hx. destruct (decide (j <= x)%nat); [by eapply Hhi|]. apply (Habove (x - i)%nat); [|lia].
      rewrite window_lookup by lia. by replace (i + (x - i))%nat with x by lia. }
    split_and!; [lia|done|intros; by eapply klt_kle, Ha|intros; by eapply klt_kle, Hb|done].
Qed.

(** One step of a walk inside a window that covers the cursor. *)
Lemma step_ok d key i j f l :
  (i < j)%nat -> (j <= length ws)%nat -> covers key i j -> found_in key i j f l ->
  match step_from d f l with
  | Some p =>
      ((p < j - i)%nat -> nearest ws (Some key) d = window i j !! p /\ is_Some (window i j !! p)) /\
      ((j - i <= p)%nat -> d = Forward /\ (j = length ws -> nearest ws (Some key) d = None) /\
                           forall e, ws !! (j - 1)%nat = Some e -> kle e.1 key)
  | None => d = Backward /\ (i = 0%nat -> nearest ws (Some key) d = None) /\
            forall e, ws !! i = Some e -> kle key e.1
  end.
Proof.
  intros Hij Hj Hc Hf. destruct (found_splits key i j f l ltac:(lia) Hj Hc Hf) as (Hhij & Hlo1 & Hlo2 & Hhi1 & Hhi2).
  destruct d; cbn [step_from].
  - rewrite (nearest_forward_at key _ Hhi1 Hhi2). split.
    + intros Hp. rewrite window_lookup by done. split; [by destruct f|]. apply lookup_lt_is_Some_2. lia.
    + intros Hp. split; [done|]. split; [intros ->; apply lookup_ge_None_2; destruct f; lia|].
      intros e He. apply (Hhi1 _ e He). destruct f; lia.
  - rewrite (nearest_backward_at key _ Hlo1 Hlo2) by (destruct f; lia).
    destruct (match f with Some p => p | None => l end) as [|p] eqn:E.
    + split; [done|]. rewrite Nat.add_0_r in *. split; [by intros ->|]. intros e He. by apply (Hlo2 _ e He).
    + rewrite Nat.add_succ_r. assert (p < j - i)%nat as Hp by (destruct f; lia). split; [|lia].
      intros _. rewrite window_lookup by done. split; [done|]. apply lookup_lt_is_Some_2. lia.
Qed.
End windows.

Section element_windows.
Context (n : nat) (ws : list (list Z * WalPosition)) (Hok : elements_ok n ws).

Notation es := (n + WalPosition_LENGTH)%nat.

Lemma window_ok i j : elements_ok n (window ws i j).
Proof. destruct Hok as [Hs Hf]. split; [by apply window_sorted|by apply window_Forall]. Qed.

Lemma read_window i j :
  (i <= j)%nat -> (j <= length ws)%nat -> random_read (elements ws) (i * es) (j * es) = Ok (elements (window ws i j)).
Proof. intros Hi Hj. by apply slice_elements; [apply Hok| |]. Qed.

Lemma length_window_buffer i j :
  (i <= j)%nat -> (j <= length ws)%nat -> length (elements (window ws i j)) = ((j - i) * es)%nat.
Proof. intros Hi Hj. rewrite (length_elements n) by apply window_ok. by rewrite length_window. Qed.

Lemma entry_at_ok ws' p e : elements_ok n ws' -> ws' !! p = Some e -> entry_at (elements ws') es n p = Ok e.
Proof.
  intros [_ Hf] Hp. destruct (element_parts n ws' p e Hf Hp) as (Hk & b & Hb & Hw). unfold entry_at. cbv zeta.
  rewrite Hk. cbn [mbind outcome_bind]. rewrite Hb. cbn [mbind outcome_bind]. rewrite Hw. by destruct e.
Qed.

(** The binary search, as a search of a window. *)
Lemma search_window key i j :
  exists f l w, binary_search (elements (window ws i j)) key es n = Ok (f, l, w) /\ found_in ws key i j f l.
Proof.
  destruct (binary_search_ok n (window ws i j) key (window_ok i j)) as (f & l & w & Hb & Hr). exists f, l, w.
  split; [done|]. destruct f as [p|]; cbn; [destruct Hr as (v & Hv & _); by exists v|by destruct Hr].
Qed.
End element_windows.

(** ** The format interface *)

(** The [IndexFormat] trait. *)
Class IndexFormat (F : Type) := {
  serialize_index : F -> IndexTable -> KeySpaceDesc -> outcome (list Z);
  deserialize_index : F -> KeySpaceDesc -> list Z -> outcome IndexTable;
  lookup_unloaded : F -> KeySpaceDesc -> list Z -> list Z -> outcome (option WalPosition);
  next_entry_unloaded : F -> KeySpaceDesc -> list Z -> option (list Z) -> Direction -> WalPosition ->
    option IndexIterCache -> outcome (option (list Z * WalPosition) * option IndexIterCache);
}.

(** The keys a cell may hold or be asked for. *)
Definition cell_key (ks : KeySpaceDesc) (cell : CellId) (k : list Z) : Prop :=
  disk_key_fits (ks_index_key_size ks) k /\ key_ok ks k /\ cell_id ks k = Ok cell.

(** What a blob records of a table: tombstones as [INVALID]. *)
Definition written_positions (t : IndexTable) (es : list entry) : list (list Z * WalPosition) :=
  List.map (fun e => (e.1, disk_position e.2)) (combined t es).

(** What the loader relies on of a format, for one cell: a serialized table
    loads as a table with the same entries, and point lookups and walk steps
    over the bytes are lookups and walk steps over those entries.  A walk keeps
    its cache valid. *)
Class FormatSpec {F : Type} `{IndexFormat F} (f : F) (ks : KeySpaceDesc) (cell : CellId) := {
  fs_cache : list (list Z * WalPosition) -> WalPosition -> option IndexIterCache -> Prop;
  fs_cache_none ws p : fs_cache ws p None;
  fs_serialize U t es :
    Forall (cell_key ks cell) U -> universe_ok (ks_index_key_size ks) U -> cell_table (ks_index_key_size ks) U t es ->
    exists b t', serialize_index f t ks = Ok b /\ deserialize_index f ks b = Ok t' /\
      (length b <= 1024 + 2 * keys_size U)%nat /\
      cell_blob (ks_index_key_size ks) U t' (List.map disk_entry (combined t es)) /\
      (forall k, cell_key ks cell k -> lookup_unloaded f ks b k = Ok (bt_get k (written_positions t es))) /\
      forall prev d p c, (forall k, prev = Some k -> cell_key ks cell k) -> fs_cache (written_positions t es) p c ->
        exists c', next_entry_unloaded f ks b prev d p c = Ok (nearest (written_positions t es) prev d, c') /\
          fs_cache (written_positions t es) p c';
}.

Lemma disk_position_wal k p : iwp_fits p -> into_wal_position (disk_entry (k, p)).2 = disk_position p.
Proof.
  intros Hf. rewrite disk_entry_wal by done. unfold into_wal_position, disk_position, is_removed.
  by destruct p as [o l []].
Qed.

Lemma bt_get_written t es k :
  it_wf t es ->
  bt_get k (written_positions t es) = option_map into_wal_position (bt_get k (List.map disk_entry (combined t es))).
Proof.
  intros Hw. rewrite bt_get_disk. unfold written_positions. rewrite (bt_get_map disk_position).
  destruct (bt_get k (combined t es)) as [p|] eqn:E; [|done]. cbn. f_equal. symmetry. apply (disk_position_wal k).
  apply bt_get_In in E; [|by apply combined_sorted]. pose proof (combined_fits t es Hw) as Hf.
  rewrite List.Forall_forall in Hf. by apply (Hf (k, p)).
Qed.

Lemma written_sorted t es : it_wf t es -> bt_sorted (written_positions t es).
Proof. intros Hw. apply (bt_sorted_map (fun e => disk_position e.2)). by apply combined_sorted. Qed.

Lemma combined_keys ks U t es : cell_table ks U t es -> Forall (fun e => In e.1 U) (combined t es).
Proof.
  intros Ht. apply List.Forall_forall. intros [k p] Hin. apply (ct_keys _ _ _ _ Ht). cbn.
  rewrite <- bt_get_combined by apply (ct_wf _ _ _ _ Ht). eexists. apply bt_get_In; [|done].
  apply combined_sorted, (ct_wf _ _ _ _ Ht).
Qed.

(** Reading back what the codec wrote, as a cell's blob. *)
Lemma cell_blob_read ks U t es t' :
  cell_table ks U t es -> it_data t' = [] -> it_key_size t' = ks ->
  flat_repr (it_flat t') (it_key_size t') (List.map disk_entry (combined t es)) ->
  cell_blob ks U t' (List.map disk_entry (combined t es)).
Proof.
  intros Ht Hd Hk Hr. split; [|done]. split.
  - split; [|done]. rewrite Hd. apply overlay_wf_nil.
  - intros k. rewrite flat_only_view by done. rewrite bt_get_disk, bt_get_combined by apply (ct_wf _ _ _ _ Ht).
    intros Hs. apply (ct_keys _ _ _ _ Ht). by destruct (it_view t es k).
  - by right.
Qed.

(** A blob of fixed-size keys is an array of elements. *)
Lemma written_elements n U t es :
  universe_ok (Some n) U -> cell_table (Some n) U t es ->
  elements_ok n (written_positions t es) /\
  concat (List.map disk_image (combined t es)) = elements (written_positions t es).
Proof.
  intros [Hu _] Ht. pose proof (ct_wf _ _ _ _ Ht) as Hw. split.
  - split; [by apply written_sorted|]. unfold written_positions. apply Forall_map.
    pose proof (combined_fits t es Hw) as Hf. pose proof (combined_keys _ _ _ _ Ht) as Hk.
    rewrite List.Forall_forall in *. intros e He. cbn. split; [|by apply disk_position_ok, Hf].
    destruct (Hu e.1 (Hk e He)) as [Hd _]. done.
  - unfold elements, written_positions. rewrite map_map. done.
Qed.

Lemma written_size n U t es :
  universe_ok (Some n) U -> cell_table (Some n) U t es -> (length (elements (written_positions t es)) <= keys_size U)%nat.
Proof.
  intros Hu Ht. destruct (written_elements n U t es Hu Ht) as [[_ Hf] _]. rewrite (length_elements n) by done.
  pose proof (combined_keys _ _ _ _ Ht) as Hck. pose proof (ct_wf _ _ _ _ Ht) as Hw.
  transitivity (keys_size (List.map fst (combined t es))).
  - unfold written_positions in *. rewrite length_map. apply Forall_map in Hf. clear -Hf.
    induction Hf as [|e l [He _] Hf IH]; [done|]. cbn [List.map keys_size length]. cbn in He. unfold WalPosition_LENGTH in *. lia.
  - apply keys_size_subset; [by apply sorted_keys_NoDup, combined_sorted|]. intros k. rewrite in_map_iff. intros (e & <- & He).
    rewrite List.Forall_forall in Hck. by apply Hck.
Qed.

(** ** Stored reads and table reads *)

Lemma nearest_map {V W} (f : list Z * V -> W) (l : list (list Z * V)) prev d :
  nearest (List.map (fun e => (e.1, f e)) l) prev d = option_map (fun e => (e.1, f e)) (nearest l prev d).
Proof.
  assert (forall P : list Z -> bool, List.filter (fun kv : list Z * W => P kv.1) (List.map (fun e => (e.1, f e)) l) =
    List.map (fun e => (e.1, f e)) (List.filter (fun kv => P kv.1) l)) as Hf.
  { intros P. induction l as [|e l IH]; [done|]. cbn. destruct (P e.1); cbn; by rewrite IH. }
  assert (forall m : list (list Z * V), last (List.map (fun e => (e.1, f e)) m) = option_map (fun e => (e.1, f e)) (last m)) as Hl.
  { intros m. apply fmap_last. }
  destruct d, prev as [p|]; cbn [nearest]; unfold bt_above, bt_below.
  - rewrite (Hf (fun k => kltb p k)). by destruct (List.filter _ _).
  - by destruct l.
  - by rewrite (Hf (fun k => kltb k p)), Hl.
  - apply Hl.
Qed.

(** What the stored entries answer is what the table answers. *)
Lemma written_get t es k : it_wf t es -> Ok (bt_get k (written_positions t es)) = it_get t k.
Proof.
  intros Hw. rewrite (it_get_ok t es k Hw), bt_get_written by done. by rewrite disk_roundtrip_view.
Qed.

Lemma written_next t es prev reverse :
  it_wf t es -> Ok (nearest (written_positions t es) prev (direction_from_bool reverse)) = next_entry t prev reverse.
Proof.
  intros Hw. rewrite (next_entry_ok t es prev reverse Hw). unfold written_positions. f_equal.
  rewrite (nearest_map (fun e : entry => disk_position e.2)). destruct (nearest _ _ _) as [[k p]|]; [|done]. cbn. unfold as_wal. do 2 f_equal.
  cbn. unfold disk_position, into_wal_position, is_removed. by destruct p as [o l []].
Qed.

(** ** A cell to try the formats on *)

(** A cell with two keys, one of them deleted. *)
Definition demo_key (b : Z) : list Z := [1; 2; 3; 4; b].

Definition demo_cell_table : IndexTable :=
  match ('(t, _) ← it_insert it_default (demo_key 5) (wp_new 100 10); '(t, _) ← it_remove t (demo_key 7) (wp_new 120 10); Ok t) with
  | Ok t => t
  | Panic _ => it_default
  end.

Definition demo_universe : list (list Z) := [demo_key 5; demo_key 7].

Lemma demo_universe_ok : universe_ok (Some 5%nat) demo_universe.
Proof. split; [|by vm_compute]. do 2 (constructor; [by vm_compute|]). constructor. Qed.

Lemma demo_cell_keys : Forall (cell_key demo_uniform (CellInteger 0)) demo_universe.
Proof.
  assert (forall b, is_u8 b -> cell_key demo_uniform (CellInteger 0) (demo_key b)) as Hk.
  { intros b Hb. split; [done|]. split; [|done]. split; [|done]. unfold demo_key, is_u8 in *. repeat constructor; lia. }
  constructor; [apply Hk; done|]. constructor; [apply Hk; done|constructor].
Qed.

Lemma demo_cell_table_ok : cell_table (Some 5%nat) demo_universe demo_cell_table [].
Proof.
  destruct (insert_cell (Some 5%nat) demo_universe it_default [] (demo_key 5) (iwp_new_modified (wp_new 100 10)))
    as (t1 & H1 & Ht1 & _); [apply cell_table_default|by left|by vm_compute|done|].
  vm_compute in H1. injection H1 as <-.
  destruct (insert_cell (Some 5%nat) demo_universe _ [] (demo_key 7) (iwp_new_removed (wp_new 120 10)) Ht1)
    as (t2 & H2 & Ht2 & _); [right; by left|by vm_compute|done|].
  vm_compute in H2. injection H2 as <-. exact Ht2.
Qed.
