(* ===== verification/UniformLookup.v ===== *)
(** * The uniform lookup format

    [src/tidehunter/src/index/uniform_lookup.rs]: a blob of fixed-size elements
    is searched by guessing where a key is from its prefix, reading a window of
    elements around the guess, and moving the window towards the key until it
    covers it.  [window_loop] and [next_window_loop] are the [loop]s of
    [lookup_unloaded] and [next_entry_unloaded]; one turn per element of the
    blob is enough for them, since a moved window always reaches further in the
    direction it moves.

    The facts: from any guess, a lookup is a lookup in the sorted entries of the
    blob, and a walk step returns the nearest entry past the cursor, whether it
    is served from the iterator's cache or from the blob. *)

From Stdlib Require Import ZArith Lia List Sorting.Sorted.
From stdpp Require Import base tactics list strings.
From S2P Require Import Prelude BTree Bytes Position Cell Layout KeyShape Flat FlatFacts IndexTable IndexOps.
From S2P Require Import IndexTableFacts IndexWalk IndexPromote IndexFlush IndexUnmerge IndexCodec IndexClean.
From S2P Require Import Levels IterCache Loader IndexFormat.

Local Open Scope Z_scope.

(** ** Definitions *)

Definition DEFAULT_WINDOW_SIZE : nat := 800.
Definition NUM_WINDOW_SIZES : nat := 1.

Record UniformLookupIndex := mkUniformLookup { window_sizes : list (list nat) }.

Definition uniform_new_with_window_size (window_size : nat) : UniformLookupIndex :=
  mkUniformLookup (replicate NUM_WINDOW_SIZES (replicate NUM_WINDOW_SIZES window_size)).

Definition uniform_new : UniformLookupIndex := uniform_new_with_window_size DEFAULT_WINDOW_SIZE.

(** [self.window_sizes[0][0]] *)
Definition window_size_00 (self : UniformLookupIndex) : outcome nat :=
  row ← expect (window_sizes self !! 0%nat) "index out of bounds";
  expect (row !! 0%nat) "index out of bounds".

(** [a.saturating_mul(b)] and [a.saturating_sub(b)] on u64 *)
Definition u64_saturating_mul (a b : Z) : Z := Z.min (a * b) u64_max.
Definition u64_saturating_sub (a b : Z) : Z := Z.max (a - b) 0.

Definition probable_key_offset_and_window_size (self : UniformLookupIndex) (ks : KeySpaceDesc)
    (cell_prefix_range : Z * Z) (key : list Z) (file_length : nat) : outcome (nat * nat) :=
  let scale := Z.shiftl 1 (Z.of_nat ((PREFIX_LENGTH - CELL_PREFIX_LENGTH) * 8)) in
  let long_prefix_range_start := u64_saturating_mul cell_prefix_range.1 scale in
  let long_prefix_range_end := u64_saturating_mul cell_prefix_range.2 scale in
  let cell_width := u64_saturating_sub long_prefix_range_end long_prefix_range_start in
  _ ← assert_that (CELL_PREFIX_LENGTH <=? PREFIX_LENGTH)%nat "assertion failed: PREFIX_LENGTH >= CELL_PREFIX_LENGTH";
  _ ← assert_that (PREFIX_LENGTH <=? 8)%nat "assertion failed: PREFIX_LENGTH <= 8";
  prefix ← index_prefix_u64 ks key;
  if (prefix <? long_prefix_range_start) || (long_prefix_range_end <? prefix) then Panic "Key prefix out of range"
  else
    let prefix_pos := u64_saturating_sub prefix long_prefix_range_start in
    _ ← assert_that (negb (cell_width =? 0)) "attempt to divide by zero";
    let quotient := wrap64 (prefix_pos * Z.of_nat file_length / cell_width) in
    let probable_offset := Z.to_nat (Z.min quotient (wrap64 (Z.of_nat file_length - 1))) in
    window_size ← window_size_00 self;
    Ok (probable_offset, (window_size / 2)%nat).

Definition lookup_window (half_window_size estimated_offset element_size file_length : nat) : nat * nat :=
  let estimated_offset := (estimated_offset / element_size * element_size)%nat in
  let from_offset := (estimated_offset - half_window_size * element_size)%nat in
  let to_offset := Nat.min (estimated_offset + half_window_size * element_size) file_length in
  (from_offset, to_offset).

Definition move_window_up (to_offset half_window_size element_size file_length : nat) : nat * nat :=
  let window_size := (2 * half_window_size * element_size)%nat in
  let new_from_offset := Nat.min (to_offset - element_size) file_length in
  let new_to_offset := Nat.min (new_from_offset + window_size) file_length in
  (new_from_offset, new_to_offset).

Definition move_window_down (from_offset half_window_size element_size file_length : nat) : nat * nat :=
  let window_size := (2 * half_window_size * element_size)%nat in
  let new_to_offset := Nat.min (from_offset + element_size) file_length in
  let new_from_offset := Nat.min (new_to_offset - window_size) file_length in
  (new_from_offset, new_to_offset).

(** Where the search starts, for a key. *)
Definition first_window (self : UniformLookupIndex) (ks : KeySpaceDesc) (key : list Z)
    (element_size file_length : nat) : outcome (nat * nat * nat) :=
  cell ← cell_id ks key;
  cell_prefix_range ← index_prefix_range ks cell;
  '(probable_offset, half_window_size) ←
    probable_key_offset_and_window_size self ks cell_prefix_range key file_length;
  let '(from_offset, to_offset) := lookup_window half_window_size probable_offset element_size file_length in
  Ok (from_offset, to_offset, half_window_size).

(** The keys at both ends of a window's buffer. *)
Definition buffer_ends (buffer : list Z) (element_size key_size : nat) : outcome (list Z * list Z) :=
  first_element_key ← slice buffer 0 key_size;
  last_element_key ← slice buffer (length buffer - element_size) (length buffer - element_size + key_size);
  Ok (first_element_key, last_element_key).

Fixpoint window_loop (fuel : nat) (reader key : list Z) (element_size key_size half_window_size from_offset to_offset : nat) :
    outcome (option WalPosition) :=
  match fuel with
  | O => Panic "out of fuel"
  | S fuel =>
      let file_length := reader_len reader in
      if (to_offset - from_offset <? element_size)%nat || (file_length <=? from_offset)%nat then Ok None
      else
        buffer ← random_read reader from_offset to_offset;
        '(first_element_key, last_element_key) ← buffer_ends buffer element_size key_size;
        if kltb key first_element_key && negb (from_offset =? 0)%nat then
          let '(from_offset, to_offset) := move_window_down from_offset half_window_size element_size file_length in
          window_loop fuel reader key element_size key_size half_window_size from_offset to_offset
        else if kltb last_element_key key && negb (to_offset =? file_length)%nat then
          let '(from_offset, to_offset) := move_window_up to_offset half_window_size element_size file_length in
          window_loop fuel reader key element_size key_size half_window_size from_offset to_offset
        else
          if (length buffer / element_size =? 0)%nat then Ok None
          else
            '(_, _, result) ← binary_search buffer key element_size key_size;
            Ok result
  end.

Definition uniform_lookup_unloaded (self : UniformLookupIndex) (ks : KeySpaceDesc) (reader key : list Z) :
    outcome (option WalPosition) :=
  element_size ← require_index_element_size ks;
  key_size ← require_index_key_size ks "uniform lookup index";
  _ ← assert_that (length key =? key_size)%nat "assertion failed: key.len() == key_size";
  let file_length := reader_len reader in
  '(from_offset, to_offset, half_window_size) ← first_window self ks key element_size file_length;
  window_loop (S (file_length / element_size)) reader key element_size key_size half_window_size from_offset to_offset.

Definition uniform_next_no_prev (self : UniformLookupIndex) (ks : KeySpaceDesc) (reader : list Z) (direction : Direction) :
    outcome (option (list Z * WalPosition)) :=
  element_size ← require_index_element_size ks;
  key_size ← require_index_key_size ks "uniform lookup index";
  let file_length := reader_len reader in
  window_size ← window_size_00 self;
  let '(from_offset, to_offset) :=
    match direction with
    | Forward => (0%nat, Nat.min (window_size * element_size) file_length)
    | Backward => ((file_length - window_size * element_size)%nat, file_length)
    end in
  if (to_offset <=? from_offset)%nat || (file_length <=? from_offset)%nat then Ok None
  else
    buffer ← random_read reader from_offset to_offset;
    if (length buffer =? 0)%nat || (length buffer <? element_size)%nat then Ok None
    else
      let entry_count := (length buffer / element_size)%nat in
      if (entry_count =? 0)%nat then Ok None
      else
        e ← entry_at buffer element_size key_size (first_in_range direction 0 entry_count);
        Ok (Some e).

(** What the cached window says: the index of the next entry, the end of the
    file, or that the window does not reach it. *)
Inductive CacheStep := CacheHit (next_pos : nat) | CacheEnd | CacheMiss.

Definition cached_step (direction : Direction) (next : option nat) (entry_count cached_from cached_to file_length : nat) : CacheStep :=
  match direction, next with
  | Forward, Some p => if (p <? entry_count)%nat then CacheHit p else if (cached_to =? file_length)%nat then CacheEnd else CacheMiss
  | Forward, None => CacheMiss
  | Backward, Some p => CacheHit p
  | Backward, None => if (cached_from =? 0)%nat then CacheEnd else CacheMiss
  end.

Definition uniform_cached (cache : option IndexIterCache) (prev_key : list Z) (direction : Direction)
    (element_size key_size file_length : nat) : outcome CacheStep :=
  match cache with
  | Some (CacheUniformLookup _ cached_from cached_to cached_buf last_pos) =>
      let entry_count := (length cached_buf / element_size)%nat in
      if (0 <? entry_count)%nat then
        '(first_key, last_key) ← buffer_ends cached_buf element_size key_size;
        if (kleb first_key prev_key || (cached_from =? 0)%nat) &&
           (kleb prev_key last_key || (cached_to =? file_length)%nat) then
          key_at_last ← slice cached_buf (last_pos * element_size) (last_pos * element_size + key_size);
          if keqb key_at_last prev_key then
            Ok (cached_step direction (step_from direction (Some last_pos) 0) entry_count cached_from cached_to file_length)
          else
            '(found_pos, insertion_point, _) ← binary_search cached_buf prev_key element_size key_size;
            Ok (cached_step direction (step_from direction found_pos insertion_point) entry_count cached_from cached_to file_length)
        else Ok CacheMiss
      else Ok CacheMiss
  | _ => Ok CacheMiss
  end.

Fixpoint next_window_loop (fuel : nat) (reader prev_key : list Z) (direction : Direction) (position : WalPosition)
    (cache : option IndexIterCache) (element_size key_size half_window_size from_offset to_offset : nat) :
    outcome (option (list Z * WalPosition) * option IndexIterCache) :=
  match fuel with
  | O => Panic "out of fuel"
  | S fuel =>
      let file_length := reader_len reader in
      let down := let '(f, t) := move_window_down from_offset half_window_size element_size file_length in
                  next_window_loop fuel reader prev_key direction position cache element_size key_size half_window_size f t in
      let up := let '(f, t) := move_window_up to_offset half_window_size element_size file_length in
                next_window_loop fuel reader prev_key direction position cache element_size key_size half_window_size f t in
      if (to_offset - from_offset <? element_size)%nat || (file_length <=? from_offset)%nat then Ok (None, cache)
      else
        buffer ← random_read reader from_offset to_offset;
        '(first_element_key, last_element_key) ← buffer_ends buffer element_size key_size;
        if kltb prev_key first_element_key && negb (from_offset =? 0)%nat then down
        else if kltb last_element_key prev_key && negb (to_offset =? file_length)%nat then up
        else
          let entry_count := (length buffer / element_size)%nat in
          if (entry_count =? 0)%nat then Ok (None, cache)
          else
            '(found_pos, insertion_point, _) ← binary_search buffer prev_key element_size key_size;
            match step_from direction found_pos insertion_point with
            | None => if (from_offset =? 0)%nat then Ok (None, cache) else down
            | Some next_pos =>
                if (entry_count <=? next_pos)%nat then
                  if (to_offset =? file_length)%nat then Ok (None, cache) else up
                else
                  e ← entry_at buffer element_size key_size next_pos;
                  Ok (Some e, Some (CacheUniformLookup position from_offset to_offset buffer next_pos))
            end
  end.

Definition uniform_next_entry_unloaded (self : UniformLookupIndex) (ks : KeySpaceDesc) (reader : list Z)
    (prev : option (list Z)) (direction : Direction) (position : WalPosition) (cache : option IndexIterCache) :
    outcome (option (list Z * WalPosition) * option IndexIterCache) :=
  element_size ← require_index_element_size ks;
  key_size ← require_index_key_size ks "uniform lookup index";
  let file_length := reader_len reader in
  let cache := drop_stale cache position in
  match prev with
  | None => r ← uniform_next_no_prev self ks reader direction; Ok (r, None)
  | Some prev_key =>
      _ ← assert_that (length prev_key =? key_size)%nat "assertion failed: prev_key.len() == key_size";
      step ← uniform_cached cache prev_key direction element_size key_size file_length;
      match step, cache with
      | CacheEnd, _ => Ok (None, cache)
      | CacheHit next_pos, Some (CacheUniformLookup p cached_from cached_to cached_buf _) =>
          e ← entry_at cached_buf element_size key_size next_pos;
          Ok (Some e, Some (CacheUniformLookup p cached_from cached_to cached_buf next_pos))
      | _, _ =>
          '(from_offset, to_offset, half_window_size) ← first_window self ks prev_key element_size file_length;
          next_window_loop (S (S (file_length / element_size))) reader prev_key direction position cache
            element_size key_size half_window_size from_offset to_offset
      end
  end.

Definition uniform_serialize_index (self : UniformLookupIndex) (table : IndexTable) (ks : KeySpaceDesc) : outcome (list Z) :=
  _ ← require_index_element_size ks;
  serialize_index_entries table (ks_index_key_size ks) [].

Definition uniform_deserialize_index (self : UniformLookupIndex) (ks : KeySpaceDesc) (b : list Z) : outcome IndexTable :=
  deserialize_index_entries (ks_index_key_size ks) b.

#[export] Instance uniform_format : IndexFormat UniformLookupIndex := {
  serialize_index := uniform_serialize_index;
  deserialize_index := uniform_deserialize_index;
  lookup_unloaded := uniform_lookup_unloaded;
  next_entry_unloaded := uniform_next_entry_unloaded;
}.

(** A step leaves nothing in the cache, or a window of the blob it read. *)
Lemma next_window_loop_cache fuel reader key d position c es n h f t r c' :
  cache_at position c -> next_window_loop fuel reader key d position c es n h f t = Ok (r, c') -> cache_at position c'.
Proof.
  intros Hc. revert f t. induction fuel as [|fuel IH]; intros f t; [done|]. cbn [next_window_loop]. cbv zeta.
  destruct (move_window_down _ _ _ _) as [df dt], (move_window_up _ _ _ _) as [uf ut]. intros H.
  destruct (_ || _); [by injection H as _ <-|]. apply outcome_bind_ok in H as (b & _ & H).
  apply outcome_bind_ok in H as ([k1 k2] & _ & H). destruct (_ && _); [by eapply IH|]. destruct (_ && _); [by eapply IH|].
  destruct (_ =? _)%nat; [by injection H as _ <-|]. apply outcome_bind_ok in H as ([[fp ip] w] & _ & H).
  destruct (step_from d fp ip) as [p|].
  - destruct (_ <=? _)%nat; [destruct (_ =? _)%nat; [by injection H as _ <-|by eapply IH]|].
    apply outcome_bind_ok in H as (e & _ & H). injection H as _ <-. by intros x [= <-].
  - destruct (_ =? _)%nat; [by injection H as _ <-|by eapply IH].
Qed.

Lemma uniform_next_cache self ks reader prev d position c r c' :
  uniform_next_entry_unloaded self ks reader prev d position c = Ok (r, c') -> cache_at position c'.
Proof.
  unfold uniform_next_entry_unloaded. intros H. apply outcome_bind_ok in H as (es & _ & H). apply outcome_bind_ok in H as (n & _ & H).
  pose proof (drop_stale_at c position) as Hc. cbv zeta in H. destruct prev as [key|].
  2:{ apply outcome_bind_ok in H as (x & _ & H). by injection H as _ <-. }
  apply outcome_bind_ok in H as ([] & _ & H). apply outcome_bind_ok in H as (step & _ & H).
  assert ((('(from_offset, to_offset, half_window_size) ← first_window self ks key es (reader_len reader);
          next_window_loop (S (S (reader_len reader / es))) reader key d position (drop_stale c position)
            es n half_window_size from_offset to_offset)) = Ok (r, c') -> cache_at position c') as Hw.
  { intros ([[fo to] h] & _ & Hl)%outcome_bind_ok. by eapply next_window_loop_cache. }
  destruct step; [|by injection H as _ <-|by auto].
  destruct (drop_stale c position) as [[|p from to b lp]|]; auto.
  apply outcome_bind_ok in H as (e & _ & H). injection H as _ <-. specialize (Hc _ eq_refl). by intros x [= <-].
Qed.

(** ** The windows *)

Section uniform.
Context (n : nat) (ws : list (list Z * WalPosition)) (Hok : elements_ok n ws).

Notation es := (n + WalPosition_LENGTH)%nat.
Notation N := (length ws).

Lemma es_pos : (0 < es)%nat.
Proof. unfold WalPosition_LENGTH. lia. Qed.

Lemma reader_len_elements : reader_len (elements ws) = (N * es)%nat.
Proof. apply length_elements, Hok. Qed.

Lemma entry_count : (reader_len (elements ws) / es = N)%nat.
Proof. rewrite reader_len_elements. apply Nat.div_mul. pose proof es_pos. lia. Qed.

Lemma buffer_ends_ok i j a b :
  (i < j)%nat -> (j <= N)%nat -> ws !! i = Some a -> ws !! (j - 1)%nat = Some b ->
  buffer_ends (elements (window ws i j)) es n = Ok (a.1, b.1).
Proof.
  intros Hij Hj Ha Hb. destruct (window_ok n ws Hok i j) as [_ Hf]. unfold buffer_ends.
  destruct (element_parts n (window ws i j) 0 a Hf) as [Hs _].
  { rewrite window_lookup by lia. by rewrite Nat.add_0_r. }
  rewrite Nat.mul_0_l, Nat.add_0_l in Hs. rewrite Hs. cbn [mbind outcome_bind].
  destruct (element_parts n (window ws i j) (j - i - 1) b Hf) as [Hs' _].
  { rewrite window_lookup by lia. by replace (i + (j - i - 1))%nat with (j - 1)%nat by lia. }
  rewrite (length_window_buffer n ws Hok) by lia. replace ((j - i) * es - es)%nat with ((j - i - 1) * es)%nat by nia.
  by rewrite Hs'.
Qed.

Lemma move_down_eq i h : (i < N)%nat ->
  move_window_down (i * es) h es (N * es) = ((i + 1 - 2 * h) * es, (i + 1) * es)%nat.
Proof.
  intros Hi. unfold move_window_down. replace (i * es + es)%nat with ((i + 1) * es)%nat by nia.
  rewrite (Nat.min_l ((i + 1) * es)) by nia. rewrite <- Nat.mul_sub_distr_r. rewrite Nat.min_l by nia. done.
Qed.

Lemma move_up_eq j h : (0 < j)%nat -> (j <= N)%nat ->
  move_window_up (j * es) h es (N * es) = ((j - 1) * es, Nat.min (j - 1 + 2 * h) N * es)%nat.
Proof.
  intros Hj0 Hj. unfold move_window_up. replace (j * es - es)%nat with ((j - 1) * es)%nat by nia.
  rewrite (Nat.min_l ((j - 1) * es)) by nia. rewrite <- Nat.mul_add_distr_r. by rewrite <- Nat.mul_min_distr_r.
Qed.

Lemma lookup_window_eq h off : (0 < h)%nat -> (off < N * es)%nat ->
  exists i j, lookup_window h off es (N * es) = (i * es, j * es)%nat /\ (i < j)%nat /\ (j <= N)%nat.
Proof.
  intros Hh Ho. unfold lookup_window. pose proof es_pos as He.
  assert (off / es < N)%nat by (apply Nat.Div0.div_lt_upper_bound; lia).
  exists (off / es - h)%nat, (Nat.min (off / es + h) N).
  rewrite <- Nat.mul_sub_distr_r, <- Nat.mul_add_distr_r, <- Nat.mul_min_distr_r. split; [done|]. lia.
Qed.

(** ** Searching *)

Section search.
Context (key : list Z).

(** A window that has moved down from, or up from, a window on the far side of
    the key; [strict] when the key was not at the end it moved from. *)
Definition below_end (strict : bool) (j : nat) : Prop :=
  j = N \/ exists e, ws !! (j - 1)%nat = Some e /\ if strict then klt key e.1 else kle key e.1.

Definition above_start (strict : bool) (i : nat) : Prop :=
  i = 0%nat \/ exists e, ws !! i = Some e /\ if strict then klt e.1 key else kle e.1 key.

Lemma below_end_weak strict j : below_end strict j -> below_end false j.
Proof. intros [->|(e & He & Hk)]; [by left|]. right. exists e. split; [done|]. destruct strict; [by apply klt_kle|done]. Qed.

Lemma above_start_weak strict i : above_start strict i -> above_start false i.
Proof. intros [->|(e & He & Hk)]; [by left|]. right. exists e. split; [done|]. destruct strict; [by apply klt_kle|done]. Qed.

Lemma ends_cover i j : (i < j)%nat -> above_start false i -> below_end false j -> covers ws key i j.
Proof.
  intros Hij Hs He. destruct Hok as [Hsorted _]. split; intros x e Hx Hlt.
  - destruct Hs as [->|(a & Ha & Hk)]; [lia|]. eapply klt_le_trans; [|exact Hk]. by apply (sorted_lookup ws x i e a).
  - destruct He as [->|(b & Hb & Hk)]; [apply lookup_lt_Some in Hx; lia|].
    eapply kle_lt_trans; [exact Hk|]. apply (sorted_lookup ws (j - 1) x b e); [done..|lia].
Qed.

(** What a turn reads, and the guards of its window moves. *)
Lemma turn_reads i j :
  (i < j)%nat -> (j <= N)%nat ->
  exists a b, ws !! i = Some a /\ ws !! (j - 1)%nat = Some b /\
    ((j * es - i * es <? es) || (N * es <=? i * es) = false)%nat /\
    random_read (elements ws) (i * es) (j * es) = Ok (elements (window ws i j)) /\
    buffer_ends (elements (window ws i j)) es n = Ok (a.1, b.1) /\
    (length (elements (window ws i j)) / es = j - i)%nat /\
    (i * es =? 0)%nat = (i =? 0)%nat /\ (j * es =? N * es)%nat = (j =? N)%nat.
Proof.
  intros Hij Hj. pose proof es_pos. destruct (lookup_lt_is_Some_2 ws i ltac:(lia)) as [a Ha].
  destruct (lookup_lt_is_Some_2 ws (j - 1) ltac:(lia)) as [b Hb]. exists a, b. split_and!; [done|done| | | | | |].
  - rewrite <- Nat.mul_sub_distr_r. apply orb_false_iff. split; [apply Nat.ltb_ge|apply Nat.leb_gt]; nia.
  - by apply read_window; [|lia|].
  - by apply buffer_ends_ok.
  - rewrite (length_window_buffer n ws Hok) by lia. apply Nat.div_mul. lia.
  - destruct (Nat.eqb_spec i 0), (Nat.eqb_spec (i * es) 0); nia.
  - destruct (Nat.eqb_spec j N), (Nat.eqb_spec (j * es) (N * es)); nia.
Qed.

Context (h : nat) (Hh : (0 < h)%nat).

(** Where a search can be: it has turns for the whole file, or it moves down,
    or up. *)
Inductive searching (sd su : bool) (fuel i j : nat) : Prop :=
| search_start : (N < fuel)%nat -> searching sd su fuel i j
| search_down : (i < fuel)%nat -> below_end sd j -> searching sd su fuel i j
| search_up : (N - j < fuel)%nat -> above_start su i -> searching sd su fuel i j.

Lemma searching_fuel sd su fuel i j : searching sd su fuel i j -> fuel <> 0%nat.
Proof. intros []; lia. Qed.

Lemma searching_down (sd su sd' : bool) fuel i j e :
  (i < j)%nat -> (j <= N)%nat -> i <> 0%nat -> ws !! i = Some e -> searching sd su (S fuel) i j -> ~ above_start su i ->
  (if sd' then klt key e.1 else kle key e.1) ->
  (i + 1 - 2 * h < i + 1)%nat /\ (i + 1 <= N)%nat /\ searching sd' su fuel (i + 1 - 2 * h) (i + 1).
Proof.
  intros Hij Hj Hi He Hs Hn Hk. split; [lia|]. split; [lia|]. apply search_down.
  - destruct Hs as [|? _|? Hc]; [lia|lia|by destruct Hn].
  - right. exists e. by replace (i + 1 - 1)%nat with i by lia.
Qed.

Lemma searching_up (sd su su' : bool) fuel i j e :
  (i < j)%nat -> (j <= N)%nat -> j <> N -> ws !! (j - 1)%nat = Some e -> searching sd su (S fuel) i j -> ~ below_end sd j ->
  (if su' then klt e.1 key else kle e.1 key) ->
  (j - 1 < Nat.min (j - 1 + 2 * h) N)%nat /\ (Nat.min (j - 1 + 2 * h) N <= N)%nat /\
  searching sd su' fuel (j - 1) (Nat.min (j - 1 + 2 * h) N).
Proof.
  intros Hij Hj HjN He Hs Hn Hk. split; [lia|]. split; [lia|]. apply search_up.
  - destruct Hs as [|? Hc|? _]; [lia|by destruct Hn|lia].
  - right. by exists e.
Qed.

Lemma not_above_start (strict : bool) i e : i <> 0%nat -> ws !! i = Some e ->
  (if strict then kle key e.1 else klt key e.1) -> ~ above_start strict i.
Proof.
  intros Hi He Hk [->|(e' & He' & Hk')]; [done|]. assert (e' = e) as -> by congruence.
  destruct strict; [by apply kle_not_lt in Hk|by apply kle_not_lt in Hk'].
Qed.

Lemma not_below_end (strict : bool) j e : j <> N -> ws !! (j - 1)%nat = Some e ->
  (if strict then kle e.1 key else klt e.1 key) -> ~ below_end strict j.
Proof.
  intros Hj He Hk [->|(e' & He' & Hk')]; [done|]. assert (e' = e) as -> by congruence.
  destruct strict; [by apply kle_not_lt in Hk|by apply kle_not_lt in Hk'].
Qed.

Lemma window_loop_ok fuel i j :
  (i < j)%nat -> (j <= N)%nat -> searching true true fuel i j ->
  window_loop fuel (elements ws) key es n h (i * es) (j * es) = Ok (bt_get key ws).
Proof.
  revert i j. induction fuel as [|fuel IH]; intros i j Hij Hj Hs; [by apply searching_fuel in Hs|].
  destruct (turn_reads i j Hij Hj) as (a & b & Ha & Hb & Hg & Hread & Hends & Hcount & Hi0 & HjN).
  cbn [window_loop]. cbv zeta. rewrite reader_len_elements, Hg, Hread. cbn [mbind outcome_bind]. rewrite Hends.
  cbn [mbind outcome_bind]. rewrite Hi0, HjN.
  destruct (kltb_spec key a.1) as [Hka|Hka], (Nat.eqb_spec i 0) as [Hi|Hi]; cbn [andb negb].
  2:{ rewrite move_down_eq by lia.
      destruct (searching_down true true true fuel i j a) as (? & ? & ?); [done..|by eapply not_above_start, klt_kle|done|].
      by apply IH. }
  all: destruct (kltb_spec b.1 key) as [Hkb|Hkb], (Nat.eqb_spec j N) as [HN|HN]; cbn [andb negb].
  all: try (rewrite move_up_eq by lia;
      destruct (searching_up true true true fuel i j b) as (? & ? & ?); [done..|by eapply not_below_end, klt_kle|done|];
      by apply IH).
  all: rewrite Hcount; destruct (Nat.eqb_spec (j - i) 0) as [|_]; [lia|].
  all: destruct (binary_search_get n (window ws i j) key (window_ok n ws Hok i j)) as (f & l & ->); cbn [mbind outcome_bind].
  all: f_equal; apply covers_get; [apply Hok|lia|]; apply ends_cover; [done| |];
       first [by left|right; eexists; split; [done|by apply kle_not_lt]].
Qed.

(** ** Walking *)

Context (d : Direction) (position : WalPosition).

Notation strict_down := (match d with Forward => true | Backward => false end).
Notation strict_up := (match d with Forward => false | Backward => true end).

(** A cached window of this blob, around the entry last returned. *)
Definition cache_of (c : option IndexIterCache) : Prop :=
  match c with
  | Some (CacheUniformLookup p from to buffer last_pos) =>
      p = position -> exists i j, from = (i * es)%nat /\ to = (j * es)%nat /\ (i < j)%nat /\ (j <= N)%nat /\
        buffer = elements (window ws i j) /\ (last_pos < j - i)%nat
  | _ => True
  end.

Lemma next_window_loop_ok c fuel i j :
  cache_of c -> (i < j)%nat -> (j <= N)%nat -> searching strict_down strict_up fuel i j ->
  exists c', next_window_loop fuel (elements ws) key d position c es n h (i * es) (j * es) =
    Ok (nearest ws (Some key) d, c') /\ cache_of c'.
Proof.
  intros Hc. revert i j. induction fuel as [|fuel IH]; intros i j Hij Hj Hs; [by apply searching_fuel in Hs|].
  destruct (turn_reads i j Hij Hj) as (a & b & Ha & Hb & Hg & Hread & Hends & Hcount & Hi0 & HjN).
  assert (i <> 0%nat -> ~ above_start strict_up i -> (if strict_down then klt key a.1 else kle key a.1) ->
    exists c', (let '(f, t) := move_window_down (i * es) h es (N * es) in
       next_window_loop fuel (elements ws) key d position c es n h f t) = Ok (nearest ws (Some key) d, c') /\ cache_of c') as Hdown.
  { intros Hi Hn Hk. rewrite move_down_eq by lia.
    destruct (searching_down strict_down strict_up strict_down fuel i j a) as (? & ? & ?); [done..|]. by apply IH. }
  assert (j <> N -> ~ below_end strict_down j -> (if strict_up then klt b.1 key else kle b.1 key) ->
    exists c', (let '(f, t) := move_window_up (j * es) h es (N * es) in
       next_window_loop fuel (elements ws) key d position c es n h f t) = Ok (nearest ws (Some key) d, c') /\ cache_of c') as Hup.
  { intros Hi Hn Hk. rewrite move_up_eq by lia.
    destruct (searching_up strict_down strict_up strict_up fuel i j b) as (? & ? & ?); [done..|]. by apply IH. }
  cbn [next_window_loop]. cbv zeta. rewrite reader_len_elements, Hg, Hread. cbn [mbind outcome_bind]. rewrite Hends.
  cbn [mbind outcome_bind]. rewrite Hi0, HjN.
  destruct (decide (klt key a.1 /\ i <> 0%nat)) as [[Hka Hi]|Hna].
  { destruct (kltb_spec key a.1); [|done]. destruct (Nat.eqb_spec i 0); [done|]. cbn [andb negb].
    apply Hdown; [done|eapply not_above_start; [done|done|]|]; destruct d; try done; by apply klt_kle. }
  assert (kltb key a.1 && negb (i =? 0)%nat = false) as ->.
  { destruct (kltb_spec key a.1), (Nat.eqb_spec i 0); try done. by destruct Hna. }
  destruct (decide (klt b.1 key /\ j <> N)) as [[Hkb HN]|Hnb].
  { destruct (kltb_spec b.1 key); [|done]. destruct (Nat.eqb_spec j N); [done|]. cbn [andb negb].
    apply Hup; [done|eapply not_below_end; [done|done|]|]; destruct d; try done; by apply klt_kle. }
  assert (kltb b.1 key && negb (j =? N)%nat = false) as ->.
  { destruct (kltb_spec b.1 key), (Nat.eqb_spec j N); try done. by destruct Hnb. }
  rewrite Hcount. destruct (Nat.eqb_spec (j - i) 0) as [|_]; [lia|].
  destruct (search_window n ws Hok key i j) as (f & l & w & -> & Hf). cbn [mbind outcome_bind].
  assert (covers ws key i j) as Hcov.
  { apply ends_cover; [done| |].
    - destruct (decide (i = 0%nat)); [by left|]. right. exists a. split; [done|]. apply kle_not_lt. naive_solver.
    - destruct (decide (j = N)); [by left|]. right. exists b. split; [done|]. apply kle_not_lt. naive_solver. }
  pose proof (step_ok ws (proj1 Hok) d key i j f l Hij Hj Hcov Hf) as Hstep.
  destruct (step_from d f l) as [p|].
  - destruct Hstep as [Hin Hout]. destruct (Nat.leb_spec (j - i) p) as [Hle|Hlt].
    + destruct (Hout Hle) as (-> & HnN & Hlast). destruct (Nat.eqb_spec j N) as [HN|HN].
      * exists c. by rewrite HnN.
      * apply Hup; [done|eapply not_below_end; [done|done|]|]; by apply Hlast.
    + destruct (Hin Hlt) as [-> [e He]]. rewrite He.
      rewrite (entry_at_ok n (window ws i j) p e) by (done || by apply window_ok). cbn [mbind outcome_bind].
      eexists. split; [done|]. intros _. by exists i, j.
  - destruct Hstep as (-> & Hn0 & Hfirst). destruct (Nat.eqb_spec i 0) as [Hi|Hi].
    + exists c. by rewrite Hn0.
    + apply Hdown; [done|eapply not_above_start; [done|done|]|]; by apply Hfirst.
Qed.
End search.
End uniform.

(** ** The first window *)

Lemma be_val_app a b : be_val (a ++ b) = be_val a * 256 ^ Z.of_nat (length b) + be_val b.
Proof.
  induction a as [|x a IH]; cbn [app]; [by rewrite Z.mul_0_l|]. rewrite !be_val_cons, IH, length_app, Nat2Z.inj_add.
  rewrite Z.pow_add_r by lia. lia.
Qed.

Lemma pad_split m n l : pad (m + n) l = pad m l ++ pad n (drop m l).
Proof.
  revert l. induction m as [|m IH]; intros l; cbn [Nat.add pad app drop]; [by rewrite drop_0|].
  destruct l as [|x l]; cbn [app drop]; rewrite IH; [by rewrite drop_nil|done].
Qed.

(** The 8-byte prefix extends the 4-byte one. *)
Lemma starting_u64_prefix b :
  Forall is_u8 b -> starting_u32 b * 2 ^ 32 <= starting_u64 b < (starting_u32 b + 1) * 2 ^ 32.
Proof.
  intros Hb. rewrite starting_u32_pad, starting_u64_pad. change 8%nat with (4 + 4)%nat. rewrite pad_split, be_val_app, length_pad.
  pose proof (be_val_pad_bound 4 (drop 4 b) ltac:(by apply Forall_drop)) as Hd.
  change (256 ^ Z.of_nat 4) with (2 ^ 32) in *. lia.
Qed.

Lemma index_prefix_both ks k p :
  key_ok ks k -> index_prefix_u32 ks k = Ok p ->
  exists q, index_prefix_u64 ks k = Ok q /\ p * 2 ^ 32 <= q < (p + 1) * 2 ^ 32.
Proof.
  intros [Hu _]. unfold index_prefix_u32, index_prefix_u64. intros (b & Hb & [= <-])%outcome_bind_ok. rewrite Hb.
  cbn [mbind outcome_bind]. eexists. split; [done|]. apply starting_u64_prefix. unfold index_prefix in Hb.
  destruct (ks_key_type ks); [by injection Hb as <-|]. unfold slice_from in Hb. destruct (_ <=? _)%nat; [|done].
  injection Hb as <-. by apply Forall_drop.
Qed.

(** The guess never leaves the file. *)
Lemma probable_offset_ok self ks k p s e L w :
  key_ok ks k -> index_prefix_u32 ks k = Ok p -> 0 <= s <= p -> p < e <= 2 ^ 32 -> window_size_00 self = Ok w ->
  exists off, probable_key_offset_and_window_size self ks (s, e) k L = Ok (off, (w / 2)%nat) /\ ((0 < L)%nat -> (off < L)%nat) /\
    (L = 0%nat -> off = 0%nat).
Proof.
  intros Hk Hp Hs He Hw. destruct (index_prefix_both ks k p Hk Hp) as (q & Hq & Hqr).
  unfold probable_key_offset_and_window_size. cbv zeta. cbn [fst snd].
  change (Z.shiftl 1 (Z.of_nat ((PREFIX_LENGTH - CELL_PREFIX_LENGTH) * 8))) with (2 ^ 32).
  change (CELL_PREFIX_LENGTH <=? PREFIX_LENGTH)%nat with true. change (PREFIX_LENGTH <=? 8)%nat with true.
  cbn [assert_that mbind outcome_bind]. rewrite Hq. cbn [mbind outcome_bind]. rewrite Hw.
  unfold u64_saturating_mul, u64_saturating_sub, u64_max. rewrite (Z.min_l (s * 2 ^ 32)) by lia.
  destruct (Z.ltb_spec q (s * 2 ^ 32)); [lia|]. destruct (Z.ltb_spec (Z.min (e * 2 ^ 32) (2 ^ 64 - 1)) q); [lia|].
  cbn [orb]. destruct (Z.eqb_spec (Z.max (Z.min (e * 2 ^ 32) (2 ^ 64 - 1) - s * 2 ^ 32) 0) 0); [lia|].
  cbn [negb assert_that mbind outcome_bind]. eexists. split; [done|]. split; intros HL.
  2:{ subst L. rewrite Z.mul_0_r, Zdiv_0_l. done. }
  assert (0 <= wrap64 (Z.of_nat L - 1) <= Z.of_nat L - 1).
  { unfold wrap64. split; [apply Z.mod_pos_bound; lia|apply Z.mod_le; lia]. }
  match goal with |- (Z.to_nat (Z.min ?a _) < L)%nat => assert (0 <= a) by (unfold wrap64; apply Z.mod_pos_bound; lia) end.
  lia.
Qed.

Section lookups.
Context (self : UniformLookupIndex) (ks : KeySpaceDesc) (n w : nat).
Context (Hks : ks_ok ks) (Hn : ks_index_key_size ks = Some n) (Hw : window_size_00 self = Ok w) (Hw2 : (2 <= w)%nat).

Notation es := (n + WalPosition_LENGTH)%nat.

Lemma required_sizes reason :
  require_index_element_size ks = Ok es /\ require_index_key_size ks reason = Ok n.
Proof. unfold require_index_element_size, require_index_key_size, index_element_size. by rewrite Hn. Qed.

Lemma first_window_ok ws k :
  elements_ok n ws -> key_ok ks k ->
  exists i j h, first_window self ks k es (reader_len (elements ws)) = Ok ((i * es)%nat, (j * es)%nat, h) /\ (0 < h)%nat /\
    (ws = [] -> i = 0%nat /\ j = 0%nat) /\ (ws <> [] -> (i < j)%nat /\ (j <= length ws)%nat).
Proof.
  intros Hok Hk. destruct (key_prefix_in_range ks k Hks Hk) as (cell & p & s & e & Hc & Hp & Hr & Hs & He).
  unfold first_window. rewrite Hc. cbn [mbind outcome_bind]. rewrite Hr. cbn [mbind outcome_bind].
  destruct (probable_offset_ok self ks k p s e (reader_len (elements ws)) w) as (off & Ho & Hoff & Hoff0); [done..|].
  rewrite Ho. cbn [mbind outcome_bind]. rewrite (reader_len_elements n ws Hok) in *.
  assert (0 < w / 2)%nat as Hh by (apply Nat.div_str_pos; lia).
  destruct ws as [|x ws0] eqn:E.
  - exists 0%nat, 0%nat, (w / 2)%nat. cbn [length] in *. rewrite Nat.mul_0_l in *.
    rewrite (Hoff0 eq_refl).
    unfold lookup_window. rewrite Nat.Div0.div_0_l, Nat.min_0_r. done.
  - rewrite <- E in *. assert (0 < length ws)%nat by (rewrite E; cbn; lia).
    destruct (lookup_window_eq n ws (w / 2) off Hh) as (i & j & -> & Hij & Hj).
    { apply Hoff. pose proof (es_pos n). nia. }
    exists i, j, (w / 2)%nat. split_and!; [done|done|by rewrite E|done].
Qed.

Lemma uniform_lookup_ok ws k :
  elements_ok n ws -> key_ok ks k -> length k = n ->
  uniform_lookup_unloaded self ks (elements ws) k = Ok (bt_get k ws).
Proof.
  intros Hok Hk Hl. unfold uniform_lookup_unloaded. destruct (required_sizes "uniform lookup index") as [-> ->].
  cbn [mbind outcome_bind]. rewrite (proj2 (Nat.eqb_eq _ _) Hl). cbn [assert_that mbind outcome_bind].
  destruct (first_window_ok ws k Hok Hk) as (i & j & h & -> & Hh & H0 & Hne). cbn [mbind outcome_bind].
  rewrite (entry_count n ws Hok). destruct ws as [|x ws0] eqn:E.
  - destruct (H0 eq_refl) as [-> ->]. cbn [window_loop]. rewrite !Nat.mul_0_l, Nat.sub_0_r.
    assert ((0 <? es)%nat = true) as -> by (apply Nat.ltb_lt, es_pos). done.
  - rewrite <- E in *. destruct Hne as [Hij Hj]; [by rewrite E|]. apply window_loop_ok; [done..|]. apply search_start. lia.
Qed.
(** A walk without a cursor starts at an end of the file. *)
Lemma uniform_next_no_prev_ok ws d :
  elements_ok n ws -> uniform_next_no_prev self ks (elements ws) d = Ok (nearest ws None d).
Proof.
  intros Hok. unfold uniform_next_no_prev. destruct (required_sizes "uniform lookup index") as [-> ->].
  cbn [mbind outcome_bind]. rewrite Hw. cbn [mbind outcome_bind]. cbv zeta. rewrite (reader_len_elements n ws Hok).
  pose proof (es_pos n) as Hes. set (N := length ws).
  set (i := match d with Forward => 0%nat | Backward => (N - w)%nat end).
  set (j := match d with Forward => Nat.min w N | Backward => N end).
  assert ((match d with Forward => (0, Nat.min (w * es) (N * es)) | Backward => (N * es - w * es, N * es) end)%nat =
          (i * es, j * es)%nat) as ->.
  { subst i j. destruct d; [by rewrite Nat.mul_min_distr_r|by rewrite Nat.mul_sub_distr_r]. }
  assert (ws = [] -> nearest ws None d = None) as Hempty by (intros ->; by destruct d).
  destruct (decide (ws = [])) as [Hnil|Hne].
  { rewrite (Hempty Hnil). assert (N = 0%nat) as HN by (subst N; by rewrite Hnil).
    assert (j = 0%nat) as -> by (subst j; destruct d; lia). by rewrite Nat.mul_0_l. }
  assert (0 < N)%nat as HN by (subst N; destruct ws; [done|cbn; lia]).
  assert (i < j)%nat as Hij by (subst i j; destruct d; lia). assert (j <= N)%nat as Hj by (subst j; destruct d; lia).
  destruct (Nat.leb_spec (j * es) (i * es)) as [|_]; [nia|]. destruct (Nat.leb_spec (N * es) (i * es)) as [|_]; [nia|].
  cbn [orb]. rewrite (read_window n ws Hok) by lia. cbn [mbind outcome_bind].
  rewrite (length_window_buffer n ws Hok) by lia. destruct (Nat.eqb_spec ((j - i) * es) 0); [nia|].
  destruct (Nat.ltb_spec ((j - i) * es) es); [nia|]. cbn [orb]. rewrite Nat.div_mul by lia.
  destruct (Nat.eqb_spec (j - i) 0); [lia|].
  assert (window ws i j !! first_in_range d 0 (j - i) = nearest ws None d) as Hnear.
  { destruct d; cbn [first_in_range nearest]; rewrite window_lookup by lia; subst i j.
    - by rewrite head_lookup.
    - rewrite last_lookup. f_equal. fold N. lia. }
  destruct (nearest ws None d) as [e|] eqn:E.
  - by rewrite (entry_at_ok n _ _ e (window_ok n ws Hok i j) Hnear).
  - exfalso. apply lookup_ge_None in Hnear. rewrite length_window in Hnear by lia.
    destruct d; cbn [first_in_range] in Hnear; lia.
Qed.

Lemma uniform_cached_ok ws key d position c :
  elements_ok n ws -> cache_of n ws position c ->
  let c := drop_stale c position in
  exists step, uniform_cached c key d es n (reader_len (elements ws)) = Ok step /\ cache_of n ws position c /\
    match step with
    | CacheEnd => nearest ws (Some key) d = None
    | CacheHit p => exists i j lp, c = Some (CacheUniformLookup position (i * es) (j * es) (elements (window ws i j)) lp) /\
        (i < j)%nat /\ (j <= length ws)%nat /\ (p < j - i)%nat /\ nearest ws (Some key) d = window ws i j !! p
    | CacheMiss => True
    end.
Proof.
  intros Hok Hc c'. subst c'. destruct c as [c|]; cbn [drop_stale]; [|by exists CacheMiss].
  case_bool_decide as Hp; [|by exists CacheMiss].
  destruct c as [|p from to buffer lp]; [by exists CacheMiss|]. cbn in Hp. subst p.
  destruct (Hc eq_refl) as (i & j & -> & -> & Hij & Hj & -> & Hlp). cbn [uniform_cached].
  destruct (turn_reads n ws Hok i j Hij Hj) as (a & b & Ha & Hb & _ & _ & Hends & Hcount & Hi0 & HjN).
  rewrite Hcount, (reader_len_elements n ws Hok), Hends, Hi0, HjN. destruct (Nat.ltb_spec 0 (j - i)); [|lia].
  cbn [mbind outcome_bind]. destruct (_ && _) eqn:Hin; [|by exists CacheMiss]. apply andb_true_iff in Hin as [Hin1 Hin2].
  assert (covers ws key i j) as Hcov.
  { apply (ends_cover n ws Hok); [done| |].
    - apply orb_true_iff in Hin1 as [Hk|Hi]; [right; exists a; split; [done|]; by destruct (kleb_spec a.1 key)|].
      left. by apply Nat.eqb_eq.
    - apply orb_true_iff in Hin2 as [Hk|Hi]; [right; exists b; split; [done|]; by destruct (kleb_spec key b.1)|].
      left. by apply Nat.eqb_eq. }
  destruct (window_ok n ws Hok i j) as [_ Hf].
  destruct (lookup_lt_is_Some_2 (window ws i j) lp) as [[kl vl] Hkl]; [by rewrite length_window by lia|].
  destruct (element_parts n (window ws i j) lp (kl, vl) Hf Hkl) as [Hs _]. rewrite Hs. cbn [fst mbind outcome_bind].
  assert (forall f l, found_in ws key i j f l -> exists step,
    Ok (cached_step d (step_from d f l) (j - i) (i * es) (j * es) (length ws * es)) = Ok step /\
    match step with
    | CacheEnd => nearest ws (Some key) d = None
    | CacheHit p => exists i' j' lp', Some (CacheUniformLookup position (i * es) (j * es) (elements (window ws i j)) lp) =
          Some (CacheUniformLookup position (i' * es) (j' * es) (elements (window ws i' j')) lp') /\
        (i' < j')%nat /\ (j' <= length ws)%nat /\ (p < j' - i')%nat /\ nearest ws (Some key) d = window ws i' j' !! p
    | CacheMiss => True
    end) as Hstep.
  { intros f l Hfl. eexists. split; [done|]. pose proof (step_ok ws (proj1 Hok) d key i j f l Hij Hj Hcov Hfl) as Hst.
    unfold cached_step. rewrite Hi0, HjN. destruct (step_from d f l) as [p|].
    - destruct Hst as [Hlt Hge]. destruct (decide (p < j - i)%nat) as [Hp|Hp].
      + rewrite (proj2 (Nat.ltb_lt _ _) Hp). destruct d; exists i, j, lp; by destruct (Hlt Hp).
      + destruct (Hge ltac:(lia)) as (-> & HN & _). destruct (Nat.ltb_spec p (j - i)); [lia|].
        destruct (Nat.eqb_spec j (length ws)); [by apply HN|done].
    - destruct Hst as (-> & Hst & _). destruct (Nat.eqb_spec i 0); [by apply Hst|done]. }
  destruct (keqb_spec kl key) as [->|_].
  - destruct (Hstep (Some lp) 0%nat) as (st & E & Hst); [by exists vl|]. exists st. by rewrite E.
  - destruct (search_window n ws Hok key i j) as (f & l & v & -> & Hfl). cbn [mbind outcome_bind].
    destruct (Hstep f l Hfl) as (st & E & Hst). exists st. by rewrite E.
Qed.

Lemma uniform_next_ok ws prev d position c :
  elements_ok n ws -> (forall k, prev = Some k -> key_ok ks k /\ length k = n) -> cache_of n ws position c ->
  exists c', uniform_next_entry_unloaded self ks (elements ws) prev d position c = Ok (nearest ws prev d, c') /\
    cache_of n ws position c'.
Proof.
  intros Hok Hprev Hc. unfold uniform_next_entry_unloaded. destruct (required_sizes "uniform lookup index") as [-> ->].
  cbn [mbind outcome_bind]. cbv zeta. destruct prev as [key|].
  2:{ rewrite (uniform_next_no_prev_ok ws d Hok). cbn [mbind outcome_bind]. by exists None. }
  destruct (Hprev key eq_refl) as [Hk Hl]. rewrite (proj2 (Nat.eqb_eq _ _) Hl). cbn [assert_that mbind outcome_bind].
  destruct (uniform_cached_ok ws key d position c Hok Hc) as (step & -> & Hc' & Hstep). cbn [mbind outcome_bind].
  assert (exists c', (
    '(from_offset, to_offset, half_window_size) ← first_window self ks key es (reader_len (elements ws));
     next_window_loop (S (S (reader_len (elements ws) / es))) (elements ws) key d position (drop_stale c position) es n
       half_window_size from_offset to_offset) = Ok (nearest ws (Some key) d, c') /\ cache_of n ws position c') as Hmiss.
  { destruct (first_window_ok ws key Hok Hk) as (i & j & h & -> & Hh & H0 & Hne). cbn [mbind outcome_bind].
    rewrite (entry_count n ws Hok). destruct ws as [|x ws0] eqn:E.
    - destruct (H0 eq_refl) as [-> ->]. cbn [next_window_loop]. rewrite !Nat.mul_0_l, Nat.sub_0_r.
      assert ((0 <? es)%nat = true) as -> by (apply Nat.ltb_lt, es_pos). cbn [orb]. exists (drop_stale c position). by destruct d.
    - rewrite <- E in *. destruct Hne as [Hij Hj]; [by rewrite E|]. apply (next_window_loop_ok n ws Hok); [done..|].
      apply search_start. lia. }
  destruct step as [p| |].
  - destruct Hstep as (i & j & lp & -> & Hij & Hj & Hp & Hnear).
    destruct (lookup_lt_is_Some_2 (window ws i j) p) as [e He]; [by rewrite length_window by lia|].
    rewrite (entry_at_ok n _ p e (window_ok n ws Hok i j) He). cbn [mbind outcome_bind]. rewrite Hnear, He.
    eexists. split; [done|]. intros _. by exists i, j.
  - rewrite Hstep. by eexists.
  - exact Hmiss.
Qed.
End lookups.

(** ** The format's promise *)

Section format.
Context (self : UniformLookupIndex) (ks : KeySpaceDesc) (n w : nat) (cell : CellId).
Context (Hks : ks_ok ks) (Hn : ks_index_key_size ks = Some n) (Hw : window_size_00 self = Ok w) (Hw2 : (2 <= w)%nat).

Lemma uniform_blob_ok U t es :
  Forall (cell_key ks cell) U -> universe_ok (ks_index_key_size ks) U -> cell_table (ks_index_key_size ks) U t es ->
  exists b t', serialize_index self t ks = Ok b /\ deserialize_index self ks b = Ok t' /\
    (length b <= 1024 + 2 * keys_size U)%nat /\
    cell_blob (ks_index_key_size ks) U t' (List.map disk_entry (combined t es)) /\
    (forall k, cell_key ks cell k -> lookup_unloaded self ks b k = Ok (bt_get k (written_positions t es))) /\
    forall prev d p c, (forall k, prev = Some k -> cell_key ks cell k) -> cache_of n (written_positions t es) p c ->
      exists c', next_entry_unloaded self ks b prev d p c = Ok (nearest (written_positions t es) prev d, c') /\
        cache_of n (written_positions t es) p c'.
Proof.
  intros HU Hu Ht. pose proof (ct_wf _ _ _ _ Ht) as Hwf. pose proof Hu as Hu'. pose proof Ht as Ht'. rewrite Hn in Hu', Ht'.
  destruct (written_elements n U t es Hu' Ht') as [Hel Himg].
  assert (disk_fits (Some n) (combined t es)) as Hfit.
  { apply (universe_disk_fits (Some n) U); [done|by apply combined_sorted|]. intros k. rewrite bt_get_combined by done.
    apply (ct_keys _ _ _ _ Ht). }
  destruct (deserialize_ok (Some n) (combined t es) [] []) as (enc & v' & t' & Hwr & Hd & Hdata & Hks' & Hr);
    [by apply combined_sorted|done|by apply combined_fits|].
  destruct (write_entries_fixed n (combined t es) [] [] (proj1 Hfit)) as (v'' & Hwr'').
  assert (enc = elements (written_positions t es)) as ->.
  { rewrite Hwr in Hwr''. injection Hwr'' as E _. by rewrite <- Himg. }
  exists (elements (written_positions t es)), t'. cbn [serialize_index deserialize_index lookup_unloaded next_entry_unloaded uniform_format].
  unfold uniform_serialize_index, uniform_deserialize_index. rewrite Hn. split_and!.
  - destruct (required_sizes ks n Hn "") as [-> _]. cbn [mbind outcome_bind]. unfold serialize_index_entries.
    rewrite (serialize_visitor_combined t es) by done. by rewrite Hwr.
  - done.
  - pose proof (written_size n U t es Hu' Ht'). lia.
  - rewrite Hn in Ht. by apply cell_blob_read.
  - intros k (Hl & Hk & _). rewrite Hn in Hl. by apply (uniform_lookup_ok self ks n w).
  - intros prev d p c Hprev Hc. apply (uniform_next_ok self ks n w); [done..| |done].
    intros k E. destruct (Hprev k E) as (Hl & Hk & _). rewrite Hn in Hl. done.
Qed.

Definition uniform_format_spec : FormatSpec self ks cell := {|
  fs_cache := cache_of n;
  fs_cache_none := fun ws p => I;
  fs_serialize := uniform_blob_ok;
|}.
End format.

(** ** Properties *)

(** Reading a blob in the uniform format is reading the table it was
    written from.  For every table of a cell with fixed-size keys, and a window
    of at least two elements: serialization succeeds; a lookup over the bytes
    terminates and answers as the in-memory table does, wherever the prefix of
    the key makes it guess; and a walk step over the bytes, forwards or
    backwards, returns the table's next entry, from an empty cache and from
    every cache such steps leave behind. *)
Lemma uniform_blob_reads self ks cell n w U t es position :
  ks_ok ks -> ks_index_key_size ks = Some n -> window_size_00 self = Ok w -> (2 <= w)%nat ->
  Forall (cell_key ks cell) U -> universe_ok (Some n) U -> cell_table (Some n) U t es ->
  exists b warm, uniform_serialize_index self t ks = Ok b /\
    (forall k, cell_key ks cell k -> uniform_lookup_unloaded self ks b k = it_get t k) /\
    warm None /\
    forall prev reverse cache, (forall k, prev = Some k -> cell_key ks cell k) -> warm cache ->
      exists cache', uniform_next_entry_unloaded self ks b prev (direction_from_bool reverse) position cache =
        (r ← next_entry t prev reverse; Ok (r, cache')) /\ warm cache'.
Proof.
  intros Hks Hn Hw Hw2 HU Hu Ht. rewrite <- Hn in Hu, Ht. pose proof (ct_wf _ _ _ _ Ht) as Hwf.
  destruct (uniform_blob_ok self ks n w cell Hks Hn Hw Hw2 U t es HU Hu Ht) as (b & t' & Hs & _ & _ & _ & Hl & Hx).
  exists b, (cache_of n (written_positions t es) position). split; [done|]. split_and!.
  - intros k Hk. rewrite <- (written_get t es k Hwf). by apply Hl.
  - done.
  - intros prev reverse cache Hprev Hc. destruct (Hx prev (direction_from_bool reverse) position cache Hprev Hc) as (c' & Hr & Hc').
    exists c'. split; [|done]. rewrite <- (written_next t es prev reverse Hwf). exact Hr.
Qed.

