(* ===== verification/LookupHeader.v ===== *)
(** * The lookup-header format

    [src/tidehunter/src/index/lookup_header.rs]: a blob starts with a header of
    128 byte ranges, one per micro-cell of the cell's prefix range; the entries
    of a micro-cell are one section of the blob.  A lookup reads one header
    element and one section.  Sections of fixed-size keys are arrays of elements,
    sections of variable-size keys are flat buffers.

    The code has the walk over micro-cells twice, once per key layout; the two
    copies differ only in how they read a section, which [SectionOps] abstracts.
    The visitor of the serializer is the list of its calls, as in
    [serialize_index_entries_with_visitor]. *)

From Stdlib Require Import ZArith Lia List Sorting.Sorted.
From stdpp Require Import base tactics list strings.
From S2P Require Import Prelude BTree Bytes Position Cell Layout KeyShape Flat IndexTable IndexOps IterCache IndexFormat.

Local Open Scope Z_scope.

Definition key_micro_cell (ks : KeySpaceDesc) (key : list Z) : outcome Z :=
  prefix ← index_prefix_u32 ks key;
  cell ← cell_id ks key;
  '(range_start, range_end) ← index_prefix_range ks cell;
  cell_offset ← expect (checked_sub prefix (wrap32 range_start)) "Key prefix is out of cell prefix range";
  let cell_size := u64_sub range_end range_start in
  rescale_u32 cell_offset cell_size (Z.of_nat HEADER_ELEMENTS).

(** ** Reading *)

Definition read_micro_cell_section (reader : list Z) (micro_cell : Z) : outcome (option (list Z)) :=
  let mc := Z.to_nat micro_cell in
  header_element ← random_read reader (mc * HEADER_ELEMENT_SIZE) ((mc + 1) * HEADER_ELEMENT_SIZE);
  '(from_offset, header_element) ← get_u32 header_element;
  '(to_offset, _) ← get_u32 header_element;
  if (from_offset =? 0) && (to_offset =? 0) then Ok None
  else
    buffer ← random_read reader (Z.to_nat from_offset) (Z.to_nat to_offset);
    Ok (Some buffer).

(** The entry of a section next to [prev], with its index. *)
Definition search_in_micro_cell_buffer (key_size element_size : nat) (buffer : list Z) (prev : option (list Z))
    (direction : Direction) : outcome (option (list Z * WalPosition * nat)) :=
  match buffer with
  | [] => Ok None
  | _ =>
      let entry_count := (length buffer / element_size)%nat in
      if (entry_count =? 0)%nat then Ok None
      else
        start_pos ← (match prev with
                     | Some prev_key =>
                         '(found_pos, insertion_point, _) ← binary_search buffer prev_key element_size key_size;
                         Ok (step_from direction found_pos insertion_point)
                     | None => Ok (Some (first_in_range direction 0 entry_count))
                     end);
        match start_pos with
        | None => Ok None
        | Some start_pos =>
            if (entry_count <=? start_pos)%nat then Ok None
            else e ← entry_at buffer element_size key_size start_pos; Ok (Some (e, start_pos))
        end
  end.

(** The flat-buffer wrappers of index_table/mod.rs. *)
Definition flat_varlen_count (buffer : list Z) : nat := flat_count buffer None.

Definition flat_varlen_entry_at (buffer : list Z) (idx : nat) : outcome (list Z * WalPosition) :=
  '(key, iwp) ← flat_entry_at buffer None idx;
  Ok (key, into_update_position iwp).

Definition flat_varlen_lower_bound (buffer key : list Z) : outcome nat := flat_lower_bound buffer None key.

Definition flat_varlen_lookup (buffer key : list Z) : outcome (option WalPosition) :=
  idx ← flat_lower_bound buffer None key;
  if (flat_count buffer None <=? idx)%nat then Ok None
  else
    '(found_key, iwp) ← flat_entry_at buffer None idx;
    Ok (if keqb found_key key then Some (into_update_position iwp) else None).

Definition append_flat_varlen_section (entries : list (list Z * WalPosition)) (out : list Z) : outcome (list Z) :=
  append_flat_varlen (List.map (fun e => (e.1, iwp_from_disk e.2)) entries) out.

Definition search_in_varlen_micro_cell_buffer (buffer : list Z) (prev : option (list Z)) (direction : Direction) :
    outcome (option (list Z * WalPosition * nat)) :=
  let count := flat_varlen_count buffer in
  if (count =? 0)%nat then Ok None
  else
    start_pos ← (match prev with
                 | Some prev_key =>
                     lb ← flat_varlen_lower_bound buffer prev_key;
                     match direction with
                     | Forward =>
                         exact ← (if (lb <? count)%nat then
                                    '(key, _) ← flat_varlen_entry_at buffer lb; Ok (keqb key prev_key)
                                  else Ok false);
                         Ok (Some (if exact : bool then (lb + 1)%nat else lb))
                     | Backward => Ok (match lb with O => None | S p => Some p end)
                     end
                 | None => Ok (Some (first_in_range direction 0 count))
                 end);
    match start_pos with
    | None => Ok None
    | Some start_pos =>
        if (count <=? start_pos)%nat then Ok None
        else e ← flat_varlen_entry_at buffer start_pos; Ok (Some (e, start_pos))
    end.

(** ** The walk over micro-cells *)

(** How a layout reads a section: number of entries, the entry at an index, the
    search for the entry next to a cursor. *)
Record SectionOps := mkSectionOps {
  so_count : list Z -> nat;
  so_entry_at : list Z -> nat -> outcome (list Z * WalPosition);
  so_search : list Z -> option (list Z) -> Direction -> outcome (option (list Z * WalPosition * nat));
}.

Definition fixed_sections (key_size element_size : nat) : SectionOps :=
  mkSectionOps (fun buffer => length buffer / element_size)%nat
    (fun buffer pos => entry_at buffer element_size key_size pos)
    (search_in_micro_cell_buffer key_size element_size).

Definition varlen_sections : SectionOps :=
  mkSectionOps flat_varlen_count flat_varlen_entry_at search_in_varlen_micro_cell_buffer.

(** The buffer of the current micro-cell, when the cache has it. *)
Definition cache_hit (cache : option IndexIterCache) (current_micro_cell : Z) : option (list Z * nat) :=
  match cache with
  | Some (CacheLookupHeader _ cached_mc buffer last_returned_pos) =>
      if cached_mc =? current_micro_cell then Some (buffer, last_returned_pos) else None
  | _ => None
  end.

(** [last_pos ± 1] inside a section. *)
Definition adjacent (direction : Direction) (last_pos count : nat) : option nat :=
  match direction with
  | Forward => let p := (last_pos + 1)%nat in if (p <? count)%nat then Some p else None
  | Backward => match last_pos with O => None | S p => Some p end
  end.

(** What one turn finds in the current micro-cell, and the cache it leaves. *)
Definition micro_cell_turn (ops : SectionOps) (reader : list Z) (prev : option (list Z)) (direction : Direction)
    (position : WalPosition) (cache : option IndexIterCache) (current_micro_cell : Z) :
    outcome (option (list Z * WalPosition * nat) * option IndexIterCache) :=
  match cache_hit cache current_micro_cell with
  | Some (buffer, last_pos) =>
      match prev with
      | Some prev_key =>
          '(key_at_last, _) ← so_entry_at ops buffer last_pos;
          if keqb key_at_last prev_key then
            match adjacent direction last_pos (so_count ops buffer) with
            | Some next_pos => e ← so_entry_at ops buffer next_pos; Ok (Some (e, next_pos), cache)
            | None => Ok (None, cache)
            end
          else r ← so_search ops buffer prev direction; Ok (r, cache)
      | None => r ← so_search ops buffer prev direction; Ok (r, cache)
      end
  | None =>
      section ← read_micro_cell_section reader current_micro_cell;
      match section with
      | None => Ok (None, cache)
      | Some buffer =>
          r ← so_search ops buffer prev direction;
          Ok (r, Some (CacheLookupHeader position current_micro_cell buffer 0))
      end
  end.

Definition set_last_returned (cache : option IndexIterCache) (pos : nat) : option IndexIterCache :=
  match cache with
  | Some (CacheLookupHeader p mc buffer _) => Some (CacheLookupHeader p mc buffer pos)
  | c => c
  end.

(** One turn per micro-cell; every way a turn ends without an entry drops the
    cache and moves to the next micro-cell. *)
Fixpoint micro_cell_loop (fuel : nat) (ops : SectionOps) (reader : list Z) (prev : option (list Z)) (direction : Direction)
    (position : WalPosition) (cache : option IndexIterCache) (current_micro_cell : Z) :
    outcome (option (list Z * WalPosition) * option IndexIterCache) :=
  match fuel with
  | O => Panic "out of fuel"
  | S fuel =>
      '(result, cache) ← micro_cell_turn ops reader prev direction position cache current_micro_cell;
      match result with
      | Some (e, entry_pos) => Ok (Some e, set_last_returned cache entry_pos)
      | None =>
          match next_bounded current_micro_cell (Z.of_nat HEADER_ELEMENTS) (bool_decide (direction = Backward)) with
          | None => Ok (None, None)
          | Some mc => micro_cell_loop fuel ops reader prev direction position None mc
          end
      end
  end.

(** The layout's sections, from the key space. *)
Definition section_ops (ks : KeySpaceDesc) : outcome SectionOps :=
  sizes ← index_key_element_size ks;
  Ok (match sizes with Some (key_size, element_size) => fixed_sections key_size element_size | None => varlen_sections end).

Definition assert_key_size (ks : KeySpaceDesc) (key : list Z) : outcome unit :=
  match ks_index_key_size ks with
  | Some key_size => assert_that (length key =? key_size)%nat "assertion failed: key.len() == key_size"
  | None => Ok tt
  end.

Definition header_next_entry_unloaded (ks : KeySpaceDesc) (reader : list Z) (prev : option (list Z)) (direction : Direction)
    (position : WalPosition) (cache : option IndexIterCache) :
    outcome (option (list Z * WalPosition) * option IndexIterCache) :=
  let cache := drop_stale cache position in
  start_micro_cell ←
    (match prev with
     | Some prev_key => _ ← assert_key_size ks prev_key; key_micro_cell ks prev_key
     | None => Ok (Z.of_nat (first_in_range direction 0 HEADER_ELEMENTS))
     end);
  ops ← section_ops ks;
  micro_cell_loop HEADER_ELEMENTS ops reader prev direction position cache start_micro_cell.

(** A step leaves nothing in the cache, or a section of the blob it read. *)
Lemma micro_cell_loop_cache fuel ops reader prev d position c mc r c' :
  cache_at position c -> micro_cell_loop fuel ops reader prev d position c mc = Ok (r, c') -> cache_at position c'.
Proof.
  revert c mc. induction fuel as [|fuel IH]; intros c mc Hc; [done|]. cbn [micro_cell_loop].
  intros ([res c1] & Ht & H)%outcome_bind_ok.
  assert (cache_at position c1) as Hc1.
  { unfold micro_cell_turn in Ht. destruct (cache_hit c mc) as [[b lp]|].
    - assert (forall m : outcome (option (list Z * WalPosition * nat)), (r ← m; Ok (r, c)) = Ok (res, c1) -> cache_at position c1) as Hm.
      { intros m (x & _ & Hx)%outcome_bind_ok. by injection Hx as _ <-. }
      destruct prev as [key|]; [|by eapply Hm]. apply outcome_bind_ok in Ht as ([kl w] & _ & Ht).
      destruct (keqb kl key); [|by eapply Hm]. destruct (adjacent _ _ _); [|by injection Ht as _ <-].
      apply outcome_bind_ok in Ht as (e & _ & Ht). by injection Ht as _ <-.
    - apply outcome_bind_ok in Ht as ([b|] & _ & Ht); [|by injection Ht as _ <-].
      apply outcome_bind_ok in Ht as (x & _ & Ht). injection Ht as _ <-. by intros y [= <-]. }
  destruct res as [[e p]|].
  - injection H as _ <-. destruct c1 as [[p1 m1 b1 l1|]|]; [|done|done]. specialize (Hc1 _ eq_refl). by intros x [= <-].
  - destruct (next_bounded _ _ _); [|by injection H as _ <-]. eapply IH; [|exact H]. done.
Qed.

Lemma header_next_cache ks reader prev d position c r c' :
  header_next_entry_unloaded ks reader prev d position c = Ok (r, c') -> cache_at position c'.
Proof.
  unfold header_next_entry_unloaded. intros (m & _ & H)%outcome_bind_ok. apply outcome_bind_ok in H as (ops & _ & H).
  eapply micro_cell_loop_cache; [apply drop_stale_at|exact H].
Qed.

(** The search inside a section. *)
Definition section_lookup (ks : KeySpaceDesc) (buffer key : list Z) : outcome (option WalPosition) :=
  sizes ← index_key_element_size ks;
  match sizes with
  | Some (key_size, element_size) => '(_, _, pos) ← binary_search buffer key element_size key_size; Ok pos
  | None => flat_varlen_lookup buffer key
  end.

Definition header_lookup_unloaded (ks : KeySpaceDesc) (reader key : list Z) : outcome (option WalPosition) :=
  _ ← assert_key_size ks key;
  micro_cell ← key_micro_cell ks key;
  buffer ← read_micro_cell_section reader micro_cell;
  match buffer with
  | None => Ok None
  | Some buffer => section_lookup ks buffer key
  end.

(** ** Writing *)

Record IndexTableHeaderBuilder := mkHeaderBuilder {
  hb_header : list (Z * Z);
  hb_last_micro_cell : option Z;
}.

Definition header_builder_new : IndexTableHeaderBuilder := mkHeaderBuilder (replicate HEADER_ELEMENTS (0, 0)) None.

Definition check_offset (offset : nat) : outcome Z :=
  _ ← assert_that (Z.of_nat offset <? u32_max) "Index table is too large";
  Ok (Z.of_nat offset).

(** [header[i] = f(header[i])] *)
Definition header_update (header : list (Z * Z)) (i : Z) (f : Z * Z -> Z * Z) : outcome (list (Z * Z)) :=
  old ← expect (header !! Z.to_nat i) "index out of bounds";
  Ok (<[Z.to_nat i := f old]> header).

Definition add_key (ks : KeySpaceDesc) (b : IndexTableHeaderBuilder) (key : list Z) (offset : nat) :
    outcome IndexTableHeaderBuilder :=
  offset ← check_offset offset;
  micro_cell ← key_micro_cell ks key;
  match hb_last_micro_cell b with
  | Some last_micro_cell =>
      if last_micro_cell =? micro_cell then Ok b
      else
        header ← header_update (hb_header b) last_micro_cell (fun r => (r.1, offset));
        header ← header_update header micro_cell (fun r => (offset, r.2));
        Ok (mkHeaderBuilder header (Some micro_cell))
  | None =>
      header ← header_update (hb_header b) micro_cell (fun r => (offset, r.2));
      Ok (mkHeaderBuilder header (Some micro_cell))
  end.

Fixpoint add_keys (ks : KeySpaceDesc) (b : IndexTableHeaderBuilder) (visits : list (list Z * nat)) :
    outcome IndexTableHeaderBuilder :=
  match visits with
  | [] => Ok b
  | (key, offset) :: rest => b ← add_key ks b key offset; add_keys ks b rest
  end.

Definition header_bytes (header : list (Z * Z)) : list Z :=
  concat (List.map (fun r => be_bytes 4 r.1 ++ be_bytes 4 r.2) header).

Definition write_header (b : IndexTableHeaderBuilder) (end_offset : nat) (out : list Z) : outcome (list Z) :=
  end_offset ← check_offset end_offset;
  header ← (match hb_last_micro_cell b with
            | Some last_micro_cell => header_update (hb_header b) last_micro_cell (fun r => (r.1, end_offset))
            | None => Ok (hb_header b)
            end);
  Ok (copy_at out 0 (header_bytes header)).

(** [mc_entries.entry(mc).or_default().push(e)] *)
Definition group_push {X} (groups : list (Z * list X)) (mc : Z) (e : X) : list (Z * list X) :=
  bt_insert mc (default [] (bt_get mc groups) ++ [e]) groups.

Fixpoint group_entries (ks : KeySpaceDesc) (groups : list (Z * list (list Z * WalPosition)))
    (entries : list (list Z * WalPosition)) : outcome (list (Z * list (list Z * WalPosition))) :=
  match entries with
  | [] => Ok groups
  | e :: rest => mc ← key_micro_cell ks e.1; group_entries ks (group_push groups mc e) rest
  end.

Fixpoint write_sections (groups : list (Z * list (list Z * WalPosition))) (header : list (Z * Z)) (out : list Z) :
    outcome (list (Z * Z) * list Z) :=
  match groups with
  | [] => Ok (header, out)
  | (mc, entries) :: rest =>
      let from := wrap32 (Z.of_nat (length out)) in
      out ← append_flat_varlen_section entries out;
      header ← header_update header mc (fun _ => (from, wrap32 (Z.of_nat (length out))));
      write_sections rest header out
  end.

Definition header_serialize_index (table : IndexTable) (ks : KeySpaceDesc) : outcome (list Z) :=
  let out := replicate HEADER_SIZE 0 in
  match ks_index_key_size ks with
  | Some _ =>
      '(out, visits) ← serialize_index_entries_with_visitor table (ks_index_key_size ks) out [];
      header ← add_keys ks header_builder_new visits;
      write_header header (length out) out
  | None =>
      entries ← iter_with_tombstones table;
      groups ← group_entries ks [] entries;
      '(header, out) ← write_sections groups (replicate HEADER_ELEMENTS (0, 0)) out;
      Ok (copy_at out 0 (header_bytes header))
  end.

(** ** Loading *)

(** A big-endian u32 at an offset of a buffer. *)
Definition u32_at (b : list Z) (at_ : nat) : outcome Z := s ← slice b at_ (at_ + 4); Ok (be_val s).

(** The non-empty sections: start, end and number of entries. *)
Fixpoint gather_sections (b : list Z) (mcs : list nat) : outcome (list (nat * nat * nat)) :=
  match mcs with
  | [] => Ok []
  | mc :: rest =>
      let hs := (mc * HEADER_ELEMENT_SIZE)%nat in
      from ← u32_at b hs;
      to ← u32_at b (hs + 4);
      if (from =? 0) && (to =? 0) then gather_sections b rest
      else
        section ← slice b (Z.to_nat from) (Z.to_nat to);
        count ← u32_at section 0;
        more ← gather_sections b rest;
        Ok (if count =? 0 then more else (Z.to_nat from, Z.to_nat to, Z.to_nat count) :: more)
  end.

(** The offsets of one section, moved by [cum]. *)
Fixpoint splice_offsets (section : list Z) (cum : Z) (i count : nat) : outcome (list Z) :=
  match count with
  | O => Ok []
  | S count =>
      off_local ← u32_at section (4 + 4 * i);
      rest ← splice_offsets section cum (S i) count;
      Ok (be_bytes 4 (wrap32 (off_local + cum)) ++ rest)
  end.

Fixpoint splice_tables (b : list Z) (sections : list (nat * nat * nat)) (cum : Z) : outcome (list Z) :=
  match sections with
  | [] => Ok []
  | (from, to, count) :: rest =>
      section ← slice b from to;
      offsets ← splice_offsets section cum 0 count;
      let entries_bytes := (to - from - (4 + 4 * count))%nat in
      more ← splice_tables b rest (wrap32 (cum + wrap32 (Z.of_nat entries_bytes)));
      Ok (offsets ++ more)
  end.

Fixpoint splice_entries (b : list Z) (sections : list (nat * nat * nat)) : outcome (list Z) :=
  match sections with
  | [] => Ok []
  | (from, to, count) :: rest =>
      entries ← slice b (from + (4 + 4 * count)) to;
      more ← splice_entries b rest;
      Ok (entries ++ more)
  end.

Definition deserialize_varlen_index (b : list Z) : outcome IndexTable :=
  sections ← gather_sections b (seq 0 HEADER_ELEMENTS);
  let total_count := foldr (fun s n => (s.2 + n)%nat) 0%nat sections in
  if (total_count =? 0)%nat then Ok (from_varlen_flat_bytes [])
  else
    offsets ← splice_tables b sections 0;
    entries ← splice_entries b sections;
    Ok (from_varlen_flat_bytes (be_bytes 4 (wrap32 (Z.of_nat total_count)) ++ offsets ++ entries)).

Definition header_deserialize_index (ks : KeySpaceDesc) (b : list Z) : outcome IndexTable :=
  match ks_index_key_size ks with
  | Some _ => body ← slice_from b HEADER_SIZE; deserialize_index_entries (ks_index_key_size ks) body
  | None => deserialize_varlen_index b
  end.

(** [LookupHeaderIndex] has no state. *)
Inductive LookupHeaderIndex := LookupHeader.

#[export] Instance header_format : IndexFormat LookupHeaderIndex := {
  serialize_index := fun _ => header_serialize_index;
  deserialize_index := fun _ => header_deserialize_index;
  lookup_unloaded := fun _ => header_lookup_unloaded;
  next_entry_unloaded := fun _ => header_next_entry_unloaded;
}.
