(* ===== verification/LookupHeaderFacts.v ===== *)
(** * Facts about the lookup-header format

    The blob as a header of ranges and a body of sections, one per group of keys
    with the same micro-cell: reading a micro-cell returns its group, and the
    walk over micro-cells returns the nearest entry, with a valid cache or
    without.  Then the two writers build such blobs, for either key layout. *)

From Stdlib Require Import ZArith Lia List Sorting.Sorted.
From stdpp Require Import base tactics list strings.
From S2P Require Import Prelude BTree Bytes Position Cell Layout KeyShape Flat FlatFacts IndexTable IndexOps.
From S2P Require Import IndexTableFacts IndexWalk IndexPromote IndexFlush IndexUnmerge IndexCodec IndexClean.
From S2P Require Import Levels IterCache Loader IndexFormat LookupHeader.

Local Open Scope Z_scope.

Abbreviation HE := (Z.of_nat HEADER_ELEMENTS).

(** ** Header bytes *)

Lemma length_header_bytes hs : length (header_bytes hs) = (length hs * HEADER_ELEMENT_SIZE)%nat.
Proof.
  unfold header_bytes, HEADER_ELEMENT_SIZE. induction hs as [|h hs IH]; [done|]. cbn [List.map concat length].
  rewrite !length_app, !length_be_bytes, IH. lia.
Qed.

Lemma header_bytes_app a b : header_bytes (a ++ b) = header_bytes a ++ header_bytes b.
Proof. unfold header_bytes. by rewrite map_app, concat_app. Qed.

(** The bytes around element [c]. *)
Lemma header_bytes_at hs c f t :
  hs !! c = Some (f, t) ->
  exists a b, header_bytes hs = a ++ be_bytes 4 f ++ be_bytes 4 t ++ b /\ length a = (c * HEADER_ELEMENT_SIZE)%nat.
Proof.
  intros Hc. exists (header_bytes (take c hs)), (header_bytes (drop (S c) hs)). split.
  - rewrite <- (take_drop_middle hs c (f, t) Hc) at 1. rewrite header_bytes_app. unfold header_bytes at 2.
    cbn [List.map concat fst snd]. by rewrite <- !app_assoc.
  - rewrite length_header_bytes, length_take. apply lookup_lt_Some in Hc. lia.
Qed.

Lemma u32_at_mid a z b : is_u32 z -> u32_at (a ++ be_bytes 4 z ++ b) (length a) = Ok z.
Proof.
  intros Hz. unfold u32_at. rewrite (slice_mid _ a (be_bytes 4 z) b) by (done || by rewrite length_be_bytes).
  cbn [mbind outcome_bind]. by rewrite be_val_u32.
Qed.

(** ** Groups and their sections *)

Section groups.
Context {V : Type} (mc : list Z -> Z) (enc : list (list Z * V) -> list Z).

(** The entries by micro-cell: ascending, none empty. *)
Definition groups_ok (groups : list (Z * list (list Z * V))) (L : list (list Z * V)) : Prop :=
  bt_sorted groups /\
  Forall (fun g => 0 <= g.1 < HE /\ g.2 <> [] /\ Forall (fun e => mc e.1 = g.1) g.2) groups /\
  concat (List.map snd groups) = L.

Definition body (groups : list (Z * list (list Z * V))) : list Z := concat (List.map (fun g => enc g.2) groups).

(** The byte range of micro-cell [c], for sections starting at [base]. *)
Fixpoint range_of (base : nat) (groups : list (Z * list (list Z * V))) (c : Z) : Z * Z :=
  match groups with
  | [] => (0, 0)
  | (m, g) :: rest =>
      if c =? m then (Z.of_nat base, Z.of_nat (base + length (enc g)))
      else range_of (base + length (enc g)) rest c
  end.

Definition header_of (groups : list (Z * list (list Z * V))) : list (Z * Z) :=
  List.map (fun c => range_of HEADER_SIZE groups (Z.of_nat c)) (seq 0 HEADER_ELEMENTS).

Definition blob_of (groups : list (Z * list (list Z * V))) : list Z := header_bytes (header_of groups) ++ body groups.

Lemma body_app a b : body (a ++ b) = body a ++ body b.
Proof. unfold body. by rewrite map_app, concat_app. Qed.

Lemma length_header_of groups : length (header_bytes (header_of groups)) = HEADER_SIZE.
Proof. rewrite length_header_bytes. unfold header_of. by rewrite length_map, length_seq. Qed.

Lemma header_of_lookup groups c :
  0 <= c < HE -> header_of groups !! Z.to_nat c = Some (range_of HEADER_SIZE groups c).
Proof.
  intros Hc. unfold header_of. rewrite list_lookup_fmap, lookup_seq_lt by lia. cbn. by rewrite Z2Nat.id by lia.
Qed.

Lemma range_of_get base groups c :
  bt_sorted groups ->
  match bt_get c groups with
  | None => range_of base groups c = (0, 0)
  | Some g => exists pre post, groups = pre ++ (c, g) :: post /\
      range_of base groups c =
      (Z.of_nat (base + length (body pre)), Z.of_nat (base + length (body pre) + length (enc g)))
  end.
Proof.
  revert base. induction groups as [|[m g] groups IH]; intros base Hs; [done|].
  apply bt_sorted_cons in Hs as [Hs Hf]. cbn [range_of bt_get]. change (kcmp c m) with (c ?= m).
  destruct (Z.eqb_spec c m) as [->|Hne].
  - rewrite Z.compare_refl. exists [], groups. cbn. by rewrite Nat.add_0_r.
  - specialize (IH (base + length (enc g))%nat Hs). destruct (c ?= m) eqn:E.
    + by apply Z.compare_eq in E.
    + rewrite (bt_get_above c groups) in IH; [done|]. by apply (Forall_klt_trans c m).
    + destruct (bt_get c groups) as [g'|]; [|done]. destruct IH as (pre & post & -> & ->).
      exists ((m, g) :: pre), post. split; [done|]. unfold body. cbn [List.map concat snd]. rewrite length_app.
      f_equal; lia.
Qed.

Lemma range_of_snoc base groups m g c :
  bt_get m groups = None -> bt_sorted groups ->
  range_of base (groups ++ [(m, g)]) c =
  if c =? m then (Z.of_nat (base + length (body groups)), Z.of_nat (base + length (body groups) + length (enc g)))
  else range_of base groups c.
Proof.
  intros Hm Hs. assert (Forall (fun g => g.1 <> m) groups) as Hne.
  { apply List.Forall_forall. intros [m' g'] Hin E. cbn in E. subst m'. apply (bt_get_In m g' groups Hs) in Hin. congruence. }
  clear Hm Hs. revert base. induction Hne as [|[m' g'] groups Hm _ IH]; intros base; cbn [app range_of].
  - cbn. by rewrite Nat.add_0_r.
  - rewrite IH. destruct (Z.eqb_spec c m') as [->|].
    + destruct (Z.eqb_spec m' m) as [->|]; [done|done].
    + destruct (c =? m); [|done]. unfold body. cbn [List.map concat snd]. rewrite length_app. f_equal; lia.
Qed.

(** Reading a micro-cell. *)
Lemma read_section_ok groups L c :
  groups_ok groups L -> Z.of_nat (length (blob_of groups)) < u32_max -> 0 <= c < HE ->
  read_micro_cell_section (blob_of groups) c = Ok (option_map enc (bt_get c groups)).
Proof.
  intros (Hs & _ & _) Hlen Hc. unfold read_micro_cell_section. cbv zeta.
  pose proof (header_of_lookup groups c Hc) as Hl. pose proof (range_of_get HEADER_SIZE groups c Hs) as Hr.
  pose proof (length_header_of groups) as HH. set (hs := header_of groups) in *. destruct (range_of HEADER_SIZE groups c) as [f t].
  destruct (header_bytes_at hs _ f t Hl) as (a & b & Hab & Ha).
  assert (is_u32 f /\ is_u32 t) as [Hf Ht].
  { destruct (bt_get c groups) as [g|]; [|injection Hr as -> ->; split; unfold is_u32; lia].
    destruct Hr as (pre & post & -> & [-> ->]%pair_equal_spec). revert Hlen. unfold blob_of. fold hs. rewrite length_app, HH, body_app.
    unfold body at 2. cbn [List.map concat snd]. rewrite !length_app. unfold is_u32, u32_max in *. lia. }
  assert (random_read (blob_of groups) (Z.to_nat c * HEADER_ELEMENT_SIZE) ((Z.to_nat c + 1) * HEADER_ELEMENT_SIZE) =
          Ok (be_bytes 4 f ++ be_bytes 4 t)) as ->.
  { unfold random_read, blob_of. fold hs. rewrite Hab. apply (slice_mid _ a (be_bytes 4 f ++ be_bytes 4 t) (b ++ body groups)).
    - by rewrite <- !app_assoc.
    - by rewrite Ha.
    - rewrite length_app, !length_be_bytes, Ha. unfold HEADER_ELEMENT_SIZE. lia. }
  cbn [mbind outcome_bind]. unfold get_u32. rewrite get_be_app by (by unfold is_u32 in Hf). cbn [mbind outcome_bind].
  rewrite <- (app_nil_r (be_bytes 4 t)), get_be_app by (by unfold is_u32 in Ht). cbn [mbind outcome_bind].
  destruct (bt_get c groups) as [g|]; [|by injection Hr as -> ->].
  destruct Hr as (pre & post & -> & [-> ->]%pair_equal_spec).
  destruct (Z.eqb_spec (Z.of_nat (HEADER_SIZE + length (body pre))) 0) as [E|_]; [unfold HEADER_SIZE in E; cbn in E; lia|].
  cbn [andb option_map]. rewrite !Nat2Z.id. unfold random_read.
  rewrite (slice_mid _ (header_bytes hs ++ body pre) (enc g) (body post)); [done| | |].
  - unfold blob_of. fold hs. rewrite body_app. unfold body at 2. cbn [List.map concat snd]. by rewrite <- !app_assoc.
  - by rewrite length_app, HH.
  - by rewrite length_app, HH.
Qed.

(** ** Growing groups in key order *)

Lemma bt_insert_past {W} (m : Z) (w : W) pre suf :
  Forall (fun g => g.1 < m) pre -> bt_insert m w (pre ++ suf) = pre ++ bt_insert m w suf.
Proof.
  induction 1 as [|[m' g] pre Hm Hf IH]; [done|]. cbn [app bt_insert]. change (kcmp m m') with (m ?= m'). cbn in Hm.
  destruct (Z.compare_spec m m'); [lia|lia|]. by rewrite IH.
Qed.

(** The last group is the one of the last key; a new key extends it or starts
    the next one. *)
Lemma group_push_ok groups L m e :
  groups_ok groups L -> Forall (fun x => mc x.1 <= m) L -> mc e.1 = m -> 0 <= m < HE ->
  groups_ok (group_push groups m e) (L ++ [e]) /\
  ((exists pre g, groups = pre ++ [(m, g)] /\ group_push groups m e = pre ++ [(m, g ++ [e])]) \/
   (bt_get m groups = None /\ group_push groups m e = groups ++ [(m, [e])])).
Proof.
  intros (Hs & Hg & <-) Hle Hm Hr.
  assert (Forall (fun g => g.1 <= m) groups) as Hgm.
  { apply List.Forall_forall. intros [m' g] Hin. rewrite List.Forall_forall in Hg, Hle. destruct (Hg _ Hin) as (_ & Hne & Hf).
    cbn in *. destruct g as [|x g]; [done|]. apply Forall_cons in Hf as [<- _]. apply Hle. apply in_concat.
    exists (x :: g). split; [|by left]. apply in_map_iff. by exists (mc x.1, x :: g). }
  assert ((exists pre g, groups = pre ++ [(m, g)] /\ Forall (fun g => g.1 < m) pre) \/ Forall (fun g => g.1 < m) groups) as Hcase.
  { destruct (list_eq_nil_dec groups) as [->|Hne]; [by right|]. destruct (exists_last Hne) as (pre & [m' g] & ->).
    apply Forall_app in Hgm as [_ Hm']. apply Forall_cons in Hm' as [Hm' _]. cbn [fst] in Hm'.
    apply StronglySorted_app_inv in Hs as (_ & _ & Hx).
    assert (Forall (fun g => g.1 < m') pre) as Hpre.
    { apply List.Forall_forall. intros y Hy. specialize (Hx y (m', g) Hy ltac:(by left)). unfold klt in Hx.
      change (kcmp y.1 (m', g).1) with (y.1 ?= m') in Hx. by apply Z.compare_lt_iff. }
    destruct (decide (m' = m)) as [->|]; [left; by exists pre, g|]. right. apply Forall_app. split.
    - eapply Forall_impl; [exact Hpre|]. intros y Hy. cbv beta in *. lia.
    - constructor; [cbn [fst]; lia|done]. }
  unfold group_push. destruct Hcase as [(pre & g & -> & Hpre)|Hlt].
  - assert (bt_get m (pre ++ [(m, g)]) = Some g) as ->.
    { apply bt_get_In; [done|]. apply in_or_app. right. by left. }
    cbn [default]. rewrite bt_insert_past by done. cbn [bt_insert]. rewrite kcmp_refl. split.
    + apply Forall_app in Hg as [Hg1 Hg2]. apply Forall_cons in Hg2 as [(_ & Hne & Hf) _]. split_and!.
      * apply StronglySorted_app_inv in Hs as (Hs1 & _ & Hx). apply StronglySorted_app_intro; [done|repeat constructor|].
        intros x y Hy [<-|[]]. by apply (Hx x (m, g)); [|left].
      * apply Forall_app. split; [done|]. constructor; [|done]. cbn. split_and!; [lia|lia|by destruct g|].
        apply Forall_app. split; [done|]. by constructor.
      * rewrite !map_app, !concat_app. cbn. rewrite !app_nil_r. by rewrite app_assoc.
    + left. by exists pre, g.
  - assert (bt_get m groups = None) as Hn.
    { apply bt_get_None; [done|]. intros w Hin. rewrite List.Forall_forall in Hlt. specialize (Hlt _ Hin). cbn in Hlt. lia. }
    rewrite Hn. cbn [default app]. assert (bt_insert m [e] groups = groups ++ [(m, [e])]) as ->.
    { rewrite <- (app_nil_r groups) at 1. by rewrite bt_insert_past. }
    split.
    + split_and!.
      * apply StronglySorted_app_intro; [done|repeat constructor|]. intros x y Hx [<-|[]].
        rewrite List.Forall_forall in Hlt. unfold klt. change (kcmp x.1 (m, [e]).1) with (x.1 ?= m). apply Z.compare_lt_iff. auto.
      * apply Forall_app. split; [done|]. constructor; [|done]. cbn. split_and!; [lia|lia|done|]. by constructor.
      * by rewrite map_app, concat_app.
    + by right.
Qed.
End groups.

(** ** Nearest entries across groups *)

Lemma nearest_app {V} (a b : list (list Z * V)) prev d :
  nearest (a ++ b) prev d =
  match d with
  | Forward => or_else (nearest a prev d) (nearest b prev d)
  | Backward => or_else (nearest b prev d) (nearest a prev d)
  end.
Proof.
  destruct d; cbn [nearest].
  - assert (forall l r : list (list Z * V), head (l ++ r) = or_else (head l) (head r)) as Hh by (by intros [|]).
    destruct prev; [|apply Hh]. unfold bt_above. by rewrite List.filter_app, Hh.
  - assert (forall l r : list (list Z * V), last (l ++ r) = or_else (last r) (last l)) as Hl.
    { intros l r. rewrite last_app. by destruct (last r). }
    destruct prev; [|apply Hl]. unfold bt_below. by rewrite List.filter_app, Hl.
Qed.

(** A section is its own window. *)
Lemma whole_window {V} (g : list (list Z * V)) : window g 0 (length g) = g.
Proof. unfold window. by rewrite drop_0, Nat.sub_0_r, firstn_all. Qed.

Lemma whole_covers {V} (g : list (list Z * V)) key : covers g key 0 (length g).
Proof. split; [lia|]. intros x e Hx%lookup_lt_Some Hge. lia. Qed.

(** What a step found in a section is its nearest entry. *)
Lemma section_step {V} (g : list (list Z * V)) key d f l :
  bt_sorted g -> g <> [] -> found_in g key 0 (length g) f l ->
  nearest g (Some key) d = (step_from d f l) ≫= fun p => g !! p.
Proof.
  intros Hs Hne Hf. assert (0 < length g)%nat by (destruct g; [done|cbn; lia]).
  pose proof (step_ok g Hs d key 0 (length g) f l ltac:(done) ltac:(done) (whole_covers g key) Hf) as Hst.
  rewrite whole_window, Nat.sub_0_r in Hst. destruct (step_from d f l) as [p|]; cbn.
  - destruct Hst as [Hlt Hge]. destruct (decide (p < length g)%nat) as [Hp|Hp]; [by apply Hlt|].
    destruct (Hge ltac:(lia)) as (_ & HN & _). rewrite HN by done. symmetry. apply lookup_ge_None_2. lia.
  - by destruct Hst as (_ & -> & _).
Qed.

Lemma adjacent_step {V} (g : list (list Z * V)) d p : (p < length g)%nat ->
  (step_from d (Some p) 0 ≫= fun q => g !! q) = (adjacent d p (length g) ≫= fun q => g !! q) /\
  forall q, adjacent d p (length g) = Some q -> (q < length g)%nat.
Proof.
  intros Hp. destruct d; cbn [step_from adjacent].
  - destruct (Nat.ltb_spec (p + 1) (length g)); cbn.
    + split; [done|]. by intros q [= <-].
    + split; [apply lookup_ge_None_2; lia|done].
  - destruct p as [|p]; [done|]. split; [done|]. intros q [= <-]. lia.
Qed.

Section cells.
Context {V : Type}.

(** The entries from micro-cell [c] on, in the direction of the walk. *)
Definition cells_from (d : Direction) (c : Z) (groups : list (Z * list (list Z * V))) : list (list Z * V) :=
  concat (List.map snd (List.filter (fun g => match d with Forward => c <=? g.1 | Backward => g.1 <=? c end) groups)).

Lemma cells_from_forward c groups :
  bt_sorted groups -> cells_from Forward c groups = default [] (bt_get c groups) ++ cells_from Forward (c + 1) groups.
Proof.
  unfold cells_from. induction groups as [|[m g] groups IH]; intros Hs; [done|].
  apply bt_sorted_cons in Hs as [Hs Hf]. specialize (IH Hs). cbn [List.filter bt_get fst]. change (kcmp c m) with (c ?= m).
  destruct (Z.compare_spec c m) as [->|Hlt|Hgt].
  - rewrite Z.leb_refl. destruct (Z.leb_spec (m + 1) m); [lia|]. cbn [List.map concat snd default]. f_equal.
    rewrite IH, bt_get_above by done. done.
  - destruct (Z.leb_spec c m); [|lia]. destruct (Z.leb_spec (c + 1) m); [|lia]. cbn [List.map concat snd default app]. f_equal.
    rewrite IH, bt_get_above; [done|]. by apply (Forall_klt_trans c m).
  - destruct (Z.leb_spec c m); [lia|]. destruct (Z.leb_spec (c + 1) m); [lia|]. exact IH.
Qed.

Lemma cells_from_backward c groups :
  bt_sorted groups -> cells_from Backward c groups = cells_from Backward (c - 1) groups ++ default [] (bt_get c groups).
Proof.
  unfold cells_from. induction groups as [|[m g] groups IH]; intros Hs; [done|].
  apply bt_sorted_cons in Hs as [Hs Hf]. specialize (IH Hs). cbn [List.filter bt_get fst]. change (kcmp c m) with (c ?= m).
  assert (forall c', c' <= m -> List.filter (fun g : Z * list (list Z * V) => g.1 <=? c') groups = []) as Hnone.
  { intros c' Hc. apply filter_none. eapply Forall_impl; [exact Hf|]. intros [m' g'] Hm. apply Z.leb_gt.
    unfold klt in Hm. change (m < m') in Hm. cbn [fst]. lia. }
  destruct (Z.compare_spec c m) as [->|Hlt|Hgt].
  - rewrite Z.leb_refl. destruct (Z.leb_spec m (m - 1)); [lia|]. cbn [List.map concat snd default].
    rewrite !Hnone by lia. cbn. by rewrite app_nil_r.
  - destruct (Z.leb_spec m c); [lia|]. destruct (Z.leb_spec m (c - 1)); [lia|]. rewrite !Hnone by lia. done.
  - destruct (Z.leb_spec m c); [|lia]. destruct (Z.leb_spec m (c - 1)); [|lia]. cbn [List.map concat snd]. rewrite IH.
    by rewrite app_assoc.
Qed.
End cells.

(** ** The walk *)

Section walk.
Context {V : Type} (mc : list Z -> Z) (enc : list (list Z * V) -> list Z) (outv : V -> WalPosition).
Context (valid : list (list Z * V) -> Prop) (ops : SectionOps).

Definition result_of (x : list Z * V) : list Z * WalPosition := (x.1, outv x.2).

(** What the walk relies on of a layout's sections. *)
Record section_spec : Prop := mkSectionSpec {
  ss_sorted : forall g, valid g -> bt_sorted g;
  ss_count : forall g, valid g -> so_count ops (enc g) = length g;
  ss_entry : forall g p x, valid g -> g !! p = Some x -> so_entry_at ops (enc g) p = Ok (result_of x);
  ss_search : forall g prev d, valid g -> g <> [] ->
    exists r, so_search ops (enc g) prev d = Ok r /\
      match r with
      | Some (e, p) => exists x, g !! p = Some x /\ e = result_of x /\ nearest g prev d = Some x
      | None => nearest g prev d = None
      end;
}.

Context (Hops : section_spec) (groups : list (Z * list (list Z * V))) (L : list (list Z * V)).
Context (Hg : groups_ok mc groups L) (Hvalid : Forall (fun g => valid g.2) groups).
Context (Hlen : Z.of_nat (length (blob_of enc groups)) < u32_max).

Lemma groups_get c g : bt_get c groups = Some g -> valid g /\ g <> [].
Proof.
  destruct Hg as (Hs & Hf & _). intros Hc. apply bt_get_In in Hc; [|done].
  rewrite List.Forall_forall in Hf, Hvalid. destruct (Hf _ Hc) as (_ & Hne & _). split; [by apply (Hvalid (c, g))|done].
Qed.

Context (prev : option (list Z)) (d : Direction) (position : WalPosition).

(** A cached section of this blob, with an entry of it. *)
Definition section_cache (c : option IndexIterCache) : Prop :=
  match c with
  | Some (CacheLookupHeader p m buffer lp) =>
      p = position /\ exists g, bt_get m groups = Some g /\ buffer = enc g /\ (lp < length g)%nat
  | _ => True
  end.

Lemma turn_ok cache c :
  section_cache cache -> 0 <= c < HE ->
  exists r cache', micro_cell_turn ops (blob_of enc groups) prev d position cache c = Ok (r, cache') /\
    match r with
    | Some (e, p) => exists x, e = result_of x /\ nearest (default [] (bt_get c groups)) prev d = Some x /\
        section_cache (set_last_returned cache' p)
    | None => nearest (default [] (bt_get c groups)) prev d = None
    end.
Proof.
  intros Hc Hr. unfold micro_cell_turn. destruct (cache_hit cache c) as [[buffer lp]|] eqn:Ehit.
  - destruct cache as [[p m b lp'|]|]; try discriminate Ehit. cbn [cache_hit] in Ehit.
    destruct (Z.eqb_spec m c) as [->|]; [|done]. injection Ehit as -> ->.
    destruct Hc as (-> & g & Hget & -> & Hlp). destruct (groups_get c g Hget) as [Hv Hne]. rewrite Hget. cbn [default].
    assert (forall q, (q < length g)%nat -> section_cache (set_last_returned (Some (CacheLookupHeader position c (enc g) lp)) q)) as Hset.
    { intros q Hq. cbn. split; [done|]. by exists g. }
    assert (exists r cache', (r ← so_search ops (enc g) prev d; Ok (r, Some (CacheLookupHeader position c (enc g) lp))) = Ok (r, cache') /\
      match r with
      | Some (e, p) => exists x, e = result_of x /\ nearest g prev d = Some x /\ section_cache (set_last_returned cache' p)
      | None => nearest g prev d = None
      end) as Hsearch.
    { destruct (ss_search Hops g prev d Hv Hne) as (r & -> & Hres). cbn [mbind outcome_bind]. eexists _, _. split; [done|].
      destruct r as [[e q]|]; [|done]. destruct Hres as (x & Hx & -> & Hn). exists x. split_and!; [done|done|].
      apply Hset. by apply lookup_lt_Some in Hx. }
    destruct prev as [key|]; [|exact Hsearch].
    destruct (lookup_lt_is_Some_2 g lp Hlp) as [[kl vl] Hkl]. rewrite (ss_entry Hops g lp (kl, vl) Hv Hkl).
    cbn [mbind outcome_bind result_of fst]. destruct (keqb_spec kl key) as [->|_]; [|exact Hsearch].
    rewrite (ss_count Hops g Hv). destruct (adjacent_step g d lp Hlp) as [Hadj Hq].
    pose proof (section_step g key d (Some lp) 0 (ss_sorted Hops g Hv) Hne) as Hn. rewrite Hadj in Hn.
    specialize (Hn ltac:(exists vl; by rewrite whole_window)).
    destruct (adjacent d lp (length g)) as [q|] eqn:Ea; cbn in Hn.
    + specialize (Hq q eq_refl). destruct (lookup_lt_is_Some_2 g q Hq) as [x Hx].
      rewrite (ss_entry Hops g q x Hv Hx). cbn [mbind outcome_bind]. eexists _, _. split; [done|]. exists x.
      rewrite Hx in Hn. split_and!; [done|done|by apply Hset].
    + eexists _, _. by split.
  - rewrite (read_section_ok mc enc groups L c Hg Hlen Hr). cbn [mbind outcome_bind].
    destruct (bt_get c groups) as [g|] eqn:Hget; cbn [option_map default].
    2:{ eexists _, _. split; [done|]. destruct prev, d; done. }
    destruct (groups_get c g Hget) as [Hv Hne]. destruct (ss_search Hops g prev d Hv Hne) as (r & -> & Hres).
    cbn [mbind outcome_bind]. eexists _, _. split; [done|]. destruct r as [[e q]|]; [|done].
    destruct Hres as (x & Hx & -> & Hn). exists x. split_and!; [done|done|]. cbn. split; [done|]. exists g.
    split_and!; [done|done|by apply lookup_lt_Some in Hx].
Qed.

Definition turns_left (c : Z) : Z := match d with Forward => HE - c | Backward => c + 1 end.

Lemma micro_cell_loop_ok fuel cache c :
  section_cache cache -> 0 <= c < HE -> turns_left c <= Z.of_nat fuel ->
  nearest L prev d = nearest (cells_from d c groups) prev d ->
  exists cache', micro_cell_loop fuel ops (blob_of enc groups) prev d position cache c =
    Ok (option_map result_of (nearest L prev d), cache') /\ section_cache cache'.
Proof.
  assert (HE = 128) as HHE by done.
  revert cache c. induction fuel as [|fuel IH]; intros cache c Hc Hr Hfuel Hinv.
  { unfold turns_left in Hfuel. destruct d; lia. }
  destruct Hg as (Hs & Hf & _). cbn [micro_cell_loop]. destruct (turn_ok cache c Hc Hr) as (r & cache' & -> & Hres).
  cbn [mbind outcome_bind]. destruct r as [[e p]|].
  - destruct Hres as (x & -> & Hn & Hset). exists (set_last_returned cache' p). split; [|done]. do 2 f_equal.
    rewrite Hinv. destruct d; [rewrite cells_from_forward by done|rewrite cells_from_backward by done];
      rewrite nearest_app, Hn; done.
  - unfold next_bounded. destruct d eqn:Ed; cbn [bool_decide decide] in *.
    + rewrite bool_decide_eq_false_2 by done. rewrite (cells_from_forward c groups Hs), nearest_app, Hres in Hinv. cbn [or_else] in Hinv.
      rewrite u64_sub_small by (unfold u64_max; lia). unfold turns_left in *. rewrite ?Ed in Hfuel. destruct (Z.leb_spec (HE - 1) c).
      * exists None. split; [|done]. rewrite Hinv. unfold cells_from. rewrite filter_none; [by destruct prev|].
        eapply Forall_impl; [exact Hf|]. intros [m g] (Hm & _). cbv beta iota. apply Z.leb_gt. cbn [fst] in *. lia.
      * rewrite u64_add_small by (unfold u64_max; lia). apply IH; [done|lia|rewrite ?Ed; lia|by rewrite ?Ed].
    + rewrite bool_decide_eq_true_2 by done. rewrite (cells_from_backward c groups Hs), nearest_app, Hres in Hinv. cbn [or_else] in Hinv.
      unfold checked_sub, turns_left in *. rewrite ?Ed in Hfuel. destruct (Z.leb_spec 1 c).
      * apply IH; [done|lia|rewrite ?Ed; lia|by rewrite ?Ed].
      * exists None. split; [|done]. rewrite Hinv. unfold cells_from. rewrite filter_none; [by destruct prev|].
        eapply Forall_impl; [exact Hf|]. intros [m g] (Hm & _). cbv beta iota. apply Z.leb_gt. cbn [fst] in *. lia.
Qed.
End walk.
