(* ===== verification/HeaderBlob.v ===== *)
(** * Blobs in the lookup-header format

    Micro-cells follow key order inside a cell, so the sections of a blob are in
    key order.  [header_fixed_spec] discharges the format interface for
    fixed-size keys. *)

From Stdlib Require Import ZArith Lia List Sorting.Sorted.
From stdpp Require Import base tactics list strings.
From S2P Require Import Prelude BTree Bytes Position Cell Layout KeyShape Flat FlatFacts IndexTable IndexOps.
From S2P Require Import IndexTableFacts IndexWalk IndexPromote IndexFlush IndexUnmerge IndexCodec IndexClean.
From S2P Require Import Levels IterCache Loader IndexFormat LookupHeader LookupHeaderFacts.

Local Open Scope Z_scope.

(** ** Micro-cells *)

Definition mcell (ks : KeySpaceDesc) (k : list Z) : Z :=
  match key_micro_cell ks k with Ok m => m | Panic _ => 0 end.

Lemma key_micro_cell_eq ks cell k p s e :
  cell_id ks k = Ok cell -> index_prefix_u32 ks k = Ok p -> index_prefix_range ks cell = Ok (s, e) ->
  0 <= s <= p -> p < e <= 2 ^ 32 ->
  key_micro_cell ks k = Ok ((p - s) * HE / (e - s)) /\ 0 <= (p - s) * HE / (e - s) < HE.
Proof.
  intros Hc Hp Hr Hs He. assert (HE = 128) as HHE by done. unfold key_micro_cell. rewrite Hp, Hc. cbn [mbind outcome_bind].
  rewrite Hr. cbn [mbind outcome_bind]. rewrite wrap32_small by (unfold is_u32; lia). unfold checked_sub.
  destruct (Z.leb_spec s p); [|lia]. cbn [expect mbind outcome_bind]. rewrite u64_sub_small by (unfold u64_max; lia).
  assert (0 <= (p - s) * HE / (e - s) < HE) as Hb.
  { split; [apply Z.div_pos; lia|]. apply Z.div_lt_upper_bound; nia. }
  split; [|done]. unfold rescale_u32. destruct (Z.ltb_spec (p - s) (e - s)); [|lia].
  rewrite HHE. cbn [assert_that mbind outcome_bind Z.ltb Z.compare]. rewrite <- HHE.
  rewrite u64_mul_small by (unfold u64_max; lia). destruct (Z.leb_spec ((p - s) * HE / (e - s)) u32_max); [done|].
  unfold u32_max in *. lia.
Qed.

Section micro.
Context (ks : KeySpaceDesc) (cell : CellId) (Hks : ks_ok ks).

Lemma key_micro_cell_ok k : cell_key ks cell k -> key_micro_cell ks k = Ok (mcell ks k) /\ 0 <= mcell ks k < HE.
Proof.
  intros (_ & Hk & Hc). destruct (key_prefix_in_range ks k Hks Hk) as (cell' & p & s & e & Hc' & Hp & Hr & Hs & He).
  unfold mcell. destruct (key_micro_cell_eq ks cell' k p s e) as [E Hb]; [done..|]. by rewrite E.
Qed.

Lemma mcell_mono a b : cell_key ks cell a -> cell_key ks cell b -> kle a b -> mcell ks a <= mcell ks b.
Proof.
  intros (_ & Ha & Hca) (_ & Hb & Hcb) Hab.
  destruct (key_prefix_in_range ks a Hks Ha) as (cell' & p & s & e & Hc' & Hp & Hr & Hs & He).
  destruct (key_prefix_in_range ks b Hks Hb) as (cell'' & q & s' & e' & Hc'' & Hq & Hr' & Hs' & He').
  assert (cell' = cell'' /\ s' = s /\ e' = e) as (<- & -> & ->) by (repeat split; congruence).
  destruct (index_prefix_mono ks cell a b) as (pa & pb & Hpa & Hpb & Hle); [done..|].
  assert (pa = p /\ pb = q) as [-> ->] by (split; congruence). unfold mcell.
  destruct (key_micro_cell_eq ks cell' a p s e) as [-> _]; [done..|].
  destruct (key_micro_cell_eq ks cell' b q s e) as [-> _]; [congruence..|].
  apply Z.div_le_mono; [lia|]. assert (HE = 128) by done. nia.
Qed.

(** Sorted keys of the cell have ascending micro-cells. *)
Lemma sorted_mcells {V} (L : list (list Z * V)) x rest :
  Forall (fun e => cell_key ks cell e.1) (L ++ x :: rest) -> bt_sorted (L ++ x :: rest) ->
  Forall (fun e => mcell ks e.1 <= mcell ks x.1) L.
Proof.
  intros Hk Hs. apply Forall_app in Hk as [Hk Hx]. apply Forall_cons in Hx as [Hx _].
  apply StronglySorted_app_inv in Hs as (_ & _ & Hlt). rewrite List.Forall_forall in *. intros e He.
  apply mcell_mono; [by apply Hk|done|]. apply klt_kle. by apply (Hlt e x); [|left].
Qed.

Lemma group_entries_ok rest : forall groups L,
  groups_ok (mcell ks) groups L -> Forall (fun e => cell_key ks cell e.1) (L ++ rest) -> bt_sorted (L ++ rest) ->
  exists groups', group_entries ks groups rest = Ok groups' /\ groups_ok (mcell ks) groups' (L ++ rest).
Proof.
  induction rest as [|x rest IH]; intros groups L Hg Hk Hs; cbn [group_entries].
  { exists groups. by rewrite app_nil_r. }
  pose proof (sorted_mcells L x rest Hk Hs) as Hle.
  assert (cell_key ks cell x.1) as Hx. { apply Forall_app in Hk as [_ Hk]. by apply Forall_cons in Hk as [? _]. }
  destruct (key_micro_cell_ok x.1 Hx) as [-> Hb]. cbn [mbind outcome_bind].
  destruct (group_push_ok (mcell ks) groups L (mcell ks x.1) x Hg Hle eq_refl Hb) as [Hg' _].
  rewrite cons_middle, app_assoc in Hk, Hs |- *. by apply (IH _ (L ++ [x])).
Qed.

(** A walk that starts at the cursor's micro-cell misses nothing. *)
Lemma cells_from_start {V} groups (L : list (list Z * V)) key d :
  groups_ok (mcell ks) groups L -> Forall (fun e => cell_key ks cell e.1) L -> cell_key ks cell key ->
  nearest L (Some key) d = nearest (cells_from d (mcell ks key) groups) (Some key) d.
Proof.
  intros (Hs & Hg & <-) Hk Hkey. unfold cells_from.
  assert (forall g, In g groups -> forall e, In e g.2 -> mcell ks e.1 = g.1 /\ cell_key ks cell e.1) as Hin.
  { intros g Hgin e He. rewrite List.Forall_forall in Hg. destruct (Hg g Hgin) as (_ & _ & Hf).
    rewrite List.Forall_forall in Hf, Hk. split; [by apply Hf|]. apply Hk, in_concat. exists g.2. split; [|done].
    apply in_map_iff. by exists g. }
  clear Hk Hg Hs. induction groups as [|g groups IH]; [done|]. cbn [List.map concat List.filter].
  assert (forall e, In e g.2 -> mcell ks e.1 = g.1 /\ cell_key ks cell e.1) as Hg by (apply Hin; by left).
  assert (nearest (concat (List.map snd groups)) (Some key) d = nearest (cells_from d (mcell ks key) groups) (Some key) d) as HIH.
  { apply IH. intros g' Hg'. apply Hin. by right. }
  destruct (match d with Forward => mcell ks key <=? g.1 | Backward => g.1 <=? mcell ks key end) eqn:E.
  - cbn [List.map concat]. rewrite !nearest_app, HIH. done.
  - rewrite nearest_app, HIH. assert (nearest g.2 (Some key) d = None) as ->.
    2:{ unfold cells_from. destruct d; [done|]. apply or_else_None_r. }
    destruct d; cbn [nearest]; [unfold bt_above|unfold bt_below]; rewrite filter_none; try done;
      apply List.Forall_forall; intros e He; destruct (Hg e He) as [Hm Hc]; apply Z.leb_gt in E.
    + destruct (kltb_spec key e.1) as [Hlt|]; [|done]. pose proof (mcell_mono key e.1 Hkey Hc (klt_kle _ _ Hlt)). lia.
    + destruct (kltb_spec e.1 key) as [Hlt|]; [|done]. pose proof (mcell_mono e.1 key Hc Hkey (klt_kle _ _ Hlt)). lia.
Qed.

(** The section of a micro-cell, from the entries. *)
Lemma groups_filter {V} groups (L : list (list Z * V)) m :
  groups_ok (mcell ks) groups L -> List.filter (fun e => mcell ks e.1 =? m) L = default [] (bt_get m groups).
Proof.
  intros (Hs & Hg & <-). induction groups as [|[c g] groups IH]; [done|]. cbn [List.map concat snd].
  apply bt_sorted_cons in Hs as [Hs Hlt]. apply Forall_cons in Hg as [(_ & _ & Hf) Hg]. cbn [fst snd] in Hf.
  rewrite List.filter_app, (IH Hs Hg). cbn [bt_get]. change (kcmp m c) with (m ?= c).
  destruct (Z.compare_spec m c) as [->|Hmc|Hmc].
  - rewrite filter_all, (bt_get_above c) by (done || (eapply Forall_impl; [exact Hf|]; intros e He; by apply Z.eqb_eq)).
    cbn. by rewrite app_nil_r.
  - rewrite filter_none by (eapply Forall_impl; [exact Hf|]; intros e He; apply Z.eqb_neq; cbv beta in He; lia).
    rewrite (bt_get_above m) by (by apply (Forall_klt_trans m c)). done.
  - by rewrite filter_none by (eapply Forall_impl; [exact Hf|]; intros e He; apply Z.eqb_neq; cbv beta in He; lia).
Qed.
End micro.

(** ** The header builder *)

(** The visitor calls of a fixed-size section. *)
Fixpoint visits_of {V} (size start : nat) (es : list (list Z * V)) : list (list Z * nat) :=
  match es with
  | [] => []
  | e :: es => (e.1, start) :: visits_of size (start + size) es
  end.

Lemma visits_of_map {V W} (f : list Z * V -> W) size start es :
  visits_of size start (List.map (fun e => (e.1, f e)) es) = visits_of size start es.
Proof. revert start. induction es as [|e es IH]; intros start; [done|]. cbn [List.map visits_of fst]. by rewrite IH. Qed.

Lemma write_entries_visits n es out visits :
  Forall (fun e => length e.1 = n) es ->
  write_entries (Some n) es out visits =
  Ok (out ++ concat (List.map disk_image es), visits ++ visits_of (n + WalPosition_LENGTH) (length out) es).
Proof.
  intros Hf. revert out visits. induction Hf as [|[k p] es Hk Hf IH]; intros out visits; cbn [write_entries visits_of].
  { by rewrite !app_nil_r. }
  unfold write_key_val. cbv zeta. cbn [fst] in Hk. rewrite (proj2 (Nat.eqb_eq _ _) Hk). cbn [mbind outcome_bind].
  fold (disk_position p). assert (wp_write_to_buf (disk_position p) (out ++ k) = out ++ disk_image (k, p)) as ->.
  { rewrite wp_write_to_buf_app. unfold disk_image. cbn [fst snd]. by rewrite <- !app_assoc. }
  rewrite IH. cbn [List.map concat fst]. rewrite length_app, (length_disk_image n) by done. by rewrite <- !app_assoc.
Qed.

Lemma header_update_ok header i f old :
  header !! Z.to_nat i = Some old -> header_update header i f = Ok (<[Z.to_nat i := f old]> header).
Proof. unfold header_update. by intros ->. Qed.

Section builder.
Context (ks : KeySpaceDesc) (cell : CellId) (Hks : ks_ok ks).

Notation range := (range_of elements HEADER_SIZE).

(** While keys are added, the end of the last range is not set yet. *)
Definition open_range (groups : list (Z * list (list Z * WalPosition))) (c : Z) : Z * Z :=
  if bool_decide (option_map fst (last groups) = Some c) then ((range groups c).1, 0) else range groups c.

Record builder_ok (groups : list (Z * list (list Z * WalPosition))) (b : IndexTableHeaderBuilder) : Prop := mkBuilderOk {
  bo_length : length (hb_header b) = HEADER_ELEMENTS;
  bo_last : hb_last_micro_cell b = option_map fst (last groups);
  bo_ranges : forall c, 0 <= c < HE -> hb_header b !! Z.to_nat c = Some (open_range groups c);
}.

Lemma builder_new_ok : builder_ok [] header_builder_new.
Proof.
  split; [done|done|]. intros c Hc. cbn [hb_header header_builder_new]. rewrite lookup_replicate_2 by lia. done.
Qed.

(** The range of the last group ends where the body does. *)
Lemma range_last pre m g :
  bt_sorted (pre ++ [(m, g)]) ->
  range (pre ++ [(m, g)]) m =
  (Z.of_nat (HEADER_SIZE + length (body elements pre)), Z.of_nat (HEADER_SIZE + length (body elements (pre ++ [(m, g)])))) /\
  forall g' c, c <> m -> range (pre ++ [(m, g')]) c = range pre c.
Proof.
  intros Hs. apply StronglySorted_app_inv in Hs as (Hs & _ & Hx).
  assert (bt_get m pre = None) as Hn.
  { apply bt_get_None; [done|]. intros w Hin. specialize (Hx _ (m, g) Hin ltac:(by left)). by apply klt_irrefl in Hx. }
  split.
  - rewrite range_of_snoc, Z.eqb_refl by done. rewrite body_app, length_app.
    change (body elements [(m, g)]) with (elements g ++ []). rewrite app_nil_r. by rewrite Nat.add_assoc.
  - intros g' c Hc. rewrite range_of_snoc by done. by destruct (Z.eqb_spec c m).
Qed.

Lemma add_key_ok groups L b x :
  builder_ok groups b -> groups_ok (mcell ks) groups L -> cell_key ks cell x.1 ->
  Forall (fun e => mcell ks e.1 <= mcell ks x.1) L ->
  Z.of_nat (HEADER_SIZE + length (body elements groups)) < u32_max ->
  exists b', add_key ks b x.1 (HEADER_SIZE + length (body elements groups)) = Ok b' /\
    builder_ok (group_push groups (mcell ks x.1) x) b'.
Proof.
  intros [Hbl Hlast Hranges] Hg Hx Hle Hoff. destruct (key_micro_cell_ok ks cell Hks x.1 Hx) as [Hmc Hb].
  set (m := mcell ks x.1) in *. pose proof Hg as (Hs & _ & _).
  unfold add_key, check_offset. rewrite (proj2 (Z.ltb_lt _ _) Hoff). cbn [assert_that mbind outcome_bind]. rewrite Hmc.
  cbn [mbind outcome_bind]. set (off := Z.of_nat (HEADER_SIZE + length (body elements groups))) in *.
  destruct (group_push_ok (mcell ks) groups L m x Hg Hle eq_refl Hb) as [(Hs' & _) [(pre & g & -> & E)|[Hn E]]]; rewrite E in *.
  { rewrite Hlast, last_snoc. cbn [option_map fst]. rewrite Z.eqb_refl. exists b. split; [done|]. split; [done|by rewrite Hlast, !last_snoc|].
    intros c Hc. rewrite (Hranges c Hc). f_equal. unfold open_range. rewrite !last_snoc. cbn [option_map fst].
    destruct (range_last pre m g Hs) as [H1 H2]. destruct (range_last pre m (g ++ [x]) Hs') as [H1' _].
    case_bool_decide as Hcm; [injection Hcm as <-; by rewrite H1, H1'|]. by rewrite !H2 by congruence. }
  assert (open_range groups m = (0, 0)) as Hm.
  { pose proof (range_of_get elements HEADER_SIZE groups m Hs) as Hr. rewrite Hn in Hr. unfold open_range. rewrite Hr. by case_bool_decide. }
  assert (forall c, open_range (groups ++ [(m, [x])]) c = if c =? m then (off, 0) else range groups c) as Hopen.
  { intros c. unfold open_range. rewrite last_snoc. cbn [option_map fst]. rewrite range_of_snoc by done.
    destruct (Z.eqb_spec c m) as [->|]; [by rewrite bool_decide_eq_true_2|]. by rewrite bool_decide_eq_false_2 by congruence. }
  assert (forall h, length h = HEADER_ELEMENTS -> h !! Z.to_nat m = Some (0, 0) ->
    (forall c, 0 <= c < HE -> c <> m -> h !! Z.to_nat c = Some (range groups c)) ->
    exists b', (header ← header_update h m (fun r => (off, r.2)); Ok (mkHeaderBuilder header (Some m))) = Ok b' /\
      builder_ok (groups ++ [(m, [x])]) b') as Hfinish.
  { intros h Hlh Hhm Hh. rewrite (header_update_ok _ _ _ _ Hhm). cbn [mbind outcome_bind]. eexists. split; [done|].
    split; cbn [hb_header hb_last_micro_cell]; [by rewrite length_insert|by rewrite last_snoc|]. intros c Hc. rewrite Hopen.
    destruct (Z.eqb_spec c m) as [->|Hcm]; [rewrite list_lookup_insert_eq by lia; done|].
    rewrite list_lookup_insert_ne by lia. by apply Hh. }
  rewrite Hlast. destruct (last groups) as [[m0 g0]|] eqn:El; cbn [option_map fst].
  - apply last_Some in El as [pre ->]. pose proof (range_last pre m0 g0 Hs) as [Hr0 _].
    assert (m0 <> m) as Hne.
    { intros ->. assert (bt_get m (pre ++ [(m, g0)]) = Some g0); [|congruence]. apply bt_get_In; [done|]. apply in_or_app. right. by left. }
    destruct (Z.eqb_spec m0 m); [done|].
    assert (0 <= m0 < HE) as Hm0. { destruct Hg as (_ & Hf & _). apply Forall_app in Hf as [_ Hf]. apply Forall_cons in Hf as [(? & _) _]. done. }
    assert (hb_header b !! Z.to_nat m0 = Some ((range (pre ++ [(m0, g0)]) m0).1, 0)) as Hh0.
    { rewrite (Hranges m0 Hm0). unfold open_range. rewrite last_snoc. cbn [option_map fst]. by rewrite bool_decide_eq_true_2. }
    rewrite (header_update_ok _ _ _ _ Hh0). cbn [mbind outcome_bind fst]. apply Hfinish.
    + by rewrite length_insert.
    + rewrite list_lookup_insert_ne by lia. by rewrite (Hranges m Hb), Hm.
    + intros c Hc Hcm. destruct (decide (c = m0)) as [->|].
      * rewrite list_lookup_insert_eq by lia. rewrite Hr0. done.
      * rewrite list_lookup_insert_ne by lia. rewrite (Hranges c Hc). unfold open_range. rewrite last_snoc. cbn [option_map fst].
        by rewrite bool_decide_eq_false_2 by congruence.
  - apply last_None in El as ->. apply Hfinish; [done|by rewrite (Hranges m Hb), Hm|]. intros c Hc _. by rewrite (Hranges c Hc).
Qed.

Lemma length_body_elements n groups L :
  groups_ok (mcell ks) groups L -> elements_ok n L -> length (body elements groups) = (length L * (n + WalPosition_LENGTH))%nat /\
  body elements groups = elements L.
Proof.
  intros (_ & _ & <-) Hel. assert (body elements groups = elements (concat (List.map snd groups))) as ->.
  { unfold body. induction groups as [|[m g] groups IH]; [done|]. cbn [List.map concat snd]. rewrite elements_app. f_equal.
    apply IH. destruct Hel as [Hs Hf]. split.
    - cbn in Hs. by apply StronglySorted_app_inv in Hs as (_ & ? & _).
    - cbn in Hf. by apply Forall_app in Hf as [_ ?]. }
  split; [|done]. by apply length_elements, Hel.
Qed.

Lemma add_keys_ok n rest : forall groups L b,
  builder_ok groups b -> groups_ok (mcell ks) groups L -> Forall (fun e => cell_key ks cell e.1) (L ++ rest) ->
  elements_ok n (L ++ rest) -> Z.of_nat (HEADER_SIZE + length (elements (L ++ rest))) < u32_max ->
  exists b' groups', add_keys ks b (visits_of (n + WalPosition_LENGTH) (HEADER_SIZE + length (body elements groups)) rest) = Ok b' /\
    builder_ok groups' b' /\ groups_ok (mcell ks) groups' (L ++ rest).
Proof.
  induction rest as [|x rest IH]; intros groups L b Hb Hg Hk Hel Hlen; cbn [visits_of add_keys].
  { exists b, groups. by rewrite app_nil_r. }
  pose proof Hel as [Hs Hf]. pose proof (sorted_mcells ks cell Hks L x rest Hk Hs) as Hle.
  assert (elements_ok n L) as HelL.
  { split; [by apply StronglySorted_app_inv in Hs as (? & _)|by apply Forall_app in Hf as [? _]]. }
  destruct (length_body_elements n groups L Hg HelL) as [Hbody Heq].
  assert (cell_key ks cell x.1) as Hx. { apply Forall_app in Hk as [_ Hk]. by apply Forall_cons in Hk as [? _]. }
  destruct (add_key_ok groups L b x) as (b' & -> & Hb'); [done..| |].
  { rewrite Heq. rewrite elements_app, length_app in Hlen. lia. }
  cbn [mbind outcome_bind]. destruct (key_micro_cell_ok ks cell Hks x.1 Hx) as [_ Hm].
  destruct (group_push_ok (mcell ks) groups L (mcell ks x.1) x Hg Hle eq_refl Hm) as [Hg' _].
  rewrite cons_middle, app_assoc in Hk, Hel, Hlen |- *.
  assert (elements_ok n (L ++ [x])) as HelX.
  { destruct Hel as [Hs' Hf']. split; [by apply StronglySorted_app_inv in Hs' as (? & _)|by apply Forall_app in Hf' as [? _]]. }
  destruct (length_body_elements n _ _ Hg' HelX) as [Hbody' _].
  replace (HEADER_SIZE + length (body elements groups) + (n + WalPosition_LENGTH))%nat
    with (HEADER_SIZE + length (body elements (group_push groups (mcell ks x.1) x)))%nat by (rewrite Hbody', Hbody, length_app; cbn; lia).
  by apply IH.
Qed.

(** Closing the last range gives the blob. *)
Lemma write_header_ok groups L b out :
  builder_ok groups b -> groups_ok (mcell ks) groups L -> out = replicate HEADER_SIZE 0 ++ body elements groups ->
  Z.of_nat (length out) < u32_max -> write_header b (length out) out = Ok (blob_of elements groups).
Proof.
  intros [Hbl Hlast Hranges] (Hs & Hf & _) -> Hlen. unfold write_header, check_offset.
  rewrite (proj2 (Z.ltb_lt _ _) Hlen). cbn [assert_that mbind outcome_bind].
  assert (forall h, length h = HEADER_ELEMENTS -> (forall c, 0 <= c < HE -> h !! Z.to_nat c = Some (range groups c)) ->
    copy_at (replicate HEADER_SIZE 0 ++ body elements groups) 0 (header_bytes h) = blob_of elements groups) as Hfinish.
  { intros h Hlh Hh. assert (h = header_of elements groups) as ->.
    { apply list_eq_same_length with HEADER_ELEMENTS; [unfold header_of; by rewrite length_map, length_seq|done|].
      intros i x y Hi. rewrite <- (Nat2Z.id i). rewrite Hh, header_of_lookup by lia. congruence. }
    unfold copy_at, blob_of. rewrite length_header_of, Nat.add_0_l. cbn [take app].
    rewrite drop_app_length' by (by rewrite length_replicate). done. }
  rewrite Hlast. destruct (last groups) as [[m0 g0]|] eqn:El; cbn [option_map fst mbind outcome_bind].
  - apply last_Some in El as [pre ->]. pose proof (range_last pre m0 g0 Hs) as [Hr0 _].
    assert (0 <= m0 < HE) as Hm0. { apply Forall_app in Hf as [_ Hf]. apply Forall_cons in Hf as [(? & _) _]. done. }
    rewrite (header_update_ok _ _ _ _ (Hranges m0 Hm0)). cbn [mbind outcome_bind]. f_equal. apply Hfinish; [by rewrite length_insert|].
    intros c Hc. destruct (decide (c = m0)) as [->|].
    + rewrite list_lookup_insert_eq by lia. unfold open_range. rewrite last_snoc. cbn [option_map fst].
      rewrite bool_decide_eq_true_2 by done. rewrite Hr0. cbn [fst]. rewrite length_app, length_replicate. done.
    + rewrite list_lookup_insert_ne by lia. rewrite (Hranges c Hc). unfold open_range. rewrite last_snoc. cbn [option_map fst].
      by rewrite bool_decide_eq_false_2 by congruence.
  - f_equal. apply Hfinish; [done|]. intros c Hc. rewrite (Hranges c Hc). unfold open_range. by rewrite El.
Qed.
End builder.

(** ** Sections of fixed-size keys *)

Lemma search_fixed_ok n g prev d :
  elements_ok n g -> g <> [] ->
  exists r, search_in_micro_cell_buffer n (n + WalPosition_LENGTH) (elements g) prev d = Ok r /\
    match r with
    | Some (e, p) => exists x, g !! p = Some x /\ e = result_of id x /\ nearest g prev d = Some x
    | None => nearest g prev d = None
    end.
Proof.
  intros Hel Hne. pose proof (length_elements n g (proj2 Hel)) as Hlen.
  assert (0 < length g)%nat as Hpos by (destruct g; [done|cbn; lia]).
  assert (0 < n + WalPosition_LENGTH)%nat as Hes by (unfold WalPosition_LENGTH; lia).
  unfold search_in_micro_cell_buffer. destruct (elements g) as [|b bs] eqn:E; [cbn in Hlen; nia|]. rewrite <- E in *.
  rewrite Hlen, Nat.div_mul by lia. destruct (Nat.eqb_spec (length g) 0); [lia|].
  assert (exists start, (match prev with
     | Some prev_key => '(found_pos, insertion_point, _) ← binary_search (elements g) prev_key (n + WalPosition_LENGTH) n;
                        Ok (step_from d found_pos insertion_point)
     | None => Ok (Some (first_in_range d 0 (length g)))
     end) = Ok start /\ nearest g prev d = (start ≫= fun p => g !! p)) as (start & -> & Hn).
  { destruct prev as [key|].
    - destruct (search_window n g Hel key 0 (length g)) as (f & l & w & Hb & Hf). rewrite whole_window in Hb. rewrite Hb.
      cbn [mbind outcome_bind]. eexists. split; [done|]. apply section_step; [apply Hel|done|done].
    - eexists. split; [done|]. cbn. destruct d; cbn [first_in_range nearest]; [by rewrite head_lookup|].
      rewrite last_lookup. f_equal. lia. }
  cbn [mbind outcome_bind]. destruct start as [p|]; cbn in Hn; [|by exists None].
  destruct (Nat.leb_spec (length g) p) as [Hp|Hp].
  { exists None. split; [done|]. rewrite Hn. by apply lookup_ge_None_2. }
  destruct (lookup_lt_is_Some_2 g p Hp) as [x Hx]. rewrite (entry_at_ok n g p x Hel Hx). cbn [mbind outcome_bind].
  eexists. split; [done|]. exists x. rewrite Hn, Hx. split_and!; [done|by destruct x|done].
Qed.

Lemma fixed_section_spec n : section_spec elements id (elements_ok n) (fixed_sections n (n + WalPosition_LENGTH)).
Proof.
  split; intros g.
  - by intros [Hs _].
  - intros Hel. cbn. rewrite (length_elements n) by apply Hel. apply Nat.div_mul. unfold WalPosition_LENGTH. lia.
  - intros p x Hel Hx. cbn [so_entry_at fixed_sections]. rewrite (entry_at_ok n g p x Hel Hx). by destruct x.
  - apply search_fixed_ok.
Qed.

Lemma groups_elements n ks groups L :
  groups_ok (mcell ks) groups L -> elements_ok n L -> Forall (fun g => elements_ok n g.2) groups.
Proof.
  intros (_ & _ & <-) Hel. induction groups as [|[m g] groups IH]; [done|]. cbn [List.map concat snd] in Hel.
  destruct Hel as [Hs Hf]. apply StronglySorted_app_inv in Hs as (Hs1 & Hs2 & _). apply Forall_app in Hf as [Hf1 Hf2].
  constructor; [by split|]. by apply IH.
Qed.

(** ** Reading a blob *)

Section blob_reads.
Context (ks : KeySpaceDesc) (cell : CellId) (Hks : ks_ok ks).
Context (enc : list (list Z * WalPosition) -> list Z) (outv : WalPosition -> WalPosition).
Context (valid : list (list Z * WalPosition) -> Prop) (ops : SectionOps).

(** A cached section of the blob that holds [ws]. *)
Definition header_cache (ws : list (list Z * WalPosition)) (p : WalPosition) (c : option IndexIterCache) : Prop :=
  match c with
  | Some (CacheLookupHeader q m buffer lp) =>
      q = p -> let g := List.filter (fun e => mcell ks e.1 =? m) ws in buffer = enc g /\ (lp < length g)%nat
  | _ => True
  end.

Lemma header_cache_stale groups ws p c :
  groups_ok (mcell ks) groups ws -> header_cache ws p c -> section_cache enc groups p (drop_stale c p).
Proof.
  intros Hg Hc. destruct c as [[q m b lp|]|]; cbn [drop_stale cache_position]; [|by case_bool_decide|done].
  case_bool_decide as Hq; [|done]. split; [done|]. destruct (Hc Hq) as [-> Hlp].
  rewrite (groups_filter ks groups ws m Hg) in *. destruct (bt_get m groups) as [g|]; [|cbn in Hlp; lia]. by exists g.
Qed.

Lemma section_cache_header groups ws p c :
  groups_ok (mcell ks) groups ws -> section_cache enc groups p c -> header_cache ws p c.
Proof.
  intros Hg Hc. destruct c as [[q m b lp|]|]; [|done|done]. intros _. destruct Hc as (_ & g & Hget & -> & Hlp).
  rewrite (groups_filter ks groups ws m Hg), Hget. done.
Qed.

Lemma assert_key_size_ok k : cell_key ks cell k -> assert_key_size ks k = Ok tt.
Proof.
  intros (Hl & _). unfold assert_key_size. destruct (ks_index_key_size ks); [|done]. cbn in Hl. by rewrite (proj2 (Nat.eqb_eq _ _) Hl).
Qed.

Context (Hops : section_spec enc outv valid ops) (Hsec : section_ops ks = Ok ops).
Context (Hlook : forall g k, valid g -> section_lookup ks (enc g) k = Ok (option_map outv (bt_get k g))).
Context (groups : list (Z * list (list Z * WalPosition))) (ws : list (list Z * WalPosition)).
Context (Hg : groups_ok (mcell ks) groups ws) (Hs : bt_sorted ws) (Hk : Forall (fun e => cell_key ks cell e.1) ws).
Context (Hvalid : Forall (fun g => valid g.2) groups) (Hlen : Z.of_nat (length (blob_of enc groups)) < u32_max).

Lemma header_lookup_ok k :
  cell_key ks cell k -> header_lookup_unloaded ks (blob_of enc groups) k = Ok (option_map outv (bt_get k ws)).
Proof.
  intros Hkey. unfold header_lookup_unloaded. rewrite assert_key_size_ok by done. cbn [mbind outcome_bind].
  destruct (key_micro_cell_ok ks cell Hks k Hkey) as [-> Hm]. cbn [mbind outcome_bind].
  rewrite (read_section_ok (mcell ks) enc groups ws _ Hg Hlen Hm). cbn [mbind outcome_bind].
  assert (bt_get k (default [] (bt_get (mcell ks k) groups)) = bt_get k ws) as Hget.
  { rewrite <- (groups_filter ks groups ws _ Hg). rewrite bt_get_filter by done. destruct (bt_get k ws) as [w|] eqn:E; [|done].
    cbn. by rewrite Z.eqb_refl. }
  destruct (bt_get (mcell ks k) groups) as [g|] eqn:Eg; cbn [option_map default] in *; [|by rewrite <- Hget].
  change (id g) with g in Hget. rewrite Hlook, Hget; [done|].
  rewrite List.Forall_forall in Hvalid. apply bt_get_In in Eg; [|apply Hg]. by apply (Hvalid (mcell ks k, g)).
Qed.

Lemma header_next_ok prev d p c :
  (forall k, prev = Some k -> cell_key ks cell k) -> header_cache ws p c ->
  exists c', header_next_entry_unloaded ks (blob_of enc groups) prev d p c =
    Ok (option_map (result_of outv) (nearest ws prev d), c') /\ header_cache ws p c'.
Proof.
  intros Hprev Hc. unfold header_next_entry_unloaded. cbv zeta.
  assert (exists m, match prev with
    | Some prev_key => _ ← assert_key_size ks prev_key; key_micro_cell ks prev_key
    | None => Ok (Z.of_nat (first_in_range d 0 HEADER_ELEMENTS))
    end = Ok m /\ 0 <= m < HE /\ nearest ws prev d = nearest (cells_from d m groups) prev d) as (m & -> & Hm & Hstart).
  { destruct prev as [k|].
    - specialize (Hprev k eq_refl). rewrite assert_key_size_ok by done. cbn [mbind outcome_bind].
      destruct (key_micro_cell_ok ks cell Hks k Hprev) as [E Hm]. exists (mcell ks k). split_and!; [done|lia|lia|].
      by apply (cells_from_start ks cell).
    - assert (HE = 128) as HHE by done. eexists. split; [done|]. split; [destruct d; cbn; lia|].
      destruct Hg as (_ & Hf & <-). unfold cells_from. rewrite filter_all; [done|]. eapply Forall_impl; [exact Hf|].
      intros [c0 g0] (Hc0 & _). cbn [fst] in *. destruct d; apply Z.leb_le; cbn; lia. }
  cbn [mbind outcome_bind]. rewrite Hsec. cbn [mbind outcome_bind].
  destruct (micro_cell_loop_ok (mcell ks) enc outv valid ops Hops groups ws Hg Hvalid Hlen prev d p HEADER_ELEMENTS (drop_stale c p) m)
    as (c' & -> & Hc').
  { by apply (header_cache_stale groups ws). }
  { done. }
  { unfold turns_left. destruct d; lia. }
  { done. }
  exists c'. split; [done|by apply (section_cache_header groups ws)].
Qed.
End blob_reads.

(** ** The format's promise, fixed-size keys *)

Section fixed_format.
Context (ks : KeySpaceDesc) (n : nat) (cell : CellId) (Hks : ks_ok ks) (Hn : ks_index_key_size ks = Some n).

Lemma key_sizes : index_key_element_size ks = Ok (Some (n, n + WalPosition_LENGTH)%nat).
Proof. unfold index_key_element_size, index_element_size. by rewrite Hn. Qed.

Lemma fixed_section_ops : section_ops ks = Ok (fixed_sections n (n + WalPosition_LENGTH)).
Proof. unfold section_ops. by rewrite key_sizes. Qed.

Lemma fixed_section_lookup g k :
  elements_ok n g -> section_lookup ks (elements g) k = Ok (option_map id (bt_get k g)).
Proof.
  intros Hel. unfold section_lookup. rewrite key_sizes. cbn [mbind outcome_bind].
  destruct (binary_search_get n g k Hel) as (f & l & ->). cbn [mbind outcome_bind]. by destruct (bt_get k g).
Qed.

Notation fixed_cache := (header_cache ks elements).

Lemma header_blob_ok U t es :
  Forall (cell_key ks cell) U -> universe_ok (ks_index_key_size ks) U -> cell_table (ks_index_key_size ks) U t es ->
  exists b t', serialize_index LookupHeader t ks = Ok b /\ deserialize_index LookupHeader ks b = Ok t' /\
    (length b <= 1024 + 2 * keys_size U)%nat /\
    cell_blob (ks_index_key_size ks) U t' (List.map disk_entry (combined t es)) /\
    (forall k, cell_key ks cell k -> lookup_unloaded LookupHeader ks b k = Ok (bt_get k (written_positions t es))) /\
    forall prev d p c, (forall k, prev = Some k -> cell_key ks cell k) -> fixed_cache (written_positions t es) p c ->
      exists c', next_entry_unloaded LookupHeader ks b prev d p c = Ok (nearest (written_positions t es) prev d, c') /\
        fixed_cache (written_positions t es) p c'.
Proof.
  intros HU Hu Ht. pose proof (ct_wf _ _ _ _ Ht) as Hwf. pose proof Hu as Hu'. pose proof Ht as Ht'. rewrite Hn in Hu', Ht'.
  destruct (written_elements n U t es Hu' Ht') as [Hel Himg]. pose proof (combined_keys _ _ _ _ Ht) as Hck.
  assert (disk_fits (Some n) (combined t es)) as Hfit.
  { apply (universe_disk_fits (Some n) U); [done|by apply combined_sorted|]. intros k. rewrite bt_get_combined by done.
    apply (ct_keys _ _ _ _ Ht). }
  assert (Forall (fun e => cell_key ks cell e.1) (written_positions t es)) as Hk.
  { unfold written_positions. apply Forall_map. rewrite List.Forall_forall in *. intros e He. by apply HU, Hck. }
  set (ws := written_positions t es) in *.
  assert (Z.of_nat (HEADER_SIZE + length (elements ws)) < u32_max) as Hlen.
  { pose proof (written_size n U t es Hu' Ht') as Hsz. fold ws in Hsz. destruct Hu' as [_ Hu']. change HEADER_SIZE with 1024%nat. lia. }
  destruct (deserialize_ok (Some n) (combined t es) [] []) as (enc & v' & t' & Hwr & Hd & Hdata & Hks' & Hr);
    [by apply combined_sorted|done|by apply combined_fits|].
  assert (enc = elements ws) as ->.
  { rewrite (write_entries_visits n) in Hwr by apply Hfit. injection Hwr as E _. cbn in E. by rewrite <- Himg. }
  destruct (add_keys_ok ks cell Hks n ws [] [] header_builder_new) as (b & groups & Hadd & Hb & Hg); [apply builder_new_ok| |done|done|done|].
  { by split_and!; [constructor| |]. }
  cbn [app] in Hg. destruct (length_body_elements ks n groups ws Hg Hel) as [_ Hbody].
  assert (Z.of_nat (length (blob_of elements groups)) < u32_max) as Hblen.
  { unfold blob_of. by rewrite length_app, length_header_of, Hbody. }
  exists (blob_of elements groups), t'. cbn [serialize_index deserialize_index lookup_unloaded next_entry_unloaded header_format].
  split_and!.
  - unfold header_serialize_index. rewrite Hn. rewrite (serialize_visitor_combined t es) by done.
    rewrite (write_entries_visits n) by apply Hfit. cbn [mbind outcome_bind app]. rewrite length_replicate.
    assert (visits_of (n + WalPosition_LENGTH) HEADER_SIZE (combined t es) = visits_of (n + WalPosition_LENGTH) (HEADER_SIZE + length (body elements [])) ws) as ->.
    { change (body elements []) with ([] : list Z). cbn [length]. rewrite Nat.add_0_r. unfold ws, written_positions.
      by rewrite visits_of_map. }
    rewrite Hadd. cbn [mbind outcome_bind]. apply (write_header_ok ks groups ws); [done|done|by rewrite Hbody, Himg|].
    by rewrite Himg, length_app, length_replicate.
  - unfold header_deserialize_index. rewrite Hn. unfold slice_from.
    destruct (Nat.leb_spec HEADER_SIZE (length (blob_of elements groups))) as [|Hlt].
    2:{ unfold blob_of in Hlt. rewrite length_app, length_header_of in Hlt. lia. }
    cbn [mbind outcome_bind]. unfold blob_of. rewrite drop_app_length' by (by rewrite length_header_of). by rewrite Hbody.
  - pose proof (written_size n U t es Hu' Ht') as Hsz. fold ws in Hsz. unfold blob_of. rewrite length_app, length_header_of, Hbody.
    change HEADER_SIZE with 1024%nat. lia.
  - rewrite Hn in Ht. rewrite Hn. by apply cell_blob_read.
  - intros k Hkey. rewrite (header_lookup_ok ks cell Hks elements id (elements_ok n) fixed_section_lookup groups ws) by
      (done || apply Hel || by apply (groups_elements n ks groups ws)). by destruct (bt_get k ws).
  - intros prev d p c Hprev Hc.
    destruct (header_next_ok ks cell Hks elements id (elements_ok n) _ (fixed_section_spec n) fixed_section_ops groups ws) with prev d p c
      as (c' & -> & Hc'); [done|apply Hel|done|by apply (groups_elements n ks groups ws)|done|done|done|].
    exists c'. split; [|done]. by destruct (nearest ws prev d) as [[]|].
Qed.

Definition header_fixed_spec : FormatSpec LookupHeader ks cell := {|
  fs_cache := fixed_cache;
  fs_cache_none := fun ws p => I;
  fs_serialize := header_blob_ok;
|}.
End fixed_format.

(** ** Properties *)

(** C32. Reading a blob in the lookup-header format is reading the table it was
    written from.  For every table of a cell with fixed-size keys: serialization
    succeeds, its header pointing at the section of every micro-cell; a lookup
    over the bytes answers as the in-memory table does; and a walk step over the
    bytes, forwards or backwards and across micro-cells, returns the table's next
    entry, from an empty cache and from every cache such steps leave behind. *)
Theorem header_blob_reads ks cell n U t es position :
  ks_ok ks -> ks_index_key_size ks = Some n ->
  Forall (cell_key ks cell) U -> universe_ok (Some n) U -> cell_table (Some n) U t es ->
  exists b warm, header_serialize_index t ks = Ok b /\
    (forall k, cell_key ks cell k -> header_lookup_unloaded ks b k = it_get t k) /\
    warm None /\
    forall prev reverse cache, (forall k, prev = Some k -> cell_key ks cell k) -> warm cache ->
      exists cache', header_next_entry_unloaded ks b prev (direction_from_bool reverse) position cache =
        (r ← next_entry t prev reverse; Ok (r, cache')) /\ warm cache'.
Proof.
  intros Hks Hn HU Hu Ht. rewrite <- Hn in Hu, Ht. pose proof (ct_wf _ _ _ _ Ht) as Hwf.
  destruct (header_blob_ok ks n cell Hks Hn U t es HU Hu Ht) as (b & t' & Hs & _ & _ & _ & Hl & Hx).
  exists b, (header_cache ks elements (written_positions t es) position). split; [done|]. split_and!.
  - intros k Hk. rewrite <- (written_get t es k Hwf). by apply Hl.
  - done.
  - intros prev reverse cache Hprev Hc. destruct (Hx prev (direction_from_bool reverse) position cache Hprev Hc) as (c' & Hr & Hc').
    exists c'. split; [|done]. rewrite <- (written_next t es prev reverse Hwf). exact Hr.
Qed.

Lemma header_blob_reads_witness :
  exists b, header_serialize_index demo_cell_table demo_uniform = Ok b /\
    header_lookup_unloaded demo_uniform b (demo_key 7) = Ok (Some WalPosition_INVALID).
Proof.
  destruct (header_blob_reads demo_uniform (CellInteger 0) 5 demo_universe demo_cell_table [] (wp_new 1 1) demo_uniform_ok eq_refl
    demo_cell_keys demo_universe_ok demo_cell_table_ok) as (b & warm & Hs & Hl & _).
  exists b. split; [exact Hs|]. rewrite Hl; [by vm_compute|]. pose proof demo_cell_keys as Hk. rewrite List.Forall_forall in Hk.
  apply Hk. right. by left.
Defined.
