(* ===== verification/VarlenBlob.v ===== *)
(** * Variable-size keys in the lookup-header format

    Sections are flat buffers.  The loader splices them into one flat buffer with
    the same entries, tombstones included.  Lookups and walks over the stored
    blob return the recorded position of live keys; for a tombstone they return
    offset [u64::MAX] with length 0, which is not [WalPosition::INVALID]. *)

From Stdlib Require Import ZArith Lia List Sorting.Sorted.
From stdpp Require Import base tactics list strings.
From S2P Require Import Prelude BTree Bytes Position Cell Layout KeyShape Flat FlatFacts IndexTable IndexOps.
From S2P Require Import IndexTableFacts IndexWalk IndexPromote IndexFlush IndexUnmerge IndexCodec IndexClean.
From S2P Require Import Levels Loader IndexFormat LookupHeader LookupHeaderFacts HeaderBlob.

Local Open Scope Z_scope.

(** ** Sections *)

Definition stored (e : list Z * WalPosition) : entry := (e.1, iwp_from_disk e.2).

(** The position a reader of the stored section reports. *)
Definition read_position (w : WalPosition) : WalPosition := into_update_position (iwp_from_disk w).

Definition var_enc (g : list (list Z * WalPosition)) : list Z := flat_image None (List.map stored g).

Definition section_fits (g : list (list Z * WalPosition)) : Prop :=
  flat_repr (var_enc g) None (List.map stored g).

Lemma section_fits_sorted g : section_fits g -> bt_sorted g.
Proof.
  intros (_ & Hs & _). induction g as [|[k w] g IH]; [constructor|]. cbn [List.map] in Hs. unfold stored at 1 in Hs.
  apply bt_sorted_cons in Hs as [Hs Hf]. apply bt_sorted_cons. split; [by apply IH|]. rewrite List.Forall_forall in Hf |- *. intros e He. apply (Hf (stored e)). by apply in_map.
Qed.

Lemma stored_lookup g p e : g !! p = Some e -> List.map stored g !! p = Some (stored e).
Proof. intros Hp. rewrite list_lookup_fmap. by rewrite Hp. Qed.

Lemma var_entry_ok g p e :
  section_fits g -> g !! p = Some e -> flat_entry_at (var_enc g) None p = Ok (stored e).
Proof.
  intros Hg Hp. pose proof (stored_lookup g p e Hp) as Hs. pose proof (lookup_lt_Some _ _ _ Hs) as Hlt.
  pose proof (flat_repr_at (var_enc g) None (List.map stored g) (take p (List.map stored g)) (stored e)
    (drop (S p) (List.map stored g)) Hg) as He. rewrite length_take in He. replace (Nat.min p _) with p in He by lia.
  apply He. symmetry. by apply take_drop_middle.
Qed.

Lemma below_stored key g : length (bt_below key (List.map stored g)) = length (bt_below key g).
Proof.
  unfold bt_below. induction g as [|e g IH]; [done|]. cbn [List.map List.filter]. change (stored e).1 with e.1.
  destruct (kltb e.1 key); cbn [length]; by rewrite IH.
Qed.

(** The lower bound, as a search of the section. *)
Lemma lower_bound_found g key :
  section_fits g ->
  let lb := length (bt_below key g) in
  flat_lower_bound (var_enc g) None key = Ok lb /\
  found_in g key 0 (length g) (match g !! lb with Some (k, _) => if keqb k key then Some lb else None | None => None end) lb.
Proof.
  intros Hg lb. subst lb. split; [by rewrite (flat_lower_bound_repr _ _ _ key Hg), below_stored|].
  pose proof (section_fits_sorted g Hg) as Hs.
  assert (exists a b, g = a ++ b /\ length (bt_below key g) = length a /\ Forall (fun e => klt e.1 key) a /\ Forall (fun e => kle key e.1) b)
    as (a & b & E & Hl & Ha & Hb).
  { clear Hg. induction g as [|[k w] g IH]; [by exists [], []|]. apply bt_sorted_cons in Hs as [Hs Hf]. unfold bt_below. cbn [List.filter fst].
    destruct (kltb_spec k key) as [Hlt|Hge].
    - destruct (IH Hs) as (a & b & -> & Hl & Ha & Hb). exists ((k, w) :: a), b. unfold bt_below in Hl. cbn [length]. rewrite Hl.
      split_and!; [done|done|by constructor|done].
    - exists [], ((k, w) :: g). apply kle_not_lt in Hge. rewrite filter_none.
      + split_and!; [done|done|done|]. constructor; [done|]. eapply Forall_impl; [exact Hf|]. intros e He.
        apply klt_kle. eapply kle_lt_trans; [exact Hge|exact He].
      + eapply Forall_impl; [exact Hf|]. intros e He. destruct (kltb_spec e.1 key) as [Hc|]; [|done].
        apply kle_not_lt in Hge as []. eapply klt_trans; [exact He|exact Hc]. }
  rewrite Hl. destruct (g !! length a) as [[k w]|] eqn:Eg.
  - destruct (keqb_spec k key) as [->|Hne]; cbn [found_in]; rewrite whole_window; [by exists w|].
    split_and!; [rewrite E, length_app; lia| |].
    + intros i e Hi Hlt. rewrite E, lookup_app_l in Hi by done. rewrite Forall_lookup in Ha. by eapply Ha.
    + intros i e Hi Hge. rewrite Forall_lookup in Hb. assert (klt key k) as Hk.
      { rewrite E, lookup_app_r, Nat.sub_diag in Eg by lia. specialize (Hb _ _ Eg). apply kle_iff in Hb as [?|E']; [done|].
        cbn in E'. congruence. }
      destruct (decide (i = length a)) as [->|]; [by assert (e = (k, w)) as -> by congruence|].
      eapply klt_trans; [exact Hk|]. by apply (sorted_lookup g (length a) i (k, w) e); [..|lia].
  - cbn [found_in]. rewrite whole_window. apply lookup_ge_None in Eg. split_and!; [rewrite E, length_app; lia| |].
    + intros i e Hi Hlt. rewrite E, lookup_app_l in Hi by done. rewrite Forall_lookup in Ha. by eapply Ha.
    + intros i e Hi%lookup_lt_Some Hge. lia.
Qed.

Lemma search_varlen_ok g prev d :
  section_fits g -> g <> [] ->
  exists r, search_in_varlen_micro_cell_buffer (var_enc g) prev d = Ok r /\
    match r with
    | Some (e, p) => exists x, g !! p = Some x /\ e = result_of read_position x /\ nearest g prev d = Some x
    | None => nearest g prev d = None
    end.
Proof.
  intros Hg Hne. assert (0 < length g)%nat as Hpos by (destruct g; [done|cbn; lia]).
  unfold search_in_varlen_micro_cell_buffer, flat_varlen_count. cbv zeta. rewrite (flat_repr_count _ _ _ Hg), length_map.
  destruct (Nat.eqb_spec (length g) 0); [lia|].
  assert (exists start, (match prev with
     | Some prev_key =>
         lb ← flat_varlen_lower_bound (var_enc g) prev_key;
         match d with
         | Forward =>
             exact ← (if (lb <? length g)%nat then '(key, _) ← flat_varlen_entry_at (var_enc g) lb; Ok (keqb key prev_key) else Ok false);
             Ok (Some (if exact : bool then (lb + 1)%nat else lb))
         | Backward => Ok (match lb with O => None | S p => Some p end)
         end
     | None => Ok (Some (first_in_range d 0 (length g)))
     end) = Ok start /\ nearest g prev d = (start ≫= fun p => g !! p)) as (start & -> & Hn).
  { destruct prev as [key|].
    - destruct (lower_bound_found g key Hg) as [Hlb Hf]. unfold flat_varlen_lower_bound. rewrite Hlb. cbn [mbind outcome_bind].
      pose proof (section_step g key d _ _ (section_fits_sorted g Hg) Hne Hf) as Hstep.
      set (lb := length (bt_below key g)) in *. destruct d; cbn [step_from] in Hstep.
      + destruct (Nat.ltb_spec lb (length g)) as [Hlt|Hge].
        * destruct (lookup_lt_is_Some_2 g lb Hlt) as [[k w] Hk]. unfold flat_varlen_entry_at.
          rewrite (var_entry_ok g lb (k, w) Hg Hk). cbn [mbind outcome_bind stored fst]. rewrite Hk in Hstep.
          eexists. split; [done|]. by destruct (keqb k key).
        * cbn [mbind outcome_bind]. rewrite (lookup_ge_None_2 g lb Hge) in Hstep. by eexists.
      + eexists. split; [done|]. rewrite Hstep. destruct (g !! lb) as [[k w]|]; [|done]. by destruct (keqb k key).
    - eexists. split; [done|]. cbn. destruct d; cbn [first_in_range nearest]; [by rewrite head_lookup|].
      rewrite last_lookup. f_equal. lia. }
  cbn [mbind outcome_bind]. destruct start as [p|]; cbn in Hn; [|by exists None].
  destruct (Nat.leb_spec (length g) p) as [Hp|Hp].
  { exists None. split; [done|]. rewrite Hn. by apply lookup_ge_None_2. }
  destruct (lookup_lt_is_Some_2 g p Hp) as [x Hx]. unfold flat_varlen_entry_at. rewrite (var_entry_ok g p x Hg Hx).
  cbn [mbind outcome_bind stored]. eexists. split; [done|]. exists x. by rewrite Hn, Hx.
Qed.

Lemma varlen_section_spec : section_spec var_enc read_position section_fits varlen_sections.
Proof.
  split; intros g.
  - apply section_fits_sorted.
  - intros Hg. cbn. unfold flat_varlen_count. by rewrite (flat_repr_count _ _ _ Hg), length_map.
  - intros p x Hg Hx. cbn [so_entry_at varlen_sections]. unfold flat_varlen_entry_at. by rewrite (var_entry_ok g p x Hg Hx).
  - apply search_varlen_ok.
Qed.

Lemma flat_varlen_lookup_ok g key :
  section_fits g -> flat_varlen_lookup (var_enc g) key = Ok (option_map read_position (bt_get key g)).
Proof.
  intros Hg. destruct (lower_bound_found g key Hg) as [Hlb Hf]. unfold flat_varlen_lookup. rewrite Hlb. cbn [mbind outcome_bind].
  rewrite (flat_repr_count _ _ _ Hg), length_map. set (lb := length (bt_below key g)) in *.
  pose proof (section_fits_sorted g Hg) as Hs. destruct (Nat.leb_spec (length g) lb) as [Hge|Hlt].
  - rewrite (lookup_ge_None_2 g lb Hge) in Hf. cbn [found_in] in Hf. rewrite whole_window in Hf.
    by rewrite (splits_at_none g key lb Hs Hf).
  - destruct (lookup_lt_is_Some_2 g lb Hlt) as [[k w] Hk]. rewrite Hk in Hf. rewrite (var_entry_ok g lb (k, w) Hg Hk).
    cbn [mbind outcome_bind stored fst snd]. destruct (keqb_spec k key) as [Heq|_]; cbn [found_in] in Hf.
    + rewrite Heq in Hk. assert (bt_get key g = Some w) as ->; [|done]. apply bt_get_In; [done|]. by apply list_elem_of_lookup_2, list_elem_of_In in Hk.
    + rewrite whole_window in Hf. by rewrite (splits_at_none g key lb Hs Hf).
Qed.

(** ** Writing sections *)

Section writing.
Context (mc : list Z -> Z).

Notation range := (range_of var_enc HEADER_SIZE).

Definition header_ranges (header : list (Z * Z)) (groups : list (Z * list (list Z * WalPosition))) : Prop :=
  length header = HEADER_ELEMENTS /\ forall c, 0 <= c < HE -> header !! Z.to_nat c = Some (range groups c).

Lemma header_ranges_eq header groups : header_ranges header groups -> header = header_of var_enc groups.
Proof.
  intros [Hl Hh]. apply list_eq_same_length with HEADER_ELEMENTS; [unfold header_of; by rewrite length_map, length_seq|done|].
  intros i x y Hi. rewrite <- (Nat2Z.id i). rewrite Hh, header_of_lookup by lia. congruence.
Qed.

Lemma write_sections_ok rest : forall done_ header out,
  out = replicate HEADER_SIZE 0 ++ body var_enc done_ -> header_ranges header done_ -> bt_sorted (done_ ++ rest) ->
  Forall (fun g => section_fits g.2 /\ 0 <= g.1 < HE) rest ->
  Z.of_nat (HEADER_SIZE + length (body var_enc (done_ ++ rest))) < u32_max ->
  exists header', write_sections rest header out = Ok (header', replicate HEADER_SIZE 0 ++ body var_enc (done_ ++ rest)) /\
    header_ranges header' (done_ ++ rest).
Proof.
  induction rest as [|[m g] rest IH]; intros done_ header out -> Hh Hs Hf Hlen; cbn [write_sections].
  { exists header. by rewrite app_nil_r. }
  apply Forall_cons in Hf as [[(_ & _ & Hfit & Hsz) Hm] Hf]. cbn [fst snd] in *. cbv zeta.
  unfold append_flat_varlen_section. change (fun e : list Z * WalPosition => (e.1, iwp_from_disk e.2)) with stored.
  rewrite append_flat_varlen_image by done. fold (var_enc g). cbn [mbind outcome_bind].
  set (out := replicate HEADER_SIZE 0 ++ body var_enc done_) in *.
  assert (length out = HEADER_SIZE + length (body var_enc done_))%nat as Hout by (unfold out; by rewrite length_app, length_replicate).
  assert (HEADER_SIZE + length (body var_enc done_) + length (var_enc g) <= HEADER_SIZE + length (body var_enc (done_ ++ (m, g) :: rest)))%nat as Hle.
  { rewrite body_app, length_app. change (body var_enc ((m, g) :: rest)) with (var_enc g ++ body var_enc rest). rewrite length_app. lia. }
  rewrite length_app, Hout. rewrite !wrap32_small by (unfold is_u32, u32_max in *; lia).
  destruct Hh as [Hl Hr]. rewrite (header_update_ok _ _ _ _ (Hr m Hm)). cbn [mbind outcome_bind].
  pose proof Hs as Hs'. apply StronglySorted_app_inv in Hs' as (Hsd & _ & Hx).
  assert (bt_get m done_ = None) as Hn.
  { apply bt_get_None; [done|]. intros w Hin. specialize (Hx _ (m, g) Hin ltac:(by left)). by apply klt_irrefl in Hx. }
  rewrite cons_middle, app_assoc in Hs, Hlen |- *. apply IH; [|split|done|done|done].
  - rewrite body_app. change (body var_enc [(m, g)]) with (var_enc g ++ []). unfold out. by rewrite app_nil_r, <- app_assoc.
  - by rewrite length_insert.
  - intros c Hc. rewrite range_of_snoc by done. destruct (Z.eqb_spec c m) as [->|].
    + by rewrite list_lookup_insert_eq by lia.
    + rewrite list_lookup_insert_ne by lia. by apply Hr.
Qed.

(** ** Splicing sections *)

(** Start, end and count of each section. *)
Fixpoint sections_of (base : nat) (groups : list (Z * list (list Z * WalPosition))) : list (nat * nat * nat) :=
  match groups with
  | [] => []
  | (_, g) :: rest => (base, base + length (var_enc g), length g)%nat :: sections_of (base + length (var_enc g)) rest
  end.

Lemma var_enc_parts g :
  g <> [] -> var_enc g = be_bytes 4 (Z.of_nat (length g)) ++ var_offsets 0 (List.map stored g) ++ var_section (List.map stored g).
Proof. destruct g as [|e g]; [done|]. intros _. unfold var_enc, flat_image. cbn [List.map]. cbn [length]. by rewrite length_map. Qed.

Lemma length_var_enc g : g <> [] -> length (var_enc g) = (4 + 4 * length g + length (var_section (List.map stored g)))%nat.
Proof.
  intros Hne. rewrite var_enc_parts by done. rewrite !length_app, length_be_bytes, length_var_offsets, length_map. lia.
Qed.

Section splice.
Context (groups : list (Z * list (list Z * WalPosition))) (L : list (list Z * WalPosition)).
Context (Hg : groups_ok mc groups L) (Hfit : Forall (fun g => section_fits g.2) groups).
Context (Hlen : Z.of_nat (length (blob_of var_enc groups)) < u32_max).

Notation blob := (blob_of var_enc groups).

Lemma slice_section pre m g post :
  groups = pre ++ (m, g) :: post ->
  slice blob (HEADER_SIZE + length (body var_enc pre)) (HEADER_SIZE + length (body var_enc pre) + length (var_enc g)) = Ok (var_enc g).
Proof.
  intros E. apply (slice_mid _ (header_bytes (header_of var_enc groups) ++ body var_enc pre) (var_enc g) (body var_enc post)).
  - unfold blob_of. rewrite E at 2. rewrite body_app. change (body var_enc ((m, g) :: post)) with (var_enc g ++ body var_enc post).
    by rewrite <- !app_assoc.
  - by rewrite length_app, length_header_of.
  - by rewrite length_app, length_header_of.
Qed.

Lemma group_bounds m g : In (m, g) groups -> is_u32 (Z.of_nat (length g)) /\ g <> [] /\ 0 <= m < HE.
Proof.
  intros Hin. destruct Hg as (_ & Hf & _). rewrite List.Forall_forall in Hf, Hfit. destruct (Hf _ Hin) as (? & ? & _).
  destruct (Hfit _ Hin) as (_ & _ & _ & Hsz). apply size_fits_count in Hsz. by rewrite length_map in Hsz.
Qed.

Lemma header_u32_at c :
  0 <= c < HE ->
  let r := range groups c in
  u32_at blob (Z.to_nat c * HEADER_ELEMENT_SIZE) = Ok r.1 /\ u32_at blob (Z.to_nat c * HEADER_ELEMENT_SIZE + 4) = Ok r.2.
Proof.
  intros Hc r. subst r. pose proof (header_of_lookup var_enc groups c Hc) as Hl. destruct Hg as (Hs & _ & _).
  pose proof (range_of_get var_enc HEADER_SIZE groups c Hs) as Hr. destruct (range groups c) as [f t] eqn:Ert.
  destruct (header_bytes_at _ _ f t Hl) as (a & b & Hab & Ha).
  assert (is_u32 f /\ is_u32 t) as [Hf Ht].
  { destruct (bt_get c groups) as [g|]; [|injection Hr as -> ->; split; unfold is_u32; lia].
    destruct Hr as (pre & post & E & [-> ->]%pair_equal_spec). revert Hlen. unfold blob_of. rewrite length_app, length_header_of.
    rewrite E at 1. rewrite body_app. change (body var_enc ((c, g) :: post)) with (var_enc g ++ body var_enc post).
    rewrite !length_app. unfold is_u32, u32_max in *. lia. }
  unfold blob_of. rewrite Hab, <- Ha, <- !app_assoc. cbn [fst snd]. split; [by apply u32_at_mid|].
  rewrite app_assoc. replace (length a + 4)%nat with (length (a ++ be_bytes 4 f)) by (by rewrite length_app, length_be_bytes).
  by apply u32_at_mid.
Qed.

Lemma gather_ok len : forall k pre suf,
  (k + len = HEADER_ELEMENTS)%nat -> groups = pre ++ suf -> Forall (fun g => g.1 < Z.of_nat k) pre -> Forall (fun g => Z.of_nat k <= g.1) suf ->
  gather_sections blob (seq k len) = Ok (sections_of (HEADER_SIZE + length (body var_enc pre)) suf).
Proof.
  induction len as [|len IH]; intros k pre suf Hk E Hpre Hsuf; cbn [seq gather_sections].
  { destruct suf as [|[m g] suf]; [done|]. apply Forall_cons in Hsuf as [Hm _]. cbn [fst] in Hm.
    destruct (group_bounds m g) as (_ & _ & Hb); [rewrite E; apply in_or_app; right; by left|]. lia. }
  pose proof (header_u32_at (Z.of_nat k) ltac:(lia)) as [Hf Ht]. rewrite Nat2Z.id in Hf, Ht. cbv zeta. rewrite Hf. cbn [mbind outcome_bind].
  rewrite Ht. cbn [mbind outcome_bind]. destruct Hg as (Hs & _ & _).
  pose proof (range_of_get var_enc HEADER_SIZE groups (Z.of_nat k) Hs) as Hr.
  assert (forall suf', suf = suf' -> Forall (fun g => Z.of_nat (S k) <= g.1) suf' -> bt_get (Z.of_nat k) groups = None) as Hnone.
  { intros suf' -> Hs'. apply bt_get_None; [done|]. intros w Hin. rewrite E in Hin. apply in_app_or in Hin as [Hin|Hin].
    - rewrite List.Forall_forall in Hpre. specialize (Hpre _ Hin). cbn [fst] in Hpre. lia.
    - rewrite List.Forall_forall in Hs'. specialize (Hs' _ Hin). cbn [fst] in Hs'. lia. }
  assert (Forall (fun g => g.1 < Z.of_nat (S k)) pre) as Hpre' by (eapply Forall_impl; [exact Hpre|]; intros [] ?; cbn [fst] in *; lia).
  destruct suf as [|[m g] suf].
  { rewrite (Hnone [] eq_refl ltac:(constructor)) in Hr. rewrite Hr. cbn [fst snd Z.eqb andb]. apply (IH (S k) pre []); [lia|done|done|constructor]. }
  pose proof Hsuf as Hsuf0. apply Forall_cons in Hsuf as [Hm Hsuf]. cbn [fst] in Hm.
  assert (Forall (fun g => m < g.1) suf) as Hgt.
  { rewrite E in Hs. apply StronglySorted_app_inv in Hs as (_ & Hs & _). apply bt_sorted_cons in Hs as [_ Hlt].
    eapply Forall_impl; [exact Hlt|]. intros [m' g'] Hl. apply Z.compare_lt_iff. exact Hl. }
  destruct (decide (m = Z.of_nat k)) as [->|Hne].
  - assert (bt_get (Z.of_nat k) groups = Some g) as Hget.
    { apply bt_get_In; [done|]. rewrite E. apply in_or_app. right. by left. }
    destruct (group_bounds (Z.of_nat k) g) as (Hcnt & Hgne & _); [rewrite E; apply in_or_app; right; by left|].
    rewrite E in Hs. pose proof (range_of_get var_enc HEADER_SIZE groups (Z.of_nat k) (proj1 Hg)) as Hr'. rewrite Hget in Hr'.
    destruct Hr' as (pre' & post' & E' & Hr').
    rewrite E in E'. destruct (bt_split_unique _ _ _ _ _ _ _ Hs E') as (-> & _ & ->).
    rewrite Hr'. cbn [fst snd]. destruct (Z.eqb_spec (Z.of_nat (HEADER_SIZE + length (body var_enc pre))) 0) as [Hz|_].
    { change HEADER_SIZE with 1024%nat in Hz. lia. }
    cbn [andb]. rewrite !Nat2Z.id. rewrite (slice_section pre (Z.of_nat k) g suf E). cbn [mbind outcome_bind].
    assert (u32_at (var_enc g) 0 = Ok (Z.of_nat (length g))) as ->.
    { rewrite var_enc_parts by done. by apply (u32_at_mid []). }
    cbn [mbind outcome_bind]. rewrite (IH (S k) (pre ++ [(Z.of_nat k, g)]) suf).
    + cbn [mbind outcome_bind]. destruct (Z.eqb_spec (Z.of_nat (length g)) 0) as [Hz|_]; [destruct g; [done|cbn in Hz; lia]|].
      rewrite Nat2Z.id. cbn [sections_of]. rewrite body_app, length_app. change (body var_enc [(Z.of_nat k, g)]) with (var_enc g ++ []).
      by rewrite app_nil_r, Nat.add_assoc.
    + lia.
    + by rewrite E, <- app_assoc.
    + apply Forall_app. split; [done|]. constructor; [cbn [fst]; lia|constructor].
    + eapply Forall_impl; [exact Hgt|]. intros [] ?. cbn [fst] in *. lia.
  - assert (Forall (fun g => Z.of_nat (S k) <= g.1) ((m, g) :: suf)) as Hsuf'.
    { constructor; [cbn [fst]; lia|]. eapply Forall_impl; [exact Hgt|]. intros [] ?. cbn [fst] in *. lia. }
    rewrite (Hnone _ eq_refl Hsuf') in Hr. rewrite Hr. cbn [fst snd Z.eqb andb]. apply (IH (S k) pre); [lia|done|done|done].
Qed.
(** The entries of a list of groups. *)
Definition all_stored (gs : list (Z * list (list Z * WalPosition))) : list entry := List.map stored (concat (List.map snd gs)).

Lemma all_stored_cons m g gs : all_stored ((m, g) :: gs) = List.map stored g ++ all_stored gs.
Proof. unfold all_stored. cbn [List.map concat snd]. by rewrite map_app. Qed.

Lemma splice_offsets_ok g cum a b :
  g <> [] -> List.map stored g = a ++ b -> is_u32 (Z.of_nat (length (var_section (List.map stored g)))) ->
  Z.of_nat (cum + length (var_section (List.map stored g))) < u32_max ->
  splice_offsets (var_enc g) (Z.of_nat cum) (length a) (length b) = Ok (var_offsets (cum + length (var_section a)) b).
Proof.
  intros Hne. revert a. induction b as [|x b IH]; intros a E Hu Hc; cbn [splice_offsets var_offsets length]; [done|].
  assert (length (var_section a) + length (var_image x) <= length (var_section (List.map stored g)))%nat as Hle.
  { rewrite E, var_section_app, length_app. change (var_section (x :: b)) with (var_image x ++ var_section b). rewrite length_app. lia. }
  assert (u32_at (var_enc g) (4 + 4 * length a) = Ok (Z.of_nat (length (var_section a)))) as ->.
  { rewrite var_enc_parts by done. rewrite E at 1. rewrite var_offsets_app. cbn [var_offsets]. rewrite Nat.add_0_l.
    set (cnt := be_bytes 4 (Z.of_nat (length g))).
    replace (4 + 4 * length a)%nat with (length (cnt ++ var_offsets 0 a)) by (unfold cnt; rewrite length_app, length_be_bytes, length_var_offsets; lia).
    rewrite <- !app_assoc. rewrite app_assoc. apply u32_at_mid. unfold is_u32 in *. lia. }
  cbn [mbind outcome_bind]. rewrite cons_middle, app_assoc in E. specialize (IH (a ++ [x]) E Hu Hc).
  rewrite length_app in IH. cbn [length] in IH. rewrite Nat.add_1_r in IH. rewrite IH. cbn [mbind outcome_bind]. f_equal. f_equal.
  - rewrite wrap32_small by (unfold is_u32, u32_max in *; lia). f_equal. lia.
  - f_equal. rewrite var_section_app, length_app. change (var_section [x]) with (var_image x ++ []). rewrite app_nil_r. lia.
Qed.

Lemma splice_ok suf : forall pre,
  groups = pre ++ suf ->
  let base := (HEADER_SIZE + length (body var_enc pre))%nat in
  splice_tables blob (sections_of base suf) (Z.of_nat (length (var_section (all_stored pre)))) =
    Ok (var_offsets (length (var_section (all_stored pre))) (all_stored suf)) /\
  splice_entries blob (sections_of base suf) = Ok (var_section (all_stored suf)).
Proof.
  induction suf as [|[m g] suf IH]; intros pre E base; cbn [sections_of splice_tables splice_entries]; [done|].
  destruct (group_bounds m g) as (_ & Hgne & _); [rewrite E; apply in_or_app; right; by left|].
  pose proof (length_var_enc g Hgne) as Hlg. pose proof (slice_section pre m g suf E) as Hsl. subst base.
  set (base := (HEADER_SIZE + length (body var_enc pre))%nat) in *. rewrite Hsl. cbn [mbind outcome_bind].
  assert (length (var_section (all_stored pre)) <= length (body var_enc pre))%nat as Hpre.
  { assert (Forall (fun g => g.2 <> []) pre) as Hne.
    { destruct Hg as (_ & Hf & _). rewrite E in Hf. apply Forall_app in Hf as [Hf _]. eapply Forall_impl; [exact Hf|]. by intros ? (_ & ? & _). }
    clear -Hne. induction Hne as [|[m' g'] pre Hx Hne IHp]; [done|]. rewrite all_stored_cons, var_section_app, length_app.
    change (body var_enc ((m', g') :: pre)) with (var_enc g' ++ body var_enc pre). rewrite length_app, length_var_enc by done. lia. }
  assert (Z.of_nat (length (body var_enc pre) + length (var_enc g)) < u32_max) as Hroom.
  { revert Hlen. unfold blob_of. rewrite length_app, length_header_of. rewrite E at 1. rewrite body_app, length_app.
    change (body var_enc ((m, g) :: suf)) with (var_enc g ++ body var_enc suf). rewrite length_app. lia. }
  assert (is_u32 (Z.of_nat (length (var_section (List.map stored g))))) as Hu by (unfold is_u32, u32_max in *; lia).
  destruct (IH (pre ++ [(m, g)])) as [IHt IHe]; [by rewrite <- app_assoc|].
  assert (all_stored (pre ++ [(m, g)]) = all_stored pre ++ List.map stored g) as Eall.
  { unfold all_stored. rewrite !map_app, concat_app, map_app. cbn. by rewrite app_nil_r. }
  rewrite body_app, length_app in IHt, IHe. change (body var_enc [(m, g)]) with (var_enc g ++ []) in IHt, IHe.
  rewrite app_nil_r, Nat.add_assoc in IHt, IHe. fold base in IHt, IHe. rewrite Eall, var_section_app, length_app in IHt.
  split.
  - pose proof (splice_offsets_ok g (length (var_section (all_stored pre))) [] (List.map stored g) Hgne eq_refl Hu) as Ho.
    rewrite length_map in Ho. cbn [length] in Ho. rewrite Ho by (unfold u32_max in *; lia). cbn [mbind outcome_bind]. cbv zeta.
    replace (base + length (var_enc g) - base - (4 + 4 * length g))%nat with (length (var_section (List.map stored g))) by lia.
    rewrite (wrap32_small (Z.of_nat (length (var_section (List.map stored g))))) by done.
    rewrite wrap32_small by (unfold is_u32, u32_max in *; lia). rewrite <- Nat2Z.inj_add, IHt. cbn [mbind outcome_bind].
    rewrite all_stored_cons, var_offsets_app. by rewrite Nat.add_0_r.
  - assert (slice blob (base + (4 + 4 * length g)) (base + length (var_enc g)) = Ok (var_section (List.map stored g))) as ->.
    { set (hd := be_bytes 4 (Z.of_nat (length g)) ++ var_offsets 0 (List.map stored g)).
      assert (length hd = 4 + 4 * length g)%nat as Hhd by (unfold hd; by rewrite length_app, length_be_bytes, length_var_offsets, length_map).
      apply (slice_mid _ (header_bytes (header_of var_enc groups) ++ body var_enc pre ++ hd) _ (body var_enc suf)).
      - unfold blob_of. rewrite E at 2. rewrite body_app. change (body var_enc ((m, g) :: suf)) with (var_enc g ++ body var_enc suf).
        rewrite (var_enc_parts g Hgne). unfold hd. by rewrite <- !app_assoc.
      - rewrite !length_app, length_header_of, Hhd. unfold base. lia.
      - rewrite !length_app, length_header_of, Hhd, Hlg. unfold base. lia. }
    cbn [mbind outcome_bind]. rewrite IHe. cbn [mbind outcome_bind]. by rewrite all_stored_cons, var_section_app.
Qed.

Lemma total_count_ok base suf :
  foldr (fun s n => (s.2 + n)%nat) 0%nat (sections_of base suf) = length (all_stored suf).
Proof.
  revert base. induction suf as [|[m g] suf IH]; intros base; cbn [sections_of foldr snd]; [done|].
  by rewrite IH, all_stored_cons, length_app, length_map.
Qed.

(** The spliced buffer is the flat buffer of all entries. *)
Lemma deserialize_sections_ok :
  is_u32 (Z.of_nat (length L)) -> deserialize_varlen_index blob = Ok (from_varlen_flat_bytes (flat_image None (List.map stored L))).
Proof.
  intros Hcnt. unfold deserialize_varlen_index. rewrite (gather_ok HEADER_ELEMENTS 0 [] groups); [|done|done|constructor|].
  2:{ destruct Hg as (_ & Hf & _). eapply Forall_impl; [exact Hf|]. intros [] (? & _). cbn [fst] in *. lia. }
  cbn [mbind outcome_bind]. rewrite total_count_ok. cbv zeta. destruct (splice_ok groups [] eq_refl) as [Ht He].
  assert (all_stored groups = List.map stored L) as Eall by (unfold all_stored; by destruct Hg as (_ & _ & ->)).
  rewrite Eall in *. rewrite length_map. destruct (Nat.eqb_spec (length L) 0) as [Hz|Hnz].
  { destruct L; [done|cbn in Hz; lia]. }
  change (Z.of_nat (length (var_section (all_stored [])))) with 0 in Ht. rewrite Ht. cbn [mbind outcome_bind]. rewrite He.
  cbn [mbind outcome_bind]. rewrite wrap32_small by done. do 2 f_equal.
  destruct L as [|e L'] eqn:EL; [done|]. unfold flat_image. cbn [List.map length]. by rewrite length_map.
Qed.
End splice.
End writing.

(** ** The format over variable-size keys *)

Lemma groups_sections ks groups L :
  groups_ok (mcell ks) groups L -> bt_sorted L -> Forall (entry_fits None) (List.map stored L) -> size_fits None (List.map stored L) ->
  Forall (fun g => section_fits g.2) groups /\
  (length (body var_enc groups) <= 2 * length (var_section (List.map stored L)))%nat.
Proof.
  intros (_ & Hne & <-) Hs Hf Hsz. unfold size_fits in Hsz. revert Hs Hf Hsz.
  induction Hne as [|[m g] groups (_ & Hg & _) Hne IH]; intros Hs Hf Hsz; [done|]. cbn [List.map concat snd] in *.
  rewrite !map_app in *. rewrite var_section_app, length_app in Hsz |- *.
  apply StronglySorted_app_inv in Hs as (Hs1 & Hs2 & _). apply Forall_app in Hf as [Hf1 Hf2].
  destruct (IH Hs2 Hf2 ltac:(lia)) as [IHf IHl]. split.
  - constructor; [|done]. cbn [snd]. split_and!; [done| |done|unfold size_fits; lia].
    apply (bt_sorted_map (fun e : list Z * WalPosition => iwp_from_disk e.2)). done.
  - change (body var_enc ((m, g) :: groups)) with (var_enc g ++ body var_enc groups). rewrite length_app, length_var_enc by done.
    pose proof (length_var_section_ge (List.map stored g)) as Hge. rewrite length_map in Hge.
    assert (0 < length g)%nat by (destruct g; [done|cbn; lia]). lia.
Qed.

Lemma written_iter t es :
  it_wf t es -> iter_with_tombstones t = Ok (written_positions t es).
Proof.
  intros Hw. rewrite (iter_with_tombstones_ok t es Hw). f_equal. unfold written_positions. apply map_ext. intros [k p].
  unfold into_wal_position, disk_position, is_removed. by destruct p as [o l []].
Qed.

Lemma stored_written t es : List.map stored (written_positions t es) = List.map disk_entry (combined t es).
Proof. unfold written_positions. rewrite map_map. done. Qed.

Section varlen_format.
Context (ks : KeySpaceDesc) (cell : CellId) (Hks : ks_ok ks) (Hn : ks_index_key_size ks = None).

Lemma varlen_section_ops : section_ops ks = Ok varlen_sections.
Proof. unfold section_ops, index_key_element_size. by rewrite Hn. Qed.

Lemma varlen_section_lookup g k :
  section_fits g -> section_lookup ks (var_enc g) k = Ok (option_map read_position (bt_get k g)).
Proof.
  intros Hg. unfold section_lookup, index_key_element_size. rewrite Hn. cbn [mbind outcome_bind]. by apply flat_varlen_lookup_ok.
Qed.

Lemma varlen_blob_ok U t es :
  Forall (cell_key ks cell) U -> universe_ok None U -> cell_table None U t es ->
  exists b t', serialize_index LookupHeader t ks = Ok b /\ deserialize_index LookupHeader ks b = Ok t' /\
    (length b <= 1024 + 2 * keys_size U)%nat /\
    cell_blob None U t' (List.map disk_entry (combined t es)) /\
    (forall k, cell_key ks cell k ->
       lookup_unloaded LookupHeader ks b k = Ok (option_map read_position (bt_get k (written_positions t es)))) /\
    forall prev d p c, (forall k, prev = Some k -> cell_key ks cell k) -> header_cache ks var_enc (written_positions t es) p c ->
      exists c', next_entry_unloaded LookupHeader ks b prev d p c =
          Ok (option_map (result_of read_position) (nearest (written_positions t es) prev d), c') /\
        header_cache ks var_enc (written_positions t es) p c'.
Proof.
  intros HU Hu Ht. pose proof (ct_wf _ _ _ _ Ht) as Hwf. pose proof (combined_keys _ _ _ _ Ht) as Hck.
  assert (disk_fits None (combined t es)) as Hfit.
  { apply (universe_disk_fits None U); [done|by apply combined_sorted|]. intros k. rewrite bt_get_combined by done. apply (ct_keys _ _ _ _ Ht). }
  pose proof (written_sorted t es Hwf) as Hs. pose proof (stored_written t es) as Est.
  assert (Forall (entry_fits None) (List.map stored (written_positions t es))) as Hf.
  { rewrite Est. apply Forall_map. eapply Forall_impl; [apply (disk_key_fits_key None); [apply Hfit|by apply combined_fits]|].
    intros e. apply disk_entry_fits. }
  assert (size_fits None (List.map stored (written_positions t es))) as Hsz by (rewrite Est; apply size_fits_disk, Hfit).
  assert (Forall (fun e => cell_key ks cell e.1) (written_positions t es)) as Hk.
  { unfold written_positions. apply Forall_map. rewrite List.Forall_forall in *. intros e He. by apply HU, Hck. }
  assert (length (var_section (List.map stored (written_positions t es))) <= keys_size U)%nat as Hsize.
  { rewrite length_var_section, map_map. unfold written_positions. rewrite map_map.
    apply keys_size_subset; [by apply sorted_keys_NoDup, combined_sorted|]. intros k. rewrite in_map_iff. intros (e & <- & He).
    rewrite List.Forall_forall in Hck. exact (Hck e He). }
  set (ws := written_positions t es) in *.
  destruct (group_entries_ok ks cell Hks ws [] []) as (groups & Hgr & Hg); [by split_and!; [constructor| |]|done|done|]. cbn [app] in Hg.
  destruct (groups_sections ks groups ws Hg Hs Hf Hsz) as [Hsec Hlen].
  assert (Z.of_nat (HEADER_SIZE + length (body var_enc groups)) < u32_max) as Hroom.
  { destruct Hu as [_ Hu]. change HEADER_SIZE with 1024%nat. lia. }
  assert (Z.of_nat (length (blob_of var_enc groups)) < u32_max) as Hblen by (unfold blob_of; by rewrite length_app, length_header_of).
  assert (Forall (fun g => section_fits g.2 /\ 0 <= g.1 < HE) groups) as Hboth.
  { destruct Hg as (_ & Hg & _). rewrite List.Forall_forall in *. intros g Hin. split; [by apply Hsec|by apply Hg]. }
  destruct (write_sections_ok groups [] (replicate HEADER_ELEMENTS (0, 0)) (replicate HEADER_SIZE 0)) as (header & Hwr & Hh);
    [symmetry; apply app_nil_r|split; [done|]; intros c Hc; rewrite lookup_replicate_2 by lia; done|apply Hg|done|done|].
  exists (blob_of var_enc groups), (from_varlen_flat_bytes (flat_image None (List.map disk_entry (combined t es)))).
  cbn [serialize_index deserialize_index lookup_unloaded next_entry_unloaded header_format]. split_and!.
  - unfold header_serialize_index. rewrite Hn, (written_iter t es Hwf). cbn [mbind outcome_bind]. fold ws. rewrite Hgr.
    cbn [mbind outcome_bind]. rewrite Hwr. cbn [mbind outcome_bind app]. rewrite (header_ranges_eq header groups Hh).
    unfold copy_at, blob_of. rewrite length_header_of, Nat.add_0_l. cbn [take app].
    by rewrite drop_app_length' by (by rewrite length_replicate).
  - unfold header_deserialize_index. rewrite Hn. rewrite (deserialize_sections_ok (mcell ks) groups ws Hg Hsec Hblen).
    + by rewrite Est.
    + apply size_fits_count in Hsz. by rewrite length_map in Hsz.
  - unfold blob_of. rewrite length_app, length_header_of. change HEADER_SIZE with 1024%nat. lia.
  - apply cell_blob_read; [done|done|done|]. cbn [it_flat it_key_size from_varlen_flat_bytes]. rewrite <- Est. split_and!; [done| |done|done].
    rewrite Est. by apply disk_entries_sorted, combined_sorted.
  - intros k Hkey. by rewrite (header_lookup_ok ks cell Hks var_enc read_position section_fits varlen_section_lookup groups ws).
  - intros prev d p c Hprev Hc.
    by apply (header_next_ok ks cell Hks var_enc read_position section_fits _ varlen_section_spec varlen_section_ops groups ws).
Qed.

(** Positions of live keys read back unchanged. *)
Lemma read_position_valid w : w <> WalPosition_INVALID -> read_position w = w.
Proof. intros Hw. unfold read_position, iwp_from_disk. rewrite bool_decide_eq_false_2 by done. by destruct w. Qed.

Lemma read_position_tombstone : read_position WalPosition_INVALID = wp_new u64_max 0.
Proof. done. Qed.
End varlen_format.

(** ** Properties *)

(** What the readers of a variable-size blob make of a stored position. *)
Definition as_read (w : WalPosition) : WalPosition := if bool_decide (w = WalPosition_INVALID) then wp_new u64_max 0 else w.

Lemma read_position_as_read w : read_position w = as_read w.
Proof. unfold as_read. case_bool_decide as Hw; [by subst|by apply read_position_valid]. Qed.

(** C33. Blobs of variable-size keys: serialization and loading succeed and the
    loaded table answers as the one written, deletions included; a lookup over
    the stored bytes answers as the table does for every key it holds a live
    position of and for every key it does not hold; and a walk step over the
    bytes, forwards or backwards, returns the table's next entry, from an empty
    cache and from every cache such steps leave behind, its position unchanged
    when it is live and [as_read] when it is a deletion. *)
Theorem varlen_blob_reads ks cell U t es position :
  ks_ok ks -> ks_index_key_size ks = None ->
  Forall (cell_key ks cell) U -> universe_ok None U -> cell_table None U t es ->
  exists b t' warm, header_serialize_index t ks = Ok b /\ header_deserialize_index ks b = Ok t' /\
    (forall k, it_get t' k = it_get t k) /\
    (forall k, cell_key ks cell k -> it_get t k <> Ok (Some WalPosition_INVALID) -> header_lookup_unloaded ks b k = it_get t k) /\
    warm None /\
    forall prev reverse cache, (forall k, prev = Some k -> cell_key ks cell k) -> warm cache ->
      exists cache', header_next_entry_unloaded ks b prev (direction_from_bool reverse) position cache =
        (r ← next_entry t prev reverse; Ok (option_map (fun e => (e.1, as_read e.2)) r, cache')) /\ warm cache'.
Proof.
  intros Hks Hn HU Hu Ht. pose proof (ct_wf _ _ _ _ Ht) as Hwf.
  destruct (varlen_blob_ok ks cell Hks Hn U t es HU Hu Ht) as (b & t' & Hs & Hd & _ & Hb & Hl & Hx).
  exists b, t', (header_cache ks var_enc (written_positions t es) position). split_and!; [done|done| | |done|].
  - intros k. rewrite (it_get_ok t' _ k (ct_wf _ _ _ _ (cb_table _ _ _ _ Hb))), (it_get_ok t es k Hwf).
    rewrite (flat_only_view t' _ k (cb_data _ _ _ _ Hb)). by rewrite disk_roundtrip_view.
  - intros k Hk. rewrite <- (written_get t es k Hwf). intros Hlive. rewrite Hl by done.
    destruct (bt_get k (written_positions t es)) as [w|]; [|done]. cbn. by rewrite read_position_valid by congruence.
  - intros prev reverse cache Hprev Hc. destruct (Hx prev (direction_from_bool reverse) position cache Hprev Hc) as (c' & Hr & Hc').
    exists c'. split; [|done]. cbn [next_entry_unloaded header_format] in Hr. rewrite Hr, <- (written_next t es prev reverse Hwf). cbn [mbind outcome_bind].
    destruct (nearest _ _ _) as [[k w]|]; [|done]. cbn. unfold result_of. cbn. by rewrite read_position_as_read.
Qed.

Definition demo_varlen : KeySpaceDesc := mkKeySpace 0 "v" VariableLength 4 (Uniform 4) false.

Lemma demo_varlen_ok : ks_ok demo_varlen.
Proof. by vm_compute. Qed.

Lemma demo_varlen_keys : Forall (cell_key demo_varlen (CellInteger 0)) demo_universe.
Proof.
  pose proof demo_cell_keys as Hk. eapply Forall_impl; [exact Hk|]. intros k (Hl & Hok & Hc). cbn in Hl.
  split; [cbn; rewrite Hl; by vm_compute|]. split; [exact Hok|exact Hc].
Qed.

Lemma demo_varlen_universe : universe_ok None demo_universe.
Proof. split; [|by vm_compute]. do 2 (constructor; [by vm_compute|]). constructor. Qed.

Lemma demo_varlen_table : cell_table None demo_universe demo_cell_table [].
Proof. destruct demo_cell_table_ok as [Hw Hk _]. split; [exact Hw|exact Hk|by left]. Qed.

Lemma varlen_blob_reads_witness :
  exists b, header_serialize_index demo_cell_table demo_varlen = Ok b /\
    header_lookup_unloaded demo_varlen b (demo_key 5) = Ok (Some (wp_new 100 10)) /\
    exists cache, header_next_entry_unloaded demo_varlen b None Forward (wp_new 1 1) None = Ok (Some (demo_key 5, wp_new 100 10), cache).
Proof.
  destruct (varlen_blob_reads demo_varlen (CellInteger 0) demo_universe demo_cell_table [] (wp_new 1 1) demo_varlen_ok eq_refl
    demo_varlen_keys demo_varlen_universe demo_varlen_table) as (b & t' & warm & Hs & _ & _ & Hl & Hw & Hx).
  exists b. split; [exact Hs|]. split.
  - rewrite Hl; [by vm_compute| |by vm_compute]. pose proof demo_varlen_keys as Hk. rewrite List.Forall_forall in Hk. apply Hk. by left.
  - destruct (Hx None false None) as (cache & Hr & _); [done|exact Hw|]. exists cache. etransitivity; [exact Hr|]. vm_compute. reflexivity.
Defined.

(** C40. A deleted key of a variable-size key space is not reported as deleted by
    a lookup over its stored blob: where the table, and the table loaded from the
    blob, answer [WalPosition::INVALID], the lookup returns offset [u64::MAX]
    with length 0, which [is_valid] takes for a live position. *)
Theorem varlen_tombstone_reads_live ks cell U t es k :
  ks_ok ks -> ks_index_key_size ks = None ->
  Forall (cell_key ks cell) U -> universe_ok None U -> cell_table None U t es ->
  cell_key ks cell k -> it_get t k = Ok (Some WalPosition_INVALID) ->
  exists b t' p, header_serialize_index t ks = Ok b /\ header_deserialize_index ks b = Ok t' /\
    it_get t' k = Ok (Some WalPosition_INVALID) /\
    header_lookup_unloaded ks b k = Ok (Some p) /\ p = wp_new u64_max 0 /\ wp_is_valid p = true.
Proof.
  intros Hks Hn HU Hu Ht Hk Hdel. pose proof (ct_wf _ _ _ _ Ht) as Hwf.
  destruct (varlen_blob_ok ks cell Hks Hn U t es HU Hu Ht) as (b & t' & Hs & Hd & _ & Hb & Hl & _).
  exists b, t', (wp_new u64_max 0). split_and!; [done|done| | |done|done].
  - rewrite <- Hdel, (it_get_ok t' _ k (ct_wf _ _ _ _ (cb_table _ _ _ _ Hb))), (it_get_ok t es k Hwf).
    rewrite (flat_only_view t' _ k (cb_data _ _ _ _ Hb)). by rewrite disk_roundtrip_view.
  - pose proof (Hl k Hk) as Hlk. pose proof (written_get t es k Hwf) as Hg. rewrite Hdel in Hg. injection Hg as Hg.
    rewrite Hg in Hlk. exact Hlk.
Qed.

Lemma varlen_tombstone_reads_live_witness :
  exists b, header_serialize_index demo_cell_table demo_varlen = Ok b /\
    header_lookup_unloaded demo_varlen b (demo_key 7) = Ok (Some (wp_new u64_max 0)).
Proof.
  pose proof demo_varlen_keys as Hk. rewrite List.Forall_forall in Hk.
  destruct (varlen_tombstone_reads_live demo_varlen (CellInteger 0) demo_universe demo_cell_table [] (demo_key 7) demo_varlen_ok eq_refl
    demo_varlen_keys demo_varlen_universe demo_varlen_table (Hk _ (or_intror (or_introl eq_refl))) ltac:(by vm_compute))
    as (b & t' & p & Hs & _ & _ & Hl & -> & _).
  exists b. split; [exact Hs|exact Hl].
Defined.
