(* ===== verification/IndexStore.v ===== *)
(** * Index blobs in the index log

    How the database implements the loader interface ([impl Loader for Db] in
    [src/tidehunter/src/db.rs]): [flush] serializes a table in the key space's
    format and appends it to the index log as a [WalEntry::Index]; [load] reads
    the entry back and deserializes it; [index_reader] opens the bytes behind the
    entry's two-byte prefix, which the lookup formats search.  The index blob
    cache serves the same bytes as the log and is left out.

    The log itself is behind the class [FrameStore]; [FrameLog], a list of
    frames, shows that its laws can hold.  [index_store_spec] discharges
    [LoaderSpec] from a format and a frame store that keep their promises. *)

From Stdlib Require Import ZArith Lia List Sorting.Sorted.
From stdpp Require Import base tactics list strings.
From S2P Require Import Prelude BTree Bytes Position Cell Layout KeyShape WalEntry Flat FlatFacts IndexTable IndexOps.
From S2P Require Import IndexTableFacts IndexWalk IndexPromote IndexFlush IndexUnmerge IndexCodec IndexClean.
From S2P Require Import Levels IterCache Loader IndexFormat UniformLookup LookupHeader LookupHeaderFacts HeaderBlob VarlenBlob.

Local Open Scope Z_scope.

(** ** The format of a key space *)

Inductive IndexFormatType :=
| FormatHeader
| FormatUniform (index : UniformLookupIndex).

#[export] Instance format_type : IndexFormat IndexFormatType := {
  serialize_index := fun f =>
    match f with FormatHeader => serialize_index LookupHeader | FormatUniform index => serialize_index index end;
  deserialize_index := fun f =>
    match f with FormatHeader => deserialize_index LookupHeader | FormatUniform index => deserialize_index index end;
  lookup_unloaded := fun f =>
    match f with FormatHeader => lookup_unloaded LookupHeader | FormatUniform index => lookup_unloaded index end;
  next_entry_unloaded := fun f =>
    match f with FormatHeader => next_entry_unloaded LookupHeader | FormatUniform index => next_entry_unloaded index end;
}.

(** The formats that keep the promise for every table: both, with fixed-size
    keys; the uniform one with at least two elements to a window. *)
Definition format_ok (f : IndexFormatType) (ks : KeySpaceDesc) : Prop :=
  ks_ok ks /\
  match f with
  | FormatHeader => is_Some (ks_index_key_size ks)
  | FormatUniform index => is_Some (ks_index_key_size ks) /\ exists w, window_size_00 index = Ok w /\ (2 <= w)%nat
  end.

Lemma format_blob_ok f ks cell U t es :
  format_ok f ks -> Forall (cell_key ks cell) U -> universe_ok (ks_index_key_size ks) U -> cell_table (ks_index_key_size ks) U t es ->
  exists b t', serialize_index f t ks = Ok b /\ deserialize_index f ks b = Ok t' /\ (length b <= 1024 + 2 * keys_size U)%nat /\
    cell_blob (ks_index_key_size ks) U t' (List.map disk_entry (combined t es)) /\
    (forall k, cell_key ks cell k -> lookup_unloaded f ks b k = Ok (bt_get k (written_positions t es))) /\
    forall p c, (forall x, c = Some x -> cache_position x <> p) ->
      cache_warm U p (written_positions t es) (fun prev d c => next_entry_unloaded f ks b prev d p c) c.
Proof.
  intros [Hks Hf] HU Hu Ht. assert (forall k, In k U -> cell_key ks cell k) as HU' by (by apply List.Forall_forall). destruct f as [|index].
  - destruct Hf as [n Hn]. destruct (header_blob_ok ks n cell Hks Hn U t es HU Hu Ht) as (b & t' & H1 & H2 & H3 & H4 & H5 & H6).
    exists b, t'. split_and!; [done..|]. intros p c Hc. exists (header_cache ks elements (written_positions t es) p). split.
    + intros prev d c0 Hp Hw. destruct (H6 prev d p c0 ltac:(auto) Hw) as (c' & Hn' & Hc'). exists c'. split_and!; [done|done|].
      eapply header_next_cache, Hn'.
    + destruct c as [[q m b0 lp|]|]; [|done|done]. intros ->. by destruct (Hc _ eq_refl).
  - destruct Hf as ([n Hn] & w & Hw & Hw2).
    destruct (uniform_blob_ok index ks n w cell Hks Hn Hw Hw2 U t es HU Hu Ht) as (b & t' & H1 & H2 & H3 & H4 & H5 & H6).
    exists b, t'. split_and!; [done..|]. intros p c Hc. exists (cache_of n (written_positions t es) p). split.
    + intros prev d c0 Hp Hcw. destruct (H6 prev d p c0 ltac:(auto) Hcw) as (c' & Hn' & Hc'). exists c'. split_and!; [done|done|].
      eapply uniform_next_cache, Hn'.
    + destruct c as [[|q from to b0 lp]|]; [done| |done]. intros ->. by destruct (Hc _ eq_refl).
Qed.

(** ** The index log *)

Class FrameStore (W : Type) := {
  (** appends a payload and returns its position *)
  frames_write : W -> list Z -> option (W * WalPosition);
  (** the payload at a position *)
  frames_read : W -> WalPosition -> option (list Z);
}.

(** What is written can be read back and stays; [room] is the largest payload. *)
Class FrameStoreSpec (W : Type) `{FrameStore W} (room : nat) := {
  frames_write_ok : forall w b, (length b <= room)%nat ->
    exists w' p, frames_write w b = Some (w', p) /\ wp_is_valid p = true /\ frames_read w p = None /\
      frames_read w' p = Some b /\ forall q, is_Some (frames_read w q) -> frames_read w' q = frames_read w q;
}.

(** ** The database as a loader *)

Definition INDEX_PREFIX_SIZE : nat := 2.

Definition to_option {A} (m : outcome A) : option A := match m with Ok a => Some a | Panic _ => None end.

Section db.
Context {W : Type} `{FrameStore W} (f : IndexFormatType) (ks : KeySpaceDesc).

(** What the loader reads of [Db]: the index log and the state of the main one. *)
Record DbLoader := mkDbLoader {
  db_indexes : W;
  db_last_processed : LastProcessed;
  db_current_wal_position : Z;
  db_min_wal_position : Z;
}.

Definition write_index (db : DbLoader) (index : IndexTable) : option (DbLoader * WalPosition) :=
  match serialize_index f index ks with
  | Ok index =>
      match wal_entry_write (WalIndex (ks_id ks) index) [] with
      | Ok w =>
          match frames_write (db_indexes db) w with
          | Some (indexes, position) =>
              Some (mkDbLoader indexes (db_last_processed db) (db_current_wal_position db) (db_min_wal_position db), position)
          | None => None
          end
      | Panic _ => None
      end
  | Panic _ => None
  end.

Definition read_entry (db : DbLoader) (position : WalPosition) : option WalEntry :=
  frames_read (db_indexes db) position ≫= fun b => to_option (wal_entry_from_bytes b).

Definition read_index (entry : WalEntry) : outcome IndexTable :=
  match entry with
  | WalIndex _ bytes => deserialize_index f ks bytes
  | _ => Panic "Unexpected wal entry where expected index"
  end.

Definition db_load (db : DbLoader) (position : WalPosition) : option IndexTable :=
  read_entry db position ≫= fun entry => to_option (read_index entry).

Definition index_reader (db : DbLoader) (position : WalPosition) : option (list Z) :=
  frames_read (db_indexes db) position ≫= fun b => to_option (slice_from b INDEX_PREFIX_SIZE).

Definition db_lookup (db : DbLoader) (position : WalPosition) (k : list Z) : option (option WalPosition) :=
  index_reader db position ≫= fun reader => to_option (lookup_unloaded f ks reader k).

Definition db_walk (db : DbLoader) (position : WalPosition) : option BlobWalk :=
  option_map (fun reader prev direction cache => next_entry_unloaded f ks reader prev direction position cache) (index_reader db position).

#[export] Instance db_loader : Loader DbLoader := {
  ld_load := db_load;
  ld_flush := write_index;
  ld_lookup := db_lookup;
  ld_walk := db_walk;
  ld_last_processed := db_last_processed;
  ld_current_wal_position := db_current_wal_position;
  ld_min_wal_position := db_min_wal_position;
}.
End db.

Arguments DbLoader W : clear implicits.
Arguments mkDbLoader {W}.

(** ** The loader's promise *)

Section db_spec.
Context {W : Type} `{FrameStore W} {room : nat} `{!FrameStoreSpec W room}.
Context (f : IndexFormatType) (ks : KeySpaceDesc) (cell : CellId) (U : list (list Z)).
Context (Hf : format_ok f ks) (HU : Forall (cell_key ks cell) U) (Hu : universe_ok (ks_index_key_size ks) U).
Context (Hid : is_u8 (ks_id ks)) (Hroom : (1026 + 2 * keys_size U <= room)%nat).

Lemma index_entry_encodes ks' b :
  is_u8 ks' -> exists enc, wal_entry_write (WalIndex ks' b) [] = Ok enc /\ length enc = (2 + length b)%nat /\
    wal_entry_from_bytes enc = Ok (WalIndex ks' b) /\ slice_from enc INDEX_PREFIX_SIZE = Ok b.
Proof.
  intros Hk. exists (WAL_ENTRY_INDEX :: ks' :: b). split_and!; [done|done| |].
  - destruct (wal_entry_encodes (WalIndex ks' b) Hk) as (enc & He & _ & Hd). specialize (He []). cbn in He.
    injection He as <-. exact Hd.
  - done.
Qed.

#[local] Instance db_inst : Loader (DbLoader W) := db_loader f ks.

Lemma written_as_wal t es : it_wf t es -> List.map as_wal (List.map disk_entry (combined t es)) = written_positions t es.
Proof.
  intros Hw. unfold written_positions. rewrite map_map. apply map_ext_in. intros [k p] Hin. unfold as_wal.
  pose proof (combined_fits t es Hw) as Hc. rewrite List.Forall_forall in Hc. rewrite disk_position_wal by apply (Hc _ Hin). done.
Qed.

Lemma db_flush_ok (db : DbLoader W) t es :
  cell_table (ks_index_key_size ks) U t es ->
  exists db' p, ld_flush db t = Some (db', p) /\ wp_is_valid p = true /\ ld_load db p = None /\
    blob_reads (ks_index_key_size ks) U db' p (List.map disk_entry (combined t es)) /\ store_extends db db'.
Proof.
  intros Ht. destruct (format_blob_ok f ks cell U t es Hf HU Hu Ht) as (b & t' & Hser & Hde & Hsz & Hblob & Hlook & Hwalk).
  destruct (index_entry_encodes (ks_id ks) b Hid) as (enc & Henc & Hlen & Hdec & Hsl).
  destruct (frames_write_ok (room := room) (db_indexes db) enc ltac:(lia)) as (w' & p & Hw & Hv & Hfresh & Hread & Hkeep).
  eexists _, p. cbn [ld_flush ld_load db_inst db_loader]. unfold write_index, db_load, read_entry. rewrite Hser, Henc, Hw, Hfresh.
  split; [done|]. split; [done|]. split; [done|]. split.
  - split; cbn [ld_load ld_lookup ld_walk db_inst db_loader]; unfold db_load, db_lookup, db_walk, index_reader, read_entry; cbn [db_indexes];
      rewrite Hread; cbn [mbind option_bind]; rewrite ?Hdec, ?Hsl; cbn [to_option mbind option_bind read_index option_map].
    + exists t'. split; [|done]. by rewrite Hde.
    + intros k Hk. rewrite Hlook by (rewrite List.Forall_forall in HU; by apply HU). cbn [to_option]. f_equal.
      apply bt_get_written, (ct_wf _ _ _ _ Ht).
    + eexists. split; [done|]. intros c Hc. rewrite written_as_wal by apply (ct_wf _ _ _ _ Ht). by apply Hwalk.
  - split_and!; [|done|done|done]. intros q Hq. cbn [ld_load ld_lookup ld_walk db_inst db_loader] in *.
    unfold db_load, db_lookup, db_walk, index_reader, read_entry in *. cbn [db_indexes].
    destruct (frames_read (db_indexes db) q) as [bq|] eqn:E; [|by destruct Hq as [? Hq]].
    rewrite (Hkeep q) by (by rewrite E). by rewrite E.
Qed.

Lemma index_store_spec : LoaderSpec (DbLoader W) (ks_index_key_size ks) U.
Proof. constructor. apply db_flush_ok. Qed.
End db_spec.

(** ** A log of frames *)

Definition FrameLog : Type := list (WalPosition * list Z).

Fixpoint log_end (l : FrameLog) : Z :=
  match l with [] => 0 | (p, _) :: l => Z.max (wp_offset p + 1) (log_end l) end.

Fixpoint log_read (l : FrameLog) (q : WalPosition) : option (list Z) :=
  match l with
  | [] => None
  | (p, b) :: l => if bool_decide (p = q) then Some b else log_read l q
  end.

#[export] Instance frame_log : FrameStore FrameLog := {
  frames_write := fun l b =>
    let p := wp_new (log_end l) (Z.of_nat (length b) mod 2 ^ 30) in Some ((p, b) :: l, p);
  frames_read := log_read;
}.

Lemma log_read_fresh l q : log_end l <= wp_offset q -> log_read l q = None.
Proof.
  induction l as [|[p b] l IH]; cbn [log_end log_read]; [done|]. intros Hq. rewrite bool_decide_eq_false_2; [apply IH; lia|].
  intros ->. lia.
Qed.

#[export] Instance frame_log_spec room : FrameStoreSpec FrameLog room.
Proof.
  constructor. intros l b _. eexists _, _. split; [done|]. set (p := wp_new _ _).
  assert (log_read l p = None) as Hfresh by (apply log_read_fresh; cbn; lia). split_and!.
  - unfold wp_is_valid. apply negb_true_iff, bool_decide_eq_false_2. intros E. apply (f_equal wp_len) in E. cbn in E.
    pose proof (Z.mod_pos_bound (Z.of_nat (length b)) (2 ^ 30) ltac:(lia)). unfold u32_max in E. lia.
  - done.
  - cbn. by rewrite bool_decide_eq_true_2.
  - intros q Hq. cbn [frames_read frame_log log_read] in *. rewrite bool_decide_eq_false_2; [done|]. intros <-. rewrite Hfresh in Hq.
    by destruct Hq.
Qed.
