(* ===== verification/FlushSpec.v ===== *)
(** * The flusher's contract

    The properties of the flusher ([src/tidehunter/src/flusher.rs]) over any
    loader that keeps its promise, with the database's own loader over an index
    log as the instance. *)

From Stdlib Require Import ZArith Lia List Sorting.Sorted.
From stdpp Require Import base tactics list strings.
From S2P Require Import Prelude BTree Bytes Position Cell Layout KeyShape WalEntry Flat FlatFacts IndexTable IndexOps.
From S2P Require Import IndexTableFacts IndexWalk IndexPromote IndexFlush IndexUnmerge IndexCodec IndexClean.
From S2P Require Import Levels Loader Flusher FlusherFacts FlusherShards FlushCommand.
From S2P Require Import IndexFormat UniformLookup LookupHeader LookupHeaderFacts HeaderBlob VarlenBlob IndexStore.

Local Open Scope Z_scope.

(** ** The context of a key space *)

(** What [KsContext] gives a flush: the format's serializer and the thresholds. *)
Definition flush_context (f : IndexFormatType) (ks : KeySpaceDesc) (l0_max_entries : nat) (auto_shard_threshold : Z) : FlushCtx :=
  mkFlushCtx None l0_max_entries auto_shard_threshold (fun t => serialize_index f t ks).

Lemma flush_context_serializes f ks cell U l0_max threshold :
  format_ok f ks -> Forall (cell_key ks cell) U -> universe_ok (ks_index_key_size ks) U ->
  serializes (ks_index_key_size ks) U (flush_context f ks l0_max threshold).
Proof.
  intros Hf HU Hu t es Ht. destruct (format_blob_ok f ks cell U t es Hf HU Hu Ht) as (b & _ & Hs & _). by exists b.
Qed.

(** Nothing is below a floor of 0. *)
Lemma floor_closed_zero o d : (forall p, o = Some p -> iwp_fits p) -> floor_closed 0 o d.
Proof. intros Hf. destruct o as [p|]; [|done]. destruct (Hf p eq_refl) as [[Ho _] _]. cbn. lia. Qed.

(** ** Properties *)

(** C7. A flush changes no read.  Whatever the command (a flush of a loaded or
    unloaded cell with or without flagged blobs, or a forced relocation) and
    whatever the shape of the levels and the size of the tables, the flusher
    succeeds: it writes a new L0, promotes into L1, splits an L1 into shards,
    rewrites shards or moves blobs, and the new levels give readers, for every
    key, the newest flushed write over the old levels, tombstones and entries
    below the WAL floor aside.  Blobs already written are untouched and every
    blob of the new levels can be read. *)
Theorem flush_command_keeps_reads {S : Type} `{Loader S} (ks : option nat) (U : list (list Z)) `{!LoaderSpec S ks U}
    (ctx : FlushCtx) (s : S) (kind : FlushKind) (des : list entry) :
  universe_ok ks U -> serializes ks U ctx -> no_compactor ctx -> wal_bounds_ok s -> command_ok ks U s kind des ->
  exists s' sh levels, handle_command ctx kind RelocationNone s = Ok (s', Some (sh, levels)) /\
    store_extends s s' /\ levels_ok ks U s' levels /\
    forall k, visible (ld_min_wal_position s) (levels_view s' levels k) =
              visible (ld_min_wal_position s) (command_content s kind des k).
Proof.
  intros Hu Hser Hnc Hwb Hc.
  destruct (handle_command_ok ks U Hu ctx Hser Hnc s kind des Hwb Hc) as (s' & r & Hh & sh & levels & -> & He & Hl & Hv).
  exists s', sh, levels. split; [exact Hh|]. split; [exact He|]. split; [exact Hl|exact Hv].
Qed.

(** C34. Splitting an index into shards terminates: the recursion of
    [split_recursive] is as deep as there are entries at most, the pieces are the
    entries cut in order with none lost or repeated, each piece is a table with
    exactly its entries under its first and last key, and a piece serializes
    within the size limit unless it is a single entry. *)
Theorem split_terminates (ks : option nat) (U : list (list Z)) (ctx : FlushCtx) (limit : Z) (entries : list (list Z * WalPosition)) :
  serializes ks U ctx -> image_ok U entries ->
  exists pieces, split_recursive (length entries) ctx limit entries [] = Ok pieces /\
    pieces_by (piece_fits ks U ctx limit) pieces entries.
Proof.
  intros Hser Hok. destruct (split_recursive_fits ks U ctx limit (length entries) entries []) as (pieces & Hs & Hp); [done|done|lia|].
  by exists pieces.
Qed.

(** ** Witnesses *)

Definition demo_format : IndexFormatType := FormatHeader.

Lemma demo_format_ok : format_ok demo_format demo_uniform.
Proof. split; [apply demo_uniform_ok|by exists 5%nat]. Qed.

Definition demo_ctx : FlushCtx := flush_context demo_format demo_uniform 1 64.

Lemma demo_serializes : serializes (Some 5%nat) demo_universe demo_ctx.
Proof. apply (flush_context_serializes _ demo_uniform (CellInteger 0)); [apply demo_format_ok|apply demo_cell_keys|apply demo_universe_ok]. Qed.

#[local] Instance demo_loader : Loader (DbLoader FrameLog) := db_loader demo_format demo_uniform.

#[local] Instance demo_loader_spec : LoaderSpec (DbLoader FrameLog) (Some 5%nat) demo_universe.
Proof.
  apply (index_store_spec (room := 2000) demo_format demo_uniform (CellInteger 0));
    [apply demo_format_ok|apply demo_cell_keys|apply demo_universe_ok|done|]. cbn. lia.
Qed.

Definition demo_store : DbLoader FrameLog := mkDbLoader [] 130 200 0.

Definition demo_command : FlushKind := Flush (mkShared 1 demo_cell_table) levels_new false [].

Lemma demo_command_ok : command_ok (Some 5%nat) demo_universe demo_store demo_command [].
Proof.
  split; [apply demo_cell_table_ok|]. split; [apply (levels_ok_slots (Some 5%nat) demo_universe demo_store []); [cbn; lia|constructor]|].
  intros k. cbv zeta. split; [|done]. apply floor_closed_zero. intros p Hp. apply last_Some_elem_of, list_elem_of_In in Hp.
  unfold processed_of in Hp. apply filter_In in Hp as [Hp _].
  pose proof (positions_of_fits (it_data demo_cell_table) k (proj1 (ct_wf _ _ _ _ demo_cell_table_ok))) as Hf.
  rewrite List.Forall_forall in Hf. by apply Hf.
Qed.

Lemma flush_command_keeps_reads_witness :
  exists s' sh levels, handle_command demo_ctx demo_command RelocationNone demo_store = Ok (s', Some (sh, levels)) /\
    visible 0 (levels_view s' levels (demo_key 5)) = Some (wp_new 100 10) /\
    visible 0 (levels_view s' levels (demo_key 7)) = None.
Proof.
  assert (wal_bounds_ok demo_store) as Hb by (split; cbn; lia).
  pose proof (flush_command_keeps_reads (Some 5%nat) demo_universe demo_ctx demo_store demo_command [] demo_universe_ok) as Hc.
  destruct (Hc demo_serializes eq_refl Hb demo_command_ok) as (s' & sh & levels & Hh & _ & _ & Hv).
  exists s', sh, levels. split; [exact Hh|]. change 0 with (ld_min_wal_position demo_store).
  rewrite !Hv. split; by vm_compute.
Defined.

Lemma split_terminates_witness :
  exists pieces, split_recursive 2 demo_ctx 64 [(demo_key 5, wp_new 100 10); (demo_key 7, wp_new 120 10)] [] = Ok pieces /\
    length pieces = 2%nat.
Proof.
  destruct (split_terminates (Some 5%nat) demo_universe demo_ctx 64 [(demo_key 5, wp_new 100 10); (demo_key 7, wp_new 120 10)]
    demo_serializes) as (pieces & Hs & _).
  { split; [repeat constructor|]. constructor; [split; [by left|by vm_compute]|]. constructor; [split; [right; by left|by vm_compute]|constructor]. }
  exists pieces. split; [exact Hs|]. vm_compute in Hs. by injection Hs as <-.
Defined.
