(* ===== verification/FlushRelocation.v ===== *)
(** * Flushes that relocation asks for

    [handle_command] of [src/tidehunter/src/flusher.rs] with
    [RelocationFlush::Cutoff] and [RelocationFlush::Updates]: which entries of a
    cell a cutoff drops and which ones the deeper levels keep, and how the
    compare-and-set updates of [relocation/updates.rs] re-point the entries of
    every shape of a cell.  These are the promises [rs_cutoff] and [rs_updates]
    of the contract relocation is verified against. *)

From Stdlib Require Import ZArith Lia List Sorting.Sorted.
From stdpp Require Import base tactics list strings.
From S2P Require Import Prelude BTree Bytes Position Cell Layout KeyShape WalEntry Flat FlatFacts IndexTable IndexOps IndexTableFacts.
From S2P Require Import IndexWalk IndexPromote IndexFlush IndexUnmerge IndexCodec IndexClean Levels Loader.
From S2P Require Import Flusher FlusherFacts FlusherShards FlushCommand.
From S2P Require Import IndexFormat IndexStore FlushSpec.

Local Open Scope Z_scope.

(** ** Updates of a table *)

(** The position the first update of a key sets. *)
Definition updated_to (updates : list (list Z * WalPosition)) (k : list Z) : option WalPosition :=
  option_map snd (List.find (fun u => keqb u.1 k) updates).

(** What the updates make of a key's entry: compare, and set. *)
Definition repoint (u : RelocationUpdates) (k : list Z) (p : IndexWalPosition) : IndexWalPosition :=
  match updated_to (ru_updates u) k with
  | Some w => relocate_value (ru_last_processed u) w p
  | None => p
  end.

(** The updates lead to the part of the log that is neither relocated nor
    reclaimed. *)
Definition update_ok (x lp : Z) (e : list Z * WalPosition) : Prop :=
  (lp <= wp_offset e.2 /\ x <= wp_offset e.2) /\ is_u64 (wp_offset e.2) /\ 0 <= wp_len e.2 < 2 ^ 30.

Definition updates_ok (x : Z) (u : RelocationUpdates) : Prop := Forall (update_ok x (ru_last_processed u)) (ru_updates u).

Lemma relocate_value_fits lp w p : iwp_fits p -> is_u64 (wp_offset w) -> 0 <= wp_len w < 2 ^ 30 -> iwp_fits (relocate_value lp w p).
Proof. intros Hp Ho Hl. unfold relocate_value. by destruct (_ <? _). Qed.

(** A key that was re-pointed is not re-pointed again. *)
Lemma relocate_value_twice lp w w' p : lp <= wp_offset w -> relocate_value lp w' (relocate_value lp w p) = relocate_value lp w p.
Proof.
  intros Hw. unfold relocate_value at 2 3. destruct (Z.ltb_spec (iwp_offset p) lp); unfold relocate_value; cbn [replace_wal_position iwp_offset].
  - destruct (Z.ltb_spec (wp_offset w) lp); [lia|done].
  - by rewrite (proj2 (Z.ltb_ge _ _)).
Qed.

Section updates.
Context (ks : option nat) (U : list (list Z)).

(** The overlay entry of a key an update was applied to. *)
Definition over_updated (lp : Z) (w : WalPosition) (over flat : option IndexWalPosition) : option IndexWalPosition :=
  match over with
  | Some p => Some (relocate_value lp w p)
  | None => match flat with Some p => if iwp_offset p <? lp then Some (relocate_value lp w p) else None | None => None end
  end.

Lemma removelast_last {A} (l : list A) x : last l = Some x -> l = removelast l ++ [x].
Proof. intros H. apply last_Some in H as [l' ->]. by rewrite removelast_last. Qed.

Lemma apply_update_ok t es k lp w :
  cell_table ks U t es -> lp <= wp_offset w -> is_u64 (wp_offset w) -> 0 <= wp_len w < 2 ^ 30 ->
  exists t', apply_update t k (relocate_value lp w) = Ok t' /\ cell_table ks U t' es /\
    forall k', over_view t' k' = if keqb k' k then over_updated lp w (over_view t k) (bt_get k es) else over_view t k'.
Proof.
  intros [[Hw Hr] Hk Hl] Hlp Ho Hlen. unfold apply_update. rewrite data_get_latest_ok by done. cbn [mbind outcome_bind].
  assert (forall ps t', positions_ok ps -> it_data t' = bt_insert k ps (it_data t) -> it_flat t' = it_flat t -> it_key_size t' = it_key_size t ->
    is_Some (it_view t es k) -> cell_table ks U t' es /\ forall k', over_view t' k' = if keqb k' k then last ps else over_view t k') as Hins.
  { intros ps t' Hps Hd Hf Hs Hsome.
    assert (forall k', over_view t' k' = if keqb k' k then last ps else over_view t k') as Hov.
    { intros k'. unfold over_view. rewrite Hd, positions_of_insert by done. by destruct (keqb k' k). }
    split; [|done]. split; [split; [rewrite Hd; by apply overlay_wf_insert|by rewrite Hf, Hs]| |by rewrite Hs].
    intros k'. rewrite it_view_parts, Hov. destruct (keqb_spec k' k) as [->|]; [intros _; by apply Hk|]. apply Hk. }
  destruct (last (positions_of (it_data t) k)) as [p|] eqn:Ep.
  - unfold positions_of in Ep. destruct (bt_get k (it_data t)) as [ps|] eqn:Eg; [|done]. cbn [default] in Ep. cbn [expect mbind outcome_bind].
    pose proof (overlay_get_ok _ _ _ Hw Eg) as (Hn & Hs & Hf). rewrite (removelast_last ps p Ep) in Hs, Hf.
    apply pos_sorted_app in Hs as (Hs1 & _ & Hlt). apply Forall_app in Hf as [Hf1 Hf2]. apply Forall_cons in Hf2 as [Hfp _].
    assert (iwp_offset p <= iwp_offset (relocate_value lp w p)) as Hup by (unfold relocate_value; destruct (Z.ltb_spec (iwp_offset p) lp); cbn; lia).
    rewrite (data_insert_sorted_snoc (bt_insert k (removelast ps) (it_data t)) k (removelast ps)), bt_insert_twice.
    2: by rewrite positions_of_insert, keqb_refl.
    2: { apply List.Forall_forall. intros q Hq. specialize (Hlt q p Hq (or_introl eq_refl)). lia. }
    eexists. split; [reflexivity|].
    match goal with |- cell_table _ _ ?t' _ /\ _ => destruct (Hins (removelast ps ++ [relocate_value lp w p]) t') as [Hc Hov]; [|done..| |] end.
    { split_and!; [by destruct (removelast ps)| |].
      - apply pos_sorted_app. split_and!; [done|by repeat constructor|]. intros q q' Hq [<-|[]]. specialize (Hlt q p Hq (or_introl eq_refl)). lia.
      - apply Forall_app. split; [done|]. constructor; [by apply relocate_value_fits|constructor]. }
    { rewrite it_view_parts. unfold over_view, positions_of. rewrite Eg. cbn [default]. rewrite Ep. by eexists. }
    split; [exact Hc|]. intros k'. rewrite Hov. unfold over_view at 2, positions_of. rewrite Eg. cbn [default]. rewrite Ep, last_snoc. done.
  - assert (over_view t k = None) as Hov0 by exact Ep. rewrite (flat_binary_search_ok t es k Hr). cbn [mbind outcome_bind]. rewrite Hov0. cbn [over_updated].
    destruct (bt_get k es) as [p|] eqn:Eb.
    2: { exists t. split_and!; [done|by split|]. intros k'. by destruct (keqb_spec k' k) as [->|]. }
    unfold relocate_value at 1 2. destruct (Z.ltb_spec (iwp_offset p) lp) as [Hlt|Hge].
    2: { rewrite bool_decide_eq_true_2 by done. exists t. split_and!; [done|by split|]. intros k'. by destruct (keqb_spec k' k) as [->|]. }
    rewrite bool_decide_eq_false_2 by (intros E; apply (f_equal iwp_offset) in E; cbn in E; lia).
    eexists. split; [reflexivity|].
    match goal with |- cell_table _ _ ?t' _ /\ _ => destruct (Hins [relocate_value lp w p] t') as [Hc Hov]; [| |done..| |] end.
    { split_and!; [done|by repeat constructor|]. constructor; [|constructor]. apply relocate_value_fits; [|done..].
      destruct Hr as (_ & Hs & Hf & _). apply bt_get_In in Eb; [|done]. rewrite List.Forall_forall in Hf. by apply (Hf (k, p)). }
    { unfold relocate_value. by rewrite (proj2 (Z.ltb_lt _ _) Hlt). }
    { rewrite it_view_parts, Hov0, Eb. by eexists. }
    split; [exact Hc|]. intros k'. by rewrite Hov.
Qed.

(** The same for a list of updates: the first one of a key counts. *)
Definition over_repointed (lp : Z) (updates : list (list Z * WalPosition)) (k : list Z) (over flat : option IndexWalPosition) : option IndexWalPosition :=
  match updated_to updates k with Some w => over_updated lp w over flat | None => over end.

Lemma over_updated_twice lp w w' o f : lp <= wp_offset w -> over_updated lp w' (over_updated lp w o f) f = over_updated lp w o f.
Proof.
  intros Hw. destruct o as [p|]; cbn [over_updated]; [by rewrite relocate_value_twice|]. destruct f as [p|]; [|done].
  destruct (iwp_offset p <? lp) eqn:E; cbn [over_updated]; [by rewrite relocate_value_twice|by rewrite E].
Qed.

Lemma view_repointed lp updates k o f : or_else (over_repointed lp updates k o f) f = option_map (repoint (mkRU lp updates) k) (or_else o f).
Proof.
  unfold over_repointed, repoint. cbn [ru_updates ru_last_processed]. destruct (updated_to updates k) as [w|]; [|by destruct (or_else o f)].
  destruct o as [p|]; [done|]. destruct f as [p|]; [|done]. cbn. unfold relocate_value. by destruct (_ <? _).
Qed.

Lemma ru_apply_loop_ok x lp updates : forall t es changed, cell_table ks U t es -> Forall (update_ok x lp) updates ->
  exists t' c, ru_apply_loop lp updates t changed = Ok (t', c) /\ cell_table ks U t' es /\
    (forall k, over_view t' k = over_repointed lp updates k (over_view t k) (bt_get k es)) /\
    (c = false -> forall k, it_view t' es k = it_view t es k).
Proof.
  induction updates as [|[k w] updates IH]; intros t es changed Ht Hu; [by exists t, changed|].
  apply Forall_cons in Hu as [[[Hlp _] [Ho Hl]] Hu]. cbn [fst snd] in *. cbn [ru_apply_loop]. unfold ru_apply_one.
  pose proof (ct_wf _ _ _ _ Ht) as [Hw Hr]. rewrite data_get_latest_ok by done. fold (over_view t k). cbn [mbind outcome_bind].
  destruct (apply_update_ok t es k lp w Ht Hlp Ho Hl) as (t1 & E1 & Ht1 & Hov1).
  assert (exists found, (match over_view t k with Some v => Ok (Some v) | None => flat_binary_search t k end) = Ok found /\ found = it_view t es k) as (found & -> & ->).
  { rewrite it_view_parts. destruct (over_view t k); [by eexists|]. rewrite (flat_binary_search_ok t es k Hr). by eexists. }
  rewrite E1. cbn [mbind outcome_bind].
  destruct (IH t1 es (changed || match it_view t es k with Some v => iwp_offset v <? lp | None => false end) Ht1 Hu) as (t2 & c & E2 & Ht2 & Hov2 & Hsame).
  assert (forall k', over_view t2 k' = over_repointed lp ((k, w) :: updates) k' (over_view t k') (bt_get k' es)) as Hov.
  { intros k'. rewrite Hov2, Hov1. unfold over_repointed, updated_to. cbn [List.find fst]. destruct (keqb_spec k' k) as [->|Hne].
    - rewrite keqb_refl. cbn [option_map snd]. destruct (option_map snd (List.find _ updates)); [|done]. by apply over_updated_twice.
    - destruct (keqb_spec k k') as [->|]; [done|]. done. }
  exists t2, c. split_and!; [done|done|done|].
  intros ->. assert (match it_view t es k with Some v => iwp_offset v <? lp | None => false end = false) as Hnone.
  { clear -E2. revert t1 changed E2. generalize (match it_view t es k with Some v => iwp_offset v <? lp | None => false end).
    induction updates as [|[k' w'] updates IH]; intros b t1 changed E2; cbn [ru_apply_loop] in E2.
    - injection E2 as _ E2. by apply orb_false_iff in E2 as [_ ?].
    - apply outcome_bind_ok in E2 as ([t3 c3] & _ & E2). destruct b; [|done]. rewrite orb_true_r in E2. cbn [orb] in E2. by apply (IH true t3 false). }
  intros k'. rewrite Hsame by done. rewrite !it_view_parts, Hov1. destruct (keqb_spec k' k) as [->|]; [|done].
  rewrite it_view_parts in Hnone. destruct (over_view t k) as [p|]; cbn in *; [unfold relocate_value; by rewrite Hnone|].
  destruct (bt_get k es) as [p|]; [|done]. by rewrite Hnone.
Qed.

(** [RelocationUpdates::apply] *)
Lemma ru_apply_ok x u t es : cell_table ks U t es -> updates_ok x u ->
  exists t' c, ru_apply u t = Ok (t', c) /\ cell_table ks U t' es /\
    (forall k, over_view t' k = over_repointed (ru_last_processed u) (ru_updates u) k (over_view t k) (bt_get k es)) /\
    (forall k, it_view t' es k = option_map (repoint u k) (it_view t es k)) /\
    (c = false -> forall k, it_view t' es k = it_view t es k).
Proof.
  intros Ht Hu. destruct (ru_apply_loop_ok x (ru_last_processed u) (ru_updates u) t es false Ht Hu) as (t' & c & E & Ht' & Ho & Hc).
  exists t', c. split_and!; [done|done|done| |done]. intros k. rewrite !it_view_parts, Ho, view_repointed. by destruct u.
Qed.

(** Nothing below the floor hides a visible entry after the updates either. *)
Lemma repointed_closed x lp updates k o f d : Forall (update_ok x lp) updates ->
  floor_closed x o (or_else f d) -> floor_closed x (over_repointed lp updates k o f) (or_else f d).
Proof.
  intros Hu Hc. unfold over_repointed, updated_to. destruct (List.find _ updates) as [[k' w]|] eqn:E; [|done]. cbn [option_map snd].
  apply find_some in E as [Hin _]. rewrite List.Forall_forall in Hu. destruct (Hu _ Hin) as [[_ Hx] _]. cbn [snd] in Hx.
  assert (forall p, iwp_offset p < lp -> floor_closed x (Some (relocate_value lp w p)) (or_else f d)) as Hup.
  { intros p Hlt Hp. unfold relocate_value in Hp. rewrite (proj2 (Z.ltb_lt _ _) Hlt) in Hp. cbn in Hp. lia. }
  destruct o as [p|]; cbn [over_updated].
  - destruct (Z.lt_ge_cases (iwp_offset p) lp) as [Hlt|Hge]; [by apply Hup|]. unfold relocate_value. by rewrite (proj2 (Z.ltb_ge _ _) Hge).
  - destruct f as [p|]; [|done]. destruct (Z.ltb_spec (iwp_offset p) lp); [by apply Hup|done].
Qed.
End updates.

(** ** Cutoffs *)

(** Two sorted maps, the second without some keys of the first: as many keys
    means the same keys. *)
Lemma bt_same_keys {V W} (m : list (list Z * V)) (m' : list (list Z * W)) :
  bt_sorted m -> bt_sorted m' -> (forall k, is_Some (bt_get k m') -> is_Some (bt_get k m)) ->
  (length m' <= length m)%nat /\ ((length m <= length m')%nat -> forall k, is_Some (bt_get k m) -> is_Some (bt_get k m')).
Proof.
  assert (forall (X : Type) (m : list (list Z * X)) k, bt_sorted m -> is_Some (bt_get k m) <-> In k (List.map fst m)) as Hkey.
  { intros X m0 k Hs. rewrite in_map_iff. split; [intros [w Hw%bt_get_In]; [by exists (k, w)|done]|intros ([k' w] & <- & Hin); exists w; by apply bt_get_In]. }
  assert (forall (X : Type) (m : list (list Z * X)), bt_sorted m -> List.NoDup (List.map fst m)) as Hnd.
  { intros X m0. induction m0 as [|[k v] m0 IH]; [constructor|]. intros [Hs Hf]%bt_sorted_cons. cbn. constructor; [|by apply IH].
    intros ([k' v'] & E & Hin)%in_map_iff. cbn in E. subst k'. rewrite List.Forall_forall in Hf. specialize (Hf _ Hin). by apply klt_irrefl in Hf. }
  intros Hs Hs' Hsub. assert (incl (List.map fst m') (List.map fst m)) as Hincl by (intros k; rewrite <- !Hkey by done; apply Hsub). split.
  - pose proof (NoDup_incl_length (Hnd _ m' Hs') Hincl) as Hl. by rewrite !length_map in Hl.
  - intros Hlen k. rewrite !Hkey by done. apply (NoDup_length_incl (Hnd _ m' Hs')); [by rewrite !length_map|done].
Qed.

Section flush.
Context {S : Type} `{Loader S} (ks : option nat) (U : list (list Z)) `{!LoaderSpec S ks U}.
Context (Hu : universe_ok ks U) (ctx : FlushCtx) (Hser : serializes ks U ctx) (Hnc : no_compactor ctx).

(** A filter that leaves the number of entries leaves the entries. *)
Lemma retained_all t es t' es' x : cell_table ks U t es -> cell_table ks U t' es' ->
  (forall k, over_view t' k = at_or_above x (over_view t k) /\ bt_get k es' = at_or_above x (bt_get k es)) -> it_len t' = it_len t ->
  forall k, at_or_above x (over_view t k) = over_view t k /\ at_or_above x (bt_get k es) = bt_get k es.
Proof.
  intros [[Hw Hr] _ _] [[Hw' Hr'] _ _] Hf Hlen k. unfold it_len, data_unique_key_count in Hlen.
  rewrite (flat_repr_count _ _ _ Hr), (flat_repr_count _ _ _ Hr') in Hlen.
  pose proof Hr as (_ & Hes & _). pose proof Hr' as (_ & Hes' & _). pose proof Hw as [Hds _]. pose proof Hw' as [Hds' _].
  assert (forall t0 k, overlay_wf (it_data t0) -> is_Some (bt_get k (it_data t0)) <-> is_Some (over_view t0 k)) as Hover.
  { intros t0 k0 Hw0. unfold over_view, positions_of. destruct (bt_get k0 (it_data t0)) as [ps|] eqn:E; [|by split; intros [? ?]].
    destruct (positions_ok_last ps) as [p Hp]; [by eapply overlay_get_ok|]. cbn. rewrite Hp. by split; eexists. }
  assert (forall o, is_Some (at_or_above x o) -> at_or_above x o = o) as Hkeep by (intros [p|] [q Hq]; [cbn in *; by destruct (x <=? _)|done]).
  destruct (bt_same_keys es es' Hes Hes') as [Hle Hback]; [intros k0; rewrite (proj2 (Hf k0)); intros Hk; by rewrite <- (Hkeep _ Hk)|].
  destruct (bt_same_keys (it_data t) (it_data t') Hds Hds') as [Hle2 Hback2].
  { intros k0. rewrite !Hover, (proj1 (Hf k0)) by done. intros Hk. by rewrite <- (Hkeep _ Hk). }
  split.
  - destruct (over_view t k) as [p|] eqn:E; [|done]. rewrite <- E. apply Hkeep. rewrite <- (proj1 (Hf k)). apply Hover; [done|]. apply Hback2; [lia|]. apply Hover; [done|]. by rewrite E.
  - destruct (bt_get k es) as [p|] eqn:E; [|done]. rewrite <- E. apply Hkeep. rewrite <- (proj2 (Hf k)). apply Hback; [lia|]. by rewrite E.
Qed.

(** What L0 holds of a key, and what is left of a cell once L0 entries below a
    cutoff are dropped. *)
Definition l0_entry (s : S) (des : list entry) (l : IndexLevels) (loaded : bool) (k : list Z) : option IndexWalPosition :=
  or_else (bt_get k des) (flush_base s l loaded k).

Definition cutoff_content (s : S) (d : IndexTable) (des : list entry) (l : IndexLevels) (loaded : bool) (cutoff : Z) (k : list Z) : option IndexWalPosition :=
  or_else (at_or_above cutoff (flushed_write s d k)) (or_else (at_or_above cutoff (l0_entry s des l loaded k)) (below_view s l k)).

Lemma at_or_above_demote x b o : at_or_above x (option_map (demote b) o) = option_map (demote b) (at_or_above x o).
Proof. destruct o as [p|]; [|done]. cbn. rewrite demote_offset. by destruct (_ <=? _). Qed.

Lemma cutoff_merge_ok s sh des l loaded rp cutoff :
  wal_bounds_ok s -> cell_table ks U (sh_table sh) des -> levels_ok ks U s l -> ld_min_wal_position s <= cutoff ->
  succeeds (handle_merge ctx (Flush sh l loaded rp) (RelocationCutoff cutoff)) s
    (fun s' r => (r = None /\ s' = s /\ forall k, at_or_above cutoff (flushed_write s (sh_table sh) k) = flushed_write s (sh_table sh) k /\
                    at_or_above cutoff (l0_entry s des l loaded k) = l0_entry s des l loaded k) \/
       exists l', r = Some (sh, l') /\ flushed_to ks U s (ld_min_wal_position s) (cutoff_content s (sh_table sh) des l loaded cutoff) s' l').
Proof.
  intros Hwb Hd Hl Hle. unfold handle_merge. apply (prepared_ok ks U Hu s sh des); [done|done|]. intros t es [Ht (b & Ho & Hg)].
  cbn [apply_relocation]. apply succeeds_bind, succeeds_ret. destruct (retain_above_cell ks U t es cutoff Ht) as (t' & es' & Hr & Ht' & Hf).
  cbv zeta. apply succeeds_bind. eapply succeeds_lift; [exact Hr|].
  assert (forall k, option_map (demote b) (at_or_above cutoff (l0_entry s des l loaded k)) = option_map (demote b) (at_or_above cutoff (bt_get k es))) as Hl0.
  { intros k. rewrite Hg. unfold l0_entry. destruct (bt_get k des) as [p|]; cbn; [|done]. rewrite demote_offset. destruct (_ <=? _); [|done]. cbn. f_equal. destruct p as [? ? []]; by destruct b. }
  destruct (Nat.eqb_spec (it_len t') (it_len t)) as [Hlen|_].
  - apply succeeds_ret. left. split_and!; [done|done|]. intros k.
    destruct (retained_all t es t' es' cutoff Ht Ht' Hf Hlen k) as [H1 H2]. rewrite Ho, at_or_above_demote in H1.
    assert (forall o, option_map (demote b) (at_or_above cutoff o) = option_map (demote b) o -> at_or_above cutoff o = o) as Hinj.
    { intros [p|]; [|done]. cbn. by destruct (_ <=? _). }
    split; [by apply Hinj|]. apply Hinj. rewrite Hl0, H2, Hg. unfold l0_entry. destruct (bt_get k des) as [p|]; [|done]. cbn. f_equal. destruct p as [? ? []]; by destruct b.
  - eapply succeeds_mono; [apply (write_candidate_ok ks U Hu ctx Hser Hnc s (ld_min_wal_position s) _ sh t' es' l); try done|].
    { intros k p Hp. pose proof (retain_above_table_above cutoff t es t' es' Hf k p Hp). lia. }
    intros s' r (l' & -> & He & Hl' & Hv). right. exists l'. split; [done|]. split; [done|]. split; [done|]. intros k. rewrite Hv.
    apply visible_demoted. rewrite it_view_parts, or_else_assoc. destruct (Hf k) as [-> ->]. unfold cutoff_content. rewrite Ho, at_or_above_demote.
    assert (forall p, demote true (demote b p) = demote true p) as Hdd by (intros [o n []]; by destruct b).
    destruct (at_or_above cutoff (flushed_write s (sh_table sh) k)) as [p|]; cbn; [by rewrite Hdd|].
    specialize (Hl0 k). destruct (at_or_above cutoff (l0_entry s des l loaded k)) as [p|], (at_or_above cutoff (bt_get k es)) as [q|]; cbn in *; try done.
    injection Hl0 as E. by rewrite <- (Hdd p), E, Hdd.
Qed.

(** ** Updates *)

Lemma repoint_demote u k b p : repoint u k (demote b p) = demote b (repoint u k p).
Proof.
  unfold repoint, relocate_value. destruct (updated_to _ k) as [w|]; [|done]. rewrite demote_offset. destruct (_ <? _); [|done].
  destruct p as [o n []]; by destruct b.
Qed.

Lemma visible_repointed x u k o o' : option_map (demote true) o = option_map (demote true) o' ->
  visible x (option_map (repoint u k) o) = visible x (option_map (repoint u k) o').
Proof.
  intros E. apply visible_demoted. destruct o as [p|], o' as [p'|]; try done. cbn in *. injection E as E. by rewrite <- !repoint_demote, E.
Qed.

Lemma floor_closed_visible x o d d' : visible x d = visible x d' -> floor_closed x o d -> floor_closed x o d'.
Proof. intros E. destruct o; [|done]. cbn. by rewrite E. Qed.

(** What a part of the updates, chosen by key, does. *)
Lemma updated_to_filter (f : list Z -> bool) updates k :
  updated_to (List.filter (fun e => f e.1) updates) k = if f k then updated_to updates k else None.
Proof.
  unfold updated_to. induction updates as [|[k' w] updates IH]; cbn [List.filter List.find fst]; [by destruct (f k)|].
  destruct (f k') eqn:E; cbn [List.find fst]; destruct (keqb_spec k' k) as [->|]; try done; [by rewrite E|]. rewrite IH, E. done.
Qed.

Lemma updates_ok_filter x u f : updates_ok x u -> updates_ok x (mkRU (ru_last_processed u) (List.filter f (ru_updates u))).
Proof. unfold updates_ok. cbn. rewrite !List.Forall_forall. intros Hok e [Hin _]%filter_In. by apply Hok. Qed.

(** The outcome of the relocation part of a flush: a table over levels that
    reads as the table and the levels before, re-pointed. *)
Definition applied (s : S) (x : Z) (u : RelocationUpdates) (t : IndexTable) (es : list entry) (l : IndexLevels) (s' : S) (r : IndexTable * IndexLevels * option Z) : Prop :=
  exists t' es' l', r = (t', l', None) /\ store_extends s s' /\ cell_table ks U t' es' /\ levels_ok ks U s' l' /\
    (forall k, floor_closed x (over_view t' k) (or_else (bt_get k es') (below_view s' l' k)) /\ floor_closed x (bt_get k es') (below_view s' l' k)) /\
    forall k, visible x (or_else (it_view t' es' k) (below_view s' l' k)) =
              visible x (option_map (repoint u k) (or_else (it_view t es k) (below_view s l k))).

Section applying.
Context (s : S) (x : Z) (u : RelocationUpdates) (t : IndexTable) (es : list entry) (l : IndexLevels).
Context (Hx : x = ld_min_wal_position s) (Hup : updates_ok x u) (Ht : cell_table ks U t es) (Hl : levels_ok ks U s l).
Context (Hclosed : forall k, floor_closed x (over_view t k) (or_else (bt_get k es) (below_view s l k)) /\ floor_closed x (bt_get k es) (below_view s l k)).

(** *** A cell that is not sharded *)

(** The table with L1 folded in. *)
Lemma combined_ok : levels_is_sharded l = false ->
  succeeds (match levels_l1 l with
            | Some l1 => combined ← load_expect l1 "Failed to load L1 index in flusher thread"; lift (merge_dirty_and_clean combined t)
            | None => mret t
            end) s
    (fun s' t' => s' = s /\ exists es' b, cell_table ks U t' es' /\ (forall k, over_view t' k = option_map (demote b) (over_view t k)) /\
       forall k, bt_get k es' = or_else (option_map (demote b) (bt_get k es)) (below_view s l k)).
Proof.
  intros Hsh. assert (forall k, below_view s l k = opt_view s (levels_l1 l) k) as Hb by (intros k; by apply below_view_unsharded).
  destruct (levels_l1 l) as [p|] eqn:E1.
  - destruct (levels_get_ok ks U s l 1 p Hl E1) as [Hbo _]. apply succeeds_bind. apply (load_expect_ok ks U); [done|]. intros base Hbase.
    destruct (merge_cell ks U base t _ es Hu Hbase Ht) as (t' & es' & Hm & Ht' & Hg & Hp). eapply succeeds_lift; [exact Hm|].
    split; [done|]. exists es', true. split_and!; [done| |]; intros k; [unfold over_view; by rewrite Hp, demote_last|]. by rewrite Hg, Hb.
  - apply succeeds_ret. split; [done|]. exists es, false. split_and!; [done| |]; intros k; [by destruct (over_view t k)|]. rewrite Hb. by destruct (bt_get k es).
Qed.

Lemma apply_unsharded_ok : levels_is_sharded l = false -> succeeds (apply_relocation ctx (RelocationUpdate u) t l) s (applied s x u t es l).
Proof.
  intros Hsh. unfold apply_relocation. rewrite Hsh. apply succeeds_bind. eapply succeeds_mono; [by apply combined_ok|].
  intros s1 t1 (-> & es1 & b & Ht1 & Ho1 & Hg1). destruct (ru_apply_ok ks U x u t1 es1 Ht1 Hup) as (t2 & c & E2 & Ht2 & Ho2 & Hv2 & _).
  apply succeeds_bind. eapply succeeds_lift; [exact E2|]. apply succeeds_ret. exists t2, es1, l. split_and!; [done|done|done|done| |].
  - intros k. rewrite Ho2, Ho1, Hg1. destruct (Hclosed k) as [H1 H2].
    assert (floor_closed x (or_else (option_map (demote b) (bt_get k es)) (below_view s l k)) (below_view s l k)) as H3.
    { destruct (bt_get k es) as [p|]; cbn [option_map or_else]; [by apply (floor_closed_demote b x (Some p) _ _ eq_refl)|].
      destruct (below_view s l k) as [q|]; [|done]. cbn. intros Hq. by rewrite (proj2 (Z.ltb_lt _ _) Hq), orb_true_r. }
    split; [|done]. apply repointed_closed; [done|]. eapply floor_closed_demote; [|exact H1]. rewrite or_else_assoc, visible_demote_or.
    apply visible_or_else. by destruct (below_view s l k).
  - intros k. rewrite Hv2, it_view_parts, Ho1, Hg1, it_view_parts.
    assert (forall o : option IndexWalPosition, or_else (option_map (repoint u k) (or_else o (below_view s l k))) (below_view s l k) = option_map (repoint u k) (or_else o (below_view s l k))) as Hin
      by (intros [?|]; [done|]; by destruct (below_view s l k)).
    rewrite <- or_else_assoc, Hin. apply visible_repointed. assert (forall p, demote true (demote b p) = demote true p) as Hdd by (intros [o n []]; by destruct b).
    destruct (over_view t k) as [p|]; cbn; [by rewrite Hdd|]. destruct (bt_get k es) as [p|]; cbn; [by rewrite Hdd|done].
Qed.

(** *** A sharded cell *)

Notation frontier := (ru_last_processed u).
Notation shards := (lv_shards l).

(** The keys the table holds, and the updates that go to a shard. *)
Definition table_holds (k : list Z) : bool := bool_decide (is_Some (it_view t es k)).

Definition goes_to (bk k : list Z) : bool :=
  negb (table_holds k) && match shard_entry_for l k with Some (min_key, _) => keqb min_key bk | None => false end.

Definition shard_updates (bk : list Z) (updates : list (list Z * WalPosition)) : list (list Z * WalPosition) := List.filter (fun e => goes_to bk e.1) updates.

Definition table_updates (updates : list (list Z * WalPosition)) : list (list Z * WalPosition) := List.filter (fun e => table_holds e.1) updates.

Definition split_updates (done_ : list (list Z * WalPosition)) (by_shard : list (list Z * RelocationUpdates)) : Prop :=
  bt_sorted by_shard /\ forall bk, bt_get bk by_shard = match shard_updates bk done_ with [] => None | us => Some (mkRU frontier us) end.

Lemma route_updates_ok updates : forall done_ by_shard, split_updates done_ by_shard ->
  exists by_shard', route_updates l frontier t updates (mkRU frontier (table_updates done_)) by_shard =
    Ok (mkRU frontier (table_updates (done_ ++ updates)), by_shard') /\ split_updates (done_ ++ updates) by_shard'.
Proof.
  induction updates as [|[k w] updates IH]; intros done_ by_shard Hp; cbn [route_updates]; [exists by_shard; by rewrite app_nil_r|].
  rewrite (it_contains_key_ok t es k) by apply Ht. cbn [mbind outcome_bind]. fold (table_holds k).
  assert (forall by', split_updates (done_ ++ [(k, w)]) by' -> exists by_shard',
    route_updates l frontier t updates (mkRU frontier (table_updates (done_ ++ [(k, w)]))) by' = Ok (mkRU frontier (table_updates (done_ ++ (k, w) :: updates)), by_shard') /\
    split_updates (done_ ++ (k, w) :: updates) by_shard') as Hgo.
  { intros by' Hp'. destruct (IH (done_ ++ [(k, w)]) by' Hp') as (by'' & E & Hs). rewrite <- app_assoc in E, Hs. by exists by''. }
  assert (table_updates (done_ ++ [(k, w)]) = table_updates done_ ++ (if table_holds k then [(k, w)] else [])) as Htu
    by (unfold table_updates; rewrite List.filter_app; cbn; by destruct (table_holds k)).
  assert (forall bk, shard_updates bk (done_ ++ [(k, w)]) = shard_updates bk done_ ++ (if goes_to bk k then [(k, w)] else [])) as Hsu
    by (intros bk; unfold shard_updates; rewrite List.filter_app; cbn; by destruct (goes_to bk k)).
  rewrite Htu in Hgo. destruct Hp as [Hs Hp]. unfold split_updates in Hgo.
  assert (forall bk, goes_to bk k = false -> bt_get bk by_shard = match shard_updates bk (done_ ++ [(k, w)]) with [] => None | us => Some (mkRU frontier us) end) as Hsame
    by (intros bk Hg; by rewrite Hsu, Hg, app_nil_r, Hp).
  unfold goes_to in *. destruct (table_holds k); cbn [negb andb] in *; [apply Hgo; auto|]. rewrite app_nil_r in Hgo.
  destruct (shard_entry_for l k) as [[mk sh]|]; [|apply Hgo; auto]. apply Hgo. split; [by apply bt_insert_sorted|]. intros bk.
  rewrite bt_get_insert by done. destruct (keqb_spec bk mk) as [->|Hne].
  - rewrite Hsu, keqb_refl, Hp. unfold ru_add, ru_new. destruct (shard_updates mk done_) as [|e us]; done.
  - apply Hsame. by destruct (keqb_spec mk bk) as [->|].
Qed.

(** What a shard is to hold. *)
Definition shard_repointed (bk k : list Z) : option IndexWalPosition :=
  match bt_get bk shards with
  | Some sh => option_map (repoint (mkRU frontier (shard_updates bk (ru_updates u))) k) (blob_view s (shard_position sh) k)
  | None => None
  end.

Lemma update_item_ok fo bk sh : option_map fst (head shards) = Some fo -> In (bk, sh) shards ->
  item_ok ks U (fun shard_table updates => ru_apply updates shard_table) shards fo s x shard_repointed bk sh (mkRU frontier (shard_updates bk (ru_updates u))).
Proof.
  intros Hfo Hin t0 Ht0. destruct (levels_ok_good ks U s l Hl) as (Hok & Hblobs & Hhold). pose proof (shards_ok_sorted _ Hok) as Hs.
  destruct (ru_apply_ok ks U x (mkRU frontier (shard_updates bk (ru_updates u))) t0 _ (cb_table _ _ _ _ Ht0)) as (t1 & c & E & Ht1 & Ho1 & Hv1 & Hc1);
    [by apply updates_ok_filter|].
  assert (forall k, it_view t0 (blob_entries s (shard_position sh)) k = blob_view s (shard_position sh) k) as Hv0 by (intros k; exact (cell_blob_view ks U t0 _ k Ht0)).
  assert (forall k, shard_repointed bk k = it_view t1 (blob_entries s (shard_position sh)) k) as Hnew.
  { intros k. unfold shard_repointed. by rewrite (proj2 (bt_get_In _ _ _ Hs) Hin), Hv1, Hv0. }
  exists t1, (blob_entries s (shard_position sh)), c. split_and!; [done| |].
  - intros -> k. by rewrite Hnew, Hc1, Hv0.
  - intros _. split_and!; [done| |].
    + intros k. rewrite Ho1. assert (over_view t0 k = None) as -> by (unfold over_view; by rewrite (cb_data _ _ _ _ Ht0)).
      pose proof (repointed_closed x frontier (shard_updates bk (ru_updates u)) k None (bt_get k (blob_entries s (shard_position sh))) None) as Hcl.
      assert (or_else (bt_get k (blob_entries s (shard_position sh))) None = bt_get k (blob_entries s (shard_position sh))) as En by (by destruct (bt_get k _)).
      rewrite En in Hcl. apply Hcl; [by apply (updates_ok_filter x u)|done].
    + intros k. split; [|by rewrite Hnew]. rewrite Hv1, Hv0. intros Hk. unfold shards_hold in Hhold. rewrite List.Forall_forall in Hhold.
      apply (owner_of_range shards fo Hok k (bk, sh)); [done|]. apply (Hhold _ Hin). cbn [snd]. by destruct (blob_view s (shard_position sh) k).
Qed.

(** What is below the table, once the shards are rewritten. *)
Definition below_repointed (k : list Z) : option IndexWalPosition :=
  if table_holds k then below_view s l k else option_map (repoint u k) (below_view s l k).

Lemma shard_view_repointed fo k sh : option_map fst (head shards) = Some fo -> levels_is_sharded l = true -> In (shard_owner shards fo k, sh) shards ->
  option_map (repoint (mkRU frontier (shard_updates (shard_owner shards fo k) (ru_updates u))) k) (blob_view s (shard_position sh) k) = below_repointed k.
Proof.
  intros Hfo Hsh Hin. destruct (levels_ok_good ks U s l Hl) as (Hok & _ & Hhold). unfold below_repointed.
  rewrite (below_view_sharded ks U s l k Hl Hsh), (owner_holds shards fo s Hok Hhold k _ sh Hin eq_refl).
  destruct (blob_view s (shard_position sh) k) as [p|] eqn:Ep; [|by destruct (table_holds k)]. cbn [option_map].
  assert (shard_entry_for l k = Some (shard_owner shards fo k, sh)) as Esh.
  { apply shard_entry_for_spec; [done|]. split; [done|]. unfold shards_hold in Hhold. rewrite List.Forall_forall in Hhold. apply (Hhold _ Hin). cbn. by rewrite Ep. }
  unfold repoint, shard_updates. cbn [ru_updates ru_last_processed]. rewrite updated_to_filter. unfold goes_to. rewrite Esh, keqb_refl, andb_true_r.
  by destruct (table_holds k).
Qed.

Lemma rewrite_updates_ok fo by_shard : option_map fst (head shards) = Some fo -> levels_is_sharded l = true -> split_updates (ru_updates u) by_shard ->
  succeeds (rewrite_shards (fun shard_table updates => ru_apply updates shard_table) ctx shards by_shard) s
    (fun s' r => store_extends s s' /\ good_shards ks U s' r /\ forall k, visible x (first_hit s' (positions_of_shards r) k) = visible x (below_repointed k)).
Proof.
  intros Hfo Hsh [Hs Hp]. destruct (levels_ok_good ks U s l Hl) as (Hok & Hblobs & Hhold). unfold rewrite_shards. eapply succeeds_mono.
  - apply (rewrite_shards_loop_ok ks U _ ctx Hser Hnc shards fo s x Hok Hfo Hx Hblobs Hhold shard_repointed shards []);
      [done|done| |by split_and!; [|constructor|constructor]|by intros e e' []|done].
    split; [done|]. intros bk item Hg. rewrite Hp in Hg. destruct (shard_updates bk (ru_updates u)) as [|[k w] us] eqn:Eu; [done|].
    assert (In (k, w) (shard_updates bk (ru_updates u))) as Hin by (rewrite Eu; by left). apply filter_In in Hin as [_ Hgo]. cbn in Hgo.
    unfold goes_to in Hgo. apply andb_true_iff in Hgo as [_ Hgo]. destruct (shard_entry_for l k) as [[mk sh]|] eqn:Esh; [|done].
    destruct (keqb_spec mk bk) as [->|]; [|done]. apply shard_entry_for_spec in Esh as [Hin _]; [|done]. exists sh. split; [done|].
    injection Hg as <-. rewrite <- Eu. by apply update_item_ok.
  - intros s' r (He & news & -> & Hg & Hv). cbn [app] in *. split_and!; [done|done|]. intros k.
    destruct (owner_in shards fo Hok Hfo k) as [sh Hin]. rewrite (proj1 (Hv k) sh Hin). unfold expected. rewrite Hp, <- (shard_view_repointed fo k sh Hfo Hsh Hin).
    unfold shard_repointed. rewrite (proj2 (bt_get_In _ _ _ (shards_ok_sorted _ Hok)) Hin).
    destruct (shard_updates (shard_owner shards fo k) (ru_updates u)); [|done]. by destruct (blob_view s (shard_position sh) k).
Qed.

(** The table and the shards together. *)
Lemma sharded_applied s' t' l' : store_extends s s' -> levels_ok ks U s' l' -> cell_table ks U t' es ->
  (forall k, over_view t' k = over_repointed frontier (table_updates (ru_updates u)) k (over_view t k) (bt_get k es)) ->
  (forall k, visible x (below_view s' l' k) = visible x (below_repointed k)) -> applied s x u t es l s' (t', l', None).
Proof.
  intros He Hl' Ht' Ho Hb. exists t', es, l'.
  assert (forall k, visible x (below_repointed k) = if table_holds k then visible x (below_view s l k) else visible x (option_map (repoint u k) (below_view s l k))) as Hbr
    by (intros k; unfold below_repointed; by destruct (table_holds k)).
  assert (forall k, table_holds k = false -> over_view t k = None /\ bt_get k es = None) as Hno.
  { intros k Hk. unfold table_holds in Hk. apply bool_decide_eq_false in Hk. rewrite it_view_parts in Hk. destruct (over_view t k); [by destruct Hk|].
    destruct (bt_get k es); [by destruct Hk|done]. }
  split_and!; [done|done|done|done| |]; intros k; rewrite ?it_view_parts, Ho.
  - specialize (Hb k). rewrite Hbr in Hb. destruct (table_holds k) eqn:Eh.
    + destruct (Hclosed k) as [H1 H2]. split; [|by eapply floor_closed_visible]. apply repointed_closed; [by apply (updates_ok_filter x u)|].
      eapply floor_closed_visible; [|exact H1]. by apply visible_or_else.
    + destruct (Hno k Eh) as [-> ->]. unfold over_repointed. by destruct (updated_to _ k).
  - rewrite view_repointed. specialize (Hb k). rewrite Hbr in Hb. unfold repoint at 1. cbn [ru_updates ru_last_processed]. unfold table_updates. rewrite updated_to_filter.
    destruct (table_holds k) eqn:Eh.
    + unfold table_holds in Eh. apply bool_decide_eq_true in Eh as [p Ep]. rewrite it_view_parts in Ep. rewrite Ep. done.
    + destruct (Hno k Eh) as [-> ->]. exact Hb.
Qed.

Lemma apply_sharded_ok : levels_is_sharded l = true -> succeeds (apply_relocation ctx (RelocationUpdate u) t l) s (applied s x u t es l).
Proof.
  intros Hsh. destruct (head shards) as [[fo sh0]|] eqn:Eh; [|unfold levels_is_sharded in Hsh; by destruct (lv_shards l)].
  assert (option_map fst (head shards) = Some fo) as Hfo by (by rewrite Eh).
  unfold apply_relocation. rewrite Hsh. unfold apply_relocation_updates_sharded. cbv zeta. apply succeeds_bind, succeeds_bind.
  destruct (route_updates_ok (ru_updates u) [] []) as (by_shard & E1 & Hp); [by split; [constructor|]|]. eapply succeeds_lift; [exact E1|]. cbn [app].
  destruct (ru_apply_ok ks U x (mkRU frontier (table_updates (ru_updates u))) t es Ht) as (t1 & c & E2 & Ht1 & Ho1 & _); [by apply updates_ok_filter|].
  apply succeeds_bind. eapply succeeds_lift; [exact E2|]. destruct by_shard as [|e by_shard'] eqn:Eb.
  - apply succeeds_ret, succeeds_ret. apply sharded_applied; [done|done|done|done|]. intros k. destruct Hp as [_ Hp].
    destruct (owner_in shards fo (proj1 (levels_ok_good ks U s l Hl)) Hfo k) as [sh Hin]. rewrite <- (shard_view_repointed fo k sh Hfo Hsh Hin).
    specialize (Hp (shard_owner shards fo k)). cbn [app bt_get] in Hp. destruct (shard_updates (shard_owner shards fo k) (ru_updates u)); [|done].
    destruct (levels_ok_good ks U s l Hl) as (Hok & _ & Hhold). rewrite (below_view_sharded ks U s l k Hl Hsh), (owner_holds shards fo s Hok Hhold k _ sh Hin eq_refl).
    by destruct (blob_view s (shard_position sh) k).
  - rewrite <- Eb in *. apply succeeds_bind. eapply succeeds_mono; [by apply (rewrite_updates_ok fo by_shard)|].
    intros s2 r (He2 & (Hok2 & Hb2 & Hh2) & Hv2). destruct r as [|e2 r].
    + apply succeeds_ret, succeeds_ret. apply sharded_applied; [done|apply (levels_ok_slots ks U s2 []); [cbn; lia|constructor]|done|done|]. intros k. by rewrite <- Hv2.
    + apply succeeds_ret, succeeds_ret. assert (levels_ok ks U s2 (levels_sharded (e2 :: r))) as Hl2 by (by apply levels_ok_sharded).
      apply sharded_applied; [done|done|done|done|]. intros k. by rewrite (below_view_sharded ks U s2 _ k Hl2 eq_refl), <- Hv2.
Qed.
End applying.
End flush.

(** ** Properties *)

(** C23. A cutoff sheds what L0 holds below it.  For every shape of a cell, with
    no compactor and a cutoff not below the WAL floor, a flush with
    [RelocationFlush::Cutoff] either writes nothing, and then no entry it could
    drop is below the cutoff, or writes levels in which a key whose newest flushed
    entry is at or above the cutoff reads as before, and a key whose newest
    flushed entry and whose L0 entry, record or tombstone, are below it reads
    what the levels below L0 hold of it: the deeper levels keep their entries
    below the cutoff.  Blobs already written are untouched. *)
Theorem cutoff_flush_sheds {S : Type} `{Loader S} (ks : option nat) (U : list (list Z)) `{!LoaderSpec S ks U}
    (ctx : FlushCtx) (s : S) (sh : SharedTable) (des : list entry) (l : IndexLevels) (loaded : bool) (rp : list WalPosition) (cutoff : Z) :
  universe_ok ks U -> serializes ks U ctx -> no_compactor ctx -> wal_bounds_ok s ->
  cell_table ks U (sh_table sh) des -> levels_ok ks U s l -> ld_min_wal_position s <= cutoff ->
  let newest k := or_else (flushed_write s (sh_table sh) k) (l0_entry s des l loaded k) in
  (handle_command ctx (Flush sh l loaded rp) (RelocationCutoff cutoff) s = Ok (s, None) /\
   forall k p, newest k = Some p -> cutoff <= iwp_offset p) \/
  exists s' l', handle_command ctx (Flush sh l loaded rp) (RelocationCutoff cutoff) s = Ok (s', Some (sh, l')) /\
    store_extends s s' /\ levels_ok ks U s' l' /\
    (forall k, (forall p, newest k = Some p -> cutoff <= iwp_offset p) ->
       visible (ld_min_wal_position s) (levels_view s' l' k) =
       visible (ld_min_wal_position s) (flush_content s (sh_table sh) des l loaded k)) /\
    forall k p, newest k = Some p -> iwp_offset p < cutoff -> (forall q, l0_entry s des l loaded k = Some q -> iwp_offset q < cutoff) ->
      visible (ld_min_wal_position s) (levels_view s' l' k) = visible (ld_min_wal_position s) (below_view s l k).
Proof.
  intros Hu Hser Hnc Hwb Hd Hl Hle newest.
  destruct (cutoff_merge_ok ks U Hu ctx Hser Hnc s sh des l loaded rp cutoff Hwb Hd Hl Hle) as (s' & r & Hh & [(-> & -> & Hall)|(l' & -> & He & Hl' & Hv)]).
  - left. split; [exact Hh|]. intros k p Hp. destruct (Hall k) as [H1 H2]. unfold newest in Hp.
    assert (forall o, at_or_above cutoff o = o -> o = Some p -> cutoff <= iwp_offset p) as Hab.
    { intros o Ho ->. cbn in Ho. destruct (Z.leb_spec cutoff (iwp_offset p)); done. }
    destruct (flushed_write s (sh_table sh) k) as [q|]; [by apply (Hab _ H1)|by apply (Hab _ H2)].
  - right. exists s', l'. split; [exact Hh|]. split; [done|]. split; [done|].
    assert (forall q, cutoff <= iwp_offset q -> at_or_above cutoff (Some q) = Some q) as Hkeep by (intros q Hq; cbn; by rewrite (proj2 (Z.leb_le _ _) Hq)).
    assert (forall q, iwp_offset q < cutoff -> at_or_above cutoff (Some q) = None) as Hdrop by (intros q Hq; cbn; by rewrite (proj2 (Z.leb_gt _ _) Hq)).
    split; intros k; rewrite Hv; unfold cutoff_content, newest.
    + intros Hab. f_equal. unfold flush_content, it_view_at. fold (flushed_write s (sh_table sh) k). unfold l0_entry in *.
      destruct (flushed_write s (sh_table sh) k) as [q|]; cbn [or_else] in *; [by rewrite Hkeep by auto|].
      destruct (bt_get k des) as [q|]; cbn [or_else] in *; [by rewrite Hkeep by auto|].
      destruct (flush_base s l loaded k) as [q|]; cbn [or_else] in *; [by rewrite Hkeep by auto|done].
    + intros p Hp Hlt Hold. f_equal. destruct (flushed_write s (sh_table sh) k) as [q|]; cbn [or_else] in Hp.
      * injection Hp as ->. rewrite Hdrop by done. destruct (l0_entry s des l loaded k) as [q|]; [by rewrite Hdrop by auto|done].
      * rewrite Hp, Hdrop by done. done.
Qed.

(** C22. Updates re-point exactly the keys they name.  For every shape of a cell,
    sharded or not, with no compactor, a flush with [RelocationFlush::Updates] whose
    new positions are past the relocated and the reclaimed part of the log succeeds,
    and in the levels it writes every key reads as after a plain flush, except that
    a key an update names whose newest flushed entry is below the relocation
    frontier leads to the position the first such update gives.  A removal stays a
    removal, and blobs already written are untouched. *)
Theorem update_flush_repoints {S : Type} `{Loader S} (ks : option nat) (U : list (list Z)) `{!LoaderSpec S ks U}
    (ctx : FlushCtx) (s : S) (sh : SharedTable) (des : list entry) (l : IndexLevels) (loaded : bool) (rp : list WalPosition) (u : RelocationUpdates) :
  universe_ok ks U -> serializes ks U ctx -> no_compactor ctx -> wal_bounds_ok s -> command_ok ks U s (Flush sh l loaded rp) des ->
  updates_ok (ld_min_wal_position s) u ->
  (forall t s1 r, apply_relocation ctx (RelocationUpdate u) t l s = Ok (s1, r) -> ld_current_wal_position s1 < 2 ^ 64) ->
  exists s' l', handle_command ctx (Flush sh l loaded rp) (RelocationUpdate u) s = Ok (s', Some (sh, l')) /\
    store_extends s s' /\ levels_ok ks U s' l' /\
    forall k, visible (ld_min_wal_position s) (levels_view s' l' k) =
              visible (ld_min_wal_position s) (option_map (repoint u k) (flush_content s (sh_table sh) des l loaded k)).
Proof.
  intros Hu Hser Hnc Hwb (Hd & Hl & Hc) Hup Hroom. set (x := ld_min_wal_position s) in *.
  assert (succeeds (handle_merge ctx (Flush sh l loaded rp) (RelocationUpdate u)) s
    (fun s' r => exists l', r = Some (sh, l') /\ flushed_to ks U s x (fun k => option_map (repoint u k) (flush_content s (sh_table sh) des l loaded k)) s' l'))
    as (s' & r & Hh & l' & -> & He & Hl' & Hv); [|by exists s', l'].
  unfold handle_merge. apply (prepared_ok ks U Hu s sh des); [done|done|]. intros t es Hca. pose proof (ca_table _ _ _ _ _ _ _ _ _ Hca) as Ht.
  assert (forall k, floor_closed x (over_view t k) (or_else (bt_get k es) (below_view s l k)) /\ floor_closed x (bt_get k es) (below_view s l k)) as Hcl
    by (intros k; by eapply (candidate_closed ks U)).
  assert (succeeds (apply_relocation ctx (RelocationUpdate u) t l) s (applied ks U s x u t es l)) as (s1 & r & E1 & t1 & es1 & l1 & -> & He1 & Ht1 & Hl1 & Hcl1 & Hv1).
  { destruct (levels_is_sharded l) eqn:Esh; [by apply apply_sharded_ok|by apply apply_unsharded_ok]. }
  apply succeeds_bind. exists s1, (t1, l1, None). split; [exact E1|]. pose proof (Hroom t s1 _ E1) as Hr1.
  pose proof He1 as (_ & Hm1 & _ & Hcur). destruct Hwb as [[Hw1 Hw2] Hw3].
  eapply succeeds_mono; [apply (finish_flush_ok ks U Hu ctx Hser Hnc s1 x _ sh t1 es1 l1); [by rewrite Hm1|split; lia|done|done|done]|].
  intros s2 r (l2 & -> & He2 & Hl2 & Hv2). exists l2. split; [done|]. split; [by etrans|]. split; [done|]. intros k. rewrite Hv2, Hv1.
  apply visible_repointed. rewrite it_view_parts, or_else_assoc. by apply (candidate_content ks U).
Qed.

(** ** Witnesses *)

#[local] Existing Instance demo_loader.
#[local] Existing Instance demo_loader_spec.

(** A cell whose first key is in a deeper level, and a removal of that key. *)
Definition demo_promoted : DbLoader FrameLog * IndexLevels :=
  match handle_command demo_ctx demo_command RelocationNone demo_store with Ok (s, Some (_, l)) => (s, l) | _ => (demo_store, levels_new) end.

Definition demo_removal : IndexTable := match it_remove it_default (demo_key 5) (wp_new 110 10) with Ok (t, _) => t | Panic _ => it_default end.

Lemma demo_promoted_ok : levels_ok (Some 5%nat) demo_universe demo_promoted.1 demo_promoted.2 /\ store_extends demo_store demo_promoted.1.
Proof.
  assert (wal_bounds_ok demo_store) as Hb by (split; cbn; lia).
  destruct (handle_command_ok (Some 5%nat) demo_universe demo_universe_ok demo_ctx demo_serializes eq_refl demo_store demo_command [] Hb demo_command_ok)
    as (s' & r & Hh & sh & l & -> & He & Hl & _). unfold demo_promoted. rewrite Hh. exact (conj Hl He).
Qed.

Lemma demo_removal_ok : cell_table (Some 5%nat) demo_universe demo_removal [].
Proof.
  unfold demo_removal.
  destruct (insert_cell (Some 5%nat) demo_universe it_default [] (demo_key 5) (iwp_new_removed (wp_new 110 10)) (cell_table_default _ _)) as (t & E & Ht & _);
    [by left|by vm_compute|done|].
  unfold it_remove. by rewrite E.
Qed.

(** The removal is dropped and the record below it comes back. *)
Lemma cutoff_flush_sheds_witness :
  exists s' l', handle_command demo_ctx (Flush (mkShared 2 demo_removal) demo_promoted.2 false []) (RelocationCutoff 115) demo_promoted.1 =
      Ok (s', Some (mkShared 2 demo_removal, l')) /\
    visible 0 (levels_view s' l' (demo_key 5)) = Some (wp_new 100 10).
Proof.
  destruct demo_promoted_ok as [Hl He].
  destruct (cutoff_flush_sheds (Some 5%nat) demo_universe demo_ctx demo_promoted.1 (mkShared 2 demo_removal) [] demo_promoted.2 false [] 115
    demo_universe_ok demo_serializes eq_refl) as [[_ Hall]|(s' & l' & Hh & _ & _ & _ & Hold)].
  - unfold wal_bounds_ok. vm_compute. repeat split; congruence.
  - apply demo_removal_ok.
  - exact Hl.
  - vm_compute. congruence.
  - exfalso. specialize (Hall (demo_key 5) (iwp_new_removed (wp_new 110 10)) eq_refl). cbn in Hall. lia.
  - exists s', l'. split; [exact Hh|]. change 0 with (ld_min_wal_position demo_promoted.1).
    rewrite (Hold (demo_key 5) (iwp_new_removed (wp_new 110 10))); [by vm_compute|by vm_compute|cbn; lia|]. intros q Hq. vm_compute in Hq. discriminate.
Defined.

Lemma update_flush_repoints_witness :
  exists s' l', handle_command demo_ctx demo_command (RelocationUpdate (mkRU 125 [(demo_key 5, wp_new 180 10); (demo_key 7, wp_new 190 10)])) demo_store =
      Ok (s', Some (mkShared 1 demo_cell_table, l')) /\
    visible 0 (levels_view s' l' (demo_key 5)) = Some (wp_new 180 10) /\ visible 0 (levels_view s' l' (demo_key 7)) = None.
Proof.
  destruct (update_flush_repoints (Some 5%nat) demo_universe demo_ctx demo_store (mkShared 1 demo_cell_table) [] levels_new false []
    (mkRU 125 [(demo_key 5, wp_new 180 10); (demo_key 7, wp_new 190 10)]) demo_universe_ok demo_serializes eq_refl) as (s' & l' & Hh & _ & _ & Hv).
  - split; cbn; lia.
  - apply demo_command_ok.
  - repeat (constructor; [unfold update_ok, is_u64; cbn; lia|]). constructor.
  - intros t s1 r E. unfold apply_relocation in E.
    destruct (ru_apply (mkRU 125 [(demo_key 5, wp_new 180 10); (demo_key 7, wp_new 190 10)]) t) as [[t2 c]|] eqn:E2; unfold mbind, LM_bind, lift in E;
      cbn [levels_is_sharded levels_new lv_shards levels_l1 levels_get lookup list_lookup lv_positions mret LM_ret] in E; rewrite E2 in E; [|done].
    injection E as <- _. cbn. lia.
  - exists s', l'. split; [exact Hh|]. change 0 with (ld_min_wal_position demo_store). rewrite !Hv. split; by vm_compute.
Defined.
