(* ===== verification/TableEntry.v ===== *)
(** * A cell of the large table

    [LargeTableEntryState] and [LargeTableEntry] of
    [src/tidehunter/src/large_table.rs]: the state of a cell, clearing it, and
    [apply_replay_buffer], which turns the writes accumulated during WAL replay
    into the cell's index table.

    The bloom filter is the list of the keys added to it.  [unload_jitter], the
    metrics and the value cache are left out.  [sort_unstable_by] is an insertion
    sort: on entries with distinct (key, offset) pairs every sort gives the same
    list. *)

From Stdlib Require Import ZArith Lia List Sorting.Sorted.
From stdpp Require Import base tactics list gmap strings.
From S2P Require Import Prelude BTree Bytes Position Flat FlatFacts IndexTable IndexOps IndexTableFacts.
From S2P Require Import IndexWalk IndexPromote Levels.

Local Open Scope Z_scope.

(** ** State *)

Inductive LargeTableEntryState := Empty | Unloaded | Loaded | DirtyUnloaded | DirtyLoaded.

#[export] Instance LargeTableEntryState_eq_dec : EqDecision LargeTableEntryState.
Proof. solve_decision. Defined.

Definition state_mark_dirty (s : LargeTableEntryState) : LargeTableEntryState :=
  match s with
  | Empty | Loaded | DirtyLoaded => DirtyLoaded
  | Unloaded | DirtyUnloaded => DirtyUnloaded
  end.

Definition state_is_empty (s : LargeTableEntryState) : bool := match s with Empty => true | _ => false end.

Record LargeTableEntry := mkEntry {
  le_state : LargeTableEntryState;
  le_levels : IndexLevels;
  le_last_processed : LastProcessed;
  le_pending_last_processed : option LastProcessed;
  le_bloom : option (list (list Z));
  le_data : IndexTable;
}.

Definition new_with_state (state : LargeTableEntryState) (levels : IndexLevels) (bloom_filter : option (list (list Z))) :
    LargeTableEntry :=
  mkEntry state levels last_processed_none None bloom_filter it_default.

Definition new_unloaded (levels : IndexLevels) (bloom_filter : option (list (list Z))) : LargeTableEntry :=
  new_with_state Unloaded levels bloom_filter.

(** [bloom]: the key space has bloom filter parameters. *)
Definition new_empty (bloom : bool) : LargeTableEntry :=
  new_with_state Empty levels_new (if bloom then Some [] else None).

(** [from_snapshot_data]: the levels and position the control region holds. *)
Definition from_snapshot_data (bloom : bool) (levels : IndexLevels) (last_processed : LastProcessed)
    (bloom_filter : option (list (list Z))) : LargeTableEntry :=
  let e := if levels_is_empty levels then new_empty bloom else new_unloaded levels bloom_filter in
  mkEntry (le_state e) (le_levels e) last_processed (le_pending_last_processed e) (le_bloom e) (le_data e).

Definition entry_clear (e : LargeTableEntry) : LargeTableEntry :=
  mkEntry Empty levels_new last_processed_none (le_pending_last_processed e) (option_map (fun _ => []) (le_bloom e)) it_default.

(** ** Applying replayed writes *)

(** Key ascending, then offset descending. *)
Definition replay_cmp (a b : entry) : comparison :=
  match bytes_cmp a.1 b.1 with Eq => (iwp_offset b.2 ?= iwp_offset a.2) | c => c end.

Fixpoint sort_insert (x : entry) (l : list entry) : list entry :=
  match l with
  | [] => [x]
  | y :: l' => match replay_cmp x y with Gt => y :: sort_insert x l' | _ => x :: l end
  end.

Definition sort_entries (l : list entry) : list entry := fold_right sort_insert [] l.

(** [dedup_by] on keys: an entry with the key of the one kept before it goes. *)
Fixpoint dedup_after (prev : list Z) (l : list entry) : list entry :=
  match l with
  | [] => []
  | x :: l' => if keqb x.1 prev then dedup_after prev l' else x :: dedup_after x.1 l'
  end.

Definition dedup_entries (l : list entry) : list entry :=
  match l with [] => [] | x :: l' => x :: dedup_after x.1 l' end.

(** The rest of [LargeTableEntry::apply_replay_buffer], once the cutoff was
    applied and entries are left. *)
Definition entry_replace_data (e : LargeTableEntry) (first : entry) (entries : list entry) : outcome LargeTableEntry :=
  let last_processed := if state_is_empty (le_state e) then iwp_offset first.2 else le_last_processed e in
  let sorted := dedup_entries (sort_entries entries) in
  let bloom := option_map (fun ks =>
                 ks ++ List.map fst (List.filter (fun kv => negb (is_removed kv.2)) sorted)) (le_bloom e) in
  data ← from_sorted_entries sorted;
  Ok (mkEntry (state_mark_dirty (le_state e)) (le_levels e) last_processed (le_pending_last_processed e) bloom data).

Definition entry_apply_replay (e : LargeTableEntry) (entries : list entry) (cutoff : Z) : outcome LargeTableEntry :=
  let entries :=
    if cutoff =? u64_max then entries
    else take (partition_point (fun kv => iwp_offset kv.2 <? cutoff) entries) entries in
  match entries with
  | [] => Ok e
  | first :: _ => entry_replace_data e first entries
  end.

(** ** Sorting and de-duplicating a cell's writes *)

Definition replay_le (a b : entry) : Prop := replay_cmp a b <> Gt.

Lemma replay_le_spec a b :
  replay_le a b <-> klt a.1 b.1 \/ (a.1 = b.1 /\ iwp_offset b.2 <= iwp_offset a.2).
Proof.
  unfold replay_le, replay_cmp, klt, kcmp, bytes_ord. destruct (bytes_cmp a.1 b.1) eqn:E.
  - apply bytes_cmp_eq in E. rewrite Z.compare_le_iff. naive_solver.
  - naive_solver.
  - split; [done|]. intros [?|[Heq _]]; [done|]. apply bytes_cmp_eq in Heq. congruence.
Qed.

Lemma replay_le_trans a b c : replay_le a b -> replay_le b c -> replay_le a c.
Proof.
  rewrite !replay_le_spec. intros [H1|[E1 H1]] [H2|[E2 H2]].
  - left. by eapply klt_trans.
  - left. by rewrite <- E2.
  - left. by rewrite E1.
  - right. split; [congruence|lia].
Qed.

Lemma replay_le_total a b : replay_cmp a b = Gt -> replay_le b a.
Proof.
  unfold replay_le, replay_cmp. rewrite (bytes_cmp_antisym a.1 b.1).
  destruct (bytes_cmp a.1 b.1); cbn; try done. intros H%Z.compare_gt_iff. apply Z.compare_le_iff. lia.
Qed.

Lemma sort_insert_perm x l : sort_insert x l ≡ₚ x :: l.
Proof.
  induction l as [|y l IH]; cbn; [done|]. destruct (replay_cmp x y); [done|done|].
  rewrite IH. apply perm_swap.
Qed.

Lemma sort_entries_perm l : sort_entries l ≡ₚ l.
Proof. induction l as [|x l IH]; cbn; [done|]. rewrite sort_insert_perm. by constructor. Qed.

Lemma sort_insert_sorted x l : StronglySorted replay_le l -> StronglySorted replay_le (sort_insert x l).
Proof.
  induction 1 as [|y l Hs IH Hf]; cbn; [repeat constructor|].
  destruct (replay_cmp x y) eqn:E.
  1,2: assert (replay_le x y) as Hxy by (unfold replay_le; congruence);
    constructor; [by constructor|]; constructor; [done|];
    eapply Forall_impl; [exact Hf|]; intros z Hz; by eapply replay_le_trans.
  apply replay_le_total in E. constructor; [done|]. rewrite sort_insert_perm. by constructor.
Qed.

Lemma sort_entries_sorted l : StronglySorted replay_le (sort_entries l).
Proof. induction l as [|x l IH]; cbn; [constructor|]. by apply sort_insert_sorted. Qed.

(** The first entry of a key. *)
Definition first_of (k : list Z) (l : list entry) : option entry := List.find (fun e => keqb e.1 k) l.

Lemma replay_le_keys x l :
  Forall (replay_le x) l -> Forall (fun e => kle x.1 e.1) l.
Proof.
  intros Hf. eapply Forall_impl; [exact Hf|]. intros e [He|[He _]]%replay_le_spec; apply kle_iff; auto.
Qed.

Lemma dedup_cons (x : entry) l d :
  Forall (fun e => kle x.1 e.1) l -> Forall (fun e => klt x.1 e.1) d -> bt_sorted d ->
  (forall k, klt x.1 k -> bt_get k d = option_map snd (first_of k l)) ->
  bt_sorted (x :: d) /\ forall k, bt_get k (x :: d) = option_map snd (first_of k (x :: l)).
Proof.
  destruct x as [kx vx]. cbn [fst]. intros Hxl Hd Hs H. assert (bt_sorted ((kx, vx) :: d)) as Hsx by (by apply bt_sorted_cons).
  split; [done|]. intros k. rewrite bt_get_cons by done. unfold first_of. cbn.
  destruct (keqb_spec k kx) as [->|Hn]; [by rewrite keqb_refl|].
  destruct (keqb_spec kx k) as [->|_]; [done|].
  destruct (k_total k kx) as [Hlt'|[->|Hgt]]; [|done|by apply H].
  rewrite bt_get_above by (by eapply Forall_klt_trans).
  destruct (List.find _ l) as [e|] eqn:Ef; [|done]. apply find_some in Ef as [Hin Hk'].
  destruct (keqb_spec e.1 k) as [<-|]; [|done]. rewrite List.Forall_forall in Hxl.
  specialize (Hxl e Hin). by apply kle_not_lt in Hxl.
Qed.

Lemma dedup_after_spec prev l :
  StronglySorted replay_le l -> Forall (fun e => kle prev e.1) l ->
  Forall (fun e => klt prev e.1) (dedup_after prev l) /\ bt_sorted (dedup_after prev l) /\
  (forall e, In e (dedup_after prev l) -> In e l) /\
  forall k, klt prev k -> bt_get k (dedup_after prev l) = option_map snd (first_of k l).
Proof.
  intros Hs. revert prev. induction Hs as [|x l Hs IH Hf]; intros prev Hp; cbn [dedup_after].
  { split_and!; [constructor|constructor|done|done]. }
  inversion_clear Hp as [|?? Hx Hp']. destruct (keqb_spec x.1 prev) as [E|Hne].
  - destruct (IH prev Hp') as (H1 & H2 & H3 & H4). split_and!; [done|done|cbn; naive_solver|]. intros k Hk.
    rewrite H4 by done. unfold first_of. cbn. destruct (keqb_spec x.1 k) as [Ek|]; [|done].
    rewrite <- Ek, E in Hk. by apply klt_irrefl in Hk.
  - assert (klt prev x.1) as Hlt by (apply kle_iff in Hx as [?|?]; [done|congruence]).
    pose proof (replay_le_keys x l Hf) as Hxl. destruct (IH x.1 Hxl) as (H1 & H2 & H3 & H4).
    destruct (dedup_cons x l _ Hxl H1 H2 H4) as [Hso Hg]. split_and!; [|done|cbn; naive_solver|auto].
    constructor; [done|]. by eapply Forall_klt_trans.
Qed.

Lemma dedup_entries_spec l :
  StronglySorted replay_le l ->
  bt_sorted (dedup_entries l) /\ (forall e, In e (dedup_entries l) -> In e l) /\
  forall k, bt_get k (dedup_entries l) = option_map snd (first_of k l).
Proof.
  destruct 1 as [|x l Hs Hf]; cbn [dedup_entries]; [split_and!; [constructor|done|done]|].
  pose proof (replay_le_keys x l Hf) as Hxl.
  destruct (dedup_after_spec x.1 l Hs Hxl) as (H1 & H2 & H3 & H4).
  destruct (dedup_cons x l _ Hxl H1 H2 H4) as [Hso Hg]. split_and!; [done|cbn; naive_solver|done].
Qed.

(** *** The newest write of a key *)

Definition writes_of (k : list Z) (l : list entry) : list entry := List.filter (fun e => keqb e.1 k) l.

Definition newest (k : list Z) (l : list entry) : option IndexWalPosition :=
  option_map snd (last (writes_of k l)).

(** Writes to the same key are in ascending offset order. *)
Definition key_ascending (l : list entry) : Prop :=
  StronglySorted (fun a b => a.1 = b.1 -> iwp_offset a.2 < iwp_offset b.2) l.

Lemma writes_of_In k e l : In e (writes_of k l) <-> In e l /\ e.1 = k.
Proof. unfold writes_of. rewrite filter_In. by destruct (keqb_spec e.1 k); naive_solver. Qed.

(** The last write of a key has the greatest offset. *)
Lemma newest_greatest k l e :
  key_ascending l -> last (writes_of k l) = Some e ->
  In e l /\ e.1 = k /\ forall e', In e' l -> e'.1 = k -> e' = e \/ iwp_offset e'.2 < iwp_offset e.2.
Proof.
  intros Ha Hl. pose proof Hl as Hin. apply last_Some_elem_of, list_elem_of_In, writes_of_In in Hin as [Hin Hk].
  do 2 (split; [done|]). intros e' Hin' Hk'. induction Ha as [|x l Hs IH Hf]; [done|].
  unfold writes_of in Hl. cbn in Hl. destruct (keqb_spec x.1 k) as [Ex|Hx].
  - fold (writes_of k l) in Hl. destruct (writes_of k l) as [|y w] eqn:E.
    + cbn in Hl. injection Hl as ->. destruct Hin' as [->|Hin']; [by left|].
      assert (In e' (writes_of k l)) as H by (by apply writes_of_In). by rewrite E in H.
    + rewrite last_cons_cons in Hl.
      assert (In e l) as Hel.
      { apply (writes_of_In k). rewrite E. by apply list_elem_of_In, last_Some_elem_of. }
      destruct Hin' as [<-|Hin']; [|by apply IH].
      right. rewrite List.Forall_forall in Hf. apply Hf; [done|congruence].
  - destruct Hin' as [->|Hin']; [done|]. destruct Hin as [->|Hin]; [done|]. by apply IH.
Qed.

Lemma first_of_sorted k l e :
  StronglySorted replay_le l -> first_of k l = Some e ->
  In e l /\ e.1 = k /\ forall e', In e' l -> e'.1 = k -> iwp_offset e'.2 <= iwp_offset e.2.
Proof.
  unfold first_of. intros Hs Hf. pose proof Hf as [Hin Hk]%find_some. destruct (keqb_spec e.1 k) as [Ek|]; [|done].
  do 2 (split; [done|]). intros e' Hin' Hk'. induction Hs as [|x l Hs IH Hfx]; [done|]. cbn in Hf.
  destruct (keqb_spec x.1 k) as [Ex|Hx].
  - injection Hf as ->. destruct Hin' as [->|Hin']; [lia|]. rewrite List.Forall_forall in Hfx.
    destruct (proj1 (replay_le_spec _ _) (Hfx e' Hin')) as [Hlt|[_ ?]]; [|done].
    rewrite Ek, Hk' in Hlt. by apply klt_irrefl in Hlt.
  - destruct Hin' as [->|Hin']; [done|]. destruct Hin as [->|Hin]; [done|]. by apply IH.
Qed.

(** Sorting and de-duplicating keeps exactly the newest write of every key. *)
Lemma dedup_sort_newest l k :
  key_ascending l -> bt_get k (dedup_entries (sort_entries l)) = newest k l.
Proof.
  intros Ha. pose proof (sort_entries_sorted l) as Hs. destruct (dedup_entries_spec _ Hs) as (_ & _ & ->).
  unfold newest. f_equal.
  assert (forall e, In e (sort_entries l) <-> In e l) as Hp.
  { intros e. rewrite <- !list_elem_of_In. by rewrite (sort_entries_perm l). }
  destruct (last (writes_of k l)) as [e|] eqn:E.
  - destruct (newest_greatest k l e Ha E) as (Hin & Hk & Hmax).
    destruct (first_of k (sort_entries l)) as [e'|] eqn:E'.
    + destruct (first_of_sorted k _ e' Hs E') as (Hin' & Hk' & Hge). f_equal.
      destruct (Hmax e' (proj1 (Hp _) Hin') Hk') as [|Hlt]; [done|].
      specialize (Hge e (proj2 (Hp _) Hin) Hk). lia.
    + unfold first_of in E'. pose proof (find_none _ _ E' e (proj2 (Hp _) Hin)) as Hn. cbn in Hn.
      by destruct (keqb_spec e.1 k).
  - destruct (first_of k (sort_entries l)) as [e'|] eqn:E'; [|done].
    destruct (first_of_sorted k _ e' Hs E') as (Hin' & Hk' & _).
    apply last_None in E. assert (In e' (writes_of k l)) as H by (apply writes_of_In; split; [by apply Hp|done]).
    by rewrite E in H.
Qed.

(** ** Applying a cell's buffer *)

(** The writes of a cell fit a flat buffer. *)
Definition writes_fit (l : list entry) : Prop :=
  Forall (entry_fits None) l /\ Z.of_nat (keys_size (List.map fst l)) <= u32_max.

Lemma sorted_entries_table l :
  key_ascending l -> writes_fit l ->
  exists t, from_sorted_entries (dedup_entries (sort_entries l)) = Ok t /\
    forall k, it_get t k = Ok (option_map into_wal_position (newest k l)).
Proof.
  intros Ha [Hf Hz]. destruct (dedup_entries_spec _ (sort_entries_sorted l)) as (Hs & Hsub & _).
  assert (forall e, In e (dedup_entries (sort_entries l)) -> In e l) as Hsub'.
  { intros e He. apply list_elem_of_In. rewrite <- (sort_entries_perm l). by apply list_elem_of_In, Hsub. }
  assert (Forall (entry_fits None) (dedup_entries (sort_entries l))) as Hf'.
  { apply List.Forall_forall. intros e He. rewrite List.Forall_forall in Hf. by apply Hf, Hsub'. }
  assert (size_fits None (dedup_entries (sort_entries l))) as Hz'.
  { unfold size_fits. rewrite length_var_section. etrans; [|exact Hz]. apply Nat2Z.inj_le, keys_size_subset.
    - by apply sorted_keys_NoDup.
    - intros k. rewrite !in_map_iff. intros (e & <- & He). exists e. auto. }
  destruct (flat_repr_build _ None Hs Hf' Hz') as (flat & Hb & Hr).
  unfold from_sorted_entries. rewrite Hb. cbn [mbind outcome_bind]. eexists. split; [reflexivity|]. intros k.
  rewrite (it_get_ok _ (dedup_entries (sort_entries l)) k) by (split; [apply overlay_wf_nil|done]).
  unfold it_view, positions_of. cbn. by rewrite dedup_sort_newest.
Qed.

(** The bloom filter gained the keys whose newest write is not a removal. *)
Definition bloom_applied (writes : list entry) (b b' : option (list (list Z))) : Prop :=
  match b, b' with
  | None, None => True
  | Some ks, Some ks' =>
      forall k, In k ks' <-> In k ks \/ exists iwp, newest k writes = Some iwp /\ is_removed iwp = false
  | _, _ => False
  end.

(** What a cell looks like after its writes were applied. *)
Definition cell_applied (e : LargeTableEntry) (writes : list entry) (e' : LargeTableEntry) : Prop :=
  match writes with
  | [] => e' = e
  | first :: _ =>
      le_state e' = state_mark_dirty (le_state e) /\ le_levels e' = le_levels e /\
      le_last_processed e' =
        (if state_is_empty (le_state e) then iwp_offset first.2 else le_last_processed e) /\
      le_pending_last_processed e' = le_pending_last_processed e /\
      bloom_applied writes (le_bloom e) (le_bloom e') /\
      forall k, it_get (le_data e') k = Ok (option_map into_wal_position (newest k writes))
  end.

Lemma bloom_replay_ok writes b :
  key_ascending writes ->
  bloom_applied writes b
    (option_map (fun ks => ks ++ List.map fst (List.filter (fun kv => negb (is_removed kv.2))
                                                  (dedup_entries (sort_entries writes)))) b).
Proof.
  intros Ha. destruct b as [ks|]; [|done]. cbn. intros k. rewrite in_app_iff, in_map_iff. apply or_iff_compat_l.
  destruct (dedup_entries_spec _ (sort_entries_sorted writes)) as (Hs & _ & _).
  split.
  - intros ([k' iwp] & Hk & [Hin Hr]%filter_In). cbn in *. subst k'. exists iwp.
    rewrite <- dedup_sort_newest by done. split; [by apply bt_get_In|by apply negb_true_iff].
  - intros (iwp & Hn & Hr). exists (k, iwp). split; [done|]. apply filter_In. cbn. rewrite Hr. split; [|done].
    apply bt_get_In; [done|]. by rewrite dedup_sort_newest.
Qed.

Lemma partition_point_app {A} (f : A -> bool) (a b : list A) :
  Forall (fun x => f x = true) a -> Forall (fun x => f x = false) b ->
  take (partition_point f (a ++ b)) (a ++ b) = a.
Proof.
  induction 1 as [|x a Hx _ IH]; cbn; intros Hb.
  - destruct Hb as [|y b Hy]; [done|]. cbn. by rewrite Hy.
  - rewrite Hx. cbn. f_equal. by apply IH.
Qed.

Lemma entry_apply_ok e writes torn cutoff :
  key_ascending writes -> writes_fit writes ->
  Forall (fun w => iwp_offset w.2 < cutoff) writes -> Forall (fun w => cutoff <= iwp_offset w.2) torn ->
  (cutoff = u64_max -> torn = []) ->
  exists e', entry_apply_replay e (writes ++ torn) cutoff = Ok e' /\ cell_applied e writes e'.
Proof.
  intros Ha Hf Hlow Hhigh Hmax. unfold entry_apply_replay.
  replace (if cutoff =? u64_max then writes ++ torn else _) with writes.
  2: { destruct (Z.eqb_spec cutoff u64_max) as [E|_]; [by rewrite (Hmax E), app_nil_r|].
       symmetry. apply partition_point_app; (eapply Forall_impl; [eassumption|]); cbn; intros w Hw;
         [by apply Z.ltb_lt|by apply Z.ltb_ge]. }
  destruct writes as [|first writes]; [by exists e|].
  destruct (sorted_entries_table _ Ha Hf) as (t & Ht & Hg). unfold entry_replace_data. rewrite Ht.
  cbn [mbind outcome_bind]. eexists. split; [reflexivity|]. split_and!; try done. by apply bloom_replay_ok.
Qed.

