(* ===== verification/LargeTable.v ===== *)
(** * The large table

    [Entries], [Row], [KsTable] and [LargeTable] of
    [src/tidehunter/src/large_table.rs]: the rows of a key space, one per mutex,
    the cells of a row, the index of the cells of a prefixed key space, and
    dropping a range of cells.

    A call that works on one cell takes the row the cell's mutex guards; the
    reads and writes through the [&mut LargeTableEntry] it gets are
    [entries_entry_mut] and [entries_store].  [lock_cell_waiting_for_flush]
    returns once no flush of the cell is in progress; the model starts there and
    keeps the assertion of [remove_entry]. *)

From Stdlib Require Import ZArith Lia List Sorting.Sorted.
From stdpp Require Import base tactics list gmap strings.
From S2P Require Import Prelude BTree Bytes Position Cell Layout KeyShape IndexTable Levels TableEntry.

Local Open Scope Z_scope.

(** ** Rows *)

Inductive Entries :=
| EntriesArray (num_mutexes : Z) (arr : list LargeTableEntry)
| EntriesTree (tree : gmap (list Z) LargeTableEntry).

(** [Entries::entry_mut]; a vacant tree entry is created. *)
Definition entries_entry_mut (bloom : bool) (es : Entries) (cell_id : CellId) : outcome (LargeTableEntry * bool) :=
  match es, cell_id with
  | EntriesArray num_mutexes arr, CellInteger cell =>
      offset ← u64_div cell num_mutexes;
      e ← expect (arr !! Z.to_nat offset) "called `Option::unwrap()` on a `None` value";
      Ok (e, false)
  | EntriesTree tree, CellBytes cell =>
      match tree !! cell with Some e => Ok (e, false) | None => Ok (new_empty bloom, true) end
  | EntriesArray _ _, CellBytes _ => Panic "Invalid cell id for array entry list"
  | EntriesTree _, CellInteger _ => Panic "Invalid cell id for tree entry list"
  end.

(** Writing through the reference [entry_mut] returned. *)
Definition entries_store (es : Entries) (cell_id : CellId) (e : LargeTableEntry) : Entries :=
  match es, cell_id with
  | EntriesArray num_mutexes arr, CellInteger cell =>
      EntriesArray num_mutexes (<[Z.to_nat (cell / num_mutexes) := e]> arr)
  | EntriesTree tree, CellBytes cell => EntriesTree (<[cell := e]> tree)
  | _, _ => es
  end.

Definition entries_try_entry_mut (bloom : bool) (es : Entries) (cell_id : CellId) : outcome (option LargeTableEntry) :=
  match es with
  | EntriesArray _ _ => '(e, _) ← entries_entry_mut bloom es cell_id; Ok (Some e)
  | EntriesTree tree =>
      match cell_id with
      | CellBytes cell => Ok (tree !! cell)
      | CellInteger _ => Panic "Invalid cell id for tree entry list"
      end
  end.

Definition no_flush_pending (e : LargeTableEntry) : bool :=
  match le_pending_last_processed e with None => true | Some _ => false end.

Definition entries_remove_entry (bloom : bool) (es : Entries) (cell_id : CellId) : outcome Entries :=
  match es with
  | EntriesArray _ _ =>
      o ← entries_try_entry_mut bloom es cell_id;
      match o with
      | None => Ok es
      | Some e =>
          _ ← assert_that (no_flush_pending e) "remove_entry on cell while async flush is pending";
          Ok (entries_store es cell_id (entry_clear e))
      end
  | EntriesTree tree =>
      match cell_id with
      | CellInteger _ => Panic "Invalid cell id for tree entry list"
      | CellBytes cell =>
          match tree !! cell with
          | None => Ok es
          | Some e =>
              _ ← assert_that (no_flush_pending e) "remove_entry on cell while async flush is pending";
              Ok (EntriesTree (delete cell tree))
          end
      end
  end.

(** ** Key spaces *)

(** [kt_bloom_filter]: whether the key space has bloom filter parameters.
    [kt_cell_index]: the [BTreeSet] of cells, kept for prefixed key spaces. *)
Record KsTable := mkKsTable {
  kt_ks : KeySpaceDesc;
  kt_bloom_filter : bool;
  kt_rows : list Entries;
  kt_cell_index : list (list Z * unit);
}.

Notation LargeTable := (list KsTable).

(** The row of a cell. *)
Definition kt_row (kt : KsTable) (cell : CellId) : outcome (nat * Entries) :=
  mutex ← mutex_for_cell (kt_ks kt) cell;
  row ← expect (kt_rows kt !! Z.to_nat mutex) "index out of bounds";
  Ok (Z.to_nat mutex, row).

(** [LargeTable::entry_mut] and an update of the entry it returns. *)
Definition kt_update (kt : KsTable) (cell : CellId) (f : LargeTableEntry -> outcome LargeTableEntry) : outcome KsTable :=
  '(mutex, row) ← kt_row kt cell;
  '(e, created) ← entries_entry_mut (kt_bloom_filter kt) row cell;
  index ← (if created && needs_large_table_cell_index (kt_ks kt)
           then b ← assume_bytes_id cell; Ok (bt_insert b tt (kt_cell_index kt))
           else Ok (kt_cell_index kt));
  e ← f e;
  Ok (mkKsTable (kt_ks kt) (kt_bloom_filter kt) (<[mutex := entries_store row cell e]> (kt_rows kt)) index).

(** [next_key_in_tree] *)
Definition next_key_in_tree (tree : list (list Z * unit)) (key : list Z) (reverse : bool) : option (list Z) :=
  option_map fst (if reverse then last (bt_below key tree) else head (bt_above key tree)).

(** [LargeTable::next_cell] *)
Definition table_next_cell (kt : KsTable) (cell : CellId) (reverse : bool) : outcome (option CellId) :=
  match ks_key_type (kt_ks kt), cell with
  | Uniform config, CellInteger cell => Ok (next_cell config (kt_ks kt) cell reverse)
  | PrefixedUniform _, CellBytes bytes =>
      Ok (option_map CellBytes (next_key_in_tree (kt_cell_index kt) bytes reverse))
  | Uniform _, CellBytes _ => Panic "next_cell with uniform key type but bytes cell id"
  | PrefixedUniform _, CellInteger _ => Panic "next_cell with prefix key type but integer cell id"
  end.

Definition kt_remove_entry (kt : KsTable) (cell : CellId) : outcome KsTable :=
  '(mutex, row) ← kt_row kt cell;
  row ← entries_remove_entry (kt_bloom_filter kt) row cell;
  Ok (mkKsTable (kt_ks kt) (kt_bloom_filter kt) (<[mutex := row]> (kt_rows kt)) (kt_cell_index kt)).

(** The loop of [LargeTable::drop_cells_in_range]. *)
Fixpoint drop_cells_loop (fuel : nat) (kt : KsTable) (cell to_cell : CellId) : outcome KsTable :=
  match fuel with
  | O => Panic "out of fuel"
  | S fuel =>
      kt ← kt_remove_entry kt cell;
      if bool_decide (cell = to_cell) then Ok kt
      else
        next ← table_next_cell kt cell false;
        match next with
        | None => Ok kt
        | Some next =>
            o ← cell_id_cmp next to_cell;
            match o with Gt => Ok kt | _ => drop_cells_loop fuel kt next to_cell end
        end
  end.

(** One turn per cell of an array, or per indexed cell and the first one. *)
Definition drop_fuel (kt : KsTable) : nat :=
  match ks_key_type (kt_ks kt) with
  | Uniform config => Z.to_nat (num_cells config (kt_ks kt))
  | PrefixedUniform _ => S (length (kt_cell_index kt))
  end.

Definition drop_cells_in_range (kt : KsTable) (from_cell to_cell : CellId) : outcome KsTable :=
  drop_cells_loop (drop_fuel kt) kt from_cell to_cell.

(** [Entries::clear_all] *)
Definition entries_clear_all (es : Entries) : outcome Entries :=
  match es with
  | EntriesArray n arr =>
      _ ← assert_that (forallb no_flush_pending arr) "clear_all on cell while async flush is pending";
      Ok (EntriesArray n (List.map entry_clear arr))
  | EntriesTree tree =>
      _ ← assert_that (forallb (fun ke => no_flush_pending ke.2) (map_to_list tree))
            "clear_all on cell while async flush is pending";
      Ok (EntriesTree ∅)
  end.

Fixpoint clear_rows (rows : list Entries) : outcome (list Entries) :=
  match rows with
  | [] => Ok []
  | r :: rest => r ← entries_clear_all r; rest ← clear_rows rest; Ok (r :: rest)
  end.

Definition drop_all_cells (kt : KsTable) : outcome KsTable :=
  rows ← clear_rows (kt_rows kt);
  Ok (mkKsTable (kt_ks kt) (kt_bloom_filter kt) rows []).

(** ** What the table holds for a cell *)

(** The entry [entry_mut] gives.  A notion of the statements, not of the code:
    where [entry_mut] panics (a cell of the wrong kind, or any array cell of a
    destroyed key space, which has no rows) it is the empty entry. *)
Definition cell_entry (kt : KsTable) (cell : CellId) : LargeTableEntry :=
  match ('(_, row) ← kt_row kt cell; entries_entry_mut (kt_bloom_filter kt) row cell) with
  | Ok (e, _) => e
  | Panic _ => new_empty (kt_bloom_filter kt)
  end.

(** What a dropped cell holds: array entries are cleared, tree entries removed. *)
Definition entry_reset (kt : KsTable) (e : LargeTableEntry) : LargeTableEntry :=
  match ks_key_type (kt_ks kt) with Uniform _ => entry_clear e | PrefixedUniform _ => new_empty (kt_bloom_filter kt) end.

(** The shape of the rows: as many as mutexes, each an array of
    [cells_per_mutex] entries or a tree whose cells are all indexed. *)
Definition row_ok (ks : KeySpaceDesc) (index : list (list Z * unit)) (row : Entries) : Prop :=
  match ks_key_type ks, row with
  | Uniform config, EntriesArray n arr => n = ks_mutexes ks /\ Z.of_nat (length arr) = config
  | PrefixedUniform _, EntriesTree tree => forall c, is_Some (tree !! c) -> In (c, tt) index
  | _, _ => False
  end.

Record kt_ok (kt : KsTable) : Prop := mkKtOk {
  kto_ks : ks_ok (kt_ks kt);
  kto_rows : Z.of_nat (length (kt_rows kt)) = ks_mutexes (kt_ks kt);
  kto_row : Forall (row_ok (kt_ks kt) (kt_cell_index kt)) (kt_rows kt);
  kto_index : bt_sorted (kt_cell_index kt);
}.

(** ** Locating a cell *)

Lemma ks_ok_mutexes ks : ks_ok ks -> 0 < ks_mutexes ks.
Proof. intros [Hm _]. apply is_power_of_two_spec in Hm as (i & Hi & ->). apply Z.pow_pos_nonneg; lia. Qed.

Lemma ks_ok_cells ks u : ks_ok ks -> ks_key_type ks = Uniform u -> 0 < u /\ num_cells u ks = u * ks_mutexes ks /\ u * ks_mutexes ks <= u32_max.
Proof.
  intros Hk Ht. pose proof (ks_ok_mutexes ks Hk). destruct Hk as [_ Hk]. rewrite Ht in Hk. destruct Hk as [Hu Hb].
  unfold uniform, assert_that in Hu. destruct (Z.ltb_spec 0 u); [|done]. split; [done|]. split; [|done].
  apply u64_mul_small; unfold u32_max, u64_max in *; lia.
Qed.

Definition entry_of (bloom : bool) (row : Entries) (cell : CellId) : LargeTableEntry :=
  match entries_entry_mut bloom row cell with Ok (e, _) => e | Panic _ => new_empty bloom end.

Lemma kt_locate kt c :
  kt_ok kt -> exists m row, kt_row kt c = Ok (m, row) /\ kt_rows kt !! m = Some row /\
    row_ok (kt_ks kt) (kt_cell_index kt) row.
Proof.
  intros [Hk Hr Hro _]. pose proof (ks_ok_mutexes _ Hk). unfold kt_row, mutex_for_cell, u64_rem.
  destruct (Z.eqb_spec (ks_mutexes (kt_ks kt)) 0); [lia|]. cbn [mbind outcome_bind].
  pose proof (Z.mod_pos_bound (mutex_seed c) (ks_mutexes (kt_ks kt)) ltac:(lia)).
  destruct (lookup_lt_is_Some_2 (kt_rows kt) (Z.to_nat (mutex_seed c mod ks_mutexes (kt_ks kt))) ltac:(lia)) as [row Hrow].
  rewrite Hrow. cbn. exists (Z.to_nat (mutex_seed c mod ks_mutexes (kt_ks kt))), row. split_and!; [done|done|].
  by apply (Forall_lookup_1 _ _ _ _ Hro Hrow).
Qed.

Lemma cell_entry_of kt c m row : kt_row kt c = Ok (m, row) -> cell_entry kt c = entry_of (kt_bloom_filter kt) row c.
Proof. unfold cell_entry, entry_of. by intros ->. Qed.

(** The row and the offset of an array cell determine it. *)
Lemma array_cell_inj kt i j m row row' :
  kt_ok kt -> 0 <= i -> 0 <= j -> kt_row kt (CellInteger i) = Ok (m, row) -> kt_row kt (CellInteger j) = Ok (m, row') ->
  Z.to_nat (i / ks_mutexes (kt_ks kt)) = Z.to_nat (j / ks_mutexes (kt_ks kt)) -> i = j.
Proof.
  intros [Hk _ _ _] Hi Hj. pose proof (ks_ok_mutexes _ Hk) as Hm. unfold kt_row, mutex_for_cell, u64_rem.
  destruct (Z.eqb_spec (ks_mutexes (kt_ks kt)) 0); [lia|]. cbn [mbind outcome_bind mutex_seed].
  destruct (kt_rows kt !! _) as [r|]; [|done]. cbn. intros [= E1 _].
  destruct (kt_rows kt !! Z.to_nat (j mod _)) as [r'|]; [|done]. cbn. intros [= E2 _] E.
  pose proof (Z.mod_pos_bound i (ks_mutexes (kt_ks kt)) Hm). pose proof (Z.mod_pos_bound j (ks_mutexes (kt_ks kt)) Hm).
  pose proof (Z.div_pos i (ks_mutexes (kt_ks kt)) Hi Hm). pose proof (Z.div_pos j (ks_mutexes (kt_ks kt)) Hj Hm).
  rewrite (Z.div_mod i (ks_mutexes (kt_ks kt))), (Z.div_mod j (ks_mutexes (kt_ks kt))) by lia.
  f_equal; [f_equal|]; lia.
Qed.

Lemma array_slot ks i u (arr : list LargeTableEntry) :
  ks_ok ks -> ks_key_type ks = Uniform u -> 0 <= i < num_cells u ks -> Z.of_nat (length arr) = u ->
  exists e, arr !! Z.to_nat (i / ks_mutexes ks) = Some e.
Proof.
  intros Hk Ht Hi Hl. destruct (ks_ok_cells ks u Hk Ht) as (Hu & E & _). pose proof (ks_ok_mutexes ks Hk).
  apply lookup_lt_is_Some_2. assert (i / ks_mutexes ks < u) by (apply Z.div_lt_upper_bound; lia).
  pose proof (Z.div_pos i (ks_mutexes ks) ltac:(lia) ltac:(lia)). lia.
Qed.

(** Every cell of the key space has an entry, or gets one. *)
Lemma row_entry kt row c :
  kt_ok kt -> cell_ok (kt_ks kt) c -> row_ok (kt_ks kt) (kt_cell_index kt) row ->
  exists created, entries_entry_mut (kt_bloom_filter kt) row c = Ok (entry_of (kt_bloom_filter kt) row c, created) /\
    (created = true -> entry_of (kt_bloom_filter kt) row c = new_empty (kt_bloom_filter kt) /\
       needs_large_table_cell_index (kt_ks kt) = true /\ exists b, c = CellBytes b).
Proof.
  intros [Hk _ _ _] Hc Hr. unfold entry_of, cell_ok, row_ok, needs_large_table_cell_index in *.
  destruct (ks_key_type (kt_ks kt)) as [u|cfg] eqn:Ht, c as [i|b], row as [n arr|tree]; try done; cbn.
  - destruct Hr as [-> Hl]. pose proof (ks_ok_mutexes _ Hk). unfold u64_div.
    destruct (Z.eqb_spec (ks_mutexes (kt_ks kt)) 0); [lia|]. cbn [mbind outcome_bind].
    destruct (array_slot _ _ _ _ Hk Ht Hc Hl) as [e ->]. cbn. by exists false.
  - destruct (tree !! b); [by exists false|]. exists true. split; [done|]. eauto.
Qed.

(** Replacing the row of [c] by one that differs from it at [c] only. *)
Lemma cell_entry_row kt c m row row' index v :
  kt_row kt c = Ok (m, row) -> kt_rows kt !! m = Some row ->
  (forall c', cell_ok (kt_ks kt) c' -> kt_row kt c' = Ok (m, row) ->
     entry_of (kt_bloom_filter kt) row' c' = if bool_decide (c' = c) then v else entry_of (kt_bloom_filter kt) row c') ->
  forall c', cell_ok (kt_ks kt) c' ->
    cell_entry (mkKsTable (kt_ks kt) (kt_bloom_filter kt) (<[m := row']> (kt_rows kt)) index) c' =
      if bool_decide (c' = c) then v else cell_entry kt c'.
Proof.
  intros Hc Hm Hrow c' Hok. unfold cell_entry, kt_row in *. cbn [kt_ks kt_bloom_filter kt_rows].
  destruct (mutex_for_cell (kt_ks kt) c') as [x|] eqn:Ex; cbn [mbind outcome_bind] in *.
  2: { destruct (bool_decide_reflect (c' = c)) as [->|]; [|done]. by rewrite Ex in Hc. }
  destruct (decide (Z.to_nat x = m)) as [E|Hne].
  - rewrite E, list_lookup_insert_eq by (by apply lookup_lt_Some in Hm). rewrite Hm. cbn.
    specialize (Hrow c' Hok). rewrite Ex in Hrow. cbn in Hrow. rewrite E, Hm in Hrow. by apply Hrow.
  - rewrite list_lookup_insert_ne by done. destruct (bool_decide_reflect (c' = c)) as [->|]; [|done].
    rewrite Ex in Hc. cbn in Hc. destruct (kt_rows kt !! Z.to_nat x); [|done]. by injection Hc as <- _.
Qed.

Lemma row_ok_mono ks index index' row :
  (forall c, In (c, tt) index -> In (c, tt) index') -> row_ok ks index row -> row_ok ks index' row.
Proof. unfold row_ok. destruct (ks_key_type ks), row; naive_solver. Qed.

Lemma kt_ok_row kt m row index :
  kt_ok kt -> bt_sorted index -> (forall c, In (c, tt) (kt_cell_index kt) -> In (c, tt) index) ->
  row_ok (kt_ks kt) index row ->
  kt_ok (mkKsTable (kt_ks kt) (kt_bloom_filter kt) (<[m := row]> (kt_rows kt)) index).
Proof.
  intros [Hk Hl Hr _] Hs Hm Hrow. split; cbn; [done|by rewrite length_insert| |done].
  apply Forall_insert; [|done]. eapply Forall_impl; [exact Hr|]. intros r. by apply row_ok_mono.
Qed.

(** ** One cell *)

Lemma entry_of_store kt c c' m row e :
  kt_ok kt -> cell_ok (kt_ks kt) c -> cell_ok (kt_ks kt) c' -> row_ok (kt_ks kt) (kt_cell_index kt) row ->
  kt_row kt c = Ok (m, row) -> kt_row kt c' = Ok (m, row) ->
  entry_of (kt_bloom_filter kt) (entries_store row c e) c' =
    if bool_decide (c' = c) then e else entry_of (kt_bloom_filter kt) row c'.
Proof.
  intros Hkt Hc Hc' Hr Hrow Hrow'. pose proof (kto_ks _ Hkt) as Hk. pose proof (ks_ok_mutexes _ Hk) as Hm.
  unfold entry_of, cell_ok, row_ok in *.
  destruct (ks_key_type (kt_ks kt)) as [u|cfg] eqn:Ht, c as [i|b], c' as [j|b'], row as [n arr|tree]; try done; cbn.
  - destruct Hr as [-> Hl]. unfold u64_div. destruct (Z.eqb_spec (ks_mutexes (kt_ks kt)) 0); [lia|]. cbn [mbind outcome_bind].
    destruct (array_slot _ i _ _ Hk Ht Hc Hl) as [ei Hi].
    destruct (bool_decide_reflect (CellInteger j = CellInteger i)) as [[= ->]|Hne].
    + rewrite list_lookup_insert_eq by (by apply lookup_lt_Some in Hi). done.
    + rewrite list_lookup_insert_ne; [done|]. intros E. apply Hne. f_equal. symmetry.
      eapply (array_cell_inj kt i j); [done|lia|lia|exact Hrow|exact Hrow'|exact E].
  - destruct (bool_decide_reflect (CellBytes b' = CellBytes b)) as [[= ->]|Hne].
    + by rewrite lookup_insert_eq.
    + by rewrite lookup_insert_ne by congruence.
Qed.

Lemma row_ok_store kt c row e index :
  cell_ok (kt_ks kt) c -> row_ok (kt_ks kt) (kt_cell_index kt) row ->
  (forall b, In (b, tt) (kt_cell_index kt) -> In (b, tt) index) ->
  (forall b, c = CellBytes b -> In (b, tt) index) ->
  row_ok (kt_ks kt) index (entries_store row c e).
Proof.
  unfold cell_ok, row_ok. intros Hc Hr Hmono Hin.
  destruct (ks_key_type (kt_ks kt)) as [u|cfg] eqn:Ht, c as [i|b], row as [n arr|tree]; try done; cbn.
  - by rewrite length_insert.
  - intros c [v Hv]. destruct (decide (c = b)) as [->|Hne]; [by apply Hin|].
    rewrite lookup_insert_ne in Hv by done. eauto.
Qed.

(** [bt_insert] on the cell index. *)
Lemma index_insert_In b c index :
  bt_sorted index -> In (c, tt) (bt_insert b tt index) <-> c = b \/ In (c, tt) index.
Proof.
  intros Hs. rewrite <- !(bt_get_In) by (try apply bt_insert_sorted; done). rewrite bt_get_insert by done.
  destruct (keqb_spec c b); naive_solver.
Qed.

(** An update changes its cell only and keeps the table well formed. *)
Lemma kt_update_ok kt c f e' :
  kt_ok kt -> cell_ok (kt_ks kt) c -> f (cell_entry kt c) = Ok e' ->
  exists kt', kt_update kt c f = Ok kt' /\ kt_ok kt' /\ kt_ks kt' = kt_ks kt /\
    kt_bloom_filter kt' = kt_bloom_filter kt /\
    forall c', cell_ok (kt_ks kt) c' -> cell_entry kt' c' = if bool_decide (c' = c) then e' else cell_entry kt c'.
Proof.
  intros Hkt Hc Hf. destruct (kt_locate kt c Hkt) as (m & row & Hrow & Hm & Hr).
  destruct (row_entry kt row c Hkt Hc Hr) as (created & Hget & Hcr).
  rewrite (cell_entry_of _ _ _ _ Hrow) in Hf. unfold kt_update. rewrite Hrow. cbn [mbind outcome_bind]. rewrite Hget.
  cbn [mbind outcome_bind].
  assert (exists index, (if created && needs_large_table_cell_index (kt_ks kt)
           then b ← assume_bytes_id c; Ok (bt_insert b tt (kt_cell_index kt)) else Ok (kt_cell_index kt)) = Ok index /\
     bt_sorted index /\ (forall b, In (b, tt) (kt_cell_index kt) -> In (b, tt) index) /\
     forall b, c = CellBytes b -> In (b, tt) index) as (index & Hi & Hs & Hmono & Hin).
  { pose proof (kto_index _ Hkt) as Hs. destruct created.
    - destruct (Hcr eq_refl) as (_ & -> & b & ->). cbn. eexists. split_and!; [done|by apply bt_insert_sorted| |].
      + intros b' Hb'. apply index_insert_In; [done|]. by right.
      + intros b' [= <-]. apply index_insert_In; [done|]. by left.
    - exists (kt_cell_index kt). split_and!; [done|done|done|]. intros b ->. unfold row_ok, cell_ok in *.
      destruct (ks_key_type (kt_ks kt)), row; try done. cbn in Hget. destruct (tree !! b) eqn:E; [|done]. eauto. }
  rewrite Hi. cbn [mbind outcome_bind]. rewrite Hf. cbn [mbind outcome_bind]. eexists. split_and!; [done| |done|done|].
  - apply kt_ok_row; [done|done|done|]. by apply (row_ok_store kt).
  - eapply cell_entry_row; [done|done|]. intros c' Hc' Hrow'. by eapply entry_of_store.
Qed.

(** Removing a cell resets it. *)
Lemma kt_remove_ok kt c :
  kt_ok kt -> cell_ok (kt_ks kt) c -> no_flush_pending (cell_entry kt c) = true ->
  exists kt', kt_remove_entry kt c = Ok kt' /\ kt_ok kt' /\ kt_ks kt' = kt_ks kt /\
    kt_bloom_filter kt' = kt_bloom_filter kt /\ kt_cell_index kt' = kt_cell_index kt /\
    forall c', cell_ok (kt_ks kt) c' ->
      cell_entry kt' c' = if bool_decide (c' = c) then entry_reset kt (cell_entry kt c) else cell_entry kt c'.
Proof.
  intros Hkt Hc Hp. destruct (kt_locate kt c Hkt) as (m & row & Hrow & Hm & Hr). pose proof (kto_index _ Hkt) as Hs.
  rewrite (cell_entry_of _ _ _ _ Hrow) in *. destruct (row_entry kt row c Hkt Hc Hr) as (created & Hget & Hcr).
  unfold kt_remove_entry. rewrite Hrow. cbn [mbind outcome_bind]. unfold entries_remove_entry.
  assert (row_ok (kt_ks kt) (kt_cell_index kt) row) as Hr' by done.
  unfold row_ok, cell_ok in Hr, Hc. unfold entry_reset. destruct (ks_key_type (kt_ks kt)) as [u|cfg] eqn:Ht, c as [i|b], row as [n arr|tree]; try done.
  - unfold entries_try_entry_mut. rewrite Hget. cbn [mbind outcome_bind]. rewrite Hp. cbn [assert_that mbind outcome_bind].
    eexists. split_and!; [done| |done|done|done|].
    + apply kt_ok_row; [done|done|done|]. apply (row_ok_store kt); [by unfold cell_ok; rewrite Ht|done|done|done].
    + eapply cell_entry_row; [done|done|]. intros c' Hc' Hrow'. eapply entry_of_store; [done| |done|done|done|done].
      unfold cell_ok. by rewrite Ht.
  - assert (forall c', entry_of (kt_bloom_filter kt) (EntriesTree (delete b tree)) c' =
        if bool_decide (c' = CellBytes b) then new_empty (kt_bloom_filter kt)
        else entry_of (kt_bloom_filter kt) (EntriesTree tree) c') as Hdel.
    { intros [j|b']; [done|]. unfold entry_of. cbn. destruct (bool_decide_reflect (CellBytes b' = CellBytes b)) as [[= ->]|Hne].
      - by rewrite lookup_delete_eq.
      - by rewrite lookup_delete_ne by congruence. }
    destruct (tree !! b) as [e|] eqn:E.
    + assert (entry_of (kt_bloom_filter kt) (EntriesTree tree) (CellBytes b) = e) as He by (unfold entry_of; cbn; by rewrite E).
      rewrite He in Hp. rewrite Hp. cbn [assert_that mbind outcome_bind]. eexists. split_and!; [done| |done|done|done|].
      * apply kt_ok_row; [done|done|done|]. unfold row_ok. rewrite Ht. intros c [v Hv]. apply lookup_delete_Some in Hv as [_ Hv]. eauto.
      * eapply cell_entry_row; [done|done|]. intros c' _ _. apply Hdel.
    + cbn [mbind outcome_bind]. eexists. split_and!; [done| |done|done|done|].
      * apply kt_ok_row; [done|done|done|done].
      * eapply cell_entry_row; [done|done|]. intros c' _ _. destruct (bool_decide_reflect (c' = CellBytes b)) as [->|]; [|done].
        unfold entry_of. cbn. by rewrite E.
Qed.

(** ** Dropping a range *)

Definition no_flush (kt : KsTable) : Prop :=
  forall c, cell_ok (kt_ks kt) c -> no_flush_pending (cell_entry kt c) = true.

(** [kt'] is [kt] with the cells of [dropped] reset. *)
Definition resets (kt kt' : KsTable) (dropped : CellId -> Prop) : Prop :=
  kt_ok kt' /\ kt_ks kt' = kt_ks kt /\ kt_bloom_filter kt' = kt_bloom_filter kt /\
  forall c, cell_ok (kt_ks kt) c ->
    (dropped c -> cell_entry kt' c = entry_reset kt (cell_entry kt c)) /\
    (~ dropped c -> cell_entry kt' c = cell_entry kt c).

Lemma reset_no_flush kt e : no_flush_pending e = true -> no_flush_pending (entry_reset kt e) = true.
Proof. unfold entry_reset. by destruct (ks_key_type (kt_ks kt)). Qed.

Lemma reset_reset kt e : entry_reset kt (entry_reset kt e) = entry_reset kt e.
Proof. unfold entry_reset. destruct (ks_key_type (kt_ks kt)); [|done]. unfold entry_clear. cbn. by destruct (le_bloom e). Qed.

(** A first drop followed by another. *)
Lemma resets_seq kt kt1 kt2 D1 D2 D :
  resets kt kt1 D1 -> resets kt1 kt2 D2 ->
  (forall c, cell_ok (kt_ks kt) c -> D c -> D1 c \/ D2 c \/ cell_entry kt c = entry_reset kt (cell_entry kt c)) ->
  (forall c, cell_ok (kt_ks kt) c -> D1 c \/ D2 c -> D c) ->
  (forall c, cell_ok (kt_ks kt) c -> Decision (D1 c)) -> (forall c, cell_ok (kt_ks kt) c -> Decision (D2 c)) ->
  resets kt kt2 D.
Proof.
  intros (Hok1 & Hk1 & Hb1 & H1) (Hok2 & Hk2 & Hb2 & H2) HD HD' dec1 dec2. split_and!; [done|congruence|congruence|].
  intros c Hc. destruct (H1 c Hc) as [H1y H1n]. rewrite Hk1 in H2. destruct (H2 c Hc) as [H2y H2n].
  assert (forall e, entry_reset kt1 e = entry_reset kt e) as Hre by (intros e; unfold entry_reset; by rewrite Hk1, Hb1).
  split.
  - intros Hd. destruct (dec2 c Hc) as [H|H].
    + rewrite (H2y H), Hre. destruct (dec1 c Hc) as [H'|H'].
      * by rewrite (H1y H'), reset_reset.
      * by rewrite (H1n H').
    + rewrite (H2n H). destruct (HD c Hc Hd) as [H'|[H'|H']]; [auto|done|].
      destruct (dec1 c Hc) as [H1'|H1']; [auto|]. by rewrite (H1n H1').
  - intros Hn. rewrite H2n, H1n; [done| |]; intros ?; apply Hn; auto.
Qed.

Lemma kt_remove_resets kt c :
  kt_ok kt -> cell_ok (kt_ks kt) c -> no_flush kt ->
  exists kt', kt_remove_entry kt c = Ok kt' /\ resets kt kt' (fun c' => c' = c) /\ no_flush kt' /\
    kt_cell_index kt' = kt_cell_index kt.
Proof.
  intros Hkt Hc Hn. destruct (kt_remove_ok kt c Hkt Hc (Hn c Hc)) as (kt' & He & Hok & Hk & Hb & Hi & Hv).
  exists kt'. split_and!; [done| | |done].
  - split_and!; [done|done|done|]. intros c' Hc'. rewrite (Hv c' Hc'). split; intros H.
    + subst c'. by rewrite bool_decide_true.
    + by rewrite bool_decide_false.
  - intros c' Hc'. rewrite Hk in Hc'. rewrite (Hv c' Hc'). case_bool_decide; [|by apply Hn]. by apply reset_no_flush, Hn.
Qed.

(** Cells outside the index hold nothing. *)
Lemma cell_not_indexed kt cfg b :
  kt_ok kt -> ks_key_type (kt_ks kt) = PrefixedUniform cfg -> ~ In (b, tt) (kt_cell_index kt) ->
  cell_entry kt (CellBytes b) = entry_reset kt (cell_entry kt (CellBytes b)).
Proof.
  intros Hkt Ht Hn. destruct (kt_locate kt (CellBytes b) Hkt) as (m & row & Hrow & Hm & Hr).
  rewrite (cell_entry_of _ _ _ _ Hrow). unfold entry_reset. rewrite Ht. unfold row_ok in Hr. rewrite Ht in Hr.
  destruct row as [|tree]; [done|]. unfold entry_of. cbn. destruct (tree !! b) eqn:E; [|done]. destruct Hn. eauto.
Qed.

Lemma drop_array fuel : forall kt i to u,
  kt_ok kt -> no_flush kt -> ks_key_type (kt_ks kt) = Uniform u -> 0 <= i < num_cells u (kt_ks kt) -> i <= to ->
  (Z.to_nat (num_cells u (kt_ks kt) - i) <= fuel)%nat ->
  exists kt', drop_cells_loop fuel kt (CellInteger i) (CellInteger to) = Ok kt' /\ no_flush kt' /\
    resets kt kt' (fun c => in_cells (CellInteger i) (CellInteger to) c = true).
Proof.
  induction fuel as [|fuel IH]; intros kt i to u Hkt Hn Ht Hi Hto Hf; [lia|]. cbn [drop_cells_loop].
  assert (cell_ok (kt_ks kt) (CellInteger i)) as Hc by (unfold cell_ok; by rewrite Ht).
  destruct (kt_remove_resets kt _ Hkt Hc Hn) as (kt1 & -> & Hr1 & Hn1 & _). cbn [mbind outcome_bind].
  pose proof Hr1 as (Hok1 & Hk1 & Hb1 & H1). destruct (ks_ok_cells _ u (kto_ks _ Hkt) Ht) as (Hu & Ecells & Hb).
  assert (forall c, in_cells (CellInteger i) (CellInteger i) c = true <-> c = CellInteger i) as Hone.
  { intros [j|]; cbn; [|by split]. rewrite andb_true_iff, !Z.leb_le. split; [intros; f_equal; lia|intros [= ->]; lia]. }
  assert (forall to', to' = i \/ num_cells u (kt_ks kt) - 1 <= i -> exists kt', Ok kt1 = Ok kt' /\ no_flush kt' /\
    resets kt kt' (fun c => in_cells (CellInteger i) (CellInteger (Z.max i to')) c = true)) as Hdone.
  { intros to' Hend. exists kt1. split; [done|split; [done|]]. do 3 (split; [done|]). intros c Hc'. destruct (H1 c Hc') as [Hy Hno].
    assert (in_cells (CellInteger i) (CellInteger (Z.max i to')) c = true <-> c = CellInteger i) as E.
    { rewrite <- Hone. unfold cell_ok in Hc'. rewrite Ht in Hc'. destruct c as [j|]; [|done]. cbn.
      rewrite !andb_true_iff, !Z.leb_le. lia. }
    rewrite E. auto. }
  case_bool_decide as Heq.
  { injection Heq as <-. destruct (Hdone i (or_introl eq_refl)) as (kt' & H). rewrite Z.max_id in H. eauto. }
  unfold table_next_cell. rewrite Hk1, Ht. cbn [mbind outcome_bind]. unfold next_cell, next_bounded.
  rewrite u64_sub_small by (unfold u32_max, u64_max in *; lia).
  destruct (Z.leb_spec (num_cells u (kt_ks kt) - 1) i); cbn [option_map].
  { destruct (Hdone to (or_intror H)) as (kt' & H'). rewrite Z.max_r in H' by lia. eauto. }
  rewrite u64_add_small by (unfold u32_max, u64_max in *; lia). cbn [cell_id_cmp mbind outcome_bind].
  assert (i <> to) by congruence.
  destruct (IH kt1 (i + 1) to u Hok1 Hn1 ltac:(by rewrite Hk1) ltac:(rewrite Hk1; lia) ltac:(lia) ltac:(rewrite Hk1; lia))
    as (kt2 & He2 & Hn2 & Hr2).
  exists kt2. split; [destruct (i + 1 ?= to) eqn:Ecmp; [exact He2|exact He2|apply Z.compare_gt_iff in Ecmp; lia]|split; [done|]].
  eapply resets_seq; [exact Hr1|exact Hr2| | |intros; apply _|intros; apply _].
  - intros [j|] _; [|done]. cbn. rewrite !andb_true_iff, !Z.leb_le. intros Hj.
    destruct (decide (j = i)) as [->|]; [by left|]. right. left. lia.
  - intros [j|] _; cbn; [|by intros [|]]. rewrite !andb_true_iff, !Z.leb_le. intros [[= ->]|?]; lia.
Qed.

Lemma next_key_spec index key :
  bt_sorted index ->
  match next_key_in_tree index key false with
  | None => forall c, In (c, tt) index -> ~ klt key c
  | Some y => In (y, tt) index /\ klt key y /\ forall c, In (c, tt) index -> klt key c -> kle y c
  end.
Proof.
  unfold next_key_in_tree, bt_above. intros Hs.
  pose proof (bt_filter_sorted (fun kv => kltb key kv.1) index Hs) as Hf.
  assert (forall c, In (c, tt) (List.filter (fun kv => kltb key kv.1) index) <-> In (c, tt) index /\ klt key c) as Hin.
  { intros c. rewrite filter_In. cbn. by destruct (kltb_spec key c); naive_solver. }
  destruct (List.filter _ index) as [|[y []] l] eqn:E; cbn.
  - intros c Hc Hlt. by apply (proj2 (Hin c)).
  - destruct (proj1 (Hin y) (or_introl eq_refl)) as [Hy Hlt]. split_and!; [done|done|]. intros c Hc Hlt'.
    destruct (proj2 (Hin c) (conj Hc Hlt')) as [[= ->]|Hl]; [by apply kle_iff; right|].
    apply StronglySorted_inv in Hf as [_ Hf]. rewrite List.Forall_forall in Hf. apply kle_iff. left. by apply (Hf (c, tt)).
Qed.

(** The indexed cells after [x]. *)
Definition after (index : list (list Z * unit)) (x : list Z) : nat := length (bt_above x index).

Lemma after_lt index x y : In (y, tt) index -> klt x y -> (after index y < after index x)%nat.
Proof.
  intros Hin Hlt. unfold after, bt_above. induction index as [|[z []] index IH]; [done|]. cbn.
  assert (forall w, (length (List.filter (fun kv => kltb y kv.1) w) <= length (List.filter (fun kv : list Z * unit => kltb x kv.1) w))%nat) as Hle.
  { clear -Hlt. intros w. induction w as [|[a []] w IH]; cbn; [done|].
    destruct (kltb_spec y a) as [Ha|], (kltb_spec x a) as [|Hn]; cbn; try lia. destruct Hn. by eapply klt_trans. }
  destruct Hin as [[= ->]|Hin].
  - destruct (kltb_spec y y) as [H|_]; [by apply klt_irrefl in H|]. destruct (kltb_spec x y); [|done]. cbn.
    specialize (Hle index). lia.
  - specialize (IH Hin). destruct (kltb_spec y z) as [Ha|], (kltb_spec x z) as [|Hn]; cbn; try lia.
    destruct Hn. by eapply klt_trans.
Qed.

Lemma in_cells_bytes (a b : list Z) c :
  in_cells (CellBytes a) (CellBytes b) c = true <-> exists x, c = CellBytes x /\ kle a x /\ kle x b.
Proof.
  destruct c as [j|x]; cbn; [naive_solver|]. destruct (kleb_spec a x), (kleb_spec x b); cbn; naive_solver.
Qed.

Lemma bytes_kle_refl (a : list Z) : kle a a.
Proof. apply kle_iff. by right. Qed.

(** Going on from [y], the first indexed cell after [x]. *)
Lemma drop_tree_step kt kt1 kt2 x y to cfg :
  kt_ok kt -> ks_key_type (kt_ks kt) = PrefixedUniform cfg -> kle x to -> klt x y ->
  (forall c, In (c, tt) (kt_cell_index kt) -> klt x c -> kle y c) ->
  resets kt kt1 (fun c => c = CellBytes x) ->
  resets kt1 kt2 (fun c => in_cells (CellBytes y) (CellBytes to) c = true) ->
  resets kt kt2 (fun c => in_cells (CellBytes x) (CellBytes to) c = true).
Proof.
  intros Hkt Ht Hto Hxy Hleast Hr1 Hr2. eapply resets_seq; [exact Hr1|exact Hr2| | |intros; apply _|intros; apply _].
  - intros c _ (b & -> & Hxb & Hbt)%in_cells_bytes. apply kle_iff in Hxb as [Hxb|<-]; [|by left]. right.
    destruct (kleb_spec y b) as [Hyb|Hyb]; [left; apply in_cells_bytes; eauto|].
    right. eapply cell_not_indexed; [done|done|]. auto.
  - intros c _ [->|(b & -> & Hyb & Hbt)%in_cells_bytes]; apply in_cells_bytes; eexists; (split; [done|]); split; try done.
    + apply bytes_kle_refl.
    + apply kle_iff. left. by eapply klt_le_trans.
Qed.

(** No indexed cell of the range is left after [x]. *)
Lemma drop_tree_end kt kt1 x to cfg :
  kt_ok kt -> ks_key_type (kt_ks kt) = PrefixedUniform cfg -> kle x to ->
  (forall c, In (c, tt) (kt_cell_index kt) -> klt x c -> ~ kle c to) ->
  resets kt kt1 (fun c => c = CellBytes x) ->
  resets kt kt1 (fun c => in_cells (CellBytes x) (CellBytes to) c = true).
Proof.
  intros Hkt Ht Hto Hnone Hr1. pose proof Hr1 as (Hok1 & _).
  eapply (resets_seq kt kt1 kt1 _ (fun _ => False)); [exact Hr1| | | |intros; apply _|intros; apply _].
  - do 3 (split; [done|]). done.
  - intros c _ (b & -> & Hxb & Hbt)%in_cells_bytes. apply kle_iff in Hxb as [Hxb|<-]; [|by left]. right. right.
    eapply cell_not_indexed; [done|done|]. intros Hin. by apply (Hnone b).
  - intros c _ [->|[]]. apply in_cells_bytes. eexists. split; [done|]. split; [apply bytes_kle_refl|done].
Qed.

Lemma drop_tree fuel : forall kt x to cfg,
  kt_ok kt -> no_flush kt -> ks_key_type (kt_ks kt) = PrefixedUniform cfg -> kle x to ->
  (after (kt_cell_index kt) x < fuel)%nat ->
  exists kt', drop_cells_loop fuel kt (CellBytes x) (CellBytes to) = Ok kt' /\ no_flush kt' /\
    resets kt kt' (fun c => in_cells (CellBytes x) (CellBytes to) c = true).
Proof.
  induction fuel as [|fuel IH]; intros kt x to cfg Hkt Hn Ht Hto Hf; [lia|]. cbn [drop_cells_loop].
  assert (cell_ok (kt_ks kt) (CellBytes x)) as Hc by (unfold cell_ok; by rewrite Ht).
  destruct (kt_remove_resets kt _ Hkt Hc Hn) as (kt1 & -> & Hr1 & Hn1 & Hi1). cbn [mbind outcome_bind].
  pose proof Hr1 as (Hok1 & Hk1 & Hb1 & _). pose proof (next_key_spec _ x (kto_index _ Hkt)) as Hnext.
  case_bool_decide as Heq.
  { injection Heq as ->. exists kt1. split; [done|]. split; [done|]. eapply drop_tree_end; [done|done|done| |done].
    intros b _ Hlt Hle. by apply kle_not_lt in Hle. }
  unfold table_next_cell. rewrite Hk1, Ht, Hi1. cbn [mbind outcome_bind].
  destruct (next_key_in_tree (kt_cell_index kt) x false) as [y|]; cbn [option_map].
  2: { exists kt1. split; [done|]. split; [done|]. eapply drop_tree_end; [done|done|done| |done].
       intros b Hin Hlt _. by apply (Hnext b). }
  destruct Hnext as (Hyin & Hxy & Hleast). cbn [cell_id_cmp mbind outcome_bind].
  destruct (bytes_cmp y to) eqn:Ecmp.
  3: { exists kt1. split; [done|]. split; [done|]. eapply drop_tree_end; [done|done|done| |done].
       intros b Hin Hlt Hle. specialize (Hleast b Hin Hlt). apply kle_not_lt in Hleast. apply Hleast.
       eapply kle_lt_trans; [exact Hle|]. exact (proj1 (kcmp_gt y to) Ecmp). }
  1,2: assert (kle y to) as Hyt by (unfold kle, kcmp, bytes_ord; congruence);
    (destruct (IH kt1 y to cfg Hok1 Hn1 ltac:(by rewrite Hk1) Hyt
              ltac:(rewrite Hi1; pose proof (after_lt _ x y Hyin Hxy); lia)) as (kt2 & He2 & Hn2 & Hr2));
    exists kt2; (split; [done|]); (split; [done|]); by eapply (drop_tree_step kt kt1 kt2).
Qed.

Lemma drop_cells_in_range_resets kt from to :
  kt_ok kt -> no_flush kt -> cell_ok (kt_ks kt) from -> range_ordered from to ->
  exists kt', drop_cells_in_range kt from to = Ok kt' /\ no_flush kt' /\
    resets kt kt' (fun c => in_cells from to c = true).
Proof.
  intros Hkt Hn Hc Hr. unfold drop_cells_in_range, drop_fuel, cell_ok, range_ordered in *.
  destruct (ks_key_type (kt_ks kt)) as [u|cfg] eqn:Ht, from as [i|x], to as [j|y]; try done.
  - apply (drop_array _ kt i j u); [done|done|done|done|done|]. lia.
  - apply (drop_tree _ kt x y cfg); [done|done|done|done|]. unfold after, bt_above. pose proof (List.filter_length_le (fun kv : list Z * unit => kltb x kv.1) (kt_cell_index kt)). lia.
Qed.

(** ** Dropping every cell *)

(** No entry of the row has a flush in progress. *)
Definition row_idle (es : Entries) : bool :=
  match es with
  | EntriesArray _ arr => forallb no_flush_pending arr
  | EntriesTree tree => forallb (fun ke => no_flush_pending ke.2) (map_to_list tree)
  end.

Definition row_cleared (es : Entries) : Entries :=
  match es with EntriesArray n arr => EntriesArray n (List.map entry_clear arr) | EntriesTree _ => EntriesTree ∅ end.

Lemma clear_rows_ok rows : Forall (fun r => row_idle r = true) rows -> clear_rows rows = Ok (List.map row_cleared rows).
Proof.
  induction 1 as [|r rows Hr _ IH]; cbn; [done|].
  destruct r as [n arr|tree]; cbn in Hr |- *; rewrite Hr; cbn [assert_that mbind outcome_bind]; by rewrite IH.
Qed.

Lemma drop_all_cells_resets kt :
  kt_ok kt -> Forall (fun r => row_idle r = true) (kt_rows kt) ->
  exists kt', drop_all_cells kt = Ok kt' /\ resets kt kt' (fun _ => True).
Proof.
  intros Hkt Hidle. unfold drop_all_cells. rewrite clear_rows_ok by done. cbn [mbind outcome_bind]. eexists. split; [reflexivity|].
  pose proof Hkt as [Hk Hl Hr Hs]. change (List.map row_cleared (kt_rows kt)) with (row_cleared <$> kt_rows kt).
  split_and!; [|done|done|].
  - split; cbn; [done|by rewrite length_fmap| |constructor]. apply Forall_fmap. eapply Forall_impl; [exact Hr|].
    intros r Hrow. unfold row_ok in *. cbn. destruct (ks_key_type (kt_ks kt)), r as [n arr|tree]; try done; cbn.
    + by rewrite length_map.
    + intros c [e He]. by rewrite lookup_empty in He.
  - intros c Hc. split; [intros _|done]. destruct (kt_locate kt c Hkt) as (m & row & Hrow & Hm & Hro).
    rewrite (cell_entry_of kt _ _ _ Hrow), (cell_entry_of _ c m (row_cleared row)).
    2: { unfold kt_row in *. cbn [kt_ks kt_rows]. destruct (mutex_for_cell (kt_ks kt) c) as [x|]; [|done]. cbn in *.
         rewrite list_lookup_fmap. destruct (kt_rows kt !! Z.to_nat x); [|done]. cbn in *. by injection Hrow as <- <-. }
    unfold row_ok, entry_reset, entry_of, cell_ok in *. cbn [kt_bloom_filter].
    destruct (ks_key_type (kt_ks kt)) as [u|cfg] eqn:Ht, row as [n arr|tree], c as [i|b]; try done; cbn.
    destruct Hro as [-> Hla]. pose proof (ks_ok_mutexes _ Hk). unfold u64_div.
    destruct (Z.eqb_spec (ks_mutexes (kt_ks kt)) 0); [lia|]. cbn [mbind outcome_bind].
    change (List.map entry_clear arr) with (entry_clear <$> arr). rewrite list_lookup_fmap.
    destruct (array_slot _ _ _ _ Hk Ht Hc Hla) as [e ->]. done.
Qed.

(** [drop_cells_in_range] terminates within one turn per cell and empties
    exactly the cells of the range: array cells are cleared in place, cells of a
    prefixed key space are removed although the walk only visits those its cell
    index lists, and no cell outside the range changes. *)
Lemma dropped_cells_reset kt from to
  (Hkt : kt_ok kt) (Hidle : no_flush kt) (Hfrom : cell_ok (kt_ks kt) from) (Hrange : range_ordered from to) :
  exists kt', drop_cells_in_range kt from to = Ok kt' /\ kt_ok kt' /\ kt_ks kt' = kt_ks kt /\ no_flush kt' /\
    forall c, cell_ok (kt_ks kt) c ->
      cell_entry kt' c = if in_cells from to c then entry_reset kt (cell_entry kt c) else cell_entry kt c.
Proof.
  destruct (drop_cells_in_range_resets kt from to Hkt Hidle Hfrom Hrange) as (kt' & He & Hn & Hok & Hk & _ & Hv).
  exists kt'. split_and!; [done|done|done|done|]. intros c Hc. destruct (Hv c Hc) as [Hy Hno].
  destruct (in_cells from to c); [by apply Hy|by apply Hno].
Qed.

(** [drop_all_cells] empties every cell of the key space. *)
Lemma all_cells_dropped kt (Hkt : kt_ok kt) (Hidle : Forall (fun r => row_idle r = true) (kt_rows kt)) :
  exists kt', drop_all_cells kt = Ok kt' /\ kt_ok kt' /\
    forall c, cell_ok (kt_ks kt) c -> cell_entry kt' c = entry_reset kt (cell_entry kt c).
Proof.
  destruct (drop_all_cells_resets kt Hkt Hidle) as (kt' & He & Hok & _ & _ & Hv). exists kt'. split_and!; [done|done|].
  intros c Hc. by apply (Hv c Hc).
Qed.

(** ** Examples: a prefixed key space with two cells, and an array of dirty cells *)

Definition demo_entry : LargeTableEntry := mkEntry Unloaded (levels_single (mkWalPosition 64 32)) 5 None None it_default.

Definition demo_tree : KsTable :=
  mkKsTable demo_prefixed false
    [EntriesTree {[ [1; 16] := demo_entry; [2; 32] := demo_entry ]}; EntriesTree ∅; EntriesTree ∅; EntriesTree ∅]
    [([1; 16], tt); ([2; 32], tt)].

Definition demo_array : KsTable := mkKsTable demo_uniform false (replicate 4 (EntriesArray 4 (replicate 4 demo_entry))) [].

Lemma demo_tree_ok : kt_ok demo_tree.
Proof.
  split; [apply demo_prefixed_ok|done| |].
  - apply Forall_cons. split; [|apply (Forall_replicate _ 3 (EntriesTree ∅)); cbn; intros c [e He]; by rewrite lookup_empty in He].
    cbn. intros c [e He].
    apply lookup_insert_Some in He as [[<- _]|[_ He]]; [by left|].
    apply lookup_singleton_Some in He as [<- _]. right. by left.
  - by repeat constructor.
Qed.

Lemma demo_tree_idle : no_flush demo_tree.
Proof.
  intros [i|b] Hc; [done|]. destruct (kt_locate demo_tree (CellBytes b) demo_tree_ok) as (m & row & Hrow & Hm & Hr).
  rewrite (cell_entry_of _ _ _ _ Hrow).
  assert (forall tree : gmap (list Z) LargeTableEntry, (forall e, tree !! b = Some e -> e = demo_entry) ->
            no_flush_pending (entry_of false (EntriesTree tree) (CellBytes b)) = true) as H.
  { intros tree Ht. unfold entry_of. cbn. destruct (tree !! b) as [e|]; [|done]. by rewrite (Ht e eq_refl). }
  destruct m as [|m].
  - injection Hm as <-. apply H. intros e He. apply lookup_insert_Some in He as [[_ <-]|[_ He]]; [done|].
    by apply lookup_singleton_Some in He as [_ <-].
  - do 3 (destruct m as [|m]; [injection Hm as <-; apply H; intros e He; by rewrite lookup_empty in He|]). done.
Qed.

Lemma demo_array_ok : kt_ok demo_array.
Proof. split; [apply demo_uniform_ok|done| |constructor]. apply Forall_replicate. done. Qed.

