(* ===== verification/Snapshot.v ===== *)
(** * Opening the table from a snapshot

    [src/tidehunter/src/container.rs] ([LargeTableContainer]) and
    [LargeTable::from_unloaded] of [src/tidehunter/src/large_table.rs]: the
    snapshot a control region holds, and the rows it is turned into.

    [load_keys] stands for [loader.load(ks, position)] followed by [keys()]: the
    keys of the index blob at a position.  A load that fails panics at start-up. *)

From Stdlib Require Import ZArith Lia List Sorting.Sorted.
From stdpp Require Import base tactics list gmap strings.
From S2P Require Import Prelude BTree Bytes Position Cell Layout KeyShape Levels TableEntry.
From S2P Require Import LargeTable.

Local Open Scope Z_scope.

(** ** Data *)

Record SnapshotEntryData := mkSnapshotEntry {
  sd_levels : IndexLevels;
  sd_last_processed : LastProcessed;
}.

Definition snapshot_entry_empty : SnapshotEntryData := mkSnapshotEntry levels_new last_processed_none.

(** [LargeTableContainer<T>]: per key space, its cells in ascending order. *)
Notation LargeTableContainer T := (list (list (CellId * T))).

(** [new_keyspace]; [collect] inserts into the [BTreeMap]. *)
Definition new_keyspace {T} (ks : KeySpaceDesc) (value : T) : list (CellId * T) :=
  match ks_key_type ks with
  | Uniform cells_per_mutex =>
      let total_cells := u64_mul (ks_mutexes ks) cells_per_mutex in
      List.map (fun kv => (CellInteger kv.1, kv.2))
        (fold_left (fun m cell_idx =>
             let row := cell_idx / cells_per_mutex in
             let offset := cell_idx mod cells_per_mutex in
             bt_insert (cell_by_location ks row offset) value m)
           (List.map Z.of_nat (seq 0 (Z.to_nat total_cells))) [])
  | PrefixedUniform _ => []
  end.

Definition new_from_key_shape {T} (shape : list KeySpaceDesc) (value : T) : LargeTableContainer T :=
  List.map (fun ks => new_keyspace ks value) shape.

(** ** [from_unloaded] *)

Section from_unloaded.
Context (load_keys : WalPosition -> list (list Z)).

(** One cell: the bloom filter is rebuilt from every level.  [load_keys] is the
    keys of a blob that can be loaded; for one that cannot the code panics
    ([expect]), which has no counterpart here. *)
Definition entry_from_snapshot (bloom : bool) (d : SnapshotEntryData) : LargeTableEntry :=
  let bloom_filter := if bloom then Some (flat_map load_keys (levels_iter (sd_levels d))) else None in
  from_snapshot_data bloom (sd_levels d) (sd_last_processed d) bloom_filter.

(** [row_cells[mutex_idx].push(..)] for every cell. *)
Fixpoint distribute_cells (ks : KeySpaceDesc) (row_cells : list (list (CellId * SnapshotEntryData)))
    (cells : list (CellId * SnapshotEntryData)) : outcome (list (list (CellId * SnapshotEntryData))) :=
  match cells with
  | [] => Ok row_cells
  | (cell, d) :: rest =>
      mutex_idx ← mutex_for_cell ks cell;
      row ← expect (row_cells !! Z.to_nat mutex_idx) "index out of bounds";
      distribute_cells ks (<[Z.to_nat mutex_idx := row ++ [(cell, d)]]> row_cells) rest
  end.

(** [entries.map(|e| (e.cell.assume_bytes_id(), e)).collect()] *)
Fixpoint tree_entries (bloom : bool) (tree : gmap (list Z) LargeTableEntry) (cells : list (CellId * SnapshotEntryData)) :
    outcome (gmap (list Z) LargeTableEntry) :=
  match cells with
  | [] => Ok tree
  | (cell, d) :: rest =>
      b ← assume_bytes_id cell;
      tree_entries bloom (<[b := entry_from_snapshot bloom d]> tree) rest
  end.

Definition row_from_cells (ks : KeySpaceDesc) (bloom : bool) (cells : list (CellId * SnapshotEntryData)) : outcome Entries :=
  match ks_key_type ks with
  | Uniform _ => Ok (EntriesArray (ks_mutexes ks) (List.map (fun cd => entry_from_snapshot bloom cd.2) cells))
  | PrefixedUniform _ => tree ← tree_entries bloom ∅ cells; Ok (EntriesTree tree)
  end.

Fixpoint rows_from_cells (ks : KeySpaceDesc) (bloom : bool) (row_cells : list (list (CellId * SnapshotEntryData))) :
    outcome (list Entries) :=
  match row_cells with
  | [] => Ok []
  | cells :: rest => r ← row_from_cells ks bloom cells; rs ← rows_from_cells ks bloom rest; Ok (r :: rs)
  end.

Fixpoint index_cells (index : list (list Z * unit)) (cells : list (CellId * SnapshotEntryData)) : outcome (list (list Z * unit)) :=
  match cells with
  | [] => Ok index
  | (cell, _) :: rest => b ← assume_bytes_id cell; index_cells (bt_insert b tt index) rest
  end.

(** The table of one key space. *)
Definition ks_from_unloaded (ks : KeySpaceDesc) (bloom : bool) (ks_cells : list (CellId * SnapshotEntryData)) : outcome KsTable :=
  let ks_cells := if ks_destroyed ks then [] else ks_cells in
  row_cells ← distribute_cells ks (replicate (Z.to_nat (ks_mutexes ks)) []) ks_cells;
  rows ← rows_from_cells ks bloom row_cells;
  cell_index ← (match ks_key_type ks with PrefixedUniform _ => index_cells [] ks_cells | Uniform _ => Ok [] end);
  Ok (mkKsTable ks bloom rows cell_index).

Fixpoint tables_from_unloaded (shape : list (KeySpaceDesc * bool)) (data : LargeTableContainer SnapshotEntryData) :
    outcome LargeTable :=
  match shape, data with
  | (ks, bloom) :: shape, cells :: data =>
      kt ← ks_from_unloaded ks bloom cells; t ← tables_from_unloaded shape data; Ok (kt :: t)
  | _, _ => Ok []
  end.

(** [shape]: the key spaces, each with whether it has a bloom filter. *)
Definition from_unloaded (shape : list (KeySpaceDesc * bool)) (snapshot : LargeTableContainer SnapshotEntryData) :
    outcome LargeTable :=
  _ ← assert_that (length snapshot =? length shape)%nat "Snapshot has different number of key spaces";
  tables_from_unloaded shape snapshot.
End from_unloaded.

(** ** Rows by mutex *)

Definition in_row (ks : KeySpaceDesc) (r : nat) (c : CellId) : bool :=
  (Z.to_nat (mutex_seed c mod ks_mutexes ks) =? r)%nat.

Lemma mutex_for_cell_ok ks c : ks_ok ks -> mutex_for_cell ks c = Ok (mutex_seed c mod ks_mutexes ks).
Proof.
  intros Hk. pose proof (ks_ok_mutexes ks Hk). unfold mutex_for_cell, u64_rem.
  by destruct (Z.eqb_spec (ks_mutexes ks) 0); [lia|].
Qed.

Lemma distribute_ok ks cells : ks_ok ks -> forall rows,
  Z.of_nat (length rows) = ks_mutexes ks ->
  exists rows', distribute_cells ks rows cells = Ok rows' /\ length rows' = length rows /\
    forall r row, rows !! r = Some row -> rows' !! r = Some (row ++ List.filter (fun cd => in_row ks r cd.1) cells).
Proof.
  intros Hk. pose proof (ks_ok_mutexes ks Hk) as Hm.
  induction cells as [|[c d] cells IH]; intros rows Hl; cbn [distribute_cells].
  { exists rows. split_and!; [done|done|]. intros r row Hr. cbn. by rewrite app_nil_r. }
  rewrite mutex_for_cell_ok by done. cbn [mbind outcome_bind].
  pose proof (Z.mod_pos_bound (mutex_seed c) (ks_mutexes ks) Hm).
  destruct (lookup_lt_is_Some_2 rows (Z.to_nat (mutex_seed c mod ks_mutexes ks)) ltac:(lia)) as [row Hrow].
  rewrite Hrow. cbn [expect mbind outcome_bind].
  destruct (IH (<[Z.to_nat (mutex_seed c mod ks_mutexes ks) := row ++ [(c, d)]]> rows)) as (rows' & -> & Hl' & Hr').
  { by rewrite length_insert. }
  rewrite length_insert in Hl'. exists rows'. split_and!; [done|done|]. intros r row0 Hr0. cbn [List.filter fst].
  unfold in_row at 1. cbn [fst]. destruct (Nat.eqb_spec (Z.to_nat (mutex_seed c mod ks_mutexes ks)) r) as [E|Hne].
  - rewrite E in *. rewrite (Hr' r (row ++ [(c, d)])) by (rewrite list_lookup_insert_eq; [done|by apply lookup_lt_Some in Hrow]).
    assert (row0 = row) as -> by congruence. by rewrite <- app_assoc.
  - apply Hr'. by rewrite list_lookup_insert_ne.
Qed.

Lemma rows_from_cells_ok load_keys ks bloom rcs (f : list (CellId * SnapshotEntryData) -> Entries) :
  (forall cells, In cells rcs -> row_from_cells load_keys ks bloom cells = Ok (f cells)) ->
  rows_from_cells load_keys ks bloom rcs = Ok (List.map f rcs).
Proof.
  induction rcs as [|c rcs IH]; intros Hf; cbn; [done|]. rewrite Hf by (by left). cbn [mbind outcome_bind].
  by rewrite IH by (intros; apply Hf; by right).
Qed.

(** ** Arrays: the cell of row [r] at offset [o] is [o * mutexes + r] *)

Lemma filter_mod_block m k r :
  (r < m)%nat -> List.filter (fun i => (i mod m =? r)%nat) (seq (k * m) m) = [(k * m + r)%nat].
Proof.
  intros Hr. replace (seq (k * m) m) with (seq (k * m) (r + (1 + (m - r - 1)))) by (f_equal; lia).
  rewrite !seq_app, !List.filter_app.
  assert (forall j, (j < m)%nat -> ((k * m + j) mod m = j)%nat) as Hmod.
  { intros j Hj. rewrite Nat.add_comm, Nat.Div0.mod_add. by apply Nat.mod_small. }
  rewrite (filter_none _ (seq (k * m) r)), (filter_none _ (seq (k * m + r + 1) _)).
  - cbn. rewrite Hmod by done. by rewrite Nat.eqb_refl.
  - apply List.Forall_forall. intros i [Hlo Hhi]%in_seq. replace i with (k * m + (i - k * m))%nat by lia. rewrite Hmod by lia. apply Nat.eqb_neq. lia.
  - apply List.Forall_forall. intros i [Hlo Hhi]%in_seq. replace i with (k * m + (i - k * m))%nat by lia. rewrite Hmod by lia. apply Nat.eqb_neq. lia.
Qed.

Lemma filter_mod_seq m u r :
  (r < m)%nat -> List.filter (fun i => (i mod m =? r)%nat) (seq 0 (u * m)) = List.map (fun o => (o * m + r)%nat) (seq 0 u).
Proof.
  intros Hr. induction u as [|u IH]; [done|]. rewrite seq_S, map_app. cbn [List.map]. rewrite Nat.add_0_l, <- IH.
  replace (S u * m)%nat with (u * m + m)%nat by lia. rewrite seq_app, List.filter_app. f_equal. by apply filter_mod_block.
Qed.

Lemma filter_map_fst {A} (f : CellId -> bool) (g : nat -> CellId) (h : nat -> A) l :
  List.filter (fun cd => f cd.1) (List.map (fun i => (g i, h i)) l) =
  List.map (fun i => (g i, h i)) (List.filter (fun i => f (g i)) l).
Proof. induction l as [|i l IH]; cbn; [done|]. destruct (f (g i)); cbn; by rewrite IH. Qed.

(** The cells of row [r] of a complete uniform snapshot. *)
Lemma uniform_row ks u (h : nat -> SnapshotEntryData) r :
  ks_ok ks -> ks_key_type ks = Uniform u -> (r < Z.to_nat (ks_mutexes ks))%nat ->
  List.filter (fun cd => in_row ks r cd.1)
    (List.map (fun i => (CellInteger (Z.of_nat i), h i)) (seq 0 (Z.to_nat (num_cells u ks)))) =
  List.map (fun o => (CellInteger (Z.of_nat (o * Z.to_nat (ks_mutexes ks) + r)), h (o * Z.to_nat (ks_mutexes ks) + r)%nat))
    (seq 0 (Z.to_nat u)).
Proof.
  intros Hk Ht Hr. destruct (ks_ok_cells ks u Hk Ht) as (Hu & E & _). pose proof (ks_ok_mutexes ks Hk) as Hm.
  rewrite (filter_map_fst (in_row ks r)). rewrite E, Z2Nat.inj_mul by lia.
  rewrite (List.filter_ext _ (fun i => (i mod Z.to_nat (ks_mutexes ks) =? r)%nat)).
  - rewrite filter_mod_seq by done. by rewrite map_map.
  - intros i. unfold in_row. cbn [mutex_seed]. f_equal. rewrite <- (Z2Nat.id (ks_mutexes ks)) at 1 by lia.
    rewrite <- Nat2Z.inj_mod. apply Nat2Z.id.
Qed.

(** ** Opening one key space *)

(** The snapshot of a key space has every cell of an array, and no cell of a
    tree twice. *)
Definition snapshot_cells_ok {T} (ks : KeySpaceDesc) (cells : list (CellId * T)) : Prop :=
  match ks_key_type ks with
  | Uniform u => List.map fst cells = List.map (fun i => CellInteger (Z.of_nat i)) (seq 0 (Z.to_nat (num_cells u ks)))
  | PrefixedUniform _ => NoDup (List.map fst cells) /\ forall c d, In (c, d) cells -> exists b, c = CellBytes b
  end.

Definition find_cell {T} (cells : list (CellId * T)) (c : CellId) : option T :=
  option_map snd (List.find (fun cd => bool_decide (cd.1 = c)) cells).

Lemma find_cell_filter {T} (f : CellId -> bool) (cells : list (CellId * T)) c :
  find_cell (List.filter (fun cd => f cd.1) cells) c = if f c then find_cell cells c else None.
Proof.
  unfold find_cell. induction cells as [|[c' d] cells IH]; cbn; [by destruct (f c)|].
  destruct (f c') eqn:Ef; cbn; case_bool_decide as E; try done; subst; rewrite Ef in *; done.
Qed.

Lemma find_cell_In {T} (cells : list (CellId * T)) c d : find_cell cells c = Some d -> In (c, d) cells.
Proof.
  unfold find_cell. destruct (List.find _ cells) as [[c' d']|] eqn:E; [|done]. intros [= <-].
  by apply find_some in E as [Hin <-%bool_decide_eq_true_1].
Qed.

Lemma find_cell_None {T} (cells : list (CellId * T)) c : (~ exists d, In (c, d) cells) -> find_cell cells c = None.
Proof. intros Hn. destruct (find_cell cells c) as [d|] eqn:E; [|done]. destruct Hn. exists d. by apply find_cell_In. Qed.

(** [kt] holds the snapshot's cells. *)
Definition opens (load_keys : WalPosition -> list (list Z)) (ks : KeySpaceDesc) (bloom : bool)
    (cells : list (CellId * SnapshotEntryData)) (kt : KsTable) : Prop :=
  kt_ks kt = ks /\ kt_bloom_filter kt = bloom /\ kt_ok kt /\
  forall c, cell_ok ks c -> cell_entry kt c =
    match find_cell cells c with Some d => entry_from_snapshot load_keys bloom d | None => new_empty bloom end.

(** The snapshot of an array as a function of the cell. *)
Lemma uniform_cells_fun {T} (d0 : T) (cells : list (CellId * T)) n :
  List.map fst cells = List.map (fun i => CellInteger (Z.of_nat i)) (seq 0 n) ->
  cells = List.map (fun i => (CellInteger (Z.of_nat i), nth i (List.map snd cells) d0)) (seq 0 n).
Proof.
  intros E. assert (length cells = n) as Hl by (by rewrite <- (length_map fst), E, length_map, length_seq).
  apply list_eq. intros i.
  change (List.map ?f (seq 0 n)) with (f <$> seq 0 n). rewrite list_lookup_fmap.
  destruct (decide (i < n)%nat) as [Hi|Hi].
  - rewrite lookup_seq_lt by done. cbn. destruct (lookup_lt_is_Some_2 cells i ltac:(lia)) as [[c d] Hcd]. rewrite Hcd.
    assert ((fst <$> cells) !! i = Some (CellInteger (Z.of_nat i))) as Hf.
    { change (fst <$> cells) with (List.map fst cells). rewrite E.
      change (List.map ?f (seq 0 n)) with (f <$> seq 0 n). rewrite list_lookup_fmap, lookup_seq_lt by done. done. }
    rewrite list_lookup_fmap, Hcd in Hf. injection Hf as ->. do 2 f_equal.
    change (List.map snd cells) with (snd <$> cells). by rewrite nth_lookup, list_lookup_fmap, Hcd.
  - rewrite lookup_ge_None_2 by lia. by rewrite lookup_seq_ge by lia.
Qed.

Lemma array_rows_entry ks u bloom rows (g : nat -> LargeTableEntry) index i :
  ks_ok ks -> ks_key_type ks = Uniform u ->
  (forall r, (r < Z.to_nat (ks_mutexes ks))%nat -> rows !! r = Some (EntriesArray (ks_mutexes ks)
     (List.map (fun o => g (o * Z.to_nat (ks_mutexes ks) + r)%nat) (seq 0 (Z.to_nat u))))) ->
  0 <= i < num_cells u ks ->
  cell_entry (mkKsTable ks bloom rows index) (CellInteger i) = g (Z.to_nat i).
Proof.
  intros Hk Ht Hrow Hi. pose proof (ks_ok_mutexes ks Hk) as Hm. destruct (ks_ok_cells ks u Hk Ht) as (Hu & En & _).
  unfold cell_entry, kt_row. cbn [kt_ks kt_rows kt_bloom_filter]. rewrite mutex_for_cell_ok by done.
  cbn [mbind outcome_bind mutex_seed].
  pose proof (Z.mod_pos_bound i (ks_mutexes ks) Hm). pose proof (Z.div_pos i (ks_mutexes ks) ltac:(lia) Hm).
  assert (i / ks_mutexes ks < u) by (apply Z.div_lt_upper_bound; lia).
  rewrite Hrow by lia. cbn [expect mbind outcome_bind entries_entry_mut]. unfold u64_div.
  destruct (Z.eqb_spec (ks_mutexes ks) 0); [lia|]. cbn [mbind outcome_bind].
  match goal with |- context [List.map ?f (seq 0 ?n) !! ?k] => change (List.map f (seq 0 n) !! k) with ((f <$> seq 0 n) !! k) end.
  rewrite list_lookup_fmap, lookup_seq_lt by lia. cbn. f_equal.
  pose proof (Z.div_mod i (ks_mutexes ks) ltac:(lia)). nia.
Qed.

Lemma open_uniform load_keys ks u bloom cells :
  ks_ok ks -> ks_key_type ks = Uniform u -> ks_destroyed ks = false -> snapshot_cells_ok ks cells ->
  exists kt, ks_from_unloaded load_keys ks bloom cells = Ok kt /\ opens load_keys ks bloom cells kt.
Proof.
  intros Hk Ht Hd Hc. unfold snapshot_cells_ok in Hc. rewrite Ht in Hc.
  apply (uniform_cells_fun snapshot_entry_empty) in Hc. set (h := fun i => nth i (List.map snd cells) snapshot_entry_empty) in Hc.
  change (fun i => (CellInteger (Z.of_nat i), nth i (List.map snd cells) snapshot_entry_empty))
    with (fun i => (CellInteger (Z.of_nat i), h i)) in Hc. clearbody h. subst cells.
  pose proof (ks_ok_mutexes ks Hk) as Hm. destruct (ks_ok_cells ks u Hk Ht) as (Hu & En & _).
  unfold ks_from_unloaded. rewrite Hd.
  destruct (distribute_ok ks (List.map (fun i => (CellInteger (Z.of_nat i), h i)) (seq 0 (Z.to_nat (num_cells u ks)))) Hk
              (replicate (Z.to_nat (ks_mutexes ks)) [])) as (rows & -> & Hl & Hr).
  { rewrite length_replicate. lia. }
  rewrite length_replicate in Hl. cbn [mbind outcome_bind].
  set (mk := fun cs : list (CellId * SnapshotEntryData) => EntriesArray (ks_mutexes ks) (List.map (fun cd => entry_from_snapshot load_keys bloom cd.2) cs)).
  rewrite (rows_from_cells_ok _ _ _ _ mk) by (intros; unfold row_from_cells; by rewrite Ht). cbn [mbind outcome_bind].
  rewrite Ht. cbn [mbind outcome_bind]. eexists. split; [reflexivity|].
  assert (forall r, (r < Z.to_nat (ks_mutexes ks))%nat ->
    (mk <$> rows) !! r = Some (EntriesArray (ks_mutexes ks)
      (List.map (fun o => entry_from_snapshot load_keys bloom (h (o * Z.to_nat (ks_mutexes ks) + r)%nat)) (seq 0 (Z.to_nat u))))) as Hrow.
  { intros r Hlt. rewrite list_lookup_fmap, (Hr r []) by (by apply lookup_replicate). cbn [fmap option_fmap option_map app].
    rewrite (uniform_row ks u h r Hk Ht Hlt). unfold mk. by rewrite map_map. }
  change (List.map mk rows) with (mk <$> rows). split_and!; [done|done| |].
  - split; cbn; [done|rewrite length_fmap; lia| |constructor]. apply Forall_lookup. intros r row Hrr.
    pose proof (lookup_lt_Some _ _ _ Hrr) as Hlt. rewrite length_fmap, Hl in Hlt. rewrite (Hrow r Hlt) in Hrr. injection Hrr as <-.
    unfold row_ok. rewrite Ht, length_map, length_seq. lia.
  - intros c Hc. unfold cell_ok in Hc. rewrite Ht in Hc. destruct c as [i|]; [|done].
    pose proof (array_rows_entry ks u bloom (mk <$> rows) (fun i => entry_from_snapshot load_keys bloom (h i)) [] i Hk Ht Hrow Hc) as Hce.
    rewrite Hce. destruct (find_cell _ (CellInteger i)) as [d|] eqn:Ef.
    + apply find_cell_In, in_map_iff in Ef as (j & [= E1 <-] & _). do 2 f_equal. lia.
    + exfalso. unfold find_cell in Ef. destruct (List.find _ _) eqn:Efi; [done|].
      pose proof (find_none _ _ Efi (CellInteger i, h (Z.to_nat i))) as Hf. cbn in Hf. rewrite bool_decide_true in Hf by done.
      assert (true = false); [|done]. apply Hf, in_map_iff. exists (Z.to_nat i). rewrite Z2Nat.id by lia. split; [done|].
      apply in_seq. lia.
Qed.

(** *** Trees *)

Lemma tree_entries_ok load_keys bloom cells : forall tree,
  NoDup (List.map fst cells) -> (forall c d, In (c, d) cells -> exists b, c = CellBytes b) ->
  exists tree', tree_entries load_keys bloom tree cells = Ok tree' /\
    forall b, tree' !! b = match find_cell cells (CellBytes b) with
                           | Some d => Some (entry_from_snapshot load_keys bloom d)
                           | None => tree !! b
                           end.
Proof.
  induction cells as [|[c d] cells IH]; intros tree Hnd Hb; cbn [tree_entries]; [by exists tree|].
  cbn in Hnd. apply NoDup_cons in Hnd as [Hn Hnd]. destruct (Hb c d (or_introl eq_refl)) as [b ->]. cbn [assume_bytes_id mbind outcome_bind].
  destruct (IH (<[b := entry_from_snapshot load_keys bloom d]> tree) Hnd) as (tree' & -> & Hv).
  { intros c' d' H. apply (Hb c' d'). by right. }
  exists tree'. split; [done|]. intros b'. rewrite Hv. unfold find_cell at 2. cbn.
  case_bool_decide as E; cbn.
  - injection E as <-. rewrite find_cell_None; [apply lookup_insert_eq|]. intros [d' Hin].
    apply Hn, list_elem_of_In, in_map_iff. by exists (CellBytes b, d').
  - fold (find_cell cells (CellBytes b')). destruct (find_cell cells (CellBytes b')); [done|]. apply lookup_insert_ne. congruence.
Qed.

Lemma index_cells_ok cells : forall index,
  bt_sorted index -> (forall c (d : SnapshotEntryData), In (c, d) cells -> exists b, c = CellBytes b) ->
  exists index', index_cells index cells = Ok index' /\ bt_sorted index' /\
    (forall b, In (b, tt) index -> In (b, tt) index') /\ forall b d, In (CellBytes b, d) cells -> In (b, tt) index'.
Proof.
  induction cells as [|[c d] cells IH]; intros index Hs Hb; cbn [index_cells].
  { exists index. split_and!; done. }
  destruct (Hb c d (or_introl eq_refl)) as [b ->]. cbn [assume_bytes_id mbind outcome_bind].
  destruct (IH (bt_insert b tt index) (bt_insert_sorted b tt index Hs)) as (index' & -> & Hs' & Hmono & Hin).
  { intros c' d' H. apply (Hb c' d'). by right. }
  exists index'. split_and!; [done|done| |].
  - intros b' H. apply Hmono, index_insert_In; auto.
  - intros b' d' [[= <- <-]|H]; [|by eapply Hin]. apply Hmono, index_insert_In; auto.
Qed.

(** The row of a tree cell holds the snapshot's cells of its mutex. *)
Lemma tree_row_ok load_keys ks bloom cells r :
  NoDup (List.map fst cells) -> (forall c d, In (c, d) cells -> exists b, c = CellBytes b) ->
  exists tree, tree_entries load_keys bloom ∅ (List.filter (fun cd => in_row ks r cd.1) cells) = Ok tree /\
    forall b, tree !! b = if in_row ks r (CellBytes b)
                          then option_map (entry_from_snapshot load_keys bloom) (find_cell cells (CellBytes b)) else None.
Proof.
  intros Hnd Hb. destruct (tree_entries_ok load_keys bloom (List.filter (fun cd => in_row ks r cd.1) cells) ∅) as (tree & He & Hv).
  - by apply NoDup_filter_fst.
  - intros c d [H _]%filter_In. by apply (Hb c d).
  - exists tree. split; [done|]. intros b. rewrite Hv, find_cell_filter. destruct (in_row ks r _); [|apply lookup_empty].
    destruct (find_cell cells (CellBytes b)); [done|apply lookup_empty].
Qed.

Lemma open_prefixed load_keys ks cfg bloom cells :
  ks_ok ks -> ks_key_type ks = PrefixedUniform cfg -> ks_destroyed ks = false -> snapshot_cells_ok ks cells ->
  exists kt, ks_from_unloaded load_keys ks bloom cells = Ok kt /\ opens load_keys ks bloom cells kt.
Proof.
  intros Hk Ht Hd Hc. unfold snapshot_cells_ok in Hc. rewrite Ht in Hc. destruct Hc as [Hnd Hb].
  pose proof (ks_ok_mutexes ks Hk) as Hm. unfold ks_from_unloaded. rewrite Hd.
  destruct (distribute_ok ks cells Hk (replicate (Z.to_nat (ks_mutexes ks)) [])) as (rcs & -> & Hl & Hr).
  { rewrite length_replicate. lia. }
  rewrite length_replicate in Hl. cbn [mbind outcome_bind].
  set (row_of := fun rc => EntriesTree match tree_entries load_keys bloom ∅ rc with Ok t => t | Panic _ => ∅ end).
  assert (forall r, (r < length rcs)%nat -> exists tree, row_from_cells load_keys ks bloom (rcs !!! r) = Ok (EntriesTree tree) /\
            (row_of <$> rcs) !! r = Some (EntriesTree tree) /\
            forall b, tree !! b = if in_row ks r (CellBytes b)
                          then option_map (entry_from_snapshot load_keys bloom) (find_cell cells (CellBytes b)) else None) as Hrow.
  { intros r Hlt. destruct (tree_row_ok load_keys ks bloom cells r Hnd Hb) as (tree & He & Hv). exists tree.
    rewrite list_lookup_total_alt, list_lookup_fmap, (Hr r []) by (apply lookup_replicate_2; lia).
    unfold row_from_cells, row_of. rewrite Ht. cbn. by rewrite He. }
  rewrite (rows_from_cells_ok _ _ _ _ row_of).
  2: { intros rc (r & Hrr)%list_elem_of_In%list_elem_of_lookup. destruct (Hrow r (lookup_lt_Some _ _ _ Hrr)) as (tree & He & Hf & _).
       rewrite list_lookup_fmap, Hrr in Hf. rewrite list_lookup_total_alt, Hrr in He. cbn in He, Hf. injection Hf as <-. done. }
  cbn [mbind outcome_bind]. rewrite Ht. destruct (index_cells_ok cells [] bt_sorted_nil Hb) as (index & -> & Hs & _ & Hidx).
  cbn [mbind outcome_bind]. eexists. split; [reflexivity|].
  change (List.map row_of rcs) with (row_of <$> rcs). split_and!; [done|done| |].
  - split; cbn; [done|rewrite length_fmap; lia| |done]. apply Forall_lookup. intros r row Hrr.
    pose proof (lookup_lt_Some _ _ _ Hrr) as Hlt. rewrite length_fmap in Hlt. destruct (Hrow r Hlt) as (tree & _ & Hf & Hv).
    rewrite Hf in Hrr. injection Hrr as <-. unfold row_ok. rewrite Ht. intros b [e He]. rewrite Hv in He.
    destruct (in_row ks r _); [|done]. destruct (find_cell cells (CellBytes b)) as [d|] eqn:Ef; [|done].
    eapply Hidx. by apply find_cell_In.
  - intros c Hc. unfold cell_ok in Hc. rewrite Ht in Hc. destruct c as [|b]; [done|].
    pose proof (Z.mod_pos_bound (mutex_seed (CellBytes b)) (ks_mutexes ks) Hm) as Hmod.
    unfold cell_entry, kt_row. cbn [kt_ks kt_rows kt_bloom_filter]. rewrite mutex_for_cell_ok by done. cbn [mbind outcome_bind].
    destruct (Hrow (Z.to_nat (mutex_seed (CellBytes b) mod ks_mutexes ks)) ltac:(lia)) as (tree & _ & -> & Hv).
    cbn. rewrite Hv. unfold in_row. rewrite Nat.eqb_refl. by destruct (find_cell cells (CellBytes b)).
Qed.

(** ** Opening the table *)

Lemma open_destroyed load_keys ks bloom cells :
  ks_destroyed ks = true ->
  exists kt, ks_from_unloaded load_keys ks bloom cells = Ok kt /\ kt_ks kt = ks /\
    forall c, cell_entry kt c = new_empty bloom.
Proof.
  intros Hd. unfold ks_from_unloaded. rewrite Hd. cbn [distribute_cells mbind outcome_bind].
  set (row := match ks_key_type ks with Uniform _ => EntriesArray (ks_mutexes ks) [] | PrefixedUniform _ => EntriesTree ∅ end).
  rewrite (rows_from_cells_ok _ _ _ _ (fun _ => row)).
  2: { intros rc Hin%list_elem_of_In%elem_of_replicate. destruct Hin as [-> _]. unfold row_from_cells, row. by destruct (ks_key_type ks). }
  cbn [mbind outcome_bind].
  assert (match ks_key_type ks with PrefixedUniform _ => index_cells [] [] | Uniform _ => Ok [] end = Ok []) as ->
    by (by destruct (ks_key_type ks)). cbn [mbind outcome_bind]. eexists. split; [reflexivity|]. split; [done|].
  intros c. unfold cell_entry, kt_row. cbn [kt_ks kt_rows kt_bloom_filter].
  destruct (mutex_for_cell ks c) as [m|]; [|done]. cbn [mbind outcome_bind].
  change (List.map ?f (replicate ?n ?x)) with (f <$> replicate n x). rewrite list_lookup_fmap.
  destruct (replicate _ _ !! Z.to_nat m); [|done]. cbn. unfold row. destruct (ks_key_type ks), c as [i|b]; try done; cbn.
  by destruct (u64_div i (ks_mutexes ks)).
Qed.

Lemma open_ks load_keys ks bloom cells :
  ks_ok ks -> (ks_destroyed ks = false -> snapshot_cells_ok ks cells) ->
  exists kt, ks_from_unloaded load_keys ks bloom cells = Ok kt /\ kt_ks kt = ks /\
    if ks_destroyed ks then forall c, cell_entry kt c = new_empty bloom else opens load_keys ks bloom cells kt.
Proof.
  intros Hk Hc. destruct (ks_destroyed ks) eqn:Hd; [by apply open_destroyed|].
  destruct (ks_key_type ks) as [u|cfg] eqn:Ht.
  - destruct (open_uniform load_keys ks u bloom cells Hk Ht Hd (Hc eq_refl)) as (kt & He & Ho). exists kt. split_and!; [done|by destruct Ho|done].
  - destruct (open_prefixed load_keys ks cfg bloom cells Hk Ht Hd (Hc eq_refl)) as (kt & He & Ho). exists kt. split_and!; [done|by destruct Ho|done].
Qed.

(** What the table holds for a key space and its part of the snapshot. *)
Definition ks_opened (load_keys : WalPosition -> list (list Z)) (kb : KeySpaceDesc * bool)
    (cells : list (CellId * SnapshotEntryData)) (kt : KsTable) : Prop :=
  kt_ks kt = kb.1 /\
  if ks_destroyed kb.1 then forall c, cell_entry kt c = new_empty kb.2 else opens load_keys kb.1 kb.2 cells kt.

Definition snapshot_ok (shape : list (KeySpaceDesc * bool)) (snapshot : LargeTableContainer SnapshotEntryData) : Prop :=
  Forall2 (fun kb cells => ks_ok kb.1 /\ (ks_destroyed kb.1 = false -> snapshot_cells_ok kb.1 cells)) shape snapshot.

Lemma open_tables load_keys shape snapshot :
  snapshot_ok shape snapshot ->
  exists t, from_unloaded load_keys shape snapshot = Ok t /\
    Forall2 (fun kbc kt => ks_opened load_keys kbc.1 kbc.2 kt) (zip shape snapshot) t.
Proof.
  intros Hs. unfold from_unloaded. rewrite <- (Forall2_length _ _ _ Hs), Nat.eqb_refl. cbn [assert_that mbind outcome_bind].
  induction Hs as [|[ks bloom] cells shape snapshot [Hk Hc] _ IH]; cbn [tables_from_unloaded]; [exists []; by repeat constructor|].
  destruct (open_ks load_keys ks bloom cells Hk Hc) as (kt & -> & Hkt & Ho). cbn [mbind outcome_bind].
  destruct IH as (t & -> & Ht). cbn [mbind outcome_bind]. exists (kt :: t). split; [done|]. constructor; [by split|done].
Qed.

Lemma entry_from_snapshot_pending load_keys bloom d : no_flush_pending (entry_from_snapshot load_keys bloom d) = true.
Proof. unfold entry_from_snapshot, from_snapshot_data. by destruct (levels_is_empty _). Qed.

Lemma ks_opened_no_flush load_keys kb cells kt : ks_opened load_keys kb cells kt -> no_flush kt.
Proof.
  intros [Hk Ho] c Hc. destruct (ks_destroyed kb.1); [by rewrite Ho|]. destruct Ho as (_ & _ & _ & Hv).
  rewrite Hk in Hc. rewrite (Hv c Hc). destruct (find_cell cells c); [apply entry_from_snapshot_pending|done].
Qed.

(** ** A new database *)

Lemma fold_insert_get {A} (f : A -> Z) {V} (v : V) l : forall m k,
  bt_sorted m ->
  bt_sorted (fold_left (fun m x => bt_insert (f x) v m) l m) /\
  bt_get k (fold_left (fun m x => bt_insert (f x) v m) l m) =
    if List.existsb (fun x => keqb k (f x)) l then Some v else bt_get k m.
Proof.
  induction l as [|x l IH]; intros m k Hs; cbn; [done|].
  destruct (IH (bt_insert (f x) v m) k (bt_insert_sorted _ _ _ Hs)) as [Hs' ->]. split; [done|].
  rewrite bt_get_insert by done. destruct (keqb k (f x)); cbn; [|done]. by destruct (existsb _ l).
Qed.

Lemma bt_sorted_seq {V} (v : V) n : forall a, bt_sorted (List.map (fun i => (Z.of_nat i, v)) (seq a n)).
Proof.
  induction n as [|n IH]; intros a; cbn [seq List.map]; [constructor|]. apply bt_sorted_cons. split; [apply IH|].
  apply List.Forall_forall. intros x (i & <- & [Hi _]%in_seq)%in_map_iff. cbn. unfold klt, kcmp, Z_ord. apply Z.compare_lt_iff. lia.
Qed.

Lemma bt_get_seq {V} (v : V) n k :
  bt_get k (List.map (fun i => (Z.of_nat i, v)) (seq 0 (Z.to_nat n))) = if (0 <=? k) && (k <? n) then Some v else None.
Proof.
  pose proof (bt_sorted_seq v (Z.to_nat n) 0%nat) as Hs. destruct ((0 <=? k) && (k <? n)) eqn:E.
  - apply andb_true_iff in E as [E1%Z.leb_le E2%Z.ltb_lt]. apply bt_get_In; [done|]. apply in_map_iff.
    exists (Z.to_nat k). rewrite Z2Nat.id by lia. split; [done|]. apply in_seq. lia.
  - apply bt_get_None; [done|]. intros w (i & [= Ek _] & [_ Hi]%in_seq)%in_map_iff.
    apply andb_false_iff in E as [E%Z.leb_gt|E%Z.ltb_ge]; lia.
Qed.

(** [cell_by_location] maps the cell numbers of an array onto themselves. *)
Lemma cell_by_location_onto ks u k :
  ks_ok ks -> ks_key_type ks = Uniform u ->
  (exists i, 0 <= i < num_cells u ks /\ cell_by_location ks (i / u) (i mod u) = k) <-> 0 <= k < num_cells u ks.
Proof.
  intros Hk Ht. destruct (ks_ok_cells ks u Hk Ht) as (Hu & En & Hb). pose proof (ks_ok_mutexes ks Hk) as Hm.
  rewrite En.
  assert (forall row off, 0 <= row < ks_mutexes ks -> 0 <= off < u -> cell_by_location ks row off = off * ks_mutexes ks + row) as Hloc.
  { intros row off Hr Ho. unfold cell_by_location. assert (off * ks_mutexes ks <= u32_max) by nia.
    rewrite u64_mul_small, u64_add_small; unfold u32_max, u64_max in *; nia. }
  split.
  - intros (i & Hi & <-). pose proof (Z.mod_pos_bound i u Hu). pose proof (Z.div_pos i u ltac:(lia) Hu).
    assert (i / u < ks_mutexes ks) by (apply Z.div_lt_upper_bound; lia). rewrite Hloc by lia. nia.
  - intros Hk'. pose proof (Z.mod_pos_bound k (ks_mutexes ks) Hm). pose proof (Z.div_pos k (ks_mutexes ks) ltac:(lia) Hm).
    assert (k / ks_mutexes ks < u) by (apply Z.div_lt_upper_bound; lia).
    exists (k mod ks_mutexes ks * u + k / ks_mutexes ks).
    rewrite (Z.add_comm (_ * u)), Z.div_add, Z.mod_add, (Z.div_small (k / _)), (Z.mod_small (k / _)) by lia.
    split; [nia|]. rewrite Z.add_0_l, Hloc by lia. pose proof (Z.div_mod k (ks_mutexes ks) ltac:(lia)). lia.
Qed.

Lemma new_keyspace_cells {T} ks u (v : T) :
  ks_ok ks -> ks_key_type ks = Uniform u ->
  new_keyspace ks v = List.map (fun i => (CellInteger (Z.of_nat i), v)) (seq 0 (Z.to_nat (num_cells u ks))).
Proof.
  intros Hk Ht. unfold new_keyspace. rewrite Ht.
  assert (u64_mul (ks_mutexes ks) u = num_cells u ks) as -> by (unfold num_cells, u64_mul; f_equal; lia).
  set (n := num_cells u ks). set (loc := fun i => cell_by_location ks (i / u) (i mod u)).
  change (fun m cell_idx => _) with (fun (m : list (Z * T)) cell_idx => bt_insert (loc cell_idx) v m).
  rewrite (bt_sorted_ext (fold_left _ _ _) (List.map (fun i => (Z.of_nat i, v)) (seq 0 (Z.to_nat n)))).
  - by rewrite map_map.
  - by apply (fold_insert_get loc v _ [] 0 bt_sorted_nil).
  - apply bt_sorted_seq.
  - intros k. destruct (fold_insert_get loc v (List.map Z.of_nat (seq 0 (Z.to_nat n))) [] k bt_sorted_nil) as [_ ->].
    rewrite bt_get_seq. pose proof (cell_by_location_onto ks u k Hk Ht) as Hon. fold n in Hon.
    destruct (existsb _ _) eqn:E.
    + apply existsb_exists in E as (x & (j & <- & [_ Hj]%in_seq)%in_map_iff & Hx). destruct (keqb_spec k (loc (Z.of_nat j))) as [->|]; [|done].
      assert (0 <= loc (Z.of_nat j) < n) as [H1%Z.leb_le H2%Z.ltb_lt] by (apply Hon; exists (Z.of_nat j); split; [lia|done]).
      by rewrite H1, H2.
    + destruct ((0 <=? k) && (k <? n)) eqn:Ek; [|done]. apply andb_true_iff in Ek as [E1%Z.leb_le E2%Z.ltb_lt].
      destruct (proj2 Hon (conj E1 E2)) as (i & Hi & Hloc). rewrite <- not_true_iff_false in E. destruct E. apply existsb_exists.
      exists i. split; [apply in_map_iff; exists (Z.to_nat i); rewrite Z2Nat.id by lia; split; [done|apply in_seq; lia]|].
      unfold loc. rewrite Hloc. apply keqb_refl.
Qed.

Lemma new_keyspace_ok {T} ks (v : T) :
  ks_ok ks -> snapshot_cells_ok ks (new_keyspace ks v) /\ forall c d, In (c, d) (new_keyspace ks v) -> d = v.
Proof.
  intros Hk. unfold snapshot_cells_ok. destruct (ks_key_type ks) as [u|cfg] eqn:Ht.
  - rewrite (new_keyspace_cells ks u v Hk Ht). split; [by rewrite map_map|]. by intros c d (i & [= _ <-] & _)%in_map_iff.
  - unfold new_keyspace. rewrite Ht. split; [split; [constructor|done]|done].
Qed.

Lemma new_snapshot_ok shape :
  Forall (fun kb => ks_ok kb.1) shape ->
  snapshot_ok shape (new_from_key_shape (List.map fst shape) snapshot_entry_empty).
Proof.
  unfold snapshot_ok, new_from_key_shape. induction 1 as [|[ks bloom] shape Hk _ IH]; cbn; [constructor|].
  constructor; [|done]. split; [done|]. intros _. by apply new_keyspace_ok.
Qed.

(** C37. Opening the table from a snapshot: when the snapshot has the cells its
    key spaces require, [from_unloaded] returns a table with one well-formed
    key space per key space of the shape; the row and offset a cell is read
    from are those its snapshot entry was put at, so every cell holds its
    levels and [last_processed], a cell without an entry is empty, and a
    destroyed key space is an empty stub whatever its part of the snapshot. *)
Theorem opened_table load_keys shape snapshot (Hs : snapshot_ok shape snapshot) :
  exists t, from_unloaded load_keys shape snapshot = Ok t /\ length t = length shape /\
    forall i ks bloom cells, shape !! i = Some (ks, bloom) -> snapshot !! i = Some cells ->
      exists kt, t !! i = Some kt /\ kt_ks kt = ks /\
        if ks_destroyed ks then forall c, cell_entry kt c = new_empty bloom
        else kt_ok kt /\ no_flush kt /\ forall c, cell_ok ks c -> cell_entry kt c =
          match find_cell cells c with Some d => entry_from_snapshot load_keys bloom d | None => new_empty bloom end.
Proof.
  destruct (open_tables load_keys shape snapshot Hs) as (t & He & Ht). exists t. split; [done|].
  pose proof (Forall2_length _ _ _ Hs) as Hl. pose proof (Forall2_length _ _ _ Ht) as Hl'. rewrite length_zip_with, Hl, Nat.min_id in Hl'.
  split; [lia|]. intros i ks bloom cells Hi Hc.
  destruct (Forall2_lookup_l _ _ _ i ((ks, bloom), cells) Ht) as (kt & Hkt & Ho).
  { rewrite lookup_zip_with, Hi, Hc. done. }
  exists kt. split; [done|]. pose proof (ks_opened_no_flush _ _ _ _ Ho) as Hn. destruct Ho as [Hk Ho]. split; [done|].
  cbn in Ho. destruct (ks_destroyed ks); [done|]. by destruct Ho as (_ & _ & Hok & Hv).
Qed.

(** A new database: the container of a key shape names every cell of an
    array key space exactly once, in order, and opening it gives a table whose
    cells are all empty. *)
Lemma new_database_opens load_keys shape (Hs : Forall (fun kb => ks_ok kb.1) shape) :
  exists t, from_unloaded load_keys shape (new_from_key_shape (List.map fst shape) snapshot_entry_empty) = Ok t /\
    length t = length shape /\
    forall i ks bloom, shape !! i = Some (ks, bloom) ->
      snapshot_cells_ok ks (new_keyspace ks snapshot_entry_empty) /\
      exists kt, t !! i = Some kt /\ kt_ks kt = ks /\ forall c, cell_ok ks c -> cell_entry kt c = new_empty bloom.
Proof.
  pose proof (new_snapshot_ok shape Hs) as Hsn. destruct (open_tables load_keys shape _ Hsn) as (t & He & Ht). exists t. split; [done|].
  pose proof (Forall2_length _ _ _ Hsn) as Hl. pose proof (Forall2_length _ _ _ Ht) as Hl'. rewrite length_zip_with, Hl, Nat.min_id in Hl'.
  split; [lia|]. intros i ks bloom Hi. pose proof (Forall_lookup_1 _ _ _ _ Hs Hi) as Hk. cbn in Hk.
  destruct (new_keyspace_ok ks snapshot_entry_empty Hk) as [Hcells Hval]. split; [done|].
  destruct (Forall2_lookup_l _ _ _ i ((ks, bloom), new_keyspace ks snapshot_entry_empty) Ht) as (kt & Hkt & Ho).
  { rewrite lookup_zip_with, Hi. unfold new_from_key_shape. rewrite map_map.
    change (List.map ?f shape) with (f <$> shape). by rewrite list_lookup_fmap, Hi. }
  exists kt. split; [done|]. destruct Ho as [Hk' Ho]. split; [done|]. cbn in Ho. intros c Hc.
  destruct (ks_destroyed ks); [apply Ho|]. destruct Ho as (_ & _ & _ & Hv). rewrite (Hv c Hc).
  destruct (find_cell _ c) as [d|] eqn:Ef; [|done]. by rewrite (Hval c d (find_cell_In _ _ _ Ef)).
Qed.

(** ** Examples *)

Definition demo_shape : list (KeySpaceDesc * bool) := [(demo_uniform, true); (demo_prefixed, false)].

Definition demo_snapshot : LargeTableContainer SnapshotEntryData :=
  [List.map (fun i => (CellInteger (Z.of_nat i), mkSnapshotEntry (levels_single (mkWalPosition (Z.of_nat i) 10)) 5)) (seq 0 16);
   [(CellBytes [1; 16], mkSnapshotEntry (levels_single (mkWalPosition 77 10)) 6)]].

Lemma demo_snapshot_ok : snapshot_ok demo_shape demo_snapshot.
Proof.
  constructor; [split; [apply demo_uniform_ok|done]|]. constructor; [|constructor]. split; [apply demo_prefixed_ok|]. intros _.
  split; [apply NoDup_singleton|]. intros c d [[= <- <-]|[]]. eauto.
Qed.

Lemma opened_table_witness :
  exists t, from_unloaded (fun _ => []) demo_shape demo_snapshot = Ok t /\ length t = 2%nat /\
    exists kt, t !! 0%nat = Some kt /\ le_levels (cell_entry kt (CellInteger 7)) = levels_single (mkWalPosition 7 10).
Proof.
  destruct (opened_table (fun _ => []) demo_shape demo_snapshot demo_snapshot_ok) as (t & He & Hl & Hv).
  exists t. split; [done|]. split; [done|]. destruct (Hv 0%nat _ _ _ eq_refl eq_refl) as (kt & Hkt & _ & _ & _ & Hc).
  exists kt. split; [done|]. rewrite (Hc (CellInteger 7)); [done|]. vm_compute. split; discriminate || reflexivity.
Defined.

