(* ===== verification/ReplayBuffer.v ===== *)
(** * Replay buffer

    [src/tidehunter/src/replay_buffer.rs]: the writes of every cell, accumulated
    during WAL replay.  A cell's buffer holds its writes in WAL order. *)

From Stdlib Require Import ZArith Lia List Sorting.Sorted.
From stdpp Require Import base tactics list gmap strings.
From S2P Require Import Prelude BTree Bytes Position Cell Layout KeyShape WalEntry Flat IndexTable.

Local Open Scope Z_scope.

(** ** [replay_buffer.rs] *)

Notation CellReplayBuffer := (list entry).

Inductive KsReplayBuffer :=
| KsInteger (cells : list CellReplayBuffer)
| KsBytes (cells : gmap (list Z) CellReplayBuffer).

Notation ReplayBuffer := (list KsReplayBuffer).

Definition ks_buffer_new (ksd : KeySpaceDesc) : KsReplayBuffer :=
  match ks_key_type ksd with
  | Uniform config => KsInteger (replicate (Z.to_nat (num_cells config ksd)) [])
  | PrefixedUniform _ => KsBytes ∅
  end.

Definition replay_buffer_new (shape : list KeySpaceDesc) : ReplayBuffer := List.map ks_buffer_new shape.

(** [self.cell_mut(ks, cell).push(e)] *)
Definition cell_push (b : ReplayBuffer) (ks : KeySpace) (cell : CellId) (e : entry) : outcome ReplayBuffer :=
  k ← expect (b !! Z.to_nat ks) "index out of bounds";
  match k, cell with
  | KsInteger v, CellInteger idx =>
      buf ← expect (v !! Z.to_nat idx) "index out of bounds";
      Ok (<[Z.to_nat ks := KsInteger (<[Z.to_nat idx := buf ++ [e]]> v)]> b)
  | KsBytes m, CellBytes c => Ok (<[Z.to_nat ks := KsBytes (<[c := default [] (m !! c) ++ [e]]> m)]> b)
  | _, _ => Panic "CellId variant does not match per-keyspace storage type"
  end.

Definition replay_insert (b : ReplayBuffer) (ks : KeySpace) (cell : CellId) (key : list Z) (position : WalPosition) :
    outcome ReplayBuffer :=
  cell_push b ks cell (key, iwp_new_modified position).

Definition replay_remove (b : ReplayBuffer) (ks : KeySpace) (cell : CellId) (key : list Z) (position : WalPosition) :
    outcome ReplayBuffer :=
  cell_push b ks cell (key, iwp_new_removed position).

Definition replay_drop_cells (b : ReplayBuffer) (ks : KeySpace) (from_cell to_cell : CellId) :
    outcome ReplayBuffer :=
  k ← expect (b !! Z.to_nat ks) "index out of bounds";
  match k, from_cell, to_cell with
  | KsInteger v, CellInteger from, CellInteger to =>
      let len := Z.of_nat (length v) in
      let end_ := Z.min to (Z.max 0 (len - 1)) in
      if (from <=? end_ + 1) && (end_ + 1 <=? len) then
        Ok (<[Z.to_nat ks := KsInteger (imap (fun i slot =>
               if (from <=? Z.of_nat i) && (Z.of_nat i <=? end_) then [] else slot) v)]> b)
      else Panic "slice index out of range"
  | KsBytes m, CellBytes from, CellBytes to =>
      Ok (<[Z.to_nat ks := KsBytes (filter (fun kv => kleb from kv.1 && kleb kv.1 to = false) m)]> b)
  | _, _, _ => Panic "CellId variant does not match per-keyspace storage type"
  end.

(** The cells drained from one key space's buffer. *)
Definition ks_cells (k : KsReplayBuffer) : list (CellId * CellReplayBuffer) :=
  match k with
  | KsInteger v =>
      List.filter (fun cb => match cb.2 with [] => false | _ => true end)
        (imap (fun i buf => (CellInteger (Z.of_nat i), buf)) v)
  | KsBytes m => List.map (fun kv => (CellBytes kv.1, kv.2)) (map_to_list m)
  end.

Definition take_ks (b : ReplayBuffer) (ks_idx : nat) :
    outcome (ReplayBuffer * list (CellId * CellReplayBuffer)) :=
  k ← expect (b !! ks_idx) "index out of bounds";
  Ok (<[ks_idx := KsBytes ∅]> b, ks_cells k).

(** ** What the buffer holds for a cell *)

Definition ks_buf (k : KsReplayBuffer) (c : CellId) : list entry :=
  match k, c with
  | KsInteger v, CellInteger i => if 0 <=? i then default [] (v !! Z.to_nat i) else []
  | KsBytes m, CellBytes c => default [] (m !! c)
  | _, _ => []
  end.

Definition cell_buf (b : ReplayBuffer) (ks : nat) (c : CellId) : list entry :=
  match b !! ks with Some k => ks_buf k c | None => [] end.

(** The storage variant and size [ReplayBuffer::new] chose. *)
Definition ks_buffer_ok (ksd : KeySpaceDesc) (k : KsReplayBuffer) : Prop :=
  match ks_key_type ksd, k with
  | Uniform u, KsInteger v => Z.of_nat (length v) = num_cells u ksd
  | PrefixedUniform _, KsBytes _ => True
  | _, _ => False
  end.

Section buffer.
Context (shape : list KeySpaceDesc).

Definition buffer_ok (b : ReplayBuffer) : Prop := Forall2 ks_buffer_ok shape b.

Lemma buffer_ok_new : buffer_ok (replay_buffer_new shape).
Proof.
  unfold buffer_ok, replay_buffer_new. induction shape as [|ksd l IH]; constructor; [|done].
  unfold ks_buffer_ok, ks_buffer_new. destruct (ks_key_type ksd); [|done].
  rewrite length_replicate. apply Z2Nat.id. unfold num_cells, u64_mul, wrap64. apply Z.mod_pos_bound. lia.
Qed.

Lemma cell_buf_new ks c : cell_buf (replay_buffer_new shape) ks c = [].
Proof.
  unfold cell_buf, replay_buffer_new. change (List.map ks_buffer_new shape) with (ks_buffer_new <$> shape).
  rewrite list_lookup_fmap. destruct (shape !! ks) as [ksd|]; [|done]. cbn [fmap option_fmap option_map].
  unfold ks_buffer_new. destruct (ks_key_type ksd), c as [i|x]; try done. unfold ks_buf.
  destruct (0 <=? i); [|done]. by destruct (replicate _ _ !! Z.to_nat i) as [l|] eqn:E;
    [apply lookup_replicate in E as [-> _]|].
Qed.

Lemma buffer_ok_lookup b ks ksd :
  buffer_ok b -> shape !! ks = Some ksd -> exists k, b !! ks = Some k /\ ks_buffer_ok ksd k.
Proof. intros Hb Hk. by apply (Forall2_lookup_l _ _ _ _ _ Hb Hk). Qed.

Lemma buffer_ok_insert b ks ksd k :
  buffer_ok b -> shape !! ks = Some ksd -> ks_buffer_ok ksd k -> buffer_ok (<[ks := k]> b).
Proof.
  intros Hb Hs Hk. unfold buffer_ok. rewrite <- (list_insert_id shape ks ksd Hs). by apply Forall2_insert.
Qed.

Lemma cell_buf_insert b ks ksd k ks' c :
  buffer_ok b -> shape !! ks = Some ksd ->
  cell_buf (<[ks := k]> b) ks' c =
    if bool_decide (ks' = ks) then ks_buf k c else cell_buf b ks' c.
Proof.
  intros Hb Hs. destruct (buffer_ok_lookup b ks ksd Hb Hs) as (k0 & Hk0 & _). apply lookup_lt_Some in Hk0.
  unfold cell_buf. destruct (bool_decide_reflect (ks' = ks)) as [->|Hne].
  - by rewrite list_lookup_insert_eq.
  - by rewrite list_lookup_insert_ne.
Qed.

Lemma cell_push_ok b ks ksd c e :
  buffer_ok b -> shape !! Z.to_nat ks = Some ksd -> cell_ok ksd c ->
  exists b', cell_push b ks c e = Ok b' /\ buffer_ok b' /\
    forall ks' c', cell_buf b' ks' c' =
      if bool_decide (ks' = Z.to_nat ks) && bool_decide (c' = c) then cell_buf b ks' c' ++ [e]
      else cell_buf b ks' c'.
Proof.
  intros Hb Hs Hc. destruct (buffer_ok_lookup b _ ksd Hb Hs) as (k & Hk & Hok).
  unfold cell_push. rewrite Hk. cbn [expect mbind outcome_bind].
  unfold cell_ok, ks_buffer_ok in *. destruct (ks_key_type ksd) as [u|cfg] eqn:Ht, k as [v|m], c as [i|x]; try done.
  - destruct (lookup_lt_is_Some_2 v (Z.to_nat i) ltac:(lia)) as [buf Hbuf]. rewrite Hbuf. cbn [expect mbind outcome_bind].
    eexists. split; [reflexivity|]. split.
    { eapply buffer_ok_insert; [done|done|]. unfold ks_buffer_ok. by rewrite Ht, length_insert. }
    intros ks' c'. rewrite (cell_buf_insert b _ ksd) by done.
    destruct (bool_decide_reflect (ks' = Z.to_nat ks)) as [->|]; [|done]. cbn [andb]. unfold cell_buf. rewrite Hk. unfold ks_buf.
    destruct c' as [i'|]; [|by destruct (bool_decide_reflect (CellBytes b0 = CellInteger i))].
    destruct (bool_decide_reflect (CellInteger i' = CellInteger i)) as [[= ->]|Hne].
    + destruct (Z.leb_spec 0 i); [|lia]. rewrite list_lookup_insert_eq by (apply lookup_lt_Some in Hbuf; lia).
      by rewrite Hbuf.
    + destruct (Z.leb_spec 0 i'); [|done]. rewrite list_lookup_insert_ne; [done|]. intros E. apply Hne. f_equal. lia.
  - eexists. split; [reflexivity|]. split.
    { eapply buffer_ok_insert; [done|done|]. unfold ks_buffer_ok. by rewrite Ht. }
    intros ks' c'. rewrite (cell_buf_insert b _ ksd) by done.
    destruct (bool_decide_reflect (ks' = Z.to_nat ks)) as [->|]; [|done]. cbn [andb]. unfold cell_buf. rewrite Hk. unfold ks_buf.
    destruct c' as [i'|x']; [by destruct (bool_decide_reflect (CellInteger i' = CellBytes x))|].
    destruct (bool_decide_reflect (CellBytes x' = CellBytes x)) as [[= ->]|Hne].
    + by rewrite lookup_insert_eq.
    + rewrite lookup_insert_ne; [done|]. congruence.
Qed.

Lemma drop_cells_ok b ks ksd from to :
  buffer_ok b -> shape !! Z.to_nat ks = Some ksd -> cell_ok ksd from -> range_ordered from to ->
  exists b', replay_drop_cells b ks from to = Ok b' /\ buffer_ok b' /\
    forall ks' c', cell_buf b' ks' c' =
      if bool_decide (ks' = Z.to_nat ks) && in_cells from to c' then [] else cell_buf b ks' c'.
Proof.
  intros Hb Hs Hc Hr. destruct (buffer_ok_lookup b _ ksd Hb Hs) as (k & Hk & Hok).
  unfold replay_drop_cells. rewrite Hk. cbn [expect mbind outcome_bind].
  unfold cell_ok, ks_buffer_ok in *.
  destruct (ks_key_type ksd) as [u|cfg] eqn:Ht, k as [v|m], from as [a|a], to as [z|z]; try done; cbn in Hr.
  - set (end_ := Z.min z (Z.max 0 (Z.of_nat (length v) - 1))).
    destruct (Z.leb_spec a (end_ + 1)); [|unfold end_ in *; lia].
    destruct (Z.leb_spec (end_ + 1) (Z.of_nat (length v))); [|unfold end_ in *; lia]. cbn [andb].
    eexists. split; [reflexivity|]. split.
    { eapply buffer_ok_insert; [done|done|]. unfold ks_buffer_ok. by rewrite Ht, length_imap. }
    intros ks' c'. rewrite (cell_buf_insert b _ ksd) by done.
    destruct (bool_decide_reflect (ks' = Z.to_nat ks)) as [->|]; [|done]. cbn [andb]. unfold cell_buf. rewrite Hk. unfold ks_buf.
    destruct c' as [i|]; [|done]. cbn [in_cells]. destruct (Z.leb_spec 0 i); [|by destruct (_ && _)].
    rewrite list_lookup_imap. destruct (v !! Z.to_nat i) as [l|] eqn:El; cbn; [|by destruct (_ && _)].
    apply lookup_lt_Some in El. rewrite Z2Nat.id by done.
    replace (i <=? end_) with (i <=? z); [by destruct (_ && _)|].
    destruct (Z.leb_spec i z), (Z.leb_spec i end_); try done; unfold end_ in *; lia.
  - eexists. split; [reflexivity|]. split.
    { eapply buffer_ok_insert; [done|done|]. unfold ks_buffer_ok. by rewrite Ht. }
    intros ks' c'. rewrite (cell_buf_insert b _ ksd) by done.
    destruct (bool_decide_reflect (ks' = Z.to_nat ks)) as [->|]; [|done]. cbn [andb]. unfold cell_buf. rewrite Hk. unfold ks_buf.
    destruct c' as [|x]; [done|]. cbn [in_cells]. rewrite map_lookup_filter.
    destruct (m !! x) as [l|]; cbn; [|by destruct (_ && _)].
    by destruct (kleb a x && kleb x z); cbn.
Qed.
End buffer.


(** ** Draining a key space *)

Lemma map_imap_fst {A B C} (g : nat -> C) (h : A -> B) (l : list A) (n : nat) :
  List.map fst (imap (fun i x => (g (n + i)%nat, h x)) l) = List.map g (seq n (length l)).
Proof.
  revert n. induction l as [|x l IH]; intros n; cbn; [done|]. rewrite Nat.add_0_r. f_equal.
  rewrite <- IH. f_equal. apply imap_ext. intros i y _. cbn. do 2 f_equal. lia.
Qed.

Lemma ks_cells_spec k :
  NoDup (List.map fst (ks_cells k)) /\
  (forall c buf, In (c, buf) (ks_cells k) -> buf = ks_buf k c) /\
  forall c, ks_buf k c <> [] -> In c (List.map fst (ks_cells k)).
Proof.
  destruct k as [v|m]; cbn [ks_cells].
  - split_and!.
    + apply NoDup_filter_fst.
      pose proof (map_imap_fst (fun i => CellInteger (Z.of_nat i)) (fun buf : CellReplayBuffer => buf) v 0) as E.
      cbn [Nat.add] in E. rewrite E.
      apply NoDup_fmap_2_strong; [|apply NoDup_ListNoDup, seq_NoDup]. intros x y _ _ [= Exy]. lia.
    + intros c buf [Hin _]%filter_In. apply list_elem_of_In, elem_of_lookup_imap in Hin as (i & b & [= -> ->] & Hb).
      unfold ks_buf. destruct (Z.leb_spec 0 (Z.of_nat i)); [|lia]. by rewrite Nat2Z.id, Hb.
    + intros c. unfold ks_buf. destruct c as [i|]; [|done]. destruct (Z.leb_spec 0 i); [|done].
      destruct (v !! Z.to_nat i) as [b|] eqn:E; [|done]. intros Hne. apply in_map_iff.
      exists (CellInteger i, b). split; [done|]. apply filter_In. split; [|by destruct b].
      apply list_elem_of_In, elem_of_lookup_imap. exists (Z.to_nat i), b. split; [by rewrite Z2Nat.id|done].
  - split_and!.
    + rewrite map_map. cbn. rewrite <- (map_map fst CellBytes). apply NoDup_fmap_2_strong; [by intros x y _ _ [= ->]|].
      apply NoDup_fst_map_to_list.
    + intros c buf (y & [= <- <-] & Hy)%in_map_iff. unfold ks_buf. destruct y as [x b].
      apply list_elem_of_In, elem_of_map_to_list in Hy. cbn. by rewrite Hy.
    + intros c. unfold ks_buf. destruct c as [|x]; [done|]. destruct (m !! x) as [b|] eqn:E; [|done]. intros _.
      apply in_map_iff. exists (CellBytes x, b). split; [done|]. apply in_map_iff. exists (x, b). split; [done|].
      by apply list_elem_of_In, elem_of_map_to_list.
Qed.
