(* ===== verification/Replay.v ===== *)
(** * WAL replay

    Crash recovery: [src/tidehunter/src/wal_replay.rs], the loop over the WAL
    frames, with batches applied inline and cut off when torn, and
    [LargeTable::apply_replay_buffer] of [src/tidehunter/src/large_table.rs],
    which turns the accumulated writes into index tables.

    The frames are what [WalIterator] yields up to the CRC error or end of log
    that stops the replay.  The large table has one context per key space of
    the shape, so [ks_context(ks)] is the shape's key space [ks]. *)

From Stdlib Require Import ZArith Lia List Sorting.Sorted.
From stdpp Require Import base tactics list gmap strings.
From S2P Require Import Prelude BTree Bytes Position Cell Layout KeyShape WalEntry Flat.
From S2P Require Import FlatFacts IndexTable IndexOps IndexTableFacts IndexPromote Levels.
From S2P Require Import TableEntry LargeTable Snapshot ReplayBuffer.

Local Open Scope Z_scope.

(** ** [wal_replay.rs] *)

Record ReplayState := mkReplay {
  rs_buffer : ReplayBuffer;
  rs_batch_remaining : Z;
  rs_batch_start_position : option Z;
  rs_table : LargeTable;
}.

Notation frame := (WalPosition * WalEntry)%type.

(** How the iterator stops: a CRC error or the end of the log, or another error. *)
Inductive wal_stop := StopReplay | StopError (msg : string).

(** [LargeTable::drop_cells_in_range] on the key space's table. *)
Definition table_drop_cells (t : LargeTable) (ks : KeySpace) (from_cell to_cell : CellId) : outcome LargeTable :=
  kt ← expect (t !! Z.to_nat ks) "index out of bounds";
  kt ← drop_cells_in_range kt from_cell to_cell;
  Ok (<[Z.to_nat ks := kt]> t).

Section replay.
Context (shape : list KeySpaceDesc) (blake2b256 : list Z -> list Z)
  (lz4_decompress : list Z -> Z -> option (list Z)).

(** A record or removal outside the [relocated] test: look the key space up,
    skip it if destroyed, reduce the key, find its cell, buffer the write. *)
Definition replay_write (b : ReplayBuffer) (ks : KeySpace) (k : list Z)
    (write : ReplayBuffer -> KeySpace -> CellId -> list Z -> WalPosition -> outcome ReplayBuffer)
    (position : WalPosition) : outcome ReplayBuffer :=
  ksd ← expect (shape !! Z.to_nat ks) "index out of bounds";
  if ks_destroyed ksd then Ok b
  else
    reduced_key ← reduce_key blake2b256 (ks_key_indexing ksd) k;
    cell ← cell_id ksd reduced_key;
    write b ks cell reduced_key position.

Fixpoint replay_inner (b : ReplayBuffer) (position : WalPosition) (inner : list WalEntry) : outcome ReplayBuffer :=
  match inner with
  | [] => Ok b
  | WalRecord ks key _ _ :: rest =>
      b ← replay_write b ks key replay_insert position; replay_inner b position rest
  | WalRemove ks key :: rest =>
      b ← replay_write b ks key replay_remove position; replay_inner b position rest
  | _ :: _ => Panic "Unexpected inner entry in CompressedBatch"
  end.

(** One iteration of the loop. *)
Definition replay_frame (st : ReplayState) (f : frame) : outcome ReplayState :=
  let '(position, entry) := f in
  if 0 <? rs_batch_remaining st then
    b ← (match entry with
         | WalRecord ks k _ relocated =>
             _ ← expect (shape !! Z.to_nat ks) "index out of bounds";
             if negb relocated then replay_write (rs_buffer st) ks k replay_insert position else Ok (rs_buffer st)
         | WalRemove ks k => replay_write (rs_buffer st) ks k replay_remove position
         | _ => Panic "encountered entry during replay, while expected record or tombstone"
         end);
    let remaining := rs_batch_remaining st - 1 in
    Ok (mkReplay b remaining (if remaining =? 0 then None else rs_batch_start_position st) (rs_table st))
  else
    match entry with
    | WalRecord ks k _ relocated =>
        if relocated then Ok st
        else
          b ← replay_write (rs_buffer st) ks k replay_insert position;
          Ok (mkReplay b (rs_batch_remaining st) (rs_batch_start_position st) (rs_table st))
    | WalIndex _ _ => Panic "Should not have index entries in wal"
    | WalRemove ks k =>
        b ← replay_write (rs_buffer st) ks k replay_remove position;
        Ok (mkReplay b (rs_batch_remaining st) (rs_batch_start_position st) (rs_table st))
    | WalBatchStart size =>
        _ ← assert_that (0 <? size) "WalEntry::BatchStart(0): writer invariant violated";
        Ok (mkReplay (rs_buffer st) size (Some (wp_offset position)) (rs_table st))
    | WalDropCells ks from_cell to_cell =>
        ksd ← expect (shape !! Z.to_nat ks) "index out of bounds";
        if ks_destroyed ksd then Ok st
        else
          b ← replay_drop_cells (rs_buffer st) ks from_cell to_cell;
          t ← table_drop_cells (rs_table st) ks from_cell to_cell;
          Ok (mkReplay b (rs_batch_remaining st) (rs_batch_start_position st) t)
    | WalCompressedBatch _ _ _ =>
        d ← decompress_wal_entry lz4_decompress entry;
        decompressed ← expect d "matched above";
        inner ← inner_iter decompressed;
        b ← replay_inner (rs_buffer st) position inner;
        Ok (mkReplay b (rs_batch_remaining st) (rs_batch_start_position st) (rs_table st))
    end.

Fixpoint replay_frames (st : ReplayState) (fs : list frame) : outcome ReplayState :=
  match fs with
  | [] => Ok st
  | f :: rest => st ← replay_frame st f; replay_frames st rest
  end.
End replay.

(** ** [LargeTable::apply_replay_buffer]

    The cells of a key space are independent, so the grouping by mutex and the
    parallel loop over the groups may visit them in any order; they are visited
    in the order the buffer yields them. *)

Fixpoint apply_cells (kt : KsTable) (cells : list (CellId * CellReplayBuffer)) (cutoff : Z) : outcome KsTable :=
  match cells with
  | [] => Ok kt
  | (cell, buf) :: rest =>
      kt ← kt_update kt cell (fun e => entry_apply_replay e buf cutoff);
      apply_cells kt rest cutoff
  end.

(** The loop over key spaces, [n] of them left from [ks_idx]. *)
Fixpoint apply_key_spaces (t : LargeTable) (b : ReplayBuffer) (ks_idx n : nat) (cutoff : Z) : outcome LargeTable :=
  match n with
  | O => Ok t
  | S n' =>
      '(b, by_cell) ← take_ks b ks_idx;
      match by_cell with
      | [] => apply_key_spaces t b (S ks_idx) n' cutoff
      | _ =>
          kt ← expect (t !! ks_idx) "index out of bounds";
          kt ← apply_cells kt by_cell cutoff;
          apply_key_spaces (<[ks_idx := kt]> t) b (S ks_idx) n' cutoff
      end
  end.

Definition apply_replay_buffer (t : LargeTable) (b : ReplayBuffer) (cutoff : Z) : outcome LargeTable :=
  apply_key_spaces t b 0 (length b) cutoff.

(** [replay_wal]: the table and the position the writer is rewound to if the
    last batch is torn, or the error that stopped the iterator. *)
Definition replay_wal (shape : list KeySpaceDesc) (blake2b256 : list Z -> list Z)
    (lz4_decompress : list Z -> Z -> option (list Z)) (t : LargeTable) (fs : list frame) (stop : wal_stop) :
    outcome (string + (LargeTable * option Z)) :=
  st ← replay_frames shape blake2b256 lz4_decompress (mkReplay (replay_buffer_new shape) 0 None t) fs;
  match stop with
  | StopError msg => Ok (inl msg)
  | StopReplay =>
      let cutoff := default u64_max (rs_batch_start_position st) in
      t ← apply_replay_buffer (rs_table st) (rs_buffer st) cutoff;
      Ok (inr (t, rs_batch_start_position st))
  end.

(** ** The reference: a log as a list of operations *)

Inductive replay_op :=
| OpWrite (ks : KeySpace) (cell : CellId) (e : entry)
| OpDrop (ks : KeySpace) (from to : CellId).

(** A cell's writes since it was last dropped, one operation at a time. *)
Definition op_cell (ks : nat) (c : CellId) (w : list entry) (op : replay_op) : list entry :=
  match op with
  | OpWrite ks' c' e => if bool_decide (ks = Z.to_nat ks') && bool_decide (c = c') then w ++ [e] else w
  | OpDrop ks' from to => if bool_decide (ks = Z.to_nat ks') && in_cells from to c then [] else w
  end.

Definition cell_writes (ops : list replay_op) (ks : nat) (c : CellId) : list entry :=
  fold_left (op_cell ks c) ops [].

Definition only_writes (ops : list replay_op) : Prop :=
  Forall (fun op => match op with OpWrite _ _ _ => True | OpDrop _ _ _ => False end) ops.

(** A cell's entry in the table before its writes are applied. *)
Definition op_entry (kt : KsTable) (ks : nat) (c : CellId) (e : LargeTableEntry) (op : replay_op) : LargeTableEntry :=
  match op with
  | OpWrite _ _ _ => e
  | OpDrop ks' from to => if bool_decide (ks = Z.to_nat ks') && in_cells from to c then entry_reset kt e else e
  end.

Definition cell_start (kt : KsTable) (ops : list replay_op) (ks : nat) (c : CellId) (e : LargeTableEntry) : LargeTableEntry :=
  fold_left (op_entry kt ks c) ops e.

(** The log as written: single frames and complete batches. *)
Inductive log_group :=
| GFrame (f : frame)
| GBatch (position : WalPosition) (fs : list frame).

Definition group_frames (g : log_group) : list frame :=
  match g with
  | GFrame f => [f]
  | GBatch position fs => (position, WalBatchStart (Z.of_nat (length fs))) :: fs
  end.

Definition log_frames (gs : list log_group) : list frame := concat (List.map group_frames gs).

Definition in_batch (f : frame) : Prop :=
  match f.2 with WalRecord _ _ _ _ | WalRemove _ _ => True | _ => False end.

Definition group_ok (g : log_group) : Prop :=
  match g with
  | GFrame f => match f.2 with WalBatchStart _ => False | _ => True end
  | GBatch _ fs => fs <> [] /\ Forall in_batch fs
  end.

Section ops.
Context (shape : list KeySpaceDesc) (blake2b256 : list Z -> list Z)
  (lz4_decompress : list Z -> Z -> option (list Z)).

Definition write_ops (ks : KeySpace) (k : list Z) (relocated : bool) (iwp : IndexWalPosition) :
    outcome (list replay_op) :=
  ksd ← expect (shape !! Z.to_nat ks) "index out of bounds";
  if relocated || ks_destroyed ksd then Ok []
  else
    key ← reduce_key blake2b256 (ks_key_indexing ksd) k;
    cell ← cell_id ksd key;
    Ok [OpWrite ks cell (key, iwp)].

Fixpoint inner_ops (position : WalPosition) (inner : list WalEntry) : outcome (list replay_op) :=
  match inner with
  | [] => Ok []
  | WalRecord ks key _ _ :: rest =>
      a ← write_ops ks key false (iwp_new_modified position); b ← inner_ops position rest; Ok (a ++ b)
  | WalRemove ks key :: rest =>
      a ← write_ops ks key false (iwp_new_removed position); b ← inner_ops position rest; Ok (a ++ b)
  | _ :: _ => Panic "Unexpected inner entry in CompressedBatch"
  end.

(** What one frame does. *)
Definition frame_ops (f : frame) : outcome (list replay_op) :=
  match f.2 with
  | WalRecord ks k _ relocated => write_ops ks k relocated (iwp_new_modified f.1)
  | WalRemove ks k => write_ops ks k false (iwp_new_removed f.1)
  | WalIndex _ _ => Panic "Should not have index entries in wal"
  | WalBatchStart _ => Ok []
  | WalDropCells ks from to =>
      ksd ← expect (shape !! Z.to_nat ks) "index out of bounds";
      Ok (if ks_destroyed ksd then [] else [OpDrop ks from to])
  | WalCompressedBatch codec len body =>
      d ← decompress_wal_entry lz4_decompress (WalCompressedBatch codec len body);
      decompressed ← expect d "matched above";
      inner ← inner_iter decompressed;
      inner_ops f.1 inner
  end.

Fixpoint frames_ops (fs : list frame) : outcome (list replay_op) :=
  match fs with
  | [] => Ok []
  | f :: rest => a ← frame_ops f; b ← frames_ops rest; Ok (a ++ b)
  end.

Definition op_ok (op : replay_op) : Prop :=
  match op with
  | OpWrite ks c _ => exists ksd, shape !! Z.to_nat ks = Some ksd /\ ks_destroyed ksd = false /\ cell_ok ksd c
  | OpDrop ks from to =>
      exists ksd, shape !! Z.to_nat ks = Some ksd /\ ks_destroyed ksd = false /\ cell_ok ksd from /\ range_ordered from to
  end.

Definition op_ks (op : replay_op) : nat := match op with OpWrite ks _ _ | OpDrop ks _ _ => Z.to_nat ks end.

(** *** The buffer follows the operations *)

Definition buffer_op (b : ReplayBuffer) (op : replay_op) : outcome ReplayBuffer :=
  match op with
  | OpWrite ks c e => cell_push b ks c e
  | OpDrop ks from to => replay_drop_cells b ks from to
  end.

Fixpoint buffer_ops (b : ReplayBuffer) (ops : list replay_op) : outcome ReplayBuffer :=
  match ops with [] => Ok b | op :: rest => b ← buffer_op b op; buffer_ops b rest end.

Definition table_op (t : LargeTable) (op : replay_op) : outcome LargeTable :=
  match op with
  | OpWrite _ _ _ => Ok t
  | OpDrop ks from to => table_drop_cells t ks from to
  end.

Fixpoint table_ops (t : LargeTable) (ops : list replay_op) : outcome LargeTable :=
  match ops with [] => Ok t | op :: rest => t ← table_op t op; table_ops t rest end.

Lemma table_ops_app t a c : table_ops t (a ++ c) = (t' ← table_ops t a; table_ops t' c).
Proof.
  revert t. induction a as [|op a IH]; intros t; cbn; [done|].
  destruct (table_op t op) as [t'|]; cbn; [apply IH|done].
Qed.

Lemma table_ops_writes t ops : only_writes ops -> table_ops t ops = Ok t.
Proof. induction 1 as [|[|] ops Hop _ IH]; by cbn. Qed.

Lemma buffer_ops_app b a c : buffer_ops b (a ++ c) = (b' ← buffer_ops b a; buffer_ops b' c).
Proof.
  revert b. induction a as [|op a IH]; intros b; cbn; [done|].
  destruct (buffer_op b op) as [b'|]; cbn; [apply IH|done].
Qed.

Lemma buffer_ops_ok b ops :
  buffer_ok shape b -> Forall op_ok ops ->
  exists b', buffer_ops b ops = Ok b' /\ buffer_ok shape b' /\
    forall ks c, cell_buf b' ks c = fold_left (op_cell ks c) ops (cell_buf b ks c).
Proof.
  intros Hb Hops. revert b Hb. induction Hops as [|op ops Hop _ IH]; intros b Hb; cbn; [by exists b|].
  assert (exists b', buffer_op b op = Ok b' /\ buffer_ok shape b' /\
            forall ks c, cell_buf b' ks c = op_cell ks c (cell_buf b ks c) op) as (b' & Hb' & Hok' & Hc).
  { destruct op as [ks c e|ks f t]; cbn [op_ok] in Hop.
    - destruct Hop as (ksd & Hk & _ & Hco). by eapply cell_push_ok.
    - destruct Hop as (ksd & Hk & _ & Hco & Hr). by eapply drop_cells_ok. }
  rewrite Hb'. cbn. destruct (IH b' Hok') as (b'' & Hb'' & Hok'' & Hc''). exists b''. do 2 (split; [done|]).
  intros ks c. by rewrite Hc'', Hc.
Qed.

(** Operations on other key spaces leave a key space's buffer alone. *)
Lemma buffer_ops_other ks ops : forall b b',
  Forall (fun op => op_ks op <> ks) ops -> buffer_ops b ops = Ok b' -> b' !! ks = b !! ks.
Proof.
  induction ops as [|op ops IH]; intros b b' Hf; cbn; [by intros [= <-]|]. inversion_clear Hf as [|?? Hop Hf'].
  destruct (buffer_op b op) as [b1|] eqn:E; [|done]. cbn. intros Hb. rewrite (IH b1 b' Hf' Hb).
  destruct op as [ks' c e|ks' f t]; cbn in *; [unfold cell_push in E|unfold replay_drop_cells in E];
    (destruct (b !! Z.to_nat ks') as [k|]; [|done]); cbn in E.
  - destruct k as [v|m], c as [i|x]; try done; [destruct (v !! Z.to_nat i); [|done]|]; injection E as <-;
      by rewrite list_lookup_insert_ne.
  - destruct k as [v|m], f as [i|x], t as [j|y]; try done; [destruct (_ && _); [|done]|]; injection E as <-;
      by rewrite list_lookup_insert_ne.
Qed.

Lemma replay_write_ops b ks k iwp position write ops :
  (forall b ks cell key, write b ks cell key position = cell_push b ks cell (key, iwp)) ->
  write_ops ks k false iwp = Ok ops ->
  replay_write shape blake2b256 b ks k write position = buffer_ops b ops.
Proof.
  intros Hw. unfold write_ops, replay_write. destruct (shape !! Z.to_nat ks) as [ksd|]; [|done]. cbn.
  destruct (ks_destroyed ksd); [by intros [= <-]|].
  destruct (reduce_key _ _ _) as [key|]; [|done]. cbn. destruct (cell_id ksd key) as [c|]; [|done].
  cbn. intros [= <-]. cbn. rewrite Hw. by destruct (cell_push _ _ _ _).
Qed.

Lemma replay_inner_ops b position inner ops :
  inner_ops position inner = Ok ops ->
  replay_inner shape blake2b256 b position inner = buffer_ops b ops.
Proof.
  revert b ops. induction inner as [|e inner IH]; intros b ops; [by intros [= <-]|].
  destruct e as [ks k v r| |ks k| | |]; try done; cbn [inner_ops replay_inner].
  1,2: destruct (write_ops ks k false _) as [a|] eqn:Ea; [|done]; cbn [mbind outcome_bind];
    destruct (inner_ops position inner) as [o|] eqn:Eo; [|done]; cbn [mbind outcome_bind]; intros [= <-];
    rewrite (replay_write_ops b ks k _ position _ a (fun _ _ _ _ => eq_refl) Ea), buffer_ops_app;
    destruct (buffer_ops b a); cbn [mbind outcome_bind]; [by apply IH|done].
Qed.

Lemma write_ops_writes ks k r iwp ops : write_ops ks k r iwp = Ok ops -> only_writes ops.
Proof.
  unfold write_ops. destruct (shape !! Z.to_nat ks) as [ksd|]; [|done]. cbn. destruct (r || _); [intros [= <-]; constructor|].
  destruct (reduce_key _ _ _); [|done]. cbn. destruct (cell_id _ _); [|done]. intros [= <-]. by repeat constructor.
Qed.

Lemma inner_ops_writes position inner ops : inner_ops position inner = Ok ops -> only_writes ops.
Proof.
  revert ops. induction inner as [|e inner IH]; intros ops; [intros [= <-]; constructor|].
  destruct e as [ks k v r| |ks k| | |]; try done; cbn [inner_ops].
  1,2: destruct (write_ops ks k false _) as [a|] eqn:Ea; [|done]; cbn [mbind outcome_bind];
    destruct (inner_ops position inner) as [o|] eqn:Eo; [|done]; intros [= <-];
    apply Forall_app; split; [exact (write_ops_writes _ _ _ _ _ Ea)|by apply IH].
Qed.

(** *** Frames *)

Lemma write_ops_relocated ks k iwp ops :
  write_ops ks k true iwp = Ok ops -> ops = [] /\ is_Some (shape !! Z.to_nat ks).
Proof. unfold write_ops. destruct (shape !! Z.to_nat ks); [|done]. by intros [= <-]. Qed.

Lemma replay_frame_single b t f ops b' t' :
  match f.2 with WalBatchStart _ => False | _ => True end ->
  frame_ops f = Ok ops -> buffer_ops b ops = Ok b' -> table_ops t ops = Ok t' ->
  replay_frame shape blake2b256 lz4_decompress (mkReplay b 0 None t) f = Ok (mkReplay b' 0 None t').
Proof.
  destruct f as [p e]. unfold frame_ops, replay_frame. cbn [fst snd rs_batch_remaining rs_buffer rs_table rs_batch_start_position].
  destruct e as [ks k v r|ks ix|ks k|size|ks f f'|c len body]; intros Hk Ho Hb Ht; try done; cbn [Z.ltb Z.compare].
  - rewrite (table_ops_writes t ops (write_ops_writes _ _ _ _ _ Ho)) in Ht. injection Ht as <-. destruct r.
    + destruct (write_ops_relocated _ _ _ _ Ho) as [-> _]. by injection Hb as <-.
    + by rewrite (replay_write_ops b ks k _ p _ ops (fun _ _ _ _ => eq_refl) Ho), Hb.
  - rewrite (table_ops_writes t ops (write_ops_writes _ _ _ _ _ Ho)) in Ht. injection Ht as <-.
    by rewrite (replay_write_ops b ks k _ p _ ops (fun _ _ _ _ => eq_refl) Ho), Hb.
  - destruct (shape !! Z.to_nat ks) as [ksd|]; [|done]. cbn in *. destruct (ks_destroyed ksd).
    + injection Ho as <-. injection Hb as <-. by injection Ht as <-.
    + injection Ho as <-. cbn in Hb, Ht. destruct (replay_drop_cells b ks f f') as [b0|]; [|done].
      destruct (table_drop_cells t ks f f') as [t0|]; [|done]. cbn in *. injection Hb as ->. by injection Ht as ->.
  - destruct (decompress_wal_entry _ _) as [d|]; [|done]. cbn in *. destruct (expect d _) as [dd|]; [|done]. cbn in *.
    destruct (inner_iter dd) as [inner|]; [|done]. cbn in *. rewrite (replay_inner_ops b p inner ops Ho), Hb. cbn.
    rewrite (table_ops_writes t ops (inner_ops_writes _ _ _ Ho)) in Ht. by injection Ht as <-.
Qed.

Lemma replay_frame_batch b n start t f ops b' :
  0 < n -> in_batch f -> frame_ops f = Ok ops -> buffer_ops b ops = Ok b' ->
  replay_frame shape blake2b256 lz4_decompress (mkReplay b n start t) f =
    Ok (mkReplay b' (n - 1) (if n - 1 =? 0 then None else start) t).
Proof.
  intros Hn Hin Ho Hb. destruct f as [p e]. unfold in_batch, frame_ops, replay_frame in *.
  cbn [fst snd rs_batch_remaining rs_buffer rs_table rs_batch_start_position] in *.
  destruct (Z.ltb_spec 0 n); [|lia]. destruct e as [ks k v r|ks ix|ks k|size|ks f f'|c len body]; try done.
  - destruct r; cbn [negb].
    + destruct (write_ops_relocated _ _ _ _ Ho) as [-> [ksd ->]]. injection Hb as <-. done.
    + assert (is_Some (shape !! Z.to_nat ks)) as [ksd ->].
      { unfold write_ops in Ho. by destruct (shape !! Z.to_nat ks). }
      cbn. by rewrite (replay_write_ops b ks k _ p _ ops (fun _ _ _ _ => eq_refl) Ho), Hb.
  - by rewrite (replay_write_ops b ks k _ p _ ops (fun _ _ _ _ => eq_refl) Ho), Hb.
Qed.

Lemma batch_frame_writes f ops : in_batch f -> frame_ops f = Ok ops -> only_writes ops.
Proof.
  destruct f as [p e]. unfold in_batch, frame_ops. cbn [fst snd]. destruct e; try done; intros _; apply write_ops_writes.
Qed.

(** A batch, complete or torn: [n] frames are expected, [fs] follow. *)
Lemma replay_batch fs b n start t ops b' :
  Forall in_batch fs -> 0 < n -> Z.of_nat (length fs) <= n ->
  frames_ops fs = Ok ops -> buffer_ops b ops = Ok b' ->
  replay_frames shape blake2b256 lz4_decompress (mkReplay b n start t) fs =
    Ok (mkReplay b' (n - Z.of_nat (length fs)) (if n - Z.of_nat (length fs) =? 0 then None else start) t) /\
  only_writes ops.
Proof.
  intros Hin. revert b n start ops. induction Hin as [|f fs Hf Hin IH]; intros b n start ops Hn Hl Ho Hb;
    cbn [frames_ops replay_frames length] in *.
  - injection Ho as <-. injection Hb as <-. change (Z.of_nat 0) with 0. rewrite Z.sub_0_r. split; [|constructor].
    destruct (Z.eqb_spec n 0); [lia|done].
  - destruct (frame_ops f) as [a|] eqn:Ea; [|done]. cbn in Ho. destruct (frames_ops fs) as [o|] eqn:Eo; [|done].
    injection Ho as <-. rewrite buffer_ops_app in Hb. destruct (buffer_ops b a) as [b1|] eqn:Eb; [|done]. cbn in Hb.
    rewrite (replay_frame_batch b n start t f a b1 Hn Hf Ea Eb). cbn [mbind outcome_bind].
    pose proof (batch_frame_writes f a Hf Ea) as Hwa. destruct fs as [|f' fs].
    + injection Eo as <-. injection Hb as <-. rewrite app_nil_r. by replace (n - Z.of_nat 1) with (n - 1) by lia.
    + cbn [length] in *. destruct (Z.eqb_spec (n - 1) 0); [lia|].
      destruct (IH b1 (n - 1) start o ltac:(lia) ltac:(lia) eq_refl Hb) as [-> Hwo]. split; [|by apply Forall_app].
      by replace (n - 1 - Z.of_nat (S (length fs))) with (n - Z.of_nat (S (S (length fs)))) by lia.
Qed.

(** *** Groups *)

Lemma replay_frames_app st a c :
  replay_frames shape blake2b256 lz4_decompress st (a ++ c) =
  (st' ← replay_frames shape blake2b256 lz4_decompress st a; replay_frames shape blake2b256 lz4_decompress st' c).
Proof.
  revert st. induction a as [|f a IH]; intros st; cbn; [done|].
  destruct (replay_frame _ _ _ st f) as [st'|]; cbn; [apply IH|done].
Qed.

Lemma frames_ops_app a c : frames_ops (a ++ c) = (x ← frames_ops a; y ← frames_ops c; Ok (x ++ y)).
Proof.
  induction a as [|f a IH]; cbn; [by destruct (frames_ops c)|]. destruct (frame_ops f); cbn; [|done].
  rewrite IH. destruct (frames_ops a); cbn; [|done]. destruct (frames_ops c); cbn; [|done]. by rewrite app_assoc.
Qed.

Lemma replay_group g b t ops b' t' :
  group_ok g -> frames_ops (group_frames g) = Ok ops -> buffer_ops b ops = Ok b' -> table_ops t ops = Ok t' ->
  replay_frames shape blake2b256 lz4_decompress (mkReplay b 0 None t) (group_frames g) = Ok (mkReplay b' 0 None t').
Proof.
  destruct g as [f|p fs]; cbn [group_ok group_frames]; intros Hg Ho Hb Ht.
  - cbn in Ho. destruct (frame_ops f) as [a|] eqn:Ea; [|done]. cbn in Ho. injection Ho as <-.
    rewrite app_nil_r in Hb, Ht. cbn. by rewrite (replay_frame_single b t f a b' t' Hg Ea Hb Ht).
  - destruct Hg as [Hne Hin]. cbn in Ho. destruct (frames_ops fs) as [o|] eqn:Eo; [|done]. injection Ho as <-.
    assert (0 < Z.of_nat (length fs)) as Hpos by (destruct fs; [done|cbn; lia]).
    cbn [replay_frames replay_frame rs_batch_remaining]. cbn [Z.ltb Z.compare]. unfold assert_that.
    destruct (Z.ltb_spec 0 (Z.of_nat (length fs))); [|lia]. cbn [mbind outcome_bind rs_buffer rs_table].
    destruct (replay_batch fs b (Z.of_nat (length fs)) (Some (wp_offset p)) t o b' Hin Hpos ltac:(lia) Eo Hb) as [-> Hw].
    rewrite Z.sub_diag. rewrite (table_ops_writes t o Hw) in Ht. by injection Ht as <-.
Qed.

Lemma replay_groups gs b t ops b' t' :
  Forall group_ok gs -> frames_ops (log_frames gs) = Ok ops -> buffer_ops b ops = Ok b' -> table_ops t ops = Ok t' ->
  replay_frames shape blake2b256 lz4_decompress (mkReplay b 0 None t) (log_frames gs) = Ok (mkReplay b' 0 None t').
Proof.
  intros Hg. revert b t ops. unfold log_frames.
  induction Hg as [|g gs Hg _ IH]; intros b t ops Ho Hb Ht; cbn in *.
  - injection Ho as <-. injection Hb as <-. by injection Ht as <-.
  - rewrite frames_ops_app in Ho. destruct (frames_ops (group_frames g)) as [a|] eqn:Ea; [|done]. cbn in Ho.
    destruct (frames_ops (concat _)) as [o|] eqn:Eo; [|done]. injection Ho as <-. rewrite buffer_ops_app in Hb.
    rewrite table_ops_app in Ht. destruct (buffer_ops b a) as [b1|] eqn:Eb; [|done]. cbn in Hb.
    destruct (table_ops t a) as [t1|] eqn:Et; [|done]. cbn in Ht. rewrite replay_frames_app.
    rewrite (replay_group g b t a b1 t1 Hg Ea Eb Et). cbn [mbind outcome_bind]. by apply (IH b1 t1 o).
Qed.
End ops.

(** ** The table during replay *)

(** A destroyed key space is an empty stub. *)
Definition ks_table_ok (ksd : KeySpaceDesc) (kt : KsTable) : Prop :=
  kt_ks kt = ksd /\ (ks_destroyed ksd = false -> kt_ok kt).

Definition table_ok (shape : list KeySpaceDesc) (t : LargeTable) : Prop := Forall2 ks_table_ok shape t.

Definition table_no_flush (t : LargeTable) : Prop := Forall no_flush t.

Lemma op_entry_reset_ext kt kt' ks c e op :
  kt_ks kt' = kt_ks kt -> kt_bloom_filter kt' = kt_bloom_filter kt -> op_entry kt' ks c e op = op_entry kt ks c e op.
Proof. intros Hk Hb. unfold op_entry, entry_reset. by rewrite Hk, Hb. Qed.

Lemma cell_start_ext kt kt' ops ks c e :
  kt_ks kt' = kt_ks kt -> kt_bloom_filter kt' = kt_bloom_filter kt -> cell_start kt' ops ks c e = cell_start kt ops ks c e.
Proof.
  intros Hk Hb. unfold cell_start. revert e. induction ops as [|op ops IH]; intros e; cbn; [done|].
  by rewrite (op_entry_reset_ext kt kt'), IH.
Qed.

(** The key space [ks] of [t'] is that of [t] with every cell given by [f]. *)
Definition ks_mapped (t t' : LargeTable) (ks : nat) (kt : KsTable) (f : CellId -> LargeTableEntry -> LargeTableEntry) : Prop :=
  exists kt', t' !! ks = Some kt' /\ kt_ks kt' = kt_ks kt /\ kt_bloom_filter kt' = kt_bloom_filter kt /\
    forall c, cell_ok (kt_ks kt) c -> cell_entry kt' c = f c (cell_entry kt c).

Lemma table_op_ok shape t op :
  table_ok shape t -> table_no_flush t -> op_ok shape op ->
  exists t', table_op t op = Ok t' /\ table_ok shape t' /\ table_no_flush t' /\
    forall ks kt, t !! ks = Some kt -> ks_mapped t t' ks kt (fun c e => op_entry kt ks c e op).
Proof.
  intros Ht Hn Hop. destruct op as [ks c e|ks from to]; cbn [table_op].
  { exists t. split_and!; [done|done|done|]. intros ks' kt Hkt. by exists kt. }
  destruct Hop as (ksd & Hs & Hd & Hc & Hr). unfold table_drop_cells.
  destruct (Forall2_lookup_l _ _ _ _ _ Ht Hs) as (kt & Hkt & Hk & Hok). specialize (Hok Hd).
  rewrite Hkt. cbn [expect mbind outcome_bind].
  rewrite <- Hk in Hc. destruct (drop_cells_in_range_resets kt from to Hok (Forall_lookup_1 _ _ _ _ Hn Hkt) Hc Hr)
    as (kt' & -> & Hn' & Hok' & Hk' & Hb' & Hv). cbn [mbind outcome_bind]. eexists. split; [reflexivity|]. split_and!.
  - unfold table_ok. rewrite <- (list_insert_id shape _ ksd Hs). apply Forall2_insert; [done|].
    split; [congruence|done].
  - by apply Forall_insert.
  - intros ks' kt0 Hkt0. unfold ks_mapped. destruct (decide (ks' = Z.to_nat ks)) as [->|Hne].
    + rewrite Hkt in Hkt0. injection Hkt0 as <-. exists kt'. rewrite list_lookup_insert_eq by (by apply lookup_lt_Some in Hkt).
      split_and!; [done|done|done|]. intros c Hc'. cbn [op_entry]. rewrite bool_decide_true by done. cbn [andb].
      destruct (Hv c Hc') as [Hy Hno]. destruct (in_cells from to c); [by apply Hy|by apply Hno].
    + exists kt0. rewrite list_lookup_insert_ne by done. split_and!; [done|done|done|]. intros c _. cbn [op_entry].
      by rewrite bool_decide_false.
Qed.

Lemma table_ops_ok shape ops : forall t,
  table_ok shape t -> table_no_flush t -> Forall (op_ok shape) ops ->
  exists t', table_ops t ops = Ok t' /\ table_ok shape t' /\ table_no_flush t' /\
    forall ks kt, t !! ks = Some kt -> ks_mapped t t' ks kt (cell_start kt ops ks).
Proof.
  induction ops as [|op ops IH]; intros t Ht Hn Hops; cbn [table_ops].
  { exists t. split_and!; [done|done|done|]. intros ks kt Hkt. by exists kt. }
  inversion_clear Hops as [|?? Hop Hops']. destruct (table_op_ok shape t op Ht Hn Hop) as (t1 & -> & Ht1 & Hn1 & H1).
  cbn [mbind outcome_bind]. destruct (IH t1 Ht1 Hn1 Hops') as (t2 & -> & Ht2 & Hn2 & H2). exists t2. split_and!; [done|done|done|].
  intros ks kt Hkt. destruct (H1 ks kt Hkt) as (kt1 & Hkt1 & Hk1 & Hb1 & Hv1).
  destruct (H2 ks kt1 Hkt1) as (kt2 & Hkt2 & Hk2 & Hb2 & Hv2). exists kt2. split_and!; [done|congruence|congruence|].
  intros c Hc. rewrite Hv2 by (by rewrite Hk1). rewrite Hv1 by done. unfold cell_start at 2. cbn [fold_left].
  by apply cell_start_ext.
Qed.

(** ** Applying the buffer to the table *)

(** Applying [buf] to any entry gives an entry in relation [R] to it. *)
Definition applies (cutoff : Z) (buf : list entry) (R : LargeTableEntry -> LargeTableEntry -> Prop) : Prop :=
  forall e, exists e', entry_apply_replay e buf cutoff = Ok e' /\ R e e'.

Lemma apply_cells_ok R cutoff cells : forall kt,
  kt_ok kt -> NoDup (List.map fst cells) ->
  (forall c buf, In (c, buf) cells -> cell_ok (kt_ks kt) c /\ applies cutoff buf (R c)) ->
  exists kt', apply_cells kt cells cutoff = Ok kt' /\ kt_ok kt' /\ kt_ks kt' = kt_ks kt /\
    forall c, cell_ok (kt_ks kt) c ->
      if bool_decide (c ∈ List.map fst cells) then R c (cell_entry kt c) (cell_entry kt' c)
      else cell_entry kt' c = cell_entry kt c.
Proof.
  induction cells as [|[c0 buf] cells IH]; intros kt Hkt Hnd Happ; cbn [apply_cells].
  { exists kt. split_and!; [done|done|done|]. intros c _. by rewrite bool_decide_false by (by cbn; intros ?%elem_of_nil). }
  cbn [List.map fst] in *. apply NoDup_cons in Hnd as [Hn Hnd].
  destruct (Happ c0 buf (or_introl eq_refl)) as [Hc0 Ha0]. destruct (Ha0 (cell_entry kt c0)) as (e' & He & HR).
  destruct (kt_update_ok kt c0 (fun e => entry_apply_replay e buf cutoff) e' Hkt Hc0 He) as (kt1 & -> & Hok1 & Hk1 & _ & Hv1).
  cbn [mbind outcome_bind]. destruct (IH kt1 Hok1 Hnd) as (kt' & Ht & Hok' & Hk' & Hr).
  { intros c b Hin. rewrite Hk1. apply Happ. by right. }
  exists kt'. split_and!; [done|done|congruence|]. intros c Hc. rewrite Hk1 in Hr. specialize (Hr c Hc). rewrite (Hv1 c Hc) in Hr.
  destruct (decide (c = c0)) as [->|Hne].
  - rewrite (bool_decide_true (c0 ∈ c0 :: _)) by (by left). rewrite (bool_decide_false (c0 ∈ _)) in Hr by done.
    rewrite (bool_decide_true (c0 = c0)) in Hr by done. by rewrite Hr.
  - rewrite (bool_decide_false (c = c0)) in Hr by done. destruct (decide (c ∈ List.map fst cells)) as [Hin|Hin].
    + rewrite bool_decide_true in Hr by done. by rewrite bool_decide_true by (by right).
    + rewrite bool_decide_false in Hr by done. rewrite bool_decide_false; [done|]. by intros [?|?]%elem_of_cons.
Qed.

Lemma ks_cells_ok ksd k c buf : ks_buffer_ok ksd k -> In (c, buf) (ks_cells k) -> cell_ok ksd c.
Proof.
  unfold ks_buffer_ok, cell_ok. destruct (ks_key_type ksd), k as [v|m]; try done; cbn [ks_cells]; intros Hk Hin.
  - apply filter_In in Hin as [Hin _]. apply list_elem_of_In, elem_of_lookup_imap in Hin as (i & b & [= -> ->] & Hb).
    apply lookup_lt_Some in Hb. lia.
  - by apply in_map_iff in Hin as (y & [= <- <-] & _).
Qed.

(** One key space: every cell gets what the buffer holds for it. *)
Lemma apply_ks_ok R cutoff kt k :
  kt_ok kt -> ks_buffer_ok (kt_ks kt) k ->
  (forall c, cell_ok (kt_ks kt) c -> applies cutoff (ks_buf k c) (R c)) ->
  exists kt', apply_cells kt (ks_cells k) cutoff = Ok kt' /\ kt_ok kt' /\ kt_ks kt' = kt_ks kt /\
    forall c, cell_ok (kt_ks kt) c -> R c (cell_entry kt c) (cell_entry kt' c).
Proof.
  intros Hkt Hb Happ. destruct (ks_cells_spec k) as (Hnd & Hbuf & Hall).
  destruct (apply_cells_ok R cutoff (ks_cells k) kt Hkt Hnd) as (kt' & He & Hok & Hk & Hv).
  { intros c buf Hin. pose proof (ks_cells_ok _ _ _ _ Hb Hin). split; [done|]. rewrite (Hbuf c buf Hin). by apply Happ. }
  exists kt'. split_and!; [done|done|done|]. intros c Hc. specialize (Hv c Hc).
  destruct (bool_decide_reflect (c ∈ List.map fst (ks_cells k))) as [|Hn]; [done|]. rewrite Hv.
  destruct (Happ c Hc (cell_entry kt c)) as (e' & He' & HR). destruct (ks_buf k c) as [|x l] eqn:E.
  - unfold entry_apply_replay in He'. destruct (cutoff =? u64_max); cbn in He'; by injection He' as <-.
  - destruct Hn. apply list_elem_of_In, Hall. by rewrite E.
Qed.

Lemma apply_key_spaces_ok shape (R : nat -> CellId -> LargeTableEntry -> LargeTableEntry -> Prop) cutoff n : forall ks t b,
  table_ok shape t -> (ks + n)%nat = length shape ->
  (forall ks' ksd, (ks <= ks')%nat -> shape !! ks' = Some ksd -> exists k, b !! ks' = Some k /\
     if ks_destroyed ksd then ks_cells k = [] /\ forall c e, R ks' c e e
     else ks_buffer_ok ksd k /\ forall c, cell_ok ksd c -> applies cutoff (ks_buf k c) (R ks' c)) ->
  exists t', apply_key_spaces t b ks n cutoff = Ok t' /\ table_ok shape t' /\
    forall ks' kt, t !! ks' = Some kt -> exists kt', t' !! ks' = Some kt' /\ kt_ks kt' = kt_ks kt /\
      forall c, cell_ok (kt_ks kt) c ->
        if (ks <=? ks')%nat then R ks' c (cell_entry kt c) (cell_entry kt' c) else cell_entry kt' c = cell_entry kt c.
Proof.
  induction n as [|n IH]; intros ks t b Ht Hl Happ; cbn [apply_key_spaces].
  { exists t. split_and!; [done|done|]. intros ks' kt Hkt. exists kt. split_and!; [done|done|]. intros c _.
    apply lookup_lt_Some in Hkt. rewrite <- (Forall2_length _ _ _ Ht) in Hkt. by destruct (Nat.leb_spec ks ks'); [lia|]. }
  destruct (lookup_lt_is_Some_2 shape ks ltac:(lia)) as [ksd Hksd]. destruct (Happ ks ksd ltac:(lia) Hksd) as (k & Hk & Ha).
  destruct (Forall2_lookup_l _ _ _ _ _ Ht Hksd) as (kt & Hkt & Ekt & Hok). subst ksd.
  unfold take_ks. rewrite Hk. cbn [expect mbind outcome_bind].
  assert (exists kt1, apply_cells kt (ks_cells k) cutoff = Ok kt1 /\ ks_table_ok (kt_ks kt) kt1 /\
    forall c, cell_ok (kt_ks kt) c -> R ks c (cell_entry kt c) (cell_entry kt1 c)) as (kt1 & He1 & Hok1 & Hv1).
  { destruct (ks_destroyed (kt_ks kt)) eqn:Ed.
    - destruct Ha as [-> HR]. exists kt. split; [done|]. split; [split; [done|by rewrite Ed]|]. intros c _. apply HR.
    - destruct Ha as [Hb Ha]. destruct (apply_ks_ok (R ks) cutoff kt k (Hok eq_refl) Hb Ha) as (kt1 & He1 & Hok1 & Hk1 & Hv1).
      exists kt1. split; [done|]. split; [|done]. by split. }
  destruct (IH (S ks) (<[ks := kt1]> t) (<[ks := KsBytes ∅]> b)) as (t' & Ht' & Hok' & Hr'); [|lia| |].
  { unfold table_ok. rewrite <- (list_insert_id shape _ _ Hksd). by apply Forall2_insert. }
  { intros ks' ksd Hks Hs. rewrite list_lookup_insert_ne by lia. apply Happ; [lia|done]. }
  exists t'. split_and!; [|done|].
  - destruct (ks_cells k) as [|x l] eqn:Ec; [|by rewrite Hkt; cbn [expect mbind outcome_bind]; rewrite He1].
    cbn in He1. injection He1 as <-. by rewrite list_insert_id in Ht'.
  - intros ks' kt0 Hkt0. destruct (decide (ks' = ks)) as [->|Hne].
    + rewrite Hkt in Hkt0. injection Hkt0 as <-. destruct (Hr' ks kt1) as (kt' & Hl' & Hk' & Hv').
      { rewrite list_lookup_insert_eq; [done|]. by apply lookup_lt_Some in Hkt. }
      destruct Hok1 as [Hk1 _]. exists kt'. split_and!; [done|congruence|]. intros c Hc. rewrite Nat.leb_refl.
      rewrite Hk1 in Hv'. specialize (Hv' c Hc). destruct (Nat.leb_spec (S ks) ks); [lia|]. rewrite Hv'. by apply Hv1.
    + destruct (Hr' ks' kt0) as (kt' & Hl' & Hk' & Hv'); [by rewrite list_lookup_insert_ne|].
      exists kt'. split_and!; [done|done|]. intros c Hc. specialize (Hv' c Hc).
      destruct (Nat.leb_spec (S ks) ks'), (Nat.leb_spec ks ks'); try lia; done.
Qed.

(** Nothing is buffered for a key space no operation is on. *)
Lemma ks_cells_new ksd : ks_cells (ks_buffer_new ksd) = [].
Proof.
  unfold ks_buffer_new. destruct (ks_key_type ksd) as [u|cfg]; cbn; [|done].
  assert (forall l : list (CellId * CellReplayBuffer), Forall (fun cb => cb.2 = []) l ->
    List.filter (fun cb => match cb.2 with [] => false | _ => true end) l = []) as Hall.
  { induction 1 as [|[c w] l Hw _ IH]; cbn in *; [done|]. by subst w. }
  apply Hall, Forall_forall. intros [c w] (i & x & [= -> ->] & Hx)%elem_of_lookup_imap. by apply lookup_replicate in Hx as [-> _].
Qed.

Lemma cell_writes_other ops ks c w : Forall (fun op => op_ks op <> ks) ops -> fold_left (op_cell ks c) ops w = w.
Proof.
  intros Hf. revert w. induction Hf as [|op ops Hop _ IH]; intros w; cbn; [done|].
  destruct op as [ks' c' e|ks' f t]; cbn in *; by rewrite bool_decide_false by congruence.
Qed.

Lemma op_ok_other shape ks ksd ops :
  shape !! ks = Some ksd -> ks_destroyed ksd = true -> Forall (op_ok shape) ops -> Forall (fun op => op_ks op <> ks) ops.
Proof.
  intros Hs Hd Hf. eapply Forall_impl; [exact Hf|]. intros [ks' c e|ks' f t]; cbn; intros (ksd' & Hs' & Hd' & _) E;
    rewrite E, Hs in Hs'; congruence.
Qed.

(** ** Recovery *)

(** The end of a log cut inside a batch: [BatchStart(n)] and fewer than [n]
    frames after it. *)
Definition tail_frames (torn : option (WalPosition * Z * list frame)) : list frame :=
  match torn with None => [] | Some (p, n, fs) => (p, WalBatchStart n) :: fs end.

Definition torn_ok (torn : option (WalPosition * Z * list frame)) : Prop :=
  match torn with None => True | Some (_, n, fs) => Forall in_batch fs /\ Z.of_nat (length fs) < n end.

Definition torn_position (torn : option (WalPosition * Z * list frame)) : option Z :=
  option_map (fun x => wp_offset x.1.1) torn.

(** Two writes of one key are at increasing offsets. *)
Definition op_before (a b : replay_op) : Prop :=
  match a, b with
  | OpWrite ks _ e, OpWrite ks' _ e' =>
      Z.to_nat ks = Z.to_nat ks' -> e.1 = e'.1 -> iwp_offset e.2 < iwp_offset e'.2
  | _, _ => True
  end.

Definition frame_before (f g : frame) : Prop := wp_offset f.1 < wp_offset g.1.

Lemma StronglySorted_snoc {A} (R : A -> A -> Prop) (a : list A) x :
  StronglySorted R a -> Forall (fun y => R y x) a -> StronglySorted R (a ++ [x]).
Proof.
  induction 1 as [|y a Hs IH Hf]; cbn; [repeat constructor|]. inversion_clear 1.
  constructor; [auto|]. apply Forall_app. split; [done|]. by constructor.
Qed.

Lemma cell_writes_spec ops ks c :
  StronglySorted op_before ops ->
  key_ascending (cell_writes ops ks c) /\
  forall e, In e (cell_writes ops ks c) -> exists ks', In (OpWrite ks' c e) ops /\ Z.to_nat ks' = ks.
Proof.
  induction ops as [|op ops IH] using rev_ind; intros Hs; [split; [constructor|done]|].
  apply StronglySorted_app_inv in Hs as (Hs & _ & Hlast). destruct (IH Hs) as [Ha Hin].
  unfold cell_writes in *. rewrite fold_left_app. cbn [fold_left]. set (w := fold_left _ ops []) in *.
  assert (forall e, In e w -> exists ks', In (OpWrite ks' c e) (ops ++ [op]) /\ Z.to_nat ks' = ks) as Hin'.
  { intros e He. destruct (Hin e He) as (ks' & H & E). exists ks'. split; [|done]. apply in_or_app. by left. }
  destruct op as [ks1 c1 e1|ks1 f t]; cbn [op_cell].
  - destruct (bool_decide_reflect (ks = Z.to_nat ks1)) as [Ek|]; cbn [andb]; [|done].
    destruct (bool_decide_reflect (c = c1)) as [Ec|]; [|done]. subst c1. split.
    + apply StronglySorted_snoc; [done|]. apply List.Forall_forall. intros e He Hkey.
      destruct (Hin e He) as (ks' & H & E). apply (Hlast _ _ H (or_introl eq_refl)); [congruence|done].
    + intros e [He|[<-|[]]]%in_app_or; [auto|]. exists ks1. split; [|done]. apply in_or_app. right. by left.
  - destruct (_ && _); [split; [constructor|done]|done].
Qed.

Lemma fold_cell_app ops ks c w :
  only_writes ops -> fold_left (op_cell ks c) ops w = w ++ cell_writes ops ks c.
Proof.
  intros Hd. unfold cell_writes. revert w. induction Hd as [|op ops Hop _ IH]; intros w; [by rewrite app_nil_r|].
  destruct op as [ks1 c1 e1|]; [|done]. cbn [fold_left op_cell]. destruct (_ && _); [|apply IH].
  rewrite IH, (IH ([] ++ [e1])). by rewrite <- app_assoc.
Qed.

Section recovery.
Context (shape : list KeySpaceDesc) (blake2b256 : list Z -> list Z)
  (lz4_decompress : list Z -> Z -> option (list Z)).

(** The operations of a frame are on live key spaces; its writes are at the
    frame's position and in the cell of their key. *)
Definition op_at (p : WalPosition) (op : replay_op) : Prop :=
  match op with
  | OpWrite ks c e => iwp_offset e.2 = wp_offset p /\
      exists ksd, shape !! Z.to_nat ks = Some ksd /\ ks_destroyed ksd = false /\ cell_id ksd e.1 = Ok c
  | OpDrop ks _ _ => exists ksd, shape !! Z.to_nat ks = Some ksd /\ ks_destroyed ksd = false
  end.

Lemma write_ops_at ks k r iwp p ops :
  iwp_offset iwp = wp_offset p -> write_ops shape blake2b256 ks k r iwp = Ok ops -> Forall (op_at p) ops.
Proof.
  intros Hp. unfold write_ops. destruct (shape !! Z.to_nat ks) as [ksd|] eqn:Hs; [|done]. cbn.
  destruct (r || _) eqn:Er; [by intros [= <-]|]. apply orb_false_iff in Er as [_ Hd].
  destruct (reduce_key _ _ _) as [key|]; [|done]. cbn. destruct (cell_id _ _) eqn:Ec; [|done]. intros [= <-].
  constructor; [|constructor]. split; [done|]. eauto.
Qed.

Lemma inner_ops_at p inner ops : inner_ops shape blake2b256 p inner = Ok ops -> Forall (op_at p) ops.
Proof.
  revert ops. induction inner as [|e inner IH]; intros ops; [by intros [= <-]|].
  destruct e as [ks k v r| |ks k| | |]; try done; cbn [inner_ops].
  1,2: destruct (write_ops _ _ ks k false _) as [a|] eqn:Ea; [|done]; cbn [mbind outcome_bind];
    destruct (inner_ops _ _ p inner) as [o|] eqn:Eo; [|done]; intros [= <-]; apply Forall_app; split;
    [eapply write_ops_at; [|exact Ea]; done|by apply IH].
Qed.

Lemma frame_ops_at f ops : frame_ops shape blake2b256 lz4_decompress f = Ok ops -> Forall (op_at f.1) ops.
Proof.
  unfold frame_ops. destruct f as [p [ks k v r|ks ix|ks k|size|ks f t|c len body]]; cbn [fst snd].
  - by apply write_ops_at.
  - done.
  - by apply write_ops_at.
  - by intros [= <-].
  - destruct (shape !! Z.to_nat ks) as [ksd|] eqn:Hs; [|done]. cbn. destruct (ks_destroyed ksd) eqn:Hd; intros [= <-];
      constructor; [cbn; eauto|constructor].
  - destruct (decompress_wal_entry _ _) as [d|]; [|done]. cbn. destruct (expect d _) as [dd|]; [|done]. cbn.
    destruct (inner_iter dd); [|done]. cbn. apply inner_ops_at.
Qed.

Lemma frames_ops_at fs ops op :
  frames_ops shape blake2b256 lz4_decompress fs = Ok ops -> In op ops -> exists f, In f fs /\ op_at f.1 op.
Proof.
  revert ops. induction fs as [|f fs IH]; intros ops; cbn; [by intros [= <-]|].
  destruct (frame_ops _ _ _ f) as [a|] eqn:Ea; [|done]. cbn. destruct (frames_ops _ _ _ fs) as [o|]; [|done].
  intros [= <-] [Hin|Hin]%in_app_or.
  - exists f. split; [by left|]. apply frame_ops_at in Ea. rewrite List.Forall_forall in Ea. by apply Ea.
  - destruct (IH o eq_refl Hin) as (g & Hg & Hat). eauto.
Qed.

(** A frame does not write a key twice: only a compressed batch has more than one
    write, and the writer keeps the last write of a key. *)
Definition op_distinct (a b : replay_op) : Prop :=
  match a, b with
  | OpWrite ks _ e, OpWrite ks' _ e' => Z.to_nat ks = Z.to_nat ks' -> e.1 <> e'.1
  | _, _ => True
  end.

Definition frame_distinct (f : frame) : Prop :=
  forall ops, frame_ops shape blake2b256 lz4_decompress f = Ok ops -> StronglySorted op_distinct ops.

Lemma frames_ops_sorted fs : forall ops,
  StronglySorted frame_before fs -> Forall frame_distinct fs ->
  frames_ops shape blake2b256 lz4_decompress fs = Ok ops -> StronglySorted op_before ops.
Proof.
  induction fs as [|f fs IH]; intros ops Hs Hd; cbn; [intros [= <-]; constructor|].
  apply StronglySorted_inv in Hs as [Hs Hf]. inversion_clear Hd as [|?? Hdf Hds].
  destruct (frame_ops _ _ _ f) as [a|] eqn:Ea; [|done]. cbn. destruct (frames_ops _ _ _ fs) as [o|] eqn:Eo; [|done].
  intros [= <-]. apply StronglySorted_app_intro; [|by apply IH|].
  - specialize (Hdf a Ea). clear -Hdf. induction Hdf as [|x l Hs IH Hf]; constructor; [done|].
    eapply Forall_impl; [exact Hf|]. intros y Hxy. destruct x, y; try done. cbn in *. intros E1 E2. by destruct (Hxy E1).
  - intros x y Hx Hy. apply frame_ops_at in Ea. rewrite List.Forall_forall in Ea. specialize (Ea x Hx).
    destruct (frames_ops_at fs o y Eo Hy) as (g & Hg & Hat). rewrite List.Forall_forall in Hf. specialize (Hf g Hg).
    unfold frame_before in Hf. destruct x, y; try done. cbn in *. destruct Ea as [Ea _], Hat as [Hat _]. intros _ _. lia.
Qed.

(** What the log's operations have to satisfy: keys are bytes, and a drop has the
    cells of its key space in order. *)
Definition op_input_ok (op : replay_op) : Prop :=
  match op with
  | OpWrite _ _ e => Forall is_u8 e.1
  | OpDrop ks from to => exists ksd, shape !! Z.to_nat ks = Some ksd /\ cell_ok ksd from /\ range_ordered from to
  end.

Lemma frames_ops_ok fs ops :
  (forall ks ksd, shape !! ks = Some ksd -> ks_destroyed ksd = false -> ks_ok ksd) ->
  frames_ops shape blake2b256 lz4_decompress fs = Ok ops -> Forall op_input_ok ops -> Forall (op_ok shape) ops.
Proof.
  intros Hks Ho Hin. rewrite !List.Forall_forall in *. intros op Hop. specialize (Hin op Hop).
  destruct (frames_ops_at fs ops op Ho Hop) as (f & _ & Hat). destruct op as [ks c e|ks from to]; cbn in *.
  - destruct Hat as (_ & ksd & Hs & Hd & Hc). exists ksd. split_and!; [done|done|]. eapply cell_id_cell_ok; eauto.
  - destruct Hat as (ksd & Hs & Hd), Hin as (ksd' & Hs' & Hc & Hr). assert (ksd' = ksd) as -> by congruence. eauto.
Qed.

Lemma replay_torn torn b t ops b' :
  torn_ok torn -> frames_ops shape blake2b256 lz4_decompress (tail_frames torn) = Ok ops -> buffer_ops b ops = Ok b' ->
  only_writes ops /\ exists n,
    replay_frames shape blake2b256 lz4_decompress (mkReplay b 0 None t) (tail_frames torn) =
      Ok (mkReplay b' n (torn_position torn) t).
Proof.
  destruct torn as [[[p n] fs]|]; cbn [torn_ok tail_frames].
  2: { intros _ [= <-] [= <-]. split; [constructor|]. by exists 0. }
  intros [Hin Hn] Ho Hb. cbn in Ho. destruct (frames_ops _ _ _ fs) as [o|] eqn:Eo; [|done]. injection Ho as <-.
  assert (0 < n) as Hpos by lia. cbn [replay_frames replay_frame rs_batch_remaining]. cbn [Z.ltb Z.compare]. unfold assert_that.
  destruct (Z.ltb_spec 0 n); [|lia]. cbn [mbind outcome_bind rs_buffer rs_table].
  destruct (replay_batch shape blake2b256 lz4_decompress fs b n (Some (wp_offset p)) t o b' Hin Hpos ltac:(lia) Eo Hb) as [-> Hw].
  split; [done|]. destruct (Z.eqb_spec (n - Z.of_nat (length fs)) 0); [lia|]. eauto.
Qed.

(** The writes of a torn batch are at or above the cutoff, all others below. *)
Lemma cutoff_splits gs torn ops tops ks c :
  let cutoff := default u64_max (torn_position torn) in
  StronglySorted frame_before (log_frames gs ++ tail_frames torn) ->
  Forall (fun f => wp_offset f.1 < u64_max) (log_frames gs ++ tail_frames torn) ->
  Forall frame_distinct (log_frames gs ++ tail_frames torn) ->
  frames_ops shape blake2b256 lz4_decompress (log_frames gs) = Ok ops ->
  frames_ops shape blake2b256 lz4_decompress (tail_frames torn) = Ok tops ->
  key_ascending (cell_writes ops ks c) /\
  Forall (fun w => iwp_offset w.2 < cutoff) (cell_writes ops ks c) /\
  Forall (fun w => cutoff <= iwp_offset w.2) (cell_writes tops ks c) /\
  (cutoff = u64_max -> cell_writes tops ks c = []).
Proof.
  intros cutoff Hs Hu Hd Ho Ht. apply StronglySorted_app_inv in Hs as (Hs & Hst & Hcross).
  apply Forall_app in Hd as [Hd Hdt]. rewrite List.Forall_forall in Hu.
  destruct (cell_writes_spec ops ks c (frames_ops_sorted _ _ Hs Hd Ho)) as [Hasc Hin].
  destruct (cell_writes_spec tops ks c (frames_ops_sorted _ _ Hst Hdt Ht)) as [_ Hint].
  split; [done|]. split_and!.
  - apply List.Forall_forall. intros w Hw. destruct (Hin w Hw) as (ks' & Hop & _).
    destruct (frames_ops_at _ _ _ Ho Hop) as (f & Hf & [Hat _]). unfold cutoff.
    destruct torn as [[[p n] fs]|]; cbn.
    + specialize (Hcross f _ Hf (or_introl eq_refl)). unfold frame_before in Hcross. cbn in Hcross. lia.
    + rewrite Hat. apply Hu, in_or_app. by left.
  - apply List.Forall_forall. intros w Hw. destruct (Hint w Hw) as (ks' & Hop & _).
    destruct (frames_ops_at _ _ _ Ht Hop) as (f & Hf & [Hat _]). unfold cutoff.
    destruct torn as [[[p n] fs]|]; [|done]. cbn. destruct Hf as [<-|Hf]; [cbn in Hat; lia|].
    apply StronglySorted_inv in Hst as [_ Hst]. rewrite List.Forall_forall in Hst. specialize (Hst f Hf).
    unfold frame_before in Hst. cbn in Hst. lia.
  - unfold cutoff. destruct torn as [[[p n] fs]|]; cbn; [|cbn in Ht; by injection Ht as <-].
    intros E. specialize (Hu (p, WalBatchStart n)). cbn in Hu. rewrite E in Hu.
    assert (u64_max < u64_max); [|lia]. apply Hu, in_or_app. right. by left.
Qed.
End recovery.

(** C27. Crash recovery.  Take a log of single frames and complete batches,
    possibly cut inside a last batch, at increasing offsets.  [replay_wal]
    returns, with the offset of the torn batch as the position to rewind the
    writer to; the writes of the torn batch are gone, and every cell holds what
    the log before it says: the entry it was opened with, reset if the log drops
    it, marked dirty if it is written after, its index answering for every key
    with the newest write since the drop, its bloom filter gaining the keys
    whose newest write is not a removal, and [last_processed] at the first write
    for a cell that was empty. *)
Theorem replay_recovers shape blake2b256 lz4_decompress t gs torn ops tops
  (Ht : table_ok shape t) (Hnf : table_no_flush t)
  (Hgs : Forall group_ok gs) (Htorn : torn_ok torn)
  (Hsorted : StronglySorted frame_before (log_frames gs ++ tail_frames torn))
  (Hbound : Forall (fun f => wp_offset f.1 < u64_max) (log_frames gs ++ tail_frames torn))
  (Hdistinct : Forall (frame_distinct shape blake2b256 lz4_decompress) (log_frames gs ++ tail_frames torn))
  (Hops : frames_ops shape blake2b256 lz4_decompress (log_frames gs) = Ok ops)
  (Htops : frames_ops shape blake2b256 lz4_decompress (tail_frames torn) = Ok tops)
  (Hinput : Forall (op_input_ok shape) (ops ++ tops))
  (Hfit : forall ks c, writes_fit (cell_writes ops ks c)) :
  exists t', replay_wal shape blake2b256 lz4_decompress t (log_frames gs ++ tail_frames torn) StopReplay =
               Ok (inr (t', torn_position torn)) /\ table_ok shape t' /\
    forall ks kt, t !! ks = Some kt -> exists kt', t' !! ks = Some kt' /\
      forall c, cell_ok (kt_ks kt) c ->
        cell_applied (cell_start kt ops ks c (cell_entry kt c)) (cell_writes ops ks c) (cell_entry kt' c).
Proof.
  assert (forall ks ksd, shape !! ks = Some ksd -> ks_destroyed ksd = false -> ks_ok ksd) as Hks.
  { intros ks ksd Hs Hd. destruct (Forall2_lookup_l _ _ _ _ _ Ht Hs) as (kt & _ & <- & Hkt). by apply kto_ks, Hkt. }
  apply Forall_app in Hinput as [Hin Hint]. pose proof (frames_ops_ok _ _ _ _ ops Hks Hops Hin) as Hok.
  pose proof (frames_ops_ok _ _ _ _ tops Hks Htops Hint) as Htok.
  destruct (buffer_ops_ok shape _ ops (buffer_ok_new shape) Hok) as (b1 & Hb1 & Hbok1 & Hc1).
  destruct (table_ops_ok shape ops t Ht Hnf Hok) as (t1 & Ht1 & Htok1 & _ & Hv1).
  destruct (buffer_ops_ok shape _ tops Hbok1 Htok) as (b2 & Hb2 & Hbok2 & Hc2).
  destruct (replay_torn shape blake2b256 lz4_decompress torn b1 t1 tops b2 Htorn Htops Hb2) as [Hw [n Hrt]].
  set (cutoff := default u64_max (torn_position torn)).
  unfold replay_wal. rewrite replay_frames_app, (replay_groups _ _ _ gs _ t ops b1 t1 Hgs Hops Hb1 Ht1).
  cbn [mbind outcome_bind]. rewrite Hrt. cbn [mbind outcome_bind rs_batch_start_position rs_buffer rs_table].
  fold cutoff. unfold apply_replay_buffer. rewrite <- (Forall2_length _ _ _ Hbok2).
  destruct (apply_key_spaces_ok shape (fun ks c e e' => cell_applied e (cell_writes ops ks c) e') cutoff (length shape) 0 t1 b2 Htok1 eq_refl)
    as (t' & -> & Htok' & Hv').
  { intros ks ksd _ Hsk. destruct (buffer_ok_lookup shape b2 ks ksd Hbok2 Hsk) as (k & Hk & Hkok). exists k.
    split; [done|]. destruct (ks_destroyed ksd) eqn:Hd.
    - pose proof (op_ok_other shape ks ksd ops Hsk Hd Hok) as Ho1. pose proof (op_ok_other shape ks ksd tops Hsk Hd Htok) as Ho2.
      rewrite (buffer_ops_other ks tops b1 b2 Ho2 Hb2), (buffer_ops_other ks ops _ b1 Ho1 Hb1) in Hk.
      unfold replay_buffer_new in Hk. change (List.map ks_buffer_new shape) with (ks_buffer_new <$> shape) in Hk.
      rewrite list_lookup_fmap, Hsk in Hk. injection Hk as <-. split; [apply ks_cells_new|]. intros c e.
      unfold cell_writes. by rewrite cell_writes_other.
    - split; [done|]. intros c _ e.
      assert (ks_buf k c = cell_writes ops ks c ++ cell_writes tops ks c) as ->.
      { specialize (Hc2 ks c). unfold cell_buf at 1 in Hc2. rewrite Hk in Hc2.
        by rewrite Hc2, (fold_cell_app tops) by done; rewrite Hc1, cell_buf_new. }
      destruct (cutoff_splits shape blake2b256 lz4_decompress gs torn ops tops ks c Hsorted Hbound Hdistinct Hops Htops)
        as (Ha & Hlow & Hhigh & Hmax). by apply entry_apply_ok. }
  cbn [mbind outcome_bind]. exists t'. split_and!; [done|done|]. intros ks kt Hkt.
  destruct (Hv1 ks kt Hkt) as (kt1 & Hkt1 & Hk1 & _ & Hs1). destruct (Hv' ks kt1 Hkt1) as (kt' & Hkt' & _ & Hs').
  exists kt'. split; [done|]. intros c Hc. rewrite <- (Hs1 c Hc). apply (Hs' c). by rewrite Hk1.
Qed.

(** ** An opened table can be replayed into *)

Lemma opened_table_ok load_keys shape snapshot :
  snapshot_ok shape snapshot ->
  exists t, from_unloaded load_keys shape snapshot = Ok t /\ table_ok (List.map fst shape) t /\ table_no_flush t.
Proof.
  intros Hs. destruct (open_tables load_keys shape snapshot Hs) as (t & He & Ht). exists t. split; [done|]. clear He.
  revert t Ht. induction Hs as [|[ks bloom] cells shape snapshot _ _ IH]; intros t Ht; cbn in Ht.
  - inversion_clear Ht. split; constructor.
  - inversion_clear Ht as [|? kt ? t' Ho Ht']. destruct (IH t' Ht') as [Hok Hn].
    split; (constructor; [|done]); [|by eapply ks_opened_no_flush].
    destruct Ho as [Hk Ho]. cbn in *. split; [done|]. intros Hd. rewrite Hd in Ho. by destruct Ho as (_ & _ & Hkt & _).
Qed.

(** ** Example: a record, a batch, a dropped cell, and a torn batch *)

Definition all_writes (ops : list replay_op) : list entry :=
  flat_map (fun op => match op with OpWrite _ _ e => [e] | OpDrop _ _ _ => [] end) ops.

Lemma cell_writes_sublist ops ks c : cell_writes ops ks c `sublist_of` all_writes ops.
Proof.
  induction ops as [|op ops IH] using rev_ind; [done|]. unfold cell_writes, all_writes in *.
  rewrite fold_left_app, flat_map_app. cbn [fold_left flat_map]. rewrite app_nil_r.
  destruct op as [ks' c' e|ks' f t]; cbn [op_cell]; destruct (_ && _).
  - by apply sublist_app.
  - by apply sublist_inserts_r.
  - apply sublist_nil_l.
  - by rewrite app_nil_r.
Qed.

Lemma ops_fit ops :
  Forall (entry_fits None) (all_writes ops) -> Z.of_nat (keys_size (List.map fst (all_writes ops))) <= u32_max ->
  forall ks c, writes_fit (cell_writes ops ks c).
Proof.
  intros Hf Hz ks c. pose proof (cell_writes_sublist ops ks c) as Hs. split.
  - clear -Hs Hf. induction Hs; [constructor| |]; inversion_clear Hf; [constructor|]; auto.
  - etrans; [|exact Hz]. apply Nat2Z.inj_le. clear -Hs. induction Hs; cbn; lia.
Qed.

Definition demo_k1 : list Z := [0x12; 1; 1; 1; 1].
Definition demo_k2 : list Z := [0x12; 1; 1; 1; 2].

Definition demo_log : list log_group :=
  [GFrame (mkWalPosition 100 30, WalRecord 0 demo_k1 [7] false);
   GBatch (mkWalPosition 200 9)
     [(mkWalPosition 210 30, WalRecord 0 demo_k2 [8] false); (mkWalPosition 250 20, WalRemove 0 demo_k1)];
   GFrame (mkWalPosition 300 20, WalDropCells 1 (CellBytes [1; 16]) (CellBytes [1; 16]))].

Definition demo_torn : option (WalPosition * Z * list frame) :=
  Some (mkWalPosition 400 9, 2, [(mkWalPosition 410 30, WalRecord 0 demo_k2 [9] false)]).

Definition demo_ops (fs : list frame) : list replay_op :=
  match frames_ops (List.map fst demo_shape) (fun k => k) (fun _ _ => None) fs with Ok o => o | Panic _ => [] end.

Lemma demo_frames_distinct :
  Forall (frame_distinct (List.map fst demo_shape) (fun k => k) (fun _ _ => None)) (log_frames demo_log ++ tail_frames demo_torn).
Proof.
  repeat (apply List.Forall_cons; [intros ops Ho; vm_compute in Ho; injection Ho as <-; repeat constructor|]). apply List.Forall_nil.
Qed.

Lemma demo_inputs_ok :
  Forall (op_input_ok (List.map fst demo_shape)) (demo_ops (log_frames demo_log) ++ demo_ops (tail_frames demo_torn)).
Proof.
  let l := eval vm_compute in (demo_ops (log_frames demo_log) ++ demo_ops (tail_frames demo_torn)) in
  change (demo_ops (log_frames demo_log) ++ demo_ops (tail_frames demo_torn)) with l.
  assert (forall x, 0 <= x <= 255 -> is_u8 x) as Hu by (unfold is_u8; lia).
  repeat (apply List.Forall_cons; [first
    [ exists demo_prefixed; split; [reflexivity|]; split; [exact I|apply bytes_kle_refl]
    | cbn [op_input_ok fst]; repeat (apply List.Forall_cons; [apply Hu; lia|]); apply List.Forall_nil ]|]). apply List.Forall_nil.
Qed.

Lemma demo_ops_fit : forall ks c, writes_fit (cell_writes (demo_ops (log_frames demo_log)) ks c).
Proof.
  apply ops_fit; [|vm_compute; discriminate].
  let l := eval vm_compute in (all_writes (demo_ops (log_frames demo_log))) in
  change (all_writes (demo_ops (log_frames demo_log))) with l.
  repeat (apply List.Forall_cons; [unfold entry_fits, iwp_fits, is_u64, u16_max; cbn; lia|]). apply List.Forall_nil.
Qed.

Lemma replay_recovers_witness :
  exists t t' kt', from_unloaded (fun _ => []) demo_shape demo_snapshot = Ok t /\
    replay_wal (List.map fst demo_shape) (fun k => k) (fun _ _ => None) t
      (log_frames demo_log ++ tail_frames demo_torn) StopReplay = Ok (inr (t', Some 400)) /\
    t' !! 0%nat = Some kt' /\
    it_get (le_data (cell_entry kt' (CellInteger 1))) demo_k2 = Ok (Some (mkWalPosition 210 30)) /\
    it_get (le_data (cell_entry kt' (CellInteger 1))) demo_k1 = Ok (Some WalPosition_INVALID).
Proof.
  destruct (opened_table_ok (fun _ => []) demo_shape demo_snapshot demo_snapshot_ok) as (t & He & Ht & Hn). exists t.
  destruct (replay_recovers (List.map fst demo_shape) (fun k => k) (fun _ _ => None) t demo_log demo_torn
              (demo_ops (log_frames demo_log)) (demo_ops (tail_frames demo_torn)) Ht Hn) as (t' & Hr & _ & Hv).
  - apply List.Forall_cons; [exact I|]. apply List.Forall_cons; [split; [discriminate|repeat constructor]|].
    apply List.Forall_cons; [exact I|apply List.Forall_nil].
  - split; [repeat constructor|reflexivity].
  - repeat constructor.
  - repeat constructor.
  - apply demo_frames_distinct.
  - reflexivity.
  - reflexivity.
  - apply demo_inputs_ok.
  - apply demo_ops_fit.
  - destruct (lookup_lt_is_Some_2 t 0%nat) as [kt Hkt]; [rewrite <- (Forall2_length _ _ _ Ht); cbn; lia|].
    destruct (Hv 0%nat kt Hkt) as (kt' & Hkt' & Hc). exists t', kt'. do 3 (split; [done|]).
    destruct (Forall2_lookup_l _ _ _ 0%nat demo_uniform Ht eq_refl) as (kt0 & Hkt0 & Hk & _).
    assert (kt0 = kt) as -> by congruence. specialize (Hc (CellInteger 1)). rewrite Hk in Hc.
    destruct Hc as (_ & _ & _ & _ & _ & Hg); [vm_compute; split; discriminate || reflexivity|].
    by rewrite !Hg.
Defined.
