(* ===== verification/Crc.v ===== *)
(** * CRC frames

    [src/tidehunter/src/crc.rs]: the 8-byte header (payload length, checksum)
    in front of every WAL payload, its readers and the skip marker.
    [crc32fast::hash] is a third-party function and a parameter here; what is
    relied on is that it returns a u32. *)

From Stdlib Require Import ZArith Lia List.
From stdpp Require Import base tactics list strings.
From S2P Require Import Prelude BTree Bytes Position.

Local Open Scope Z_scope.

Inductive CrcReadError :=
| OutOfBoundsHeader
| OutOfBoundsBody (len : nat)
| CrcMismatch
| SkipMarker.

(** [Result<A, CrcReadError>] inside code that could panic on a slice. *)
Definition crc_result (A : Type) : Type := outcome (CrcReadError + A).

Definition crc_data_range (pos len : nat) : nat * nat :=
  (pos + CRC_HEADER_LENGTH, pos + CRC_HEADER_LENGTH + len)%nat.

Section crc.
Context (hash : list Z -> Z).

Definition crc (b : list Z) : Z := match b with [] => u32_max | _ => hash b end.

(** [CrcFrame::new] on the bytes [t] writes. *)
Definition crc_frame_new (t : list Z) : list Z :=
  let bytes := be_bytes 8 0 ++ t in
  let bytes := copy_at bytes 0 (be_bytes 4 (wrap32 (Z.of_nat (length t)))) in
  copy_at bytes 4 (be_bytes 4 (crc (drop 8 bytes))).

Definition checked_read (b : list Z) (pos : nat) : crc_result nat :=
  if (length b <? pos + CRC_HEADER_LENGTH)%nat then Ok (inl OutOfBoundsHeader)
  else
    h ← slice_from b pos;
    '(len, h) ← get_u32 h;
    '(stored, h) ← get_u32 h;
    if (len =? u32_max) && (stored =? u32_max) then Ok (inl SkipMarker)
    else
      let len := Z.to_nat len in
      if (length b <? pos + CRC_HEADER_LENGTH + len)%nat then Ok (inl (OutOfBoundsBody len))
      else
        let '(from, to) := crc_data_range pos len in
        data ← slice b from to;
        if negb (crc data =? stored) then Ok (inl CrcMismatch) else Ok (inr len).

Definition parse_header (b : list Z) (pos : nat) : crc_result nat :=
  if (length b <? pos + CRC_HEADER_LENGTH)%nat then Ok (inl OutOfBoundsHeader)
  else
    h ← slice_from b pos;
    '(len, h) ← get_u32 h;
    '(stored, h) ← get_u32 h;
    if (len =? u32_max) && (stored =? u32_max) then Ok (inl SkipMarker)
    else if len =? 0 then Ok (inl CrcMismatch)
    else
      let len := Z.to_nat len in
      if (length b <? pos + CRC_HEADER_LENGTH + len)%nat then Ok (inl (OutOfBoundsBody len))
      else Ok (inr len).

(** The body shared by the readers: the payload range of a checked header. *)
Definition read_data (b : list Z) (pos : nat) (header : crc_result nat) : crc_result (list Z) :=
  r ← header;
  match r with
  | inl e => Ok (inl e)
  | inr len =>
      let '(from, to) := crc_data_range pos len in
      data ← slice b from to; Ok (inr data)
  end.

Definition read_from_slice (b : list Z) (pos : nat) : crc_result (list Z) :=
  read_data b pos (checked_read b pos).

Definition read_from_bytes (b : list Z) (pos : nat) : crc_result (list Z) :=
  read_data b pos (checked_read b pos).

Definition read_unchecked_from_bytes (b : list Z) (pos : nat) : crc_result (list Z) :=
  read_data b pos (parse_header b pos).

Definition skip_marker : list Z := replicate 8 0xff.

(** ** Lemmas *)

Context (hash_u32 : forall b, is_u32 (hash b)).

Lemma crc_u32 b : is_u32 (crc b).
Proof. destruct b; [|apply hash_u32]. unfold crc, is_u32, u32_max. lia. Qed.

(** The bytes of a frame. *)
Lemma crc_frame_bytes t :
  crc_frame_new t = be_bytes 4 (wrap32 (Z.of_nat (length t))) ++ be_bytes 4 (crc t) ++ t.
Proof.
  unfold crc_frame_new. set (l4 := be_bytes 4 (wrap32 _)).
  assert (copy_at (be_bytes 8 0 ++ t) 0 l4 = l4 ++ be_bytes 4 0 ++ t) as ->.
  { unfold copy_at, l4. rewrite length_be_bytes. done. }
  assert (drop 8 (l4 ++ be_bytes 4 0 ++ t) = t) as ->.
  { rewrite app_assoc. apply drop_app_length'. unfold l4. by rewrite length_app, !length_be_bytes. }
  unfold copy_at. rewrite take_app_length' by (unfold l4; by rewrite length_be_bytes).
  by f_equal.
Qed.

Lemma length_crc_frame t : length (crc_frame_new t) = (CRC_HEADER_LENGTH + length t)%nat.
Proof. rewrite crc_frame_bytes, !length_app, !length_be_bytes. unfold CRC_HEADER_LENGTH. lia. Qed.

(** The header fields read at a frame's start. *)
Lemma header_reads pre len stored rest :
  is_u32 len -> is_u32 stored ->
  (h ← slice_from (pre ++ be_bytes 4 len ++ be_bytes 4 stored ++ rest) (length pre);
   '(l, h) ← get_u32 h;
   '(s, h) ← get_u32 h;
   Ok (l, s)) = Ok (len, stored).
Proof.
  intros Hl Hs. unfold slice_from. rewrite length_app.
  destruct (Nat.leb_spec (length pre) (length pre + length (be_bytes 4 len ++ be_bytes 4 stored ++ rest))); [|lia].
  rewrite drop_app_length. cbn [mbind outcome_bind]. unfold get_u32.
  rewrite get_be_app by (unfold is_u32 in *; lia). cbn [mbind outcome_bind].
  by rewrite get_be_app by (unfold is_u32 in *; lia).
Qed.

Lemma checked_read_header pre len stored rest :
  is_u32 len -> is_u32 stored ->
  let b := pre ++ be_bytes 4 len ++ be_bytes 4 stored ++ rest in
  let pos := length pre in
  checked_read b pos =
    if (len =? u32_max) && (stored =? u32_max) then Ok (inl SkipMarker)
    else if (length rest <? Z.to_nat len)%nat then Ok (inl (OutOfBoundsBody (Z.to_nat len)))
    else if negb (crc (take (Z.to_nat len) rest) =? stored) then Ok (inl CrcMismatch)
    else Ok (inr (Z.to_nat len)).
Proof.
  intros Hl Hs b pos. unfold checked_read.
  assert (length b = pos + CRC_HEADER_LENGTH + length rest)%nat as Hb.
  { unfold b, pos. rewrite !length_app, !length_be_bytes. unfold CRC_HEADER_LENGTH. lia. }
  rewrite Hb. destruct (Nat.ltb_spec (pos + CRC_HEADER_LENGTH + length rest) (pos + CRC_HEADER_LENGTH)); [lia|].
  pose proof (header_reads pre len stored rest Hl Hs) as Hh. fold b pos in Hh.
  destruct (slice_from b pos) as [h|]; [|done]. cbn [mbind outcome_bind] in Hh |- *.
  destruct (get_u32 h) as [[l h1]|]; [|done]. cbn [mbind outcome_bind] in Hh |- *.
  destruct (get_u32 h1) as [[s h2]|]; [|done]. cbn [mbind outcome_bind] in Hh |- *. injection Hh as -> ->.
  destruct ((len =? u32_max) && (stored =? u32_max)); [done|]. cbv zeta.
  assert ((pos + CRC_HEADER_LENGTH + length rest <? pos + CRC_HEADER_LENGTH + Z.to_nat len)%nat =
          (length rest <? Z.to_nat len)%nat) as ->.
  { destruct (Nat.ltb_spec (length rest) (Z.to_nat len)), (Nat.ltb_spec (pos + CRC_HEADER_LENGTH + length rest)
      (pos + CRC_HEADER_LENGTH + Z.to_nat len)); lia || done. }
  destruct (Nat.ltb_spec (length rest) (Z.to_nat len)) as [|Hle]; [done|]. cbn [crc_data_range].
  rewrite (slice_mid b (pre ++ be_bytes 4 len ++ be_bytes 4 stored) (take (Z.to_nat len) rest) (drop (Z.to_nat len) rest)).
  - done.
  - unfold b. by rewrite <- !app_assoc, take_drop.
  - rewrite !length_app, !length_be_bytes. unfold pos, CRC_HEADER_LENGTH. lia.
  - rewrite !length_app, !length_be_bytes, length_take. unfold pos, CRC_HEADER_LENGTH. lia.
Qed.

Lemma read_frame pre t post :
  Z.of_nat (length t) < u32_max ->
  read_from_bytes (pre ++ crc_frame_new t ++ post) (length pre) = Ok (inr t).
Proof.
  intros Hl. unfold read_from_bytes. rewrite crc_frame_bytes.
  assert (wrap32 (Z.of_nat (length t)) = Z.of_nat (length t)) as ->.
  { apply wrap32_small. unfold is_u32, u32_max in *. lia. }
  rewrite <- !app_assoc. rewrite checked_read_header; [|unfold is_u32, u32_max in *; lia|apply crc_u32].
  destruct (Z.eqb_spec (Z.of_nat (length t)) u32_max); [lia|]. cbn [andb]. rewrite Nat2Z.id.
  destruct (Nat.ltb_spec (length (t ++ post)) (length t)) as [Hlt|_]; [rewrite length_app in Hlt; lia|].
  rewrite take_app_length, Z.eqb_refl. cbn [negb mbind outcome_bind read_data crc_data_range].
  rewrite (slice_mid _ (pre ++ be_bytes 4 (Z.of_nat (length t)) ++ be_bytes 4 (crc t)) t post).
  - done.
  - by rewrite <- !app_assoc.
  - rewrite !length_app, !length_be_bytes. unfold CRC_HEADER_LENGTH. lia.
  - rewrite !length_app, !length_be_bytes. unfold CRC_HEADER_LENGTH. lia.
Qed.

Lemma read_skip_marker pre post : read_from_bytes (pre ++ skip_marker ++ post) (length pre) = Ok (inl SkipMarker).
Proof.
  unfold read_from_bytes. replace skip_marker with (be_bytes 4 u32_max ++ be_bytes 4 u32_max) by done.
  rewrite <- app_assoc, checked_read_header by (unfold is_u32, u32_max; lia). done.
Qed.

(** Zero-filled space is not a frame, nor a skip marker. *)
Lemma read_zeros pre n :
  (CRC_HEADER_LENGTH <= n)%nat ->
  read_from_bytes (pre ++ replicate n 0) (length pre) = Ok (inl CrcMismatch) /\
  read_unchecked_from_bytes (pre ++ replicate n 0) (length pre) = Ok (inl CrcMismatch).
Proof.
  unfold CRC_HEADER_LENGTH. intros Hn.
  assert (replicate n 0 = be_bytes 4 0 ++ be_bytes 4 0 ++ replicate (n - 8) 0) as ->.
  { change (be_bytes 4 0) with (replicate 4 0). rewrite <- !replicate_add. f_equal. lia. }
  split.
  - unfold read_from_bytes. rewrite checked_read_header by (unfold is_u32; lia). done.
  - unfold read_unchecked_from_bytes, parse_header.
    set (rest := replicate (n - 8) 0). set (b := pre ++ _).
    assert (length b = length pre + CRC_HEADER_LENGTH + length rest)%nat as Hb.
    { unfold b. rewrite !length_app, !length_be_bytes. unfold CRC_HEADER_LENGTH. lia. }
    rewrite Hb. destruct (Nat.ltb_spec (length pre + CRC_HEADER_LENGTH + length rest) (length pre + CRC_HEADER_LENGTH)); [lia|].
    pose proof (header_reads pre 0 0 rest) as Hh. fold b in Hh.
    destruct (slice_from b (length pre)) as [h|]; cbn [mbind outcome_bind] in Hh |- *; [|by specialize (Hh ltac:(unfold is_u32; lia) ltac:(unfold is_u32; lia))].
    destruct (get_u32 h) as [[l h1]|]; cbn [mbind outcome_bind] in Hh |- *; [|by specialize (Hh ltac:(unfold is_u32; lia) ltac:(unfold is_u32; lia))].
    destruct (get_u32 h1) as [[s h2]|]; cbn [mbind outcome_bind] in Hh |- *; [|by specialize (Hh ltac:(unfold is_u32; lia) ltac:(unfold is_u32; lia))].
    specialize (Hh ltac:(unfold is_u32; lia) ltac:(unfold is_u32; lia)). injection Hh as -> ->. done.
Qed.
End crc.

(** Frames in the log: a payload framed by [CrcFrame::new] is read back at
    its position whatever surrounds it, a skip marker is recognised as one, and
    zero-filled (unwritten) space reads as a CRC mismatch by both readers, which
    ends a replay; none of the reads panics. *)
Lemma crc_frame_reads hash pre t post :
  (forall b, is_u32 (hash b)) -> Z.of_nat (length t) < u32_max ->
  read_from_bytes hash (pre ++ crc_frame_new hash t ++ post) (length pre) = Ok (inr t) /\
  read_from_bytes hash (pre ++ skip_marker ++ post) (length pre) = Ok (inl SkipMarker) /\
  forall n, (CRC_HEADER_LENGTH <= n)%nat ->
    read_from_bytes hash (pre ++ replicate n 0) (length pre) = Ok (inl CrcMismatch) /\
    read_unchecked_from_bytes (pre ++ replicate n 0) (length pre) = Ok (inl CrcMismatch).
Proof.
  intros Hh Hl. split_and!; [by apply read_frame|by apply read_skip_marker|]. intros n. by apply read_zeros.
Qed.

(** A checksum for the example: the sum of the bytes. *)
Definition sum_hash (b : list Z) : Z := wrap32 (fold_right Z.add 0 b).

