(* ===== verification/WalFiles.v ===== *)
(** * WAL files and mapped fragments

    [src/tidehunter/src/wal/files.rs], [src/tidehunter/src/wal/mapper.rs] and
    the file arithmetic of [src/tidehunter/src/wal/mod.rs]: the registry of open
    WAL files, the window of fragments mapped into memory, and the mapper thread
    that maps ahead of the writer, hands finished fragments to the syncer and
    deletes files.

    A file is its bytes.  A mapped fragment is a window over the bytes of its
    file, shared with it, so a map here is its flags only; the content is read
    and written through the file ([Wal]).  Paths are not modelled, and the
    syscalls that remove a file from the disk follow its removal from the
    registry. *)

From Stdlib Require Import ZArith Lia List Sorting.Sorted.
From stdpp Require Import base tactics list gmap strings relations sorting.
From S2P Require Import Prelude BTree Bytes Position Layout Allocator Tracker.

Local Open Scope Z_scope.

(** ** Files *)

(** Growing a file with [set_len]. *)
Definition set_len (file : list Z) (len : Z) : list Z := take (Z.to_nat len) file ++ replicate (Z.to_nat len - length file) 0.

Definition file_len (file : list Z) : Z := Z.of_nat (length file).

(** [Wal::resize] *)
Definition wal_resize (l : WalLayout) (file : list Z) : outcome (list Z) :=
  r ← u64_rem (file_len file) (frag_size l);
  Ok (if negb (r =? 0) then set_len file (u64_sub (u64_add (file_len file) (frag_size l)) r) else file).

(** [Wal::open_file]: an absent file is created empty. *)
Definition open_file (l : WalLayout) (file : option (list Z)) : outcome (list Z) := wal_resize l (default [] file).

(** Byte offset within its file at which a fragment ends. *)
Definition map_end_in_file (l : WalLayout) (map_id : MapId) : outcome Z :=
  end_ ← offset_in_wal_file l (map_range l map_id).2;
  Ok (if end_ =? 0 then wal_file_size l else end_).

Definition extend_to_map_id (l : WalLayout) (file : list Z) (map_id : MapId) : outcome (list Z) :=
  end_ ← map_end_in_file l map_id;
  Ok (if file_len file <? end_ then set_len file end_ else file).

Definition covers_map (l : WalLayout) (file : list Z) (map_id : MapId) : outcome bool :=
  end_ ← map_end_in_file l map_id;
  Ok (end_ <=? file_len file).

(** ** [WalFiles] *)

Record WalFiles := mkWalFiles { wf_files : list (WalFileId * list Z) }.

(** [WalFiles::load] on the ids and contents of the WAL files found in the
    directory. *)
Fixpoint load_files (l : WalLayout) (found : list (WalFileId * list Z)) (files : list (WalFileId * list Z)) :
    outcome (list (WalFileId * list Z)) :=
  match found with
  | [] => Ok files
  | (id, file) :: found => file ← open_file l (Some file); load_files l found (bt_insert id file files)
  end.

Definition wal_files_load (l : WalLayout) (found : list (WalFileId * list Z)) : outcome WalFiles :=
  files ← load_files l found [];
  match files with
  | [] => file ← open_file l None; Ok (mkWalFiles (bt_insert 0 file []))
  | _ => Ok (mkWalFiles files)
  end.

Definition min_file_id (w : WalFiles) : outcome WalFileId :=
  expect (option_map fst (head (wf_files w))) "WalFiles is never empty".

Definition current_file_id (w : WalFiles) : outcome WalFileId :=
  expect (option_map fst (last (wf_files w))) "WalFiles is never empty".

Definition current_file (w : WalFiles) : outcome (list Z) :=
  expect (option_map snd (last (wf_files w))) "unable to find current WAL file".

Definition get_checked (w : WalFiles) (id : WalFileId) : option (list Z) := bt_get id (wf_files w).

Definition get_file (w : WalFiles) (id : WalFileId) : outcome (list Z) :=
  expect (get_checked w id) "attempt to access non existing file".

Fixpoint remove_files (files : list (WalFileId * list Z)) (to_remove : list WalFileId) :
    list (WalFileId * list Z) * list (WalFileId * list Z) :=
  match to_remove with
  | [] => (files, [])
  | id :: rest =>
      match bt_get id files with
      | Some file => let '(files, removed) := remove_files (bt_remove id files) rest in (files, (id, file) :: removed)
      | None => remove_files files rest
      end
  end.

Definition without_files (w : WalFiles) (to_remove : list WalFileId) : WalFiles * list (WalFileId * list Z) :=
  let '(files, removed) := remove_files (wf_files w) to_remove in (mkWalFiles files, removed).

Definition with_file (w : WalFiles) (id : WalFileId) (file : list Z) : outcome WalFiles :=
  _ ← assert_that (match get_checked w id with None => true | Some _ => false end) "wal file already in registry";
  Ok (mkWalFiles (bt_insert id file (wf_files w))).

(** The file of an id with new bytes; the registry is shared with the threads
    that grow or write it. *)
Definition put_file (w : WalFiles) (id : WalFileId) (file : list Z) : WalFiles := mkWalFiles (bt_insert id file (wf_files w)).

(** ** [WalMaps] *)

Record Map := mkMap { mp_id : MapId; mp_writeable : bool; mp_populated : bool }.

Definition WalMaps := list (MapId * Map).

Definition create_map_impl (map_id : MapId) (populate writeable : bool) : Map := mkMap map_id writeable populate.

Definition create_map (map_id : MapId) : Map := create_map_impl map_id true true.

(** [WalMaps::map]: the maps and the new one. *)
Definition maps_map (l : WalLayout) (maps : WalMaps) (map_id : MapId) : outcome (WalMaps * Map) :=
  let map := create_map map_id in
  _ ← assert_that (match bt_get map_id maps with None => true | Some _ => false end)
        "assertion failed: self.maps.insert(map_id, map).is_none()";
  let maps := bt_insert map_id map maps in
  let maps := if max_maps l <? Z.of_nat (length maps) then tail maps else maps in
  m ← expect (bt_get map_id maps) "called `Option::unwrap()` on a `None` value";
  Ok (maps, m).

Definition map_readonly (l : WalLayout) (maps : WalMaps) (map_id : MapId) : outcome WalMaps :=
  _ ← assert_that (Z.of_nat (length maps) <? max_maps l) "map_readonly would exceed max_maps";
  _ ← assert_that (match bt_get map_id maps with None => true | Some _ => false end)
        "assertion failed: self.maps.insert(map_id, map).is_none()";
  Ok (bt_insert map_id (create_map_impl map_id false false) maps).

(** ** The mapper thread *)

Definition INITIAL_MAPS_BUFFER : nat := 2.

Inductive WalMapperMessage :=
| MapperMapFinalized (map_id : MapId)
| MinWalPositionUpdated (watermark : Z)
| DeleteFiles (files : list WalFileId).

(** [mt_map_id]: the loop's [map_id], the last fragment mapped ahead;
    [mt_published]: the maps other threads see; [mt_synced]: the requests sent
    to the syncer. *)
Record WalMapperThread := mkMapper {
  mt_maps : WalMaps;
  mt_files : WalFiles;
  mt_map_id : MapId;
  mt_published : WalMaps;
  mt_synced : list (MapId * Z);
}.

Definition set_maps (t : WalMapperThread) (maps : WalMaps) : WalMapperThread :=
  mkMapper maps (mt_files t) (mt_map_id t) (mt_published t) (mt_synced t).

Definition set_files (t : WalMapperThread) (files : WalFiles) : WalMapperThread :=
  mkMapper (mt_maps t) files (mt_map_id t) (mt_published t) (mt_synced t).

Definition publish_maps (t : WalMapperThread) : WalMapperThread :=
  mkMapper (mt_maps t) (mt_files t) (mt_map_id t) (mt_maps t) (mt_synced t).

(** [WalMapperThread::make_map] *)
Definition mapper_make_map (l : WalLayout) (t : WalMapperThread) (map_id : MapId) : outcome WalMapperThread :=
  file_id ← file_for_map l map_id;
  current ← current_file_id (mt_files t);
  files ←
    (if current <? file_id then
       _ ← assert_that (file_id =? u64_add current 1) "assertion `left == right` failed";
       new_file ← open_file l None;
       with_file (mt_files t) file_id new_file
     else Ok (mt_files t));
  file ← get_file files file_id;
  file ← extend_to_map_id l file map_id;
  '(maps, _) ← maps_map l (mt_maps t) map_id;
  Ok (publish_maps (mkMapper maps (put_file files file_id file) (mt_map_id t) (mt_published t) (mt_synced t))).

(** [map_id = map_id.next_map(); self.make_map(map_id)] *)
Definition map_next (l : WalLayout) (t : WalMapperThread) : outcome WalMapperThread :=
  let map_id := map_id_next_map (mt_map_id t) in
  mapper_make_map l (mkMapper (mt_maps t) (mt_files t) map_id (mt_published t) (mt_synced t)) map_id.

(** [WalMapper::start], up to the loop of [run]. *)
Definition mapper_start (l : WalLayout) (maps : WalMaps) (files : WalFiles) : outcome WalMapperThread :=
  _ ← assert_that (match maps with [] => false | _ => true end) "Should not pass empty maps to WalMapper::start";
  let min_max_maps := Z.of_nat INITIAL_MAPS_BUFFER + 1 in
  if max_maps l <? min_max_maps then Panic "Provided layout with max_maps below the minimum allowed"
  else
    map_id ← expect (option_map fst (last maps)) "Can't start wal mapper with empty maps";
    t ← map_next l (mkMapper maps files map_id maps []);
    map_next l t.

(** The files that form a prefix below the watermark. *)
Fixpoint files_below (l : WalLayout) (files : list (WalFileId * list Z)) (watermark : Z) : list WalFileId :=
  match files with
  | [] => []
  | (file_id, _) :: rest => if watermark <? (wal_file_range l file_id).2 then [] else file_id :: files_below l rest watermark
  end.

(** [maps.retain]: the writeable maps and those over files that stay. *)
Fixpoint retain_maps (l : WalLayout) (maps : WalMaps) (deleting : gset WalFileId) : outcome WalMaps :=
  match maps with
  | [] => Ok []
  | (map_id, map) :: rest =>
      file_id ← file_for_map l map_id;
      rest ← retain_maps l rest deleting;
      Ok (if mp_writeable map || negb (bool_decide (file_id ∈ deleting)) then (map_id, map) :: rest else rest)
  end.

Fixpoint mapped_files (l : WalLayout) (maps : WalMaps) : outcome (gset WalFileId) :=
  match maps with
  | [] => Ok ∅
  | (map_id, _) :: rest => file_id ← file_for_map l map_id; rest ← mapped_files l rest; Ok ({[file_id]} ∪ rest)
  end.

(** [WalMapperThread::delete_files] *)
Definition delete_files (l : WalLayout) (t : WalMapperThread) (to_delete : list WalFileId) : outcome WalMapperThread :=
  let deleting : gset WalFileId := list_to_set to_delete in
  maps ← retain_maps l (mt_maps t) deleting;
  let t' := set_maps t maps in
  let t' := if negb (length maps =? length (mt_maps t))%nat then publish_maps t' else t' in
  mapped ← mapped_files l maps;
  let actual := List.filter (fun id => negb (bool_decide (id ∈ mapped)) &&
                  match get_checked (mt_files t) id with Some _ => true | None => false end) to_delete in
  match actual with
  | [] => Ok t'
  | _ => Ok (set_files t' (without_files (mt_files t) (merge_sort Z.le (remove_dups actual))).1)
  end.

(** [WalMapperThread::min_wal_position_updated] *)
Definition mapper_min_wal_position_updated (l : WalLayout) (t : WalMapperThread) (watermark : Z) : outcome WalMapperThread :=
  match files_below l (wf_files (mt_files t)) watermark with
  | [] => Ok t
  | to_delete => delete_files l t to_delete
  end.

(** One message of [WalMapperThread::run]. *)
Definition mapper_handle (l : WalLayout) (t : WalMapperThread) (m : WalMapperMessage) : outcome WalMapperThread :=
  match m with
  | MapperMapFinalized map_to_sync_id =>
      match bt_get map_to_sync_id (mt_maps t) with
      | None => Ok t
      | Some map_to_sync =>
          if negb (mp_writeable map_to_sync) then Ok t
          else
            let map_to_sync := mkMap (mp_id map_to_sync) false (mp_populated map_to_sync) in
            map_next l (mkMapper (bt_insert map_to_sync_id map_to_sync (mt_maps t)) (mt_files t) (mt_map_id t) (mt_published t)
                          (mt_synced t ++ [(map_to_sync_id, (map_range l map_to_sync_id).2)]))
      end
  | MinWalPositionUpdated watermark => mapper_min_wal_position_updated l t watermark
  | DeleteFiles files => delete_files l t files
  end.

(** ** Fragments and files *)

Section arithmetic.
Context (l : WalLayout) (Hl : layout_ok l).

(** The file of a fragment and the place of the fragment in it. *)
Definition map_file (m : MapId) : WalFileId := frag_size l * m / wal_file_size l.

Definition map_offset (m : MapId) : Z := (frag_size l * m) mod wal_file_size l.

(** The fragment and the one after it have positions. *)
Definition map_fits (m : MapId) : Prop := 0 <= m /\ frag_size l * (m + 1) <= u64_max.

Lemma map_range_ok m : map_fits m -> map_range l m = (frag_size l * m, frag_size l * (m + 1)).
Proof.
  intros [Hm Hr]. destruct Hl as ((Hf & _) & _). unfold map_range, u64_mul, u64_add.
  assert (m + 1 <= u64_max) by nia. rewrite (wrap64_small (m + 1)) by (unfold is_u64, u64_max in *; lia).
  rewrite !wrap64_small by (unfold is_u64, u64_max in *; nia). done.
Qed.

Lemma file_for_map_ok m : map_fits m -> file_for_map l m = Ok (map_file m).
Proof.
  intros Hm. destruct Hl as (_ & _ & (Hw & _) & _). unfold file_for_map, locate_file. rewrite map_range_ok by done. cbn [fst].
  apply u64_div_ok. lia.
Qed.

(** A file holds a whole number of fragments. *)
Lemma map_offset_next m : 0 <= m -> 0 <= map_offset m /\ map_offset m + frag_size l <= wal_file_size l /\ (frag_size l | map_offset m).
Proof.
  intros Hm. destruct Hl as ((Hf & _) & _ & (Hw & _) & [k Hk]). unfold map_offset. rewrite Hk. rewrite Hk in Hw.
  assert (0 < k) by nia. rewrite (Z.mul_comm (frag_size l) m), Z.mul_mod_distr_r by lia. pose proof (Z.mod_pos_bound m k ltac:(lia)).
  split_and!; [nia|nia|]. exists (m mod k). lia.
Qed.

Lemma map_file_split m : 0 <= m -> frag_size l * m = wal_file_size l * map_file m + map_offset m.
Proof. intros Hm. destruct Hl as (_ & _ & (Hw & _) & _). apply Z.div_mod. lia. Qed.

Lemma map_file_next m : 0 <= m -> map_file m <= map_file (m + 1) <= map_file m + 1.
Proof.
  intros Hm. destruct Hl as ((Hf & _) & _ & (Hw & _) & _).
  pose proof (map_file_split m Hm). pose proof (map_file_split (m + 1) ltac:(lia)).
  pose proof (map_offset_next m Hm) as (? & ? & _). pose proof (map_offset_next (m + 1) ltac:(lia)) as (? & ? & _). nia.
Qed.

Lemma map_file_mono m m' : 0 <= m <= m' -> map_file m <= map_file m'.
Proof. intros Hm. destruct Hl as ((Hf & _) & _ & (Hw & _) & _). apply Z.div_le_mono; [lia|nia]. Qed.

Lemma map_end_in_file_ok m : map_fits m -> map_end_in_file l m = Ok (map_offset m + frag_size l).
Proof.
  intros Hm. pose proof Hl as ((Hf & _) & _ & (Hw & _) & Hd). unfold map_end_in_file. rewrite map_range_ok by done. cbn [snd].
  unfold offset_in_wal_file. rewrite u64_rem_ok by lia. cbn [mbind outcome_bind]. f_equal.
  destruct Hm as [Hm _]. pose proof (map_offset_next m Hm) as (Ho & Hle & _). pose proof (map_file_split m Hm) as Hs.
  assert ((frag_size l * (m + 1)) mod wal_file_size l = (map_offset m + frag_size l) mod wal_file_size l) as ->.
  { replace (frag_size l * (m + 1)) with (map_offset m + frag_size l + map_file m * wal_file_size l) by lia. by rewrite Z.mod_add by lia. }
  destruct (Z.eqb_spec ((map_offset m + frag_size l) mod wal_file_size l) 0) as [E|E].
  - apply Z.mod_divide in E as [q Hq]; [|lia]. assert (q = 1) by nia. nia.
  - destruct (decide (map_offset m + frag_size l = wal_file_size l)) as [E'|]; [rewrite E', Z.mod_same in E by lia; lia|].
    apply Z.mod_small. lia.
Qed.

Definition covered (file : list Z) (m : MapId) : Prop := map_offset m + frag_size l <= file_len file.

Lemma set_len_longer file n : file_len file <= n -> set_len file n = file ++ replicate (Z.to_nat n - length file) 0.
Proof. intros Hn. unfold set_len, file_len in *. rewrite take_ge; [done|lia]. Qed.

Lemma extend_ok file m : map_fits m ->
  exists n, extend_to_map_id l file m = Ok (file ++ replicate n 0) /\ covered (file ++ replicate n 0) m.
Proof.
  intros Hm. unfold extend_to_map_id. rewrite map_end_in_file_ok by done. cbn [mbind outcome_bind].
  pose proof (map_offset_next m (proj1 Hm)) as (Ho & _). destruct Hl as ((Hf & _) & _).
  destruct (Z.ltb_spec (file_len file) (map_offset m + frag_size l)) as [Hlt|Hge].
  - eexists. split; [by rewrite set_len_longer by lia|]. unfold covered, file_len in *. rewrite length_app, length_replicate. lia.
  - exists 0%nat. cbn [replicate]. rewrite app_nil_r. done.
Qed.

Lemma covered_longer file n m : covered file m -> covered (file ++ replicate n 0) m.
Proof. unfold covered, file_len. rewrite length_app. lia. Qed.
End arithmetic.

(** ** Sorted maps with integer keys *)

(** Ids are integers; a proof that rewrites with the lemmas on integer keys sees
    them as such. *)
Ltac ids_as_Z := unfold WalMaps, MapId, WalFileId in *.

Lemma bt_length_interval {V} (m : list (Z * V)) : forall a b,
  bt_sorted m -> Forall (fun kv => a <= kv.1 <= b) m -> a <= b + 1 -> Z.of_nat (length m) <= b - a + 1.
Proof.
  induction m as [|[k v] m IH]; intros a b Hs Hb Hab; cbn [length]; [lia|]. apply bt_sorted_cons in Hs as [Hs Hk].
  apply Forall_cons in Hb as [Hkb Hb]. cbn [fst] in *. specialize (IH (k + 1) b Hs). rewrite Nat2Z.inj_succ.
  assert (Forall (fun kv => k + 1 <= kv.1 <= b) m) as Hb'.
  { rewrite List.Forall_forall in *. intros e He. specialize (Hk e He). specialize (Hb e He). change (k < e.1) in Hk. lia. }
  specialize (IH Hb' ltac:(lia)). lia.
Qed.

Lemma bt_insert_length {V} (k : Z) (v : V) m : (length (bt_insert k v m) <= S (length m))%nat.
Proof.
  induction m as [|[k' v'] m IH]; [done|]. cbn [bt_insert]. destruct (kcmp k k'); cbn [length]; lia.
Qed.

Lemma bt_insert_length_same {V} (k : Z) (v w : V) m : bt_sorted m -> bt_get k m = Some w -> length (bt_insert k v m) = length m.
Proof.
  induction m as [|[k' v'] m IH]; [done|]. intros Hs. rewrite bt_get_cons by done. apply bt_sorted_cons in Hs as [Hs Hk]. cbn [bt_insert].
  unfold keqb. destruct (kcmp k k') eqn:E; cbn [length]; [done|intros Hg; exfalso|intros Hg; f_equal; by apply IH].
  assert (bt_get k m = None); [|congruence]. apply bt_get_above. by eapply Forall_klt_trans.
Qed.

Lemma bt_get_tail {V} (k : Z) (m : list (Z * V)) :
  bt_sorted m -> bt_get k (tail m) = match head m with Some e => if k =? e.1 then None else bt_get k m | None => None end.
Proof.
  destruct m as [|[k' v] m]; [done|]. intros Hm. pose proof Hm as [Hs Hk]%bt_sorted_cons. cbn [tail head fst]. rewrite bt_get_cons by done.
  destruct (Z.eqb_spec k k') as [->|Hne]; [by apply bt_get_above|]. by destruct (keqb_spec k k').
Qed.

Lemma bt_sorted_tail {V} (m : list (Z * V)) : bt_sorted m -> bt_sorted (tail m).
Proof. destruct m as [|[k v] m]; [done|]. by intros [? _]%bt_sorted_cons. Qed.

Lemma bt_last_bound {V} (m : list (Z * V)) k v : bt_sorted m -> last m = Some (k, v) -> Forall (fun e => e.1 <= k) m.
Proof.
  induction m as [|[k0 v0] m IH]; [done|]. intros [Hs Hk]%bt_sorted_cons. destruct m as [|e m].
  { intros [= -> ->]. constructor; [cbn; lia|done]. }
  change (last ((k0, v0) :: e :: m)) with (last (e :: m)). intros Hl. specialize (IH Hs Hl). constructor; [|done]. cbn [fst].
  apply Forall_cons in IH as [He _]. apply Forall_cons in Hk as [Hk _]. change (k0 < e.1) in Hk. lia.
Qed.

Lemma bt_last_max {V} (m : list (Z * V)) k v : bt_sorted m -> bt_get k m = Some v ->
  exists k' v', last m = Some (k', v') /\ k <= k' /\ bt_get k' m = Some v'.
Proof.
  intros Hs Hg%bt_get_In; [|done]. destruct (last m) as [[k' v']|] eqn:E; [|by apply last_None in E as ->].
  exists k', v'. pose proof (bt_last_bound m k' v' Hs E) as Hb. rewrite List.Forall_forall in Hb. split; [done|]. split; [apply (Hb (k, v) Hg)|].
  apply bt_get_In; [done|]. apply list_elem_of_In. by apply last_Some_elem_of.
Qed.

(** [files'] are the files of [files], some of them extended with zeros, and
    possibly new files of zeros. *)
Definition grown (files files' : WalFiles) : Prop :=
  bt_sorted (wf_files files') /\
  forall id, match get_checked files id with
    | Some file => exists n, get_checked files' id = Some (file ++ replicate n 0)
    | None => get_checked files' id = None \/ exists n, get_checked files' id = Some (replicate n 0)
    end.

Lemma grown_refl files : bt_sorted (wf_files files) -> grown files files.
Proof.
  intros Hs. split; [done|]. intros id. destruct (get_checked files id) as [file|]; [|by left]. exists 0%nat. cbn. by rewrite app_nil_r.
Qed.

Lemma grown_trans a b c : grown a b -> grown b c -> grown a c.
Proof.
  intros [_ Hab] [? Hbc]. split; [done|]. intros id. specialize (Hab id). specialize (Hbc id). destruct (get_checked a id) as [file|].
  - destruct Hab as [n Hn]. rewrite Hn in Hbc. destruct Hbc as [n' Hn']. exists (n + n')%nat. by rewrite replicate_add, app_assoc.
  - destruct Hab as [Hn|[n Hn]]; rewrite Hn in Hbc; [done|]. right. destruct Hbc as [n' Hn']. exists (n + n')%nat. by rewrite replicate_add.
Qed.

(** ** The window of mapped fragments *)

Section window.
Context (l : WalLayout) (Hl : layout_ok l) (Hmax : 3 <= max_maps l).

(** [finalized]: the last fragment handed to the syncer. *)
Record mapper_inv (finalized : MapId) (t : WalMapperThread) : Prop := mkMapperInv {
  mi_maps : bt_sorted (mt_maps t);
  mi_files : bt_sorted (wf_files (mt_files t));
  mi_len : Z.of_nat (length (mt_maps t)) <= max_maps l;
  mi_bounds : forall m mp, bt_get m (mt_maps t) = Some mp -> 0 <= m <= mt_map_id t;
  mi_ids : forall m mp, bt_get m (mt_maps t) = Some mp -> mp_id mp = m;
  mi_backed : forall m mp, bt_get m (mt_maps t) = Some mp ->
    exists file, get_checked (mt_files t) (map_file l m) = Some file /\ covered l file m;
  mi_ahead : forall m, finalized < m <= mt_map_id t -> exists mp, bt_get m (mt_maps t) = Some mp /\ mp_writeable mp = true;
  mi_next : finalized < mt_map_id t <= finalized + 3;
  mi_fits : map_fits l (mt_map_id t);
  mi_above : forall id id', map_file l (mt_map_id t) <= id <= id' -> is_Some (get_checked (mt_files t) id') ->
    is_Some (get_checked (mt_files t) id);
}.

(** Mapping one more fragment does not evict one the writer is ahead of. *)
Lemma maps_map_ok (maps : WalMaps) (m : MapId) :
  bt_sorted maps -> Z.of_nat (length maps) <= max_maps l -> Forall (fun e => 0 <= e.1 < m) maps ->
  exists maps', maps_map l maps m = Ok (maps', create_map m) /\ bt_sorted maps' /\ Z.of_nat (length maps') <= max_maps l /\
    bt_get m maps' = Some (create_map m) /\
    (forall k mp, bt_get k maps' = Some mp -> k = m \/ bt_get k maps = Some mp) /\
    (forall k mp, m - 2 <= k -> bt_get k maps = Some mp -> bt_get k maps' = Some mp).
Proof.
  intros Hs Hlen Hb. unfold maps_map, create_map, create_map_impl. ids_as_Z. set (maps1 := bt_insert m (mkMap m true true) maps).
  assert (bt_get m maps = None) as Hn.
  { apply bt_get_None; [done|]. intros v Hin. rewrite List.Forall_forall in Hb. specialize (Hb _ Hin). cbn in Hb. lia. }
  rewrite Hn. cbn [assert_that mbind outcome_bind].
  assert (bt_sorted maps1) as Hs1 by (by apply bt_insert_sorted).
  assert (forall k, bt_get k maps1 = if keqb k m then Some (mkMap m true true) else bt_get k maps) as Hg1 by (intros k; by apply bt_get_insert).
  assert (length maps1 <= S (length maps))%nat as Hil by apply bt_insert_length. clearbody maps1.
  destruct (Z.ltb_spec (max_maps l) (Z.of_nat (length maps1))) as [Hlt|Hge].
  - destruct maps1 as [|[k0 v0] rest]; [cbn in Hlt; lia|]. cbn [tail].
    assert (k0 < m - 2) as Hk0.
    { destruct (Z.ltb_spec k0 (m - 2)); [done|]. exfalso. pose proof Hs1 as [Hs2 Hk2]%bt_sorted_cons.
      assert (Z.of_nat (length rest) <= m - (k0 + 1) + 1) as Hlr.
      { assert (0 <= k0 <= m) as Hk0m.
        { assert (bt_get k0 ((k0, v0) :: rest) = Some v0) as Hx by (rewrite bt_get_cons, keqb_refl by done; done).
          rewrite Hg1 in Hx. destruct (keqb_spec k0 m) as [->|]; [split; [|lia]|].
          - destruct maps as [|e ?]; [cbn [length] in *; lia|]. apply Forall_cons in Hb as [? _]. lia.
          - apply bt_get_In in Hx; [|done]. rewrite List.Forall_forall in Hb. specialize (Hb _ Hx). cbn in Hb. lia. }
        apply bt_length_interval; [done| |lia]. apply List.Forall_forall. intros [k v] Hin. cbn [fst]. split.
        - rewrite List.Forall_forall in Hk2. specialize (Hk2 _ Hin). change (k0 < k) in Hk2. lia.
        - assert (bt_get k ((k0, v0) :: rest) = Some v) as Hx by (apply bt_get_In; [done|by right]). rewrite Hg1 in Hx.
          destruct (keqb_spec k m) as [->|]; [lia|]. apply bt_get_In in Hx; [|done]. rewrite List.Forall_forall in Hb.
          specialize (Hb _ Hx). cbn in Hb. lia. }
      cbn [length] in Hlt. lia. }
    assert (forall k, k <> k0 -> bt_get k rest = bt_get k ((k0, v0) :: rest)) as Ht.
    { intros k Hne. pose proof (bt_get_tail k _ Hs1) as Hx. cbn in Hx. rewrite Hx. by destruct (Z.eqb_spec k k0). }
    assert (bt_get m rest = Some (mkMap m true true)) as Hm by (rewrite Ht, Hg1, keqb_refl by lia; done).
    exists rest. rewrite Hm. cbn [expect mbind outcome_bind]. split_and!; [done|by apply bt_sorted_cons in Hs1 as [? _]| |done| |].
    + cbn [length] in *. lia.
    + intros k mp Hg. destruct (decide (k = k0)) as [->|]; [|rewrite Ht, Hg1 in Hg by done; destruct (keqb_spec k m); auto].
      exfalso. pose proof (bt_get_tail k0 _ Hs1) as Hx. cbn in Hx. rewrite Z.eqb_refl, Hg in Hx. done.
    + intros k mp Hk Hg. rewrite Ht, Hg1 by lia. destruct (keqb_spec k m) as [->|]; [congruence|done].
  - exists maps1. rewrite Hg1, keqb_refl. cbn [expect mbind outcome_bind]. split_and!; [done|done|done|done| |].
    + intros k mp. rewrite Hg1. destruct (keqb_spec k m); auto.
    + intros k mp _ Hg. rewrite Hg1. destruct (keqb_spec k m) as [->|]; [congruence|done].
Qed.

Lemma map_next_ok finalized t :
  mapper_inv finalized t -> mt_map_id t < finalized + 3 -> map_fits l (mt_map_id t + 1) ->
  exists t', map_next l t = Ok t' /\ mapper_inv finalized t' /\ mt_map_id t' = mt_map_id t + 1 /\ mt_published t' = mt_maps t' /\
    mt_synced t' = mt_synced t /\ grown (mt_files t) (mt_files t').
Proof.
  intros Hi Hlt Hfit. pose proof Hi as [Hm Hf Hlen Hb Hids Hback Hahead Hnext [Hfit0 Hfit1] Habove]. set (M := mt_map_id t) in *.
  assert (map_id_next_map M = M + 1) as EM.
  { unfold map_id_next_map, u64_add. apply wrap64_small. destruct Hfit as [? Hr], Hl as ((? & _) & _). unfold is_u64, u64_max in *. nia. }
  unfold map_next, mapper_make_map. fold M. rewrite EM. cbn [mt_maps mt_files mt_map_id mt_published mt_synced].
  rewrite file_for_map_ok by done. cbn [mbind outcome_bind].
  destruct (Hahead M ltac:(lia)) as (mpM & HgM & _). destruct (Hback M mpM HgM) as (fileM & HfM & _).
  unfold get_checked in HfM. destruct (bt_last_max (wf_files (mt_files t)) _ _ Hf HfM) as (cur & fcur & Elast & Hcur & Hgcur).
  unfold current_file_id. ids_as_Z. rewrite Elast. cbn [option_map fst expect mbind outcome_bind].
  pose proof (map_file_next l Hl M Hfit0) as HfN.
  set (id := map_file l (M + 1)) in *.
  assert (exists files file, (if cur <? id then
            _ ← assert_that (id =? u64_add cur 1) "assertion `left == right` failed";
            new_file ← open_file l None; with_file (mt_files t) id new_file else Ok (mt_files t)) = Ok files /\
          bt_sorted (wf_files files) /\ get_checked files id = Some file /\
          (forall i g, get_checked (mt_files t) i = Some g -> get_checked files i = Some g) /\
          (forall i, is_Some (get_checked files i) -> i = id \/ is_Some (get_checked (mt_files t) i)) /\
          (get_checked (mt_files t) id = None -> file = [])) as (files & file & Ef & Hsf & Hgid & Hkeep & Hnew & Hfresh).
  { destruct (Z.ltb_spec cur id) as [Hc|Hc].
    - assert (id = cur + 1) as Eid by lia. assert (u64_add cur 1 = cur + 1) as ->.
      { unfold u64_add. apply wrap64_small. pose proof (map_file_split l Hl (M + 1) ltac:(lia)).
        pose proof (map_offset_next l Hl (M + 1) ltac:(lia)) as (? & _). destruct Hl as ((? & _) & _ & (? & _) & _), Hfit as [_ Hr].
        assert (0 <= id) by (apply Z.div_pos; nia). fold id in H. unfold is_u64, u64_max in *. nia. }
      rewrite <- Eid, Z.eqb_refl. cbn [assert_that mbind outcome_bind]. unfold open_file, wal_resize. cbn [default file_len length].
      rewrite u64_rem_ok by (destruct Hl as ((? & _) & _); lia). cbn. rewrite Zmod_0_l. cbn.
      assert (get_checked (mt_files t) id = None) as Hnone.
      { destruct (get_checked (mt_files t) id) as [g|] eqn:E; [|done]. exfalso. unfold get_checked in E.
        destruct (bt_last_max _ _ _ Hf E) as (c' & f' & El' & Hle & _). rewrite Elast in El'. injection El' as <- <-. lia. }
      unfold with_file. rewrite Hnone. cbn. eexists _, []. split; [done|]. unfold get_checked. cbn [wf_files].
      split; [by apply bt_insert_sorted|]. split; [rewrite bt_get_insert, keqb_refl by done; done|]. split; [|split; [|done]].
      + intros i g Hg. rewrite bt_get_insert by done. destruct (keqb_spec i id) as [->|]; [|done]. unfold get_checked in Hnone. congruence.
      + intros i. rewrite bt_get_insert by done. destruct (keqb_spec i id); auto.
    - destruct (Habove id cur) as [g Hg]; [fold M; lia|by exists fcur|]. exists (mt_files t), g. split_and!; auto. congruence. }
  rewrite Ef. cbn [mbind outcome_bind]. unfold get_file. rewrite Hgid. cbn [expect mbind outcome_bind].
  destruct (extend_ok l Hl file (M + 1) Hfit) as (n & -> & Hcov). cbn [mbind outcome_bind].
  destruct (maps_map_ok (mt_maps t) (M + 1) Hm Hlen) as (maps' & -> & Hsm & Hlm & Hgm & Hold & Hsur).
  { apply List.Forall_forall. intros [k mp] Hin. apply bt_get_In in Hin; [|done]. cbn [fst]. specialize (Hb _ _ Hin). lia. }
  cbn [mbind outcome_bind]. eexists. split; [done|].
  assert (forall i g, get_checked files i = Some g -> exists g', get_checked (put_file files id (file ++ replicate n 0)) i = Some g' /\
            (i = id /\ g' = file ++ replicate n 0 \/ i <> id /\ g' = g)) as Hput.
  { intros i g Hg. unfold get_checked, put_file in *. cbn [wf_files]. rewrite bt_get_insert by done.
    destruct (keqb_spec i id) as [->|]; eexists; (split; [done|]); auto. }
  assert (grown (mt_files t) (put_file files id (file ++ replicate n 0))) as Hgrown.
  { split; [by apply bt_insert_sorted|]. intros i. destruct (get_checked (mt_files t) i) as [g|] eqn:Eg.
    - destruct (Hput i g (Hkeep _ _ Eg)) as (g' & Hg' & [[-> ->]|[_ ->]]); [|exists 0%nat; cbn; by rewrite app_nil_r].
      exists n. assert (file = g) as <-; [|done]. pose proof (Hkeep _ _ Eg). congruence.
    - destruct (decide (i = id)) as [->|Hne].
      + right. exists n. rewrite (Hfresh Eg) in *. destruct (Hput id [] Hgid) as (g' & Hg' & [[_ ->]|[? _]]); done.
      + left. unfold get_checked, put_file in *. cbn [wf_files]. rewrite bt_get_insert by done. destruct (keqb_spec i id); [done|].
        destruct (bt_get i (wf_files files)) as [g|] eqn:E'; [|done]. destruct (Hnew i ltac:(by exists g)) as [?|[g' Hg']]; [done|congruence]. }
  split; [|done].
  split; cbn [mt_maps mt_files mt_map_id publish_maps mt_published]; try done.
  - by apply bt_insert_sorted.
  - intros m mp [->|Hg]%Hold; [lia|]. specialize (Hb _ _ Hg). lia.
  - intros m mp Hg. destruct (Hold _ _ Hg) as [->|Hg']; [|by apply (Hids m)]. by assert (mp = create_map (M + 1)) as -> by congruence.
  - intros m mp [->|Hg]%Hold.
    + destruct (Hput id file Hgid) as (g' & Hg' & [[_ ->]|[? _]]); [|done]. by exists (file ++ replicate n 0).
    + destruct (Hback _ _ Hg) as (g & Hgf & Hc). destruct (Hput _ _ (Hkeep _ _ Hgf)) as (g' & Hg' & [[E ->]|[_ ->]]); [|by exists g].
      exists (file ++ replicate n 0). split; [done|]. apply covered_longer. rewrite E in Hgf. pose proof (Hkeep _ _ Hgf) as Hx. congruence.
  - intros m Hmr. destruct (decide (m = M + 1)) as [->|]; [by eexists|]. destruct (Hahead m ltac:(lia)) as (mp & Hg & Hw).
    exists mp. split; [|done]. apply Hsur; [lia|done].
  - lia.
  - intros i i' Hii Hsome. assert (forall j, is_Some (get_checked (put_file files id (file ++ replicate n 0)) j) <-> is_Some (get_checked files j)) as Hiff.
    { intros j. unfold get_checked, put_file. cbn [wf_files]. rewrite bt_get_insert by done. destruct (keqb_spec j id) as [->|]; [|done].
      unfold get_checked in Hgid. rewrite Hgid. split; by eexists. }
    apply Hiff. apply Hiff, Hnew in Hsome as [->|Hsome]; [assert (i = id) as -> by (fold id in Hii; lia); by exists file|].
    destruct (Habove i i') as [g Hg]; [fold id in Hii; lia|done|]. exists g. by apply Hkeep.
Qed.

(** *** Deleting files *)

Lemma filter_length_all {A} (f : A -> bool) (xs : list A) : length (List.filter f xs) = length xs -> List.filter f xs = xs.
Proof.
  induction xs as [|x xs IH]; [done|]. cbn [List.filter]. pose proof (List.filter_length_le f xs). destruct (f x); cbn [length]; intros E.
  - f_equal. apply IH. lia.
  - lia.
Qed.

Lemma retain_maps_ok (deleting : gset WalFileId) (maps : WalMaps) :
  Forall (fun e => map_fits l e.1) maps ->
  retain_maps l maps deleting =
  Ok (List.filter (fun e => mp_writeable e.2 || negb (bool_decide (map_file l e.1 ∈ deleting))) maps).
Proof.
  induction 1 as [|[m mp] maps Hm _ IH]; [done|]. cbn [retain_maps fst] in *. rewrite file_for_map_ok by done. cbn [mbind outcome_bind].
  rewrite IH. cbn [mbind outcome_bind List.filter fst snd]. done.
Qed.

Lemma mapped_files_ok (maps : WalMaps) :
  Forall (fun e => map_fits l e.1) maps ->
  exists mapped, mapped_files l maps = Ok mapped /\ forall id, id ∈ mapped <-> exists m mp, In (m, mp) maps /\ map_file l m = id.
Proof.
  induction 1 as [|[m mp] maps Hm _ (mapped & E & IH)]; [exists ∅; split; [done|set_solver]|]. cbn [mapped_files fst] in *.
  rewrite file_for_map_ok by done. cbn [mbind outcome_bind]. rewrite E. cbn [mbind outcome_bind]. eexists. split; [done|].
  intros id. rewrite elem_of_union, elem_of_singleton, IH. cbn [In]. naive_solver.
Qed.

Lemma remove_files_get to_remove : forall (files : list (WalFileId * list Z)) id,
  bt_sorted files ->
  bt_sorted (remove_files files to_remove).1 /\
  bt_get id (remove_files files to_remove).1 = if bool_decide (id ∈ to_remove) then None else bt_get id files.
Proof.
  induction to_remove as [|r rest IH]; intros files id Hs; [done|]. cbn [remove_files].
  assert (bt_get r files = None -> bt_get id (remove_files files rest).1 = if bool_decide (id ∈ r :: rest) then None else bt_get id files) as Hn.
  { intros Hn. destruct (IH files id Hs) as [_ ->]. rewrite (bool_decide_ext (id ∈ r :: rest) (id = r \/ id ∈ rest)) by apply elem_of_cons.
    repeat case_bool_decide; naive_solver. }
  destruct (bt_get r files) as [f|] eqn:E; [|split; [by apply IH|by apply Hn]].
  assert (bt_sorted (bt_remove r files)) as Hs' by (by apply bt_remove_sorted).
  destruct (IH (bt_remove r files) id Hs') as [H1 H2]. destruct (remove_files (bt_remove r files) rest) as [fs removed]. cbn [fst] in *.
  split; [done|]. rewrite H2, bt_get_remove by done. rewrite (bool_decide_ext (id ∈ r :: rest) (id = r \/ id ∈ rest)) by apply elem_of_cons.
  destruct (keqb_spec id r) as [->|]; repeat case_bool_decide; naive_solver.
Qed.

(** The files kept are those not asked for, and those a map still needs. *)
Lemma delete_files_ok finalized t (to_delete : list WalFileId) :
  mapper_inv finalized t -> mt_published t = mt_maps t -> Forall (fun id => id <= map_file l (mt_map_id t)) to_delete ->
  exists t', delete_files l t to_delete = Ok t' /\ mapper_inv finalized t' /\ mt_published t' = mt_maps t' /\
    mt_map_id t' = mt_map_id t /\ mt_synced t' = mt_synced t /\
    (forall id file, get_checked (mt_files t) id = Some file -> get_checked (mt_files t') id = Some file \/
       In id to_delete /\ get_checked (mt_files t') id = None).
Proof.
  intros Hi Hpub Hdel. pose proof Hi as [Hm Hf Hlen Hb Hids Hback Hahead Hnext Hfits Habove].
  assert (forall m, 0 <= m <= mt_map_id t -> map_fits l m) as Hfit.
  { intros m Hmr. destruct Hfits as [? Hr], Hl as ((? & _) & _). split; [lia|nia]. }
  assert (Forall (fun e => map_fits l e.1) (mt_maps t)) as Hfm.
  { apply List.Forall_forall. intros [m mp] Hin. apply bt_get_In in Hin; [|done]. by apply Hfit, (Hb m mp). }
  unfold delete_files. rewrite retain_maps_ok by done. cbn [mbind outcome_bind]. set (maps := List.filter _ (mt_maps t)).
  assert (bt_sorted maps) as Hsm by (by apply bt_filter_sorted).
  assert (forall m mp, bt_get m maps = Some mp -> bt_get m (mt_maps t) = Some mp) as Hsub.
  { intros m mp Hg. apply bt_get_In in Hg; [|done]. apply filter_In in Hg as [Hg _]. by apply bt_get_In. }
  assert (forall m mp, bt_get m (mt_maps t) = Some mp -> mp_writeable mp = true -> bt_get m maps = Some mp) as Hkeep.
  { intros m mp Hg Hw. apply bt_get_In; [done|]. apply filter_In. split; [by apply bt_get_In|]. cbn [snd]. by rewrite Hw. }
  destruct (mapped_files_ok maps) as (mapped & -> & Hmapped).
  { apply List.Forall_forall. intros e [He _]%filter_In. rewrite List.Forall_forall in Hfm. by apply Hfm. }
  cbn [mbind outcome_bind]. set (t1 := if negb _ then publish_maps (set_maps t maps) else set_maps t maps).
  assert (mt_maps t1 = maps /\ mt_files t1 = mt_files t /\ mt_map_id t1 = mt_map_id t /\ mt_published t1 = maps /\ mt_synced t1 = mt_synced t)
    as (E1 & E2 & E3 & E4 & E5).
  { unfold t1. destruct (Nat.eqb_spec (length maps) (length (mt_maps t))) as [E|E]; cbn; [|done]. split_and!; try done.
    rewrite Hpub. symmetry. apply filter_length_all. exact E. }
  assert (forall files, bt_sorted (wf_files files) ->
    (forall id, id ∈ mapped -> get_checked files id = get_checked (mt_files t) id) ->
    (forall id, map_file l (mt_map_id t) < id -> get_checked files id = get_checked (mt_files t) id) ->
    mapper_inv finalized (set_files t1 files)) as Hinv.
  { intros files Hsf Hsame Hhigh. assert (exists mp, bt_get (mt_map_id t) maps = Some mp) as [mpM HgM].
    { destruct (Hahead (mt_map_id t) ltac:(lia)) as (mp & Hg & Hw). exists mp. by apply Hkeep. }
    assert (get_checked files (map_file l (mt_map_id t)) = get_checked (mt_files t) (map_file l (mt_map_id t))) as Htop.
    { apply Hsame, Hmapped. exists (mt_map_id t), mpM. split; [|done]. by apply bt_get_In. }
    split; unfold set_files; cbn [mt_maps mt_files mt_map_id]; rewrite ?E1, ?E3; try done.
    - etrans; [|exact Hlen]. apply inj_le, List.filter_length_le.
    - intros m mp Hg. by apply (Hb m mp), Hsub.
    - intros m mp Hg. by apply (Hids m mp), Hsub.
    - intros m mp Hg. destruct (Hback m mp (Hsub _ _ Hg)) as (file & Hgf & Hc). exists file. split; [|done]. rewrite Hsame; [done|].
      apply Hmapped. exists m, mp. split; [|done]. by apply bt_get_In.
    - intros m Hmr. destruct (Hahead m Hmr) as (mp & Hg & Hw). exists mp. split; [|done]. by apply Hkeep.
    - assert (forall i, map_file l (mt_map_id t) <= i -> get_checked files i = get_checked (mt_files t) i) as Heq.
      { intros i Hi'. destruct (decide (i = map_file l (mt_map_id t))) as [->|]; [done|]. apply Hhigh. lia. }
      intros id id' Hid. rewrite !Heq by lia. by apply Habove. }
  set (actual := List.filter _ to_delete).
  assert (forall id, (id ∈ actual) -> (id ∉ mapped) /\ In id to_delete) as Hact.
  { intros id Hin. apply list_elem_of_In, filter_In in Hin as [Hin Hx]. apply andb_true_iff in Hx as [Hx _].
    apply negb_true_iff, bool_decide_eq_false in Hx. done. }
  destruct actual as [|a0 actual'] eqn:Ea.
  - exists t1. split; [done|]. split; [|rewrite E1, E2, E3, E4, E5; split_and!; auto].
    replace t1 with (set_files t1 (mt_files t)); [by apply Hinv|]. unfold set_files. rewrite <- E2. by destruct t1.
  - set (srt := merge_sort Z.le (remove_dups (a0 :: actual'))).
    assert (forall id, id ∈ srt <-> id ∈ a0 :: actual') as Hsrt.
    { intros id. unfold srt. rewrite merge_sort_Permutation. apply elem_of_remove_dups. }
    pose proof (fun id => remove_files_get srt (wf_files (mt_files t)) id Hf) as Hrem.
    eexists. split; [done|]. unfold without_files. fold srt.
    destruct (remove_files (wf_files (mt_files t)) srt) as [fs removed] eqn:Er. cbn [fst] in *.
    split; [apply Hinv|]; unfold get_checked; cbn [wf_files].
    + apply (Hrem 0).
    + intros id Hid. destruct (Hrem id) as [_ ->]. rewrite bool_decide_false; [done|]. rewrite Hsrt. intros Hx. by apply (Hact id).
    + intros id Hid. destruct (Hrem id) as [_ ->]. rewrite bool_decide_false; [done|]. rewrite Hsrt. intros Hx. apply Hact in Hx as [_ Hx].
      rewrite List.Forall_forall in Hdel. specialize (Hdel _ Hx). cbv beta in Hdel. lia.
    + unfold set_files. cbn [mt_maps mt_published mt_map_id mt_synced mt_files wf_files]. rewrite E1, E3, E4, E5. split_and!; try done.
      intros id file Hg. destruct (Hrem id) as [_ ->]. case_bool_decide as Hx; [|by left]. right. split; [|done]. apply Hact, Hsrt, Hx.
Qed.

Lemma files_below_ids (files : list (WalFileId * list Z)) watermark m :
  map_fits l m -> watermark <= frag_size l * (m + 1) -> Forall (fun e => 0 <= e.1 /\ wal_file_size l * (e.1 + 1) <= u64_max) files ->
  Forall (fun id => id <= map_file l m) (files_below l files watermark).
Proof.
  intros Hm Hw. induction 1 as [|[id f] files [Hid Hfit] _ IH]; cbn [files_below]; [constructor|]. cbn [fst] in *.
  destruct (Z.ltb_spec watermark (wal_file_range l id).2) as [|Hle]; constructor; [|done].
  pose proof Hl as ((Hf & _) & _ & (Hws & _) & _). unfold wal_file_range, u64_mul, u64_add in Hle. cbn [snd] in Hle.
  rewrite (wrap64_small (id + 1)) in Hle by (unfold is_u64, u64_max in *; nia). rewrite wrap64_small in Hle by (unfold is_u64, u64_max in *; nia).
  destruct Hm as [Hm _]. pose proof (map_file_split l Hl m Hm). pose proof (map_offset_next l Hl m Hm) as (? & ? & _). nia.
Qed.

(** *** Messages *)

(** The registry holds files whose positions fit. *)
Definition files_fit (w : WalFiles) : Prop :=
  Forall (fun e => 0 <= e.1 /\ wal_file_size l * (e.1 + 1) <= u64_max) (wf_files w).

(** What the tracker and the database send: fragments are finalized in order
    (a fragment below the writer may be finalized again when it is unmapped or
    read-only), watermarks do not pass the mapped fragments, and files past them
    are not asked to be deleted. *)
Definition message_ok (finalized : MapId) (t : WalMapperThread) (m : WalMapperMessage) : Prop :=
  match m with
  | MapperMapFinalized m =>
      (m = finalized + 1 /\ map_fits l (mt_map_id t + 1)) \/
      (m <= finalized /\ match bt_get m (mt_maps t) with Some mp => mp_writeable mp = false | None => True end)
  | MinWalPositionUpdated watermark => watermark <= frag_size l * (mt_map_id t + 1) /\ files_fit (mt_files t)
  | DeleteFiles files => Forall (fun id => id <= map_file l (mt_map_id t)) files
  end.

Definition message_finalized (finalized : MapId) (m : WalMapperMessage) : MapId :=
  match m with MapperMapFinalized m => Z.max finalized m | _ => finalized end.

(** The three fragments after the last finalized one are published writeable,
    and a published fragment has its file, which covers it. *)
Definition window_ok (finalized : MapId) (t : WalMapperThread) : Prop :=
  Z.of_nat (length (mt_published t)) <= max_maps l /\
  (forall m, finalized < m <= finalized + 3 -> exists mp, bt_get m (mt_published t) = Some mp /\ mp_writeable mp = true) /\
  (forall m mp, bt_get m (mt_published t) = Some mp -> exists file, get_checked (mt_files t) (map_file l m) = Some file /\ covered l file m).

Definition mapper_steady (finalized : MapId) (t : WalMapperThread) : Prop :=
  mapper_inv finalized t /\ mt_published t = mt_maps t /\ mt_map_id t = finalized + 3.

Lemma steady_window finalized t : mapper_steady finalized t -> window_ok finalized t.
Proof.
  intros (Hi & Hp & E). unfold window_ok. rewrite Hp. split_and!; [apply Hi| |apply Hi]. intros m Hm. apply (mi_ahead _ _ Hi). lia.
Qed.

(** Finalizing the next fragment maps one more. *)
Lemma mapper_handle_grown finalized t :
  mapper_steady finalized t -> map_fits l (mt_map_id t + 1) ->
  exists t', mapper_handle l t (MapperMapFinalized (finalized + 1)) = Ok t' /\ mapper_steady (finalized + 1) t' /\ grown (mt_files t) (mt_files t').
Proof.
  intros (Hi & Hpub & Hid) Hfit. cbn [mapper_handle]. ids_as_Z.
  destruct (mi_ahead _ _ Hi (finalized + 1)) as (mp & Hg & Hw); [lia|]. rewrite Hg, Hw. cbn [negb].
  set (t1 := mkMapper _ _ _ _ _). pose proof Hi as [Hm Hf Hlen Hb Hids Hback Hahead Hnext Hfits Habove].
  assert (forall k, bt_get k (mt_maps t1) = if keqb k (finalized + 1) then Some (mkMap (mp_id mp) false (mp_populated mp)) else bt_get k (mt_maps t)) as Hget
    by (intros k; by apply bt_get_insert).
  destruct (map_next_ok (finalized + 1) t1) as (t' & Ht' & Hi' & Eid & Epub & _ & Hgr).
  - split; try done; unfold t1 in *; cbn [mt_maps mt_files mt_map_id] in *.
    + by apply bt_insert_sorted.
    + pose proof (bt_insert_length_same (finalized + 1) (mkMap (mp_id mp) false (mp_populated mp)) mp (mt_maps t) Hm Hg) as El. ids_as_Z. lia.
    + intros k q. rewrite Hget. destruct (keqb_spec k (finalized + 1)) as [->|]; [intros _; by apply (Hb _ mp)|apply Hb].
    + intros k q. rewrite Hget. destruct (keqb_spec k (finalized + 1)) as [->|]; [intros [= <-]; by apply (Hids _ mp)|apply Hids].
    + intros k q. rewrite Hget. destruct (keqb_spec k (finalized + 1)) as [->|]; [intros _; by apply (Hback _ mp)|apply Hback].
    + intros k Hk. rewrite Hget. ids_as_Z. destruct (keqb_spec k (finalized + 1)); [lia|]. apply Hahead. lia.
    + lia.
  - unfold t1. cbn. lia.
  - exact Hfit.
  - exists t'. split; [done|]. split; [|exact Hgr]. split_and!; [done|done|]. rewrite Eid. unfold t1. cbn. lia.
Qed.

Lemma mapper_handle_ok finalized t m :
  mapper_steady finalized t -> message_ok finalized t m ->
  exists t', mapper_handle l t m = Ok t' /\ mapper_steady (message_finalized finalized m) t'.
Proof.
  intros (Hi & Hpub & Hid) Hok. destruct m as [m|watermark|files]; cbn [mapper_handle message_finalized]; ids_as_Z.
  - destruct Hok as [[-> Hfit]|[Hle Hmp]].
    + destruct (mapper_handle_grown finalized t ltac:(by split_and!) Hfit) as (t' & Ht' & Hst & _). cbn [mapper_handle] in Ht'. ids_as_Z.
      exists t'. rewrite Z.max_r by lia. by split.
    + rewrite Z.max_l by lia. ids_as_Z. destruct (bt_get m (mt_maps t)) as [mp|]; [rewrite Hmp; cbn [negb]|]; by exists t.
  - destruct Hok as [Hok Hff]. unfold mapper_min_wal_position_updated. pose proof (files_below_ids (wf_files (mt_files t)) watermark (mt_map_id t) (mi_fits _ _ Hi) Hok Hff) as Hb.
    destruct (files_below l _ watermark) as [|id ids] eqn:E; [by exists t|].
    destruct (delete_files_ok finalized t (id :: ids) Hi Hpub Hb) as (t' & -> & Hi' & Hpub' & Eid & _). exists t'. split; [done|].
    split_and!; [done|done|]. by rewrite Eid.
  - destruct (delete_files_ok finalized t files Hi Hpub Hok) as (t' & -> & Hi' & Hpub' & Eid & _). exists t'. split; [done|].
    split_and!; [done|done|]. by rewrite Eid.
Qed.

(** The maps and files a writer starts with: the last mapped fragment is the
    writer's. *)
Record start_ok (maps : WalMaps) (files : WalFiles) (writer : MapId) : Prop := mkStartOk {
  sk_maps : bt_sorted maps;
  sk_files : bt_sorted (wf_files files);
  sk_len : Z.of_nat (length maps) <= max_maps l;
  sk_last : exists mp, last maps = Some (writer, mp) /\ mp_writeable mp = true;
  sk_bounds : Forall (fun e => 0 <= e.1) maps;
  sk_ids : forall m mp, bt_get m maps = Some mp -> mp_id mp = m;
  sk_backed : forall m mp, bt_get m maps = Some mp -> exists file, get_checked files (map_file l m) = Some file /\ covered l file m;
  sk_fits : map_fits l (writer + 2);
  sk_above : forall id id', map_file l writer <= id <= id' -> is_Some (get_checked files id') -> is_Some (get_checked files id);
}.

Lemma mapper_start_ok maps files writer :
  start_ok maps files writer -> exists t, mapper_start l maps files = Ok t /\ mapper_steady (writer - 1) t /\ grown files (mt_files t).
Proof.
  intros [Hm Hf Hlen (mp & Hlast & Hw) Hb Hids Hback Hfits Habove]. unfold mapper_start.
  assert (match maps with [] => false | _ => true end = true) as -> by (by destruct maps).
  cbn [assert_that mbind outcome_bind]. destruct (Z.ltb_spec (max_maps l) (Z.of_nat INITIAL_MAPS_BUFFER + 1)); [unfold INITIAL_MAPS_BUFFER in *; lia|].
  rewrite Hlast. cbn [option_map fst expect mbind outcome_bind].
  assert (bt_get writer maps = Some mp) as Hg by (apply bt_get_In; [done|]; by apply list_elem_of_In, last_Some_elem_of).
  pose proof (bt_last_bound maps writer mp Hm Hlast) as Hle. rewrite List.Forall_forall in Hb, Hle.
  assert (forall k, k <= writer + 2 -> 0 <= k -> map_fits l k) as Hfit.
  { intros k Hk Hk0. destruct Hfits as [_ Hr], Hl as ((? & _) & _). split; [done|nia]. }
  assert (0 <= writer) as Hw0 by (apply (Hb (writer, mp)); by apply bt_get_In in Hg).
  destruct (map_next_ok (writer - 1) (mkMapper maps files writer maps [])) as (t1 & Ht1 & Hi1 & E1 & _ & _ & Hg1).
  - split; cbn [mt_maps mt_files mt_map_id]; try done.
    + intros k q Hk%bt_get_In; [|done]. split; [apply (Hb _ Hk)|apply (Hle _ Hk)].
    + intros k Hk. assert (k = writer) as -> by lia. by exists mp.
    + lia.
    + apply Hfit; lia.
  - cbn. lia.
  - cbn. apply Hfit; lia.
  - rewrite Ht1. cbn [mbind outcome_bind mt_map_id] in *.
    destruct (map_next_ok (writer - 1) t1 Hi1) as (t2 & Ht2 & Hi2 & E2 & Hp2 & _ & Hg2); [lia|apply Hfit; lia|].
    exists t2. split; [done|]. split; [split_and!; [done|done|lia]|]. by eapply grown_trans.
Qed.

Inductive mapper_run : MapId -> WalMapperThread -> Prop :=
| run_start maps files writer t : start_ok maps files writer -> mapper_start l maps files = Ok t -> mapper_run (writer - 1) t
| run_message finalized t m t' :
    mapper_run finalized t -> message_ok finalized t m -> mapper_handle l t m = Ok t' -> mapper_run (message_finalized finalized m) t'.

Lemma mapper_run_steady finalized t : mapper_run finalized t -> mapper_steady finalized t.
Proof.
  induction 1 as [maps files writer t Hs Ht|finalized t m t' _ IH Hok Hh].
  - destruct (mapper_start_ok maps files writer Hs) as (t' & Ht' & Hst & _). by assert (t' = t) as <- by congruence.
  - destruct (mapper_handle_ok finalized t m IH Hok) as (t2 & Ht2 & Hst). by assert (t2 = t') as <- by congruence.
Qed.
End window.

(** C21. The mapper stays ahead of the writer.  From the maps a writer starts
    with, whatever fragments are finalized in order and whatever files are
    deleted, no message makes the mapper panic; the three fragments after the
    last finalized one are mapped and writeable, so a writer in the first of
    them always finds its map and two more; a mapped fragment has a registered
    file that covers it, so no file is deleted under a map; and at most
    [max_maps] fragments are mapped. *)
Theorem mapper_stays_ahead (l : WalLayout) (finalized : MapId) (t : WalMapperThread) :
  layout_ok l -> 3 <= max_maps l -> mapper_run l finalized t ->
  window_ok l finalized t /\
  forall m, message_ok l finalized t m -> exists t', mapper_handle l t m = Ok t' /\ window_ok l (message_finalized finalized m) t'.
Proof.
  intros Hl Hmax Hr%(mapper_run_steady l Hl Hmax). split; [by apply steady_window|]. intros m Hok.
  destruct (mapper_handle_ok l Hl Hmax finalized t m Hr Hok) as (t' & Ht & Hs). exists t'. split; [done|]. by apply steady_window.
Qed.

(** *** A run: the writer's fragment is the last of its file. *)

Definition demo_wal_files : WalFiles := mkWalFiles [(0, replicate 4096 0)].

Lemma mapper_stays_ahead_witness :
  exists t t', mapper_start demo_layout [(3, create_map 3)] demo_wal_files = Ok t /\
    mapper_handle demo_layout t (MapperMapFinalized 3) = Ok t' /\ window_ok demo_layout 3 t' /\ get_checked (mt_files t') 1 <> None.
Proof.
  assert (start_ok demo_layout [(3, create_map 3)] demo_wal_files 3) as Hs.
  { split.
    - apply bt_sorted_cons. by split; [constructor|].
    - apply bt_sorted_cons. by split; [constructor|].
    - cbn. lia.
    - by exists (create_map 3).
    - constructor; [cbn; lia|constructor].
    - intros m mp Hg. cbn in Hg. destruct (Z.compare_spec m 3) as [->| |]; try done. by injection Hg as <-.
    - intros m mp Hg. cbn in Hg. destruct (Z.compare_spec m 3) as [->| |]; try done. exists (replicate 4096 0). split; [done|]. vm_compute. discriminate.
    - split; vm_compute; discriminate.
    - intros id id' Hid [f Hf]. unfold get_checked, demo_wal_files in *. cbn in Hf |- *. change (map_file demo_layout 3) with 0 in Hid.
      destruct (Z.compare_spec id' 0); [|done..]. assert (id = 0) as -> by lia. by eexists. }
  destruct (mapper_start demo_layout [(3, create_map 3)] demo_wal_files) as [t|] eqn:Et; [|by vm_compute in Et].
  assert (mapper_run demo_layout 2 t) as Hr by exact (run_start demo_layout _ _ 3 t Hs Et).
  destruct (mapper_stays_ahead demo_layout 2 t demo_layout_ok ltac:(cbn; lia) Hr) as [_ Hm].
  destruct (Hm (MapperMapFinalized 3)) as (t' & Ht' & Hw).
  { left. split; [done|]. destruct (mapper_run_steady demo_layout demo_layout_ok ltac:(cbn; lia) 2 t Hr) as (_ & _ & E). rewrite E.
    split; vm_compute; discriminate. }
  exists t, t'. split; [reflexivity|]. split; [exact Ht'|]. split; [exact Hw|].
  vm_compute in Et. injection Et as <-. vm_compute in Ht'. injection Ht' as <-. vm_compute. discriminate.
Defined.
