(* ===== verification/Wal.v ===== *)
(** * The write-ahead log

    [src/tidehunter/src/wal/mod.rs]: where a frame's bytes are read from, the
    writer that allocates positions and copies frames into mapped fragments, and
    the iterator that scans the log at start-up and turns into the writer.

    The content of the log is the bytes of its files ([WalFiles]); a mapped
    fragment is a window over them.  The writer here runs alone: its allocation
    is the uncontended one of [Allocator], and where it would wait for the mapper
    it stops (the mapper's promise to be ahead is in [WalFiles]).  Writing
    outside a mapped fragment, undefined behaviour in the source, is a panic
    here. *)

From Stdlib Require Import ZArith Lia List Sorting.Sorted.
From stdpp Require Import base tactics list gmap strings relations sorting.
From S2P Require Import Prelude BTree Bytes Position Layout Allocator Tracker Crc WalFiles.

Local Open Scope Z_scope.

(** ** Data *)

Record Wal := mkWal { wl_layout : WalLayout; wl_files : WalFiles; wl_maps : WalMaps }.

Inductive WalError :=
| WalIo
| WalCrc (error : CrcReadError)
| EndOfWal.

Record WalWriter := mkWalWriter { ww_wal : Wal; ww_position : Z }.

Record WalIterator := mkWalIterator {
  wi_wal : Wal;
  wi_maps : WalMaps;
  wi_map : Map;
  wi_position : Z;
  wi_skip_crc : bool;
  wi_for_writer : bool;
}.

Inductive FrameSource :=
| SourceMapped (map : Map) (offset : Z)
| SourceFile (file : list Z).

Definition set_wal_files (w : Wal) (files : WalFiles) : Wal := mkWal (wl_layout w) files (wl_maps w).

Definition set_wal_maps (w : Wal) (maps : WalMaps) : Wal := mkWal (wl_layout w) (wl_files w) maps.

(** ** The bytes of a mapped fragment *)

(** Where a fragment's window starts in its file. *)
Definition map_window (l : WalLayout) (map_id : MapId) : outcome (WalFileId * nat) :=
  file_id ← file_for_map l map_id;
  start ← offset_in_wal_file l (map_range l map_id).1;
  Ok (file_id, Z.to_nat start).

Definition map_data (l : WalLayout) (files : WalFiles) (map_id : MapId) : outcome (list Z) :=
  '(file_id, start) ← map_window l map_id;
  file ← get_file files file_id;
  slice file start (start + Z.to_nat (frag_size l)).

(** [write_buf_at] and the copy into the buffer it returns. *)
Definition write_buf_at (l : WalLayout) (files : WalFiles) (map_id : MapId) (offset : nat) (bytes : list Z) : outcome WalFiles :=
  '(file_id, start) ← map_window l map_id;
  file ← get_file files file_id;
  _ ← assert_that (offset + length bytes <=? Z.to_nat (frag_size l))%nat "write outside the mapped fragment";
  Ok (put_file files file_id (copy_at file (start + offset) bytes)).

(** ** Reads *)

Definition wal_get_map (w : Wal) (id : MapId) : option Map := bt_get id (wl_maps w).

Definition frame_source (w : Wal) (pos : WalPosition) (whole_frame : bool) : outcome (option FrameSource) :=
  _ ← assert_that (negb (bool_decide (pos = WalPosition_INVALID))) "Trying to read invalid wal position";
  '(map_id, offset) ← locate (wl_layout w) (wp_offset pos);
  file_id ← locate_file (wl_layout w) (wp_offset pos);
  let file := option_map SourceFile (get_checked (wl_files w) file_id) in
  Ok (match wal_get_map w map_id with
      | Some map => if mp_populated map || negb whole_frame then Some (SourceMapped map offset) else file
      | None => file
      end).

Definition is_reachable (w : Wal) (pos : WalPosition) : outcome bool :=
  s ← frame_source w pos false;
  Ok (match s with Some _ => true | None => false end).

Section frames.
Context (hash : list Z -> Z).

Definition wal_crc {A} (r : CrcReadError + A) : WalError + A := match r with inl e => inl (WalCrc e) | inr a => inr a end.

(** [read_exact_at] *)
Definition read_exact_at (file : list Z) (offset len : nat) : option (list Z) :=
  if (offset + len <=? length file)%nat then Some (take len (drop offset file)) else None.

(** [Wal::read]: the payload, or [None] when the file is gone. *)
Definition wal_read (w : Wal) (pos : WalPosition) : outcome (WalError + option (list Z)) :=
  let l := wl_layout w in
  s ← frame_source w pos true;
  match s with
  | Some (SourceMapped map offset) =>
      data ← map_data l (wl_files w) (mp_id map);
      r ← read_from_slice hash data (Z.to_nat offset);
      Ok (match wal_crc r with inl e => inl e | inr payload => inr (Some payload) end)
  | Some (SourceFile file) =>
      let frame_len := Z.to_nat (wp_frame_len pos) in
      let buffer_size := if direct_io l then Z.to_nat (layout_align l (wp_frame_len pos)) else frame_len in
      start ← offset_in_wal_file l (wp_offset pos);
      match read_exact_at file (Z.to_nat start) buffer_size with
      | None => Ok (inl WalIo)
      | Some bytes =>
          let bytes := if direct_io l && (frame_len <? length bytes)%nat then take frame_len bytes else bytes in
          r ← read_from_bytes hash bytes 0;
          Ok (match wal_crc r with inl e => inl e | inr payload => inr (Some payload) end)
      end
  | None => Ok (inr None)
  end.

(** [Wal::reader_at]: the bytes a random reader ranges over. *)
Definition reader_at (w : Wal) (pos : WalPosition) (inner_offset : nat) (whole_frame : bool) : outcome (list Z) :=
  let l := wl_layout w in
  let frame_len := Z.to_nat (wp_frame_len pos) in
  s ← frame_source w pos whole_frame;
  match s with
  | Some (SourceMapped map offset) =>
      data ← map_data l (wl_files w) (mp_id map);
      let header_end := (Z.to_nat offset + CRC_HEADER_LENGTH)%nat in
      slice data (header_end + inner_offset) (header_end + frame_len - CRC_HEADER_LENGTH)
  | Some (SourceFile file) =>
      start ← offset_in_wal_file l (wp_offset pos);
      let header_end := (Z.to_nat start + CRC_HEADER_LENGTH)%nat in
      slice file (header_end + inner_offset) (Z.to_nat start + frame_len)
  | None => Panic "attempt to access non existing file"
  end.

Definition random_reader_at (w : Wal) (pos : WalPosition) (inner_offset : nat) : outcome (list Z) := reader_at w pos inner_offset false.

Definition whole_frame_reader_at (w : Wal) (pos : WalPosition) (inner_offset : nat) : outcome (list Z) := reader_at w pos inner_offset true.

Definition min_wal_position (w : Wal) : outcome Z :=
  id ← min_file_id (wl_files w);
  Ok (u64_mul id (wal_file_size (wl_layout w))).

Definition file_ids (w : Wal) : list WalFileId := List.map fst (wf_files (wl_files w)).

(** ** The writer *)

Definition get_writeable_map (w : Wal) (position : Z) : outcome (MapId * nat) :=
  '(map_id, offset) ← locate (wl_layout w) position;
  map ← expect (wal_get_map w map_id) "Still waiting for writable map";
  _ ← assert_that (mp_writeable map) "Map is not writable";
  Ok (mp_id map, Z.to_nat offset).

Definition write_skip_marker (w : Wal) (position : Z) : outcome Wal :=
  '(map_id, offset) ← get_writeable_map w position;
  files ← write_buf_at (wl_layout w) (wl_files w) map_id offset skip_marker;
  Ok (set_wal_files w files).

(** The loop over the frames of a batch. *)
Fixpoint write_frames (l : WalLayout) (files : WalFiles) (map_id : MapId) (offset : nat) (pos : Z) (writes : list (list Z)) :
    outcome (WalFiles * list WalPosition) :=
  match writes with
  | [] => Ok (files, [])
  | frame :: rest =>
      let frame_size := Z.of_nat (length frame) in
      _ ← assert_that (frame_size <? Z.shiftl 1 30) "WAL frame size exceeds 1 GiB limit";
      let aligned_frame_size := layout_align l frame_size in
      files ← write_buf_at l files map_id offset frame;
      let wal_position := wp_new pos (wrap32 frame_size) in
      '(files, positions) ← write_frames l files map_id (offset + Z.to_nat aligned_frame_size) (u64_add pos aligned_frame_size) rest;
      Ok (files, wal_position :: positions)
  end.

Definition aligned_total (l : WalLayout) (writes : list (list Z)) : Z :=
  fold_left (fun total frame => u64_add total (layout_align l (Z.of_nat (length frame)))) writes 0.

(** [WalWriter::multi_write] on prepared frames: the allocation announced to the
    tracker and the position of every frame. *)
Definition multi_write (w : WalWriter) (writes : list (list Z)) : outcome (WalWriter * AllocationResult * list WalPosition) :=
  let l := wl_layout (ww_wal w) in
  '(allocation_result, next) ← allocate l (ww_position w) (aligned_total l writes);
  wal ← (match need_skip_marker allocation_result with
         | Some skip_marker_pos => write_skip_marker (ww_wal w) skip_marker_pos
         | None => Ok (ww_wal w)
         end);
  '(map_id, offset) ← get_writeable_map wal (allocated_position allocation_result);
  '(files, positions) ← write_frames l (wl_files wal) map_id offset (allocated_position allocation_result) writes;
  Ok (mkWalWriter (set_wal_files wal files) next, allocation_result, positions).

(** [WalWriter::write] *)
Definition wal_write (w : WalWriter) (frame : list Z) : outcome (WalWriter * AllocationResult * WalPosition) :=
  '(w, r, positions) ← multi_write w [frame];
  p ← expect (head positions) "called `Option::unwrap()` on a `None` value";
  Ok (w, r, p).

(** ** The iterator *)

(** [WalIterator::make_map]: the files, the retained maps and the map; [None]
    when the file of the fragment is gone. *)
Definition iter_make_map (l : WalLayout) (map_id : MapId) (files : WalFiles) (maps : WalMaps) (for_writer : bool) :
    outcome (option (WalFiles * WalMaps * Map)) :=
  file_id ← file_for_map l map_id;
  match get_checked files file_id with
  | None => Ok None
  | Some file =>
      file ← extend_to_map_id l file map_id;
      let files := put_file files file_id file in
      if for_writer then '(maps, map) ← maps_map l maps map_id; Ok (Some (files, maps, map))
      else Ok (Some (files, maps, create_map map_id))
  end.

Definition iterator_new (w : Wal) (position : Z) (for_writer : bool) : outcome WalIterator :=
  '(map_id, _) ← locate (wl_layout w) position;
  made ← iter_make_map (wl_layout w) map_id (wl_files w) [] for_writer;
  '(files, maps, map) ← expect made "First map must be available";
  Ok (mkWalIterator (set_wal_files w files) maps map position false for_writer).

Definition wal_iterator_for_scan (w : Wal) (position : Z) : outcome WalIterator := iterator_new w position false.

Definition wal_iterator_for_writer (w : Wal) (position : Z) : outcome WalIterator := iterator_new w position true.

Definition set_position (it : WalIterator) (position : Z) : WalIterator :=
  mkWalIterator (wi_wal it) (wi_maps it) (wi_map it) position (wi_skip_crc it) (wi_for_writer it).

Definition set_skip_crc (it : WalIterator) (skip_crc : bool) : WalIterator :=
  mkWalIterator (wi_wal it) (wi_maps it) (wi_map it) (wi_position it) skip_crc (wi_for_writer it).

Definition read_one (it : WalIterator) : outcome (WalIterator * (WalError + list Z)) :=
  let l := wl_layout (wi_wal it) in
  '(map_id, offset) ← locate l (wi_position it);
  moved ←
    (if negb (mp_id (wi_map it) =? map_id) then
       made ← iter_make_map l map_id (wl_files (wi_wal it)) (wi_maps it) (wi_for_writer it);
       Ok (option_map (fun '(files, maps, map) =>
             mkWalIterator (set_wal_files (wi_wal it) files) maps map (wi_position it) (wi_skip_crc it) (wi_for_writer it)) made)
     else Ok (Some it));
  match moved with
  | None => Ok (it, inl EndOfWal)
  | Some it =>
      data ← map_data l (wl_files (wi_wal it)) (mp_id (wi_map it));
      r ← (if wi_skip_crc it then read_unchecked_from_bytes data (Z.to_nat offset) else read_from_bytes hash data (Z.to_nat offset));
      Ok (it, wal_crc r)
  end.

(** [WalIterator::next] *)
Definition wal_next (it : WalIterator) : outcome (WalIterator * (WalError + (WalPosition * list Z))) :=
  '(it, frame) ← read_one it;
  '(it, frame) ←
    (match frame with
     | inl (WalCrc SkipMarker) =>
         let next_map := map_id_next_map (mp_id (wi_map it)) in
         read_one (set_position it (map_range (wl_layout (wi_wal it)) next_map).1)
     | _ => Ok (it, frame)
     end);
  match frame with
  | inl e => Ok (it, inl e)
  | inr frame =>
      let len := Z.of_nat (length frame + CRC_HEADER_LENGTH) in
      let position := wp_new (wi_position it) (wrap32 len) in
      Ok (set_position it (u64_add (wi_position it) (layout_align (wl_layout (wi_wal it)) len)), inr (position, frame))
  end.

(** The fragments below the writer's that hold a live position, ascending. *)
Fixpoint live_fragments (l : WalLayout) (writer_map : MapId) (maps : WalMaps) (live : list WalPosition) (candidates : list (MapId * unit)) :
    outcome (list (MapId * unit)) :=
  match live with
  | [] => Ok candidates
  | pos :: rest =>
      if wp_is_valid pos then
        '(map_id, _) ← locate l (wp_offset pos);
        live_fragments l writer_map maps rest
          (if (map_id <? writer_map) && negb (bt_mem map_id maps) then bt_insert map_id tt candidates else candidates)
      else live_fragments l writer_map maps rest candidates
  end.

Fixpoint premap_fragments (l : WalLayout) (files : WalFiles) (budget : Z) (candidates : list MapId) (maps : WalMaps) (mapped : Z) :
    outcome (WalMaps * Z) :=
  match candidates with
  | [] => Ok (maps, mapped)
  | map_id :: rest =>
      if mapped =? budget then Ok (maps, mapped)
      else
        file_id ← file_for_map l map_id;
        match get_checked files file_id with
        | None => premap_fragments l files budget rest maps mapped
        | Some file =>
            covers ← covers_map l file map_id;
            if negb covers then premap_fragments l files budget rest maps mapped
            else maps ← map_readonly l maps map_id; premap_fragments l files budget rest maps (mapped + 1)
        end
  end.

Definition premap_live_fragments (it : WalIterator) (live : list WalPosition) : outcome (WalIterator * Z) :=
  let l := wl_layout (wi_wal it) in
  _ ← assert_that (wi_for_writer it) "premap_live_fragments called on a scan-mode WalIterator";
  let budget := Z.max 0 (max_maps l - (Z.of_nat INITIAL_MAPS_BUFFER + Z.of_nat (length (wi_maps it)))) in
  if budget =? 0 then Ok (it, 0)
  else
    candidates ← live_fragments l (mp_id (wi_map it)) (wi_maps it) live [];
    '(maps, mapped) ← premap_fragments l (wl_files (wi_wal it)) budget (rev (List.map fst candidates)) (wi_maps it) 0;
    Ok (mkWalIterator (wi_wal it) maps (wi_map it) (wi_position it) (wi_skip_crc it) (wi_for_writer it), mapped).

(** [clear_fragment_from_position] *)
Definition clear_fragment_from_position (it : WalIterator) (position : Z) : outcome WalFiles :=
  let l := wl_layout (wi_wal it) in
  let files := wl_files (wi_wal it) in
  '(map_id, offset) ← locate l position;
  if negb (map_id =? mp_id (wi_map it)) then Ok files
  else
    let '(start, end_) := map_range l map_id in
    let bytes_to_zero := Z.to_nat (u64_sub (u64_sub end_ start) offset) in
    if (0 <? bytes_to_zero)%nat then write_buf_at l files map_id (Z.to_nat offset) (replicate bytes_to_zero 0) else Ok files.

(** [into_writer_with_last_processed]: the writer and the mapper it starts. *)
Definition into_writer (it : WalIterator) (position_override : option Z) : outcome (WalWriter * WalMapperThread) :=
  let l := wl_layout (wi_wal it) in
  _ ← assert_that (wi_for_writer it) "into_writer called on a scan-mode WalIterator";
  let position := default (wi_position it) position_override in
  '(map_id, _) ← locate l position;
  _ ← assert_that (match bt_get map_id (wi_maps it) with Some map => mp_writeable map | None => true end)
        "writer start position falls in a read-only premapped fragment";
  files ← clear_fragment_from_position it position;
  t ← mapper_start l (wi_maps it) files;
  Ok (mkWalWriter (mkWal l (mt_files t) (mt_published t)) position, t).

(** [Wal::writer_after_premapped] *)
Definition writer_after_premapped (w : Wal) (position : option WalPosition) (live : list WalPosition) :
    outcome (WalWriter * WalMapperThread) :=
  position ← (match position with Some p => next_after_wal_position (wl_layout w) p | None => Ok 0 end);
  it ← wal_iterator_for_writer w position;
  '(it, _) ← premap_live_fragments it live;
  into_writer it None.

(** [Wal::writer_after] *)
Definition writer_after (w : Wal) (position : option WalPosition) : outcome (WalWriter * WalMapperThread) :=
  writer_after_premapped w position [].

(** A scan: the frames until the first error. *)
Fixpoint wal_scan (fuel : nat) (it : WalIterator) : outcome (WalIterator * list (WalPosition * list Z) * option WalError) :=
  match fuel with
  | O => Ok (it, [], None)
  | S fuel =>
      '(it, r) ← wal_next it;
      match r with
      | inl e => Ok (it, [], Some e)
      | inr frame => '(it, frames, e) ← wal_scan fuel it; Ok (it, frame :: frames, e)
      end
  end.
End frames.
