(* ===== verification/WalFacts.v ===== *)
(** * The log on disk

    What the writer of [Wal] leaves in the files and what the iterator reads
    back.  [byte_at] is the content of the log by position, whatever file and
    fragment a position falls in; [log_at] says that a stretch of the log is a
    sequence of frames, each at the place the allocator gives it. *)

From Stdlib Require Import ZArith Lia List Sorting.Sorted.
From stdpp Require Import base tactics list gmap strings relations sorting.
From S2P Require Import Prelude BTree Bytes Position Layout Allocator Tracker Crc WalFiles Wal.

Local Open Scope Z_scope.

(** ** Bytes by position *)

Lemma copy_at_length (b : list Z) pos d : (pos + length d <= length b)%nat -> length (copy_at b pos d) = length b.
Proof. intros Hl. unfold copy_at. rewrite !length_app, length_take, length_drop. lia. Qed.

Lemma copy_at_lookup (b : list Z) pos d i : (pos + length d <= length b)%nat ->
  copy_at b pos d !! i = if decide (pos <= i < pos + length d)%nat then d !! (i - pos)%nat else b !! i.
Proof.
  intros Hl. unfold copy_at. destruct (decide (i < pos)%nat) as [Hlt|Hge].
  { rewrite lookup_app_l, lookup_take_lt by (rewrite ?length_take; lia). by destruct (decide _); [lia|]. }
  rewrite lookup_app_r, length_take, Nat.min_l by (rewrite ?length_take; lia).
  destruct (decide _) as [Hin|Hout]; [by rewrite lookup_app_l by lia|].
  rewrite lookup_app_r, lookup_drop by lia. f_equal. lia.
Qed.

(** A list that agrees with [m] from [i] on. *)
Lemma agrees_split (d m : list Z) (i : nat) :
  (forall j, (j < length m)%nat -> d !! (i + j)%nat = m !! j) -> (i + length m <= length d)%nat ->
  d = take i d ++ m ++ drop (i + length m) d.
Proof.
  intros Hm Hl. apply list_eq. intros j. destruct (decide (j < i)%nat).
  { by rewrite lookup_app_l, lookup_take_lt by (rewrite ?length_take; lia). }
  rewrite lookup_app_r, length_take, Nat.min_l by (rewrite ?length_take; lia).
  destruct (decide (j < i + length m)%nat).
  - rewrite lookup_app_l by lia. rewrite <- Hm by lia. f_equal. lia.
  - rewrite lookup_app_r, lookup_drop by lia. f_equal. lia.
Qed.

Section bytes.
Context (l : WalLayout) (Hl : layout_ok l).

Definition byte_at (files : WalFiles) (p : Z) : option Z :=
  match get_checked files (p / wal_file_size l) with
  | Some file => file !! Z.to_nat (p mod wal_file_size l)
  | None => None
  end.

(** The bytes of the log at [pos]. *)
Definition holds (files : WalFiles) (pos : Z) (bytes : list Z) : Prop :=
  forall i b, bytes !! i = Some b -> byte_at files (pos + Z.of_nat i) = Some b.

(** A fragment inside its file. *)
Definition backed (files : WalFiles) (m : MapId) : Prop :=
  exists file, get_checked files (map_file l m) = Some file /\ covered l file m.

Lemma map_window_ok m : map_fits l m -> map_window l m = Ok (map_file l m, Z.to_nat (map_offset l m)).
Proof.
  intros Hm. unfold map_window. rewrite file_for_map_ok, map_range_ok by done. cbn [mbind outcome_bind fst].
  destruct Hl as (_ & _ & (? & _) & _). unfold offset_in_wal_file. by rewrite u64_rem_ok by lia.
Qed.

Lemma byte_at_map files m o : 0 <= m -> 0 <= o < frag_size l ->
  byte_at files (frag_size l * m + o) =
  match get_checked files (map_file l m) with Some file => file !! Z.to_nat (map_offset l m + o) | None => None end.
Proof.
  intros Hm Ho. pose proof Hl as (_ & _ & (Hw & _) & _). pose proof (map_file_split l Hl m Hm) as Hs.
  pose proof (map_offset_next l Hl m Hm) as (? & ? & _). unfold byte_at.
  rewrite <- (Z.div_unique (frag_size l * m + o) (wal_file_size l) (map_file l m) (map_offset l m + o)) by lia.
  by rewrite <- (Z.mod_unique (frag_size l * m + o) (wal_file_size l) (map_file l m) (map_offset l m + o)) by lia.
Qed.

(** The bytes of a mapped fragment are those of the log. *)
Lemma map_data_ok files m : map_fits l m -> backed files m ->
  exists d, map_data l files m = Ok d /\ length d = Z.to_nat (frag_size l) /\
    forall i, (i < Z.to_nat (frag_size l))%nat -> d !! i = byte_at files (frag_size l * m + Z.of_nat i).
Proof.
  intros Hm (file & Hf & Hc). pose proof Hl as ((Hf0 & _) & _). pose proof (map_offset_next l Hl m (proj1 Hm)) as (Ho & _).
  unfold covered, file_len in Hc. unfold map_data, get_file. rewrite map_window_ok by done. cbn [mbind outcome_bind]. rewrite Hf.
  cbn [expect mbind outcome_bind]. unfold slice.
  destruct (Nat.leb_spec (Z.to_nat (map_offset l m)) (Z.to_nat (map_offset l m) + Z.to_nat (frag_size l))); [|lia].
  destruct (Nat.leb_spec (Z.to_nat (map_offset l m) + Z.to_nat (frag_size l)) (length file)); [|lia]. cbn [andb].
  eexists. split; [done|]. split; [rewrite length_take, length_drop; lia|]. intros i Hi.
  rewrite lookup_take_lt, lookup_drop by lia. rewrite byte_at_map, Hf by (destruct Hm; lia). f_equal. lia.
Qed.

(** [files'] are the files of [files], with the same lengths. *)
Definition same_shape (files files' : WalFiles) : Prop :=
  bt_sorted (wf_files files') /\
  forall id, option_map (@length Z) (get_checked files' id) = option_map (@length Z) (get_checked files id).

Lemma same_shape_refl files : bt_sorted (wf_files files) -> same_shape files files.
Proof. by split. Qed.

Lemma same_shape_trans a b c : same_shape a b -> same_shape b c -> same_shape a c.
Proof. intros [_ Hab] [? Hbc]. split; [done|]. intros id. by rewrite Hbc. Qed.

Lemma same_shape_backed files files' m : same_shape files files' -> backed files m -> backed files' m.
Proof.
  intros [_ Hs] (file & Hf & Hc). specialize (Hs (map_file l m)). rewrite Hf in Hs.
  destruct (get_checked files' (map_file l m)) as [file'|] eqn:E; [|done]. injection Hs as Hlen. exists file'. split; [done|].
  unfold covered, file_len in *. by rewrite Hlen.
Qed.

(** What a write does to the log: it replaces its bytes and no others. *)
Definition written (files files' : WalFiles) (pos : Z) (bytes : list Z) : Prop :=
  same_shape files files' /\
  forall p, byte_at files' p = if decide (pos <= p < pos + Z.of_nat (length bytes)) then bytes !! Z.to_nat (p - pos) else byte_at files p.

Lemma write_buf_at_ok files m o bytes :
  bt_sorted (wf_files files) -> map_fits l m -> backed files m -> (o + length bytes <= Z.to_nat (frag_size l))%nat ->
  exists files', write_buf_at l files m o bytes = Ok files' /\ written files files' (frag_size l * m + Z.of_nat o) bytes.
Proof.
  intros Hsort Hm (file & Hf & Hc) Hb. pose proof Hl as ((Hf0 & _) & _ & (Hw & _) & _).
  pose proof (map_offset_next l Hl m (proj1 Hm)) as (Ho & Hon & _). pose proof (map_file_split l Hl m (proj1 Hm)) as Hsplit.
  unfold covered, file_len in Hc. unfold write_buf_at, get_file. rewrite map_window_ok by done. cbn [mbind outcome_bind]. rewrite Hf.
  cbn [expect mbind outcome_bind]. destruct (Nat.leb_spec (o + length bytes) (Z.to_nat (frag_size l))); [|lia].
  cbn [assert_that mbind outcome_bind]. eexists. split; [done|]. set (file' := copy_at _ _ _).
  assert (length file' = length file) as Hlen by (apply copy_at_length; lia).
  assert (forall id, get_checked (put_file files (map_file l m) file') id = if decide (id = map_file l m) then Some file' else get_checked files id) as Hget.
  { intros id. unfold get_checked, put_file. cbn [wf_files]. ids_as_Z. rewrite bt_get_insert by done.
    destruct (keqb_spec id (map_file l m)), (decide (id = map_file l m)); done. }
  split.
  - split; [by apply bt_insert_sorted|]. intros id. rewrite Hget. destruct (decide _) as [->|]; [|done]. rewrite Hf. cbn. by rewrite Hlen.
  - intros p. unfold byte_at. rewrite Hget. case_decide as E.
    + rewrite E, Hf. pose proof (Z.div_mod p (wal_file_size l) ltac:(lia)) as Hp. pose proof (Z.mod_pos_bound p (wal_file_size l) Hw).
      rewrite E in Hp. unfold file'. cbv beta iota. rewrite copy_at_lookup by lia.
      destruct (decide (Z.to_nat (map_offset l m) + o <= _ < _)%nat), (decide (_ <= p < _)); try lia; [|done]. f_equal. lia.
    + destruct (decide (_ <= p < _)) as [Hin|]; [|done]. exfalso. apply E. symmetry.
      apply (Z.div_unique p (wal_file_size l) (map_file l m) (p - wal_file_size l * map_file l m)); lia.
Qed.

Lemma written_holds files files' pos bytes : written files files' pos bytes -> holds files' pos bytes.
Proof.
  intros [_ Hw] i b Hi. pose proof (lookup_lt_Some _ _ _ Hi). rewrite Hw. destruct (decide _); [|lia]. rewrite <- Hi. f_equal. lia.
Qed.

Lemma written_keeps files files' pos bytes q m :
  written files files' pos bytes -> holds files q m -> q + Z.of_nat (length m) <= pos \/ pos + Z.of_nat (length bytes) <= q -> holds files' q m.
Proof.
  intros [_ Hw] Hq Hd i b Hi. pose proof (lookup_lt_Some _ _ _ Hi). rewrite Hw. destruct (decide _); [lia|]. by apply Hq.
Qed.

(** Nothing written from [pos] on. *)
Definition blank_from (files : WalFiles) (pos : Z) : Prop := forall p, pos <= p -> byte_at files p = Some 0 \/ byte_at files p = None.

Lemma written_blank files files' pos bytes q :
  written files files' pos bytes -> blank_from files q -> pos + Z.of_nat (length bytes) <= q -> blank_from files' q.
Proof. intros [_ Hw] Hb Hq p Hp. rewrite Hw. destruct (decide _); [lia|]. by apply Hb. Qed.
End bytes.

(** ** Frames in sequence *)

Section log.
Context (l : WalLayout) (Hl : layout_ok l) (hash : list Z -> Z) (hash_u32 : forall b, is_u32 (hash b)).

Definition frame_size (t : list Z) : Z := Z.of_nat (CRC_HEADER_LENGTH + length t).

(** The aligned extent of the frame of a payload. *)
Definition extent (t : list Z) : Z := layout_align l (frame_size t).

(** The limit of [multi_write] on one frame. *)
Definition payload_ok (t : list Z) : Prop := frame_size t < 2 ^ 30.

(** The frame of [t] is at [q], the first place from [p] where it fits in one
    fragment; a skip marker at [p] bridges the gap. *)
Definition placed (files : WalFiles) (p q : Z) (t : list Z) : Prop :=
  (layout_alignment l | p) /\ payload_ok t /\ in_one_frag l q (extent t) /\
  (holds l files q (crc_frame_new hash t) /\ backed l files (q / frag_size l)) /\
  (q = p \/ q = frag_size l * (p / frag_size l + 1) /\ p mod frag_size l <> 0 /\ holds l files p skip_marker).

(** From [p] to [e] the log is these frames. *)
Inductive log_at (files : WalFiles) : Z -> list (WalPosition * list Z) -> Z -> Prop :=
| log_nil p : log_at files p [] p
| log_cons p q t frames e :
    0 <= p -> placed files p q t -> log_at files (q + extent t) frames e ->
    log_at files p ((wp_new q (frame_size t), t) :: frames) e.

Lemma extent_bounds t : payload_ok t -> frame_size t <= extent t < frame_size t + 512 /\ (layout_alignment l | extent t).
Proof.
  unfold payload_ok, extent, frame_size, CRC_HEADER_LENGTH. intros Ht. pose proof (layout_alignment_pos l).
  destruct (layout_align_spec l (Z.of_nat (8 + length t))) as [? ?]; unfold u64_max; [lia..|]. split; [lia|done].
Qed.

Lemma alignment_frag : (layout_alignment l | frag_size l).
Proof. by destruct Hl as (_ & ? & _). Qed.

Lemma alignment_8 p : (layout_alignment l | p) -> (8 | p).
Proof. intros H. etrans; [|exact H]. unfold layout_alignment. destruct (direct_io l); [by exists 64|by exists 1]. Qed.

(** A whole header fits at an aligned position. *)
Lemma aligned_room p : (layout_alignment l | p) -> p mod frag_size l + 8 <= frag_size l.
Proof.
  intros Hp. pose proof (alignment_8 _ alignment_frag) as [c Hc]. apply alignment_8 in Hp as [k Hk]. pose proof Hl as ((Hf & _) & _).
  pose proof (Z.mod_pos_bound p _ Hf). pose proof (Z.div_mod p (frag_size l) ltac:(lia)) as Hd.
  rewrite Hc, Hk in *. set (q := k * 8 / (c * 8)) in *. nia.
Qed.

Lemma placed_order files p q t : 0 <= p -> placed files p q t -> p <= q /\ (layout_alignment l | q) /\ (q <> p -> p + 8 <= q).
Proof.
  intros Hp (Ha & _ & _ & _ & [->|(-> & Hm & _)]); [split_and!; [lia|done|done]|]. pose proof Hl as ((Hf & _) & _).
  pose proof (aligned_room p Ha). pose proof (Z.div_mod p (frag_size l) ltac:(lia)). pose proof (Z.mod_pos_bound p _ Hf).
  split_and!; [lia| |lia]. apply Z.divide_mul_l, alignment_frag.
Qed.

Lemma log_at_le files p frames e : log_at files p frames e -> p <= e.
Proof.
  induction 1 as [|p q t frames e Hp Hpl _ IH]; [lia|]. pose proof (placed_order _ _ _ _ Hp Hpl) as (? & _).
  destruct Hpl as (_ & Ht & _). pose proof (extent_bounds t Ht) as [? _]. unfold frame_size in *. lia.
Qed.

Lemma log_at_app files p a m b e : log_at files p a m -> log_at files m b e -> log_at files p (a ++ b) e.
Proof. induction 1; intros; cbn; [done|]. econstructor; [done|done|]. auto. Qed.

Lemma length_frame t : Z.of_nat (length (crc_frame_new hash t)) = frame_size t.
Proof. by rewrite length_crc_frame. Qed.

(** The log up to [e] depends on the bytes below [e] only. *)
Lemma log_at_keep files files' p frames e :
  log_at files p frames e ->
  (forall q bytes, holds l files q bytes -> q + Z.of_nat (length bytes) <= e -> holds l files' q bytes) ->
  (forall m, backed l files m -> backed l files' m) ->
  log_at files' p frames e.
Proof.
  induction 1 as [|p q t frames e Hp Hpl Hlog IH]; intros Hk Hkb; [constructor|]. constructor; [done| |by apply IH].
  pose proof (placed_order _ _ _ _ Hp Hpl) as (Hpq & _ & Hskip). pose proof (log_at_le _ _ _ _ Hlog) as Hle.
  destruct Hpl as (Ha & Ht & Hone & (Hh & Hbk) & Hor). pose proof (extent_bounds t Ht) as [? _]. split_and!; try done; [|by apply Hkb|].
  - apply Hk; [done|]. rewrite length_frame. lia.
  - destruct Hor as [->|(Eq & Hm & Hs)]; [by left|]. right. split_and!; [done|done|]. apply Hk; [done|].
    assert (q <> p) by (intros ->; pose proof Hl as ((? & _) & _); pose proof (Z.div_mod p (frag_size l) ltac:(lia));
      pose proof (Z.mod_pos_bound p (frag_size l) ltac:(lia)); lia).
    change (Z.of_nat (length skip_marker)) with 8. unfold frame_size in *. lia.
Qed.

(** ** Reading a fragment *)

(** What the fragment's bytes say at an offset, from what the log holds. *)
Lemma fragment_reads files d m p :
  length d = Z.to_nat (frag_size l) -> (forall i, (i < Z.to_nat (frag_size l))%nat -> d !! i = byte_at l files (frag_size l * m + Z.of_nat i)) ->
  0 <= p -> p / frag_size l = m ->
  forall bytes, holds l files p bytes -> p mod frag_size l + Z.of_nat (length bytes) <= frag_size l ->
  exists pre post, d = pre ++ bytes ++ post /\ length pre = Z.to_nat (p mod frag_size l).
Proof.
  intros Hd Hat Hp Em bytes Hh Hr. pose proof Hl as ((Hf & _) & _). pose proof (Z.mod_pos_bound p _ Hf).
  pose proof (Z.div_mod p (frag_size l) ltac:(lia)) as Hdm. set (o := Z.to_nat (p mod frag_size l)).
  exists (take o d), (drop (o + length bytes) d). split; [|rewrite length_take; lia].
  apply agrees_split; [|lia]. intros j Hj. rewrite Hat by lia. destruct (lookup_lt_is_Some_2 bytes j Hj) as [b Hb]. rewrite Hb.
  rewrite <- (Hh j b Hb). f_equal. rewrite Em in Hdm. lia.
Qed.

Lemma zero_header_read (pre post : list Z) : read_from_bytes hash (pre ++ replicate 8 0 ++ post) (length pre) = Ok (inl CrcMismatch).
Proof.
  change (replicate 8 0) with (be_bytes 4 0 ++ be_bytes 4 0). unfold read_from_bytes. rewrite <- app_assoc.
  rewrite checked_read_header by (unfold is_u32; lia). done.
Qed.

Lemma in_one_frag_room q t : 0 <= q -> payload_ok t -> in_one_frag l q (extent t) -> q mod frag_size l + extent t <= frag_size l.
Proof.
  intros Hq Ht Ho. pose proof Hl as ((Hf & _) & _). pose proof (extent_bounds t Ht) as [? _]. unfold in_one_frag in Ho.
  assert (0 < extent t) by (unfold frame_size, CRC_HEADER_LENGTH in *; lia).
  pose proof (Z.div_mod q (frag_size l) ltac:(lia)). pose proof (Z.div_mod (q + extent t - 1) (frag_size l) ltac:(lia)).
  pose proof (Z.mod_pos_bound (q + extent t - 1) _ Hf). rewrite <- Ho in *. lia.
Qed.
End log.

(** ** The iterator *)

Section iterator.
Context (l : WalLayout) (Hl : layout_ok l) (Hmax : 3 <= max_maps l) (hash : list Z -> Z) (hash_u32 : forall b, is_u32 (hash b)).

Lemma grown_byte files files' p b : grown files files' -> byte_at l files p = Some b -> byte_at l files' p = Some b.
Proof.
  intros [_ Hg]. unfold byte_at. specialize (Hg (p / wal_file_size l)). destruct (get_checked files _) as [file|]; [|done].
  destruct Hg as [n ->]. intros Hb. by apply lookup_app_l_Some.
Qed.

Lemma grown_holds files files' p bytes : grown files files' -> holds l files p bytes -> holds l files' p bytes.
Proof. intros Hg Hh i b Hi. eapply grown_byte; [done|by apply Hh]. Qed.

Lemma grown_blank files files' p : grown files files' -> blank_from l files p -> blank_from l files' p.
Proof.
  intros [_ Hg] Hb q Hq. specialize (Hb q Hq). unfold byte_at in *. specialize (Hg (q / wal_file_size l)).
  destruct (get_checked files _) as [file|].
  2: { destruct Hg as [-> |[n ->]]; [by right|]. destruct (replicate n 0 !! _) as [b|] eqn:E; [|by right]. apply lookup_replicate in E as [-> _]. by left. }
  destruct Hg as [n ->].
  destruct (decide (Z.to_nat (q mod wal_file_size l) < length file)%nat); [by rewrite lookup_app_l|].
  rewrite lookup_app_r by lia. destruct (replicate n 0 !! _) as [b|] eqn:E; [|by right]. apply lookup_replicate in E as [-> _]. by left.
Qed.

Lemma grown_backed files files' m : grown files files' -> backed l files m -> backed l files' m.
Proof.
  intros [_ Hg] (file & Hf & Hc). specialize (Hg (map_file l m)). rewrite Hf in Hg. destruct Hg as [n Hn]. exists (file ++ replicate n 0).
  split; [done|by apply covered_longer].
Qed.

Lemma grown_log files files' p frames e : grown files files' -> log_at l hash files p frames e -> log_at l hash files' p frames e.
Proof.
  intros Hg Hlog. eapply log_at_keep; [done|done| |]; [intros q bytes Hh _; by eapply grown_holds|]. intros m. by apply grown_backed.
Qed.

(** Grown without a new file. *)
Definition extended (files files' : WalFiles) : Prop :=
  grown files files' /\ forall id, is_Some (get_checked files' id) -> is_Some (get_checked files id).

Lemma extended_refl files : bt_sorted (wf_files files) -> extended files files.
Proof. intros Hs. split; [by apply grown_refl|done]. Qed.

Lemma extended_trans a b c : extended a b -> extended b c -> extended a c.
Proof. intros [? Hab] [? Hbc]. split; [by eapply grown_trans|]. intros id Hid. by apply Hab, Hbc. Qed.

(** The maps a writer-mode iterator has retained: the current one is the last. *)
Definition retained (files : WalFiles) (maps : WalMaps) (m : MapId) : Prop :=
  bt_sorted maps /\ Z.of_nat (length maps) <= max_maps l /\ bt_get m maps = Some (create_map m) /\
  forall k mp, bt_get k maps = Some mp -> 0 <= k <= m /\ mp = create_map k /\ backed l files k.

Definition iter_ok (it : WalIterator) : Prop :=
  let files := wl_files (wi_wal it) in
  let m := mp_id (wi_map it) in
  wl_layout (wi_wal it) = l /\ wi_skip_crc it = false /\ bt_sorted (wf_files files) /\ wi_map it = create_map m /\
  map_fits l m /\ backed l files m /\ (wi_for_writer it = true -> retained files (wi_maps it) m).

Lemma retained_grown files files' maps m : grown files files' -> retained files maps m -> retained files' maps m.
Proof.
  intros Hg (? & ? & ? & Hb). split_and!; try done. intros k mp Hk. destruct (Hb k mp Hk) as (? & ? & ?). split_and!; try lia; [done|].
  by eapply grown_backed.
Qed.

Lemma iter_make_map_ok files maps m m0 for_writer file :
  bt_sorted (wf_files files) -> map_fits l m -> get_checked files (map_file l m) = Some file -> m0 < m ->
  (for_writer = true -> maps = [] \/ retained files maps m0) ->
  exists files' maps', iter_make_map l m files maps for_writer = Ok (Some (files', maps', create_map m)) /\
    extended files files' /\ backed l files' m /\ (for_writer = true -> retained files' maps' m).
Proof.
  intros Hs Hm Hf Hlt Hmaps. unfold iter_make_map. rewrite file_for_map_ok by done. cbn [mbind outcome_bind]. rewrite Hf.
  destruct (extend_ok l Hl file m Hm) as (n & -> & Hc). cbn [mbind outcome_bind]. set (files' := put_file _ _ _).
  assert (forall id, get_checked files' id = if decide (id = map_file l m) then Some (file ++ replicate n 0) else get_checked files id) as Hget.
  { intros id. unfold files', get_checked, put_file. cbn [wf_files]. ids_as_Z. rewrite bt_get_insert by done.
    destruct (keqb_spec id (map_file l m)), (decide (id = map_file l m)); done. }
  assert (grown files files') as Hg.
  { split; [by apply bt_insert_sorted|]. intros id. rewrite Hget. case_decide as E; [rewrite E, Hf; by exists n|].
    destruct (get_checked files id) as [f|]; [|by left]. exists 0%nat. cbn. by rewrite app_nil_r. }
  assert (extended files files') as Hx.
  { split; [done|]. intros id. rewrite Hget. case_decide as E; [rewrite E; by exists file|done]. }
  assert (backed l files' m) as Hb.
  { exists (file ++ replicate n 0). split; [|done]. rewrite Hget. by case_decide. }
  destruct for_writer; [|by exists files', maps].
  assert (bt_sorted maps /\ Z.of_nat (length maps) <= max_maps l /\ forall k mp, bt_get k maps = Some mp -> 0 <= k < m /\ mp = create_map k /\ backed l files k) as (Hsm & Hlm & Hk).
  { destruct (Hmaps eq_refl) as [->|(? & ? & _ & Hk)]; [split_and!; [constructor|cbn; lia|done]|]. split_and!; try done.
    intros k mp Hg'. destruct (Hk k mp Hg') as (? & ? & ?). split_and!; try lia; done. }
  destruct (maps_map_ok l Hmax maps m Hsm Hlm) as (maps' & -> & Hs' & Hl' & Hgm & Hold & _).
  { apply List.Forall_forall. intros [k mp] Hin. apply bt_get_In in Hin; [|done]. cbn. by apply (Hk k mp). }
  cbn [mbind outcome_bind]. exists files', maps'. split_and!; [done|done|done|]. intros _. split_and!; try done. intros k mp Hg'.
  pose proof (Hold k mp Hg') as [->|Hgk]; [|destruct (Hk k mp Hgk) as (? & ? & ?); split_and!; [lia|lia|done|by eapply grown_backed]].
  assert (mp = create_map m) as -> by congruence. destruct Hm. split_and!; [lia|lia|done|done].
Qed.

(** What a step of the iterator keeps. *)
Definition iter_moved (it it' : WalIterator) (p : Z) : Prop :=
  iter_ok it' /\ extended (wl_files (wi_wal it)) (wl_files (wi_wal it')) /\ wi_position it' = p /\
  wi_for_writer it' = wi_for_writer it /\ wl_maps (wi_wal it') = wl_maps (wi_wal it).

Lemma read_one_ok it file :
  let p := wi_position it in
  let m := p / frag_size l in
  iter_ok it -> 0 <= p -> mp_id (wi_map it) <= m -> map_fits l m -> get_checked (wl_files (wi_wal it)) (map_file l m) = Some file ->
  exists it' d, read_one hash it = (r ← read_from_bytes hash d (Z.to_nat (p mod frag_size l)); Ok (it', wal_crc r)) /\
    iter_moved it it' p /\ mp_id (wi_map it') = m /\ length d = Z.to_nat (frag_size l) /\
    forall i, (i < Z.to_nat (frag_size l))%nat -> d !! i = byte_at l (wl_files (wi_wal it')) (frag_size l * m + Z.of_nat i).
Proof.
  intros p m (El & Esk & Hs & Emap & Hfit & Hback & Hret) Hp Hle Hm Hf. pose proof Hl as ((Hf0 & _) & _).
  unfold read_one. rewrite El, locate_ok by lia. fold p m. cbn [mbind outcome_bind].
  destruct (Z.eqb_spec (mp_id (wi_map it)) m) as [Em|Em]; cbn [negb].
  - cbn [mbind outcome_bind]. destruct (map_data_ok l Hl (wl_files (wi_wal it)) (mp_id (wi_map it)) Hfit Hback) as (d & -> & Hd & Hat).
    cbn [mbind outcome_bind]. rewrite Esk. exists it, d. split; [done|]. split_and!; try done; [|by rewrite <- Em].
    split_and!; [done|by apply extended_refl|done|done|done].
  - destruct (iter_make_map_ok (wl_files (wi_wal it)) (wi_maps it) m (mp_id (wi_map it)) (wi_for_writer it) file Hs Hm Hf) as (files' & maps' & -> & Hg & Hb & Hr').
    { lia. }
    { intros E. right. by apply Hret. }
    cbn [mbind outcome_bind option_map]. set (it' := mkWalIterator _ _ _ _ _ _).
    change (wl_files (wi_wal it')) with files'. change (mp_id (wi_map it')) with m.
    destruct (map_data_ok l Hl files' m Hm Hb) as (d & Ed & Hd & Hat). rewrite Ed. cbn [mbind outcome_bind].
    exists it', d. unfold it'. cbn [wi_skip_crc]. rewrite Esk. split; [done|]. split_and!; try done.
    split_and!; cbn; try done. split_and!; cbn; try done. apply Hg.
Qed.

Lemma frag_split p : p = frag_size l * (p / frag_size l) + p mod frag_size l /\ 0 <= p mod frag_size l < frag_size l.
Proof. pose proof Hl as ((Hf & _) & _). split; [apply Z.div_mod; lia|by apply Z.mod_pos_bound]. Qed.

Lemma holds_file files q b bytes : 0 <= q -> holds l files q (b :: bytes) ->
  exists file, get_checked files (map_file l (q / frag_size l)) = Some file.
Proof.
  intros Hq Hh. pose proof (frag_split q) as [Hs Hb]. specialize (Hh 0%nat b eq_refl). rewrite Z.add_0_r in Hh. pose proof Hl as ((Hf & _) & _).
  pose proof (byte_at_map l Hl files (q / frag_size l) (q mod frag_size l) ltac:(apply Z.div_pos; lia) Hb) as Hx.
  rewrite <- Hs, Hh in Hx. destruct (get_checked files _) as [file|]; [by exists file|done].
Qed.

Lemma frame_nonempty t : exists b bytes, crc_frame_new hash t = b :: bytes.
Proof. destruct (crc_frame_new hash t) as [|b bytes] eqn:E; [|by eexists _, _]. pose proof (length_crc_frame hash t) as Hlen. rewrite E in Hlen. done. Qed.

(** Reading at a frame, at a skip marker and past the end. *)
Lemma read_one_frame it t :
  let q := wi_position it in
  iter_ok it -> 0 <= q -> mp_id (wi_map it) <= q / frag_size l -> map_fits l (q / frag_size l) ->
  payload_ok t -> in_one_frag l q (extent l t) -> holds l (wl_files (wi_wal it)) q (crc_frame_new hash t) ->
  exists it', read_one hash it = Ok (it', inr t) /\ iter_moved it it' q /\ mp_id (wi_map it') = q / frag_size l.
Proof.
  intros q Hi Hq Hle Hm Ht Hone Hh. destruct (frame_nonempty t) as (b & bytes & Eb).
  destruct (holds_file _ q b bytes Hq ltac:(by rewrite <- Eb)) as [file Hf].
  destruct (read_one_ok it file Hi Hq Hle Hm Hf) as (it' & d & Er & Hmv & Em & Hd & Hat). fold q in Er, Hmv, Em, Hat. rewrite Er.
  pose proof (in_one_frag_room l Hl q t Hq Ht Hone) as Hroom. pose proof (extent_bounds l t Ht) as [Hext _].
  destruct (fragment_reads l Hl _ d _ q Hd Hat Hq eq_refl (crc_frame_new hash t)) as (pre & post & -> & Hpre).
  { eapply grown_holds; [apply Hmv|done]. }
  { rewrite length_frame. lia. }
  rewrite <- Hpre, read_frame; [by exists it'|done|]. unfold payload_ok, frame_size, CRC_HEADER_LENGTH, u32_max in *. lia.
Qed.

Lemma read_one_skip it :
  let p := wi_position it in
  iter_ok it -> 0 <= p -> mp_id (wi_map it) <= p / frag_size l -> map_fits l (p / frag_size l) ->
  (layout_alignment l | p) -> holds l (wl_files (wi_wal it)) p skip_marker ->
  exists it', read_one hash it = Ok (it', inl (WalCrc SkipMarker)) /\ iter_moved it it' p /\ mp_id (wi_map it') = p / frag_size l.
Proof.
  intros p Hi Hp Hle Hm Ha Hh. destruct (holds_file _ p 0xff (replicate 7 0xff) Hp Hh) as [file Hf].
  destruct (read_one_ok it file Hi Hp Hle Hm Hf) as (it' & d & Er & Hmv & Em & Hd & Hat). fold p in Er, Hmv, Em, Hat. rewrite Er.
  pose proof (aligned_room l Hl p Ha).
  destruct (fragment_reads l Hl _ d _ p Hd Hat Hp eq_refl skip_marker) as (pre & post & -> & Hpre).
  { eapply grown_holds; [apply Hmv|done]. }
  { change (Z.of_nat (length skip_marker)) with 8. lia. }
  rewrite <- Hpre, read_skip_marker. by exists it'.
Qed.

Lemma read_one_blank it :
  let p := wi_position it in
  iter_ok it -> 0 <= p -> mp_id (wi_map it) <= p / frag_size l -> map_fits l (p / frag_size l) ->
  (layout_alignment l | p) -> blank_from l (wl_files (wi_wal it)) p ->
  exists it' e, read_one hash it = Ok (it', inl e) /\ iter_moved it it' p /\ mp_id (wi_map it') <= p / frag_size l /\
    (e = WalCrc CrcMismatch /\ mp_id (wi_map it') = p / frag_size l \/
     e = EndOfWal /\ it' = it /\ get_checked (wl_files (wi_wal it)) (map_file l (p / frag_size l)) = None).
Proof.
  intros p Hi Hp Hle Hm Ha Hb. destruct (get_checked (wl_files (wi_wal it)) (map_file l (p / frag_size l))) as [file|] eqn:Hf.
  - destruct (read_one_ok it file Hi Hp Hle Hm Hf) as (it' & d & Er & Hmv & Em & Hd & Hat). fold p in Er, Hmv, Em, Hat. rewrite Er.
    pose proof (aligned_room l Hl p Ha) as Hroom. pose proof (frag_split p) as [Hs Hsb].
    assert (holds l (wl_files (wi_wal it')) p (replicate 8 0)) as Hz.
    { intros i b [-> Hi8]%lookup_replicate. specialize (Hat (Z.to_nat (p mod frag_size l) + i)%nat ltac:(lia)).
      replace (frag_size l * _ + _) with (p + Z.of_nat i) in Hat by lia.
      destruct (lookup_lt_is_Some_2 d (Z.to_nat (p mod frag_size l) + i)) as [b Hd']; [lia|].
      destruct (grown_blank _ _ p ltac:(apply Hmv) Hb (p + Z.of_nat i)) as [?|E]; [lia|done|]. congruence. }
    destruct (fragment_reads l Hl _ d _ p Hd Hat Hp eq_refl (replicate 8 0) Hz) as (pre & post & -> & Hpre); [cbn; lia|].
    rewrite <- Hpre, zero_header_read. exists it', (WalCrc CrcMismatch). split_and!; [done|done|lia|]. by left.
  - pose proof Hi as (El & _ & Hs & _). pose proof Hl as ((? & _) & _). unfold read_one. rewrite El, locate_ok by lia. fold p. cbn [mbind outcome_bind].
    destruct (Z.eqb_spec (mp_id (wi_map it)) (p / frag_size l)) as [Em|Em]; cbn [negb].
    { exfalso. destruct Hi as (_ & _ & _ & _ & _ & (f & Hf' & _) & _). rewrite Em in Hf'. congruence. }
    unfold iter_make_map. rewrite file_for_map_ok by done. cbn [mbind outcome_bind]. rewrite Hf. cbn [mbind outcome_bind option_map].
    exists it, EndOfWal. split_and!; [done| |lia|by right]. split_and!; [done|by apply extended_refl|done|done|done].
Qed.

Lemma set_position_ok it p : iter_ok it -> iter_ok (set_position it p).
Proof. done. Qed.

Lemma moved_trans a b c p q : iter_moved a b p -> iter_moved (set_position b q) c q -> iter_moved a c q.
Proof.
  intros (_ & Hg & _ & Hw & Hm) (Hi & Hg' & Hp & Hw' & Hm'). cbn in *. split_and!; [done|by eapply extended_trans|done|congruence|congruence].
Qed.

Lemma wal_next_frame it q t :
  let p := wi_position it in
  iter_ok it -> 0 <= p -> mp_id (wi_map it) <= p / frag_size l -> map_fits l (q / frag_size l) ->
  placed l hash (wl_files (wi_wal it)) p q t ->
  exists it', wal_next hash it = Ok (it', inr (wp_new q (frame_size t), t)) /\ iter_moved it it' (q + extent l t) /\
    mp_id (wi_map it') = q / frag_size l.
Proof.
  intros p Hi Hp Hle Hm Hpl. pose proof (placed_order l Hl hash _ _ _ _ Hp Hpl) as (Hpq & _ & _). destruct Hpl as (Ha & Ht & Hone & (Hh & Hbk) & Hor).
  pose proof Hl as ((Hf0 & _) & _). pose proof (in_one_frag_room l Hl q t ltac:(lia) Ht Hone) as Hroom. pose proof (frag_split q) as [Hs _].
  assert (forall it', iter_moved it it' q -> mp_id (wi_map it') = q / frag_size l ->
    exists it'', Ok (set_position it' (u64_add (wi_position it') (layout_align (wl_layout (wi_wal it')) (Z.of_nat (length t + CRC_HEADER_LENGTH)))),
       inr (A := WalError) (wp_new (wi_position it') (wrap32 (Z.of_nat (length t + CRC_HEADER_LENGTH))), t)) =
      Ok (it'', inr (wp_new q (frame_size t), t)) /\ iter_moved it it'' (q + extent l t) /\ mp_id (wi_map it'') = q / frag_size l) as Hfin.
  { intros it' Hmv Em. pose proof Hmv as (Hi' & _ & Ep & _). rewrite Ep, (proj1 Hi'), (Nat.add_comm (length t)). fold (frame_size t) (extent l t).
    pose proof (extent_bounds l t Ht) as [Hext _]. destruct Hm as [? Hm].
    unfold u64_add. rewrite wrap64_small by (unfold is_u64, u64_max, payload_ok, frame_size in *; lia).
    rewrite wrap32_small by (unfold is_u32, u32_max, payload_ok, frame_size in *; lia). eexists. split; [done|]. split; [|done].
    destruct Hmv as (? & ? & ? & ? & ?). by split_and!. }
  unfold wal_next. destruct Hor as [->|(Eq & Hne & Hskip)].
  - destruct (read_one_frame it t Hi Hp Hle Hm Ht Hone Hh) as (it' & Er & Hmv & Em). rewrite Er. cbn [mbind outcome_bind]. by apply Hfin.
  - assert (q / frag_size l = p / frag_size l + 1) as Eqm by (rewrite Eq, Z.mul_comm; by apply Z.div_mul; lia).
    assert (0 <= p / frag_size l) by (apply Z.div_pos; lia). assert (map_fits l (p / frag_size l)) as Hmp by (destruct Hm; split; [done|nia]).
    destruct (read_one_skip it Hi Hp Hle Hmp Ha Hskip) as (it1 & Er & Hmv & Em). fold p in Er, Hmv, Em. rewrite Er. cbn [mbind outcome_bind].
    pose proof Hmv as (Hi1 & [Hg1 _] & _). rewrite Em, (proj1 Hi1). ids_as_Z.
    assert (map_id_next_map (p / frag_size l) = q / frag_size l) as ->.
    { rewrite Eqm. unfold map_id_next_map, u64_add. apply wrap64_small. destruct Hm. unfold is_u64, u64_max in *. nia. }
    rewrite map_range_ok by done. cbn [fst]. assert (frag_size l * (q / frag_size l) = q) as -> by (rewrite Eqm; lia).
    destruct (read_one_frame (set_position it1 q) t) as (it2 & Er2 & Hmv2 & Em2); cbn [wi_position set_position wi_wal wi_map]; try done.
    { lia. }
    { ids_as_Z. lia. }
    { by eapply grown_holds. }
    rewrite Er2. cbn [mbind outcome_bind]. apply Hfin; [|done]. by eapply moved_trans.
Qed.

Lemma wal_next_end it :
  let p := wi_position it in
  iter_ok it -> 0 <= p -> mp_id (wi_map it) <= p / frag_size l -> map_fits l (p / frag_size l) ->
  (layout_alignment l | p) -> blank_from l (wl_files (wi_wal it)) p ->
  exists it' e, wal_next hash it = Ok (it', inl e) /\ iter_moved it it' p /\ mp_id (wi_map it') <= p / frag_size l /\
    (e = WalCrc CrcMismatch /\ mp_id (wi_map it') = p / frag_size l \/
     e = EndOfWal /\ it' = it /\ get_checked (wl_files (wi_wal it)) (map_file l (p / frag_size l)) = None).
Proof.
  intros p Hi Hp Hle Hm Ha Hb. destruct (read_one_blank it Hi Hp Hle Hm Ha Hb) as (it' & e & Er & Hmv & Hle' & Hor).
  exists it', e. unfold wal_next. rewrite Er. cbn [mbind outcome_bind]. split; [|done]. by destruct Hor as [[-> _]|[-> _]].
Qed.

Lemma log_end_aligned files p frames e : (layout_alignment l | p) -> log_at l hash files p frames e -> (layout_alignment l | e).
Proof.
  intros Ha Hlog. revert Ha. induction Hlog as [|p q t frames e Hp Hpl _ IH]; [done|]. intros _. apply IH.
  pose proof (placed_order l Hl hash _ _ _ _ Hp Hpl) as (_ & Haq & _). destruct Hpl as (_ & Ht & _). apply Z.divide_add_r; [done|]. by apply extent_bounds.
Qed.

(** A scan returns the frames of the log and stops at its end. *)
Lemma wal_scan_log frames : forall it e fuel,
  let p := wi_position it in
  iter_ok it -> 0 <= p -> mp_id (wi_map it) <= p / frag_size l <= mp_id (wi_map it) + 1 -> (layout_alignment l | p) ->
  log_at l hash (wl_files (wi_wal it)) p frames e -> blank_from l (wl_files (wi_wal it)) e -> map_fits l (e / frag_size l) ->
  (length frames < fuel)%nat ->
  exists it' err, wal_scan hash fuel it = Ok (it', frames, Some err) /\ iter_moved it it' e /\
    mp_id (wi_map it) <= mp_id (wi_map it') <= e / frag_size l /\ e / frag_size l <= mp_id (wi_map it') + 1 /\
    (err = WalCrc CrcMismatch /\ mp_id (wi_map it') = e / frag_size l \/
     err = EndOfWal /\ get_checked (wl_files (wi_wal it')) (map_file l (e / frag_size l)) = None).
Proof.
  induction frames as [|[pos t] frames IH]; intros it e fuel p Hi Hp Hle Ha Hlog Hb Hm Hfuel; (destruct fuel as [|fuel]; [cbn in Hfuel; lia|]).
  - inversion Hlog; subst. destruct (wal_next_end it Hi Hp (proj1 Hle) Hm Ha Hb) as (it' & err & Er & Hmv & Hle' & Hor).
    exists it', err. cbn [wal_scan]. rewrite Er. cbn [mbind outcome_bind]. split; [done|]. split; [done|].
    destruct Hor as [[-> E]|(-> & -> & Hnone)]; (split; [fold p in E || idtac; lia|]); (split; [fold p in E || idtac; lia|]); [left; done|right; done].
  - inversion Hlog as [|? q ? ? ? _ Hpl Hrest]; subst. pose proof Hl as ((Hf0 & _) & _).
    pose proof (placed_order l Hl hash _ _ _ _ Hp Hpl) as (Hpq & _ & _). pose proof (log_at_le l Hl hash _ _ _ _ Hrest) as Hqe.
    pose proof Hpl as (_ & Ht & _). pose proof (extent_bounds l t Ht) as [Hext _].
    assert (0 <= frame_size t) by (unfold frame_size; lia).
    assert (0 <= q / frag_size l <= e / frag_size l) as Hqd by (split; [apply Z.div_pos; lia|apply Z.div_le_mono; lia]).
    assert (map_fits l (q / frag_size l)) as Hmq by (destruct Hm; split; [lia|nia]).
    destruct (wal_next_frame it q t Hi Hp (proj1 Hle) Hmq Hpl) as (it1 & Er & Hmv & Em). pose proof Hmv as (Hi1 & [Hg1 _] & Ep1 & Hw1 & Hm1).
    destruct (IH it1 e fuel) as (it2 & err & Es & Hmv2 & Hrest2); try done; rewrite ?Ep1; try done.
    + lia.
    + rewrite Em. pose proof (in_one_frag_room l Hl q t ltac:(lia) Ht ltac:(apply Hpl)). pose proof (frag_split q) as [? ?].
      split; [apply Z.div_le_mono; lia|]. rewrite <- (Z.div_mul (q / frag_size l + 1) (frag_size l)) by lia. apply Z.div_le_mono; lia.
    + apply Z.divide_add_r; [|by apply extent_bounds]. by apply (placed_order l Hl hash _ _ _ _ Hp Hpl).
    + by eapply grown_log.
    + by eapply grown_blank.
    + cbn in Hfuel. lia.
    + exists it2, err. cbn [wal_scan]. rewrite Er. cbn [mbind outcome_bind]. rewrite Es. cbn [mbind outcome_bind]. split; [done|]. split.
      2: { pose proof (Z.div_le_mono p q (frag_size l) Hf0 Hpq). fold p in Hle. rewrite Em in Hrest2. split; [lia|apply Hrest2]. }
      destruct Hmv2 as (? & Hx2 & ? & ? & ?). split_and!; [done|eapply extended_trans; [apply Hmv|exact Hx2]|done|congruence|congruence].
Qed.
End iterator.
