(* ===== verification/WalWrite.v ===== *)
(** * Writing, reading back and reopening the log

    [multi_write] extends a log by the frames it is given ([multi_write_ok]);
    a frame is read back at its position from a map or from the file
    ([wal_read_frame]); the iterator that scanned a log turns into a writer at
    its end ([into_writer_ok]). *)

From Stdlib Require Import ZArith Lia List Sorting.Sorted.
From stdpp Require Import base tactics list gmap strings relations sorting.
From S2P Require Import Prelude BTree Bytes Position Layout Allocator Tracker Crc WalFiles Wal WalFacts.

Local Open Scope Z_scope.

Section writer.
Context (l : WalLayout) (Hl : layout_ok l) (hash : list Z -> Z) (hash_u32 : forall b, is_u32 (hash b)).

(** ** The writer's state *)

(** The writer finds a writeable map of the fragment. *)
Definition writeable_at (w : Wal) (m : MapId) : Prop :=
  (exists mp, bt_get m (wl_maps w) = Some mp /\ mp_writeable mp = true) /\ backed l (wl_files w) m.

Record writer_ok (w : WalWriter) : Prop := mkWriterOk {
  wo_layout : wl_layout (ww_wal w) = l;
  wo_sorted : bt_sorted (wf_files (wl_files (ww_wal w)));
  wo_pos : 0 <= ww_position w;
  wo_aligned : (layout_alignment l | ww_position w);
  wo_ids : forall k mp, bt_get k (wl_maps (ww_wal w)) = Some mp -> mp_id mp = k;
  wo_here : writeable_at (ww_wal w) (ww_position w / frag_size l);
  wo_next : writeable_at (ww_wal w) (ww_position w / frag_size l + 1);
  wo_fits : map_fits l (ww_position w / frag_size l + 2);
  wo_blank : blank_from l (wl_files (ww_wal w)) (ww_position w);
}.

(** ** Batches of frames *)

Definition frames_of (ts : list (list Z)) : list (list Z) := List.map (crc_frame_new hash) ts.

Fixpoint extents (ts : list (list Z)) : Z := match ts with [] => 0 | t :: ts => extent l t + extents ts end.

(** The positions of consecutive frames from [pos]. *)
Fixpoint frame_positions (pos : Z) (ts : list (list Z)) : list WalPosition :=
  match ts with [] => [] | t :: ts => wp_new pos (frame_size t) :: frame_positions (pos + extent l t) ts end.

Lemma extents_nonneg ts : Forall payload_ok ts -> 0 <= extents ts /\ (layout_alignment l | extents ts).
Proof.
  induction 1 as [|t ts Ht _ [IH IHa]]; cbn [extents]; [split; [lia|apply Z.divide_0_r]|]. pose proof (extent_bounds l t Ht) as [? ?].
  unfold frame_size in *. split; [lia|]. by apply Z.divide_add_r.
Qed.

Lemma extents_pos t ts : Forall payload_ok (t :: ts) -> 0 < extents (t :: ts).
Proof.
  intros [Ht Hts]%Forall_cons. cbn [extents]. pose proof (extents_nonneg ts Hts) as [? _]. pose proof (extent_bounds l t Ht) as [? _].
  unfold frame_size, CRC_HEADER_LENGTH in *. lia.
Qed.

Lemma aligned_total_from ts : forall acc, Forall payload_ok ts -> 0 <= acc -> acc + extents ts <= u64_max ->
  fold_left (fun total frame => u64_add total (layout_align l (Z.of_nat (length frame)))) (frames_of ts) acc = acc + extents ts.
Proof.
  induction ts as [|t ts IH]; intros acc Hts Ha Hb; cbn [frames_of List.map fold_left extents] in *; [lia|]. apply Forall_cons in Hts as [Ht Hts].
  pose proof (extents_nonneg ts Hts) as [? _]. pose proof (extent_bounds l t Ht) as [Hext _]. assert (0 <= frame_size t) by (unfold frame_size; lia).
  change (List.map (crc_frame_new hash) ts) with (frames_of ts). rewrite length_frame. fold (extent l t). rewrite u64_add_small by lia.
  rewrite IH by (done || lia). lia.
Qed.

Lemma aligned_total_ok ts : Forall payload_ok ts -> extents ts <= u64_max -> aligned_total l (frames_of ts) = extents ts.
Proof. intros Hts Hb. apply aligned_total_from; [done|lia|lia]. Qed.

(** The log outside [a .. b) is as it was. *)
Definition untouched (files files' : WalFiles) (a b : Z) : Prop :=
  same_shape files files' /\ forall p, p < a \/ b <= p -> byte_at l files' p = byte_at l files p.

Lemma written_untouched files files' pos bytes a b :
  written l files files' pos bytes -> a <= pos -> pos + Z.of_nat (length bytes) <= b -> untouched files files' a b.
Proof. intros [Hs Hw] Ha Hb. split; [done|]. intros p Hp. rewrite Hw. by destruct (decide _); [lia|]. Qed.

Lemma untouched_trans x y z a b : untouched x y a b -> untouched y z a b -> untouched x z a b.
Proof. intros [? Hx] [? Hy]. split; [by eapply same_shape_trans|]. intros p Hp. by rewrite Hy, Hx. Qed.

Lemma untouched_wider x y a b a' b' : untouched x y a b -> a' <= a -> b <= b' -> untouched x y a' b'.
Proof. intros [? Hx] ? ?. split; [done|]. intros p Hp. apply Hx. lia. Qed.

Lemma untouched_holds files files' a b q bytes :
  untouched files files' a b -> holds l files q bytes -> q + Z.of_nat (length bytes) <= a \/ b <= q -> holds l files' q bytes.
Proof. intros [_ Hu] Hh Hq i c Hi. pose proof (lookup_lt_Some _ _ _ Hi). rewrite Hu by lia. by apply Hh. Qed.

Lemma untouched_log files files' a b p frames e :
  untouched files files' a b -> e <= a -> log_at l hash files p frames e -> log_at l hash files' p frames e.
Proof.
  intros Hu He Hlog. eapply log_at_keep; [done|done| |].
  - intros q bytes Hh Hq. eapply untouched_holds; [done|done|lia].
  - intros m. apply same_shape_backed. apply Hu.
Qed.

(** The loop writes consecutive frames. *)
Lemma write_frames_ok ts : forall files m o,
  let pos := frag_size l * m + Z.of_nat o in
  Forall payload_ok ts -> bt_sorted (wf_files files) -> map_fits l m -> backed l files m -> (layout_alignment l | pos) ->
  Z.of_nat o + extents ts <= frag_size l ->
  exists files', write_frames l files m o pos (frames_of ts) = Ok (files', frame_positions pos ts) /\
    untouched files files' pos (pos + extents ts) /\ log_at l hash files' pos (zip (frame_positions pos ts) ts) (pos + extents ts).
Proof.
  induction ts as [|t ts IH]; intros files m o pos Hts Hs Hm Hb Ha Hr.
  { exists files. cbn. rewrite Z.add_0_r. split; [done|]. split; [split; [by apply same_shape_refl|done]|constructor]. }
  apply Forall_cons in Hts as [Ht Hts]. cbn [extents frames_of List.map write_frames frame_positions zip zip_with] in *.
  pose proof Hl as ((Hf0 & Hf1) & _). pose proof Hm as [Hm0 Hm1]. pose proof (extent_bounds l t Ht) as [Hext Hexta]. pose proof (extents_nonneg ts Hts) as [Hnn _].
  assert (0 <= frame_size t) by (unfold frame_size; lia). rewrite length_frame.
  change (Z.shiftl 1 30) with (2 ^ 30). destruct (Z.ltb_spec (frame_size t) (2 ^ 30)); [|unfold payload_ok in Ht; lia].
  cbn [assert_that mbind outcome_bind]. fold (extent l t).
  destruct (write_buf_at_ok l Hl files m o (crc_frame_new hash t) Hs Hm Hb) as (files1 & -> & Hw). { pose proof (length_frame hash t). lia. }
  cbn [mbind outcome_bind]. fold pos in Hw. assert (0 <= pos) by (unfold pos; nia). assert (0 <= extent l t) by lia.
  assert (pos + extent l t <= frag_size l * (m + 1)) as Hend by (unfold pos; lia).
  rewrite u64_add_small by lia. rewrite wrap32_small by (unfold is_u32, u32_max, payload_ok in *; lia).
  replace (pos + extent l t) with (frag_size l * m + Z.of_nat (o + Z.to_nat (extent l t))) by (unfold pos; lia).
  destruct (IH files1 m (o + Z.to_nat (extent l t))%nat) as (files' & Ew & Hu & Hlog); try done.
  { apply Hw. }
  { eapply same_shape_backed; [apply Hw|done]. }
  { replace (frag_size l * m + _) with (pos + extent l t) by (unfold pos; lia). by apply Z.divide_add_r. }
  { lia. }
  change (List.map (crc_frame_new hash) ts) with (frames_of ts). rewrite Ew. cbn [mbind outcome_bind].
  replace (frag_size l * m + Z.of_nat (o + Z.to_nat (extent l t))) with (pos + extent l t) in * by (unfold pos; lia).
  assert (untouched files files1 pos (pos + extent l t)) as Hu1 by (eapply written_untouched; [done|lia|rewrite length_frame; lia]).
  exists files'. split; [done|]. rewrite Z.add_assoc. split.
  { eapply untouched_trans; eapply untouched_wider; try done; lia. }
  assert (pos / frag_size l = m) as Em.
  { unfold pos. symmetry. apply (Z.div_unique _ _ _ (Z.of_nat o)); unfold frame_size, CRC_HEADER_LENGTH in *; lia. }
  constructor; [done| |done]. split_and!; [done|done| | | |by left].
  - unfold in_one_frag. rewrite Em. apply (Z.div_unique _ _ _ (Z.of_nat o + extent l t - 1)); unfold pos, frame_size, CRC_HEADER_LENGTH in *; lia.
  - eapply untouched_holds; [exact Hu|by eapply written_holds|]. rewrite length_frame. lia.
  - rewrite Em. eapply same_shape_backed; [apply Hu|]. eapply same_shape_backed; [apply Hw|done].
Qed.

Lemma log_at_skip files p q f frames e :
  0 <= p -> (layout_alignment l | p) -> p mod frag_size l <> 0 -> q = frag_size l * (p / frag_size l + 1) -> holds l files p skip_marker ->
  log_at l hash files q (f :: frames) e -> log_at l hash files p (f :: frames) e.
Proof.
  intros Hp Ha Hm Eq Hs Hlog. pose proof Hl as ((Hf0 & _) & _). inversion Hlog as [|? q' t ? ? Hq (Haq & Ht & Hone & Hh & Hor) Hrest]; subst.
  constructor; [done| |done]. split_and!; try done; try apply Hh. right. destruct Hor as [->|(_ & Hne & _)]; [done|].
  exfalso. apply Hne. by rewrite Z.mul_comm, Z_mod_mult.
Qed.
(** ** One batch *)

Lemma writeable_same_shape w files' m : same_shape (wl_files w) files' -> writeable_at w m -> writeable_at (set_wal_files w files') m.
Proof. intros Hs [Hmp Hb]. split; [done|]. by eapply same_shape_backed. Qed.

Lemma get_writeable_map_ok (w : Wal) p :
  wl_layout w = l -> (forall k mp, bt_get k (wl_maps w) = Some mp -> mp_id mp = k) -> writeable_at w (p / frag_size l) ->
  get_writeable_map w p = Ok (p / frag_size l, Z.to_nat (p mod frag_size l)).
Proof.
  intros El Hids [(mp & Hg & Hw) _]. pose proof Hl as ((Hf0 & _) & _). unfold get_writeable_map, wal_get_map. rewrite El, locate_ok by lia.
  cbn [mbind outcome_bind]. ids_as_Z. rewrite Hg. cbn [expect mbind outcome_bind]. rewrite Hw. cbn [assert_that mbind outcome_bind].
  by rewrite (Hids _ _ Hg).
Qed.

(** The skip marker in front of a batch that moves to the next fragment. *)
Lemma skip_step w q total :
  let p := ww_position w in
  writer_ok w -> p <= q -> (q = p \/ q = (p / frag_size l + 1) * frag_size l /\ p mod frag_size l <> 0) ->
  exists files1,
    (match need_skip_marker (mkAllocationResult q p total) with
     | Some skip_marker_pos => write_skip_marker (ww_wal w) skip_marker_pos
     | None => Ok (ww_wal w)
     end) = Ok (set_wal_files (ww_wal w) files1) /\ untouched (wl_files (ww_wal w)) files1 p q /\ (q = p \/ holds l files1 p skip_marker).
Proof.
  intros p [El Hs Hp Ha Hids Hhere Hnext Hfits Hblank] Hpq Hq. fold p in Hp, Ha, Hhere, Hnext, Hfits, Hblank. unfold need_skip_marker. cbn [previous_position allocated_position].
  destruct (Z.eqb_spec p q) as [E|E]; cbn [negb].
  { exists (wl_files (ww_wal w)). split; [by destruct w as [[] ?]|]. split; [|by left]. split; [by apply same_shape_refl|done]. }
  destruct Hq as [->|[Eq Hm]]; [done|]. pose proof Hl as ((Hf0 & _) & _). unfold write_skip_marker.
  rewrite get_writeable_map_ok by done. cbn [mbind outcome_bind]. rewrite El. pose proof (aligned_room l Hl p Ha) as Hroom.
  pose proof (Z.mod_pos_bound p _ Hf0). pose proof (Z.div_mod p (frag_size l) ltac:(lia)) as Hdm.
  destruct (write_buf_at_ok l Hl (wl_files (ww_wal w)) (p / frag_size l) (Z.to_nat (p mod frag_size l)) skip_marker Hs) as (files1 & -> & Hw).
  { destruct Hfits as [? Hfit]. assert (0 <= p / frag_size l) by (apply Z.div_pos; lia). split; [done|nia]. }
  { apply Hhere. }
  { change (length skip_marker) with 8%nat. lia. }
  replace (frag_size l * _ + _) with p in Hw by lia. exists files1. split; [done|]. split; [|right; by eapply written_holds].
  eapply written_untouched; [done|lia|]. change (Z.of_nat (length skip_marker)) with 8. lia.
Qed.

Lemma multi_write_ok w p0 frames t ts :
  writer_ok w -> log_at l hash (wl_files (ww_wal w)) p0 frames (ww_position w) -> Forall payload_ok (t :: ts) -> extents (t :: ts) <= frag_size l ->
  exists files' q,
    multi_write w (frames_of (t :: ts)) =
      Ok (mkWalWriter (set_wal_files (ww_wal w) files') (q + extents (t :: ts)), mkAllocationResult q (ww_position w) (extents (t :: ts)),
          frame_positions q (t :: ts)) /\
    ww_position w <= q /\ (q + extents (t :: ts)) / frag_size l <= ww_position w / frag_size l + 2 /\
    same_shape (wl_files (ww_wal w)) files' /\
    log_at l hash files' p0 (frames ++ zip (frame_positions q (t :: ts)) (t :: ts)) (q + extents (t :: ts)) /\
    blank_from l files' (q + extents (t :: ts)).
Proof.
  intros Hw Hlog Hts Hsz. pose proof Hw as [El Hs Hp Ha Hids Hhere Hnext Hfits Hblank]. pose proof (extents_pos t ts Hts) as Hpos.
  pose proof (extents_nonneg (t :: ts) Hts) as [_ Hta]. pose proof Hl as ((Hf0 & Hf1) & _). set (total := extents (t :: ts)) in *. set (p := ww_position w) in *.
  assert (0 <= p / frag_size l) as Hm0 by (apply Z.div_pos; lia). pose proof (frag_split l Hl p) as [Hsp Hspb]. destruct Hfits as [_ Hfits].
  unfold multi_write. rewrite El, aligned_total_ok by (done || unfold u64_max, u32_max in *; lia). fold total p.
  unfold allocate, allocate_attempt.
  assert (layout_align l total = total) as Eal.
  { rewrite layout_align_eq. pose proof (layout_alignment_pos l). apply align_up_aligned; unfold u64_max, u32_max in *; (lia || done). }
  rewrite Eal. destruct (next_position_spec l p total Hl Hp) as (q & -> & Hpq & Hone & Hor); [lia|nia|]. cbn [mbind outcome_bind].
  assert (q = p \/ q = (p / frag_size l + 1) * frag_size l /\ p mod frag_size l <> 0) as Hor'.
  { destruct Hor as [->|[Eq Hno]]; [by left|]. right. split; [done|]. intros Ez. apply Hno. unfold in_one_frag. apply (Z.div_unique _ _ _ (total - 1)); lia. }
  destruct (skip_step w q total Hw ltac:(fold p; lia) ltac:(done)) as (files1 & Esk & Hu1 & Hskip). fold p in Esk, Hu1, Hskip. rewrite Esk. cbn [mbind outcome_bind allocated_position].
  assert (q / frag_size l = p / frag_size l \/ q / frag_size l = p / frag_size l + 1) as Eqm.
  { destruct Hor' as [->|[-> _]]; [by left|]. right. apply Z.div_mul. lia. }
  assert (writeable_at (set_wal_files (ww_wal w) files1) (q / frag_size l)) as Hwq.
  { apply writeable_same_shape; [apply Hu1|]. by destruct Eqm as [->| ->]. }
  rewrite get_writeable_map_ok by done. cbn [mbind outcome_bind wl_files set_wal_files]. pose proof (frag_split l Hl q) as [Hsq Hsqb].
  assert (q mod frag_size l + total <= frag_size l) as Hroom.
  { unfold in_one_frag in Hone. pose proof (Z.div_mod (q + total - 1) (frag_size l) ltac:(lia)) as Hx. rewrite <- Hone in Hx.
    pose proof (Z.mod_pos_bound (q + total - 1) _ Hf0). lia. }
  assert (layout_alignment l | q) as Haq.
  { destruct Hor' as [->|[-> _]]; [done|]. apply Z.divide_mul_r, alignment_frag, Hl. }
  destruct (write_frames_ok (t :: ts) files1 (q / frag_size l) (Z.to_nat (q mod frag_size l)) Hts) as (files' & Ew & Hu & Hlog').
  { apply Hu1. }
  { split; [lia|]. destruct Eqm as [->| ->]; nia. }
  { apply Hwq. }
  { replace (frag_size l * _ + _) with q by lia. done. }
  { fold total. lia. }
  fold total in Hu, Hlog'. rewrite Z2Nat.id, <- Hsq in Ew, Hu, Hlog' by lia. rewrite Ew. cbn [mbind outcome_bind].
  exists files', q. assert (u64_add q total = q + total) as ->. { apply u64_add_small; [lia|lia|]. destruct Eqm; nia. }
  assert (untouched (wl_files (ww_wal w)) files' p (q + total)) as Hu2 by (eapply untouched_trans; eapply untouched_wider; try done; lia).
  split; [done|]. split_and!; [lia| |apply Hu2| |].
  - transitivity ((frag_size l * (q / frag_size l + 1)) / frag_size l); [apply Z.div_le_mono; lia|]. rewrite Z.mul_comm, Z.div_mul by lia. lia.
  - eapply log_at_app; [eapply untouched_log; [exact Hu2| |exact Hlog]; fold p; lia|]. destruct Hor' as [E|[Eq Hne]]; [by rewrite <- E|].
    apply (log_at_skip files' p q); try done; [lia|]. destruct Hskip as [->|Hskip]; [exfalso; rewrite Eq, Z_mod_mult in Hne; done|].
    eapply untouched_holds; [exact Hu|done|]. change (Z.of_nat (length skip_marker)) with 8. pose proof (aligned_room l Hl p Ha). lia.
  - intros x Hx. destruct Hu2 as [_ ->]; [|lia]. apply Hblank. fold p. lia.
Qed.
(** ** Reading one frame *)

Lemma file_split q : 0 <= q ->
  q / wal_file_size l = map_file l (q / frag_size l) /\ q mod wal_file_size l = map_offset l (q / frag_size l) + q mod frag_size l.
Proof.
  intros Hq. pose proof Hl as ((Hf0 & _) & _ & (Hw & _) & _). pose proof (frag_split l Hl q) as [Hs Hb].
  assert (0 <= q / frag_size l) as Hm by (apply Z.div_pos; lia). pose proof (map_file_split l Hl _ Hm) as Hsp.
  pose proof (map_offset_next l Hl _ Hm) as (? & ? & _).
  split; [symmetry; apply (Z.div_unique _ _ _ (map_offset l (q / frag_size l) + q mod frag_size l)); lia|].
  symmetry. apply (Z.mod_unique _ _ (map_file l (q / frag_size l))); lia.
Qed.

(** The frame inside the bytes of its file. *)
Lemma frame_in_file files q t file :
  0 <= q -> payload_ok t -> in_one_frag l q (extent l t) -> holds l files q (crc_frame_new hash t) ->
  get_checked files (map_file l (q / frag_size l)) = Some file -> covered l file (q / frag_size l) ->
  (Z.to_nat (q mod wal_file_size l) + Z.to_nat (extent l t) <= length file)%nat /\
  exists post, drop (Z.to_nat (q mod wal_file_size l)) file = crc_frame_new hash t ++ post.
Proof.
  intros Hq Ht Hone Hh Hf Hc. pose proof Hl as ((Hf0 & _) & _). pose proof (frag_split l Hl q) as [Hs Hb]. pose proof (file_split q Hq) as [_ Eo].
  pose proof (in_one_frag_room l Hl q t Hq Ht Hone) as Hroom. pose proof (extent_bounds l t Ht) as [Hext _]. pose proof (length_frame hash t) as Hlen.
  assert (0 <= q / frag_size l) as Hm by (apply Z.div_pos; lia). pose proof (map_offset_next l Hl _ Hm) as (? & _). unfold covered, file_len in Hc.
  assert (0 <= frame_size t) by (unfold frame_size; lia). rewrite Eo. split; [lia|].
  set (start := Z.to_nat (map_offset l (q / frag_size l) + q mod frag_size l)). exists (drop (start + length (crc_frame_new hash t)) file).
  rewrite (agrees_split file (crc_frame_new hash t) start) at 1; [by rewrite drop_app_length' by (rewrite length_take; lia)| |lia].
  intros j Hj. destruct (lookup_lt_is_Some_2 _ j Hj) as [b Hjb]. rewrite Hjb. specialize (Hh j b Hjb).
  replace (q + Z.of_nat j) with (frag_size l * (q / frag_size l) + (q mod frag_size l + Z.of_nat j)) in Hh by lia.
  rewrite byte_at_map, Hf in Hh by (done || lia). rewrite <- Hh. f_equal. lia.
Qed.

Lemma read_frame_alone t : payload_ok t -> read_from_bytes hash (crc_frame_new hash t) 0 = Ok (inr t).
Proof.
  intros Ht. pose proof (read_frame hash hash_u32 [] t []) as Hr. rewrite app_nil_r in Hr. apply Hr.
  unfold payload_ok, frame_size, CRC_HEADER_LENGTH, u32_max in *. lia.
Qed.

Lemma wal_read_frame (w : Wal) q t :
  wl_layout w = l -> (forall k mp, bt_get k (wl_maps w) = Some mp -> mp_id mp = k) ->
  0 <= q -> map_fits l (q / frag_size l) -> backed l (wl_files w) (q / frag_size l) ->
  payload_ok t -> in_one_frag l q (extent l t) -> holds l (wl_files w) q (crc_frame_new hash t) ->
  wal_read hash w (wp_new q (frame_size t)) = Ok (inr (Some t)).
Proof.
  intros El Hids Hq Hm Hb Ht Hone Hh. pose proof Hl as ((Hf0 & _) & _ & (Hw0 & _) & _). pose proof (extent_bounds l t Ht) as [Hext _].
  pose proof (length_frame hash t) as Hlen. pose proof Hb as (file & Hf & Hc). pose proof (file_split q Hq) as [Ef _].
  unfold wal_read, frame_source. rewrite El. cbn [wp_offset wp_new wp_frame_len wp_len].
  rewrite bool_decide_eq_false_2 by (intros E%(f_equal wp_len); change (frame_size t = u32_max) in E; unfold payload_ok, u32_max in *; lia). cbn [negb assert_that mbind outcome_bind].
  rewrite locate_ok by lia. unfold locate_file. rewrite u64_div_ok by lia. cbn [mbind outcome_bind]. ids_as_Z. rewrite Ef, Hf. cbn [option_map].
  set (src := match wal_get_map _ _ with Some map => _ | None => _ end).
  assert (src = Some (SourceFile file) \/ exists mp, src = Some (SourceMapped mp (q mod frag_size l)) /\ mp_id mp = q / frag_size l) as [->|(mp & -> & Eid)].
  { unfold src, wal_get_map. ids_as_Z. destruct (bt_get (q / frag_size l) (wl_maps w)) as [mp|] eqn:Eg; [|by left].
    destruct (mp_populated mp || _); [|by left]. right. exists mp. by rewrite (Hids _ _ Eg). }
  - destruct (frame_in_file _ q t file Hq Ht Hone Hh Hf Hc) as [Hroom [post Epost]].
    unfold offset_in_wal_file. rewrite u64_rem_ok by lia. cbn [mbind outcome_bind]. unfold read_exact_at. fold (extent l t).
    set (n := if direct_io l then Z.to_nat (extent l t) else Z.to_nat (frame_size t)).
    assert (Z.to_nat (frame_size t) <= n <= Z.to_nat (extent l t))%nat as Hn.
    { assert (0 <= frame_size t) by (unfold frame_size; lia). unfold n. destruct (direct_io l); lia. }
    destruct (Nat.leb_spec (Z.to_nat (q mod wal_file_size l) + n) (length file)); [|lia]. rewrite Epost. set (bytes := take n _).
    assert (take (Z.to_nat (frame_size t)) bytes = crc_frame_new hash t) as Et.
    { unfold bytes. rewrite take_take, Nat.min_l by lia. apply take_app_length'. lia. }
    assert ((if direct_io l && (Z.to_nat (frame_size t) <? length bytes)%nat then take (Z.to_nat (frame_size t)) bytes else bytes) = crc_frame_new hash t) as ->.
    { destruct (direct_io l) eqn:Ed; cbn [andb].
      - destruct (Nat.ltb_spec (Z.to_nat (frame_size t)) (length bytes)); [done|]. rewrite <- Et. symmetry. by apply take_ge.
      - rewrite <- Et. symmetry. apply take_ge. unfold bytes, n. rewrite length_take. lia. }
    by rewrite read_frame_alone.
  - rewrite Eid. destruct (map_data_ok l Hl (wl_files w) (q / frag_size l) Hm Hb) as (d & -> & Hd & Hat). cbn [mbind outcome_bind].
    pose proof (in_one_frag_room l Hl q t Hq Ht Hone) as Hroom.
    destruct (fragment_reads l Hl _ d _ q Hd Hat Hq eq_refl (crc_frame_new hash t) Hh) as (pre & post & -> & Hpre); [lia|].
    change (read_from_slice hash) with (read_from_bytes hash). rewrite <- Hpre, read_frame; [done|done|].
    unfold payload_ok, frame_size, CRC_HEADER_LENGTH, u32_max in *. lia.
Qed.

(** Every frame of the log can be read. *)
Lemma log_reads (w : Wal) p frames e :
  wl_layout w = l -> (forall k mp, bt_get k (wl_maps w) = Some mp -> mp_id mp = k) -> map_fits l (e / frag_size l) ->
  log_at l hash (wl_files w) p frames e ->
  Forall (fun '(pos, t) => wal_read hash w pos = Ok (inr (Some t))) frames.
Proof.
  intros El Hids Hm. induction 1 as [|p q t frames e Hp Hpl Hlog IH]; [done|]. constructor; [|by apply IH].
  pose proof (placed_order l Hl hash _ _ _ _ Hp Hpl) as (Hpq & _ & _). pose proof (log_at_le l Hl hash _ _ _ _ Hlog) as Hqe.
  destruct Hpl as (_ & Ht & Hone & (Hh & Hb) & _). pose proof (extent_bounds l t Ht) as [? _]. pose proof Hl as ((Hf0 & _) & _).
  apply wal_read_frame; try done; [lia|]. assert (q / frag_size l <= e / frag_size l) by (apply Z.div_le_mono; unfold frame_size in *; lia).
  assert (0 <= q / frag_size l) by (apply Z.div_pos; lia). destruct Hm. split; [done|nia].
Qed.
End writer.

(** ** Opening a log *)

Section reopen.
Context (l : WalLayout) (Hl : layout_ok l) (Hmax : 3 <= max_maps l) (hash : list Z -> Z) (hash_u32 : forall b, is_u32 (hash b)).

(** The files of a log of [frames] from [p0] to [e]: nothing is written past its
    end, no file is missing and there are positions for three more fragments. *)
Record log_files (files : WalFiles) (p0 : Z) (frames : list (WalPosition * list Z)) (e : Z) : Prop := mkLogFiles {
  lf_sorted : bt_sorted (wf_files files);
  lf_start : 0 <= p0;
  lf_aligned : (layout_alignment l | p0);
  lf_first : is_Some (get_checked files (map_file l (p0 / frag_size l)));
  lf_gapless : forall id id', map_file l (p0 / frag_size l) <= id <= id' -> is_Some (get_checked files id') -> is_Some (get_checked files id);
  lf_log : log_at l hash files p0 frames e;
  lf_blank : blank_from l files e;
  lf_fits : map_fits l (e / frag_size l + 2);
}.

Lemma log_files_fits files p0 frames e m : log_files files p0 frames e -> 0 <= m <= e / frag_size l + 2 -> map_fits l m.
Proof. intros Hf Hm. destruct (lf_fits _ _ _ _ Hf) as [_ Hr]. destruct Hl as ((? & _) & _). split; [lia|nia]. Qed.

Lemma start_fits files p0 frames e : log_files files p0 frames e -> 0 <= p0 / frag_size l <= e / frag_size l.
Proof.
  intros Hf. pose proof (log_at_le l Hl hash _ _ _ _ (lf_log _ _ _ _ Hf)). destruct Hl as ((? & _) & _). pose proof (lf_start _ _ _ _ Hf).
  split; [apply Z.div_pos; lia|apply Z.div_le_mono; lia].
Qed.

Lemma grown_some files files' id : grown files files' -> is_Some (get_checked files id) -> is_Some (get_checked files' id).
Proof. intros [_ Hg] [f Hf]. specialize (Hg id). rewrite Hf in Hg. destruct Hg as [n ->]. by eexists. Qed.

Lemma iterator_new_ok (w : Wal) p0 frames e for_writer :
  wl_layout w = l -> log_files (wl_files w) p0 frames e ->
  exists it, iterator_new w p0 for_writer = Ok it /\ iter_ok l it /\ extended (wl_files w) (wl_files (wi_wal it)) /\ wi_position it = p0 /\
    mp_id (wi_map it) = p0 / frag_size l /\ wi_for_writer it = for_writer.
Proof.
  intros El Hf. pose proof Hl as ((Hf0 & _) & _). pose proof (start_fits _ _ _ _ Hf) as Hsf. destruct (lf_first _ _ _ _ Hf) as [file Hfile].
  assert (map_fits l (p0 / frag_size l)) as Hfit by (eapply log_files_fits; [done|lia]).
  unfold iterator_new. rewrite El, locate_ok by lia. cbn [mbind outcome_bind].
  destruct (iter_make_map_ok l Hl Hmax (wl_files w) [] (p0 / frag_size l) (p0 / frag_size l - 1) for_writer file (lf_sorted _ _ _ _ Hf) Hfit Hfile) as (files' & maps' & Em & Hg & Hb & Hr).
  { lia. }
  { intros _. by left. }
  rewrite Em. cbn [expect mbind outcome_bind]. eexists. split; [done|]. split_and!; try done. split_and!; cbn; try done. apply Hg.
Qed.

Lemma log_files_extended files files' p0 frames e : extended files files' -> log_files files p0 frames e -> log_files files' p0 frames e.
Proof.
  intros [Hg Hx] [Hs Hst Ha Hfi Hgap Hlog Hbl Hfit]. split; try done.
  - apply Hg.
  - by eapply grown_some.
  - intros id id' Hid Hi%Hx. eapply grown_some; [done|]. by eapply Hgap.
  - by eapply grown_log.
  - by eapply grown_blank.
Qed.

(** Zeroing the rest of the fragment keeps the log. *)
Lemma clear_fragment_ok it p0 frames e :
  iter_ok l it -> log_files (wl_files (wi_wal it)) p0 frames e -> mp_id (wi_map it) <= e / frag_size l ->
  exists files', clear_fragment_from_position it e = Ok files' /\ same_shape (wl_files (wi_wal it)) files' /\ log_files files' p0 frames e.
Proof.
  intros Hi Hf Hle. pose proof Hi as (El & _ & Hs & _ & Hfit & Hb & _). pose proof Hl as ((Hf0 & _) & _). pose proof (frag_split l Hl e) as [Hsp Hspb].
  unfold clear_fragment_from_position. rewrite El, locate_ok by lia. cbn [mbind outcome_bind]. ids_as_Z.
  destruct (Z.eqb_spec (e / frag_size l) (mp_id (wi_map it))) as [Em|Em]; cbn [negb].
  2: { eexists. split; [done|]. split; [by apply same_shape_refl|done]. }
  rewrite Em, map_range_ok by done. pose proof Hfit as [? Hfu].
  rewrite (u64_sub_small (frag_size l * (_ + 1))) by nia. rewrite u64_sub_small by nia.
  set (n := Z.to_nat _). destruct (Nat.ltb_spec 0 n); [|lia].
  destruct (write_buf_at_ok l Hl (wl_files (wi_wal it)) (mp_id (wi_map it)) (Z.to_nat (e mod frag_size l)) (replicate n 0) Hs Hfit Hb) as (files' & -> & Hw).
  { rewrite length_replicate. unfold n. lia. }
  replace (frag_size l * _ + _) with e in Hw by (rewrite <- Em; lia). exists files'. split; [done|]. pose proof Hw as [Hsh Hby].
  split; [done|]. assert (forall id, is_Some (get_checked files' id) <-> is_Some (get_checked (wl_files (wi_wal it)) id)) as Hid.
  { intros id. destruct Hsh as [_ Hsh]. specialize (Hsh id). destruct (get_checked files' id), (get_checked (wl_files (wi_wal it)) id); try done; split; by eexists. }
  destruct Hf as [_ Hst Ha Hfi Hgap Hlog Hbl Hft]. split; try done.
  - apply Hsh.
  - by apply Hid.
  - intros id id' Hii H'%Hid. apply Hid. by eapply Hgap.
  - eapply (untouched_log l Hl hash); [eapply (written_untouched l); [exact Hw|reflexivity|reflexivity]|lia|done].
  - intros x Hx. rewrite Hby. destruct (decide _) as [Hin|]; [|by apply Hbl]. left. rewrite length_replicate in Hin. apply lookup_replicate_2. lia.
Qed.

Lemma retained_last files maps m : retained l files maps m -> last maps = Some (m, create_map m).
Proof.
  intros (Hs & _ & Hg & Hk). destruct (bt_last_max maps m _ Hs Hg) as (k & mp & El & Hmk & Hgk). destruct (Hk k mp Hgk) as (? & -> & _).
  by assert (k = m) as -> by lia.
Qed.

(** The mapper starts with the maps the iterator retained. *)
Lemma iterator_start_ok it files p0 frames e :
  iter_ok l it -> wi_for_writer it = true -> same_shape (wl_files (wi_wal it)) files -> log_files files p0 frames e ->
  p0 / frag_size l <= mp_id (wi_map it) <= e / frag_size l -> start_ok l (wi_maps it) files (mp_id (wi_map it)).
Proof.
  intros (El & _ & Hs & _ & Hfit & Hb & Hret) Hw Hsh Hf Hle. specialize (Hret Hw). pose proof (retained_last _ _ _ Hret) as Hlast.
  destruct Hret as (Hsm & Hlen & Hg & Hk). split; try done.
  - apply Hsh.
  - by exists (create_map (mp_id (wi_map it))).
  - apply List.Forall_forall. intros [k mp] Hin. apply bt_get_In in Hin; [|done]. by apply (Hk k mp).
  - intros k mp Hgk. by destruct (Hk k mp Hgk) as (_ & -> & _).
  - intros k mp Hgk. destruct (Hk k mp Hgk) as (_ & _ & Hbk). destruct (same_shape_backed l _ _ k Hsh Hbk) as (f & Hff & Hc). by exists f.
  - eapply log_files_fits; [done|]. destruct Hfit. lia.
  - intros id id' Hid. apply (lf_gapless _ _ _ _ Hf). pose proof (start_fits _ _ _ _ Hf).
    pose proof (map_file_mono l Hl (p0 / frag_size l) (mp_id (wi_map it)) ltac:(lia)). lia.
Qed.

(** The window of the mapper holds the log and has no gap. *)
Lemma mapper_log_files files t m p0 frames e :
  log_files files p0 frames e -> grown files (mt_files t) -> mapper_steady l (m - 1) t -> p0 / frag_size l <= m <= e / frag_size l ->
  is_Some (get_checked files (map_file l m)) -> log_files (mt_files t) p0 frames e.
Proof.
  intros [Hs Hst Ha Hfi Hgap Hlog Hbl Hfit] Hg (Hi & _ & Eid) Hm Hsome. pose proof Hl as ((Hf0 & _) & _). split; try done.
  - apply Hg.
  - by eapply grown_some.
  - assert (0 <= m) as Hm0 by (pose proof (Z.div_pos p0 (frag_size l)); lia).
    assert (forall k, m <= k <= m + 2 -> is_Some (get_checked (mt_files t) (map_file l k))) as Hwin.
    { intros k Hk. destruct (mi_ahead _ _ _ Hi k ltac:(lia)) as (mp & Hgk & _). destruct (mi_backed _ _ _ Hi k mp Hgk) as (f & Hf & _). by exists f. }
    pose proof (map_file_next l Hl m Hm0). pose proof (map_file_next l Hl (m + 1) ltac:(lia)) as Hn2. replace (m + 1 + 1) with (m + 2) in Hn2 by lia.
    intros id id' Hid Hid'. destruct (decide (id <= map_file l m)).
    { eapply grown_some; [done|]. eapply (Hgap id (map_file l m)); [lia|done]. }
    destruct (decide (id = map_file l (m + 1))) as [->|]; [apply Hwin; lia|]. destruct (decide (id = map_file l (m + 2))) as [->|]; [apply Hwin; lia|].
    eapply (mi_above _ _ _ Hi id id'); [|done]. rewrite Eid. replace (m - 1 + 3) with (m + 2) by lia. lia.
  - by eapply grown_log.
  - by eapply grown_blank.
Qed.

Lemma into_writer_ok it p0 frames e :
  iter_ok l it -> wi_for_writer it = true -> wi_position it = e -> log_files (wl_files (wi_wal it)) p0 frames e -> 0 <= e -> (layout_alignment l | e) ->
  p0 / frag_size l <= mp_id (wi_map it) <= e / frag_size l -> e / frag_size l <= mp_id (wi_map it) + 1 ->
  exists w t, into_writer it None = Ok (w, t) /\ ww_wal w = mkWal l (mt_files t) (mt_published t) /\ ww_position w = e /\
    mapper_steady l (mp_id (wi_map it) - 1) t /\ writer_ok l w /\ log_files (wl_files (ww_wal w)) p0 frames e.
Proof.
  intros Hi Hw Ep Hf He Hae Hle Hle1. pose proof Hi as (El & _ & Hs & Emap & Hfit & Hb & Hret). pose proof Hl as ((Hf0 & _) & _). set (m := mp_id (wi_map it)) in *.
  destruct (clear_fragment_ok it p0 frames e Hi Hf ltac:(lia)) as (files' & Ecl & Hsh & Hf').
  pose proof (iterator_start_ok it files' p0 frames e Hi Hw Hsh Hf' Hle) as Hst.
  destruct (mapper_start_ok l Hl Hmax _ _ _ Hst) as (t & Et & Hsteady & Hg). fold m in Hsteady.
  assert (log_files (mt_files t) p0 frames e) as Hft.
  { eapply (mapper_log_files files' t m); try done. destruct (same_shape_backed l _ _ m Hsh Hb) as (f & Hff & _). by exists f. }
  unfold into_writer. rewrite Hw, El. cbn [default assert_that mbind outcome_bind]. rewrite Ep, locate_ok by lia. cbn [mbind outcome_bind].
  assert (match bt_get (e / frag_size l) (wi_maps it) with Some map => mp_writeable map | None => true end = true) as Hasrt.
  { destruct (Hret Hw) as (_ & _ & _ & Hk). destruct (bt_get (e / frag_size l) (wi_maps it)) as [mp|] eqn:E; [|done]. by destruct (Hk _ mp E) as (_ & -> & _). }
  ids_as_Z. rewrite Hasrt. cbn [assert_that mbind outcome_bind]. rewrite Ecl. cbn [mbind outcome_bind]. rewrite Et. cbn [mbind outcome_bind].
  eexists _, t. split; [done|]. split_and!; try done. pose proof Hsteady as (Hinv & Hpub & Eid).
  assert (forall k, m <= k <= m + 2 -> writeable_at l (mkWal l (mt_files t) (mt_published t)) k) as Hwin.
  { intros k Hk. destruct (mi_ahead _ _ _ Hinv k ltac:(lia)) as (mp & Hgk & Hwk). split; cbn [wl_maps wl_files]; [exists mp; by rewrite Hpub|].
    destruct (mi_backed _ _ _ Hinv k mp Hgk) as (f & Hff & Hc). by exists f. }
  split; cbn [ww_wal ww_position wl_layout wl_files wl_maps]; try done.
  - apply Hft.
  - rewrite Hpub. apply (mi_ids _ _ _ Hinv).
  - apply Hwin. lia.
  - apply Hwin. lia.
  - apply Hft.
  - apply Hft.
Qed.

(** Scanning the whole log and taking over as its writer. *)
Lemma reopen_ok (w : Wal) p0 frames e fuel :
  wl_layout w = l -> log_files (wl_files w) p0 frames e -> (length frames < fuel)%nat ->
  exists it0 it err w' t,
    wal_iterator_for_writer w p0 = Ok it0 /\ wal_scan hash fuel it0 = Ok (it, frames, Some err) /\
    into_writer it None = Ok (w', t) /\ ww_wal w' = mkWal l (mt_files t) (mt_published t) /\ ww_position w' = e /\
    mapper_steady l (mp_id (wi_map it) - 1) t /\ writer_ok l w' /\ log_files (wl_files (ww_wal w')) p0 frames e /\
    p0 / frag_size l <= mp_id (wi_map it) <= e / frag_size l.
Proof.
  intros El Hf Hfuel. pose proof (start_fits _ _ _ _ Hf) as Hsf. pose proof (log_at_le l Hl hash _ _ _ _ (lf_log _ _ _ _ Hf)) as Hpe.
  pose proof (lf_start _ _ _ _ Hf) as Hp0. pose proof (lf_aligned _ _ _ _ Hf) as Ha0.
  pose proof (log_end_aligned l Hl hash _ _ _ _ Ha0 (lf_log _ _ _ _ Hf)) as Hae.
  destruct (iterator_new_ok w p0 frames e true El Hf) as (it0 & E0 & Hi0 & Hx0 & Ep0 & Em0 & Hw0).
  pose proof (log_files_extended _ _ _ _ _ Hx0 Hf) as Hf1.
  destruct (wal_scan_log l Hl Hmax hash hash_u32 frames it0 e fuel) as (it & err & Es & (Hi & Hx & Ep & Hwr & _) & Hle & Hle1 & _); rewrite ?Ep0, ?Em0; try done; try lia.
  { apply Hf1. }
  { apply Hf1. }
  { eapply log_files_fits; [done|lia]. }
  pose proof (log_files_extended _ _ _ _ _ Hx Hf1) as Hf2.
  destruct (into_writer_ok it p0 frames e Hi) as (w' & t & Ei & Hrest); try done; try lia; [congruence|].
  exists it0, it, err, w', t. destruct Hrest as (? & ? & ? & ? & ?). split_and!; try done; lia.
Qed.
End reopen.
