(* ===== verification/WalSession.v ===== *)
(** * A log over its lifetime

    The writer, the mapper thread and restarts together: batches are written,
    fragments are finalized behind the writer, and the process is stopped and
    started again.  At every point the log is the frames of the batches written,
    in order ([wal_log_exact]). *)

From Stdlib Require Import ZArith Lia List Sorting.Sorted.
From stdpp Require Import base tactics list gmap strings relations sorting.
From S2P Require Import Prelude BTree Bytes Position Layout Allocator Tracker Crc WalFiles Wal WalFacts WalWrite.

Local Open Scope Z_scope.

Section session.
Context (l : WalLayout) (hash : list Z -> Z) (p0 : Z).

(** The mapper and the files it owns, the last fragment it finalized, the
    writer's position and the frames acknowledged so far. *)
Record Session := mkSession {
  ss_mapper : WalMapperThread;
  ss_finalized : MapId;
  ss_position : Z;
  ss_frames : list (WalPosition * list Z);
}.

(** The log as the threads share it. *)
Definition ss_wal (s : Session) : Wal := mkWal l (mt_files (ss_mapper s)) (mt_published (ss_mapper s)).

Definition ss_writer (s : Session) : WalWriter := mkWalWriter (ss_wal s) (ss_position s).

(** The payloads one call of [multi_write] accepts. *)
Definition batch_ok (ts : list (list Z)) : Prop := ts <> [] /\ Forall payload_ok ts /\ extents l ts <= frag_size l.

(** The mapper has caught up: the writer's fragment and the next are mapped. *)
Definition writer_window (s : Session) : Prop := ss_position s / frag_size l <= ss_finalized s + 2.

(** Positions are left for a batch and the fragments mapped ahead. *)
Definition room (s : Session) : Prop := map_fits l (ss_position s / frag_size l + 4).

(** Start-up on the files of a log: the scan, and the writer it turns into. *)
Inductive session_open (files : WalFiles) : Session -> Prop :=
| open_scan it0 fuel it frames err w t :
    wal_iterator_for_writer (mkWal l files []) p0 = Ok it0 ->
    wal_scan hash fuel it0 = Ok (it, frames, Some err) ->
    into_writer it None = Ok (w, t) ->
    session_open files (mkSession t (mp_id (wi_map it) - 1) (ww_position w) frames).

(** A step and the frames it acknowledges. *)
Inductive session_step : Session -> list (WalPosition * list Z) -> Session -> Prop :=
| step_write s ts w r positions :
    batch_ok ts -> writer_window s -> room s ->
    multi_write (ss_writer s) (frames_of hash ts) = Ok (w, r, positions) ->
    session_step s (zip positions ts)
      (mkSession (set_files (ss_mapper s) (wl_files (ww_wal w))) (ss_finalized s) (ww_position w) (ss_frames s ++ zip positions ts))
| step_finalize s t :
    ss_finalized s + 1 < ss_position s / frag_size l -> room s ->
    mapper_handle l (ss_mapper s) (MapperMapFinalized (ss_finalized s + 1)) = Ok t ->
    session_step s [] (mkSession t (ss_finalized s + 1) (ss_position s) (ss_frames s))
| step_restart s s' : session_open (mt_files (ss_mapper s)) s' -> session_step s [] s'.

(** A log opened on the files of [logged], and the frames acknowledged since. *)
Inductive wal_history : Session -> list (WalPosition * list Z) -> Prop :=
| history_open files logged e s : log_files l hash files p0 logged e -> session_open files s -> wal_history s logged
| history_step s acked new s' : wal_history s acked -> session_step s new s' -> wal_history s' (acked ++ new).

Context (Hl : layout_ok l) (Hmax : 3 <= max_maps l) (hash_u32 : forall b, is_u32 (hash b)).

Record session_inv (s : Session) : Prop := mkSessionInv {
  si_mapper : mapper_steady l (ss_finalized s) (ss_mapper s);
  si_log : log_files l hash (mt_files (ss_mapper s)) p0 (ss_frames s) (ss_position s);
  si_behind : p0 / frag_size l <= ss_finalized s + 1 <= ss_position s / frag_size l;
}.

Lemma session_writer_ok s : session_inv s -> writer_window s -> writer_ok l (ss_writer s).
Proof.
  intros [(Hi & Hpub & Eid) Hf Hb] Hw. unfold writer_window in Hw. pose proof (lf_start _ _ _ _ _ _ Hf). pose proof (log_at_le l Hl hash _ _ _ _ (lf_log _ _ _ _ _ _ Hf)).
  assert (forall k, ss_finalized s < k <= ss_finalized s + 3 -> writeable_at l (ss_wal s) k) as Hwin.
  { intros k Hk. destruct (mi_ahead _ _ _ Hi k ltac:(lia)) as (mp & Hgk & Hwk). split; cbn [wl_maps wl_files ss_wal]; [exists mp; by rewrite Hpub|].
    destruct (mi_backed _ _ _ Hi k mp Hgk) as (f & Hff & Hc). by exists f. }
  split; cbn [ss_writer ww_wal ww_position ss_wal wl_layout wl_files wl_maps]; try done.
  - apply Hf.
  - lia.
  - eapply (log_end_aligned l Hl hash); [apply Hf|apply Hf].
  - rewrite Hpub. apply (mi_ids _ _ _ Hi).
  - apply Hwin. lia.
  - apply Hwin. lia.
  - apply Hf.
  - apply Hf.
Qed.

Lemma same_shape_some files files' id : same_shape files files' -> is_Some (get_checked files' id) <-> is_Some (get_checked files id).
Proof.
  intros [_ Hs]. specialize (Hs id). destruct (get_checked files' id), (get_checked files id); try done; split; by eexists.
Qed.

Lemma steady_same_shape finalized t files' : mapper_steady l finalized t -> same_shape (mt_files t) files' -> mapper_steady l finalized (set_files t files').
Proof.
  intros (Hi & Hpub & Eid) Hsh. split_and!; [|done|done]. destruct Hi as [Hsm Hsf Hlen Hbd Hids Hback Hah Hnx Hfits Habove]. split; cbn [set_files mt_maps mt_files mt_map_id]; try done.
  - apply Hsh.
  - intros m mp Hg. destruct (Hback m mp Hg) as (f & Hf & Hc). by apply (same_shape_backed l _ _ m Hsh); exists f.
  - intros id id' Hid Hs. apply (same_shape_some _ _ _ Hsh). apply (Habove id id' Hid). by apply (same_shape_some _ _ _ Hsh).
Qed.

(** A batch extends the log by its frames. *)
Lemma session_write s ts :
  session_inv s -> batch_ok ts -> writer_window s -> room s ->
  exists w r positions, multi_write (ss_writer s) (frames_of hash ts) = Ok (w, r, positions) /\ length positions = length ts /\
    session_inv (mkSession (set_files (ss_mapper s) (wl_files (ww_wal w))) (ss_finalized s) (ww_position w) (ss_frames s ++ zip positions ts)).
Proof.
  intros Hi (Hne & Hts & Hsz) Hw Hr. pose proof (session_writer_ok s Hi Hw) as Hwo. destruct Hi as [Hst Hf Hb]. destruct ts as [|t ts]; [done|].
  destruct (multi_write_ok l Hl hash (ss_writer s) p0 (ss_frames s) t ts Hwo (lf_log _ _ _ _ _ _ Hf) Hts Hsz) as (files' & q & -> & Hq & Hq2 & Hsh & Hlog & Hbl).
  eexists _, _, _. split; [done|]. split.
  { clear. generalize (t :: ts) as xs. intros xs. revert q. induction xs as [|x xs IH]; intros q; cbn; [done|]. by rewrite IH. }
  cbn [ww_wal wl_files set_wal_files ww_position ss_writer] in *. pose proof (extents_pos l t ts Hts) as Hpos. pose proof Hl as ((Hf0 & _) & _).
  split; cbn [ss_mapper ss_finalized ss_position ss_frames].
  - by apply steady_same_shape.
  - destruct Hf as [Hs Hst0 Ha Hfi Hgap _ _ Hfit]. split; cbn [mt_files set_files]; try done.
    + apply Hsh.
    + by apply (same_shape_some _ _ _ Hsh).
    + intros id id' Hid Hx. apply (same_shape_some _ _ _ Hsh). apply (Hgap id id' Hid). by apply (same_shape_some _ _ _ Hsh).
    + destruct Hr as [Hr0 Hr1]. assert (0 <= (q + extents l (t :: ts)) / frag_size l).
      { apply Z.div_pos; [|lia]. pose proof (wo_pos _ _ Hwo) as Hx. cbn [ss_writer ww_position] in Hx. lia. }
      split; [lia|nia].
  - split; [lia|]. transitivity (ss_position s / frag_size l); [lia|]. apply Z.div_le_mono; lia.
Qed.

(** Finalizing a fragment behind the writer moves the window. *)
Lemma session_finalize s :
  session_inv s -> ss_finalized s + 1 < ss_position s / frag_size l -> room s ->
  exists t, mapper_handle l (ss_mapper s) (MapperMapFinalized (ss_finalized s + 1)) = Ok t /\
    session_inv (mkSession t (ss_finalized s + 1) (ss_position s) (ss_frames s)).
Proof.
  intros [Hst Hf Hb] Hlt Hr. pose proof Hl as ((Hf0 & _) & _). pose proof (lf_start _ _ _ _ _ _ Hf) as Hp0.
  assert (0 <= p0 / frag_size l) by (apply Z.div_pos; lia). pose proof Hst as (Hi & _ & Eid).
  assert (map_fits l (mt_map_id (ss_mapper s) + 1)) as Hfit by (destruct Hr; split; [lia|nia]).
  destruct (mapper_handle_grown l Hl Hmax _ _ Hst Hfit) as (t & Et & Hst' & Hg). exists t. split; [done|].
  split; cbn [ss_mapper ss_finalized ss_position ss_frames]; [done| |lia].
  apply (mapper_log_files l Hl hash (mt_files (ss_mapper s)) t (ss_finalized s + 2)); try done.
  - by replace (ss_finalized s + 2 - 1) with (ss_finalized s + 1) by lia.
  - lia.
  - destruct (mi_ahead _ _ _ Hi (ss_finalized s + 2) ltac:(lia)) as (mp & Hgk & _). destruct (mi_backed _ _ _ Hi _ mp Hgk) as (f & Hff & _). by exists f.
Qed.

Lemma wal_scan_more n : forall m it it' frames e,
  wal_scan hash n it = Ok (it', frames, Some e) -> (n <= m)%nat -> wal_scan hash m it = Ok (it', frames, Some e).
Proof.
  induction n as [|n IH]; intros m it it' frames e; [done|]. destruct m as [|m]; [lia|]. cbn [wal_scan].
  destruct (wal_next hash it) as [[it1 [err|f]]|]; cbn [mbind outcome_bind]; [done| |done].
  destruct (wal_scan hash n it1) as [[[it2 fs] [e2|]]|] eqn:E; cbn [mbind outcome_bind]; [|done|done]. intros [= <- <- <-] Hle.
  rewrite (IH m it1 it2 fs e2 E) by lia. done.
Qed.

(** Starting on the files of a log finds that log. *)
Lemma session_open_inv files logged e s :
  log_files l hash files p0 logged e -> session_open files s -> ss_frames s = logged /\ ss_position s = e /\ session_inv s.
Proof.
  intros Hf Ho. destruct Ho as [it0 fuel it frames err w t E0 Es Ei]. set (fuel' := Nat.max fuel (S (length logged))).
  destruct (reopen_ok l Hl Hmax hash hash_u32 (mkWal l files []) p0 logged e fuel' eq_refl Hf)
    as (it0' & it' & err' & w' & t' & E0' & Es' & Ei' & Ew & Ep & Hst' & Hwo & Hf' & Hlow); [lia|].
  assert (it0' = it0) as -> by congruence. pose proof (wal_scan_more _ fuel' _ _ _ _ Es ltac:(lia)) as Es2.
  rewrite Es2 in Es'. injection Es' as <- -> <-. rewrite Ei in Ei'. injection Ei' as <- <-. split; [done|]. split; [done|].
  split; cbn [ss_mapper ss_finalized ss_position ss_frames]; [done| |rewrite Ep; lia]. rewrite Ep. rewrite Ew in Hf'. exact Hf'.
Qed.

Lemma session_open_exists files logged e : log_files l hash files p0 logged e -> exists s, session_open files s.
Proof.
  intros Hf. destruct (reopen_ok l Hl Hmax hash hash_u32 (mkWal l files []) p0 logged e (S (length logged)) eq_refl Hf)
    as (it0 & it & err & w & t & E0 & Es & Ei & _); [lia|]. eexists. by econstructor.
Qed.

Lemma session_step_inv s new s' : session_inv s -> session_step s new s' -> session_inv s' /\ ss_frames s' = ss_frames s ++ new.
Proof.
  intros Hi Hs. destruct Hs as [s ts w r positions Hb Hw Hr E|s t Hlt Hr E|s s' Ho].
  - destruct (session_write s ts Hi Hb Hw Hr) as (w' & r' & ps & E' & _ & Hi'). rewrite E in E'. by injection E' as <- <- <-.
  - destruct (session_finalize s Hi Hlt Hr) as (t' & E' & Hi'). assert (t' = t) as <- by congruence. by rewrite app_nil_r.
  - destruct (session_open_inv _ _ _ s' (si_log _ Hi) Ho) as (-> & _ & Hi'). by rewrite app_nil_r.
Qed.

Lemma history_inv s acked : wal_history s acked -> session_inv s /\ ss_frames s = acked.
Proof.
  induction 1 as [files logged e s Hf Ho|s acked new s' _ [IH <-] Hs].
  - by destruct (session_open_inv _ _ _ s Hf Ho) as (? & _ & ?).
  - by destruct (session_step_inv s new s' IH Hs).
Qed.

(** A scan of the shared log returns the frames acknowledged. *)
Lemma session_scan s fuel : session_inv s -> (length (ss_frames s) < fuel)%nat ->
  exists it0 it err, wal_iterator_for_scan (ss_wal s) p0 = Ok it0 /\ wal_scan hash fuel it0 = Ok (it, ss_frames s, Some err) /\ wi_position it = ss_position s.
Proof.
  intros [Hst Hf Hb] Hfuel. pose proof (start_fits l Hl hash _ _ _ _ Hf) as Hsf. pose proof (lf_start _ _ _ _ _ _ Hf) as Hp0.
  destruct (iterator_new_ok l Hl Hmax hash (ss_wal s) p0 _ _ false eq_refl Hf) as (it0 & E0 & Hi0 & Hx0 & Ep0 & Em0 & Hw0).
  pose proof (log_files_extended l Hl hash _ _ _ _ _ Hx0 Hf) as Hf1.
  destruct (wal_scan_log l Hl Hmax hash hash_u32 (ss_frames s) it0 (ss_position s) fuel) as (it & err & Es & (_ & _ & Ep & _) & _);
    rewrite ?Ep0, ?Em0; try done; try lia; try apply Hf1.
  { eapply (log_files_fits l Hl hash); [done|lia]. }
  by exists it0, it, err.
Qed.

Lemma session_reads s : session_inv s -> Forall (fun '(pos, t) => wal_read hash (ss_wal s) pos = Ok (inr (Some t))) (ss_frames s).
Proof.
  intros [(Hi & Hpub & _) Hf Hb]. pose proof (start_fits l Hl hash _ _ _ _ Hf) as Hsf.
  apply (log_reads l Hl hash hash_u32 (ss_wal s) p0 _ (ss_position s)); [done| |eapply (log_files_fits l Hl hash); [done|lia]|apply Hf].
  cbn [ss_wal wl_maps]. rewrite Hpub. apply (mi_ids _ _ _ Hi).
Qed.
End session.

(** C14. The log is what was acknowledged.  A log is opened on files that hold
    some frames; batches are written, fragments are finalized behind the writer
    and the process is restarted, in any order.  At every point a scan from the
    start returns exactly the frames the log was opened with and those of every
    batch since, in order and at the positions the writes returned, and stops at
    the writer's position; every one of them is read back at its position;
    while the mapper has caught up a batch that fits in a fragment is always
    written, with a position per payload; a fragment behind the writer can
    always be finalized, and a restart always succeeds. *)
Theorem wal_log_exact l hash p0 s acked :
  layout_ok l -> 3 <= max_maps l -> (forall b, is_u32 (hash b)) -> wal_history l hash p0 s acked ->
  (forall fuel, (length acked < fuel)%nat -> exists it0 it err,
     wal_iterator_for_scan (ss_wal l s) p0 = Ok it0 /\ wal_scan hash fuel it0 = Ok (it, acked, Some err) /\ wi_position it = ss_position s) /\
  Forall (fun '(pos, t) => wal_read hash (ss_wal l s) pos = Ok (inr (Some t))) acked /\
  (forall ts, batch_ok l ts -> writer_window l s -> room l s ->
     exists w r positions, multi_write (ss_writer l s) (frames_of hash ts) = Ok (w, r, positions) /\ length positions = length ts) /\
  (ss_finalized s + 1 < ss_position s / frag_size l -> room l s ->
     exists t, mapper_handle l (ss_mapper s) (MapperMapFinalized (ss_finalized s + 1)) = Ok t) /\
  (exists s', session_open l hash p0 (mt_files (ss_mapper s)) s').
Proof.
  intros Hl Hmax Hh Hs. destruct (history_inv l hash p0 Hl Hmax Hh s acked Hs) as [Hi <-]. split_and!.
  - intros fuel Hfuel. by apply session_scan.
  - by eapply session_reads.
  - intros ts Hb Hw Hr. destruct (session_write l hash p0 Hl s ts Hi Hb Hw Hr) as (w & r & ps & E & Hlen & _). by exists w, r, ps.
  - intros Hlt Hr. destruct (session_finalize l hash p0 Hl Hmax s Hi Hlt Hr) as (t & E & _). by exists t.
  - eapply session_open_exists; try done. apply Hi.
Qed.

(** *** A new log, two batches with a skip marker between them, and a restart. *)

(** The registry of an empty directory. *)
Lemma fresh_log_files l hash :
  layout_ok l -> frag_size l * 3 <= u64_max ->
  exists files, wal_files_load l [] = Ok files /\ log_files l hash files 0 [] 0.
Proof.
  intros Hl Hf. pose proof Hl as ((Hf0 & _) & _ & (Hw & _) & _). exists (mkWalFiles [(0, [])]). split.
  { unfold wal_files_load, open_file, wal_resize. cbn [load_files mbind outcome_bind default file_len length]. rewrite u64_rem_ok by lia. cbn. by rewrite Zmod_0_l. }
  assert (map_file l (0 / frag_size l) = 0) as E0 by (unfold map_file; rewrite Z.div_0_l, Z.mul_0_r, Z.div_0_l by lia; done).
  split; rewrite ?E0; cbn [wf_files].
  - apply bt_sorted_cons. by split; [constructor|].
  - done.
  - apply Z.divide_0_r.
  - by eexists.
  - intros id id' Hid [f Hf']. unfold get_checked in *. cbn in *. destruct (Z.compare_spec id' 0); [|done..]. assert (id = 0) as -> by lia. by eexists.
  - constructor.
  - intros p Hp. right. unfold byte_at, get_checked. cbn. by destruct (Z.compare (p / wal_file_size l) 0).
  - rewrite Z.div_0_l by lia. split; lia.
Qed.

Definition small_layout : WalLayout := mkWalLayout 64 4 false 128 Replay.

Definition demo_payload (b : Z) : list Z := replicate 16 b.

Lemma small_layout_ok : layout_ok small_layout.
Proof. split_and!; cbn; unfold u32_max, u64_max; try lia; [by exists 8|by exists 2]. Qed.

(** The steps as functions. *)
Definition open_session (l : WalLayout) (hash : list Z -> Z) (p0 : Z) (fuel : nat) (files : WalFiles) : outcome Session :=
  it0 ← wal_iterator_for_writer (mkWal l files []) p0;
  '(it, frames, err) ← wal_scan hash fuel it0;
  _ ← expect err "the scan ran out of fuel";
  '(w, t) ← into_writer it None;
  Ok (mkSession t (mp_id (wi_map it) - 1) (ww_position w) frames).

Definition write_session (l : WalLayout) (hash : list Z -> Z) (s : Session) (ts : list (list Z)) : outcome (Session * list (WalPosition * list Z)) :=
  '(w, r, positions) ← multi_write (ss_writer l s) (frames_of hash ts);
  Ok (mkSession (set_files (ss_mapper s) (wl_files (ww_wal w))) (ss_finalized s) (ww_position w) (ss_frames s ++ zip positions ts), zip positions ts).

Lemma open_session_open l hash p0 fuel files s : open_session l hash p0 fuel files = Ok s -> session_open l hash p0 files s.
Proof.
  unfold open_session. intros H. destruct (wal_iterator_for_writer _ _) as [it0|] eqn:E0; [|done]. cbn [mbind outcome_bind] in H.
  destruct (wal_scan _ _ _) as [[[it frames] [err|]]|] eqn:Es; [|done|done]. cbn [expect mbind outcome_bind] in H.
  destruct (into_writer it None) as [[w t]|] eqn:Ei; [|done]. injection H as <-. by econstructor.
Qed.

Lemma write_session_step l hash s ts s' new : write_session l hash s ts = Ok (s', new) -> batch_ok l ts -> writer_window l s -> room l s ->
  forall p0, session_step l hash p0 s new s'.
Proof.
  unfold write_session. intros H. destruct (multi_write _ _) as [[[w r] ps]|] eqn:E; [|done]. injection H as <- <-. intros. by econstructor.
Qed.

Definition demo_run : outcome (Session * Session * Session * Session * list (WalPosition * list Z) * list (WalPosition * list Z)) :=
  s0 ← open_session small_layout sum_hash 0 1 (mkWalFiles [(0, [])]);
  '(s1, new1) ← write_session small_layout sum_hash s0 [demo_payload 1; demo_payload 2];
  '(s2, new2) ← write_session small_layout sum_hash s1 [demo_payload 3];
  s3 ← open_session small_layout sum_hash 0 4 (mt_files (ss_mapper s2));
  Ok (s0, s1, s2, s3, new1, new2).

Lemma wal_log_exact_witness :
  exists s acked, List.map snd acked = [demo_payload 1; demo_payload 2; demo_payload 3] /\ List.map (fun f => wp_offset f.1) acked = [0; 24; 64] /\
    wal_history small_layout sum_hash 0 s acked /\
    Forall (fun '(pos, t) => wal_read sum_hash (ss_wal small_layout s) pos = Ok (inr (Some t))) acked.
Proof.
  assert (forall b, is_u32 (sum_hash b)) as Hh by (intros b; unfold is_u32, sum_hash, wrap32; apply Z.mod_pos_bound; lia).
  assert (forall ts, ts = [demo_payload 1; demo_payload 2] \/ ts = [demo_payload 3] -> batch_ok small_layout ts) as Hb.
  { intros ts [-> | ->]; (split_and!; [done| |vm_compute; discriminate]); repeat constructor. }
  destruct (fresh_log_files small_layout sum_hash small_layout_ok) as (files & Ef & Hf); [vm_compute; discriminate|].
  assert (files = mkWalFiles [(0, [])]) as -> by (vm_compute in Ef; by injection Ef as <-).
  assert ((match demo_run with Ok (s0, s1, s2, s3, n1, n2) => Some (ss_position s0, ss_finalized s0, ss_position s1, ss_finalized s1, List.map snd (n1 ++ n2),
    List.map (fun f : WalPosition * list Z => wp_offset f.1) (n1 ++ n2)) | _ => None end) =
    Some (0, -1, 48, -1, [demo_payload 1; demo_payload 2; demo_payload 3], [0; 24; 64])) as F by (vm_compute; reflexivity).
  destruct demo_run as [[[[[[s0 s1] s2] s3] n1] n2]|] eqn:E; [|done]. injection F as Ep0 Ef0 Ep1 Ef1 Esnd Eoff. unfold demo_run in E.
  destruct (open_session _ _ _ 1 _) as [s0'|] eqn:E0; [|done]. cbn [mbind outcome_bind] in E.
  destruct (write_session _ _ s0' _) as [[s1' n1']|] eqn:E1; [|done]. cbn [mbind outcome_bind] in E.
  destruct (write_session _ _ s1' _) as [[s2' n2']|] eqn:E2; [|done]. cbn [mbind outcome_bind] in E.
  destruct (open_session _ _ _ 4 _) as [s3'|] eqn:E3; [|done]. injection E as -> -> -> -> -> ->.
  assert (wal_history small_layout sum_hash 0 s3 ((([] ++ n1) ++ n2) ++ [])) as Hhist.
  { econstructor; [econstructor; [econstructor; [eapply history_open; [exact Hf|by eapply open_session_open]|]|]|].
    - apply (write_session_step _ _ _ _ _ _ E1); [by apply Hb; left| |]; unfold writer_window, room; rewrite ?Ep0, ?Ef0; [by vm_compute|by split; vm_compute].
    - apply (write_session_step _ _ _ _ _ _ E2); [by apply Hb; right| |]; unfold writer_window, room; rewrite ?Ep1, ?Ef1; [by vm_compute|by split; vm_compute].
    - apply step_restart. by eapply open_session_open. }
  exists s3, (n1 ++ n2). rewrite app_nil_r in Hhist. split; [done|]. split; [done|]. split; [exact Hhist|].
  exact (proj1 (proj2 (wal_log_exact small_layout sum_hash 0 s3 (n1 ++ n2) small_layout_ok ltac:(cbn; lia) Hh Hhist))).
Defined.

(** ** A hole in front of a fragment *)

(** The files after a crash: payloads 1 to 4 were allocated in order and the
    copy of payload 2, the last of its fragment, was not made. *)
Definition crashed_files : outcome WalFiles :=
  s0 ← open_session small_layout sum_hash 0 1 (mkWalFiles [(0, [])]);
  '(s1, _) ← write_session small_layout sum_hash s0 [demo_payload 1];
  '(s2, _) ← write_session small_layout sum_hash s1 [demo_payload 2];
  '(s3, _) ← write_session small_layout sum_hash s2 [demo_payload 3; demo_payload 4];
  write_buf_at small_layout (mt_files (ss_mapper s3)) 0 24 (replicate 24 0).

Definition stale_run : outcome (Session * Session * Session * Session) :=
  files ← crashed_files;
  s1 ← open_session small_layout sum_hash 0 8 files;
  '(s2, _) ← write_session small_layout sum_hash s1 [demo_payload 5];
  '(s3, _) ← write_session small_layout sum_hash s2 [demo_payload 6];
  s4 ← open_session small_layout sum_hash 0 8 (mt_files (ss_mapper s3));
  Ok (s1, s2, s3, s4).

Definition log_view (s : Session) : list (Z * list Z) := List.map (fun f => (wp_offset f.1, f.2)) (ss_frames s).

(** Frames of an abandoned tail come back, on a concrete log.  After a crash that left a hole
    at the end of a fragment, replay stops at the hole, and
    [clear_fragment_from_position] zeroes the rest of that fragment only, not
    the frames of the next one.  The log opens with the one frame before the
    hole; two batches are written, the second into the next fragment over one of
    the abandoned frames; on the following start the scan returns the three
    frames and then the other abandoned frame, at a higher position than
    everything acknowledged since. *)
Lemma stale_fragment_replayed :
  exists s1 s2 s3 s4, stale_run = Ok (s1, s2, s3, s4) /\
    log_view s1 = [(0, demo_payload 1)] /\
    log_view s3 = [(0, demo_payload 1); (24, demo_payload 5); (64, demo_payload 6)] /\
    log_view s4 = [(0, demo_payload 1); (24, demo_payload 5); (64, demo_payload 6); (88, demo_payload 4)].
Proof.
  assert ((match stale_run with Ok (s1, s2, s3, s4) => Some (log_view s1, log_view s3, log_view s4) | _ => None end) =
    Some ([(0, demo_payload 1)], [(0, demo_payload 1); (24, demo_payload 5); (64, demo_payload 6)],
      [(0, demo_payload 1); (24, demo_payload 5); (64, demo_payload 6); (88, demo_payload 4)])) as F by (vm_compute; reflexivity).
  destruct stale_run as [[[[s1 s2] s3] s4]|]; [|done]. injection F as F1 F2 F3. by exists s1, s2, s3, s4.
Qed.
