(* ===== verification/PositionCache.v ===== *)
(** * The position-keyed cache

    [src/tidehunter/src/position_cache.rs]: bodies of immutable log frames,
    cached by their offset in shards, filled by one leader per position while
    other readers of it wait, and evicted by second chance under one byte budget
    for all shards.

    The state changes only in critical sections, each under the lock of one
    shard or of one fill cell; the counters [bytes] and [occupied] are updated
    inside them.  There is a definition for every such section, and the threads
    that call [get], [peek], [get_or_fill] and [remove] run them in any
    interleaving ([cache_step]).  A cell is named by a number in place of its
    [Arc].  [bytes] and [occupied] do not wrap: they count bodies held in
    memory. *)

From Stdlib Require Import ZArith Lia List.
From stdpp Require Import base tactics list gmap strings relations.
From S2P Require Import Prelude Position.

Local Open Scope Z_scope.

(** ** Data *)

Record CachedBody := mkCached { cd_body : list Z; cd_referenced : bool }.

Inductive Slot :=
| SlotReady (cached : CachedBody)
| SlotPending (cell : nat).

Inductive FillState :=
| FillFilling
| FillDone (body : list Z)
| FillFailed.

Record FillCell := mkFillCell { fc_state : FillState; fc_retired : bool }.

Record CacheShard := mkCacheShard {
  sd_slots : gmap Z Slot;
  sd_clock : list Z;
}.

Record PositionCache := mkPositionCache {
  pc_shards : list CacheShard;
  pc_max_bytes : Z;
  pc_bytes : Z;
  pc_occupied : Z;
  pc_cells : gmap nat FillCell;
}.

Inductive CacheOutcome :=
| OutcomeHit (body : list Z)
| OutcomeFilled (body : list Z)
| OutcomeRetryRead.

Definition body_len (body : list Z) : Z := Z.of_nat (length body).

(** ** Shards *)

(** Next power of two, clamped; [parallelism] is what the host reports. *)
Definition shard_count (parallelism : option Z) : Z := Z.max 8 (Z.min 64 (2 ^ Z.log2_up (default 8 parallelism))).

Definition cache_new (parallelism : option Z) (max_bytes : Z) : outcome PositionCache :=
  _ ← assert_that (0 <? max_bytes) "position cache budget must be non-zero";
  Ok (mkPositionCache (replicate (Z.to_nat (shard_count parallelism)) (mkCacheShard ∅ [])) max_bytes 0 0 ∅).

Definition shard_index (shards : nat) (offset : Z) : nat :=
  let hash := u64_mul offset 0x9E3779B97F4A7C15 in
  Z.to_nat (Z.shiftr hash 32 mod Z.of_nat shards).

Definition shard_of (pc : PositionCache) (offset : Z) : nat := shard_index (length (pc_shards pc)) offset.

Definition get_shard (pc : PositionCache) (j : nat) : CacheShard := default (mkCacheShard ∅ []) (pc_shards pc !! j).

Definition get_slot (pc : PositionCache) (offset : Z) : option Slot := sd_slots (get_shard pc (shard_of pc offset)) !! offset.

Definition put_shard (pc : PositionCache) (j : nat) (s : CacheShard) (bytes occupied : Z) : PositionCache :=
  mkPositionCache (<[j := s]> (pc_shards pc)) (pc_max_bytes pc) bytes occupied (pc_cells pc).

Definition put_cell (pc : PositionCache) (cell : nat) (fc : FillCell) : PositionCache :=
  mkPositionCache (pc_shards pc) (pc_max_bytes pc) (pc_bytes pc) (pc_occupied pc) (<[cell := fc]> (pc_cells pc)).

(** The cell behind an [Arc] that is held. *)
Definition get_cell (pc : PositionCache) (cell : nat) : FillCell := default (mkFillCell FillFilling false) (pc_cells pc !! cell).

(** [referenced.store(true)] on a resident body. *)
Definition shard_touch (s : CacheShard) (offset : Z) : CacheShard :=
  match sd_slots s !! offset with
  | Some (SlotReady cached) => mkCacheShard (<[offset := SlotReady (mkCached (cd_body cached) true)]> (sd_slots s)) (sd_clock s)
  | _ => s
  end.

Definition cache_touch (pc : PositionCache) (offset : Z) : PositionCache :=
  let j := shard_of pc offset in
  put_shard pc j (shard_touch (get_shard pc j) offset) (pc_bytes pc) (pc_occupied pc).

(** [Shard::evict_one]: the shard and the bytes freed. *)
Fixpoint evict_one (fuel : nat) (s : CacheShard) : outcome (CacheShard * option Z) :=
  match fuel with
  | O => Panic "evict_one does not end"
  | S fuel =>
      match sd_clock s with
      | [] => Ok (s, None)
      | offset :: clock =>
          match sd_slots s !! offset with
          | Some (SlotReady cached) =>
              if cd_referenced cached then
                evict_one fuel (mkCacheShard (<[offset := SlotReady (mkCached (cd_body cached) false)]> (sd_slots s)) (clock ++ [offset]))
              else Ok (mkCacheShard (delete offset (sd_slots s)) clock, Some (body_len (cd_body cached)))
          | _ => Panic "clock ring entry has no Ready slot"
          end
      end
  end.

(** Every entry goes round at most once. *)
Definition evict_fuel (s : CacheShard) : nat := S (S (2 * length (sd_clock s))).

(** [Shard::evict_up_to]: the shard, the bytes freed and the bodies evicted. *)
Fixpoint evict_loop (fuel : nat) (s : CacheShard) (target freed evicted : Z) : outcome (CacheShard * Z * Z) :=
  match fuel with
  | O => Panic "evict_up_to does not end"
  | S fuel =>
      if freed <? target then
        '(s, r) ← evict_one (evict_fuel s) s;
        match r with
        | Some len => evict_loop fuel s target (freed + len) (evicted + 1)
        | None => Ok (s, freed, evicted)
        end
      else Ok (s, freed, evicted)
  end.

Definition evict_up_to (s : CacheShard) (target : Z) : outcome (CacheShard * Z * Z) :=
  evict_loop (S (S (length (sd_clock s)))) s target 0 0.

(** ** Critical sections *)

(** What the probe under the shard lock finds. *)
Inductive Probe :=
| ProbeReady (body : list Z)
| ProbePending (cell : nat)
| ProbeNone.

(** The first block of [get]; [peek] takes [ProbePending] for a miss. *)
Definition cache_probe (pc : PositionCache) (offset : Z) : PositionCache * Probe :=
  match get_slot pc offset with
  | Some (SlotReady cached) => (cache_touch pc offset, ProbeReady (cd_body cached))
  | Some (SlotPending cell) => (pc, ProbePending cell)
  | None => (pc, ProbeNone)
  end.

(** [PositionCache::remove] *)
Definition cache_remove (pc : PositionCache) (offset : Z) : PositionCache * bool :=
  let j := shard_of pc offset in
  let shard := get_shard pc j in
  match sd_slots shard !! offset with
  | Some (SlotReady cached) =>
      let clock := List.filter (fun o => negb (o =? offset)) (sd_clock shard) in
      (put_shard pc j (mkCacheShard (delete offset (sd_slots shard)) clock)
         (pc_bytes pc - body_len (cd_body cached)) (pc_occupied pc - 1), true)
  | Some (SlotPending cell) => (put_cell pc cell (mkFillCell (fc_state (get_cell pc cell)) true), false)
  | None => (pc, false)
  end.

(** [PositionCache::check_reachable] *)
Definition check_reachable (reachable : Z -> bool) (pc : PositionCache) (offset : Z) (body : list Z) : PositionCache * option (list Z) :=
  if reachable offset then (pc, Some body) else ((cache_remove pc offset).1, None).

(** The first block of [get_or_fill]; [cell] is the new cell of a leader. *)
Definition fill_begin (pc : PositionCache) (offset : Z) (cell : nat) : PositionCache * Probe :=
  match get_slot pc offset with
  | Some (SlotReady cached) => (cache_touch pc offset, ProbeReady (cd_body cached))
  | Some (SlotPending cell) => (pc, ProbePending cell)
  | None =>
      let j := shard_of pc offset in
      let shard := get_shard pc j in
      (put_cell (put_shard pc j (mkCacheShard (<[offset := SlotPending cell]> (sd_slots shard)) (sd_clock shard))
                   (pc_bytes pc) (pc_occupied pc + 1))
         cell (mkFillCell FillFilling false), ProbeNone)
  end.

(** The block of [lead_fill] under the shard lock. *)
Definition lead_insert (pc : PositionCache) (offset : Z) (cell : nat) (body : list Z) : PositionCache :=
  let j := shard_of pc offset in
  let shard := get_shard pc j in
  let dropped := mkCacheShard (delete offset (sd_slots shard)) (sd_clock shard) in
  if fc_retired (get_cell pc cell) then put_shard pc j dropped (pc_bytes pc) (pc_occupied pc - 1)
  else if body_len body <=? pc_max_bytes pc then
    put_shard pc j (mkCacheShard (<[offset := SlotReady (mkCached body false)]> (sd_slots shard)) (sd_clock shard ++ [offset]))
      (pc_bytes pc + body_len body) (pc_occupied pc)
  else put_shard pc j dropped (pc_bytes pc) (pc_occupied pc - 1).

(** [FillCell::publish] *)
Definition cell_publish (pc : PositionCache) (cell : nat) (state : FillState) : PositionCache :=
  put_cell pc cell (mkFillCell state (fc_retired (get_cell pc cell))).

(** [FillGuard::drop] of a leader that unwound, before it publishes. *)
Definition lead_abandon (pc : PositionCache) (offset : Z) (cell : nat) : PositionCache :=
  let j := shard_of pc offset in
  let shard := get_shard pc j in
  match sd_slots shard !! offset with
  | Some (SlotPending pending) =>
      if (pending =? cell)%nat
      then put_shard pc j (mkCacheShard (delete offset (sd_slots shard)) (sd_clock shard)) (pc_bytes pc) (pc_occupied pc - 1)
      else pc
  | _ => pc
  end.

(** The bytes over the budget. *)
Definition trim_over (pc : PositionCache) : Z := Z.max 0 (pc_bytes pc - pc_max_bytes pc).

(** One shard of a sweep of [trim], locked. *)
Definition trim_shard (pc : PositionCache) (start i : nat) (over : Z) : outcome PositionCache :=
  let j := ((start + i) mod length (pc_shards pc))%nat in
  '(shard, freed, evicted) ← evict_up_to (get_shard pc j) over;
  Ok (if 0 <? evicted then put_shard pc j shard (pc_bytes pc - freed) (pc_occupied pc - evicted)
      else put_shard pc j shard (pc_bytes pc) (pc_occupied pc)).

Definition cache_is_empty (pc : PositionCache) : bool := pc_occupied pc =? 0.

(** Where the sweep after a fill starts. *)
Definition sweep_start (pc : PositionCache) (offset : Z) : nat := ((shard_of pc offset + 1) mod length (pc_shards pc))%nat.

(** ** Threads *)

(** [SweepLoad]: about to load [bytes]; [SweepLock]: about to lock the shard with
    the excess that was loaded. *)
Inductive SweepAt := SweepLoad | SweepLock (over : Z).

(** [get] and [get_or_fill] wait for a fill in the same way. *)
Inductive WaitFor := WaitGet | WaitFill.

Inductive CacheResult :=
| ResultGet (offset : Z) (body : option (list Z))
| ResultFill (offset : Z) (r : CacheOutcome)
| ResultUnwound (offset : Z).

Inductive Thread :=
| AtRest (r : option CacheResult)
| Checking (offset : Z) (body : list Z)
| Waiting (w : WaitFor) (offset : Z) (cell : nat)
| Touching (w : WaitFor) (offset : Z) (body : list Z)
| Leading (offset : Z) (cell : nat)
| Publishing (offset : Z) (cell : nat) (body : list Z)
| Abandoning (offset : Z) (cell : nat)
| Sweeping (offset : Z) (body : list Z) (blocking : bool) (i : nat) (at_ : SweepAt).

Record CacheSys := mkCacheSys {
  sy_cache : PositionCache;
  sy_reachable : Z -> bool;
  sy_threads : list Thread;
}.

(** A waiter that was given a body goes on. *)
Definition waited (w : WaitFor) (offset : Z) (body : list Z) : Thread :=
  match w with WaitGet => Checking offset body | WaitFill => AtRest (Some (ResultFill offset (OutcomeHit body))) end.

Definition wait_failed (w : WaitFor) (offset : Z) : Thread :=
  match w with WaitGet => AtRest (Some (ResultGet offset None)) | WaitFill => AtRest (Some (ResultFill offset OutcomeRetryRead)) end.

(** The next shard of a sweep, the second pass after the first, or its end. *)
Definition sweep_next (shards : nat) (offset : Z) (body : list Z) (blocking : bool) (i : nat) : Thread :=
  if (S i <? shards)%nat then Sweeping offset body blocking (S i) SweepLoad
  else if blocking then AtRest (Some (ResultFill offset (OutcomeFilled body)))
  else Sweeping offset body true 0 SweepLoad.

Section system.
(** What the frame at an offset holds; a fill that succeeds returns it. *)
Context (content : Z -> list Z).

(** A step of a thread. *)
Inductive thread_step (reachable : Z -> bool) (pc : PositionCache) : Thread -> PositionCache -> Thread -> Prop :=
| step_get offset r pc' p : cache_probe pc offset = (pc', p) ->
    thread_step reachable pc (AtRest r) pc'
      (match p with
       | ProbeReady body => Checking offset body
       | ProbePending cell => Waiting WaitGet offset cell
       | ProbeNone => AtRest (Some (ResultGet offset None))
       end)
| step_peek offset r pc' p : cache_probe pc offset = (pc', p) ->
    thread_step reachable pc (AtRest r) pc'
      (match p with
       | ProbeReady body => Checking offset body
       | _ => AtRest (Some (ResultGet offset None))
       end)
| step_check offset body pc' b : check_reachable reachable pc offset body = (pc', b) ->
    thread_step reachable pc (Checking offset body) pc' (AtRest (Some (ResultGet offset b)))
| step_fill offset cell r pc' p : pc_cells pc !! cell = None -> fill_begin pc offset cell = (pc', p) ->
    thread_step reachable pc (AtRest r) pc'
      (match p with
       | ProbeReady body => AtRest (Some (ResultFill offset (OutcomeHit body)))
       | ProbePending cell => Waiting WaitFill offset cell
       | ProbeNone => Leading offset cell
       end)
| step_wake w offset cell body : fc_state (get_cell pc cell) = FillDone body ->
    thread_step reachable pc (Waiting w offset cell) pc (Touching w offset body)
| step_wake_failed w offset cell : fc_state (get_cell pc cell) = FillFailed ->
    thread_step reachable pc (Waiting w offset cell) pc (wait_failed w offset)
| step_touch w offset body : thread_step reachable pc (Touching w offset body) (cache_touch pc offset) (waited w offset body)
| step_lead offset cell :
    thread_step reachable pc (Leading offset cell) (lead_insert pc offset cell (content offset)) (Publishing offset cell (content offset))
| step_publish offset cell body :
    thread_step reachable pc (Publishing offset cell body) (cell_publish pc cell (FillDone body)) (Sweeping offset body false 0 SweepLoad)
| step_unwind offset cell :
    thread_step reachable pc (Leading offset cell) (lead_abandon pc offset cell) (Abandoning offset cell)
| step_abandon offset cell :
    thread_step reachable pc (Abandoning offset cell) (cell_publish pc cell FillFailed) (AtRest (Some (ResultUnwound offset)))
| step_within offset body blocking i : trim_over pc = 0 ->
    thread_step reachable pc (Sweeping offset body blocking i SweepLoad) pc (AtRest (Some (ResultFill offset (OutcomeFilled body))))
| step_over offset body blocking i : trim_over pc <> 0 ->
    thread_step reachable pc (Sweeping offset body blocking i SweepLoad) pc (Sweeping offset body blocking i (SweepLock (trim_over pc)))
| step_try_failed offset body i over :
    thread_step reachable pc (Sweeping offset body false i (SweepLock over)) pc (sweep_next (length (pc_shards pc)) offset body false i)
| step_sweep offset body blocking i over pc' : trim_shard pc (sweep_start pc offset) i over = Ok pc' ->
    thread_step reachable pc (Sweeping offset body blocking i (SweepLock over)) pc' (sweep_next (length (pc_shards pc)) offset body blocking i)
| step_remove offset r pc' b : cache_remove pc offset = (pc', b) -> thread_step reachable pc (AtRest r) pc' (AtRest None).

(** Threads interleave; files are reclaimed, never restored. *)
Inductive cache_step (x : CacheSys) : CacheSys -> Prop :=
| cache_thread n t pc t' : sy_threads x !! n = Some t -> thread_step (sy_reachable x) (sy_cache x) t pc t' ->
    cache_step x (mkCacheSys pc (sy_reachable x) (<[n := t']> (sy_threads x)))
| cache_reclaim reachable : (forall o, reachable o = true -> sy_reachable x o = true) ->
    cache_step x (mkCacheSys (sy_cache x) reachable (sy_threads x)).
End system.

(** A cache just made and any number of threads. *)
Definition cache_start (x : CacheSys) : Prop :=
  exists parallelism max_bytes, cache_new parallelism max_bytes = Ok (sy_cache x) /\ Forall (fun t => t = AtRest None) (sy_threads x).
