(* ===== verification/PositionCacheFacts.v ===== *)
(** * The position-keyed cache under concurrency

    [cache_inv] holds in every state the threads of [PositionCache] can reach:
    the ring of each shard lists its resident bodies, the counters are exact,
    every body is that of its frame, a pending slot has its one leader, and
    whenever the budget is exceeded a thread is on its way to bring the bytes
    back. *)

From Stdlib Require Import ZArith Lia List.
From stdpp Require Import base tactics list gmap strings relations.
From S2P Require Import Prelude Position PositionCache.

Local Open Scope Z_scope.

(** ** Sums *)

Definition zsum (l : list Z) : Z := foldr Z.add 0 l.

#[local] Arguments zsum : simpl never.

Lemma zsum_cons x l : zsum (x :: l) = x + zsum l.
Proof. done. Qed.

Lemma zsum_app l k : zsum (l ++ k) = zsum l + zsum k.
Proof. induction l as [|x l IH]; [done|]. cbn. rewrite !zsum_cons. lia. Qed.

Lemma zsum_nonneg l : Forall (fun x => 0 <= x) l -> 0 <= zsum l.
Proof. induction 1; [done|]. rewrite zsum_cons. lia. Qed.

Lemma zsum_map_insert {A} (f : A -> Z) l j x y : l !! j = Some x -> zsum (List.map f (<[j := y]> l)) = zsum (List.map f l) - f x + f y.
Proof.
  revert j. induction l as [|z l IH]; intros [|j]; cbn; try done.
  - intros [= ->]. rewrite !zsum_cons. lia.
  - intros Hj. change (zsum (f z :: List.map f (<[j := y]> l)) = zsum (f z :: List.map f l) - f x + f y). rewrite !zsum_cons, (IH j Hj). lia.
Qed.

Lemma zsum_map_ext {A} (f g : A -> Z) l : (forall x, In x l -> f x = g x) -> zsum (List.map f l) = zsum (List.map g l).
Proof. intros H. f_equal. by apply map_ext_in. Qed.

Lemma zsum_filter_out (f : Z -> Z) l o :
  NoDup l -> o ∈ l -> zsum (List.map f (List.filter (fun x => negb (x =? o)) l)) = zsum (List.map f l) - f o.
Proof.
  induction 1 as [|x l Hx Hn IH]; intros Ho; [by apply not_elem_of_nil in Ho|]. cbn. destruct (Z.eqb_spec x o) as [->|Hne]; cbn.
  - rewrite filter_all; [rewrite zsum_cons; lia|]. apply List.Forall_forall. intros y Hy. apply negb_true_iff, Z.eqb_neq. intros ->. by apply Hx, list_elem_of_In.
  - apply elem_of_cons in Ho as [->|Ho]; [done|]. specialize (IH Ho). rewrite !zsum_cons. lia.
Qed.

(** ** Shards *)

Definition slot_len (s : CacheShard) (o : Z) : Z :=
  match sd_slots s !! o with Some (SlotReady c) => body_len (cd_body c) | _ => 0 end.

(** The bytes of a shard's resident bodies. *)
Definition shard_bytes (s : CacheShard) : Z := zsum (List.map (slot_len s) (sd_clock s)).

Definition shard_size (s : CacheShard) : Z := Z.of_nat (size (sd_slots s)).

Record shard_ok (n j : nat) (s : CacheShard) : Prop := mkShardOk {
  so_nodup : NoDup (sd_clock s);
  so_ring : forall o, o ∈ sd_clock s <-> exists c, sd_slots s !! o = Some (SlotReady c);
  so_here : forall o sl, sd_slots s !! o = Some sl -> shard_index n o = j;
}.

(** Nothing appears and nothing changes but the [referenced] bits; resident
    bodies may go. *)
Definition slot_kept (a b : option Slot) : Prop :=
  match a with
  | Some (SlotReady c) => b = None \/ exists r, b = Some (SlotReady (mkCached (cd_body c) r))
  | _ => b = a
  end.

Lemma slot_kept_refl a : slot_kept a a.
Proof. destruct a as [[[b r]|]|]; cbn; eauto. Qed.

Lemma slot_kept_trans a b c : slot_kept a b -> slot_kept b c -> slot_kept a c.
Proof. destruct a as [[[x r]|]|]; cbn; [|by intros -> ..]. intros [->|[r' ->]]; cbn; [by left|naive_solver]. Qed.

Lemma slot_len_nonneg s o : 0 <= slot_len s o.
Proof. unfold slot_len, body_len. repeat case_match; lia. Qed.

Lemma shard_bytes_nonneg s : 0 <= shard_bytes s.
Proof. apply zsum_nonneg, Forall_map, Forall_forall. intros. apply slot_len_nonneg. Qed.

Lemma shard_empty_bytes s : sd_clock s = [] -> shard_bytes s = 0.
Proof. unfold shard_bytes. by intros ->. Qed.

Section one_shard.
Context (n j : nat).
Notation ok := (shard_ok n j).

(** A slot that is not resident gets a new value that is not resident. *)
Lemma shard_insert_pending s o c : ok s -> shard_index n o = j -> sd_slots s !! o = None ->
  let s' := mkCacheShard (<[o := SlotPending c]> (sd_slots s)) (sd_clock s) in
  ok s' /\ shard_bytes s' = shard_bytes s /\ shard_size s' = shard_size s + 1.
Proof.
  intros [Hn Hr Hh] Hj Ho. cbn zeta. split_and!.
  - split; cbn; [done| |].
    + intros o'. rewrite Hr. destruct (decide (o' = o)) as [->|Hne]; [|by rewrite lookup_insert_ne by done].
      rewrite lookup_insert_eq, Ho. naive_solver.
    + intros o' sl. rewrite lookup_insert_Some. intros [[<- _]|[_ H]]; [done|by apply (Hh _ _ H)].
  - unfold shard_bytes. cbn. apply zsum_map_ext. intros x Hx. unfold slot_len. cbn.
    rewrite lookup_insert_ne; [done|]. intros <-. apply list_elem_of_In, Hr in Hx as [? Hx]. congruence.
  - unfold shard_size. cbn. rewrite map_size_insert_None by done. lia.
Qed.

Lemma shard_delete_pending s o c : ok s -> sd_slots s !! o = Some (SlotPending c) ->
  let s' := mkCacheShard (delete o (sd_slots s)) (sd_clock s) in
  ok s' /\ shard_bytes s' = shard_bytes s /\ shard_size s' = shard_size s - 1.
Proof.
  intros [Hn Hr Hh] Ho. cbn zeta. split_and!.
  - split; cbn; [done| |].
    + intros o'. rewrite Hr. destruct (decide (o' = o)) as [->|Hne]; [|by rewrite lookup_delete_ne by done].
      rewrite lookup_delete_eq, Ho. naive_solver.
    + intros o' sl. rewrite lookup_delete_Some. intros [_ H]. by apply (Hh _ _ H).
  - unfold shard_bytes. cbn. apply zsum_map_ext. intros x Hx. unfold slot_len. cbn.
    rewrite lookup_delete_ne; [done|]. intros <-. apply list_elem_of_In, Hr in Hx as [? Hx]. congruence.
  - unfold shard_size. cbn. rewrite map_size_delete_Some by (by eexists). assert (size (sd_slots s) <> 0%nat); [|lia].
    apply (map_size_ne_0_lookup_2 _ o). by eexists.
Qed.

(** The leader's slot becomes the body. *)
Lemma shard_fill s o c b : ok s -> sd_slots s !! o = Some (SlotPending c) ->
  let s' := mkCacheShard (<[o := SlotReady (mkCached b false)]> (sd_slots s)) (sd_clock s ++ [o]) in
  ok s' /\ shard_bytes s' = shard_bytes s + body_len b /\ shard_size s' = shard_size s.
Proof.
  intros [Hn Hr Hh] Ho. cbn zeta.
  assert (o ∉ sd_clock s) as Hno by (rewrite Hr; intros [? ?]; congruence). split_and!.
  - split; cbn.
    + apply NoDup_app. split_and!; [done| |apply NoDup_singleton]. by intros x Hx ->%list_elem_of_singleton.
    + intros o'. rewrite elem_of_app, list_elem_of_singleton, Hr. destruct (decide (o' = o)) as [->|Hne].
      * rewrite lookup_insert_eq. naive_solver.
      * rewrite lookup_insert_ne by done. naive_solver.
    + intros o' sl. rewrite lookup_insert_Some. intros [[<- _]|[_ H]]; [by apply (Hh _ _ Ho)|by apply (Hh _ _ H)].
  - unfold shard_bytes. cbn. rewrite map_app, zsum_app. cbn. rewrite zsum_cons. unfold slot_len at 2. cbn. rewrite lookup_insert_eq. cbn.
    change (zsum []) with 0. rewrite (zsum_map_ext _ (slot_len s)); [lia|]. intros x Hx. unfold slot_len. cbn.
    rewrite lookup_insert_ne; [done|]. intros <-. by apply Hno, list_elem_of_In.
  - unfold shard_size. cbn. by rewrite map_size_insert_Some by (by eexists).
Qed.

Lemma shard_touch_ok s o : ok s ->
  ok (shard_touch s o) /\ shard_bytes (shard_touch s o) = shard_bytes s /\ shard_size (shard_touch s o) = shard_size s /\
  sd_clock (shard_touch s o) = sd_clock s /\ forall o', slot_kept (sd_slots s !! o') (sd_slots (shard_touch s o) !! o').
Proof.
  intros [Hn Hr Hh]. unfold shard_touch. destruct (sd_slots s !! o) as [[c|c]|] eqn:Ho; [|split_and!; try done; auto using slot_kept_refl..].
  split_and!; try done.
  - split; cbn; [done| |].
    + intros o'. rewrite Hr. destruct (decide (o' = o)) as [->|Hne]; [rewrite lookup_insert_eq, Ho; naive_solver|].
      by rewrite lookup_insert_ne.
    + intros o' sl. rewrite lookup_insert_Some. intros [[<- _]|[_ H]]; [by apply (Hh _ _ Ho)|by apply (Hh _ _ H)].
  - unfold shard_bytes. cbn. apply zsum_map_ext. intros x _. unfold slot_len. cbn.
    destruct (decide (x = o)) as [->|Hne]; [by rewrite lookup_insert_eq, Ho|by rewrite lookup_insert_ne].
  - unfold shard_size. cbn. by rewrite map_size_insert_Some by (by eexists).
  - intros o'. cbn. destruct (decide (o' = o)) as [->|Hne]; [|rewrite lookup_insert_ne by done; apply slot_kept_refl].
    rewrite lookup_insert_eq, Ho. cbn. eauto.
Qed.

(** A resident body goes, from the slots and from the ring. *)
Lemma shard_drop s o c clock : ok s -> sd_slots s !! o = Some (SlotReady c) -> NoDup clock ->
  (forall x, x ∈ clock <-> x ∈ sd_clock s /\ x <> o) -> zsum (List.map (slot_len s) clock) = shard_bytes s - slot_len s o ->
  let s' := mkCacheShard (delete o (sd_slots s)) clock in
  ok s' /\ shard_bytes s' = shard_bytes s - body_len (cd_body c) /\ shard_size s' = shard_size s - 1 /\
  forall o', slot_kept (sd_slots s !! o') (sd_slots s' !! o').
Proof.
  intros [Hn Hr Hh] Ho Hnd Hcl Hb. cbn zeta. split_and!.
  - split; cbn; [done| |].
    + intros o'. rewrite Hcl, Hr. destruct (decide (o' = o)) as [->|Hne].
      * rewrite lookup_delete_eq. naive_solver.
      * rewrite lookup_delete_ne by done. naive_solver.
    + intros o' sl. rewrite lookup_delete_Some. intros [_ H]. by apply (Hh _ _ H).
  - unfold shard_bytes at 1. cbn. rewrite (zsum_map_ext _ (slot_len s)).
    + rewrite Hb. unfold slot_len. by rewrite Ho.
    + intros x Hx. unfold slot_len. cbn. rewrite lookup_delete_ne; [done|]. intros <-. apply list_elem_of_In, Hcl in Hx. tauto.
  - unfold shard_size. cbn. rewrite map_size_delete_Some by (by eexists). assert (size (sd_slots s) <> 0%nat); [|lia].
    apply (map_size_ne_0_lookup_2 _ o). by eexists.
  - intros o'. cbn. destruct (decide (o' = o)) as [->|Hne]; [rewrite lookup_delete_eq, Ho; cbn; auto|].
    rewrite lookup_delete_ne by done. apply slot_kept_refl.
Qed.


Definition hot (s : CacheShard) (o : Z) : bool :=
  match sd_slots s !! o with Some (SlotReady c) => cd_referenced c | _ => false end.

Definition hots (s : CacheShard) : nat := length (List.filter (hot s) (sd_clock s)).

(** One entry is evicted unless none is resident; a bit that is cleared is not
    met again, so the walk ends. *)
Lemma evict_one_ok fuel s : ok s -> (hots s < fuel)%nat ->
  exists s' r, evict_one fuel s = Ok (s', r) /\ ok s' /\ (forall o, slot_kept (sd_slots s !! o) (sd_slots s' !! o)) /\
    match r with
    | None => sd_clock s' = [] /\ shard_bytes s' = shard_bytes s /\ shard_size s' = shard_size s
    | Some len => 0 <= len /\ shard_bytes s' = shard_bytes s - len /\ shard_size s' = shard_size s - 1 /\
        (S (length (sd_clock s')) = length (sd_clock s))%nat
    end.
Proof.
  revert s. induction fuel as [|fuel IH]; intros s Hs Hf; [lia|]. cbn [evict_one].
  destruct (sd_clock s) as [|o clock] eqn:Hc.
  { exists s, None. split_and!; auto using slot_kept_refl. }
  destruct (proj1 (so_ring _ _ _ Hs o)) as [c Ho]; [rewrite Hc; by left|]. rewrite Ho.
  pose proof (so_nodup _ _ _ Hs) as Hn. rewrite Hc in Hn. apply NoDup_cons in Hn as [Hno Hn].
  destruct (cd_referenced c) eqn:Er.
  - set (s1 := mkCacheShard _ _).
    assert (ok s1 /\ shard_bytes s1 = shard_bytes s /\ shard_size s1 = shard_size s) as (Hs1 & Hb1 & Hz1).
    { unfold s1. split_and!.
      - split; cbn.
        + apply NoDup_app. split_and!; [done| |apply NoDup_singleton]. by intros x Hx ->%list_elem_of_singleton.
        + intros o'. rewrite elem_of_app, list_elem_of_singleton. pose proof (so_ring _ _ _ Hs o') as Hr. rewrite Hc, elem_of_cons in Hr.
          destruct (decide (o' = o)) as [->|Hne]; [rewrite lookup_insert_eq; naive_solver|]. rewrite lookup_insert_ne by done. naive_solver.
        + intros o' sl. rewrite lookup_insert_Some. intros [[<- _]|[_ H]]; [by apply (so_here _ _ _ Hs _ _ Ho)|by apply (so_here _ _ _ Hs _ _ H)].
      - unfold shard_bytes. cbn. rewrite map_app, zsum_app, Hc. cbn. rewrite !zsum_cons. change (zsum []) with 0. unfold slot_len at 2. cbn. rewrite lookup_insert_eq. cbn.
        unfold slot_len at 2. rewrite Ho. rewrite (zsum_map_ext _ (slot_len s)); [lia|].
        intros x Hx. unfold slot_len. cbn. rewrite lookup_insert_ne; [done|]. intros <-. by apply Hno, list_elem_of_In.
      - unfold shard_size. cbn. by rewrite map_size_insert_Some by (by eexists). }
    assert (S (hots s1) = hots s) as Hh.
    { unfold hots, s1. cbn [sd_clock]. rewrite Hc, List.filter_app, length_app. cbn [List.filter]. unfold hot at 2. cbn. rewrite lookup_insert_eq. cbn.
      unfold hot at 2. rewrite Ho, Er. cbn. rewrite Nat.add_0_r. f_equal. f_equal. apply filter_ext_in. intros x Hx. unfold hot. cbn.
      rewrite lookup_insert_ne; [done|]. intros <-. by apply Hno, list_elem_of_In. }
    destruct (IH s1 Hs1 ltac:(lia)) as (s' & r & E & Hs' & Hk & Hr). exists s', r. split_and!; [done|done| |].
    + intros x. eapply slot_kept_trans; [|apply Hk]. unfold s1. cbn. destruct (decide (x = o)) as [->|Hne]; [rewrite lookup_insert_eq, Ho; cbn; eauto|].
      rewrite lookup_insert_ne by done. apply slot_kept_refl.
    + assert (length (sd_clock s1) = length (o :: clock)) as Hl by (unfold s1; cbn; rewrite length_app; cbn; lia).
      destruct r as [len|]; [destruct Hr as (? & ? & ? & ?); split_and!; [lia..|congruence]|]. destruct Hr as (? & ? & ?). split_and!; [done|lia|lia].
  - destruct (shard_drop s o c clock Hs Ho Hn) as (Hs' & Hb & Hz & Hk).
    + intros x. rewrite Hc, elem_of_cons. split; [|naive_solver]. intros Hx. split; [by right|]. by intros ->.
    + unfold shard_bytes. rewrite Hc. cbn. rewrite zsum_cons. lia.
    + eexists _, _. split; [done|]. split_and!; [done|done|unfold body_len; lia|done|done|]. done.
Qed.

Lemma hots_fuel s : (hots s < evict_fuel s)%nat.
Proof. unfold hots, evict_fuel. pose proof (List.filter_length_le (hot s) (sd_clock s)). lia. Qed.

Lemma evict_loop_ok fuel s target freed evicted : ok s -> (length (sd_clock s) < fuel)%nat -> 0 <= freed -> 0 <= evicted ->
  exists s' freed' evicted', evict_loop fuel s target freed evicted = Ok (s', freed', evicted') /\ ok s' /\
    (forall o, slot_kept (sd_slots s !! o) (sd_slots s' !! o)) /\
    shard_bytes s' = shard_bytes s - (freed' - freed) /\ shard_size s' = shard_size s - (evicted' - evicted) /\
    freed <= freed' /\ evicted <= evicted' /\ (evicted' = evicted -> freed' = freed) /\ (target <= freed' \/ sd_clock s' = []).
Proof.
  revert s freed evicted. induction fuel as [|fuel IH]; intros s freed evicted Hs Hf H0 H1; [lia|]. cbn [evict_loop].
  destruct (Z.ltb_spec freed target) as [Hlt|Hge].
  2:{ exists s, freed, evicted. split_and!; auto using slot_kept_refl; lia. }
  destruct (evict_one_ok (evict_fuel s) s Hs (hots_fuel s)) as (s1 & r & E & Hs1 & Hk1 & Hr). rewrite E. cbn [mbind outcome_bind].
  destruct r as [len|].
  - destruct Hr as (Hl & Hb & Hz & Hc).
    destruct (IH s1 (freed + len) (evicted + 1) Hs1 ltac:(lia) ltac:(lia) ltac:(lia)) as (s' & f' & e' & E' & Hs' & Hk & Hb' & Hz' & Hf' & He' & _ & Ht).
    exists s', f', e'. split_and!; [done|done| |lia|lia|lia|lia|lia|done]. intros o. eapply slot_kept_trans; [apply Hk1|apply Hk].
  - destruct Hr as (Hc & Hb & Hz). exists s1, freed, evicted. split_and!; auto; lia.
Qed.

Lemma evict_up_to_ok s target : ok s ->
  exists s' freed evicted, evict_up_to s target = Ok (s', freed, evicted) /\ ok s' /\
    (forall o, slot_kept (sd_slots s !! o) (sd_slots s' !! o)) /\
    shard_bytes s' = shard_bytes s - freed /\ shard_size s' = shard_size s - evicted /\
    0 <= freed /\ 0 <= evicted /\ (evicted = 0 -> freed = 0) /\ (target <= freed \/ sd_clock s' = []).
Proof.
  intros Hs. destruct (evict_loop_ok (S (S (length (sd_clock s)))) s target 0 0 Hs ltac:(lia) ltac:(lia) ltac:(lia))
    as (s' & f & e & E & Hs' & Hk & Hb & Hz & Hf & He & Hn & Ht).
  exists s', f, e. split_and!; [done|done|done|lia|lia|lia|lia|lia|done].
Qed.
End one_shard.

(** ** The cache *)

Record cache_ok (pc : PositionCache) : Prop := mkCacheOk {
  ck_some : (0 < length (pc_shards pc))%nat;
  ck_shards : forall j s, pc_shards pc !! j = Some s -> shard_ok (length (pc_shards pc)) j s;
  ck_bytes : pc_bytes pc = zsum (List.map shard_bytes (pc_shards pc));
  ck_occupied : pc_occupied pc = zsum (List.map shard_size (pc_shards pc));
  ck_max : 0 < pc_max_bytes pc;
}.

Lemma shard_of_lt pc o : cache_ok pc -> (shard_of pc o < length (pc_shards pc))%nat.
Proof.
  intros Hp. pose proof (ck_some _ Hp). unfold shard_of, shard_index.
  pose proof (Z.mod_pos_bound (Z.shiftr (u64_mul o 11400714819323198485) 32) (Z.of_nat (length (pc_shards pc))) ltac:(lia)). lia.
Qed.

Lemma get_shard_lookup pc j : (j < length (pc_shards pc))%nat -> pc_shards pc !! j = Some (get_shard pc j).
Proof. intros Hj. unfold get_shard. apply lookup_lt_is_Some in Hj as [s Hs]. by rewrite Hs. Qed.

Lemma get_shard_ok pc j : cache_ok pc -> (j < length (pc_shards pc))%nat -> shard_ok (length (pc_shards pc)) j (get_shard pc j).
Proof. intros Hp Hj. apply (ck_shards _ Hp). by apply get_shard_lookup. Qed.

Lemma put_shard_len pc j s b o : length (pc_shards (put_shard pc j s b o)) = length (pc_shards pc).
Proof. apply length_insert. Qed.

Lemma put_shard_of pc j s b o x : shard_of (put_shard pc j s b o) x = shard_of pc x.
Proof. unfold shard_of. by rewrite put_shard_len. Qed.

Lemma put_shard_get pc j s b o i : (j < length (pc_shards pc))%nat ->
  get_shard (put_shard pc j s b o) i = if bool_decide (i = j) then s else get_shard pc i.
Proof.
  intros Hj. unfold get_shard. cbn. destruct (decide (i = j)) as [->|Hne].
  - by rewrite bool_decide_eq_true_2, list_lookup_insert_eq by done.
  - by rewrite bool_decide_eq_false_2, list_lookup_insert_ne by done.
Qed.

Lemma put_shard_ok pc j s b o : cache_ok pc -> (j < length (pc_shards pc))%nat -> shard_ok (length (pc_shards pc)) j s ->
  b = pc_bytes pc - shard_bytes (get_shard pc j) + shard_bytes s -> o = pc_occupied pc - shard_size (get_shard pc j) + shard_size s ->
  cache_ok (put_shard pc j s b o).
Proof.
  intros [Hn Hs Hb Ho Hm] Hj Hok -> ->. pose proof (get_shard_lookup pc j Hj) as Hl. split; rewrite ?put_shard_len; cbn.
  - done.
  - intros i t. rewrite list_lookup_insert_Some. intros [(<- & -> & _)|[_ H]]; [done|by apply Hs].
  - rewrite (zsum_map_insert _ _ _ _ _ Hl). lia.
  - rewrite (zsum_map_insert _ _ _ _ _ Hl). lia.
  - done.
Qed.

Lemma put_shard_slot pc j s b o x : (j < length (pc_shards pc))%nat ->
  get_slot (put_shard pc j s b o) x = if bool_decide (shard_of pc x = j) then sd_slots s !! x else get_slot pc x.
Proof.
  intros Hj. unfold get_slot. rewrite put_shard_of, put_shard_get by done.
  destruct (decide (shard_of pc x = j)) as [E|Hne]; [by rewrite !bool_decide_eq_true_2|by rewrite !bool_decide_eq_false_2].
Qed.

(** What a slot becomes when the one at [o] is set to [v]. *)
Lemma put_shard_slot_at pc s b o' o v x : cache_ok pc ->
  (forall y, sd_slots s !! y = if bool_decide (y = o) then v else sd_slots (get_shard pc (shard_of pc o)) !! y) ->
  get_slot (put_shard pc (shard_of pc o) s b o') x = if bool_decide (x = o) then v else get_slot pc x.
Proof.
  intros Hp Hs. rewrite put_shard_slot by (by apply shard_of_lt). destruct (decide (x = o)) as [->|Hne].
  - rewrite !bool_decide_eq_true_2 by done. rewrite Hs. by rewrite bool_decide_eq_true_2.
  - rewrite (bool_decide_eq_false_2 (x = o)) by done. destruct (decide (shard_of pc x = shard_of pc o)) as [E|Hn].
    + rewrite bool_decide_eq_true_2 by done. rewrite Hs, bool_decide_eq_false_2 by done. unfold get_slot. by rewrite E.
    + by rewrite bool_decide_eq_false_2.
Qed.

Lemma insert_at (m : gmap Z Slot) o v y : <[o := v]> m !! y = if bool_decide (y = o) then Some v else m !! y.
Proof. destruct (decide (y = o)) as [->|Hne]; [by rewrite lookup_insert_eq, bool_decide_eq_true_2|by rewrite lookup_insert_ne, bool_decide_eq_false_2]. Qed.

Lemma delete_at (m : gmap Z Slot) o y : delete o m !! y = if bool_decide (y = o) then None else m !! y.
Proof. destruct (decide (y = o)) as [->|Hne]; [by rewrite lookup_delete_eq, bool_decide_eq_true_2|by rewrite lookup_delete_ne, bool_decide_eq_false_2]. Qed.

(** *** Operations that only forget *)

(** A shard can only lose bodies, and no cell changes but for its [retired]
    mark. *)
Record forgets (pc pc' : PositionCache) : Prop := mkForgets {
  fg_ok : cache_ok pc';
  fg_len : length (pc_shards pc') = length (pc_shards pc);
  fg_max : pc_max_bytes pc' = pc_max_bytes pc;
  fg_bytes : pc_bytes pc' <= pc_bytes pc;
  fg_slots : forall o, slot_kept (get_slot pc o) (get_slot pc' o);
  fg_states : forall c, fc_state (get_cell pc' c) = fc_state (get_cell pc c);
  fg_cells : forall c, is_Some (pc_cells pc' !! c) <-> is_Some (pc_cells pc !! c);
  fg_clock : forall j, sd_clock (get_shard pc j) = [] -> sd_clock (get_shard pc' j) = [];
}.

Lemma forgets_refl pc : cache_ok pc -> forgets pc pc.
Proof. intros Hp. split; auto using slot_kept_refl; lia. Qed.

(** A resident ring entry of a shard comes from its old ring. *)
Lemma ring_empty n j s s' : shard_ok n j s -> shard_ok n j s' -> (forall o, slot_kept (sd_slots s !! o) (sd_slots s' !! o)) ->
  sd_clock s = [] -> sd_clock s' = [].
Proof.
  intros Hs Hs' Hk He. destruct (sd_clock s') as [|o l] eqn:E; [done|]. exfalso.
  destruct (proj1 (so_ring _ _ _ Hs' o)) as [c Hc]; [rewrite E; by left|]. specialize (Hk o). rewrite Hc in Hk.
  destruct (sd_slots s !! o) as [[c'|c']|] eqn:Eo; cbn in Hk; [|done..].
  assert (o ∈ sd_clock s) as Hin by (apply (so_ring _ _ _ Hs); eauto). rewrite He in Hin. by apply not_elem_of_nil in Hin.
Qed.

Lemma put_shard_forgets pc j s b o : cache_ok pc -> (j < length (pc_shards pc))%nat -> shard_ok (length (pc_shards pc)) j s ->
  b = pc_bytes pc - shard_bytes (get_shard pc j) + shard_bytes s -> o = pc_occupied pc - shard_size (get_shard pc j) + shard_size s ->
  b <= pc_bytes pc -> (forall x, slot_kept (sd_slots (get_shard pc j) !! x) (sd_slots s !! x)) -> forgets pc (put_shard pc j s b o).
Proof.
  intros Hp Hj Hs Hb Ho Hle Hk. split.
  - by apply put_shard_ok.
  - apply put_shard_len.
  - done.
  - done.
  - intros x. rewrite put_shard_slot by done. destruct (decide (shard_of pc x = j)) as [E|Hn].
    + rewrite bool_decide_eq_true_2 by done. unfold get_slot. rewrite E. apply Hk.
    + rewrite bool_decide_eq_false_2 by done. apply slot_kept_refl.
  - done.
  - done.
  - intros i He. rewrite put_shard_get by done. destruct (decide (i = j)) as [->|Hn]; [|by rewrite bool_decide_eq_false_2].
    rewrite bool_decide_eq_true_2 by done. by apply (ring_empty _ _ _ _ (get_shard_ok pc j Hp Hj) Hs).
Qed.

Lemma cache_touch_ok pc o : cache_ok pc -> forgets pc (cache_touch pc o).
Proof.
  intros Hp. pose proof (shard_of_lt pc o Hp) as Hj. destruct (shard_touch_ok _ _ _ o (get_shard_ok pc _ Hp Hj)) as (Hs & Hb & Hz & _ & Hk).
  apply put_shard_forgets; auto; lia.
Qed.

Lemma cache_remove_ok pc o : cache_ok pc -> (forall c, get_slot pc o = Some (SlotPending c) -> is_Some (pc_cells pc !! c)) ->
  forgets pc (cache_remove pc o).1.
Proof.
  intros Hp Hcell. unfold cache_remove. pose proof (shard_of_lt pc o Hp) as Hj. pose proof (get_shard_ok pc _ Hp Hj) as Hs.
  unfold get_slot in Hcell. destruct (sd_slots (get_shard pc (shard_of pc o)) !! o) as [[c|c]|] eqn:E; cbn [fst].
  - destruct (shard_drop _ _ _ o c (List.filter (fun x => negb (x =? o)) (sd_clock (get_shard pc (shard_of pc o)))) Hs E) as (Hs' & Hb & Hz & Hk).
    + apply NoDup_ListNoDup, List.NoDup_filter, NoDup_ListNoDup, Hs.
    + intros x. rewrite !list_elem_of_In, filter_In. rewrite negb_true_iff, Z.eqb_neq. done.
    + apply zsum_filter_out; [apply Hs|]. apply (so_ring _ _ _ Hs). eauto.
    + apply put_shard_forgets; auto; unfold body_len in *; lia.
  - specialize (Hcell c eq_refl). split; cbn; auto using slot_kept_refl; try lia.
    + by destruct Hp.
    + intros c'. unfold get_cell. cbn. destruct (decide (c' = c)) as [->|Hne]; [by rewrite lookup_insert_eq|by rewrite lookup_insert_ne].
    + intros c'. destruct (decide (c' = c)) as [->|Hne]; [by rewrite lookup_insert_eq|by rewrite lookup_insert_ne].
  - by apply forgets_refl.
Qed.

Lemma trim_shard_ok pc start i over : cache_ok pc ->
  exists pc', trim_shard pc start i over = Ok pc' /\ forgets pc pc' /\
    (pc_bytes pc' <= pc_bytes pc - over \/ sd_clock (get_shard pc' ((start + i) mod length (pc_shards pc))) = []).
Proof.
  intros Hp. pose proof (ck_some _ Hp) as Hn. set (j := ((start + i) mod length (pc_shards pc))%nat).
  assert (j < length (pc_shards pc))%nat as Hj by (apply Nat.mod_upper_bound; lia).
  destruct (evict_up_to_ok _ _ (get_shard pc j) over (get_shard_ok pc j Hp Hj)) as (s & f & e & E & Hs & Hk & Hb & Hz & Hf & He & Hfe & Ht).
  unfold trim_shard. fold j. rewrite E. cbn [mbind outcome_bind]. eexists. split; [done|].
  assert ((if 0 <? e then put_shard pc j s (pc_bytes pc - f) (pc_occupied pc - e) else put_shard pc j s (pc_bytes pc) (pc_occupied pc)) =
    put_shard pc j s (pc_bytes pc - f) (pc_occupied pc - e)) as ->.
  { destruct (Z.ltb_spec 0 e); [done|]. assert (e = 0) as -> by lia. rewrite Hfe by done. by rewrite !Z.sub_0_r. }
  split; [apply put_shard_forgets; auto; lia|]. rewrite put_shard_get, bool_decide_eq_true_2 by done. cbn. destruct Ht; [left; lia|by right].
Qed.

Lemma cache_new_ok parallelism max_bytes pc : cache_new parallelism max_bytes = Ok pc ->
  cache_ok pc /\ pc_cells pc = ∅ /\ (forall o, get_slot pc o = None) /\ pc_bytes pc <= pc_max_bytes pc.
Proof.
  unfold cache_new. intros H. inv_ok H. assert (0 < Z.to_nat (shard_count parallelism))%nat as Hn by (unfold shard_count; lia).
  assert (forall j s, replicate (Z.to_nat (shard_count parallelism)) (mkCacheShard ∅ []) !! j = Some s -> s = mkCacheShard ∅ []) as Hl
    by (intros j s [-> _]%lookup_replicate; done).
  split_and!; cbn; b2p; [|done| |lia].
  - split; cbn; rewrite ?length_replicate; [done| | | |done].
    + intros j s ->%Hl. split; cbn; [constructor| |done]. intros o. split; [by intros ?%not_elem_of_nil|by intros [c ?]].
    + clear. induction (Z.to_nat _); [done|]. cbn. rewrite zsum_cons, shard_empty_bytes by done. lia.
    + clear. induction (Z.to_nat _); [done|]. cbn. rewrite zsum_cons. change (shard_size (mkCacheShard ∅ [])) with 0. lia.
  - intros o. unfold get_slot, get_shard. cbn. destruct (replicate _ _ !! _) as [s|] eqn:E; [apply Hl in E as ->|]; done.
Qed.

(** ** The invariant *)

Section system.
Context (content : Z -> list Z).

Definition result_ok (r : CacheResult) : Prop :=
  match r with
  | ResultGet o (Some b) | ResultFill o (OutcomeHit b) | ResultFill o (OutcomeFilled b) => b = content o
  | _ => True
  end.

(** The thread that will publish a cell. *)
Definition works_on (t : Thread) (c : nat) : Prop :=
  match t with Leading _ c' | Publishing _ c' _ | Abandoning _ c' => c' = c | _ => False end.

(** [owner]: the offset a cell was made for. *)
Definition thread_ok (owner : nat -> Z) (pc : PositionCache) (t : Thread) : Prop :=
  match t with
  | AtRest r => match r with Some r => result_ok r | None => True end
  | Checking o b | Touching _ o b => b = content o
  | Waiting _ o c | Abandoning o c => owner c = o /\ is_Some (pc_cells pc !! c)
  | Leading o c => owner c = o /\ is_Some (pc_cells pc !! c) /\ get_slot pc o = Some (SlotPending c) /\ fc_state (get_cell pc c) = FillFilling
  | Publishing o c b => owner c = o /\ is_Some (pc_cells pc !! c) /\ b = content o
  | Sweeping o b _ i _ => b = content o
  end.

(** A thread that brings the bytes back under the budget if nothing is added:
    the shards its blocking pass is done with hold no body, and the excess it
    loaded is at least what there is. *)
Definition on_the_way (pc : PositionCache) (t : Thread) : Prop :=
  match t with
  | Publishing _ _ _ => True
  | Sweeping o _ blocking i at_ =>
      (blocking = true -> forall i', (i' < i)%nat -> sd_clock (get_shard pc ((sweep_start pc o + i') mod length (pc_shards pc))) = []) /\
      (i < length (pc_shards pc))%nat /\
      match at_ with SweepLoad => True | SweepLock over => pc_bytes pc - pc_max_bytes pc <= over end
  | _ => False
  end.

Definition idle_worker (t : Thread) : Prop := forall c, ~ works_on t c.

Record cache_inv (owner : nat -> Z) (pc : PositionCache) (threads : list Thread) : Prop := mkCacheInv {
  cv_ok : cache_ok pc;
  cv_bodies : forall o c, get_slot pc o = Some (SlotReady c) -> cd_body c = content o;
  cv_pending : forall o c, get_slot pc o = Some (SlotPending c) -> exists m, threads !! m = Some (Leading o c);
  cv_threads : forall m t, threads !! m = Some t -> thread_ok owner pc t;
  cv_single : forall m m' t t' c, threads !! m = Some t -> threads !! m' = Some t' -> works_on t c -> works_on t' c -> m = m';
  cv_done : forall c b, fc_state (get_cell pc c) = FillDone b -> b = content (owner c);
  cv_worked : forall c fc, pc_cells pc !! c = Some fc -> fc_state fc = FillFilling -> exists m t, threads !! m = Some t /\ works_on t c;
  cv_budget : pc_bytes pc <= pc_max_bytes pc \/ exists m t, threads !! m = Some t /\ on_the_way pc t;
  cv_index : forall m o b blocking i at_, threads !! m = Some (Sweeping o b blocking i at_) -> (i < length (pc_shards pc))%nat;
}.

Lemma leading_cell pc owner ts m o c : cache_inv owner pc ts -> ts !! m = Some (Leading o c) -> is_Some (pc_cells pc !! c).
Proof. intros Hi Hm. apply (cv_threads _ _ _ Hi) in Hm. by destruct Hm as (_ & ? & _). Qed.

Lemma pending_cell pc owner ts o c : cache_inv owner pc ts -> get_slot pc o = Some (SlotPending c) -> is_Some (pc_cells pc !! c).
Proof. intros Hi Hs. destruct (cv_pending _ _ _ Hi o c Hs) as [m Hm]. by apply (leading_cell _ _ _ _ _ _ Hi Hm). Qed.

(** *** Forgetting *)

Lemma forgets_pending pc pc' o c : forgets pc pc' -> get_slot pc' o = Some (SlotPending c) <-> get_slot pc o = Some (SlotPending c).
Proof.
  intros Hf. pose proof (fg_slots _ _ Hf o) as Hk. destruct (get_slot pc o) as [[x|x]|]; cbn in Hk; [|by rewrite Hk..].
  split; [|done]. destruct Hk as [->|[r ->]]; done.
Qed.

Lemma thread_ok_forgets owner pc pc' t : forgets pc pc' -> thread_ok owner pc t -> thread_ok owner pc' t.
Proof.
  intros Hf. pose proof (fg_cells _ _ Hf) as Hc. pose proof (fg_states _ _ Hf) as Hs.
  destruct t; cbn; try done; rewrite ?Hc, ?Hs, ?(forgets_pending pc pc') by done; done.
Qed.

Lemma on_the_way_forgets pc pc' t : forgets pc pc' -> on_the_way pc t -> on_the_way pc' t.
Proof.
  intros Hf. destruct t; cbn; try done. unfold sweep_start, shard_of. rewrite (fg_len _ _ Hf). intros (Hc & Hi & Ha). split_and!; [|done|].
  - intros Hb i' Hi'. apply (fg_clock _ _ Hf). by apply Hc.
  - destruct at_; [done|]. pose proof (fg_bytes _ _ Hf). rewrite (fg_max _ _ Hf). lia.
Qed.

(** A thread that works on no cell makes a step that only forgets. *)
Lemma inv_forgets owner pc ts n t pc' t' :
  cache_inv owner pc ts -> ts !! n = Some t -> forgets pc pc' -> idle_worker t -> idle_worker t' -> thread_ok owner pc' t' ->
  (forall o b blocking i at_, t' = Sweeping o b blocking i at_ -> (i < length (pc_shards pc))%nat) ->
  (on_the_way pc t -> pc_bytes pc' <= pc_max_bytes pc' \/ on_the_way pc' t') -> cache_inv owner pc' (<[n := t']> ts).
Proof.
  intros Hi Hn Hf Ht Ht' Hok Hx Hb. split.
  - apply Hf.
  - intros o c Hc. pose proof (fg_slots _ _ Hf o) as Hk. destruct (get_slot pc o) as [[x|x]|] eqn:E; cbn in Hk; [|congruence..].
    rewrite <- (cv_bodies _ _ _ Hi o x E). destruct Hk as [Hk|[r Hk]]; rewrite Hk in Hc; [done|]. by injection Hc as <-.
  - intros o c. rewrite (forgets_pending pc) by done. intros Hs. destruct (cv_pending _ _ _ Hi o c Hs) as [m Hm]. exists m.
    rewrite list_lookup_insert_ne; [done|]. intros <-. rewrite Hn in Hm. injection Hm as ->. by apply (Ht c).
  - intros m u. rewrite list_lookup_insert_Some. intros [(<- & <- & _)|[_ Hm]]; [done|].
    apply (thread_ok_forgets owner pc); [done|]. by apply (cv_threads _ _ _ Hi m).
  - intros m m' u u' c. rewrite !list_lookup_insert_Some. intros [(<- & <- & _)|[_ Hm]] [(<- & <- & _)|[_ Hm']] Hw Hw'; try done.
    + by destruct (Ht' c).
    + by destruct (Ht' c).
    + by apply (cv_single _ _ _ Hi m m' u u' c).
  - intros c b. rewrite (fg_states _ _ Hf). apply (cv_done _ _ _ Hi).
  - intros c fc Hc Hs. destruct (proj1 (fg_cells _ _ Hf c)) as [fc0 Hc0]; [by eexists|].
    destruct (cv_worked _ _ _ Hi c fc0 Hc0) as (m & u & Hm & Hw).
    { pose proof (fg_states _ _ Hf c) as E. unfold get_cell in E. rewrite Hc, Hc0 in E. cbn in E. congruence. }
    exists m, u. split; [|done]. rewrite list_lookup_insert_ne; [done|]. intros <-. rewrite Hn in Hm. injection Hm as ->. by apply (Ht c).
  - rewrite (fg_max _ _ Hf) in *. destruct (cv_budget _ _ _ Hi) as [Hle|(m & u & Hm & Hw)].
    { left. pose proof (fg_bytes _ _ Hf). lia. }
    destruct (decide (m = n)) as [->|Hne].
    + rewrite Hn in Hm. injection Hm as ->. destruct (Hb Hw) as [Hle|Hw']; [by left|]. right. exists n, t'.
      rewrite list_lookup_insert_eq by (by eapply lookup_lt_Some). done.
    + right. exists m, u. rewrite list_lookup_insert_ne by done. split; [done|]. by apply (on_the_way_forgets pc).
  - rewrite (fg_len _ _ Hf). intros m o b blocking i at_. rewrite list_lookup_insert_Some. intros [(_ & E & _)|[_ Hm]]; [by apply (Hx _ _ _ _ _ E)|].
    by apply (cv_index _ _ _ Hi _ _ _ _ _ _ Hm).
Qed.

(** *** Filling *)

Lemma put_cell_state pc c fc c' : fc_state (get_cell (put_cell pc c fc) c') = if bool_decide (c' = c) then fc_state fc else fc_state (get_cell pc c').
Proof.
  unfold get_cell. cbn. destruct (decide (c' = c)) as [->|Hne]; [by rewrite lookup_insert_eq, bool_decide_eq_true_2|].
  by rewrite lookup_insert_ne, bool_decide_eq_false_2.
Qed.

Lemma put_cell_some pc c fc c' : is_Some (pc_cells (put_cell pc c fc) !! c') <-> c' = c \/ is_Some (pc_cells pc !! c').
Proof.
  cbn. destruct (decide (c' = c)) as [->|Hne]; [rewrite lookup_insert_eq; naive_solver|]. rewrite lookup_insert_ne by done. naive_solver.
Qed.

(** A sweep does not depend on the cells, nor on slots that are not resident. *)
Lemma on_the_way_same pc pc' t : length (pc_shards pc') = length (pc_shards pc) -> pc_bytes pc' = pc_bytes pc -> pc_max_bytes pc' = pc_max_bytes pc ->
  (forall j, sd_clock (get_shard pc' j) = sd_clock (get_shard pc j)) -> on_the_way pc t -> on_the_way pc' t.
Proof.
  intros Hl Hb Hm Hc. destruct t; cbn; try done. unfold sweep_start, shard_of. rewrite Hl, Hb, Hm. intros (H1 & H2 & H3). split_and!; [|done|done].
  intros Hbl i' Hi'. rewrite Hc. by apply H1.
Qed.

(** The threads of a state in which thread [n] has moved on while the others'
    view of the cache stays. *)
Lemma inv_moves owner owner' pc ts n t pc' t' :
  cache_inv owner pc ts -> ts !! n = Some t -> cache_ok pc' -> length (pc_shards pc') = length (pc_shards pc) -> pc_max_bytes pc' = pc_max_bytes pc ->
  (forall o c, get_slot pc' o = Some (SlotReady c) -> cd_body c = content o) ->
  (forall o c, get_slot pc' o = Some (SlotPending c) -> t' = Leading o c \/ get_slot pc o = Some (SlotPending c) /\ t <> Leading o c) ->
  thread_ok owner' pc' t' ->
  (forall m u, m <> n -> ts !! m = Some u -> thread_ok owner pc u -> thread_ok owner' pc' u) ->
  (forall c, works_on t' c -> works_on t c \/ forall m u, ts !! m = Some u -> ~ works_on u c) ->
  (forall c b, fc_state (get_cell pc' c) = FillDone b -> b = content (owner' c)) ->
  (forall c fc, pc_cells pc' !! c = Some fc -> fc_state fc = FillFilling -> works_on t' c \/
     ~ works_on t c /\ exists fc0, pc_cells pc !! c = Some fc0 /\ fc_state fc0 = FillFilling) ->
  (forall o b blocking i at_, t' = Sweeping o b blocking i at_ -> (i < length (pc_shards pc))%nat) ->
  (on_the_way pc' t' \/ pc_bytes pc' = pc_bytes pc /\ ~ on_the_way pc t /\ forall j, sd_clock (get_shard pc' j) = sd_clock (get_shard pc j)) ->
  cache_inv owner' pc' (<[n := t']> ts).
Proof.
  intros Hi Hn Hok Hl Hmax Hbod Hpen Ht' Hoth Hw Hd Hfil Hx Hbud.
  assert (<[n := t']> ts !! n = Some t') as Hself by (apply list_lookup_insert_eq; by eapply lookup_lt_Some). split; [done|done|..].
  - intros o c Hs. destruct (Hpen o c Hs) as [->|[Hs' Hne]]; [by exists n|]. destruct (cv_pending _ _ _ Hi o c Hs') as [m Hm]. exists m.
    rewrite list_lookup_insert_ne; [done|]. intros <-. congruence.
  - intros m u. rewrite list_lookup_insert_Some. intros [(<- & <- & _)|[Hne Hm]]; [done|]. apply (Hoth m u ltac:(done) Hm). by apply (cv_threads _ _ _ Hi m).
  - intros m m' u u' c. rewrite !list_lookup_insert_Some. intros [(<- & <- & _)|[Hne Hm]] [(<- & <- & _)|[Hne' Hm']] H1 H2; try done.
    + destruct (Hw c H1) as [H|H]; [|by destruct (H m' u')]. by apply (cv_single _ _ _ Hi n m' t u' c).
    + destruct (Hw c H2) as [H|H]; [|by destruct (H m u)]. by apply (cv_single _ _ _ Hi m n u t c).
    + by apply (cv_single _ _ _ Hi m m' u u' c).
  - done.
  - intros c fc Hc Hs. destruct (Hfil c fc Hc Hs) as [H|(Hnw & fc0 & Hc0 & Hs0)]; [by exists n, t'|].
    destruct (cv_worked _ _ _ Hi c fc0 Hc0 Hs0) as (m & u & Hm & Hu). exists m, u. split; [|done].
    rewrite list_lookup_insert_ne; [done|]. intros <-. by assert (u = t) as -> by congruence.
  - destruct Hbud as [Ho|(Hb & Hno & Hc)]; [right; by exists n, t'|]. rewrite Hb, Hmax.
    destruct (cv_budget _ _ _ Hi) as [|(m & u & Hm & Hu)]; [by left|]. right. exists m, u. split; [|by apply (on_the_way_same pc)].
    rewrite list_lookup_insert_ne; [done|]. intros <-. by assert (u = t) as -> by congruence.
  - rewrite Hl. intros m o b blocking i at_. rewrite list_lookup_insert_Some. intros [(_ & E & _)|[_ Hm]]; [by apply (Hx _ _ _ _ _ E)|].
    by apply (cv_index _ _ _ Hi _ _ _ _ _ _ Hm).
Qed.

(** A leader takes an empty slot. *)
Lemma inv_lead owner pc ts n r o c :
  cache_inv owner pc ts -> ts !! n = Some (AtRest r) -> get_slot pc o = None -> pc_cells pc !! c = None ->
  cache_inv (fun c' => if bool_decide (c' = c) then o else owner c') (fill_begin pc o c).1 (<[n := Leading o c]> ts).
Proof.
  intros Hi Hn Ho Hc. unfold fill_begin. rewrite Ho. cbn [fst]. pose proof (cv_ok _ _ _ Hi) as Hp. pose proof (shard_of_lt pc o Hp) as Hj.
  set (s := get_shard pc (shard_of pc o)). destruct (shard_insert_pending _ _ s o c (get_shard_ok pc _ Hp Hj) eq_refl Ho) as (Hs & Hb & Hz).
  set (s' := mkCacheShard _ _) in *. set (pc1 := put_shard _ _ _ _ _).
  assert (cache_ok pc1) as Hp1 by (apply put_shard_ok; auto; unfold s in *; lia).
  assert (forall x, get_slot pc1 x = if bool_decide (x = o) then Some (SlotPending c) else get_slot pc x) as Hsl.
  { intros x. apply put_shard_slot_at; [done|]. intros y. cbn. by rewrite insert_at. }
  assert (forall j, sd_clock (get_shard pc1 j) = sd_clock (get_shard pc j)) as Hck.
  { intros j. unfold pc1. rewrite put_shard_get by done. destruct (decide (j = shard_of pc o)) as [->|]; [by rewrite bool_decide_eq_true_2|by rewrite bool_decide_eq_false_2]. }
  assert (forall c', is_Some (pc_cells pc !! c') -> c' <> c) as Hfresh by (intros c' [? ?] ->; congruence).
  apply (inv_moves owner _ pc ts n (AtRest r)); try done.
  - by destruct Hp1.
  - apply put_shard_len.
  - intros x y. change (get_slot (put_cell pc1 _ _) x) with (get_slot pc1 x). rewrite Hsl. destruct (decide (x = o)) as [->|Hne]; [by rewrite bool_decide_eq_true_2|].
    rewrite bool_decide_eq_false_2 by done. apply (cv_bodies _ _ _ Hi).
  - intros x y. change (get_slot (put_cell pc1 _ _) x) with (get_slot pc1 x). rewrite Hsl. destruct (decide (x = o)) as [->|Hne].
    + rewrite bool_decide_eq_true_2 by done. intros [= <-]. by left.
    + rewrite bool_decide_eq_false_2 by done. by right.
  - cbn [thread_ok]. rewrite put_cell_some, put_cell_state, !bool_decide_eq_true_2 by done. split_and!; [done|by left| |done].
    change (get_slot (put_cell pc1 _ _) o) with (get_slot pc1 o). by rewrite Hsl, bool_decide_eq_true_2.
  - intros m u Hne Hm. destruct u; cbn [thread_ok]; try done.
    + intros [H1 H2]. rewrite bool_decide_eq_false_2, put_cell_some by (by apply Hfresh). auto.
    + intros (H1 & H2 & H3 & H4). rewrite put_cell_some, put_cell_state, !bool_decide_eq_false_2 by (by apply Hfresh). split_and!; auto.
      change (get_slot (put_cell pc1 _ _) offset) with (get_slot pc1 offset). rewrite Hsl, bool_decide_eq_false_2; [done|]. intros ->. congruence.
    + intros (H1 & H2 & H3). rewrite bool_decide_eq_false_2, put_cell_some by (by apply Hfresh). auto.
    + intros [H1 H2]. rewrite bool_decide_eq_false_2, put_cell_some by (by apply Hfresh). auto.
  - intros c' <-. right. intros m u Hm Hw. apply (cv_threads _ _ _ Hi) in Hm. destruct u; cbn in Hw, Hm; try done; subst; destruct_and?; eapply Hfresh; eauto; tauto.
  - intros c' b. rewrite put_cell_state. destruct (decide (c' = c)) as [->|Hne]; [by rewrite bool_decide_eq_true_2|].
    rewrite !bool_decide_eq_false_2 by done. apply (cv_done _ _ _ Hi).
  - intros c' fc. cbn. rewrite lookup_insert_Some. intros [[<- <-]|[Hne Hf]] Hs'; [by left|]. right. split; [tauto|]. by exists fc.
  - right. split_and!; [done|tauto|exact Hck].
Qed.

(** The slot of a leader is emptied, or filled with its body. *)
Lemma inv_slot_resolved owner pc ts n o c pc' v t' :
  cache_inv owner pc ts -> ts !! n = Some (Leading o c) -> cache_ok pc' -> length (pc_shards pc') = length (pc_shards pc) ->
  pc_max_bytes pc' = pc_max_bytes pc -> pc_cells pc' = pc_cells pc ->
  (forall x, get_slot pc' x = if bool_decide (x = o) then v else get_slot pc x) ->
  (v = None \/ exists r, v = Some (SlotReady (mkCached (content o) r))) ->
  thread_ok owner pc' t' -> (forall c', works_on t' c' <-> c' = c) -> (forall a b d i e, t' <> Sweeping a b d i e) ->
  (on_the_way pc' t' \/ pc_bytes pc' = pc_bytes pc /\ forall j, sd_clock (get_shard pc' j) = sd_clock (get_shard pc j)) ->
  cache_inv owner pc' (<[n := t']> ts).
Proof.
  intros Hi Hn Hok Hl Hm Hcells Hsl Hv Ht' Hw Hnsw Hb.
  assert (forall x, fc_state (get_cell pc' x) = fc_state (get_cell pc x)) as Hst by (intros x; unfold get_cell; by rewrite Hcells).
  apply (inv_moves owner owner pc ts n (Leading o c)); try done.
  - intros x y. rewrite Hsl. destruct (decide (x = o)) as [->|Hne]; [rewrite bool_decide_eq_true_2 by done|rewrite bool_decide_eq_false_2 by done; apply (cv_bodies _ _ _ Hi)].
    destruct Hv as [->|[r ->]]; [done|]. by intros [= <-].
  - intros x y. rewrite Hsl. destruct (decide (x = o)) as [->|Hne]; [rewrite bool_decide_eq_true_2 by done; by destruct Hv as [->|[r ->]]|].
    rewrite bool_decide_eq_false_2 by done. right. split; [done|]. intros [= -> _]. done.
  - intros m u Hne Hu Hok'. destruct u; cbn [thread_ok] in *; rewrite ?Hcells; try done.
    destruct Hok' as (H1 & H2 & H3 & H4). rewrite Hst. split_and!; try done. rewrite Hsl. destruct (decide (offset = o)) as [->|Hno]; [|by rewrite bool_decide_eq_false_2].
    exfalso. apply Hne. pose proof (cv_threads _ _ _ Hi n _ Hn) as (_ & _ & H5 & _). assert (cell = c) as -> by congruence.
    by apply (cv_single _ _ _ Hi m n _ _ c Hu Hn eq_refl eq_refl).
  - intros c' Hc'. left. cbn. apply Hw in Hc'. by rewrite Hc'.
  - intros c' b. rewrite Hst. apply (cv_done _ _ _ Hi).
  - intros c' fc. rewrite Hcells. intros Hc' Hs'. destruct (decide (c' = c)) as [->|Hne]; [left; by apply Hw|]. right. split; [|by exists fc]. cbn. congruence.
  - intros a b d i e E. by destruct (Hnsw a b d i e).
  - destruct Hb as [Hb|[Hb Hc]]; [by left|right]. split_and!; [done|by intros []|done].
Qed.

Lemma inv_insert owner pc ts n o c : cache_inv owner pc ts -> ts !! n = Some (Leading o c) ->
  cache_inv owner (lead_insert pc o c (content o)) (<[n := Publishing o c (content o)]> ts).
Proof.
  intros Hi Hn. pose proof (cv_ok _ _ _ Hi) as Hp. pose proof (shard_of_lt pc o Hp) as Hj. pose proof (get_shard_ok pc _ Hp Hj) as Hs.
  pose proof (cv_threads _ _ _ Hi n _ Hn) as (Ho & Hc & Hsl & _). unfold get_slot in Hsl.
  destruct (shard_delete_pending _ _ _ o c Hs Hsl) as (Hs1 & Hb1 & Hz1). destruct (shard_fill _ _ _ o c (content o) Hs Hsl) as (Hs2 & Hb2 & Hz2).
  assert (forall b' o', cache_ok (put_shard pc (shard_of pc o) (mkCacheShard (delete o (sd_slots (get_shard pc (shard_of pc o)))) (sd_clock (get_shard pc (shard_of pc o)))) b' o') ->
    cache_inv owner (put_shard pc (shard_of pc o) (mkCacheShard (delete o (sd_slots (get_shard pc (shard_of pc o)))) (sd_clock (get_shard pc (shard_of pc o)))) b' o')
      (<[n := Publishing o c (content o)]> ts)) as Hdrop.
  { intros b' o' Hok. apply (inv_slot_resolved owner pc ts n o c _ None); try done; [apply put_shard_len| |by left|by left].
    intros x. apply put_shard_slot_at; [done|]. intros y. cbn. apply delete_at. }
  unfold lead_insert. destruct (fc_retired _); [apply Hdrop, put_shard_ok; auto; lia|].
  destruct (body_len (content o) <=? pc_max_bytes pc); [|apply Hdrop, put_shard_ok; auto; lia].
  apply (inv_slot_resolved owner pc ts n o c _ (Some (SlotReady (mkCached (content o) false)))); try done.
  - apply put_shard_ok; auto; lia.
  - apply put_shard_len.
  - intros x. apply put_shard_slot_at; [done|]. intros y. cbn. apply insert_at.
  - right. by eexists.
  - by left.
Qed.

Lemma inv_unwind owner pc ts n o c : cache_inv owner pc ts -> ts !! n = Some (Leading o c) ->
  cache_inv owner (lead_abandon pc o c) (<[n := Abandoning o c]> ts).
Proof.
  intros Hi Hn. pose proof (cv_ok _ _ _ Hi) as Hp. pose proof (shard_of_lt pc o Hp) as Hj. pose proof (get_shard_ok pc _ Hp Hj) as Hs.
  pose proof (cv_threads _ _ _ Hi n _ Hn) as (Ho & Hc & Hsl & _). unfold get_slot in Hsl. unfold lead_abandon. rewrite Hsl, Nat.eqb_refl.
  destruct (shard_delete_pending _ _ _ o c Hs Hsl) as (Hs1 & Hb1 & Hz1).
  apply (inv_slot_resolved owner pc ts n o c _ None); try done.
  - apply put_shard_ok; auto; lia.
  - apply put_shard_len.
  - intros x. apply put_shard_slot_at; [done|]. intros y. cbn. apply delete_at.
  - by left.
  - right. split; [done|]. intros j. rewrite put_shard_get by done.
    destruct (decide (j = shard_of pc o)) as [->|]; [by rewrite bool_decide_eq_true_2|by rewrite bool_decide_eq_false_2].
Qed.

(** A cell is published by its worker, which works on no other. *)
Lemma inv_publish owner pc ts n t c state t' :
  cache_inv owner pc ts -> ts !! n = Some t -> works_on t c -> (forall o, t <> Leading o c) -> state <> FillFilling ->
  (forall b, state = FillDone b -> b = content (owner c)) -> is_Some (pc_cells pc !! c) -> idle_worker t' ->
  (forall pc', pc_cells pc' = pc_cells (cell_publish pc c state) -> thread_ok owner pc' t') ->
  (forall o b blocking i at_, t' = Sweeping o b blocking i at_ -> (i < length (pc_shards pc))%nat) ->
  (on_the_way (cell_publish pc c state) t' \/ ~ on_the_way pc t) ->
  cache_inv owner (cell_publish pc c state) (<[n := t']> ts).
Proof.
  intros Hi Hn Hw Hnl Hst Hd Hc Hid Hok Hx Hb. apply (inv_moves owner owner pc ts n t); try done.
  - by destruct (cv_ok _ _ _ Hi).
  - apply (cv_bodies _ _ _ Hi).
  - intros o x Hs. right. split; [done|]. intros ->. cbn in Hw. subst. by destruct (Hnl o).
  - by apply Hok.
  - intros m u Hne Hu. assert (~ works_on u c) as Hu' by (intros Hw'; apply Hne; by apply (cv_single _ _ _ Hi m n u t c)).
    assert (forall y, is_Some (pc_cells pc !! y) -> is_Some (pc_cells (cell_publish pc c state) !! y)) as Hsome by (intros y Hy; apply put_cell_some; by right).
    destruct u; cbn [thread_ok works_on] in *; try done; try (intros [H1 H2]; split; auto; destruct H2; auto; done).
    intros (H1 & H2 & H3 & H4). split_and!; auto. unfold cell_publish. rewrite put_cell_state, bool_decide_eq_false_2; [done|]. done.
  - intros c' Hc'. by destruct (Hid c').
  - intros c' b. unfold cell_publish. rewrite put_cell_state. destruct (decide (c' = c)) as [->|Hne].
    + rewrite bool_decide_eq_true_2 by done. apply Hd.
    + rewrite bool_decide_eq_false_2 by done. apply (cv_done _ _ _ Hi).
  - intros c' fc. cbn. rewrite lookup_insert_Some. intros [[<- <-]|[Hne Hf]] Hs; [done|]. right. split; [|by exists fc].
    destruct t; cbn in *; congruence.
  - destruct Hb as [Hb|Hb]; [by left|]. right. by split_and!.
Qed.

(** *** Sweeping *)

(** A blocking pass over all shards visits each of them. *)
Lemma all_covered pc start : cache_ok pc -> (start < length (pc_shards pc))%nat ->
  (forall i, (i < length (pc_shards pc))%nat -> sd_clock (get_shard pc ((start + i) mod length (pc_shards pc))) = []) -> pc_bytes pc = 0.
Proof.
  intros Hp Hst Hall. rewrite (ck_bytes _ Hp). set (n := length (pc_shards pc)) in *.
  assert (Forall (fun s => shard_bytes s = 0) (pc_shards pc)) as Hz.
  { apply Forall_lookup. intros j s Hs. pose proof (lookup_lt_Some _ _ _ Hs) as Hj. fold n in Hj. apply shard_empty_bytes.
    assert (s = get_shard pc j) as -> by (unfold get_shard; by rewrite Hs).
    destruct (Nat.le_gt_cases start j) as [Hle|Hgt].
    - specialize (Hall (j - start)%nat ltac:(lia)). replace (start + (j - start))%nat with j in Hall by lia. by rewrite Nat.mod_small in Hall.
    - specialize (Hall (j + n - start)%nat ltac:(lia)). replace (start + (j + n - start))%nat with (j + 1 * n)%nat in Hall by lia.
      rewrite Nat.Div0.mod_add, Nat.mod_small in Hall by done. done. }
  clear -Hz. induction Hz as [|s l Hs Hl IH]; [done|]. cbn. rewrite zsum_cons, Hs. lia.
Qed.

Lemma sweep_start_lt pc o : cache_ok pc -> (sweep_start pc o < length (pc_shards pc))%nat.
Proof. intros Hp. pose proof (ck_some _ Hp). apply Nat.mod_upper_bound. lia. Qed.

Lemma sweep_next_ok owner pc ts n o b blocking i over pc' :
  cache_inv owner pc ts -> ts !! n = Some (Sweeping o b blocking i (SweepLock over)) -> forgets pc pc' ->
  (pc_bytes pc' <= pc_bytes pc - over \/ blocking = false \/
   sd_clock (get_shard pc' ((sweep_start pc o + i) mod length (pc_shards pc))) = []) ->
  cache_inv owner pc' (<[n := sweep_next (length (pc_shards pc)) o b blocking i]> ts).
Proof.
  intros Hi Hn Hf Hfreed. pose proof (cv_ok _ _ _ Hi) as Hp. pose proof (ck_some _ Hp) as H0. pose proof (cv_index _ _ _ Hi _ _ _ _ _ _ Hn) as Hix.
  pose proof (cv_threads _ _ _ Hi n _ Hn) as Hb. cbn in Hb. unfold sweep_next. set (sh := length (pc_shards pc)) in *.
  assert (forall i', sweep_start pc' o = sweep_start pc o /\ ((sweep_start pc' o + i') mod length (pc_shards pc') = (sweep_start pc o + i') mod sh)%nat) as Hst.
  { intros i'. unfold sweep_start, shard_of. by rewrite (fg_len _ _ Hf). }
  destruct (Nat.ltb_spec (S i) sh) as [Hlt|Hge]; [|destruct blocking].
  - apply (inv_forgets owner pc ts n _ pc' _ Hi Hn Hf); [by intros c []|by intros c []|done|by intros ? ? ? ? ? [= _ _ _ <- _]|].
    cbn. intros (Hc & _ & Ho). destruct Hfreed as [Hfr|Hfr]; [left; rewrite (fg_max _ _ Hf); lia|]. right. split_and!; [|by rewrite (fg_len _ _ Hf)|done].
    intros Hbl i' Hi'. rewrite (proj2 (Hst i')). destruct (decide (i' = i)) as [->|Hne]; [destruct Hfr; [congruence|done]|].
    apply (fg_clock _ _ Hf), Hc; [done|lia].
  - apply (inv_forgets owner pc ts n _ pc' _ Hi Hn Hf); [by intros c []|by intros c []|done|done|].
    cbn. intros (Hc & _ & Ho). left. rewrite (fg_max _ _ Hf). destruct Hfreed as [Hfr|[?|Hfr]]; [lia|done|].
    pose proof (ck_max _ Hp). rewrite (all_covered pc' (sweep_start pc' o)); [lia|apply Hf|apply sweep_start_lt, Hf|].
    rewrite (fg_len _ _ Hf). fold sh. intros i' Hi'. rewrite (proj1 (Hst i')). destruct (decide (i' = i)) as [->|Hne]; [done|].
    apply (fg_clock _ _ Hf), Hc; [done|lia].
  - apply (inv_forgets owner pc ts n _ pc' _ Hi Hn Hf); [by intros c []|by intros c []|done|by intros ? ? ? ? ? [= _ _ _ <- _]|].
    cbn. intros _. right. rewrite (fg_len _ _ Hf). split_and!; [intros _ ? ?; lia|done|done].
Qed.

(** ** Every step keeps it *)

Lemma cache_probe_ok owner pc ts o pc' p : cache_inv owner pc ts -> cache_probe pc o = (pc', p) ->
  forgets pc pc' /\ match p with
    | ProbeReady b => b = content o
    | ProbePending c => pc' = pc /\ owner c = o /\ is_Some (pc_cells pc !! c)
    | ProbeNone => get_slot pc o = None
    end.
Proof.
  intros Hi. pose proof (cv_ok _ _ _ Hi) as Hp. unfold cache_probe. destruct (get_slot pc o) as [[b|c]|] eqn:E; intros [= <- <-].
  - split; [by apply cache_touch_ok|by apply (cv_bodies _ _ _ Hi)].
  - split; [by apply forgets_refl|]. destruct (cv_pending _ _ _ Hi o c E) as [m Hm]. apply (cv_threads _ _ _ Hi) in Hm as (? & ? & _). done.
  - split; [by apply forgets_refl|done].
Qed.

(** Side conditions of threads that neither work on a cell nor sweep. *)
Ltac quiet := try done; try (by intros ? []); try (by intros []).

Lemma thread_step_inv owner reachable pc ts n t pc' t' :
  cache_inv owner pc ts -> ts !! n = Some t -> thread_step content reachable pc t pc' t' ->
  exists owner', cache_inv owner' pc' (<[n := t']> ts).
Proof.
  intros Hi Hn Hs. pose proof (cv_ok _ _ _ Hi) as Hp. pose proof (cv_threads _ _ _ Hi n t Hn) as Ht.
  assert (forall pc' t', forgets pc pc' -> idle_worker t -> idle_worker t' -> thread_ok owner pc' t' -> (forall o b d i e, t' <> Sweeping o b d i e) ->
    (on_the_way pc t -> pc_bytes pc' <= pc_max_bytes pc') -> exists owner', cache_inv owner' pc' (<[n := t']> ts)) as Hq.
  { intros pc1 t1 Hf H1 H2 H3 H4 H5. exists owner. apply (inv_forgets owner pc ts n t); auto. intros o b d i e E. by destruct (H4 o b d i e). }
  destruct Hs as [o r pc' p E|o r pc' p E|o b pc' b' E|o c r pc' p Hc E|w o c b E|w o c E|w o b|o c|o c b|o c|o c|o b bl i E|o b bl i E|o b i over|o b bl i over pc' E|o r pc' b E].
  - destruct (cache_probe_ok owner pc ts o pc' p Hi E) as [Hf Hr]. destruct p; apply Hq; quiet.
    cbn. destruct Hr as (-> & ? & ?). done.
  - destruct (cache_probe_ok owner pc ts o pc' p Hi E) as [Hf Hr]. destruct p; apply Hq; quiet.
  - unfold check_reachable in E. destruct (reachable o); injection E as <- <-; apply Hq; quiet.
    + by apply forgets_refl.
    + apply cache_remove_ok; [done|]. intros c. by apply (pending_cell _ _ _ _ _ Hi).
  - destruct (get_slot pc o) as [sl|] eqn:Eo.
    + assert (cache_probe pc o = (pc', p)) as E' by (unfold fill_begin in E; unfold cache_probe; rewrite Eo in *; by destruct sl).
      destruct (cache_probe_ok owner pc ts o pc' p Hi E') as [Hf Hr]. destruct p; [apply Hq; quiet..|congruence].
      cbn. destruct Hr as (-> & ? & ?). done.
    + pose proof (inv_lead owner pc ts n r o c Hi Hn Eo Hc) as H. rewrite E in H. unfold fill_begin in E. rewrite Eo in E. injection E as <- <-.
      eexists. exact H.
  - apply Hq; quiet; [by apply forgets_refl|]. cbn. destruct Ht as [<- _]. by apply (cv_done _ _ _ Hi).
  - apply Hq; quiet; [by apply forgets_refl|destruct w; quiet..].
  - apply Hq; quiet; [by apply cache_touch_ok|destruct w; quiet..].
  - exists owner. by apply inv_insert.
  - exists owner. destruct Ht as (Ho & Hc & Hb). apply (inv_publish owner pc ts n (Publishing o c b)); quiet.
    + intros b0 [= <-]. by rewrite Ho.
    + intros ? ? ? ? ? [= _ _ _ <- _]. apply (ck_some _ Hp).
    + left. cbn. split_and!; [done|apply (ck_some _ Hp)|done].
  - exists owner. by apply inv_unwind.
  - exists owner. destruct Ht as (Ho & Hc). apply (inv_publish owner pc ts n (Abandoning o c)); quiet. right. by intros [].
  - apply Hq; quiet; [by apply forgets_refl|]. intros _. unfold trim_over in E. lia.
  - exists owner. apply (inv_forgets owner pc ts n _ pc _ Hi Hn (forgets_refl pc Hp)); quiet.
    + intros ? ? ? ? ? [= _ _ _ <- _]. by apply (cv_index _ _ _ Hi _ _ _ _ _ _ Hn).
    + cbn. intros (H1 & H2 & _). right. split_and!; [done|done|]. unfold trim_over. lia.
  - exists owner. apply (sweep_next_ok owner pc ts n o b false i over); auto. by apply forgets_refl.
  - exists owner. destruct (trim_shard_ok pc (sweep_start pc o) i over Hp) as (pc1 & E1 & Hf & Hfr). assert (pc1 = pc') as -> by congruence.
    apply (sweep_next_ok owner pc ts n o b bl i over); auto. tauto.
  - apply Hq; quiet. assert (pc' = (cache_remove pc o).1) as -> by (by rewrite E). apply cache_remove_ok; [done|]. intros c. by apply (pending_cell _ _ _ _ _ Hi).
Qed.

Lemma cache_reachable_inv x0 x : cache_start x0 -> rtc (cache_step content) x0 x -> exists owner, cache_inv owner (sy_cache x) (sy_threads x).
Proof.
  intros (par & max & Hnew & Hts) Hrun. assert (exists owner, cache_inv owner (sy_cache x0) (sy_threads x0)) as [owner Hi].
  { destruct (cache_new_ok _ _ _ Hnew) as (Hok & Hcells & Hslots & Hb). exists (fun _ => 0). rewrite Forall_lookup in Hts. split; try done.
    - intros o c. by rewrite Hslots.
    - intros o c. by rewrite Hslots.
    - intros m t Hm. by rewrite (Hts m t Hm).
    - intros m m' t t' c Hm _ Hw. by rewrite (Hts m t Hm) in Hw.
    - intros c b. unfold get_cell. by rewrite Hcells.
    - intros c fc. by rewrite Hcells.
    - by left.
    - intros m o b bl i at_ Hm. by specialize (Hts _ _ Hm). }
  clear Hnew Hts. revert owner Hi. induction Hrun as [x|x y z Hs _ IH]; intros owner Hi; [by exists owner|].
  destruct Hs as [n t pc t' Hn Ht|reach _]; [|by apply (IH owner)].
  destruct (thread_step_inv owner _ _ _ _ _ _ _ Hi Hn Ht) as [owner' Hi']. by apply (IH owner').
Qed.

(** ** What every reachable state has *)

(** C5. The cache serves frames and nothing else.  Whatever the threads that
    probe, fill, remove and evict do and however they interleave, with fills that
    fail and frames that are reclaimed, every body a thread was given and every
    resident body is the content of the frame at its offset; the ring of a shard
    lists its resident bodies, each once; and the two counters are exact. *)
Theorem position_cache_coherent x0 x : cache_start x0 -> rtc (cache_step content) x0 x ->
  let pc := sy_cache x in
  (forall m r, sy_threads x !! m = Some (AtRest (Some r)) -> result_ok r) /\
  (forall o c, get_slot pc o = Some (SlotReady c) -> cd_body c = content o) /\
  (forall j s, pc_shards pc !! j = Some s -> NoDup (sd_clock s) /\ forall o, o ∈ sd_clock s <-> exists c, sd_slots s !! o = Some (SlotReady c)) /\
  pc_bytes pc = zsum (List.map shard_bytes (pc_shards pc)) /\ pc_occupied pc = zsum (List.map shard_size (pc_shards pc)).
Proof.
  intros H0 Hr. destruct (cache_reachable_inv x0 x H0 Hr) as [owner Hi]. cbv zeta. pose proof (cv_ok _ _ _ Hi) as Hp. split_and!.
  - intros m r Hm. by apply (cv_threads _ _ _ Hi) in Hm.
  - apply (cv_bodies _ _ _ Hi).
  - intros j s Hs. apply (ck_shards _ Hp) in Hs as [H1 H2 _]. done.
  - apply Hp.
  - apply Hp.
Qed.

(** A thread that is not between adding a body and the end of its sweep. *)
Definition settled (t : Thread) : Prop := match t with Publishing _ _ _ | Sweeping _ _ _ _ _ => False | _ => True end.

(** C35. The byte budget is kept.  When no fill is between adding its body and
    the end of its sweep, the resident bodies fit the budget, although the sweeps
    of concurrent fills load the excess without a lock, skip shards they cannot
    lock at once, and overtake each other. *)
Theorem position_cache_within_budget x0 x : cache_start x0 -> rtc (cache_step content) x0 x ->
  (forall m t, sy_threads x !! m = Some t -> settled t) -> pc_bytes (sy_cache x) <= pc_max_bytes (sy_cache x).
Proof.
  intros H0 Hr Hs. destruct (cache_reachable_inv x0 x H0 Hr) as [owner Hi].
  destruct (cv_budget _ _ _ Hi) as [|(m & t & Hm & Hw)]; [done|]. specialize (Hs m t Hm). by destruct t.
Qed.

Lemma worker_steps owner pc ts reachable m t c : cache_inv owner pc ts -> ts !! m = Some t -> works_on t c ->
  exists pc' t', thread_step content reachable pc t pc' t'.
Proof. intros Hi Hm Hw. destruct t; try done; eexists _, _; constructor. Qed.

(** C36. No thread is stuck.  Every thread of a reachable state can take a step,
    sweeps included, which never meet a ring entry without its body; or it waits
    for a fill that another thread is running, and that thread can take a step. *)
Theorem position_cache_progress x0 x m t : cache_start x0 -> rtc (cache_step content) x0 x -> sy_threads x !! m = Some t ->
  let steps t := exists pc' t', thread_step content (sy_reachable x) (sy_cache x) t pc' t' in
  steps t \/ exists w o c m' t', t = Waiting w o c /\ sy_threads x !! m' = Some t' /\ works_on t' c /\ steps t'.
Proof.
  intros H0 Hr Hm steps. destruct (cache_reachable_inv x0 x H0 Hr) as [owner Hi]. pose proof (cv_threads _ _ _ Hi m t Hm) as Ht.
  destruct t as [r|o b|w o c|w o b|o c|o c b|o c|o b bl i [|over]]; try (left; by apply (worker_steps owner _ _ _ m _ c Hi Hm)).
  - left. destruct (cache_remove (sy_cache x) 0) as [pc' d] eqn:E. eexists _, _. exact (step_remove content _ _ 0 r pc' d E).
  - left. destruct (check_reachable (sy_reachable x) (sy_cache x) o b) eqn:E. eexists _, _. by constructor.
  - destruct Ht as [_ [fc Hc]]. destruct (fc_state fc) as [|b|] eqn:Ef.
    + right. destruct (cv_worked _ _ _ Hi c fc Hc Ef) as (m' & t' & Hm' & Hw). exists w, o, c, m', t'. split_and!; try done.
      by apply (worker_steps owner _ _ _ m' _ c Hi Hm').
    + left. eexists _, _. apply (step_wake _ _ _ w o c b). unfold get_cell. by rewrite Hc.
    + left. eexists _, _. apply (step_wake_failed _ _ _ w o c). unfold get_cell. by rewrite Hc.
  - left. eexists _, _. constructor.
  - left. destruct (decide (trim_over (sy_cache x) = 0)); eexists _, _; [by apply step_within|by apply step_over].
  - left. destruct (trim_shard_ok (sy_cache x) (sweep_start (sy_cache x) o) i over (cv_ok _ _ _ Hi)) as (pc' & E & _). eexists _, _. by apply step_sweep.
Qed.
End system.

(** ** A run *)

(** Two readers of one frame: the first leads the fill, the second waits. *)
Definition cache_demo_content (o : Z) : list Z := [o; o + 1].

Definition pc0 : PositionCache := mkPositionCache (replicate 8 (mkCacheShard ∅ [])) 3 0 0 ∅.
Definition pc1 : PositionCache := (fill_begin pc0 64 0).1.
Definition pc2 : PositionCache := lead_insert pc1 64 0 (cache_demo_content 64).
Definition pc3 : PositionCache := cell_publish pc2 0 (FillDone (cache_demo_content 64)).

Definition cache_demo_start : CacheSys := mkCacheSys pc0 (fun _ => true) [AtRest None; AtRest None].
Definition cache_demo_waiting : CacheSys := mkCacheSys pc1 (fun _ => true) [Leading 64 0; Waiting WaitFill 64 0].
Definition cache_demo_filled : CacheSys := mkCacheSys (cache_touch pc3 64) (fun _ => true)
  [AtRest (Some (ResultFill 64 (OutcomeFilled (cache_demo_content 64)))); AtRest (Some (ResultFill 64 (OutcomeHit (cache_demo_content 64))))].

Lemma cache_demo_start_ok : cache_start cache_demo_start.
Proof. exists (Some 4), 3. split; [reflexivity|]. by repeat constructor. Qed.

Lemma run_thread x n t pc t' z : sy_threads x !! n = Some t -> thread_step cache_demo_content (sy_reachable x) (sy_cache x) t pc t' ->
  rtc (cache_step cache_demo_content) (mkCacheSys pc (sy_reachable x) (<[n := t']> (sy_threads x))) z -> rtc (cache_step cache_demo_content) x z.
Proof. intros Hn Hs Hr. eapply rtc_l; [by eapply cache_thread|done]. Qed.

Lemma cache_demo_run : rtc (cache_step cache_demo_content) cache_demo_start cache_demo_waiting /\ rtc (cache_step cache_demo_content) cache_demo_waiting cache_demo_filled.
Proof.
  split.
  - apply (run_thread _ 0 (AtRest None) pc1 (Leading 64 0)); [reflexivity|exact (step_fill cache_demo_content _ pc0 64 0 None pc1 ProbeNone eq_refl eq_refl)|].
    apply (run_thread _ 1 (AtRest None) pc1 (Waiting WaitFill 64 0)); [reflexivity| |apply rtc_refl].
    exact (step_fill cache_demo_content _ pc1 64 1 None pc1 (ProbePending 0) eq_refl eq_refl).
  - apply (run_thread _ 0 (Leading 64 0) pc2 (Publishing 64 0 (cache_demo_content 64))); [reflexivity|apply step_lead|].
    apply (run_thread _ 0 (Publishing 64 0 (cache_demo_content 64)) pc3 (Sweeping 64 (cache_demo_content 64) false 0 SweepLoad)); [reflexivity|apply step_publish|].
    apply (run_thread _ 1 (Waiting WaitFill 64 0) pc3 (Touching WaitFill 64 (cache_demo_content 64))); [reflexivity| |].
    { apply step_wake. reflexivity. }
    apply (run_thread _ 0 (Sweeping 64 (cache_demo_content 64) false 0 SweepLoad) pc3 (AtRest (Some (ResultFill 64 (OutcomeFilled (cache_demo_content 64)))))); [reflexivity| |].
    { apply step_within. reflexivity. }
    apply (run_thread _ 1 (Touching WaitFill 64 (cache_demo_content 64)) (cache_touch pc3 64) (waited WaitFill 64 (cache_demo_content 64))); [reflexivity|apply step_touch|].
    apply rtc_refl.
Qed.

Lemma position_cache_coherent_witness :
  let pc := sy_cache cache_demo_filled in
  (forall m r, sy_threads cache_demo_filled !! m = Some (AtRest (Some r)) -> result_ok cache_demo_content r) /\
  (forall o c, get_slot pc o = Some (SlotReady c) -> cd_body c = cache_demo_content o) /\
  (forall j s, pc_shards pc !! j = Some s -> NoDup (sd_clock s) /\ forall o, o ∈ sd_clock s <-> exists c, sd_slots s !! o = Some (SlotReady c)) /\
  pc_bytes pc = zsum (List.map shard_bytes (pc_shards pc)) /\ pc_occupied pc = zsum (List.map shard_size (pc_shards pc)).
Proof.
  apply (position_cache_coherent cache_demo_content cache_demo_start cache_demo_filled cache_demo_start_ok).
  exact (rtc_trans _ _ _ (proj1 cache_demo_run) (proj2 cache_demo_run)).
Defined.

Lemma position_cache_within_budget_witness : pc_bytes (sy_cache cache_demo_filled) <= pc_max_bytes (sy_cache cache_demo_filled).
Proof.
  apply (position_cache_within_budget cache_demo_content cache_demo_start cache_demo_filled cache_demo_start_ok).
  - exact (rtc_trans _ _ _ (proj1 cache_demo_run) (proj2 cache_demo_run)).
  - intros [|[|m]] t; [intros [= <-]; exact I|intros [= <-]; exact I|done].
Defined.

Lemma position_cache_progress_witness :
  let steps t := exists pc' t', thread_step cache_demo_content (sy_reachable cache_demo_waiting) (sy_cache cache_demo_waiting) t pc' t' in
  steps (Waiting WaitFill 64 0) \/
  exists w o c m' t', Waiting WaitFill 64 0 = Waiting w o c /\ sy_threads cache_demo_waiting !! m' = Some t' /\ works_on t' c /\ steps t'.
Proof.
  apply (position_cache_progress cache_demo_content cache_demo_start cache_demo_waiting 1 (Waiting WaitFill 64 0) cache_demo_start_ok (proj1 cache_demo_run)).
  reflexivity.
Defined.
