(* ===== verification/IndexBlobCache.v ===== *)
(** * The index blob cache

    [src/tidehunter/src/index_blob_cache.rs] and its users in
    [src/tidehunter/src/db.rs]: whole index blobs kept by their position in a
    [PositionCache], filled by the first lookup that reads a blob with system
    calls, bypassed for positions no cell references any more.

    [get_or_fill] here is the run of one caller with no other thread in between;
    what concurrent callers may do to each other is the subject of
    [PositionCacheFacts]. *)

From Stdlib Require Import ZArith Lia List.
From stdpp Require Import base tactics list gmap strings.
From S2P Require Import Prelude Bytes Position PositionCache PositionCacheFacts.

Local Open Scope Z_scope.

(** ** A fill with nothing in between *)

(** One pass of [trim] over the shards left. *)
Fixpoint trim_pass (pc : PositionCache) (start i todo : nat) : outcome PositionCache :=
  match todo with
  | O => Ok pc
  | S todo =>
      let over := trim_over pc in
      if over =? 0 then Ok pc else pc ← trim_shard pc start i over; trim_pass pc start (S i) todo
  end.

(** [PositionCache::trim], all locks free: the first pass takes every shard. *)
Definition trim (pc : PositionCache) (start : nat) : outcome PositionCache :=
  pc ← trim_pass pc start 0 (length (pc_shards pc));
  trim_pass pc start 0 (length (pc_shards pc)).

(** [PositionCache::lead_fill]; the fill may itself use the cache. *)
Definition lead_fill {A} (pc : PositionCache) (a : A) (offset : Z) (cell : nat) (fill : PositionCache -> A -> outcome (PositionCache * A * list Z)) :
    outcome (PositionCache * A * list Z) :=
  '(pc, a, body) ← fill pc a;
  let pc := cell_publish (lead_insert pc offset cell body) cell (FillDone body) in
  pc ← trim pc (sweep_start pc offset);
  Ok (pc, a, body).

(** [PositionCache::get_or_fill]; [cell] names the new fill cell. *)
Definition get_or_fill {A} (pc : PositionCache) (a : A) (offset : Z) (cell : nat) (fill : PositionCache -> A -> outcome (PositionCache * A * list Z)) :
    outcome (PositionCache * A * CacheOutcome) :=
  match fill_begin pc offset cell with
  | (pc, ProbeReady body) => Ok (pc, a, OutcomeHit body)
  | (pc, ProbePending _) => Panic "waits for another thread"
  | (pc, ProbeNone) => '(pc, a, body) ← lead_fill pc a offset cell fill; Ok (pc, a, OutcomeFilled body)
  end.

(** [PositionCache::peek] *)
Definition cache_peek (reachable : Z -> bool) (pc : PositionCache) (offset : Z) : PositionCache * option (list Z) :=
  match cache_probe pc offset with
  | (pc, ProbeReady body) => check_reachable reachable pc offset body
  | (pc, _) => (pc, None)
  end.

(** ** Retired positions *)

Definition RETIRED_POSITIONS : nat := 4096.

Record RetiredPositions := mkRetired { rt_order : list Z; rt_set : gset Z }.

Definition retired_insert (r : RetiredPositions) (offset : Z) : RetiredPositions :=
  if bool_decide (offset ∈ rt_set r) then r
  else
    let order := rt_order r ++ [offset] in
    let set := {[offset]} ∪ rt_set r in
    if (RETIRED_POSITIONS <? length order)%nat then
      match order with
      | oldest :: order => mkRetired order (set ∖ {[oldest]})
      | [] => mkRetired order set
      end
    else mkRetired order set.

Definition retired_contains (r : RetiredPositions) (offset : Z) : bool := bool_decide (offset ∈ rt_set r).

(** ** The cache *)

Record IndexBlobCache := mkBlobCache {
  bc_cache : PositionCache;
  bc_min_bytes : Z;
  bc_retired : RetiredPositions;
}.

(** The result of reading and checking a whole frame; [None] is an error. *)
Definition FrameRead : Type := Z -> option (option (list Z)).

Definition blob_peek (reachable : Z -> bool) (c : IndexBlobCache) (offset : Z) : IndexBlobCache * option (list Z) :=
  if cache_is_empty (bc_cache c) then (c, None)
  else let '(pc, blob) := cache_peek reachable (bc_cache c) offset in (mkBlobCache pc (bc_min_bytes c) (bc_retired c), blob).

Definition admit_blob (c : IndexBlobCache) (blob_len : Z) : bool :=
  if (blob_len =? 0) || (blob_len <? bc_min_bytes c) then false
  else if pc_max_bytes (bc_cache c) <? blob_len then false
  else true.

Definition blob_remove (c : IndexBlobCache) (offset : Z) : IndexBlobCache :=
  let c := mkBlobCache (bc_cache c) (bc_min_bytes c) (retired_insert (bc_retired c) offset) in
  if cache_is_empty (bc_cache c) then c
  else mkBlobCache (cache_remove (bc_cache c) offset).1 (bc_min_bytes c) (bc_retired c).

(** [Db::retire_index_blobs] *)
Definition retire_index_blobs (c : IndexBlobCache) (dropped : list WalPosition) : IndexBlobCache :=
  fold_left (fun c position => blob_remove c (wp_offset position)) dropped c.

(** A file reader is the bytes of its range; reads are checked against it. *)
Definition file_range_read (file : list Z) (start end_ : nat) : outcome (list Z) :=
  _ ← assert_that ((start <? length file) && (end_ <=? length file))%nat "Trying to read range";
  Ok (take (end_ - start) (drop start file)).

Definition BLOB_PREFIX_SIZE : nat := 2.

Section fill.
Context (read_frame : FrameRead).

Definition read_blob (c : IndexBlobCache) (offset : Z) (file : list Z) : outcome (IndexBlobCache * list Z) :=
  match read_frame offset with
  | Some (Some payload) =>
      blob ← slice_from payload BLOB_PREFIX_SIZE;
      _ ← assert_that (length file =? length blob)%nat "index blob: frame payload does not match the reader";
      Ok (c, blob)
  | _ =>
      let c := blob_remove c offset in
      bytes ← file_range_read file 0 (length file);
      Ok (c, bytes)
  end.

Inductive Resolved :=
| Led (blob : list Z)
| Joined (blob : list Z)
| Bypassed.

(** The fill closure: the parts of the cache beside [bc_cache] are its own. *)
Definition blob_fill (offset : Z) (file : list Z) (pc : PositionCache) (rest : Z * RetiredPositions) :
    outcome (PositionCache * (Z * RetiredPositions) * list Z) :=
  '(c, blob) ← read_blob (mkBlobCache pc rest.1 rest.2) offset file;
  Ok (bc_cache c, (bc_min_bytes c, bc_retired c), blob).

(** [IndexBlobCache::resolve], no leader failing in between. *)
Definition blob_resolve (c : IndexBlobCache) (cell : nat) (offset : Z) (file : list Z) : outcome (IndexBlobCache * Resolved) :=
  if retired_contains (bc_retired c) offset then Ok (c, Bypassed)
  else
    '(pc, rest, r) ← get_or_fill (bc_cache c) (bc_min_bytes c, bc_retired c) offset cell (blob_fill offset file);
    let c := mkBlobCache pc rest.1 rest.2 in
    match r with
    | OutcomeHit blob => Ok (c, Joined blob)
    | OutcomeFilled blob => Ok (c, Led blob)
    | OutcomeRetryRead => Panic "no other leader"
    end.
End fill.

Record IndexBlobFill := mkBlobFill { bf_offset : Z; bf_file : list Z; bf_resolved : option Resolved }.

Definition lazy_reader (offset : Z) (file : list Z) : IndexBlobFill := mkBlobFill offset file None.

(** [IndexBlobFill::read]: the blob is resolved on first use. *)
Definition fill_read (read_frame : FrameRead) (c : IndexBlobCache) (cell : nat) (f : IndexBlobFill) (start end_ : nat) :
    outcome (IndexBlobCache * IndexBlobFill * list Z) :=
  '(c, resolved) ← (match bf_resolved f with
                    | Some r => Ok (c, r)
                    | None => blob_resolve read_frame c cell (bf_offset f) (bf_file f)
                    end);
  let f := mkBlobFill (bf_offset f) (bf_file f) (Some resolved) in
  bytes ← (match resolved with
           | Led blob | Joined blob => slice blob start end_
           | Bypassed => file_range_read (bf_file f) start end_
           end);
  Ok (c, f, bytes).

Definition fill_len (f : IndexBlobFill) : nat := length (bf_file f).

Inductive ReadType := ReadMapped | ReadSyscall | ReadCached.

Definition fill_read_type (f : IndexBlobFill) : ReadType :=
  match bf_resolved f with
  | Some (Led _) | Some Bypassed => ReadSyscall
  | Some (Joined _) | None => ReadCached
  end.

(** [WalRandomRead], as [Db::index_reader] hands it out. *)
Inductive WalRandomRead :=
| RandomMapped (bytes : list Z)
| RandomFile (file : list Z)
| RandomCached (blob : list Z)
| RandomCachedFill (f : IndexBlobFill).

(** [Db::index_reader]; [plain] is what [Wal::random_reader_at] opens. *)
Definition cached_index_reader (reachable : Z -> bool) (c : option IndexBlobCache) (offset : Z) (plain : WalRandomRead) :
    option IndexBlobCache * WalRandomRead :=
  match c with
  | None => (None, plain)
  | Some c =>
      match blob_peek reachable c offset with
      | (c, Some blob) => (Some c, RandomCached blob)
      | (c, None) =>
          (Some c,
           match plain with
           | RandomFile file => if admit_blob c (body_len file) then RandomCachedFill (lazy_reader offset file) else RandomFile file
           | reader => reader
           end)
      end
  end.

(** [Db::index_scan_reader]: a resident blob is used, none is admitted. *)
Definition cached_scan_reader (reachable : Z -> bool) (c : option IndexBlobCache) (offset : Z) (plain : WalRandomRead) :
    option IndexBlobCache * WalRandomRead :=
  match c with
  | None => (None, plain)
  | Some c => match blob_peek reachable c offset with
              | (c, Some blob) => (Some c, RandomCached blob)
              | (c, None) => (Some c, plain)
              end
  end.

(** [WalRandomRead::read] *)
Definition wal_random_read (read_frame : FrameRead) (c : option IndexBlobCache) (cell : nat) (r : WalRandomRead) (start end_ : nat) :
    outcome (option IndexBlobCache * WalRandomRead * list Z) :=
  match r with
  | RandomMapped bytes | RandomCached bytes => b ← slice bytes start end_; Ok (c, r, b)
  | RandomFile file => b ← file_range_read file start end_; Ok (c, r, b)
  | RandomCachedFill f =>
      c ← expect c "the cache a lazy reader holds";
      '(c, f, b) ← fill_read read_frame c cell f start end_;
      Ok (Some c, RandomCachedFill f, b)
  end.

(** ** Facts *)

(** *** The retired set *)

Record retired_ok (r : RetiredPositions) : Prop := mkRetiredOk {
  rt_same : forall o, o ∈ rt_order r <-> o ∈ rt_set r;
  rt_nodup : NoDup (rt_order r);
  rt_bound : (length (rt_order r) <= RETIRED_POSITIONS)%nat;
}.

Lemma retired_insert_ok r o : retired_ok r -> retired_ok (retired_insert r o) /\ retired_contains (retired_insert r o) o = true.
Proof.
  intros [Hs Hn Hb]. unfold retired_insert, retired_contains. destruct (decide (o ∈ rt_set r)) as [Hin|Hout].
  { rewrite !bool_decide_eq_true_2 by done. done. }
  rewrite (bool_decide_eq_false_2 (o ∈ rt_set r)) by done.
  assert (NoDup (rt_order r ++ [o])) as Hn'.
  { apply NoDup_app. split_and!; [done| |apply NoDup_singleton]. intros x Hx ->%list_elem_of_singleton. by apply Hout, Hs. }
  destruct (Nat.ltb_spec RETIRED_POSITIONS (length (rt_order r ++ [o]))) as [Hlt|Hle].
  - destruct (rt_order r) as [|x order] eqn:E; rewrite ?E in *; cbn [app] in *; [unfold RETIRED_POSITIONS in Hlt; cbn in Hlt; lia|].
    apply NoDup_cons in Hn' as [Hx Hn']. cbn [length] in Hb. split.
    + split; cbn [rt_order rt_set]; [|done|rewrite length_app; cbn [length]; lia]. intros y. specialize (Hs y). rewrite elem_of_cons in Hs. rewrite elem_of_app, list_elem_of_singleton in *.
      rewrite elem_of_difference, elem_of_union, !elem_of_singleton. split.
      * intros Hy. split; [naive_solver|]. by intros ->.
      * naive_solver.
    + apply bool_decide_eq_true_2. apply elem_of_difference. rewrite elem_of_union, !elem_of_singleton. split; [by left|]. intros ->. apply Hx, elem_of_app. right. by apply list_elem_of_singleton.
  - split; [|apply bool_decide_eq_true_2; cbn; set_solver]. split; cbn [rt_order rt_set]; [|done|done]. intros y. rewrite elem_of_app, list_elem_of_singleton, Hs. set_solver.
Qed.

(** *** Serving blobs *)

Section facts.
(** The bytes of the blob at an offset. *)
Context (files : Z -> list Z).
Notation inv := (cache_inv files).

(** Between calls nothing is in flight: two threads at rest, the second for the
    removals a fill makes. *)
Definition quiet_cache (pc : PositionCache) : Prop := exists owner, inv owner pc [AtRest None; AtRest None].

Record blob_cache_ok (c : IndexBlobCache) : Prop := mkBlobCacheOk {
  bo_cache : quiet_cache (bc_cache c);
  bo_retired : retired_ok (bc_retired c);
}.

Lemma rest_again owner pc r t : inv owner pc [AtRest r; t] -> inv owner pc [AtRest None; t].
Proof.
  intros Hi. apply (inv_forgets files owner pc [AtRest r; t] 0 (AtRest r) pc (AtRest None) Hi eq_refl (forgets_refl pc (cv_ok _ _ _ _ Hi))); try done; by intros ? [].
Qed.

Lemma step_first owner pc t u reachable pc' t' : inv owner pc [t; u] -> thread_step files reachable pc t pc' t' -> exists owner', inv owner' pc' [t'; u].
Proof. intros Hi Hs. exact (thread_step_inv files owner reachable pc _ 0 t pc' t' Hi eq_refl Hs). Qed.

Lemma step_second owner pc t u reachable pc' u' : inv owner pc [t; u] -> thread_step files reachable pc u pc' u' -> exists owner', inv owner' pc' [t; u'].
Proof. intros Hi Hs. exact (thread_step_inv files owner reachable pc _ 1 u pc' u' Hi eq_refl Hs). Qed.

Lemma quiet_no_pending pc o c : quiet_cache pc -> get_slot pc o <> Some (SlotPending c).
Proof. intros [owner Hi] Hs. destruct (cv_pending _ _ _ _ Hi o c Hs) as [[|[|m]] Hm]; done. Qed.

Lemma trim_shard_len pc start i over pc' : trim_shard pc start i over = Ok pc' -> length (pc_shards pc') = length (pc_shards pc).
Proof. unfold trim_shard. intros H. inv_ok H; apply length_insert. Qed.

(** A pass follows the steps of a sweeping thread. *)
Lemma trim_pass_ok todo pc o b bl i u owner :
  inv owner pc [Sweeping o b bl i SweepLoad; u] -> (i + todo = length (pc_shards pc))%nat -> (0 < todo)%nat ->
  exists pc' owner', trim_pass pc (sweep_start pc o) i todo = Ok pc' /\ length (pc_shards pc') = length (pc_shards pc) /\
    (forall x, slot_kept (get_slot pc x) (get_slot pc' x)) /\
    (inv owner' pc' [AtRest None; u] \/ bl = false /\ inv owner' pc' [Sweeping o b true 0 SweepLoad; u]).
Proof.
  revert pc i owner. induction todo as [|todo IH]; intros pc i owner Hi Hl Hp; [lia|]. cbn [trim_pass].
  destruct (Z.eqb_spec (trim_over pc) 0) as [E|E].
  { destruct (step_first _ _ _ _ (fun _ => true) _ _ Hi (step_within _ _ _ o b bl i E)) as [ow Hi']. exists pc, ow. split_and!; [done|done|intros; apply slot_kept_refl|left]. by eapply rest_again. }
  destruct (step_first _ _ _ _ (fun _ => true) _ _ Hi (step_over _ _ _ o b bl i E)) as [ow Hi'].
  destruct (trim_shard_ok pc (sweep_start pc o) i (trim_over pc) (cv_ok _ _ _ _ Hi)) as (pc1 & E1 & Hf1 & _). rewrite E1. cbn [mbind outcome_bind].
  destruct (step_first _ _ _ _ (fun _ => true) _ _ Hi' (step_sweep _ _ _ o b bl i _ _ E1)) as [ow1 Hi1].
  pose proof (trim_shard_len _ _ _ _ _ E1) as Hlen. assert (sweep_start pc1 o = sweep_start pc o) as Hst by (unfold sweep_start, shard_of; by rewrite Hlen).
  unfold sweep_next in Hi1. destruct todo as [|todo].
  - assert ((S i <? length (pc_shards pc)) = false)%nat as En by (apply Nat.ltb_ge; lia). rewrite En in Hi1. cbn [trim_pass].
    exists pc1, ow1. split_and!; [done|done|apply Hf1|]. destruct bl; [left; by eapply rest_again|by right].
  - assert ((S i <? length (pc_shards pc)) = true)%nat as En by (apply Nat.ltb_lt; lia). rewrite En in Hi1.
    destruct (IH pc1 (S i) ow1 Hi1 ltac:(lia) ltac:(lia)) as (pc' & ow' & E' & Hl' & Hk' & Hr). rewrite <- Hst. exists pc', ow'.
    split_and!; [done|congruence|intros x; eapply slot_kept_trans; [apply Hf1|apply Hk']|done].
Qed.

Lemma trim_ok pc o b owner : inv owner pc [Sweeping o b false 0 SweepLoad; AtRest None] ->
  exists pc', trim pc (sweep_start pc o) = Ok pc' /\ quiet_cache pc' /\ forall x, slot_kept (get_slot pc x) (get_slot pc' x).
Proof.
  intros Hi. pose proof (ck_some _ (cv_ok _ _ _ _ Hi)) as Hn.
  destruct (trim_pass_ok (length (pc_shards pc)) pc o b false 0 _ owner Hi ltac:(lia) Hn) as (pc1 & ow1 & E1 & Hl1 & Hk1 & Hr).
  unfold trim. rewrite E1. cbn [mbind outcome_bind]. assert (sweep_start pc1 o = sweep_start pc o) as Hst by (unfold sweep_start, shard_of; by rewrite Hl1).
  rewrite <- Hst. destruct Hr as [Hi1|[_ Hi1]].
  - assert (trim_over pc1 = 0) as E.
    { unfold trim_over. destruct (cv_budget _ _ _ _ Hi1) as [|([|[|m]] & t & Hm & Hw)]; [lia| | |done]; injection Hm as <-; by destruct Hw. }
    exists pc1. split_and!; [|by exists ow1|done]. destruct (length (pc_shards pc1)); [done|]. cbn [trim_pass]. by rewrite E.
  - destruct (trim_pass_ok (length (pc_shards pc1)) pc1 o b true 0 _ ow1 Hi1 ltac:(lia) ltac:(lia)) as (pc2 & ow2 & E2 & _ & Hk2 & [Hi2|[? _]]); [|done].
    exists pc2. split_and!; [done|by exists ow2|]. intros x. eapply slot_kept_trans; [apply Hk1|apply Hk2].
Qed.

Lemma occupied_slot pc o sl : cache_ok pc -> get_slot pc o = Some sl -> cache_is_empty pc = false.
Proof.
  intros Hp Hs. apply Z.eqb_neq. rewrite (ck_occupied _ Hp). pose proof (shard_of_lt pc o Hp) as Hj.
  pose proof (get_shard_lookup pc _ Hj) as Hl. unfold get_slot in Hs. set (s := get_shard pc (shard_of pc o)) in *.
  assert (1 <= shard_size s) as Hz.
  { unfold shard_size. pose proof (map_size_ne_0_lookup_2 (sd_slots s) o ltac:(by eexists)). lia. }
  apply list_elem_of_lookup_2 in Hl.
  apply list_elem_of_split in Hl as (l1 & l2 & ->). rewrite map_app, zsum_app. cbn [List.map]. rewrite zsum_cons.
  assert (forall l, 0 <= zsum (List.map shard_size l)) as Hnn by (intros l; apply zsum_nonneg, Forall_map, Forall_forall; intros; unfold shard_size; lia).
  pose proof (Hnn l1). pose proof (Hnn l2). lia.
Qed.

Lemma blob_peek_ok reachable c o c' r : blob_cache_ok c -> blob_peek reachable c o = (c', r) ->
  blob_cache_ok c' /\ bc_min_bytes c' = bc_min_bytes c /\ bc_retired c' = bc_retired c /\ (forall b, r = Some b -> b = files o).
Proof.
  intros [[ow Hi] Hr] E. unfold blob_peek in E. destruct (cache_is_empty _); [injection E as <- <-; by split_and!; [split; [by exists ow|]|..]|].
  unfold cache_peek in E. destruct (cache_probe (bc_cache c) o) as [pc p] eqn:Ep.
  destruct (step_first _ _ _ _ reachable _ _ Hi (step_peek _ _ _ o None pc p Ep)) as [ow1 Hi1]. destruct p as [b|cell|].
  - destruct (check_reachable reachable pc o b) as [pc' r'] eqn:Ec. injection E as <- <-.
    destruct (step_first _ _ _ _ reachable _ _ Hi1 (step_check _ _ _ o b pc' r' Ec)) as [ow2 Hi2]. split_and!; try done.
    + split; [|done]. exists ow2. by eapply rest_again.
    + intros b' ->. by apply (cv_threads _ _ _ _ Hi2 0%nat (AtRest (Some (ResultGet o (Some b')))) eq_refl).
  - injection E as <- <-. split_and!; try done. split; [|done]. exists ow1. by eapply rest_again.
  - injection E as <- <-. split_and!; try done. split; [|done]. exists ow1. by eapply rest_again.
Qed.

Lemma blob_remove_ok c o : blob_cache_ok c -> blob_cache_ok (blob_remove c o) /\ retired_contains (bc_retired (blob_remove c o)) o = true.
Proof.
  intros [[ow Hi] Hr]. destruct (retired_insert_ok (bc_retired c) o Hr) as [Hr' Hc]. unfold blob_remove. cbn [bc_cache bc_retired bc_min_bytes].
  destruct (cache_is_empty (bc_cache c)); [split; [by split; [exists ow|]|done]|]. cbn. split; [|done]. split; [|done]. cbn.
  destruct (cache_remove (bc_cache c) o) as [pc b] eqn:E. destruct (step_first _ _ _ _ (fun _ => true) _ _ Hi (step_remove _ _ _ o None pc b E)) as [ow1 Hi1].
  by exists ow1.
Qed.

(** *** Fills *)

(** What reading whole frames gives is the payload the file readers range
    over. *)
Context (read_frame : FrameRead).
Context (frames_match : forall o payload, read_frame o = Some (Some payload) -> slice_from payload BLOB_PREFIX_SIZE = Ok (files o)).

Definition validates (o : Z) : Prop := exists payload, read_frame o = Some (Some payload).

(** The leader's fill: the blob, and when the frame does not validate, the mark
    that keeps the cell from being retained. *)
Lemma blob_fill_ok owner pc rest o cell : inv owner pc [Leading o cell; AtRest None] -> retired_ok rest.2 -> files o <> [] ->
  exists pc' rest' owner', blob_fill read_frame o (files o) pc rest = Ok (pc', rest', files o) /\ inv owner' pc' [Leading o cell; AtRest None] /\
    retired_ok rest'.2 /\
    (~ validates o -> fc_retired (get_cell pc' cell) = true /\ retired_contains rest'.2 o = true).
Proof.
  intros Hi Hr Hne. unfold blob_fill, read_blob. destruct (read_frame o) as [[payload|]|] eqn:E.
  { rewrite (frames_match o payload E). cbn [mbind outcome_bind]. unfold assert_that. rewrite Nat.eqb_refl. cbn [mbind outcome_bind bc_cache bc_min_bytes bc_retired].
    exists pc, rest, owner. split_and!; [by destruct rest|done|done|]. intros Hn. destruct Hn. by exists payload. }
  all: assert (file_range_read (files o) 0 (length (files o)) = Ok (files o)) as ->
    by (unfold file_range_read, assert_that; destruct (files o) as [|x l] eqn:Ef; [done|]; rewrite <- Ef; cbn [mbind outcome_bind];
        assert ((0 <? length (files o))%nat = true) as -> by (rewrite Ef; done); rewrite Nat.leb_refl; cbn [andb mbind outcome_bind];
        rewrite Nat.sub_0_r, drop_0, firstn_all; done).
  all: cbn [mbind outcome_bind]; unfold blob_remove; cbn [bc_cache bc_retired bc_min_bytes].
  all: pose proof (cv_threads _ _ _ _ Hi 0%nat _ eq_refl) as (_ & _ & Hs & _); rewrite (occupied_slot pc o _ (cv_ok _ _ _ _ Hi) Hs).
  all: destruct (retired_insert_ok rest.2 o Hr) as [Hr' Hc]; cbn [bc_cache bc_retired bc_min_bytes].
  all: destruct (cache_remove pc o) as [pc' b] eqn:Er; destruct (step_second _ _ _ _ (fun _ => true) _ _ Hi (step_remove _ _ _ o None pc' b Er)) as [ow1 Hi1].
  all: eexists pc', _, ow1; split_and!; [reflexivity|done|done|]; intros _; split; [|done].
  all: unfold cache_remove in Er; unfold get_slot in Hs; rewrite Hs in Er; injection Er as <- _; unfold get_cell; cbn; by rewrite lookup_insert_eq.
Qed.

Lemma blob_resolve_ok c cell o :
  blob_cache_ok c -> pc_cells (bc_cache c) !! cell = None -> files o <> [] ->
  exists c' r, blob_resolve read_frame c cell o (files o) = Ok (c', r) /\ blob_cache_ok c' /\
    match r with Led b => b = files o | Joined b => b = files o | Bypassed => retired_contains (bc_retired c) o = true end /\
    (r = Led (files o) -> ~ validates o -> get_slot (bc_cache c') o = None /\ retired_contains (bc_retired c') o = true).
Proof.
  intros Hc Hcell Hne. pose proof Hc as [[ow Hi] Hr]. unfold blob_resolve. destruct (retired_contains (bc_retired c) o) eqn:Er.
  { exists c, Bypassed. split_and!; done. }
  unfold get_or_fill. destruct (fill_begin (bc_cache c) o cell) as [pc1 p] eqn:Ef.
  destruct (step_first _ _ _ _ (fun _ => true) _ _ Hi (step_fill _ _ _ o cell None pc1 p Hcell Ef)) as [ow1 Hi1]. destruct p as [b|cl|].
  - cbn [mbind outcome_bind]. eexists _, _. split; [reflexivity|]. split_and!; [split; [|done]; exists ow1; by eapply rest_again| |done].
    by apply (cv_threads _ _ _ _ Hi1 0%nat _ eq_refl).
  - exfalso. unfold fill_begin in Ef. destruct (get_slot (bc_cache c) o) as [[x|x]|] eqn:Es; [done| |done]. by apply (quiet_no_pending _ _ _ (bo_cache _ Hc) Es).
  - destruct (blob_fill_ok ow1 pc1 (bc_min_bytes c, bc_retired c) o cell Hi1 Hr Hne) as (pc2 & rest & ow2 & E2 & Hi2 & Hr2 & Hv).
    unfold lead_fill. rewrite E2. cbn [mbind outcome_bind].
    destruct (step_first _ _ _ _ (fun _ => true) _ _ Hi2 (step_lead _ _ _ o cell)) as [ow3 Hi3].
    destruct (step_first _ _ _ _ (fun _ => true) _ _ Hi3 (step_publish _ _ _ o cell (files o))) as [ow4 Hi4].
    set (pc4 := cell_publish _ _ _) in *. destruct (trim_ok pc4 o (files o) ow4 Hi4) as (pc5 & E5 & Hq & Hk). rewrite E5. cbn [mbind outcome_bind].
    eexists _, _. split; [reflexivity|]. split_and!; [by split|done|]. cbn. intros _ Hnv. destruct (Hv Hnv) as [Hret Hcon]. split; [|done].
    assert (get_slot pc4 o = None) as Hn4.
    { change (get_slot pc4 o) with (get_slot (lead_insert pc2 o cell (files o)) o). unfold lead_insert. rewrite Hret.
      rewrite (put_shard_slot_at pc2 _ _ _ o None o (cv_ok _ _ _ _ Hi2)); [by rewrite bool_decide_eq_true_2|]. intros y. apply delete_at. }
    specialize (Hk o). rewrite Hn4 in Hk. done.
Qed.

(** What an unvalidated fill leaves. *)
Definition not_retained (c : IndexBlobCache) (o : Z) : Prop := get_slot (bc_cache c) o = None /\ retired_contains (bc_retired c) o = true.

Lemma slice_in (b : list Z) start end_ : (start <= end_ <= length b)%nat -> slice b start end_ = Ok (take (end_ - start) (drop start b)).
Proof. intros H. unfold slice. by rewrite !(proj2 (Nat.leb_le _ _)) by lia. Qed.

Lemma file_read_in (b : list Z) start end_ : (start < length b)%nat -> (end_ <= length b)%nat ->
  file_range_read b start end_ = Ok (take (end_ - start) (drop start b)).
Proof. intros H1 H2. unfold file_range_read, assert_that. by rewrite (proj2 (Nat.ltb_lt _ _)), (proj2 (Nat.leb_le _ _)) by lia. Qed.

(** A lazy reader serves the bytes of the plain one. *)
Lemma fill_read_ok c cell o start end_ :
  blob_cache_ok c -> pc_cells (bc_cache c) !! cell = None -> (start < length (files o))%nat -> (start <= end_ <= length (files o))%nat ->
  exists c' f', fill_read read_frame c cell (lazy_reader o (files o)) start end_ = Ok (c', f', take (end_ - start) (drop start (files o))) /\
    blob_cache_ok c' /\ (fill_read_type f' = ReadSyscall -> ~ validates o -> retired_contains (bc_retired c) o = true \/ not_retained c' o).
Proof.
  intros Hc Hcell Hs He. assert (files o <> []) as Hne by (intros E; rewrite E in Hs; cbn in Hs; lia).
  destruct (blob_resolve_ok c cell o Hc Hcell Hne) as (c' & r & E & Hc' & Hr & Hn). unfold fill_read. cbn [bf_resolved bf_offset bf_file lazy_reader].
  rewrite E. cbn [mbind outcome_bind]. exists c', (mkBlobFill o (files o) (Some r)).
  destruct r as [b|b|]; [subst b; rewrite slice_in by done|subst b; rewrite slice_in by done|rewrite file_read_in by lia]; cbn [mbind outcome_bind];
    (split_and!; [done|done|]); cbn; [|done|]; intros _ Hv; [right; by apply Hn|by left].
Qed.

(** C16. The blob cache is transparent.  With a cache whose resident blobs are
    those of the files, the reader [Db::index_reader] opens for a blob serves
    every range within it byte for byte as the plain reader of the log does,
    whether the blob was mapped, resident, filled into the cache by this read,
    refused by it or bypassed; the cache stays such a cache; and a fill whose
    frame did not validate leaves nothing in it: the position was or is retired
    and its slot is empty. *)
Theorem index_reader_transparent reachable c o mapped start end_ :
  blob_cache_ok c -> (start < length (files o))%nat -> (start <= end_ <= length (files o))%nat ->
  exists c1 r, cached_index_reader reachable (Some c) o (if (mapped : bool) then RandomMapped (files o) else RandomFile (files o)) = (Some c1, r) /\
    blob_cache_ok c1 /\ forall cell, pc_cells (bc_cache c1) !! cell = None ->
    exists c2 r2, wal_random_read read_frame (Some c1) cell r start end_ = Ok (Some c2, r2, take (end_ - start) (drop start (files o))) /\
      blob_cache_ok c2 /\
      match r2 with
      | RandomCachedFill f => fill_read_type f = ReadSyscall -> ~ validates o -> retired_contains (bc_retired c1) o = true \/ not_retained c2 o
      | _ => c2 = c1
      end.
Proof.
  intros Hc Hs He. unfold cached_index_reader. destruct (blob_peek reachable c o) as [c1 b] eqn:Ep.
  destruct (blob_peek_ok reachable c o c1 b Hc Ep) as (Hc1 & _ & _ & Hb). destruct b as [b|].
  { rewrite (Hb b eq_refl). exists c1, (RandomCached (files o)). split_and!; [done|done|]. intros cell _. exists c1, (RandomCached (files o)). cbn.
    rewrite slice_in by done. done. }
  destruct mapped; [|destruct (admit_blob c1 (body_len (files o)))]; eexists c1, _; (split_and!; [reflexivity|done|]); intros cell Hcell.
  - exists c1, (RandomMapped (files o)). cbn. rewrite slice_in by done. done.
  - destruct (fill_read_ok c1 cell o start end_ Hc1 Hcell Hs He) as (c2 & f2 & E & Hc2 & Hn). exists c2, (RandomCachedFill f2). cbn [wal_random_read expect].
    cbn [mbind outcome_bind]. rewrite E. done.
  - exists c1, (RandomFile (files o)). cbn. rewrite file_read_in by lia. done.
Qed.
End facts.

(** ** A cold and a warm lookup *)

Definition demo_files (o : Z) : list Z := [o; 7; 8; 9].

(** The frame at 64 validates, the others do not. *)
Definition demo_frames (o : Z) : option (option (list Z)) := if o =? 64 then Some (Some ([2; 0] ++ demo_files o)) else None.

Definition empty_blob_cache : IndexBlobCache := mkBlobCache (mkPositionCache (replicate 8 (mkCacheShard ∅ [])) 100 0 0 ∅) 1 (mkRetired [] ∅).

Lemma demo_frames_match o payload : demo_frames o = Some (Some payload) -> slice_from payload BLOB_PREFIX_SIZE = Ok (demo_files o).
Proof. unfold demo_frames. destruct (o =? 64); [|done]. by intros [= <-]. Qed.

Lemma empty_blob_cache_ok : blob_cache_ok demo_files empty_blob_cache.
Proof.
  split; [|split; cbn; [set_solver|constructor|lia]].
  destruct (cache_reachable_inv demo_files (mkCacheSys (bc_cache empty_blob_cache) (fun _ => true) [AtRest None; AtRest None])
    (mkCacheSys (bc_cache empty_blob_cache) (fun _ => true) [AtRest None; AtRest None])) as [owner Hi]; [|apply rtc_refl|by exists owner].
  exists (Some 8), 100. split; [reflexivity|]. by repeat constructor.
Qed.

Lemma index_reader_transparent_witness :
  exists c1 r, cached_index_reader (fun _ => true) (Some empty_blob_cache) 64 (RandomFile (demo_files 64)) = (Some c1, r) /\
    blob_cache_ok demo_files c1 /\ forall cell, pc_cells (bc_cache c1) !! cell = None ->
    exists c2 r2, wal_random_read demo_frames (Some c1) cell r 1 3 = Ok (Some c2, r2, [7; 8]) /\ blob_cache_ok demo_files c2 /\
      match r2 with
      | RandomCachedFill f => fill_read_type f = ReadSyscall -> ~ validates demo_frames 64 -> retired_contains (bc_retired c1) 64 = true \/ not_retained c2 64
      | _ => c2 = c1
      end.
Proof.
  apply (index_reader_transparent demo_files demo_frames demo_frames_match (fun _ => true) empty_blob_cache 64 false 1 3 empty_blob_cache_ok); cbn; lia.
Defined.
