(* ===== verification/RecordRead.v ===== *)
(** * Reading records

    The record reads of [src/tidehunter/src/db.rs]: the frame at a position is a
    single record or a compressed batch; batch bodies come from the cache of
    decompressed batches or are decompressed and offered to it, and the record
    of a key is searched in them ([read_record_check_key],
    [read_record_for_indexed_key]).

    The cache is the position cache, used by one reader at a time here; what
    concurrent readers do to each other is in [PositionCacheFacts]. *)

From Stdlib Require Import ZArith Lia List Sorting.Sorted.
From stdpp Require Import base tactics list gmap strings relations.
From S2P Require Import Prelude BTree Bytes Position Layout KeyShape WalEntry Allocator Tracker Crc WalFiles Wal WalFacts WalWrite WalSession.
From S2P Require Import PositionCache PositionCacheFacts IndexBlobCache.

Local Open Scope Z_scope.

(** ** Definitions *)

Inductive RecordFrame :=
| FrameRecord (key value : list Z)
| FrameBatch (body : list Z).

(** [DbResult] of the operations that read the log. *)
Definition DbResult (A : Type) : Type := (WalError + A)%type.

Section read.
Context (hash : list Z -> Z) (blake2b256 : list Z -> list Z) (lz4_decompress : list Z -> Z -> option (list Z)).
Context (w : Wal).

(** [Db::read_report_entry] with [Db::read_entry] *)
Definition read_report_entry (position : WalPosition) : outcome (DbResult (option WalEntry)) :=
  r ← wal_read hash w position;
  match r with
  | inl e => Ok (inl e)
  | inr None => Ok (inr None)
  | inr (Some bytes) => entry ← wal_entry_from_bytes bytes; Ok (inr (Some entry))
  end.

(** [PositionCache::get] with no fill in flight. *)
Definition cache_get (cache : PositionCache) (position : WalPosition) : outcome (PositionCache * option (list Z)) :=
  match cache_probe cache (wp_offset position) with
  | (cache, ProbeReady body) =>
      reachable ← is_reachable w position;
      Ok (check_reachable (fun _ => reachable) cache (wp_offset position) body)
  | (cache, ProbePending _) => Panic "waits for another thread"
  | (cache, ProbeNone) => Ok (cache, None)
  end.

(** [Db::cached_batch_body] *)
Definition cached_batch_body (decompress_cache : option PositionCache) (position : WalPosition) :
    outcome (option PositionCache * option (list Z)) :=
  match decompress_cache with
  | None => Ok (None, None)
  | Some cache =>
      if cache_is_empty cache then Ok (Some cache, None)
      else '(cache, body) ← cache_get cache position; Ok (Some cache, body)
  end.

(** The closure that decompresses the frame. *)
Definition decompress_fill (entry : WalEntry) (cache : PositionCache) (a : unit) : outcome (PositionCache * unit * list Z) :=
  out ← decompress_wal_entry lz4_decompress entry;
  body ← expect out "caller matched WalEntry::CompressedBatch";
  Ok (cache, a, body).

(** The loop of [Db::decompressed_batch_body]: [entry] was taken when a leader
    failed.  A reader alone takes the first turn only. *)
Fixpoint decompress_loop (fuel : nat) (cache : PositionCache) (cell : nat) (position : WalPosition) (entry : option WalEntry) :
    outcome (PositionCache * DbResult (option (list Z))) :=
  match fuel with
  | O => Panic "decompressed_batch_body does not end"
  | S fuel =>
      r ← match entry with
          | Some batch_entry => Ok (inr (Some batch_entry))
          | None => read_report_entry position
          end;
      match r with
      | inl e => Ok (cache, inl e)
      | inr None => Ok (cache, inr None)
      | inr (Some (WalCompressedBatch c len body)) =>
          '(cache, _, found) ← get_or_fill cache tt (wp_offset position) cell (decompress_fill (WalCompressedBatch c len body));
          match found with
          | OutcomeHit body | OutcomeFilled body => Ok (cache, inr (Some body))
          | OutcomeRetryRead => decompress_loop fuel cache cell position None
          end
      | inr (Some _) => Panic "Unexpected wal entry where expected record/batch"
      end
  end.

(** [Db::decompressed_batch_body]; [cell] names a new fill cell of the cache. *)
Definition decompressed_batch_body (decompress_cache : option PositionCache) (cell : nat) (position : WalPosition) (entry : WalEntry) :
    outcome (option PositionCache * DbResult (option (list Z))) :=
  match decompress_cache with
  | None =>
      out ← decompress_wal_entry lz4_decompress entry;
      body ← expect out "caller matched WalEntry::CompressedBatch";
      Ok (None, inr (Some body))
  | Some cache => '(cache, r) ← decompress_loop 2 cache cell position (Some entry); Ok (Some cache, r)
  end.

(** [Db::resolve_record_frame] *)
Definition resolve_record_frame (decompress_cache : option PositionCache) (cell : nat) (position : WalPosition) :
    outcome (option PositionCache * DbResult (option RecordFrame)) :=
  '(decompress_cache, cached) ← cached_batch_body decompress_cache position;
  match cached with
  | Some body => Ok (decompress_cache, inr (Some (FrameBatch body)))
  | None =>
      r ← read_report_entry position;
      match r with
      | inl e => Ok (decompress_cache, inl e)
      | inr None => Ok (decompress_cache, inr None)
      | inr (Some (WalRecord _ key value _)) => Ok (decompress_cache, inr (Some (FrameRecord key value)))
      | inr (Some (WalCompressedBatch c len body)) =>
          '(decompress_cache, r) ← decompressed_batch_body decompress_cache cell position (WalCompressedBatch c len body);
          Ok (decompress_cache, match r with inl e => inl e | inr body => inr (option_map FrameBatch body) end)
      | inr (Some _) => Panic "Unexpected wal entry where expected record/batch"
      end
  end.

(** The value is known to be empty from the length of the frame. *)
Definition empty_value_known (batch_codec : option BatchCodec) (ks : KeySpaceDesc) (k : list Z) (position : WalPosition) : outcome bool :=
  if negb (need_check_index_key ks) && bool_decide (batch_codec = None) then
    len ← wp_payload_len position;
    Ok (len =? Z.of_nat (record_len k []))
  else Ok false.

(** [Db::read_record_check_key] *)
Definition read_record_check_key (batch_codec : option BatchCodec) (decompress_cache : option PositionCache) (cell : nat) (ks : KeySpaceDesc)
    (k : list Z) (position : WalPosition) : outcome (option PositionCache * DbResult (option (list Z))) :=
  known ← empty_value_known batch_codec ks k position;
  if known : bool then Ok (decompress_cache, inr (Some []))
  else
    '(decompress_cache, r) ← resolve_record_frame decompress_cache cell position;
    match r with
    | inl e => Ok (decompress_cache, inl e)
    | inr None => Ok (decompress_cache, inr None)
    | inr (Some (FrameRecord wal_key v)) => Ok (decompress_cache, inr (if keqb wal_key k then Some v else None))
    | inr (Some (FrameBatch body)) => found ← find_record body (ks_id ks) k; Ok (decompress_cache, inr found)
    end.

(** The record is the one of the indexed key. *)
Definition indexed_as (ks : KeySpaceDesc) (indexed_key full_key : list Z) : outcome bool :=
  reduced ← reduce_key blake2b256 (ks_key_indexing ks) full_key;
  Ok (keqb reduced indexed_key).

(** [Db::read_record_for_indexed_key] *)
Definition read_record_for_indexed_key (decompress_cache : option PositionCache) (cell : nat) (ks : KeySpaceDesc) (position : WalPosition)
    (indexed_key : list Z) : outcome (option PositionCache * DbResult (option (list Z * list Z))) :=
  '(decompress_cache, r) ← resolve_record_frame decompress_cache cell position;
  match r with
  | inl e => Ok (decompress_cache, inl e)
  | inr None => Ok (decompress_cache, inr None)
  | inr (Some (FrameRecord k v)) => Ok (decompress_cache, inr (Some (k, v)))
  | inr (Some (FrameBatch body)) =>
      found ← find_record_by body (ks_id ks) (indexed_as ks indexed_key);
      Ok (decompress_cache, inr found)
  end.
End read.

(** ** The log and the cache *)

Section facts.
Context (hash : list Z -> Z) (blake2b256 : list Z -> list Z) (lz4_decompress : list Z -> Z -> option (list Z)).
Context (w : Wal) (frames : list (WalPosition * list Z)).

(** Every frame is at an offset of its own and is read back, unless its file is
    gone. *)
Record log_serves : Prop := mkLogServes {
  ls_offsets : NoDup (List.map (fun f => wp_offset f.1) frames);
  ls_lens : forall pos t, In (pos, t) frames -> wp_len pos = frame_size t;
  ls_reads : forall pos t, In (pos, t) frames -> wal_read hash w pos = Ok (inr (Some t)) \/ is_reachable w pos = Ok false;
}.

(** The body of a batch frame. *)
Definition frame_body (t : list Z) : option (list Z) :=
  match wal_entry_from_bytes t with
  | Ok e => match decompress_wal_entry lz4_decompress e with Ok body => body | _ => None end
  | _ => None
  end.

(** The body at an offset. *)
Definition body_at (o : Z) : list Z :=
  match List.find (fun f => wp_offset f.1 =? o) frames with
  | Some (_, t) => default [] (frame_body t)
  | None => []
  end.

Definition batch_at (o : Z) : Prop := exists pos t body, In (pos, t) frames /\ wp_offset pos = o /\ frame_body t = Some body.

(** The cache holds bodies of batch frames only. *)
Definition cache_serves (decompress_cache : option PositionCache) : Prop :=
  match decompress_cache with
  | None => True
  | Some pc => quiet_cache body_at pc /\ forall o c, get_slot pc o = Some (SlotReady c) -> batch_at o
  end.

Context (Hlog : log_serves).

Lemma find_frame pos t fs : NoDup (List.map (fun f => wp_offset f.1) fs) -> In (pos, t) fs ->
  exists pos', List.find (fun f : WalPosition * list Z => wp_offset f.1 =? wp_offset pos) fs = Some (pos', t).
Proof.
  induction fs as [|[p u] fs IH]; [done|]. cbn [List.map List.find fst]. rewrite NoDup_cons. intros [Hn Hd] [[= -> ->]|Hin].
  - rewrite Z.eqb_refl. by exists pos.
  - destruct (Z.eqb_spec (wp_offset p) (wp_offset pos)) as [E|E]; [|by apply IH]. exfalso. apply Hn. rewrite E.
    apply list_elem_of_In, in_map_iff. by exists (pos, t).
Qed.

Lemma body_at_frame pos t body : In (pos, t) frames -> frame_body t = Some body -> body_at (wp_offset pos) = body.
Proof.
  intros Hin Hb. destruct (find_frame pos t frames (ls_offsets Hlog) Hin) as [pos' E]. unfold body_at. rewrite E, Hb. done.
Qed.

Lemma frame_unique pos t pos' t' : In (pos, t) frames -> In (pos', t') frames -> wp_offset pos' = wp_offset pos -> t' = t.
Proof.
  intros Hin Hin' E. destruct (find_frame pos t frames (ls_offsets Hlog) Hin) as [p Ep].
  destruct (find_frame pos' t' frames (ls_offsets Hlog) Hin') as [p' Ep']. rewrite E in Ep'. congruence.
Qed.

Lemma unreachable_reads_none pos : is_reachable w pos = Ok false -> wal_read hash w pos = Ok (inr None).
Proof.
  unfold wal_read, is_reachable, frame_source. intros H.
  destruct (assert_that _ _); [|done]. cbn [mbind outcome_bind] in *. destruct (locate _ _) as [[m o]|]; [|done]. cbn [mbind outcome_bind] in *.
  destruct (locate_file _ _) as [f|]; [|done]. cbn [mbind outcome_bind] in *.
  destruct (wal_get_map w m) as [mp|]; [by rewrite orb_true_r in H|]. by destruct (get_checked _ _).
Qed.

(** *** The cache *)

Notation inv := (cache_inv body_at).

Lemma forgets_resident pc pc' : (forall x, slot_kept (get_slot pc x) (get_slot pc' x)) ->
  forall x c, get_slot pc' x = Some (SlotReady c) -> exists c', get_slot pc x = Some (SlotReady c').
Proof.
  intros Hk x c Hx. specialize (Hk x). rewrite Hx in Hk. destruct (get_slot pc x) as [[c'|c']|]; cbn in Hk; [by exists c'|done|done].
Qed.

Lemma forgets_trans a b c : forgets a b -> forgets b c -> forgets a c.
Proof.
  intros [A1 A2 A3 A4 A5 A6 A7 A8] [B1 B2 B3 B4 B5 B6 B7 B8].
  split; [done|congruence|congruence|lia|intros o; by eapply slot_kept_trans|intros; congruence|intros; by rewrite B7|auto].
Qed.

Lemma cache_get_ok pc pos b : quiet_cache body_at pc -> is_reachable w pos = Ok b ->
  exists pc' r, cache_get w pc pos = Ok (pc', r) /\ quiet_cache body_at pc' /\
    (forall x c, get_slot pc' x = Some (SlotReady c) -> exists c', get_slot pc x = Some (SlotReady c')) /\
    (forall cell, pc_cells pc !! cell = None -> pc_cells pc' !! cell = None) /\ (b = false -> r = None) /\
    forall body, r = Some body -> body = body_at (wp_offset pos) /\ exists c, get_slot pc (wp_offset pos) = Some (SlotReady c).
Proof.
  intros Hq Hb. pose proof Hq as [ow Hi]. unfold cache_get. destruct (cache_probe pc (wp_offset pos)) as [pc1 p] eqn:Ep.
  destruct (step_first body_at _ _ _ _ (fun _ => b) _ _ Hi (step_peek _ _ _ _ None pc1 p Ep)) as [ow1 Hi1].
  unfold cache_probe in Ep. destruct (get_slot pc (wp_offset pos)) as [[c|c]|] eqn:Es; [|by apply (quiet_no_pending body_at _ _ _ Hq) in Es|].
  - injection Ep as <- <-. rewrite Hb. cbn [mbind outcome_bind]. destruct (check_reachable _ _ _ _) as [pc' r] eqn:Ec. exists pc', r.
    pose proof (cache_touch_ok pc (wp_offset pos) (cv_ok _ _ _ _ Hi)) as Ht.
    destruct (step_first body_at _ _ _ _ (fun _ => b) _ _ Hi1 (step_check _ _ _ _ _ pc' r Ec)) as [ow2 Hi2].
    pose proof (cv_bodies _ _ _ _ Hi _ _ Es) as Hbody.
    assert (forgets pc pc') as Hfg.
    { unfold check_reachable in Ec. destruct b; injection Ec as <- _; [done|]. eapply forgets_trans; [exact Ht|]. apply cache_remove_ok; [apply Ht|].
      intros k Hk. pose proof (fg_slots _ _ Ht (wp_offset pos)) as Hkk. rewrite Es, Hk in Hkk. cbn in Hkk. by destruct Hkk as [|[? ?]]. }
    split_and!; [done|exists ow2; by eapply rest_again|by apply forgets_resident, Hfg| |by intros ->; unfold check_reachable in Ec; congruence|].
    + intros cell Hc. apply eq_None_not_Some. rewrite (fg_cells _ _ Hfg), Hc. by intros [].
    + intros body ->. split; [|by exists c]. unfold check_reachable in Ec. destruct b; congruence.
  - injection Ep as <- <-. exists pc, None. split_and!; try done. intros x c Hx. by exists c.
Qed.

(** A fill by one reader. *)
Lemma get_or_fill_ok pc cell o fill : quiet_cache body_at pc -> pc_cells pc !! cell = None ->
  (forall pc, fill pc tt = Ok (pc, tt, body_at o)) ->
  exists pc' r, get_or_fill pc tt o cell fill = Ok (pc', tt, r) /\ quiet_cache body_at pc' /\ (r = OutcomeHit (body_at o) \/ r = OutcomeFilled (body_at o)) /\
    forall x c, get_slot pc' x = Some (SlotReady c) -> x = o \/ exists c', get_slot pc x = Some (SlotReady c').
Proof.
  intros Hq Hcell Hf. pose proof Hq as [ow Hi]. pose proof (cv_ok _ _ _ _ Hi) as Hp. unfold get_or_fill.
  destruct (fill_begin pc o cell) as [pc1 p] eqn:Ef.
  destruct (step_first body_at _ _ _ _ (fun _ => true) _ _ Hi (step_fill _ _ _ o cell None pc1 p Hcell Ef)) as [ow1 Hi1].
  unfold fill_begin in Ef. destruct (get_slot pc o) as [[c|c]|] eqn:Es; [|by apply (quiet_no_pending body_at _ _ _ Hq) in Es|].
  - injection Ef as <- <-. cbn [mbind outcome_bind]. eexists _, _. split; [reflexivity|]. split_and!; [exists ow1; by eapply rest_again| |].
    + left. f_equal. apply (cv_bodies _ _ _ _ Hi _ _ Es).
    + intros x c' Hx. right. apply (forgets_resident pc _ (fg_slots _ _ (cache_touch_ok pc o Hp)) x c' Hx).
  - injection Ef as <- <-. unfold lead_fill. rewrite Hf. cbn [mbind outcome_bind].
    set (pc1 := put_cell _ _ _) in *. pose proof (cv_ok _ _ _ _ Hi1) as Hp1.
    destruct (step_first body_at _ _ _ _ (fun _ => true) _ _ Hi1 (step_lead _ _ _ o cell)) as [ow2 Hi2].
    destruct (step_first body_at _ _ _ _ (fun _ => true) _ _ Hi2 (step_publish _ _ _ o cell (body_at o))) as [ow3 Hi3].
    set (pc3 := cell_publish _ _ _) in *. destruct (trim_ok body_at pc3 o (body_at o) ow3 Hi3) as (pc4 & E4 & Hq4 & Hk). rewrite E4. cbn [mbind outcome_bind].
    eexists _, _. split; [reflexivity|]. split_and!; [done|by right|]. intros x c Hx.
    destruct (decide (x = o)) as [->|Hne]; [by left|right]. apply (forgets_resident _ _ Hk) in Hx as [c3 Hx].
    change (get_slot pc3 x) with (get_slot (lead_insert pc1 o cell (body_at o)) x) in Hx.
    assert (get_slot pc1 x = Some (SlotReady c3)) as H1.
    { unfold lead_insert in Hx. destruct (fc_retired _); [|destruct (_ <=? _)].
      all: erewrite put_shard_slot_at in Hx; [|done|intros y; (apply delete_at || apply insert_at)]; by rewrite bool_decide_eq_false_2 in Hx. }
    change (get_slot pc1 x) with (get_slot (put_shard pc (shard_of pc o) (mkCacheShard (<[o:=SlotPending cell]> (sd_slots (get_shard pc (shard_of pc o)))) (sd_clock (get_shard pc (shard_of pc o)))) (pc_bytes pc) (pc_occupied pc + 1)) x) in H1.
    erewrite put_shard_slot_at in H1; [|done|intros y; apply insert_at]. rewrite bool_decide_eq_false_2 in H1 by done. by exists c3.
Qed.

(** *** Frames *)

Definition fresh_fill (decompress_cache : option PositionCache) (cell : nat) : Prop :=
  match decompress_cache with Some pc => pc_cells pc !! cell = None | None => True end.

Lemma report_entry_ok pos t e : wal_read hash w pos = Ok (inr (Some t)) -> wal_entry_from_bytes t = Ok e -> read_report_entry hash w pos = Ok (inr (Some e)).
Proof. intros Hr He. unfold read_report_entry. rewrite Hr. cbn [mbind outcome_bind]. by rewrite He. Qed.

Lemma cached_body_ok dc cell pos b : cache_serves dc -> fresh_fill dc cell -> is_reachable w pos = Ok b ->
  exists dc' r, cached_batch_body w dc pos = Ok (dc', r) /\ cache_serves dc' /\ fresh_fill dc' cell /\ (b = false -> r = None) /\
    forall body, r = Some body -> body = body_at (wp_offset pos) /\ batch_at (wp_offset pos).
Proof.
  intros Hc Hf Hb. destruct dc as [pc|]; [|by exists None, None]. cbn [cached_batch_body]. destruct Hc as [Hq Hres].
  destruct (cache_is_empty pc); [by exists (Some pc), None|].
  destruct (cache_get_ok pc pos b Hq Hb) as (pc' & r & -> & Hq' & Hk & Hcell & Hn & Hr). cbn [mbind outcome_bind]. exists (Some pc'), r. split_and!; try done.
  - split; [done|]. intros o c Hs. apply Hk in Hs as [c' Hs]. by apply (Hres o c').
  - by apply Hcell.
  - intros body Hbody. destruct (Hr body Hbody) as [-> [c Hs]]. split; [done|]. by apply (Hres _ c).
Qed.

Lemma resolve_gone dc cell pos : cache_serves dc -> fresh_fill dc cell -> is_reachable w pos = Ok false ->
  exists dc', cache_serves dc' /\ resolve_record_frame hash lz4_decompress w dc cell pos = Ok (dc', inr None).
Proof.
  intros Hc Hf Hr. destruct (cached_body_ok dc cell pos false Hc Hf Hr) as (dc' & r & E & Hc' & _ & Hn & _). exists dc'. split; [done|].
  unfold resolve_record_frame. rewrite E, (Hn eq_refl). cbn [mbind outcome_bind]. unfold read_report_entry. by rewrite (unreachable_reads_none pos Hr).
Qed.

(** What a reader is given of a frame: the record or the body of the batch. *)
Lemma resolve_ok dc cell pos t e :
  In (pos, t) frames -> cache_serves dc -> fresh_fill dc cell -> wal_entry_from_bytes t = Ok e -> is_reachable w pos = Ok true ->
  exists dc', cache_serves dc' /\
    (forall ks k v r, e = WalRecord ks k v r -> resolve_record_frame hash lz4_decompress w dc cell pos = Ok (dc', inr (Some (FrameRecord k v)))) /\
    (forall body, decompress_wal_entry lz4_decompress e = Ok (Some body) ->
       resolve_record_frame hash lz4_decompress w dc cell pos = Ok (dc', inr (Some (FrameBatch body)))).
Proof.
  intros Hin Hc Hf He Hreach. destruct (ls_reads Hlog pos t Hin) as [Hr|Hr]; [|congruence]. pose proof (report_entry_ok pos t e Hr He) as Hre.
  destruct (cached_body_ok dc cell pos true Hc Hf Hreach) as (dc1 & r & E & Hc1 & Hf1 & _ & Hhit).
  unfold resolve_record_frame. rewrite E. cbn [mbind outcome_bind]. rewrite Hre. cbn [mbind outcome_bind].
  assert (forall body, decompress_wal_entry lz4_decompress e = Ok (Some body) -> frame_body t = Some body) as Hfb by (intros body Hb; unfold frame_body; by rewrite He, Hb).
  destruct r as [body|].
  { exists dc1. split; [done|]. destruct (Hhit body eq_refl) as [-> (pos' & t' & b & Hin' & Eo & Hb)].
    pose proof (frame_unique pos t pos' t' Hin Hin' Eo) as ->. split.
    - intros ks k v r ->. unfold frame_body in Hb. by rewrite He in Hb.
    - intros body Hd. by rewrite (body_at_frame pos t body Hin (Hfb body Hd)). }
  destruct e as [ks k v r| | | | |c len body0]; try (exists dc1; split; [done|]; cbn [decompress_wal_entry]; split; congruence).
  destruct (decompress_wal_entry lz4_decompress (WalCompressedBatch c len body0)) as [[body|]|] eqn:Ed; try (exists dc1; split; [done|]; split; congruence).
  pose proof (body_at_frame pos t body Hin (Hfb body eq_refl)) as Hbody. destruct dc1 as [pc|].
  - destruct Hc1 as [Hq Hres]. destruct (get_or_fill_ok pc cell (wp_offset pos) (decompress_fill lz4_decompress (WalCompressedBatch c len body0)) Hq Hf1)
      as (pc' & r & Eg & Hq' & Hr' & Hk); [intros pc'; unfold decompress_fill; rewrite Ed, Hbody; done|].
    exists (Some pc'). split.
    { split; [done|]. intros o cd [->|[c' Hs]]%Hk; [exists pos, t, body; split_and!; [done|done|by apply Hfb]|by apply (Hres o c')]. }
    split; [congruence|]. intros ? [= <-]. unfold decompressed_batch_body. cbn [decompress_loop mbind outcome_bind]. rewrite Eg.
    cbn [mbind outcome_bind]. rewrite Hbody in Hr'. by destruct Hr' as [-> | ->].
  - exists None. split; [done|]. split; [congruence|]. intros ? [= <-]. cbn [decompressed_batch_body]. by rewrite Ed.
Qed.
(** *** Reads *)

(** A read answers [a] and leaves a cache that serves the log. *)
Definition answers {A} (r : outcome (option PositionCache * DbResult A)) (a : A) : Prop := exists dc, r = Ok (dc, inr a) /\ cache_serves dc.

Lemma payload_len_frame pos t : In (pos, t) frames -> wp_payload_len pos = Ok (Z.of_nat (length t)).
Proof.
  intros Hin. unfold wp_payload_len, wp_frame_len, checked_sub. rewrite (ls_lens Hlog pos t Hin). unfold frame_size.
  rewrite (proj2 (Z.leb_le _ _)) by lia. cbn [expect]. f_equal. lia.
Qed.

Lemma known_off codec ks k pos t : In (pos, t) frames ->
  need_check_index_key ks = true \/ codec <> None \/ length t <> record_len k [] -> empty_value_known codec ks k pos = Ok false.
Proof.
  intros Hin H. unfold empty_value_known. destruct (need_check_index_key ks); [done|]. case_bool_decide as Ec; [|done]. cbn [negb andb].
  destruct H as [?|[?|Hl]]; [done|done|]. rewrite payload_len_frame with (t := t) by done.
  cbn [mbind outcome_bind]. f_equal. apply Z.eqb_neq. lia.
Qed.

Lemma check_key_on codec dc cell ks k pos :
  empty_value_known codec ks k pos = Ok true -> cache_serves dc -> answers (read_record_check_key hash lz4_decompress w codec dc cell ks k pos) (Some []).
Proof. intros H Hc. exists dc. unfold read_record_check_key. by rewrite H. Qed.

Lemma known_on codec ks k pos t : In (pos, t) frames -> need_check_index_key ks = false -> codec = None -> length t = record_len k [] ->
  empty_value_known codec ks k pos = Ok true.
Proof.
  intros Hin Hn -> Hl. unfold empty_value_known. rewrite Hn. cbn [negb andb]. rewrite bool_decide_eq_true_2 by done.
  rewrite payload_len_frame with (t := t) by done. cbn [mbind outcome_bind]. f_equal. apply Z.eqb_eq. lia.
Qed.
End facts.

(** *** A log that was written serves *)

Lemma log_at_offsets l hash files p frames e : layout_ok l -> log_at l hash files p frames e ->
  Forall (fun f => p <= wp_offset f.1 /\ wp_len f.1 = frame_size f.2) frames /\ NoDup (List.map (fun f => wp_offset f.1) frames).
Proof.
  intros Hl. induction 1 as [p|p q t frames e Hp Hpl _ [IH1 IH2]]; [split; constructor|].
  destruct (placed_order l Hl hash files p q t Hp Hpl) as (Hpq & _ & _). destruct (extent_bounds l t) as [Hx _]; [apply Hpl|].
  assert (0 < frame_size t) as Hs by (unfold frame_size, CRC_HEADER_LENGTH; lia).
  rewrite List.Forall_forall in IH1. cbn [List.map fst snd]. split.
  - constructor; [by split|]. rewrite List.Forall_forall. intros f Hf. destruct (IH1 f Hf). split; [lia|done].
  - constructor; [|done]. intros (f & E & Hf)%list_elem_of_In%in_map_iff. destruct (IH1 f Hf). cbn in E. lia.
Qed.

Lemma history_serves l hash p0 s acked : layout_ok l -> 3 <= max_maps l -> (forall b, is_u32 (hash b)) -> wal_history l hash p0 s acked ->
  log_serves hash (ss_wal l s) acked.
Proof.
  intros Hl Hm Hh Hs. destruct (history_inv l hash p0 Hl Hm Hh s acked Hs) as [Hi <-].
  destruct (log_at_offsets l hash _ _ _ _ Hl (lf_log _ _ _ _ _ _ (si_log _ _ _ _ Hi))) as [Hf Hn]. rewrite List.Forall_forall in Hf.
  pose proof (session_reads l hash p0 Hl Hh s Hi) as Hr. rewrite List.Forall_forall in Hr. split; [done| |].
  - intros pos t Hin. apply (Hf (pos, t) Hin).
  - intros pos t Hin. left. apply (Hr (pos, t) Hin).
Qed.

(** A batch the writer can frame, and its frame. *)
Record batch_frame (lz4_compress : list Z -> list Z) (entries : list WalEntry) (e : WalEntry) : Prop := mkBatchFrame {
  bf_entries : Forall batch_entry_ok entries;
  bf_count : Z.of_nat (length entries) <= u32_max;
  bf_size : forall raw, encode_entries entries (be_bytes 4 (Z.of_nat (length entries))) = Ok raw -> Z.of_nat (length raw) <= u32_max;
  bf_encoded : compressed_batch_encode lz4_compress entries = Ok e;
}.

(** C17. A record reads back.  In a log that serves its frames, with the
    decompressed-batch cache on or off and in any state it can be in:
    - a record written alone is read by its key, is refused for other keys
      (unless only the length of the frame was looked at), and is what the
      position holds for whatever key it is indexed under;
    - a record of a compressed batch is read by its key, the first one of the
      key in the batch, and by its index key;
    - when the file of the frame is gone, the read finds nothing, also while the
      cache still holds the body;
    - where index keys are the record keys and no batch is compressed, a frame as
      long as that of the key with an empty value is answered with the empty
      value, whether it is still there or not. *)
Theorem record_reads hash blake2b256 lz4_compress lz4_decompress w frames codec dc cell ks pos t :
  (forall b, lz4_decompress (lz4_compress b) (Z.of_nat (length b)) = Some b) ->
  log_serves hash w frames -> In (pos, t) frames -> cache_serves lz4_decompress frames dc -> fresh_fill dc cell ->
  let check k := read_record_check_key hash lz4_decompress w codec dc cell ks k pos in
  let indexed ik := read_record_for_indexed_key hash blake2b256 lz4_decompress w dc cell ks pos ik in
  let answers {A} r a := answers lz4_decompress frames (A := A) r a in
  let checked := need_check_index_key ks = true \/ codec <> None in
  (is_reachable w pos = Ok true ->
     (forall id k v r, wal_entry_ok (WalRecord id k v r) -> wal_entry_write (WalRecord id k v r) [] = Ok t ->
        answers (check k) (Some v) /\
        (forall k', k' <> k -> checked \/ (length k + length v <> length k')%nat -> answers (check k') None) /\
        forall ik, answers (indexed ik) (Some (k, v))) /\
     (forall entries e, batch_frame lz4_compress entries e -> wal_entry_write e [] = Ok t ->
        (forall k, checked -> answers (check k) (record_value entries (ks_id ks) k)) /\
        forall ik found, record_by entries (ks_id ks) (indexed_as blake2b256 ks ik) = Ok found -> answers (indexed ik) found)) /\
  (is_reachable w pos = Ok false ->
     (forall k, checked \/ length t <> record_len k [] -> answers (check k) None) /\ forall ik, answers (indexed ik) None) /\
  (forall k, need_check_index_key ks = false -> codec = None -> length t = record_len k [] -> answers (check k) (Some [])).
Proof.
  intros Hlz Hlog Hin Hc Hf. cbv zeta. split_and!.
  - intros Hreach. split.
    + intros id k v r Hok Hw. destruct (wal_entry_encodes _ Hok) as (enc & Henc & Hlen & Hdec). rewrite Henc in Hw. injection Hw as <-. cbn [app wal_entry_len] in *.
      destruct (resolve_ok hash lz4_decompress w frames Hlog dc cell pos enc _ Hin Hc Hf Hdec Hreach) as (dc' & Hc' & Hrec & _).
      specialize (Hrec id k v r eq_refl). split_and!.
      * destruct (decide (need_check_index_key ks = true \/ codec <> None \/ length enc <> record_len k [])) as [Hd|Hd].
        -- exists dc'. split; [|done]. unfold read_record_check_key. rewrite (known_off hash w frames Hlog codec ks k pos enc Hin Hd). cbn [mbind outcome_bind].
           rewrite Hrec. cbn [mbind outcome_bind]. by rewrite keqb_refl.
        -- assert (v = []) as -> by (destruct v; [done|]; destruct Hd; right; right; rewrite Hlen; unfold record_len; cbn [length]; lia).
           apply check_key_on; [|done]. eapply (known_on hash w frames Hlog); [done|by destruct (need_check_index_key ks); tauto|by destruct codec; [destruct Hd; right; left|]|lia].
      * intros k' Hne Hd. exists dc'. split; [|done]. unfold read_record_check_key. rewrite (known_off hash w frames Hlog codec ks k' pos enc Hin);
          [|destruct Hd as [[?|?]|Hd]; [tauto|tauto|right; right; rewrite Hlen; unfold record_len; cbn [length]; lia]].
        cbn [mbind outcome_bind]. rewrite Hrec. cbn [mbind outcome_bind]. by destruct (keqb_spec k k') as [->|?].
      * intros ik. exists dc'. split; [|done]. unfold read_record_for_indexed_key. by rewrite Hrec.
    + intros entries e [Hes Hn Hsz He] Hw. destruct (compressed_frame_reads lz4_compress lz4_decompress entries Hlz Hes Hn Hsz) as (e' & body & He' & Hok & Hd & _ & Hby & Hval).
      rewrite He in He'. injection He' as <-. destruct (wal_entry_encodes _ Hok) as (enc & Henc & _ & Hdec). rewrite Henc in Hw. injection Hw as <-. cbn [app] in *.
      destruct (resolve_ok hash lz4_decompress w frames Hlog dc cell pos enc _ Hin Hc Hf Hdec Hreach) as (dc' & Hc' & _ & Hbat). specialize (Hbat body Hd). split.
      * intros k Hck. exists dc'. split; [|done]. unfold read_record_check_key. rewrite (known_off hash w frames Hlog codec ks k pos enc Hin) by tauto. cbn [mbind outcome_bind].
        rewrite Hbat. cbn [mbind outcome_bind]. by rewrite Hval.
      * intros ik found Hfound. exists dc'. split; [|done]. unfold read_record_for_indexed_key. rewrite Hbat. cbn [mbind outcome_bind]. by rewrite Hby, Hfound.
  - intros Hgone. destruct (resolve_gone hash lz4_decompress w frames dc cell pos Hc Hf Hgone) as (dc' & Hc' & Hr). split.
    + intros k Hd. exists dc'. split; [|done]. unfold read_record_check_key. rewrite (known_off hash w frames Hlog codec ks k pos t Hin) by tauto. cbn [mbind outcome_bind]. by rewrite Hr.
    + intros ik. exists dc'. split; [|done]. unfold read_record_for_indexed_key. by rewrite Hr.
  - intros k Hn Hcodec Hlen. apply check_key_on; [|done]. by eapply (known_on hash w frames Hlog).
Qed.

(** ** A log with a record and a compressed batch *)

Definition demo_entries : list WalEntry := [WalRecord 0 [1] [5; 6] false; WalRemove 0 [2]].

Definition demo_payloads : outcome (list (list Z)) :=
  record ← wal_entry_write (WalRecord 0 [1; 2; 3] [7; 8] false) [];
  e ← compressed_batch_encode id demo_entries;
  batch ← wal_entry_write e [];
  Ok [record; batch].

Definition demo_log : outcome (Session * Session * list (WalPosition * list Z)) :=
  s0 ← open_session small_layout sum_hash 0 1 (mkWalFiles [(0, [])]);
  payloads ← demo_payloads;
  '(s1, new) ← write_session small_layout sum_hash s0 payloads;
  Ok (s0, s1, new).

Definition plain_space : KeySpaceDesc := mkKeySpace 0 "plain" VariableLength 1 (Uniform 1) false.

Lemma pc0_serves frames : cache_serves store_decompress frames (Some pc0).
Proof.
  split; [|by intros o c; unfold get_slot, get_shard; destruct (pc_shards pc0 !! _) as [x|] eqn:E; [apply lookup_replicate in E as [-> _]|]].
  destruct (cache_reachable_inv (body_at store_decompress frames) (mkCacheSys pc0 (fun _ => true) [AtRest None; AtRest None])
    (mkCacheSys pc0 (fun _ => true) [AtRest None; AtRest None])) as [owner Hi]; [|apply rtc_refl|by exists owner].
  exists (Some 8), 3. split; [reflexivity|]. by repeat constructor.
Qed.

(** Both records of the log are read by their keys, one through the cache, and
    an absent key of the batch is not found. *)
Lemma record_reads_witness :
  exists (s : Session) (acked : list (WalPosition * list Z)), wal_history small_layout sum_hash 0 s acked /\
    let read k pos := read_record_check_key sum_hash store_decompress (ss_wal small_layout s) (Some Lz4) (Some pc0) 0 plain_space k pos in
    let answers {A} r a := answers store_decompress acked (A := A) r a in
    answers (read [1; 2; 3] (wp_new 0 17)) (Some [7; 8]) /\ answers (read [1] (wp_new 24 36)) (Some [5; 6]) /\ answers (read [2] (wp_new 24 36)) None.
Proof.
  assert (forall b, is_u32 (sum_hash b)) as Hh by (intros b; unfold is_u32, sum_hash, wrap32; apply Z.mod_pos_bound; lia).
  destruct (fresh_log_files small_layout sum_hash small_layout_ok) as (files & Ef & Hf); [vm_compute; discriminate|].
  assert (files = mkWalFiles [(0, [])]) as -> by (vm_compute in Ef; by injection Ef as <-).
  set (r := [1; 0; 0; 3; 1; 2; 3; 7; 8]). set (b := [7; 1; 0; 0; 0; 22; 0; 0; 0; 2; 0; 0; 0; 7; 1; 0; 0; 1; 1; 5; 6; 0; 0; 0; 3; 3; 0; 2]).
  assert ((match demo_log with Ok (s0, s1, new) => Some (ss_position s0, ss_finalized s0, new, List.map (fun f => is_reachable (ss_wal small_layout s1) f.1) new) | _ => None end) =
    Some (0, -1, [(wp_new 0 17, r); (wp_new 24 36, b)], [Ok true; Ok true])) as F by (vm_compute; reflexivity).
  destruct demo_log as [[[s0 s1] new]|] eqn:E; [|done]. injection F as Ep0 Ef0 En Er. unfold demo_log in E.
  destruct (open_session _ _ _ 1 _) as [s0'|] eqn:E0; [|done]. cbn [mbind outcome_bind] in E.
  assert (demo_payloads = Ok [r; b]) as Edp by (vm_compute; reflexivity). rewrite Edp in E. cbn [mbind outcome_bind] in E.
  destruct (write_session _ _ s0' _) as [[s1' new']|] eqn:E1; [|done]. injection E as -> -> ->. rewrite En in *. cbn [List.map fst] in Er. 
  assert (is_reachable (ss_wal small_layout s1) (wp_new 0 17) = Ok true) as Er1 by congruence. assert (is_reachable (ss_wal small_layout s1) (wp_new 24 36) = Ok true) as Er2 by congruence.
  assert (wal_history small_layout sum_hash 0 s1 ([] ++ [(wp_new 0 17, r); (wp_new 24 36, b)])) as Hhist.
  { econstructor; [eapply history_open; [exact Hf|by eapply open_session_open]|]. apply (write_session_step _ _ _ _ _ _ E1).
    - split_and!; [done|repeat constructor|vm_compute; discriminate].
    - unfold writer_window. rewrite Ep0, Ef0. by vm_compute.
    - unfold room. rewrite Ep0. by split; vm_compute. }
  exists s1, [(wp_new 0 17, r); (wp_new 24 36, b)]. split; [done|]. cbv zeta.
  pose proof (history_serves small_layout sum_hash 0 s1 _ small_layout_ok ltac:(cbn; lia) Hh Hhist) as Hs.
  pose proof (fun pos t => record_reads sum_hash id id store_decompress (ss_wal small_layout s1) _ (Some Lz4) (Some pc0) 0 plain_space pos t
    ltac:(intros x; unfold store_decompress, id; by rewrite Z.eqb_refl) Hs) as Hrr.
  destruct (Hrr (wp_new 0 17) r (or_introl eq_refl) (pc0_serves _) eq_refl) as [Hrec _].
  destruct (Hrr (wp_new 24 36) b (or_intror (or_introl eq_refl)) (pc0_serves _) eq_refl) as [Hbat _].
  destruct (compressed_batch_encode id demo_entries) as [e|] eqn:Ee; [|vm_compute in Ee; done].
  destruct (proj2 (Hbat Er2) demo_entries e) as [Hb _].
  { split; [repeat constructor; cbn; unfold u16_max, u32_max; lia|cbn; unfold u32_max; lia|intros raw H; vm_compute in H; injection H as <-; cbn; unfold u32_max; lia|done]. }
  { vm_compute in Ee. injection Ee as <-. vm_compute. reflexivity. }
  split_and!; [|by apply (Hb [1]); right|by apply (Hb [2]); right].
  apply (proj1 (Hrec Er1) 0 [1; 2; 3] [7; 8] false); [cbn; unfold is_u8, u16_max; lia|vm_compute; reflexivity].
Defined.
