(* ===== verification/Control.v ===== *)
(** * The control region

    [src/tidehunter/src/control.rs], with the end of
    [Db::rebuild_control_region_from] of [src/tidehunter/src/db.rs]: the snapshot
    of the index that is kept on disk, its file format with the two formats
    before it, the checks against the declared key spaces, the selection of
    sparsely used index files, and the order in which a new region is stored and
    files are dropped.

    [bincode] is a parameter: a serializer of the current region and a
    deserializer of each version.  The file system is the control file and the
    temporary file beside it.  A rebuild lists the states of the disk it goes
    through: the temporary file while it is being filled, the rename, and the
    index files as the unlink worker removes them one after the other; fsync is
    not modelled, so these states reach the disk in the order they are made. *)

From Stdlib Require Import ZArith Lia List.
From stdpp Require Import base tactics list gmap strings relations sorting.
From S2P Require Import Prelude BTree Bytes Position Cell Layout KeyShape Levels TableEntry Snapshot Allocator Tracker WalFiles.

Local Open Scope Z_scope.

(** ** Data *)

Definition CONTROL_REGION_V2_SENTINEL : Z := u64_max.
Definition CONTROL_REGION_V2_VERSION : Z := 2.
Definition CONTROL_REGION_V3_VERSION : Z := 3.
Definition CONTROL_REGION_V2_HEADER_LEN : nat := 12.

Record ControlRegion := mkControl {
  cn_last_position : Z;
  cn_snapshot : LargeTableContainer SnapshotEntryData;
  cn_keyspace_names : list string;
}.

(** The regions of the formats before: positions per level, and one position. *)
Record ControlRegionV2 := mkControlV2 {
  c2_last_position : Z;
  c2_snapshot : LargeTableContainer (list WalPosition * LastProcessed);
  c2_keyspace_names : list string;
}.

Record ControlRegionV1 := mkControlV1 {
  c1_last_position : Z;
  c1_snapshot : LargeTableContainer (WalPosition * LastProcessed);
  c1_keyspace_names : list string;
}.

Record ControlRegionStore := mkControlStore { crs_last_position : Z }.

Definition control_store_new (control_region : ControlRegion) : ControlRegionStore := mkControlStore (cn_last_position control_region).

(** The control file and the temporary file. *)
Record ControlFiles := mkControlFiles { fs_control : option (list Z); fs_temp : option (list Z) }.

Definition to_le_bytes (n : nat) (v : Z) : list Z := rev (be_bytes n v).
Definition from_le_bytes (b : list Z) : Z := be_val (rev b).

Definition migrate_cells {A B} (migrate : A -> B) (data : LargeTableContainer A) : LargeTableContainer B :=
  List.map (List.map (fun ce => (ce.1, migrate ce.2))) data.

(** [ControlRegionV2::migrate] *)
Definition migrate_v2 (c : ControlRegionV2) : ControlRegion :=
  mkControl (c2_last_position c)
    (migrate_cells (fun e => mkSnapshotEntry (levels_from_legacy_v2_positions e.1) e.2) (c2_snapshot c)) (c2_keyspace_names c).

(** [ControlRegionV1::migrate] *)
Definition migrate_v1 (c : ControlRegionV1) : ControlRegion :=
  mkControl (c1_last_position c)
    (migrate_cells (fun e => mkSnapshotEntry (levels_from_legacy_position e.1) e.2) (c1_snapshot c)) (c1_keyspace_names c).

(** [LargeTableContainer::iter_valid_val_positions] *)
Definition iter_valid_val_positions (data : LargeTableContainer SnapshotEntryData) : list WalPosition :=
  concat (List.map (fun ks => concat (List.map (fun ce => levels_iter (sd_levels ce.2)) ks)) data).

(** The order derived for [WalPosition]: the offset, then the length. *)
Definition wp_max (a b : WalPosition) : WalPosition :=
  if (wp_offset a <? wp_offset b) || (wp_offset a =? wp_offset b) && (wp_len a <=? wp_len b) then b else a.

(** [ControlRegion::last_index_wal_position] *)
Definition last_index_wal_position (c : ControlRegion) : option WalPosition :=
  fold_left (fun m pos => Some (match m with Some x => wp_max x pos | None => pos end)) (iter_valid_val_positions (cn_snapshot c)) None.

(** ** Reading *)

Definition control_new_empty (shape : list KeySpaceDesc) : ControlRegion :=
  mkControl 0 (new_from_key_shape shape snapshot_entry_empty) (List.map ks_name shape).

Definition control_new (snapshot : LargeTableContainer SnapshotEntryData) (last_position : Z) (shape : list KeySpaceDesc) : ControlRegion :=
  mkControl last_position snapshot (List.map ks_name shape).

Definition populate_keyspace_names_if_empty (c : ControlRegion) (shape : list KeySpaceDesc) : ControlRegion :=
  match cn_keyspace_names c with
  | [] => mkControl (cn_last_position c) (cn_snapshot c) (List.map ks_name (take (length (cn_snapshot c)) shape))
  | _ => c
  end.

(** Every stored name against the name of the key space at its place. *)
Fixpoint verify_names (shape : list KeySpaceDesc) (names : list string) : outcome unit :=
  match shape, names with
  | ks :: shape, stored_name :: names =>
      _ ← assert_that (bool_decide (ks_name ks = stored_name)) "Keyspace mismatch at canonical position";
      verify_names shape names
  | _, _ => Ok tt
  end.

Definition verify_shape (c : ControlRegion) (shape : list KeySpaceDesc) : outcome unit :=
  let snapshot_len := length (cn_snapshot c) in
  _ ← assert_that (snapshot_len <=? length shape)%nat "Removing key spaces is not supported";
  verify_names (take snapshot_len shape) (cn_keyspace_names c).

Definition extend_snapshot_if_needed (c : ControlRegion) (shape : list KeySpaceDesc) : ControlRegion :=
  let added := drop (length (cn_snapshot c)) shape in
  mkControl (cn_last_position c) (cn_snapshot c ++ List.map (fun ks => new_keyspace ks snapshot_entry_empty) added)
    (cn_keyspace_names c ++ List.map ks_name added).

Section format.
Context (serialize : ControlRegion -> list Z).
Context (deserialize_v3 : list Z -> option ControlRegion) (deserialize_v2 : list Z -> option ControlRegionV2) (deserialize_v1 : list Z -> option ControlRegionV1).

(** [ControlRegion::deserialize_any_version]; [None] is an error of bincode. *)
Definition deserialize_any_version (bytes : list Z) : outcome (option ControlRegion) :=
  if (CONTROL_REGION_V2_HEADER_LEN <=? length bytes)%nat && (from_le_bytes (take 8 bytes) =? CONTROL_REGION_V2_SENTINEL) then
    let version := from_le_bytes (take 4 (drop 8 bytes)) in
    let payload := drop CONTROL_REGION_V2_HEADER_LEN bytes in
    if version =? CONTROL_REGION_V3_VERSION then Ok (deserialize_v3 payload)
    else if version =? CONTROL_REGION_V2_VERSION then Ok (option_map migrate_v2 (deserialize_v2 payload))
    else Panic "Unsupported control region version"
  else Ok (option_map migrate_v1 (deserialize_v1 bytes)).

(** [ControlRegion::read_or_create] *)
Definition control_read_or_create (file : option (list Z)) (shape : list KeySpaceDesc) : outcome ControlRegion :=
  match file with
  | None => Ok (control_new_empty shape)
  | Some bytes =>
      c ← deserialize_any_version bytes;
      c ← expect c "Failed to read control region file";
      let c := populate_keyspace_names_if_empty c shape in
      _ ← verify_shape c shape;
      Ok (extend_snapshot_if_needed c shape)
  end.

(** What [ControlRegionStore::store] writes. *)
Definition control_bytes (c : ControlRegion) : list Z :=
  to_le_bytes 8 CONTROL_REGION_V2_SENTINEL ++ to_le_bytes 4 CONTROL_REGION_V3_VERSION ++ serialize c.

(** [ControlRegionStore::store]: the files after each of its two operations, and
    the store. *)
Definition control_store (store : ControlRegionStore) (fs : ControlFiles) (snapshot : LargeTableContainer SnapshotEntryData) (last_position : Z)
    (shape : list KeySpaceDesc) : outcome (ControlFiles * ControlFiles * ControlRegionStore) :=
  _ ← assert_that (crs_last_position store <=? last_position) "control region last_position regressed";
  let serialized := control_bytes (control_new snapshot last_position shape) in
  let written := mkControlFiles (fs_control fs) (Some serialized) in
  let renamed := mkControlFiles (fs_temp written) None in
  Ok (written, renamed, mkControlStore last_position).

(** ** Index files *)

Record RelocateFiles := mkRelocateFiles { rf_files : gset WalFileId; rf_layout : WalLayout }.

(** [RelocateFiles::from_accumulator] *)
Definition from_accumulator (alive_bytes : gmap WalFileId Z) (layout : WalLayout) (min_occupancy_pct exclude_from : Z) : outcome RelocateFiles :=
  if min_occupancy_pct =? 0 then Ok (mkRelocateFiles ∅ layout)
  else
    exclude_from_file ← locate_file layout exclude_from;
    let threshold_bytes := Z.min u64_max (wal_file_size layout * min_occupancy_pct) / 100 in
    let selected := List.filter (fun fb => (fb.1 <? exclude_from_file) && (fb.2 <? threshold_bytes)) (map_to_list alive_bytes) in
    Ok (mkRelocateFiles (list_to_set (List.map fst selected)) layout).

Definition relocate_files_is_empty (rf : RelocateFiles) : bool := bool_decide (rf_files rf = ∅).

(** [RelocateFiles::contains] *)
Definition relocate_files_contains (rf : RelocateFiles) (pos : WalPosition) : outcome bool :=
  if relocate_files_is_empty rf then Ok false
  else file_id ← locate_file (rf_layout rf) (wp_offset pos); Ok (bool_decide (file_id ∈ rf_files rf)).

(** [RelocateFiles::contains_any] *)
Fixpoint relocate_files_contains_any (rf : RelocateFiles) (positions : list WalPosition) : outcome bool :=
  if relocate_files_is_empty rf then Ok false
  else match positions with
  | [] => Ok false
  | p :: positions => found ← relocate_files_contains rf p; if found : bool then Ok true else relocate_files_contains_any rf positions
  end.

(** The files of the positions and the last of them. *)
Fixpoint live_files (layout : WalLayout) (positions : list WalPosition) (live : gset WalFileId) (max_live_file : option WalFileId) :
    outcome (gset WalFileId * option WalFileId) :=
  match positions with
  | [] => Ok (live, max_live_file)
  | pos :: rest =>
      file_id ← locate_file layout (wp_offset pos);
      live_files layout rest ({[file_id]} ∪ live) (Some (match max_live_file with Some m => Z.max m file_id | None => file_id end))
  end.

(** The files a rebuild drops. *)
Definition files_to_delete (layout : WalLayout) (pre_snapshot_index_pos : Z) (snapshot : LargeTableContainer SnapshotEntryData) (file_ids : list WalFileId) :
    outcome (list WalFileId) :=
  pre_snapshot_file ← locate_file layout pre_snapshot_index_pos;
  '(live, max_live_file) ← live_files layout (iter_valid_val_positions snapshot) ∅ None;
  match max_live_file with
  | Some max_live_file =>
      let cutoff := Z.min pre_snapshot_file max_live_file in
      Ok (List.filter (fun id => (id <? cutoff) && negb (bool_decide (id ∈ live))) file_ids)
  | None => Ok []
  end.

(** [WalWriter::delete_files], once the mapper has handled the message. *)
Definition writer_delete_files (layout : WalLayout) (mapper : WalMapperThread) (files : list WalFileId) : outcome WalMapperThread :=
  match files with [] => Ok mapper | _ => mapper_handle layout mapper (DeleteFiles files) end.

(** What survives a crash: the files of the control region and of the index. *)
Record Durable := mkDurable { du_control : ControlFiles; du_index : WalFiles }.

(** The temporary file while [fs::write] fills it. *)
Definition torn_writes (fs written : ControlFiles) : list ControlFiles :=
  let bytes := default [] (fs_temp written) in
  List.map (fun n => mkControlFiles (fs_control fs) (Some (firstn n bytes))) (seq 0 (length bytes)).

(** The files while the unlink worker removes, one after the other, those that
    have left the registry. *)
Definition unlinking (index index' : WalFiles) : list WalFiles :=
  let gone := List.filter (fun id => match get_checked index' id with Some _ => false | None => true end) (List.map fst (wf_files index)) in
  List.map (fun n => (without_files index (firstn n gone)).1) (seq 1 (pred (length gone))).

(** The end of [rebuild_control_region_from], from the snapshot on: the durable
    states it goes through, the store and the index mapper. *)
Definition finish_rebuild (layout : WalLayout) (shape : list KeySpaceDesc) (pre_snapshot_index_pos : Z)
    (snapshot : LargeTableContainer SnapshotEntryData) (replay_from : Z) (store : ControlRegionStore) (fs : ControlFiles) (mapper : WalMapperThread) :
    outcome (list Durable * ControlRegionStore * WalMapperThread) :=
  let index := mt_files mapper in
  to_delete ← files_to_delete layout pre_snapshot_index_pos snapshot (List.map fst (wf_files index));
  '(written, renamed, store) ← control_store store fs snapshot replay_from shape;
  mapper ← writer_delete_files layout mapper to_delete;
  Ok (mkDurable fs index :: List.map (fun torn => mkDurable torn index) (torn_writes fs written) ++
      [mkDurable written index; mkDurable renamed index] ++
      List.map (mkDurable renamed) (unlinking index (mt_files mapper)) ++ [mkDurable renamed (mt_files mapper)], store, mapper).
End format.

(** ** The file format *)

Lemma from_to_le n v : 0 <= v < 256 ^ Z.of_nat n -> from_le_bytes (to_le_bytes n v) = v.
Proof. intros Hv. unfold from_le_bytes, to_le_bytes. rewrite rev_involutive. by apply be_val_be_bytes. Qed.

Lemma length_to_le n v : length (to_le_bytes n v) = n.
Proof. unfold to_le_bytes. by rewrite length_rev, length_be_bytes. Qed.

Section facts.
Context (serialize : ControlRegion -> list Z).
Context (deserialize_v3 : list Z -> option ControlRegion) (deserialize_v2 : list Z -> option ControlRegionV2) (deserialize_v1 : list Z -> option ControlRegionV1).
Notation read := (control_read_or_create deserialize_v3 deserialize_v2 deserialize_v1).

(** [bincode] reads back what it wrote for the region. *)
Definition bincode_roundtrips (c : ControlRegion) : Prop := deserialize_v3 (serialize c) = Some c.

Lemma control_bytes_read c : bincode_roundtrips c -> deserialize_any_version deserialize_v3 deserialize_v2 deserialize_v1 (control_bytes serialize c) = Ok (Some c).
Proof.
  intros bincode_roundtrip. unfold deserialize_any_version, control_bytes. set (a := to_le_bytes 8 _). set (b := to_le_bytes 4 _).
  assert (length a = 8%nat) as Ha by apply length_to_le. assert (length b = 4%nat) as Hb by apply length_to_le.
  assert ((CONTROL_REGION_V2_HEADER_LEN <=? length (a ++ b ++ serialize c))%nat = true) as -> by (apply Nat.leb_le; rewrite !length_app, Ha, Hb; unfold CONTROL_REGION_V2_HEADER_LEN; lia).
  assert (take 8 (a ++ b ++ serialize c) = a) as -> by (by rewrite take_app_length').
  assert (drop 8 (a ++ b ++ serialize c) = b ++ serialize c) as -> by (by rewrite drop_app_length').
  assert (take 4 (b ++ serialize c) = b) as -> by (by rewrite take_app_length').
  assert (drop CONTROL_REGION_V2_HEADER_LEN (a ++ b ++ serialize c) = serialize c) as ->.
  { rewrite app_assoc. rewrite drop_app_length'; [done|]. rewrite length_app, Ha, Hb. done. }
  unfold a, b. rewrite !from_to_le by (vm_compute; split; discriminate || done). cbn [andb].
  replace (CONTROL_REGION_V2_SENTINEL =? CONTROL_REGION_V2_SENTINEL) with true by done. by rewrite bincode_roundtrip.
Qed.

Lemma verify_names_same shape : verify_names shape (List.map ks_name shape) = Ok tt.
Proof. induction shape as [|ks shape IH]; cbn; [done|]. by rewrite bool_decide_eq_true_2. Qed.

Lemma verify_names_differ shape i ks name names : shape !! i = Some ks -> names !! i = Some name -> ks_name ks <> name -> exists s, verify_names shape names = Panic s.
Proof.
  revert names i. induction shape as [|k shape IH]; intros [|n names] [|i]; cbn; try done.
  - intros [= ->] [= ->] Hne. rewrite bool_decide_eq_false_2 by done. by eexists.
  - intros Hi Hn Hne. destruct (bool_decide (ks_name k = n)); [|by eexists]. cbn. by apply (IH names i).
Qed.

(** What a region that was stored reads as under a shape. *)
Lemma read_stored c shape : bincode_roundtrips c -> cn_keyspace_names c <> [] \/ cn_snapshot c = [] ->
  read (Some (control_bytes serialize c)) shape =
    (_ ← verify_shape c shape; Ok (extend_snapshot_if_needed c shape)).
Proof.
  intros Hb Hn. unfold control_read_or_create. rewrite control_bytes_read by done. cbn [mbind outcome_bind expect].
  replace (populate_keyspace_names_if_empty c shape) with c; [done|]. destruct c as [p data names]. unfold populate_keyspace_names_if_empty. cbn in *.
  destruct names; [|done]. destruct Hn as [?| ->]; done.
Qed.

Lemma verify_extended snapshot p shape added : length snapshot = length shape -> verify_shape (control_new snapshot p shape) (shape ++ added) = Ok tt.
Proof.
  intros Hl. unfold verify_shape, control_new. cbn [cn_snapshot cn_keyspace_names]. rewrite Hl, length_app. rewrite (proj2 (Nat.leb_le _ _)) by lia. cbn [assert_that mbind outcome_bind].
  rewrite take_app_length. apply verify_names_same.
Qed.

(** ** Dropping index files *)

Context (l : WalLayout) (Hl : layout_ok l).

Definition file_of (pos : WalPosition) : WalFileId := wp_offset pos / wal_file_size l.

Lemma locate_file_at pos : locate_file l (wp_offset pos) = Ok (file_of pos).
Proof. destruct Hl as (_ & _ & (Hw & _) & _). unfold locate_file. apply u64_div_ok. lia. Qed.

Lemma live_files_ok positions : forall live m, exists live' m', live_files l positions live m = Ok (live', m') /\
  (forall id, id ∈ live' <-> id ∈ live \/ exists pos, In pos positions /\ file_of pos = id) /\
  match m' with
  | Some top => (forall x, m = Some x -> x <= top) /\ (forall pos, In pos positions -> file_of pos <= top) /\ (m = Some top \/ exists pos, In pos positions /\ file_of pos = top)
  | None => m = None /\ positions = []
  end.
Proof.
  induction positions as [|pos positions IH]; intros live m; cbn [live_files].
  { exists live, m. split; [done|]. split; [naive_solver|]. destruct m; [|done]. split_and!; [by intros ? [= ->]|done|by left]. }
  rewrite locate_file_at. cbn [mbind outcome_bind]. set (top := match m with Some x => Z.max x (file_of pos) | None => file_of pos end).
  destruct (IH ({[file_of pos]} ∪ live) (Some top)) as (live' & m' & E & Hlive & Hm). exists live', m'. split; [done|]. split.
  - intros id. rewrite Hlive, elem_of_union, elem_of_singleton. cbn [In]. naive_solver.
  - destruct m' as [t|]; [|by destruct Hm]. destruct Hm as (H1 & H2 & H3). specialize (H1 top eq_refl). split_and!.
    + intros x ->. unfold top in H1. lia.
    + intros p [<-|Hp]; [unfold top in H1; destruct m; lia|by apply H2].
    + destruct H3 as [[= <-]|(p & Hp & Et)]; [|right; exists p; split; [by right|done]]. unfold top. destruct m as [x|]; [|right; exists pos; split; [by left|done]].
      destruct (Z.max_spec x (file_of pos)) as [[_ ->]|[_ ->]]; [right; exists pos; split; [by left|done]|by left].
Qed.

(** The position the index writer starts after lies in the last live file. *)
Lemma last_index_file c : match last_index_wal_position c with
  | Some top => In top (iter_valid_val_positions (cn_snapshot c)) /\ forall pos, In pos (iter_valid_val_positions (cn_snapshot c)) -> file_of pos <= file_of top
  | None => iter_valid_val_positions (cn_snapshot c) = []
  end.
Proof.
  destruct Hl as (_ & _ & (Hw & _) & _). unfold last_index_wal_position. set (f := fun m pos => _).
  assert (forall ps m, match fold_left f ps (Some m) with
    | Some top => (top = m \/ In top ps) /\ wp_offset m <= wp_offset top /\ forall pos, In pos ps -> wp_offset pos <= wp_offset top | None => False end) as Hf.
  { induction ps as [|p ps IH]; intros m; cbn [fold_left]; [split_and!; [by left|done|by intros ? []]|]. specialize (IH (wp_max m p)). unfold f at 2.
    destruct (fold_left f ps (Some (wp_max m p))) as [top|]; [|done]. destruct IH as (H1 & H2 & H3).
    assert (wp_offset m <= wp_offset (wp_max m p) /\ wp_offset p <= wp_offset (wp_max m p) /\ (wp_max m p = m \/ wp_max m p = p)) as (Ha & Hb & Hc).
    { unfold wp_max. destruct (Z.ltb_spec (wp_offset m) (wp_offset p)); cbn [orb]; [auto with lia|]. destruct (Z.eqb_spec (wp_offset m) (wp_offset p)); cbn [andb]; [|auto with lia].
      destruct (wp_len m <=? wp_len p); auto with lia. }
    split_and!; [|lia|intros q [<-|Hq]; [lia|by apply H3]]. cbn [In]. destruct H1 as [->|?]; [|auto]. destruct Hc as [->| ->]; auto. }
  destruct (iter_valid_val_positions (cn_snapshot c)) as [|p ps]; [done|]. cbn [fold_left]. specialize (Hf ps p). unfold f at 2.
  destruct (fold_left f ps (Some p)) as [top|]; [|done]. destruct Hf as (H1 & H2 & H3). split; [cbn; naive_solver|].
  intros pos Hp. apply Z.div_le_mono; [lia|]. destruct Hp as [<-|Hp]; [done|by apply H3].
Qed.

(** A dropped file is not one of the snapshot's and is below the last of them. *)
Lemma files_to_delete_ok pre snapshot ids : exists out, files_to_delete l pre snapshot ids = Ok out /\
  forall id, In id out -> In id ids /\ id < pre / wal_file_size l /\ (exists pos, In pos (iter_valid_val_positions snapshot) /\ id < file_of pos) /\
    forall pos, In pos (iter_valid_val_positions snapshot) -> file_of pos <> id.
Proof.
  destruct Hl as (_ & _ & (Hw & _) & _). unfold files_to_delete. unfold locate_file at 1. rewrite u64_div_ok by lia. cbn [mbind outcome_bind].
  destruct (live_files_ok (iter_valid_val_positions snapshot) ∅ None) as (live & m & E & Hlive & Hm). rewrite E. cbn [mbind outcome_bind].
  destruct m as [top|]; [|exists []; split; [done|by intros ? []]]. eexists. split; [done|]. intros id [Hin [Hlt Hn]%andb_true_iff]%filter_In.
  apply negb_true_iff, bool_decide_eq_false in Hn. apply Z.ltb_lt in Hlt. destruct Hm as (_ & _ & [?|(pos & Hp & Et)]); [done|]. split_and!; [done|lia| |].
  - exists pos. split; [done|]. lia.
  - intros p Hp' Ep. apply Hn, Hlive. right. by exists p.
Qed.

(** Every blob the region refers to is in a file that is there. *)
Definition refers (index : WalFiles) (c : ControlRegion) : Prop :=
  forall pos, In pos (iter_valid_val_positions (cn_snapshot c)) -> is_Some (get_checked index (file_of pos)).

(** ** Storing *)

Lemma extended_positions (data : LargeTableContainer SnapshotEntryData) added : Forall ks_ok added ->
  iter_valid_val_positions (data ++ List.map (fun ks => new_keyspace ks snapshot_entry_empty) added) = iter_valid_val_positions data.
Proof.
  intros Ha. unfold iter_valid_val_positions. rewrite map_app, concat_app. rewrite <- (app_nil_r (concat (List.map _ data))) at 2. f_equal.
  induction Ha as [|ks added Hk _ IH]; [done|]. cbn [List.map concat]. rewrite IH, app_nil_r. destruct (new_keyspace_ok ks snapshot_entry_empty Hk) as [_ Hv].
  induction (new_keyspace ks snapshot_entry_empty) as [|[c d] cells IHc]; [done|]. cbn [List.map concat snd].
  rewrite (Hv c d) by by left. rewrite IHc; [done|]. intros c' d' Hin. apply (Hv c'). by right.
Qed.

Lemma read_new snapshot p shape shape' : bincode_roundtrips (control_new snapshot p shape) -> length snapshot = length shape ->
  read (Some (control_bytes serialize (control_new snapshot p shape))) shape' =
    (_ ← verify_shape (control_new snapshot p shape) shape'; Ok (extend_snapshot_if_needed (control_new snapshot p shape) shape')).
Proof.
  intros Hb Hlen. apply read_stored; [done|]. cbn [control_new cn_keyspace_names cn_snapshot]. destruct shape; [right; by destruct snapshot|by left].
Qed.

Lemma read_same snapshot p shape : bincode_roundtrips (control_new snapshot p shape) -> length snapshot = length shape ->
  read (Some (control_bytes serialize (control_new snapshot p shape))) shape = Ok (control_new snapshot p shape).
Proof.
  intros Hb Hlen. rewrite read_new by done. pose proof (verify_extended snapshot p shape [] Hlen) as Hv. rewrite app_nil_r in Hv. rewrite Hv. cbn [mbind outcome_bind].
  unfold extend_snapshot_if_needed, control_new. cbn. by rewrite Hlen, drop_all, !app_nil_r.
Qed.

Lemma read_extended snapshot p shape added : bincode_roundtrips (control_new snapshot p shape) -> length snapshot = length shape ->
  read (Some (control_bytes serialize (control_new snapshot p shape))) (shape ++ added) =
    Ok (control_new (snapshot ++ new_from_key_shape added snapshot_entry_empty) p (shape ++ added)).
Proof.
  intros Hb Hlen. rewrite read_new, verify_extended by done. cbn [mbind outcome_bind]. unfold extend_snapshot_if_needed, control_new. cbn.
  by rewrite Hlen, drop_app_length, map_app.
Qed.

(** The shapes that may not open a region stored under [shape]. *)
Definition incompatible (shape shape' : list KeySpaceDesc) : Prop :=
  (length shape' < length shape)%nat \/ exists i a b, shape !! i = Some a /\ shape' !! i = Some b /\ ks_name b <> ks_name a.

Lemma read_incompatible snapshot p shape shape' : bincode_roundtrips (control_new snapshot p shape) -> length snapshot = length shape ->
  incompatible shape shape' -> exists s, read (Some (control_bytes serialize (control_new snapshot p shape))) shape' = Panic s.
Proof.
  intros Hb Hlen Hi. rewrite read_new by done. unfold verify_shape, control_new. cbn [cn_snapshot cn_keyspace_names]. rewrite Hlen.
  destruct (Nat.leb_spec (length shape) (length shape')) as [Hle|Hlt]; [|by eexists]. cbn [assert_that mbind outcome_bind].
  destruct Hi as [Hi|(i & a & b & Ha & Hb' & Hne)]; [lia|]. pose proof (lookup_lt_Some _ _ _ Ha) as Hlt.
  destruct (verify_names_differ (take (length shape) shape') i b (ks_name a) (List.map ks_name shape)) as [m Hm]; [by rewrite lookup_take_lt| |done|].
  - change (List.map ks_name shape) with (ks_name <$> shape). by rewrite list_lookup_fmap, Ha.
  - exists m. unfold outcome_bind. cbn. by rewrite Hm.
Qed.

Lemma control_store_ok store fs snapshot p shape : crs_last_position store <= p ->
  control_store serialize store fs snapshot p shape =
    Ok (mkControlFiles (fs_control fs) (Some (control_bytes serialize (control_new snapshot p shape))),
        mkControlFiles (Some (control_bytes serialize (control_new snapshot p shape))) None, mkControlStore p).
Proof. intros Hle. unfold control_store. by rewrite (proj2 (Z.leb_le _ _) Hle). Qed.

(** ** Finishing a rebuild *)

Context (Hmax : 3 <= max_maps l).

Lemma delete_or_keep finalized t to_delete : mapper_run l finalized t -> Forall (fun id => id <= map_file l (mt_map_id t)) to_delete ->
  exists t', writer_delete_files l t to_delete = Ok t' /\ mapper_run l finalized t' /\
    forall id file, get_checked (mt_files t) id = Some file -> get_checked (mt_files t') id = Some file \/ In id to_delete /\ get_checked (mt_files t') id = None.
Proof.
  intros Hr Hd. unfold writer_delete_files. cbn [mapper_handle]. destruct to_delete as [|id ids] eqn:E; [exists t; split_and!; auto|]. rewrite <- E in *. destruct (mapper_run_steady l Hl Hmax _ _ Hr) as (Hi & Hp & _).
  destruct (delete_files_ok l Hl Hmax finalized t to_delete Hi Hp Hd) as (t' & Ht & _ & _ & _ & _ & Hg). exists t'. split_and!; [by subst|by eapply (run_message l finalized t (DeleteFiles to_delete))|done].
Qed.

(** The files the dropped ones leave. *)
Definition kept_files (pre : Z) (snapshot : LargeTableContainer SnapshotEntryData) (index index' : WalFiles) : Prop :=
  forall id file, get_checked index id = Some file ->
    get_checked index' id = Some file \/
    get_checked index' id = None /\ id < pre / wal_file_size l /\
      (exists pos, In pos (iter_valid_val_positions snapshot) /\ id < file_of pos) /\
      forall pos, In pos (iter_valid_val_positions snapshot) -> file_of pos <> id.

Lemma kept_refers pre snapshot index index' p shape : kept_files pre snapshot index index' -> refers index (control_new snapshot p shape) -> refers index' (control_new snapshot p shape).
Proof.
  intros Hk Hr pos Hin. destruct (Hr pos Hin) as [file Hf]. destruct (Hk _ _ Hf) as [?|(_ & _ & _ & Hn)]; [by exists file|]. by destruct (Hn pos Hin).
Qed.

Lemma unlinking_keeps pre snapshot index index' w : bt_sorted (wf_files index) -> kept_files pre snapshot index index' ->
  In w (unlinking index index') -> kept_files pre snapshot index w.
Proof.
  intros Hs Hk Hin id file Hf. apply in_map_iff in Hin as (n & <- & _). unfold without_files.
  set (gone := List.filter _ _). destruct (remove_files_get (firstn n gone) (wf_files index) id Hs) as [_ Hg].
  destruct (remove_files (wf_files index) (firstn n gone)) as [fs removed]. cbn [fst] in *. unfold get_checked in *. cbn [wf_files]. rewrite Hg.
  case_bool_decide as Hid; [|by left]. right. split; [done|].
  assert (In id gone) as [_ Hn]%filter_In by (rewrite <- (firstn_skipn n gone); apply in_or_app; left; by apply list_elem_of_In). destruct (Hk id file Hf) as [E|[_ H]]; [|exact H].
  unfold get_checked in E, Hn. by rewrite E in Hn.
Qed.

Lemma kept_from_top pre snapshot index index' p shape : kept_files pre snapshot index index' ->
  forall top id file, last_index_wal_position (control_new snapshot p shape) = Some top -> file_of top <= id -> get_checked index id = Some file -> get_checked index' id = Some file.
Proof.
  intros Hk top id file Ht Hle Hf. destruct (Hk id file Hf) as [?|(_ & _ & (pos & Hin & Hlt) & _)]; [done|].
  pose proof (last_index_file (control_new snapshot p shape)) as Hx. rewrite Ht in Hx. destruct Hx as [_ Hx]. specialize (Hx pos Hin). lia.
Qed.
End facts.

(** ** Claims *)

(** C29. The control region survives its file.  A store whose position did not
    go back writes a region that reads back under the same key spaces followed
    by any new ones: same position, the stored cells, and empty cells for the
    new key spaces, so that the index blobs it names are those stored.  Until
    the rename the control file is untouched.  Under a shape that lost a key
    space, or that has another name at a stored place, reading panics, and so
    does storing an older position afterwards. *)
Theorem control_region_roundtrip serialize deserialize_v3 deserialize_v2 deserialize_v1 store fs snapshot p shape :
  bincode_roundtrips serialize deserialize_v3 (control_new snapshot p shape) -> length snapshot = length shape -> crs_last_position store <= p ->
  exists written renamed, control_store serialize store fs snapshot p shape = Ok (written, renamed, mkControlStore p) /\
    fs_control written = fs_control fs /\
    (forall added, Forall ks_ok added ->
      exists c, control_read_or_create deserialize_v3 deserialize_v2 deserialize_v1 (fs_control renamed) (shape ++ added) = Ok c /\
        cn_last_position c = p /\ cn_keyspace_names c = List.map ks_name (shape ++ added) /\
        cn_snapshot c = snapshot ++ new_from_key_shape added snapshot_entry_empty /\
        iter_valid_val_positions (cn_snapshot c) = iter_valid_val_positions snapshot) /\
    (forall shape', incompatible shape shape' ->
      exists s, control_read_or_create deserialize_v3 deserialize_v2 deserialize_v1 (fs_control renamed) shape' = Panic s) /\
    (forall later q, q < p -> exists s, control_store serialize (mkControlStore p) renamed later q shape = Panic s).
Proof.
  intros Hb Hlen Hle. eexists _, _. split; [by apply control_store_ok|]. cbn [fs_control]. split_and!; [done| | |].
  - intros added Ha. eexists. split; [by apply read_extended|]. split_and!; [done|done|done|]. by apply extended_positions.
  - intros shape' Hi. by apply read_incompatible.
  - intros later q Hq. unfold control_store. rewrite (proj2 (Z.leb_gt _ _)) by done. by eexists.
Qed.

(** C28. A rebuild may crash anywhere.  When the region on disk and the new
    snapshot both name only index files that exist, the end of a rebuild
    returns, and at each of the points where a crash can leave the disk, the
    temporary file half written and some of the files unlinked included, the
    control file reads as the old region or as the new one, every blob of
    which is in a file that is still there.  At the end it reads as the new
    one, the files that are gone are below both the file the writer was in
    before the snapshot and a file of the snapshot and hold none of its blobs,
    the others are as they were, none is gone from the file the index writer
    starts in after a restart on, and the mapper can go on. *)
Theorem rebuild_crash_safe serialize deserialize_v3 deserialize_v2 deserialize_v1 l shape pre snapshot replay_from store fs finalized mapper old :
  layout_ok l -> 3 <= max_maps l -> mapper_run l finalized mapper -> pre / wal_file_size l <= map_file l (mt_map_id mapper) ->
  length snapshot = length shape -> crs_last_position store <= replay_from ->
  bincode_roundtrips serialize deserialize_v3 (control_new snapshot replay_from shape) ->
  control_read_or_create deserialize_v3 deserialize_v2 deserialize_v1 (fs_control fs) shape = Ok old ->
  refers l (mt_files mapper) old -> refers l (mt_files mapper) (control_new snapshot replay_from shape) ->
  exists states mapper', finish_rebuild serialize l shape pre snapshot replay_from store fs mapper = Ok (states, mkControlStore replay_from, mapper') /\
    (forall d, In d states -> exists c, control_read_or_create deserialize_v3 deserialize_v2 deserialize_v1 (fs_control (du_control d)) shape = Ok c /\
      (c = old \/ c = control_new snapshot replay_from shape) /\ refers l (du_index d) c) /\
    (exists d, last states = Some d /\ du_index d = mt_files mapper' /\
      control_read_or_create deserialize_v3 deserialize_v2 deserialize_v1 (fs_control (du_control d)) shape = Ok (control_new snapshot replay_from shape)) /\
    kept_files l pre snapshot (mt_files mapper) (mt_files mapper') /\
    (forall top id file, last_index_wal_position (control_new snapshot replay_from shape) = Some top -> file_of l top <= id ->
      get_checked (mt_files mapper) id = Some file -> get_checked (mt_files mapper') id = Some file) /\
    mapper_run l finalized mapper'.
Proof.
  intros Hl Hmax Hrun Hpre Hlen Hle Hb Hold Hro Hrn. unfold finish_rebuild.
  destruct (files_to_delete_ok l Hl pre snapshot (List.map fst (wf_files (mt_files mapper)))) as (out & -> & Hout). cbn [mbind outcome_bind].
  rewrite control_store_ok by done. cbn [mbind outcome_bind].
  destruct (delete_or_keep l Hl Hmax finalized mapper out Hrun) as (mapper' & -> & Hrun' & Hkeep).
  { apply List.Forall_forall. intros id Hid. destruct (Hout id Hid) as (_ & Hlt & _). lia. }
  assert (kept_files l pre snapshot (mt_files mapper) (mt_files mapper')) as Hkept.
  { intros id file Hf. destruct (Hkeep id file Hf) as [?|[Hin Hn]]; [by left|]. right. split; [done|]. apply Hout in Hin. naive_solver. }
  pose proof (read_same serialize deserialize_v3 deserialize_v2 deserialize_v1 snapshot replay_from shape Hb Hlen) as Hnew.
  eexists _, mapper'. split; [done|]. split_and!; [|eexists; split_and!; [by rewrite app_comm_cons, !app_assoc, last_snoc|reflexivity|exact Hnew]|exact Hkept|by eapply kept_from_top|exact Hrun'].
  assert (forall index', kept_files l pre snapshot (mt_files mapper) index' -> exists c, control_read_or_create deserialize_v3 deserialize_v2 deserialize_v1 (Some (control_bytes serialize (control_new snapshot replay_from shape))) shape = Ok c /\
    (c = old \/ c = control_new snapshot replay_from shape) /\ refers l index' c) as Hafter.
  { intros index' Hk. eexists. split; [exact Hnew|]. split; [by right|]. exact (kept_refers l pre snapshot _ _ _ _ Hk Hrn). }
  intros d [<-|[(torn & <- & (n & <- & _)%in_map_iff)%in_map_iff|[[<-|[<-|[]]]|Hd]%in_app_or]%in_app_or]; [exists old; split; [exact Hold|split; [by left|exact Hro]]..| |].
  - eexists. split; [exact Hnew|]. split; [by right|exact Hrn].
  - destruct (mapper_run_steady l Hl Hmax _ _ Hrun) as (Hi & _).
    apply in_app_or in Hd as [(w & <- & Hw)%in_map_iff|[<-|[]]]; apply Hafter; [|exact Hkept]. exact (unlinking_keeps l pre snapshot _ _ w (mi_files _ _ _ Hi) Hkept Hw).
Qed.

(** ** A region with one blob, moved from the first index file to the second *)

Definition region_shape : list KeySpaceDesc := List.map fst demo_shape.

Definition region_snapshot (offset : Z) : LargeTableContainer SnapshotEntryData :=
  [new_keyspace demo_uniform snapshot_entry_empty; [(CellBytes [1; 16], mkSnapshotEntry (levels_single (mkWalPosition offset 10)) 6)]].

Definition region_serialize (c : ControlRegion) : list Z := to_le_bytes 8 (cn_last_position c).

Definition region_deserialize (b : list Z) : option ControlRegion :=
  Some (control_new (region_snapshot (from_le_bytes b)) (from_le_bytes b) region_shape).

Definition region_files : WalFiles := mkWalFiles [(0, replicate 4096 0); (1, replicate 4096 0); (2, replicate 4096 0)].

Lemma region_roundtrips : bincode_roundtrips region_serialize region_deserialize (control_new (region_snapshot 5000) 5000 region_shape).
Proof. by vm_compute. Qed.

Lemma region_start_ok : start_ok demo_layout [(11, create_map 11)] region_files 11.
Proof.
  split.
  - apply bt_sorted_cons. by split; [constructor|].
  - repeat (apply bt_sorted_cons; split; [|repeat constructor; done]). constructor.
  - cbn. lia.
  - by exists (create_map 11).
  - constructor; [cbn; lia|constructor].
  - intros m mp Hg. cbn in Hg. destruct (Z.compare_spec m 11) as [->| |]; try done. by injection Hg as <-.
  - intros m mp Hg. cbn in Hg. destruct (Z.compare_spec m 11) as [->| |]; try done. exists (replicate 4096 0). split; [done|]. vm_compute. discriminate.
  - split; vm_compute; discriminate.
  - intros id id' Hid [f Hf]. change (map_file demo_layout 11) with 2 in Hid. assert (id' = 2) as ->; [|assert (id = 2) as -> by lia; by eexists].
    unfold get_checked, region_files in Hf. apply bt_get_In in Hf; [|repeat (apply bt_sorted_cons; split; [|repeat constructor; done]); constructor].
    cbn in Hf. destruct Hf as [[= <- _]|[[= <- _]|[[= <- _]|[]]]]; lia.
Qed.

Lemma control_region_roundtrip_witness :
  exists written renamed, control_store region_serialize (mkControlStore 100) (mkControlFiles None None) (region_snapshot 5000) 5000 region_shape =
      Ok (written, renamed, mkControlStore 5000) /\
    exists c, control_read_or_create region_deserialize (fun _ => None) (fun _ => None) (fs_control renamed) (region_shape ++ [demo_uniform]) = Ok c /\
      iter_valid_val_positions (cn_snapshot c) = [mkWalPosition 5000 10] /\ length (cn_snapshot c) = 3%nat.
Proof.
  destruct (control_region_roundtrip region_serialize region_deserialize (fun _ => None) (fun _ => None) (mkControlStore 100) (mkControlFiles None None)
    (region_snapshot 5000) 5000 region_shape region_roundtrips eq_refl ltac:(cbn; lia)) as (written & renamed & Hs & _ & Hr & _).
  exists written, renamed. split; [done|]. destruct (Hr [demo_uniform]) as (c & Hc & _ & _ & Hsn & Hp); [constructor; [apply demo_uniform_ok|constructor]|].
  exists c. split; [done|]. rewrite Hp, Hsn. by split.
Defined.

Definition region_mapper : WalMapperThread :=
  match mapper_start demo_layout [(11, create_map 11)] region_files with Ok t => t | Panic _ => mkMapper [] region_files 0 [] [] end.

Definition region_old_files : ControlFiles :=
  mkControlFiles (Some (control_bytes region_serialize (control_new (region_snapshot 100) 100 region_shape))) None.

Definition has_file (index : WalFiles) (id : WalFileId) : bool := match get_checked index id with Some _ => true | None => false end.

Lemma has_file_some index id : has_file index id = true -> is_Some (get_checked index id).
Proof. unfold has_file. destruct (get_checked index id); [by eexists|done]. Qed.

Lemma region_refers index p q : has_file index (p / wal_file_size demo_layout) = true -> refers demo_layout index (control_new (region_snapshot p) q region_shape).
Proof.
  intros H%has_file_some pos Hin. unfold region_snapshot, control_new in Hin. cbn [cn_snapshot] in Hin.
  replace pos with (mkWalPosition p 10); [done|]. unfold iter_valid_val_positions in Hin. cbn [List.map concat app] in Hin. apply in_app_or in Hin as [Hin|Hin].
  - exfalso. revert Hin. vm_compute. done.
  - cbn in Hin. by destruct (wp_is_valid _); destruct Hin.
Qed.

Lemma region_mapper_run : mapper_run demo_layout 10 region_mapper.
Proof.
  destruct (mapper_start_ok demo_layout demo_layout_ok ltac:(cbn; lia) _ _ _ region_start_ok) as (t & Ht & _).
  unfold region_mapper. rewrite Ht. exact (run_start demo_layout _ _ 11 t region_start_ok Ht).
Qed.

Lemma rebuild_crash_safe_witness :
  exists states mapper', finish_rebuild region_serialize demo_layout region_shape 9000 (region_snapshot 5000) 5000 (mkControlStore 100) region_old_files region_mapper =
      Ok (states, mkControlStore 5000, mapper') /\
    length states = 24%nat /\ has_file (mt_files mapper') 0 = false /\ has_file (mt_files mapper') 1 = true.
Proof.
  destruct (rebuild_crash_safe region_serialize region_deserialize (fun _ => None) (fun _ => None) demo_layout region_shape 9000 (region_snapshot 5000) 5000 (mkControlStore 100)
    region_old_files 10 region_mapper (control_new (region_snapshot 100) 100 region_shape)) as (states & mapper' & Hf & _).
  - exact demo_layout_ok.
  - cbn. lia.
  - exact region_mapper_run.
  - vm_compute. discriminate.
  - reflexivity.
  - cbn. lia.
  - exact region_roundtrips.
  - by vm_compute.
  - apply region_refers. by vm_compute.
  - apply region_refers. by vm_compute.
  - exists states, mapper'. split; [exact Hf|].
    assert ((match finish_rebuild region_serialize demo_layout region_shape 9000 (region_snapshot 5000) 5000 (mkControlStore 100) region_old_files region_mapper with
      | Ok (s, _, m) => (length s, has_file (mt_files m) 0, has_file (mt_files m) 1) | Panic _ => (0%nat, true, false) end) = (24%nat, false, true)) as E by (by vm_compute).
    rewrite Hf in E. apply pair_equal_spec in E as [[E1 E2]%pair_equal_spec E3]. exact (conj E1 (conj E2 E3)).
Defined.
