(* ===== verification/Registry.v ===== *)
(** * The registry of key spaces

    [KeyShape::reorder_to_canonical], [KeySpaces] and the builder's last checks
    of [src/tidehunter/src/key_shape.rs]; [Db::reconcile_key_shape], the shape
    file, the shape part of [Db::open] and [Db::tombstone_key_space] of
    [src/tidehunter/src/db.rs].

    A key space is known on disk by its place in the registry.  The results are
    that a place keeps its name and its layout for good whatever the order key
    spaces are declared in, that the control region never disagrees with the
    registry, and that opening with the shape read back from a registry that
    holds a tombstone goes wrong.

    [serde_yaml] is a parameter.  The tuning options of a key space are not part
    of its description here; whether it has a bloom filter and a compactor are
    arguments of the builder's check. *)

From Stdlib Require Import ZArith Lia List.
From stdpp Require Import base tactics list gmap strings relations.
From S2P Require Import Prelude BTree Bytes Position Cell Layout KeyShape Levels TableEntry Snapshot Control.

Local Open Scope Z_scope.

(** A shape is its one field, [key_spaces]. *)
Definition KeyShape : Type := list KeySpaceDesc.

(** The handles by name. *)
Record KeySpaces := mkKeySpaces { by_name : gmap string Z }.

#[export] Instance KeySpaceDesc_eq_dec : EqDecision KeySpaceDesc.
Proof. solve_decision. Defined.

(** ** Building a shape *)

(** [KeyShapeBuilder::self_check] *)
Fixpoint self_check (bloom_filter compactor : KeySpaceDesc -> bool) (key_spaces : KeyShape) : outcome unit :=
  match key_spaces with
  | [] => Ok tt
  | ks :: key_spaces =>
      _ ← assert_that (negb (bloom_filter ks && compactor ks)) "key space with both compactor and bloom filter enabled";
      _ ← verify_key_size (ks_key_type ks) (ks_index_key_size ks);
      self_check bloom_filter compactor key_spaces
  end.

(** [KeyShapeBuilder::build] *)
Definition shape_build (bloom_filter compactor : KeySpaceDesc -> bool) (key_spaces : KeyShape) : outcome KeyShape :=
  _ ← self_check bloom_filter compactor key_spaces; Ok key_spaces.

(** [KeyShape::new_single_config_indexing] *)
Definition new_single_config_indexing (key_indexing : KeyIndexing) (mutexes : Z) (key_type : KeyType) : outcome KeyShape :=
  _ ← assert_that (is_power_of_two mutexes) "mutexes should be power of 2";
  Ok [mkKeySpace 0 "root" key_indexing mutexes key_type false].

(** ** The canonical order *)

Definition with_id (d : KeySpaceDesc) (id : Z) : KeySpaceDesc :=
  mkKeySpace id (ks_name d) (ks_key_indexing d) (ks_mutexes d) (ks_key_type d) (ks_destroyed d).

Definition layout_matches (declared stored : KeySpaceDesc) : bool :=
  bool_decide (ks_mutexes declared = ks_mutexes stored) && bool_decide (ks_key_type declared = ks_key_type stored)
  && bool_decide (ks_key_indexing declared = ks_key_indexing stored).

Lemma assert_layout_eq declared stored : assert_layout_matches declared stored =
  if layout_matches declared stored then Ok tt else Panic "Key space was created with a different layout than the configuration declares".
Proof. reflexivity. Qed.

Definition next_id (ordered : KeyShape) : outcome Z :=
  _ ← assert_that (Z.of_nat (length ordered) <? u8_max) "Maximum 255 key spaces exceeded";
  Ok (wrap8 (Z.of_nat (length ordered))).

(** The first declared key space of the name that was not taken. *)
Fixpoint take_declared (remaining : list (option KeySpaceDesc)) (name : string) : option (KeySpaceDesc * list (option KeySpaceDesc)) :=
  match remaining with
  | [] => None
  | Some d :: rest =>
      if String.eqb (ks_name d) name then Some (d, None :: rest)
      else option_map (fun dr => (dr.1, Some d :: dr.2)) (take_declared rest name)
  | None :: rest => option_map (fun dr => (dr.1, None :: dr.2)) (take_declared rest name)
  end.

(** The loop over the registry. *)
Fixpoint reorder_registry (registry ordered : KeyShape) (exposed : gmap string Z) (remaining : list (option KeySpaceDesc)) :
    outcome (KeyShape * gmap string Z * list (option KeySpaceDesc)) :=
  match registry with
  | [] => Ok (ordered, exposed, remaining)
  | reg :: registry =>
      id ← next_id ordered;
      if ks_destroyed reg then reorder_registry registry (ordered ++ [with_id reg id]) exposed remaining
      else match take_declared remaining (ks_name reg) with
      | Some (desc, remaining) =>
          _ ← assert_layout_matches desc reg;
          reorder_registry registry (ordered ++ [with_id desc id]) (<[ks_name desc := id]> exposed) remaining
      | None => reorder_registry registry (ordered ++ [with_id reg id]) exposed remaining
      end
  end.

(** The loop over the key spaces that are left. *)
Fixpoint append_declared (remaining : list (option KeySpaceDesc)) (ordered : KeyShape) (exposed : gmap string Z) (changed : bool) :
    outcome (KeyShape * gmap string Z * bool) :=
  match remaining with
  | [] => Ok (ordered, exposed, changed)
  | None :: remaining => append_declared remaining ordered exposed changed
  | Some desc :: remaining =>
      id ← next_id ordered;
      append_declared remaining (ordered ++ [with_id desc id]) (<[ks_name desc := id]> exposed) true
  end.

(** [KeyShape::reorder_to_canonical] *)
Definition reorder_to_canonical (declared : KeyShape) (registry : option KeyShape) : outcome (KeyShape * KeySpaces * bool) :=
  '(ordered, exposed, remaining) ← reorder_registry (default [] registry) [] ∅ (List.map Some declared);
  '(ordered, exposed, changed) ← append_declared remaining ordered exposed false;
  Ok (ordered, mkKeySpaces exposed, changed).

(** *** [KeySpaces] *)

Definition keyspaces_try_ks (k : KeySpaces) (name : string) : option Z := by_name k !! name.

Definition keyspaces_ks (k : KeySpaces) (name : string) : outcome Z := expect (keyspaces_try_ks k name) "Unknown key space".

Definition keyspaces_single (k : KeySpaces) : outcome Z :=
  _ ← assert_that (size (by_name k) =? 1)%nat "KeySpaces::single requires exactly one exposed key space";
  expect (head (List.map snd (map_to_list (by_name k)))) "called `Option::unwrap()` on a `None` value".

(** ** The shape file *)

(** [shape_v2.yaml], its temporary file and the file of older versions. *)
Record ShapeFiles := mkShapeFiles { sf_v2 : option (list Z); sf_temp : option (list Z); sf_legacy : option (list Z) }.

(** An open database, as far as shapes go. *)
Record OpenDb := mkOpenDb { od_shape : KeyShape; od_keyspaces : KeySpaces; od_store : ControlRegionStore }.

Section files.
Context (to_yaml : KeyShape -> option (list Z)) (from_yaml : list Z -> option KeyShape).
Context (deserialize_v3 : list Z -> option ControlRegion) (deserialize_v2 : list Z -> option ControlRegionV2) (deserialize_v1 : list Z -> option ControlRegionV1).

(** [Db::load_key_shape]; [None] is an error. *)
Definition load_key_shape (files : ShapeFiles) : option KeyShape :=
  match sf_v2 files with
  | Some yaml => from_yaml yaml
  | None => match sf_legacy files with Some yaml => from_yaml yaml | None => None end
  end.

(** [Db::reconcile_key_shape] *)
Definition reconcile_key_shape (files : ShapeFiles) (declared : KeyShape) : outcome (option (KeyShape * KeySpaces * bool)) :=
  match sf_v2 files with
  | Some yaml =>
      match from_yaml yaml with
      | Some registry =>
          '(key_shape, keyspaces, changed) ← reorder_to_canonical declared (Some registry);
          Ok (Some (key_shape, keyspaces, changed))
      | None => Ok None
      end
  | None =>
      '(key_shape, keyspaces, changed) ← reorder_to_canonical declared None;
      Ok (Some (key_shape, keyspaces, true))
  end.

(** [Db::write_shape_file]: the files before the rename and after it. *)
Definition write_shape_file (files : ShapeFiles) (key_shape : KeyShape) : option (ShapeFiles * ShapeFiles) :=
  match to_yaml key_shape with
  | Some yaml => Some (mkShapeFiles (sf_v2 files) (Some yaml) (sf_legacy files), mkShapeFiles (Some yaml) None (sf_legacy files))
  | None => None
  end.

(** The shape part of [Db::open]: the files before and after the rename, and
    the database. *)
Definition open_shapes (files : ShapeFiles) (control : ControlFiles) (declared : KeyShape) : outcome (option (ShapeFiles * ShapeFiles * OpenDb)) :=
  r ← reconcile_key_shape files declared;
  match r with
  | None => Ok None
  | Some (key_shape, keyspaces, registry_dirty) =>
      control_region ← control_read_or_create deserialize_v3 deserialize_v2 deserialize_v1 (fs_control control) key_shape;
      let db := mkOpenDb key_shape keyspaces (control_store_new control_region) in
      if registry_dirty : bool then Ok (option_map (fun wr => (wr.1, wr.2, db)) (write_shape_file files key_shape))
      else Ok (Some (files, files, db))
  end.

(** [KeySpaceDesc::mark_destroyed] on the key space at a place. *)
Definition mark_destroyed (d : KeySpaceDesc) : KeySpaceDesc :=
  mkKeySpace (ks_id d) (ks_name d) (ks_key_indexing d) (ks_mutexes d) (ks_key_type d) true.

Definition is_live_named (name : string) (d : KeySpaceDesc) : bool := String.eqb (ks_name d) name && negb (ks_destroyed d).

Fixpoint mark_first (name : string) (key_shape : KeyShape) : option (KeySpaceDesc * KeyShape) :=
  match key_shape with
  | [] => None
  | d :: rest =>
      if is_live_named name d then Some (d, mark_destroyed d :: rest)
      else option_map (fun dr => (dr.1, d :: dr.2)) (mark_first name rest)
  end.

(** [Db::tombstone_key_space]; [inl] is an error of the shape file. *)
Definition tombstone_key_space (db : OpenDb) (files : ShapeFiles) (name : string) : outcome (OpenDb * ShapeFiles * (unit + option Z)) :=
  _ ← assert_that (match keyspaces_try_ks (od_keyspaces db) name with None => true | Some _ => false end) "Cannot destroy key space: it is declared";
  match mark_first name (od_shape db) with
  | None =>
      _ ← assert_that (existsb (fun ks => String.eqb (ks_name ks) name) (od_shape db)) "Unknown key space";
      Ok (db, files, inr None)
  | Some (ksd, key_shape) =>
      match write_shape_file files key_shape with
      | Some (_, files) => Ok (mkOpenDb key_shape (od_keyspaces db) (od_store db), files, inr (Some (ks_id ksd)))
      | None => Ok (db, files, inl tt)
      end
  end.
End files.

(** ** The order is stable *)

Definition names (shape : list KeySpaceDesc) : list string := List.map ks_name shape.

Definition live (d : KeySpaceDesc) : bool := negb (ks_destroyed d).

Definition live_names (shape : list KeySpaceDesc) : list string := names (List.filter live shape).

(** What the builder makes. *)
Definition declared_ok (declared : list KeySpaceDesc) : Prop := NoDup (names declared) /\ Forall (fun d => ks_destroyed d = false) declared.

(** Places are ids, a name is live at most once, and ids stay below 255. *)
Record registry_ok (registry : list KeySpaceDesc) : Prop := mkRegistryOk {
  ro_ids : forall i d, registry !! i = Some d -> ks_id d = Z.of_nat i;
  ro_live : NoDup (live_names registry);
  ro_len : Z.of_nat (length registry) <= u8_max;
}.

(** Declared key spaces keep the layout of the live key space of their name. *)
Definition layouts_match (declared registry : list KeySpaceDesc) : Prop :=
  forall d reg, In d declared -> In reg registry -> ks_destroyed reg = false -> ks_name d = ks_name reg -> layout_matches d reg = true.

(** The declared key spaces with the taken ones left out. *)
Definition unclaimed (taken : list string) (declared : list KeySpaceDesc) : list (option KeySpaceDesc) :=
  List.map (fun d => if decide (ks_name d ∈ taken) then None else Some d) declared.

Definition fresh (registry declared : list KeySpaceDesc) : list KeySpaceDesc := List.filter (fun d => negb (bool_decide (ks_name d ∈ live_names registry))) declared.

Fixpoint number (n : nat) (l : list KeySpaceDesc) : list KeySpaceDesc := match l with [] => [] | d :: l => with_id d (Z.of_nat n) :: number (S n) l end.

(** The handles: the declared names that are live, at their places. *)
Definition exposed_ok (shape declared : list KeySpaceDesc) (exposed : gmap string Z) : Prop :=
  forall n id, exposed !! n = Some id <-> exists i d, shape !! i = Some d /\ id = Z.of_nat i /\ ks_destroyed d = false /\ ks_name d = n /\ n ∈ names declared.

Lemma builder_declared_ok key_spaces name ki m kt out : declared_ok key_spaces ->
  add_key_space_config_indexing key_spaces name ki m kt = Ok out -> declared_ok out.
Proof.
  intros [Hn Hd] H. unfold add_key_space_config_indexing in H. repeat inv_ok H. split.
  - unfold names. rewrite map_app. apply NoDup_app. split_and!; [done| |apply NoDup_singleton]. intros x (d & <- & Hin)%list_elem_of_In%in_map_iff.
    intros Hx%list_elem_of_singleton. cbn in Hx. rewrite forallb_forall in *. match goal with Hf : forall x, In x key_spaces -> _ |- _ => specialize (Hf d Hin); by rewrite Hx, String.eqb_refl in Hf end.
  - apply Forall_app. split; [done|]. by constructor.
Qed.

Lemma next_id_ok ordered : Z.of_nat (length ordered) < u8_max -> next_id ordered = Ok (Z.of_nat (length ordered)).
Proof.
  intros H. unfold next_id. rewrite (proj2 (Z.ltb_lt _ _) H). cbn [assert_that mbind outcome_bind]. f_equal. unfold wrap8. apply Z.mod_small. unfold u8_max in H. lia.
Qed.

Lemma with_id_same d i : ks_id d = i -> with_id d i = d.
Proof. intros <-. by destruct d. Qed.

(** A declared key space in the place of its registry entry is the entry. *)
Lemma with_id_matches d reg i : ks_id reg = i -> ks_name d = ks_name reg -> ks_destroyed d = false -> ks_destroyed reg = false -> layout_matches d reg = true -> with_id d i = reg.
Proof.
  intros <- Hn Hd Hr [[Hm%bool_decide_eq_true Ht%bool_decide_eq_true]%andb_true_iff Hi%bool_decide_eq_true]%andb_true_iff. destruct d, reg; cbn in *. by subst.
Qed.

Lemma unclaimed_ext a b declared : (forall d, In d declared -> ks_name d ∈ a <-> ks_name d ∈ b) -> unclaimed a declared = unclaimed b declared.
Proof.
  intros H. apply map_ext_in. intros d Hd. specialize (H d Hd). destruct (decide (ks_name d ∈ a)), (decide (ks_name d ∈ b)); naive_solver.
Qed.

Lemma take_declared_unclaimed taken declared n : NoDup (names declared) -> n ∉ taken ->
  match take_declared (unclaimed taken declared) n with
  | Some (d, rest) => In d declared /\ ks_name d = n /\ rest = unclaimed (n :: taken) declared
  | None => n ∉ names declared
  end.
Proof.
  intros Hnd Hn. induction declared as [|d declared IH]; cbn [unclaimed List.map take_declared]; [apply not_elem_of_nil|].
  apply NoDup_cons in Hnd as [Hd Hnd]. specialize (IH Hnd). fold (unclaimed taken declared) (unclaimed (n :: taken) declared).
  destruct (decide (ks_name d ∈ taken)) as [Ht|Ht]; cbn [take_declared].
  - destruct (take_declared (unclaimed taken declared) n) as [[x r]|]; cbn [option_map fst snd].
    + destruct IH as (Hin & Hx & ->). split_and!; [by right|done|]. rewrite decide_True by (by right). done.
    + intros [->|?]%elem_of_cons; naive_solver.
  - destruct (String.eqb_spec (ks_name d) n) as [<-|Hne].
    + split_and!; [by left|done|]. rewrite decide_True by left. f_equal. apply unclaimed_ext. intros x Hx. rewrite elem_of_cons.
      split; [by right|]. intros [E|?]; [|done]. destruct Hd. rewrite <- E. by apply list_elem_of_In, in_map.
    + destruct (take_declared (unclaimed taken declared) n) as [[x r]|]; cbn [option_map fst snd].
      * destruct IH as (Hin & Hx & ->). split_and!; [by right|done|]. rewrite decide_False; [done|]. rewrite elem_of_cons. naive_solver.
      * intros [->|?]%elem_of_cons; naive_solver.
Qed.

Lemma live_names_app a b : live_names (a ++ b) = live_names a ++ live_names b.
Proof. unfold live_names, names. by rewrite List.filter_app, map_app. Qed.

Lemma live_names_In shape d : In d shape -> ks_destroyed d = false -> ks_name d ∈ live_names shape.
Proof. intros Hin Hd. apply list_elem_of_In, in_map, filter_In. split; [done|]. unfold live. by rewrite Hd. Qed.

(** One more place that no handle is for. *)
Lemma exposed_skip pre declared exposed reg : exposed_ok pre declared exposed ->
  ks_destroyed reg = true \/ ks_name reg ∉ names declared -> exposed_ok (pre ++ [reg]) declared exposed.
Proof.
  intros He Hskip n id. rewrite (He n id). split; intros (i & d & Hi & E & Hd & Hn & Hin); exists i, d; (split; [|done]).
  - by apply lookup_app_l_Some.
  - apply lookup_app_Some in Hi as [?|[Hge Hi]]; [done|]. apply list_lookup_singleton_Some in Hi as [_ <-]. destruct Hskip; [congruence|]. by subst.
Qed.

(** One more place, with its handle. *)
Lemma exposed_add pre declared exposed reg : exposed_ok pre declared exposed ->
  ks_destroyed reg = false -> ks_name reg ∈ names declared -> ks_name reg ∉ live_names pre ->
  exposed_ok (pre ++ [reg]) declared (<[ks_name reg := Z.of_nat (length pre)]> exposed).
Proof.
  intros He Hd Hin Hfresh n id. destruct (decide (ks_name reg = n)) as [<-|Hne].
  - rewrite lookup_insert_eq. split.
    + intros [= <-]. exists (length pre), reg. split_and!; try done. rewrite lookup_app_r by done. by rewrite Nat.sub_diag.
    + intros (i & d & Hi & -> & Hd' & Hn & _). apply lookup_app_Some in Hi as [Hi|[Hge Hi]].
      * destruct Hfresh. rewrite <- Hn. apply live_names_In; [|done]. by eapply list_elem_of_In, list_elem_of_lookup_2.
      * apply list_lookup_singleton_Some in Hi as [Hi _]. do 2 f_equal. lia.
  - rewrite lookup_insert_ne by done. rewrite (He n id). split; intros (i & d & Hi & Hrest); exists i, d; (split; [|done]).
    + by apply lookup_app_l_Some.
    + apply lookup_app_Some in Hi as [?|[Hge Hi]]; [done|]. apply list_lookup_singleton_Some in Hi as [_ <-]. by destruct Hrest as (_ & _ & ? & _).
Qed.

Lemma reorder_registry_ok declared (Hdecl : declared_ok declared) post : forall pre exposed taken,
  registry_ok (pre ++ post) -> layouts_match declared (pre ++ post) -> exposed_ok pre declared exposed ->
  (forall d, In d declared -> ks_name d ∈ taken <-> ks_name d ∈ live_names pre) -> (forall n, n ∈ taken -> n ∈ live_names pre) ->
  exists exposed' taken', reorder_registry post pre exposed (unclaimed taken declared) = Ok (pre ++ post, exposed', unclaimed taken' declared) /\
    exposed_ok (pre ++ post) declared exposed' /\ (forall d, In d declared -> ks_name d ∈ taken' <-> ks_name d ∈ live_names (pre ++ post)).
Proof.
  induction post as [|reg post IH]; intros pre exposed taken Hok Hm He Ht Hsub; cbn [reorder_registry].
  { exists exposed, taken. by rewrite app_nil_r. }
  assert ((pre ++ [reg]) ++ post = pre ++ reg :: post) as Eapp by (by rewrite <- app_assoc).
  assert (ks_id reg = Z.of_nat (length pre)) as Hid by (apply (ro_ids _ Hok (length pre)); by rewrite lookup_app_r, Nat.sub_diag).
  rewrite next_id_ok by (pose proof (ro_len _ Hok) as Hlen; rewrite length_app in Hlen; cbn in Hlen; lia). cbn [mbind outcome_bind].
  pose proof (ro_live _ Hok) as Hnd. rewrite live_names_app in Hnd. unfold live_names at 2 in Hnd. cbn [List.filter] in Hnd. unfold live at 1 in Hnd.
  destruct (ks_destroyed reg) eqn:Hd.
  { rewrite with_id_same by done. rewrite <- Eapp. apply IH; rewrite ?Eapp; auto using exposed_skip.
    - intros d Hin. rewrite live_names_app, elem_of_app. unfold live_names at 2. cbn. unfold live. rewrite Hd. cbn. rewrite elem_of_nil. naive_solver.
    - intros n Hn. rewrite live_names_app, elem_of_app. left. by apply Hsub. }
  cbn [negb names List.map] in Hnd. apply NoDup_app in Hnd as (_ & Hdis & _).
  assert (ks_name reg ∉ live_names pre) as Hnew by (intros Hx; apply (Hdis _ Hx); left).
  assert (live_names (pre ++ [reg]) = live_names pre ++ [ks_name reg]) as El by (rewrite live_names_app; unfold live_names at 2, live; cbn; by rewrite Hd).
  pose proof (take_declared_unclaimed taken declared (ks_name reg) (proj1 Hdecl) ltac:(naive_solver)) as Htake.
  destruct (take_declared (unclaimed taken declared) (ks_name reg)) as [[desc rest]|].
  - destruct Htake as (Hin & Hname & ->). assert (layout_matches desc reg = true) as Hmatch by (apply Hm; [done|apply in_app_iff; right; by left|done|done]).
    assert (ks_destroyed desc = false) as Hdd by (destruct Hdecl as [_ Hall]; rewrite List.Forall_forall in Hall; by apply Hall).
    rewrite assert_layout_eq, Hmatch. cbn [assert_that mbind outcome_bind]. rewrite (with_id_matches desc reg) by done. rewrite Hname, <- Eapp. apply IH; rewrite ?Eapp; try done.
    + apply exposed_add; [done|done| |done]. rewrite <- Hname. by apply list_elem_of_In, in_map.
    + intros d Hd'. rewrite El, elem_of_app, list_elem_of_singleton, elem_of_cons, (Ht d Hd'). naive_solver.
    + intros n. rewrite El, elem_of_app, list_elem_of_singleton, elem_of_cons. naive_solver.
  - rewrite with_id_same by done. rewrite <- Eapp. apply IH; rewrite ?Eapp; auto using exposed_skip.
    + intros d Hd'. rewrite El, elem_of_app, list_elem_of_singleton, (Ht d Hd'). split; [by left|]. intros [?|E]; [done|]. destruct Htake. rewrite <- E. by apply list_elem_of_In, in_map.
    + intros n Hn. rewrite El, elem_of_app. left. by apply Hsub.
Qed.

Definition untaken (taken : list string) (rest : list KeySpaceDesc) : list KeySpaceDesc := List.filter (fun d => negb (bool_decide (ks_name d ∈ taken))) rest.

Definition is_nil {A} (l : list A) : bool := match l with [] => true | _ => false end.

Lemma append_declared_ok declared taken rest : forall ordered exposed changed,
  NoDup (names rest) -> Forall (fun d => ks_destroyed d = false /\ In d declared) rest -> exposed_ok ordered declared exposed ->
  (forall d, In d rest -> ks_name d ∉ taken -> ks_name d ∉ live_names ordered) ->
  Z.of_nat (length ordered) + Z.of_nat (length (untaken taken rest)) <= u8_max ->
  exists exposed', append_declared (unclaimed taken rest) ordered exposed changed =
      Ok (ordered ++ number (length ordered) (untaken taken rest), exposed', changed || negb (is_nil (untaken taken rest))) /\
    exposed_ok (ordered ++ number (length ordered) (untaken taken rest)) declared exposed'.
Proof.
  induction rest as [|d rest IH]; intros ordered exposed changed Hnd Hall He Hnew Hlen; cbn [unclaimed List.map append_declared untaken List.filter number].
  { exists exposed. by rewrite app_nil_r, orb_false_r. }
  apply NoDup_cons in Hnd as [Hd Hnd]. apply Forall_cons in Hall as [[Hdd Hin] Hall]. fold (unclaimed taken rest) (untaken taken rest). cbn [untaken List.filter] in Hlen. fold (untaken taken rest) in Hlen.
  destruct (decide (ks_name d ∈ taken)) as [Ht|Ht].
  - rewrite bool_decide_eq_true_2 in * by done. cbn [negb append_declared] in *. apply IH; try done. intros x Hx. apply Hnew. by right.
  - rewrite bool_decide_eq_false_2 in * by done. cbn [negb append_declared length number is_nil] in *. rewrite next_id_ok by lia. cbn [mbind outcome_bind].
    destruct (IH (ordered ++ [with_id d (Z.of_nat (length ordered))]) (<[ks_name d := Z.of_nat (length ordered)]> exposed) true) as (e & E & He'); try done.
    + apply (exposed_add ordered declared exposed (with_id d (Z.of_nat (length ordered)))); [done|done|cbn [with_id ks_name]; by apply list_elem_of_In, in_map|]. apply (Hnew d); [by left|done].
    + intros x Hx Hxt. rewrite live_names_app. unfold live_names at 2, live. cbn. rewrite Hdd. cbn. rewrite elem_of_app, list_elem_of_singleton. intros [Hx'|Ex].
      * by apply (Hnew x ltac:(by right) Hxt).
      * apply Hd. rewrite <- Ex. by apply list_elem_of_In, in_map.
    + rewrite length_app. cbn. lia.
    + rewrite length_app, Nat.add_1_r, <- app_assoc in E, He'. cbn [app] in E, He'. exists e. rewrite E. split; [|done]. by rewrite orb_true_r.
Qed.

Lemma unclaimed_nil declared : unclaimed [] declared = List.map Some declared.
Proof. apply map_ext_in. intros d _. by destruct (decide (ks_name d ∈ [])) as [?%elem_of_nil|]. Qed.

Lemma untaken_fresh registry declared taken : (forall d, In d declared -> ks_name d ∈ taken <-> ks_name d ∈ live_names registry) -> untaken taken declared = fresh registry declared.
Proof. intros H. apply filter_ext_in. intros d Hd. f_equal. apply bool_decide_ext. by apply H. Qed.

Lemma unclaimed_live registry declared (taken : list string) : (forall d, In d declared -> ks_name d ∈ taken <-> ks_name d ∈ live_names registry) -> forall d, In d declared -> ks_name d ∉ taken -> ks_name d ∉ live_names registry.
Proof. intros H d Hd Ht. by rewrite <- (H d Hd). Qed.

Lemma reorder_canonical registry declared : declared_ok declared -> registry_ok registry -> layouts_match declared registry ->
  Z.of_nat (length registry) + Z.of_nat (length (fresh registry declared)) <= u8_max ->
  exists exposed, reorder_to_canonical declared (Some registry) = Ok (registry ++ number (length registry) (fresh registry declared), mkKeySpaces exposed, negb (is_nil (fresh registry declared))) /\
    exposed_ok (registry ++ number (length registry) (fresh registry declared)) declared exposed.
Proof.
  intros Hd Hr Hm Hlen. unfold reorder_to_canonical. cbn [default from_option id]. rewrite <- unclaimed_nil.
  destruct (reorder_registry_ok declared Hd registry [] ∅ [] Hr Hm) as (e & taken & E & He & Ht).
  - intros n id. rewrite lookup_empty. split; [done|]. by intros (i & d & Hi & _).
  - intros d _. reflexivity.
  - by intros n Hn%elem_of_nil.
  - change (default [] (Some registry)) with registry. rewrite E. cbn [mbind outcome_bind app]. rewrite <- (untaken_fresh registry declared taken) in * by done.
    destruct Hd as [Hn Hall]. destruct (append_declared_ok declared taken declared registry e false) as (e' & Ea & He'); try done.
    + apply List.Forall_forall. intros d Hin. split; [|done]. rewrite List.Forall_forall in Hall. by apply Hall.
    + by apply unclaimed_live.
    + exists e'. rewrite Ea. by split.
Qed.

(** The registry with the new key spaces is one. *)
Lemma number_lookup l : forall n i d, number n l !! i = Some d -> ks_id d = Z.of_nat (n + i) /\ exists d', l !! i = Some d' /\ d = with_id d' (Z.of_nat (n + i)).
Proof.
  induction l as [|x l IH]; intros n [|i] d; cbn [number]; try done.
  - intros [= <-]. rewrite Nat.add_0_r. cbn. split; [done|]. by exists x.
  - intros Hi. rewrite Nat.add_succ_r. by apply (IH (S n)).
Qed.

Lemma number_names l : forall n, names (number n l) = names l.
Proof. induction l as [|x l IH]; intros n; cbn; [done|]. f_equal. apply IH. Qed.

Lemma length_number l : forall n, length (number n l) = length l.
Proof. induction l as [|x l IH]; intros n; cbn; [done|]. f_equal. apply IH. Qed.

Lemma number_live l : Forall (fun d => ks_destroyed d = false) l -> forall n, live_names (number n l) = names l.
Proof.
  induction 1 as [|x l Hx _ IH]; intros n; [done|]. unfold live_names, live. cbn. rewrite Hx. cbn. f_equal. apply IH.
Qed.

Lemma fresh_live registry declared : Forall (fun d => ks_destroyed d = false) declared -> Forall (fun d => ks_destroyed d = false) (fresh registry declared).
Proof. rewrite !List.Forall_forall. intros H d [Hd _]%filter_In. by apply H. Qed.

Lemma fresh_exposed registry declared exposed d : exposed_ok (registry ++ number (length registry) (fresh registry declared)) declared exposed ->
  Forall (fun d => ks_destroyed d = false) declared -> In d (fresh registry declared) -> is_Some (exposed !! ks_name d).
Proof.
  intros He Hall Hf. pose proof Hf as [Hin _]%filter_In. apply list_elem_of_In, list_elem_of_lookup_1 in Hf as [i Hf].
  assert (number (length registry) (fresh registry declared) !! i = Some (with_id d (Z.of_nat (length registry + i)))) as Hn.
  { revert Hf. generalize (length registry). generalize (fresh registry declared). intros l. revert i. induction l as [|x l IH]; intros [|i] n; cbn; try done.
    - intros [= ->]. by rewrite Nat.add_0_r.
    - intros Hf. pose proof (IH i (S n) Hf) as E. cbn in E. by rewrite Nat.add_succ_r. }
  exists (Z.of_nat (length registry + i)). apply He. exists (length registry + i)%nat, (with_id d (Z.of_nat (length registry + i))). split_and!; try done.
  - rewrite lookup_app_r by lia. by replace (length registry + i - length registry)%nat with i by lia.
  - rewrite List.Forall_forall in Hall. exact (Hall d Hin).
  - cbn. by apply list_elem_of_In, in_map.
Qed.

Lemma registry_extended registry declared : declared_ok declared -> registry_ok registry ->
  Z.of_nat (length registry) + Z.of_nat (length (fresh registry declared)) <= u8_max ->
  registry_ok (registry ++ number (length registry) (fresh registry declared)).
Proof.
  intros [Hn Hall] [Hids Hlive Hlen] Hfit. split.
  - intros i d Hi. apply lookup_app_Some in Hi as [Hi|[Hge Hi]]; [by apply Hids|]. apply number_lookup in Hi as [-> _]. f_equal. lia.
  - rewrite live_names_app, number_live by by apply fresh_live. apply NoDup_app. split_and!; [done| |].
    + intros n Hl (d & <- & Hin)%list_elem_of_In%in_map_iff. apply filter_In in Hin as [_ Hb]. apply negb_true_iff, bool_decide_eq_false in Hb. done.
    + revert Hn. unfold fresh, names. clear Hall Hfit. induction declared as [|d l IH]; cbn; [done|]. intros [Hd Hl]%NoDup_cons.
      destruct (negb _); [|by apply IH]. cbn. apply NoDup_cons. split; [|by apply IH]. intros (x & Ex & Hin)%list_elem_of_In%in_map_iff. apply Hd.
      apply filter_In in Hin as [Hin _]. rewrite <- Ex. by apply list_elem_of_In, in_map.
  - rewrite length_app, length_number. lia.
Qed.

(** *** What a run that returns has checked *)

Lemma next_id_inv ordered id : next_id ordered = Ok id -> Z.of_nat (length ordered) < u8_max /\ id = Z.of_nat (length ordered).
Proof.
  unfold next_id. destruct (Z.ltb_spec (Z.of_nat (length ordered)) u8_max) as [Hlt|]; [|done]. intros H. split; [done|].
  pose proof (next_id_ok ordered Hlt) as E. unfold next_id in E. rewrite (proj2 (Z.ltb_lt _ _) Hlt) in E. congruence.
Qed.

Lemma append_declared_len taken rest : forall ordered exposed changed r, append_declared (unclaimed taken rest) ordered exposed changed = Ok r ->
  Z.of_nat (length ordered) <= u8_max -> Z.of_nat (length ordered) + Z.of_nat (length (untaken taken rest)) <= u8_max.
Proof.
  induction rest as [|d rest IH]; intros ordered exposed changed r; cbn [unclaimed List.map append_declared untaken List.filter]; [cbn; lia|].
  fold (unclaimed taken rest) (untaken taken rest). destruct (decide (ks_name d ∈ taken)) as [Ht|Ht].
  - rewrite bool_decide_eq_true_2 by done. cbn [negb append_declared]. apply IH.
  - rewrite bool_decide_eq_false_2 by done. cbn [negb append_declared length]. destruct (next_id ordered) as [id|] eqn:E; [|done]. apply next_id_inv in E as [Hlt _]. cbn [mbind outcome_bind].
    intros H%IH _; rewrite length_app in *; cbn in *; lia.
Qed.

Lemma layouts_match_cons declared reg post :
  (ks_destroyed reg = false -> forall d, In d declared -> ks_name d = ks_name reg -> layout_matches d reg = true) -> layouts_match declared post -> layouts_match declared (reg :: post).
Proof. intros H1 H2 d r Hd [<-|Hr] Hl Hn; [by apply H1|by apply H2]. Qed.

Lemma names_unique declared d d' : NoDup (names declared) -> In d declared -> In d' declared -> ks_name d = ks_name d' -> d = d'.
Proof.
  intros Hnd (i & Hi)%list_elem_of_In%list_elem_of_lookup_1 (j & Hj)%list_elem_of_In%list_elem_of_lookup_1 E.
  assert (i = j) as <-; [|congruence]. apply (NoDup_lookup _ i j (ks_name d) Hnd); unfold names; change (List.map ks_name declared) with (ks_name <$> declared); rewrite list_lookup_fmap.
  - by rewrite Hi.
  - by rewrite Hj, E.
Qed.

Lemma reorder_registry_layouts declared (Hdecl : declared_ok declared) post : forall pre exposed taken r,
  registry_ok (pre ++ post) -> (forall n, n ∈ taken -> n ∈ live_names pre) ->
  reorder_registry post pre exposed (unclaimed taken declared) = Ok r ->
  (forall n, n ∈ live_names pre -> n ∈ names declared -> n ∈ taken) -> layouts_match declared post.
Proof.
  induction post as [|reg post IH]; intros pre exposed taken r Hok Hsub H Hcov; [by intros d x _ []|]. cbn [reorder_registry] in H.
  assert ((pre ++ [reg]) ++ post = pre ++ reg :: post) as Eapp by (by rewrite <- app_assoc).
  assert (ks_id reg = Z.of_nat (length pre)) as Hid by (apply (ro_ids _ Hok (length pre)); by rewrite lookup_app_r, Nat.sub_diag).
  destruct (next_id pre) as [id|] eqn:E; [|done]. apply next_id_inv in E as [_ ->]. cbn [mbind outcome_bind] in H.
  pose proof (ro_live _ Hok) as Hnd. rewrite live_names_app in Hnd. unfold live_names at 2 in Hnd. cbn [List.filter] in Hnd. unfold live at 1 in Hnd.
  assert (live_names (pre ++ [reg]) = live_names pre ++ (if ks_destroyed reg then [] else [ks_name reg])) as El
    by (rewrite live_names_app; unfold live_names at 2, live; cbn; by destruct (ks_destroyed reg)).
  destruct (ks_destroyed reg) eqn:Hd.
  { rewrite with_id_same in H by done. apply layouts_match_cons; [by rewrite Hd|]. rewrite app_nil_r in El. apply (IH (pre ++ [reg]) exposed taken r); rewrite ?Eapp, ?El; done. }
  cbn [negb names List.map] in Hnd. apply NoDup_app in Hnd as (_ & Hdis & _). assert (ks_name reg ∉ live_names pre) as Hnew by (intros Hx; apply (Hdis _ Hx); left).
  pose proof (take_declared_unclaimed taken declared (ks_name reg) (proj1 Hdecl) ltac:(naive_solver)) as Htake.
  destruct (take_declared (unclaimed taken declared) (ks_name reg)) as [[desc rest]|].
  - destruct Htake as (Hin & Hname & ->). rewrite assert_layout_eq in H. destruct (layout_matches desc reg) eqn:Hmatch; [|done]. cbn [assert_that mbind outcome_bind] in H.
    assert (ks_destroyed desc = false) as Hdd by (destruct Hdecl as [_ Hall]; rewrite List.Forall_forall in Hall; by apply Hall).
    rewrite (with_id_matches desc reg) in H by done. rewrite Hname in H. apply layouts_match_cons.
    + intros _ d Hd' Hn. rewrite (names_unique declared d desc (proj1 Hdecl) Hd' Hin); [done|congruence].
    + eapply (IH (pre ++ [reg]) _ (ks_name reg :: taken) r); [by rewrite Eapp| |exact H|]; intros n; rewrite El, elem_of_app, list_elem_of_singleton, elem_of_cons; naive_solver.
  - rewrite with_id_same in H by done. apply layouts_match_cons.
    + intros _ d Hd' Hn. destruct Htake. rewrite <- Hn. by apply list_elem_of_In, in_map.
    + eapply (IH (pre ++ [reg]) _ taken r); [by rewrite Eapp| |exact H|]; intros n; [rewrite El, elem_of_app; naive_solver|].
      rewrite El, elem_of_app, list_elem_of_singleton. intros [?| ->] Hn; [by apply Hcov|done].
Qed.

Lemma reorder_checked registry declared r : declared_ok declared -> registry_ok registry -> reorder_to_canonical declared (Some registry) = Ok r ->
  layouts_match declared registry /\ Z.of_nat (length registry) + Z.of_nat (length (fresh registry declared)) <= u8_max.
Proof.
  intros Hd Hr H. unfold reorder_to_canonical in H. change (default [] (Some registry)) with registry in H. rewrite <- unclaimed_nil in H.
  destruct (reorder_registry registry [] ∅ (unclaimed [] declared)) as [[[ordered e] remaining]|] eqn:E; [|done]. cbn [mbind outcome_bind] in H.
  assert (layouts_match declared registry) as Hm.
  { apply (reorder_registry_layouts declared Hd registry [] ∅ [] _ Hr) in E; [done|by intros n Hn%elem_of_nil|by intros n Hn%elem_of_nil]. }
  split; [done|]. destruct (reorder_registry_ok declared Hd registry [] ∅ [] Hr Hm) as (e' & taken & E' & _ & Ht).
  - intros n id. rewrite lookup_empty. split; [done|]. by intros (i & d & Hi & _).
  - intros d _. reflexivity.
  - by intros n Hn%elem_of_nil.
  - rewrite E' in E. injection E as <- <- <-. rewrite <- (untaken_fresh registry declared taken) by done.
    destruct (append_declared (unclaimed taken declared) registry e' false) as [r'|] eqn:Ea; [|done]. apply append_declared_len in Ea; [done|]. apply Hr.
Qed.

(** ** Sessions *)

(** The directory of a database and the database if it is open. *)
Record RegistryState := mkRegistryState { rs_files : ShapeFiles; rs_control : ControlFiles; rs_db : option OpenDb }.

Section sessions.
Context (to_yaml : list KeySpaceDesc -> option (list Z)) (from_yaml : list Z -> option (list KeySpaceDesc)).
Context (serialize : ControlRegion -> list Z).
Context (deserialize_v3 : list Z -> option ControlRegion) (deserialize_v2 : list Z -> option ControlRegionV2) (deserialize_v1 : list Z -> option ControlRegionV1).
Notation open_s := (open_shapes to_yaml from_yaml deserialize_v3 deserialize_v2 deserialize_v1).
Notation any_version := (deserialize_any_version deserialize_v3 deserialize_v2 deserialize_v1).

(** [serde_yaml] reads back the shapes it writes. *)
Definition yaml_roundtrips : Prop := forall shape yaml, to_yaml shape = Some yaml -> from_yaml yaml = Some shape.

(** The registry on disk. *)
Definition registry_of (s : RegistryState) : list KeySpaceDesc := match sf_v2 (rs_files s) with Some yaml => default [] (from_yaml yaml) | None => [] end.

(** Opening with a shape of the builder, destroying a key space, storing a
    control region, closing or crashing; a crash in the middle of writing a
    file leaves the temporary file. *)
Inductive registry_step : RegistryState -> RegistryState -> Prop :=
| registry_open s declared written files db :
    rs_db s = None -> declared_ok declared -> open_s (rs_files s) (rs_control s) declared = Ok (Some (written, files, db)) ->
    registry_step s (mkRegistryState files (rs_control s) (Some db))
| registry_open_crash s declared written files db :
    rs_db s = None -> declared_ok declared -> open_s (rs_files s) (rs_control s) declared = Ok (Some (written, files, db)) ->
    registry_step s (mkRegistryState written (rs_control s) None)
| registry_destroy s db name db' files r :
    rs_db s = Some db -> tombstone_key_space to_yaml db (rs_files s) name = Ok (db', files, r) ->
    registry_step s (mkRegistryState files (rs_control s) (Some db'))
| registry_store s db snapshot p written renamed store :
    rs_db s = Some db -> length snapshot = length (od_shape db) -> bincode_roundtrips serialize deserialize_v3 (control_new snapshot p (od_shape db)) ->
    control_store serialize (od_store db) (rs_control s) snapshot p (od_shape db) = Ok (written, renamed, store) ->
    registry_step s (mkRegistryState (rs_files s) renamed (Some (mkOpenDb (od_shape db) (od_keyspaces db) store)))
| registry_close s temp ctemp :
    registry_step s (mkRegistryState (mkShapeFiles (sf_v2 (rs_files s)) temp (sf_legacy (rs_files s))) (mkControlFiles (fs_control (rs_control s)) ctemp) None).

Definition new_directory (s : RegistryState) : Prop := sf_v2 (rs_files s) = None /\ fs_control (rs_control s) = None /\ rs_db s = None.

(** The control region has the names of the first places. *)
Definition control_agrees (control : ControlFiles) (registry : list KeySpaceDesc) : Prop :=
  forall bytes, fs_control control = Some bytes ->
    exists c, any_version bytes = Ok (Some c) /\ (length (cn_snapshot c) <= length registry)%nat /\ cn_keyspace_names c = names (take (length (cn_snapshot c)) registry).

Record registry_inv (s : RegistryState) : Prop := mkRegistryInv {
  ri_file : forall yaml, sf_v2 (rs_files s) = Some yaml -> exists registry, from_yaml yaml = Some registry;
  ri_ok : registry_ok (registry_of s);
  ri_control : control_agrees (rs_control s) (registry_of s);
  ri_db : forall db, rs_db s = Some db -> sf_v2 (rs_files s) <> None /\ od_shape db = registry_of s /\ exists declared, exposed_ok (od_shape db) declared (by_name (od_keyspaces db));
}.

(** A place keeps what it is; it may be destroyed. *)
Definition same_place (d d' : KeySpaceDesc) : Prop :=
  ks_id d' = ks_id d /\ ks_name d' = ks_name d /\ ks_key_indexing d' = ks_key_indexing d /\ ks_mutexes d' = ks_mutexes d /\ ks_key_type d' = ks_key_type d /\
  (ks_destroyed d = true -> ks_destroyed d' = true).

Definition registry_le (r r' : list KeySpaceDesc) : Prop := forall i d, r !! i = Some d -> exists d', r' !! i = Some d' /\ same_place d d'.

#[local] Instance registry_le_preorder : PreOrder registry_le.
Proof.
  split.
  - intros r i d Hi. exists d. split; [done|]. by unfold same_place.
  - intros a b c Hab Hbc i d Hi. destruct (Hab i d Hi) as (d' & Hi' & H1). destruct (Hbc i d' Hi') as (d'' & Hi'' & H2). exists d''. split; [done|]. unfold same_place in *. naive_solver congruence.
Qed.

Lemma registry_le_app r new : registry_le r (r ++ new).
Proof. intros i d Hi. exists d. split; [by apply lookup_app_l_Some|]. by unfold same_place. Qed.

Lemma control_agrees_le control r r' : control_agrees control r -> (length r <= length r')%nat -> registry_le r r' -> control_agrees control r'.
Proof.
  intros H Hlen Hle bytes Hb. destruct (H bytes Hb) as (c & Hc & Hl & Hn). exists c. split_and!; [done|lia|]. rewrite Hn. apply list_eq. intros i. unfold names.
  change (List.map ks_name ?x) with (ks_name <$> x). rewrite !list_lookup_fmap. destruct (decide (i < length (cn_snapshot c))%nat) as [Hi|Hi].
  - rewrite !lookup_take_lt by done. destruct (r !! i) as [d|] eqn:E; [|apply lookup_ge_None in E; lia]. destruct (Hle i d E) as (d' & -> & _ & Hn' & _). cbn. by rewrite Hn'.
  - by rewrite !lookup_take_ge by lia.
Qed.

Lemma verify_same l : verify_names l (names l) = Ok tt.
Proof. apply verify_names_same. Qed.

(** The control region opens under the registry and any new key spaces. *)
Lemma control_agrees_reads control registry new : control_agrees control registry ->
  exists c, control_read_or_create deserialize_v3 deserialize_v2 deserialize_v1 (fs_control control) (registry ++ new) = Ok c.
Proof.
  intros H. unfold control_read_or_create. destruct (fs_control control) as [bytes|] eqn:E; [|by eexists]. destruct (H bytes E) as (c & -> & Hl & Hn). cbn [mbind outcome_bind expect].
  assert (populate_keyspace_names_if_empty c (registry ++ new) = c) as ->.
  { destruct c as [p data nm]. unfold populate_keyspace_names_if_empty. cbn in *. destruct nm; [|done]. destruct data; [done|]. destruct registry; [cbn in Hl; lia|done]. }
  unfold verify_shape. rewrite length_app, (proj2 (Nat.leb_le _ _)) by lia. cbn [assert_that mbind outcome_bind]. rewrite take_app_le by done. rewrite Hn, verify_same. by eexists.
Qed.

Lemma mark_first_some name shape d shape' : mark_first name shape = Some (d, shape') ->
  exists i, shape !! i = Some d /\ shape' = <[i := mark_destroyed d]> shape /\ ks_name d = name /\ ks_destroyed d = false.
Proof.
  revert shape'. induction shape as [|x shape IH]; intros shape'; cbn [mark_first]; [done|]. unfold is_live_named. destruct (String.eqb_spec (ks_name x) name); cbn [andb].
  - destruct (ks_destroyed x) eqn:Hx; cbn [negb]; [|intros [= <- <-]; by exists 0%nat].
    destruct (mark_first name shape) as [[y r]|]; [|done]. intros [= <- <-]. destruct (IH r eq_refl) as (i & Hi & -> & ? & ?). by exists (S i).
  - destruct (mark_first name shape) as [[y r]|]; [|done]. intros [= <- <-]. destruct (IH r eq_refl) as (i & Hi & -> & ? & ?). by exists (S i).
Qed.

Lemma marked_le shape i d : shape !! i = Some d -> registry_le shape (<[i := mark_destroyed d]> shape).
Proof.
  intros Hi j x Hj. destruct (decide (i = j)) as [<-|Hne].
  - rewrite Hi in Hj. injection Hj as <-. exists (mark_destroyed d). split; [apply list_lookup_insert_eq; by eapply lookup_lt_Some|]. by unfold same_place.
  - exists x. split; [by rewrite list_lookup_insert_ne|]. by unfold same_place.
Qed.

Lemma split_at (shape : list KeySpaceDesc) i d : shape !! i = Some d -> shape = take i shape ++ d :: drop (S i) shape /\ forall y, <[i := y]> shape = take i shape ++ y :: drop (S i) shape.
Proof. intros Hi. split; [by rewrite take_drop_middle|]. intros y. apply insert_take_drop. by eapply lookup_lt_Some. Qed.

Lemma marked_ok shape i d : registry_ok shape -> shape !! i = Some d -> registry_ok (<[i := mark_destroyed d]> shape).
Proof.
  intros [Hids Hlive Hlen] Hi. split.
  - intros j x Hj. apply list_lookup_insert_Some in Hj as [(<- & <- & _)|[_ Hj]]; [exact (Hids i d Hi)|by apply Hids].
  - destruct (split_at shape i d Hi) as [E ->]. rewrite E in Hlive. rewrite live_names_app in *. change (mark_destroyed d :: ?l) with ([mark_destroyed d] ++ l). change (d :: ?l) with ([d] ++ l) in Hlive.
    rewrite live_names_app in *. change (live_names [mark_destroyed d]) with (@nil string). rewrite app_nil_l. apply NoDup_app in Hlive as (H1 & H2 & (_ & _ & H3)%NoDup_app).
    apply NoDup_app. split_and!; [done| |done]. intros x Hx Hx'. apply (H2 x Hx), elem_of_app. by right.
  - by rewrite length_insert.
Qed.

Lemma live_unique registry i j d d' : registry_ok registry -> registry !! i = Some d -> registry !! j = Some d' ->
  ks_destroyed d = false -> ks_destroyed d' = false -> ks_name d = ks_name d' -> i = j.
Proof.
  intros Hok. assert (forall a b x y, registry !! a = Some x -> registry !! b = Some y -> ks_destroyed x = false -> ks_destroyed y = false -> ks_name x = ks_name y -> ~ (a < b)%nat) as Hlt.
  { intros a b x y Ha Hb Hx Hy Hn Hab. destruct (split_at registry a x Ha) as [E _]. pose proof (ro_live _ Hok) as Hnd. rewrite E, live_names_app in Hnd. change (x :: ?l) with ([x] ++ l) in Hnd. rewrite live_names_app in Hnd.
    apply NoDup_app in Hnd as (_ & _ & (_ & Hdis & _)%NoDup_app). apply (Hdis (ks_name x)); [by apply live_names_In; [left|]|]. rewrite Hn. apply live_names_In; [|done].
    apply list_elem_of_In, (list_elem_of_lookup_2 _ (b - S a)). rewrite lookup_drop. by replace (S a + (b - S a))%nat with b by lia. }
  intros Hi Hj Hd Hd' Hn. pose proof (Hlt i j d d' Hi Hj Hd Hd' Hn). pose proof (Hlt j i d' d Hj Hi Hd' Hd (eq_sym Hn)). lia.
Qed.

Lemma exposed_marked shape declared exposed i d : exposed_ok shape declared exposed -> shape !! i = Some d -> ks_destroyed d = false -> exposed !! ks_name d = None ->
  exposed_ok (<[i := mark_destroyed d]> shape) declared exposed.
Proof.
  intros He Hi Hd Hnone n id. rewrite (He n id). split; intros (j & x & Hj & E & Hx & Hn & Hin); exists j, x; (split; [|done]).
  - destruct (decide (i = j)) as [<-|]; [|by rewrite list_lookup_insert_ne]. exfalso. rewrite Hi in Hj. injection Hj as <-.
    assert (exposed !! n = Some id) as Hs by (apply He; by exists i, d). congruence.
  - apply list_lookup_insert_Some in Hj as [(_ & <- & _)|[_ ?]]; [done|done].
Qed.

(** *** Opening *)

Lemma reconcile_registry s declared : registry_inv s -> reconcile_key_shape from_yaml (rs_files s) declared =
  ('(key_shape, keyspaces, changed) ← reorder_to_canonical declared (Some (registry_of s)); Ok (Some (key_shape, keyspaces, match sf_v2 (rs_files s) with Some _ => changed | None => true end))).
Proof.
  intros Hi. unfold reconcile_key_shape, registry_of. destruct (sf_v2 (rs_files s)) as [yaml|] eqn:E; [|done]. destruct (ri_file _ Hi yaml E) as [registry ->]. done.
Qed.

Definition opened (s : RegistryState) (declared : list KeySpaceDesc) : list KeySpaceDesc := registry_of s ++ number (length (registry_of s)) (fresh (registry_of s) declared).

Definition dirty (s : RegistryState) (declared : list KeySpaceDesc) : bool := match sf_v2 (rs_files s) with Some _ => negb (is_nil (fresh (registry_of s) declared)) | None => true end.

Lemma open_shapes_eq s declared : registry_inv s -> declared_ok declared -> layouts_match declared (registry_of s) ->
  Z.of_nat (length (registry_of s)) + Z.of_nat (length (fresh (registry_of s) declared)) <= u8_max ->
  exists exposed store, exposed_ok (opened s declared) declared exposed /\
    open_s (rs_files s) (rs_control s) declared =
      Ok (let db := mkOpenDb (opened s declared) (mkKeySpaces exposed) store in
          if dirty s declared then option_map (fun wr => (wr.1, wr.2, db)) (write_shape_file to_yaml (rs_files s) (opened s declared)) else Some (rs_files s, rs_files s, db)).
Proof.
  intros Hi Hd Hm Hlen. unfold open_shapes. rewrite reconcile_registry by done.
  destruct (reorder_canonical (registry_of s) declared Hd (ri_ok _ Hi) Hm Hlen) as (exposed & -> & He). cbn [mbind outcome_bind].
  destruct (control_agrees_reads _ _ (number (length (registry_of s)) (fresh (registry_of s) declared)) (ri_control _ Hi)) as [c Hc]. rewrite Hc. cbn [mbind outcome_bind].
  exists exposed, (control_store_new c). split; [done|]. unfold dirty, opened. destruct (sf_v2 (rs_files s)); [destruct (fresh (registry_of s) declared)|]; done.
Qed.

Lemma opened_clean s declared : dirty s declared = false -> opened s declared = registry_of s /\ sf_v2 (rs_files s) <> None.
Proof.
  unfold dirty, opened. destruct (sf_v2 (rs_files s)); [|done]. destruct (fresh (registry_of s) declared); [|done]. intros _. by rewrite app_nil_r.
Qed.

Context (Hyaml : yaml_roundtrips).

Lemma open_inv s declared written files db : registry_inv s -> declared_ok declared -> open_s (rs_files s) (rs_control s) declared = Ok (Some (written, files, db)) ->
  sf_v2 written = sf_v2 (rs_files s) /\ registry_inv (mkRegistryState files (rs_control s) (Some db)) /\ registry_of (mkRegistryState files (rs_control s) (Some db)) = opened s declared.
Proof.
  intros Hi Hd H. assert (layouts_match declared (registry_of s) /\ Z.of_nat (length (registry_of s)) + Z.of_nat (length (fresh (registry_of s) declared)) <= u8_max) as [Hm Hlen].
  { unfold open_shapes in H. rewrite reconcile_registry in H by done. destruct (reorder_to_canonical declared (Some (registry_of s))) as [r|] eqn:E; [|done]. by apply (reorder_checked _ _ r Hd (ri_ok _ Hi)). }
  destruct (open_shapes_eq s declared Hi Hd Hm Hlen) as (exposed & store & He & E). rewrite E in H. pose proof (registry_extended _ _ Hd (ri_ok _ Hi) Hlen) as Hok. fold (opened s declared) in Hok.
  assert (control_agrees (rs_control s) (opened s declared)) as Hc by (eapply control_agrees_le; [apply Hi|unfold opened; rewrite length_app; lia|apply registry_le_app]).
  destruct (dirty s declared) eqn:Ed.
  - unfold write_shape_file in H. destruct (to_yaml (opened s declared)) as [yaml|] eqn:Ey; [|done]. cbn in H. injection H as <- <- <-. apply Hyaml in Ey.
    assert (forall c d, registry_of (mkRegistryState (mkShapeFiles (Some yaml) None (sf_legacy (rs_files s))) c d) = opened s declared) as Er by (intros c d; unfold registry_of; cbn; by rewrite Ey).
    split; [done|]. split; [|by apply Er]. split; rewrite ?Er; cbn; try done; [intros y [= <-]; by eexists|]. intros db [= <-]. split_and!; [done|done|]. by exists declared.
  - injection H as <- <- <-. destruct (opened_clean s declared Ed) as [Eo Hsome]. assert (forall c d, registry_of (mkRegistryState (rs_files s) c d) = opened s declared) as Er by (intros c d; by rewrite Eo).
    split; [done|]. split; [|by apply Er]. split; rewrite ?Er; cbn; try done; [apply Hi|]. intros db [= <-]. split_and!; [done|done|]. by exists declared.
Qed.

(** *** Every step *)

Lemma destroy_inv s db name db' files r : registry_inv s -> rs_db s = Some db -> tombstone_key_space to_yaml db (rs_files s) name = Ok (db', files, r) ->
  registry_inv (mkRegistryState files (rs_control s) (Some db')) /\ registry_le (registry_of s) (registry_of (mkRegistryState files (rs_control s) (Some db'))).
Proof.
  intros Hi Hdb H. destruct (ri_db _ Hi db Hdb) as (Hsome & Es & declared & He). unfold tombstone_key_space in H.
  destruct (keyspaces_try_ks (od_keyspaces db) name) eqn:Et; [done|]. cbn [assert_that mbind outcome_bind] in H.
  assert (registry_inv (mkRegistryState (rs_files s) (rs_control s) (Some db)) /\ registry_le (registry_of s) (registry_of (mkRegistryState (rs_files s) (rs_control s) (Some db)))) as Hsame.
  { split; [|reflexivity]. split; try apply Hi. intros x [= <-]. split_and!; [done|done|]. by exists declared. }
  destruct (mark_first name (od_shape db)) as [[ksd shape]|] eqn:Em.
  - destruct (mark_first_some _ _ _ _ Em) as (i & Hk & -> & Hn & Hd). unfold write_shape_file in H. destruct (to_yaml _) as [yaml|] eqn:Ey; [|by injection H as <- <- <-].
    injection H as <- <- <-. apply Hyaml in Ey. set (s' := mkRegistryState _ _ _).
    assert (registry_of s' = <[i := mark_destroyed ksd]> (od_shape db : list KeySpaceDesc)) as Er by (unfold s', registry_of; cbn; by rewrite Ey).
    pose proof (marked_le (od_shape db) i ksd Hk) as Hle. split; [|by rewrite Er, <- Es]. split; rewrite ?Er; cbn.
    + intros y [= <-]. by eexists.
    + apply marked_ok; [rewrite Es; apply Hi|done].
    + eapply control_agrees_le; [apply Hi|by rewrite length_insert, Es|by rewrite <- Es].
    + intros x [= <-]. split_and!; [done|done|]. exists declared. apply exposed_marked; [done|done|done|]. by rewrite Hn.
  - destruct (existsb _ _); [|done]. by injection H as <- <- <-.
Qed.

Lemma store_inv s db snapshot p written renamed store : registry_inv s -> rs_db s = Some db -> length snapshot = length (od_shape db) ->
  bincode_roundtrips serialize deserialize_v3 (control_new snapshot p (od_shape db)) ->
  control_store serialize (od_store db) (rs_control s) snapshot p (od_shape db) = Ok (written, renamed, store) ->
  registry_inv (mkRegistryState (rs_files s) renamed (Some (mkOpenDb (od_shape db) (od_keyspaces db) store))).
Proof.
  intros Hi Hdb Hlen Hb H. destruct (ri_db _ Hi db Hdb) as (Hsome & Es & declared & He). unfold control_store in H. destruct (crs_last_position (od_store db) <=? p); [|done]. injection H as _ <- _.
  split; try apply Hi; cbn.
  - intros bytes [= <-]. exists (control_new snapshot p (od_shape db)). split; [by apply control_bytes_read|]. change (registry_of _) with (registry_of s). cbn [control_new cn_snapshot cn_keyspace_names].
    rewrite Hlen, Es. split; [done|]. by rewrite firstn_all.
  - intros x [= <-]. split_and!; [done|done|]. by exists declared.
Qed.

Lemma closed_inv s files control : registry_inv s -> sf_v2 files = sf_v2 (rs_files s) -> fs_control control = fs_control (rs_control s) -> registry_inv (mkRegistryState files control None).
Proof.
  intros Hi Hf Hc. assert (registry_of (mkRegistryState files control None) = registry_of s) as Er by (unfold registry_of; cbn; by rewrite Hf).
  split; rewrite ?Er; cbn; [rewrite Hf|..|done]; try apply Hi. intros bytes. cbn. rewrite Hc. apply Hi.
Qed.

Lemma registry_step_inv s s' : registry_step s s' -> registry_inv s -> registry_inv s' /\ registry_le (registry_of s) (registry_of s').
Proof.
  intros [s0 declared written files db Hdb Hd H|s0 declared written files db Hdb Hd H|s0 db name db' files r Hdb H|s0 db snapshot p written renamed store Hdb Hlen Hb H|s0 temp ctemp] Hi.
  - destruct (open_inv _ _ _ _ _ Hi Hd H) as (_ & Hi' & ->). split; [done|]. apply registry_le_app.
  - destruct (open_inv _ _ _ _ _ Hi Hd H) as (E & _). split; [by apply (closed_inv s0)|]. unfold registry_of. cbn. rewrite E. reflexivity.
  - by apply (destroy_inv s0 db name db' files r).
  - split; [by apply (store_inv s0 db snapshot p written renamed store)|reflexivity].
  - split; [by apply (closed_inv s0)|reflexivity].
Qed.

Lemma registry_steps_inv s s' : rtc registry_step s s' -> registry_inv s -> registry_inv s' /\ registry_le (registry_of s) (registry_of s').
Proof.
  induction 1 as [s|s t u Hst _ IH]; intros Hi; [split; [done|reflexivity]|]. destruct (registry_step_inv _ _ Hst Hi) as [Ht Hle]. destruct (IH Ht) as [Hu Hle']. split; [done|]. by etrans.
Qed.

Lemma new_directory_inv s : new_directory s -> registry_inv s.
Proof.
  intros (Hv & Hc & Hdb). assert (registry_of s = []) as Er by (unfold registry_of; by rewrite Hv). split; rewrite ?Er.
  - by rewrite Hv.
  - split; [done|apply NoDup_nil_2|done].
  - intros b. by rewrite Hc.
  - by rewrite Hdb.
Qed.
End sessions.

(** ** Claims *)

(** C30. Key spaces keep their ids.  Along any sequence of openings with shapes
    in any order, of destroyed key spaces, stored control regions, closings and
    crashes, a place of the registry keeps its id, its name and its layout, and
    once destroyed stays so; a handle of an open database names the only live
    key space of that name; and a closed database opens with every shape that
    keeps the layouts of its live key spaces and fits in 255 places, so the
    control region never disagrees with the registry: the declared names get
    handles, to the places their live key spaces had. *)
Theorem key_space_ids_stable to_yaml from_yaml serialize deserialize_v3 deserialize_v2 deserialize_v1 new s s' :
  yaml_roundtrips to_yaml from_yaml -> new_directory new ->
  rtc (registry_step to_yaml from_yaml serialize deserialize_v3 deserialize_v2 deserialize_v1) new s ->
  rtc (registry_step to_yaml from_yaml serialize deserialize_v3 deserialize_v2 deserialize_v1) s s' ->
  registry_le (registry_of from_yaml s) (registry_of from_yaml s') /\
  (forall db n id, rs_db s' = Some db -> by_name (od_keyspaces db) !! n = Some id ->
    exists i d, id = Z.of_nat i /\ registry_of from_yaml s' !! i = Some d /\ ks_name d = n /\ ks_destroyed d = false /\ ks_id d = id /\
      forall j d', registry_of from_yaml s' !! j = Some d' -> ks_name d' = n -> ks_destroyed d' = false -> j = i) /\
  (forall declared, rs_db s' = None -> declared_ok declared -> layouts_match declared (registry_of from_yaml s') ->
    Z.of_nat (length (registry_of from_yaml s')) + Z.of_nat (length (fresh (registry_of from_yaml s') declared)) <= u8_max ->
    is_Some (to_yaml (opened from_yaml s' declared)) ->
    exists written files db, open_shapes to_yaml from_yaml deserialize_v3 deserialize_v2 deserialize_v1 (rs_files s') (rs_control s') declared = Ok (Some (written, files, db)) /\
      (forall n, n ∈ names declared -> is_Some (by_name (od_keyspaces db) !! n)) /\
      forall i d, registry_of from_yaml s' !! i = Some d -> ks_destroyed d = false -> ks_name d ∈ names declared -> by_name (od_keyspaces db) !! ks_name d = Some (Z.of_nat i)).
Proof.
  intros Hy Hnew Hs Hs'. pose proof (new_directory_inv from_yaml deserialize_v3 deserialize_v2 deserialize_v1 new Hnew) as Hi0.
  destruct (registry_steps_inv _ _ _ _ _ _ Hy _ _ Hs Hi0) as [Hi _]. destruct (registry_steps_inv _ _ _ _ _ _ Hy _ _ Hs' Hi) as [Hi' Hle]. split; [done|]. pose proof (ri_ok _ _ _ _ _ Hi') as Hok. split.
  - intros db n id Hdb Hn. destruct (ri_db _ _ _ _ _ Hi' db Hdb) as (_ & Es & declared & He). rewrite Es in He. apply He in Hn as (i & d & Hd & -> & Hl & Hname & _).
    exists i, d. split_and!; try done; [by apply (ro_ids _ Hok)|]. intros j d' Hj Hn' Hl'. symmetry. by apply (live_unique _ _ _ _ _ Hok Hd Hj); [| |congruence].
  - intros declared Hdb Hd Hm Hlen [yaml Ey]. destruct (open_shapes_eq to_yaml from_yaml deserialize_v3 deserialize_v2 deserialize_v1 s' declared Hi' Hd Hm Hlen) as (exposed & store & He & ->).
    assert (forall i d, registry_of from_yaml s' !! i = Some d -> ks_destroyed d = false -> ks_name d ∈ names declared -> exposed !! ks_name d = Some (Z.of_nat i)) as Hkeep.
    { intros i d Hi1 Hl Hn. apply He. exists i, d. split_and!; try done. by apply lookup_app_l_Some. }
    assert (forall n, n ∈ names declared -> is_Some (exposed !! n)) as Hall.
    { intros n (d & <- & Hin)%list_elem_of_In%in_map_iff. destruct (decide (ks_name d ∈ live_names (registry_of from_yaml s'))) as [Hl|Hl].
      - apply list_elem_of_In, in_map_iff in Hl as (r & En & [Hr Hlr]%filter_In). apply list_elem_of_In, list_elem_of_lookup_1 in Hr as [i Hr]. exists (Z.of_nat i). rewrite <- En.
        apply (Hkeep i r Hr); [by apply negb_true_iff|]. rewrite En. by apply list_elem_of_In, in_map.
      - assert (In d (fresh (registry_of from_yaml s') declared)) as Hf by (apply filter_In; split; [done|]; by rewrite bool_decide_eq_false_2).
        apply (fresh_exposed (registry_of from_yaml s') declared exposed d); [done|apply Hd|done]. }
    unfold write_shape_file. rewrite Ey. destruct (dirty from_yaml s' declared); eexists _, _, _; (split; [reflexivity|]); cbn [od_keyspaces by_name]; by split.
Qed.

(** ** Declaring the registry itself *)

Lemma layout_matches_refl d : layout_matches d d = true.
Proof. unfold layout_matches. by rewrite !bool_decide_eq_true_2. Qed.

Lemma live_same (registry : list KeySpaceDesc) d r : registry_ok registry -> In d registry -> In r registry -> ks_destroyed d = false -> ks_destroyed r = false -> ks_name d = ks_name r -> d = r.
Proof.
  intros Hok (i & Hi)%list_elem_of_In%list_elem_of_lookup_1 (j & Hj)%list_elem_of_In%list_elem_of_lookup_1 Hd Hr Hn.
  rewrite (live_unique registry i j d r Hok Hi Hj Hd Hr Hn) in Hi. congruence.
Qed.

Section loaded.

(** What is left of a name, in order. *)
Definition left_named (n : string) (remaining : list (option KeySpaceDesc)) : list KeySpaceDesc :=
  List.filter (fun d => String.eqb (ks_name d) n) (omap id remaining).

Lemma left_named_some n d rest : left_named n (Some d :: rest) = (if String.eqb (ks_name d) n then [d] else []) ++ left_named n rest.
Proof. unfold left_named. cbn. by destruct (String.eqb (ks_name d) n). Qed.

Lemma left_named_none n rest : left_named n (None :: rest) = left_named n rest.
Proof. done. Qed.

(** Taking a name takes the first of it and nothing else. *)
Lemma take_declared_left m remaining :
  match take_declared remaining m with
  | Some (x, rest) => ks_name x = m /\ left_named m remaining = x :: left_named m rest /\ (forall n, n <> m -> left_named n rest = left_named n remaining) /\
      length (omap id remaining) = S (length (omap id rest))
  | None => left_named m remaining = []
  end.
Proof.
  induction remaining as [|[d|] rest IH]; cbn [take_declared]; [done| |].
  - destruct (String.eqb_spec (ks_name d) m) as [Hd|Hd].
    + split_and!; [done| | |done].
      * rewrite left_named_some, left_named_none, (proj2 (String.eqb_eq _ _) Hd). done.
      * intros n Hn. rewrite left_named_some, left_named_none. destruct (String.eqb_spec (ks_name d) n); [congruence|done].
    + destruct (take_declared rest m) as [[x r]|]; cbn [option_map fst snd].
      * destruct IH as (Hx & E & Hn & Hl). split_and!; [done| | |cbn in *; lia].
        -- rewrite !left_named_some, (proj2 (String.eqb_neq _ _) Hd). done.
        -- intros n Hne. rewrite !left_named_some, (Hn n Hne). done.
      * rewrite left_named_some, (proj2 (String.eqb_neq _ _) Hd). done.
  - destruct (take_declared rest m) as [[x r]|]; cbn [option_map fst snd]; done.
Qed.

(** The first of every live name has the layout of the live one. *)
Definition first_layouts_match (registry : list KeySpaceDesc) : Prop :=
  forall d t, In d registry -> ks_destroyed d = false -> head (List.filter (fun x => String.eqb (ks_name x) (ks_name d)) registry) = Some t -> layout_matches t d = true.

(** The place of a live key space goes to the first left of its name, the others
    stay. *)
Definition taken_place (registry : list KeySpaceDesc) (d : KeySpaceDesc) : KeySpaceDesc :=
  if ks_destroyed d then d else match List.filter (fun x => String.eqb (ks_name x) (ks_name d)) registry with t :: _ => with_id t (ks_id d) | [] => d end.

Context (registry : list KeySpaceDesc) (Hok : registry_ok registry).

Definition whole (n : string) : list KeySpaceDesc := List.filter (fun x => String.eqb (ks_name x) n) registry.

Lemma left_named_all n : left_named n (List.map Some registry) = whole n.
Proof. unfold left_named, whole. f_equal. clear Hok. induction registry as [|x l IH]; [done|]. cbn. by f_equal. Qed.

(** Nothing of a name was taken as long as its live place was not reached. *)
Definition left_ok (pre : list KeySpaceDesc) (remaining : list (option KeySpaceDesc)) : Prop :=
  forall n, left_named n remaining = if decide (n ∈ live_names pre) then tail (whole n) else whole n.

Lemma reorder_loaded_step reg post pre exposed remaining : registry = pre ++ reg :: post -> left_ok pre remaining ->
  exists t rest, whole (ks_name reg) = t :: rest /\
  reorder_registry (reg :: post) (List.map (taken_place registry) pre) exposed remaining =
    (if ks_destroyed reg then reorder_registry post (List.map (taken_place registry) (pre ++ [reg])) exposed remaining
     else if layout_matches t reg then
       match take_declared remaining (ks_name reg) with
       | Some (_, remaining) => reorder_registry post (List.map (taken_place registry) (pre ++ [reg])) (<[ks_name reg := Z.of_nat (length pre)]> exposed) remaining
       | None => Panic EmptyString
       end
     else Panic "Key space was created with a different layout than the configuration declares") /\
  (ks_destroyed reg = false -> exists remaining', take_declared remaining (ks_name reg) = Some (t, remaining') /\ left_ok (pre ++ [reg]) remaining' /\
     length (omap id remaining) = S (length (omap id remaining'))) /\
  (ks_destroyed reg = true -> left_ok (pre ++ [reg]) remaining).
Proof.
  intros Ereg Hleft. assert (In reg registry) as Hin by (rewrite Ereg; apply in_app_iff; right; by left).
  assert (In reg (whole (ks_name reg))) as Hw by (apply filter_In; split; [done|apply String.eqb_refl]).
  destruct (whole (ks_name reg)) as [|t rest] eqn:Et; [done|]. exists t, rest. split; [done|].
  assert (ks_id reg = Z.of_nat (length pre)) as Hid by (apply (ro_ids _ Hok (length pre)); rewrite Ereg, lookup_app_r by lia; by rewrite Nat.sub_diag).
  assert (Z.of_nat (length pre) < u8_max) as Hlen by (pose proof (ro_len _ Hok) as H; rewrite Ereg, length_app in H; cbn in H; lia).
  assert (live_names (pre ++ [reg]) = live_names pre ++ (if ks_destroyed reg then [] else [ks_name reg])) as El
    by (rewrite live_names_app; unfold live_names at 2, live; cbn; by destruct (ks_destroyed reg)).
  cbn [reorder_registry]. rewrite next_id_ok by (by rewrite length_map). rewrite length_map. cbn [mbind outcome_bind]. rewrite map_app. cbn [List.map].
  destruct (ks_destroyed reg) eqn:Hd.
  { split_and!; [|done|].
    - do 2 f_equal. f_equal. unfold taken_place. rewrite Hd. by apply with_id_same.
    - intros _ n. rewrite El, app_nil_r. apply Hleft. }
  assert (ks_name reg ∉ live_names pre) as Hnew.
  { pose proof (ro_live _ Hok) as Hnd. rewrite Ereg, live_names_app in Hnd. apply NoDup_app in Hnd as (_ & Hdis & _). intros Hx. apply (Hdis _ Hx).
    apply live_names_In; [by left|done]. }
  pose proof (take_declared_left (ks_name reg) remaining) as Htake. rewrite (Hleft (ks_name reg)) in Htake. rewrite decide_False, Et in Htake by done.
  destruct (take_declared remaining (ks_name reg)) as [[x r]|] eqn:Etake; [|done]. destruct Htake as (Hx & [= <- Er] & Hother & Hlen').
  split_and!; [|intros _; exists r; split_and!; [done| |done]|done].
  - rewrite assert_layout_eq. destruct (layout_matches t reg); [|done]. cbn [mbind outcome_bind]. rewrite Hx. do 2 f_equal. f_equal. unfold taken_place. rewrite Hd.
    change (List.filter _ registry) with (whole (ks_name reg)). by rewrite Et, Hid.
  - intros n. rewrite El. destruct (decide (n = ks_name reg)) as [->|Hne].
    + rewrite decide_True, Et by (apply elem_of_app; right; by left). done.
    + rewrite (Hother n Hne), Hleft. destruct (decide (n ∈ live_names pre)) as [H1|H1].
      * by rewrite decide_True by (apply elem_of_app; by left).
      * rewrite decide_False; [done|]. rewrite elem_of_app, list_elem_of_singleton. naive_solver.
Qed.

Definition count_live (l : list KeySpaceDesc) : nat := length (List.filter live l).

Lemma reorder_loaded post : forall pre exposed remaining, registry = pre ++ post -> left_ok pre remaining -> first_layouts_match registry ->
  exists exposed' remaining', reorder_registry post (List.map (taken_place registry) pre) exposed remaining = Ok (List.map (taken_place registry) registry, exposed', remaining') /\
    left_ok registry remaining' /\ (length (omap id remaining') + count_live post = length (omap id remaining))%nat.
Proof.
  induction post as [|reg post IH]; intros pre exposed remaining Ereg Hleft Hfirst.
  { rewrite app_nil_r in Ereg. exists exposed, remaining. cbn [reorder_registry]. rewrite <- Ereg in Hleft |- *. split_and!; [done|done|unfold count_live; cbn; lia]. }
  destruct (reorder_loaded_step reg post pre exposed remaining Ereg Hleft) as (t & rest & Et & -> & Hlive & Hdead).
  assert (registry = (pre ++ [reg]) ++ post) as Ereg' by (by rewrite <- app_assoc). unfold count_live. cbn [List.filter]. unfold live at 1.
  destruct (ks_destroyed reg) eqn:Hd; cbn [negb].
  - apply IH; auto.
  - assert (layout_matches t reg = true) as ->.
    { apply (Hfirst reg t); [rewrite Ereg; apply in_app_iff; right; by left|done|]. change (List.filter _ registry) with (whole (ks_name reg)). by rewrite Et. }
    destruct (Hlive eq_refl) as (r & -> & Hr & Hlen). destruct (IH (pre ++ [reg]) (<[ks_name reg := Z.of_nat (length pre)]> exposed) r Ereg' Hr Hfirst) as (e & r' & -> & Hr' & Hlen').
    exists e, r'. split_and!; [done|done|]. unfold count_live in Hlen'. cbn [length]. lia.
Qed.

Lemma reorder_loaded_panics post : forall pre exposed remaining, registry = pre ++ post -> left_ok pre remaining ->
  (exists d t rest, In d post /\ ks_destroyed d = false /\ whole (ks_name d) = t :: rest /\ layout_matches t d = false) ->
  exists m, reorder_registry post (List.map (taken_place registry) pre) exposed remaining = Panic m.
Proof.
  induction post as [|reg post IH]; intros pre exposed remaining Ereg Hleft (d & t & rest & Hin & Hd & Hw & Hm); [done|].
  destruct (reorder_loaded_step reg post pre exposed remaining Ereg Hleft) as (t' & rest' & Et & -> & Hlive & Hdead).
  assert (registry = (pre ++ [reg]) ++ post) as Ereg' by (by rewrite <- app_assoc).
  destruct (ks_destroyed reg) eqn:Hdr.
  - destruct Hin as [->|Hin]; [congruence|]. apply IH; [done|auto|]. by exists d, t, rest.
  - destruct Hin as [->|Hin].
    + rewrite Et in Hw. injection Hw as -> ->. rewrite Hm. by eexists.
    + destruct (layout_matches t' reg); [|by eexists]. destruct (Hlive eq_refl) as (r & -> & Hr & _). apply IH; [done|done|]. by exists d, t, rest.
Qed.

Lemma append_loaded remaining : forall ordered exposed changed, Z.of_nat (length ordered) + Z.of_nat (length (omap id remaining)) <= u8_max ->
  exists exposed', append_declared remaining ordered exposed changed = Ok (ordered ++ number (length ordered) (omap id remaining), exposed', changed || negb (is_nil (omap id remaining))) /\
    (forall n, left_named n remaining = [] -> exposed' !! n = exposed !! n) /\
    (forall n, left_named n remaining <> [] -> exists k x, (ordered ++ number (length ordered) (omap id remaining)) !! k = Some x /\ (length ordered <= k)%nat /\ ks_name x = n /\ exposed' !! n = Some (Z.of_nat k)).
Proof.
  induction remaining as [|[d|] remaining IH]; intros ordered exposed changed Hlen; cbn [append_declared omap list_omap id number is_nil] in *.
  - exists exposed. rewrite app_nil_r, orb_false_r. by split_and!.
  - fold (omap id remaining) in *. cbn [length] in Hlen. rewrite next_id_ok by lia. cbn [mbind outcome_bind]. set (x := with_id d (Z.of_nat (length ordered))).
    destruct (IH (ordered ++ [x]) (<[ks_name d := Z.of_nat (length ordered)]> exposed) true) as (e & E & Hsame & Hnew); [rewrite length_app; cbn; lia|].
    rewrite length_app, Nat.add_1_r, <- app_assoc in E, Hnew. cbn [app] in E, Hnew. exists e. rewrite E. split_and!; [by rewrite orb_true_r| |].
    + intros n. rewrite left_named_some. destruct (String.eqb_spec (ks_name d) n) as [|Hne]; [done|]. cbn [app]. intros Hn. rewrite (Hsame n Hn). by rewrite lookup_insert_ne.
    + intros n Hn. destruct (left_named n remaining) as [|y l] eqn:El.
      * rewrite left_named_some, El in Hn. destruct (String.eqb_spec (ks_name d) n) as [Hdn|Hne]; [|done]. exists (length ordered), x. split_and!; [|lia|done|].
        -- rewrite lookup_app_r, Nat.sub_diag by lia. done.
        -- rewrite (Hsame _ El), Hdn. by rewrite lookup_insert_eq.
      * destruct (Hnew n) as (k & z & Hk & Hge & Hz & He); [by rewrite El|]. exists k, z. split_and!; [done|lia|done|done].
  - fold (omap id remaining) in *. destruct (IH ordered exposed changed Hlen) as (e & E & Hsame & Hnew). exists e. by split_and!.
Qed.

Lemma left_all : left_ok [] (List.map Some registry).
Proof. intros n. rewrite left_named_all. by rewrite decide_False by apply not_elem_of_nil. Qed.

(** The shape that comes of it: a live name that has a tombstone before it loses
    its place. *)
Lemma reorder_loaded_shape : first_layouts_match registry -> Z.of_nat (length registry) + Z.of_nat (length (List.filter ks_destroyed registry)) <= u8_max ->
  exists new exposed, reorder_to_canonical registry (Some registry) = Ok (List.map (taken_place registry) registry ++ new, mkKeySpaces exposed, negb (is_nil new)) /\
    forall n, n ∈ live_names registry -> tail (whole n) <> [] ->
      new <> [] /\ exists k x, (List.map (taken_place registry) registry ++ new) !! k = Some x /\ (length registry <= k)%nat /\ ks_name x = n /\ exposed !! n = Some (Z.of_nat k).
Proof.
  intros Hfirst Hfit. unfold reorder_to_canonical. change (default [] (Some registry)) with registry.
  destruct (reorder_loaded registry [] ∅ (List.map Some registry) eq_refl left_all Hfirst) as (e & r & E & Hr & Hlen). cbn [List.map] in E. rewrite E. cbn [mbind outcome_bind].
  assert (length (omap id (List.map Some registry)) = length registry) as El by (clear; induction registry as [|x l IH]; [done|]; cbn; f_equal; exact IH).
  assert (count_live registry + length (List.filter ks_destroyed registry) = length registry)%nat as Ec.
  { unfold count_live, live. clear. induction registry as [|x l IH]; [done|]. cbn. destruct (ks_destroyed x); cbn; lia. }
  destruct (append_loaded r (List.map (taken_place registry) registry) e false) as (e' & Ea & _ & Hnew); [rewrite length_map; lia|].
  rewrite Ea. cbn [mbind outcome_bind]. exists (number (length (List.map (taken_place registry) registry)) (omap id r)), e'. split.
  - do 2 f_equal. cbn [orb]. by destruct (omap id r).
  - intros n Hn Htail. assert (left_named n r <> []) as Hl by (rewrite Hr, decide_True by done; exact Htail). split.
    + unfold left_named in Hl. by destruct (omap id r).
    + destruct (Hnew n Hl) as (k & x & Hk & Hge & Hx & He). exists k, x. rewrite length_map in Hge. by split_and!.
Qed.

Lemma taken_place_le : first_layouts_match registry -> registry_le registry (List.map (taken_place registry) registry).
Proof.
  intros Hfirst i d Hi. exists (taken_place registry d). split; [change (List.map ?f ?l) with (f <$> l); by rewrite list_lookup_fmap, Hi|].
  unfold taken_place. destruct (ks_destroyed d) eqn:Hd; [by unfold same_place|]. assert (In d registry) as Hin by (by eapply list_elem_of_In, list_elem_of_lookup_2).
  destruct (List.filter (fun x => String.eqb (ks_name x) (ks_name d)) registry) as [|t l] eqn:E; [by unfold same_place|].
  assert (ks_name t = ks_name d) as Hn by (apply String.eqb_eq; assert (In t (t :: l)) as Ht by (by left); rewrite <- E in Ht; by apply filter_In in Ht as [_ ?]).
  pose proof (Hfirst d t Hin Hd ltac:(by rewrite E)) as Hm. unfold layout_matches in Hm.
  apply andb_true_iff in Hm as [[Hmx%bool_decide_eq_true Hkt%bool_decide_eq_true]%andb_true_iff Hki%bool_decide_eq_true].
  unfold same_place, with_id; cbn. split_and!; try done; congruence.
Qed.
End loaded.

(** The cells the control region has for a place it did not know. *)
Lemma control_new_place deserialize_v3 deserialize_v2 deserialize_v1 control registry new k x :
  control_agrees deserialize_v3 deserialize_v2 deserialize_v1 control registry -> (registry ++ new) !! k = Some x -> (length registry <= k)%nat ->
  exists c, control_read_or_create deserialize_v3 deserialize_v2 deserialize_v1 (fs_control control) (registry ++ new) = Ok c /\
    cn_snapshot c !! k = Some (new_keyspace x snapshot_entry_empty).
Proof.
  intros Hc Hk Hge. destruct (control_agrees_reads _ _ _ control registry new Hc) as [c Hr]. exists c. split; [done|]. unfold control_read_or_create in Hr.
  destruct (fs_control control) as [bytes|] eqn:E.
  - destruct (Hc bytes E) as (c0 & E0 & Hl & Hn). rewrite E0 in Hr. cbn [mbind outcome_bind expect] in Hr.
    destruct (verify_shape _ _) in Hr; [|done]. injection Hr as <-. unfold extend_snapshot_if_needed. cbn [cn_snapshot].
    set (c1 := populate_keyspace_names_if_empty c0 (registry ++ new)). assert (cn_snapshot c1 = cn_snapshot c0) as -> by (unfold c1, populate_keyspace_names_if_empty; by destruct (cn_keyspace_names c0)).
    rewrite lookup_app_r by lia. change (List.map ?f ?l) with (f <$> l). rewrite list_lookup_fmap, lookup_drop. replace (length (cn_snapshot c0) + (k - length (cn_snapshot c0)))%nat with k by lia. by rewrite Hk.
  - injection Hr as <-. cbn. unfold new_from_key_shape. change (List.map ?f ?l) with (f <$> l). by rewrite list_lookup_fmap, Hk.
Qed.

(** The first of a name is not the live one. *)
Lemma live_not_first (registry : list KeySpaceDesc) d t : whole registry (ks_name d) = [t] -> In d registry -> ks_destroyed d = false -> ks_destroyed t = true -> False.
Proof.
  intros Hw Hin Hd Ht. assert (In d (whole registry (ks_name d))) as H by (apply filter_In; split; [done|apply String.eqb_refl]). rewrite Hw in H. destruct H as [->|[]]. congruence.
Qed.

Lemma reconcile_eq from_yaml files yaml registry declared shape exposed changed : sf_v2 files = Some yaml -> from_yaml yaml = Some registry ->
  reorder_to_canonical declared (Some registry) = Ok (shape, exposed, changed) -> reconcile_key_shape from_yaml files declared = Ok (Some (shape, exposed, changed)).
Proof.
  intros Hv Hy E. unfold reconcile_key_shape. rewrite Hv, Hy. exact (f_equal (fun r => '(key_shape, keyspaces, changed) ← r; Ok (Some (key_shape, keyspaces, changed))) E).
Qed.

(** Declaring the live key space finds it where it is. *)
Lemma redeclared_opens to_yaml from_yaml deserialize_v3 deserialize_v2 deserialize_v1 files control yaml registry d i :
  sf_v2 files = Some yaml -> from_yaml yaml = Some registry -> registry_ok registry -> control_agrees deserialize_v3 deserialize_v2 deserialize_v1 control registry ->
  registry !! i = Some d -> ks_destroyed d = false ->
  exists db, open_shapes to_yaml from_yaml deserialize_v3 deserialize_v2 deserialize_v1 files control [d] = Ok (Some (files, files, db)) /\
    od_shape db = registry /\ keyspaces_ks (od_keyspaces db) (ks_name d) = Ok (Z.of_nat i).
Proof.
  intros Hv Hy Hok Hc Hi Hd. assert (In d registry) as Hin by (by eapply list_elem_of_In, list_elem_of_lookup_2). pose proof (live_names_In registry d Hin Hd) as Hl.
  assert (fresh registry [d] = []) as Ef by (unfold fresh; cbn; by rewrite bool_decide_eq_true_2).
  destruct (reorder_canonical registry [d]) as (exposed & E & He).
  - split; [apply NoDup_singleton|by constructor].
  - done.
  - intros x r [<-|[]] Hr Hlr Hn. rewrite (live_same registry d r Hok Hin Hr Hd Hlr Hn). apply layout_matches_refl.
  - rewrite Ef. cbn [length]. pose proof (ro_len _ Hok). lia.
  - rewrite Ef in E, He. cbn [number is_nil negb] in E, He. rewrite app_nil_r in E, He. destruct (control_agrees_reads _ _ _ control registry [] Hc) as [c Hr]. rewrite app_nil_r in Hr.
    exists (mkOpenDb registry (mkKeySpaces exposed) (control_store_new c)). split_and!; [|done|].
    + unfold open_shapes. rewrite (reconcile_eq _ _ _ _ _ _ _ _ Hv Hy E). cbn [mbind outcome_bind]. rewrite Hr. reflexivity.
    + assert (exposed !! ks_name d = Some (Z.of_nat i)) as Hx by (apply He; exists i, d; split_and!; try done; by left).
      unfold keyspaces_ks, keyspaces_try_ks. cbn [od_keyspaces by_name]. by rewrite Hx.
Qed.

(** C31. A registry must not be declared.  [load_key_shape] reads the registry
    back with its tombstones.  Take any registry in which a key space was
    destroyed and its name declared again, so that a tombstone [t] comes before
    the live key space [d] of that name.  Opening the database with the shape
    read back, when the layouts differ, panics.  When the layouts agree, and
    there is room, it succeeds, and the tombstone takes the place of the live
    key space: that place is destroyed, in memory and in the shape file that is
    written, and the name gets a handle to a new place, which the control region
    has only empty cells for, so what the key space held is lost.  With the same
    name declared by the builder the handle is to the live place. *)
Theorem loaded_shape_destroys to_yaml from_yaml deserialize_v3 deserialize_v2 deserialize_v1 files control yaml registry t rest d i :
  sf_v2 files = Some yaml -> from_yaml yaml = Some registry -> registry_ok registry -> control_agrees deserialize_v3 deserialize_v2 deserialize_v1 control registry ->
  registry !! i = Some d -> ks_destroyed d = false -> whole registry (ks_name d) = t :: rest -> ks_destroyed t = true ->
  load_key_shape from_yaml files = Some registry /\
  (layout_matches t d = false -> exists m, open_shapes to_yaml from_yaml deserialize_v3 deserialize_v2 deserialize_v1 files control registry = Panic m) /\
  (first_layouts_match registry -> Z.of_nat (length registry) + Z.of_nat (length (List.filter ks_destroyed registry)) <= u8_max ->
    exists new exposed, let shape := List.map (taken_place registry) registry ++ new in
      reorder_to_canonical registry (Some registry) = Ok (shape, exposed, true) /\
      shape !! i = Some (with_id t (Z.of_nat i)) /\ ks_destroyed (with_id t (Z.of_nat i)) = true /\
      (exists k x c, keyspaces_ks exposed (ks_name d) = Ok (Z.of_nat k) /\ (length registry <= k)%nat /\ shape !! k = Some x /\
        control_read_or_create deserialize_v3 deserialize_v2 deserialize_v1 (fs_control control) shape = Ok c /\ cn_snapshot c !! k = Some (new_keyspace x snapshot_entry_empty)) /\
      forall yaml', to_yaml shape = Some yaml' -> exists written files' db,
        open_shapes to_yaml from_yaml deserialize_v3 deserialize_v2 deserialize_v1 files control registry = Ok (Some (written, files', db)) /\
        sf_v2 files' = Some yaml' /\ od_shape db = shape /\ od_keyspaces db = exposed) /\
  (exists db, open_shapes to_yaml from_yaml deserialize_v3 deserialize_v2 deserialize_v1 files control [d] = Ok (Some (files, files, db)) /\
    od_shape db = registry /\ keyspaces_ks (od_keyspaces db) (ks_name d) = Ok (Z.of_nat i)).
Proof.
  intros Hv Hy Hok Hc Hi Hd Hw Ht. assert (In d registry) as Hin by (by eapply list_elem_of_In, list_elem_of_lookup_2).
  split; [unfold load_key_shape; by rewrite Hv|]. split_and!.
  - intros Hm. destruct (reorder_loaded_panics registry Hok registry [] ∅ (List.map Some registry) eq_refl (left_all registry)) as [m Hp]; [by exists d, t, rest|].
    exists m. unfold open_shapes, reconcile_key_shape. rewrite Hv, Hy. unfold reorder_to_canonical. change (default [] (Some registry)) with registry. cbn [List.map] in Hp. by rewrite Hp.
  - intros Hfirst Hfit. destruct (reorder_loaded_shape registry Hok Hfirst Hfit) as (new & exposed & E & Hnew).
    destruct (Hnew (ks_name d)) as (Hn & k & x & Hk & Hge & Hx & He); [by apply live_names_In|rewrite Hw; cbn; intros ->; by eapply live_not_first|]. exists new, (mkKeySpaces exposed). cbn zeta.
    destruct new as [|y new']; [done|]. cbn [is_nil negb] in E. split_and!; [done| |done| |].
    + rewrite lookup_app_l by (rewrite length_map; by eapply lookup_lt_Some). change (List.map ?f ?l) with (f <$> l). rewrite list_lookup_fmap, Hi. cbn. unfold taken_place. rewrite Hd.
      change (List.filter _ registry) with (whole registry (ks_name d)). by rewrite Hw, (ro_ids _ Hok i d Hi).
    + pose proof (control_agrees_le _ _ _ control registry (List.map (taken_place registry) registry) Hc ltac:(by rewrite length_map) (taken_place_le registry Hfirst)) as Hc'.
      destruct (control_new_place _ _ _ control _ (y :: new') k x Hc' Hk ltac:(by rewrite length_map)) as (c & Hr & Hs). exists k, x, c. split_and!; try done.
      unfold keyspaces_ks, keyspaces_try_ks. cbn [by_name]. by rewrite He.
    + intros yaml' Hy'. pose proof (control_agrees_le _ _ _ control registry (List.map (taken_place registry) registry) Hc ltac:(by rewrite length_map) (taken_place_le registry Hfirst)) as Hc'.
      destruct (control_agrees_reads _ _ _ control _ (y :: new') Hc') as [c Hr]. eexists _, _, (mkOpenDb _ _ (control_store_new c)). split.
      { unfold open_shapes. rewrite (reconcile_eq _ _ _ _ _ _ _ _ Hv Hy E). cbn [mbind outcome_bind]. rewrite Hr. cbn [mbind outcome_bind]. unfold write_shape_file. rewrite Hy'. reflexivity. }
      by split_and!.
  - by apply (redeclared_opens to_yaml from_yaml deserialize_v3 deserialize_v2 deserialize_v1 files control yaml registry d i).
Qed.

(** ** A key space that is created, left out, destroyed and declared again *)

Definition demo_a : KeySpaceDesc := with_id demo_uniform 0.
Definition demo_gone : KeySpaceDesc := mark_destroyed demo_a.

Definition demo_registries : list (list KeySpaceDesc) :=
  [[demo_a]; [demo_gone]; [demo_gone; with_id demo_a 1]; [demo_gone; with_id demo_gone 1; with_id demo_a 2]].

(** A format with one byte per shape of the history. *)
Fixpoint index_of (shape : list KeySpaceDesc) (l : list (list KeySpaceDesc)) (i : Z) : option (list Z) :=
  match l with [] => None | x :: l => if bool_decide (x = shape) then Some [i] else index_of shape l (i + 1) end.

Definition demo_to_yaml (shape : list KeySpaceDesc) : option (list Z) := index_of shape demo_registries 0.
Definition demo_from_yaml (yaml : list Z) : option (list KeySpaceDesc) := match yaml with [i] => demo_registries !! Z.to_nat i | _ => None end.

Lemma demo_yaml_roundtrips : yaml_roundtrips demo_to_yaml demo_from_yaml.
Proof.
  assert (forall l i shape yaml, 0 <= i -> index_of shape l i = Some yaml -> exists j, yaml = [i + Z.of_nat j] /\ l !! j = Some shape) as H.
  { induction l as [|x l IH]; intros i shape yaml Hi; cbn [index_of]; [done|]. case_bool_decide as Hx.
    - intros [= <-]. exists 0%nat. rewrite Z.add_0_r. by rewrite Hx.
    - intros (j & -> & Hj)%IH; [|lia]. exists (S j). split; [f_equal; lia|done]. }
  intros shape yaml Hs. destruct (H demo_registries 0 shape yaml ltac:(lia) Hs) as (j & -> & Hj). cbn [demo_from_yaml]. by rewrite Z.add_0_l, Nat2Z.id.
Qed.

Notation reg_demo_step := (registry_step demo_to_yaml demo_from_yaml region_serialize region_deserialize (fun _ => None) (fun _ => None)).
Notation reg_demo_open := (open_shapes demo_to_yaml demo_from_yaml region_deserialize (fun _ => None) (fun _ => None)).

Definition reg_new : RegistryState := mkRegistryState (mkShapeFiles None None None) (mkControlFiles None None) None.

Definition reg_open (declared : list KeySpaceDesc) (s : RegistryState) : RegistryState :=
  match reg_demo_open (rs_files s) (rs_control s) declared with Ok (Some (_, files, db)) => mkRegistryState files (rs_control s) (Some db) | _ => s end.

Definition reg_destroy (name : string) (s : RegistryState) : RegistryState :=
  match rs_db s with
  | Some db => match tombstone_key_space demo_to_yaml db (rs_files s) name with Ok (db, files, _) => mkRegistryState files (rs_control s) (Some db) | Panic _ => s end
  | None => s
  end.

Definition reg_close (s : RegistryState) : RegistryState :=
  mkRegistryState (mkShapeFiles (sf_v2 (rs_files s)) None (sf_legacy (rs_files s))) (mkControlFiles (fs_control (rs_control s)) None) None.

Lemma reg_open_steps declared s : rs_db s = None -> declared_ok declared -> rtc reg_demo_step s (reg_open declared s).
Proof.
  intros Hn Hd. unfold reg_open. destruct (reg_demo_open _ _ _) as [[[[w f] db]|]|] eqn:E; [|done|done]. by eapply rtc_once, registry_open.
Qed.

Lemma reg_destroy_steps name s : rtc reg_demo_step s (reg_destroy name s).
Proof.
  unfold reg_destroy. destruct (rs_db s) as [db|] eqn:Hdb; [|done]. destruct (tombstone_key_space _ _ _ _) as [[[db' f] r]|] eqn:E; [|done]. by eapply rtc_once, registry_destroy.
Qed.

Lemma reg_close_steps s : rtc reg_demo_step s (reg_close s).
Proof. apply rtc_once, registry_close. Qed.

Lemma demo_declared : declared_ok [demo_a].
Proof. split; [apply NoDup_singleton|by constructor]. Qed.

Lemma none_declared : declared_ok [].
Proof. split; [apply NoDup_nil_2|constructor]. Qed.

Definition reg_first : RegistryState := reg_open [demo_a] reg_new.
Definition reg_redeclared : RegistryState := reg_open [demo_a] (reg_close (reg_destroy (ks_name demo_a) (reg_open [] (reg_close reg_first)))).

Lemma key_space_ids_stable_witness :
  exists db, rs_db reg_redeclared = Some db /\ keyspaces_ks (od_keyspaces db) (ks_name demo_a) = Ok 1 /\
    registry_of demo_from_yaml reg_first = [demo_a] /\ registry_of demo_from_yaml reg_redeclared = [demo_gone; with_id demo_a 1] /\
    registry_le (registry_of demo_from_yaml reg_first) (registry_of demo_from_yaml reg_redeclared).
Proof.
  destruct (key_space_ids_stable demo_to_yaml demo_from_yaml region_serialize region_deserialize (fun _ => None) (fun _ => None) reg_new reg_first reg_redeclared demo_yaml_roundtrips) as (Hle & _ & _).
  - done.
  - by apply reg_open_steps, demo_declared.
  - etrans; [apply reg_close_steps|]. etrans; [apply (reg_open_steps []); [done|apply none_declared]|].
    etrans; [apply (reg_destroy_steps (ks_name demo_a))|]. etrans; [apply reg_close_steps|]. by apply (reg_open_steps [demo_a]), demo_declared.
  - assert ((match rs_db reg_redeclared with Some db => keyspaces_ks (od_keyspaces db) (ks_name demo_a) | None => Panic EmptyString end) = Ok 1) as E by (by vm_compute).
    destruct (rs_db reg_redeclared) as [db|]; [|done]. exists db. split_and!; [done|done|by vm_compute|by vm_compute|done].
Defined.

Lemma loaded_shape_destroys_witness :
  exists written files db, reg_demo_open (rs_files reg_redeclared) (rs_control reg_redeclared) [demo_gone; with_id demo_a 1] = Ok (Some (written, files, db)) /\
    sf_v2 files = Some [3] /\ keyspaces_ks (od_keyspaces db) (ks_name demo_a) = Ok 2 /\ ks_destroyed <$> (od_shape db !! 1%nat) = Some true.
Proof.
  destruct (loaded_shape_destroys demo_to_yaml demo_from_yaml region_deserialize (fun _ => None) (fun _ => None) (rs_files reg_redeclared) (rs_control reg_redeclared) [2]
    [demo_gone; with_id demo_a 1] demo_gone [with_id demo_a 1] (with_id demo_a 1) 1) as (_ & _ & H & _); try (by vm_compute).
  - split; [|apply NoDup_singleton|done]. intros [|[|i]] x; cbn; by intros [= <-].
  - destruct H as (new & exposed & E & _ & _ & _ & Hopen).
    + intros d t [<-|[<-|[]]]; [done|]. intros _ [= <-]. by vm_compute.
    + by vm_compute.
    + assert (Some (List.map (taken_place [demo_gone; with_id demo_a 1]) [demo_gone; with_id demo_a 1] ++ new, exposed) =
        match reorder_to_canonical [demo_gone; with_id demo_a 1] (Some [demo_gone; with_id demo_a 1]) with Ok (s, e, _) => Some (s, e) | Panic _ => None end) as F
        by exact (f_equal (fun r => match r with Ok (s, e, _) => Some (s, e) | Panic _ => None end) (eq_sym E)).
      vm_compute in F. injection F as Fn Fe. destruct (Hopen [3]) as (w & f & db & Ho & Hf & Hs & Hk); [rewrite Fn; by vm_compute|].
      exists w, f, db. split_and!; [exact Ho|exact Hf|rewrite Hk, Fe; by vm_compute|rewrite Hs, Fn; by vm_compute].
Defined.
