(* ===== verification/Pending.v ===== *)
(** * Pending updates and transactions

    [src/tidehunter/src/index/pending_table.rs]: updates parked in a table until
    the transaction they belong to commits or is dropped.  A transaction's
    status is an [Arc<AtomicUsize>] shared by every update made under it; the
    shared cells are a store from transaction ids to status values.  The map is
    a stdpp [gmap]; its iteration order, unspecified for a [HashMap], is that of
    [map_to_list].  [shrink_if_sparse] only changes the map's capacity and has no
    counterpart. *)

From Stdlib Require Import ZArith Lia List.
From stdpp Require Import base tactics list gmap strings relations.
From S2P Require Import Prelude BTree Bytes Position.

Local Open Scope Z_scope.

(** ** Data *)

Definition TRANSACTION_STATUS_PENDING : Z := 0.
Definition TRANSACTION_STATUS_COMMITTED : Z := 1.
Definition TRANSACTION_STATUS_REVERTED : Z := 2.

(** The shared status cells. *)
Definition status_store : Type := nat -> Z.

Record PendingUpdate := mkPU {
  pu_status : nat;
  pu_is_modified : bool;
  pu_update : WalPosition;
  pu_lru_update : option (list Z * list Z);
}.

Record CommittedChange := mkCC {
  cc_key : list Z;
  cc_is_modified : bool;
  cc_value : WalPosition;
  cc_lru_update : option (list Z * list Z);
}.

Record PendingTable := mkPT {
  pt_data : gmap (list Z) (list PendingUpdate);
  pt_len : nat;
}.

Record Transaction := mkTx { tx_status : nat; tx_committed : bool }.

Definition pt_default : PendingTable := mkPT ∅ 0.

(** ** Transactions *)

Definition set_status (st : status_store) (tx : nat) (v : Z) : status_store :=
  fun t => if (t =? tx)%nat then v else st t.

(** [Transaction::default]: a fresh cell in state pending. *)
Definition tx_new (st : status_store) (cell : nat) : status_store * Transaction :=
  (set_status st cell TRANSACTION_STATUS_PENDING, mkTx cell false).

(** [impl Drop for Transaction] *)
Definition tx_drop (st : status_store) (tx : Transaction) : status_store :=
  if negb (tx_committed tx) then set_status st (tx_status tx) TRANSACTION_STATUS_REVERTED else st.

(** [Transaction::commit]; the consumed value is dropped at its end. *)
Definition tx_commit (st : status_store) (tx : Transaction) : status_store :=
  let st := set_status st (tx_status tx) TRANSACTION_STATUS_COMMITTED in
  tx_drop st (mkTx (tx_status tx) true).

(** ** The table *)

Definition insert_pending (t : PendingTable) (key : list Z) (is_modified : bool) (position : WalPosition)
    (lru_update : option (list Z * list Z)) (transaction : Transaction) : PendingTable :=
  let update := mkPU (tx_status transaction) is_modified position lru_update in
  mkPT (<[key := default [] (pt_data t !! key) ++ [update]]> (pt_data t)) (pt_len t + 1).

Definition pt_insert (t : PendingTable) (key : list Z) (position : WalPosition)
    (lru_update : option (list Z * list Z)) (transaction : Transaction) : PendingTable :=
  insert_pending t key true position lru_update transaction.

Definition pt_remove (t : PendingTable) (key : list Z) (position : WalPosition)
    (transaction : Transaction) : PendingTable :=
  insert_pending t key false position None transaction.

(** [updates.retain(..)]: the changes pushed, the updates kept, the number
    removed. *)
Fixpoint do_take_committed (st : status_store) (key : list Z) (updates : list PendingUpdate)
    (committed : list CommittedChange) : outcome (list CommittedChange * list PendingUpdate * nat) :=
  match updates with
  | [] => Ok (committed, [], 0%nat)
  | update :: rest =>
      let status := st (pu_status update) in
      if status =? TRANSACTION_STATUS_PENDING then
        '(committed, kept, removed) ← do_take_committed st key rest committed;
        Ok (committed, update :: kept, removed)
      else
        committed ←
          (if status =? TRANSACTION_STATUS_COMMITTED
           then Ok (committed ++ [mkCC key (pu_is_modified update) (pu_update update) (pu_lru_update update)])
           else _ ← assert_that (status =? TRANSACTION_STATUS_REVERTED) "Expected reverted transaction";
                Ok committed);
        '(committed, kept, removed) ← do_take_committed st key rest committed;
        Ok (committed, kept, S removed)
  end.

(** [self.len.checked_sub(removed).expect("len overflow")] *)
Definition sub_len (len removed : nat) : outcome nat :=
  if (removed <=? len)%nat then Ok (len - removed)%nat else Panic "len overflow".

Definition take_committed_for (st : status_store) (t : PendingTable) (key : list Z) :
    outcome (PendingTable * list CommittedChange * nat) :=
  match pt_data t !! key with
  | None => Ok (t, [], 0%nat)
  | Some updates =>
      '(committed, kept, removed) ← do_take_committed st key updates [];
      len ← sub_len (pt_len t) removed;
      let data := match kept with [] => delete key (pt_data t) | _ => <[key := kept]> (pt_data t) end in
      Ok (mkPT data len, committed, removed)
  end.

(** [self.data.retain(..)] over the entries in iteration order. *)
Fixpoint retain_pending (st : status_store) (entries : list (list Z * list PendingUpdate)) (len : nat)
    (committed : list CommittedChange) (total : nat) :
    outcome (list (list Z * list PendingUpdate) * nat * list CommittedChange * nat) :=
  match entries with
  | [] => Ok ([], len, committed, total)
  | (key, updates) :: rest =>
      '(committed, kept, removed) ← do_take_committed st key updates committed;
      len ← sub_len len removed;
      '(rest, len, committed, total) ← retain_pending st rest len committed (total + removed);
      Ok (match kept with [] => rest | _ => (key, kept) :: rest end, len, committed, total)
  end.

Definition take_committed (st : status_store) (t : PendingTable) :
    outcome (PendingTable * list CommittedChange * nat) :=
  '(entries, len, committed, total) ← retain_pending st (map_to_list (pt_data t)) (pt_len t) [] 0;
  Ok (mkPT (list_to_map entries) len, committed, total).

(** ** The contract *)

Definition is_pending (st : status_store) (u : PendingUpdate) : bool :=
  st (pu_status u) =? TRANSACTION_STATUS_PENDING.

Definition is_committed (st : status_store) (u : PendingUpdate) : bool :=
  st (pu_status u) =? TRANSACTION_STATUS_COMMITTED.

Definition as_change (key : list Z) (u : PendingUpdate) : CommittedChange :=
  mkCC key (pu_is_modified u) (pu_update u) (pu_lru_update u).

(** The changes a key's updates amount to, in insertion order. *)
Definition changes_of (st : status_store) (key : list Z) (us : list PendingUpdate) : list CommittedChange :=
  List.map (as_change key) (List.filter (is_committed st) us).

Definition pending_of (st : status_store) (us : list PendingUpdate) : list PendingUpdate :=
  List.filter (is_pending st) us.

(** Every cell holds one of the three status values. *)
Definition statuses_ok (st : status_store) : Prop :=
  forall tx, st tx = TRANSACTION_STATUS_PENDING \/ st tx = TRANSACTION_STATUS_COMMITTED \/
             st tx = TRANSACTION_STATUS_REVERTED.

Fixpoint total_updates (entries : list (list Z * list PendingUpdate)) : nat :=
  match entries with [] => 0 | (_, us) :: rest => length us + total_updates rest end.

(** No key maps to an empty list, and [len] counts the updates. *)
Definition pt_ok (t : PendingTable) : Prop :=
  map_Forall (fun _ us => us <> []) (pt_data t) /\ pt_len t = total_updates (map_to_list (pt_data t)).

Lemma statuses_ok_set st tx v :
  statuses_ok st -> (v = TRANSACTION_STATUS_PENDING \/ v = TRANSACTION_STATUS_COMMITTED \/ v = TRANSACTION_STATUS_REVERTED) ->
  statuses_ok (set_status st tx v).
Proof. intros Hs Hv t. unfold set_status. by destruct (t =? tx)%nat. Qed.

Lemma do_take_committed_ok st key us committed :
  statuses_ok st ->
  do_take_committed st key us committed =
  Ok (committed ++ changes_of st key us, pending_of st us, (length us - length (pending_of st us))%nat).
Proof.
  intros Hs. revert committed. induction us as [|u us IH]; intros committed; [by rewrite app_nil_r|].
  cbn [do_take_committed]. unfold pending_of, changes_of. cbn [List.filter].
  fold (pending_of st us). pose proof (List.filter_length_le (is_pending st) us) as Hle. fold (pending_of st us) in Hle.
  destruct (Hs (pu_status u)) as [E|[E|E]].
  - assert (is_pending st u = true) as -> by (unfold is_pending; by rewrite E).
    assert (is_committed st u = false) as -> by (unfold is_committed; by rewrite E).
    rewrite E. cbn. rewrite IH. done.
  - assert (is_pending st u = false) as -> by (unfold is_pending; by rewrite E).
    assert (is_committed st u = true) as -> by (unfold is_committed; by rewrite E).
    rewrite E. cbn. rewrite IH. cbn. rewrite <- app_assoc. cbn [app]. do 3 f_equal. cbn [length]. lia.
  - assert (is_pending st u = false) as -> by (unfold is_pending; by rewrite E).
    assert (is_committed st u = false) as -> by (unfold is_committed; by rewrite E).
    rewrite E. cbn. rewrite IH. cbn. do 2 f_equal. cbn [length]. lia.
Qed.

(** The kept entries: the keys that still have a pending update. *)
Definition kept_entries (st : status_store) (entries : list (list Z * list PendingUpdate)) :
    list (list Z * list PendingUpdate) :=
  bt_omap (fun _ us => match pending_of st us with [] => None | l => Some l end) entries.

Definition all_changes (st : status_store) (entries : list (list Z * list PendingUpdate)) : list CommittedChange :=
  concat (List.map (fun e => changes_of st e.1 e.2) entries).

Lemma kept_entries_cons st k us rest :
  kept_entries st ((k, us) :: rest) =
  match pending_of st us with [] => kept_entries st rest | l => (k, l) :: kept_entries st rest end.
Proof. unfold kept_entries. rewrite bt_omap_cons. by destruct (pending_of st us). Qed.

Lemma total_kept st entries : (total_updates (kept_entries st entries) <= total_updates entries)%nat.
Proof.
  induction entries as [|[k us] rest IH]; [done|]. rewrite kept_entries_cons.
  pose proof (List.filter_length_le (is_pending st) us) as Hle. fold (pending_of st us) in Hle.
  destruct (pending_of st us) eqn:E; cbn [total_updates]; lia.
Qed.

Lemma ok_tuple4 {A B C D} (a a' : A) (b b' : B) (c c' : C) (d d' : D) :
  a = a' -> b = b' -> c = c' -> d = d' -> Ok (a, b, c, d) = Ok (a', b', c', d').
Proof. by intros -> -> -> ->. Qed.

Lemma retain_pending_ok st entries len committed total :
  statuses_ok st -> (total_updates entries <= len)%nat ->
  retain_pending st entries len committed total =
  Ok (kept_entries st entries, (len - (total_updates entries - total_updates (kept_entries st entries)))%nat,
      committed ++ all_changes st entries,
      (total + (total_updates entries - total_updates (kept_entries st entries)))%nat).
Proof.
  intros Hs. revert len committed total. induction entries as [|[k us] rest IH]; intros len committed total Hlen.
  { cbn. rewrite app_nil_r. apply ok_tuple4; done || lia. }
  cbn [retain_pending]. rewrite do_take_committed_ok by done. cbn [mbind outcome_bind].
  pose proof (List.filter_length_le (is_pending st) us) as Hle. fold (pending_of st us) in Hle.
  pose proof (total_kept st rest) as Hk. cbn [total_updates] in Hlen. unfold sub_len.
  destruct (Nat.leb_spec (length us - length (pending_of st us)) len); [|lia]. cbn [mbind outcome_bind].
  rewrite IH by lia. cbn [mbind outcome_bind]. rewrite kept_entries_cons.
  unfold all_changes at 2. cbn [List.map concat fst snd]. fold (all_changes st rest).
  rewrite <- app_assoc. destruct (pending_of st us) as [|u l] eqn:Ep; cbn [total_updates length] in *;
    apply ok_tuple4; done || lia.
Qed.

Lemma kept_entries_keys st entries k : k ∈ (kept_entries st entries).*1 -> k ∈ entries.*1.
Proof.
  induction entries as [|[k' us] rest IH]; [done|]. rewrite kept_entries_cons. rewrite fmap_cons, elem_of_cons.
  destruct (pending_of st us); [by auto|]. rewrite fmap_cons, elem_of_cons. cbn. naive_solver.
Qed.

Lemma kept_entries_NoDup st entries : NoDup entries.*1 -> NoDup (kept_entries st entries).*1.
Proof.
  induction entries as [|[k us] rest IH]; [done|]. rewrite fmap_cons, NoDup_cons. intros [Hk Hn].
  rewrite kept_entries_cons. destruct (pending_of st us); [by apply IH|]. rewrite fmap_cons, NoDup_cons.
  split; [|by apply IH]. intros Hin. by apply Hk, (kept_entries_keys st).
Qed.

Lemma kept_entries_lookup (st : status_store) (m : gmap (list Z) (list PendingUpdate)) k :
  (list_to_map (kept_entries st (map_to_list m)) : gmap (list Z) (list PendingUpdate)) !! k =
  match m !! k with
  | Some us => match pending_of st us with [] => None | l => Some l end
  | None => None
  end.
Proof.
  assert (forall us, (k, us) ∈ kept_entries st (map_to_list m) <->
            exists us0, m !! k = Some us0 /\ pending_of st us0 = us /\ us <> []) as Hin.
  { intros us. unfold kept_entries, bt_omap. rewrite list_elem_of_omap. split.
    - intros ([k' us0] & Hel & Hm). cbn [fst snd] in Hm. apply elem_of_map_to_list in Hel.
      destruct (pending_of st us0) eqn:E; [done|]. injection Hm as -> <-. by exists us0.
    - intros (us0 & Hm & Hp & Hne). exists (k, us0). split; [by apply elem_of_map_to_list|]. cbn [fst snd]. rewrite Hp.
      by destruct us. }
  assert (NoDup (kept_entries st (map_to_list m)).*1) as Hnd by apply kept_entries_NoDup, NoDup_fst_map_to_list.
  destruct (list_to_map _ !! k) as [us|] eqn:E.
  - apply elem_of_list_to_map in E; [|done]. apply Hin in E as (us0 & -> & <- & Hne). by destruct (pending_of st us0).
  - apply not_elem_of_list_to_map in E. destruct (m !! k) as [us0|] eqn:Em; [|done].
    destruct (pending_of st us0) as [|u l] eqn:Ep; [done|]. exfalso. apply E, list_elem_of_fmap.
    exists (k, u :: l). split; [done|]. apply Hin. by exists us0.
Qed.

Lemma total_updates_perm a b : a ≡ₚ b -> total_updates a = total_updates b.
Proof. induction 1 as [|[k us] ? ? ? IH|[? ?] [? ?] ?|]; cbn; lia. Qed.

(** The changes returned for one key. *)
Lemma all_changes_key st entries k :
  NoDup entries.*1 ->
  List.filter (fun c => keqb (cc_key c) k) (all_changes st entries) =
  match list_find (fun e => e.1 = k) entries with
  | Some (_, (_, us)) => changes_of st k us
  | None => []
  end.
Proof.
  assert (forall k' us, List.filter (fun c => keqb (cc_key c) k) (changes_of st k' us) =
            if keqb k' k then changes_of st k' us else []) as Hf.
  { intros k' us. unfold changes_of. induction (List.filter (is_committed st) us) as [|u l IH]; [by destruct (keqb k' k)|].
    cbn [List.map List.filter]. change (cc_key (as_change k' u)) with k'. rewrite IH. by destruct (keqb k' k). }
  induction entries as [|[k' us] rest IH]; [done|]. rewrite fmap_cons, NoDup_cons. cbn [fst]. intros [Hk Hn].
  unfold all_changes in *. cbn [List.map concat fst snd list_find]. rewrite List.filter_app, Hf, IH by done.
  destruct (keqb_spec k' k) as [->|Hne].
  - rewrite decide_True by done. destruct (list_find _ rest) as [[i [k2 us2]]|] eqn:E; [|by rewrite app_nil_r].
    apply list_find_Some in E as (Hl & Ek & _). cbn in Ek. subst k2. exfalso. apply Hk, list_elem_of_fmap.
    exists (k, us2). split; [done|]. by eapply list_elem_of_lookup_2.
  - rewrite decide_False by done. cbn [app]. by destruct (list_find _ rest) as [[i [k2 us2]]|].
Qed.

Lemma find_map_to_list (m : gmap (list Z) (list PendingUpdate)) k :
  match list_find (fun e => e.1 = k) (map_to_list m) with Some (_, (_, us)) => us | None => [] end =
  default [] (m !! k).
Proof.
  destruct (list_find _ _) as [[i [k' us]]|] eqn:E.
  - apply list_find_Some in E as (Hl & Hk & _). cbn in Hk. subst k'. apply list_elem_of_lookup_2, elem_of_map_to_list in Hl.
    by rewrite Hl.
  - apply list_find_None in E. destruct (m !! k) as [us|] eqn:Em; [|done]. exfalso.
    apply elem_of_map_to_list in Em. rewrite Forall_forall in E. by apply (E _ Em).
Qed.

(** [take_committed]: succeeds, hands out every committed update of a key in
    insertion order, forgets the reverted ones and keeps the pending ones. *)
Lemma take_committed_ok st t :
  statuses_ok st -> pt_ok t ->
  exists t' committed removed, take_committed st t = Ok (t', committed, removed) /\ pt_ok t' /\
    (removed = pt_len t - pt_len t')%nat /\
    forall k,
      List.filter (fun c => keqb (cc_key c) k) committed = changes_of st k (default [] (pt_data t !! k)) /\
      default [] (pt_data t' !! k) = pending_of st (default [] (pt_data t !! k)).
Proof.
  intros Hs [Hne Hlen]. unfold take_committed. rewrite retain_pending_ok by (done || lia). cbn [mbind outcome_bind].
  pose proof (total_kept st (map_to_list (pt_data t))) as Hk.
  pose proof (kept_entries_NoDup st (map_to_list (pt_data t)) (NoDup_fst_map_to_list _)) as Hnd.
  eexists _, _, _. split; [done|]. split; [|split].
  - split; cbn [pt_data pt_len].
    + intros k us Hl. rewrite kept_entries_lookup in Hl. destruct (pt_data t !! k) as [us0|]; [|done].
      destruct (pending_of st us0); [done|]. by injection Hl as <-.
    + pose proof (total_updates_perm _ _ (map_to_list_to_map (M := gmap (list Z)) _ Hnd)) as Hp. lia.
  - cbn [pt_len]. lia.
  - intros k. cbn [pt_data app]. rewrite kept_entries_lookup. split.
    + rewrite all_changes_key by apply NoDup_fst_map_to_list. rewrite <- find_map_to_list.
      by destruct (list_find _ _) as [[? [? ?]]|].
    + destruct (pt_data t !! k) as [us|]; [|done]. cbn [default from_option id]. by destruct (pending_of st us).
Qed.

Lemma map_total_insert (m : gmap (list Z) (list PendingUpdate)) k us :
  total_updates (map_to_list (<[k := us]> m)) = (length us + total_updates (map_to_list (delete k m)))%nat.
Proof.
  rewrite <- insert_delete_eq.
  rewrite (total_updates_perm _ ((k, us) :: map_to_list (delete k m))) by (apply map_to_list_insert, lookup_delete_eq).
  done.
Qed.

Lemma map_total_delete (m : gmap (list Z) (list PendingUpdate)) k :
  total_updates (map_to_list m) = (length (default [] (m !! k)) + total_updates (map_to_list (delete k m)))%nat.
Proof.
  destruct (m !! k) as [us|] eqn:E; cbn.
  - rewrite <- (map_total_insert m k us). by rewrite insert_id.
  - by rewrite delete_id.
Qed.

Lemma insert_pending_ok t key b p lru tx : pt_ok t -> pt_ok (insert_pending t key b p lru tx).
Proof.
  intros [Hne Hlen]. unfold insert_pending. split; cbn [pt_data pt_len].
  - apply map_Forall_insert_2; [|done]. by destruct (default [] _).
  - rewrite map_total_insert, length_app, Hlen, (map_total_delete (pt_data t) key). cbn [length]. lia.
Qed.

Lemma take_committed_for_ok st t key :
  statuses_ok st -> pt_ok t ->
  exists t' removed, take_committed_for st t key =
      Ok (t', changes_of st key (default [] (pt_data t !! key)), removed) /\
    pt_ok t' /\ (removed = pt_len t - pt_len t')%nat /\
    forall k, default [] (pt_data t' !! k) =
      if keqb k key then pending_of st (default [] (pt_data t !! k)) else default [] (pt_data t !! k).
Proof.
  intros Hs [Hne Hlen]. unfold take_committed_for. destruct (pt_data t !! key) as [us|] eqn:E.
  - rewrite do_take_committed_ok by done. cbn [mbind outcome_bind app default from_option id].
    pose proof (List.filter_length_le (is_pending st) us) as Hle. fold (pending_of st us) in Hle.
    rewrite (map_total_delete (pt_data t) key), E in Hlen. cbn [default from_option id] in Hlen.
    unfold sub_len. destruct (Nat.leb_spec (length us - length (pending_of st us)) (pt_len t)); [|lia].
    cbn [mbind outcome_bind]. eexists _, _. split; [done|]. split; [|split].
    + split; cbn [pt_data pt_len].
      * destruct (pending_of st us); [by apply map_Forall_delete|by apply map_Forall_insert_2].
      * destruct (pending_of st us) eqn:Ep; [cbn [length] in *; lia|]. rewrite map_total_insert. lia.
    + cbn [pt_len]. lia.
    + intros k. cbn [pt_data]. destruct (keqb_spec k key) as [->|Hk].
      * rewrite E. cbn. destruct (pending_of st us) eqn:Ep; by simplify_map_eq.
      * destruct (pending_of st us); by simplify_map_eq.
  - exists t, 0%nat. split; [done|]. split; [done|]. split; [lia|]. intros k.
    destruct (keqb_spec k key) as [->|]; [|done]. by rewrite E.
Qed.

(** ** The system *)

Record tx_system := mkTS { ts_store : status_store; ts_table : PendingTable; ts_live : list Transaction }.

(** A cell no update and no transaction refers to: a new [Arc]. *)
Definition fresh_cell (s : tx_system) (cell : nat) : Prop :=
  (forall tx, In tx (ts_live s) -> tx_status tx <> cell) /\
  (forall k us u, pt_data (ts_table s) !! k = Some us -> In u us -> pu_status u <> cell).

Inductive tx_step : tx_system -> tx_system -> Prop :=
| step_begin s cell :
    fresh_cell s cell ->
    let '(st, tx) := tx_new (ts_store s) cell in
    tx_step s (mkTS st (ts_table s) (tx :: ts_live s))
| step_update s tx key b p lru :
    In tx (ts_live s) ->
    tx_step s (mkTS (ts_store s) (insert_pending (ts_table s) key b p lru tx) (ts_live s))
| step_commit s tx :
    In tx (ts_live s) ->
    tx_step s (mkTS (tx_commit (ts_store s) tx) (ts_table s)
                 (List.filter (fun t => negb (tx_status t =? tx_status tx)%nat) (ts_live s)))
| step_drop s tx :
    In tx (ts_live s) ->
    tx_step s (mkTS (tx_drop (ts_store s) tx) (ts_table s)
                 (List.filter (fun t => negb (tx_status t =? tx_status tx)%nat) (ts_live s)))
| step_take s t' committed removed :
    take_committed (ts_store s) (ts_table s) = Ok (t', committed, removed) ->
    tx_step s (mkTS (ts_store s) t' (ts_live s))
| step_take_for s key t' committed removed :
    take_committed_for (ts_store s) (ts_table s) key = Ok (t', committed, removed) ->
    tx_step s (mkTS (ts_store s) t' (ts_live s)).

Definition tx_init : tx_system := mkTS (fun _ => TRANSACTION_STATUS_PENDING) pt_default [].

(** Live transactions are pending. *)
Definition tx_inv (s : tx_system) : Prop :=
  statuses_ok (ts_store s) /\ pt_ok (ts_table s) /\
  forall tx, In tx (ts_live s) -> ts_store s (tx_status tx) = TRANSACTION_STATUS_PENDING.

Lemma live_after_set s tx v t :
  tx_inv s -> In t (List.filter (fun t => negb (tx_status t =? tx_status tx)%nat) (ts_live s)) ->
  set_status (ts_store s) (tx_status tx) v (tx_status t) = TRANSACTION_STATUS_PENDING.
Proof.
  intros (_ & _ & Hl) [Hin Hne]%filter_In. unfold set_status. b2p. rewrite (proj2 (Nat.eqb_neq _ _) Hne). by apply Hl.
Qed.

Lemma tx_inv_step s s' : tx_inv s -> tx_step s s' -> tx_inv s'.
Proof.
  intros Hinv Hstep. pose proof Hinv as (Hs & Ht & Hl).
  destruct Hstep as [s cell Hf|s tx key b p lru Hin|s tx Hin|s tx Hin|s t' c r Htk|s key t' c r Htk];
    (split; [|split]); cbn [ts_store ts_table ts_live]; try done.
  - apply statuses_ok_set; auto.
  - intros tx [<-|Hin]; cbn; unfold set_status; [by rewrite Nat.eqb_refl|].
    rewrite (proj2 (Nat.eqb_neq _ _) (proj1 Hf tx Hin)). by apply Hl.
  - by apply insert_pending_ok.
  - apply statuses_ok_set; auto.
  - intros t Hin'. by apply live_after_set.
  - unfold tx_drop. destruct (negb _); [apply statuses_ok_set; auto|done].
  - intros t Hin'. unfold tx_drop. destruct (negb _); [by apply live_after_set|].
    apply filter_In in Hin' as [Hin' _]. by apply Hl.
  - destruct (take_committed_ok _ _ Hs Ht) as (t2 & c2 & r2 & E & Ht2 & _). congruence.
  - destruct (take_committed_for_ok _ _ key Hs Ht) as (t2 & r2 & E & Ht2 & _). congruence.
Qed.

Lemma tx_inv_init : tx_inv tx_init.
Proof. split; [by left|]. split; [split; [apply map_Forall_empty|done]|done]. Qed.

Lemma tx_inv_reachable s : rtc tx_step tx_init s -> tx_inv s.
Proof.
  intros Hr. pose proof tx_inv_init as Hi. revert Hi. induction Hr as [|x y z Hs Hr IH]; [done|].
  intros Hi. by apply IH, (tx_inv_step x).
Qed.

(** ** Properties *)

(** Transactions are atomic and isolated: in every reachable state taking
    the committed updates succeeds (no length underflow, no unknown status),
    hands out for every key exactly the updates of committed transactions in
    the order they were made, keeps exactly those of transactions still
    running, and keeps the length exact; a running transaction's updates are
    pending, so none of them is handed out. *)
Lemma pending_take_committed s :
  rtc tx_step tx_init s ->
  (forall tx, In tx (ts_live s) -> ts_store s (tx_status tx) = TRANSACTION_STATUS_PENDING) /\
  exists t' committed removed, take_committed (ts_store s) (ts_table s) = Ok (t', committed, removed) /\ pt_ok t' /\
    (removed = pt_len (ts_table s) - pt_len t')%nat /\
    forall k,
      List.filter (fun c => keqb (cc_key c) k) committed =
        changes_of (ts_store s) k (default [] (pt_data (ts_table s) !! k)) /\
      default [] (pt_data t' !! k) = pending_of (ts_store s) (default [] (pt_data (ts_table s) !! k)).
Proof.
  intros Hr. destruct (tx_inv_reachable s Hr) as (Hs & Ht & Hl). split; [done|]. by apply take_committed_ok.
Qed.

(** Taking one key's committed updates, in every reachable state: it returns
    that key's committed updates in order, leaves its pending ones, and touches
    no other key. *)
Lemma pending_take_committed_for s key :
  rtc tx_step tx_init s ->
  exists t' removed, take_committed_for (ts_store s) (ts_table s) key =
      Ok (t', changes_of (ts_store s) key (default [] (pt_data (ts_table s) !! key)), removed) /\
    pt_ok t' /\ (removed = pt_len (ts_table s) - pt_len t')%nat /\
    forall k, default [] (pt_data t' !! k) =
      if keqb k key then pending_of (ts_store s) (default [] (pt_data (ts_table s) !! k))
      else default [] (pt_data (ts_table s) !! k).
Proof.
  intros Hr. destruct (tx_inv_reachable s Hr) as (Hs & Ht & _). by apply take_committed_for_ok.
Qed.

(** One transaction committed with one update. *)
Definition demo_tx_system : tx_system :=
  mkTS (tx_commit (tx_new (ts_store tx_init) 3).1 (mkTx 3 false))
    (insert_pending pt_default [1] true (mkWalPosition 8 40) None (mkTx 3 false)) [].

Lemma demo_tx_run : rtc tx_step tx_init demo_tx_system.
Proof.
  eapply rtc_l; [apply (step_begin tx_init 3); split; [by intros tx []|by intros k us u H]|].
  eapply rtc_l; [apply (step_update _ (mkTx 3 false) [1] true (mkWalPosition 8 40) None); by left|].
  eapply rtc_l; [apply (step_commit _ (mkTx 3 false)); by left|]. apply rtc_refl.
Qed.

