(* ===== verification/Batch.v ===== *)
(** * Write batches

    [src/tidehunter/src/batch.rs] and the batch path of
    [src/tidehunter/src/db.rs] and [src/tidehunter/src/large_table.rs]: a client
    collects writes and removals; committing the batch frames them in the log,
    one frame each behind a [BatchStart] or one compressed frame for all, and
    parks the updates, grouped by mutex, in the pending tables of their cells
    under one transaction.

    The pending tables are keyed by key space, mutex and cell: a cell's entry is
    found through the row its mutex guards.  With a commit pool the groups are
    applied in parallel, under different mutexes; [apply_groups] applies them in
    the order of the list, and any order gives the same tables
    ([groups_commute]). *)

From Stdlib Require Import ZArith Lia List Sorting.Sorted.
From stdpp Require Import base tactics list gmap strings relations sorting.
From S2P Require Import Prelude BTree Bytes Position Cell Layout KeyShape WalEntry Allocator Tracker IndexTable.
From S2P Require Import Crc WalFiles Wal Pending.

Local Open Scope Z_scope.

#[export] Instance CellId_countable : Countable CellId :=
  inj_countable' (fun c => match c with CellInteger p => inl p | CellBytes b => inr b end)
    (fun s => match s with inl p => CellInteger p | inr b => CellBytes b end) ltac:(by intros []).

(** ** Data *)

Inductive PendingOp :=
| PendingOpInsert (ks : KeySpace) (reduced_key : list Z) (cell_id : CellId) (lru_update : option (list Z * list Z))
| PendingOpRemove (ks : KeySpace) (reduced_key : list Z) (cell_id : CellId).

Definition op_ks_id (op : PendingOp) : KeySpace := match op with PendingOpInsert ks _ _ _ | PendingOpRemove ks _ _ => ks end.

Definition op_cell_id (op : PendingOp) : CellId := match op with PendingOpInsert _ _ c _ | PendingOpRemove _ _ c => c end.

Definition op_reduced_key (op : PendingOp) : list Z := match op with PendingOpInsert _ k _ _ | PendingOpRemove _ k _ => k end.

Record WriteBatch := mkWriteBatch {
  wb_transaction : Transaction;
  wb_writes : list WalEntry;
  wb_tag : string;
  wb_pending_ops : list PendingOp;
}.

Definition MAX_BATCH_LEN : nat := 1000 * 1000.

Inductive PendingBatchOp :=
| BatchInsert (reduced_key : list Z) (lru_update : option (list Z * list Z))
| BatchRemove (reduced_key : list Z).

(** The pending tables of the cells and the rows marked dirty. *)
Record PendingRows := mkPendingRows {
  pr_tables : gmap (KeySpace * Z * CellId) PendingTable;
  pr_dirty : gset (KeySpace * Z);
}.

Definition pending_at (rows : PendingRows) (ks : KeySpace) (mutex : Z) (cell : CellId) : PendingTable :=
  default pt_default (pr_tables rows !! (ks, mutex, cell)).

(** ** Building a batch *)

Section batch.
Context (shape : list KeySpaceDesc) (blake2b256 : list Z -> list Z) (value_cache : KeySpace -> bool).

Definition ks_context (ks : KeySpace) : outcome KeySpaceDesc := expect (shape !! Z.to_nat ks) "index out of bounds".

Definition check_key (ksd : KeySpaceDesc) (k : list Z) : outcome unit := check_key_size (ks_key_indexing ksd) (length k).

Definition batch_new (transaction : Transaction) : WriteBatch := mkWriteBatch transaction [] "" [].

Definition set_tag (b : WriteBatch) (tag : string) : WriteBatch := mkWriteBatch (wb_transaction b) (wb_writes b) tag (wb_pending_ops b).

Definition push_write (b : WriteBatch) (entry : WalEntry) : outcome WriteBatch :=
  let writes := wb_writes b ++ [entry] in
  _ ← assert_that (length writes <? MAX_BATCH_LEN)%nat "Batch exceeds max length";
  Ok (mkWriteBatch (wb_transaction b) writes (wb_tag b) (wb_pending_ops b)).

Definition batch_write (b : WriteBatch) (ks : KeySpace) (k v : list Z) : outcome WriteBatch :=
  context ← ks_context ks;
  _ ← check_key context k;
  reduced_key ← reduce_key blake2b256 (ks_key_indexing context) k;
  cell ← cell_id context reduced_key;
  let lru_update := if value_cache ks then Some (k, v) else None in
  let ops := wb_pending_ops b ++ [PendingOpInsert ks reduced_key cell lru_update] in
  push_write (mkWriteBatch (wb_transaction b) (wb_writes b) (wb_tag b) ops) (WalRecord ks k v false).

Definition batch_delete (b : WriteBatch) (ks : KeySpace) (k : list Z) : outcome WriteBatch :=
  context ← ks_context ks;
  _ ← check_key context k;
  reduced_key ← reduce_key blake2b256 (ks_key_indexing context) k;
  cell ← cell_id context reduced_key;
  let ops := wb_pending_ops b ++ [PendingOpRemove ks reduced_key cell] in
  push_write (mkWriteBatch (wb_transaction b) (wb_writes b) (wb_tag b) ops) (WalRemove ks k).

(** ** Last write wins *)

(** The loop that records the last index of every key. *)
Fixpoint last_indices (ops : list PendingOp) (i : nat) (last_idx : gmap (KeySpace * list Z) nat) : gmap (KeySpace * list Z) nat :=
  match ops with
  | [] => last_idx
  | op :: rest => last_indices rest (S i) (<[(op_ks_id op, op_reduced_key op) := i]> last_idx)
  end.

(** [retain] with a counter against the indices to keep. *)
Fixpoint retain_indices {A} (xs : list A) (i : nat) (keep : gset nat) : list A :=
  match xs with
  | [] => []
  | x :: rest => if bool_decide (i ∈ keep) then x :: retain_indices rest (S i) keep else retain_indices rest (S i) keep
  end.

Definition dedup_last_wins (writes : list WalEntry) (pending_ops : list PendingOp) : list WalEntry * list PendingOp :=
  if (length writes <? 2)%nat then (writes, pending_ops)
  else
    let last_idx := last_indices pending_ops 0 ∅ in
    if (size last_idx =? length pending_ops)%nat then (writes, pending_ops)
    else
      let keep : gset nat := list_to_set (List.map snd (map_to_list last_idx)) in
      (retain_indices writes 0 keep, retain_indices pending_ops 0 keep).

(** ** Framing *)

Context (hash : list Z -> Z) (lz4_compress : list Z -> list Z).

(** [PreparedWalWrite::new] *)
Definition prepared_write (e : WalEntry) : outcome (list Z) :=
  bytes ← wal_entry_write e [];
  Ok (crc_frame_new hash bytes).

Fixpoint prepare_writes (entries : list WalEntry) : outcome (list (list Z)) :=
  match entries with
  | [] => Ok []
  | e :: rest => p ← prepared_write e; ps ← prepare_writes rest; Ok (p :: ps)
  end.

(** The guards, by position, and the positions to index. *)
Definition write_batch_into_wal (w : WalWriter) (entries : list WalEntry) : outcome (WalWriter * list WalPosition * list WalPosition) :=
  batch_start ← prepared_write (WalBatchStart (wrap32 (Z.of_nat (length entries))));
  prepared ← prepare_writes entries;
  '(w, _, guards) ← multi_write w (batch_start :: prepared);
  match guards with
  | [] => Panic "range start index 1 out of range for slice of length 0"
  | _ :: positions => Ok (w, guards, positions)
  end.

Definition write_compressed_batch_into_wal (w : WalWriter) (entries : list WalEntry) : outcome (WalWriter * list WalPosition * list WalPosition) :=
  entry ← compressed_batch_encode lz4_compress entries;
  prepared ← prepared_write entry;
  '(w, _, position) ← wal_write w prepared;
  Ok (w, [position], replicate (length entries) position).

(** ** Committing *)

Record GroupItem := mkItem {
  gi_ks : KeySpace;
  gi_mutex : Z;
  gi_cell : CellId;
  gi_op : PendingBatchOp;
  gi_pos : WalPosition;
}.

Definition batch_op (op : PendingOp) : PendingBatchOp :=
  match op with
  | PendingOpInsert _ reduced_key _ lru_update => BatchInsert reduced_key lru_update
  | PendingOpRemove _ reduced_key _ => BatchRemove reduced_key
  end.

Fixpoint group_items (ops : list (PendingOp * WalPosition)) : outcome (list GroupItem) :=
  match ops with
  | [] => Ok []
  | (op, pos) :: rest =>
      context ← ks_context (op_ks_id op);
      mutex_idx ← mutex_for_cell context (op_cell_id op);
      items ← group_items rest;
      Ok (mkItem (op_ks_id op) mutex_idx (op_cell_id op) (batch_op op) pos :: items)
  end.

Definition item_le (a b : GroupItem) : bool := (gi_ks a <? gi_ks b) || ((gi_ks a =? gi_ks b) && (gi_mutex a <=? gi_mutex b)).

(** [sort_by_key], which is stable. *)
Fixpoint insert_item (x : GroupItem) (items : list GroupItem) : list GroupItem :=
  match items with
  | [] => [x]
  | y :: rest => if item_le x y then x :: items else y :: insert_item x rest
  end.

Fixpoint sort_items (items : list GroupItem) : list GroupItem :=
  match items with [] => [] | x :: rest => insert_item x (sort_items rest) end.

Definition same_group (a b : GroupItem) : bool := (gi_ks b =? gi_ks a) && (gi_mutex b =? gi_mutex a).

(** The [while] loop over group boundaries. *)
Fixpoint group_ranges (fuel : nat) (grouped : list GroupItem) (i : nat) : list (nat * nat) :=
  match fuel with
  | O => []
  | S fuel =>
      match grouped !! i with
      | None => []
      | Some x =>
          let j := (i + partition_point (same_group x) (drop i grouped))%nat in
          (i, j) :: group_ranges fuel grouped j
      end
  end.

(** [LargeTable::apply_pending_batch] *)
Fixpoint apply_ops (rows : PendingRows) (ks : KeySpace) (mutex_idx : Z) (ops : list (CellId * PendingBatchOp * WalPosition)) (transaction : Transaction) : PendingRows :=
  match ops with
  | [] => rows
  | (cell, op, position) :: rest =>
      let pending_data := pending_at rows ks mutex_idx cell in
      let pending_data :=
        match op with
        | BatchInsert reduced_key lru_update => pt_insert pending_data reduced_key position lru_update transaction
        | BatchRemove reduced_key => pt_remove pending_data reduced_key position transaction
        end in
      apply_ops (mkPendingRows (<[(ks, mutex_idx, cell) := pending_data]> (pr_tables rows)) (pr_dirty rows)) ks mutex_idx rest transaction
  end.

Definition apply_pending_batch (rows : PendingRows) (ks : KeySpace) (mutex_idx : Z) (ops : list (CellId * PendingBatchOp * WalPosition))
    (transaction : Transaction) : PendingRows :=
  let rows := apply_ops rows ks mutex_idx ops transaction in
  mkPendingRows (pr_tables rows) ({[(ks, mutex_idx)]} ∪ pr_dirty rows).

(** The closure [apply_group]. *)
Definition apply_group (grouped : list GroupItem) (transaction : Transaction) (rows : PendingRows) (range : nat * nat) : outcome PendingRows :=
  let group := take (range.2 - range.1) (drop range.1 grouped) in
  first ← expect (head group) "index out of bounds";
  Ok (apply_pending_batch rows (gi_ks first) (gi_mutex first) (List.map (fun x => (gi_cell x, gi_op x, gi_pos x)) group) transaction).

Fixpoint apply_groups (grouped : list GroupItem) (transaction : Transaction) (rows : PendingRows) (ranges : list (nat * nat)) : outcome PendingRows :=
  match ranges with
  | [] => Ok rows
  | range :: rest => rows ← apply_group grouped transaction rows range; apply_groups grouped transaction rows rest
  end.

(** What the batch leaves: the log, the pending tables, the transaction cells. *)
Record BatchEnv := mkBatchEnv { be_writer : WalWriter; be_rows : PendingRows; be_status : status_store }.

(** [Db::do_write_batch] *)
Definition do_write_batch (batch_codec : option BatchCodec) (env : BatchEnv) (batch : WriteBatch) : outcome BatchEnv :=
  let transaction := wb_transaction batch in
  match wb_writes batch with
  | [] => Ok (mkBatchEnv (be_writer env) (be_rows env) (tx_drop (be_status env) transaction))
  | _ =>
      let '(writes, pending_ops) :=
        match batch_codec with
        | Some _ => dedup_last_wins (wb_writes batch) (wb_pending_ops batch)
        | None => (wb_writes batch, wb_pending_ops batch)
        end in
      '(w, guards, positions) ←
        (match batch_codec with
         | Some _ => write_compressed_batch_into_wal (be_writer env) writes
         | None => write_batch_into_wal (be_writer env) writes
         end);
      grouped ← group_items (zip pending_ops positions);
      let grouped := sort_items grouped in
      rows ← apply_groups grouped transaction (be_rows env) (group_ranges (length grouped) grouped 0);
      let status := tx_commit (be_status env) transaction in
      _ ← expect (last guards) "Guards can't be empty";
      Ok (mkBatchEnv w rows status)
  end.

(** ** Relocated copies *)

Record RelocatedWriteBatch := mkRelocatedBatch {
  rb_prepared_writes : list (list Z);
  rb_keys : list (list Z);
  rb_size_bytes : nat;
  rb_last_processed : Z;
  rb_ks : KeySpace;
  rb_cell_id : CellId;
}.

Definition relocated_new (ks : KeySpace) (cell : CellId) (last_processed : Z) : RelocatedWriteBatch :=
  mkRelocatedBatch [] [] 0 last_processed ks cell.

Definition relocated_write (b : RelocatedWriteBatch) (key value : list Z) : outcome RelocatedWriteBatch :=
  write ← prepared_write (WalRecord (rb_ks b) key value true);
  Ok (mkRelocatedBatch (rb_prepared_writes b ++ [write]) (rb_keys b ++ [key]) (rb_size_bytes b + length write)
        (rb_last_processed b) (rb_ks b) (rb_cell_id b)).

Definition relocated_is_empty (b : RelocatedWriteBatch) : bool := match rb_prepared_writes b with [] => true | _ => false end.

Definition relocated_len (b : RelocatedWriteBatch) : nat := length (rb_prepared_writes b).

Fixpoint write_relocated_batch_into_wal (w : WalWriter) (prepared_writes : list (list Z)) : outcome (WalWriter * list WalPosition) :=
  match prepared_writes with
  | [] => Ok (w, [])
  | write :: rest =>
      '(w, _, position) ← wal_write w write;
      '(w, positions) ← write_relocated_batch_into_wal w rest;
      Ok (w, position :: positions)
  end.
End batch.
