(* ===== verification/BatchFacts.v ===== *)
(** * What a batch does

    The collapse to the last write of a key is [last_wins]; the grouped and
    parallel application of a batch is the plain application in batch order
    ([grouping_plain]); and what a committed batch leaves in the pending tables is
    what a replay of its frames would do ([batch_live_is_replay]). *)

From Stdlib Require Import ZArith Lia List Sorting.Sorted.
From stdpp Require Import base tactics list gmap strings relations sorting.
From S2P Require Import Prelude BTree Bytes Position Cell Layout KeyShape WalEntry Allocator Tracker IndexTable LargeTable.
From S2P Require Import Flat FlatFacts IndexOps IndexTableFacts Levels TableEntry ReplayBuffer Replay Crc WalFiles Wal WalFacts WalWrite WalSession Pending Batch.

Local Open Scope Z_scope.

(** ** Last write wins *)

Definition op_key (op : PendingOp) : KeySpace * list Z := (op_ks_id op, op_reduced_key op).

(** The operations no later one overrides. *)
Fixpoint last_wins (xs : list (WalEntry * PendingOp)) : list (WalEntry * PendingOp) :=
  match xs with
  | [] => []
  | x :: rest => if existsb (fun y => bool_decide (op_key y.2 = op_key x.2)) rest then last_wins rest else x :: last_wins rest
  end.

Fixpoint last_index (k : KeySpace * list Z) (ops : list PendingOp) : option nat :=
  match ops with
  | [] => None
  | op :: rest =>
      match last_index k rest with
      | Some j => Some (S j)
      | None => if bool_decide (op_key op = k) then Some 0%nat else None
      end
  end.

Lemma last_indices_lookup ops k : forall i m,
  last_indices ops i m !! k = match last_index k ops with Some j => Some (i + j)%nat | None => m !! k end.
Proof.
  induction ops as [|op ops IH]; intros i m; [done|]. cbn [last_indices last_index]. rewrite IH.
  destruct (last_index k ops) as [j|]; [f_equal; lia|]. fold (op_key op). case_bool_decide as E.
  - rewrite <- E, lookup_insert_eq. f_equal. lia.
  - by rewrite lookup_insert_ne.
Qed.

Lemma last_index_None k ops : last_index k ops = None <-> Forall (fun op => op_key op <> k) ops.
Proof.
  induction ops as [|op ops IH]; [done|]. cbn [last_index]. rewrite Forall_cons, <- IH.
  destruct (last_index k ops); [naive_solver|]. case_bool_decide; naive_solver.
Qed.

Lemma last_index_app k pre rest :
  last_index k (pre ++ rest) = match last_index k rest with Some j => Some (length pre + j)%nat | None => last_index k pre end.
Proof.
  induction pre as [|op pre IH]; cbn [app last_index length]; [by destruct (last_index k rest)|]. rewrite IH. by destruct (last_index k rest).
Qed.

Lemma last_index_lt k ops j : last_index k ops = Some j -> (j < length ops)%nat.
Proof.
  revert j. induction ops as [|op ops IH]; intros j; cbn [last_index length]; [done|]. destruct (last_index k ops) as [j'|].
  - intros [= <-]. specialize (IH j' eq_refl). lia.
  - case_bool_decide; [intros [= <-]; lia|done].
Qed.

Lemma later_same_key (x : WalEntry * PendingOp) (xs : list (WalEntry * PendingOp)) :
  existsb (fun y => bool_decide (op_key y.2 = op_key x.2)) xs = false <-> last_index (op_key x.2) (List.map snd xs) = None.
Proof.
  rewrite last_index_None. induction xs as [|y xs IH]; [done|]. cbn [existsb List.map]. rewrite orb_false_iff, Forall_cons, IH, bool_decide_eq_false. done.
Qed.

(** The retained indices are those of the last writes. *)
Lemma retain_last_wins keep (all : list PendingOp) (xs : list (WalEntry * PendingOp)) : forall pre,
  all = pre ++ List.map snd xs -> (forall i, i ∈ keep <-> exists k, last_index k all = Some i) ->
  retain_indices (List.map fst xs) (length pre) keep = List.map fst (last_wins xs) /\
  retain_indices (List.map snd xs) (length pre) keep = List.map snd (last_wins xs).
Proof.
  induction xs as [|x xs IH]; intros pre Hall Hkeep; [done|]. cbn [List.map retain_indices last_wins] in *.
  specialize (IH (pre ++ [x.2])). rewrite length_app, Nat.add_1_r, <- app_assoc in IH. cbn [app length] in IH.
  destruct (IH Hall Hkeep) as [IH1 IH2].
  assert (length pre ∈ keep <-> existsb (fun y => bool_decide (op_key y.2 = op_key x.2)) xs = false) as Hin.
  { rewrite Hkeep, later_same_key, Hall. setoid_rewrite last_index_app. cbn [last_index]. split.
    - intros [k Hk]. destruct (last_index k (List.map snd xs)) as [j|] eqn:E; [injection Hk; lia|].
      revert Hk. case_bool_decide as Ek; [intros _; congruence|]. intros Hk%last_index_lt. lia.
    - intros E. exists (op_key x.2). rewrite E, bool_decide_eq_true_2 by done. f_equal. lia. }
  case_bool_decide as Hd; destruct (existsb _ xs); cbn [List.map]; rewrite ?IH1, ?IH2; naive_solver.
Qed.

Lemma list_to_set_full (ks : list (KeySpace * list Z)) :
  (size (list_to_set ks : gset (KeySpace * list Z)) <= length ks)%nat /\
  (size (list_to_set ks : gset (KeySpace * list Z)) = length ks -> NoDup ks).
Proof.
  induction ks as [|k ks [IH1 IH2]]; cbn [list_to_set length]; [split; [by rewrite size_empty|constructor]|].
  destruct (decide (k ∈ ks)) as [Hin|Hout].
  - replace ({[k]} ∪ list_to_set ks : gset (KeySpace * list Z)) with (list_to_set ks : gset (KeySpace * list Z)) by set_solver.
    split; lia.
  - rewrite size_union by set_solver. rewrite size_singleton. split; [lia|]. intros E. constructor; [done|]. apply IH2. lia.
Qed.

Lemma last_wins_distinct xs : NoDup (List.map (fun x => op_key x.2) xs) -> last_wins xs = xs.
Proof.
  induction xs as [|x xs IH]; [done|]. cbn [List.map last_wins]. intros [Hx Hn]%NoDup_cons. rewrite (IH Hn).
  destruct (existsb _ xs) eqn:E; [|done]. exfalso. apply Hx. apply existsb_exists in E as (y & Hy & Ey%bool_decide_eq_true).
  apply list_elem_of_In. rewrite <- Ey. apply (in_map (fun x => op_key x.2)). done.
Qed.

(** [dedup_last_wins] keeps, in order, the last operation of every key. *)
Lemma dedup_last_wins_ok writes ops : length writes = length ops ->
  dedup_last_wins writes ops = (List.map fst (last_wins (zip writes ops)), List.map snd (last_wins (zip writes ops))).
Proof.
  intros Hlen. assert (List.map fst (zip writes ops) = writes /\ List.map snd (zip writes ops) = ops) as [Ef Es].
  { revert ops Hlen. induction writes as [|w writes IH]; intros [|op ops] Hlen; try done. cbn in *. destruct (IH ops ltac:(lia)) as [-> ->]. done. }
  unfold dedup_last_wins. destruct (Nat.ltb_spec (length writes) 2).
  { rewrite last_wins_distinct, Ef, Es; [done|]. destruct writes as [|? [|? ?]], ops as [|? [|? ?]]; cbn in *; try lia; [constructor|].
    constructor; [set_solver|constructor]. }
  set (m := last_indices ops 0 ∅).
  assert (forall k, m !! k = last_index k ops) as Hm.
  { intros k. unfold m. rewrite last_indices_lookup. by destruct (last_index k ops). }
  destruct (Nat.eqb_spec (size m) (length ops)) as [Esz|_].
  - rewrite last_wins_distinct, Ef, Es; [done|].
    assert (List.map (fun x : WalEntry * PendingOp => op_key x.2) (zip writes ops) = List.map op_key ops) as -> by (rewrite <- Es at 2; by rewrite map_map).
    apply list_to_set_full. rewrite length_map, <- Esz, <- size_dom. f_equal. apply set_eq. intros k.
    rewrite elem_of_dom, Hm, elem_of_list_to_set. destruct (last_index k ops) eqn:E.
    + split; [by eexists|]. intros _. destruct (decide (k ∈ List.map op_key ops)) as [|Hno]; [done|]. exfalso.
      assert (last_index k ops = None); [|congruence]. apply last_index_None, List.Forall_forall. intros op Hop Ek. apply Hno, list_elem_of_In.
      rewrite <- Ek. by apply in_map.
    + split; [|by intros [? ?]]. intros Hin%list_elem_of_In%in_map_iff. destruct Hin as (op & Ek & Hop).
      apply last_index_None in E. rewrite List.Forall_forall in E. by destruct (E op Hop).
  - set (keep := list_to_set _ : gset nat).
    destruct (retain_last_wins keep ops (zip writes ops) []) as [H1 H2]; [by rewrite Es| |by rewrite Ef, Es in *; cbn [length] in *; rewrite H1, H2].
    intros i. unfold keep. rewrite elem_of_list_to_set, list_elem_of_In, in_map_iff. split.
    + intros ([k j] & <- & Hin%list_elem_of_In%elem_of_map_to_list). exists k. by rewrite <- Hm.
    + intros [k Hk]. exists (k, i). split; [done|]. apply list_elem_of_In, elem_of_map_to_list. by rewrite Hm.
Qed.

(** ** Grouping *)

Section grouping.
Context (tx : Transaction).

Definition item_table (t : PendingTable) (x : GroupItem) : PendingTable :=
  match gi_op x with
  | BatchInsert reduced_key lru_update => pt_insert t reduced_key (gi_pos x) lru_update tx
  | BatchRemove reduced_key => pt_remove t reduced_key (gi_pos x) tx
  end.

(** One operation applied on its own. *)
Definition apply_item (rows : PendingRows) (x : GroupItem) : PendingRows :=
  mkPendingRows (<[(gi_ks x, gi_mutex x, gi_cell x) := item_table (pending_at rows (gi_ks x) (gi_mutex x) (gi_cell x)) x]> (pr_tables rows))
    ({[(gi_ks x, gi_mutex x)]} ∪ pr_dirty rows).

Lemma apply_ops_items ks m group : Forall (fun x => gi_ks x = ks /\ gi_mutex x = m) group -> forall rows rows',
  pr_tables rows = pr_tables rows' ->
  pr_tables (apply_ops rows ks m (List.map (fun x => (gi_cell x, gi_op x, gi_pos x)) group) tx) = pr_tables (fold_left apply_item group rows') /\
  pr_dirty (apply_ops rows ks m (List.map (fun x => (gi_cell x, gi_op x, gi_pos x)) group) tx) = pr_dirty rows.
Proof.
  induction 1 as [|x group [Ek Em] _ IH]; intros rows rows' E; [done|]. cbn [List.map apply_ops fold_left].
  match goal with |- context [apply_ops ?r ks m _ tx] => destruct (IH r (apply_item rows' x)) as [-> ->] end; [|done].
  unfold apply_item. cbn [pr_tables]. rewrite Ek, Em. unfold pending_at. by rewrite E.
Qed.

Lemma fold_items_dirty ks m group : Forall (fun x => gi_ks x = ks /\ gi_mutex x = m) group -> forall rows,
  pr_dirty (fold_left apply_item group rows) = match group with [] => pr_dirty rows | _ => {[(ks, m)]} ∪ pr_dirty rows end.
Proof.
  induction 1 as [|x group [Ek Em] _ IH]; intros rows; [done|]. cbn [fold_left]. rewrite IH. unfold apply_item. cbn [pr_dirty]. rewrite Ek, Em.
  destruct group; [done|]. set_solver.
Qed.

Lemma apply_group_items ks m x group rows :
  Forall (fun x => gi_ks x = ks /\ gi_mutex x = m) (x :: group) ->
  apply_pending_batch rows ks m (List.map (fun x => (gi_cell x, gi_op x, gi_pos x)) (x :: group)) tx = fold_left apply_item (x :: group) rows.
Proof.
  intros Hg. unfold apply_pending_batch. destruct (apply_ops_items ks m (x :: group) Hg rows rows eq_refl) as [Et Ed].
  pose proof (fold_items_dirty ks m (x :: group) Hg rows) as Ef. destruct (fold_left apply_item (x :: group) rows) as [tb d]. cbn [pr_tables pr_dirty] in *.
  by rewrite Et, Ed, Ef.
Qed.

Lemma partition_point_run {A} (f : A -> bool) (xs : list A) : Forall (fun x => f x = true) (take (partition_point f xs) xs).
Proof. induction xs as [|x xs IH]; cbn [partition_point]; [done|]. destruct (f x) eqn:E; [|done]. cbn [take]. by constructor. Qed.

(** The groups, one after another, apply the operations in their order. *)
Lemma grouping_plain grouped : forall fuel i rows,
  (length grouped - i <= fuel)%nat ->
  apply_groups grouped tx rows (group_ranges fuel grouped i) = Ok (fold_left apply_item (drop i grouped) rows).
Proof.
  induction fuel as [|fuel IH]; intros i rows Hf; cbn [group_ranges].
  { cbn. by rewrite drop_ge by lia. }
  destruct (grouped !! i) as [x|] eqn:Ex; [|apply lookup_ge_None in Ex; by rewrite drop_ge by lia].
  pose proof (lookup_lt_Some _ _ _ Ex) as Hi. rewrite (drop_S grouped x i Ex). cbn [partition_point].
  assert (same_group x x = true) as Exx by (unfold same_group; by rewrite !Z.eqb_refl). rewrite Exx.
  set (n := partition_point (same_group x) (drop (S i) grouped)). cbn [apply_groups].
  unfold apply_group. cbn [fst snd]. replace (i + S n - i)%nat with (S n) by lia. rewrite (drop_S grouped x i Ex). cbn [take head expect mbind outcome_bind].
  rewrite apply_group_items.
  2: { constructor; [done|]. eapply Forall_impl; [apply partition_point_run|]. cbv beta. intros y Hy. unfold same_group in Hy.
       apply andb_true_iff in Hy as [?%Z.eqb_eq ?%Z.eqb_eq]. done. }
  rewrite IH by lia. f_equal. rewrite <- fold_left_app. f_equal. cbn [app]. f_equal.
  replace (i + S n)%nat with (S i + n)%nat by lia. rewrite <- drop_drop. apply take_drop.
Qed.

(** The operations of one cell. *)
Definition item_at (ks : KeySpace) (m : Z) (cell : CellId) (x : GroupItem) : bool :=
  bool_decide ((gi_ks x, gi_mutex x, gi_cell x) = (ks, m, cell)).

Lemma fold_items_at ks m cell items : forall rows,
  pending_at (fold_left apply_item items rows) ks m cell =
  fold_left item_table (List.filter (item_at ks m cell) items) (pending_at rows ks m cell).
Proof.
  induction items as [|x items IH]; intros rows; [done|]. cbn [fold_left List.filter]. rewrite IH. unfold item_at at 2.
  case_bool_decide as E.
  - cbn [fold_left]. f_equal. unfold apply_item, pending_at at 1. cbn [pr_tables]. injection E as -> -> ->. by rewrite lookup_insert_eq.
  - f_equal. unfold apply_item, pending_at at 1. cbn [pr_tables]. by rewrite lookup_insert_ne.
Qed.

Lemma insert_item_filter p x items : (forall y, p x = true -> p y = true -> item_le x y = true) ->
  List.filter p (insert_item x items) = List.filter p (x :: items).
Proof.
  intros Hp. induction items as [|y items IH]; [done|]. cbn [insert_item]. destruct (item_le x y) eqn:E; [done|].
  cbn [List.filter] in *. rewrite IH. destruct (p x) eqn:Ex, (p y) eqn:Ey; try done. by rewrite Hp in E.
Qed.

(** The sort keeps the order of the operations of a cell. *)
Lemma sort_items_at ks m cell items : List.filter (item_at ks m cell) (sort_items items) = List.filter (item_at ks m cell) items.
Proof.
  induction items as [|x items IH]; [done|]. cbn [sort_items]. rewrite insert_item_filter.
  - cbn [List.filter]. by rewrite IH.
  - intros y [= Ek Em _]%bool_decide_eq_true [= Ek' Em' _]%bool_decide_eq_true. unfold item_le. rewrite Ek, Em, Ek', Em', Z.eqb_refl, Z.leb_refl.
    by rewrite orb_true_r.
Qed.

Definition item_key (x : GroupItem) : list Z := match gi_op x with BatchInsert k _ | BatchRemove k => k end.

Definition item_update (x : GroupItem) : PendingUpdate :=
  match gi_op x with
  | BatchInsert _ lru_update => mkPU (tx_status tx) true (gi_pos x) lru_update
  | BatchRemove _ => mkPU (tx_status tx) false (gi_pos x) None
  end.

Lemma item_tables_key key items : forall t,
  default [] (pt_data (fold_left item_table items t) !! key) =
  default [] (pt_data t !! key) ++ List.map item_update (List.filter (fun x => keqb (item_key x) key) items).
Proof.
  induction items as [|x items IH]; intros t; [by rewrite app_nil_r|]. cbn [fold_left List.filter]. rewrite IH.
  assert (default [] (pt_data (item_table t x) !! key) =
          default [] (pt_data t !! key) ++ (if keqb (item_key x) key then [item_update x] else [])) as ->.
  { unfold item_table, item_key, item_update. destruct (gi_op x) as [k lru|k]; unfold pt_insert, pt_remove, insert_pending; cbn [pt_data];
      (destruct (keqb_spec k key) as [->|Hne]; [by rewrite lookup_insert_eq|by rewrite lookup_insert_ne, app_nil_r]). }
  destruct (keqb (item_key x) key); cbn [List.map]; [by rewrite <- app_assoc|by rewrite app_nil_r].
Qed.
End grouping.

(** ** From a batch to the log and the pending tables *)

Section commit.
Context (shape : list KeySpaceDesc) (blake2b256 : list Z -> list Z) (value_cache : KeySpace -> bool).
Context (Hshape : Forall ks_ok shape).

(** The pending operation of a batch entry. *)
Definition op_of (e : WalEntry) (op : PendingOp) : Prop :=
  match e with
  | WalRecord ks k _ false => exists ksd rk c lru, ks_context shape ks = Ok ksd /\ reduce_key blake2b256 (ks_key_indexing ksd) k = Ok rk /\
      cell_id ksd rk = Ok c /\ op = PendingOpInsert ks rk c lru
  | WalRemove ks k => exists ksd rk c, ks_context shape ks = Ok ksd /\ reduce_key blake2b256 (ks_key_indexing ksd) k = Ok rk /\
      cell_id ksd rk = Ok c /\ op = PendingOpRemove ks rk c
  | _ => False
  end.

(** The batches a client can build. *)
Inductive batch_built (tx : Transaction) : WriteBatch -> Prop :=
| built_new : batch_built tx (batch_new tx)
| built_tag b tag : batch_built tx b -> batch_built tx (set_tag b tag)
| built_write b b' ks k v : batch_built tx b -> batch_write shape blake2b256 value_cache b ks k v = Ok b' -> batch_built tx b'
| built_delete b b' ks k : batch_built tx b -> batch_delete shape blake2b256 b ks k = Ok b' -> batch_built tx b'.

Lemma batch_built_ok tx b : batch_built tx b ->
  wb_transaction b = tx /\ Forall2 op_of (wb_writes b) (wb_pending_ops b) /\ (length (wb_writes b) < MAX_BATCH_LEN)%nat.
Proof.
  induction 1 as [|b tag _ IH|b b' ks k v _ (Et & Hf & Hl) H|b b' ks k _ (Et & Hf & Hl) H].
  - split_and!; [done|constructor|]. unfold MAX_BATCH_LEN. cbn [batch_new wb_writes length]. lia.
  - done.
  - unfold batch_write, push_write in H. inv_ok H; cbn [wb_transaction wb_writes wb_pending_ops] in *;
      (split_and!; [done| |by apply Nat.ltb_lt]; apply Forall2_app; [done|]; constructor; [|constructor]; by eexists _, _, _, _).
  - unfold batch_delete, push_write in H. inv_ok H. cbn [wb_transaction wb_writes wb_pending_ops] in *.
    split_and!; [done| |by apply Nat.ltb_lt]. apply Forall2_app; [done|]. constructor; [|constructor]. by eexists _, _, _.
Qed.

(** *** The pending tables *)

(** The write a replay of an operation's frame makes. *)
Definition op_entry_at (x : PendingOp * WalPosition) : entry :=
  (op_reduced_key x.1, match x.1 with PendingOpInsert _ _ _ _ => iwp_new_modified x.2 | PendingOpRemove _ _ _ => iwp_new_removed x.2 end).

Definition replay_of (x : PendingOp * WalPosition) : replay_op := OpWrite (op_ks_id x.1) (op_cell_id x.1) (op_entry_at x).

Definition update_iwp (u : PendingUpdate) : IndexWalPosition :=
  if pu_is_modified u then iwp_new_modified (pu_update u) else iwp_new_removed (pu_update u).

Definition op_in (ks : KeySpace) (c : CellId) (x : PendingOp * WalPosition) : bool :=
  bool_decide (op_ks_id x.1 = ks) && bool_decide (op_cell_id x.1 = c).

Lemma cell_writes_replay ks c (xs : list (PendingOp * WalPosition)) :
  0 <= ks -> Forall (fun x => 0 <= op_ks_id x.1) xs ->
  cell_writes (List.map replay_of xs) (Z.to_nat ks) c = List.map op_entry_at (List.filter (op_in ks c) xs).
Proof.
  intros Hks Hxs. unfold cell_writes. rewrite <- (app_nil_l (List.map op_entry_at _)). generalize (@nil entry) as w.
  induction Hxs as [|x xs Hx _ IH]; intros w; [by rewrite app_nil_r|]. cbn [List.map fold_left List.filter]. rewrite IH. unfold replay_of at 1. cbn [op_cell].
  assert (bool_decide (Z.to_nat ks = Z.to_nat (op_ks_id x.1)) && bool_decide (c = op_cell_id x.1) = op_in ks c x) as ->.
  { unfold op_in. f_equal; apply bool_decide_ext; [lia|done]. }
  destruct (op_in ks c x); [by rewrite <- app_assoc|done].
Qed.

(** An operation and its place among the groups. *)
Definition item_of (x : PendingOp * WalPosition) (i : GroupItem) : Prop :=
  gi_ks i = op_ks_id x.1 /\ gi_cell i = op_cell_id x.1 /\ gi_op i = batch_op x.1 /\ gi_pos i = x.2 /\
  exists ksd, ks_context shape (op_ks_id x.1) = Ok ksd /\ mutex_for_cell ksd (op_cell_id x.1) = Ok (gi_mutex i).

Lemma context_mutex ks ksd c : ks_context shape ks = Ok ksd -> exists m, mutex_for_cell ksd c = Ok m.
Proof.
  unfold ks_context. destruct (shape !! Z.to_nat ks) as [k|] eqn:E; [|done]. intros [= <-]. rewrite Forall_lookup in Hshape.
  pose proof (ks_ok_mutexes k (Hshape _ _ E)). unfold mutex_for_cell. rewrite u64_rem_ok by lia. by eexists.
Qed.

Lemma op_of_context e op : op_of e op -> exists ksd, ks_context shape (op_ks_id op) = Ok ksd.
Proof.
  destruct e as [ks k v r| |ks k| | |]; cbn [op_of]; try done; [destruct r; [done|]; intros (ksd & rk & c & lru & E & _ & _ & ->)|intros (ksd & rk & c & E & _ & _ & ->)];
    by exists ksd.
Qed.

Lemma group_items_ok (xs : list (PendingOp * WalPosition)) :
  Forall (fun x => exists ksd, ks_context shape (op_ks_id x.1) = Ok ksd) xs ->
  exists items, group_items shape xs = Ok items /\ Forall2 item_of xs items.
Proof.
  induction 1 as [|[op pos] xs [ksd Hk] _ (items & Ei & Hi)]; [exists []; by split; [|constructor]|]. cbn [group_items fst] in *. rewrite Hk. cbn [mbind outcome_bind].
  destruct (context_mutex _ ksd (op_cell_id op) Hk) as [m Hm]. rewrite Hm. cbn [mbind outcome_bind]. rewrite Ei. cbn [mbind outcome_bind].
  eexists. split; [done|]. constructor; [|done]. split_and!; try done. by exists ksd.
Qed.

Lemma items_updates tx ks ksd m cell key xs items :
  ks_context shape ks = Ok ksd -> mutex_for_cell ksd cell = Ok m -> Forall2 item_of xs items ->
  List.map (fun u => (key, update_iwp u)) (List.map (item_update tx) (List.filter (fun x => keqb (item_key x) key) (List.filter (item_at ks m cell) items))) =
  List.filter (fun e : entry => keqb e.1 key) (List.map op_entry_at (List.filter (op_in ks cell) xs)).
Proof.
  intros Hks Hm. induction 1 as [|x i xs items (Ek & Ec & Eo & Ep & ksd' & Hks' & Hm') _ IH]; [done|]. cbn [List.filter].
  assert (item_at ks m cell i = op_in ks cell x) as ->.
  { unfold item_at, op_in. rewrite Ek, Ec, <- bool_decide_and. apply bool_decide_ext. split; [by intros [= -> _ ->]|]. intros [E1 E2].
    rewrite E1, E2 in *. assert (ksd' = ksd) as -> by congruence. assert (gi_mutex i = m) as -> by congruence. done. }
  destruct (op_in ks cell x); [|done]. cbn [List.map List.filter]. rewrite <- IH.
  assert (item_key i = (op_entry_at x).1) as ->. { unfold item_key, op_entry_at. rewrite Eo. destruct x as [[] ?]; done. }
  destruct (keqb_spec (op_entry_at x).1 key) as [E|]; [|done]. cbn [List.map]. f_equal. rewrite <- E. unfold op_entry_at, update_iwp, item_update. cbn [fst].
  rewrite Eo, Ep. destruct x as [[] ?]; done.
Qed.

(** Parking the operations: every cell gets its updates, in batch order. *)
Lemma parked_ok tx writes ops (ps : list WalPosition) rows :
  Forall2 op_of writes ops -> Forall (fun op => 0 <= op_ks_id op) ops -> length ps = length ops ->
  exists items rows', group_items shape (zip ops ps) = Ok items /\
    apply_groups (sort_items items) tx rows (group_ranges (length (sort_items items)) (sort_items items) 0) = Ok rows' /\
    forall ks ksd m cell key, 0 <= ks -> ks_context shape ks = Ok ksd -> mutex_for_cell ksd cell = Ok m -> exists us,
      default [] (pt_data (pending_at rows' ks m cell) !! key) = default [] (pt_data (pending_at rows ks m cell) !! key) ++ us /\
      Forall (fun u => pu_status u = tx_status tx) us /\
      List.map (fun u => (key, update_iwp u)) us =
        List.filter (fun e : entry => keqb e.1 key) (cell_writes (List.map replay_of (zip ops ps)) (Z.to_nat ks) cell).
Proof.
  intros Hops Hnn Hlen. assert (List.map fst (zip ops ps) = ops) as Ef.
  { clear -Hlen. revert ps Hlen. induction ops as [|op ops IH]; intros [|p ps] Hlen; try done. cbn in *. by rewrite IH by lia. }
  assert (forall P : PendingOp -> Prop, Forall P ops -> Forall (fun x => P x.1) (zip ops ps)) as Hzip.
  { intros P HP. rewrite <- Ef in HP. rewrite List.Forall_forall in HP |- *. intros x Hx. apply HP. by apply in_map. }
  destruct (group_items_ok (zip ops ps)) as (items & Ei & Hi).
  { apply (Hzip (fun op => exists ksd, ks_context shape (op_ks_id op) = Ok ksd)). clear -Hops. induction Hops; constructor; [by eapply op_of_context|done]. }
  exists items. eexists. split; [done|]. split; [by apply grouping_plain; lia|]. intros ks ksd m cell key Hks Hk Hm. rewrite drop_0.
  rewrite fold_items_at, sort_items_at, item_tables_key. eexists. split; [done|]. split.
  - apply List.Forall_forall. intros u (x & <- & _)%in_map_iff. unfold item_update. by destruct (gi_op x).
  - rewrite (items_updates tx ks ksd m cell key (zip ops ps)) by done. rewrite cell_writes_replay; [done|done|]. by apply (Hzip (fun op => 0 <= op_ks_id op)).
Qed.
End commit.

(** *** The frames *)

(** The bytes of an entry. *)
Definition entry_bytes (e : WalEntry) : list Z := match wal_entry_write e [] with Ok b => b | Panic _ => [] end.

Lemma entry_bytes_ok e : wal_entry_ok e -> wal_entry_write e [] = Ok (entry_bytes e) /\ wal_entry_from_bytes (entry_bytes e) = Ok e.
Proof. intros He. destruct (wal_entry_encodes e He) as (enc & Hw & _ & Hr). unfold entry_bytes. by rewrite (Hw []). Qed.

(** The decoded frames of a stretch of the log. *)
Definition decodes (x : WalPosition * list Z) (f : WalPosition * WalEntry) : Prop := x.1 = f.1 /\ wal_entry_from_bytes x.2 = Ok f.2.

Lemma decodes_zip ps es : Forall wal_entry_ok es -> Forall2 decodes (zip ps (List.map entry_bytes es)) (zip ps es).
Proof.
  intros Hes. revert ps. induction Hes as [|e es He _ IH]; intros [|p ps]; cbn; try constructor; [|by apply IH]. split; [done|]. by apply entry_bytes_ok.
Qed.

Section framing.
Context (shape : list KeySpaceDesc) (blake2b256 : list Z -> list Z) (hash : list Z -> Z).
Context (lz4_compress : list Z -> list Z) (lz4_decompress : list Z -> Z -> option (list Z)).

Lemma prepare_writes_ok es : Forall wal_entry_ok es -> prepare_writes hash es = Ok (frames_of hash (List.map entry_bytes es)).
Proof.
  induction 1 as [|e es He _ IH]; [done|]. cbn [prepare_writes]. unfold prepared_write. destruct (entry_bytes_ok e He) as [-> _].
  cbn [mbind outcome_bind]. by rewrite IH.
Qed.

(** Replaying an entry's frame is the operation parked for it. *)
Lemma write_ops_of e op pos : op_of shape blake2b256 e op -> (forall ksd, ks_context shape (op_ks_id op) = Ok ksd -> ks_destroyed ksd = false) ->
  frame_ops shape blake2b256 lz4_decompress (pos, e) = Ok [replay_of (op, pos)] /\
  forall rest, inner_ops shape blake2b256 pos (e :: rest) = (b ← inner_ops shape blake2b256 pos rest; Ok (replay_of (op, pos) :: b)).
Proof.
  assert (forall ks k ksd rk c iwp, ks_context shape ks = Ok ksd -> ks_destroyed ksd = false -> reduce_key blake2b256 (ks_key_indexing ksd) k = Ok rk ->
            cell_id ksd rk = Ok c -> write_ops shape blake2b256 ks k false iwp = Ok [OpWrite ks c (rk, iwp)]) as Hw.
  { intros ks k ksd rk c iwp Hk Hd Hr Hc. unfold write_ops, ks_context in *. rewrite Hk. cbn [mbind outcome_bind orb]. rewrite Hd, Hr. cbn [mbind outcome_bind]. by rewrite Hc. }
  destruct e as [ks k v r| |ks k| | |]; cbn [op_of]; try done.
  - destruct r; [done|]. intros (ksd & rk & c & lru & Hk & Hr & Hc & ->) Hd. cbn [frame_ops inner_ops fst snd op_ks_id] in *.
    rewrite (Hw ks k ksd rk c) by (done || by apply Hd). done.
  - intros (ksd & rk & c & Hk & Hr & Hc & ->) Hd. cbn [frame_ops inner_ops fst snd op_ks_id] in *.
    rewrite (Hw ks k ksd rk c) by (done || by apply Hd). done.
Qed.

Context (live : forall ks ksd, ks_context shape ks = Ok ksd -> ks_destroyed ksd = false).

Lemma frames_ops_of writes ops : Forall2 (op_of shape blake2b256) writes ops -> forall ps, length ps = length writes ->
  frames_ops shape blake2b256 lz4_decompress (zip ps writes) = Ok (List.map replay_of (zip ops ps)).
Proof.
  induction 1 as [|e op writes ops He _ IH]; intros [|p ps] Hlen; try done. cbn [zip zip_with frames_ops List.map]. cbn [length] in Hlen.
  destruct (write_ops_of e op p He (live _)) as [-> _]. cbn [mbind outcome_bind]. rewrite (IH ps) by lia. done.
Qed.

Lemma inner_ops_of writes ops pos : Forall2 (op_of shape blake2b256) writes ops ->
  inner_ops shape blake2b256 pos writes = Ok (List.map replay_of (zip ops (replicate (length writes) pos))).
Proof.
  induction 1 as [|e op writes ops He _ IH]; [done|]. destruct (write_ops_of e op pos He (live _)) as [_ ->]. rewrite IH. done.
Qed.

(** The last operation of a key survives the collapse. *)
Lemma last_wins_key (xs : list (WalEntry * PendingOp)) key :
  last (List.filter (fun x => bool_decide (op_key x.2 = key)) (last_wins xs)) = last (List.filter (fun x => bool_decide (op_key x.2 = key)) xs).
Proof.
  induction xs as [|x xs IH]; [done|]. cbn [last_wins List.filter].
  assert (forall y ys, last ((y : WalEntry * PendingOp) :: ys) = Some (default y (last ys))) as Hl.
  { intros y ys. rewrite last_cons. by destruct (last ys). }
  destruct (existsb _ xs) eqn:E.
  - rewrite IH. case_bool_decide as Ek; [|done]. rewrite Hl.
    destruct (List.filter (fun x => bool_decide (op_key x.2 = key)) xs) as [|y ys] eqn:Ef; [|by rewrite Hl].
    apply existsb_exists in E as (y & Hy & Ey%bool_decide_eq_true). assert (In y (List.filter (fun x => bool_decide (op_key x.2 = key)) xs)) as Hin.
    { apply filter_In. split; [done|]. apply bool_decide_eq_true. congruence. }
    by rewrite Ef in Hin.
  - cbn [List.filter]. case_bool_decide as Ek; [|done]. by rewrite !Hl, IH.
Qed.

Lemma last_wins_incl (xs : list (WalEntry * PendingOp)) x : In x (last_wins xs) -> In x xs.
Proof. induction xs as [|y xs IH]; [done|]. cbn [last_wins]. destruct (existsb _ xs); cbn [In]; naive_solver. Qed.

Lemma zip_fst_snd {A B} (xs : list A) (ys : list B) : length xs = length ys -> List.map fst (zip xs ys) = xs /\ List.map snd (zip xs ys) = ys.
Proof. revert ys. induction xs as [|x xs IH]; intros [|y ys] Hl; try done. cbn in *. destruct (IH ys ltac:(lia)) as [-> ->]. done. Qed.
End framing.

(** *** The commit *)

Definition is_insert (op : PendingOp) : bool := match op with PendingOpInsert _ _ _ _ => true | PendingOpRemove _ _ _ => false end.

Lemma map_last {A B} (f : A -> B) (xs : list A) : last (List.map f xs) = option_map f (last xs).
Proof. induction xs as [|x xs IH]; [done|]. cbn [List.map]. rewrite !last_cons, IH. by destruct (last xs). Qed.

Section whole.
Context (l : WalLayout) (hash : list Z -> Z) (p0 : Z).
Context (shape : list KeySpaceDesc) (blake2b256 : list Z -> list Z) (value_cache : KeySpace -> bool).
Context (lz4_compress : list Z -> list Z) (lz4_decompress : list Z -> Z -> option (list Z)).
Context (Hl : layout_ok l) (Hmax : 3 <= max_maps l) (hash_u32 : forall b, is_u32 (hash b)) (Hshape : Forall ks_ok shape).
Context (lz4_roundtrip : forall b, lz4_decompress (lz4_compress b) (Z.of_nat (length b)) = Some b).
Context (live : forall ks ksd, ks_context shape ks = Ok ksd -> ks_destroyed ksd = false).

Lemma items_kinds tx ks ksd m cell key xs items :
  ks_context shape ks = Ok ksd -> mutex_for_cell ksd cell = Ok m -> Forall2 (item_of shape) xs items ->
  List.map pu_is_modified (List.map (item_update tx) (List.filter (fun x => keqb (item_key x) key) (List.filter (item_at ks m cell) items))) =
  List.map is_insert (List.filter (fun op => (bool_decide (op_ks_id op = ks) && bool_decide (op_cell_id op = cell)) && keqb (op_reduced_key op) key) (List.map fst xs)).
Proof.
  intros Hks Hm. induction 1 as [|x i xs items (Ek & Ec & Eo & Ep & ksd' & Hks' & Hm') _ IH]; [done|]. cbn [List.filter List.map].
  assert (item_at ks m cell i = op_in ks cell x) as ->.
  { unfold item_at, op_in. rewrite Ek, Ec, <- bool_decide_and. apply bool_decide_ext. split; [by intros [= -> _ ->]|]. intros [E1 E2].
    rewrite E1, E2 in *. assert (ksd' = ksd) as -> by congruence. assert (gi_mutex i = m) as -> by congruence. done. }
  fold (op_in ks cell x). destruct (op_in ks cell x); [|done]. cbn [andb List.map List.filter].
  assert (item_key i = op_reduced_key x.1) as ->. { unfold item_key. rewrite Eo. destruct x as [[] ?]; done. }
  destruct (keqb (op_reduced_key x.1) key); [|done]. cbn [List.map]. rewrite IH. f_equal. unfold item_update. rewrite Eo. destruct x as [[] ?]; done.
Qed.

(** The cell of an operation is the cell of its key. *)
Lemma ops_of_key ks ksd key cell writes ops :
  ks_context shape ks = Ok ksd -> cell_id ksd key = Ok cell -> Forall2 (op_of shape blake2b256) writes ops ->
  List.filter (fun op => (bool_decide (op_ks_id op = ks) && bool_decide (op_cell_id op = cell)) && keqb (op_reduced_key op) key) ops =
  List.filter (fun op => bool_decide (op_key op = (ks, key))) ops.
Proof.
  intros Hk Hc. induction 1 as [|e op writes ops He _ IH]; [done|]. cbn [List.filter]. rewrite IH.
  assert ((bool_decide (op_ks_id op = ks) && bool_decide (op_cell_id op = cell)) && keqb (op_reduced_key op) key = bool_decide (op_key op = (ks, key))) as ->; [|done].
  unfold op_key. destruct (keqb_spec (op_reduced_key op) key) as [E|E].
  2: { rewrite andb_false_r. symmetry. apply bool_decide_eq_false. by intros [= _ ?]. }
  rewrite andb_true_r, <- bool_decide_and. apply bool_decide_ext. split; [intros [-> _]; by rewrite E|]. intros [= E1 E2]. split; [done|].
  destruct e as [ks' k' v r| |ks' k'| | |]; cbn [op_of] in He; try done.
  - destruct r; [done|]. destruct He as (ksd' & rk & c & lru & Hk' & _ & Hc' & ->). cbn [op_ks_id op_reduced_key op_cell_id] in *. congruence.
  - destruct He as (ksd' & rk & c & Hk' & _ & Hc' & ->). cbn [op_ks_id op_reduced_key op_cell_id] in *. congruence.
Qed.

(** The entries framed for a batch. *)
Definition framed (codec : option BatchCodec) (b : WriteBatch) : outcome (list WalEntry) :=
  match codec with
  | None => Ok (WalBatchStart (Z.of_nat (length (wb_writes b))) :: wb_writes b)
  | Some _ => e ← compressed_batch_encode lz4_compress (dedup_last_wins (wb_writes b) (wb_pending_ops b)).1; Ok [e]
  end.

(** What committing a batch has done: the log has its frames, and the update a
    cell parked for a key are the writes a replay of those frames makes. *)
Definition batch_applied (tx : Transaction) (b : WriteBatch) (s : Session) (acked : list (WalPosition * list Z)) (env env' : BatchEnv) : Prop :=
  exists new frames ops,
    wal_history l hash p0
      (mkSession (set_files (ss_mapper s) (wl_files (ww_wal (be_writer env')))) (ss_finalized s) (ww_position (be_writer env')) (ss_frames s ++ new))
      (acked ++ new) /\
    Forall2 decodes new frames /\ frames_ops shape blake2b256 lz4_decompress frames = Ok ops /\
    be_status env' (tx_status tx) = TRANSACTION_STATUS_COMMITTED /\
    forall ks ksd key cell m, 0 <= ks -> ks_context shape ks = Ok ksd -> cell_id ksd key = Ok cell -> mutex_for_cell ksd cell = Ok m ->
      exists us,
        default [] (pt_data (pending_at (be_rows env') ks m cell) !! key) = default [] (pt_data (pending_at (be_rows env) ks m cell) !! key) ++ us /\
        Forall (fun u => pu_status u = tx_status tx) us /\
        List.map (fun u => (key, update_iwp u)) us = List.filter (fun e : entry => keqb e.1 key) (cell_writes ops (Z.to_nat ks) cell) /\
        last (List.map pu_is_modified us) = last (List.map is_insert (List.filter (fun op => bool_decide (op_key op = (ks, key))) (wb_pending_ops b))).

Lemma parked_and_committed tx b s acked w rows st writes ops ps new frames :
  wb_transaction b = tx -> Forall2 (op_of shape blake2b256) writes ops -> Forall (fun op => 0 <= op_ks_id op) ops -> length ps = length ops ->
  (forall key, last (List.filter (fun op => bool_decide (op_key op = key)) ops) = last (List.filter (fun op => bool_decide (op_key op = key)) (wb_pending_ops b))) ->
  wal_history l hash p0 (mkSession (set_files (ss_mapper s) (wl_files (ww_wal w))) (ss_finalized s) (ww_position w) (ss_frames s ++ new)) (acked ++ new) ->
  Forall2 decodes new frames -> frames_ops shape blake2b256 lz4_decompress frames = Ok (List.map replay_of (zip ops ps)) ->
  exists items rows', group_items shape (zip ops ps) = Ok items /\
    apply_groups (sort_items items) tx rows (group_ranges (length (sort_items items)) (sort_items items) 0) = Ok rows' /\
    batch_applied tx b s acked (mkBatchEnv (ss_writer l s) rows st) (mkBatchEnv w rows' (tx_commit st tx)).
Proof.
  intros Etx Hops Hnn Hlen Hlast Hh Hd Hf. destruct (parked_ok shape blake2b256 Hshape tx writes ops ps rows Hops Hnn Hlen) as (items & rows' & Ei & Ea & Hus).
  exists items, rows'. split; [done|]. split; [done|]. exists new, frames, (List.map replay_of (zip ops ps)). cbn [be_writer be_status be_rows]. split_and!; try done.
  { unfold tx_commit, tx_drop, set_status. cbn. by rewrite Nat.eqb_refl. }
  intros ks ksd key cell m Hks Hk Hc Hm. destruct (Hus ks ksd m cell key Hks Hk Hm) as (us & Eus & Hst & Ere). exists us. split_and!; try done.
  rewrite grouping_plain, drop_0 in Ea by lia. injection Ea as <-. rewrite fold_items_at, sort_items_at, item_tables_key in Eus. apply app_inv_head in Eus.
  destruct (group_items_ok shape Hshape (zip ops ps)) as (items2 & Ei2 & Hi).
  { destruct (zip_fst_snd ops ps ltac:(done)) as [Ef _]. apply List.Forall_forall. intros x Hx. assert (In x.1 ops) as Hin by (rewrite <- Ef; by apply in_map).
    clear -Hops Hin. induction Hops as [|e op writes ops He _ IH]; [done|]. destruct Hin as [<-|Hin]; [by eapply op_of_context|by apply IH]. }
  assert (items2 = items) as -> by congruence.
  rewrite <- Eus. rewrite (items_kinds tx ks ksd m cell key (zip ops ps) items Hk Hm Hi), (proj1 (zip_fst_snd ops ps ltac:(done))).
  rewrite (ops_of_key ks ksd key cell writes ops Hk Hc Hops). rewrite !map_last, Hlast. done.
Qed.

(** Writing frames from a state of the log. *)
Lemma history_write s acked ts :
  wal_history l hash p0 s acked -> batch_ok l ts -> writer_window l s -> room l s ->
  exists w r ps, multi_write (ss_writer l s) (frames_of hash ts) = Ok (w, r, ps) /\ length ps = length ts /\
    wal_history l hash p0 (mkSession (set_files (ss_mapper s) (wl_files (ww_wal w))) (ss_finalized s) (ww_position w) (ss_frames s ++ zip ps ts)) (acked ++ zip ps ts).
Proof.
  intros Hh Hb Hw Hr. destruct (history_inv l hash p0 Hl Hmax hash_u32 s acked Hh) as [Hi _].
  destruct (session_write l hash p0 Hl s ts Hi Hb Hw Hr) as (w & r & ps & E & Hlen & _). exists w, r, ps. split; [done|]. split; [done|].
  eapply history_step; [done|]. by econstructor.
Qed.

Lemma op_of_nonneg writes ops : Forall2 (op_of shape blake2b256) writes ops -> Forall wal_entry_ok writes -> Forall (fun op => 0 <= op_ks_id op) ops.
Proof.
  induction 1 as [|e op writes ops He _ IH]; [done|]. intros [Hw Hws]%Forall_cons. constructor; [|by apply IH].
  destruct e as [ks k v r| |ks k| | |]; cbn [op_of wal_entry_ok] in *; try done.
  - destruct r; [done|]. destruct He as (? & ? & ? & ? & _ & _ & _ & ->). cbn. unfold is_u8 in Hw. lia.
  - destruct He as (? & ? & ? & _ & _ & _ & ->). cbn. unfold is_u8 in Hw. lia.
Qed.

Lemma plain_batch_ok tx b s acked rows st entries :
  wal_history l hash p0 s acked -> batch_built shape blake2b256 value_cache tx b -> wb_writes b <> [] -> Forall batch_entry_ok (wb_writes b) ->
  framed None b = Ok entries -> batch_ok l (List.map entry_bytes entries) -> writer_window l s -> room l s ->
  exists env', do_write_batch shape hash lz4_compress None (mkBatchEnv (ss_writer l s) rows st) b = Ok env' /\
    batch_applied tx b s acked (mkBatchEnv (ss_writer l s) rows st) env'.
Proof.
  intros Hh Hbu Hne Hok [= <-] Hfit Hw Hr. destruct (batch_built_ok _ _ _ _ _ Hbu) as (Etx & Hops & Hlen).
  assert (Forall wal_entry_ok (wb_writes b)) as Hwe by (eapply Forall_impl; [done|]; by intros ? [? _]).
  assert (wal_entry_ok (WalBatchStart (Z.of_nat (length (wb_writes b))))) as Hbs.
  { unfold MAX_BATCH_LEN in Hlen. cbn. unfold is_u32, u32_max. lia. }
  pose proof (Forall2_length _ _ _ Hops) as Hl2.
  destruct (history_write s acked _ Hh Hfit Hw Hr) as (w & r & ps & Emw & Hps & Hh'). rewrite length_map in Hps. cbn [length] in Hps.
  destruct ps as [|p ps]; [done|]. cbn [length] in Hps.
  destruct (parked_and_committed tx b s acked w rows st (wb_writes b) (wb_pending_ops b) ps
    (zip (p :: ps) (List.map entry_bytes (WalBatchStart (Z.of_nat (length (wb_writes b))) :: wb_writes b)))
    (zip (p :: ps) (WalBatchStart (Z.of_nat (length (wb_writes b))) :: wb_writes b)) Etx Hops)
    as (items & rows' & Ei & Ea & Hap); try done.
  - by eapply op_of_nonneg.
  - lia.
  - apply decodes_zip. by constructor.
  - cbn [zip zip_with frames_ops frame_ops fst snd]. rewrite (frames_ops_of shape blake2b256 lz4_decompress live _ _ Hops ps) by lia. done.
  - exists (mkBatchEnv w rows' (tx_commit st tx)). split; [|done]. unfold do_write_batch. cbn [be_writer be_rows be_status].
    destruct (wb_writes b) as [|e0 ws] eqn:Ew; [done|]. rewrite <- Ew in *. unfold write_batch_into_wal.
    rewrite wrap32_small by (unfold MAX_BATCH_LEN in Hlen; unfold is_u32, u32_max; lia).
    unfold prepared_write at 1. rewrite (proj1 (entry_bytes_ok _ Hbs)). cbn [mbind outcome_bind]. rewrite prepare_writes_ok by done. cbn [mbind outcome_bind].
    cbn [List.map frames_of] in Emw. unfold frames_of. rewrite Emw. cbn [mbind outcome_bind]. rewrite Ei. cbn [mbind outcome_bind]. rewrite Etx, Ea.
    cbn [mbind outcome_bind]. destruct (last (p :: ps)) eqn:E; [done|]. by apply last_None in E.
Qed.

Lemma compressed_batch_ok tx b s acked rows st codec entries :
  wal_history l hash p0 s acked -> batch_built shape blake2b256 value_cache tx b -> wb_writes b <> [] -> Forall batch_entry_ok (wb_writes b) ->
  framed (Some codec) b = Ok entries -> batch_ok l (List.map entry_bytes entries) -> writer_window l s -> room l s ->
  (forall raw, encode_entries (dedup_last_wins (wb_writes b) (wb_pending_ops b)).1
     (be_bytes 4 (Z.of_nat (length (dedup_last_wins (wb_writes b) (wb_pending_ops b)).1))) = Ok raw -> Z.of_nat (length raw) <= u32_max) ->
  exists env', do_write_batch shape hash lz4_compress (Some codec) (mkBatchEnv (ss_writer l s) rows st) b = Ok env' /\
    batch_applied tx b s acked (mkBatchEnv (ss_writer l s) rows st) env'.
Proof.
  intros Hh Hbu Hne Hok Hfr Hfit Hw Hr Hraw. destruct (batch_built_ok _ _ _ _ _ Hbu) as (Etx & Hops & Hlen). pose proof (Forall2_length _ _ _ Hops) as Hl2.
  unfold framed in Hfr. rewrite (dedup_last_wins_ok _ _ Hl2) in Hfr, Hraw. cbn [fst] in Hfr, Hraw. set (xs := last_wins (zip (wb_writes b) (wb_pending_ops b))) in *.
  assert (forall x, In x xs -> op_of shape blake2b256 x.1 x.2 /\ batch_entry_ok x.1) as Hxs.
  { intros x Hx%last_wins_incl. clear -Hops Hok Hx. revert Hx. induction Hops as [|e op ws ops He _ IH]; [done|]. apply Forall_cons in Hok as [Hok1 Hok2].
    cbn [zip zip_with In]. intros [<-|Hx]; [done|by apply IH]. }
  assert (Forall2 (op_of shape blake2b256) (List.map fst xs) (List.map snd xs)) as Hops'.
  { clear -Hxs. induction xs as [|x xs IH]; [constructor|]. constructor; [apply Hxs; by left|]. apply IH. intros y Hy. apply Hxs. by right. }
  assert (Forall batch_entry_ok (List.map fst xs)) as Hok'.
  { apply List.Forall_forall. intros e (x & <- & Hx)%in_map_iff. by apply Hxs. }
  assert (Z.of_nat (length (List.map fst xs)) <= u32_max) as Hn.
  { assert (length xs <= length (zip (wb_writes b) (wb_pending_ops b)))%nat as Hle.
    { unfold xs. clear. induction (zip (wb_writes b) (wb_pending_ops b)) as [|y ys IH]; cbn [last_wins length]; [lia|]. destruct (existsb _ ys); cbn [length]; lia. }
    rewrite length_zip_with in Hle. rewrite length_map. unfold MAX_BATCH_LEN in Hlen. unfold u32_max. lia. }
  destruct (compressed_frame_ok lz4_compress lz4_decompress (List.map fst xs) lz4_roundtrip Hok' Hn Hraw) as (fr & body & Efr & Hfo & Hdec & Hin).
  rewrite Efr in Hfr. injection Hfr as <-. cbn [List.map] in Hfit.
  destruct (history_write s acked _ Hh Hfit Hw Hr) as (w & r & ps & Emw & Hps & Hh'). destruct ps as [|p [|? ?]]; try done.
  destruct (parked_and_committed tx b s acked w rows st (List.map fst xs) (List.map snd xs) (replicate (length (List.map fst xs)) p) (zip [p] [entry_bytes fr]) [(p, fr)] Etx Hops')
    as (items & rows' & Ei & Ea & Hap); try done.
  - eapply op_of_nonneg; [done|]. eapply Forall_impl; [done|]. by intros ? [? _].
  - by rewrite length_replicate, !length_map.
  - intros key. unfold xs. destruct (zip_fst_snd (wb_writes b) (wb_pending_ops b) Hl2) as [_ E]. rewrite <- E at 2.
    assert (forall ys : list (WalEntry * PendingOp), List.filter (fun op => bool_decide (op_key op = key)) (List.map snd ys) =
              List.map snd (List.filter (fun x => bool_decide (op_key x.2 = key)) ys)) as Hfm.
    { clear. induction ys as [|y ys IH]; [done|]. cbn [List.map List.filter]. rewrite IH. by case_bool_decide. }
    rewrite !Hfm, !map_last. by rewrite last_wins_key.
  - constructor; [|constructor]. split; [done|]. by apply entry_bytes_ok.
  - cbn [frames_ops]. unfold frame_ops. cbn [fst snd]. unfold compressed_batch_encode in Efr. apply outcome_bind_ok in Efr as (raw & _ & [= <-]).
    rewrite Hdec. cbn [expect mbind outcome_bind]. rewrite Hin. cbn [mbind outcome_bind]. rewrite (inner_ops_of shape blake2b256 lz4_decompress live _ _ p Hops'). cbn [mbind outcome_bind].
    by rewrite app_nil_r.
  - exists (mkBatchEnv w rows' (tx_commit st tx)). split; [|done]. unfold do_write_batch. cbn [be_writer be_rows be_status].
    assert (forall (A : Type) (x y : A), match wb_writes b with [] => x | _ => y end = y) as Hm by (intros; by destruct (wb_writes b)). rewrite Hm. rewrite (dedup_last_wins_ok _ _ Hl2). fold xs. unfold write_compressed_batch_into_wal.
    rewrite Efr. cbn [mbind outcome_bind]. unfold prepared_write. rewrite (proj1 (entry_bytes_ok _ Hfo)). cbn [mbind outcome_bind]. unfold wal_write.
    cbn [frames_of List.map] in Emw. rewrite Emw. cbn [mbind outcome_bind head expect]. rewrite Ei. cbn [mbind outcome_bind]. rewrite Etx, Ea. done.
Qed.
End whole.

(** C15. A committed batch is what its frames replay to.  A client builds a batch
    of writes and removals; on a log that has room for its frames,
    [do_write_batch], with one frame per operation or one compressed frame,
    succeeds and extends the log by frames that decode, and whose replay makes,
    for every key, exactly the updates parked in the pending table of the key's
    cell, in the same order and at the same positions, whatever the grouping by
    mutex did; all of them are under the batch's transaction, which is
    committed, and the last of them is the batch's last operation on the key. *)
Theorem batch_live_is_replay l hash p0 shape blake2b256 value_cache lz4_compress lz4_decompress codec tx b s acked rows st entries :
  layout_ok l -> 3 <= max_maps l -> (forall b, is_u32 (hash b)) -> Forall ks_ok shape ->
  (forall b, lz4_decompress (lz4_compress b) (Z.of_nat (length b)) = Some b) ->
  (forall ks ksd, ks_context shape ks = Ok ksd -> ks_destroyed ksd = false) ->
  wal_history l hash p0 s acked -> batch_built shape blake2b256 value_cache tx b -> wb_writes b <> [] -> Forall batch_entry_ok (wb_writes b) ->
  framed lz4_compress codec b = Ok entries -> batch_ok l (List.map entry_bytes entries) -> writer_window l s -> room l s ->
  (forall raw, encode_entries (dedup_last_wins (wb_writes b) (wb_pending_ops b)).1
     (be_bytes 4 (Z.of_nat (length (dedup_last_wins (wb_writes b) (wb_pending_ops b)).1))) = Ok raw -> Z.of_nat (length raw) <= u32_max) ->
  exists env', do_write_batch shape hash lz4_compress codec (mkBatchEnv (ss_writer l s) rows st) b = Ok env' /\
    batch_applied l hash p0 shape blake2b256 lz4_decompress tx b s acked (mkBatchEnv (ss_writer l s) rows st) env'.
Proof.
  intros Hl Hmax Hh Hshape Hlz Hlive Hhist Hbu Hne Hok Hfr Hfit Hw Hr Hraw. destruct codec as [c|].
  - by apply (compressed_batch_ok l hash p0 shape blake2b256 value_cache lz4_compress lz4_decompress Hl Hmax Hh Hshape Hlz Hlive tx b s acked rows st c entries).
  - by apply (plain_batch_ok l hash p0 shape blake2b256 value_cache lz4_compress lz4_decompress Hl Hmax Hh Hshape Hlive tx b s acked rows st entries).
Qed.

(** *** A key written and removed in one batch. *)

Definition demo_batch : outcome WriteBatch :=
  b ← batch_write [demo_uniform] (fun k => k) (fun _ => true) (batch_new (mkTx 0 false)) 0 demo_k1 [9];
  batch_delete [demo_uniform] (fun k => k) b 0 demo_k1.

Definition demo_open : outcome Session := open_session small_layout sum_hash 0 1 (mkWalFiles [(0, [])]).

Lemma batch_live_is_replay_witness :
  exists s b env', demo_open = Ok s /\ demo_batch = Ok b /\
    do_write_batch [demo_uniform] sum_hash (fun b => b) None (mkBatchEnv (ss_writer small_layout s) (mkPendingRows ∅ ∅) (fun _ => 0)) b = Ok env' /\
    batch_applied small_layout sum_hash 0 [demo_uniform] (fun k => k) store_decompress (mkTx 0 false) b s []
      (mkBatchEnv (ss_writer small_layout s) (mkPendingRows ∅ ∅) (fun _ => 0)) env'.
Proof.
  assert (forall b, is_u32 (sum_hash b)) as Hh by (intros b; unfold is_u32, sum_hash, wrap32; apply Z.mod_pos_bound; lia).
  destruct (fresh_log_files small_layout sum_hash small_layout_ok) as (files & Ef & Hf); [vm_compute; discriminate|].
  assert (files = mkWalFiles [(0, [])]) as -> by (vm_compute in Ef; by injection Ef as <-).
  assert ((match demo_open with Ok s => Some (ss_position s, ss_finalized s) | _ => None end) = Some (0, -1)) as F by (vm_compute; reflexivity).
  destruct demo_open as [s|] eqn:Es; [|done]. injection F as Ep Efin.
  assert (wal_history small_layout sum_hash 0 s []) as Hhist by (eapply history_open; [exact Hf|by eapply open_session_open]).
  assert (exists b, demo_batch = Ok b /\ wb_writes b = [WalRecord 0 demo_k1 [9] false; WalRemove 0 demo_k1] /\ wb_pending_ops b =
    [PendingOpInsert 0 demo_k1 (CellInteger 1) (Some (demo_k1, [9])); PendingOpRemove 0 demo_k1 (CellInteger 1)] /\
    batch_built [demo_uniform] (fun k => k) (fun _ => true) (mkTx 0 false) b) as (b & Eb & Ew & Eo & Hb).
  { unfold demo_batch. destruct (batch_write _ _ _ _ _ _ _) as [b1|] eqn:E1; [|by vm_compute in E1]. cbn [mbind outcome_bind].
    destruct (batch_delete _ _ b1 _ _) as [b2|] eqn:E2.
    - exists b2. split; [done|]. assert (batch_built [demo_uniform] (fun k => k) (fun _ => true) (mkTx 0 false) b2) as Hb2.
      { eapply built_delete; [|exact E2]. eapply built_write; [constructor|exact E1]. }
      vm_compute in E1. injection E1 as <-. vm_compute in E2. injection E2 as <-. done.
    - vm_compute in E1. injection E1 as <-. by vm_compute in E2. }
  assert (Forall batch_entry_ok (wb_writes b)) as Hok.
  { rewrite Ew. constructor; [|constructor; [|constructor]]; (split; [vm_compute; repeat split; discriminate|vm_compute; discriminate]). }
  assert (batch_ok small_layout (List.map entry_bytes (WalBatchStart 2 :: wb_writes b))) as Hfit.
  { rewrite Ew. split; [discriminate|]. split; [|vm_compute; discriminate]. repeat (constructor; [reflexivity|]). constructor. }
  assert (framed (fun b => b) None b = Ok (WalBatchStart 2 :: wb_writes b)) as Efr by (unfold framed; rewrite Ew; reflexivity).
  assert (writer_window small_layout s) as Hw by (unfold writer_window; rewrite Ep, Efin; vm_compute; discriminate).
  assert (room small_layout s) as Hr by (unfold room; rewrite Ep; split; vm_compute; discriminate).
  assert (Forall ks_ok [demo_uniform]) as Hks by (constructor; [exact demo_uniform_ok|constructor]).
  assert (forall x, store_decompress x (Z.of_nat (length x)) = Some x) as Hlz by (intros x; unfold store_decompress; by rewrite Z.eqb_refl).
  assert (forall ks ksd, ks_context [demo_uniform] ks = Ok ksd -> ks_destroyed ksd = false) as Hlive.
  { intros ks ksd. unfold ks_context. destruct (Z.to_nat ks) as [|n]; cbn; [by intros [= <-]|done]. }
  assert (forall raw, encode_entries (dedup_last_wins (wb_writes b) (wb_pending_ops b)).1
    (be_bytes 4 (Z.of_nat (length (dedup_last_wins (wb_writes b) (wb_pending_ops b)).1))) = Ok raw -> Z.of_nat (length raw) <= u32_max) as Hraw.
  { rewrite Ew, Eo. intros raw E. vm_compute in E. injection E as <-. vm_compute. discriminate. }
  assert (wb_writes b <> []) as Hne by (rewrite Ew; discriminate).
  destruct (batch_live_is_replay small_layout sum_hash 0 [demo_uniform] (fun k => k) (fun _ => true) (fun b => b) store_decompress None (mkTx 0 false) b s []
    (mkPendingRows ∅ ∅) (fun _ => 0) _ small_layout_ok ltac:(cbn; lia) Hh Hks Hlz Hlive Hhist Hb Hne Hok Efr Hfit Hw Hr Hraw) as (env' & E & Ha).
  exists s, b, env'. split; [reflexivity|]. split; [exact Eb|]. split; [exact E|exact Ha].
Defined.
