(* ===== verification/Relocation.v ===== *)
(** * Relocation

    [src/tidehunter/src/relocation/]: the driver that reclaims log space.  It
    walks the cells, copies the records that are still indexed to the end of the
    log, re-points the index to the copies and lets the log drop what is below
    the watermark.  There are two strategies: index-based, with its progress in a
    watermark file, and log-based, with a target computed from a scan.

    What the driver uses of the database is the interface [RelocationDb]; its
    operations change the database and fail with an error of the log.  Commands
    that arrive while a run is under way come from the interface too.  Metrics
    are not modelled; [bincode] is a parameter. *)

From Stdlib Require Import ZArith Lia List.
From stdpp Require Import base tactics list gmap strings.
From S2P Require Import Prelude BTree Bytes Position Cell Layout KeyShape WalEntry Allocator Tracker IndexTable IndexOps Levels Loader Flusher.
From S2P Require Import Crc WalFiles Wal Pending Batch.

Local Open Scope Z_scope.

(** ** Data *)

Record CellReference := mkCellRef { cr_keyspace : KeySpace; cr_cell_id : CellId }.

Inductive RelocationStrategy :=
| WalBased
| IndexBased (target_position : option Z).

(** The senders of [Cancel] and [StartBlocking] are answered by [rd_ack]. *)
Inductive RelocationCommand :=
| CommandStart (strategy : RelocationStrategy)
| CommandCancel
| CommandStartBlocking (strategy : RelocationStrategy).

Inductive Decision := Keep | Remove | StopRelocation.

Record WatermarkData := mkWatermark {
  wd_next_to_process : option CellReference;
  wd_highest_wal_position : Z;
  wd_upper_limit : Z;
  wd_target_position : option Z;
}.

Definition watermark_default : WatermarkData := mkWatermark None 0 0 None.

(** [RelocationWatermarks::gc_watermark] *)
Definition gc_watermark (data : WatermarkData) : Z :=
  let watermark := Z.min (wd_highest_wal_position data) (wd_upper_limit data) in
  match wd_target_position data with Some target => Z.min watermark target | None => watermark end.

Record CellProcessingContext := mkProcessing {
  cp_batch : RelocatedWriteBatch;
  cp_highest_wal_position : WalPosition;
  cp_entries_removed : Z;
  cp_entries_kept : Z;
}.

Definition processing_new (batch : RelocatedWriteBatch) : CellProcessingContext := mkProcessing batch (wp_new 0 0) 0 0.

(** The parts of [Config] a run reads. *)
Record RelocationConfig := mkRelocConfig {
  rc_batch_codec : option BatchCodec;
  rc_max_reclaim_pct : Z;
  rc_batch_max_bytes : nat;
  rc_wal_file_size : Z;
}.

(** ** The database *)

(** An operation of the database: it may panic, and fail with an error. *)
Definition RM (D A : Type) : Type := D -> outcome (D * (WalError + A)).

#[export] Instance RM_ret {D} : MRet (RM D) := fun A a d => Ok (d, inr a).

#[export] Instance RM_bind {D} : MBind (RM D) :=
  fun A B f m d => match m d with Ok (d, inr a) => f a d | Ok (d, inl e) => Ok (d, inl e) | Panic s => Panic s end.

Definition rlift {D A} (m : outcome A) : RM D A := fun d => match m with Ok a => Ok (d, inr a) | Panic s => Panic s end.

Definition rfail {D A} (e : WalError) : RM D A := fun d => Ok (d, inl e).

Definition rask {D A} (f : D -> A) : RM D A := fun d => Ok (d, inr (f d)).

Class RelocationDb (D : Type) := {
  (** [LargeTable::next_cell] forward *)
  rd_next_cell : KeySpace -> CellId -> D -> outcome (option CellId);
  (** [LargeTable::get_index_for_cell] and what the view iterates over *)
  rd_index : KeySpace -> CellId -> LastProcessed -> RM D (option (list (list Z * WalPosition)));
  (** [Db::read_record_for_indexed_key] *)
  rd_read : KeySpace -> WalPosition -> list Z -> RM D (option (list Z * list Z));
  (** [Db::write_relocated_batch_into_wal] and [wait_processed] *)
  rd_append : list (list Z) -> RM D (list WalPosition);
  (** [LargeTable::sync_flush_for_relocation] and [Db::retire_index_blobs] *)
  rd_flush : KeySpace -> CellId -> RelocationFlush -> RM D unit;
  (** [WalWriter::last_processed] *)
  rd_last_processed : D -> Z;
  (** [Wal::min_wal_position] *)
  rd_min_wal_position : D -> Z;
  (** the frames of [wal_iterator_for_scan] and the error that ends them *)
  rd_scan : Z -> RM D (list (WalPosition * list Z) * WalError);
  (** [ControlRegionStore::last_position] *)
  rd_control_position : D -> Z;
  (** [Db::rebuild_control_region_from] *)
  rd_rebuild_control : Z -> RM D unit;
  (** [WalWriter::gc] *)
  rd_gc : Z -> RM D unit;
  (** the watermark file; [None] when there is none *)
  rd_watermark_file : RM D (option (list Z));
  rd_save_file : list Z -> RM D unit;
  (** commands sent since the last look, and whether all senders are gone *)
  rd_arrivals : RM D (list RelocationCommand * bool);
  rd_ack : RM D unit;
}.

Section driver.
Context {D : Type} `{RelocationDb D}.
Context (hash : list Z -> Z) (blake2b256 : list Z -> list Z).
Context (bincode_serialize : WatermarkData -> list Z) (bincode_deserialize : list Z -> option WatermarkData).
Context (shape : list KeySpaceDesc) (relocation_filter : KeySpace -> option (list Z -> list Z -> Decision)).

Definition ks_desc (ks : KeySpace) : outcome KeySpaceDesc := expect (shape !! Z.to_nat ks) "Key space not found".

(** ** Cell references *)

(** The key space to start from, destroyed ones skipped. *)
Fixpoint skip_destroyed (fuel : nat) (keyspace : KeySpace) : outcome KeySpace :=
  match fuel with
  | O => Ok keyspace
  | S fuel =>
      if keyspace <? Z.of_nat (length shape) then
        ksd ← ks_desc keyspace;
        if ks_destroyed ksd then skip_destroyed fuel (wrap8 (keyspace + 1)) else Ok keyspace
      else Ok keyspace
  end.

(** [CellReference::first] *)
Definition cell_ref_first (keyspace : KeySpace) : outcome (option CellReference) :=
  keyspace ← skip_destroyed (length shape) keyspace;
  if Z.of_nat (length shape) <=? keyspace then Ok None
  else ksd ← ks_desc keyspace; Ok (Some (mkCellRef keyspace (first_cell ksd))).

Definition next_in_ks (d : D) (c : CellReference) : outcome (option CellReference) :=
  next ← rd_next_cell (cr_keyspace c) (cr_cell_id c) d;
  Ok (option_map (mkCellRef (cr_keyspace c)) next).

(** [CellReference::next] *)
Definition cell_ref_next (d : D) (c : CellReference) : outcome (option CellReference) :=
  ksd ← ks_desc (cr_keyspace c);
  next ← (if ks_destroyed ksd then Ok None else next_in_ks d c);
  match next with
  | Some cell => Ok (Some cell)
  | None => cell_ref_first (wrap8 (cr_keyspace c + 1))
  end.

Definition ref_next (c : CellReference) : RM D (option CellReference) := fun d => rlift (cell_ref_next d c) d.

(** ** Progress *)

(** [RelocationWatermarks::read_or_create] *)
Definition read_or_create : RM D WatermarkData :=
  file ← rd_watermark_file;
  match file with
  | None => mret watermark_default
  | Some buffer => match bincode_deserialize buffer with Some data => mret data | None => rfail WalIo end
  end.

(** [RelocationWatermarks::save] *)
Definition watermark_save (data : WatermarkData) : RM D unit := rd_save_file (bincode_serialize data).

(** [RelocationDriver::save_progress] *)
Definition save_progress (watermarks : WatermarkData) (watermark_only : bool) : RM D unit :=
  _ ← watermark_save watermarks;
  if watermark_only then mret tt
  else
    control ← rask rd_control_position;
    rd_gc (Z.min (gc_watermark watermarks) control).

(** The loop of [should_cancel_relocation] over the commands in the channel: the
    answer and the commands left. *)
Fixpoint cancel_loop (queue : list RelocationCommand) (disconnected : bool) : RM D (bool * list RelocationCommand) :=
  match queue with
  | [] => mret (disconnected, [])
  | CommandStart _ :: queue => cancel_loop queue disconnected
  | CommandCancel :: queue => _ ← rd_ack; mret (true, queue)
  | CommandStartBlocking _ :: queue => _ ← rd_ack; cancel_loop queue disconnected
  end.

Definition should_cancel_relocation (queue : list RelocationCommand) : RM D (bool * list RelocationCommand) :=
  '(arrived, disconnected) ← rd_arrivals;
  cancel_loop (queue ++ arrived) disconnected.

(** ** Copying *)

Fixpoint relocation_updates (ki : KeyIndexing) (updates : RelocationUpdates) (copies : list (WalPosition * list Z)) : outcome RelocationUpdates :=
  match copies with
  | [] => Ok updates
  | (pos, key) :: rest => reduced_key ← reduce_key blake2b256 ki key; relocation_updates ki (ru_add updates reduced_key pos) rest
  end.

(** [Db::write_relocated_batch] *)
Definition write_relocated_batch (batch : RelocatedWriteBatch) : RM D unit :=
  if relocated_is_empty batch then mret tt
  else
    ksd ← rlift (ks_desc (rb_ks batch));
    positions ← rd_append (rb_prepared_writes batch);
    updates ← rlift (relocation_updates (ks_key_indexing ksd) (ru_new (rb_last_processed batch)) (zip positions (rb_keys batch)));
    rd_flush (rb_ks batch) (rb_cell_id batch) (RelocationUpdate updates).

(** ** Index-based relocation *)

Definition highest_of (highest position : WalPosition) : WalPosition :=
  if wp_offset highest <? wp_offset position then position else highest.

Definition add_entry_to_relocate (c : CellProcessingContext) (key value : list Z) (position : WalPosition) : outcome CellProcessingContext :=
  batch ← relocated_write hash (cp_batch c) key value;
  Ok (mkProcessing batch (highest_of (cp_highest_wal_position c) position) (cp_entries_removed c) (cp_entries_kept c + 1)).

Definition mark_entry_removed (c : CellProcessingContext) (position : WalPosition) : CellProcessingContext :=
  mkProcessing (cp_batch c) (highest_of (cp_highest_wal_position c) position) (cp_entries_removed c + 1) (cp_entries_kept c).

(** Phase B of [process_single_cell]. *)
Fixpoint process_entries (ks : KeySpace) (effective_limit : Z) (entries : list (list Z * WalPosition)) (context : CellProcessingContext) :
    RM D CellProcessingContext :=
  match entries with
  | [] => mret context
  | (key, position) :: rest =>
      if effective_limit <=? wp_offset position then process_entries ks effective_limit rest context
      else
        found ← rd_read ks position key;
        match found with
        | None => process_entries ks effective_limit rest (mark_entry_removed context position)
        | Some (_, value) =>
            match match relocation_filter ks with Some filter => filter key value | None => Keep end with
            | Keep => context ← rlift (add_entry_to_relocate context key value position); process_entries ks effective_limit rest context
            | Remove => process_entries ks effective_limit rest (mark_entry_removed context position)
            | StopRelocation => mret context
            end
        end
  end.

(** [RelocationDriver::process_single_cell] *)
Definition process_single_cell (c : CellReference) (effective_limit : Z) : RM D CellProcessingContext :=
  let context := processing_new (relocated_new (cr_keyspace c) (cr_cell_id c) effective_limit) in
  index ← rd_index (cr_keyspace c) (cr_cell_id c) effective_limit;
  match index with
  | None => mret context
  | Some entries => process_entries (cr_keyspace c) effective_limit entries context
  end.

Definition NUM_ITERATIONS_IN_BATCH : Z := 1000.
Definition NUM_ITERATIONS_TILL_SAVE : Z := 100000.

(** One cell of the loop: the highest position seen and the next cell. *)
Definition index_cell (effective_limit : Z) (c : CellReference) (highest : Z) : RM D (Z * option CellReference) :=
  context ← process_single_cell c effective_limit;
  let highest := if highest <? wp_offset (cp_highest_wal_position context) then wp_offset (cp_highest_wal_position context) else highest in
  _ ← (if relocated_is_empty (cp_batch context) then mret tt else write_relocated_batch (cp_batch context));
  next ← ref_next c;
  mret (highest, next).

(** What is done before every cell: whether to stop, and the queue. *)
Definition index_poll (upper_limit : Z) (target_position : option Z) (c : CellReference) (cells_processed highest : Z) (queue : list RelocationCommand) :
    RM D (bool * list RelocationCommand) :=
  if cells_processed mod NUM_ITERATIONS_IN_BATCH =? 0 then
    '(cancel, queue) ← should_cancel_relocation queue;
    if cancel : bool then mret (true, queue)
    else
      _ ← (if cells_processed mod NUM_ITERATIONS_TILL_SAVE =? 0
           then save_progress (mkWatermark (Some c) highest upper_limit target_position) true else mret tt);
      mret (false, queue)
  else mret (false, queue).

(** The loop: the cell it ends with, the highest position seen and the commands
    left.  [take] has emptied the reference when the loop is left early. *)
Fixpoint index_loop (fuel : nat) (upper_limit effective_limit : Z) (target_position : option Z) (current : option CellReference)
    (cells_processed highest : Z) (queue : list RelocationCommand) : RM D (option CellReference * Z * list RelocationCommand) :=
  match fuel with
  | O => rlift (Panic "index_based_relocation does not end")
  | S fuel =>
      match current with
      | None => mret (None, highest, queue)
      | Some c =>
          '(cancel, queue) ← index_poll upper_limit target_position c cells_processed highest queue;
          if cancel : bool then mret (None, highest, queue)
          else
            '(highest, next) ← index_cell effective_limit c highest;
            index_loop fuel upper_limit effective_limit target_position next (cells_processed + 1) highest queue
      end
  end.

(** Where a run starts. *)
Definition index_start (watermarks : WatermarkData) (target_position : option Z) : outcome (option CellReference) :=
  let should_restart := bool_decide (wd_next_to_process watermarks = None) || negb (bool_decide (wd_target_position watermarks = target_position)) in
  current ← (if should_restart then cell_ref_first 0 else Ok (wd_next_to_process watermarks));
  match current with
  | None => Ok None
  | Some c =>
      ksd ← ks_desc (cr_keyspace c);
      if ks_destroyed ksd then cell_ref_first (wrap8 (cr_keyspace c + 1)) else Ok (Some c)
  end.

(** [RelocationDriver::index_based_relocation]; the commands left. *)
Definition index_based_relocation (fuel : nat) (target_position : option Z) (queue : list RelocationCommand) : RM D (list RelocationCommand) :=
  watermarks ← read_or_create;
  upper_limit ← rask rd_last_processed;
  let effective_limit := match target_position with Some t => Z.min t upper_limit | None => upper_limit end in
  current ← rlift (index_start watermarks target_position);
  '(current, highest, queue) ← index_loop fuel upper_limit effective_limit target_position current 0 0 queue;
  _ ← save_progress (mkWatermark current highest upper_limit target_position) false;
  mret queue.

(** ** Log-based relocation *)

(** The scan for the position to stop at: the first frame past the frontier, or
    the first record a filter refuses to let go. *)
Fixpoint terminal_position (upper_limit : Z) (frames : list (WalPosition * list Z)) (last : WalError) : outcome (WalError + Z) :=
  match frames with
  | [] => Ok (match last with WalCrc _ | EndOfWal => inr 0 | WalIo => inl WalIo end)
  | (position, raw_entry) :: rest =>
      if upper_limit <=? wp_offset position then Ok (inr (wp_offset position))
      else
        entry ← wal_entry_from_bytes raw_entry;
        match entry with
        | WalCompressedBatch _ _ _ => Panic "wal-based relocation reached a CompressedBatch frame"
        | WalRecord ks key value _ =>
            _ ← ks_desc ks;
            match relocation_filter ks with
            | Some filter =>
                match filter key value with
                | StopRelocation => Ok (inr (wp_offset position))
                | _ => terminal_position upper_limit rest last
                end
            | None => terminal_position upper_limit rest last
            end
        | _ => terminal_position upper_limit rest last
        end
  end.

(** The most a run may reclaim. *)
Definition max_target_position (cfg : RelocationConfig) (upper_limit min_wal_position : Z) : Z :=
  let reclaim := u64_mul (Z.max 0 (upper_limit - min_wal_position)) (rc_max_reclaim_pct cfg) / 100 in
  u64_add min_wal_position (Z.max reclaim (rc_wal_file_size cfg)).

(** The position up to which records are copied. *)
Definition wal_target (cfg : RelocationConfig) (upper_limit min_wal_position terminal : Z) : outcome Z :=
  let target_position := Z.min terminal (max_target_position cfg upper_limit min_wal_position) in
  r ← u64_rem target_position (rc_wal_file_size cfg);
  Ok (u64_sub target_position r).

(** The entries of one cell, in batches of bounded size. *)
Fixpoint copy_entries (cfg : RelocationConfig) (c : CellReference) (target_position : Z) (entries : list (list Z * WalPosition)) (batch : RelocatedWriteBatch) :
    RM D RelocatedWriteBatch :=
  match entries with
  | [] => mret batch
  | (reduced_key, position) :: rest =>
      if wp_offset position <? target_position then
        found ← rd_read (cr_keyspace c) position reduced_key;
        match found with
        | None => copy_entries cfg c target_position rest batch
        | Some (key, value) =>
            batch ← rlift (relocated_write hash batch key value);
            if (rc_batch_max_bytes cfg <=? rb_size_bytes batch)%nat then
              _ ← write_relocated_batch batch;
              copy_entries cfg c target_position rest (relocated_new (cr_keyspace c) (cr_cell_id c) target_position)
            else copy_entries cfg c target_position rest batch
        end
      else copy_entries cfg c target_position rest batch
  end.

(** One cell of the loop. *)
Definition wal_cell (cfg : RelocationConfig) (last_processed target_position terminal : Z) (c : CellReference) : RM D unit :=
  match relocation_filter (cr_keyspace c) with
  | Some _ => rd_flush (cr_keyspace c) (cr_cell_id c) (RelocationCutoff terminal)
  | None =>
      index ← rd_index (cr_keyspace c) (cr_cell_id c) last_processed;
      match index with
      | None => mret tt
      | Some entries =>
          batch ← copy_entries cfg c target_position entries (relocated_new (cr_keyspace c) (cr_cell_id c) target_position);
          if relocated_is_empty batch then mret tt else write_relocated_batch batch
      end
  end.

(** The next cell is looked up before the cell is processed. *)
Fixpoint wal_loop (fuel : nat) (cfg : RelocationConfig) (last_processed target_position terminal : Z) (current : option CellReference) : RM D unit :=
  match fuel with
  | O => rlift (Panic "wal_based_relocation does not end")
  | S fuel =>
      match current with
      | None => mret tt
      | Some c =>
          next ← ref_next c;
          _ ← rlift (ks_desc (cr_keyspace c));
          _ ← wal_cell cfg last_processed target_position terminal c;
          wal_loop fuel cfg last_processed target_position terminal next
      end
  end.

(** [RelocationDriver::wal_based_relocation] *)
Definition wal_based_relocation (fuel : nat) (cfg : RelocationConfig) : RM D unit :=
  _ ← rlift (assert_that (bool_decide (rc_batch_codec cfg = None)) "wal-based relocation does not support Config::batch_codec yet");
  last_processed ← rask rd_last_processed;
  min_wal_position ← rask rd_min_wal_position;
  '(frames, last) ← rd_scan min_wal_position;
  terminal ← rlift (terminal_position last_processed frames last);
  match terminal with
  | inl e => rfail e
  | inr terminal =>
      target_position ← rlift (wal_target cfg last_processed min_wal_position terminal);
      if target_position <? u64_add (rc_wal_file_size cfg) min_wal_position then mret tt
      else
        current ← rlift (cell_ref_first 0);
        _ ← wal_loop fuel cfg last_processed target_position terminal current;
        _ ← rd_rebuild_control target_position;
        control ← rask rd_control_position;
        rd_gc (Z.min target_position control)
  end.

(** ** Commands *)

(** [RelocationDriver::relocation_run]; the commands left. *)
Definition relocation_run (fuel : nat) (cfg : RelocationConfig) (strategy : RelocationStrategy) (queue : list RelocationCommand) : RM D (list RelocationCommand) :=
  match strategy with
  | WalBased => _ ← wal_based_relocation fuel cfg; mret queue
  | IndexBased target_position => index_based_relocation fuel target_position queue
  end.

(** One turn of [RelocationDriver::run] on the command it received; an error of
    the run is a panic of the thread. *)
Definition run_command (fuel : nat) (cfg : RelocationConfig) (command : RelocationCommand) (queue : list RelocationCommand) (d : D) :
    outcome (D * list RelocationCommand) :=
  let finish (m : RM D (list RelocationCommand)) :=
    '(d, r) ← m d;
    match r with inr queue => Ok (d, queue) | inl _ => Panic "relocation error" end in
  match command with
  | CommandStart strategy => finish (relocation_run fuel cfg strategy queue)
  | CommandCancel => finish (_ ← rd_ack; mret queue)
  | CommandStartBlocking strategy => finish (queue ← relocation_run fuel cfg strategy queue; _ ← rd_ack; mret queue)
  end.
End driver.
