(* ===== verification/RelocationFacts.v ===== *)
(** * What relocation preserves

    The driver against an abstract view of the database ([RelocationSpec]): which
    position every key of every cell is indexed at, and which record a position
    holds.  Clients may write and remove keys at any step of a run ([drifted]);
    what the contract promises of a flush with updates or a cutoff is what
    [FlushRelocation] shows of the flusher.  A run that is left to finish moves every indexed record from below
    the reclaimed part of the log, keeps its key and value, and drops only what
    the filters let go ([index_relocation_keeps], [wal_relocation_keeps]).  A run
    that is cancelled or resumed, or that works on index keys that are not record
    keys, does not. *)

From Stdlib Require Import ZArith Lia List Sorting.Sorted.
From stdpp Require Import base tactics list gmap strings.
From S2P Require Import Prelude BTree Bytes Position Cell Layout KeyShape WalEntry Allocator Tracker IndexTable IndexOps Levels Loader Flusher.
From S2P Require Import FlushRelocation Crc WalFiles Wal Pending Batch Relocation.

Local Open Scope Z_scope.

(** ** The database, seen from relocation *)

Section spec.
Context {D : Type} `{RelocationDb D} (hash : list Z -> Z) (blake2b256 : list Z -> list Z) (shape : list KeySpaceDesc).

(** What one can observe of a database: the cells a walk visits, where a key is
    indexed, which positions of the log are intact, the record read at them,
    the position below which every write has reached the index, the keys clients
    have written to since the run began, and that nobody is going to cancel. *)
Record DbView := mkDbView {
  dv_cells : KeySpace -> list CellId;
  dv_index : KeySpace -> CellId -> list Z -> option WalPosition;
  dv_stored : KeySpace -> WalPosition -> list Z -> Prop;
  dv_record : KeySpace -> WalPosition -> list Z -> option (list Z * list Z);
  dv_fresh : Z;
  dv_touched : KeySpace -> CellId -> list Z -> Prop;
  dv_calm : Prop;
}.

Context (view : D -> DbView).

(** The log only grows; no cells are created. *)
Record grows (d d' : D) : Prop := mkGrows {
  gr_cells : forall ks, dv_cells (view d') ks = dv_cells (view d) ks;
  gr_frontier : rd_last_processed d <= rd_last_processed d';
  gr_fresh : dv_fresh (view d) <= dv_fresh (view d');
  gr_touched : forall ks c ik, dv_touched (view d) ks c ik -> dv_touched (view d') ks c ik;
  gr_calm : dv_calm (view d) -> dv_calm (view d');
  gr_stored : forall ks p ik, dv_stored (view d) ks p ik ->
    dv_stored (view d') ks p ik /\ dv_record (view d') ks p ik = dv_record (view d) ks p ik;
}.

(** A client has removed the key, or written it to the unapplied part of the log. *)
Definition drifted (d d' : D) (ks : KeySpace) (c : CellId) (ik : list Z) : Prop :=
  dv_touched (view d') ks c ik /\ forall q, dv_index (view d') ks c ik = Some q -> dv_fresh (view d) <= wp_offset q.

(** And the index changes only where clients write. *)
Record quiet (d d' : D) : Prop := mkQuiet {
  qt_grows : grows d d';
  qt_index : forall ks c ik, dv_index (view d') ks c ik = dv_index (view d) ks c ik \/ drifted d d' ks c ik;
}.

Record view_ok (d : D) (ks : KeySpace) (c : CellId) (lp : Z) (entries : list (list Z * WalPosition)) : Prop := mkViewOk {
  vo_all : forall ik p, dv_index (view d) ks c ik = Some p -> wp_offset p < lp -> In (ik, p) entries;
  vo_only : forall ik p q, In (ik, q) entries -> dv_index (view d) ks c ik = Some p -> wp_offset p < lp -> q = p;
  vo_stored : forall ik p, In (ik, p) entries -> dv_stored (view d) ks p ik;
}.

(** What relocation relies on. *)
Class RelocationSpec : Prop := mkRelocationSpec {
  rs_frontier : forall d, 0 <= rd_min_wal_position d /\ rd_min_wal_position d <= rd_last_processed d <= dv_fresh (view d);
  rs_first : forall d i ksd, shape !! i = Some ksd -> ks_destroyed ksd = false ->
    head (dv_cells (view d) (Z.of_nat i)) = Some (first_cell ksd);
  rs_next : forall d ks i c, dv_cells (view d) ks !! i = Some c -> rd_next_cell ks c d = Ok (dv_cells (view d) ks !! S i);
  (** indexed keys are in cells of the walk, at intact positions *)
  rs_indexed : forall d ks c ik p, dv_index (view d) ks c ik = Some p ->
    dv_stored (view d) ks p ik /\ c ∈ dv_cells (view d) ks /\
    exists i ksd, ks = Z.of_nat i /\ shape !! i = Some ksd /\ ks_destroyed ksd = false;
  (** a record is indexed under its reduced key *)
  rs_keyed : forall d ks ksd p ik k v, dv_stored (view d) ks p ik -> dv_record (view d) ks p ik = Some (k, v) -> shape !! Z.to_nat ks = Some ksd ->
    reduce_key blake2b256 (ks_key_indexing ksd) k = Ok ik /\ Z.of_nat (length k) <= u16_max;
  rs_view : forall d ks c lp, lp <= rd_last_processed d -> exists d' o, rd_index ks c lp d = Ok (d', inr o) /\ quiet d d' /\
    view_ok d ks c lp (default [] o);
  rs_read : forall d ks p ik, dv_stored (view d) ks p ik -> exists d', rd_read ks p ik d = Ok (d', inr (dv_record (view d) ks p ik)) /\ quiet d d';
  (** copies go to the end of the log *)
  rs_append : forall d writes, exists d' positions, rd_append writes d = Ok (d', inr positions) /\ quiet d d' /\ length positions = length writes /\
    forall i w p ks ksd k v ik, writes !! i = Some w -> positions !! i = Some p -> prepared_write hash (WalRecord ks k v true) = Ok w ->
      wal_entry_ok (WalRecord ks k v true) -> shape !! Z.to_nat ks = Some ksd -> reduce_key blake2b256 (ks_key_indexing ksd) k = Ok ik ->
      dv_fresh (view d) <= wp_offset p /\ dv_stored (view d') ks p ik /\ dv_record (view d') ks p ik = Some (k, v);
  (** entries below the frontier of the updates are re-pointed *)
  rs_updates : forall d ks c u, (forall ik p, In (ik, p) (ru_updates u) -> dv_stored (view d) ks p ik) -> exists d', rd_flush ks c (RelocationUpdate u) d = Ok (d', inr tt) /\ grows d d' /\
    forall ks' c' ik, dv_index (view d') ks' c' ik =
      (if bool_decide (ks' = ks /\ c' = c) then
        match dv_index (view d) ks c ik with
        | Some p => Some (if wp_offset p <? ru_last_processed u then default p (updated_to (ru_updates u) ik) else p)
        | None => None
        end
      else dv_index (view d) ks' c' ik) \/ drifted d d' ks' c' ik;
  (** a key whose newest entry is below the cutoff loses that entry, or keeps
      an older one in a deeper level; other keys keep theirs *)
  rs_cutoff : forall d ks c cutoff, exists d', rd_flush ks c (RelocationCutoff cutoff) d = Ok (d', inr tt) /\ grows d d' /\
    forall ks' c' ik, dv_index (view d') ks' c' ik = dv_index (view d) ks' c' ik \/ drifted d d' ks' c' ik \/
      (ks' = ks /\ c' = c /\ (forall p, dv_index (view d) ks c ik = Some p -> wp_offset p < cutoff) /\
       forall q, dv_index (view d') ks c ik = Some q -> wp_offset q < cutoff);
  rs_file : forall d, exists file, rd_watermark_file d = Ok (d, inr file);
  rs_save : forall d bytes, exists d', rd_save_file bytes d = Ok (d', inr tt) /\ quiet d d';
  rs_arrivals : forall d, exists d' arrived disconnected, rd_arrivals d = Ok (d', inr (arrived, disconnected)) /\ quiet d d' /\
    (dv_calm (view d) -> disconnected = false /\ ~ In CommandCancel arrived);
  rs_ack : forall d, exists d', rd_ack d = Ok (d', inr tt) /\ quiet d d';
  rs_rebuild : forall d t, exists d', rd_rebuild_control t d = Ok (d', inr tt) /\ quiet d d';
  (** a scan goes over the frames in order and skips nothing that is indexed or
      on its way to the index *)
  rs_scan : forall d start, exists d' frames last, rd_scan start d = Ok (d', inr (frames, last)) /\ quiet d d' /\
    StronglySorted (fun f g => wp_offset f.1 < wp_offset g.1) frames /\
    (forall pos t, In (pos, t) frames -> 0 <= wp_offset pos) /\
    (forall pos t, In (pos, t) frames ->
      (forall pos' t', In (pos', t') frames -> wp_offset pos' < rd_last_processed d \/ wp_offset pos <= wp_offset pos') -> wp_offset pos <= dv_fresh (view d')) /\
    forall ks c ik q pos t, dv_index (view d') ks c ik = Some q -> start <= wp_offset q -> In (pos, t) frames -> wp_offset q <= wp_offset pos ->
      exists pos' t', In (pos', t') frames /\ wp_offset pos' = wp_offset q;
}.

Lemma grows_refl d : grows d d.
Proof. by split. Qed.

Lemma grows_trans a b c : grows a b -> grows b c -> grows a c.
Proof.
  intros [A1 A2 A4 A6 A5 A3] [B1 B2 B4 B6 B5 B3]. split; [intros; by rewrite B1|lia|lia|auto|auto|]. intros ks p ik Hs. destruct (A3 _ _ _ Hs) as [Hs' E].
  destruct (B3 _ _ _ Hs') as [? E']. split; [done|congruence].
Qed.

Lemma quiet_refl d : quiet d d.
Proof. split; [apply grows_refl|auto]. Qed.

(** What clients did stays done. *)
Lemma drifted_later a b c ks cl ik : drifted a b ks cl ik -> grows b c ->
  dv_index (view c) ks cl ik = dv_index (view b) ks cl ik -> drifted a c ks cl ik.
Proof. intros [Ht Hq] Hg E. split; [by apply (gr_touched _ _ Hg)|]. by rewrite E. Qed.

Lemma drifted_since a b c ks cl ik : grows a b -> drifted b c ks cl ik -> drifted a c ks cl ik.
Proof. intros Hg [Ht Hq]. split; [done|]. intros q E. pose proof (gr_fresh _ _ Hg). specialize (Hq q E). lia. Qed.

Lemma quiet_trans a b c : quiet a b -> quiet b c -> quiet a c.
Proof.
  intros [A1 A2] [B1 B2]. split; [by eapply grows_trans|]. intros ks cl ik. destruct (B2 ks cl ik) as [E|Hd]; [|right; by eapply drifted_since].
  destruct (A2 ks cl ik) as [E'|Hd]; [left; congruence|]. right. by eapply drifted_later.
Qed.
End spec.

Section facts.
Context {D : Type} `{RelocationDb D} (hash : list Z -> Z) (blake2b256 : list Z -> list Z) (shape : list KeySpaceDesc) (view : D -> DbView).
Context `{!RelocationSpec hash blake2b256 shape view} (Hshape : (length shape < 255)%nat).
Context (relocation_filter : KeySpace -> option (list Z -> list Z -> Decision)).
Notation grows := (grows view).
Notation quiet := (quiet view).
Notation index d := (dv_index (view d)).
Notation record d := (dv_record (view d)).
Notation stored d := (dv_stored (view d)).

(** *** The walk over all cells *)

Fixpoint refs_from (d : D) (ks : nat) (l : list KeySpaceDesc) : list CellReference :=
  match l with
  | [] => []
  | ksd :: l => (if ks_destroyed ksd then [] else List.map (mkCellRef (Z.of_nat ks)) (dv_cells (view d) (Z.of_nat ks))) ++ refs_from d (S ks) l
  end.

Definition all_refs (d : D) : list CellReference := refs_from d 0 shape.

Lemma refs_from_grows d d' : grows d d' -> forall l ks, refs_from d' ks l = refs_from d ks l.
Proof. intros Hg. induction l as [|ksd l IH]; intros ks; cbn; [done|]. by rewrite IH, (gr_cells _ _ _ Hg). Qed.

Lemma ks_desc_at i ksd : shape !! i = Some ksd -> ks_desc shape (Z.of_nat i) = Ok ksd.
Proof. intros E. unfold ks_desc. by rewrite Nat2Z.id, E. Qed.

Lemma wrap8_next i ksd : shape !! i = Some ksd -> wrap8 (Z.of_nat i + 1) = Z.of_nat (S i).
Proof. intros E. apply lookup_lt_Some in E. unfold wrap8. rewrite Z.mod_small; lia. Qed.

Lemma drop_at {A} (l : list A) i x t : drop i l = x :: t -> l !! i = Some x /\ drop (S i) l = t.
Proof. revert l. induction i as [|i IH]; intros [|y l]; cbn; try done; [by intros [= -> ->]|apply IH]. Qed.

Lemma cells_cons d i ksd : shape !! i = Some ksd -> ks_destroyed ksd = false ->
  exists cs, dv_cells (view d) (Z.of_nat i) = first_cell ksd :: cs.
Proof. intros E Hd. pose proof (rs_first hash blake2b256 shape view d i ksd E Hd) as Hf. destruct (dv_cells _ _) as [|c cs]; [done|]. injection Hf as ->. by exists cs. Qed.

Lemma ref_first_from d l i : drop i shape = l -> cell_ref_first shape (Z.of_nat i) = Ok (head (refs_from d i l)).
Proof.
  intros Hl. unfold cell_ref_first.
  assert (forall fuel l i, drop i shape = l -> (length l <= fuel)%nat ->
    exists j l', skip_destroyed shape fuel (Z.of_nat i) = Ok (Z.of_nat j) /\ drop j shape = l' /\ refs_from d i l = refs_from d j l' /\
      forall ksd t, l' = ksd :: t -> ks_destroyed ksd = false) as Hskip.
  { clear l i Hl. intros fuel. induction fuel as [|fuel IH]; intros l i Hl Hf.
    - destruct l; [|cbn in Hf; lia]. exists i, []. done.
    - cbn [skip_destroyed]. destruct l as [|ksd l].
      + pose proof (length_drop shape i) as Hlen. rewrite Hl in Hlen. cbn in Hlen.
        destruct (Z.ltb_spec (Z.of_nat i) (Z.of_nat (length shape))); [lia|]. exists i, []. done.
      + destruct (drop_at _ _ _ _ Hl) as [Ei Hl']. pose proof (lookup_lt_Some _ _ _ Ei).
        destruct (Z.ltb_spec (Z.of_nat i) (Z.of_nat (length shape))); [|lia]. rewrite (ks_desc_at i ksd Ei). cbn [mbind outcome_bind].
        destruct (ks_destroyed ksd) eqn:Ed.
        * rewrite (wrap8_next i ksd Ei). cbn [length] in Hf. destruct (IH l (S i) Hl' ltac:(lia)) as (j & l' & E & Hj & Er & Hn). exists j, l'. split_and!; try done.
          cbn [refs_from]. by rewrite Ed.
        * exists i, (ksd :: l). split_and!; try done. by intros ? ? [= -> _]. }
  destruct (Hskip (length shape) l i Hl) as (j & l' & -> & Hj & -> & Hn); [subst l; rewrite length_drop; lia|]. cbn [mbind outcome_bind].
  destruct l' as [|ksd l'].
  - pose proof (length_drop shape j) as Hlen. rewrite Hj in Hlen. cbn in Hlen. destruct (Z.leb_spec (Z.of_nat (length shape)) (Z.of_nat j)); [done|lia].
  - destruct (drop_at _ _ _ _ Hj) as [Ej _]. pose proof (lookup_lt_Some _ _ _ Ej).
    destruct (Z.leb_spec (Z.of_nat (length shape)) (Z.of_nat j)); [lia|]. rewrite (ks_desc_at j ksd Ej). cbn [mbind outcome_bind refs_from].
    rewrite (Hn _ _ eq_refl). destruct (cells_cons d j ksd Ej (Hn _ _ eq_refl)) as [cs ->]. done.
Qed.

Lemma ref_first d : cell_ref_first shape 0 = Ok (head (all_refs d)).
Proof. apply (ref_first_from d shape 0 eq_refl). Qed.

Lemma ref_next_from d l i pre c rest : drop i shape = l -> refs_from d i l = pre ++ c :: rest -> cell_ref_next shape d c = Ok (head rest).
Proof.
  revert i pre. induction l as [|ksd l IH]; intros i pre Hl Hr; cbn [refs_from] in Hr; [by destruct pre|].
  destruct (drop_at _ _ _ _ Hl) as [Ei Hl']. destruct (ks_destroyed ksd) eqn:Ed; [by apply (IH (S i) pre)|].
  destruct (decide (length pre < length (dv_cells (view d) (Z.of_nat i)))%nat) as [Hlt|Hge].
  - destruct (dv_cells (view d) (Z.of_nat i) !! length pre) as [x|] eqn:Ex; [|by apply lookup_ge_None in Ex; lia].
    pose proof (take_drop_middle _ _ _ Ex) as Hsplit. rewrite <- Hsplit in Hr. rewrite map_app in Hr. cbn [List.map] in Hr. rewrite <- app_assoc in Hr. cbn [app] in Hr.
    apply app_inj_1 in Hr as [Hpre Hr]; [|rewrite length_map, length_take; lia]. injection Hr as <- <-.
    unfold cell_ref_next, next_in_ks. cbn [cr_keyspace cr_cell_id]. rewrite (ks_desc_at i ksd Ei). cbn [mbind outcome_bind]. rewrite Ed.
    rewrite (rs_next hash blake2b256 shape view d _ _ _ Ex). cbn [mbind outcome_bind].
    destruct (drop (S (length pre)) (dv_cells (view d) (Z.of_nat i))) as [|y ys] eqn:Ey.
    + assert (dv_cells (view d) (Z.of_nat i) !! S (length pre) = None) as ->.
      { apply lookup_ge_None. pose proof (length_drop (dv_cells (view d) (Z.of_nat i)) (S (length pre))) as Hlen. rewrite Ey in Hlen. cbn in Hlen. lia. }
      cbn [option_map List.map app]. rewrite (wrap8_next i ksd Ei). apply (ref_first_from d l (S i) Hl').
    + apply drop_at in Ey as [-> _]. done.
  - rewrite <- (take_drop (length (dv_cells (view d) (Z.of_nat i))) pre) in Hr. rewrite <- app_assoc in Hr.
    apply app_inj_1 in Hr as [_ Hr]; [|rewrite length_map, length_take; lia]. by apply (IH (S i) _ Hl' Hr).
Qed.

Lemma ref_next_at d pre c rest : all_refs d = pre ++ c :: rest -> cell_ref_next shape d c = Ok (head rest).
Proof. apply (ref_next_from d shape 0 pre c rest eq_refl). Qed.

(** The references of the walk are cells of key spaces of the shape. *)
Lemma refs_from_In d l i c : drop i shape = l -> In c (refs_from d i l) ->
  exists j ksd, cr_keyspace c = Z.of_nat j /\ shape !! j = Some ksd /\ ks_destroyed ksd = false.
Proof.
  revert i. induction l as [|ksd l IH]; intros i Hl Hin; [done|]. destruct (drop_at _ _ _ _ Hl) as [Ei Hl']. cbn [refs_from] in Hin.
  apply in_app_iff in Hin as [Hin|Hin]; [|by apply (IH (S i))]. destruct (ks_destroyed ksd) eqn:Ed; [done|].
  apply in_map_iff in Hin as (x & <- & _). by exists i, ksd.
Qed.

Lemma indexed_in_walk d ks c ik p : index d ks c ik = Some p -> In (mkCellRef ks c) (all_refs d).
Proof.
  intros Hi. destruct (rs_indexed hash blake2b256 shape view d ks c ik p Hi) as (_ & Hc & i & ksd & -> & Ei & Ed).
  assert (forall l j, drop j shape = l -> (j <= i)%nat -> In (mkCellRef (Z.of_nat i) c) (refs_from d j l)) as Hall; [|by apply (Hall shape 0%nat eq_refl); lia].
  clear -Hc Ei Ed. induction l as [|ksd' l IH]; intros j Hl Hj.
  - pose proof (length_drop shape j) as Hlen. rewrite Hl in Hlen. cbn in Hlen. apply lookup_lt_Some in Ei. lia.
  - destruct (drop_at _ _ _ _ Hl) as [Ej Hl']. cbn [refs_from]. apply in_app_iff. destruct (decide (j = i)) as [->|Hne]; [|right; apply IH; [done|lia]].
    left. rewrite Ei in Ej. injection Ej as ->. rewrite Ed. apply in_map_iff. exists c. split; [done|]. by apply list_elem_of_In.
Qed.

(** *** Batches of copies *)

(** The batch is the frames of these records. *)
Record batch_holds (b : RelocatedWriteBatch) (ks : KeySpace) (c : CellId) (limit : Z) (copies : list (list Z * list Z)) : Prop := mkBatchHolds {
  bh_ks : rb_ks b = ks;
  bh_cell : rb_cell_id b = c;
  bh_limit : rb_last_processed b = limit;
  bh_keys : rb_keys b = List.map fst copies;
  bh_writes : Forall2 (fun w kv => prepared_write hash (WalRecord ks kv.1 kv.2 true) = Ok w /\ wal_entry_ok (WalRecord ks kv.1 kv.2 true)) (rb_prepared_writes b) copies;
}.

Lemma batch_new ks c limit : batch_holds (relocated_new ks c limit) ks c limit [].
Proof. split; [done..|constructor]. Qed.

Lemma batch_write b ks c limit copies k v : batch_holds b ks c limit copies -> is_u8 ks -> Z.of_nat (length k) <= u16_max ->
  exists b', relocated_write hash b k v = Ok b' /\ batch_holds b' ks c limit (copies ++ [(k, v)]).
Proof.
  intros [H1 H2 H3 H4 H5] Hks Hk. unfold relocated_write. rewrite H1.
  destruct (wal_entry_encodes (WalRecord ks k v true)) as (enc & Henc & _); [done|].
  assert (prepared_write hash (WalRecord ks k v true) = Ok (crc_frame_new hash ([] ++ enc))) as Ew by (unfold prepared_write; by rewrite Henc).
  rewrite Ew. cbn [mbind outcome_bind]. eexists. split; [reflexivity|]. split; cbn; [done..|by rewrite H4, map_app|].
  apply Forall2_app; [done|]. by constructor; [|constructor].
Qed.

Lemma batch_empty b ks c limit copies : batch_holds b ks c limit copies -> relocated_is_empty b = match copies with [] => true | _ => false end.
Proof. intros [_ _ _ _ H5]. unfold relocated_is_empty. by destruct H5. Qed.

(** The first copy for an index key. *)
Definition copy_for (ki : KeyIndexing) (copies : list (list Z * list Z)) (ik : list Z) : option (list Z * list Z) :=
  List.find (fun kv => match reduce_key blake2b256 ki kv.1 with Ok r => keqb r ik | _ => false end) copies.

Definition reducible (ki : KeyIndexing) (kv : list Z * list Z) : Prop := exists r, reduce_key blake2b256 ki kv.1 = Ok r.

Lemma updates_of ki u copies positions : Forall (reducible ki) copies -> length positions = length copies ->
  exists added, relocation_updates blake2b256 ki u (zip positions (List.map fst copies)) = Ok (mkRU (ru_last_processed u) (ru_updates u ++ added)) /\
    (forall ik p, In (ik, p) added -> exists i kv, copies !! i = Some kv /\ positions !! i = Some p /\ reduce_key blake2b256 ki kv.1 = Ok ik) /\
    forall ik, match copy_for ki copies ik with
               | None => updated_to added ik = None
               | Some kv => exists i p, copies !! i = Some kv /\ positions !! i = Some p /\ updated_to added ik = Some p /\ reduce_key blake2b256 ki kv.1 = Ok ik
               end.
Proof.
  intros Hr. revert u positions. induction Hr as [|[k v] copies [r Hk] _ IH]; intros u positions Hl.
  { destruct positions; [|done]. exists []. rewrite app_nil_r. split_and!; [by destruct u|done|done]. }
  destruct positions as [|p positions]; [done|]. injection Hl as Hl. cbn [List.map zip zip_with relocation_updates fst]. cbn [fst] in Hk. rewrite Hk. cbn [mbind outcome_bind].
  destruct (IH (ru_add u r p) positions Hl) as (added & E & Ha & Hc). exists ((r, p) :: added). split_and!.
  { change (zip_with pair positions (List.map fst copies)) with (zip positions (List.map fst copies)). rewrite E. cbn. by rewrite <- app_assoc. }
  { intros ik q [[= <- <-]|Hin]; [by exists 0%nat, (k, v)|]. destruct (Ha ik q Hin) as (i & kv & ? & ? & ?). by exists (S i), kv. }
  intros ik. unfold copy_for, updated_to. cbn [List.find fst]. rewrite Hk. destruct (keqb_spec r ik) as [->|Hne].
  - exists 0%nat, p. done.
  - specialize (Hc ik). unfold copy_for, updated_to in Hc. destruct (List.find _ copies) as [kv|]; [|done].
    destruct Hc as (i & q & H1 & H2 & H3 & H4). exists (S i), q. done.
Qed.

(** What writing a batch does to the index. *)
Record moved (d d' : D) (ks : KeySpace) (c : CellId) (limit : Z) (ki : KeyIndexing) (copies : list (list Z * list Z)) : Prop := mkMoved {
  mv_grows : grows d d';
  mv_others : forall ks' c' ik, ~ (ks' = ks /\ c' = c) -> index d' ks' c' ik = index d ks' c' ik \/ drifted view d d' ks' c' ik;
  mv_none : forall ik, index d ks c ik = None -> index d' ks c ik = None \/ drifted view d d' ks c ik;
  mv_some : forall ik p, index d ks c ik = Some p -> drifted view d d' ks c ik \/
    match copy_for ki copies ik with
    | Some kv => if wp_offset p <? limit then exists q, index d' ks c ik = Some q /\ dv_fresh (view d) <= wp_offset q /\ record d' ks q ik = Some kv
                 else index d' ks c ik = Some p
    | None => index d' ks c ik = Some p
    end;
}.

Lemma quiet_moved d d' ks c limit ki : quiet d d' -> moved d d' ks c limit ki [].
Proof.
  intros [Hg Hi]. split; [done|intros; apply Hi| |].
  - intros ik E. destruct (Hi ks c ik) as [->|?]; auto.
  - intros ik p E. cbn. destruct (Hi ks c ik) as [->|?]; auto.
Qed.

Lemma write_batch_moves d b ks ksd c limit copies :
  batch_holds b ks c limit copies -> shape !! Z.to_nat ks = Some ksd -> Forall (reducible (ks_key_indexing ksd)) copies -> limit <= dv_fresh (view d) ->
  exists d', write_relocated_batch blake2b256 shape b d = Ok (d', inr tt) /\ moved d d' ks c limit (ks_key_indexing ksd) copies.
Proof.
  intros Hb Hks Hr Hlim. unfold write_relocated_batch. rewrite (batch_empty _ _ _ _ _ Hb). destruct copies as [|kv copies].
  { exists d. split; [done|]. apply quiet_moved, quiet_refl. }
  set (cs := kv :: copies) in *. destruct Hb as [H1 H2 H3 H4 H5]. rewrite H1, H2, H4. unfold rlift, ks_desc. rewrite Hks. cbn [expect].
  destruct (rs_append hash blake2b256 shape view d (rb_prepared_writes b)) as (d1 & positions & E1 & Hq & Hlen & Hat).
  unfold mbind, RM_bind. rewrite E1. pose proof (Forall2_length _ _ _ H5) as Hl5.
  destruct (updates_of (ks_key_indexing ksd) (ru_new (rb_last_processed b)) cs positions Hr ltac:(lia)) as (added & Eu & Hadd & Hc). rewrite Eu. cbn [ru_new ru_last_processed ru_updates app].
  assert (forall i q kv ik, positions !! i = Some q -> cs !! i = Some kv -> reduce_key blake2b256 (ks_key_indexing ksd) kv.1 = Ok ik ->
    dv_fresh (view d) <= wp_offset q /\ stored d1 ks q ik /\ record d1 ks q ik = Some (kv.1, kv.2)) as Hcopies.
  { intros i q kv' ik Hpi Hi Hred. destruct (rb_prepared_writes b !! i) as [w|] eqn:Ew; [|apply lookup_ge_None in Ew; apply lookup_lt_Some in Hpi; lia].
    destruct (Forall2_lookup_lr _ _ _ _ _ _ H5 Ew Hi) as [Hw Hok]. exact (Hat i w q ks ksd kv'.1 kv'.2 ik Ew Hpi Hw Hok Hks Hred). }
  destruct (rs_updates hash blake2b256 shape view d1 ks c (mkRU (rb_last_processed b) added)) as (d2 & E2 & Hg2 & Hi2).
  { intros ik p Hin. destruct (Hadd ik p Hin) as (i & kv' & Hi & Hpi & Hred). apply (Hcopies i p kv' ik Hpi Hi Hred). }
  rewrite E2. exists d2. split; [done|].
  cbn [ru_last_processed ru_updates] in Hi2. rewrite H3 in Hi2. pose proof (grows_trans _ _ _ _ (qt_grows _ _ _ Hq) Hg2) as Hg.
  assert (forall ks' c' ik, index d2 ks' c' ik = (if bool_decide (ks' = ks /\ c' = c) then
      match index d ks c ik with Some p => Some (if wp_offset p <? limit then default p (updated_to added ik) else p) | None => None end
    else index d ks' c' ik) \/ drifted view d d2 ks' c' ik) as Hi.
  { intros ks' c' ik. destruct (Hi2 ks' c' ik) as [E|Hdr]; [|right; by eapply drifted_since; [apply Hq|]].
    destruct (qt_index _ _ _ Hq ks' c' ik) as [Eq|[Ht Hf]]; case_bool_decide as Hx; [destruct Hx as [-> ->]; rewrite Eq in E; by left|left; congruence| |].
    - destruct Hx as [-> ->]. right. split; [by apply (gr_touched _ _ _ Hg2)|]. rewrite E. destruct (index d1 ks c ik) as [q|]; [|done].
      intros q' [= <-]. specialize (Hf q eq_refl). destruct (Z.ltb_spec (wp_offset q) limit); [lia|done].
    - right. split; [by apply (gr_touched _ _ _ Hg2)|]. by rewrite E. }
  split; [done| | |].
  - intros ks' c' ik Hn. destruct (Hi ks' c' ik) as [E|?]; [|by right]. rewrite bool_decide_eq_false_2 in E by done. by left.
  - intros ik E0. destruct (Hi ks c ik) as [E|?]; [|by right]. rewrite bool_decide_eq_true_2, E0 in E by done. by left.
  - intros ik p E0. destruct (Hi ks c ik) as [E|?]; [right|by left]. rewrite bool_decide_eq_true_2, E0 in E by done. rewrite E. specialize (Hc ik).
    destruct (copy_for _ cs ik) as [kv'|]; [|rewrite Hc; cbn [default]; by destruct (_ <? _)].
    destruct Hc as (i & q & Hci & Hpi & -> & Hred). destruct (wp_offset p <? limit) eqn:El; [|done]. cbn [default]. exists q. split; [done|].
    destruct (Hcopies i q kv' ik Hpi Hci Hred) as (Hlp & Hst & Hrec). split; [done|].
    rewrite (proj2 (gr_stored _ _ _ Hg2 ks q ik Hst)), Hrec. by destruct kv'.
Qed.

(** *** Progress *)

(** The filter lets the record of an indexed key go, or there is none. *)
Definition let_go (d : D) (ks : KeySpace) (ik : list Z) (p : WalPosition) : Prop :=
  record d ks p ik = None \/ exists f k v, relocation_filter ks = Some f /\ record d ks p ik = Some (k, v) /\ f ik v = Remove.

Section run.
(** Key spaces whose old entries are dropped, and below which position. *)
Context (limit cutoff : Z) (droppable : KeySpace -> Prop).

(** Indexed records stay, unless clients write their keys; in key spaces whose
    old entries are dropped, those below the cutoff may go or give way to older
    ones.  In the others nothing new comes below the limit. *)
Record advances (d d' : D) : Prop := mkAdvances {
  ad_grows : grows d d';
  ad_below : forall ks c ik p, limit <= dv_fresh (view d) -> ~ droppable ks -> index d' ks c ik = Some p -> wp_offset p < limit -> index d ks c ik = Some p;
  ad_none : forall ks c ik, index d ks c ik = None -> index d' ks c ik = None \/ dv_touched (view d') ks c ik \/
    droppable ks /\ forall q, index d' ks c ik = Some q -> wp_offset q < cutoff;
  ad_some : forall ks c ik p, index d ks c ik = Some p -> dv_touched (view d') ks c ik \/
    (droppable ks /\ wp_offset p < cutoff /\ forall q, index d' ks c ik = Some q -> wp_offset q < cutoff) \/
    exists p', index d' ks c ik = Some p' /\ (p' = p \/ ~ droppable ks) /\ forall r, record d ks p ik = Some r -> record d' ks p' ik = Some r;
}.

Lemma stored_of d ks c ik p : index d ks c ik = Some p -> stored d ks p ik.
Proof. apply (rs_indexed hash blake2b256 shape view). Qed.

(** A key whose entry is the same, or that a client has written. *)
Lemma same_some d d' ks c ik p : grows d d' -> index d ks c ik = Some p -> index d' ks c ik = index d ks c ik \/ drifted view d d' ks c ik ->
  dv_touched (view d') ks c ik \/ exists p', index d' ks c ik = Some p' /\ p' = p /\ forall r, record d ks p ik = Some r -> record d' ks p' ik = Some r.
Proof.
  intros Hg E [E'|[Ht _]]; [right|by left]. exists p. rewrite E', E. split_and!; [done|done|]. intros r.
  by rewrite (proj2 (gr_stored _ _ _ Hg ks p ik (stored_of _ _ _ _ _ E))).
Qed.

Lemma same_below d d' ks c ik p : limit <= dv_fresh (view d) -> index d' ks c ik = index d ks c ik \/ drifted view d d' ks c ik ->
  index d' ks c ik = Some p -> wp_offset p < limit -> index d ks c ik = Some p.
Proof. intros Hl [<-|[_ Hf]] E Hp; [done|]. specialize (Hf p E). lia. Qed.

Lemma quiet_advances d d' : quiet d d' -> advances d d'.
Proof.
  intros [Hg Hi]. split; [done| | |].
  - intros ks c ik p Hl _. by apply same_below.
  - intros ks c ik E. destruct (Hi ks c ik) as [->|[Ht _]]; auto.
  - intros ks c ik p E. destruct (same_some d d' ks c ik p Hg E (Hi ks c ik)) as [?|(p' & ? & ? & ?)]; [by left|]. right; right. exists p'. auto.
Qed.

Lemma advances_trans a b c : advances a b -> advances b c -> advances a c.
Proof.
  intros [A1 A4 A2 A3] [B1 B4 B2 B3].
  assert (forall ks cl ik, droppable ks -> (forall q, index b ks cl ik = Some q -> wp_offset q < cutoff) ->
    dv_touched (view c) ks cl ik \/ forall q, index c ks cl ik = Some q -> wp_offset q < cutoff) as Hlow.
  { intros ks cl ik Hd Hb. destruct (index b ks cl ik) as [q|] eqn:E.
    - destruct (B3 _ _ _ _ E) as [?|[(_ & _ & ?)|(p' & -> & [->|[]] & _)]]; [by left|by right| |done]. right. intros q' [= <-]. auto.
    - destruct (B2 _ _ _ E) as [->|[?|[_ ?]]]; [by right|by left|by right]. }
  split; [by eapply grows_trans| | |].
  - intros ks cl ik p Hl Hd E Hp. pose proof (gr_fresh _ _ _ A1). apply A4; [done|done| |done]. apply B4; [lia|done..].
  - intros ks cl ik E. destruct (A2 _ _ _ E) as [E'|[Ht|[Hd Hb]]]; [by apply B2|right; left; by apply (gr_touched _ _ _ B1)|].
    destruct (Hlow ks cl ik Hd Hb); auto.
  - intros ks cl ik p E. destruct (A3 ks cl ik p E) as [Ht|[(Hd & Hlt & Hb)|(p1 & E1 & Hp1 & Hr1)]]; [left; by apply (gr_touched _ _ _ B1)| |].
    + destruct (Hlow ks cl ik Hd Hb); auto.
    + destruct (B3 ks cl ik p1 E1) as [?|[(Hd & Hlt & Hb)|(p2 & E2 & Hp2 & Hr2)]]; [by left| |].
      * destruct Hp1 as [->|[]]; [|done]. auto.
      * right; right. exists p2. split_and!; [done| |auto]. destruct Hp2 as [->|?]; auto.
Qed.

(** Where an entry that is below the limit came from. *)
Lemma advances_below d d' ks c ik p : advances d d' -> limit <= dv_fresh (view d) -> ~ droppable ks -> index d' ks c ik = Some p -> wp_offset p < limit ->
  index d ks c ik = Some p /\ record d' ks p ik = record d ks p ik /\ stored d' ks p ik.
Proof.
  intros Ha Hl Hd E Hlt. pose proof (ad_below _ _ Ha ks c ik p Hl Hd E Hlt) as E0. split; [done|].
  by destruct (gr_stored _ _ _ (ad_grows _ _ Ha) ks p ik (stored_of _ _ _ _ _ E0)).
Qed.

Definition cleared (d : D) (ks : KeySpace) (c : CellId) : Prop :=
  forall ik p, index d ks c ik = Some p -> wp_offset p < limit -> let_go d ks ik p.

Lemma let_go_same d d' ks ik p : record d' ks p ik = record d ks p ik -> let_go d ks ik p -> let_go d' ks ik p.
Proof. unfold let_go. by intros ->. Qed.

Lemma cleared_advances d d' ks c : advances d d' -> limit <= dv_fresh (view d) -> ~ droppable ks -> cleared d ks c -> cleared d' ks c.
Proof.
  intros Ha Hl Hd Hc ik p E Hlt. destruct (advances_below d d' ks c ik p Ha Hl Hd E Hlt) as (E0 & Er & _). apply (let_go_same d); [done|]. by apply Hc.
Qed.

(** *** One cell *)

Section cell.
Context (ks : KeySpace) (c : CellId) (ksd : KeySpaceDesc) (Hks : shape !! Z.to_nat ks = Some ksd) (Hu8 : is_u8 ks) (Hkeep : ~ droppable ks).
Notation ki := (ks_key_indexing ksd).
Notation reduces k ik := (reduce_key blake2b256 ki k = Ok ik).

(** The state between two entries of the view: the entries left, the copies not
    written yet. *)
Record scanning (d : D) (entries : list (list Z * WalPosition)) (copies : list (list Z * list Z)) : Prop := mkScanning {
  sc_entries : forall ik q, In (ik, q) entries -> stored d ks q ik /\ forall p, index d ks c ik = Some p -> wp_offset p < limit -> q = p;
  sc_copies : forall kv, In kv copies -> exists ik, reduces kv.1 ik /\
    forall p, index d ks c ik = Some p -> wp_offset p < limit -> record d ks p ik = Some kv;
  sc_cover : forall ik p, index d ks c ik = Some p -> wp_offset p < limit ->
    let_go d ks ik p \/ (exists kv, In kv copies /\ reduces kv.1 ik) \/ In (ik, p) entries;
  sc_fresh : limit <= dv_fresh (view d);
}.

Lemma scanning_start d lp entries : view_ok view d ks c lp entries -> limit <= lp -> limit <= dv_fresh (view d) -> scanning d entries [].
Proof.
  intros [H1 H2 H3] Hl Hf. split; [|done| |done].
  - intros ik q Hin. split; [by apply H3|]. intros p E Hlt. apply (H2 ik p q Hin E). lia.
  - intros ik p E Hlt. right; right. apply H1; [done|lia].
Qed.

Lemma scanning_advances d d' entries copies : advances d d' -> scanning d entries copies -> scanning d' entries copies.
Proof.
  intros Ha [H1 H2 H3 Hl].
  assert (forall ik p, index d' ks c ik = Some p -> wp_offset p < limit -> index d ks c ik = Some p /\ record d' ks p ik = record d ks p ik) as Hb.
  { intros ik p E Hlt. by destruct (advances_below d d' ks c ik p Ha Hl Hkeep E Hlt) as (? & ? & _). }
  split.
  - intros ik q Hin. destruct (H1 ik q Hin) as [Hs Hq]. split; [by apply (gr_stored _ _ _ (ad_grows _ _ Ha))|].
    intros p E Hlt. destruct (Hb ik p E Hlt) as [E0 _]. by apply Hq.
  - intros kv Hin. destruct (H2 kv Hin) as (ik & Hr & Hf). exists ik. split; [done|]. intros p E Hlt.
    destruct (Hb ik p E Hlt) as [E0 ->]. by apply Hf.
  - intros ik p E Hlt. destruct (Hb ik p E Hlt) as [E0 Er]. destruct (H3 ik p E0 Hlt) as [Hg|Hg]; [left|by right].
    by apply (let_go_same d).
  - pose proof (gr_fresh _ _ _ (ad_grows _ _ Ha)). lia.
Qed.

Lemma scanning_skip d ik q entries copies : scanning d ((ik, q) :: entries) copies -> limit <= wp_offset q \/ let_go d ks ik q -> scanning d entries copies.
Proof.
  intros [H1 H2 H3 Hl] Hq. split; [intros; apply H1; by right|done| |done]. intros ik' p E Hlt.
  destruct (H3 ik' p E Hlt) as [?|[?|[[= -> ->]|?]]]; [by left|by right; left| |by right; right]. destruct Hq; [lia|by left].
Qed.

Lemma scanning_copy d ik q k v entries copies : scanning d ((ik, q) :: entries) copies -> record d ks q ik = Some (k, v) -> reduces k ik ->
  scanning d entries (copies ++ [(k, v)]).
Proof.
  intros [H1 H2 H3 Hl] Hr Hk. split; [intros; apply H1; by right| | |done].
  - intros kv [?|[<-|[]]]%in_app_iff; [by apply H2|]. exists ik. split; [done|]. intros p E Hlt.
    destruct (H1 ik q (or_introl eq_refl)) as [_ Hq]. by rewrite <- (Hq p E Hlt).
  - intros ik' p E Hlt. destruct (H3 ik' p E Hlt) as [?|[(kv & Hin & ?)|[[= -> ->]|?]]]; [by left| | |by right; right]; right; left.
    + exists kv. split; [apply in_app_iff; by left|done].
    + exists (k, v). split; [apply in_app_iff; right; by left|done].
Qed.

Lemma scanning_cleared d : scanning d [] [] -> cleared d ks c.
Proof. intros [_ _ H3 _] ik p E Hlt. by destruct (H3 ik p E Hlt) as [?|[(? & [] & _)|[]]]. Qed.

(** Every copy is of the record its key is indexed at. *)
Lemma copies_advance d d' copies : moved d d' ks c limit ki copies -> limit <= dv_fresh (view d) ->
  (forall kv, In kv copies -> exists ik, reduces kv.1 ik /\ forall p, index d ks c ik = Some p -> wp_offset p < limit -> record d ks p ik = Some kv) ->
  (forall ik kv, copy_for ki copies ik = Some kv -> In kv copies /\ reduces kv.1 ik) -> advances d d'.
Proof.
  intros [Hg Ho Hn Hsome] Hl H2 Hcopy. split; [done| | |].
  - intros ks' c' ik p _ _ Ei Hp. destruct (decide (ks' = ks /\ c' = c)) as [[-> ->]|Hne]; [|by apply (same_below d d' ks' c' ik p); auto].
    destruct (index d ks c ik) as [p0|] eqn:E0.
    + destruct (Hsome ik p0 E0) as [[_ Hf]|Hm]; [specialize (Hf p Ei); lia|]. destruct (copy_for ki copies ik); [|congruence].
      destruct (wp_offset p0 <? limit); [|congruence]. destruct Hm as (q & Eq & Hq & _). assert (q = p) as -> by congruence. lia.
    + destruct (Hn ik E0) as [?|[_ Hf]]; [congruence|]. specialize (Hf p Ei). lia.
  - intros ks' c' ik Ei. destruct (decide (ks' = ks /\ c' = c)) as [[-> ->]|Hne]; [destruct (Hn ik Ei) as [?|[? _]]; auto|].
    destruct (Ho ks' c' ik Hne) as [->|[? _]]; auto.
  - intros ks' c' ik p Ei. destruct (decide (ks' = ks /\ c' = c)) as [[-> ->]|Hne].
    2: { destruct (same_some d d' ks' c' ik p Hg Ei (Ho _ _ ik Hne)) as [?|(p' & ? & ? & ?)]; [by left|]. right; right. exists p'. auto. }
    destruct (Hsome ik p Ei) as [[Ht _]|Hm]; [by left|]. right; right. pose proof (proj2 (gr_stored _ _ _ Hg ks p ik (stored_of _ _ _ _ _ Ei))) as Hrec.
    destruct (copy_for ki copies ik) as [kv|] eqn:Ec; [|exists p; rewrite Hrec; auto].
    destruct (Z.ltb_spec (wp_offset p) limit) as [Hlt|]; [|exists p; rewrite Hrec; auto].
    destruct Hm as (q & Eq & Hq & Hr). exists q. split_and!; [done|by right|]. intros r Hr0.
    destruct (Hcopy ik kv Ec) as [Hin Hk]. destruct (H2 kv Hin) as (ik' & Hk' & Hf). assert (ik' = ik) as -> by congruence. rewrite (Hf p Ei Hlt) in Hr0. congruence.
Qed.

Lemma scanning_write d b entries copies : batch_holds b ks c limit copies -> scanning d entries copies ->
  exists d', write_relocated_batch blake2b256 shape b d = Ok (d', inr tt) /\ advances d d' /\ scanning d' entries [].
Proof.
  intros Hb Hs. pose proof Hs as [H1 H2 H3 Hl].
  destruct (write_batch_moves d b ks ksd c limit copies Hb Hks) as (d' & E & Hm); [|done|].
  { apply List.Forall_forall. intros kv Hin. destruct (H2 kv Hin) as (ik & ? & _). by exists ik. }
  exists d'. split; [done|].
  assert (forall ik kv, copy_for ki copies ik = Some kv -> In kv copies /\ reduces kv.1 ik) as Hcopy.
  { intros ik kv [Hin Hk]%find_some. split; [done|]. cbn in Hk. destruct (reduce_key blake2b256 ki kv.1) as [r|] eqn:Er; [|done].
    destruct (keqb_spec r ik); [congruence|done]. }
  pose proof (copies_advance d d' copies Hm Hl H2 Hcopy) as Ha.
  split; [done|]. destruct (scanning_advances d d' entries copies Ha Hs) as [S1 _ S3 S4]. split; [done|done| |done]. intros ik p Ei Hlt.
  destruct (S3 ik p Ei Hlt) as [?|[(kv & Hin & Hk)|?]]; [by left| |by right; right]. exfalso.
  destruct (advances_below d d' ks c ik p Ha Hl Hkeep Ei Hlt) as (E0 & _ & _).
  destruct (mv_some _ _ _ _ _ _ _ Hm ik p E0) as [[_ Hf]|Hsome]; [specialize (Hf p Ei); lia|].
  destruct (copy_for ki copies ik) as [kv'|] eqn:Ec.
  - rewrite (proj2 (Z.ltb_lt _ _) Hlt) in Hsome. destruct Hsome as (q & Eq & Hq & _). rewrite Ei in Eq. injection Eq as <-. lia.
  - apply find_none with (x := kv) in Ec; [|done]. by rewrite Hk, keqb_refl in Ec.
Qed.
End cell.

Lemma ref_space d r : In r (all_refs d) -> exists ksd, shape !! Z.to_nat (cr_keyspace r) = Some ksd /\ is_u8 (cr_keyspace r) /\ ks_desc shape (cr_keyspace r) = Ok ksd.
Proof.
  intros Hin. destruct (refs_from_In d shape 0 r eq_refl Hin) as (j & ksd & -> & Ej & _). exists ksd. rewrite Nat2Z.id. split_and!; [done| |by apply ks_desc_at].
  apply lookup_lt_Some in Ej. unfold is_u8. lia.
Qed.

Lemma ref_next_run d pre r rest : all_refs d = pre ++ r :: rest -> ref_next shape r d = Ok (d, inr (head rest)).
Proof. intros E. unfold ref_next, rlift. by rewrite (ref_next_at d pre r rest E). Qed.

(** *** Index-based relocation *)

Section index_based.
Context (bincode_serialize : WatermarkData -> list Z) (bincode_deserialize : list Z -> option WatermarkData).
(** Keys are their own index keys and no filter stops the run. *)
Context (plain_keys : forall i ksd k, shape !! i = Some ksd -> reduce_key blake2b256 (ks_key_indexing ksd) k = Ok k).
Context (no_stop : forall ks f k v, relocation_filter ks = Some f -> f k v <> StopRelocation).
Context (Hdrop : forall ks, ~ droppable ks).

Lemma process_entries_ok ks c ksd entries : shape !! Z.to_nat ks = Some ksd -> is_u8 ks ->
  forall d ctx copies, scanning ks c ksd d entries copies -> batch_holds (cp_batch ctx) ks c limit copies ->
  exists d' ctx' copies', process_entries hash relocation_filter ks limit entries ctx d = Ok (d', inr ctx') /\ quiet d d' /\
    batch_holds (cp_batch ctx') ks c limit copies' /\ scanning ks c ksd d' [] copies'.
Proof.
  intros Hks Hu8. induction entries as [|[ik q] entries IH]; intros d ctx copies Hs Hb.
  { exists d, ctx, copies. split_and!; [done|apply quiet_refl|done|done]. }
  cbn [process_entries]. destruct (Z.leb_spec limit (wp_offset q)) as [Hle|Hlt]; [apply IH with (copies := copies); [|done]; eapply scanning_skip; [done|by left]|].
  destruct (sc_entries _ _ _ _ _ _ Hs ik q (or_introl eq_refl)) as [Hst _].
  destruct (rs_read hash blake2b256 shape view d ks q ik Hst) as (d1 & E1 & Hq1). unfold mbind, RM_bind at 1. rewrite E1.
  pose proof (proj2 (gr_stored _ _ _ (qt_grows _ _ _ Hq1) ks q ik Hst)) as Hrec.
  assert (forall ctx' copies', scanning ks c ksd d entries copies' -> batch_holds (cp_batch ctx') ks c limit copies' ->
    exists d' ctx'' copies'', process_entries hash relocation_filter ks limit entries ctx' d1 = Ok (d', inr ctx'') /\ quiet d d' /\
      batch_holds (cp_batch ctx'') ks c limit copies'' /\ scanning ks c ksd d' [] copies'') as Hgo.
  { intros ctx' copies' Hs' Hb'. destruct (IH d1 ctx' copies') as (d' & c'' & cs'' & E & Hq & ? & ?); [by apply (scanning_advances _ _ _ (Hdrop ks) d d1); [apply quiet_advances|]|done|].
    exists d', c'', cs''. split_and!; [done|by eapply quiet_trans|done|done]. }
  destruct (record d ks q ik) as [[k v]|] eqn:Er.
  2: { apply (Hgo _ copies); [|done]. eapply scanning_skip; [done|]. right. by left. }
  destruct (rs_keyed hash blake2b256 shape view d ks ksd q ik k v Hst Er Hks) as [Hred Hlen].
  assert (k = ik) as -> by (rewrite (plain_keys _ _ k Hks) in Hred; congruence).
  assert (exists ctx', add_entry_to_relocate hash ctx ik v q = Ok ctx' /\ batch_holds (cp_batch ctx') ks c limit (copies ++ [(ik, v)])) as (ctx' & Ea & Hb').
  { unfold add_entry_to_relocate. destruct (batch_write (cp_batch ctx) ks c limit copies ik v Hb Hu8 Hlen) as (b' & Ew & Hb'). rewrite Ew. eexists. split; [reflexivity|done]. }
  pose proof (scanning_copy ks c ksd d ik q ik v entries copies Hs Er Hred) as Hcp.
  destruct (relocation_filter ks) as [f|] eqn:Ef; [destruct (f ik v) eqn:Ed|].
  - unfold rlift. rewrite Ea. by apply (Hgo ctx' (copies ++ [(ik, v)])).
  - apply (Hgo _ copies); [|done]. eapply scanning_skip; [done|]. right. right. by exists f, ik, v.
  - by destruct (no_stop ks f ik v Ef).
  - unfold rlift. rewrite Ea. by apply (Hgo ctx' (copies ++ [(ik, v)])).
Qed.

Lemma index_cell_ok d pre r rest highest : all_refs d = pre ++ r :: rest -> limit <= rd_last_processed d ->
  exists d' h, index_cell hash blake2b256 shape relocation_filter limit r highest d = Ok (d', inr (h, head rest)) /\ advances d d' /\
    cleared d' (cr_keyspace r) (cr_cell_id r).
Proof.
  intros Hr Hlim. destruct (ref_space d r) as (ksd & Hks & Hu8 & _); [rewrite Hr; apply in_app_iff; right; by left|].
  set (ks := cr_keyspace r) in *. set (c := cr_cell_id r) in *.
  destruct (rs_view hash blake2b256 shape view d ks c limit Hlim) as (d1 & o & E1 & Hq1 & Hv).
  assert (limit <= dv_fresh (view d)) as Hfr by (destruct (rs_frontier hash blake2b256 shape view d) as [_ [_ ?]]; lia).
  pose proof (scanning_advances ks c ksd (Hdrop ks) d d1 _ _ (quiet_advances _ _ Hq1) (scanning_start ks c ksd d limit _ Hv ltac:(lia) Hfr)) as Hs1.
  set (ctx := processing_new (relocated_new ks c limit)).
  destruct (process_entries_ok ks c ksd (default [] o) Hks Hu8 d1 ctx [] Hs1 (batch_new ks c limit)) as (d2 & ctx2 & copies & E2 & Hq2 & Hb2 & Hs2).
  assert (process_single_cell hash relocation_filter r limit d = Ok (d2, inr ctx2)) as Ep.
  { unfold process_single_cell. fold ks c. fold ctx. unfold mbind, RM_bind. rewrite E1. destruct o as [entries|]; [exact E2|]. cbn in E2. exact E2. }
  assert (advances d d2) as Ha2 by (apply quiet_advances; by eapply quiet_trans).
  destruct (scanning_write ks c ksd Hks (Hdrop ks) d2 (cp_batch ctx2) [] copies Hb2 Hs2) as (d3 & E3 & Ha3 & Hs3).
  unfold index_cell. unfold mbind, RM_bind at 1. rewrite Ep.
  assert (forall A (k : unit -> RM D A), (if relocated_is_empty (cp_batch ctx2) then mret tt else write_relocated_batch blake2b256 shape (cp_batch ctx2)) ≫= k = fun d => (write_relocated_batch blake2b256 shape (cp_batch ctx2) ≫= k) d) as Hif.
  { intros A k. destruct (relocated_is_empty (cp_batch ctx2)) eqn:Ee; [|done]. unfold write_relocated_batch. by rewrite Ee. }
  exists d3. eexists. split.
  - cbv zeta. change (RM_bind _ _ ?f ?m) with (mbind f m) in * . rewrite Hif. unfold mbind, RM_bind. rewrite E3.
    rewrite (ref_next_run d3 pre r rest); [done|]. unfold all_refs. rewrite (refs_from_grows d d3); [done|]. apply (ad_grows _ _ (advances_trans _ _ _ Ha2 Ha3)).
  - split; [by eapply advances_trans|]. by apply scanning_cleared with (ksd := ksd).
Qed.

Lemma cancel_loop_ok queue d : ~ In CommandCancel queue -> exists d', cancel_loop queue false d = Ok (d', inr (false, [])) /\ quiet d d'.
Proof.
  revert d. induction queue as [|x queue IH]; intros d Hn; [exists d; split; [done|apply quiet_refl]|]. cbn [cancel_loop].
  assert (~ In CommandCancel queue) as Hn' by (intros ?; apply Hn; by right). destruct x as [st| |st].
  - by apply IH.
  - destruct Hn. by left.
  - destruct (rs_ack hash blake2b256 shape view d) as (d1 & E1 & Hq1). unfold mbind, RM_bind. rewrite E1. destruct (IH d1 Hn') as (d2 & E2 & Hq2).
    exists d2. split; [done|by eapply quiet_trans].
Qed.

Lemma should_cancel_ok queue d : dv_calm (view d) -> ~ In CommandCancel queue -> exists d', should_cancel_relocation queue d = Ok (d', inr (false, [])) /\ quiet d d'.
Proof.
  intros Hcalm Hn. unfold should_cancel_relocation. destruct (rs_arrivals hash blake2b256 shape view d) as (d1 & arrived & disc & E1 & Hq1 & Hno). unfold mbind, RM_bind. rewrite E1.
  destruct (Hno Hcalm) as [-> Ha]. destruct (cancel_loop_ok (queue ++ arrived) d1) as (d2 & E2 & Hq2); [by intros [?|?]%in_app_iff|].
  exists d2. split; [done|by eapply quiet_trans].
Qed.

Lemma index_poll_ok upper target r processed highest queue d : dv_calm (view d) -> ~ In CommandCancel queue ->
  exists d' queue', index_poll bincode_serialize upper target r processed highest queue d = Ok (d', inr (false, queue')) /\ quiet d d' /\ ~ In CommandCancel queue'.
Proof.
  intros Hcalm Hn. unfold index_poll. destruct (_ =? 0); [|exists d, queue; split_and!; [done|apply quiet_refl|done]].
  destruct (should_cancel_ok queue d Hcalm Hn) as (d1 & E1 & Hq1). unfold mbind, RM_bind. rewrite E1.
  destruct (_ =? 0).
  - unfold save_progress, watermark_save. unfold mbind, RM_bind.
    destruct (rs_save hash blake2b256 shape view d1 (bincode_serialize (mkWatermark (Some r) highest upper target))) as (d2 & E2 & Hq2). rewrite E2.
    exists d2, []. split_and!; [done|by eapply quiet_trans|by intros []].
  - exists d1, []. split_and!; [done|done|by intros []].
Qed.

Lemma index_loop_ok upper target fuel rest : forall d pre processed highest queue,
  all_refs d = pre ++ rest -> (length rest < fuel)%nat -> limit <= rd_last_processed d -> dv_calm (view d) -> ~ In CommandCancel queue ->
  exists d' h queue', index_loop hash blake2b256 bincode_serialize shape relocation_filter fuel upper limit target (head rest) processed highest queue d =
    Ok (d', inr (None, h, queue')) /\ advances d d' /\ forall r, In r rest -> cleared d' (cr_keyspace r) (cr_cell_id r).
Proof.
  revert fuel. induction rest as [|r rest IH]; intros fuel d pre processed highest queue Hr Hf Hl Hcalm Hn; (destruct fuel as [|fuel]; [cbn in Hf; lia|]); cbn [index_loop head].
  { exists d, highest, queue. split_and!; [done|apply quiet_advances, quiet_refl|done]. }
  destruct (index_poll_ok upper target r processed highest queue d Hcalm Hn) as (d1 & queue1 & E1 & Hq1 & Hn1). unfold mbind, RM_bind. rewrite E1.
  assert (all_refs d1 = pre ++ r :: rest) as Hr1 by (unfold all_refs; rewrite (refs_from_grows d d1) by apply Hq1; exact Hr).
  pose proof (gr_frontier _ _ _ (qt_grows _ _ _ Hq1)) as Hf1.
  destruct (index_cell_ok d1 pre r rest highest Hr1 ltac:(lia)) as (d2 & h & E2 & Ha2 & Hc2). rewrite E2.
  pose proof (gr_frontier _ _ _ (ad_grows _ _ Ha2)) as Hf2. cbn [length] in Hf.
  destruct (IH fuel d2 (pre ++ [r]) (processed + 1) h queue1) as (d3 & h3 & queue3 & E3 & Ha3 & Hc3); [|lia|lia|by apply (gr_calm _ _ _ (ad_grows _ _ Ha2)), (gr_calm _ _ _ (qt_grows _ _ _ Hq1))|done|].
  { unfold all_refs. rewrite (refs_from_grows d1 d2) by apply Ha2. fold (all_refs d1). by rewrite Hr1, <- app_assoc. }
  exists d3, h3, queue3. split_and!; [done| |].
  - eapply advances_trans; [by apply quiet_advances|]. by eapply advances_trans.
  - intros r' [<-|Hin]; [|by apply Hc3]. apply (cleared_advances d2 d3); [done| |apply Hdrop|done].
    destruct (rs_frontier hash blake2b256 shape view d2) as [_ [_ ?]]. lia.
Qed.
End index_based.

(** *** Log-based relocation *)

Section wal_based.
Context (cfg : RelocationConfig) (Hdrop : forall ks, droppable ks <-> exists f, relocation_filter ks = Some f).

Lemma copy_entries_ok ks c ksd entries : shape !! Z.to_nat ks = Some ksd -> is_u8 ks -> ~ droppable ks ->
  forall d b copies, scanning ks c ksd d entries copies -> batch_holds b ks c limit copies ->
  exists d' b' copies', copy_entries hash blake2b256 shape cfg (mkCellRef ks c) limit entries b d = Ok (d', inr b') /\ advances d d' /\
    batch_holds b' ks c limit copies' /\ scanning ks c ksd d' [] copies'.
Proof.
  intros Hks Hu8 Hkeep. induction entries as [|[ik q] entries IH]; intros d b copies Hs Hb.
  { exists d, b, copies. split_and!; [done|apply quiet_advances, quiet_refl|done|done]. }
  cbn [copy_entries cr_keyspace cr_cell_id]. destruct (Z.ltb_spec (wp_offset q) limit) as [Hlt|Hle].
  2: { apply IH with (copies := copies); [|done]. eapply scanning_skip; [done|by left]. }
  destruct (sc_entries _ _ _ _ _ _ Hs ik q (or_introl eq_refl)) as [Hst _].
  destruct (rs_read hash blake2b256 shape view d ks q ik Hst) as (d1 & E1 & Hq1). unfold mbind, RM_bind. rewrite E1.
  pose proof (quiet_advances _ _ Hq1) as Ha1.
  assert (forall d2 b' copies', advances d d2 -> scanning ks c ksd d2 entries copies' -> batch_holds b' ks c limit copies' ->
    exists d' b'' copies'', copy_entries hash blake2b256 shape cfg (mkCellRef ks c) limit entries b' d2 = Ok (d', inr b'') /\ advances d d' /\
      batch_holds b'' ks c limit copies'' /\ scanning ks c ksd d' [] copies'') as Hgo.
  { intros d2 b' copies' Ha Hs' Hb'. destruct (IH d2 b' copies' Hs' Hb') as (d' & b'' & cs & E & Ha' & ? & ?).
    exists d', b'', cs. split_and!; [done|by eapply advances_trans|done|done]. }
  destruct (record d ks q ik) as [[k v]|] eqn:Er.
  2: { apply (Hgo d1 b copies); [done| |done]. apply (scanning_advances ks c ksd Hkeep d d1); [done|]. eapply scanning_skip; [done|]. right. by left. }
  destruct (rs_keyed hash blake2b256 shape view d ks ksd q ik k v Hst Er Hks) as [Hred Hlen].
  destruct (batch_write b ks c limit copies k v Hb Hu8 Hlen) as (b1 & Ew & Hb1). unfold rlift. rewrite Ew.
  pose proof (scanning_advances ks c ksd Hkeep d d1 _ _ Ha1 (scanning_copy ks c ksd d ik q k v entries copies Hs Er Hred)) as Hs1.
  destruct (rc_batch_max_bytes cfg <=? rb_size_bytes b1)%nat; [|by apply (Hgo d1 b1 (copies ++ [(k, v)]))].
  destruct (scanning_write ks c ksd Hks Hkeep d1 b1 entries _ Hb1 Hs1) as (d2 & E2 & Ha2 & Hs2). rewrite E2.
  apply (Hgo d2 _ []); [by eapply advances_trans|done|apply batch_new].
Qed.

(** The entries below the limit are below the frontier the views are taken at. *)
Definition below_frontier (lp : Z) (d : D) : Prop :=
  forall ks c ik p, ~ droppable ks -> index d ks c ik = Some p -> wp_offset p < limit -> wp_offset p < lp.

Lemma below_frontier_advances lp d d' : advances d d' -> limit <= dv_fresh (view d) -> below_frontier lp d -> below_frontier lp d'.
Proof. intros Ha Hl Hb ks c ik p Hd E Hlt. destruct (advances_below d d' ks c ik p Ha Hl Hd E Hlt) as (E0 & _ & _). by apply (Hb ks c ik p). Qed.

Lemma cutoff_cell d ks c : droppable ks -> exists d', rd_flush ks c (RelocationCutoff cutoff) d = Ok (d', inr tt) /\ advances d d'.
Proof.
  intros Hd. destruct (rs_cutoff hash blake2b256 shape view d ks c cutoff) as (d' & E & Hg & Hi). exists d'. split; [done|].
  split; [done| | |]; intros ks' c' ik.
  - intros p Hl Hn E0 Hp. destruct (Hi ks' c' ik) as [?|[?|(-> & _)]]; [by apply (same_below d d'); auto..|done].
  - intros E0. destruct (Hi ks' c' ik) as [->|[[? _]|(-> & -> & _ & ?)]]; auto.
  - intros p E0. destruct (Hi ks' c' ik) as [Hs|[Hs|(-> & -> & Ho & ?)]]; [| |right; left; auto];
      (destruct (same_some d d' ks' c' ik p Hg E0) as [?|(p' & ? & ? & ?)]; [auto|by left|]; right; right; exists p'; auto).
Qed.

Lemma wal_cell_ok d r lp : In r (all_refs d) -> lp <= rd_last_processed d -> limit <= dv_fresh (view d) -> below_frontier lp d ->
  exists d', wal_cell hash blake2b256 shape relocation_filter cfg lp limit cutoff r d = Ok (d', inr tt) /\ advances d d' /\
    (~ droppable (cr_keyspace r) -> cleared d' (cr_keyspace r) (cr_cell_id r)).
Proof.
  intros Hin Hlp Hfr Hbf. destruct (ref_space d r Hin) as (ksd & Hks & Hu8 & _). unfold wal_cell. destruct r as [ks c]. cbn [cr_keyspace cr_cell_id] in *.
  destruct (relocation_filter ks) as [f|] eqn:Ef.
  { assert (droppable ks) as Hd by (apply Hdrop; by exists f). destruct (cutoff_cell d ks c Hd) as (d' & E & Ha). by exists d'. }
  assert (~ droppable ks) as Hkeep by (rewrite Hdrop; intros [f ?]; congruence).
  destruct (rs_view hash blake2b256 shape view d ks c lp Hlp) as (d1 & o & E1 & Hq1 & [V1 V2 V3]). unfold mbind, RM_bind. rewrite E1.
  pose proof (quiet_advances _ _ Hq1) as Ha1.
  assert (scanning ks c ksd d1 (default [] o) []) as Hs1.
  { apply (scanning_advances ks c ksd Hkeep d d1); [done|]. split; [|done| |done].
    - intros ik q Hq. split; [by apply V3|]. intros p E Hlt. by apply (V2 ik p q Hq E), (Hbf ks c ik p).
    - intros ik p E Hlt. right; right. by apply V1, (Hbf ks c ik p). }
  destruct o as [entries|]; [|exists d1; split_and!; [done|done|intros _; by apply scanning_cleared with (ksd := ksd)]]. cbn [default] in Hs1.
  destruct (copy_entries_ok ks c ksd entries Hks Hu8 Hkeep d1 _ [] Hs1 (batch_new ks c limit)) as (d2 & b & copies & E2 & Ha2 & Hb & Hs2). rewrite E2.
  destruct (scanning_write ks c ksd Hks Hkeep d2 b [] copies Hb Hs2) as (d3 & E3 & Ha3 & Hs3). exists d3. split_and!.
  - destruct (relocated_is_empty b) eqn:Ee; [|done]. unfold write_relocated_batch in E3. rewrite Ee in E3. exact E3.
  - eapply advances_trans; [done|]. by eapply advances_trans.
  - intros _. by apply scanning_cleared with (ksd := ksd).
Qed.

Lemma wal_loop_ok lp fuel rest : forall d pre, all_refs d = pre ++ rest -> (length rest < fuel)%nat -> lp <= rd_last_processed d -> limit <= dv_fresh (view d) ->
  below_frontier lp d ->
  exists d', wal_loop hash blake2b256 shape relocation_filter fuel cfg lp limit cutoff (head rest) d = Ok (d', inr tt) /\ advances d d' /\
    forall r, In r rest -> ~ droppable (cr_keyspace r) -> cleared d' (cr_keyspace r) (cr_cell_id r).
Proof.
  revert fuel. induction rest as [|r rest IH]; intros fuel d pre Hr Hf Hl Hfr Hbf; (destruct fuel as [|fuel]; [cbn in Hf; lia|]); cbn [wal_loop head].
  { exists d. split_and!; [done|apply quiet_advances, quiet_refl|done]. }
  assert (In r (all_refs d)) as Hin by (rewrite Hr; apply in_app_iff; right; by left).
  destruct (ref_space d r Hin) as (ksd & _ & _ & Hdesc). unfold mbind, RM_bind. rewrite (ref_next_run d pre r rest Hr). unfold rlift. rewrite Hdesc.
  destruct (wal_cell_ok d r lp Hin Hl Hfr Hbf) as (d1 & E1 & Ha1 & Hc1). rewrite E1.
  pose proof (gr_frontier _ _ _ (ad_grows _ _ Ha1)). pose proof (gr_fresh _ _ _ (ad_grows _ _ Ha1)). cbn [length] in Hf.
  destruct (IH fuel d1 (pre ++ [r])) as (d2 & E2 & Ha2 & Hc2); [|lia|lia|lia|by apply (below_frontier_advances lp d d1)|].
  { unfold all_refs. rewrite (refs_from_grows d d1) by apply Ha1. fold (all_refs d). by rewrite Hr, <- app_assoc. }
  exists d2. split_and!; [done|by eapply advances_trans|]. intros r' [<-|Hr'] Hn; [|by apply Hc2]. apply (cleared_advances d1 d2); [done|lia|done|auto].
Qed.
End wal_based.
End run.
End facts.
