(* ===== verification/RelocationDemo.v ===== *)
(** * A database for relocation in miniature

    A model of [RelocationDb] with one key space: the log is a list of frames and
    a position is the number of a frame, the last of which is still
    unprocessed; the index maps keys of cells to frames, and a deeper level may
    hold an older frame of a key; commands and writes of clients arrive as
    scripted.  It satisfies [RelocationSpec], and the runs in
    [RelocationCorrect] are evaluated on it. *)

From Stdlib Require Import ZArith Lia List Sorting.Sorted.
From stdpp Require Import base tactics list gmap strings.
From S2P Require Import Prelude BTree Bytes Position Cell Layout KeyShape WalEntry Allocator Tracker IndexTable IndexOps Levels Loader Flusher.
From S2P Require Import FlushRelocation Crc WalFiles Wal Pending Batch Relocation RelocationFacts.

Local Open Scope Z_scope.

(** What a client does: write a frame for a key, or remove the key. *)
Inductive ClientOp :=
| ClientPut (c : CellId) (ik frame : list Z)
| ClientRemove (c : CellId) (ik : list Z).

(** Clients write one by one, each time relocation has looked at a cell. *)
Record MiniDb := mkMini {
  mi_index : gmap (CellId * list Z) nat;
  mi_log : list (list Z);
  mi_file : option (list Z);
  mi_arrivals : list (list RelocationCommand);
  mi_control : Z;
  mi_reclaimed : Z;
  mi_deep : gmap (CellId * list Z) nat;
  mi_clients : list ClientOp;
  mi_touched : list (CellId * list Z);
}.

Definition mini_pos (i : nat) : WalPosition := wp_new (Z.of_nat i) 0.

(** The record of a frame: the payload is behind the checksum header. *)
Definition mini_record (d : MiniDb) (i : nat) : option (list Z * list Z) :=
  match mi_log d !! i with
  | Some frame => match wal_entry_from_bytes (drop CRC_HEADER_LENGTH frame) with Ok (WalRecord _ k v _) => Some (k, v) | _ => None end
  | None => None
  end.

Definition set_index (d : MiniDb) (m : gmap (CellId * list Z) nat) : MiniDb :=
  mkMini m (mi_log d) (mi_file d) (mi_arrivals d) (mi_control d) (mi_reclaimed d) (mi_deep d) (mi_clients d) (mi_touched d).

Definition set_log (d : MiniDb) (m : gmap (CellId * list Z) nat) (log : list (list Z)) : MiniDb :=
  mkMini m log (mi_file d) (mi_arrivals d) (mi_control d) (mi_reclaimed d) (mi_deep d) (mi_clients d) (mi_touched d).

(** Everything beside the index, the log and what clients did. *)
Definition set_rest (d : MiniDb) (file : option (list Z)) (arrivals : list (list RelocationCommand)) (control reclaimed : Z) : MiniDb :=
  mkMini (mi_index d) (mi_log d) file arrivals control reclaimed (mi_deep d) (mi_clients d) (mi_touched d).

(** The entries of the index that point into the log. *)
Definition mini_within (d : MiniDb) : gmap (CellId * list Z) nat :=
  map_imap (fun _ i => if (i <? length (mi_log d))%nat then Some i else None) (mi_index d).

Definition client_key (op : ClientOp) : CellId * list Z := match op with ClientPut c ik _ | ClientRemove c ik => (c, ik) end.

Definition client_frames (op : ClientOp) : list (list Z) := match op with ClientPut _ _ frame => [frame] | ClientRemove _ _ => [] end.

(** The next client. *)
Definition mini_client (d : MiniDb) : MiniDb :=
  match mi_clients d with
  | [] => d
  | op :: rest =>
      mkMini (match op with ClientPut c ik _ => <[(c, ik) := length (mi_log d)]> (mini_within d) | ClientRemove c ik => delete (c, ik) (mini_within d) end)
        (mi_log d ++ client_frames op) (mi_file d) (mi_arrivals d) (mi_control d) (mi_reclaimed d) (mi_deep d) rest (client_key op :: mi_touched d)
  end.

Section mini.
Context (hash : list Z -> Z) (blake2b256 : list Z -> list Z) (ksd : KeySpaceDesc) (cells : nat).
Context (Hcells : (0 < cells)%nat) (Huniform : exists n, ks_key_type ksd = Uniform n) (Hlive : ks_destroyed ksd = false).

Definition mini_cells : list CellId := List.map (fun i => CellInteger (Z.of_nat i)) (seq 0 cells).

Definition mini_in (c : CellId) : bool := match c with CellInteger i => (0 <=? i) && (i <? Z.of_nat cells) | CellBytes _ => false end.

(** The frame holds a record of the index key. *)
Definition mini_holds (d : MiniDb) (i : nat) (ik : list Z) : bool :=
  match mini_record d i with
  | Some (k, _) => match reduce_key blake2b256 (ks_key_indexing ksd) k with Ok r => keqb r ik | _ => false end && (Z.of_nat (length k) <=? u16_max)
  | None => false
  end.

Definition mini_lookup (d : MiniDb) (ks : KeySpace) (c : CellId) (ik : list Z) : option WalPosition :=
  if bool_decide (ks = 0 /\ mini_in c = true) then
    match mi_index d !! (c, ik) with
    | Some i => if mini_holds d i ik then Some (mini_pos i) else None
    | None => None
    end
  else None.

Definition mini_view (d : MiniDb) : DbView := {|
  dv_cells := fun ks => if bool_decide (ks = 0) then mini_cells else [];
  dv_index := mini_lookup d;
  dv_stored := fun ks p ik => ks = 0 /\ exists i, p = mini_pos i /\ mini_holds d i ik = true;
  dv_record := fun ks p ik => mini_record d (Z.to_nat (wp_offset p));
  dv_fresh := Z.of_nat (length (mi_log d));
  dv_touched := fun ks c ik => (c, ik) ∈ mi_touched d;
  dv_calm := Forall (fun l => ~ In CommandCancel l) (mi_arrivals d);
|}.

Definition mini_entries (d : MiniDb) (ks : KeySpace) (c : CellId) : list (list Z * WalPosition) :=
  omap (fun e => if bool_decide (ks = 0 /\ e.1.1 = c /\ mini_in c = true) && mini_holds d e.2 e.1.2 then Some (e.1.2, mini_pos e.2) else None) (map_to_list (mi_index d)).

(** What a deeper level holds of a key, below a cutoff. *)
Definition mini_older (d : MiniDb) (cutoff : Z) (c : CellId) (ik : list Z) : option nat :=
  match mi_deep d !! (c, ik) with
  | Some j => if (Z.of_nat j <? cutoff) && mini_holds d j ik then Some j else None
  | None => None
  end.

Definition mini_flush (ks : KeySpace) (c : CellId) (relocation : RelocationFlush) (d : MiniDb) : MiniDb :=
  if bool_decide (ks = 0) then
    set_index d
      (map_imap (fun key i =>
         if bool_decide (key.1 = c) && mini_holds d i key.2 then
           match relocation with
           | RelocationUpdate u =>
               Some (if Z.of_nat i <? ru_last_processed u then Z.to_nat (wp_offset (default (mini_pos i) (updated_to (ru_updates u) key.2))) else i)
           | RelocationCutoff cutoff => if Z.of_nat i <? cutoff then mini_older d cutoff c key.2 else Some i
           | RelocationNone => Some i
           end
         else Some i) (mi_index d))
  else d.

#[export] Instance mini_db : RelocationDb MiniDb := {|
  rd_next_cell := fun ks c d => Ok (match c with CellInteger i => if Z.succ i <? Z.of_nat cells then Some (CellInteger (Z.succ i)) else None | _ => None end);
  rd_index := fun ks c lp d => Ok (mini_client d, inr (Some (mini_entries d ks c)));
  rd_read := fun ks p ik d => Ok (d, inr (mini_record d (Z.to_nat (wp_offset p))));
  rd_append := fun writes d =>
    Ok (set_log d (mini_within d) (mi_log d ++ writes),
        inr (List.map (fun i => mini_pos (length (mi_log d) + i)) (seq 0 (length writes))));
  rd_flush := fun ks c relocation d => Ok (mini_flush ks c relocation d, inr tt);
  rd_last_processed := fun d => Z.of_nat (Nat.pred (length (mi_log d)));
  rd_min_wal_position := fun _ => 0;
  rd_scan := fun start d =>
    Ok (d, inr (List.filter (fun f => start <=? wp_offset f.1) (imap (fun i frame => (mini_pos i, drop CRC_HEADER_LENGTH frame)) (mi_log d)), EndOfWal));
  rd_control_position := mi_control;
  rd_rebuild_control := fun _ d => Ok (set_rest d (mi_file d) (mi_arrivals d) (Z.of_nat (length (mi_log d))) (mi_reclaimed d), inr tt);
  rd_gc := fun watermark d => Ok (set_rest d (mi_file d) (mi_arrivals d) (mi_control d) watermark, inr tt);
  rd_watermark_file := fun d => Ok (d, inr (mi_file d));
  rd_save_file := fun bytes d => Ok (set_rest d (Some bytes) (mi_arrivals d) (mi_control d) (mi_reclaimed d), inr tt);
  rd_arrivals := fun d =>
    Ok (set_rest d (mi_file d) (List.tl (mi_arrivals d)) (mi_control d) (mi_reclaimed d), inr (List.hd [] (mi_arrivals d), false));
  rd_ack := fun d => Ok (d, inr tt);
|}.

(** ** It keeps its promises *)

Lemma mini_holds_spec d i ik : mini_holds d i ik = true <->
  exists k v, mini_record d i = Some (k, v) /\ reduce_key blake2b256 (ks_key_indexing ksd) k = Ok ik /\ Z.of_nat (length k) <= u16_max.
Proof.
  unfold mini_holds. split.
  - destruct (mini_record d i) as [[k v]|]; [|done]. intros [Hr Hl]%andb_true_iff. exists k, v. split; [done|]. split; [|lia].
    destruct (reduce_key blake2b256 (ks_key_indexing ksd) k) as [r|] eqn:Er; [|done]. destruct (keqb_spec r ik); [congruence|done].
  - intros (k & v & -> & -> & Hl). rewrite keqb_refl. apply Z.leb_le in Hl. by rewrite Hl.
Qed.

Lemma mini_lookup_spec d ks c ik p : mini_lookup d ks c ik = Some p <->
  ks = 0 /\ mini_in c = true /\ exists i, mi_index d !! (c, ik) = Some i /\ p = mini_pos i /\ mini_holds d i ik = true.
Proof.
  unfold mini_lookup. case_bool_decide as Hb; [|split; [done|by intros (? & ? & _); destruct Hb]]. destruct Hb as [-> Hc]. split.
  - destruct (mi_index d !! (c, ik)) as [i|] eqn:Ei; [|done]. destruct (mini_holds d i ik) eqn:Eh; [|done]. intros [= <-]. split_and!; [done|done|]. by exists i.
  - intros (_ & _ & i & -> & -> & ->). done.
Qed.

(** A state that differs only beside the index and the records is quiet. *)
Lemma mini_quiet d file arrivals control reclaimed : arrivals = mi_arrivals d \/ arrivals = List.tl (mi_arrivals d) ->
  quiet mini_view d (set_rest d file arrivals control reclaimed).
Proof.
  intros Ha. split; [split|]; cbn; try done.
  - destruct Ha as [->| ->]; [done|]. destruct (mi_arrivals d); [done|]. by intros [_ ?]%Forall_cons.
  - intros ks c ik. by left.
Qed.

Lemma mini_older_spec d cutoff c ik j : mini_older d cutoff c ik = Some j -> mini_holds d j ik = true /\ Z.of_nat j < cutoff.
Proof.
  unfold mini_older. destruct (mi_deep d !! (c, ik)) as [j'|]; [|done]. destruct (Z.ltb_spec (Z.of_nat j') cutoff); [|done]. cbn.
  destruct (mini_holds d j' ik) eqn:Eh; [|done]. by intros [= <-].
Qed.

(** A flush keeps the log and sends every entry of the cell where it goes. *)
Lemma mini_flush_spec d ks c relocation (go : nat -> list Z -> option nat) :
  (forall i ik, mini_holds d i ik = true ->
     match relocation with
     | RelocationUpdate u => Some (if Z.of_nat i <? ru_last_processed u then Z.to_nat (wp_offset (default (mini_pos i) (updated_to (ru_updates u) ik))) else i)
     | RelocationCutoff cutoff => if Z.of_nat i <? cutoff then mini_older d cutoff c ik else Some i
     | RelocationNone => Some i
     end = go i ik) ->
  (forall i ik j, mini_holds d i ik = true -> go i ik = Some j -> ks = 0 -> mini_holds d j ik = true) ->
  grows mini_view d (mini_flush ks c relocation d) /\
  forall ks' c' ik, mini_lookup (mini_flush ks c relocation d) ks' c' ik =
    if bool_decide (ks' = ks /\ c' = c) then
      match mini_lookup d ks c ik with Some p => option_map mini_pos (go (Z.to_nat (wp_offset p)) ik) | None => None end
    else mini_lookup d ks' c' ik.
Proof.
  intros Hgo Hkeep. set (d' := mini_flush ks c relocation d).
  assert (mi_log d' = mi_log d /\ mi_arrivals d' = mi_arrivals d /\ mi_touched d' = mi_touched d) as (Hl & Harr & Htou) by (unfold d', mini_flush; by case_bool_decide).
  assert (forall i, mini_record d' i = mini_record d i) as Hr by (intros i; unfold mini_record; by rewrite Hl).
  assert (forall i ik, mini_holds d' i ik = mini_holds d i ik) as Hh by (intros i ik; unfold mini_holds; by rewrite Hr).
  split; [split; cbn; rewrite ?Hl, ?Harr, ?Htou; try done; [intros ks' p ik (-> & i & -> & Hs); split; [|apply Hr]; split; [done|]; exists i; by rewrite Hh]|].
  intros ks' c' ik. unfold mini_lookup. destruct (decide (ks = 0)) as [->|Hne].
  2: { assert (d' = d) as -> by (unfold d', mini_flush; by rewrite bool_decide_eq_false_2).
       case_bool_decide as H1; case_bool_decide as H2; try done; destruct H2 as [-> ->]; [by destruct H1|]. rewrite bool_decide_eq_false_2; [done|]. by intros [? _]. }
  assert (mi_index d' !! (c', ik) = match mi_index d !! (c', ik) with
    | Some i => if bool_decide (c' = c) && mini_holds d i ik then go i ik else Some i | None => None end) as Hlk.
  { unfold d', mini_flush. rewrite bool_decide_eq_true_2 by done. cbn [set_index mi_index]. rewrite map_lookup_imap.
    destruct (mi_index d !! (c', ik)) as [i|]; [|done]. cbn. case_bool_decide; [|done]. cbn. destruct (mini_holds d i ik) eqn:Eh; [|done]. by rewrite <- Hgo. }
  rewrite Hlk. destruct (decide (ks' = 0 /\ mini_in c' = true)) as [Hin|Hout].
  2: { rewrite (bool_decide_eq_false_2 (ks' = 0 /\ mini_in c' = true)) by done.
       destruct (decide (ks' = 0 /\ c' = c)) as [[-> ->]|Hx]; [|by rewrite (bool_decide_eq_false_2 (ks' = 0 /\ c' = c))].
       rewrite (bool_decide_eq_true_2 (0 = 0 /\ c = c)) by done. by rewrite bool_decide_eq_false_2. }
  rewrite (bool_decide_eq_true_2 (ks' = 0 /\ mini_in c' = true)) by done.
  destruct Hin as [-> Hin]. destruct (decide (c' = c)) as [->|Hc].
  - rewrite !bool_decide_eq_true_2 by done. destruct (mi_index d !! (c, ik)) as [i|]; [|done]. cbn [andb].
    destruct (mini_holds d i ik) eqn:Eh; [|by rewrite Hh, Eh]. cbn [mini_pos wp_new wp_offset]. rewrite Nat2Z.id.
    destruct (go i ik) as [j|] eqn:Eg; [|done]. cbn. by rewrite Hh, (Hkeep i ik j Eh Eg eq_refl).
  - rewrite (bool_decide_eq_false_2 (c' = c)), (bool_decide_eq_false_2 (0 = 0 /\ c' = c)) by tauto. cbn [andb]. destruct (mi_index d !! (c', ik)) as [i|]; [|done]. by rewrite Hh.
Qed.

Lemma mini_cells_at i c : mini_cells !! i = Some c -> c = CellInteger (Z.of_nat i) /\ (i < cells)%nat.
Proof.
  unfold mini_cells. rewrite list_lookup_fmap. destruct (seq 0 cells !! i) as [j|] eqn:E; [|done]. apply lookup_seq in E as [-> ?]. by intros [= <-].
Qed.

Lemma mini_in_cells c : mini_in c = true -> c ∈ mini_cells.
Proof.
  destruct c as [i|]; [|done]. cbn. intros H. apply list_elem_of_In, in_map_iff. exists (Z.to_nat i). split; [f_equal; lia|]. apply in_seq. lia.
Qed.

Lemma mini_entries_In d ks c ik p : In (ik, p) (mini_entries d ks c) <-> mini_lookup d ks c ik = Some p.
Proof.
  rewrite mini_lookup_spec. unfold mini_entries. rewrite <- list_elem_of_In, list_elem_of_omap. split.
  - intros ([[c' ik'] i] & Hin & E). cbn [fst snd] in E. apply elem_of_map_to_list in Hin. case_bool_decide as Hb; [|done]. destruct Hb as (-> & -> & Hc). cbn [andb] in E.
    destruct (mini_holds d i ik') eqn:Eh; [|done]. injection E as -> <-. split_and!; [done|done|]. by exists i.
  - intros (-> & Hc & i & Ei & -> & Hh). exists ((c, ik), i). split; [by apply elem_of_map_to_list|]. cbn [fst snd]. rewrite bool_decide_eq_true_2 by done. by rewrite Hh.
Qed.

Lemma mini_record_app d d' ws i r : mi_log d' = mi_log d ++ ws -> mini_record d i = Some r -> mini_record d' i = Some r.
Proof.
  unfold mini_record. intros ->. destruct (mi_log d !! i) as [w|] eqn:E; [|done]. by rewrite (lookup_app_l_Some _ _ _ _ E).
Qed.

Lemma mini_frame e w : prepared_write hash e = Ok w -> wal_entry_ok e -> wal_entry_from_bytes (drop CRC_HEADER_LENGTH w) = Ok e.
Proof.
  intros Hw Hok. destruct (wal_entry_encodes e Hok) as (enc & Henc & _ & Hdec). unfold prepared_write in Hw. rewrite Henc in Hw. injection Hw as <-.
  rewrite crc_frame_bytes. cbn [app]. rewrite app_assoc, drop_app_length'; [done|]. by rewrite length_app, !length_be_bytes.
Qed.

(** A log that goes on keeps what it holds, and the entries that pointed into it. *)
Lemma mini_extends d d' ws : mi_log d' = mi_log d ++ ws ->
  (forall i r, mini_record d i = Some r -> mini_record d' i = Some r) /\ (forall i ik, mini_holds d i ik = true -> mini_holds d' i ik = true) /\
  forall c ik, mi_index d' !! (c, ik) = mini_within d !! (c, ik) -> forall ks, mini_lookup d' ks c ik = mini_lookup d ks c ik.
Proof.
  intros Hl. assert (forall i ik, mini_holds d i ik = true -> mini_holds d' i ik = true) as Hh.
  { intros i ik. rewrite !mini_holds_spec. intros (k & v & Hr & ?). exists k, v. split; [by apply (mini_record_app d d' ws)|done]. }
  split; [intros i r; by apply (mini_record_app d d' ws)|]. split; [done|]. intros c ik Hi ks. unfold mini_lookup. case_bool_decide; [|done].
  rewrite Hi. unfold mini_within. rewrite map_lookup_imap. destruct (mi_index d !! (c, ik)) as [i|]; [|done]. cbn [mbind option_bind].
  destruct (Nat.ltb_spec i (length (mi_log d))) as [Hlt|Hge].
  - destruct (mini_holds d i ik) eqn:Eh; [by rewrite (Hh _ _ Eh)|]. destruct (mini_holds d' i ik) eqn:Eh'; [|done]. exfalso.
    assert (mini_record d' i = mini_record d i) as Er by (unfold mini_record; rewrite Hl; by rewrite lookup_app_l). unfold mini_holds in Eh, Eh'. rewrite Er in Eh'. congruence.
  - assert (mini_holds d i ik = false) as ->; [|done]. unfold mini_holds, mini_record. by rewrite (proj2 (lookup_ge_None _ _)).
Qed.

Lemma mini_grows d d' ws : mi_log d' = mi_log d ++ ws -> mi_arrivals d' = mi_arrivals d -> (forall x, x ∈ mi_touched d -> x ∈ mi_touched d') -> grows mini_view d d'.
Proof.
  intros Hl Ha Ht. destruct (mini_extends d d' ws Hl) as (Hr & Hh & _). split; cbn; rewrite ?Hl, ?Ha, ?length_app; try done; [lia|lia|auto|].
  intros ks p ik (-> & i & -> & Hs). split; [split; [done|]; exists i; auto|]. apply mini_holds_spec in Hs as (k & v & Hk & _).
  cbn [mini_pos wp_new wp_offset]. rewrite Nat2Z.id, Hk. auto.
Qed.

Lemma mini_client_quiet d : quiet mini_view d (mini_client d).
Proof.
  unfold mini_client. destruct (mi_clients d) as [|op rest]; [apply quiet_refl|]. set (d' := mkMini _ _ _ _ _ _ _ _ _).
  destruct (mini_extends d d' (client_frames op) eq_refl) as (_ & _ & Hlk).
  split; [apply (mini_grows d d' (client_frames op)); try done; intros x; by right|]. intros ks c ik.
  destruct (decide (client_key op = (c, ik))) as [E|Hne]; [right|left]; cbn [mini_view dv_index].
  - split; [cbn; rewrite E; by left|]. cbn. intros q (_ & _ & i & Hi & -> & _)%mini_lookup_spec. cbn [d' mi_index] in Hi.
    destruct op as [c0 ik0 fr|c0 ik0]; cbn in E; injection E as -> ->.
    + rewrite lookup_insert_eq in Hi. by injection Hi as <-.
    + by rewrite lookup_delete_eq in Hi.
  - apply Hlk. cbn [d' mi_index]. destruct op as [c0 ik0 fr|c0 ik0]; cbn in Hne; [by rewrite lookup_insert_ne|by rewrite lookup_delete_ne].
Qed.

Lemma mini_append d ws :
  let d' := set_log d (mini_within d) (mi_log d ++ ws) in
  quiet mini_view d d' /\
  forall i w ks k v ik, ws !! i = Some w -> prepared_write hash (WalRecord ks k v true) = Ok w -> wal_entry_ok (WalRecord ks k v true) ->
    reduce_key blake2b256 (ks_key_indexing ksd) k = Ok ik ->
    mini_record d' (length (mi_log d) + i) = Some (k, v) /\ mini_holds d' (length (mi_log d) + i) ik = true.
Proof.
  cbv zeta. set (d' := set_log _ _ _). assert (mi_log d' = mi_log d ++ ws) as Hl by done.
  destruct (mini_extends d d' ws Hl) as (Hrec & Hh & Hlk). split.
  - split; [by apply (mini_grows d d' ws)|]. intros ks c ik. left. by apply Hlk.
  - intros i w ks k v ik Hw Hp Hok Hred. assert (mini_record d' (length (mi_log d) + i) = Some (k, v)) as Hr.
    { unfold mini_record. rewrite Hl, lookup_app_r by lia. replace (length (mi_log d) + i - length (mi_log d))%nat with i by lia. rewrite Hw.
      by rewrite (mini_frame _ _ Hp Hok). }
    split; [done|]. apply mini_holds_spec. exists k, v. split_and!; [done|done|]. by destruct Hok.
Qed.

Lemma mini_view_ok d ks c lp : view_ok mini_view d ks c lp (mini_entries d ks c).
Proof.
  split.
  - intros ik p E _. by apply mini_entries_In.
  - intros ik p q Hq E _. apply mini_entries_In in Hq. cbn in E. congruence.
  - intros ik p (-> & _ & i & _ & -> & Hh)%mini_entries_In%mini_lookup_spec. split; [done|]. by exists i.
Qed.

Lemma mini_frames_sorted d : StronglySorted (fun f g : WalPosition * list Z => wp_offset f.1 < wp_offset g.1)
  (imap (fun i frame => (mini_pos i, drop CRC_HEADER_LENGTH frame)) (mi_log d)).
Proof.
  assert (forall (l : list (list Z)) n, StronglySorted (fun f g : WalPosition * list Z => wp_offset f.1 < wp_offset g.1)
    (imap (fun i frame => (mini_pos (n + i), drop CRC_HEADER_LENGTH frame)) l)) as Hall; [|apply (Hall (mi_log d) 0%nat)].
  induction l as [|w l IH]; intros n; [constructor|]. cbn [imap]. constructor.
  - erewrite imap_ext; [apply (IH (S n))|]. intros i x _. cbn. by rewrite Nat.add_succ_r.
  - apply List.Forall_forall. intros [p t] Hin. apply list_elem_of_In, list_elem_of_lookup in Hin as [j Hj]. rewrite list_lookup_imap in Hj.
    destruct (l !! j); [|done]. injection Hj as <- <-. cbn. lia.
Qed.

Lemma mini_frame_at d p t : In (p, t) (imap (fun i frame => (mini_pos i, drop CRC_HEADER_LENGTH frame)) (mi_log d)) <->
  exists i w, mi_log d !! i = Some w /\ p = mini_pos i /\ t = drop CRC_HEADER_LENGTH w.
Proof.
  rewrite <- list_elem_of_In, list_elem_of_lookup. setoid_rewrite list_lookup_imap. split.
  - intros [i Hi]. destruct (mi_log d !! i) as [w|] eqn:E; [|done]. injection Hi as <- <-. by exists i, w.
  - intros (i & w & E & -> & ->). exists i. by rewrite E.
Qed.

Lemma sorted_filter {A} (R : A -> A -> Prop) f l : StronglySorted R l -> StronglySorted R (List.filter f l).
Proof.
  induction 1 as [|x l Hs IH Hf]; cbn; [constructor|]. destruct (f x); [|done]. constructor; [done|]. rewrite List.Forall_forall in *.
  intros y [Hy _]%filter_In. by apply Hf.
Qed.

Lemma mini_scan d start : exists frames, rd_scan start d = Ok (d, inr (frames, EndOfWal)) /\
  StronglySorted (fun f g => wp_offset f.1 < wp_offset g.1) frames /\
  (forall pos t, In (pos, t) frames -> 0 <= wp_offset pos <= Z.of_nat (length (mi_log d))) /\
  forall ks c ik q, mini_lookup d ks c ik = Some q -> start <= wp_offset q -> exists pos' t', In (pos', t') frames /\ wp_offset pos' = wp_offset q.
Proof.
  eexists. split; [reflexivity|]. split_and!.
  - apply sorted_filter, mini_frames_sorted.
  - intros pos t [(i & w & E & -> & _)%mini_frame_at _]%filter_In. apply lookup_lt_Some in E. cbn. lia.
  - intros ks c ik q (-> & _ & i & _ & -> & (k & v & Hr & _)%mini_holds_spec)%mini_lookup_spec Hle. unfold mini_record in Hr.
    destruct (mi_log d !! i) as [w|] eqn:E; [|done]. exists (mini_pos i), (drop CRC_HEADER_LENGTH w). split; [|done]. apply filter_In. split; [apply mini_frame_at; by exists i, w|].
    by apply Z.leb_le.
Qed.

#[export] Instance mini_spec : RelocationSpec hash blake2b256 [ksd] mini_view.
Proof.
  split.
  - intros d. cbn. lia.
  - intros d [|i] k E Hd; [|done]. injection E as <-. cbn. destruct Huniform as [n Hn]. unfold first_cell. rewrite Hn. unfold mini_cells. destruct cells; [lia|done].
  - intros d ks i c E. cbn in E |- *. case_bool_decide as Hk; [|done]. apply mini_cells_at in E as [-> Hi]. destruct (Z.ltb_spec (Z.succ (Z.of_nat i)) (Z.of_nat cells)).
    + unfold mini_cells. rewrite list_lookup_fmap. rewrite (lookup_seq_lt 0 cells (S i)) by lia. cbn. do 3 f_equal. lia.
    + rewrite (proj2 (lookup_ge_None mini_cells (S i))); [done|]. unfold mini_cells. rewrite length_map, length_seq. lia.
  - intros d ks c ik p (-> & Hc & i & _ & -> & Hh)%mini_lookup_spec. cbn. split; [split; [done|by exists i]|]. split; [by apply mini_in_cells|]. by exists 0%nat, ksd.
  - intros d ks k0 p ik k v (-> & i & -> & (k' & v' & Hr & Hred & Hl)%mini_holds_spec) E Hs. cbn in Hs. injection Hs as <-. cbn in E. rewrite Nat2Z.id, Hr in E. injection E as <- <-. done.
  - intros d ks c lp _. eexists _, _. split; [reflexivity|]. split; [apply mini_client_quiet|]. apply mini_view_ok.
  - intros d ks p ik _. exists d. split; [done|apply quiet_refl].
  - intros d ws. destruct (mini_append d ws) as [Hq Hat]. eexists _, _. split; [reflexivity|]. split; [done|]. split; [by rewrite length_map, length_seq|].
    intros i w p ks k0 k v ik Hw Hp Hpw Hok Hs Hred. rewrite list_lookup_fmap in Hp. destruct (seq 0 (length ws) !! i) as [j|] eqn:Ej; [|done]. apply lookup_seq in Ej as [-> _]. injection Hp as <-.
    destruct (Z.to_nat ks) as [|n] eqn:Ek; [|done]. injection Hs as <-. assert (ks = 0) as -> by (destruct Hok as [Hu _]; unfold is_u8 in Hu; lia).
    destruct (Hat i w 0 k v ik Hw Hpw Hok Hred) as [Hr Hh]. cbn [mini_pos wp_new wp_offset mini_view dv_fresh dv_stored dv_record]. rewrite Nat2Z.id. split_and!; [lia|done| |done].
    by exists (length (mi_log d) + i)%nat.
  - intros d ks c u Hu. eexists. split; [reflexivity|].
    destruct (mini_flush_spec d ks c (RelocationUpdate u) (fun i ik => Some (if Z.of_nat i <? ru_last_processed u then Z.to_nat (wp_offset (default (mini_pos i) (updated_to (ru_updates u) ik))) else i)))
      as [Hg Hi]; [done| |split; [done|]].
    + intros i ik j Hh [= <-] Hks. destruct (_ <? _); [|done]. unfold updated_to. destruct (List.find _ _) as [[ik' p]|] eqn:Ef; cbn; [|by rewrite Nat2Z.id].
      apply find_some in Ef as [Hin Hk]. cbn in Hk. destruct (keqb_spec ik' ik) as [->|]; [|done]. destruct (Hu ik p Hin) as (_ & i' & -> & Hh'). cbn. by rewrite Nat2Z.id.
    + intros ks' c' ik. left. cbn. rewrite Hi. case_bool_decide; [|done]. destruct (mini_lookup d ks c ik) as [p|] eqn:E; [|done]. apply mini_lookup_spec in E as (-> & _ & i & _ & -> & _).
      cbn [mini_pos wp_new wp_offset option_map]. rewrite !Nat2Z.id. destruct (_ <? _); [|done]. unfold updated_to. destruct (List.find _ _) as [[ik' p]|] eqn:Ef; cbn; [|by rewrite Nat2Z.id].
      apply find_some in Ef as [Hin _]. destruct (Hu ik' p Hin) as (_ & i' & -> & _). cbn. by rewrite Nat2Z.id.
  - intros d ks c cutoff. eexists. split; [reflexivity|].
    destruct (mini_flush_spec d ks c (RelocationCutoff cutoff) (fun i ik => if Z.of_nat i <? cutoff then mini_older d cutoff c ik else Some i)) as [Hg Hi];
      [done| |split; [done|]].
    + intros i ik j Hh E _. destruct (_ <? _); [|by injection E as <-]. by destruct (mini_older_spec d cutoff c ik j E).
    + intros ks' c' ik. cbn [mini_view dv_index]. destruct (decide (ks' = ks /\ c' = c)) as [[-> ->]|Hx]; [|left; by rewrite Hi, bool_decide_eq_false_2].
      rewrite Hi, bool_decide_eq_true_2 by done. destruct (mini_lookup d ks c ik) as [p|] eqn:E; [|by left]. apply mini_lookup_spec in E as (-> & _ & i & _ & -> & _).
      cbn [mini_pos wp_new wp_offset]. rewrite Nat2Z.id. destruct (Z.ltb_spec (Z.of_nat i) cutoff) as [Hlt|]; [|by left]. right; right. split_and!; [done|done|by intros p [= <-]|].
      destruct (mini_older d cutoff c ik) as [j|] eqn:Ej; [|done]. intros q [= <-]. by destruct (mini_older_spec d cutoff c ik j Ej).
  - intros d. by eexists.
  - intros d bytes. eexists. split; [reflexivity|]. apply mini_quiet; auto.
  - intros d. eexists _, _, _. split; [reflexivity|]. split; [apply mini_quiet; auto|]. cbn. destruct (mi_arrivals d); [by intros _; split; [|intros []]|]. by intros [? _]%Forall_cons.
  - intros d. eexists. split; [reflexivity|]. apply quiet_refl.
  - intros d t. eexists. split; [reflexivity|]. apply mini_quiet; auto.
  - intros d start. destruct (mini_scan d start) as (frames & E & Hs & Hb & Hi). exists d, frames, EndOfWal.
    split_and!; [done|apply quiet_refl|done|by intros pos t [? _]%Hb|by intros pos t [_ ?]%Hb|].
    intros ks c ik q pos t Hq Hle _ _. by apply (Hi ks c ik q).
Qed.
End mini.
