(* ===== verification/RelocationCorrect.v ===== *)
(** * Relocation, complete and incomplete

    A run left to finish keeps every record ([index_relocation_keeps],
    [wal_relocation_keeps]); a run that is cancelled or resumed reclaims records
    it has not copied, and the index-based strategy breaks key spaces whose index
    keys are not the record keys. *)

From Stdlib Require Import ZArith Lia List Sorting.Sorted.
From stdpp Require Import base tactics list gmap strings.
From S2P Require Import Prelude BTree Bytes Position Cell Layout KeyShape WalEntry Allocator Tracker IndexTable IndexOps Levels Loader Flusher.
From S2P Require Import FlushRelocation Crc WalFiles Wal Pending Batch Relocation RelocationFacts RelocationDemo.

Local Open Scope Z_scope.

(** ** The index-based strategy *)

(** The run starts over: there is no progress to resume, or it was for another
    target. *)
Definition starts_over (wm : WatermarkData) (target : option Z) : Prop := wd_next_to_process wm = None \/ wd_target_position wm <> target.

Lemma index_start_over {D : Type} `{RelocationDb D} hash blake2b256 shape view `{!RelocationSpec hash blake2b256 shape view} (d : D) wm target :
  (length shape < 255)%nat -> starts_over wm target -> index_start shape wm target = Ok (head (all_refs shape view d)).
Proof.
  intros Hs Ho. unfold index_start.
  assert (bool_decide (wd_next_to_process wm = None) || negb (bool_decide (wd_target_position wm = target)) = true) as ->.
  { apply orb_true_iff. destruct Ho; [left|right]; [by apply bool_decide_eq_true_2|by rewrite bool_decide_eq_false_2]. }
  rewrite (ref_first hash blake2b256 shape view Hs d). cbn [mbind outcome_bind]. destruct (head (all_refs shape view d)) as [r|] eqn:E; [|done].
  destruct (all_refs shape view d) as [|r' rest] eqn:Er; [done|]. injection E as ->.
  destruct (refs_from_In shape view d shape 0 r eq_refl) as (j & ksd & -> & Ej & Ed); [fold (all_refs shape view d); rewrite Er; by left|].
  rewrite (ks_desc_at shape j ksd Ej). cbn [mbind outcome_bind]. by rewrite Ed.
Qed.

(** C19. Index-based relocation loses nothing.  In a database that keeps the
    contract [RelocationSpec] and whose keys are their own index keys, a run that
    starts over, is not cancelled and is not stopped by a filter goes over every
    cell and ends, with clients writing meanwhile; it then asks the log to drop
    what is below a position.  At that moment every record that was indexed is
    still indexed under its key, with its key and value, unless a client has
    written or removed the key during the run, and an entry still below the
    position holds no record or one the filter of its key space lets go. *)
Theorem index_relocation_keeps {D : Type} `{RelocationDb D} hash blake2b256 serialize deserialize shape filter (view : D -> DbView)
    (d : D) wm target queue fuel :
  RelocationSpec hash blake2b256 shape view -> (length shape < 255)%nat ->
  (forall i ksd k, shape !! i = Some ksd -> reduce_key blake2b256 (ks_key_indexing ksd) k = Ok k) ->
  (forall ks f k v, filter ks = Some f -> f k v <> StopRelocation) ->
  dv_calm (view d) -> ~ In CommandCancel queue -> read_or_create deserialize d = Ok (d, inr wm) -> starts_over wm target -> (length (all_refs shape view d) < fuel)%nat ->
  exists d' reclaimed queue',
    index_based_relocation hash blake2b256 serialize deserialize shape filter fuel target queue d = (_ ← rd_gc reclaimed; mret queue') d' /\
    (forall ks c ik p r, dv_index (view d) ks c ik = Some p -> dv_record (view d) ks p ik = Some r ->
       dv_touched (view d') ks c ik \/ exists p', dv_index (view d') ks c ik = Some p' /\ dv_record (view d') ks p' ik = Some r) /\
    forall ks c ik p, dv_index (view d') ks c ik = Some p -> wp_offset p < reclaimed -> let_go view filter d' ks ik p.
Proof.
  intros Hspec Hs Hplain Hstop Hcancel Hq Hwm Hover Hf.
  set (upper := rd_last_processed d). set (limit := match target with Some t => Z.min t upper | None => upper end).
  assert (limit <= rd_last_processed d) as Hl by (unfold limit, upper; destruct target; lia).
  destruct (index_loop_ok hash blake2b256 shape view Hs filter limit 0 (fun _ => False) serialize Hplain Hstop (fun _ x => x) upper target fuel
    (all_refs shape view d) d [] 0 0 queue eq_refl Hf Hl Hcancel Hq) as (d1 & h & queue1 & E1 & Ha1 & Hc1).
  set (data := mkWatermark None h upper target).
  destruct (rs_save hash blake2b256 shape view d1 (serialize data)) as (d2 & E2 & Hq2).
  assert (advances view limit 0 (fun _ => False) d d2) as Ha2.
  { eapply (advances_trans shape view Hs); [exact Ha1|]. by apply (quiet_advances hash blake2b256 shape view Hs). }
  exists d2, (Z.min (gc_watermark data) (rd_control_position d2)), queue1. split_and!.
  - unfold index_based_relocation. unfold mbind at 1, RM_bind at 1. rewrite Hwm. unfold rask at 1. unfold mbind at 1, RM_bind at 1. fold upper. fold limit.
    cbv zeta. rewrite (index_start_over hash blake2b256 shape view d wm target Hs Hover). unfold mbind at 1, RM_bind at 1, rlift at 1.
    unfold mbind at 1, RM_bind at 1. rewrite E1. unfold save_progress, watermark_save. fold data. unfold mbind, RM_bind, rask. by rewrite E2.
  - intros ks c ik p r Ei Er. destruct (ad_some _ _ _ _ _ _ Ha2 ks c ik p Ei) as [Ht|[([] & _)|(p' & E' & _ & Hr)]]; [by left|]. right. exists p'. auto.
  - intros ks c ik p Ei Hlt. assert (wp_offset p < limit) as Hlt' by (unfold gc_watermark, data, limit in *; cbn in Hlt; destruct target; lia).
    destruct (rs_frontier hash blake2b256 shape view d) as (_ & _ & Hfr). pose proof (gr_fresh _ _ _ (ad_grows _ _ _ _ _ _ Ha1)) as Hf1.
    refine (cleared_advances hash blake2b256 shape view filter limit 0 (fun _ => False) d1 d2 ks c _ _ _ _ ik p Ei Hlt'); [by apply (quiet_advances hash blake2b256 shape view Hs)|lia|tauto|].
    apply (Hc1 (mkCellRef ks c)). unfold all_refs. rewrite <- (refs_from_grows view d d2 (ad_grows _ _ _ _ _ _ Ha2) shape 0).
    by apply (indexed_in_walk hash blake2b256 shape view Hs d2 ks c ik p).
Qed.

(** ** The log-based strategy *)

(** The scan stops at a frame, and no frame from the frontier on is before it. *)
Lemma terminal_first shape filter upper frames last t : StronglySorted (fun f g => wp_offset f.1 < wp_offset g.1) frames ->
  terminal_position shape filter upper frames last = Ok (inr t) ->
  t = 0 \/ (exists raw pos, In (pos, raw) frames /\ wp_offset pos = t) /\ forall pos raw, In (pos, raw) frames -> upper <= wp_offset pos -> t <= wp_offset pos.
Proof.
  induction 1 as [|[pos raw] frames Hs IH Hf]; cbn [terminal_position].
  { destruct last; intros [= <-]; by left. }
  rewrite List.Forall_forall in Hf.
  assert (forall t', wp_offset pos = t' -> t' = 0 \/ (exists raw0 pos0, In (pos0, raw0) ((pos, raw) :: frames) /\ wp_offset pos0 = t') /\
    forall pos0 raw0, In (pos0, raw0) ((pos, raw) :: frames) -> upper <= wp_offset pos0 -> t' <= wp_offset pos0) as Hhere.
  { intros t' <-. right. split; [exists raw, pos; split; [by left|done]|]. intros p r [[= <- <-]|Hin] _; [lia|]. specialize (Hf _ Hin). cbn in Hf. lia. }
  destruct (Z.leb_spec upper (wp_offset pos)) as [Hle|Hlt]; [intros [= E]; by apply Hhere|].
  assert (terminal_position shape filter upper frames last = Ok (inr t) -> t = 0 \/ (exists raw0 pos0, In (pos0, raw0) ((pos, raw) :: frames) /\ wp_offset pos0 = t) /\
    forall pos0 raw0, In (pos0, raw0) ((pos, raw) :: frames) -> upper <= wp_offset pos0 -> t <= wp_offset pos0) as Hrest.
  { intros E. destruct (IH E) as [->|[(r & p & Hin & Ht) Hall]]; [by left|right]. split; [exists r, p; split; [by right|done]|].
    intros p' r' [[= <- <-]|Hin'] Hu; [lia|]. by apply (Hall p' r'). }
  destruct (wal_entry_from_bytes raw) as [e|]; [|done]. cbn [mbind outcome_bind]. destruct e as [ks k v r| | | | |]; try done.
  destruct (ks_desc shape ks); [|done]. cbn [mbind outcome_bind]. destruct (filter ks) as [f|]; [|done].
  destruct (f k v); try done. intros [= E]. by apply Hhere.
Qed.

Lemma wal_target_le cfg upper min terminal target : 0 < rc_wal_file_size cfg -> 0 <= terminal -> wal_target cfg upper min terminal = Ok target -> target <= terminal.
Proof.
  intros Hsz Ht. unfold wal_target. set (m := max_target_position _ _ _). assert (0 <= m < 2 ^ 64) as Hm by (unfold m, max_target_position, u64_add, wrap64; apply Z.mod_pos_bound; lia).
  rewrite u64_rem_ok by lia. cbn [mbind outcome_bind]. intros [= <-]. pose proof (Z.mod_pos_bound (Z.min terminal m) _ Hsz).
  pose proof (Z.mod_le (Z.min terminal m) (rc_wal_file_size cfg) ltac:(lia) ltac:(lia)). unfold u64_sub, wrap64. rewrite Z.mod_small; lia.
Qed.

(** C20. Log-based relocation loses nothing.  In a database that keeps the
    contract [RelocationSpec], with a scan that meets neither a compressed batch
    nor an error of the disk, a run does nothing, or it goes over every cell, with
    clients writing meanwhile, and then asks the log to drop what is below a
    position.  At that moment every record that was indexed is still indexed under
    its key, with its key and value, unless a client has written or removed the
    key, or its key space has a filter and it was below the position the scan
    stopped at; what is left of such a key is below that position too.  Outside
    the filtered key spaces no entry below the position that is dropped holds a
    record, and no key appears that a client has not written. *)
Theorem wal_relocation_keeps {D : Type} `{RelocationDb D} hash blake2b256 shape filter (view : D -> DbView) (d : D) cfg fuel :
  RelocationSpec hash blake2b256 shape view -> (length shape < 255)%nat -> 0 < rc_wal_file_size cfg -> rc_batch_codec cfg = None ->
  (forall d' frames last, rd_scan (rd_min_wal_position d) d = Ok (d', inr (frames, last)) ->
     exists t, terminal_position shape filter (rd_last_processed d) frames last = Ok (inr t)) ->
  (length (all_refs shape view d) < fuel)%nat ->
  (exists d', wal_based_relocation hash blake2b256 shape filter fuel cfg d = Ok (d', inr tt) /\ quiet view d d') \/
  exists d' reclaimed terminal,
    wal_based_relocation hash blake2b256 shape filter fuel cfg d = rd_gc reclaimed d' /\
    (forall ks c ik p r, dv_index (view d) ks c ik = Some p -> dv_record (view d) ks p ik = Some r ->
       dv_touched (view d') ks c ik \/
       ((exists f, filter ks = Some f) /\ wp_offset p < terminal /\ forall q, dv_index (view d') ks c ik = Some q -> wp_offset q < terminal) \/
       exists p', dv_index (view d') ks c ik = Some p' /\ dv_record (view d') ks p' ik = Some r) /\
    (forall ks c ik, dv_index (view d) ks c ik = None ->
       dv_index (view d') ks c ik = None \/ dv_touched (view d') ks c ik \/
       (exists f, filter ks = Some f) /\ forall q, dv_index (view d') ks c ik = Some q -> wp_offset q < terminal) /\
    forall ks c ik p, filter ks = None -> dv_index (view d') ks c ik = Some p -> wp_offset p < reclaimed -> dv_record (view d') ks p ik = None.
Proof.
  intros Hspec Hs Hsz Hcodec Hterm Hf. set (lp := rd_last_processed d). set (mn := rd_min_wal_position d).
  destruct (rs_scan hash blake2b256 shape view d mn) as (d1 & frames & last & E1 & Hq1 & Hsorted & Hpos & Hgap & Hcomplete).
  destruct (Hterm d1 frames last E1) as [terminal Et].
  pose proof (terminal_first shape filter lp frames last terminal Hsorted Et) as Hfirst. destruct (rs_frontier hash blake2b256 shape view d) as (Hmn & Hml & Hle).
  pose proof (gr_fresh _ _ _ (qt_grows _ _ _ Hq1)) as He1. pose proof (gr_frontier _ _ _ (qt_grows _ _ _ Hq1)) as Hf1.
  assert (0 <= terminal <= dv_fresh (view d1)) as Hte.
  { destruct Hfirst as [->|[(raw & pos & Hin & <-) Hall]]; [lia|]. split; [by apply (Hpos pos raw)|]. apply (Hgap pos raw Hin).
    intros pos' t' Hin'. destruct (Z.lt_ge_cases (wp_offset pos') lp); [by left|right]. by apply (Hall pos' t'). }
  destruct (wal_target cfg lp mn terminal) as [limit|] eqn:El; [|unfold wal_target in El; rewrite u64_rem_ok in El by lia; done].
  pose proof (wal_target_le cfg lp mn terminal limit Hsz ltac:(lia) El) as Hlt.
  assert (forall A (k : unit -> RM D A) x, (rlift (assert_that (bool_decide (rc_batch_codec cfg = None)) "wal-based relocation does not support Config::batch_codec yet") ≫= k) x = k tt x) as Hcfg
    by (intros A k x; by rewrite bool_decide_eq_true_2).
  unfold wal_based_relocation. rewrite Hcfg. unfold mbind, RM_bind, rask. fold lp mn. rewrite E1. unfold rlift. fold lp in Et. rewrite Et, El.
  destruct (limit <? u64_add (rc_wal_file_size cfg) mn); [left; by exists d1|right].
  rewrite (ref_first hash blake2b256 shape view Hs d1). set (drop := fun ks => exists f, filter ks = Some f).
  assert (below_frontier view limit drop lp d1) as Hbf.
  { intros ks c ik p _ E Hp. destruct (Z.lt_ge_cases (wp_offset p) lp) as [|Hge]; [done|exfalso].
    destruct Hfirst as [->|[(raw & pos & Hin & Hat) Hall]]; [lia|].
    destruct (Hcomplete ks c ik p pos raw E ltac:(lia) Hin ltac:(lia)) as (pos' & raw' & Hin' & E'). specialize (Hall pos' raw' Hin' ltac:(lia)). lia. }
  assert (all_refs shape view d1 = all_refs shape view d) as Hrefs by (unfold all_refs; apply (refs_from_grows view d d1); apply Hq1).
  destruct (wal_loop_ok hash blake2b256 shape view Hs filter limit terminal drop cfg (fun _ => iff_refl _) lp fuel (all_refs shape view d1) d1 [])
    as (d2 & E2 & Ha2 & Hc2); [done|by rewrite Hrefs|fold lp in Hf1; lia|lia|done|]. rewrite E2.
  destruct (rs_rebuild hash blake2b256 shape view d2 limit) as (d3 & E3 & Hq3). rewrite E3.
  assert (advances view limit terminal drop d d3) as Ha3.
  { eapply (advances_trans shape view Hs); [by apply (quiet_advances hash blake2b256 shape view Hs)|]. eapply (advances_trans shape view Hs); [exact Ha2|]. by apply (quiet_advances hash blake2b256 shape view Hs). }
  exists d3, (Z.min limit (rd_control_position d3)), terminal. split_and!; [done| | |].
  - intros ks c ik p r Ei Er. destruct (ad_some _ _ _ _ _ _ Ha3 ks c ik p Ei) as [?|[?|(p' & E' & _ & Hr)]]; [by left|by right; left|]. right; right. exists p'. auto.
  - exact (ad_none _ _ _ _ _ _ Ha3).
  - intros ks c ik p Hf0 Ei Hp. assert (~ drop ks) as Hkeep by (intros [f ?]; congruence). pose proof (gr_fresh _ _ _ (ad_grows _ _ _ _ _ _ Ha2)) as He2.
    assert (cleared view filter limit d3 ks c) as Hcl.
    { apply (cleared_advances hash blake2b256 shape view filter limit terminal drop d2 d3); [by apply (quiet_advances hash blake2b256 shape view Hs)|lia|done|].
      apply (Hc2 (mkCellRef ks c)); [|done]. rewrite Hrefs. unfold all_refs. rewrite <- (refs_from_grows view d d3 (ad_grows _ _ _ _ _ _ Ha3) shape 0).
      by apply (indexed_in_walk hash blake2b256 shape view Hs d3 ks c ik p). }
    destruct (Hcl ik p Ei ltac:(lia)) as [?|(f & _ & _ & Hf1' & _)]; [done|congruence].
Qed.

(** ** Index keys that are not record keys *)

Lemma slice_length b from to_ r : slice b from to_ = Ok r -> length r = (to_ - from)%nat /\ (to_ <= length b)%nat.
Proof.
  unfold slice. destruct (Nat.leb_spec from to_); [|done]. destruct (Nat.leb_spec to_ (length b)); [|done]. cbn. intros [= <-].
  rewrite length_take, length_drop. lia.
Qed.

(** A prefix of a prefix. *)
Lemma prefix_again k m r : slice k 0 m = Ok r -> slice r 0 m = Ok r.
Proof.
  intros E. destruct (slice_length _ _ _ _ E) as [Hl _]. unfold slice. rewrite (proj2 (Nat.leb_le 0 m)), (proj2 (Nat.leb_le m (length r))) by lia. cbn [andb].
  rewrite drop_0, take_ge by lia. done.
Qed.

(** Another part of a part. *)
Lemma part_again k from to_ r : (0 < from)%nat -> slice k from to_ = Ok r -> exists msg, slice r from to_ = Panic msg.
Proof.
  intros Hf E. destruct (slice_length _ _ _ _ E) as [Hl _]. unfold slice in *. destruct (Nat.leb_spec from to_); [|done].
  destruct (Nat.leb_spec to_ (length r)); [lia|]. by eexists.
Qed.

Lemma reduced_length blake2b256 ki k ik : reduce_key blake2b256 ki k = Ok ik -> (length ik <= Nat.max 16 (length k))%nat.
Proof. destruct ki; cbn; unfold hash_key; first [intros [= <-]; lia|intros E%slice_length; lia]. Qed.

Section reduced.
Context {D : Type} `{RelocationDb D} (hash : list Z -> Z) (blake2b256 : list Z -> list Z) (shape : list KeySpaceDesc) (view : D -> DbView).
Context `{!RelocationSpec hash blake2b256 shape view} (Hshape : (length shape < 255)%nat) (filter : KeySpace -> option (list Z -> list Z -> Decision)).
Context (limit : Z) (ks : KeySpace) (c : CellId) (ksd : KeySpaceDesc).
Context (Hks : shape !! Z.to_nat ks = Some ksd) (Hu8 : is_u8 ks) (Hfilter : filter ks = None).
Notation ki := (ks_key_indexing ksd).
Notation stored d := (dv_stored (view d)).
Notation record d := (dv_record (view d)).

(** What is copied of the entries of a view: the values, under the index keys. *)
Definition copied (d : D) (entries : list (list Z * WalPosition)) : list (list Z * list Z) :=
  flat_map (fun e => if wp_offset e.2 <? limit then match record d ks e.2 e.1 with Some (_, v) => [(e.1, v)] | None => [] end else []) entries.

Lemma copied_quiet d d' entries : quiet view d d' -> (forall ik q, In (ik, q) entries -> stored d ks q ik) -> copied d' entries = copied d entries.
Proof.
  intros Hq Hst. unfold copied. induction entries as [|[ik q] entries IH]; [done|]. cbn [flat_map fst snd].
  rewrite (proj2 (gr_stored _ _ _ (qt_grows _ _ _ Hq) ks q ik (Hst ik q (or_introl eq_refl)))), IH; [done|]. intros; apply Hst; by right.
Qed.

Lemma highest_of_ge a b : wp_offset a <= wp_offset (highest_of a b) /\ wp_offset b <= wp_offset (highest_of a b).
Proof. unfold highest_of. destruct (Z.ltb_spec (wp_offset a) (wp_offset b)); lia. Qed.

Lemma process_copies entries : forall d ctx copies, (forall ik q, In (ik, q) entries -> stored d ks q ik) ->
  batch_holds hash (cp_batch ctx) ks c limit copies ->
  exists d' ctx', process_entries hash filter ks limit entries ctx d = Ok (d', inr ctx') /\ quiet view d d' /\
    batch_holds hash (cp_batch ctx') ks c limit (copies ++ copied d entries) /\
    wp_offset (cp_highest_wal_position ctx) <= wp_offset (cp_highest_wal_position ctx') /\
    forall ik q, In (ik, q) entries -> wp_offset q < limit -> wp_offset q <= wp_offset (cp_highest_wal_position ctx').
Proof.
  induction entries as [|[ik q] entries IH]; intros d ctx copies Hst Hb.
  { exists d, ctx. rewrite app_nil_r. split_and!; [done|apply quiet_refl|done|lia|done]. }
  assert (forall ik q, In (ik, q) entries -> stored d ks q ik) as Hst' by (intros; apply Hst; by right).
  cbn [process_entries copied flat_map fst snd]. fold (copied d entries). destruct (Z.leb_spec limit (wp_offset q)) as [Hle|Hlt].
  { rewrite (proj2 (Z.ltb_ge _ _) Hle). cbn [app]. destruct (IH d ctx copies Hst' Hb) as (d' & ctx' & E & Hq & Hb' & Hh & Hall). exists d', ctx'. split_and!; [done|done|done|done|].
    intros ik' q' [[= <- <-]|Hin] Hl; [lia|by apply (Hall ik' q')]. }
  rewrite (proj2 (Z.ltb_lt _ _) Hlt). pose proof (Hst ik q (or_introl eq_refl)) as Hs.
  destruct (rs_read hash blake2b256 shape view d ks q ik Hs) as (d1 & E1 & Hq1). unfold mbind, RM_bind at 1. rewrite E1.
  assert (forall ctx1 copies1, batch_holds hash (cp_batch ctx1) ks c limit copies1 -> wp_offset (cp_highest_wal_position ctx) <= wp_offset (cp_highest_wal_position ctx1) ->
    wp_offset q <= wp_offset (cp_highest_wal_position ctx1) ->
    exists d' ctx', process_entries hash filter ks limit entries ctx1 d1 = Ok (d', inr ctx') /\ quiet view d d' /\
      batch_holds hash (cp_batch ctx') ks c limit (copies1 ++ copied d entries) /\ wp_offset (cp_highest_wal_position ctx) <= wp_offset (cp_highest_wal_position ctx') /\
      forall ik' q', In (ik', q') ((ik, q) :: entries) -> wp_offset q' < limit -> wp_offset q' <= wp_offset (cp_highest_wal_position ctx')) as Hgo.
  { intros ctx1 copies1 Hb1 Hh1 Hh2. destruct (IH d1 ctx1 copies1) as (d' & ctx' & E & Hq & Hb' & Hh & Hall); [intros ik' q' Hin; by apply (gr_stored _ _ _ (qt_grows _ _ _ Hq1)), Hst'|done|].
    rewrite (copied_quiet d d1 entries Hq1 Hst') in Hb'. exists d', ctx'. split_and!; [done|by eapply quiet_trans|done|lia|].
    intros ik' q' [[= <- <-]|Hin] Hl; [lia|by apply (Hall ik' q')]. }
  destruct (record d ks q ik) as [[k v]|] eqn:Er; [|cbn [app]; apply Hgo; [done|apply highest_of_ge..]].
  rewrite Hfilter. destruct (rs_keyed hash blake2b256 shape view d ks ksd q ik k v Hs Er Hks) as [Hred Hlen]. apply reduced_length in Hred.
  destruct (batch_write hash (cp_batch ctx) ks c limit copies ik v Hb Hu8) as (b & Ew & Hb1); [unfold u16_max in *; lia|].
  unfold add_entry_to_relocate. rewrite Ew. unfold rlift. cbn [mbind outcome_bind]. change ([(ik, v)] ++ copied d entries) with ((ik, v) :: copied d entries).
  replace (copies ++ (ik, v) :: copied d entries) with ((copies ++ [(ik, v)]) ++ copied d entries) by (by rewrite <- app_assoc).
  apply Hgo; [done|apply highest_of_ge..].
Qed.

(** A key that is indexed at a record below the limit is copied, with its value. *)
Lemma copied_indexed d lp entries ik p k v : view_ok view d ks c lp entries -> limit <= lp -> dv_index (view d) ks c ik = Some p -> wp_offset p < limit ->
  record d ks p ik = Some (k, v) -> In (ik, v) (copied d entries) /\ In (ik, p) entries /\ forall kv, In kv (copied d entries) -> kv.1 = ik -> kv = (ik, v).
Proof.
  clear Hshape Hu8. intros [V1 V2 _] Hl E Hp Hr. assert (In (ik, p) entries) as Hin by (apply V1; [done|lia]). unfold copied. split_and!; [|done|].
  - apply in_flat_map. exists (ik, p). split; [done|]. cbn [fst snd]. rewrite (proj2 (Z.ltb_lt _ _) Hp), Hr. by left.
  - intros [ik' v'] ([ik0 q] & Hin' & Hkv)%in_flat_map E'. cbn in Hkv, E'. subst ik'. destruct (wp_offset q <? limit); [|done].
    destruct (record d ks q ik0) as [[k0 v0]|] eqn:Er; [|done]. destruct Hkv as [[= -> ->]|[]].
    rewrite (V2 ik p q Hin' E ltac:(lia)), Hr in Er. by injection Er as <- <-.
Qed.

(** Every copy is under the index key of a record. *)
Lemma copied_reduced d entries kv : (forall ik q, In (ik, q) entries -> stored d ks q ik) -> In kv (copied d entries) ->
  exists q k, stored d ks q kv.1 /\ reduce_key blake2b256 ki k = Ok kv.1.
Proof.
  intros Hst ([ik q] & Hin & Hkv)%in_flat_map. cbn in Hkv. destruct (wp_offset q <? limit); [|done].
  destruct (record d ks q ik) as [[k v]|] eqn:Er; [|done]. destruct Hkv as [<-|[]]. exists q, k. split; [by apply Hst|].
  by apply (rs_keyed hash blake2b256 shape view d ks ksd q ik k v (Hst _ _ Hin) Er Hks).
Qed.

(** The run over the cell up to the copies: the view, and the batch. *)
Lemma cell_copies d : limit <= rd_last_processed d ->
  exists entries d1 ctx, process_single_cell hash filter (mkCellRef ks c) limit d = Ok (d1, inr ctx) /\ quiet view d d1 /\ view_ok view d ks c limit entries /\
    batch_holds hash (cp_batch ctx) ks c limit (copied d entries) /\
    forall ik q, In (ik, q) entries -> wp_offset q < limit -> wp_offset q <= wp_offset (cp_highest_wal_position ctx).
Proof.
  intros Hl. unfold process_single_cell. cbn [cr_keyspace cr_cell_id]. set (ctx := processing_new (relocated_new ks c limit)).
  destruct (rs_view hash blake2b256 shape view d ks c limit Hl) as (d1 & o & E1 & Hq1 & Hv). exists (default [] o). unfold mbind, RM_bind. rewrite E1.
  pose proof (vo_stored _ _ _ _ _ _ Hv) as Hst.
  destruct (process_copies (default [] o) d1 ctx []) as (d2 & ctx2 & E2 & Hq2 & Hb & _ & Hall);
    [intros ik q Hin; by apply (gr_stored _ _ _ (qt_grows _ _ _ Hq1)), Hst|apply batch_new|].
  rewrite (copied_quiet d d1 _ Hq1 Hst) in Hb. exists d2, ctx2. split_and!; [|by eapply quiet_trans|done|done|done].
  destruct o as [entries|]; [exact E2|]. cbn in E2. by injection E2 as <- <-.
Qed.

Notation copy_ok kv := (exists ik, reduce_key blake2b256 ki kv.1 = Ok ik).

(** When the index keys can be reduced again, the copies are written and the
    index goes to where they are filed. *)
Lemma cell_written d pre rest highest : all_refs shape view d = pre ++ mkCellRef ks c :: rest -> limit <= rd_last_processed d ->
  (forall q ik k, stored d ks q ik -> reduce_key blake2b256 ki k = Ok ik -> exists ik', reduce_key blake2b256 ki ik = Ok ik') ->
  exists entries d1 d' h, index_cell hash blake2b256 shape filter limit (mkCellRef ks c) highest d = Ok (d', inr (h, head rest)) /\ quiet view d d1 /\
    view_ok view d ks c limit entries /\ moved blake2b256 view d1 d' ks c limit ki (copied d entries) /\ limit <= dv_fresh (view d1) /\
    forall ik q, In (ik, q) entries -> wp_offset q < limit -> wp_offset q <= h.
Proof.
  intros Hr Hl Hagain. destruct (cell_copies d Hl) as (entries & d1 & ctx & E1 & Hq1 & Hv & Hb & Hall). exists entries, d1.
  destruct (rs_frontier hash blake2b256 shape view d) as (_ & _ & Hfr). pose proof (gr_fresh _ _ _ (qt_grows _ _ _ Hq1)) as Hf1.
  destruct (write_batch_moves hash blake2b256 shape view Hshape d1 (cp_batch ctx) ks ksd c limit (copied d entries) Hb Hks) as (d2 & E2 & Hm); [|lia|].
  { apply List.Forall_forall. intros kv Hin. destruct (copied_reduced d entries kv (vo_stored _ _ _ _ _ _ Hv) Hin) as (q & k & Hst & Hk). by apply (Hagain q kv.1 k). }
  eexists d2, _. split.
  - unfold index_cell. unfold mbind at 1, RM_bind at 1. rewrite E1. cbv zeta.
    assert ((if relocated_is_empty (cp_batch ctx) then mret tt else write_relocated_batch blake2b256 shape (cp_batch ctx)) d1 = Ok (d2, inr tt)) as E2'.
    { destruct (relocated_is_empty (cp_batch ctx)) eqn:Ee; [|done]. unfold write_relocated_batch in E2. by rewrite Ee in E2. }
    unfold mbind, RM_bind. rewrite E2', (ref_next_run hash blake2b256 shape view Hshape d2 pre (mkCellRef ks c) rest); [reflexivity|].
    rewrite <- Hr. unfold all_refs. apply (refs_from_grows view d d2). eapply grows_trans; [apply Hq1|apply Hm].
  - split_and!; [done|done|done|lia|]. intros ik q Hin Hlt. specialize (Hall ik q Hin Hlt). destruct (Z.ltb_spec highest (wp_offset (cp_highest_wal_position ctx))); lia.
Qed.

(** Reading on from the copies of a cell. *)
Lemma indexed_later d d1 ik p kv : quiet view d d1 -> dv_index (view d) ks c ik = Some p -> record d ks p ik = Some kv -> wp_offset p < limit ->
  dv_touched (view d1) ks c ik \/ dv_index (view d1) ks c ik = Some p /\ record d1 ks p ik = Some kv.
Proof.
  intros Hq E Hr Hp. destruct (qt_index _ _ _ Hq ks c ik) as [E'|[Ht _]]; [right|by left]. split; [congruence|].
  rewrite (proj2 (gr_stored _ _ _ (qt_grows _ _ _ Hq) ks p ik (proj1 (rs_indexed hash blake2b256 shape view d ks c ik p E)))). done.
Qed.
End reduced.

(** C24. Index-based relocation copies a record under its index key.  Take any
    database that keeps the contract [RelocationSpec], a cell of a key space
    without a filter, and a record of it below the limit of the run.  Where keys
    are indexed by a prefix, after the cell is processed the key is indexed at a
    copy with the value and, for a key, the prefix: the record of the full key is
    gone.  Where they are indexed by a part that is not a prefix, processing the
    cell panics.  Where they are hashed, the key stays indexed at the old position,
    unless an index key hashes to it, and that position is not above the one the
    run reports for reclaiming. *)
Theorem reduced_key_relocation_loses {D : Type} `{RelocationDb D} hash blake2b256 shape filter (view : D -> DbView) (d : D) pre ks c rest ksd limit highest :
  RelocationSpec hash blake2b256 shape view -> (length shape < 255)%nat -> all_refs shape view d = pre ++ mkCellRef ks c :: rest -> limit <= rd_last_processed d ->
  shape !! Z.to_nat ks = Some ksd -> filter ks = None ->
  let run := index_cell hash blake2b256 shape filter limit (mkCellRef ks c) highest d in
  let indexed d ik p kv := dv_index (view d) ks c ik = Some p /\ dv_record (view d) ks p ik = Some kv in
  (forall len m, ks_key_indexing ksd = Reduction len 0 m ->
     exists d' h, run = Ok (d', inr (h, head rest)) /\
       forall ik p k v, indexed d ik p (k, v) -> wp_offset p < limit -> dv_touched (view d') ks c ik \/ exists p', indexed d' ik p' (ik, v)) /\
  (forall len from to_, ks_key_indexing ksd = Reduction len from to_ -> (0 < from)%nat ->
     (exists ik p kv, indexed d ik p kv /\ wp_offset p < limit) -> exists msg, run = Panic msg) /\
  (ks_key_indexing ksd = Hash -> (forall k, 16 <= length (blake2b256 k))%nat ->
     exists d' h, run = Ok (d', inr (h, head rest)) /\
       forall ik p kv, indexed d ik p kv -> wp_offset p < limit -> (forall q ik', dv_stored (view d) ks q ik' -> hash_key blake2b256 ik' <> Ok ik) ->
         wp_offset p <= h /\ (dv_touched (view d') ks c ik \/ indexed d' ik p kv)).
Proof.
  intros Hspec Hs Hr Hl Hks Hf run indexed.
  assert (is_u8 ks) as Hu8 by (destruct (ref_space shape view Hs d (mkCellRef ks c)) as (_ & _ & ? & _); [rewrite Hr; apply in_app_iff; right; by left|done]).
  split_and!.
  - intros len m Hki.
    destruct (cell_written hash blake2b256 shape view Hs filter limit ks c ksd Hks Hu8 Hf d pre rest highest Hr Hl) as (entries & d1 & d' & h & E & Hq1 & Hv & Hm & Hfr & _).
    { intros q ik k _. rewrite Hki. cbn. intros Hk. exists ik. by apply (prefix_again k). }
    exists d', h. split; [exact E|]. intros ik p k v [Ei Er] Hp.
    destruct (copied_indexed view limit ks c d limit entries ik p k v Hv ltac:(lia) Ei Hp Er) as (Hin & _ & Honly).
    destruct (indexed_later hash blake2b256 shape view limit ks c d d1 ik p (k, v) Hq1 Ei Er Hp) as [Ht|[Ei1 Er1]]; [left; by apply (gr_touched _ _ _ (mv_grows _ _ _ _ _ _ _ _ _ Hm))|].
    assert (reduce_key blake2b256 (ks_key_indexing ksd) ik = Ok ik) as Hik.
    { rewrite Hki. cbn. apply (prefix_again k). destruct (rs_keyed hash blake2b256 shape view d ks ksd p ik k v (proj1 (rs_indexed hash blake2b256 shape view d ks c ik p Ei)) Er Hks) as [Hk _]. by rewrite Hki in Hk. }
    assert (forall kv, In kv (copied view limit ks d entries) -> reduce_key blake2b256 (ks_key_indexing ksd) kv.1 = Ok kv.1) as Hidem.
    { intros kv Hkv. destruct (copied_reduced hash blake2b256 shape view limit ks ksd Hks d entries kv (vo_stored _ _ _ _ _ _ Hv) Hkv) as (_ & k' & _ & Hk'). rewrite Hki in *. by apply (prefix_again k'). }
    destruct (mv_some _ _ _ _ _ _ _ _ _ Hm ik p Ei1) as [[Ht _]|Hsome]; [by left|right].
    destruct (copy_for blake2b256 (ks_key_indexing ksd) (copied view limit ks d entries) ik) as [kv|] eqn:Ec.
    + rewrite (proj2 (Z.ltb_lt _ _) Hp) in Hsome. destruct Hsome as (q & Eq & _ & Hrec). exists q. split; [done|]. rewrite Hrec. f_equal.
      apply find_some in Ec as [Hkv Hm']. rewrite (Hidem kv Hkv) in Hm'. destruct (keqb_spec kv.1 ik) as [Ek|]; [by apply Honly|done].
    + apply find_none with (x := (ik, v)) in Ec; [|done]. cbn [fst] in Ec. by rewrite Hik, keqb_refl in Ec.
  - intros len from to_ Hki Hfrom (ik & p & [k v] & [Ei Er] & Hp).
    destruct (cell_copies hash blake2b256 shape view Hs filter limit ks c ksd Hks Hu8 Hf d Hl) as (entries & d1 & ctx & E1 & Hq1 & Hv & Hb & _).
    destruct (copied_indexed view limit ks c d limit entries ik p k v Hv ltac:(lia) Ei Hp Er) as (Hin & _).
    unfold run, index_cell. unfold mbind at 1, RM_bind at 1. rewrite E1. cbv zeta. rewrite (batch_empty hash _ _ _ _ _ Hb).
    destruct (copied view limit ks d entries) as [|kv copies] eqn:Ec; [done|]. unfold write_relocated_batch. rewrite (batch_empty hash _ _ _ _ _ Hb).
    pose proof Hb as [H1 H2 H3 H4 H5]. unfold mbind, RM_bind, rlift, ks_desc. rewrite H1, H4, Hks. cbn [expect].
    destruct (rs_append hash blake2b256 shape view d1 (rb_prepared_writes (cp_batch ctx))) as (d2 & positions & E2 & _ & Hlen & _). rewrite E2.
    destruct positions as [|pos positions]; [apply Forall2_length in H5; cbn in H5, Hlen; lia|]. cbn [List.map zip zip_with relocation_updates]. rewrite Hki. cbn [reduce_key].
    destruct (copied_reduced hash blake2b256 shape view limit ks ksd Hks d entries kv (vo_stored _ _ _ _ _ _ Hv)) as (_ & k' & _ & Hk'); [rewrite Ec; by left|]. rewrite Hki in Hk'.
    destruct (part_again k' from to_ kv.1 Hfrom Hk') as [msg Em]. exists msg. by rewrite Em.
  - intros Hki Hd.
    destruct (cell_written hash blake2b256 shape view Hs filter limit ks c ksd Hks Hu8 Hf d pre rest highest Hr Hl) as (entries & d1 & d' & h & E & Hq1 & Hv & Hm & Hfr & Hall).
    { intros q ik k _ _. rewrite Hki. cbn. unfold hash_key, slice. rewrite (proj2 (Nat.leb_le _ _) (Hd ik)). by eexists. }
    exists d', h. split; [exact E|]. intros ik p [k v] [Ei Er] Hp Hno.
    destruct (copied_indexed view limit ks c d limit entries ik p k v Hv ltac:(lia) Ei Hp Er) as (_ & Hin & _). split; [by apply (Hall ik p)|].
    destruct (indexed_later hash blake2b256 shape view limit ks c d d1 ik p (k, v) Hq1 Ei Er Hp) as [Ht|[Ei1 Er1]]; [left; by apply (gr_touched _ _ _ (mv_grows _ _ _ _ _ _ _ _ _ Hm))|].
    destruct (mv_some _ _ _ _ _ _ _ _ _ Hm ik p Ei1) as [[Ht _]|Hsome]; [by left|right].
    assert (copy_for blake2b256 (ks_key_indexing ksd) (copied view limit ks d entries) ik = None) as Ec.
    { destruct (copy_for _ _ _ ik) as [kv|] eqn:Ec; [|done]. exfalso. apply find_some in Ec as [Hkv Hm'].
      destruct (copied_reduced hash blake2b256 shape view limit ks ksd Hks d entries kv (vo_stored _ _ _ _ _ _ Hv) Hkv) as (q & _ & Hst & _).
      rewrite Hki in Hm'. cbn in Hm'. destruct (hash_key blake2b256 kv.1) as [r|] eqn:Eh; [|done]. destruct (keqb_spec r ik) as [->|]; [|done]. by apply (Hno q kv.1). }
    rewrite Ec in Hsome. split; [done|].
    by rewrite (proj2 (gr_stored _ _ _ (mv_grows _ _ _ _ _ _ _ _ _ Hm) ks p ik (proj1 (rs_indexed hash blake2b256 shape view d1 ks c ik p Ei1)))).
Qed.

(** ** Runs *)

Definition no_hash (_ : list Z) : Z := 0.

(** A digest that depends on the length and the first byte. *)
Definition mini_digest (k : list Z) : list Z := replicate 32 (Z.of_nat (length k) + List.hd 0 k).

Definition mini_space (ki : KeyIndexing) : KeySpaceDesc := mkKeySpace 0 "mini" ki 1 (Uniform 1) false.

(** The frame of a record. *)
Definition frame_of (k v : list Z) : list Z := match prepared_write no_hash (WalRecord 0 k v false) with Ok w => w | _ => [] end.

(** Watermarks kept as given. *)
Definition no_codec (_ : WatermarkData) : list Z := [].

Definition mini_index_run (ki : KeyIndexing) (cells : nat) (wm : WatermarkData) (filter : KeySpace -> option (list Z -> list Z -> Decision)) (d : MiniDb) :
    outcome (MiniDb * (WalError + list RelocationCommand)) :=
  index_based_relocation (H := mini_db mini_digest (mini_space ki) cells) no_hash mini_digest no_codec (fun _ => Some wm) [mini_space ki] filter (S cells) None [] d.

Definition indexed_at (ki : KeyIndexing) (cells : nat) (d : MiniDb) (c : Z) (ik : list Z) : option (WalPosition * (list Z * list Z)) :=
  match mini_lookup mini_digest (mini_space ki) cells d 0 (CellInteger c) ik with
  | Some p => option_map (pair p) (mini_record d (Z.to_nat (wp_offset p)))
  | None => None
  end.

Definition keep_all (_ : KeySpace) : option (list Z -> list Z -> Decision) := None.

Definition keep_one (_ : KeySpace) : option (list Z -> list Z -> Decision) := Some (fun k _ => if keqb k [1] then Keep else Remove).

(** Two records in the first and the last of three cells, and clients that
    rewrite the second one and remove a key while the run goes on. *)
Definition two_records : MiniDb :=
  mkMini {[(CellInteger 0, [1]) := 0%nat; (CellInteger 2, [2]) := 1%nat]} [frame_of [1] [7]; frame_of [2] [8]; frame_of [3] [9]] None [] 100 0
    ∅ [ClientPut (CellInteger 2) [2] (frame_of [2] [5]); ClientRemove (CellInteger 2) [3]] [].

(** The keys clients have written by the end of a run. *)
Definition touched_by {A} (o : outcome (MiniDb * A)) : list (CellId * list Z) := match o with Ok (d, _) => mi_touched d | Panic _ => [] end.

Lemma index_relocation_keeps_witness :
  exists (d' : MiniDb) reclaimed queue',
    mini_index_run VariableLength 3 watermark_default keep_one two_records =
      (_ ← rd_gc (RelocationDb := mini_db mini_digest (mini_space VariableLength) 3) reclaimed; mret queue') d' /\
    exists p', dv_index (mini_view mini_digest (mini_space VariableLength) 3 d') 0 (CellInteger 0) [1] = Some p' /\
      dv_record (mini_view mini_digest (mini_space VariableLength) 3 d') 0 p' [1] = Some ([1], [7]).
Proof.
  set (D := mini_db mini_digest (mini_space VariableLength) 3).
  destruct (index_relocation_keeps (H := D) no_hash mini_digest no_codec (fun _ => Some watermark_default) [mini_space VariableLength] keep_one
    (mini_view mini_digest (mini_space VariableLength) 3) two_records watermark_default None [] 4) as (d' & reclaimed & queue' & E & Hkeep & _).
  - apply mini_spec; [lia|by exists 1|done].
  - cbn. lia.
  - intros [|i] k x Hi; [|done]. by injection Hi as <-.
  - intros ks f k v [= <-]. destruct (keqb k [1]); done.
  - constructor.
  - by intros [].
  - reflexivity.
  - by left.
  - vm_compute. lia.
  - exists d', reclaimed, queue'. split; [exact E|].
    destruct (Hkeep 0 (CellInteger 0) [1] (mini_pos 0) ([1], [7])) as [Ht|Hp]; [vm_compute; reflexivity|vm_compute; reflexivity| |exact Hp].
    exfalso. apply (f_equal touched_by) in E. change (touched_by _) with (mi_touched d') in E at 2. cbn in Ht. rewrite <- E in Ht.
    revert Ht. apply (bool_decide_unpack _). vm_compute. exact I.
Defined.

Definition mini_config : RelocationConfig := mkRelocConfig None 100 10 1.

Lemma wal_relocation_keeps_witness :
  let D := mini_db mini_digest (mini_space (Reduction 4 0 2)) 3 in
  let view := mini_view mini_digest (mini_space (Reduction 4 0 2)) 3 in
  let d := mkMini {[(CellInteger 0, [1; 2]) := 0%nat]} [frame_of [1; 2; 3; 4] [7]; frame_of [9; 9; 9; 9] [8]; frame_of [5; 5; 5; 5] []] None [] 0 0 ∅ [] [] in
  exists d' reclaimed, wal_based_relocation (H := D) no_hash mini_digest [mini_space (Reduction 4 0 2)] keep_all 4 mini_config d = rd_gc reclaimed d' /\
    exists p', dv_index (view d') 0 (CellInteger 0) [1; 2] = Some p' /\ dv_record (view d') 0 p' [1; 2] = Some ([1; 2; 3; 4], [7]).
Proof.
  intros D view d.
  destruct (wal_relocation_keeps (H := D) no_hash mini_digest [mini_space (Reduction 4 0 2)] keep_all view d mini_config 4) as [Hq|(d' & reclaimed & t & E & Hkeep & _)].
  - apply mini_spec; [lia|by exists 1|done].
  - cbn. lia.
  - cbn. lia.
  - done.
  - intros d' frames last Hsc. vm_compute in Hsc. injection Hsc as <- <- <-. exists 2. vm_compute. reflexivity.
  - vm_compute. lia.
  - exfalso. destruct Hq as (d' & E & Hq). vm_compute in E. injection E as <-. destruct (qt_index _ _ _ Hq 0 (CellInteger 0) [1; 2]) as [Hi|[Ht _]]; [vm_compute in Hi; discriminate|].
    cbn in Ht. revert Ht. apply (bool_decide_unpack _). vm_compute. exact I.
  - exists d', reclaimed. split; [exact E|].
    destruct (Hkeep 0 (CellInteger 0) [1; 2] (mini_pos 0) ([1; 2; 3; 4], [7])) as [Ht|[[[f Hf] _]|Hp]]; [vm_compute; reflexivity|vm_compute; reflexivity| |done|exact Hp].
    exfalso. apply (f_equal touched_by) in E. change (touched_by _) with (mi_touched d') in E at 2. cbn in Ht. rewrite <- E in Ht.
    revert Ht. apply (bool_decide_unpack _). vm_compute. exact I.
Defined.

(** ** Unfinished runs *)

(** A record in the last of 1001 cells, older than one in the first; the command
    to cancel arrives before the second look at the channel. *)
Definition cancelled_db : MiniDb :=
  mkMini {[(CellInteger 1000, [9]) := 0%nat; (CellInteger 0, [1]) := 1%nat]} [frame_of [9] [7]; frame_of [1] [8]; frame_of [3] [9]] None [[]; [CommandCancel]] 100 0 ∅ [] [].

(** A record was written to the first cell after a run that stopped there; the
    progress of that run says to go on with the second cell. *)
Definition resumed_db : MiniDb :=
  mkMini {[(CellInteger 0, [1]) := 0%nat; (CellInteger 1, [9]) := 1%nat]} [frame_of [1] [7]; frame_of [9] [8]; frame_of [3] [9]] (Some []) [] 100 0 ∅ [] [].

Definition resumed_progress : WatermarkData := mkWatermark (Some (mkCellRef 0 (CellInteger 1))) 0 0 None.

(** An unfinished index-based run reclaims records it has not copied.  A run
    cancelled after a thousand cells still asks the log to drop what is below the
    highest position of the cells it processed, with a live record of a later
    cell there, and it saves no cell to go on from; a run that resumes the
    progress of an earlier one does the same to a record written since in a cell
    it no longer visits. *)
Lemma unfinished_runs_reclaim :
  (exists d', mini_index_run VariableLength 1001 watermark_default keep_all cancelled_db = Ok (d', inr []) /\
     indexed_at VariableLength 1001 d' 1000 [9] = Some (mini_pos 0, ([9], [7])) /\ mi_reclaimed d' = 1) /\
  exists d', mini_index_run VariableLength 2 resumed_progress keep_all resumed_db = Ok (d', inr []) /\
    indexed_at VariableLength 2 d' 0 [1] = Some (mini_pos 0, ([1], [7])) /\ mi_reclaimed d' = 1.
Proof.
  split.
  - assert ((match mini_index_run VariableLength 1001 watermark_default keep_all cancelled_db with
             | Ok (d', inr q) => Some (q, indexed_at VariableLength 1001 d' 1000 [9], mi_reclaimed d') | _ => None end) = Some ([], Some (mini_pos 0, ([9], [7])), 1)) as E
      by (vm_compute; reflexivity).
    destruct (mini_index_run _ _ _ _ _) as [[d' [e|q]]|]; [done| |done]. injection E as -> E1 E2. by exists d'.
  - assert ((match mini_index_run VariableLength 2 resumed_progress keep_all resumed_db with
             | Ok (d', inr q) => Some (q, indexed_at VariableLength 2 d' 0 [1], mi_reclaimed d') | _ => None end) = Some ([], Some (mini_pos 0, ([1], [7])), 1)) as E
      by (vm_compute; reflexivity).
    destruct (mini_index_run _ _ _ _ _) as [[d' [e|q]]|]; [done| |done]. injection E as -> E1 E2. by exists d'.
Qed.

(** ** Index keys that are not record keys, a run *)

(** Keys of four bytes indexed by the first two. *)
Definition prefix_db : MiniDb :=
  mkMini {[(CellInteger 0, [1; 2]) := 0%nat; (CellInteger 0, [9; 9]) := 1%nat]} [frame_of [1; 2; 3; 4] [7]; frame_of [9; 9; 9; 9] [8]; frame_of [3] [9]] None [] 100 0 ∅ [] [].

Lemma reduced_key_relocation_loses_witness :
  let D := mini_db mini_digest (mini_space (Reduction 4 0 2)) 1 in
  let view := mini_view mini_digest (mini_space (Reduction 4 0 2)) 1 in
  dv_index (view prefix_db) 0 (CellInteger 0) [1; 2] = Some (mini_pos 0) /\ dv_record (view prefix_db) 0 (mini_pos 0) [1; 2] = Some ([1; 2; 3; 4], [7]) /\
  exists d' h p', index_cell (H := D) no_hash mini_digest [mini_space (Reduction 4 0 2)] keep_all 2 (mkCellRef 0 (CellInteger 0)) 0 prefix_db = Ok (d', inr (h, None)) /\
    dv_index (view d') 0 (CellInteger 0) [1; 2] = Some p' /\ dv_record (view d') 0 p' [1; 2] = Some ([1; 2], [7]).
Proof.
  intros D view.
  destruct (reduced_key_relocation_loses (H := D) no_hash mini_digest [mini_space (Reduction 4 0 2)] keep_all view prefix_db [] 0 (CellInteger 0) [] (mini_space (Reduction 4 0 2)) 2 0)
    as [Hprefix _].
  - apply mini_spec; [lia|by exists 1|done].
  - cbn. lia.
  - vm_compute. reflexivity.
  - vm_compute. congruence.
  - done.
  - done.
  - destruct (Hprefix 4%nat 2%nat eq_refl) as (d' & h & E & Hall). split; [vm_compute; reflexivity|]. split; [vm_compute; reflexivity|].
    destruct (Hall [1; 2] (mini_pos 0) [1; 2; 3; 4] [7]) as [Ht|(p' & E' & Hr)]; [split; vm_compute; reflexivity|vm_compute; reflexivity| |].
    + exfalso. apply (f_equal touched_by) in E. change (touched_by _) with (mi_touched d') in E at 2. cbn in Ht. rewrite <- E in Ht.
      revert Ht. apply (bool_decide_unpack _). vm_compute. exact I.
    + exists d', h, p'. split; [exact E|]. by split.
Defined.
