(* ===== verification/CellOps.v ===== *)
(** * The live cell

    The operations of [LargeTableEntry] (src/tidehunter/src/large_table.rs) on a
    running database: writes and the promotion of committed transactions,
    loading the L0 blob, choosing the levels a read walks, requesting a flush,
    taking over its result, relocated levels, the synchronous flush, and the
    copy-on-write handle of the cell's table (primitives/arc_cow.rs).
    Definitions only.

    [LiveEntry] is the struct's remaining state around [LargeTableEntry]: the
    identity of the shared table, the pending table and the value cache.  An
    [Arc] is a number that is never reused while the cell lives.  The value cache
    is the lru crate's [LruCache], a parameter ([ValueCache]).  An operation that
    returns [Result] gives the entry as it is left and whether it returned [Ok];
    flush requests, which the code sends to the flusher's channel, are
    returned. *)

From Stdlib Require Import ZArith Lia List.
From stdpp Require Import base tactics list gmap strings.
From S2P Require Import Prelude BTree Bytes Position Flat IndexTable IndexOps Levels Loader Flusher TableEntry Snapshot Pending.

Local Open Scope Z_scope.

(** [fastbloom::BloomFilter]: a filter is the list of the keys inserted into it,
    and the bits these keys set may happen to be those of another key, for which
    [contains] then answers yes too.  Which keys collide is a parameter, and
    nothing is assumed of it. *)
Class BloomHashes := { bloom_collides : list (list Z) -> list Z -> bool }.

(** ** The value cache *)

Class ValueCache (C : Type) := {
  lru_get : C -> list Z -> C * option (list Z * list Z);
  lru_push : C -> list Z -> list Z * list Z -> C;
  lru_pop : C -> list Z -> C;
}.

(** What the cache promises: it may forget, never invent. *)
Class ValueCacheSpec (C : Type) `{ValueCache C} := {
  lru_find : C -> list Z -> option (list Z * list Z);
  lru_get_ok : forall c k, (lru_get c k).2 = lru_find c k /\ forall k', lru_find (lru_get c k).1 k' = lru_find c k';
  lru_push_ok : forall c k v k' w, lru_find (lru_push c k v) k' = Some w ->
    if keqb k' k then w = v else lru_find c k' = Some w;
  lru_pop_ok : forall c k k' w, lru_find (lru_pop c k) k' = Some w -> k' <> k /\ lru_find c k' = Some w;
}.

(** ** State *)

Record LiveEntry (C : Type) := mkLive {
  lv_entry : LargeTableEntry;
  (** [ArcCow]: the identity of the shared table, [None] when it is owned *)
  lv_shared : option nat;
  (** the identity the next [Arc] gets *)
  lv_next_arc : nat;
  lv_pending_data : PendingTable;
  lv_value_lru : option C;
}.

Arguments mkLive {C}.
Arguments lv_entry {C}.
Arguments lv_shared {C}.
Arguments lv_next_arc {C}.
Arguments lv_pending_data {C}.
Arguments lv_value_lru {C}.

(** What an entry reads of its key space and the configuration. *)
Record CellContext := mkCellContext {
  cx_flush : FlushCtx;
  cx_max_dirty_keys : Z;
  cx_unload_jitter : Z;
  cx_sync_flush : bool;
  cx_unloading_disabled : bool;
}.

Definition state_is_loaded (s : LargeTableEntryState) : bool :=
  match s with Empty | Loaded | DirtyLoaded => true | Unloaded | DirtyUnloaded => false end.

Definition state_is_dirty (s : LargeTableEntryState) : bool :=
  match s with DirtyUnloaded | DirtyLoaded => true | Empty | Unloaded | Loaded => false end.

Definition set_state (e : LargeTableEntry) (st : LargeTableEntryState) : LargeTableEntry :=
  mkEntry st (le_levels e) (le_last_processed e) (le_pending_last_processed e) (le_bloom e) (le_data e).

Definition set_levels (e : LargeTableEntry) (l : IndexLevels) : LargeTableEntry :=
  mkEntry (le_state e) l (le_last_processed e) (le_pending_last_processed e) (le_bloom e) (le_data e).

Definition set_table (e : LargeTableEntry) (t : IndexTable) : LargeTableEntry :=
  mkEntry (le_state e) (le_levels e) (le_last_processed e) (le_pending_last_processed e) (le_bloom e) t.

Definition set_last_processed (e : LargeTableEntry) (lp : LastProcessed) : LargeTableEntry :=
  mkEntry (le_state e) (le_levels e) lp (le_pending_last_processed e) (le_bloom e) (le_data e).

Definition set_pending_last_processed (e : LargeTableEntry) (lp : option LastProcessed) : LargeTableEntry :=
  mkEntry (le_state e) (le_levels e) (le_last_processed e) lp (le_bloom e) (le_data e).

Section ops.
Context {C : Type} `{ValueCache C}.
Notation Live := (LiveEntry C).

Definition lv_state (c : Live) : LargeTableEntryState := le_state (lv_entry c).
Definition lv_table (c : Live) : IndexTable := le_data (lv_entry c).

Definition on_entry (c : Live) (f : LargeTableEntry -> LargeTableEntry) : Live :=
  mkLive (f (lv_entry c)) (lv_shared c) (lv_next_arc c) (lv_pending_data c) (lv_value_lru c).

(** *** [ArcCow] *)

(** [make_mut] or a new owned table, with [t] as the new value. *)
Definition put_owned (c : Live) (t : IndexTable) : Live :=
  mkLive (set_table (lv_entry c) t) None (lv_next_arc c) (lv_pending_data c) (lv_value_lru c).

Definition clone_shared (c : Live) : Live * SharedTable :=
  match lv_shared c with
  | Some id => (c, mkShared id (lv_table c))
  | None =>
      let id := lv_next_arc c in
      (mkLive (lv_entry c) (Some id) (Datatypes.S id) (lv_pending_data c) (lv_value_lru c), mkShared id (lv_table c))
  end.

Definition same_shared (c : Live) (other : SharedTable) : bool :=
  match lv_shared c with None => false | Some id => (id =? sh_id other)%nat end.

(** *** Writes *)

(** [frontier]: the published [last_processed]. *)
Definition mark_dirty (frontier : LastProcessed) (e : LargeTableEntry) (v : WalPosition) : LargeTableEntry :=
  let write := wp_offset v in
  let e := set_last_processed e
             (if state_is_empty (le_state e) then Z.min write frontier else Z.min (le_last_processed e) write) in
  set_state e (state_mark_dirty (le_state e)).

Definition insert_bloom_filter (e : LargeTableEntry) (key : list Z) : LargeTableEntry :=
  mkEntry (le_state e) (le_levels e) (le_last_processed e) (le_pending_last_processed e)
    (option_map (fun keys => keys ++ [key]) (le_bloom e)) (le_data e).

(** [BloomFilter::contains] of a filter the keys were inserted into. *)
Definition bloom_contains `{BloomHashes} (keys : list (list Z)) (key : list Z) : bool := existsb (keqb key) keys || bloom_collides keys key.

Definition bloom_filter_not_found `{BloomHashes} (e : LargeTableEntry) (key : list Z) : bool :=
  match le_bloom e with Some keys => negb (bloom_contains keys key) | None => false end.

Definition cell_insert (frontier : LastProcessed) (c : Live) (k : list Z) (v : WalPosition) (full_key : list Z)
    (lru_value : option (list Z)) : outcome Live :=
  let c := on_entry c (fun e => insert_bloom_filter (mark_dirty frontier e v) k) in
  '(t, order) ← it_insert (lv_table c) k v;
  let c := put_owned c t in
  match order with
  | Stale => Ok c
  | Latest =>
      match lv_value_lru c with
      | Some lru =>
          value ← expect lru_value "lru_value must be provided if LRU is configured";
          Ok (mkLive (lv_entry c) (lv_shared c) (lv_next_arc c) (lv_pending_data c) (Some (lru_push lru k (full_key, value))))
      | None => Ok c
      end
  end.

Definition cell_remove (frontier : LastProcessed) (c : Live) (k : list Z) (v : WalPosition) : outcome Live :=
  let c := on_entry c (fun e => mark_dirty frontier e v) in
  '(t, order) ← it_remove (lv_table c) k v;
  let c := put_owned c t in
  match order with
  | Stale => Ok c
  | Latest =>
      Ok (mkLive (lv_entry c) (lv_shared c) (lv_next_arc c) (lv_pending_data c)
            (option_map (fun lru => lru_pop lru k) (lv_value_lru c)))
  end.

Definition split_lru_update (reduced_key : list Z) (lru_update : option (list Z * list Z)) : list Z * option (list Z) :=
  match lru_update with Some (full_key, value) => (full_key, Some value) | None => (reduced_key, None) end.

Fixpoint apply_committed_changes (frontier : LastProcessed) (c : Live) (committed : list CommittedChange) : outcome Live :=
  match committed with
  | [] => Ok c
  | change :: rest =>
      c ← (if cc_is_modified change then
             let '(full_key, lru_value) := split_lru_update (cc_key change) (cc_lru_update change) in
             cell_insert frontier c (cc_key change) (cc_value change) full_key lru_value
           else cell_remove frontier c (cc_key change) (cc_value change));
      apply_committed_changes frontier c rest
  end.

Definition set_pending_data (c : Live) (p : PendingTable) : Live :=
  mkLive (lv_entry c) (lv_shared c) (lv_next_arc c) p (lv_value_lru c).

Definition promote_pending (frontier : LastProcessed) (st : status_store) (c : Live) : outcome Live :=
  '(pending, committed, _) ← take_committed st (lv_pending_data c);
  apply_committed_changes frontier (set_pending_data c pending) committed.

Definition promote_pending_for (frontier : LastProcessed) (st : status_store) (c : Live) (key : list Z) : outcome Live :=
  '(pending, committed, _) ← take_committed_for st (lv_pending_data c) key;
  apply_committed_changes frontier (set_pending_data c pending) committed.

(** *** Reads *)

Definition cell_get (c : Live) (k : list Z) : outcome (option WalPosition) :=
  if bool_decide (lv_state c = Unloaded) then Panic "Can't get in unloaded state" else it_get (lv_table c) k.

Definition cell_get_at (c : Live) (k : list Z) (last_processed : LastProcessed) : outcome (option WalPosition) :=
  if bool_decide (lv_state c = Unloaded) then Panic "Can't get in unloaded state" else it_get_at (lv_table c) k last_processed.

Definition cell_next_entry (c : Live) (prev_key : option (list Z)) (reverse : bool) : outcome (option (list Z * WalPosition)) :=
  if bool_decide (lv_state c = Unloaded) then Panic "Can't next_entry in unloaded state"
  else next_entry (lv_table c) prev_key reverse.

Definition below_l0_only (c : Live) : bool :=
  match lv_state c with Loaded | DirtyLoaded => true | _ => false end.

Definition disk_levels_to_walk (c : Live) : list WalPosition :=
  if below_l0_only c then levels_iter_below_l0 (le_levels (lv_entry c)) else levels_iter (le_levels (lv_entry c)).

(** L0 unless the table holds it, then the shard picked. *)
Definition l0_and_shard (c : Live) (shard : option IndexShard) : list WalPosition :=
  (if below_l0_only c then [] else option_list (levels_l0 (le_levels (lv_entry c)))) ++ option_list (option_map shard_position shard).

Definition disk_levels_to_walk_for_key (c : Live) (key : list Z) : list WalPosition :=
  let levels := le_levels (lv_entry c) in
  if negb (levels_is_sharded levels) then disk_levels_to_walk c else l0_and_shard c (shard_for levels key).

Definition disk_levels_to_walk_for_iter (c : Live) (prev_key : option (list Z)) (reverse : bool) : list WalPosition :=
  let levels := le_levels (lv_entry c) in
  if negb (levels_is_sharded levels) then disk_levels_to_walk c
  else l0_and_shard c (if reverse then shard_for_iter_reverse levels prev_key else shard_for_iter_forward levels prev_key).

(** *** Flush requests *)

Definition flush_kind (c : Live) (relocate_positions : list WalPosition) : Live * option FlushKind :=
  match lv_state c with
  | Empty | Unloaded | Loaded => (c, None)
  | DirtyUnloaded =>
      let '(c, dirty) := clone_shared c in (c, Some (Flush dirty (le_levels (lv_entry c)) false relocate_positions))
  | DirtyLoaded =>
      let '(c, dirty) := clone_shared c in (c, Some (Flush dirty (le_levels (lv_entry c)) true relocate_positions))
  end.

Definition request_flush_if_behind (c : Live) (loader_last_processed : LastProcessed) (threshold_position : Z) :
    outcome (Live * option FlushKind) :=
  match le_pending_last_processed (lv_entry c) with
  | Some _ => Ok (c, None)
  | None =>
      if negb (state_is_dirty (lv_state c)) then Ok (c, None)
      else if threshold_position <? le_last_processed (lv_entry c) then Ok (c, None)
      else
        let c := on_entry c (fun e => set_pending_last_processed e (Some loader_last_processed)) in
        let '(c, kind) := flush_kind c [] in
        kind ← expect kind "entry must be dirty here (state checked above)";
        Ok (c, Some kind)
  end.

(** [relocate_files]: which blobs lie in low-occupancy files. *)
Definition request_force_relocate (c : Live) (loader_last_processed : LastProcessed) (relocate_files : WalPosition -> bool) :
    outcome (Live * option FlushKind) :=
  match le_pending_last_processed (lv_entry c) with
  | Some _ => Ok (c, None)
  | None =>
      let relocate_positions := List.filter relocate_files (levels_iter (le_levels (lv_entry c))) in
      match relocate_positions with
      | [] => Ok (c, None)
      | _ =>
          let c := on_entry c (fun e => set_pending_last_processed e (Some loader_last_processed)) in
          if state_is_dirty (lv_state c) then
            let '(c, kind) := flush_kind c relocate_positions in
            kind ← expect kind "entry must be dirty here (state checked above)";
            Ok (c, Some kind)
          else Ok (c, Some (ForceRelocate (le_levels (lv_entry c)) relocate_positions))
      end
  end.

(** *** Taking over a flush *)

Definition commit_pending_last_processed (c : Live) : outcome (Live * LastProcessed) :=
  pending ← expect (le_pending_last_processed (lv_entry c))
              "commit_pending_last_processed called while pending_last_processed is not set";
  Ok (on_entry c (fun e => set_last_processed (set_pending_last_processed e None) pending), pending).

(** [Unloaded] when nothing is left in the table, [DirtyUnloaded] otherwise. *)
Definition settle_unloaded (c : Live) : Live :=
  on_entry c (fun e => set_state e (if it_is_empty (le_data e) then Unloaded else DirtyUnloaded)).

Definition clear_after_flush (cx : CellContext) (c : Live) (new_levels : IndexLevels) (last_processed : LastProcessed)
    (unload : bool) : outcome Live :=
  let c := on_entry c (fun e => set_levels e new_levels) in
  if negb unload && bool_decide (lv_state c = DirtyUnloaded) then Ok c
  else if state_is_loaded (lv_state c) && (negb unload || cx_unloading_disabled cx) then
    if has_unprocessed (lv_table c) last_processed then Ok (on_entry c (fun e => set_state e DirtyLoaded))
    else
      c ← match levels_iter_below_l0 new_levels with
          | [] => t ← clean_self (lv_table c); Ok (put_owned c t)
          | _ => Ok c
          end;
      Ok (on_entry c (fun e => set_state e Loaded))
  else
    t ← retain_unprocessed (lv_table c) last_processed;
    Ok (settle_unloaded (put_owned c t)).

Definition update_flushed_index (cx : CellContext) (c : Live) (original_index : SharedTable) (new_levels : IndexLevels) :
    outcome Live :=
  _ ← match lv_state c with
      | DirtyUnloaded | DirtyLoaded => Ok tt
      | Empty => Panic "update_merged_index in Empty state"
      | Unloaded => Panic "update_merged_index in Unloaded state"
      | Loaded => Panic "update_merged_index in Loaded state"
      end;
  '(c, pending_last_processed) ← commit_pending_last_processed c;
  if same_shared c original_index then clear_after_flush cx c new_levels pending_last_processed true
  else
    t ← unmerge_flushed (lv_table c) (sh_table original_index) pending_last_processed;
    Ok (on_entry (put_owned c t) (fun e => set_state (set_levels e new_levels) DirtyUnloaded)).

Definition update_relocated_position (c : Live) (new_levels : IndexLevels) : outcome Live :=
  '(c, last_processed) ← commit_pending_last_processed c;
  match lv_state c with
  | Unloaded | DirtyUnloaded => Ok (on_entry c (fun e => set_levels e new_levels))
  | Loaded => Ok (put_owned (on_entry c (fun e => set_state (set_levels e new_levels) Unloaded)) it_default)
  | DirtyLoaded =>
      let overlay_still_covers_l0 :=
        levels_is_sharded new_levels ||
        match levels_iter_below_l0 (le_levels (lv_entry c)) with [] => true | _ => false end in
      let c := on_entry c (fun e => set_levels e new_levels) in
      if overlay_still_covers_l0 then Ok c
      else
        t ← retain_unprocessed (lv_table c) last_processed;
        Ok (settle_unloaded (put_owned c t))
  | Empty => Panic "update_relocated_position called in Empty state"
  end.

Definition dropped_positions (c : Live) (before : list WalPosition) : list WalPosition :=
  List.filter (fun p => negb (positions_contain p (levels_iter (le_levels (lv_entry c))))) before.

(** *** Snapshots *)

(** [ks_snapshot] on an entry whose pending writes were promoted: the entry as
    it is left, its snapshot and its part of [replay_from]. *)
Definition cell_snapshot (loader_last_processed : LastProcessed) (c : Live) : Live * SnapshotEntryData * option Z :=
  let c := if negb (state_is_dirty (lv_state c)) && negb (state_is_empty (lv_state c))
           then on_entry c (fun e => set_last_processed e loader_last_processed) else c in
  (c, mkSnapshotEntry (le_levels (lv_entry c)) (le_last_processed (lv_entry c)),
   if state_is_empty (lv_state c) then None else Some (le_last_processed (lv_entry c))).

(** *** Loading and flushing through the loader *)

Context {S : Type} `{Loader S}.

(** Whether the entry is unloaded: [Some true] with writes of its own. *)
Definition as_unloaded_state (c : Live) : option bool :=
  match lv_state c with
  | Unloaded => Some false
  | DirtyUnloaded => Some true
  | Empty | Loaded | DirtyLoaded => None
  end.

Definition maybe_load (c : Live) : LM S (Live * bool) :=
  match as_unloaded_state c, le_pending_last_processed (lv_entry c) with
  | None, _ | _, Some _ => mret (c, true)
  | Some dirty, None =>
      loaded ← match levels_l0 (le_levels (lv_entry c)) with
               | Some pos => asks (fun s => ld_load s pos)
               | None => mret (Some it_default)
               end;
      match loaded with
      | None => mret (c, false)
      | Some data =>
          data ← (if (dirty : bool) then lift (merge_dirty_no_clean data (lv_table c))
                  else _ ← lift (assert_that (it_is_empty (lv_table c)) "assertion failed: self.data.is_empty()"); mret data);
          mret (on_entry (put_owned c data) (fun e => set_state e (if (dirty : bool) then DirtyLoaded else Loaded)), true)
      end
  end.

(** [st]: the status of the transactions. *)
Definition sync_flush (cx : CellContext) (st : status_store) (c : Live) (relocation : RelocationFlush) :
    LM S (Live * bool) :=
  _ ← lift (assert_that (match le_pending_last_processed (lv_entry c) with None => true | Some _ => false end)
              "sync_flush is called while async flush is in progress");
  last_processed ← asks ld_last_processed;
  frontier ← asks ld_last_processed;
  c ← lift (promote_pending frontier st c);
  let '(c, kind) := flush_kind c [] in
  '(c, ok, kind) ←
    match kind with
    | Some kind => mret (c, true, Some kind)
    | None =>
        match relocation with
        | RelocationNone => mret (c, true, None)
        | _ =>
            '(c, ok) ← maybe_load c;
            if negb ok then mret (c, false, None)
            else
              let '(c, dirty) := clone_shared c in
              mret (c, true, Some (Flush dirty (le_levels (lv_entry c)) true []))
        end
    end;
  match kind with
  | None => mret (c, ok)
  | Some kind =>
      r ← handle_command (cx_flush cx) kind relocation;
      match r with
      | None => mret (c, true)
      | Some (_, new_levels) =>
          let c := on_entry c (fun e => set_last_processed e last_processed) in
          '(c, ok) ←
            (if cx_unloading_disabled cx && state_is_loaded (lv_state c) then
               blob ← match levels_l0 new_levels with
                      | Some pos => asks (fun s => ld_load s pos)
                      | None => mret (Some it_default)
                      end;
               match blob with
               | None => mret (c, false)
               | Some blob =>
                   t ← lift (rebase_on_as_of (lv_table c) blob last_processed);
                   mret (put_owned c t, true)
               end
             else mret (c, true));
          if negb (ok : bool) then mret (c, false)
          else
            c ← lift (clear_after_flush cx c new_levels last_processed true);
            mret (c, true)
      end
  end.

Definition unload_if_ks_enabled (cx : CellContext) (st : status_store) (c : Live) :
    LM S (Live * bool * option FlushKind) :=
  if cx_unloading_disabled cx then mret (c, true, None)
  else
    match le_pending_last_processed (lv_entry c) with
    | Some _ => mret (c, true, None)
    | None =>
        if cx_sync_flush cx then
          '(c, ok) ← sync_flush cx st c RelocationNone;
          mret (c, ok, None)
        else
          last_processed ← asks ld_last_processed;
          let c := on_entry c (fun e => set_pending_last_processed e (Some last_processed)) in
          frontier ← asks ld_last_processed;
          c ← lift (promote_pending frontier st c);
          let '(c, kind) := flush_kind c [] in
          kind ← lift (expect kind "unload_if_ks_enabled is called in clean state");
          mret (c, true, Some kind)
    end.

Definition excess_dirty_keys (cx : CellContext) (dirty_keys_count : Z) : bool := cx_max_dirty_keys cx <? dirty_keys_count.

Definition too_many_dirty (cx : CellContext) (c : Live) : bool :=
  state_is_dirty (lv_state c) && excess_dirty_keys cx (Z.max 0 (it_dirty_count (lv_table c) - cx_unload_jitter cx)).

Definition promote_pending_and_check_flush (cx : CellContext) (flush_supported : bool) (st : status_store) (c : Live) :
    LM S (Live * bool * option FlushKind * nat) :=
  frontier ← asks ld_last_processed;
  c ← lift (promote_pending frontier st c);
  let remaining_pending := pt_len (lv_pending_data c) in
  if flush_supported && too_many_dirty cx c then
    '(c, ok, kind) ← unload_if_ks_enabled cx st c;
    mret (c, ok, kind, remaining_pending)
  else mret (c, true, None, remaining_pending).
End ops.
