(* ===== verification/CellSystem.v ===== *)
(** * The life of a cell

    A cell of the large table as a transition system: writers, the promotion
    job, loads, the flush hand-over between the cell and the flusher, and the
    advance of the WAL frontier, in any interleaving.  The ghost history of the
    writes applied to the cell is the abstract state; the invariant relates the
    cell, its blobs and a flush in flight to it.

    [cs_barrier] is the largest frontier at which the cell's committed updates
    were drained (a flush request, a promotion or a snapshot): a write still to be applied is
    at or above it, because its WAL guard, or the transaction not yet committed,
    held the frontier back when it was read. *)

From Stdlib Require Import ZArith Lia List Sorting.Sorted.
From stdpp Require Import base tactics list gmap strings.
From S2P Require Import Prelude BTree Bytes Position Flat FlatFacts IndexTable IndexOps IndexTableFacts IndexWalk.
From S2P Require Import IndexPromote IndexFlush IndexUnmerge IndexCodec IndexClean Levels Loader Flusher FlusherFacts.
From S2P Require Import FlusherShards FlushCommand TableEntry Pending CellOps.

Local Open Scope Z_scope.

(** ** Histories *)

(** The writes of a history to a key, oldest first. *)
Fixpoint history_of (k : list Z) (h : list entry) : list IndexWalPosition :=
  match h with
  | [] => []
  | (k', v) :: h => if keqb k k' then pos_insert v (history_of k h) else history_of k h
  end.

(** The newest write to a key below a frontier. *)
Definition newest_at (lp : LastProcessed) (k : list Z) (h : list entry) : option IndexWalPosition :=
  last (processed_of lp (history_of k h)).

Definition newest_write (k : list Z) (h : list entry) : option IndexWalPosition := last (history_of k h).

(** A write whose WAL position no write of the history to the key has. *)
Definition fresh_write (h : list entry) (k : list Z) (v : IndexWalPosition) : Prop :=
  Forall (fun p => iwp_offset p <> iwp_offset v) (history_of k h).

(** Each write of a history was fresh when it was made. *)
Fixpoint history_ok (h : list entry) : Prop :=
  match h with [] => True | (k, v) :: h => fresh_write h k v /\ iwp_fits v /\ history_ok h end.

Lemma history_sorted k h : history_ok h -> pos_sorted (history_of k h).
Proof.
  induction h as [|[k' v] h IH]; cbn [history_of history_ok]; [constructor|]. intros (Hf & _ & Hh).
  destruct (keqb_spec k k') as [->|]; [|by apply IH]. apply pos_insert_sorted; [by apply IH|done].
Qed.

Lemma history_fits k h : history_ok h -> Forall iwp_fits (history_of k h).
Proof.
  induction h as [|[k' v] h IH]; cbn [history_of history_ok]; [constructor|]. intros (Hf & Hv & Hh).
  destruct (keqb_spec k k') as [->|]; [|by apply IH]. rewrite List.Forall_forall. intros p [->|Hp]%pos_insert_In; [done|].
  specialize (IH Hh). rewrite List.Forall_forall in IH. by apply IH.
Qed.

Lemma newest_write_at k h : history_ok h -> newest_write k h = newest_at (2 ^ 64) k h.
Proof.
  intros Hh. unfold newest_write, newest_at, processed_of. rewrite filter_all; [done|].
  eapply Forall_impl; [by apply history_fits|]. intros p [[_ Ho] _]. by apply Z.ltb_lt.
Qed.

(** A write at or above [b] is the newest of what is in [po] and of the whole
    history alike, when all writes from [b] on are in [po]. *)
Lemma write_newest lp po hp v b :
  pos_sorted po -> pos_sorted hp -> Forall (fun p => iwp_offset p <> iwp_offset v) hp ->
  (forall p, In p po -> In p hp) -> (forall p, In p hp -> b <= iwp_offset p -> In p po) ->
  b <= iwp_offset v -> iwp_offset v < lp ->
  last (processed_of lp (pos_insert v po)) = last (processed_of lp (pos_insert v hp)).
Proof.
  intros Hpo Hhp Hf Hsub Hrec Hb Hlt.
  assert (pos_sorted (pos_insert v hp)) as Hsh by (by apply pos_insert_sorted).
  assert (pos_sorted (pos_insert v po)) as Hsp.
  { apply pos_insert_sorted; [done|]. rewrite List.Forall_forall in *. auto. }
  destruct (last (processed_of lp (pos_insert v hp))) as [m|] eqn:E.
  - apply pos_last_spec in E as [Hin Hmax]; [|by apply processed_sorted].
    assert (iwp_offset v <= iwp_offset m) as Hvm.
    { apply Hmax, processed_In. split; [apply pos_insert_In; by left|done]. }
    apply pos_last_spec; [by apply processed_sorted|]. apply processed_In in Hin as [Hin Hml]. split.
    + apply processed_In. split; [|done]. apply pos_insert_In in Hin as [->|Hin]; apply pos_insert_In; [by left|].
      right. apply Hrec; [done|lia].
    + intros q [Hq Hql]%processed_In. apply Hmax, processed_In. split; [|done].
      apply pos_insert_In in Hq as [->|Hq]; apply pos_insert_In; [by left|right; auto].
  - apply last_None in E. exfalso. cut (In v []); [done|]. rewrite <- E. apply processed_In.
    split; [apply pos_insert_In; by left|done].
Qed.

Lemma write_later lp ps v : lp <= iwp_offset v -> processed_of lp (pos_insert v ps) = processed_of lp ps.
Proof.
  intros Hle. unfold processed_of, pos_insert.
  assert (forall l, List.filter (is_processed lp) (List.filter (fun p => iwp_offset p <? iwp_offset v) l ++
            v :: List.filter (fun p => negb (iwp_offset p <? iwp_offset v)) l) = List.filter (is_processed lp) l) as ->; [|done].
  intros l. rewrite List.filter_app. cbn [List.filter].
  assert (is_processed lp v = false) as -> by (apply Z.ltb_ge; done). cbv iota.
  rewrite (filter_none (is_processed lp) (List.filter (fun p => negb (iwp_offset p <? iwp_offset v)) l)), app_nil_r.
  2:{ apply List.Forall_forall. intros p [_ Hp]%filter_In. apply negb_true_iff, Z.ltb_ge in Hp. apply Z.ltb_ge.
      unfold has_offset, iwp_has_offset. lia. }
  induction l as [|p l IH]; [done|]. cbn [List.filter].
  destruct (Z.ltb_spec (iwp_offset p) (iwp_offset v)) as [Hlt|Hge]; cbn [List.filter]; rewrite IH; [done|].
  assert (is_processed lp p = false) as ->; [|done]. apply Z.ltb_ge. unfold has_offset, iwp_has_offset. lia.
Qed.

(** ** Reads of a cell *)

Lemma view_at_parts t es k lp : it_view_at t es k lp = or_else (last (processed_of lp (positions_of (it_data t) k))) (bt_get k es).
Proof. done. Qed.

Section views.
Context {S : Type} `{Loader S} (ks : option nat) (U : list (list Z)).

(** What is read below the cell's table: L0 too, unless the table holds it. *)
Definition cell_disk (s : S) (st : LargeTableEntryState) (l : IndexLevels) (k : list Z) : option IndexWalPosition :=
  match st with
  | Loaded | DirtyLoaded => below_view s l k
  | _ => levels_view s l k
  end.

Lemma opt_view_kept s s' o k :
  blobs_kept s s' -> (forall p, o = Some p -> blob_ok ks U s p) -> opt_view s' o k = opt_view s o k.
Proof. intros Hk Ho. destruct o as [p|]; [|done]. cbn. apply (blob_view_kept ks U); auto. Qed.

Lemma shards_of_levels_ok s l : levels_ok ks U s l -> Forall (fun e => blob_ok ks U s (shard_position e.2)) (lv_shards l).
Proof. intros Hl. apply (levels_ok_good ks U s l Hl). Qed.

Lemma levels_kept s s' l : blobs_kept s s' -> levels_ok ks U s l -> levels_ok ks U s' l.
Proof.
  intros Hk Hl. pose proof (shards_of_levels_ok s l Hl) as Hsb. destruct Hl as [H1 H2 H3 H4 H5]. split; [done| |done| |done].
  - eapply Forall_impl; [exact H2|]. intros p. by apply blob_ok_kept.
  - unfold shards_hold in *. rewrite List.Forall_forall in *. intros e He. destruct (H4 e He) as (Ha & Hb & Hc).
    split_and!; [| |intros k]; rewrite (blob_view_kept ks U s s') by auto; auto.
Qed.

Lemma below_l0_blob s l k p : levels_ok ks U s l -> below_l0_for l k = Some p -> blob_ok ks U s p.
Proof.
  intros Hl. unfold below_l0_for. destruct (levels_is_sharded l).
  - destruct (shard_for l k) as [sh|] eqn:E; [|done]. cbn. intros [= <-]. unfold shard_for in E.
    destruct (shard_entry_for l k) as [e|] eqn:Ee; [|done]. cbn in E. injection E as <-.
    apply (shard_entry_for_spec l k e (lo_shards _ _ _ _ Hl)) in Ee as [Hin _].
    pose proof (shards_of_levels_ok s l Hl) as Hb. rewrite List.Forall_forall in Hb. by apply (Hb e).
  - intros Hp. by apply (levels_get_ok ks U s l 1 p).
Qed.

Lemma below_view_kept s s' l k : blobs_kept s s' -> levels_ok ks U s l -> below_view s' l k = below_view s l k.
Proof. intros Hk Hl. apply opt_view_kept; [done|]. intros p. by apply below_l0_blob. Qed.

Lemma levels_view_kept s s' l k : blobs_kept s s' -> levels_ok ks U s l -> levels_view s' l k = levels_view s l k.
Proof.
  intros Hk Hl. unfold levels_view. fold (below_view s' l k) (below_view s l k). rewrite (below_view_kept s s') by done.
  f_equal. apply opt_view_kept; [done|]. intros p Hp. by apply (levels_get_ok ks U s l 0 p).
Qed.

Lemma cell_disk_kept s s' st l k : blobs_kept s s' -> levels_ok ks U s l -> cell_disk s' st l k = cell_disk s st l k.
Proof. intros Hk Hl. destruct st; cbn; (by apply levels_view_kept) || by apply below_view_kept. Qed.
End views.

(** ** What the live operations do to a cell's table *)

Section tables.
Context (ks : option nat) (U : list (list Z)) (Hu : universe_ok ks U).

Lemma cell_fits t es : cell_table ks U t es -> it_fits t es.
Proof.
  intros Ht. pose proof (ct_wf _ _ _ _ Ht) as Hw.
  assert (forall k, is_Some (bt_get k (combined t es)) -> In k U) as Hk.
  { intros k. rewrite bt_get_combined by done. apply (ct_keys _ _ _ _ Ht). }
  split.
  - apply List.Forall_forall. intros [k ps] Hin. cbn [fst]. apply (universe_key_fits ks U); [done| |apply Ht].
    apply Hk. rewrite bt_get_combined by done. unfold it_view, positions_of.
    destruct Hw as [Hov _]. apply (bt_get_In _ _ _ (proj1 Hov)) in Hin as Hg. rewrite Hg.
    destruct (overlay_get_ok _ _ _ Hov Hg) as (Hne & _). change (default [] (Some ps)) with ps.
    destruct (last ps) eqn:E; [by eexists|by apply last_None in E].
  - apply (universe_size_fits ks U); [done|by apply combined_sorted|done].
Qed.

Lemma promote_cell t es lp :
  cell_table ks U t es ->
  exists t', promote_to_flat_unconditionally t lp = Ok t' /\ cell_table ks U t' (promoted_flat lp t es) /\
    it_data t' = kept_data lp (it_data t) /\
    forall k lp', lp <= lp' -> it_view_at t' (promoted_flat lp t es) k lp' = it_view_at t es k lp'.
Proof.
  intros Ht. pose proof (ct_wf _ _ _ _ Ht) as Hw.
  destruct (promote_ok lp t es Hw (cell_fits t es Ht)) as (t' & Hp & Hw' & _ & Hks & Hd & Hv & Hva).
  exists t'. split; [done|]. split; [|done]. apply (cell_table_filtered ks U t es); [done|done|done|].
  intros k. by rewrite Hv.
Qed.

Lemma retain_unprocessed_cell t es lp :
  cell_table ks U t es ->
  exists t', retain_unprocessed t lp = Ok t' /\ cell_table ks U t' [] /\
    (forall k, positions_of (it_data t') k = List.filter (fun p => negb (is_processed lp p)) (positions_of (it_data t) k)) /\
    forall k lp2 lp' d, lp <= lp2 <= lp' ->
      or_else (it_view_at t' [] k lp') (or_else (it_view_at t es k lp2) d) = or_else (it_view_at t es k lp') d.
Proof.
  intros Ht. pose proof (ct_wf _ _ _ _ Ht) as Hw.
  destruct (retain_unprocessed_ok t es lp Hw) as (t' & Hr & Hw' & _ & Hp).
  destruct (retain_unprocessed_reads t es lp Hw) as (t'' & Hr' & _ & Hv). assert (t'' = t') as -> by congruence.
  exists t'. split; [done|]. split; [|done]. apply (cell_table_filtered ks U t es); [done|done| |].
  - unfold retain_unprocessed in Hr. destruct (recount_data_stats _) as [[kb dc]|]; [|done]. by injection Hr as <-.
  - intros k. unfold it_view. rewrite Hp. intros Hs. destruct (last (List.filter _ _)) as [p|] eqn:E; [|by destruct Hs].
    apply last_Some_elem_of, list_elem_of_In, filter_In in E as [Hin _].
    destruct (last (positions_of (it_data t) k)) eqn:E'; [by eexists|]. apply last_None in E'. by rewrite E' in Hin.
Qed.

Lemma unmerge_cell lp orig oes t es :
  cell_table ks U t es -> live_inv lp orig oes (t, es) ->
  exists t', unmerge_flushed t orig lp = Ok t' /\ cell_table ks U t' [] /\
    (forall k, positions_of (it_data t') k =
       unmerged_positions lp (positions_of (it_data orig) k) (positions_of (it_data t) k)) /\
    forall k lp2 lp' d, lp <= lp2 <= lp' ->
      or_else (it_view_at t' [] k lp') (or_else (it_view_at orig oes k lp2) d) = or_else (it_view_at t es k lp') d.
Proof.
  intros Ht (Ho & Hw & Hrel). cbn [fst snd] in *.
  destruct (unmerge_flushed_ok lp orig oes t es Ho Hw Hrel) as (t' & Hr & Hw' & _ & Hks & Hp).
  destruct (unmerge_reads lp orig oes t es Ho Hw Hrel) as (t'' & Hr' & _ & _ & Hv). assert (t'' = t') as -> by congruence.
  exists t'. split; [done|]. split; [|done]. apply (cell_table_filtered ks U t es); [done|done|done|].
  intros k. unfold it_view. rewrite Hp. intros Hs. destruct (last (unmerged_positions _ _ _)) as [p|] eqn:E; [|by destruct Hs].
  apply last_Some_elem_of, list_elem_of_In, filter_In in E as [Hin _].
  destruct (last (positions_of (it_data t) k)) eqn:E'; [by eexists|]. apply last_None in E'. by rewrite E' in Hin.
Qed.
End tables.

(** ** The system *)

(** A flush of the cell: none, waiting for the flusher, or written and waiting
    for the cell to take it over. *)
Inductive Flight :=
| Idle
| Requested (kind : FlushKind)
| Written (original : SharedTable) (new_levels : IndexLevels).

Record CellSys (C S : Type) := mkCellSys {
  cs_store : S;
  cs_cell : LiveEntry C;
  cs_flight : Flight;
  cs_history : list entry;
  cs_barrier : Z;
}.

Arguments mkCellSys {C S}.
Arguments cs_store {C S}.
Arguments cs_cell {C S}.
Arguments cs_flight {C S}.
Arguments cs_history {C S}.
Arguments cs_barrier {C S}.

Section system.
Context {C : Type} `{ValueCache C} {S : Type} `{Loader S} (U : list (list Z)) (cx : CellContext).
(** The full key and the value of a key's record at a WAL position. *)
Context (record_at : list Z -> WalPosition -> list Z * list Z).

(** The rest of the database: blobs are added, the frontier moves on. *)
Definition store_advances (s s' : S) : Prop :=
  blobs_kept s s' /\ ld_min_wal_position s' = ld_min_wal_position s /\
  ld_last_processed s <= ld_last_processed s' <= 2 ^ 64.

(** A write the cell may get: of a key of the cell, not below the barrier, at a
    WAL position of its own. *)
Definition write_allowed (h : list entry) (b : Z) (k : list Z) (v : IndexWalPosition) : Prop :=
  In k U /\ iwp_fits v /\ b <= iwp_offset v /\ fresh_write h k v.

(** What the flusher may assume of the WAL floor; nothing for a floor of 0. *)
Definition flush_allowed (s : S) (kind : FlushKind) : Prop :=
  wal_bounds_ok s /\
  match kind with
  | Flush sh l loaded _ => forall des, it_wf (sh_table sh) des -> flush_closed s (ld_min_wal_position s) (sh_table sh) des l loaded
  | ForceRelocate _ _ => True
  end.

(** What a write hands to the value cache: its own record. *)
Definition cached_as (k : list Z) (v : WalPosition) (full_key : list Z) (lru_value : option (list Z)) : Prop :=
  (full_key, lru_value) = ((record_at k v).1, Some (record_at k v).2).

Inductive cell_step : CellSys C S -> CellSys C S -> Prop :=
| step_cell_insert s c f h b k v full_key lru_value c' :
    write_allowed h b k (iwp_new_modified v) ->
    (is_Some (lv_value_lru c) -> cached_as k v full_key lru_value) ->
    cell_insert (ld_last_processed s) c k v full_key lru_value = Ok c' ->
    cell_step (mkCellSys s c f h b) (mkCellSys s c' f ((k, iwp_new_modified v) :: h) b)
| step_cell_remove s c f h b k v c' :
    write_allowed h b k (iwp_new_removed v) ->
    cell_remove (ld_last_processed s) c k v = Ok c' ->
    cell_step (mkCellSys s c f h b) (mkCellSys s c' f ((k, iwp_new_removed v) :: h) b)
| step_cell_pending s c f h b p :
    cell_step (mkCellSys s c f h b) (mkCellSys s (set_pending_data c p) f h b)
| step_cell_promote s c f h b lp t :
    lp <= ld_last_processed s -> (forall p, le_pending_last_processed (lv_entry c) = Some p -> lp <= p) ->
    promote_to_flat_unconditionally (lv_table c) lp = Ok t ->
    cell_step (mkCellSys s c f h b) (mkCellSys s (put_owned c t) f h (Z.max b lp))
| step_cell_share s c f h b :
    cell_step (mkCellSys s c f h b) (mkCellSys s (clone_shared c).1 f h b)
| step_cell_load s c f h b c' :
    maybe_load c s = Ok (s, (c', true)) ->
    cell_step (mkCellSys s c f h b) (mkCellSys s c' f h b)
| step_cell_snapshot s c f h b :
    cell_step (mkCellSys s c f h b)
      (mkCellSys s (cell_snapshot (ld_last_processed s) c).1.1 f h (Z.max b (ld_last_processed s)))
| step_cell_advance s s' c f h b :
    store_advances s s' ->
    cell_step (mkCellSys s c f h b) (mkCellSys s' c f h b)
| step_cell_request s c h b rp c' kind :
    le_pending_last_processed (lv_entry c) = None ->
    flush_kind (on_entry c (fun e => set_pending_last_processed e (Some (ld_last_processed s)))) rp = (c', Some kind) ->
    cell_step (mkCellSys s c Idle h b) (mkCellSys s c' (Requested kind) h (Z.max b (ld_last_processed s)))
| step_cell_flush s c h b kind s' original new_levels :
    flush_allowed s kind ->
    handle_command (cx_flush cx) kind RelocationNone s = Ok (s', Some (original, new_levels)) ->
    cell_step (mkCellSys s c (Requested kind) h b) (mkCellSys s' c (Written original new_levels) h b)
| step_cell_complete s c h b original new_levels c' :
    update_flushed_index cx c original new_levels = Ok c' ->
    cell_step (mkCellSys s c (Written original new_levels) h b) (mkCellSys s c' Idle h b).
End system.
