(* ===== verification/CellInvariant.v ===== *)
(** * The invariant of a live cell

    Every step of the system of [CellSystem] keeps the cell, its blobs and the
    flush in flight in line with the history of writes: reads answer with the
    newest write, the blobs and the part of the log from the cell's
    [last_processed] on hold all of it, the bloom filter and the value cache
    agree with it, and no operation panics. *)

From Stdlib Require Import ZArith Lia List Sorting.Sorted.
From stdpp Require Import base tactics list gmap strings.
From S2P Require Import Prelude BTree Bytes Position Flat FlatFacts IndexTable IndexOps IndexTableFacts IndexWalk.
From S2P Require Import IndexPromote IndexFlush IndexUnmerge IndexCodec IndexClean Levels Loader Flusher FlusherFacts.
From S2P Require Import FlusherShards FlushCommand TableEntry Pending CellOps CellSystem.

Local Open Scope Z_scope.

Section invariant.
Context {C : Type} `{ValueCache C} `{!ValueCacheSpec C} {S : Type} `{Loader S} (ks : option nat) (U : list (list Z)) `{!LoaderSpec S ks U}.
Context (Hu : universe_ok ks U) (cx : CellContext) (Hser : serializes ks U (cx_flush cx)) (Hnc : no_compactor (cx_flush cx)).
Context (Hun : cx_unloading_disabled cx = false).
Context (record_at : list Z -> WalPosition -> list Z * list Z).

(** ** The invariant *)

(** The snapshot a flush of the cell at frontier [lp] works on. *)
Record snapshot_of (c : LiveEntry C) (es : list entry) (b lp : Z) (sh : SharedTable) (oes : list entry) : Prop := mkSnapshotOf {
  so_pending : le_pending_last_processed (lv_entry c) = Some lp;
  so_dirty : state_is_dirty (lv_state c) = true;
  so_table : cell_table ks U (sh_table sh) oes;
  so_live : live_inv lp (sh_table sh) oes (lv_table c, es);
  so_barrier : lp <= b;
  so_id : (sh_id sh < lv_next_arc c)%nat;
  so_same : lv_shared c = Some (sh_id sh) -> lv_table c = sh_table sh /\ es = oes;
}.

Definition flight_ok (s : S) (c : LiveEntry C) (es : list entry) (b : Z) (f : Flight) : Prop :=
  match f with
  | Idle => le_pending_last_processed (lv_entry c) = None
  | Requested kind => exists sh rp lp oes,
      kind = Flush sh (le_levels (lv_entry c)) (below_l0_only c) rp /\ snapshot_of c es b lp sh oes
  | Written sh new_levels => exists lp lp2 oes,
      snapshot_of c es b lp sh oes /\ lp <= lp2 <= ld_last_processed s /\ levels_ok ks U s new_levels /\
      forall k, visible (ld_min_wal_position s) (levels_view s new_levels k) =
        visible (ld_min_wal_position s)
          (or_else (it_view_at (sh_table sh) oes k lp2) (cell_disk s (lv_state c) (le_levels (lv_entry c)) k))
  end.

(** What a clean state says of the table: nothing is in it, or the L0 blob and
    nothing else. *)
Definition state_ok (s : S) (c : LiveEntry C) (h es : list entry) : Prop :=
  match lv_state c with
  | Empty => le_levels (lv_entry c) = levels_new /\ h = []
  | Unloaded => it_is_empty (lv_table c) = true
  | Loaded => it_data (lv_table c) = [] /\ forall k, bt_get k es = opt_view s (levels_l0 (le_levels (lv_entry c))) k
  | _ => True
  end.

Record cell_inv (s : S) (c : LiveEntry C) (f : Flight) (h : list entry) (b : Z) (es : list entry) : Prop := mkCellInv {
  ci_table : cell_table ks U (lv_table c) es;
  ci_levels : levels_ok ks U s (le_levels (lv_entry c));
  ci_history : history_ok h;
  ci_overlay : forall k p, In p (positions_of (it_data (lv_table c)) k) -> In p (history_of k h);
  ci_recent : forall k p, In p (history_of k h) -> b <= iwp_offset p -> In p (positions_of (it_data (lv_table c)) k);
  ci_reads : forall k lp, ld_last_processed s <= lp ->
    visible (ld_min_wal_position s)
      (or_else (it_view_at (lv_table c) es k lp) (cell_disk s (lv_state c) (le_levels (lv_entry c)) k)) =
    visible (ld_min_wal_position s) (newest_at lp k h);
  ci_durable : forall k, Forall (fun p => iwp_offset p < le_last_processed (lv_entry c)) (history_of k h) ->
    visible (ld_min_wal_position s) (levels_view s (le_levels (lv_entry c)) k) =
    visible (ld_min_wal_position s) (newest_write k h);
  ci_state : state_ok s c h es;
  ci_bloom : forall keys k p, le_bloom (lv_entry c) = Some keys -> In p (history_of k h) -> is_removed p = false -> k ∈ keys;
  ci_cache : forall lru k w, lv_value_lru c = Some lru -> lru_find lru k = Some w ->
    exists p, newest_write k h = Some p /\ is_removed p = false /\ record_at k (into_wal_position p) = w;
  ci_frontier : b <= ld_last_processed s <= 2 ^ 64;
  ci_arc : forall id, lv_shared c = Some id -> (id < lv_next_arc c)%nat;
  ci_flight : flight_ok s c es b f;
}.

(** ** Writes *)

(** The entry after the bookkeeping of a write. *)
Definition touched (frontier : LastProcessed) (c : LiveEntry C) (v : WalPosition) (t : IndexTable) (bloom : option (list (list Z)))
    (lru : option C) : LiveEntry C :=
  mkLive (mkEntry (state_mark_dirty (lv_state c)) (le_levels (lv_entry c))
            (if state_is_empty (lv_state c) then Z.min (wp_offset v) frontier else Z.min (le_last_processed (lv_entry c)) (wp_offset v))
            (le_pending_last_processed (lv_entry c)) bloom t)
    None (lv_next_arc c) (lv_pending_data c) lru.

Lemma cell_disk_dirty s (c : LiveEntry C) h es l k :
  state_ok s c h es -> l = le_levels (lv_entry c) -> cell_disk s (state_mark_dirty (lv_state c)) l k = cell_disk s (lv_state c) l k.
Proof. intros Hs ->. unfold state_ok in Hs. destruct (lv_state c); cbn; try done. by destruct Hs as [-> _]. Qed.

Lemma below_l0_dirty (c : LiveEntry C) : lv_state c <> Empty -> below_l0_only c = match state_mark_dirty (lv_state c) with DirtyLoaded => true | _ => false end.
Proof. unfold below_l0_only. by destruct (lv_state c). Qed.
Lemma fresh_in_table s c f h b es k v :
  cell_inv s c f h b es -> fresh_write h k v -> existsb (same_offset v) (positions_of (it_data (lv_table c)) k) = false.
Proof.
  intros Hi Hf. apply not_true_is_false. intros (p & Hp & E)%existsb_exists. apply Z.eqb_eq in E.
  unfold fresh_write in Hf. rewrite List.Forall_forall in Hf. apply (Hf p); [|done]. by apply (ci_overlay _ _ _ _ _ _ Hi).
Qed.

Lemma history_of_cons k' k v h : history_of k' ((k, v) :: h) = if keqb k' k then pos_insert v (history_of k h) else history_of k' h.
Proof. cbn [history_of]. by destruct (keqb_spec k' k) as [->|]. Qed.

(** Reads after a write. *)
Lemma write_reads s c f h b es k v t' :
  cell_inv s c f h b es -> fresh_write h k v -> b <= iwp_offset v -> it_wf (lv_table c) es ->
  (forall k', positions_of (it_data t') k' = if keqb k' k then pos_insert v (positions_of (it_data (lv_table c)) k)
                                             else positions_of (it_data (lv_table c)) k') ->
  forall k' lp, ld_last_processed s <= lp ->
    visible (ld_min_wal_position s)
      (or_else (it_view_at t' es k' lp) (cell_disk s (state_mark_dirty (lv_state c)) (le_levels (lv_entry c)) k')) =
    visible (ld_min_wal_position s) (newest_at lp k' ((k, v) :: h)).
Proof.
  intros Hi Hf Hb Hw Hp k' lp Hlp. rewrite (cell_disk_dirty s c h es) by (done || apply Hi).
  unfold newest_at. rewrite history_of_cons, view_at_parts, Hp. pose proof (ci_reads _ _ _ _ _ _ Hi k' lp Hlp) as Hr.
  unfold newest_at in Hr. rewrite view_at_parts in Hr. destruct (keqb_spec k' k) as [->|]; [|done].
  destruct (Z.ltb_spec (iwp_offset v) lp) as [Hlt|Hge]; [|by rewrite !write_later].
  assert (last (processed_of lp (pos_insert v (positions_of (it_data (lv_table c)) k))) =
          last (processed_of lp (pos_insert v (history_of k h)))) as E.
  { apply (write_newest _ _ _ _ b); try done.
    - by apply positions_of_sorted, Hw.
    - by apply history_sorted, Hi.
    - apply (ci_overlay _ _ _ _ _ _ Hi).
    - apply (ci_recent _ _ _ _ _ _ Hi). }
  rewrite E. destruct (last (processed_of lp (pos_insert v (history_of k h)))) as [m|] eqn:El; [done|].
  apply last_None in El. exfalso. cut (In v []); [done|]. rewrite <- El. apply processed_In. by rewrite pos_insert_In; auto.
Qed.

(** What the log from the anchor on misses after a write was missing before. *)
Lemma write_durable s c f h b es k v w :
  cell_inv s c f h b es -> iwp_offset v = wp_offset w ->
  forall k',
    Forall (fun p => iwp_offset p < (if state_is_empty (lv_state c) then Z.min (wp_offset w) (ld_last_processed s)
                                     else Z.min (le_last_processed (lv_entry c)) (wp_offset w))) (history_of k' ((k, v) :: h)) ->
    visible (ld_min_wal_position s) (levels_view s (le_levels (lv_entry c)) k') =
    visible (ld_min_wal_position s) (newest_write k' ((k, v) :: h)).
Proof.
  intros Hi Hvw k'. unfold newest_write. rewrite history_of_cons, List.Forall_forall. intros Hf.
  destruct (keqb_spec k' k) as [Ek|].
  { specialize (Hf v ltac:(rewrite pos_insert_In; auto)). destruct (state_is_empty _); lia. }
  destruct (state_is_empty (lv_state c)) eqn:Est.
  - pose proof (ci_state _ _ _ _ _ _ Hi) as Hs. unfold state_ok in Hs. destruct (lv_state c); try done.
    destruct Hs as [-> ->]. done.
  - apply (ci_durable _ _ _ _ _ _ Hi). apply List.Forall_forall. intros p Hp. specialize (Hf p Hp). lia.
Qed.

Lemma state_mark_dirty_id st : state_is_dirty st = true -> state_mark_dirty st = st.
Proof. by destruct st. Qed.

(** The flush in flight sees a write as it sees any step of the live table. *)
Lemma write_flight s c f b es w t' bloom lru v kb dc k :
  flight_ok s c es b f -> b <= iwp_offset v -> iwp_fits v ->
  existsb (same_offset v) (positions_of (it_data (lv_table c)) k) = false -> t' = with_write (lv_table c) k v kb dc ->
  flight_ok s (touched (ld_last_processed s) c w t' bloom lru) es b f.
Proof.
  intros Hfl Hb Hv Hfr ->.
  assert (forall lp sh oes, snapshot_of c es b lp sh oes ->
            snapshot_of (touched (ld_last_processed s) c w (with_write (lv_table c) k v kb dc) bloom lru) es b lp sh oes /\
            state_mark_dirty (lv_state c) = lv_state c) as Hsn.
  { intros lp sh oes [H1 H2 H3 H4 H5 H6 H7]. pose proof (state_mark_dirty_id _ H2) as E. split; [|done]. split; try done.
    - unfold lv_state at 1. cbn. by rewrite E.
    - apply live_inv_insert; [done|lia|done|done]. }
  destruct f as [|kind|sh l]; [done| |].
  - destruct Hfl as (sh & rp & lp & oes & -> & Hs). apply Hsn in Hs as [Hs E]. exists sh, rp, lp, oes. split; [|done].
    f_equal. unfold below_l0_only, lv_state at 2. cbn. by rewrite E.
  - destruct Hfl as (lp & lp2 & oes & Hs & Hlp & Hl & Hr). apply Hsn in Hs as [Hs E]. exists lp, lp2, oes.
    do 3 (split; [done|]). unfold lv_state at 1. cbn. by rewrite E.
Qed.

(** A write keeps the invariant, for any cache that agrees with the new history. *)
Lemma write_keeps s c f h b es k w v bloom lru t' o :
  cell_inv s c f h b es -> write_allowed U h b k v -> wp_offset w = iwp_offset v ->
  checked_insert (lv_table c) k v = Ok (t', o) ->
  (forall keys k' p, bloom = Some keys -> In p (history_of k' ((k, v) :: h)) -> is_removed p = false -> k' ∈ keys) ->
  (forall cache k' r, lru = Some cache -> lru_find cache k' = Some r ->
     exists p, newest_write k' ((k, v) :: h) = Some p /\ is_removed p = false /\ record_at k' (into_wal_position p) = r) ->
  cell_inv s (touched (ld_last_processed s) c w t' bloom lru) f ((k, v) :: h) b es.
Proof.
  intros Hi (Hk & Hv & Hb & Hfr) Hw Hc Hbl Hca. pose proof (ci_table _ _ _ _ _ _ Hi) as Ht.
  pose proof (fresh_in_table _ _ _ _ _ _ _ _ Hi Hfr) as Hex.
  destruct (insert_cell ks U (lv_table c) es k v Ht Hk Hv Hex) as (t'' & Hc' & Ht' & Hp). rewrite Hc in Hc'. injection Hc' as -> _.
  destruct (checked_insert_ok (lv_table c) es k v (ct_wf _ _ _ _ Ht)) as [[Hc' _]|(_ & kb & dc & Hc' & _)]; [congruence|].
  assert (t'' = with_write (lv_table c) k v kb dc) as -> by congruence.
  split; try done; try apply Hi.
  - by cbn; destruct Hi.
  - intros k' p. change (lv_table (touched _ _ _ _ _ _)) with (with_write (lv_table c) k v kb dc). rewrite Hp, history_of_cons.
    destruct (keqb_spec k' k) as [->|]; [|apply Hi]. rewrite !pos_insert_In. intros [|]; [by left|right; by apply Hi].
  - intros k' p. change (lv_table (touched _ _ _ _ _ _)) with (with_write (lv_table c) k v kb dc). rewrite Hp, history_of_cons.
    destruct (keqb_spec k' k) as [->|]; [|apply Hi]. rewrite !pos_insert_In. intros [|] ?; [by left|right; by apply Hi].
  - by eapply (write_reads s c f h b es k v); eauto; apply Ht.
  - intros k'. by apply (write_durable s c f h b es).
  - unfold state_ok, lv_state. cbn. pose proof (ci_state _ _ _ _ _ _ Hi) as Hs. unfold state_ok in Hs. by destruct (lv_state c).
  - eapply write_flight; try done. apply Hi.
Qed.
Lemma newest_write_other k' k v h : k' <> k -> newest_write k' ((k, v) :: h) = newest_write k' h.
Proof. intros Hne. unfold newest_write. rewrite history_of_cons. by destruct (keqb_spec k' k). Qed.

(** A write the table reports as its latest is the newest of the history. *)
Lemma latest_newest s c f h b es k v :
  cell_inv s c f h b es -> write_allowed U h b k v ->
  forallb (below_offset v) (positions_of (it_data (lv_table c)) k) = true -> newest_write k ((k, v) :: h) = Some v.
Proof.
  intros Hi (_ & _ & Hb & Hf) Hl. rewrite forallb_forall in Hl. unfold newest_write. rewrite history_of_cons, keqb_refl.
  apply pos_last_spec; [by apply pos_insert_sorted; [apply history_sorted, Hi|]|]. split; [apply pos_insert_In; by left|].
  intros q [->|Hq]%pos_insert_In; [lia|]. destruct (Z.leb_spec b (iwp_offset q)) as [Hle|]; [|lia].
  specialize (Hl q (ci_recent _ _ _ _ _ _ Hi k q Hq Hle)). apply Z.ltb_lt in Hl. lia.
Qed.

(** A stale write is not. *)
Lemma stale_not_newest s c f h b es k v :
  cell_inv s c f h b es -> fresh_write h k v ->
  forallb (below_offset v) (positions_of (it_data (lv_table c)) k) = false ->
  newest_write k ((k, v) :: h) = newest_write k h.
Proof.
  intros Hi Hf Hl.
  assert (exists q, In q (positions_of (it_data (lv_table c)) k) /\ iwp_offset v <= iwp_offset q) as (q & Hq & Hvq).
  { induction (positions_of (it_data (lv_table c)) k) as [|q ps IH]; [done|]. cbn in Hl. apply andb_false_iff in Hl as [E|E].
    - apply Z.ltb_ge in E. exists q. cbn. auto.
    - destruct (IH E) as (p & ? & ?). exists p. cbn. auto. }
  apply (ci_overlay _ _ _ _ _ _ Hi) in Hq. unfold newest_write. rewrite history_of_cons, keqb_refl.
  pose proof (history_sorted k h (ci_history _ _ _ _ _ _ Hi)) as Hs.
  destruct (last (history_of k h)) as [m|] eqn:E; [|apply last_None in E; by rewrite E in Hq].
  apply pos_last_spec in E as [Hm Hmax]; [|done].
  apply pos_last_spec; [by apply pos_insert_sorted|]. rewrite pos_insert_In. split; [by right|].
  intros p [->|Hp]%pos_insert_In; [|by apply Hmax]. specialize (Hmax q Hq). lia.
Qed.

(** What the cache holds, as the history grows by a write to [k]: other keys
    keep their record. *)
Lemma cache_after s c f h b es k v lru lru' :
  cell_inv s c f h b es -> lv_value_lru c = Some lru ->
  (forall k' r, lru_find lru' k' = Some r -> k' = k ->
     exists p, newest_write k ((k, v) :: h) = Some p /\ is_removed p = false /\ record_at k (into_wal_position p) = r) ->
  (forall k' r, lru_find lru' k' = Some r -> k' <> k -> lru_find lru k' = Some r) ->
  forall cache k' r, Some lru' = Some cache -> lru_find cache k' = Some r ->
    exists p, newest_write k' ((k, v) :: h) = Some p /\ is_removed p = false /\ record_at k' (into_wal_position p) = r.
Proof.
  intros Hi Hl Hk Hne cache k' r [= <-] Hr. destruct (keqb_spec k' k) as [Ek|Ek]; [subst k'; by eapply Hk|].
  rewrite newest_write_other by done. apply (ci_cache _ _ _ _ _ _ Hi lru); [done|]. by apply Hne.
Qed.

(** A stale write leaves the cache alone. *)
Lemma cache_stale s c f h b es k v :
  cell_inv s c f h b es -> fresh_write h k v ->
  forallb (below_offset v) (positions_of (it_data (lv_table c)) k) = false ->
  forall cache k' r, lv_value_lru c = Some cache -> lru_find cache k' = Some r ->
    exists p, newest_write k' ((k, v) :: h) = Some p /\ is_removed p = false /\ record_at k' (into_wal_position p) = r.
Proof.
  intros Hi Hf Hst cache k' r Hl. revert k' r. intros k' r Hr.
  eapply (cache_after s c f h b es k v cache cache); try done. intros k'' r' Hr' ->.
  rewrite (stale_not_newest s c f h b es) by done. by apply (ci_cache _ _ _ _ _ _ Hi cache).
Qed.

Lemma insert_keeps s c f h b es k w full_key lru_value :
  cell_inv s c f h b es -> write_allowed U h b k (iwp_new_modified w) ->
  (is_Some (lv_value_lru c) -> cached_as record_at k w full_key lru_value) ->
  exists c', cell_insert (ld_last_processed s) c k w full_key lru_value = Ok c' /\
    cell_inv s c' f ((k, iwp_new_modified w) :: h) b es.
Proof.
  intros Hi Ha Hlv. set (v := iwp_new_modified w) in *. pose proof Ha as (Hk & Hv & Hb & Hfr).
  destruct (insert_cell ks U (lv_table c) es k v (ci_table _ _ _ _ _ _ Hi) Hk Hv (fresh_in_table _ _ _ _ _ _ _ _ Hi Hfr))
    as (t' & Hc & _ & _).
  unfold cell_insert, it_insert. fold v. change (lv_table (on_entry c _)) with (lv_table c). rewrite Hc. unfold mbind, outcome_bind.
  set (bloom := option_map (fun keys => keys ++ [k]) (le_bloom (lv_entry c))).
  assert (forall keys k' p, bloom = Some keys -> In p (history_of k' ((k, v) :: h)) -> is_removed p = false -> k' ∈ keys) as Hbl.
  { intros keys k' p E Hp Hr. unfold bloom in E. destruct (le_bloom (lv_entry c)) as [ks0|] eqn:Ebl; [|done]. injection E as <-.
    apply elem_of_app. rewrite list_elem_of_singleton. rewrite history_of_cons in Hp.
    destruct (keqb_spec k' k) as [->|]; [by right|]. left. by eapply (ci_bloom _ _ _ _ _ _ Hi). }
  destruct (forallb _ _) eqn:El.
  - destruct (lv_value_lru c) as [lru|] eqn:Elru.
    + pose proof (Hlv ltac:(by eexists)) as E. injection E as -> ->. eexists. split; [cbn; rewrite Elru; reflexivity|].
      eapply (write_keeps s c f h b es k w v bloom); try done.
      eapply (cache_after s c f h b es k v lru); try done.
      * intros k' r Hr ->. exists v. split; [by apply (latest_newest s c f h b es)|]. split; [done|].
        apply lru_push_ok in Hr. rewrite keqb_refl in Hr. subst r. rewrite <- surjective_pairing. by destruct w.
      * intros k' r Hr Hne. apply lru_push_ok in Hr. by destruct (keqb_spec k' k).
    + eexists. split; [cbn; rewrite Elru; reflexivity|]. unfold put_owned, on_entry. cbn [lv_value_lru].
      eapply (write_keeps s c f h b es k w v bloom); try done. by rewrite Elru.
  - eexists. split; [reflexivity|]. eapply (write_keeps s c f h b es k w v bloom); try done. exact (cache_stale s c f h b es k v Hi Hfr El).
Qed.

Lemma remove_keeps s c f h b es k w :
  cell_inv s c f h b es -> write_allowed U h b k (iwp_new_removed w) ->
  exists c', cell_remove (ld_last_processed s) c k w = Ok c' /\ cell_inv s c' f ((k, iwp_new_removed w) :: h) b es.
Proof.
  intros Hi Ha. set (v := iwp_new_removed w) in *. pose proof Ha as (Hk & Hv & Hb & Hfr).
  destruct (insert_cell ks U (lv_table c) es k v (ci_table _ _ _ _ _ _ Hi) Hk Hv (fresh_in_table _ _ _ _ _ _ _ _ Hi Hfr))
    as (t' & Hc & _ & _).
  unfold cell_remove, it_remove. fold v. change (lv_table (on_entry c _)) with (lv_table c). rewrite Hc. unfold mbind, outcome_bind.
  assert (forall keys k' p, le_bloom (lv_entry c) = Some keys -> In p (history_of k' ((k, v) :: h)) -> is_removed p = false ->
            k' ∈ keys) as Hbl.
  { intros keys k' p E Hp Hr. rewrite history_of_cons in Hp.
    destruct (keqb_spec k' k) as [->|]; [apply pos_insert_In in Hp as [->|Hp]; [done|]|];
      by eapply (ci_bloom _ _ _ _ _ _ Hi). }
  destruct (forallb _ _) eqn:El.
  - eexists. split; [reflexivity|]. eapply (write_keeps s c f h b es k w v (le_bloom (lv_entry c))); try done.
    intros cache k' r E Hr. cbn [lv_value_lru put_owned on_entry] in E. destruct (lv_value_lru c) as [lru|] eqn:Elru; [|done].
    apply (cache_after s c f h b es k v lru (lru_pop lru k)) with (cache := cache); try done.
    + intros k'' r' Hr' ->. by apply lru_pop_ok in Hr' as [? _].
    + intros k'' r' Hr' _. by apply lru_pop_ok in Hr' as [_ ?].
  - eexists. split; [reflexivity|]. eapply (write_keeps s c f h b es k w v (le_bloom (lv_entry c))); try done.
    exact (cache_stale s c f h b es k v Hi Hfr El).
Qed.

(** The pending table is not part of it. *)
Lemma pending_keeps s c f h b es p : cell_inv s c f h b es -> cell_inv s (set_pending_data c p) f h b es.
Proof.
  intros Hi. pose proof (ci_flight _ _ _ _ _ _ Hi) as Hfl. split; try apply Hi.
  assert (forall lp sh oes, snapshot_of c es b lp sh oes -> snapshot_of (set_pending_data c p) es b lp sh oes) as Hsn
    by (intros lp sh oes [? ? ? ? ? ? ?]; by split).
  destruct f as [|kind|sh l]; [done| |].
  - destruct Hfl as (sh & rp & lp & oes & -> & Hs). exists sh, rp, lp, oes. auto.
  - destruct Hfl as (lp & lp2 & oes & Hs & Hr). exists lp, lp2, oes. auto.
Qed.
End invariant.
