(* ===== verification/CellSteps.v ===== *)
(** * The invariant of a live cell, step by step

    Promotion, sharing the table, loading, the advance of the frontier and the
    three steps of a flush keep the invariant of [CellInvariant], and none of
    them panics. *)

From Stdlib Require Import ZArith Lia List Sorting.Sorted.
From stdpp Require Import base tactics list gmap strings.
From S2P Require Import Prelude BTree Bytes Position Flat FlatFacts IndexTable IndexOps IndexTableFacts IndexWalk.
From S2P Require Import IndexPromote IndexFlush IndexUnmerge IndexCodec IndexClean Levels Loader Flusher FlusherFacts.
From S2P Require Import FlusherShards FlushCommand TableEntry Pending CellOps CellSystem CellInvariant.

Local Open Scope Z_scope.

Section steps.
Context {C : Type} `{ValueCache C} `{!ValueCacheSpec C} {S : Type} `{Loader S} (ks : option nat) (U : list (list Z)) `{!LoaderSpec S ks U}.
Context (Hu : universe_ok ks U) (cx : CellContext) (Hser : serializes ks U (cx_flush cx)) (Hnc : no_compactor (cx_flush cx)).
Context (Hun : cx_unloading_disabled cx = false).
Context (record_at : list Z -> WalPosition -> list Z * list Z).
Notation cell_inv := (cell_inv ks U record_at).
Notation flight_ok := (flight_ok ks U).
Notation snapshot_of := (snapshot_of ks U).

(** ** Promotion and sharing *)

Lemma promote_recent lp data k p :
  overlay_wf data -> lp <= iwp_offset p -> In p (positions_of data k) -> positions_of (kept_data lp data) k = positions_of data k.
Proof.
  intros Hw Hle Hp. rewrite positions_of_kept by done. destruct (last (positions_of data k)) as [m|] eqn:E.
  - apply pos_last_spec in E as [_ Hm]; [|by apply positions_of_sorted]. specialize (Hm p Hp).
    destruct (is_processed lp m) eqn:Em; [|done]. apply Z.ltb_lt in Em. unfold has_offset, iwp_has_offset in Em. lia.
  - apply last_None in E. by rewrite E in Hp.
Qed.

Lemma promote_sub lp data k p : overlay_wf data -> In p (positions_of (kept_data lp data) k) -> In p (positions_of data k).
Proof.
  intros Hw. rewrite positions_of_kept by done. destruct (last _) as [m|]; [|done]. by destruct (is_processed lp m).
Qed.

Lemma view_empty t es t' es' :
  it_wf t es -> it_wf t' es' -> it_is_empty t = true -> (forall k, it_view t' es' k = it_view t es k) -> it_is_empty t' = true.
Proof.
  intros Hw Hw' He Hv. apply not_false_is_true. intros [k [p Hp]]%(nonempty_has_key t' es'); [|done].
  by rewrite Hv, (it_is_empty_view t es) in Hp.
Qed.

Lemma promote_flight s (c : LiveEntry C) f b es lp t :
  flight_ok s c es b f -> cell_table ks U (lv_table c) es ->
  (forall p, le_pending_last_processed (lv_entry c) = Some p -> lp <= p) ->
  promote_to_flat_unconditionally (lv_table c) lp = Ok t ->
  flight_ok s (put_owned c t) (promoted_flat lp (lv_table c) es) (Z.max b lp) f.
Proof.
  intros Hfl Ht Hpend Hp.
  assert (forall lp0 sh oes, snapshot_of c es b lp0 sh oes ->
            snapshot_of (put_owned c t) (promoted_flat lp (lv_table c) es) (Z.max b lp) lp0 sh oes) as Hsn.
  { intros lp0 sh oes [H1 H2 H3 H4 H5 H6 H7]. split; try done; [|lia].
    eapply live_inv_promote; [done|auto|by eapply cell_fits|done]. }
  destruct f as [|kind|sh l]; [done| |].
  - destruct Hfl as (sh & rp & lp0 & oes & -> & Hs). exists sh, rp, lp0, oes. auto.
  - destruct Hfl as (lp0 & lp2 & oes & Hs & Hr). exists lp0, lp2, oes. auto.
Qed.

Lemma promote_keeps s (c : LiveEntry C) f h b es lp :
  cell_inv s c f h b es -> lp <= ld_last_processed s ->
  (forall p, le_pending_last_processed (lv_entry c) = Some p -> lp <= p) ->
  exists t, promote_to_flat_unconditionally (lv_table c) lp = Ok t /\
    cell_inv s (put_owned c t) f h (Z.max b lp) (promoted_flat lp (lv_table c) es).
Proof.
  intros Hi Hlp Hpend. pose proof (ci_table _ _ _ _ _ _ _ _ _ Hi) as Ht. pose proof (ct_wf _ _ _ _ Ht) as Hw.
  pose proof (ci_frontier _ _ _ _ _ _ _ _ _ Hi) as Hfr.
  destruct (promote_cell ks U Hu (lv_table c) es lp Ht) as (t & Hp & Ht' & Hd & Hv). exists t. split; [done|].
  split; try apply Hi; try done.
  - intros k p. change (lv_table (put_owned c t)) with t. rewrite Hd. intros Hin%promote_sub; [by apply Hi|apply Hw].
  - intros k p Hin Hle. change (lv_table (put_owned c t)) with t. rewrite Hd.
    assert (In p (positions_of (it_data (lv_table c)) k)) as Hc by (apply Hi; [done|lia]).
    rewrite (promote_recent lp _ k p); [done|apply Hw|lia|done].
  - intros k lp' Hle. change (lv_table (put_owned c t)) with t. rewrite Hv by lia. by apply Hi.
  - pose proof (ci_state _ _ _ _ _ _ _ _ _ Hi) as Hs. unfold state_ok in *. change (lv_state (put_owned c t)) with (lv_state c).
    destruct (lv_state c); try done;
      [|destruct Hs as [Hd0 Hl0]; change (lv_table (put_owned c t)) with t; rewrite Hd, Hd0; split; [done|]; intros k;
        rewrite bt_get_promoted_flat by done; unfold positions_of; rewrite Hd0; apply Hl0].
    apply (view_empty (lv_table c) es t (promoted_flat lp (lv_table c) es)); [done|apply Ht'|done|].
    intros k. rewrite !it_view_max by (done || apply Ht'). apply Hv. lia.
  - cbn. lia.
  - by apply promote_flight; [apply Hi|..].
Qed.

Lemma clone_shared_entry (c : LiveEntry C) : lv_entry (clone_shared c).1 = lv_entry c.
Proof. unfold clone_shared. by destruct (lv_shared c). Qed.

Lemma clone_shared_lru (c : LiveEntry C) : lv_value_lru (clone_shared c).1 = lv_value_lru c.
Proof. unfold clone_shared. by destruct (lv_shared c). Qed.

Lemma clone_shared_arc (c : LiveEntry C) :
  (forall id, lv_shared c = Some id -> (id < lv_next_arc c)%nat) ->
  forall id, lv_shared (clone_shared c).1 = Some id -> (id < lv_next_arc (clone_shared c).1)%nat.
Proof.
  intros Hid. unfold clone_shared. destruct (lv_shared c) as [i|] eqn:E; cbn [fst lv_shared lv_next_arc].
  - rewrite E. by apply Hid.
  - intros id [= <-]. lia.
Qed.

Lemma clone_shared_id (c : LiveEntry C) es b lp sh oes :
  snapshot_of c es b lp sh oes -> snapshot_of (clone_shared c).1 es b lp sh oes.
Proof.
  intros [H1 H2 H3 H4 H5 H6 H7]. unfold clone_shared. destruct (lv_shared c) as [id|] eqn:E; [by split; try done; cbn; rewrite E|].
  split; try done; cbn [lv_next_arc lv_shared fst]; [lia|]. intros [= E']. lia.
Qed.

Lemma share_keeps s (c : LiveEntry C) f h b es : cell_inv s c f h b es -> cell_inv s (clone_shared c).1 f h b es.
Proof.
  intros Hi. pose proof (clone_shared_entry c) as E. pose proof (clone_shared_lru c) as El.
  assert (lv_table (clone_shared c).1 = lv_table c) as Et by (unfold lv_table; by rewrite E).
  assert (lv_state (clone_shared c).1 = lv_state c) as Es by (unfold lv_state; by rewrite E).
  pose proof (ci_flight _ _ _ _ _ _ _ _ _ Hi) as Hfl.
  split; unfold state_ok; rewrite ?Et, ?Es, ?E, ?El; try apply Hi; [apply clone_shared_arc, Hi|].
  destruct f as [|kind|sh l]; cbn in Hfl |- *; rewrite ?E, ?Es; [done| |].
  - destruct Hfl as (sh & rp & lp & oes & -> & Hs). exists sh, rp, lp, oes. split; [|by apply clone_shared_id].
    unfold below_l0_only. by rewrite Es.
  - destruct Hfl as (lp & lp2 & oes & Hs & Hr). exists lp, lp2, oes. split; [by apply clone_shared_id|done].
Qed.
(** ** Loading *)

Lemma load_l0_ok s l :
  levels_ok ks U s l ->
  exists base bes, match levels_l0 l with Some pos => ld_load s pos | None => Some it_default end = Some base /\
    cell_blob ks U base bes /\ forall k, bt_get k bes = opt_view s (levels_l0 l) k.
Proof.
  intros Hl. destruct (levels_l0 l) as [p|] eqn:E.
  - destruct (levels_get_ok ks U s l 0 p Hl E) as [Hb _]. apply blob_ok_load in Hb as (t & Ht & Hc).
    by exists t, (blob_entries s p).
  - exists it_default, []. split; [done|]. split; [|done]. split; [apply cell_table_default|done].
Qed.

(** The table a load leaves: the blob under the cell's own writes. *)
Definition loaded_table (s : S) (c : LiveEntry C) (es : list entry) (t' : IndexTable) (es' : list entry) : Prop :=
  cell_table ks U t' es' /\
  (forall k, positions_of (it_data t') k = positions_of (it_data (lv_table c)) k) /\
  forall k, bt_get k es' = or_else (bt_get k es) (opt_view s (levels_l0 (le_levels (lv_entry c))) k).

Lemma loaded_keeps s (c : LiveEntry C) h b es t' es' st :
  cell_inv s c Idle h b es -> loaded_table s c es t' es' -> state_is_loaded (lv_state c) = false ->
  (st = Loaded /\ it_data t' = [] /\ forall k, bt_get k es' = opt_view s (levels_l0 (le_levels (lv_entry c))) k) \/ st = DirtyLoaded ->
  cell_inv s (on_entry (put_owned c t') (fun e => set_state e st)) Idle h b es'.
Proof.
  intros Hi (Ht & Hp & Hg) Hst Hnew. set (c' := on_entry _ _).
  assert (lv_table c' = t') as Et by done.
  assert (forall k, cell_disk s st (le_levels (lv_entry c)) k = below_view s (le_levels (lv_entry c)) k) as Hd
    by (by destruct Hnew as [(-> & _)| ->]).
  split; rewrite ?Et; try apply Hi; try done.
  - intros k p. rewrite Hp. apply Hi.
  - intros k p. rewrite Hp. apply Hi.
  - intros k lp Hle. rewrite view_at_parts, Hp, Hg. rewrite <- (ci_reads _ _ _ _ _ _ _ _ _ Hi k lp Hle). f_equal.
    change (lv_state c') with st. change (le_levels (lv_entry c')) with (le_levels (lv_entry c)). rewrite Hd, view_at_parts.
    rewrite !or_else_assoc. do 2 f_equal. by destruct (lv_state c).
  - unfold state_ok. change (lv_state c') with st. by destruct Hnew as [(-> & ? & ?)| ->].
Qed.

Lemma load_merges s (c : LiveEntry C) f h b es base bes :
  cell_inv s c f h b es -> cell_blob ks U base bes ->
  (forall k, bt_get k bes = opt_view s (levels_l0 (le_levels (lv_entry c))) k) ->
  exists t' es', merge_dirty_no_clean base (lv_table c) = Ok t' /\ loaded_table s c es t' es'.
Proof.
  intros Hi Hb Hg. destruct (merge_cell_gen ks U false base (lv_table c) bes es Hu Hb (ci_table _ _ _ _ _ _ _ _ _ Hi))
    as (t' & es' & Hm & Ht & Hes & Hp).
  exists t', es'. split; [done|]. split; [done|]. split; intros k.
  - rewrite Hp. erewrite map_ext; [apply map_id|done].
  - rewrite Hes, Hg. by destruct (bt_get k es).
Qed.

Lemma load_clean s (c : LiveEntry C) f h b es base bes :
  cell_inv s c f h b es -> lv_state c = Unloaded -> cell_blob ks U base bes ->
  (forall k, bt_get k bes = opt_view s (levels_l0 (le_levels (lv_entry c))) k) -> loaded_table s c es base bes.
Proof.
  intros Hi Hst Hb Hg. pose proof (ci_state _ _ _ _ _ _ _ _ _ Hi) as He. unfold state_ok in He. rewrite Hst in He.
  pose proof (ct_wf _ _ _ _ (ci_table _ _ _ _ _ _ _ _ _ Hi)) as Hw.
  split; [apply Hb|]. unfold it_is_empty in He. destruct (it_data (lv_table c)) eqn:Ed; [|done]. split; intros k.
  - by rewrite (cb_data _ _ _ _ Hb).
  - rewrite Hg. assert (it_view (lv_table c) es k = None) as Hv.
    { apply (it_is_empty_view _ _ Hw). unfold it_is_empty. by rewrite Ed. }
    unfold it_view, positions_of in Hv. rewrite Ed in Hv. cbn in Hv. by rewrite Hv.
Qed.

Lemma no_pending_idle s (c : LiveEntry C) f h b es :
  cell_inv s c f h b es -> le_pending_last_processed (lv_entry c) = None -> f = Idle.
Proof.
  intros Hi Ep. pose proof (ci_flight _ _ _ _ _ _ _ _ _ Hi) as Hfl. destruct f as [|kind|sh l]; [done| |].
  - destruct Hfl as (? & ? & ? & ? & _ & Hs). apply so_pending in Hs. congruence.
  - destruct Hfl as (? & ? & ? & Hs & _). apply so_pending in Hs. congruence.
Qed.

Lemma load_keeps s (c : LiveEntry C) f h b es :
  cell_inv s c f h b es -> exists c' es', maybe_load c s = Ok (s, (c', true)) /\ cell_inv s c' f h b es'.
Proof.
  intros Hi. unfold maybe_load, as_unloaded_state.
  destruct (load_l0_ok s (le_levels (lv_entry c)) (ci_levels _ _ _ _ _ _ _ _ _ Hi)) as (base & bes & Hl & Hb & Hg).
  destruct (le_pending_last_processed (lv_entry c)) as [lp|] eqn:Ep; [by exists c, es; destruct (lv_state c)|].
  pose proof (no_pending_idle _ _ _ _ _ _ Hi Ep) as ->.
  assert (forall T (k : option IndexTable -> LM S T),
            (match levels_l0 (le_levels (lv_entry c)) with
             | Some pos => asks (fun s => ld_load s pos)
             | None => mret (Some it_default)
             end ≫= k) s = k (Some base) s) as Hbind.
  { intros T k. destruct (levels_l0 (le_levels (lv_entry c))) as [p|]; [|by injection Hl as ->].
    unfold mbind, LM_bind, asks. by rewrite Hl. }
  destruct (lv_state c) eqn:Est; try by exists c, es.
  - exists (on_entry (put_owned c base) (fun e => set_state e Loaded)), bes. rewrite Hbind. split.
    + pose proof (ci_state _ _ _ _ _ _ _ _ _ Hi) as He. unfold state_ok in He. rewrite Est in He. by rewrite He.
    + apply (loaded_keeps s c h b es); [done|by eapply load_clean|by rewrite Est|]. left. split; [done|]. split; [apply Hb|done].
  - destruct (load_merges s c Idle h b es base bes Hi Hb Hg) as (t' & es' & Hm & Ht).
    exists (on_entry (put_owned c t') (fun e => set_state e DirtyLoaded)), es'. rewrite Hbind. split.
    + unfold mbind, LM_bind, lift. by rewrite Hm.
    + apply (loaded_keeps s c h b es); [done|done|by rewrite Est|by right].
Qed.

(** ** Snapshots *)

(** The blobs of a clean cell hold everything. *)
Lemma clean_durable s (c : LiveEntry C) f h b es k :
  cell_inv s c f h b es -> state_is_dirty (lv_state c) = false -> state_is_empty (lv_state c) = false ->
  visible (ld_min_wal_position s) (levels_view s (le_levels (lv_entry c)) k) = visible (ld_min_wal_position s) (newest_write k h).
Proof.
  intros Hi Hd He. pose proof (ci_frontier _ _ _ _ _ _ _ _ _ Hi) as Hfr. pose proof (ct_wf _ _ _ _ (ci_table _ _ _ _ _ _ _ _ _ Hi)) as Hw.
  rewrite newest_write_at by apply Hi. rewrite <- (ci_reads _ _ _ _ _ _ _ _ _ Hi) by lia. f_equal. rewrite <- it_view_max by done.
  pose proof (ci_state _ _ _ _ _ _ _ _ _ Hi) as Hs. unfold state_ok in Hs. destruct (lv_state c); try done.
  - by rewrite (it_is_empty_view _ _ Hw Hs).
  - destruct Hs as [Ed Hg]. unfold it_view, positions_of. rewrite Ed. cbn. by rewrite Hg.
Qed.

Lemma snapshot_keeps s (c : LiveEntry C) f h b es :
  cell_inv s c f h b es ->
  cell_inv s (cell_snapshot (ld_last_processed s) c).1.1 f h (Z.max b (ld_last_processed s)) es.
Proof.
  intros Hi. pose proof (ci_frontier _ _ _ _ _ _ _ _ _ Hi) as Hfr. pose proof (ci_flight _ _ _ _ _ _ _ _ _ Hi) as Hfl.
  assert (forall c', lv_table c' = lv_table c -> lv_state c' = lv_state c -> le_levels (lv_entry c') = le_levels (lv_entry c) ->
            le_bloom (lv_entry c') = le_bloom (lv_entry c) -> lv_value_lru c' = lv_value_lru c ->
            le_pending_last_processed (lv_entry c') = le_pending_last_processed (lv_entry c) ->
            lv_shared c' = lv_shared c -> lv_next_arc c' = lv_next_arc c ->
            (forall k, Forall (fun p => iwp_offset p < le_last_processed (lv_entry c')) (history_of k h) ->
               visible (ld_min_wal_position s) (levels_view s (le_levels (lv_entry c)) k) =
               visible (ld_min_wal_position s) (newest_write k h)) ->
            cell_inv s c' f h (Z.max b (ld_last_processed s)) es) as Hsame.
  { intros c' E1 E2 E3 E4 E5 E6 E7 E8 Hdur.
    split; unfold state_ok; rewrite ?E1, ?E2, ?E3, ?E4, ?E5, ?E7, ?E8; try apply Hi; try done; [|lia|].
    - intros k p Hp Hle. apply Hi; [done|lia].
    - assert (forall lp sh oes, snapshot_of c es b lp sh oes -> snapshot_of c' es (Z.max b (ld_last_processed s)) lp sh oes) as Hsn.
      { intros lp sh oes [H1 H2 H3 H4 H5 H6 H7]. split; rewrite ?E1, ?E2, ?E6, ?E7, ?E8; try done. lia. }
      destruct f as [|kind|sh l]; cbn in Hfl |- *; rewrite ?E2, ?E3, ?E6; [done| |].
      + destruct Hfl as (sh & rp & lp & oes & -> & Hs). exists sh, rp, lp, oes. split; [|auto]. unfold below_l0_only. by rewrite E2.
      + destruct Hfl as (lp & lp2 & oes & Hs & Hr). exists lp, lp2, oes. auto. }
  unfold cell_snapshot. cbn [fst].
  destruct (negb (state_is_dirty (lv_state c)) && negb (state_is_empty (lv_state c))) eqn:E; apply Hsame; try done; [|apply Hi].
  apply andb_true_iff in E as [Ed%negb_true_iff Ee%negb_true_iff]. intros k _. by apply (clean_durable s c f h b es).
Qed.

(** ** The rest of the database *)

Lemma advance_keeps s s' (c : LiveEntry C) f h b es : cell_inv s (c : LiveEntry C) f h b es -> store_advances s s' -> cell_inv s' c f h b es.
Proof.
  intros Hi (Hk & Hm & Hlp). pose proof (ci_levels _ _ _ _ _ _ _ _ _ Hi) as Hl.
  pose proof (ci_frontier _ _ _ _ _ _ _ _ _ Hi) as Hfr. pose proof (ci_flight _ _ _ _ _ _ _ _ _ Hi) as Hfl.
  split; try apply Hi.
  - by apply (levels_kept ks U s).
  - intros k lp Hle. rewrite Hm, (cell_disk_kept ks U s s') by done. apply Hi. lia.
  - intros k Hf. rewrite Hm, (levels_view_kept ks U s s') by done. by apply Hi.
  - pose proof (ci_state _ _ _ _ _ _ _ _ _ Hi) as Hs. unfold state_ok in *. destruct (lv_state c); try done.
    destruct Hs as [Hd Hg]. split; [done|]. intros k. rewrite Hg. symmetry. apply (opt_view_kept ks U); [done|].
    intros p Hp. by apply (levels_get_ok ks U s (le_levels (lv_entry c)) 0 p).
  - lia.
  - destruct f as [|kind|sh l]; [done|done|]. destruct Hfl as (lp & lp2 & oes & Hs & Hle & Hlo & Hr).
    exists lp, lp2, oes. split; [done|]. split; [lia|]. split; [by apply (levels_kept ks U s)|]. intros k.
    rewrite Hm, (levels_view_kept ks U s s'), (cell_disk_kept ks U s s') by done. apply Hr.
Qed.
(** ** A flush *)

Lemma flush_kind_dirty (c : LiveEntry C) rp :
  state_is_dirty (lv_state c) = true ->
  flush_kind c rp = ((clone_shared c).1, Some (Flush (clone_shared c).2 (le_levels (lv_entry c)) (below_l0_only c) rp)).
Proof.
  intros Hd. unfold flush_kind, below_l0_only. pose proof (clone_shared_entry c) as E.
  destruct (lv_state c); try done; destruct (clone_shared c) as [c' sh]; cbn in *; by rewrite E.
Qed.

Lemma clone_shared_snapshot (c : LiveEntry C) es b lp :
  le_pending_last_processed (lv_entry c) = Some lp -> state_is_dirty (lv_state c) = true ->
  cell_table ks U (lv_table c) es -> lp <= b ->
  (forall id, lv_shared c = Some id -> id < lv_next_arc c)%nat ->
  snapshot_of (clone_shared c).1 es b lp (clone_shared c).2 es.
Proof.
  intros Hp Hd Ht Hb Hid. pose proof (clone_shared_entry c) as E.
  assert (sh_table (clone_shared c).2 = lv_table c) as Es by (unfold clone_shared; by destruct (lv_shared c)).
  assert (lv_table (clone_shared c).1 = lv_table c) as Et by (unfold lv_table; by rewrite E).
  split; rewrite ?Es, ?Et; unfold lv_state; rewrite ?E; try done.
  - apply live_inv_init, Ht.
  - unfold clone_shared. destruct (lv_shared c) as [id|] eqn:Esh; cbn; [by apply Hid|lia].
Qed.

Lemma request_keeps s (c : LiveEntry C) h b es rp :
  cell_inv s c Idle h b es -> state_is_dirty (lv_state c) = true ->
  exists c' kind,
    flush_kind (on_entry c (fun e => set_pending_last_processed e (Some (ld_last_processed s)))) rp = (c', Some kind) /\
    cell_inv s c' (Requested kind) h (Z.max b (ld_last_processed s)) es.
Proof.
  intros Hi Hd. set (c0 := on_entry _ _). eexists _, _. split; [by apply flush_kind_dirty|].
  pose proof (clone_shared_entry c0) as E. pose proof (clone_shared_lru c0) as El.
  assert (lv_table (clone_shared c0).1 = lv_table c) as Et by (unfold lv_table; by rewrite E).
  assert (lv_state (clone_shared c0).1 = lv_state c) as Es by (unfold lv_state; by rewrite E).
  pose proof (ci_frontier _ _ _ _ _ _ _ _ _ Hi) as Hfr.
  split; unfold state_ok; rewrite ?Et, ?Es, ?E, ?El; try apply Hi.
  - intros k p Hp Hle. apply Hi; [done|lia].
  - lia.
  - apply clone_shared_arc, Hi.
  - exists (clone_shared c0).2, rp, (ld_last_processed s), es. split.
    + rewrite E. f_equal. unfold below_l0_only. by rewrite Es.
    + apply clone_shared_snapshot; [done|done|apply Hi|lia|apply Hi].
Qed.
Lemma extends_advances (s s' : S) : ld_last_processed s <= 2 ^ 64 -> store_extends s s' -> store_advances s s'.
Proof. intros Hle (Hk & Hm & Hl & _). split; [done|]. split; [done|]. lia. Qed.

Lemma flush_keeps s (c : LiveEntry C) h b es kind :
  cell_inv s c (Requested kind) h b es -> flush_allowed s kind ->
  exists s' original new_levels,
    handle_command (cx_flush cx) kind RelocationNone s = Ok (s', Some (original, new_levels)) /\
    store_advances s s' /\ cell_inv s' c (Written original new_levels) h b es.
Proof.
  intros Hi [Hwb Ha]. pose proof (ci_frontier _ _ _ _ _ _ _ _ _ Hi) as Hfr.
  destruct (ci_flight _ _ _ _ _ _ _ _ _ Hi) as (sh & rp & lp & oes & -> & Hs).
  pose proof (so_table _ _ _ _ _ _ _ _ Hs) as Ht. pose proof (so_barrier _ _ _ _ _ _ _ _ Hs) as Hb.
  pose proof (ci_levels _ _ _ _ _ _ _ _ _ Hi) as Hl.
  destruct (flush_merge_ok ks U Hu (cx_flush cx) Hser Hnc s _ sh oes _ (below_l0_only c) rp eq_refl Hwb Ht Hl (Ha oes (ct_wf _ _ _ _ Ht)))
    as (s' & r & Hc & l' & -> & Hext & Hl' & Hv).
  exists s', sh, l'. split; [exact Hc|].
  pose proof (extends_advances s s' (proj2 Hfr) Hext) as Hadv. split; [done|]. pose proof (advance_keeps _ _ _ _ _ _ _ Hi Hadv) as Hi'.
  split; try apply Hi'. destruct Hext as (Hk & Hm & Hlp & _). exists lp, (ld_last_processed s), oes. split; [done|].
  split; [lia|]. split; [done|]. intros k. rewrite Hm, Hv, (cell_disk_kept ks U s s') by done. f_equal. unfold flush_content. f_equal.
  unfold cell_disk, flush_base, below_l0_only, levels_view. by destruct (lv_state c).
Qed.

(** The cell after its table was replaced by what the flush does not hold. *)
Lemma taken_over s (c : LiveEntry C) sh l' h b es lp t' st :
  cell_inv s c (Written sh l') h b es -> le_pending_last_processed (lv_entry c) = Some lp ->
  cell_table ks U t' [] -> state_is_loaded st = false -> (st = Unloaded -> it_is_empty t' = true) ->
  (forall k p, In p (positions_of (it_data t') k) -> In p (positions_of (it_data (lv_table c)) k) /\ lp <= iwp_offset p) ->
  (forall k p, In p (positions_of (it_data (lv_table c)) k) -> lp <= iwp_offset p -> In p (positions_of (it_data t') k)) ->
  (forall k lp', ld_last_processed s <= lp' ->
     visible (ld_min_wal_position s) (or_else (it_view_at t' [] k lp') (levels_view s l' k)) =
     visible (ld_min_wal_position s)
       (or_else (it_view_at (lv_table c) es k lp') (cell_disk s (lv_state c) (le_levels (lv_entry c)) k))) ->
  cell_inv s (mkLive (mkEntry st l' lp None (le_bloom (lv_entry c)) t') None (lv_next_arc c) (lv_pending_data c) (lv_value_lru c))
    Idle h b [].
Proof.
  intros Hi Hp Ht Hst He Hsub Hrec Hrd. pose proof (ci_flight _ _ _ _ _ _ _ _ _ Hi) as (lp0 & lp2 & oes & Hs & Hle & Hlo & _).
  pose proof (so_pending _ _ _ _ _ _ _ _ Hs) as Hp0. pose proof (so_barrier _ _ _ _ _ _ _ _ Hs) as Hb. assert (lp0 = lp) as -> by congruence.
  pose proof (ci_frontier _ _ _ _ _ _ _ _ _ Hi) as Hfr. set (c' := mkLive _ _ _ _ _).
  assert (forall k, cell_disk s (lv_state c') (le_levels (lv_entry c')) k = levels_view s l' k) as Hd by (intros k; cbn; by destruct st).
  assert (forall k lp', ld_last_processed s <= lp' ->
            visible (ld_min_wal_position s) (or_else (it_view_at t' [] k lp') (levels_view s l' k)) =
            visible (ld_min_wal_position s) (newest_at lp' k h)) as Hnew.
  { intros k lp' Hlp'. rewrite Hrd by done. by apply Hi. }
  split; try apply Hi; try done.
  - intros k p [Hin _]%Hsub. by apply Hi.
  - intros k p Hin Hbp. apply Hrec; [by apply Hi|lia].
  - intros k lp' Hlp'. rewrite Hd. by apply Hnew.
  - intros k Hall. rewrite newest_write_at by apply Hi. rewrite <- Hnew by lia. rewrite view_at_parts.
    assert (positions_of (it_data t') k = []) as ->; [|done].
    destruct (positions_of (it_data t') k) as [|p ps] eqn:Ep; [done|]. exfalso.
    destruct (Hsub k p) as [Hin Hge]; [rewrite Ep; by left|]. apply Hi in Hin. rewrite List.Forall_forall in Hall.
    specialize (Hall p Hin). cbn in Hall. lia.
  - unfold state_ok, lv_state. cbn. destruct st; try done. by apply He.
Qed.
(** What the new blobs answer under the table left in memory. *)
Lemma taken_over_reads s (c : LiveEntry C) sh l' h b es t' :
  cell_inv s c (Written sh l') h b es ->
  (forall lp lp2 oes, snapshot_of c es b lp sh oes -> lp <= lp2 <= ld_last_processed s -> forall k lp' d, lp2 <= lp' ->
     or_else (it_view_at t' [] k lp') (or_else (it_view_at (sh_table sh) oes k lp2) d) = or_else (it_view_at (lv_table c) es k lp') d) ->
  forall k lp', ld_last_processed s <= lp' ->
    visible (ld_min_wal_position s) (or_else (it_view_at t' [] k lp') (levels_view s l' k)) =
    visible (ld_min_wal_position s)
      (or_else (it_view_at (lv_table c) es k lp') (cell_disk s (lv_state c) (le_levels (lv_entry c)) k)).
Proof.
  intros Hi Hv k lp' Hlp'. pose proof (ci_flight _ _ _ _ _ _ _ _ _ Hi) as (lp & lp2 & oes & Hs & Hle & _ & Hr).
  rewrite (visible_or_else _ _ _ _ (Hr k)). f_equal. apply (Hv lp); [done|done|lia].
Qed.

Lemma update_flushed_dirty (c : LiveEntry C) sh l' lp :
  state_is_dirty (lv_state c) = true -> le_pending_last_processed (lv_entry c) = Some lp ->
  update_flushed_index cx c sh l' =
  (let c1 := on_entry c (fun e => set_last_processed (set_pending_last_processed e None) lp) in
   if same_shared c sh then clear_after_flush cx c1 l' lp true
   else t ← unmerge_flushed (lv_table c) (sh_table sh) lp;
        Ok (on_entry (put_owned c1 t) (fun e => set_state (set_levels e l') DirtyUnloaded))).
Proof.
  intros Hd Hp. unfold update_flushed_index, commit_pending_last_processed. rewrite Hp. by destruct (lv_state c).
Qed.

Lemma complete_same s (c : LiveEntry C) sh l' h b es :
  cell_inv s c (Written sh l') h b es -> same_shared c sh = true ->
  exists c', update_flushed_index cx c sh l' = Ok c' /\ cell_inv s c' Idle h b [].
Proof.
  intros Hi Hsame. pose proof (ci_flight _ _ _ _ _ _ _ _ _ Hi) as (lp & lp2 & oes & Hs & Hle & Hlo & Hr).
  pose proof (ci_table _ _ _ _ _ _ _ _ _ Hi) as Ht.
  destruct (so_same _ _ _ _ _ _ _ _ Hs) as [Et Ees].
  { unfold same_shared in Hsame. destruct (lv_shared c) as [id|]; [|done]. by apply Nat.eqb_eq in Hsame as ->. }
  destruct (retain_unprocessed_cell ks U (lv_table c) es lp Ht) as (t' & Hret & Ht' & Hpos & Hv).
  rewrite (update_flushed_dirty c sh l' lp) by apply Hs. rewrite Hsame. cbn zeta. eexists. split.
  { unfold clear_after_flush. rewrite Hun. cbn [negb orb andb]. rewrite andb_false_r.
    change (lv_table (on_entry (on_entry c _) _)) with (lv_table c). unfold mbind, outcome_bind. rewrite Hret. reflexivity. }
  apply (taken_over s c sh l' h b es lp t'); [done|apply Hs|done|..].
  - change (le_data _) with t'. by destruct (it_is_empty t').
  - change (le_data _) with t'. by destruct (it_is_empty t').
  - intros k p. rewrite Hpos. intros [Hin Hge]%filter_In. split; [done|]. apply negb_true_iff, Z.ltb_ge in Hge. exact Hge.
  - intros k p Hin Hge. rewrite Hpos. apply filter_In. split; [done|]. apply negb_true_iff, Z.ltb_ge. exact Hge.
  - apply (taken_over_reads s c sh l' h b es); [done|]. intros lp0 lp3 oes0 Hs0 Hle0 k lp' d Hlp'.
    destruct (so_same _ _ _ _ _ _ _ _ Hs0) as [Et0 Ees0].
    { unfold same_shared in Hsame. destruct (lv_shared c) as [id|]; [|done]. by apply Nat.eqb_eq in Hsame as ->. }
    rewrite <- Et0, <- Ees0. apply Hv. pose proof (so_pending _ _ _ _ _ _ _ _ Hs). pose proof (so_pending _ _ _ _ _ _ _ _ Hs0).
    assert (lp0 = lp) as -> by congruence. lia.
Qed.
Lemma complete_other s (c : LiveEntry C) sh l' h b es :
  cell_inv s c (Written sh l') h b es -> same_shared c sh = false ->
  exists c', update_flushed_index cx c sh l' = Ok c' /\ cell_inv s c' Idle h b [].
Proof.
  intros Hi Hsame. pose proof (ci_flight _ _ _ _ _ _ _ _ _ Hi) as (lp & lp2 & oes & Hs & Hle & Hlo & Hr).
  pose proof (ci_table _ _ _ _ _ _ _ _ _ Hi) as Ht. pose proof (so_live _ _ _ _ _ _ _ _ Hs) as Hlive.
  destruct (unmerge_cell ks U lp (sh_table sh) oes (lv_table c) es Ht Hlive) as (t' & Hun' & Ht' & Hpos & _).
  rewrite (update_flushed_dirty c sh l' lp) by apply Hs. rewrite Hsame. cbn zeta. eexists. split.
  { unfold mbind, outcome_bind. rewrite Hun'. reflexivity. }
  apply (taken_over s c sh l' h b es lp t'); [done|apply Hs|done|done|done|..].
  - intros k p. rewrite Hpos. intros [Hin Hn]%filter_In. split; [done|]. apply negb_true_iff, bool_decide_eq_false in Hn.
    rewrite processed_In in Hn. destruct Hlive as (_ & _ & Hrel). cbn [fst snd] in Hrel.
    destruct (Hrel k) as [(_ & Hnew & _)|(Hge & _)].
    + destruct (Hnew p Hin) as [Hpo|]; [|done]. destruct (Z.leb_spec lp (iwp_offset p)); [done|]. tauto.
    + rewrite List.Forall_forall in Hge. by apply Hge.
  - intros k p Hin Hge. rewrite Hpos. apply filter_In. split; [done|]. apply negb_true_iff, bool_decide_eq_false.
    rewrite processed_In. lia.
  - apply (taken_over_reads s c sh l' h b es); [done|]. intros lp0 lp3 oes0 Hs0 Hle0 k lp' d Hlp'.
    destruct (unmerge_cell ks U lp0 (sh_table sh) oes0 (lv_table c) es Ht (so_live _ _ _ _ _ _ _ _ Hs0)) as (t'' & Hun'' & _ & _ & Hv).
    pose proof (so_pending _ _ _ _ _ _ _ _ Hs). pose proof (so_pending _ _ _ _ _ _ _ _ Hs0). assert (lp0 = lp) as -> by congruence.
    assert (t'' = t') as -> by congruence. apply Hv. lia.
Qed.

Lemma complete_keeps s (c : LiveEntry C) sh l' h b es :
  cell_inv s c (Written sh l') h b es ->
  exists c', update_flushed_index cx c sh l' = Ok c' /\ cell_inv s c' Idle h b [].
Proof. intros Hi. destruct (same_shared c sh) eqn:E; [by eapply complete_same|by eapply complete_other]. Qed.
End steps.
