(* ===== verification/CellReads.v ===== *)
(** * Reads of a live cell

    [LargeTable::get], [get_checkpoint], [lookup_disk_levels] and [update_lru]
    (src/tidehunter/src/large_table.rs) on the entry of a key, and what
    [Db::get] and [Db::exists] (db.rs) make of the answer: every answer is the
    newest write of the history, as of the frontier asked for.

    The readers of the levels are opened under the row lock, and a blob never
    changes, so a reader is its answer for the key; a reader that cannot be
    opened fails the whole call ([None]). *)

From Stdlib Require Import ZArith Lia List Sorting.Sorted.
From stdpp Require Import base tactics list gmap strings.
From S2P Require Import Prelude BTree Bytes Position Flat FlatFacts IndexTable IndexOps IndexTableFacts IndexWalk.
From S2P Require Import IndexPromote IndexFlush IndexUnmerge IndexCodec IndexClean Levels Loader Flusher FlusherFacts.
From S2P Require Import FlusherShards FlushCommand TableEntry Pending CellOps CellSystem CellInvariant.

Local Open Scope Z_scope.

(** ** Definitions *)

Inductive GetResult :=
| GetValue (full_key value : list Z)
| GetWalPosition (w : WalPosition)
| GetNotFound.

Definition get_is_found (r : GetResult) : bool :=
  match r with GetValue _ _ | GetWalPosition _ => true | GetNotFound => false end.

Definition report_lookup_result (v : option WalPosition) : GetResult :=
  match v with None => GetNotFound | Some w => GetWalPosition w end.

(** The answers of the levels' readers, shallowest first. *)
Fixpoint lookup_disk_levels (answers : list (option WalPosition)) : GetResult :=
  match answers with
  | [] => report_lookup_result None
  | Some pos :: _ => report_lookup_result (if wp_is_valid pos then Some pos else None)
  | None :: rest => lookup_disk_levels rest
  end.

Section reads.
Context `{BloomHashes} {C : Type} `{ValueCache C} {S : Type} `{Loader S}.
Notation Live := (LiveEntry C).

Definition set_value_lru (c : Live) (lru : option C) : Live :=
  mkLive (lv_entry c) (lv_shared c) (lv_next_arc c) (lv_pending_data c) lru.

(** A hit in the value cache, and the cache it leaves. *)
Definition value_lru_get (c : Live) (k : list Z) : Live * option (list Z * list Z) :=
  match lv_value_lru c with
  | Some lru => let '(lru, hit) := lru_get lru k in (set_value_lru c (Some lru), hit)
  | None => (c, None)
  end.

Definition walk_disk_levels (c : Live) (k : list Z) : LM S (option GetResult) :=
  match disk_levels_to_walk_for_key c k with
  | [] => mret (Some (report_lookup_result None))
  | level_positions =>
      index_readers ← asks (fun s => mapM (fun pos => ld_lookup s pos k) level_positions);
      mret (option_map lookup_disk_levels index_readers)
  end.

(** [get] past the promotion of pending writes. *)
Definition cell_lookup (c : Live) (k : list Z) : LM S (Live * option GetResult) :=
  let '(c, hit) := value_lru_get c k in
  match hit with
  | Some (full_key, value) => mret (c, Some (GetValue full_key value))
  | None =>
      if bloom_filter_not_found (lv_entry c) k then mret (c, Some (report_lookup_result None))
      else if bool_decide (lv_state c = Empty) then mret (c, Some (report_lookup_result None))
      else
        found ← (if bool_decide (lv_state c = Unloaded) then mret None else lift (cell_get c k));
        match found with
        | Some found => mret (c, Some (report_lookup_result (wp_valid found)))
        | None => r ← walk_disk_levels c k; mret (c, r)
        end
  end.

Definition table_get (st : status_store) (c : Live) (k : list Z) : LM S (Live * option GetResult) :=
  frontier ← asks ld_last_processed;
  c ← lift (promote_pending frontier st c);
  cell_lookup c k.

(** [get_checkpoint] past the promotion of pending writes. *)
Definition cell_lookup_at (c : Live) (k : list Z) (last_processed : LastProcessed) : LM S (Live * option GetResult) :=
  if bloom_filter_not_found (lv_entry c) k then mret (c, Some (report_lookup_result None))
  else if bool_decide (lv_state c = Empty) then mret (c, Some (report_lookup_result None))
  else
    found ← (if bool_decide (lv_state c = Unloaded) then mret None else lift (cell_get_at c k last_processed));
    match found with
    | Some found =>
        match wp_valid found with
        | None => mret (c, Some (report_lookup_result None))
        | Some as_of =>
            latest ← (if (match lv_value_lru c with Some _ => true | None => false end) then lift (cell_get c k) else mret None);
            let '(c, hit) := if bool_decide (latest = Some as_of) then value_lru_get c k else (c, None) in
            match hit with
            | Some (full_key, value) => mret (c, Some (GetValue full_key value))
            | None => mret (c, Some (report_lookup_result (Some as_of)))
            end
        end
    | None => r ← walk_disk_levels c k; mret (c, r)
    end.

Definition table_get_checkpoint (st : status_store) (c : Live) (k : list Z) (last_processed : LastProcessed) :
    LM S (Live * option GetResult) :=
  frontier ← asks ld_last_processed;
  c ← lift (promote_pending frontier st c);
  cell_lookup_at c k last_processed.

(** [value_cache]: whether the key space has a value cache. *)
Definition update_lru (value_cache : bool) (c : Live) (reduced_key full_key value : list Z) : outcome Live :=
  if negb value_cache then Ok c
  else match lv_value_lru c with
       | Some lru => Ok (set_value_lru c (Some (lru_push lru reduced_key (full_key, value))))
       | None => Panic "internal error: entered unreachable code"
       end.
End reads.

(** *** [Db::get] and [Db::exists] *)

Section front.
(** [need_check_index_key], and the record read at a position for a key. *)
Context (need_check_index_key : bool) (read_record_check_key : list Z -> WalPosition -> option (list Z)).

(** The value answered, and the value the cache is then filled with. *)
Definition db_get_answer (k : list Z) (r : GetResult) : option (list Z) * option (list Z) :=
  match r with
  | GetValue full_key value => (if need_check_index_key && negb (keqb full_key k) then None else Some value, None)
  | GetWalPosition w =>
      match read_record_check_key k w with
      | None => (None, None)
      | Some value => (Some value, Some value)
      end
  | GetNotFound => (None, None)
  end.

Definition db_exists_answer (k : list Z) (r : GetResult) : bool :=
  match r with
  | GetValue full_key _ => negb need_check_index_key || keqb full_key k
  | GetWalPosition w =>
      if need_check_index_key then match read_record_check_key k w with Some _ => true | None => false end else true
  | GetNotFound => false
  end.
End front.

(** ** Facts *)

Section facts.
Context `{BloomHashes} {C : Type} `{ValueCache C} `{!ValueCacheSpec C} {S : Type} `{Loader S} (ks : option nat) (U : list (list Z)).
Context (record_at : list Z -> WalPosition -> list Z * list Z).
Notation cell_inv := (cell_inv ks U record_at).

(** An answer for [k] that stands for the write [newest]: the record of a live
    write the floor [x] leaves, or nothing when there is none. *)
Definition answer_ok (x : Z) (k : list Z) (newest : option IndexWalPosition) (r : GetResult) : Prop :=
  match r with
  | GetValue full_key value => exists w, wp_is_valid w = true /\ record_at k w = (full_key, value) /\
      visible_wal x (Some w) = visible x newest
  | GetWalPosition w => wp_is_valid w = true /\ visible_wal x (Some w) = visible x newest
  | GetNotFound => visible x newest = None
  end.

Lemma wp_valid_if w : wp_valid w = if wp_is_valid w then Some w else None.
Proof.
  unfold wp_valid. case_bool_decide as E; [by subst|]. assert (wp_is_valid w = true) as -> by (by apply wp_is_valid_iff). done.
Qed.

(** The position reported for what a read found. *)
Definition found_position (o : option IndexWalPosition) : option WalPosition :=
  match o with Some p => wp_valid (into_wal_position p) | None => None end.

Lemma report_ok x k o newest :
  (forall p, o = Some p -> iwp_fits p) -> visible x o = visible x newest -> answer_ok x k newest (report_lookup_result (found_position o)).
Proof.
  intros Hf Hv. rewrite visible_of_wal in Hv by done. destruct o as [p|]; cbn in *; [|done]. rewrite wp_valid_if.
  destruct (wp_is_valid (into_wal_position p)) eqn:E; cbn in *; [|done]. by rewrite E in *.
Qed.

Lemma lookup_answers s ps k :
  Forall (blob_ok ks U s) ps -> In k U ->
  mapM (fun pos => ld_lookup s pos k) ps = Some (List.map (fun p => option_map into_wal_position (blob_view s p k)) ps).
Proof.
  intros Hb Hk. induction Hb as [|p ps Hp _ IH]; [done|]. cbn. by rewrite (blob_ok_lookup ks U s p k Hp Hk), IH.
Qed.

Lemma lookup_first_hit s ps k :
  lookup_disk_levels (List.map (fun p => option_map into_wal_position (blob_view s p k)) ps) =
  report_lookup_result (found_position (first_hit s ps k)).
Proof.
  induction ps as [|p ps IH]; [done|]. cbn [List.map first_hit lookup_disk_levels].
  destruct (blob_view s p k) as [q|]; [|done]. cbn. by rewrite wp_valid_if.
Qed.

Lemma first_hit_opt s o k : first_hit s (option_list o) k = opt_view s o k.
Proof. destruct o; cbn; [apply or_else_None_r|done]. Qed.

Lemma opt_view_valid s p k : opt_view s (wp_valid p) k = first_hit s (if wp_is_valid p then [p] else []) k.
Proof. rewrite wp_valid_if. destruct (wp_is_valid p); cbn; [by rewrite or_else_None_r|done]. Qed.

(** The levels walked for a key are what is read below the table. *)
Lemma walk_view s (c : LiveEntry C) k :
  levels_ok ks U s (le_levels (lv_entry c)) ->
  first_hit s (disk_levels_to_walk_for_key c k) k = cell_disk s (lv_state c) (le_levels (lv_entry c)) k.
Proof.
  intros Hl. set (l := le_levels (lv_entry c)) in *.
  assert (cell_disk s (lv_state c) l k = or_else (if below_l0_only c then None else opt_view s (levels_l0 l) k) (below_view s l k)) as ->.
  { unfold below_l0_only. by destruct (lv_state c). }
  unfold disk_levels_to_walk_for_key. fold l. destruct (levels_is_sharded l) eqn:Es; cbn [negb].
  - unfold l0_and_shard. fold l. rewrite first_hit_app, first_hit_opt. unfold below_view, below_l0_for. rewrite Es.
    destruct (below_l0_only c); [done|]. by rewrite first_hit_opt.
  - rewrite below_view_unsharded by done. unfold disk_levels_to_walk. fold l.
    assert (shard_positions l = []) as Hsp.
    { unfold shard_positions. unfold levels_is_sharded in Es. by destruct (lv_shards l). }
    unfold levels_iter, levels_iter_below_l0. rewrite Hsp, !app_nil_r. pose proof (lo_slots _ _ _ _ Hl) as Hlen.
    unfold levels_l0, levels_l1, levels_get. destruct (lv_positions l) as [|p [|q [|]]]; cbn in Hlen |- *; [by destruct (below_l0_only c)|..|lia].
    + rewrite opt_view_valid, or_else_None_r. by destruct (below_l0_only c).
    + rewrite !opt_view_valid. destruct (below_l0_only c); [done|]. by destruct (wp_is_valid p), (wp_is_valid q); cbn; rewrite ?or_else_None_r.
Qed.

Lemma walk_blobs s (c : LiveEntry C) k :
  levels_ok ks U s (le_levels (lv_entry c)) -> Forall (blob_ok ks U s) (disk_levels_to_walk_for_key c k).
Proof.
  intros Hl. pose proof (lo_blobs _ _ _ _ Hl) as Hb. set (l := le_levels (lv_entry c)) in *.
  assert (forall o : option WalPosition, (forall p, o = Some p -> blob_ok ks U s p) -> Forall (blob_ok ks U s) (option_list o)) as Hopt.
  { intros [p|] Ho; cbn; [|constructor]. constructor; [by apply Ho|constructor]. }
  unfold disk_levels_to_walk_for_key. fold l. destruct (levels_is_sharded l) eqn:Es; cbn [negb].
  - unfold l0_and_shard. fold l. apply Forall_app. split.
    + destruct (below_l0_only c); [constructor|]. apply Hopt. intros p Hp. by apply (levels_get_ok ks U s l 0).
    + apply Hopt. intros p Hp. apply (below_l0_blob ks U s l k p Hl). unfold below_l0_for. by rewrite Es.
  - unfold disk_levels_to_walk. fold l. destruct (below_l0_only c); [|done].
    unfold levels_iter, levels_iter_below_l0 in *. apply Forall_app in Hb as [Hb1 Hb2]. apply Forall_app. split; [|done].
    rewrite List.Forall_forall in *. intros p [Hin Hv]%filter_In. apply Hb1, filter_In. split; [|done].
    destruct (lv_positions l) as [|q ps]; [done|]. by right.
Qed.

Lemma walk_ok s (c : LiveEntry C) k x newest :
  levels_ok ks U s (le_levels (lv_entry c)) -> In k U ->
  visible x (cell_disk s (lv_state c) (le_levels (lv_entry c)) k) = visible x newest ->
  exists r, walk_disk_levels c k s = Ok (s, Some r) /\ answer_ok x k newest r.
Proof.
  intros Hl Hk Hv. pose proof (walk_view s c k Hl) as Hw. pose proof (walk_blobs s c k Hl) as Hb.
  exists (report_lookup_result (found_position (cell_disk s (lv_state c) (le_levels (lv_entry c)) k))). split.
  - unfold walk_disk_levels. rewrite <- Hw. destruct (disk_levels_to_walk_for_key c k) as [|p ps]; [done|].
    unfold asks, mbind, LM_bind. rewrite (lookup_answers s (p :: ps) k Hb Hk). cbn [option_map]. by rewrite lookup_first_hit.
  - apply report_ok; [|done]. intros p. rewrite <- Hw. by apply (first_hit_fits ks U).
Qed.

(** A key the filter denies has no live write. *)
Lemma bloom_denies s (c : LiveEntry C) f h b es k o :
  cell_inv s c f h b es -> bloom_filter_not_found (lv_entry c) k = true ->
  (forall p, o = Some p -> In p (history_of k h)) -> visible (ld_min_wal_position s) o = None.
Proof.
  intros Hi Hb Ho. unfold bloom_filter_not_found in Hb. destruct (le_bloom (lv_entry c)) as [keys|] eqn:E; [|done].
  apply negb_true_iff, orb_false_iff in Hb as [Hb _]. destruct o as [p|]; [|done]. cbn.
  destruct (is_removed p) eqn:Er; [done|]. rewrite <- not_true_iff_false in Hb. destruct Hb. apply existsb_exists. exists k.
  split; [|apply keqb_refl]. apply list_elem_of_In, (ci_bloom _ _ _ _ _ _ _ _ _ Hi keys k p E); auto.
Qed.

Lemma newest_at_In lp k h p : newest_at lp k h = Some p -> In p (history_of k h).
Proof. unfold newest_at. intros Hp%last_Some_elem_of%list_elem_of_In%processed_In. by destruct Hp. Qed.

Lemma empty_history s (c : LiveEntry C) f h b es : cell_inv s c f h b es -> lv_state c = Empty -> h = [].
Proof. intros Hi E. pose proof (ci_state _ _ _ _ _ _ _ _ _ Hi) as Hs. unfold state_ok in Hs. rewrite E in Hs. apply Hs. Qed.

Lemma unloaded_view s (c : LiveEntry C) f h b es k lp :
  cell_inv s c f h b es -> lv_state c = Unloaded -> lp <= 2 ^ 64 -> it_view_at (lv_table c) es k lp = None.
Proof.
  intros Hi E Hlp. pose proof (ci_state _ _ _ _ _ _ _ _ _ Hi) as Hs. unfold state_ok in Hs. rewrite E in Hs.
  pose proof (ct_wf _ _ _ _ (ci_table _ _ _ _ _ _ _ _ _ Hi)) as Hw.
  pose proof (it_is_empty_view _ _ Hw Hs k) as Hv. unfold it_is_empty in Hs. rewrite view_at_parts. unfold it_view, positions_of in *.
  destruct (it_data (lv_table c)); [|done]. exact Hv.
Qed.

Lemma it_view_at_fits t es k lp p : it_wf t es -> it_view_at t es k lp = Some p -> iwp_fits p.
Proof.
  intros Hw. rewrite view_at_parts. destruct (last _) as [q|] eqn:E; cbn.
  - intros [= <-]. apply last_Some_elem_of, list_elem_of_In, processed_In in E as [E _].
    pose proof (positions_of_fits (it_data t) k (proj1 Hw)) as Hf. rewrite List.Forall_forall in Hf. by apply Hf.
  - destruct Hw as [_ (_ & Hs & Hf & _)]. intros Hg%bt_get_In; [|done]. rewrite List.Forall_forall in Hf. by apply (Hf (k, p)).
Qed.

(** A cached record is the newest write's. *)
Lemma cached_newest s (c : LiveEntry C) f h b es k w :
  cell_inv s c f h b es -> (value_lru_get c k).2 = Some w ->
  exists p, newest_write k h = Some p /\ wp_is_valid (into_wal_position p) = true /\ record_at k (into_wal_position p) = w /\
    visible_wal (ld_min_wal_position s) (Some (into_wal_position p)) = visible (ld_min_wal_position s) (newest_write k h).
Proof.
  intros Hi Hh. unfold value_lru_get in Hh. destruct (lv_value_lru c) as [lru|] eqn:E; [|done].
  destruct (lru_get lru k) as [lru' hit] eqn:Eg. cbn in Hh. subst hit.
  assert (lru_find lru k = Some w) as Hfind by (rewrite <- (proj1 (lru_get_ok lru k)), Eg; done).
  destruct (ci_cache _ _ _ _ _ _ _ _ _ Hi lru k w E Hfind) as (p & Hp & Hr & Hrec). exists p. split; [done|].
  assert (iwp_fits p) as Hf.
  { pose proof (history_fits k h (ci_history _ _ _ _ _ _ _ _ _ Hi)) as Hf. rewrite List.Forall_forall in Hf.
    by apply Hf, list_elem_of_In, last_Some_elem_of. }
  rewrite into_wal_valid by done. rewrite Hr. split; [done|]. split; [done|]. rewrite Hp, visible_of_wal; [done|]. by intros q [= <-].
Qed.

Lemma value_lru_get_entry (c : LiveEntry C) k : lv_entry (value_lru_get c k).1 = lv_entry c.
Proof. unfold value_lru_get. destruct (lv_value_lru c); [|done]. by destruct (lru_get _ k). Qed.

(** What a read of the table gives, and what it leaves to the levels. *)
Lemma table_probe s (c : LiveEntry C) f h b es k lp :
  cell_inv s c f h b es -> ld_last_processed s <= lp <= 2 ^ 64 -> lv_state c <> Unloaded ->
  cell_get_at c k lp = Ok (option_map into_wal_position (it_view_at (lv_table c) es k lp)) /\
  (lp = 2 ^ 64 -> cell_get c k = Ok (option_map into_wal_position (it_view_at (lv_table c) es k lp))).
Proof.
  intros Hi Hlp Hst. pose proof (ct_wf _ _ _ _ (ci_table _ _ _ _ _ _ _ _ _ Hi)) as Hw.
  unfold cell_get, cell_get_at. rewrite bool_decide_eq_false_2 by done. split; [by apply it_get_at_ok|].
  intros ->. by rewrite (it_get_ok _ es), it_view_max.
Qed.

Lemma probe_answer s (c : LiveEntry C) f h b es k lp o :
  cell_inv s c f h b es -> ld_last_processed s <= lp -> it_view_at (lv_table c) es k lp = Some o ->
  answer_ok (ld_min_wal_position s) k (newest_at lp k h) (report_lookup_result (wp_valid (into_wal_position o))).
Proof.
  intros Hi Hlp Ho. apply (report_ok _ k (Some o)).
  - intros p [= <-]. apply (it_view_at_fits (lv_table c) es k lp); [apply Hi|done].
  - rewrite <- (ci_reads _ _ _ _ _ _ _ _ _ Hi k lp Hlp), Ho. done.
Qed.

Lemma miss_answer s (c : LiveEntry C) f h b es k lp :
  cell_inv s c f h b es -> In k U -> ld_last_processed s <= lp -> it_view_at (lv_table c) es k lp = None ->
  exists r, walk_disk_levels c k s = Ok (s, Some r) /\ answer_ok (ld_min_wal_position s) k (newest_at lp k h) r.
Proof.
  intros Hi Hk Hlp Hn. apply walk_ok; [apply Hi|done|]. rewrite <- (ci_reads _ _ _ _ _ _ _ _ _ Hi k lp Hlp), Hn. done.
Qed.

(** A live read. *)
Lemma cell_lookup_ok s (c : LiveEntry C) f h b es k :
  cell_inv s c f h b es -> In k U ->
  exists r, cell_lookup c k s = Ok (s, ((value_lru_get c k).1, Some r)) /\ answer_ok (ld_min_wal_position s) k (newest_write k h) r.
Proof.
  intros Hi Hk. pose proof (ci_frontier _ _ _ _ _ _ _ _ _ Hi) as Hfr. pose proof (ci_history _ _ _ _ _ _ _ _ _ Hi) as Hh.
  pose proof (cached_newest s c f h b es k) as Hca. pose proof (value_lru_get_entry c k) as He.
  unfold cell_lookup. destruct (value_lru_get c k) as [c' [[fk v]|]]; cbn [fst snd] in *.
  { exists (GetValue fk v). split; [done|]. destruct (Hca (fk, v) Hi eq_refl) as (p & _ & Hv & Hrec & Hvis).
    by exists (into_wal_position p). }
  rewrite newest_write_at by done. rewrite He. destruct (bloom_filter_not_found (lv_entry c) k) eqn:Eb.
  { exists GetNotFound. split; [done|]. apply (bloom_denies s c f h b es k); [done|done|]. apply newest_at_In. }
  assert (lv_state c' = lv_state c) as Es by (unfold lv_state; by rewrite He).
  assert (walk_disk_levels c' k s = walk_disk_levels c k s) as Ewk.
  { unfold walk_disk_levels, disk_levels_to_walk_for_key, l0_and_shard, disk_levels_to_walk, below_l0_only. by rewrite Es, He. }
  assert (cell_get c' k = cell_get c k) as Eg by (unfold cell_get, lv_table; by rewrite Es, He).
  rewrite Es, Eg. case_bool_decide as Hem.
  { exists GetNotFound. split; [done|]. by rewrite (empty_history s c f h b es Hi Hem). }
  assert (it_view_at (lv_table c) es k (2 ^ 64) = None -> exists r,
            (walk_disk_levels c' k ≫= fun r => mret (c', r)) s = Ok (s, (c', Some r)) /\
            answer_ok (ld_min_wal_position s) k (newest_at (2 ^ 64) k h) r) as Hmiss.
  { intros Hn. destruct (miss_answer s c f h b es k (2 ^ 64) Hi Hk ltac:(lia) Hn) as (r & Hw & Ha). exists r. split; [|done].
    unfold mbind, LM_bind. by rewrite Ewk, Hw. }
  case_bool_decide as Hu.
  - apply Hmiss. by apply (unloaded_view s c f h b es).
  - destruct (table_probe s c f h b es k (2 ^ 64) Hi ltac:(lia) Hu) as [_ Hg]. rewrite (Hg eq_refl).
    destruct (it_view_at (lv_table c) es k (2 ^ 64)) as [o|] eqn:Eo; [|by apply Hmiss].
    eexists. split; [reflexivity|]. apply (probe_answer s c f h b es); [done|lia|done].
Qed.

(** A read as of a frontier. *)
Lemma cell_lookup_at_ok s (c : LiveEntry C) f h b es k lp :
  cell_inv s c f h b es -> In k U -> ld_last_processed s <= lp <= 2 ^ 64 ->
  exists c' r, cell_lookup_at c k lp s = Ok (s, (c', Some r)) /\ answer_ok (ld_min_wal_position s) k (newest_at lp k h) r.
Proof.
  intros Hi Hk Hlp. pose proof (ci_history _ _ _ _ _ _ _ _ _ Hi) as Hh.
  unfold cell_lookup_at. destruct (bloom_filter_not_found (lv_entry c) k) eqn:Eb.
  { exists c, GetNotFound. split; [done|]. apply (bloom_denies s c f h b es k); [done|done|]. apply newest_at_In. }
  case_bool_decide as Hem.
  { exists c, GetNotFound. split; [done|]. by rewrite (empty_history s c f h b es Hi Hem). }
  assert (it_view_at (lv_table c) es k lp = None -> exists c' r,
            (walk_disk_levels c k ≫= fun r => mret (c, r)) s = Ok (s, (c', Some r)) /\
            answer_ok (ld_min_wal_position s) k (newest_at lp k h) r) as Hmiss.
  { intros Hn. destruct (miss_answer s c f h b es k lp Hi Hk ltac:(lia) Hn) as (r & Hw & Ha). exists c, r. split; [|done].
    unfold mbind, LM_bind. by rewrite Hw. }
  case_bool_decide as Hu; [apply Hmiss; apply (unloaded_view s c f h b es); [done|done|lia]|].
  destruct (table_probe s c f h b es k lp Hi Hlp Hu) as [Hg _]. rewrite Hg.
  destruct (it_view_at (lv_table c) es k lp) as [o|] eqn:Eo; [|by apply Hmiss].
  pose proof (probe_answer s c f h b es k lp o Hi ltac:(lia) Eo) as Ha.
  unfold mbind, LM_bind, lift. cbn [option_map]. destruct (wp_valid (into_wal_position o)) as [as_of|] eqn:Ew;
    [|exists c, (report_lookup_result None); by split].
  pose proof (cached_newest s c f h b es k) as Hca.
  destruct (table_probe s c f h b es k (2 ^ 64) Hi ltac:(lia) Hu) as [_ Hm]. rewrite (Hm eq_refl).
  destruct (lv_value_lru c) as [lru|] eqn:El; [|exists c; eexists; split; [reflexivity|exact Ha]].
  case_bool_decide as Hsame; [|exists c; eexists; split; [reflexivity|exact Ha]].
  destruct (value_lru_get c k) as [c' [[fk v]|]]; cbn [fst snd] in *; [|exists c'; eexists; split; [reflexivity|exact Ha]].
  exists c', (GetValue fk v). split; [done|]. destruct (Hca (fk, v) Hi eq_refl) as (p & _ & Hv & Hrec & Hvis).
  exists (into_wal_position p). do 2 (split; [done|]). rewrite Hvis, newest_write_at by done.
  destruct Ha as [_ <-]. rewrite <- (ci_reads _ _ _ _ _ _ _ _ _ Hi k (2 ^ 64)) by lia.
  destruct (it_view_at (lv_table c) es k (2 ^ 64)) as [m|] eqn:Em; [|done]. injection Hsame as <-.
  change (or_else (Some m) _) with (Some m). rewrite visible_of_wal; [done|]. intros q [= <-].
  apply (it_view_at_fits (lv_table c) es k (2 ^ 64)); [apply Hi|done].
Qed.
End facts.
