(* ===== verification/CellWalk.v ===== *)
(** * Iteration over a live cell

    The phases of [LargeTable::next_entry] (src/tidehunter/src/large_table.rs) on
    one cell.  [prepare_walk] runs under the row lock: it promotes pending
    writes, loads the cell when the key space iterates loaded cells only, and
    captures a [WalkPlan], the shared table and the readers of the levels to
    walk.  [execute_walk] merges them without the lock.  [lru_or_wal] asks the
    value cache.

    A reader is the walk over the blob it was opened on ([ld_walk]), so a plan
    does not change when the cell or the store does: the answer of a pass is the
    answer for the moment the plan was made. *)

From Stdlib Require Import ZArith Lia List Sorting.Sorted.
From stdpp Require Import base tactics list gmap strings.
From S2P Require Import Prelude BTree Bytes Position Flat FlatFacts IndexTable IndexOps IndexTableFacts IndexWalk.
From S2P Require Import IndexPromote IndexFlush IndexUnmerge IndexCodec IndexClean Levels IterCache Loader Flusher FlusherFacts.
From S2P Require Import FlusherShards FlushCommand IndexFormat TableEntry Pending CellOps CellSystem CellInvariant CellSteps CellReads.

Local Open Scope Z_scope.

(** ** Definitions *)

Notation IterCaches := (list (option IndexIterCache)).

Record WalkPlan := mkWalkPlan {
  wk_data : IndexTable;
  wk_level_positions : list WalPosition;
  wk_readers : list BlobWalk;
  wk_is_sharded : bool;
}.

Inductive WalkOutcome :=
| WalkFound (key : list Z) (position : WalPosition)
| WalkExhausted
| WalkSkipDeleted (key : list Z).

(** The candidates of the levels, each with the cache slot of its level. *)
Fixpoint level_candidates (level_idx : nat) (readers : list BlobWalk) (prev_key : option (list Z)) (direction : Direction)
    (caches : IterCaches) : outcome (IterCaches * list (option (list Z * WalPosition))) :=
  match readers with
  | [] => Ok (caches, [])
  | reader :: readers =>
      let '(caches, cache_slot) := caches_slot caches level_idx in
      '(on_disk_next, cache_slot) ← reader prev_key direction cache_slot;
      '(caches, candidates) ← level_candidates (S level_idx) readers prev_key direction (caches_store caches level_idx cache_slot);
      Ok (caches, on_disk_next :: candidates)
  end.

(** The loop ends with an entry, at the end of the cell, or, in a sharded cell,
    at the first tombstone. *)
Fixpoint execute_walk (fuel : nat) (plan : WalkPlan) (prev_key : option (list Z)) (reverse : bool) (caches : IterCaches)
    (last_processed : option LastProcessed) : outcome (IterCaches * WalkOutcome) :=
  match fuel with
  | O => Panic "out of fuel"
  | S fuel =>
      let direction := direction_from_bool reverse in
      in_memory_next ←
        (match last_processed with
         | Some lp => next_entry_at (wk_data plan) prev_key reverse lp
         | None => next_entry (wk_data plan) prev_key reverse
         end);
      '(caches, candidates) ← level_candidates 0 (wk_readers plan) prev_key direction caches;
      match merge_levels_next_entry (in_memory_next :: candidates) direction with
      | NotFound => Ok (caches, WalkExhausted)
      | Found key val => Ok (caches, WalkFound key val)
      | SkipDeleted skip_key =>
          if wk_is_sharded plan then Ok (caches, WalkSkipDeleted skip_key)
          else execute_walk fuel plan (Some skip_key) reverse caches last_processed
      end
  end.

Section walk.
Context {C : Type} `{ValueCache C} {S : Type} `{Loader S}.
Notation Live := (LiveEntry C).

(** [prepare_walk] past the promotion of pending writes and the load: the entry,
    the caches, and the plan; [None] when a reader cannot be opened. *)
Definition capture_walk (c : Live) (prev_key : option (list Z)) (reverse : bool) (caches : IterCaches) :
    LM S (Live * IterCaches * option (option WalkPlan)) :=
  if bool_decide (lv_state c = Empty) then mret (c, caches_clear, Some None)
  else
    let level_positions := disk_levels_to_walk_for_iter c prev_key reverse in
    if (match level_positions with [] => true | _ => false end) && bool_decide (lv_state c = Unloaded) then
      mret (c, caches_clear, Some None)
    else
      readers ← asks (fun s => mapM (ld_walk s) level_positions);
      match readers with
      | None => mret (c, caches, None)
      | Some readers =>
          let '(c, data) := clone_shared c in
          let is_sharded := levels_is_sharded (le_levels (lv_entry c)) in
          mret (c, caches, Some (Some (mkWalkPlan (sh_table data) level_positions readers is_sharded)))
      end.

Definition prepare_walk (unloaded_iterator_enabled : bool) (st : status_store) (c : Live) (prev_key : option (list Z))
    (reverse : bool) (caches : IterCaches) : LM S (Live * IterCaches * option (option WalkPlan)) :=
  frontier ← asks ld_last_processed;
  c ← lift (promote_pending frontier st c);
  '(c, loaded) ← (if negb unloaded_iterator_enabled then maybe_load c else mret (c, true));
  if negb loaded then mret (c, caches, None) else capture_walk c prev_key reverse caches.

Definition lru_or_wal (c : Live) (key : list Z) (pos : WalPosition) : Live * GetResult :=
  let '(c, hit) := value_lru_get c key in
  (c, match hit with Some (full_key, value) => GetValue full_key value | None => GetWalPosition pos end).
End walk.

(** ** What a walk finds *)

(** Nothing, or a removal. *)
Definition dead (o : option IndexWalPosition) : bool := match o with Some p => is_removed p | None => true end.

(** The outcome of a walk over a view: the nearest live entry past the cursor;
    nothing is live past it; or a removed key that no live key precedes. *)
Definition walks_to (view : list Z -> option IndexWalPosition) (prev : option (list Z)) (d : Direction) (r : WalkOutcome) : Prop :=
  match r with
  | WalkFound k w =>
      past prev d k /\ (exists p, view k = Some p /\ is_removed p = false /\ w = into_wal_position p) /\
      forall k', past prev d k' -> dead (view k') = false -> not_after d k k'
  | WalkExhausted => forall k', past prev d k' -> dead (view k') = true
  | WalkSkipDeleted k =>
      past prev d k /\ dead (view k) = true /\ forall k', past prev d k' -> dead (view k') = false -> past (Some k) d k'
  end.

Definition pastb (prev : option (list Z)) (d : Direction) (k : list Z) : bool :=
  match prev, d with None, _ => true | Some p, Forward => kltb p k | Some p, Backward => kltb k p end.

Lemma pastb_iff prev d k : pastb prev d k = true <-> past prev d k.
Proof. destruct prev as [p|], d; cbn; [destruct (kltb_spec p k)|destruct (kltb_spec k p)| |]; naive_solver. Qed.

Lemma past_trans prev d k k' : past prev d k -> past (Some k) d k' -> past prev d k'.
Proof. destruct prev as [p|], d; cbn; try done; intros; by eapply klt_trans. Qed.

Lemma not_past_self d k : ~ past (Some k) d k.
Proof. destruct d; cbn; apply klt_irrefl. Qed.

Lemma not_after_past d k k' : not_after d k k' -> k <> k' -> past (Some k) d k'.
Proof. destruct d; cbn; intros [?|?]%kle_iff Hne; try done; by subst. Qed.

Lemma past_not_after d k k' : past (Some k) d k' -> not_after d k k'.
Proof. destruct d; cbn; intros ?; apply kle_iff; by left. Qed.

(** The step after a tombstone, as a step from before it. *)
Lemma walks_to_skip view prev d k r :
  walks_to view prev d (WalkSkipDeleted k) -> walks_to view (Some k) d r -> walks_to view prev d r.
Proof.
  intros (Hp & Hd & Hm) Hr. destruct r as [k1 w| |k1]; unfold walks_to in *.
  - destruct Hr as (Hp1 & Hv & Hm1). split_and!; [by eapply past_trans|done|]. intros k' Hk' Hl. apply Hm1; [by apply Hm|done].
  - intros k' Hk'. destruct (dead (view k')) eqn:E; [done|]. rewrite <- E. apply Hr. by apply Hm.
  - destruct Hr as (Hp1 & Hv & Hm1). split_and!; [by eapply past_trans|done|]. intros k' Hk' Hl. apply Hm1; [by apply Hm|done].
Qed.

Lemma filter_length_imp {A} (f g : A -> bool) l :
  (forall x, f x = true -> g x = true) -> (length (List.filter f l) <= length (List.filter g l))%nat.
Proof.
  intros Hi. induction l as [|x l IH]; [done|]. cbn. specialize (Hi x). destruct (f x); [rewrite Hi by done; cbn; lia|].
  destruct (g x); cbn; lia.
Qed.

(** The number of keys left decreases. *)
Lemma walk_measure (U : list (list Z)) prev d k :
  In k U -> past prev d k ->
  (length (List.filter (pastb (Some k) d) U) < length (List.filter (pastb prev d) U))%nat.
Proof.
  intros (a & b & ->)%in_split Hp. rewrite !List.filter_app, !length_app. cbn [List.filter].
  assert (forall x, pastb (Some k) d x = true -> pastb prev d x = true) as Hi.
  { intros x. rewrite !pastb_iff. intros Hx. by eapply past_trans. }
  assert (pastb (Some k) d k = false) as -> by (apply not_true_is_false; rewrite pastb_iff; apply not_past_self).
  assert (pastb prev d k = true) as -> by (by apply pastb_iff). cbn [length].
  pose proof (filter_length_imp _ _ a Hi). pose proof (filter_length_imp _ _ b Hi). lia.
Qed.

Section facts.
Context {C : Type} `{ValueCache C} `{!ValueCacheSpec C} {S : Type} `{Loader S} (ks : option nat) (U : list (list Z)).
Context (record_at : list Z -> WalPosition -> list Z * list Z).
Notation cell_inv := (cell_inv ks U record_at).

(** ** The caches *)

Definition wal_entries (s : S) (p : WalPosition) : list (list Z * WalPosition) := List.map as_wal (blob_entries s p).

(** A slot from which every blob of the store is walked right. *)
Definition slot_warm (s : S) (c : option IndexIterCache) : Prop :=
  forall p, blob_ok ks U s p -> exists w, ld_walk s p = Some w /\ cache_warm U p (wal_entries s p) w c.

Lemma slot_warm_none s : slot_warm s None.
Proof. intros p [_ _ (w & Hw & Hc)]. exists w. split; [done|]. by apply Hc. Qed.

Lemma slot_warm_step s p prev d c :
  blob_ok ks U s p -> (forall k, prev = Some k -> In k U) -> slot_warm s c ->
  exists w c', ld_walk s p = Some w /\ w prev d c = Ok (nearest (wal_entries s p) prev d, c') /\ slot_warm s c'.
Proof.
  intros Hb Hk Hc. destruct (Hc p Hb) as (w & Hw & warm & Hcl & Hwarm).
  destruct (Hcl prev d c Hk Hwarm) as (c' & Hn & Hwarm' & Hat). exists w, c'. split_and!; [done|done|].
  intros q Hq. destruct (decide (q = p)) as [->|Hne].
  - exists w. split; [done|]. by exists warm.
  - destruct Hq as [_ _ (wq & Hwq & Hcold)]. exists wq. split; [done|]. apply Hcold. intros x Hx E. apply Hne. rewrite <- E. by apply Hat.
Qed.

Definition caches_warm (s : S) (caches : IterCaches) : Prop := Forall (slot_warm s) caches.

Lemma walk_readers s ps : Forall (blob_ok ks U s) ps -> exists readers, mapM (ld_walk s) ps = Some readers.
Proof.
  induction 1 as [|p ps [_ _ (w & Hw & _)] _ [readers IH]]; [by eexists|]. cbn. rewrite Hw, IH. by eexists.
Qed.

Lemma level_candidates_ok s ps readers i prev d caches :
  Forall (blob_ok ks U s) ps -> mapM (ld_walk s) ps = Some readers -> (forall k, prev = Some k -> In k U) -> caches_warm s caches ->
  exists caches', level_candidates i readers prev d caches = Ok (caches', List.map (fun p => nearest (wal_entries s p) prev d) ps) /\
    caches_warm s caches'.
Proof.
  intros Hb. revert readers i caches. induction Hb as [|p ps Hp Hb IH]; intros readers i caches Hr Hk Hc.
  { injection Hr as <-. by exists caches. }
  cbn in Hr. destruct (ld_walk s p) as [w|] eqn:Ew; [|done]. destruct (mapM (ld_walk s) ps) as [ws|]; [|done]. injection Hr as <-.
  cbn [level_candidates]. pose proof (slot_warm_none s) as Hn. pose proof (caches_slot_forall _ caches i Hn Hc) as Hslot.
  destruct (slot_warm_step s p prev d (caches_slot caches i).2 Hp Hk Hslot) as (w' & c' & Hw' & Hstep & Hc').
  assert (w' = w) as -> by congruence. destruct (caches_slot caches i) as [slots c] eqn:Es. cbn [snd] in *. rewrite Hstep.
  cbn [mbind outcome_bind]. assert (caches_warm s slots) as Hslots.
  { replace slots with (caches_slot caches i).1 by (by rewrite Es). unfold caches_slot. cbn [fst]. destruct (_ <=? _)%nat; [|done].
    apply Forall_app. split; [done|]. by apply Forall_replicate. }
  destruct (IH ws (Datatypes.S i) (caches_store slots i c') eq_refl Hk) as (caches' & -> & Hc''); [by apply caches_store_forall|].
  by exists caches'.
Qed.

(** ** One turn *)

Section plan.
Context (s : S) (t : IndexTable) (es : list entry) (ps : list WalPosition) (readers : list BlobWalk) (lp : option LastProcessed).
Context (Ht : cell_table ks U t es) (Hb : Forall (blob_ok ks U s) ps) (Hr : mapM (ld_walk s) ps = Some readers).

Definition walk_frontier : Z := match lp with Some lp => lp | None => 2 ^ 64 end.

(** What the plan holds of a key: the table as of the frontier, then the levels. *)
Definition plan_view (k : list Z) : option IndexWalPosition := or_else (it_view_at t es k walk_frontier) (first_hit s ps k).

Definition plan_lists : list (list (list Z * WalPosition)) :=
  List.map as_wal (match lp with Some lp => combined_at t es lp | None => combined t es end) :: List.map (wal_entries s) ps.

Lemma as_wal_sorted (l : list entry) : bt_sorted l -> bt_sorted (List.map as_wal l).
Proof. intros Hs. by apply (bt_sorted_map (fun e => into_wal_position e.2)). Qed.

Lemma bt_get_as_wal k (l : list entry) : bt_get k (List.map as_wal l) = option_map into_wal_position (bt_get k l).
Proof. apply (bt_get_map into_wal_position). Qed.

Lemma plan_lists_sorted : Forall bt_sorted plan_lists.
Proof.
  pose proof (ct_wf _ _ _ _ Ht) as Hw. constructor.
  - apply as_wal_sorted. destruct lp; [by apply combined_at_sorted|by apply combined_sorted].
  - apply Forall_map. eapply Forall_impl; [exact Hb|]. cbv beta. intros p Hp. apply as_wal_sorted. by apply (blob_entries_sorted ks U).
Qed.

Lemma fold_first_hit k acc :
  fold_left (fun found m => match found with Some v => Some v | None => bt_get k m end) (List.map (wal_entries s) ps) acc =
  or_else acc (option_map into_wal_position (first_hit s ps k)).
Proof.
  clear. revert acc. induction ps as [|p l IH]; intros acc; cbn [List.map fold_left first_hit]; [by destruct acc|].
  rewrite IH. unfold wal_entries. destruct acc; [done|]. rewrite bt_get_as_wal. fold (blob_view s p k). by destruct (blob_view s p k).
Qed.

Lemma plan_lists_get k : bt_get k (merge_all plan_lists) = option_map into_wal_position (plan_view k).
Proof.
  destruct (merge_levels_step plan_lists None Forward plan_lists_sorted) as (_ & Hg & _). rewrite Hg. clear Hg.
  unfold plan_lists. cbn [fold_left]. rewrite fold_first_hit, bt_get_as_wal. pose proof (ct_wf _ _ _ _ Ht) as Hw.
  unfold plan_view, walk_frontier. destruct lp as [x|].
  - rewrite bt_get_combined_at by done. by destruct (it_view_at t es k x).
  - rewrite bt_get_combined, it_view_max by done. by destruct (it_view_at t es k (2 ^ 64)).
Qed.

Lemma plan_view_fits k p : plan_view k = Some p -> iwp_fits p.
Proof.
  unfold plan_view. destruct (it_view_at t es k walk_frontier) as [q|] eqn:E; cbn.
  - intros [= <-]. by apply (it_view_at_fits t es k walk_frontier); [apply Ht|].
  - by apply (first_hit_fits ks U).
Qed.

Lemma plan_turn reverse prev caches :
  (forall k, prev = Some k -> In k U) -> caches_warm s caches ->
  exists m candidates caches' found,
    (match lp with Some lp => next_entry_at t prev reverse lp | None => next_entry t prev reverse end) = Ok m /\
    level_candidates 0 readers prev (direction_from_bool reverse) caches = Ok (caches', candidates) /\ caches_warm s caches' /\
    finds_nearest plan_view prev (direction_from_bool reverse) found /\
    merge_levels_next_entry (m :: candidates) (direction_from_bool reverse) =
      match found with None => NotFound | Some (k, w) => if wp_is_valid w then Found k w else SkipDeleted k end.
Proof.
  intros Hk Hc. set (d := direction_from_bool reverse). pose proof (ct_wf _ _ _ _ Ht) as Hw.
  destruct (level_candidates_ok s ps readers 0 prev d caches Hb Hr Hk Hc) as (caches' & Hl & Hc').
  destruct (merge_levels_step plan_lists prev d plan_lists_sorted) as (Hs & _ & Hm).
  exists (nearest (List.map as_wal (match lp with Some lp => combined_at t es lp | None => combined t es end)) prev d),
    (List.map (fun p => nearest (wal_entries s p) prev d) ps), caches', (nearest (merge_all plan_lists) prev d).
  split_and!; [|done|done| |].
  - rewrite (nearest_map (fun e : entry => into_wal_position e.2)). destruct lp as [x|].
    + by rewrite (next_entry_at_ok t es).
    + by rewrite (next_entry_ok t es).
  - pose proof (nearest_spec (merge_all plan_lists) prev d Hs) as Hn. unfold finds_nearest.
    destruct (nearest (merge_all plan_lists) prev d) as [[k w]|].
    + destruct Hn as (Hg & Hp & Hmin). rewrite plan_lists_get in Hg. destruct (plan_view k) as [p|] eqn:E; [|done]. injection Hg as <-.
      split_and!; [by exists p|done|]. intros k' Hk'. apply Hmin. rewrite plan_lists_get. by destruct (plan_view k').
    + intros k' Hk'. apply Hn. rewrite plan_lists_get. by destruct (plan_view k').
  - rewrite <- Hm. unfold plan_lists. cbn [List.map]. by rewrite map_map.
Qed.

(** ** The loop *)

Context (view : list Z -> option IndexWalPosition).
Context (Hvf : forall k p, view k = Some p -> iwp_fits p) (Hvu : forall k, is_Some (view k) -> In k U).

(** What a turn finds, as a step of the walk. *)
Lemma turn_outcome prev d found :
  finds_nearest view prev d found ->
  match match found with None => NotFound | Some (k, w) => if wp_is_valid w then Found k w else SkipDeleted k end with
  | NotFound => walks_to view prev d WalkExhausted
  | Found k w => walks_to view prev d (WalkFound k w) /\ In k U
  | SkipDeleted k => walks_to view prev d (WalkSkipDeleted k) /\ In k U
  end.
Proof.
  destruct found as [[k w]|]; cbn [finds_nearest].
  - intros ((p & Hv & ->) & Hp & Hm). assert (forall k', past prev d k' -> dead (view k') = false -> not_after d k k') as Hmin.
    { intros k' Hk' Hl. apply Hm; [|done]. by destruct (view k'). }
    rewrite into_wal_valid by (by eapply Hvf). destruct (is_removed p) eqn:Er; cbn [negb].
    + split; [|apply Hvu; by rewrite Hv]. split_and!; [done|by rewrite Hv|]. intros k' Hk' Hl. apply not_after_past; [auto|].
      intros <-. rewrite Hv in Hl. cbn in Hl. congruence.
    + split; [|apply Hvu; by rewrite Hv]. split_and!; [done|by exists p|done].
  - intros Hn k' Hp. destruct (view k') eqn:E; [|done]. destruct (Hn k'); [by rewrite E|done].
Qed.

Definition skips (r : WalkOutcome) : bool := match r with WalkSkipDeleted _ => true | _ => false end.

Definition walk_key (r : WalkOutcome) : option (list Z) :=
  match r with WalkFound k _ => Some k | WalkSkipDeleted k => Some k | WalkExhausted => None end.

Lemma execute_walk_ok fuel prev reverse caches sharded :
  let d := direction_from_bool reverse in
  (forall found, finds_nearest plan_view prev d found -> finds_nearest view prev d found) ->
  (sharded = false -> forall prev' found, finds_nearest plan_view prev' d found -> finds_nearest view prev' d found) ->
  (forall k, prev = Some k -> In k U) -> caches_warm s caches -> (length (List.filter (pastb prev d) U) < fuel)%nat ->
  exists caches' r, execute_walk fuel (mkWalkPlan t ps readers sharded) prev reverse caches lp = Ok (caches', r) /\
    caches_warm s caches' /\ walks_to view prev d r /\ (sharded = false -> skips r = false) /\
    forall k, walk_key r = Some k -> In k U.
Proof.
  intros d. revert prev caches. induction fuel as [|fuel IH]; intros prev caches Hcov Hcovs Hk Hc Hfuel; [lia|].
  destruct (plan_turn reverse prev caches Hk Hc) as (m & candidates & caches' & found & Hm & Hl & Hc' & Hn & Hmerge).
  pose proof (turn_outcome prev d found (Hcov found Hn)) as Ho. cbn [execute_walk wk_data wk_readers wk_is_sharded]. cbv zeta.
  rewrite Hm. cbn [mbind outcome_bind]. rewrite Hl. cbn [mbind outcome_bind]. rewrite Hmerge.
  destruct (match found with None => _ | Some _ => _ end) as [|k w|k]; [by eexists _, _| |]; destruct Ho as [Ho Hin].
  { eexists _, _. split_and!; [done..|]. by intros ? [= <-]. }
  destruct sharded; [eexists _, _; split_and!; [done..|]; by intros ? [= <-]|].
  destruct (IH (Some k) caches') as (caches'' & r & Hx & Hc'' & Hw & Hs & Hkey).
  - auto.
  - auto.
  - by intros ? [= <-].
  - done.
  - pose proof (walk_measure U prev d k Hin (proj1 Ho)). lia.
  - exists caches'', r. split_and!; [done|done| |done|done]. by eapply walks_to_skip.
Qed.
End plan.

(** ** The levels of a cell *)

(** What a live cell holds of a key as of a frontier. *)
Definition cell_view (s : S) (c : LiveEntry C) (es : list entry) (lp : Z) (k : list Z) : option IndexWalPosition :=
  or_else (it_view_at (lv_table c) es k lp) (cell_disk s (lv_state c) (le_levels (lv_entry c)) k).

(** A view that agrees with another wherever it has a key, and has a key before
    each of the other's. *)
Lemma finds_nearest_cover (v w : list Z -> option IndexWalPosition) prev d found :
  (forall k, is_Some (v k) -> v k = w k) ->
  (forall k, is_Some (w k) -> past prev d k -> exists k', is_Some (v k') /\ past prev d k' /\ not_after d k' k) ->
  finds_nearest v prev d found -> finds_nearest w prev d found.
Proof.
  intros Ha Hc. unfold finds_nearest. destruct found as [[k x]|].
  - intros ((p & Hv & ->) & Hp & Hm). split_and!; [exists p; by rewrite <- Ha, Hv by (by rewrite Hv)|done|].
    intros k' Hk' Hp'. destruct (Hc k' Hk' Hp') as (k1 & Hk1 & Hp1 & Hle). specialize (Hm k1 Hk1 Hp1).
    destruct d; cbn in *; by eapply kle_trans.
  - intros Hn k' Hk' Hp'. destruct (Hc k' Hk' Hp') as (k1 & Hk1 & Hp1 & _). by apply (Hn k1).
Qed.

Lemma not_after_refl d k : not_after d k k.
Proof. destruct d; cbn; apply kle_iff; by right. Qed.

(** The shard picked for a step holds the nearest key of all the shards. *)
Definition shard_holds (s : S) (e : list Z * IndexShard) (k : list Z) : Prop := is_Some (blob_view s (shard_position e.2) k).

Lemma shard_pick s l prev reverse :
  levels_ok ks U s l ->
  picks_nearest l (shard_holds s) prev (direction_from_bool reverse)
    (if reverse then shard_for_iter_reverse l prev else shard_for_iter_forward l prev).
Proof.
  intros Hl. pose proof (lo_hold _ _ _ _ Hl) as Hh. unfold shards_hold in Hh. rewrite List.Forall_forall in Hh.
  assert (forall e, In e (lv_shards l) -> shard_holds s e e.1 /\ shard_holds s e (shard_max_key e.2)) as Hends.
  { intros e He. destruct (Hh e He) as (? & ? & _). done. }
  assert (forall e k, In e (lv_shards l) -> shard_holds s e k -> in_shard k e) as Hran.
  { intros e k He. destruct (Hh e He) as (_ & _ & Hx). apply Hx. }
  destruct reverse; [apply shard_for_iter_reverse_ok|apply shard_for_iter_forward_ok]; try done; apply Hl.
Qed.

(** The blobs of the plan are among the cell's. *)
Lemma iter_blobs s (c : LiveEntry C) prev reverse :
  levels_ok ks U s (le_levels (lv_entry c)) -> Forall (blob_ok ks U s) (disk_levels_to_walk_for_iter c prev reverse).
Proof.
  intros Hl. unfold disk_levels_to_walk_for_iter. set (l := le_levels (lv_entry c)) in *.
  destruct (levels_is_sharded l) eqn:Es; cbn [negb].
  - unfold l0_and_shard. fold l. apply Forall_app. split.
    + destruct (below_l0_only c); [constructor|]. destruct (levels_l0 l) as [p|] eqn:E; cbn; [|constructor].
      constructor; [|constructor]. by apply (levels_get_ok ks U s l 0).
    + pose proof (shards_of_levels_ok ks U s l Hl) as Hsb. rewrite List.Forall_forall in Hsb.
      pose proof (shard_pick s l prev reverse Hl) as Hp. destruct (if reverse then _ else _) as [sh|]; cbn; [|constructor].
      destruct Hp as (e & He & <- & _). constructor; [by apply Hsb|constructor].
  - pose proof (walk_blobs ks U s c [] Hl) as Hw. unfold disk_levels_to_walk_for_key in Hw. fold l in Hw. rewrite Es in Hw. exact Hw.
Qed.

Lemma iter_view_unsharded s (c : LiveEntry C) prev reverse k :
  levels_ok ks U s (le_levels (lv_entry c)) -> levels_is_sharded (le_levels (lv_entry c)) = false ->
  first_hit s (disk_levels_to_walk_for_iter c prev reverse) k = cell_disk s (lv_state c) (le_levels (lv_entry c)) k.
Proof.
  intros Hl Es. rewrite <- (walk_view ks U) by done. unfold disk_levels_to_walk_for_iter, disk_levels_to_walk_for_key. by rewrite Es.
Qed.

(** A shard that holds a key is the shard of the key. *)
Lemma shard_holds_for s l e k :
  levels_ok ks U s l -> In e (lv_shards l) -> shard_holds s e k -> shard_for l k = Some e.2.
Proof.
  intros Hl He Hk. unfold shard_for. assert (shard_entry_for l k = Some e) as ->; [|done].
  apply (shard_entry_for_spec l k e (lo_shards _ _ _ _ Hl)). split; [done|]. pose proof (lo_hold _ _ _ _ Hl) as Hh.
  unfold shards_hold in Hh. rewrite List.Forall_forall in Hh. destruct (Hh e He) as (_ & _ & Hx). by apply Hx.
Qed.

(** A step over the levels picked is a step over the whole cell. *)
Lemma iter_cover s (c : LiveEntry C) es lp prev reverse found :
  levels_ok ks U s (le_levels (lv_entry c)) ->
  finds_nearest (plan_view s (lv_table c) es (disk_levels_to_walk_for_iter c prev reverse) lp) prev (direction_from_bool reverse) found ->
  finds_nearest (cell_view s c es (walk_frontier lp)) prev (direction_from_bool reverse) found.
Proof.
  intros Hl. set (l := le_levels (lv_entry c)) in *. destruct (levels_is_sharded l) eqn:Es.
  2:{ apply finds_nearest_cover; unfold plan_view, cell_view.
      - intros k _. by rewrite iter_view_unsharded.
      - intros k Hk Hp. exists k. rewrite iter_view_unsharded by done. split_and!; [done|done|apply not_after_refl]. }
  pose proof (shard_pick s l prev reverse Hl) as Hpick. unfold disk_levels_to_walk_for_iter. fold l. rewrite Es. cbn [negb].
  set (o := if reverse then _ else _) in *. unfold l0_and_shard. fold l. set (l0 := if below_l0_only c then [] else _).
  assert (forall k, cell_disk s (lv_state c) l k = or_else (first_hit s l0 k) (opt_view s (option_map shard_position (shard_for l k)) k)) as Hd.
  { intros k. unfold l. rewrite <- (walk_view ks U) by done. unfold disk_levels_to_walk_for_key. fold l. rewrite Es. cbn [negb].
    unfold l0_and_shard. fold l. fold l0. by rewrite first_hit_app, first_hit_opt. }
  apply finds_nearest_cover; unfold plan_view, cell_view; fold l.
  - intros k. rewrite first_hit_app, first_hit_opt, Hd. destruct (it_view_at _ _ _ _); [done|]. cbn.
    destruct (first_hit s l0 k); [done|]. cbn. destruct o as [sh|]; [|by intros [? ?]]. cbn. intros Hk.
    destruct Hpick as (e & He & <- & _). by rewrite (shard_holds_for s l e k Hl He Hk).
  - intros k Hk Hp. rewrite Hd in Hk. destruct (it_view_at (lv_table c) es k _) eqn:Et.
    { exists k. rewrite Et. split_and!; [by eexists|done|apply not_after_refl]. }
    destruct (first_hit s l0 k) eqn:E0.
    { exists k. rewrite Et, first_hit_app, E0. split_and!; [by eexists|done|apply not_after_refl]. }
    cbn in Hk. destruct (shard_for l k) as [sh|] eqn:Esh; [|by destruct Hk]. cbn in Hk.
    assert (exists e, In e (lv_shards l) /\ e.2 = sh) as (e & He & <-).
    { unfold shard_for in Esh. destruct (shard_entry_for l k) as [e|] eqn:Ee; [|done]. injection Esh as <-.
      apply (shard_entry_for_spec l k e (lo_shards _ _ _ _ Hl)) in Ee as [Hin _]. by exists e. }
    destruct o as [sh|]; [|by destruct (Hpick e k He Hk)]. destruct Hpick as (e' & He' & <- & _ & Hnear).
    destruct (Hnear e k He Hk Hp) as (k' & Hk' & Hp' & Hle). exists k'. split_and!; [|done|done].
    rewrite first_hit_app. destruct (it_view_at (lv_table c) es k' _); [by eexists|]. cbn. destruct (first_hit s l0 k'); [by eexists|].
    cbn. unfold shard_holds in Hk'. by rewrite or_else_None_r.
Qed.

(** ** A pass over the cell *)

Lemma cell_disk_within s st l k : levels_ok ks U s l -> is_Some (cell_disk s st l k) -> In k U.
Proof.
  intros Hl. assert (forall o, (forall p, o = Some p -> blob_ok ks U s p) -> is_Some (opt_view s o k) -> In k U) as Ho.
  { intros [p|] Hb; [|by intros [? ?]]. cbn. apply (blob_view_within ks U). by apply Hb. }
  assert (is_Some (below_view s l k) -> In k U) as Hbl by (apply Ho; intros p; by apply (below_l0_blob ks U)).
  assert (is_Some (levels_view s l k) -> In k U) as Hlv.
  { unfold levels_view. fold (below_view s l k). destruct (opt_view s (levels_l0 l) k) eqn:E; [|exact Hbl]. intros _.
    apply (Ho (levels_l0 l)); [|by rewrite E]. intros p Hp. by apply (levels_get_ok ks U s l 0). }
  by destruct st; cbn.
Qed.

Lemma cell_view_facts s (c : LiveEntry C) f h b es lp k :
  cell_inv s c f h b es ->
  (forall p, cell_view s c es lp k = Some p -> iwp_fits p) /\ (is_Some (cell_view s c es lp k) -> In k U).
Proof.
  intros Hi. pose proof (ci_levels _ _ _ _ _ _ _ _ _ Hi) as Hl. pose proof (ci_table _ _ _ _ _ _ _ _ _ Hi) as Ht.
  unfold cell_view. split.
  - intros p. destruct (it_view_at _ _ _ _) as [q|] eqn:E; cbn.
    + intros [= <-]. apply (it_view_at_fits (lv_table c) es k lp); [apply Ht|done].
    + rewrite <- (walk_view ks U) by done. apply (first_hit_fits ks U). by apply walk_blobs.
  - destruct (it_view_at _ _ _ _) as [q|] eqn:E; cbn.
    + intros _. apply (ct_keys _ _ _ _ Ht). rewrite view_at_parts in E. unfold it_view.
      destruct (last (processed_of lp _)) as [x|] eqn:El; cbn in E.
      * apply last_Some_elem_of, list_elem_of_In, processed_In in El as [El _].
        destruct (last (positions_of (it_data (lv_table c)) k)) eqn:E'; [by eexists|]. apply last_None in E'. by rewrite E' in El.
      * destruct (last (positions_of (it_data (lv_table c)) k)); [by eexists|]. rewrite E. by eexists.
    + by apply cell_disk_within.
Qed.

Definition frontier_asked (s : S) (lp : option LastProcessed) : Prop :=
  match lp with Some lp => ld_last_processed s <= lp <= 2 ^ 64 | None => True end.

(** The outcome of a walk, for the writes [newest] and the WAL floor [x]: the
    nearest key past the cursor whose newest write is visible, with its
    position, possibly after a key whose record the floor has passed; nothing is
    visible past the cursor; or a key that is not visible, before every visible
    one. *)
Definition walk_answers (x : Z) (newest : list Z -> option IndexWalPosition) (prev : option (list Z)) (d : Direction)
    (r : WalkOutcome) : Prop :=
  match r with
  | WalkFound k w =>
      past prev d k /\ wp_is_valid w = true /\ visible_wal x (Some w) = visible x (newest k) /\
      forall k', past prev d k' -> is_Some (visible x (newest k')) -> not_after d k k'
  | WalkExhausted => forall k', past prev d k' -> visible x (newest k') = None
  | WalkSkipDeleted k =>
      past prev d k /\ visible x (newest k) = None /\
      forall k', past prev d k' -> is_Some (visible x (newest k')) -> past (Some k) d k'
  end.

Lemma dead_visible x o : dead o = true -> visible x o = None.
Proof. destruct o as [p|]; [|done]. cbn. by intros ->. Qed.

Lemma walks_answer x view newest prev d r :
  (forall k p, view k = Some p -> iwp_fits p) -> (forall k, visible x (view k) = visible x (newest k)) ->
  walks_to view prev d r -> walk_answers x newest prev d r.
Proof.
  intros Hf Hv. assert (forall k, is_Some (visible x (newest k)) -> dead (view k) = false) as Hl.
  { intros k. rewrite <- Hv. destruct (dead (view k)) eqn:E; [|done]. rewrite dead_visible by done. by intros [? ?]. }
  destruct r as [k w| |k]; unfold walks_to, walk_answers.
  - intros (Hp & (p & Hk & Hr & ->) & Hm). pose proof (Hf k p Hk) as Hfit. split_and!; [done| | |auto].
    + rewrite into_wal_valid by done. by rewrite Hr.
    + rewrite <- Hv, Hk. symmetry. apply (visible_of_wal x (Some p)). by intros q [= <-].
  - intros Hn k' Hp. rewrite <- Hv. by apply dead_visible, Hn.
  - intros (Hp & Hd & Hm). split_and!; [done| |auto]. rewrite <- Hv. by apply dead_visible.
Qed.

Lemma capture_walk_ok s (c : LiveEntry C) f h b es prev reverse caches lp :
  cell_inv s c f h b es -> (forall k, prev = Some k -> In k U) -> caches_warm s caches -> frontier_asked s lp ->
  let d := direction_from_bool reverse in
  let answers := walk_answers (ld_min_wal_position s) (fun k => newest_at (walk_frontier lp) k h) prev d in
  exists c' caches' plan, capture_walk c prev reverse caches s = Ok (s, (c', caches', Some plan)) /\ caches_warm s caches' /\
    (c' = c \/ c' = (clone_shared c).1) /\
    match plan with
    | None => answers WalkExhausted
    | Some plan => forall fuel, (length U < fuel)%nat -> exists caches'' r,
        execute_walk fuel plan prev reverse caches' lp = Ok (caches'', r) /\ caches_warm s caches'' /\ answers r /\
        (levels_is_sharded (le_levels (lv_entry c)) = false -> skips r = false) /\ forall k, walk_key r = Some k -> In k U
    end.
Proof.
  intros Hi Hk Hc Hlp d answers. pose proof (ci_levels _ _ _ _ _ _ _ _ _ Hi) as Hl. pose proof (ci_table _ _ _ _ _ _ _ _ _ Hi) as Ht.
  pose proof (ci_frontier _ _ _ _ _ _ _ _ _ Hi) as Hfr0.
  assert (ld_last_processed s <= walk_frontier lp <= 2 ^ 64) as Hfr by (unfold walk_frontier; destruct lp; cbn in Hlp; lia).
  pose proof (fun k => ci_reads _ _ _ _ _ _ _ _ _ Hi k (walk_frontier lp) (proj1 Hfr)) as Hr.
  unfold capture_walk. case_bool_decide as Hem.
  { exists c, caches_clear, None. split; [done|]. split; [constructor|]. split; [by left|]. intros k _.
    by rewrite (empty_history ks U record_at s c f h b es Hi Hem). }
  pose proof (iter_blobs s c prev reverse Hl) as Hb.
  destruct (match disk_levels_to_walk_for_iter c prev reverse with [] => true | _ => false end && _) eqn:Eps.
  { apply andb_true_iff in Eps as [Eps Hun%bool_decide_eq_true]. exists c, caches_clear, None.
    split; [done|]. split; [constructor|]. split; [by left|].
    apply (walks_answer _ (cell_view s c es (walk_frontier lp))); [intros k p; by apply (cell_view_facts s c f h b)|done|].
    apply (turn_outcome (cell_view s c es (walk_frontier lp)) ltac:(intros; by eapply (cell_view_facts s c f h b))
      ltac:(intros k'; apply (cell_view_facts s c f h b es _ k' Hi)) prev d None).
    apply (iter_cover s c es lp prev reverse None Hl). intros k [p Hp] _. unfold plan_view in Hp.
    rewrite (unloaded_view ks U record_at s c f h b es k) in Hp by (done || lia).
    by destruct (disk_levels_to_walk_for_iter c prev reverse). }
  destruct (walk_readers s _ Hb) as [readers Hrd]. unfold mbind, LM_bind, asks. rewrite Hrd.
  destruct (clone_shared c) as [c' data] eqn:Ecl.
  assert (sh_table data = lv_table c) as -> by (unfold clone_shared in Ecl; destruct (lv_shared c); by injection Ecl as <- <-).
  eexists c', caches, (Some _). split; [reflexivity|]. split; [done|]. split; [by right|].
  intros fuel Hfuel. pose proof (clone_shared_entry c) as Ee. rewrite Ecl in Ee. cbn [fst] in Ee. rewrite Ee.
  destruct (execute_walk_ok s (lv_table c) es _ readers lp Ht Hb Hrd (cell_view s c es (walk_frontier lp))
    ltac:(intros; by eapply (cell_view_facts s c f h b)) ltac:(intros k'; apply (cell_view_facts s c f h b es _ k' Hi))
    fuel prev reverse caches (levels_is_sharded (le_levels (lv_entry c)))) as (caches'' & r & Hx & Hc'' & Hw & Hs & Hkey).
  - intros found. by apply iter_cover.
  - intros Es prev' found Hn. apply iter_cover; [done|]. revert Hn. apply finds_nearest_cover; unfold plan_view.
    + intros k' _. by rewrite !iter_view_unsharded.
    + intros k' Hk' Hp. exists k'. rewrite !iter_view_unsharded in * by done. split_and!; [done|done|apply not_after_refl].
  - done.
  - done.
  - pose proof (filter_length_imp (pastb prev (direction_from_bool reverse)) (fun _ => true) U ltac:(done)) as Hle.
    rewrite (filter_all (fun _ => true)) in Hle by (by apply List.Forall_forall). lia.
  - exists caches'', r. split_and!; [done|done| |done|done]. eapply walks_answer; [|exact Hr|exact Hw].
    intros k p. by apply (cell_view_facts s c f h b).
Qed.
End facts.
