(* ===== verification/CellCorrect.v ===== *)
(** * Correctness of a live cell

    The properties of the cell of the large table, over every interleaving of
    the steps of [CellSystem] from a cell as it is opened, and what a cache
    fill that comes too late does to them. *)

From Stdlib Require Import ZArith Lia List Sorting.Sorted.
From stdpp Require Import base tactics list gmap strings.
From S2P Require Import Prelude BTree Bytes Position Cell Layout KeyShape Flat FlatFacts IndexTable IndexOps IndexTableFacts IndexWalk.
From S2P Require Import IndexPromote IndexFlush IndexUnmerge IndexCodec IndexClean Levels Loader Flusher FlusherFacts.
From S2P Require Import FlusherShards FlushCommand IndexFormat IndexStore FlushSpec TableEntry Snapshot Pending CellOps CellSystem.
From S2P Require Import CellInvariant CellSteps CellReads.

Local Open Scope Z_scope.

(** ** Opening a cell *)

(** [LargeTableEntry::from_snapshot_data] as the live entry: nothing shared,
    nothing pending, an empty cache when the key space has one. *)
Definition live_from_snapshot {C : Type} (bloom : bool) (levels : IndexLevels) (last_processed : LastProcessed)
    (bloom_filter : option (list (list Z))) (value_lru : option C) : LiveEntry C :=
  mkLive (from_snapshot_data bloom levels last_processed bloom_filter) None 0 pt_default value_lru.

Section correct.
Context `{BloomHashes} {C : Type} `{ValueCache C} `{!ValueCacheSpec C} {S : Type} `{Loader S} (ks : option nat) (U : list (list Z)) `{!LoaderSpec S ks U}.
Context (cx : CellContext) (record_at : list Z -> WalPosition -> list Z * list Z).
Notation cell_inv := (cell_inv ks U record_at).
Notation cell_step := (cell_step U cx record_at).

(** What the cells of a key space share: keys that fit, blobs that can be
    written, no compactor, unloading allowed. *)
Record key_space_ok : Prop := mkKeySpaceOk {
  kso_universe : universe_ok ks U;
  kso_serializes : serializes ks U (cx_flush cx);
  kso_compactor : no_compactor (cx_flush cx);
  kso_unloading : cx_unloading_disabled cx = false;
}.

(** The blobs of the levels hold the history [h], the filter its live keys. *)
Record levels_hold (s : S) (h : list entry) (levels : IndexLevels) (bloom_filter : option (list (list Z))) : Prop := mkLevelsHold {
  lh_levels : levels_ok ks U s levels;
  lh_history : history_ok h;
  lh_empty : levels_is_empty levels = true -> h = [];
  lh_content : forall k, visible (ld_min_wal_position s) (levels_view s levels k) = visible (ld_min_wal_position s) (newest_write k h);
  lh_bloom : forall keys k p, bloom_filter = Some keys -> In p (history_of k h) -> is_removed p = false -> k ∈ keys;
}.

(** A cell as it is opened: of the history before it nothing is at or above the
    barrier, which is not past the frontier. *)
Record cell_opened (x : CellSys C S) : Prop := mkCellOpened {
  co_flight : cs_flight x = Idle;
  co_frontier : cs_barrier x <= ld_last_processed (cs_store x) <= 2 ^ 64;
  co_old : forall k, Forall (fun p => iwp_offset p < cs_barrier x) (history_of k (cs_history x));
  co_cell : exists bloom levels lp filter lru,
    cs_cell x = live_from_snapshot bloom levels lp filter lru /\ levels_hold (cs_store x) (cs_history x) levels filter /\
    forall cache, lru = Some cache -> forall k, lru_find cache k = None;
}.

Definition cell_reachable (x : CellSys C S) : Prop := exists x0, cell_opened x0 /\ rtc cell_step x0 x.

Definition cell_sys_inv (x : CellSys C S) : Prop := exists es, cell_inv (cs_store x) (cs_cell x) (cs_flight x) (cs_history x) (cs_barrier x) es.

Lemma processed_all lp ps : Forall (fun p => iwp_offset p < lp) ps -> processed_of lp ps = ps.
Proof. intros Hf. apply filter_all. eapply Forall_impl; [exact Hf|]. intros p Hp. by apply Z.ltb_lt. Qed.

Lemma opened_inv x : cell_opened x -> cell_sys_inv x.
Proof.
  destruct x as [s c f h b]. intros [Hf Hfr Hold (bloom & levels & lp & filter & lru & Hc & Hl & Hlru)]. cbn in *. subst f c.
  exists []. cbn [cs_store cs_cell cs_flight cs_history cs_barrier]. unfold live_from_snapshot, from_snapshot_data.
  pose proof (cell_table_default ks U) as Ht. destruct Hl as [Hlo Hh He Hcon Hbl].
  assert (forall k, it_view_at it_default [] k lp = None) as Hn by done.
  destruct (levels_is_empty levels) eqn:El.
  - specialize (He eq_refl) as ->. split; cbn; try done; try (by destruct bloom).
    + apply (levels_ok_slots ks U s []); [cbn; lia|constructor].
    + intros cache k w -> Hw. by rewrite (Hlru cache eq_refl) in Hw.
  - split; cbn; try done.
    + intros k p Hp Hb. pose proof (Hold k) as Ho. rewrite List.Forall_forall in Ho. specialize (Ho p Hp). lia.
    + intros k lp' Hle. rewrite Hcon. unfold newest_at. rewrite processed_all; [done|].
      eapply Forall_impl; [apply Hold|]. cbv beta. intros p Hp. lia.
    + intros cache k w -> Hw. by rewrite (Hlru cache eq_refl) in Hw.
Qed.

(** ** Every step keeps the invariant *)

Lemma step_inv x y : key_space_ok -> cell_sys_inv x -> cell_step x y -> cell_sys_inv y.
Proof.
  intros [Hu Hser Hnc Hun] [es Hi] Hs.
  destruct Hs as [s c f h b k v fk lv c' Ha Hlv Hc|s c f h b k v c' Ha Hc|s c f h b p|s c f h b lp t Hlp Hp Hc|s c f h b|s c f h b c' Hc
    |s c f h b|s s' c f h b Ha|s c h b rp c' kind Hp Hc|s c h b kind s' sh l Ha Hc|s c h b sh l c' Hc];
    unfold cell_sys_inv in *; cbn [cs_store cs_cell cs_flight cs_history cs_barrier] in *.
  - destruct (insert_keeps ks U record_at s c f h b es k v fk lv Hi Ha Hlv) as (c'' & Hc' & Hi'). exists es.
    by assert (c'' = c') as <- by congruence.
  - destruct (remove_keeps ks U record_at s c f h b es k v Hi Ha) as (c'' & Hc' & Hi'). exists es.
    by assert (c'' = c') as <- by congruence.
  - exists es. by apply pending_keeps.
  - destruct (promote_keeps ks U Hu record_at s c f h b es lp Hi Hlp Hp) as (t' & Hc' & Hi').
    assert (t' = t) as <- by congruence. by eexists.
  - exists es. by apply share_keeps.
  - destruct (load_keeps ks U Hu record_at s c f h b es Hi) as (c'' & es' & Hc' & Hi').
    assert (c'' = c') as <- by congruence. by eexists.
  - exists es. by apply snapshot_keeps.
  - exists es. by eapply advance_keeps.
  - destruct (state_is_dirty (lv_state c)) eqn:Ed.
    + destruct (request_keeps ks U record_at s c h b es rp Hi Ed) as (c'' & kind' & Hc' & Hi').
      rewrite Hc in Hc'. injection Hc' as <- <-. by eexists.
    + exfalso. unfold flush_kind in Hc. change (lv_state (on_entry c _)) with (lv_state c) in Hc.
      by destruct (lv_state c).
  - destruct (flush_keeps ks U Hu cx Hser Hnc record_at s c h b es kind Hi Ha) as (s'' & sh' & l' & Hc' & _ & Hi').
    rewrite Hc in Hc'. injection Hc' as <- <- <-. by eexists.
  - destruct (complete_keeps ks U cx Hun record_at s c sh l h b es Hi) as (c'' & Hc' & Hi').
    assert (c'' = c') as <- by congruence. by eexists.
Qed.

Lemma cell_reachable_inv x : key_space_ok -> cell_reachable x -> cell_sys_inv x.
Proof.
  intros Hk (x0 & Hx0%opened_inv & Hr). induction Hr as [|x y z Hs _ IH]; [done|]. apply IH. by eapply step_inv.
Qed.

(** ** Properties *)

(** C1. Reads of a live cell.  However writes, removals, promotions into the
    flat buffer, loads, flush requests, the flusher's work, its completion and
    the advance of the WAL frontier interleave, a lookup of a key answers: from
    the value cache, the bloom filter, the table or the levels on disk it gives
    the newest write applied to the key (the record of that write when it is
    cached, its WAL position otherwise, nothing for a removal or a key never
    written; positions under the WAL floor aside), and it never fails. *)
Theorem cell_reads_newest (x : CellSys C S) (k : list Z) :
  key_space_ok -> cell_reachable x -> In k U ->
  exists c' r, cell_lookup (cs_cell x) k (cs_store x) = Ok (cs_store x, (c', Some r)) /\
    answer_ok record_at (ld_min_wal_position (cs_store x)) k (newest_write k (cs_history x)) r.
Proof.
  intros Hk Hr Hin. destruct (cell_reachable_inv x Hk Hr) as [es Hi].
  destruct (cell_lookup_ok ks U record_at _ _ _ _ _ _ k Hi Hin) as (r & Hl & Ha). by eexists _, r.
Qed.

(** C3. Checkpoint reads of a live cell.  At any frontier from the published
    one on, as a checkpoint holds it, a lookup gives the newest write below that
    frontier, whatever was written, promoted, loaded or flushed since, and the
    value cache answers only when it holds that write. *)
Theorem checkpoint_reads_as_of (x : CellSys C S) (k : list Z) (last_processed : LastProcessed) :
  key_space_ok -> cell_reachable x -> In k U -> ld_last_processed (cs_store x) <= last_processed <= 2 ^ 64 ->
  exists c' r, cell_lookup_at (cs_cell x) k last_processed (cs_store x) = Ok (cs_store x, (c', Some r)) /\
    answer_ok record_at (ld_min_wal_position (cs_store x)) k (newest_at last_processed k (cs_history x)) r.
Proof.
  intros Hk Hr Hin Hlp. destruct (cell_reachable_inv x Hk Hr) as [es Hi]. by eapply cell_lookup_at_ok.
Qed.

(** What a restart from the snapshot [d] of a cell recovers of a key: the newest
    write the log holds from the snapshot's position on, or what its blobs hold. *)
Definition recovered (s : S) (d : SnapshotEntryData) (h : list entry) (k : list Z) : option IndexWalPosition :=
  or_else (last (List.filter (fun p => negb (is_processed (sd_last_processed d) p)) (history_of k h))) (levels_view s (sd_levels d) k).

(** C2. No write is lost.  At every moment, a flush in flight or not, the
    snapshot taken of a cell is enough to restart from: its blobs and the part of
    the log from its position on together hold the newest write of every key. *)
Theorem cell_durable (x : CellSys C S) (k : list Z) :
  key_space_ok -> cell_reachable x ->
  let '(_, d, _) := cell_snapshot (ld_last_processed (cs_store x)) (cs_cell x) in
  visible (ld_min_wal_position (cs_store x)) (recovered (cs_store x) d (cs_history x) k) =
  visible (ld_min_wal_position (cs_store x)) (newest_write k (cs_history x)).
Proof.
  intros Hk Hr. destruct (cell_reachable_inv x Hk Hr) as [es Hi%snapshot_keeps]. revert Hi.
  destruct (cell_snapshot _ _) as [[c' d] rf] eqn:Ec. cbn [fst]. intros Hi.
  assert (d = mkSnapshotEntry (le_levels (lv_entry c')) (le_last_processed (lv_entry c'))) as -> by (unfold cell_snapshot in Ec; congruence).
  unfold recovered, newest_write. cbn [sd_levels sd_last_processed].
  set (lp := le_last_processed _). set (hp := history_of k (cs_history x)).
  pose proof (history_sorted k _ (ci_history _ _ _ _ _ _ _ _ _ Hi)) as Hs. fold hp in Hs.
  destruct (last (List.filter _ hp)) as [m|] eqn:E.
  - apply pos_last_spec in E as [[Hm Hmp]%filter_In Hmax]; [|by apply pos_sorted_filter].
    assert (last hp = Some m) as ->; [|done]. apply pos_last_spec; [done|]. split; [done|]. intros q Hq.
    destruct (is_processed lp q) eqn:Eq; [|apply Hmax, filter_In; by rewrite Eq].
    apply Z.ltb_lt in Eq. apply negb_true_iff, Z.ltb_ge in Hmp. unfold has_offset, iwp_has_offset in *. lia.
  - apply last_None in E. apply (ci_durable _ _ _ _ _ _ _ _ _ Hi). apply List.Forall_forall. intros p Hp. fold hp in Hp.
    destruct (is_processed lp p) eqn:Ep; [by apply Z.ltb_lt in Ep|]. exfalso. cut (In p []); [done|]. rewrite <- E.
    apply filter_In. by rewrite Ep.
Qed.

(** C8. No step of a live cell panics.  In every reachable state a write or a
    removal the WAL allows is applied, a promotion not past a pending flush
    goes through, a load succeeds, a dirty cell without a flush in flight can
    request one, the flusher serves the request, and the cell takes the result
    over: none of the assertions, [expect]s and state panics of these
    operations fires. *)
Theorem cell_steps_succeed (x : CellSys C S) :
  key_space_ok -> cell_reachable x ->
  let s := cs_store x in let c := cs_cell x in
  (forall k v full_key lru_value, write_allowed U (cs_history x) (cs_barrier x) k (iwp_new_modified v) ->
     (is_Some (lv_value_lru c) -> cached_as record_at k v full_key lru_value) ->
     exists c', cell_insert (ld_last_processed s) c k v full_key lru_value = Ok c') /\
  (forall k v, write_allowed U (cs_history x) (cs_barrier x) k (iwp_new_removed v) ->
     exists c', cell_remove (ld_last_processed s) c k v = Ok c') /\
  (forall lp, lp <= ld_last_processed s -> (forall p, le_pending_last_processed (lv_entry c) = Some p -> lp <= p) ->
     exists t, promote_to_flat_unconditionally (lv_table c) lp = Ok t) /\
  (exists c', maybe_load c s = Ok (s, (c', true))) /\
  (cs_flight x = Idle -> state_is_dirty (lv_state c) = true ->
     exists c' kind, flush_kind (on_entry c (fun e => set_pending_last_processed e (Some (ld_last_processed s)))) [] = (c', Some kind)) /\
  (forall kind, cs_flight x = Requested kind -> flush_allowed s kind ->
     exists s' sh l, handle_command (cx_flush cx) kind RelocationNone s = Ok (s', Some (sh, l))) /\
  (forall sh l, cs_flight x = Written sh l -> exists c', update_flushed_index cx c sh l = Ok c').
Proof.
  intros Hk Hr. destruct (cell_reachable_inv x Hk Hr) as [es Hi]. destruct Hk as [Hu Hser Hnc Hun]. cbv zeta. split_and!.
  - intros k v fk lv Ha Hlv. destruct (insert_keeps ks U record_at _ _ _ _ _ _ k v fk lv Hi Ha Hlv) as (c' & Hc & _). by exists c'.
  - intros k v Ha. destruct (remove_keeps ks U record_at _ _ _ _ _ _ k v Hi Ha) as (c' & Hc & _). by exists c'.
  - intros lp Hlp Hp. destruct (promote_keeps ks U Hu record_at _ _ _ _ _ _ lp Hi Hlp Hp) as (t & Hc & _). by exists t.
  - destruct (load_keeps ks U Hu record_at _ _ _ _ _ _ Hi) as (c' & es' & Hc & _). by exists c'.
  - intros Hf Hd. rewrite Hf in Hi. destruct (request_keeps ks U record_at _ _ _ _ _ [] Hi Hd) as (c' & kind & Hc & _). by exists c', kind.
  - intros kind Hf Ha. rewrite Hf in Hi.
    destruct (flush_keeps ks U Hu cx Hser Hnc record_at _ _ _ _ _ kind Hi Ha) as (s' & sh & l & Hc & _). by exists s', sh, l.
  - intros sh l Hf. rewrite Hf in Hi. destruct (complete_keeps ks U cx Hun record_at _ _ _ _ _ _ _ Hi) as (c' & Hc & _). by exists c'.
Qed.
(** C13. A late cache fill revives a removed key.  [Db::get] fills the value cache
    after the row lock is released.  Take any reachable cell whose lookup of a
    key answered with a WAL position, any steps of the system after that
    lookup that end with a removal as the newest write of the key, and the fill
    after them, into a cache that keeps the entry it was given last.  Before the
    fill lookups are right; after it a lookup answers with the record that was
    read, [Db::get] returns its value although the key is removed, and, the
    record not being under the WAL floor, that answer is wrong. *)
Theorem late_cache_fill_stale (x y : CellSys C S) (k fk : list Z) (w : WalPosition) (c' : LiveEntry C) (p : IndexWalPosition) (value : list Z)
    (need_check : bool) (read_record_check_key : list Z -> WalPosition -> option (list Z)) :
  key_space_ok -> cell_reachable x -> In k U ->
  cell_lookup (cs_cell x) k (cs_store x) = Ok (cs_store x, (c', Some (GetWalPosition w))) ->
  db_get_answer need_check read_record_check_key fk (GetWalPosition w) = (Some value, Some value) ->
  rtc cell_step x y -> newest_write k (cs_history y) = Some p -> is_removed p = true ->
  is_Some (lv_value_lru (cs_cell y)) -> (forall lru v, lru_find (lru_push lru k v) k = Some v) ->
  (forall w', record_at k w' = (fk, value) -> ld_min_wal_position (cs_store y) <= wp_offset w') ->
  (exists c1 r, cell_lookup (cs_cell y) k (cs_store y) = Ok (cs_store y, (c1, Some r)) /\
    answer_ok record_at (ld_min_wal_position (cs_store y)) k (newest_write k (cs_history y)) r) /\
  exists c3 c4, update_lru true (cs_cell y) k fk value = Ok c3 /\
    cell_lookup c3 k (cs_store y) = Ok (cs_store y, (c4, Some (GetValue fk value))) /\
    (db_get_answer need_check read_record_check_key fk (GetValue fk value)).1 = Some value /\
    ~ answer_ok record_at (ld_min_wal_position (cs_store y)) k (newest_write k (cs_history y)) (GetValue fk value).
Proof.
  intros Hk Hx Hin _ _ Hxy Hp Hrm [lru Hlru] Hkeep Hfloor.
  assert (cell_reachable y) as Hy by (destruct Hx as (x0 & Ho & Hs); exists x0; split; [done|]; by etrans).
  destruct (cell_reachable_inv y Hk Hy) as [es Hi]. split.
  { destruct (cell_lookup_ok ks U record_at _ _ _ _ _ _ k Hi Hin) as (r & Hl & Ha). by eexists _, r. }
  destruct (lru_get (lru_push lru k (fk, value)) k) as [lru' hit] eqn:E. destruct (lru_get_ok (lru_push lru k (fk, value)) k) as [Hg _]. rewrite E, Hkeep in Hg. cbn in Hg.
  unfold update_lru. rewrite Hlru. eexists _, _. split; [done|]. split_and!.
  - unfold cell_lookup, value_lru_get. cbn [lv_value_lru set_value_lru]. rewrite E, Hg. reflexivity.
  - cbn. by rewrite keqb_refl, andb_false_r.
  - rewrite Hp. intros (w' & Hv & Hrec & Hvis). specialize (Hfloor w' Hrec). unfold visible_wal, visible in Hvis. rewrite Hv, Hrm in Hvis. cbn in Hvis.
    destruct (Z.ltb_spec (wp_offset w') (ld_min_wal_position (cs_store y))); [lia|done].
Qed.
End correct.

(** ** A concrete cell *)

(** A cache of one record. *)
Definition list_cache : Type := list (list Z * (list Z * list Z)).

Definition list_cache_find (c : list_cache) (k : list Z) : option (list Z * list Z) :=
  option_map snd (List.find (fun e => keqb k e.1) c).

Definition list_cache_pop (c : list_cache) (k : list Z) : list_cache := List.filter (fun e => negb (keqb k e.1)) c.

#[export] Instance list_value_cache : ValueCache list_cache := {
  lru_get c k := match list_cache_find c k with Some v => ((k, v) :: list_cache_pop c k, Some v) | None => (c, None) end;
  lru_push c k v := take 1 ((k, v) :: list_cache_pop c k);
  lru_pop := list_cache_pop;
}.

Lemma list_cache_find_pop c k k' : list_cache_find (list_cache_pop c k) k' = if keqb k' k then None else list_cache_find c k'.
Proof.
  unfold list_cache_find, list_cache_pop. induction c as [|[k0 v] c IH]; cbn; [by destruct (keqb k' k)|].
  destruct (keqb_spec k k0) as [<-|]; cbn; [rewrite IH; by destruct (keqb k' k)|].
  destruct (keqb_spec k' k0) as [E|]; [|done]. subst k'. by destruct (keqb_spec k0 k).
Qed.

Lemma list_cache_find_take n c k v : list_cache_find (take n c) k = Some v -> list_cache_find c k = Some v.
Proof.
  unfold list_cache_find. revert n. induction c as [|[k0 w] c IH]; intros [|n]; cbn; try done. destruct (keqb k k0); [done|]. apply IH.
Qed.

#[export] Instance list_value_cache_spec : ValueCacheSpec list_cache.
Proof.
  exists list_cache_find.
  - intros c k. cbn. destruct (list_cache_find c k) as [v|] eqn:E; [|done]. split; [done|]. intros k'.
    pose proof (list_cache_find_pop c k k') as Hp. unfold list_cache_find at 1. cbn. destruct (keqb_spec k' k) as [Ek|]; [by subst k'|].
    unfold list_cache_find in Hp at 1. exact Hp.
  - intros c k v k' w Hw. cbn in Hw. apply (list_cache_find_take 1 ((k, v) :: list_cache_pop c k)) in Hw. pose proof (list_cache_find_pop c k k') as Hp.
    unfold list_cache_find in Hw at 1. cbn in Hw. destruct (keqb_spec k' k); cbn in Hw; [by injection Hw as <-|].
    unfold list_cache_find in *. by rewrite <- Hp.
  - intros c k k' w Hw. cbn in Hw. rewrite list_cache_find_pop in Hw. by destruct (keqb_spec k' k).
Defined.

#[local] Existing Instance demo_loader.
#[local] Existing Instance demo_loader_spec.

(** A filter that takes every key with an even last byte for an inserted one. *)
#[local] Instance demo_bloom : BloomHashes := {| bloom_collides := fun _ k => match last k with Some b => Z.even b | None => false end |}.

Definition demo_cx : CellContext := mkCellContext demo_ctx 1000 0 false false.

Definition demo_record (k : list Z) (w : WalPosition) : list Z * list Z := (k, [wp_offset w]).

Definition demo_cell : LiveEntry list_cache := live_from_snapshot true levels_new 0 None (Some []).

Definition demo_cell_sys : CellSys list_cache (DbLoader FrameLog) := mkCellSys demo_store demo_cell Idle [] 0.

Notation demo_step := (cell_step demo_universe demo_cx demo_record).

Lemma demo_key_space_ok : key_space_ok (Some 5%nat) demo_universe demo_cx.
Proof. split; [apply demo_universe_ok|apply demo_serializes|done|done]. Qed.

Lemma demo_opened : cell_opened (Some 5%nat) demo_universe demo_cell_sys.
Proof.
  split; [done|cbn; lia|by constructor|]. exists true, levels_new, 0, None, (Some []). split; [done|]. split; [|by intros ? [= <-]].
  split; try done. apply (levels_ok_slots (Some 5%nat) demo_universe demo_store []); [cbn; lia|constructor].
Qed.

(** A floor of 0 asks nothing of a flush. *)
Lemma flush_allowed_zero {S : Type} `{Loader S} (ks : option nat) (U : list (list Z)) (s : S) sh l loaded rp :
  ld_min_wal_position s = 0 -> wal_bounds_ok s -> levels_ok ks U s l -> flush_allowed s (Flush sh l loaded rp).
Proof.
  intros Hm Hb Hl. split; [done|]. intros des Hw k. cbv zeta. rewrite Hm.
  split; apply floor_closed_zero; intros p.
  - intros Hp%last_Some_elem_of%list_elem_of_In%processed_In. destruct Hp as [Hp _].
    pose proof (positions_of_fits (it_data (sh_table sh)) k (proj1 Hw)) as Hf. rewrite List.Forall_forall in Hf. by apply Hf.
  - destruct (bt_get k des) as [q|] eqn:E; cbn.
    + intros [= <-]. destruct Hw as [_ (_ & Hs & Hf & _)]. apply bt_get_In in E; [|done]. rewrite List.Forall_forall in Hf. by apply (Hf (k, q)).
    + unfold flush_base. destruct loaded; [done|]. destruct (levels_l0 l) as [q|] eqn:E0; [|done]. cbn. intros Hp.
      destruct (levels_get_ok ks U s l 0 q Hl E0) as [Hbo _]. by apply (blob_view_fits ks U s q k).
Qed.

Definition demo_old : list entry :=
  [(demo_key 7, iwp_new_removed (wp_new 120 10)); (demo_key 5, iwp_new_modified (wp_new 100 10))].

Definition demo_history : list entry := (demo_key 5, iwp_new_modified (wp_new 150 10)) :: demo_old.

Ltac demo_write := split_and!; [cbn; auto|split; [unfold is_u64|]; cbn; lia|cbn; lia|unfold fresh_write; vm_compute; repeat constructor; discriminate].

(** Two writes, a flush request, a write while the flush runs, the flusher's
    work and the cell taking the result over. *)
Lemma demo_flushed_rests :
  exists s c, cell_reachable (Some 5%nat) demo_universe demo_cx demo_record (mkCellSys s c Idle demo_history 130) /\
    ld_min_wal_position s = 0 /\ ld_last_processed s = 130 /\ lv_pending_data c = pt_default /\ is_Some (lv_value_lru c).
Proof.
  eexists _, _. split.
  - exists demo_cell_sys. split; [apply demo_opened|]. eapply rtc_l.
    { eapply (step_cell_insert _ _ _ _ _ _ _ _ (demo_key 5) (wp_new 100 10) (demo_key 5) (Some [100])); [demo_write|done|vm_compute; reflexivity]. }
    eapply rtc_l.
    { eapply (step_cell_remove _ _ _ _ _ _ _ _ (demo_key 7) (wp_new 120 10)); [demo_write|vm_compute; reflexivity]. }
    eapply rtc_l; [eapply (step_cell_request _ _ _ _ _ _ _ []); [done|vm_compute; reflexivity]|].
    eapply rtc_l.
    { eapply (step_cell_insert _ _ _ _ _ _ _ _ (demo_key 5) (wp_new 150 10) (demo_key 5) (Some [150])); [demo_write|done|vm_compute; reflexivity]. }
    eapply rtc_l.
    { eapply step_cell_flush; [|vm_compute; reflexivity]. apply (flush_allowed_zero (Some 5%nat) demo_universe); [done|split; cbn; lia|].
      apply (levels_ok_slots (Some 5%nat) demo_universe demo_store []); [cbn; lia|constructor]. }
    eapply rtc_l; [eapply step_cell_complete; vm_compute; reflexivity|]. apply rtc_refl.
  - by split_and!.
Qed.

Lemma demo_flushed :
  exists s c, cell_reachable (Some 5%nat) demo_universe demo_cx demo_record (mkCellSys s c Idle demo_history 130) /\
    ld_min_wal_position s = 0 /\ ld_last_processed s = 130.
Proof. destruct demo_flushed_rests as (s & c & Hr & Hm & Hlp & _). by exists s, c. Qed.

(** ** Witnesses *)

Lemma late_cache_fill_stale_witness :
  exists (y : CellSys list_cache (DbLoader FrameLog)) (c3 c4 : LiveEntry list_cache),
    (exists p, newest_write (demo_key 5) (cs_history y) = Some p /\ is_removed p = true) /\
    update_lru true (cs_cell y) (demo_key 5) (demo_key 5) [100] = Ok c3 /\
    cell_lookup c3 (demo_key 5) (cs_store y) = Ok (cs_store y, (c4, Some (GetValue (demo_key 5) [100]))).
Proof.
  assert (exists x y c' p, cell_reachable (Some 5%nat) demo_universe demo_cx demo_record x /\ demo_step x y /\
    cell_lookup (cs_cell x) (demo_key 5) (cs_store x) = Ok (cs_store x, (c', Some (GetWalPosition (wp_new 100 10)))) /\
    newest_write (demo_key 5) (cs_history y) = Some p /\ is_removed p = true /\ is_Some (lv_value_lru (cs_cell y)) /\ ld_min_wal_position (cs_store y) = 0)
    as (x & y & c' & p & Hx & Hs & Hl & Hp & Hrm & Hlru & Hm).
  { eexists _, _, _, _. split.
    { exists demo_cell_sys. split; [apply demo_opened|]. eapply rtc_l.
      { eapply (step_cell_insert _ _ _ _ _ _ _ _ (demo_key 5) (wp_new 100 10) (demo_key 5) (Some [100])); [demo_write|done|vm_compute; reflexivity]. }
      eapply rtc_l; [|apply rtc_refl].
      eapply (step_cell_insert _ _ _ _ _ _ _ _ (demo_key 7) (wp_new 120 10) (demo_key 7) (Some [120])); [demo_write|done|vm_compute; reflexivity]. }
    split; [eapply (step_cell_remove _ _ _ _ _ _ _ _ (demo_key 5) (wp_new 140 10)); [demo_write|vm_compute; reflexivity]|].
    split; [vm_compute; reflexivity|]. split; [vm_compute; reflexivity|]. split; [reflexivity|]. split; [by eexists|reflexivity]. }
  destruct (late_cache_fill_stale (Some 5%nat) demo_universe demo_cx demo_record x y (demo_key 5) (demo_key 5) (wp_new 100 10) c' p [100] false
    (fun k w => Some (demo_record k w).2)) as (_ & c3 & c4 & Hu & Hc & _); try done.
  - apply demo_key_space_ok.
  - by left.
  - by apply rtc_once.
  - intros w' [= Hw]. rewrite Hm, Hw. lia.
  - exists y, c3, c4. split; [by exists p|]. by split.
Defined.


Lemma cell_reads_newest_witness :
  exists s (c c' : LiveEntry list_cache) r, cell_lookup c (demo_key 5) s = Ok (s, (c', Some r)) /\
    answer_ok demo_record 0 (demo_key 5) (Some (iwp_new_modified (wp_new 150 10))) r.
Proof.
  destruct demo_flushed as (s & c & Hr & Hm & _).
  destruct (cell_reads_newest (Some 5%nat) demo_universe demo_cx demo_record _ (demo_key 5) demo_key_space_ok Hr) as (c' & r & Hl & Ha);
    [by left|].
  exists s, c, c', r. split; [exact Hl|]. cbn [cs_store cs_history] in Ha. rewrite Hm in Ha. exact Ha.
Defined.

Lemma checkpoint_reads_as_of_witness :
  exists s (c c' : LiveEntry list_cache) r, cell_lookup_at c (demo_key 5) 130 s = Ok (s, (c', Some r)) /\
    answer_ok demo_record 0 (demo_key 5) (Some (iwp_new_modified (wp_new 100 10))) r.
Proof.
  destruct demo_flushed as (s & c & Hr & Hm & Hlp).
  destruct (checkpoint_reads_as_of (Some 5%nat) demo_universe demo_cx demo_record _ (demo_key 5) 130 demo_key_space_ok Hr)
    as (c' & r & Hl & Ha); [by left|cbn [cs_store]; rewrite Hlp; lia|].
  exists s, c, c', r. split; [exact Hl|]. cbn [cs_store cs_history] in Ha. rewrite Hm in Ha. exact Ha.
Defined.

Lemma cell_durable_witness :
  exists s (c c' : LiveEntry list_cache) d r, cell_snapshot (ld_last_processed s) c = (c', d, r) /\
    visible 0 (recovered s d demo_history (demo_key 5)) = Some (wp_new 150 10).
Proof.
  destruct demo_flushed as (s & c & Hr & Hm & _).
  pose proof (cell_durable (Some 5%nat) demo_universe demo_cx demo_record _ (demo_key 5) demo_key_space_ok Hr) as Hd.
  cbn [cs_store cs_cell cs_history] in Hd. destruct (cell_snapshot (ld_last_processed s) c) as [[c' d] r] eqn:E.
  exists s, c, c', d, r. split; [exact E|]. rewrite Hm in Hd. rewrite Hd. by vm_compute.
Defined.

Lemma cell_steps_succeed_witness :
  exists s (c c' : LiveEntry list_cache), cell_remove (ld_last_processed s) c (demo_key 5) (wp_new 160 10) = Ok c'.
Proof.
  destruct demo_flushed as (s & c & Hr & Hm & _).
  destruct (cell_steps_succeed (Some 5%nat) demo_universe demo_cx demo_record _ demo_key_space_ok Hr) as (_ & Hrem & _).
  destruct (Hrem (demo_key 5) (wp_new 160 10)) as [c' Hc']; [demo_write|]. by exists s, c, c'.
Defined.
