(* ===== verification/TableIter.v ===== *)
(** * Iteration over the cells of a key space

    [LargeTable::next_entry] (src/tidehunter/src/large_table.rs), which steps from
    cell to cell, and the two callers that turn its answer into a record:
    [Db::next_entry] (db.rs) and [DbCheckpoint::next_entry] (checkpoint.rs).
    Both pass over index entries whose record the log no longer has.

    The rows of the table are behind [CellRows]; [live_rows], a list of cells in
    a key space, is an instance.  The record a position stands for is read by
    [read_record], a parameter: [None] is an error, [Some None] a record that is
    gone. *)

From Stdlib Require Import ZArith Lia List Sorting.Sorted.
From stdpp Require Import base tactics list gmap strings.
From S2P Require Import Prelude BTree Bytes Position Cell Layout KeyShape Flat FlatFacts IndexTable IndexOps IndexTableFacts IndexWalk.
From S2P Require Import IndexPromote IndexFlush IndexUnmerge IndexCodec IndexClean Levels IterCache Loader Flusher FlusherFacts.
From S2P Require Import FlusherShards FlushCommand IndexFormat IndexStore FlushSpec TableEntry LargeTable Snapshot Pending CellOps CellSystem.
From S2P Require Import CellInvariant CellSteps CellReads CellWalk CellCorrect.

Local Open Scope Z_scope.

(** ** The rows of a key space *)

Class CellRows (T C : Type) := {
  (** [Row::try_entry_mut] on the row of a cell *)
  rows_try_entry : T -> CellId -> outcome (option (LiveEntry C));
  (** [LargeTable::entry_mut] on the row of a cell: makes the entry when it is
      missing *)
  rows_entry : T -> CellId -> outcome (LiveEntry C);
  (** writes through the reference the two return *)
  rows_store : T -> CellId -> LiveEntry C -> T;
  (** [LargeTable::next_cell] *)
  rows_next_cell : T -> CellId -> bool -> outcome (option CellId);
}.

(** What iteration relies on: an entry that is there stays and can be changed,
    changing one moves neither the others nor the order of the cells, and the
    next cell is a later one. *)
Class CellRowsSpec (T C : Type) `{CellRows T C} := {
  rows_entry_there : forall t c e, rows_try_entry t c = Ok (Some e) -> rows_entry t c = Ok e;
  rows_store_get : forall t c e0 e c', rows_try_entry t c = Ok (Some e0) ->
    rows_try_entry (rows_store t c e) c' = if bool_decide (c' = c) then Ok (Some e) else rows_try_entry t c';
  rows_store_next : forall t c e0 e c' reverse, rows_try_entry t c = Ok (Some e0) ->
    rows_next_cell (rows_store t c e) c' reverse = rows_next_cell t c' reverse;
  rows_next_after : forall t c c' reverse, rows_next_cell t c reverse = Ok (Some c') ->
    cell_id_cmp c c' = Ok (if (reverse : bool) then Gt else Lt);
}.

(** What an iteration reads of the key space's configuration. *)
Record IterConfig := mkIterConfig {
  ic_unloaded_iterator : bool;
  ic_value_cache : bool;
}.

(** Whether iteration stops before a cell. *)
Definition past_end (end_cell_exclusive : option CellId) (reverse : bool) (next_cell : CellId) : outcome bool :=
  match end_cell_exclusive with
  | None => Ok false
  | Some e =>
      c ← cell_id_cmp next_cell e;
      Ok (match c with Lt => reverse | Eq => true | Gt => negb reverse end)
  end.

Section next.
Context {T C : Type} `{ValueCache C} {S : Type} `{Loader S} `{CellRows T C}.
Context (ksd : KeySpaceDesc) (cfg : IterConfig) (st : status_store) (walk_fuel : nat).

(** The first two phases on a cell; [None] is an error of the loader. *)
Definition walk_cell (tab : T) (cell : CellId) (prev_key : option (list Z)) (reverse : bool) (caches : IterCaches)
    (last_processed : option LastProcessed) : LM S (T * IterCaches * option WalkOutcome) :=
  entry ← lift (rows_try_entry tab cell);
  match entry with
  | None => mret (tab, caches, Some WalkExhausted)
  | Some e =>
      '(e, caches, plan) ← prepare_walk (ic_unloaded_iterator cfg) st e prev_key reverse caches;
      let tab := rows_store tab cell e in
      match plan with
      | None => mret (tab, caches, None)
      | Some None => mret (tab, caches, Some WalkExhausted)
      | Some (Some plan) =>
          '(caches, r) ← lift (execute_walk walk_fuel plan prev_key reverse caches last_processed);
          mret (tab, caches, Some r)
      end
  end.

(** The third phase. *)
Definition resolve_found (tab : T) (cell : CellId) (key : list Z) (val : WalPosition) (last_processed : option LastProcessed) :
    LM S (T * GetResult) :=
  if bool_decide (last_processed = None) && ic_value_cache cfg then
    entry ← lift (rows_try_entry tab cell);
    match entry with
    | Some e => let '(e, value) := lru_or_wal e key val in mret (rows_store tab cell e, value)
    | None => mret (tab, GetWalPosition val)
    end
  else mret (tab, GetWalPosition val).

(** The table and the caches it leaves, and the answer: [None] is an error,
    [Some None] the end. *)
Fixpoint table_next_entry (fuel : nat) (tab : T) (cell : CellId) (prev_key : option (list Z)) (end_cell_exclusive : option CellId)
    (reverse : bool) (caches : IterCaches) (last_processed : option LastProcessed) :
    LM S (T * IterCaches * option (option (CellId * list Z * GetResult))) :=
  match fuel with
  | O => lift (Panic "out of fuel")
  | Datatypes.S fuel =>
      '(tab, caches, walk_result) ← walk_cell tab cell prev_key reverse caches last_processed;
      match walk_result with
      | None => mret (tab, caches, None)
      | Some (WalkFound key val) =>
          '(tab, value) ← resolve_found tab cell key val last_processed;
          mret (tab, caches, Some (Some (cell, key, value)))
      | Some (WalkSkipDeleted skip_key) =>
          table_next_entry fuel tab cell (Some skip_key) end_cell_exclusive reverse caches last_processed
      | Some WalkExhausted =>
          let caches := caches_clear in
          next ← lift (rows_next_cell tab cell reverse);
          match next with
          | None => mret (tab, caches, Some None)
          | Some next_cell =>
              stop ← lift (past_end end_cell_exclusive reverse next_cell);
              if (stop : bool) then mret (tab, caches, Some None)
              else table_next_entry fuel tab next_cell None end_cell_exclusive reverse caches last_processed
          end
      end
  end.

Context (read_record : WalPosition -> list Z -> option (option (list Z * list Z))).

(** [LargeTable::update_lru] *)
Definition table_update_lru (tab : T) (reduced_key full_key value : list Z) : outcome T :=
  if negb (ic_value_cache cfg) then Ok tab
  else
    cell ← cell_id ksd reduced_key;
    e ← rows_entry tab cell;
    e ← update_lru true e reduced_key full_key value;
    Ok (rows_store tab cell e).

(** [Db::next_entry], and [DbCheckpoint::next_entry] when a frontier is given:
    the cell, the full key and the value. *)
Fixpoint db_next_entry (fuel table_fuel : nat) (tab : T) (cell : CellId) (prev_key : option (list Z))
    (end_cell_exclusive : option CellId) (reverse : bool) (caches : IterCaches) (last_processed : option LastProcessed) :
    LM S (T * IterCaches * option (option (CellId * list Z * list Z))) :=
  match fuel with
  | O => lift (Panic "out of fuel")
  | Datatypes.S fuel =>
      '(tab, caches, result) ← table_next_entry table_fuel tab cell prev_key end_cell_exclusive reverse caches last_processed;
      match result with
      | None => mret (tab, caches, None)
      | Some None => mret (tab, caches, Some None)
      | Some (Some (result_cell, result_key, value)) =>
          match value with
          | GetValue full_key v => mret (tab, caches, Some (Some (result_cell, full_key, v)))
          | GetWalPosition w =>
              match read_record w result_key with
              | None => mret (tab, caches, None)
              | Some (Some (k, v)) =>
                  tab ← (if bool_decide (last_processed = None) then lift (table_update_lru tab result_key k v) else mret tab);
                  mret (tab, caches, Some (Some (result_cell, k, v)))
              | Some None => db_next_entry fuel table_fuel tab result_cell (Some result_key) end_cell_exclusive reverse caches last_processed
              end
          | GetNotFound => lift (Panic "internal error: entered unreachable code")
          end
      end
  end.
End next.

(** ** What a table at rest answers *)

Section correct.
Context {T C : Type} `{ValueCache C} `{!ValueCacheSpec C} {S : Type} `{Loader S} `{CellRows T C} `{!CellRowsSpec T C}.
Context (cfg : IterConfig) (ks : option nat) (record_at : list Z -> WalPosition -> list Z * list Z) (st : status_store) (s : S).
(** The keys and the history of every cell. *)
Context (U : CellId -> list (list Z)) (hist : CellId -> list entry).
Context (Hu : forall cell, universe_ok ks (U cell)).

(** Nothing is waiting to be applied to the entry; it has the value cache the
    key space asks for. *)
Definition entry_rests (e : LiveEntry C) : Prop :=
  (exists n, take_committed st (lv_pending_data e) = Ok (lv_pending_data e, [], n)) /\
  (ic_value_cache cfg = true -> is_Some (lv_value_lru e)).

Definition cell_rests (cell : CellId) (e : LiveEntry C) : Prop :=
  entry_rests e /\ exists f b es, cell_inv ks (U cell) record_at s e f (hist cell) b es.

(** Every cell the table has is in line with its history; the others have
    none. *)
Definition table_rests (tab : T) : Prop :=
  forall cell, exists o, rows_try_entry tab cell = Ok o /\
    match o with Some e => cell_rests cell e | None => hist cell = [] end.

Lemma table_rests_store tab cell e0 e :
  table_rests tab -> rows_try_entry tab cell = Ok (Some e0) -> cell_rests cell e -> table_rests (rows_store tab cell e).
Proof.
  intros Ht He Hc c. rewrite (rows_store_get tab cell e0 e c He). case_bool_decide as E; [subst c; by exists (Some e)|apply Ht].
Qed.

(** Two tables with the same cells in the same order. *)
Definition same_order (tab tab' : T) : Prop := forall cell reverse, rows_next_cell tab' cell reverse = rows_next_cell tab cell reverse.

(** The caches are warm for a cell. *)
Notation warm cell := (caches_warm ks (U cell) s).

Lemma rests_promote e : entry_rests e -> promote_pending (ld_last_processed s) st e = Ok e.
Proof. intros [[n Hn] _]. unfold promote_pending. rewrite Hn. by destruct e. Qed.

Lemma prepare_walk_rests cell e prev reverse caches lp :
  cell_rests cell e -> (forall k, prev = Some k -> In k (U cell)) -> warm cell caches -> frontier_asked s lp ->
  let d := direction_from_bool reverse in
  let answers := walk_answers (ld_min_wal_position s) (fun k => newest_at (walk_frontier lp) k (hist cell)) prev d in
  exists e' caches' plan, prepare_walk (ic_unloaded_iterator cfg) st e prev reverse caches s = Ok (s, (e', caches', Some plan)) /\
    cell_rests cell e' /\ warm cell caches' /\
    match plan with
    | None => answers WalkExhausted
    | Some plan => forall fuel, (length (U cell) < fuel)%nat -> exists caches'' r,
        execute_walk fuel plan prev reverse caches' lp = Ok (caches'', r) /\ warm cell caches'' /\ answers r /\
        forall k, walk_key r = Some k -> In k (U cell)
    end.
Proof.
  intros [Hr (f & b & es & Hi)] Hk Hc Hlp d answers. unfold prepare_walk, mbind, LM_bind, asks, lift. rewrite rests_promote by done.
  assert (exists e1 es1, (if negb (ic_unloaded_iterator cfg) then maybe_load e else mret (e, true)) s = Ok (s, (e1, true)) /\
    cell_inv ks (U cell) record_at s e1 f (hist cell) b es1 /\ lv_pending_data e1 = lv_pending_data e /\
    lv_value_lru e1 = lv_value_lru e) as (e1 & es1 & -> & Hi1 & Hp1 & Hv1).
  { destruct (ic_unloaded_iterator cfg); cbn [negb]; [by exists e, es|].
    destruct (load_keeps ks (U cell) (Hu cell) record_at s e f (hist cell) b es Hi) as (e1 & es1 & Hl & Hi1). exists e1, es1.
    split; [done|]. split; [done|]. clear -Hl. unfold maybe_load in Hl.
    destruct (as_unloaded_state e) as [dty|]; [|by injection Hl as <-].
    destruct (le_pending_last_processed (lv_entry e)); [by injection Hl as <-|].
    unfold mbind, LM_bind, lift, asks, mret, LM_ret in Hl. destruct (levels_l0 _); destruct dty; cbn in Hl; inv_ok Hl; done. }
  cbv beta iota zeta. cbn [negb].
  destruct (capture_walk_ok ks (U cell) record_at s e1 f (hist cell) b es1 prev reverse caches lp Hi1 Hk Hc Hlp)
    as (c' & caches' & plan & -> & Hc' & Hce & Hans).
  assert (cell_rests cell c') as Hcr.
  { split.
    - destruct Hr as [[n Hn] Hcache]. rewrite <- Hp1 in Hn. rewrite <- Hv1 in Hcache.
      destruct Hce as [->| ->]; (split; [exists n|]); try done; unfold clone_shared; by destruct (lv_shared e1).
    - exists f, b, es1. destruct Hce as [->| ->]; [done|by apply share_keeps]. }
  exists c', caches', plan. split_and!; [done|done|done|]. destruct plan as [plan|]; [|done]. intros fuel Hf.
  destruct (Hans fuel Hf) as (caches'' & r & Hx & Hw & Ha & _ & Hkey). by exists caches'', r.
Qed.

(** *** A cell *)

Lemma walk_cell_ok walk_fuel tab cell prev reverse caches lp :
  table_rests tab -> (forall k, prev = Some k -> In k (U cell)) -> warm cell caches -> frontier_asked s lp -> (length (U cell) < walk_fuel)%nat ->
  exists tab' caches' r, walk_cell cfg st walk_fuel tab cell prev reverse caches lp s = Ok (s, (tab', caches', Some r)) /\
    table_rests tab' /\ same_order tab tab' /\ warm cell caches' /\ (forall k, walk_key r = Some k -> In k (U cell)) /\
    (is_Some (walk_key r) -> exists e, rows_try_entry tab' cell = Ok (Some e)) /\
    walk_answers (ld_min_wal_position s) (fun k => newest_at (walk_frontier lp) k (hist cell)) prev (direction_from_bool reverse) r.
Proof.
  intros Ht Hk Hc Hlp Hfuel. destruct (Ht cell) as (o & Ho & Hcell). unfold walk_cell, mbind, LM_bind, lift. rewrite Ho.
  destruct o as [e|].
  2:{ exists tab, caches, WalkExhausted. split; [done|]. split_and!; [done|done|done|done| |].
      - by intros [? ?].
      - intros k' _. by rewrite Hcell. }
  destruct (prepare_walk_rests cell e prev reverse caches lp Hcell Hk Hc Hlp) as (e' & caches' & plan & -> & He' & Hc' & Hans).
  cbv beta iota zeta. pose proof (table_rests_store tab cell e e' Ht Ho He') as Ht'.
  assert (same_order tab (rows_store tab cell e')) as Hso by (intros c r; by apply (rows_store_next tab cell e)).
  assert (rows_try_entry (rows_store tab cell e') cell = Ok (Some e')) as Hget.
  { rewrite (rows_store_get tab cell e e') by done. by rewrite bool_decide_eq_true_2. }
  destruct plan as [plan|].
  - destruct (Hans walk_fuel Hfuel) as (caches'' & r & -> & Hw & Ha & Hkey). exists (rows_store tab cell e'), caches'', r.
    split; [done|]. split_and!; [done|done|done|done|by exists e'|done].
  - exists (rows_store tab cell e'), caches', WalkExhausted. split; [done|]. split_and!; [done|done|done|done|by intros [? ?]|done].
Qed.

(** Changing what the value cache remembers. *)
Lemma lru_keeps cell e f h b es lru :
  cell_inv ks (U cell) record_at s e f h b es ->
  (forall l k w, lru = Some l -> lru_find l k = Some w ->
     exists p, newest_write k h = Some p /\ is_removed p = false /\ record_at k (into_wal_position p) = w) ->
  cell_inv ks (U cell) record_at s (set_value_lru e lru) f h b es.
Proof.
  intros Hi Hl. pose proof (ci_flight _ _ _ _ _ _ _ _ _ Hi) as Hfl. split; try apply Hi; [exact Hl|].
  assert (forall lp sh oes, snapshot_of ks (U cell) e es b lp sh oes -> snapshot_of ks (U cell) (set_value_lru e lru) es b lp sh oes) as Hsn
    by (intros lp sh oes [? ? ? ? ? ? ?]; by split).
  destruct f as [|kind|sh l]; [done| |].
  - destruct Hfl as (sh & rp & lp & oes & -> & Hs). exists sh, rp, lp, oes. auto.
  - destruct Hfl as (lp & lp2 & oes & Hs & Hr). exists lp, lp2, oes. auto.
Qed.

Lemma value_lru_rests cell e k : cell_rests cell e -> cell_rests cell (value_lru_get e k).1.
Proof.
  intros [Hr (f & b & es & Hi)]. unfold value_lru_get. destruct (lv_value_lru e) as [lru|] eqn:El; [|split; [done|by exists f, b, es]].
  destruct (lru_get lru k) as [lru' hit] eqn:Eg. cbn [fst]. split; [by split; [apply Hr|]|]. exists f, b, es. apply lru_keeps; [done|].
  intros l k' w [= <-] Hf. apply (ci_cache _ _ _ _ _ _ _ _ _ Hi lru k' w El). rewrite <- (proj2 (lru_get_ok lru k) k'), Eg. done.
Qed.

(** What is known of a key a walk found, for the write [newest]: the record of
    a live write, or a position that is the write's when the floor leaves it. *)
Definition found_ok (k : list Z) (newest : option IndexWalPosition) (a : GetResult) : Prop :=
  match a with
  | GetValue full_key value => exists p, newest = Some p /\ is_removed p = false /\ record_at k (into_wal_position p) = (full_key, value)
  | GetWalPosition w => wp_is_valid w = true /\ visible_wal (ld_min_wal_position s) (Some w) = visible (ld_min_wal_position s) newest
  | GetNotFound => False
  end.

Lemma valid_not_removed p : wp_is_valid (into_wal_position p) = true -> is_removed p = false.
Proof. by destruct p as [o l []]. Qed.

(** The value cache is asked for live reads only. *)
Lemma resolve_found_ok tab cell k w lp :
  table_rests tab -> (exists e, rows_try_entry tab cell = Ok (Some e)) -> wp_is_valid w = true ->
  visible_wal (ld_min_wal_position s) (Some w) = visible (ld_min_wal_position s) (newest_at (walk_frontier lp) k (hist cell)) ->
  exists tab' a, resolve_found cfg tab cell k w lp s = Ok (s, (tab', a)) /\ table_rests tab' /\ same_order tab tab' /\
    (exists e, rows_try_entry tab' cell = Ok (Some e)) /\ found_ok k (newest_at (walk_frontier lp) k (hist cell)) a.
Proof.
  intros Ht [e He] Hv Hw. unfold resolve_found. destruct (bool_decide (lp = None) && ic_value_cache cfg) eqn:Ec.
  2:{ exists tab, (GetWalPosition w). split; [done|]. split_and!; [done|done|by exists e|done]. }
  apply andb_true_iff in Ec as [->%bool_decide_eq_true _]. unfold mbind, LM_bind, lift. rewrite He.
  destruct (Ht cell) as (o & Ho & Hc). assert (o = Some e) as -> by congruence.
  unfold lru_or_wal. pose proof (value_lru_rests cell e k Hc) as Hc'. destruct Hc as [Hr (f & b & es & Hi)].
  pose proof (cached_newest ks (U cell) record_at s e f (hist cell) b es k) as Hcn.
  destruct (value_lru_get e k) as [e' hit]. cbn [fst snd] in *. eexists _, _. split; [reflexivity|]. split_and!.
  - by apply (table_rests_store tab cell e).
  - intros c r. by apply (rows_store_next tab cell e).
  - exists e'. rewrite (rows_store_get tab cell e) by done. by rewrite bool_decide_eq_true_2.
  - destruct hit as [[fk v]|]; [|done]. destruct (Hcn (fk, v) Hi eq_refl) as (p & Hp & Hpv%valid_not_removed & Hrec & _).
    exists p. unfold walk_frontier. rewrite <- newest_write_at by apply (ci_history _ _ _ _ _ _ _ _ _ Hi). done.
Qed.

(** *** The cells ahead *)

Section ahead.
Context (reverse : bool) (end_cell : option CellId) (lp : option LastProcessed).
Notation d := (direction_from_bool reverse).
Notation floor := (ld_min_wal_position s).
Notation newest cell := (fun k => newest_at (walk_frontier lp) k (hist cell)).

(** The cells an iteration visits after a cell. *)
Inductive cells_ahead (tab : T) : CellId -> list CellId -> Prop :=
| ahead_none c : rows_next_cell tab c reverse = Ok None -> cells_ahead tab c []
| ahead_stop c c' : rows_next_cell tab c reverse = Ok (Some c') -> past_end end_cell reverse c' = Ok true -> cells_ahead tab c []
| ahead_next c c' cs : rows_next_cell tab c reverse = Ok (Some c') -> past_end end_cell reverse c' = Ok false ->
    cells_ahead tab c' cs -> cells_ahead tab c (c' :: cs).

Lemma cells_ahead_same tab tab' c cs : same_order tab tab' -> cells_ahead tab c cs -> cells_ahead tab' c cs.
Proof.
  intros Hs. induction 1; [apply ahead_none|eapply ahead_stop|eapply ahead_next]; rewrite ?Hs; done.
Qed.

(** No write of the cell past the cursor is visible. *)
Definition none_visible (cell : CellId) (prev : option (list Z)) : Prop := forall k, past prev d k -> visible floor (newest cell k) = None.

(** [k] is past the cursor and no visible key of the cell precedes it. *)
Definition nearest_in (cell : CellId) (prev : option (list Z)) (k : list Z) : Prop :=
  past prev d k /\ forall k', past prev d k' -> is_Some (visible floor (newest cell k')) -> not_after d k k'.

(** The answer of the table: the first cell with an entry left, its nearest key,
    and what is known of the key. *)
Fixpoint next_answers (cell : CellId) (prev : option (list Z)) (cs : list CellId) (r : option (CellId * list Z * GetResult)) : Prop :=
  (exists k a, r = Some (cell, k, a) /\ nearest_in cell prev k /\ In k (U cell) /\ found_ok k (newest cell k) a) \/
  (none_visible cell prev /\ match cs with [] => r = None | c :: cs => next_answers c None cs r end).

(** The answer of the database: the record of a live newest write, of the
    nearest key of the first cell that has one. *)
Fixpoint record_answers (cell : CellId) (prev : option (list Z)) (cs : list CellId) (r : option (CellId * list Z * list Z)) : Prop :=
  (exists k p full_key value, r = Some (cell, full_key, value) /\ nearest_in cell prev k /\ In k (U cell) /\
     newest cell k = Some p /\ is_removed p = false /\ record_at k (into_wal_position p) = (full_key, value)) \/
  (none_visible cell prev /\ match cs with [] => r = None | c :: cs => record_answers c None cs r end).

(** The steps left: one for every key past the cursor and for every cell. *)
Fixpoint steps_left (cell : CellId) (prev : option (list Z)) (cs : list CellId) : nat :=
  length (List.filter (pastb prev d) (U cell)) + 1 + match cs with [] => 0 | c :: cs => steps_left c None cs end.

Lemma none_visible_skip cell prev k :
  nearest_in cell prev k -> visible floor (newest cell k) = None -> none_visible cell (Some k) -> none_visible cell prev.
Proof.
  intros [Hp Hm] Hk Hn k' Hp'. destruct (visible floor (newest cell k')) as [w|] eqn:E; [|done]. exfalso.
  assert (k <> k') as Hne by (intros <-; cbv beta in *; congruence).
  specialize (Hm k' Hp' ltac:(by rewrite E)). specialize (Hn k' (not_after_past d k k' Hm Hne)). cbv beta in *. congruence.
Qed.

Lemma nearest_in_skip cell prev k k' :
  nearest_in cell prev k -> visible floor (newest cell k) = None -> nearest_in cell (Some k) k' -> nearest_in cell prev k'.
Proof.
  intros [Hp Hm] Hk [Hp' Hm']. split; [by eapply past_trans|]. intros k1 Hp1 Hv1. apply Hm'; [|done].
  apply not_after_past; [by apply Hm|]. intros <-. cbv beta in *. rewrite Hk in Hv1. by destruct Hv1.
Qed.

Lemma record_answers_skip cell prev cs k r :
  nearest_in cell prev k -> visible floor (newest cell k) = None ->
  record_answers cell (Some k) cs r -> record_answers cell prev cs r.
Proof.
  intros Hn Hk Hr. destruct cs; cbn [record_answers] in *; destruct Hr as [(k1 & w & fk & v & -> & Ha & Hb)|[Ha Hb]].
  1,3: left; exists k1, w, fk, v; split; [done|]; split; [by eapply nearest_in_skip|done].
  all: right; split; [by eapply none_visible_skip|done].
Qed.

(** Going on after a found key that is not visible. *)
Lemma next_answers_skip tab cell prev cs c k a :
  cells_ahead tab cell cs -> next_answers cell prev cs (Some (c, k, a)) ->
  In k (U c) /\ found_ok k (newest c k) a /\
  exists cs', cells_ahead tab c cs' /\ incl (c :: cs') (cell :: cs) /\
    (forall fk v p, newest c k = Some p -> is_removed p = false -> record_at k (into_wal_position p) = (fk, v) ->
       record_answers cell prev cs (Some (c, fk, v))) /\
    (visible floor (newest c k) = None -> (steps_left c (Some k) cs' < steps_left cell prev cs)%nat /\
       forall r, record_answers c (Some k) cs' r -> record_answers cell prev cs r).
Proof.
  revert cell prev. induction cs as [|c' cs IH]; intros cell prev Ha Hr; destruct Hr as [(k' & a' & [= <- <- <-] & Hn & Hin & Hok)|[Hno Hr]];
    try done.
  - split_and!; [done|done|]. exists []. split_and!; [done|apply incl_refl| |].
    + intros fk v p Hv Hr Hrec. left. by exists k, p, fk, v.
    + intros Hv. split; [|intros r; by apply record_answers_skip]. cbn [steps_left].
      pose proof (walk_measure (U c) prev d k Hin (proj1 Hn)). lia.
  - split_and!; [done|done|]. exists (c' :: cs). split_and!; [done|apply incl_refl| |].
    + intros fk v p Hv Hr Hrec. left. by exists k, p, fk, v.
    + intros Hv. split; [|intros r; by apply record_answers_skip]. cbn [steps_left].
      pose proof (walk_measure (U c) prev d k Hin (proj1 Hn)). lia.
  - inversion Ha as [| |? ? ? _ _ Ha']; subst. destruct (IH c' None Ha' Hr) as (A1 & A3 & cs' & A4 & A5 & A6 & A7).
    split_and!; [done|done|]. exists cs'. split_and!; [done|by apply incl_tl| |].
    + intros fk v p Hv Hrm Hrec. right. split; [done|]. by eapply A6.
    + intros Hv. destruct (A7 Hv) as [Hlt Hcont]. split; [cbn [steps_left] in *; lia|]. intros r Hr'. right. split; [done|]. by apply Hcont.
Qed.

Lemma table_next_entry_ok walk_fuel fuel tab cell prev caches cs :
  table_rests tab -> cells_ahead tab cell cs -> (forall k, prev = Some k -> In k (U cell)) -> warm cell caches -> frontier_asked s lp ->
  Forall (fun c => length (U c) < walk_fuel)%nat (cell :: cs) -> (steps_left cell prev cs <= fuel)%nat ->
  exists tab' caches' r, table_next_entry cfg st walk_fuel fuel tab cell prev end_cell reverse caches lp s = Ok (s, (tab', caches', Some r)) /\
    table_rests tab' /\ same_order tab tab' /\ next_answers cell prev cs r /\
    match r with Some (c, _, _) => warm c caches' /\ (exists e, rows_try_entry tab' c = Ok (Some e)) /\ In c (cell :: cs) | None => True end.
Proof.
  revert tab cell prev caches cs. induction fuel as [|fuel IH]; intros tab cell prev caches cs Ht Ha Hk Hc Hlp Hwf Hfuel.
  { destruct cs; cbn [steps_left] in Hfuel; lia. }
  cbn [table_next_entry]. inversion Hwf as [|? ? Hwc Hws]; subst.
  destruct (walk_cell_ok walk_fuel tab cell prev reverse caches lp Ht Hk Hc Hlp Hwc)
    as (tab1 & caches1 & r & Hw & Ht1 & Hso & Hc1 & Hkey & Hthere & Hans).
  unfold mbind, LM_bind. rewrite Hw. cbv beta iota. pose proof (cells_ahead_same tab tab1 cell cs Hso Ha) as Ha1.
  destruct r as [k w| |k].
  - destruct Hans as (Hp & Hv & Hvis & Hm).
    destruct (resolve_found_ok tab1 cell k w lp Ht1 (Hthere ltac:(by eexists)) Hv Hvis) as (tab2 & a & Hres & Ht2 & Hso2 & He2 & Hok).
    rewrite Hres. cbv beta iota. exists tab2, caches1, (Some (cell, k, a)). split; [done|]. split_and!; [done| | |done|done|by left].
    + intros c rv. by rewrite Hso2, Hso.
    + destruct cs; left; exists k, a; (split; [done|]; split; [by split|]; split; [by apply Hkey|done]).
  - assert (none_visible cell prev) as Hno by (intros k' Hp; by apply Hans). unfold lift at 1.
    destruct Ha1 as [c Hnx|c c' Hnx Hst|c c' cs Hnx Hst Ha1]; rewrite Hnx; cbv beta iota.
    + exists tab1, caches_clear, None. split; [done|]. split_and!; [done|done| |done]. right. done.
    + unfold lift at 1. rewrite Hst. cbv beta iota. exists tab1, caches_clear, None. split; [done|]. split_and!; [done|done| |done]. right. done.
    + unfold lift at 1. rewrite Hst. cbv beta iota. cbn [steps_left] in Hfuel.
      destruct (IH tab1 c' None caches_clear cs Ht1 Ha1 ltac:(done) ltac:(by constructor) Hlp Hws ltac:(lia))
        as (tab2 & caches2 & r & Hres & Ht2 & Hso2 & Hans2 & Hr).
      exists tab2, caches2, r. split; [exact Hres|]. split_and!; [done|intros x rv; by rewrite Hso2, Hso|right; done|].
      destruct r as [[[c2 k2] a2]|]; [|done]. destruct Hr as (R1 & R2 & R3). split_and!; [done|done|by right].
  - assert (In k (U cell)) as Hin by (by apply Hkey). destruct Hans as (Hp & Hv & Hm).
    assert (nearest_in cell prev k) as Hnear.
    { split; [done|]. intros k' Hp' Hl. apply past_not_after. by apply Hm. }
    destruct (IH tab1 cell (Some k) caches1 cs Ht1 Ha1 ltac:(by intros ? [= <-]) Hc1 Hlp Hwf)
      as (tab2 & caches2 & r & Hres & Ht2 & Hso2 & Hans2 & Hr).
    { pose proof (walk_measure (U cell) prev d k Hin Hp). destruct cs; cbn [steps_left] in *; lia. }
    exists tab2, caches2, r. split; [exact Hres|]. split_and!; [done|intros x rv; by rewrite Hso2, Hso| |done].
    destruct cs; cbn [next_answers] in *; destruct Hans2 as [(k1 & a & -> & Hb1 & Hb2)|[Hb1 Hb2]].
    1,3: left; exists k1, a; split; [done|]; split; [by eapply nearest_in_skip|done].
    all: right; split; [by eapply none_visible_skip|done].
Qed.

(** *** Records *)

Context (ksd : KeySpaceDesc) (read_record : WalPosition -> list Z -> option (option (list Z * list Z))).
(** The log has the records from the floor on. *)
Definition records_read : Prop :=
  forall k w, wp_is_valid w = true -> read_record w k = Some (if wp_offset w <? floor then None else Some (record_at k w)).

(** The keys of a cell map to it. *)
Definition keys_map : Prop := forall cell k, In k (U cell) -> cell_id ksd k = Ok cell.

Lemma visible_live o w : visible floor o = Some w -> exists p, o = Some p /\ is_removed p = false /\ w = into_wal_position p.
Proof.
  destruct o as [p|]; [|done]. cbn. destruct (is_removed p) eqn:E; [done|]. cbn. destruct (_ <? _); [done|]. intros [= <-]. by exists p.
Qed.

Lemma table_update_lru_ok tab cell k p fk v :
  keys_map -> table_rests tab -> (exists e, rows_try_entry tab cell = Ok (Some e)) -> In k (U cell) ->
  newest_at (2 ^ 64) k (hist cell) = Some p -> is_removed p = false -> record_at k (into_wal_position p) = (fk, v) ->
  exists tab', table_update_lru ksd cfg tab k fk v = Ok tab' /\ table_rests tab' /\ same_order tab tab'.
Proof.
  intros Hkm Ht [e He] Hin Hv Hrm Hrec. unfold table_update_lru. destruct (ic_value_cache cfg) eqn:Evc; cbn [negb]; [|by exists tab].
  rewrite (Hkm cell k Hin). cbn [mbind outcome_bind]. rewrite (rows_entry_there tab cell e He). cbn [mbind outcome_bind].
  destruct (Ht cell) as (o & Ho & Hc). assert (o = Some e) as -> by congruence. pose proof Hc as [[Hpd Hcache] (f & b & es & Hi)].
  destruct (Hcache Evc) as [lru El]. unfold update_lru. cbn [negb]. rewrite El. cbn [mbind outcome_bind]. eexists. split; [done|]. split.
  - apply (table_rests_store tab cell e); [done|done|]. split; [split; [apply Hpd|by intros _; eexists]|]. exists f, b, es.
    apply lru_keeps; [done|]. intros l k' x [= <-] Hf. pose proof (ci_cache _ _ _ _ _ _ _ _ _ Hi lru k' x El) as Hold.
    apply lru_push_ok in Hf. destruct (keqb_spec k' k) as [Ek|]; [subst k' x|by apply Hold].
    rewrite <- newest_write_at in Hv by apply (ci_history _ _ _ _ _ _ _ _ _ Hi).
    by exists p.
  - intros c rv. by apply (rows_store_next tab cell e).
Qed.

Lemma db_next_entry_ok walk_fuel table_fuel fuel tab cell prev caches cs :
  records_read -> keys_map -> table_rests tab -> cells_ahead tab cell cs -> (forall k, prev = Some k -> In k (U cell)) ->
  warm cell caches -> frontier_asked s lp -> Forall (fun c => length (U c) < walk_fuel)%nat (cell :: cs) ->
  (steps_left cell prev cs <= table_fuel)%nat -> (steps_left cell prev cs <= fuel)%nat ->
  exists tab' caches' r, db_next_entry ksd cfg st walk_fuel read_record fuel table_fuel tab cell prev end_cell reverse caches lp s =
      Ok (s, (tab', caches', Some r)) /\
    table_rests tab' /\ same_order tab tab' /\ record_answers cell prev cs r /\
    match r with Some (c, _, _) => warm c caches' | None => True end.
Proof.
  intros Hrr Hkm. revert tab cell prev caches cs. induction fuel as [|fuel IH]; intros tab cell prev caches cs Ht Ha Hk Hc Hlp Hwf Htf Hfuel.
  { destruct cs; cbn [steps_left] in Hfuel; lia. }
  cbn [db_next_entry].
  destruct (table_next_entry_ok walk_fuel table_fuel tab cell prev caches cs Ht Ha Hk Hc Hlp Hwf Htf)
    as (tab1 & caches1 & r & Hres & Ht1 & Hso1 & Hans & Hr).
  unfold mbind, LM_bind. rewrite Hres. cbv beta iota. destruct r as [[[c k] a]|].
  2:{ exists tab1, caches1, None. split; [done|]. split_and!; [done|done| |done]. clear -Hans.
      revert cell prev Hans. induction cs as [|c cs IH]; intros cell prev [(k & a & ? & _)|[Hn Hr]]; try done; right; [done|].
      split; [done|]. by apply IH. }
  destruct Hr as (Hwarm & Hthere & Hinc). pose proof (cells_ahead_same tab tab1 cell cs Hso1 Ha) as Ha1.
  destruct (next_answers_skip tab1 cell prev cs c k a Ha1 Hans) as (Hin & Hok & cs' & Ha' & Hincl & Hsome & Hskip).
  destruct a as [fk v|w|]; [| |done].
  { destruct Hok as (p & Hp & Hrm & Hrec). exists tab1, caches1, (Some (c, fk, v)). split; [done|]. split_and!; [done|done| |done]. by eapply Hsome. }
  destruct Hok as [Hv Hvis]. rewrite (Hrr k w Hv). destruct (wp_offset w <? floor) eqn:Efl.
  - assert (visible floor (newest c k) = None) as Hnone by (rewrite <- Hvis; cbn; by rewrite Hv, Efl).
    destruct (Hskip Hnone) as [Hlt Hcont]. rewrite List.Forall_forall in Hwf.
    destruct (IH tab1 c (Some k) caches1 cs' Ht1 Ha' ltac:(by intros ? [= <-]) Hwarm Hlp) as (tab2 & caches2 & r & Hr2 & Ht2 & Hso2 & Hans2 & Hw2).
    { apply List.Forall_forall. intros x Hx. by apply Hwf, Hincl. }
    { lia. }
    { lia. }
    exists tab2, caches2, r. split; [exact Hr2|]. split_and!; [done|intros x rv; by rewrite Hso2, Hso1|by apply Hcont|done].
  - assert (visible floor (newest c k) = Some w) as Hsw by (rewrite <- Hvis; cbn; by rewrite Hv, Efl).
    destruct (visible_live _ w Hsw) as (p & Hp & Hrm & ->). destruct (record_at k (into_wal_position p)) as [fk v] eqn:Hrec.
    assert (exists tab2, (if bool_decide (lp = None) then lift (table_update_lru ksd cfg tab1 k fk v) else mret tab1) s = Ok (s, tab2) /\
      table_rests tab2 /\ same_order tab1 tab2) as (tab2 & Hup & Ht2 & Hso2).
    { case_bool_decide as El; [|by exists tab1].
      destruct (table_update_lru_ok tab1 c k p fk v Hkm Ht1 Hthere Hin) as (tab2 & Hup & Ht2 & Hso2); [by rewrite El in Hp|done|done|].
      exists tab2. unfold lift. by rewrite Hup. }
    rewrite Hup. cbv beta iota. exists tab2, caches1, (Some (c, fk, v)). split; [done|].
    split_and!; [done|intros x rv; by rewrite Hso2, Hso1| |done]. by eapply Hsome.
Qed.

(** *** The order of the cells *)

Context (Hks : ks_ok ksd) (Hkeys : forall cell k, In k (U cell) -> key_ok ksd k).

Lemma visible_within tab cell k : table_rests tab -> frontier_asked s lp -> is_Some (visible floor (newest cell k)) -> In k (U cell).
Proof.
  intros Ht Hlp Hv. destruct (Ht cell) as (o & _ & Hc). destruct o as [e|]; [|rewrite Hc in Hv; by destruct Hv].
  destruct Hc as [_ (f & b & es & Hi)]. pose proof (ci_frontier _ _ _ _ _ _ _ _ _ Hi).
  apply (cell_view_facts ks (U cell) record_at s e f (hist cell) b es (walk_frontier lp) k Hi).
  cbv beta in Hv. rewrite <- (ci_reads _ _ _ _ _ _ _ _ _ Hi k (walk_frontier lp)) in Hv by (unfold walk_frontier; destruct lp; cbn in Hlp; lia).
  unfold cell_view. destruct (or_else _ _); [by eexists|by destruct Hv].
Qed.

(** Keys of a later cell are past the keys of an earlier one. *)
Lemma cells_keys_ordered c c' k k' :
  keys_map -> In k (U c) -> In k' (U c') -> cell_id_cmp c c' = Ok (if reverse then Gt else Lt) -> past (Some k) d k'.
Proof.
  intros Hkm Hk Hk' Hc. destruct (cell_order ksd k k' Hks (Hkeys c k Hk) (Hkeys c' k' Hk')) as (ca & cb & o & Ha & Hb & Ho & Hle & Hge).
  rewrite (Hkm c k Hk) in Ha. rewrite (Hkm c' k' Hk') in Hb. injection Ha as <-. injection Hb as <-. rewrite Hc in Ho. injection Ho as <-.
  destruct reverse; cbn in *.
  - destruct (kltb_spec k' k) as [|Hn]; [done|]. by destruct (Hle (proj2 (kle_not_lt _ _) Hn)).
  - destruct (kltb_spec k k') as [|Hn]; [done|]. by destruct (Hge (proj2 (kle_not_lt _ _) Hn)).
Qed.

Lemma cell_id_cmp_trans a b c o : o <> Eq -> cell_id_cmp a b = Ok o -> cell_id_cmp b c = Ok o -> cell_id_cmp a c = Ok o.
Proof.
  intros Ho. destruct a as [x|x], b as [y|y], c as [z|z]; cbn; try done; intros [= Hab] [= Hbc]; f_equal; subst o.
  - destruct (Z.compare_spec x y), (Z.compare_spec y z); try done; [apply Z.compare_lt_iff|apply Z.compare_gt_iff]; lia.
  - destruct (bytes_cmp x y) eqn:E; [done| |].
    + change (klt x z). by apply (klt_trans x y z).
    + rewrite bytes_cmp_antisym in E, Hbc |- *. destruct (bytes_cmp y x) eqn:E1; try done. destruct (bytes_cmp z y) eqn:E2; try done.
      assert (klt z x) as Hzx by (by apply (klt_trans z y x)). change (bytes_cmp z x = Lt) in Hzx. by rewrite Hzx.
Qed.

Lemma ahead_cmp tab cell cs c : cells_ahead tab cell cs -> In c cs -> cell_id_cmp cell c = Ok (if reverse then Gt else Lt).
Proof.
  induction 1 as [| |c0 c' cs Hn _ _ IH]; [done|done|]. apply rows_next_after in Hn. intros [->|Hin]; [done|].
  eapply cell_id_cmp_trans; [by destruct reverse|exact Hn|by apply IH].
Qed.

(** The answer over all the cells ahead. *)
Definition iteration_answers (cells : list CellId) (prev : option (list Z)) (r : option (CellId * list Z * list Z)) : Prop :=
  match r with
  | Some (c, full_key, value) =>
      exists k p, In c cells /\ In k (U c) /\ past prev d k /\
        newest c k = Some p /\ is_removed p = false /\ record_at k (into_wal_position p) = (full_key, value) /\
        forall c' k', In c' cells -> past prev d k' -> is_Some (visible floor (newest c' k')) -> not_after d k k'
  | None => forall c' k', In c' cells -> past prev d k' -> visible floor (newest c' k') = None
  end.

Lemma record_iteration tab cell prev cs r :
  keys_map -> table_rests tab -> frontier_asked s lp -> (forall k, prev = Some k -> In k (U cell)) -> cells_ahead tab cell cs ->
  record_answers cell prev cs r -> iteration_answers (cell :: cs) prev r.
Proof.
  intros Hkm Ht Hlp. revert cell prev. induction cs as [|c0 cs IH]; intros cell prev Hk Ha Hr.
  - destruct Hr as [(k & p & fk & v & -> & [Hp Hm] & Hin & Hrest)|[Hn ->]]; cbn.
    + destruct Hrest as (R1 & R2 & R3). exists k, p. split_and!; [by left|done|done|done|done|done|]. intros c' k' [<-|[]]. apply Hm.
    + intros c' k' [<-|[]]. apply Hn.
  - assert (forall c', In c' (c0 :: cs) -> cell_id_cmp cell c' = Ok (if reverse then Gt else Lt)) as Hcmp by (intros c'; by eapply ahead_cmp).
    destruct Hr as [(k & p & fk & v & -> & [Hp Hm] & Hin & Hrest)|[Hn Hr]].
    + destruct Hrest as (R1 & R2 & R3). exists k, p. split_and!; [by left|done|done|done|done|done|]. intros c' k' [<-|Hc']; [apply Hm|].
      intros _ Hv. apply past_not_after. eapply cells_keys_ordered; [done|exact Hin| |by apply Hcmp]. by eapply visible_within.
    + inversion Ha as [| |? ? ? _ _ Ha']; subst. specialize (IH c0 None ltac:(done) Ha' Hr).
      destruct r as [[[c fk] v]|]; unfold iteration_answers in *.
      * destruct IH as (k & p & Hc & Hin & _ & R1 & R2 & R3 & Hm). exists k, p. split_and!; [by right|done| |done|done|done|].
        -- destruct prev as [q|]; [|by destruct reverse]. eapply cells_keys_ordered; [done|by apply Hk|exact Hin|by apply Hcmp].
        -- intros c' k' [<-|Hc'] Hp Hv; [|apply (Hm c' k'); [done|by destruct reverse|done]].
           specialize (Hn k' Hp). cbv beta in *. rewrite Hn in Hv. by destruct Hv.
      * intros c' k' [<-|Hc'] Hp; [by apply Hn|]. apply IH; [done|by destruct reverse].
Qed.

(** The cells from one of the cells ahead on. *)
Lemma ahead_from tab cell prev cs c k :
  cells_ahead tab cell cs -> In c (cell :: cs) -> In k (U c) -> past prev d k ->
  exists cs', cells_ahead tab c cs' /\ incl (c :: cs') (cell :: cs) /\ (steps_left c (Some k) cs' < steps_left cell prev cs)%nat /\
    forall c', In c' (cell :: cs) -> In c' (c :: cs') \/ cell_id_cmp c' c = Ok (if reverse then Gt else Lt).
Proof.
  intros Ha. revert prev. induction Ha as [c0 Hn|c0 c' Hn Hst|c0 c' cs Hn Hst Ha IH]; intros prev Hin Hk Hp.
  - destruct Hin as [->|[]]. exists []. split_and!; [by apply ahead_none|apply incl_refl| |by left]. cbn [steps_left].
    pose proof (walk_measure (U c) prev d k Hk Hp). lia.
  - destruct Hin as [->|[]]. exists []. split_and!; [by eapply ahead_stop|apply incl_refl| |by left]. cbn [steps_left].
    pose proof (walk_measure (U c) prev d k Hk Hp). lia.
  - destruct Hin as [->|Hin].
    + exists (c' :: cs). split_and!; [by eapply ahead_next|apply incl_refl| |by left]. cbn [steps_left].
      pose proof (walk_measure (U c) prev d k Hk Hp). lia.
    + destruct (IH None Hin Hk ltac:(by destruct reverse)) as (cs' & Ha' & Hi & Hs & Hb). exists cs'. split_and!; [done|by apply incl_tl| |].
      * cbn [steps_left] in *. lia.
      * intros x [<-|Hx]; [|by apply Hb]. right. apply (ahead_cmp tab c0 (c' :: cs)); [by eapply ahead_next|done].
Qed.

(** A key space at rest: its tables are in line with the histories, its keys
    with its shape, and the log has the records. *)
Record key_space_rests (tab : T) : Prop := mkKeySpaceRests {
  kr_tables : table_rests tab;
  kr_map : keys_map;
  kr_records : records_read;
}.
End ahead.

(** C11. One step of an iteration returns the next record.  On a key space at
    rest, [Db::next_entry] (and [DbCheckpoint::next_entry], as of its frontier),
    from a cell and a cursor in it, forwards or backwards, never panics or
    fails, and gives the record of the newest write of a live key such that no
    visible key of the cells ahead lies between the cursor and it; it ends only
    when no key past the cursor is visible.  Cells are walked in the order of
    their keys, tombstones and entries whose record is gone are passed over,
    and the table is left at rest, so the next step can follow. *)
Theorem iteration_next_record (reverse : bool) (end_cell : option CellId) (lp : option LastProcessed) (ksd : KeySpaceDesc)
    (read_record : WalPosition -> list Z -> option (option (list Z * list Z))) (walk_fuel table_fuel fuel : nat) (tab : T)
    (cell : CellId) (prev : option (list Z)) (caches : IterCaches) (cs : list CellId) :
  ks_ok ksd -> (forall cell k, In k (U cell) -> key_ok ksd k) -> key_space_rests ksd read_record tab ->
  cells_ahead reverse end_cell tab cell cs -> (forall k, prev = Some k -> In k (U cell)) -> caches_warm ks (U cell) s caches ->
  frontier_asked s lp -> Forall (fun c => length (U c) < walk_fuel)%nat (cell :: cs) ->
  (steps_left reverse cell prev cs <= table_fuel)%nat -> (steps_left reverse cell prev cs <= fuel)%nat ->
  exists tab' caches' r, db_next_entry ksd cfg st walk_fuel read_record fuel table_fuel tab cell prev end_cell reverse caches lp s =
      Ok (s, (tab', caches', Some r)) /\
    key_space_rests ksd read_record tab' /\ iteration_answers reverse lp (cell :: cs) prev r.
Proof.
  intros Hks Hkeys [Ht Hkm Hrr] Ha Hk Hc Hlp Hwf Htf Hf.
  destruct (db_next_entry_ok reverse end_cell lp ksd read_record walk_fuel table_fuel fuel tab cell prev caches cs
    Hrr Hkm Ht Ha Hk Hc Hlp Hwf Htf Hf) as (tab' & caches' & r & Hr & Ht' & _ & Hans & _).
  exists tab', caches', r. split_and!; [exact Hr|by split|]. by apply (record_iteration reverse end_cell lp ksd Hks Hkeys tab).
Qed.
End correct.

(** ** The cells of a key space as a list *)

(** [lr_fresh] is the entry of a cell that was never written: the rows of a
    uniform key space have one for every cell, a prefixed one makes it on
    demand.  [lr_index] is the [cell_index] of prefixed key spaces. *)
Record LiveRows (C : Type) := mkLiveRows {
  lr_ks : KeySpaceDesc;
  lr_fresh : LiveEntry C;
  lr_cells : list (CellId * LiveEntry C);
  lr_index : list (list Z * unit);
}.

Arguments mkLiveRows {C}.
Arguments lr_ks {C}.
Arguments lr_fresh {C}.
Arguments lr_cells {C}.
Arguments lr_index {C}.

Section live_rows.
Context {C : Type}.

Definition lr_find (t : LiveRows C) (cell : CellId) : option (LiveEntry C) :=
  option_map snd (List.find (fun e => bool_decide (e.1 = cell)) (lr_cells t)).

Definition lr_try_entry (t : LiveRows C) (cell : CellId) : option (LiveEntry C) :=
  match lr_find t cell, ks_key_type (lr_ks t) with
  | Some e, _ => Some e
  | None, Uniform _ => Some (lr_fresh t)
  | None, PrefixedUniform _ => None
  end.

Definition lr_store (t : LiveRows C) (cell : CellId) (e : LiveEntry C) : LiveRows C :=
  mkLiveRows (lr_ks t) (lr_fresh t) ((cell, e) :: lr_cells t) (lr_index t).

Definition lr_next_cell (t : LiveRows C) (cell : CellId) (reverse : bool) : outcome (option CellId) :=
  table_next_cell (mkKsTable (lr_ks t) false [] (lr_index t)) cell reverse.

#[export] Instance live_rows : CellRows (LiveRows C) C := {
  rows_try_entry t cell := Ok (lr_try_entry t cell);
  rows_entry t cell := Ok (default (lr_fresh t) (lr_try_entry t cell));
  rows_store := lr_store;
  rows_next_cell := lr_next_cell;
}.

Lemma lr_next_after t c c' reverse : lr_next_cell t c reverse = Ok (Some c') -> cell_id_cmp c c' = Ok (if (reverse : bool) then Gt else Lt).
Proof.
  unfold lr_next_cell, table_next_cell. cbn [kt_ks kt_cell_index]. destruct (ks_key_type (lr_ks t)) as [u|cfg], c as [i|x]; try done.
  - unfold next_cell, next_bounded. set (m := num_cells u (lr_ks t)).
    assert (0 <= m < 2 ^ 64) as Hm by (unfold m, num_cells, u64_mul, wrap64; apply Z.mod_pos_bound; lia).
    destruct reverse.
    + unfold checked_sub. destruct (1 <=? i) eqn:E; [|done]. intros [= <-]. cbn. f_equal. apply Z.compare_gt_iff. lia.
    + destruct (u64_sub m 1 <=? i) eqn:E; [done|]. intros [= <-]. cbn. f_equal. apply Z.compare_lt_iff. apply Z.leb_gt in E.
      unfold u64_sub, u64_add, wrap64 in *. pose proof (Z.mod_pos_bound (m - 1) (2 ^ 64) ltac:(lia)).
      destruct (Z.le_gt_cases 0 i); [rewrite Z.mod_small by lia; lia|]. pose proof (Z.mod_pos_bound (i + 1) (2 ^ 64) ltac:(lia)). lia.
  - unfold next_key_in_tree. destruct reverse; destruct c' as [j|y]; cbn; intros [= E];
      try (destruct (last _) as [[y' []]|] eqn:El; [|done]); try (destruct (head _) as [[y' []]|] eqn:El; [|done]); try done.
    + injection E as ->. apply last_Some_elem_of, list_elem_of_In, filter_In in El as [_ El]. cbn in El. destruct (kltb_spec y x) as [Hl|]; [|done].
      f_equal. rewrite bytes_cmp_antisym. change (bytes_cmp y x = Lt) in Hl. by rewrite Hl.
    + injection E as ->. apply head_Some_elem_of, list_elem_of_In, filter_In in El as [_ El]. cbn in El. destruct (kltb_spec x y) as [Hl|]; [|done].
      f_equal. exact Hl.
Qed.

#[export] Instance live_rows_spec : CellRowsSpec (LiveRows C) C.
Proof.
  constructor.
  - intros t c e [= E]. cbn. by rewrite E.
  - intros t c e0 e c' _. cbn. unfold lr_try_entry, lr_store, lr_find. cbn [lr_cells lr_ks lr_fresh List.find fst].
    destruct (decide (c' = c)) as [->|Hne].
    + rewrite !bool_decide_eq_true_2 by done. done.
    + rewrite (bool_decide_eq_false_2 (c = c')), (bool_decide_eq_false_2 (c' = c)) by congruence. done.
  - done.
  - intros t c c' reverse. apply lr_next_after.
Qed.
End live_rows.

(** ** A step over a live cell *)

(** One pass over a cell finds the nearest live key, whatever runs beside
    it.  In every reachable state of a live cell, with any flush in flight, the
    plan captured under the row lock succeeds, and executing it, later and
    without the lock, gives the answer for the moment of the capture: the nearest
    key past the cursor whose newest write (as of the frontier asked for) is
    visible, with its position; the end only when no key past the cursor is
    visible; or, in a sharded cell only, a tombstone that no visible key
    precedes.  The loop ends within one turn for every key, and leaves caches
    from which the next pass is right too. *)
Lemma cell_walk_nearest {C : Type} `{ValueCache C} `{!ValueCacheSpec C} {S : Type} `{Loader S} (ks : option nat) (U : list (list Z))
    `{!LoaderSpec S ks U} (cx : CellContext) (record_at : list Z -> WalPosition -> list Z * list Z) (x : CellSys C S)
    (prev : option (list Z)) (reverse : bool) (caches : IterCaches) (lp : option LastProcessed) (fuel : nat) :
  key_space_ok ks U cx -> cell_reachable ks U cx record_at x -> (forall k, prev = Some k -> In k U) ->
  caches_warm ks U (cs_store x) caches -> frontier_asked (cs_store x) lp -> (length U < fuel)%nat ->
  let answers := walk_answers (ld_min_wal_position (cs_store x)) (fun k => newest_at (walk_frontier lp) k (cs_history x)) prev
                   (direction_from_bool reverse) in
  exists c' caches' plan, capture_walk (cs_cell x) prev reverse caches (cs_store x) = Ok (cs_store x, (c', caches', Some plan)) /\
    match plan with
    | None => answers WalkExhausted
    | Some plan => exists caches'' r, execute_walk fuel plan prev reverse caches' lp = Ok (caches'', r) /\
        caches_warm ks U (cs_store x) caches'' /\ answers r /\ (wk_is_sharded plan = false -> skips r = false)
    end.
Proof.
  intros Hk Hr Hp Hc Hlp Hf answers. destruct (cell_reachable_inv ks U cx record_at x Hk Hr) as [es Hi].
  destruct (capture_walk_ok ks U record_at _ _ _ _ _ es prev reverse caches lp Hi Hp Hc Hlp) as (c' & caches' & plan & Hcap & _ & _ & Ha).
  exists c', caches', plan. split; [exact Hcap|]. destruct plan as [plan|]; [|exact Ha].
  assert (wk_is_sharded plan = levels_is_sharded (le_levels (lv_entry (cs_cell x)))) as ->.
  { unfold capture_walk in Hcap. destruct (bool_decide _); [done|]. destruct (_ && _); [done|]. unfold mbind, LM_bind, asks in Hcap.
    destruct (mapM _ _); [|done]. pose proof (clone_shared_entry (cs_cell x)) as Ee. destruct (clone_shared (cs_cell x)) as [c1 d1].
    injection Hcap as _ _ <-. cbn in *. by rewrite Ee. }
  destruct (Ha fuel Hf) as (caches'' & r & Hx & Hw & Hans & Hs & _). by exists caches'', r.
Qed.

(** ** A key space with one written cell *)

#[local] Existing Instance demo_loader.
#[local] Existing Instance demo_loader_spec.

Definition demo_cells (cell : CellId) : list (list Z) := if bool_decide (cell = CellInteger 0) then demo_universe else [].

Definition demo_histories (cell : CellId) : list entry := if bool_decide (cell = CellInteger 0) then demo_history else [].

Definition demo_iter_config : IterConfig := mkIterConfig true true.

Definition no_transactions : status_store := fun _ => TRANSACTION_STATUS_PENDING.

Definition demo_read (w : WalPosition) (k : list Z) : option (option (list Z * list Z)) :=
  Some (if wp_offset w <? 0 then None else Some (demo_record k w)).

Definition demo_rows (c : LiveEntry list_cache) : LiveRows list_cache := mkLiveRows demo_uniform demo_cell [(CellInteger 0, c)] [].

Lemma demo_cells_universe cell : universe_ok (Some 5%nat) (demo_cells cell).
Proof. unfold demo_cells. case_bool_decide; [apply demo_universe_ok|]. by split; [constructor|]. Qed.

Lemma demo_cells_keys cell k : In k (demo_cells cell) -> key_ok demo_uniform k /\ length k = 5%nat /\ cell_id demo_uniform k = Ok cell.
Proof.
  unfold demo_cells. case_bool_decide as E; [|done]. subst cell. intros Hin. pose proof demo_cell_keys as Hk. rewrite List.Forall_forall in Hk.
  destruct (Hk k Hin) as (Hl & Hok & Hc). done.
Qed.

(** A cell nobody wrote. *)
Lemma fresh_inv (s : DbLoader FrameLog) :
  ld_last_processed s = 130 -> cell_sys_inv (Some 5%nat) [] demo_record (mkCellSys s demo_cell Idle [] 0).
Proof.
  intros Hlp. apply opened_inv. split; [done|cbn [cs_barrier cs_store]; lia|by constructor|].
  exists true, levels_new, 0, None, (Some []). split; [done|]. split; [|by intros ? [= <-]].
  split; try done. apply (levels_ok_slots (Some 5%nat) [] s []); [cbn; lia|constructor].
Qed.

Lemma demo_rows_rest :
  exists s c, key_space_rests demo_iter_config (Some 5%nat) demo_record no_transactions s demo_cells demo_histories demo_uniform demo_read (demo_rows c) /\
    ld_last_processed s = 130 /\ ld_min_wal_position s = 0.
Proof.
  destruct demo_flushed_rests as (s & c & Hr & Hm & Hlp & Hp & Hlru). exists s, c. split; [|done]. split.
  - intros cell. eexists. split; [reflexivity|]. cbn. unfold lr_try_entry, lr_find. cbn.
    destruct (decide (CellInteger 0 = cell)) as [<-|Hne].
    + rewrite bool_decide_eq_true_2 by done. cbn. destruct (cell_reachable_inv _ _ _ _ _ demo_key_space_ok Hr) as [es Hi].
      split; [|by eexists _, _, es]. split; [|done]. eexists. by rewrite Hp.
    + rewrite bool_decide_eq_false_2 by done. cbn. split; [split; [by eexists|by eexists]|].
      unfold demo_cells, demo_histories. rewrite bool_decide_eq_false_2 by congruence. destruct (fresh_inv s Hlp) as [es Hi]. by eexists _, _, es.
  - intros cell k Hin. by apply demo_cells_keys.
  - intros k w _. unfold demo_read. by rewrite Hm.
Qed.

Lemma iteration_next_record_witness :
  exists s (c : LiveEntry list_cache) tab' caches' r,
    db_next_entry demo_uniform demo_iter_config no_transactions 3 demo_read 3 3 (demo_rows c) (CellInteger 0) None (Some (CellInteger 1)) false [] None s =
      Ok (s, (tab', caches', Some r)) /\
    iteration_answers demo_record s demo_cells demo_histories false None [CellInteger 0] None r.
Proof.
  destruct demo_rows_rest as (s & c & Hr & _). exists s, c.
  destruct (iteration_next_record demo_iter_config (Some 5%nat) demo_record no_transactions s demo_cells demo_histories demo_cells_universe
    false (Some (CellInteger 1)) None demo_uniform demo_read 3 3 3 (demo_rows c) (CellInteger 0) None [] []) as (tab' & caches' & r & Hn & _ & Ha).
  - exact demo_uniform_ok.
  - intros cell k Hin. by apply (demo_cells_keys cell).
  - exact Hr.
  - apply (ahead_stop _ _ _ (CellInteger 0) (CellInteger 1)); reflexivity.
  - done.
  - constructor.
  - exact I.
  - repeat constructor.
  - repeat constructor.
  - repeat constructor.
  - by exists tab', caches', r.
Defined.

