(* ===== verification/DbIter.v ===== *)
(** * The iterator of a key space

    [DbIterator] (src/tidehunter/src/iterators/db_iterator.rs) over a database or a
    checkpoint: bounds, direction, and the loop that passes over keys outside the
    bounds.  The two sources differ in the frontier given to [next_entry]:
    [None] for the database, the latched one for a checkpoint.

    [next] also returns errors of the source; [next_result] tells them from the
    end. *)

From Stdlib Require Import ZArith Lia List Sorting.Sorted.
From stdpp Require Import base tactics list gmap strings.
From S2P Require Import Prelude BTree Bytes Position Cell Layout KeyShape Flat FlatFacts IndexTable IndexOps IndexTableFacts IndexWalk.
From S2P Require Import IndexPromote IndexFlush IndexUnmerge IndexCodec IndexClean Levels IterCache Loader Flusher FlusherFacts.
From S2P Require Import FlusherShards FlushCommand IndexFormat IndexStore FlushSpec TableEntry LargeTable Snapshot Pending CellOps CellSystem.
From S2P Require Import CellInvariant CellSteps CellReads CellWalk CellCorrect TableIter.

Local Open Scope Z_scope.

(** ** Byte strings next to each other *)

(** The loops of [saturated_decrement_vec] and [saturated_increment_vec], last
    byte first; [None] when every byte wrapped. *)
Fixpoint decrement_rev (bytes : list Z) : option (list Z) :=
  match bytes with
  | [] => None
  | v :: rest => if 1 <=? v then Some (v - 1 :: rest) else option_map (cons 255) (decrement_rev rest)
  end.

Definition saturated_decrement_vec (original_bytes : list Z) : list Z :=
  match decrement_rev (rev original_bytes) with Some b => rev b | None => original_bytes end.

Fixpoint increment_rev (bytes : list Z) : option (list Z) :=
  match bytes with
  | [] => None
  | v :: rest => if v + 1 <=? u8_max then Some (v + 1 :: rest) else option_map (cons 0) (increment_rev rest)
  end.

Definition saturated_increment_vec (original_bytes : list Z) : list Z :=
  match increment_rev (rev original_bytes) with Some b => rev b | None => original_bytes end.

Definition is_nonzero (bytes : list Z) : bool := existsb (fun v => negb (v =? 0)) bytes.

Definition is_nonmax (bytes : list Z) : bool := existsb (fun v => negb (v =? 255)) bytes.

(** ** The iterator *)

Record DbIterator := mkDbIterator {
  di_cell : option CellId;
  di_prev_key : option (list Z);
  di_full_lower_bound : option (list Z);
  di_full_upper_bound : option (list Z);
  di_with_key_reduction : bool;
  di_end_cell_exclusive : option CellId;
  di_reverse : bool;
  di_iter_cache : IterCaches;
}.

Definition assert_supports_iterator_bound (ks : KeySpaceDesc) : outcome unit :=
  match ks_key_indexing ks with
  | Hash => Panic "Key space does not support iterator bounds and reversal because it uses KeyIndexing::Hash"
  | _ => Ok tt
  end.

Definition iter_new (ksd : KeySpaceDesc) : DbIterator :=
  mkDbIterator (Some (first_cell ksd)) None None None (need_check_index_key ksd) None false [].

(** [bool_option b x]: [Some x] when [b]. *)
Definition bool_option {A} (b : bool) (x : A) : option A := if b then Some x else None.

Inductive IteratorAction := ActionSkip | ActionStop.

(** What [next] returns: a record, an error, or the end. *)
Inductive next_result :=
| NextRecord (key value : list Z)
| NextError
| NextEnd.

Definition is_out_of_bound (it : DbIterator) (key : list Z) (reverse : bool) : bool :=
  if reverse then match di_full_lower_bound it with Some lower_bound => kltb key lower_bound | None => false end
  else match di_full_upper_bound it with Some upper_bound => kleb upper_bound key | None => false end.

Definition check_bounds (it : DbIterator) (key : list Z) : option IteratorAction :=
  if di_with_key_reduction it then
    if is_out_of_bound it key (di_reverse it) then Some ActionStop
    else if is_out_of_bound it key (negb (di_reverse it)) then Some ActionSkip
    else None
  else if is_out_of_bound it key (di_reverse it) then Some ActionStop
  else None.

Definition set_caches (it : DbIterator) (caches : IterCaches) : DbIterator :=
  mkDbIterator (di_cell it) (di_prev_key it) (di_full_lower_bound it) (di_full_upper_bound it) (di_with_key_reduction it)
    (di_end_cell_exclusive it) (di_reverse it) caches.

Definition set_cursor (it : DbIterator) (cell : option CellId) (prev_key : option (list Z)) : DbIterator :=
  mkDbIterator cell prev_key (di_full_lower_bound it) (di_full_upper_bound it) (di_with_key_reduction it)
    (di_end_cell_exclusive it) (di_reverse it) (di_iter_cache it).

Definition set_end_cell (it : DbIterator) (end_cell_exclusive : option CellId) : DbIterator :=
  mkDbIterator (di_cell it) (di_prev_key it) (di_full_lower_bound it) (di_full_upper_bound it) (di_with_key_reduction it)
    end_cell_exclusive (di_reverse it) (di_iter_cache it).

Definition set_full_bounds (it : DbIterator) (lower upper : option (list Z)) : DbIterator :=
  mkDbIterator (di_cell it) (di_prev_key it) lower upper (di_with_key_reduction it) (di_end_cell_exclusive it)
    (di_reverse it) (di_iter_cache it).

Definition set_reverse (it : DbIterator) (reverse : bool) : DbIterator :=
  mkDbIterator (di_cell it) (di_prev_key it) (di_full_lower_bound it) (di_full_upper_bound it) (di_with_key_reduction it)
    (di_end_cell_exclusive it) reverse (di_iter_cache it).

Section iterator.
Context (blake2b256 : list Z -> list Z).
Context {T C : Type} `{ValueCache C} {S : Type} `{Loader S} `{CellRows T C}.
Context (ksd : KeySpaceDesc).

Definition set_lower_bound (tab : T) (it : DbIterator) (full_lower_bound : list Z) : outcome DbIterator :=
  let it := set_caches it caches_clear in
  _ ← assert_supports_iterator_bound ksd;
  reduced_lower_bound ← reduce_key blake2b256 (ks_key_indexing ksd) full_lower_bound;
  it ←
    (if di_reverse it then
       bound_cell ← cell_id ksd reduced_lower_bound;
       end_cell_exclusive ← rows_next_cell tab bound_cell true;
       let it := set_end_cell it end_cell_exclusive in
       Ok (match di_full_upper_bound it with None => set_cursor it (Some (last_cell ksd)) None | Some _ => it end)
     else
       let next_key := saturated_decrement_vec reduced_lower_bound in
       cell ← cell_id ksd next_key;
       Ok (set_cursor it (Some cell) (bool_option (is_nonzero next_key || is_nonzero reduced_lower_bound) next_key)));
  Ok (set_full_bounds it (Some full_lower_bound) (di_full_upper_bound it)).

Definition set_upper_bound (tab : T) (it : DbIterator) (full_upper_bound : list Z) : outcome DbIterator :=
  let it := set_caches it caches_clear in
  _ ← assert_supports_iterator_bound ksd;
  reduced_upper_bound ← reduce_key blake2b256 (ks_key_indexing ksd) full_upper_bound;
  it ←
    (if di_reverse it then
       let next_key := if di_with_key_reduction it then saturated_increment_vec reduced_upper_bound else reduced_upper_bound in
       cell ← cell_id ksd next_key;
       Ok (set_cursor it (Some cell) (bool_option (negb (di_with_key_reduction it) || is_nonmax next_key) next_key))
     else
       bound_cell ← cell_id ksd reduced_upper_bound;
       end_cell_exclusive ← rows_next_cell tab bound_cell false;
       Ok (set_end_cell it end_cell_exclusive));
  Ok (set_full_bounds it (di_full_lower_bound it) (Some full_upper_bound)).

Definition iter_reverse (tab : T) (it : DbIterator) : outcome DbIterator :=
  let it := set_caches it caches_clear in
  _ ← assert_supports_iterator_bound ksd;
  let it := set_reverse it (negb (di_reverse it)) in
  let it := match di_full_upper_bound it with None => set_cursor it (Some (last_cell ksd)) (di_prev_key it) | Some _ => it end in
  it ← (match di_full_lower_bound it with
        | Some lower_bound => set_lower_bound tab (set_full_bounds it None (di_full_upper_bound it)) lower_bound
        | None => Ok it
        end);
  match di_full_upper_bound it with
  | Some upper_bound => set_upper_bound tab (set_full_bounds it (di_full_lower_bound it) None) upper_bound
  | None => Ok it
  end.

Context (cfg : IterConfig) (st : status_store) (read_record : WalPosition -> list Z -> option (option (list Z * list Z))).
(** [None] for the database, the latched frontier for a checkpoint. *)
Context (source : option LastProcessed) (walk_fuel table_fuel db_fuel : nat).

(** One attempt: the answer, or why the key is not returned. *)
Definition try_next (tab : T) (it : DbIterator) : LM S (T * DbIterator * (next_result + IteratorAction)) :=
  match di_cell it with
  | None => mret (tab, it, inl NextEnd)
  | Some cell =>
      let prev_key := di_prev_key it in
      let it := set_cursor it None None in
      match (match prev_key with
             | Some k => if negb (di_with_key_reduction it) then check_bounds it k else None
             | None => None
             end) with
      | Some action => mret (tab, it, inr action)
      | None =>
          '(tab, caches, r) ← db_next_entry ksd cfg st walk_fuel read_record db_fuel table_fuel tab cell prev_key
                                (di_end_cell_exclusive it) (di_reverse it) (di_iter_cache it) source;
          let it := set_caches it caches in
          match r with
          | None => mret (tab, it, inl NextError)
          | Some None => mret (tab, it, inl NextEnd)
          | Some (Some (result_cell, key, value)) =>
              reduced ← lift (reduce_key blake2b256 (ks_key_indexing ksd) key);
              let it := set_cursor it (Some result_cell) (Some reduced) in
              match check_bounds it key with
              | Some action => mret (tab, it, inr action)
              | None => mret (tab, it, inl (NextRecord key value))
              end
          end
      end
  end.

(** [Iterator::next] *)
Fixpoint iter_next (fuel : nat) (tab : T) (it : DbIterator) : LM S (T * DbIterator * next_result) :=
  match fuel with
  | O => lift (Panic "out of fuel")
  | Datatypes.S fuel =>
      '(tab, it, r) ← try_next tab it;
      match r with
      | inl r => mret (tab, it, r)
      | inr ActionStop => mret (tab, it, NextEnd)
      | inr ActionSkip => iter_next fuel tab it
      end
  end.

(** A [for] loop over the iterator: the items up to the end, which is not one
    of them. *)
Fixpoint iter_items (fuel next_fuel : nat) (tab : T) (it : DbIterator) : LM S (T * DbIterator * list next_result) :=
  match fuel with
  | O => lift (Panic "out of fuel")
  | Datatypes.S fuel =>
      '(tab, it, r) ← iter_next next_fuel tab it;
      match r with
      | NextEnd => mret (tab, it, [])
      | r => '(tab, it, items) ← iter_items fuel next_fuel tab it; mret (tab, it, r :: items)
      end
  end.
End iterator.

(** ** Neighbours in the order of byte strings *)

Lemma be_val_cmp a b :
  Forall is_u8 a -> Forall is_u8 b -> length a = length b -> bytes_cmp a b = (be_val a ?= be_val b).
Proof.
  intros Ha. revert b. induction Ha as [|x a Hx Ha IH]; intros b Hb Hl; destruct Hb as [|y b Hy Hb]; cbn [length] in Hl; try lia; [done|].
  injection Hl as Hl. cbn [bytes_cmp]. rewrite !be_val_cons, Hl, (IH b Hb Hl). pose proof (be_val_bound a Ha) as Ba. pose proof (be_val_bound b Hb) as Bb.
  rewrite Hl in Ba. set (m := 256 ^ Z.of_nat (length b)) in *.
  destruct (Z.compare_spec x y) as [->|Hlt|Hgt]; symmetry.
  - destruct (Z.compare_spec (be_val a) (be_val b)); [apply Z.compare_eq_iff|apply Z.compare_lt_iff|apply Z.compare_gt_iff]; lia.
  - apply Z.compare_lt_iff. nia.
  - apply Z.compare_gt_iff. nia.
Qed.

Lemma klt_val a b : Forall is_u8 a -> Forall is_u8 b -> length a = length b -> klt a b <-> be_val a < be_val b.
Proof. intros Ha Hb Hl. unfold klt, kcmp, bytes_ord. rewrite be_val_cmp by done. apply Z.compare_lt_iff. Qed.

Lemma kle_val a b : Forall is_u8 a -> Forall is_u8 b -> length a = length b -> kle a b <-> be_val a <= be_val b.
Proof. intros Ha Hb Hl. unfold kle, kcmp, bytes_ord. rewrite be_val_cmp by done. apply Z.compare_le_iff. Qed.

Lemma decrement_rev_val a :
  Forall is_u8 a ->
  match decrement_rev a with
  | Some b => be_val (rev b) = be_val (rev a) - 1 /\ length b = length a /\ Forall is_u8 b
  | None => be_val (rev a) = 0
  end.
Proof.
  induction 1 as [|v a Hv Ha IH]; [done|]. cbn [decrement_rev rev]. unfold is_u8 in Hv. destruct (Z.leb_spec 1 v).
  - cbn [rev]. rewrite !be_val_snoc. split_and!; [lia|done|]. constructor; [unfold is_u8; lia|done].
  - destruct (decrement_rev a) as [c|]; cbn [option_map rev]; rewrite !be_val_snoc.
    + destruct IH as (Hc & Hl & Hf). split_and!; [lia|cbn; lia|]. constructor; [done|done].
    + lia.
Qed.

Lemma increment_rev_val a :
  Forall is_u8 a ->
  match increment_rev a with
  | Some b => be_val (rev b) = be_val (rev a) + 1 /\ length b = length a /\ Forall is_u8 b
  | None => Forall (fun v => v = 255) a
  end.
Proof.
  induction 1 as [|v a Hv Ha IH]; [constructor|]. cbn [increment_rev rev]. unfold is_u8 in *. assert (u8_max = 255) as Hm by done. destruct (Z.leb_spec (v + 1) u8_max).
  - cbn [rev]. rewrite !be_val_snoc. split_and!; [lia|done|]. constructor; [lia|done].
  - destruct (increment_rev a) as [c|]; cbn [option_map rev]; rewrite ?be_val_snoc.
    + destruct IH as (Hc & Hl & Hf). split_and!; [lia|cbn; lia|]. constructor; [lia|done].
    + constructor; [lia|done].
Qed.

Lemma is_nonzero_val b : Forall is_u8 b -> is_nonzero b = false <-> be_val b = 0.
Proof.
  intros Hb. unfold is_nonzero. induction Hb as [|v b Hv Hb IH]; [done|]. cbn [existsb]. rewrite be_val_cons.
  pose proof (be_val_bound b Hb). pose proof (Z.pow_pos_nonneg 256 (Z.of_nat (length b)) ltac:(lia) ltac:(lia)). unfold is_u8 in Hv.
  destruct (Z.eqb_spec v 0) as [->|]; cbn [negb orb]; [rewrite IH; lia|]. split; [done|]. nia.
Qed.

(** The bound's predecessor: of the same length, and nothing of that length lies
    between the two. *)
Lemma decrement_ok b :
  Forall is_u8 b ->
  let p := saturated_decrement_vec b in
  Forall is_u8 p /\ length p = length b /\
  (is_nonzero b = true -> be_val p = be_val b - 1 /\ forall k, Forall is_u8 k -> length k = length b -> klt p k <-> kle b k) /\
  (is_nonzero b = false -> p = b).
Proof.
  intros Hb p. subst p. unfold saturated_decrement_vec. assert (Forall is_u8 (rev b)) as Hr by (by apply Forall_rev).
  pose proof (decrement_rev_val (rev b) Hr) as Hd. rewrite rev_involutive in Hd. pose proof (is_nonzero_val b Hb) as Hz.
  destruct (decrement_rev (rev b)) as [c|].
  - destruct Hd as (Hv & Hl & Hf). rewrite length_rev in Hl. assert (Forall is_u8 (rev c)) as Hc by (by apply Forall_rev).
    split_and!; [done|by rewrite length_rev| |].
    + intros _. split; [done|]. intros k Hk Hlk. rewrite klt_val, kle_val by (rewrite ?length_rev; done || lia). lia.
    + intros E%Hz. pose proof (be_val_bound (rev c) Hc). lia.
  - split_and!; [done|done| |done]. intros E. apply Hz in Hd. congruence.
Qed.

(** ** Iterating a key space whose index holds full keys *)

Section iterates.
Context (blake2b256 : list Z -> list Z).
Context {T C : Type} `{ValueCache C} `{!ValueCacheSpec C} {S : Type} `{Loader S} `{CellRows T C} `{!CellRowsSpec T C}.
Context (cfg : IterConfig) (ks : option nat) (record_at : list Z -> WalPosition -> list Z * list Z) (st : status_store) (s : S).
Context (U : CellId -> list (list Z)) (hist : CellId -> list entry) (Hu : forall cell, universe_ok ks (U cell)).
Context (ksd : KeySpaceDesc) (Hks : ks_ok ksd) (Hplain : forall k, reduce_key blake2b256 (ks_key_indexing ksd) k = Ok k).
Context (Hkeys : forall cell k, In k (U cell) -> key_ok ksd k).
Context (Hfull : forall k w, (record_at k w).1 = k).
Context (read_record : WalPosition -> list Z -> option (option (list Z * list Z))) (source : option LastProcessed).
Context (Hsource : frontier_asked s source).
Notation rests := (key_space_rests cfg ks record_at st s U hist ksd read_record).
Notation floor := (ld_min_wal_position s).
Notation newest cell := (fun k => newest_at (walk_frontier source) k (hist cell)).

(** A key the iterator does not stop at. *)
Definition within (it : DbIterator) (k : list Z) : Prop := is_out_of_bound it k (di_reverse it) = false.

(** Keys past a key outside the bound are outside. *)
Lemma within_closed it k k' :
  not_after (direction_from_bool (di_reverse it)) k k' -> within it k' -> within it k.
Proof.
  unfold within, is_out_of_bound. destruct (di_reverse it); cbn.
  - destruct (di_full_lower_bound it) as [l|]; [|done]. intros Hle. destruct (kltb_spec k' l) as [|Hge]; [done|].
    destruct (kltb_spec k l) as [Hlt|]; [|done]. intros _. exfalso. apply Hge. by eapply kle_lt_trans.
  - destruct (di_full_upper_bound it) as [u|]; [|done]. intros Hle. destruct (kleb_spec u k') as [|Hge]; [done|].
    destruct (kleb_spec u k) as [Hlt|]; [|done]. intros _. exfalso. apply Hge. by eapply kle_trans.
Qed.

(** What the iterator has yet to return: the visible keys of [cells] past
    [prev], nearest first, each with its newest record. *)
Fixpoint enumerates (it : DbIterator) (cells : list CellId) (prev : option (list Z)) (items : list next_result) : Prop :=
  let d := direction_from_bool (di_reverse it) in
  match items with
  | [] => forall c k, In c cells -> past prev d k -> within it k -> visible floor (newest c k) = None
  | NextRecord k value :: items =>
      (exists c p, In c cells /\ In k (U c) /\ newest c k = Some p /\ is_removed p = false /\ record_at k (into_wal_position p) = (k, value)) /\
      past prev d k /\ within it k /\
      (forall c k', In c cells -> past prev d k' -> within it k' -> is_Some (visible floor (newest c k')) -> not_after d k k') /\
      enumerates it cells (Some k) items
  | _ => False
  end.

Lemma enumerates_incl it cells cells' prev items :
  incl cells cells' ->
  (forall c k, In c cells' -> past prev (direction_from_bool (di_reverse it)) k -> is_Some (visible floor (newest c k)) -> In c cells) ->
  enumerates it cells prev items -> enumerates it cells' prev items.
Proof.
  intros Hi. revert prev. induction items as [|r items IH]; intros prev Hc; cbn [enumerates].
  - intros Hn c k Hin Hp Hw. destruct (visible floor (newest c k)) as [w|] eqn:E; [|done]. rewrite <- E. apply (Hn c k); [|done|done].
    apply (Hc c k); [done|done|by rewrite E].
  - destruct r as [k v| |]; [|done|done]. intros ((c & p & Hin & Hp) & Hpast & Hw & Hm & Hrest). split_and!; [exists c, p; auto|done|done| |].
    + intros c' k' Hin' Hp' Hw' Hv. by apply (Hm c' k'); [apply (Hc c' k')|..].
    + apply IH; [|done]. intros c' k' Hin' Hp'. apply (Hc c' k'); [done|]. by eapply past_trans.
Qed.

(** The iterator stands in [cell], at [prev], and [cs] are the cells ahead. *)
Record iter_at (tab : T) (it : DbIterator) (cell : CellId) (prev : option (list Z)) (cs : list CellId) : Prop := mkIterAt {
  ia_cell : di_cell it = Some cell;
  ia_prev : di_prev_key it = prev;
  ia_reduction : di_with_key_reduction it = false;
  ia_key : forall k, prev = Some k -> In k (U cell);
  ia_ahead : cells_ahead (di_reverse it) (di_end_cell_exclusive it) tab cell cs;
  ia_caches : caches_warm ks (U cell) s (di_iter_cache it);
}.

(** Same bounds and direction. *)
Definition same_bounds (it it' : DbIterator) : Prop :=
  di_full_lower_bound it' = di_full_lower_bound it /\ di_full_upper_bound it' = di_full_upper_bound it /\ di_reverse it' = di_reverse it.

Lemma check_bounds_fixed it k : di_with_key_reduction it = false -> check_bounds it k = if is_out_of_bound it k (di_reverse it) then Some ActionStop else None.
Proof. unfold check_bounds. by intros ->. Qed.

(** One call of [next]. *)
Lemma iter_next_ok walk_fuel table_fuel db_fuel fuel tab it cell prev cs :
  rests tab -> iter_at tab it cell prev cs -> Forall (fun c => length (U c) < walk_fuel)%nat (cell :: cs) ->
  (steps_left U (di_reverse it) cell prev cs <= table_fuel)%nat -> (steps_left U (di_reverse it) cell prev cs <= db_fuel)%nat ->
  let d := direction_from_bool (di_reverse it) in
  exists tab' it' r,
    iter_next blake2b256 ksd cfg st read_record source walk_fuel table_fuel db_fuel (Datatypes.S fuel) tab it s = Ok (s, (tab', it', r)) /\
    rests tab' /\
    match r with
    | NextRecord k value =>
        exists c p cs', In c (cell :: cs) /\ In k (U c) /\ past prev d k /\ within it k /\
          newest c k = Some p /\ is_removed p = false /\ record_at k (into_wal_position p) = (k, value) /\
          (forall c' k', In c' (cell :: cs) -> past prev d k' -> is_Some (visible floor (newest c' k')) -> not_after d k k') /\
          iter_at tab' it' c (Some k) cs' /\ same_bounds it it' /\ incl (c :: cs') (cell :: cs) /\
          (steps_left U (di_reverse it) c (Some k) cs' < steps_left U (di_reverse it) cell prev cs)%nat /\
          forall c', In c' (cell :: cs) -> In c' (c :: cs') \/ cell_id_cmp c' c = Ok (if di_reverse it then Gt else Lt)
    | NextError => False
    | NextEnd => forall c' k', In c' (cell :: cs) -> past prev d k' -> within it k' -> visible floor (newest c' k') = None
    end.
Proof.
  intros Hr [Hcell Hprev Hred Hkey Ha Hc] Hwf Htf Hdf d. cbn [iter_next]. unfold try_next, mbind, LM_bind. rewrite Hcell, Hprev.
  cbn [set_cursor di_with_key_reduction]. rewrite Hred. cbn [negb].
  assert (forall k, check_bounds (set_cursor it None None) k = check_bounds it k) as Hcb by done.
  destruct (match prev with Some k => check_bounds (set_cursor it None None) k | None => None end) as [act|] eqn:Ecb.
  { destruct prev as [k|]; [|done]. rewrite Hcb, check_bounds_fixed in Ecb by done.
    destruct (is_out_of_bound it k (di_reverse it)) eqn:Eo; [|done]. injection Ecb as <-. eexists _, _, _. split; [reflexivity|]. split; [done|].
    intros c' k' _ Hp Hw. exfalso. assert (within it k) as Hwk by (by eapply within_closed; [apply past_not_after|]). unfold within in Hwk. congruence. }
  destruct Hr as [Ht Hkm Hrr]. cbn [set_cursor di_end_cell_exclusive di_reverse di_iter_cache].
  destruct (db_next_entry_ok cfg ks record_at st s U hist Hu (di_reverse it) (di_end_cell_exclusive it) source ksd read_record
    walk_fuel table_fuel db_fuel tab cell prev (di_iter_cache it) cs Hrr Hkm Ht Ha Hkey Hc Hsource Hwf Htf Hdf)
    as (tab' & caches' & r & Hres & Ht' & Hso & Hans & Hwarm).
  rewrite Hres. cbv beta iota.
  pose proof (record_iteration cfg ks record_at st s U hist (di_reverse it) (di_end_cell_exclusive it) source ksd Hks Hkeys
    tab cell prev cs r Hkm Ht Hsource Hkey Ha Hans) as Hit.
  destruct r as [[[c fk] v]|].
  2:{ eexists _, _, _. split; [reflexivity|]. split; [by split|]. intros c' k' Hin Hp _. by apply Hit. }
  destruct Hit as (k & p & Hin & Hku & Hp & Hnew & Hrm & Hrec & Hm).
  assert (fk = k) as -> by (pose proof (Hfull k (into_wal_position p)) as E; rewrite Hrec in E; done).
  rewrite Hplain. unfold lift. cbn [mret outcome_ret]. cbv beta iota.
  rewrite check_bounds_fixed by done. cbn [set_cursor set_caches di_reverse].
  assert (forall x r0, is_out_of_bound (set_cursor (set_caches (set_cursor it None None) caches') (Some c) (Some k)) x r0 = is_out_of_bound it x r0) as Hob by done.
  destruct (ahead_from U (di_reverse it) (di_end_cell_exclusive it) tab' cell prev cs c k) as (cs' & Ha' & Hi & Hs & Hb);
    [by eapply cells_ahead_same|done|done|done|].
  destruct (is_out_of_bound _ k (di_reverse it)) eqn:Eo.
  - eexists _, _, _. split; [reflexivity|]. split; [by split|]. intros c' k' Hin' Hp' Hw.
    destruct (visible floor (newest c' k')) as [w|] eqn:E; [|done]. exfalso.
    assert (within it k) as Hwk by (eapply within_closed; [|exact Hw]; apply (Hm c' k'); [done|done|by rewrite E]).
    unfold within in Hwk. rewrite Hob in Eo. congruence.
  - eexists _, _, _. split; [reflexivity|]. split; [by split|]. exists c, p, cs'. split_and!; try done.
    split; cbn [di_cell di_prev_key di_with_key_reduction di_reverse di_end_cell_exclusive di_iter_cache set_cursor set_caches]; try done.
    by intros ? [= <-].
Qed.

Lemma enumerates_same it it' cells prev items : same_bounds it it' -> enumerates it' cells prev items -> enumerates it cells prev items.
Proof.
  intros (Hl & Hup & Hrev). assert (forall k, within it' k <-> within it k) as Hw.
  { intros k. unfold within, is_out_of_bound. by rewrite Hl, Hup, Hrev. }
  revert prev. induction items as [|r items IH]; intros prev; cbn [enumerates]; rewrite Hrev.
  - intros Hn c k Hc Hp Hk. apply Hn; [done|done|by apply Hw].
  - destruct r as [k v| |]; [|done|done]. intros (He & Hp & Hk & Hm & Hrest). split_and!; [done|done|by apply Hw| |by apply IH].
    intros c k' Hc Hp' Hk'. apply Hm; [done|done|by apply Hw].
Qed.

Lemma past_asym dd (a b : list Z) : past (Some a) dd b -> past (Some b) dd a -> False.
Proof. destruct dd; cbn; intros Hab Hba; by apply (klt_asym _ _ Hab). Qed.

(** The whole loop. *)
Lemma iter_items_ok walk_fuel table_fuel db_fuel next_fuel fuel tab it cell prev cs :
  rests tab -> iter_at tab it cell prev cs -> Forall (fun c => length (U c) < walk_fuel)%nat (cell :: cs) ->
  (steps_left U (di_reverse it) cell prev cs <= table_fuel)%nat -> (steps_left U (di_reverse it) cell prev cs <= db_fuel)%nat ->
  (steps_left U (di_reverse it) cell prev cs <= fuel)%nat ->
  exists tab' it' items,
    iter_items blake2b256 ksd cfg st read_record source walk_fuel table_fuel db_fuel fuel (Datatypes.S next_fuel) tab it s =
      Ok (s, (tab', it', items)) /\
    rests tab' /\ enumerates it (cell :: cs) prev items.
Proof.
  revert tab it cell prev cs. induction fuel as [|fuel IH]; intros tab it cell prev cs Hr Hat Hwf Htf Hdf Hf.
  { destruct cs; cbn [steps_left] in Hf; lia. }
  destruct (iter_next_ok walk_fuel table_fuel db_fuel next_fuel tab it cell prev cs Hr Hat Hwf Htf Hdf) as (tab1 & it1 & r & Hn & Hr1 & Hres).
  cbn [iter_items]. unfold mbind, LM_bind. rewrite Hn. cbv beta iota. destruct r as [k v| |]; [|done|].
  2:{ exists tab1, it1, []. split; [done|]. split; [done|]. cbn [enumerates]. exact Hres. }
  destruct Hres as (c & p & cs' & Hin & Hku & Hp & Hw & Hnew & Hrm & Hrec & Hm & Hat1 & Hsb & Hi & Hs & Hb).
  pose proof Hsb as (_ & _ & Hrev). rewrite <- Hrev in Hs.
  destruct (IH tab1 it1 c (Some k) cs' Hr1 Hat1) as (tab2 & it2 & items & Hres & Hr2 & He).
  { rewrite List.Forall_forall in *. intros x Hx. by apply Hwf, Hi. }
  { rewrite Hrev in *. lia. }
  { rewrite Hrev in *. lia. }
  { rewrite Hrev in *. lia. }
  rewrite Hres. cbv beta iota. exists tab2, it2, (NextRecord k v :: items). split; [done|]. split; [done|]. cbn [enumerates].
  split_and!; [by exists c, p|done|done| |].
  - intros c' k' Hc' Hp' _ Hv. by apply (Hm c' k').
  - apply (enumerates_same it it1) in He; [|done]. revert He. apply enumerates_incl; [done|]. intros c' k' Hc' Hp' Hv.
    destruct (Hb c' Hc') as [|Hbefore]; [done|]. exfalso. destruct Hr as [Ht Hkm _].
    assert (In k' (U c')) as Hk' by (eapply (visible_within cfg ks record_at st s U hist source tab); [exact Ht|done|exact Hv]).
    assert (past (Some k') (direction_from_bool (di_reverse it)) k) as Hback.
    { eapply (cells_keys_ordered U (di_reverse it) ksd Hks); [|exact Hkm|exact Hk'|exact Hku|exact Hbefore].
      exact Hkeys. }
    by eapply past_asym.
Qed.

(** A list of records, in the order of the direction. *)
Definition follows (d : Direction) (a b : next_result) : Prop :=
  match a, b with NextRecord k _, NextRecord k' _ => past (Some k) d k' | _, _ => False end.

(** The record of the newest write of a live key of the range. *)
Definition live_item (P : list Z -> Prop) (r : next_result) : Prop :=
  exists k value c p, r = NextRecord k value /\ In k (U c) /\ P k /\
    newest c k = Some p /\ is_removed p = false /\ record_at k (into_wal_position p) = (k, value).

Lemma enumerates_sound it cells prev items :
  enumerates it cells prev items ->
  Forall (live_item (fun k => past prev (direction_from_bool (di_reverse it)) k /\ within it k)) items /\
  StronglySorted (follows (direction_from_bool (di_reverse it))) items.
Proof.
  revert prev. induction items as [|r items IH]; intros prev; cbn [enumerates]; [split; constructor|].
  destruct r as [k v| |]; [|done|done]. intros ((c & p & Hc & Hk & Hp) & Hpast & Hw & _ & Hrest). destruct (IH (Some k) Hrest) as [Hf Hs].
  split; constructor.
  - by exists k, v, c, p.
  - eapply Forall_impl; [exact Hf|]. cbv beta. intros r (k' & v' & c' & p' & -> & Hk' & [Hp' Hw'] & Hrest'). exists k', v', c', p'.
    split; [done|]. split; [done|]. split; [|done]. split; [by eapply past_trans|done].
  - done.
  - eapply Forall_impl; [exact Hf|]. cbv beta. intros r (k' & v' & c' & p' & -> & _ & [Hp' _] & _). done.
Qed.

Lemma enumerates_complete it cells prev items c k :
  enumerates it cells prev items -> In c cells -> past prev (direction_from_bool (di_reverse it)) k -> within it k ->
  is_Some (visible floor (newest c k)) -> exists value, In (NextRecord k value) items.
Proof.
  intros He Hc Hp Hw Hv. revert prev He Hp. induction items as [|r items IH]; intros prev; cbn [enumerates].
  - intros Hn Hp. specialize (Hn c k Hc Hp Hw). cbv beta in *. rewrite Hn in Hv. by destruct Hv.
  - destruct r as [k0 v| |]; [|done|done]. intros (_ & _ & _ & Hm & Hrest) Hp. destruct (decide (k0 = k)) as [->|Hne]; [exists v; by left|].
    destruct (IH (Some k0) Hrest) as [value Hin]; [|exists value; by right]. apply not_after_past; [|done]. by apply (Hm c k).
Qed.

(** ** The bounds *)

(** Every cell with a history is reached, in both directions. *)
Definition rows_complete (tab : T) : Prop :=
  forall c x reverse, cell_ok ksd c -> hist x <> [] -> cell_id_cmp c x = Ok (if (reverse : bool) then Gt else Lt) ->
    exists c', rows_next_cell tab c reverse = Ok (Some c') /\ cell_ok ksd c' /\ (c' = x \/ cell_id_cmp c' x = Ok (if reverse then Gt else Lt)).

(** A cell with a history that is not before the start nor past the end is among
    the cells ahead. *)
Lemma ahead_reaches reverse end_cell tab cell cs x :
  rows_complete tab -> cell_ok ksd cell -> cells_ahead reverse end_cell tab cell cs -> hist x <> [] ->
  cell = x \/ cell_id_cmp cell x = Ok (if reverse then Gt else Lt) ->
  (forall e, end_cell = Some e -> cell_id_cmp x e = Ok (if reverse then Gt else Lt)) -> In x (cell :: cs).
Proof.
  intros Hrc Hco Ha Hx. revert Hco. induction Ha as [c Hn|c c' Hn Hst|c c' cs Hn Hst Ha IH]; intros Hco [->|Hb] He; try (by left);
    destruct (Hrc c x reverse Hco Hx Hb) as (c2 & Hn' & Hco' & Hle).
  - congruence.
  - exfalso. assert (c2 = c') as -> by congruence. unfold past_end in Hst. destruct end_cell as [e|]; [|done]. specialize (He e eq_refl).
    assert (cell_id_cmp c' e = Ok (if reverse then Gt else Lt)) as Hce.
    { destruct Hle as [->|Hle]; [done|]. eapply (cell_id_cmp_trans c' x e); [by destruct reverse|done|done]. }
    rewrite Hce in Hst. cbn in Hst. by destruct reverse.
  - right. assert (c2 = c') as -> by congruence. apply IH; [done| |done]. destruct Hle as [->|Hle]; [by left|by right].
Qed.

(** The cells of two keys of the key space, in the order of the keys. *)
Lemma cells_le a b ca cb :
  key_ok ksd a -> key_ok ksd b -> kle a b -> cell_id ksd a = Ok ca -> cell_id ksd b = Ok cb -> ca = cb \/ cell_id_cmp ca cb = Ok Lt.
Proof.
  intros Ha Hb Hle Eca Ecb. destruct (cell_order ksd a b Hks Ha Hb) as (a' & b' & o & Ea & Eb & Eo & Ho & _).
  rewrite Eca in Ea. rewrite Ecb in Eb. injection Ea as <-. injection Eb as <-. specialize (Ho Hle).
  destruct o; [left; by apply cell_id_cmp_eq|by right|done].
Qed.

Lemma cell_cmp_gt a b : cell_id_cmp a b = Ok Lt -> cell_id_cmp b a = Ok Gt.
Proof. apply cell_id_cmp_opp. Qed.
End iterates.

Definition in_range (l u k : list Z) : Prop := kle l k /\ klt k u.

(** ** Ranges of a key space of fixed-size keys *)

Section ranged.
Context (blake2b256 : list Z -> list Z).
Context {T C : Type} `{ValueCache C} `{!ValueCacheSpec C} {S : Type} `{Loader S} `{CellRows T C} `{!CellRowsSpec T C}.
Context (cfg : IterConfig) (ks : option nat) (record_at : list Z -> WalPosition -> list Z * list Z) (st : status_store) (s : S).
Context (U : CellId -> list (list Z)) (hist : CellId -> list entry) (Hu : forall cell, universe_ok ks (U cell)).
Context (ksd : KeySpaceDesc) (n : nat) (Hks : ks_ok ksd) (Hfixed : ks_key_indexing ksd = Fixed n).
Context (Hkeys : forall cell k, In k (U cell) -> key_ok ksd k /\ length k = n).
(** The index holds full keys. *)
Context (Hfull : forall k w, (record_at k w).1 = k).
Context (read_record : WalPosition -> list Z -> option (option (list Z * list Z))) (source : option LastProcessed).
Context (Hsource : frontier_asked s source).
Notation rests := (key_space_rests cfg ks record_at st s U hist ksd read_record).
Notation floor := (ld_min_wal_position s).
Notation newest cell := (fun k => newest_at (walk_frontier source) k (hist cell)).
Notation live_item := (live_item record_at U hist source).
Notation rows_complete := (rows_complete hist ksd).
Notation cells_le := (cells_le ksd Hks).

Lemma fixed_plain k : reduce_key blake2b256 (ks_key_indexing ksd) k = Ok k.
Proof. by rewrite Hfixed. Qed.

Lemma fixed_keys cell k : In k (U cell) -> key_ok ksd k.
Proof. apply Hkeys. Qed.

(** An iterator over [l, u), forwards or backwards. *)
Definition ranged_iterator (tab : T) (l u : list Z) (reverse : bool) : outcome DbIterator :=
  it ← set_lower_bound blake2b256 ksd tab (iter_new ksd) l;
  it ← set_upper_bound blake2b256 ksd tab it u;
  if reverse then iter_reverse blake2b256 ksd tab it else Ok it.

Lemma need_check_fixed : need_check_index_key ksd = false.
Proof. unfold need_check_index_key. by rewrite Hfixed. Qed.

(** The bounds, one at a time. *)
Lemma set_lower_forward tab it l :
  di_reverse it = false ->
  set_lower_bound blake2b256 ksd tab it l =
    (cell ← cell_id ksd (saturated_decrement_vec l);
     Ok (mkDbIterator (Some cell) (bool_option (is_nonzero (saturated_decrement_vec l) || is_nonzero l) (saturated_decrement_vec l))
           (Some l) (di_full_upper_bound it) (di_with_key_reduction it) (di_end_cell_exclusive it) false [])).
Proof.
  destruct it. cbn [di_reverse]. intros ->. unfold set_lower_bound, assert_supports_iterator_bound. rewrite Hfixed. cbn [reduce_key].
  cbn [mbind outcome_bind set_caches di_reverse]. by destruct (cell_id ksd (saturated_decrement_vec l)).
Qed.

Lemma set_upper_forward tab it u :
  di_reverse it = false ->
  set_upper_bound blake2b256 ksd tab it u =
    (cell ← cell_id ksd u; e ← rows_next_cell tab cell false;
     Ok (mkDbIterator (di_cell it) (di_prev_key it) (di_full_lower_bound it) (Some u) (di_with_key_reduction it) e false [])).
Proof.
  destruct it. cbn [di_reverse]. intros ->. unfold set_upper_bound, assert_supports_iterator_bound. rewrite Hfixed. cbn [reduce_key].
  cbn [mbind outcome_bind set_caches di_reverse]. destruct (cell_id ksd u) as [c|]; [|done]. cbn [mbind outcome_bind].
  by destruct (rows_next_cell tab c false).
Qed.

Lemma iter_reverse_ranged tab it l u :
  di_full_lower_bound it = Some l -> di_full_upper_bound it = Some u -> di_reverse it = false -> di_with_key_reduction it = false ->
  iter_reverse blake2b256 ksd tab it =
    (cl ← cell_id ksd l; e ← rows_next_cell tab cl true; cu ← cell_id ksd u;
     Ok (mkDbIterator (Some cu) (Some u) (Some l) (Some u) false e true [])).
Proof.
  destruct it. cbn [di_reverse di_full_lower_bound di_full_upper_bound di_with_key_reduction]. intros -> -> -> ->.
  unfold iter_reverse, set_lower_bound, set_upper_bound, assert_supports_iterator_bound. rewrite Hfixed. cbn [reduce_key].
  cbn [mbind outcome_bind set_caches set_reverse set_full_bounds di_reverse di_full_upper_bound di_full_lower_bound negb].
  destruct (cell_id ksd l) as [cl|]; [|done]. cbn [mbind outcome_bind]. destruct (rows_next_cell tab cl true) as [e|]; [|done].
  cbn [mbind outcome_bind set_end_cell set_full_bounds set_caches set_reverse di_full_upper_bound di_full_lower_bound di_reverse
    di_with_key_reduction negb orb bool_option].
  by destruct (cell_id ksd u).
Qed.

(** The iterator the bounds make. *)
Lemma ranged_fields tab l u reverse it :
  ranged_iterator tab l u reverse = Ok it ->
  exists cu, cell_id ksd u = Ok cu /\
    if reverse then exists cl el, cell_id ksd l = Ok cl /\ rows_next_cell tab cl true = Ok el /\
      it = mkDbIterator (Some cu) (Some u) (Some l) (Some u) false el true []
    else exists c0 eu, cell_id ksd (saturated_decrement_vec l) = Ok c0 /\ rows_next_cell tab cu false = Ok eu /\
      it = mkDbIterator (Some c0) (bool_option (is_nonzero (saturated_decrement_vec l) || is_nonzero l) (saturated_decrement_vec l))
             (Some l) (Some u) false eu false [].
Proof.
  unfold ranged_iterator. intros (it1 & Hl & Hit)%outcome_bind_ok. apply outcome_bind_ok in Hit as (it2 & Hup & Hit).
  rewrite set_lower_forward in Hl by done. apply outcome_bind_ok in Hl as (c0 & Hc0 & Hl). injection Hl as <-.
  rewrite set_upper_forward in Hup by done. apply outcome_bind_ok in Hup as (cu & Hcu & Hup). apply outcome_bind_ok in Hup as (eu & Heu & Hup).
  injection Hup as <-. exists cu. split; [done|].
  cbn [di_full_lower_bound di_full_upper_bound di_with_key_reduction di_cell di_prev_key iter_new di_end_cell_exclusive] in Hit.
  rewrite need_check_fixed in Hit. destruct reverse.
  - rewrite (iter_reverse_ranged tab _ l u) in Hit by done. apply outcome_bind_ok in Hit as (cl & Hcl & Hit).
    apply outcome_bind_ok in Hit as (el & Hel & Hit). apply outcome_bind_ok in Hit as (cu' & Hcu' & Hit). injection Hit as <-.
    exists cl, el. split_and!; [done|done|]. congruence.
  - injection Hit as <-. by exists c0, eu.
Qed.

(** The cursor and the end of the bounds: a key is past the one and not past the
    other exactly in the range. *)
Lemma ranged_keys tab l u reverse it k :
  Forall is_u8 l -> length l = n -> Forall is_u8 k -> length k = n -> ranged_iterator tab l u reverse = Ok it ->
  past (di_prev_key it) (direction_from_bool reverse) k /\ within it k <-> in_range l u k.
Proof.
  intros Hl8 Hln Hk8 Hkn (cu & _ & Hit)%ranged_fields. unfold within, is_out_of_bound, in_range. destruct reverse.
  - destruct Hit as (cl & el & _ & _ & ->). cbn. destruct (kltb_spec k l) as [Hlt|Hge]; split.
    + by intros [_ ?].
    + intros [Hle _]. exfalso. by apply kle_not_lt in Hle.
    + intros [Hpu _]. split; [by apply kle_not_lt|done].
    + by intros [_ Hpu].
  - destruct Hit as (c0 & eu & _ & _ & ->). cbn. destruct (decrement_ok l Hl8) as (_ & _ & Hdnz & Hdz). set (p := saturated_decrement_vec l) in *.
    assert (past (bool_option (is_nonzero p || is_nonzero l) p) Forward k <-> kle l k) as Hpast.
    { destruct (is_nonzero l) eqn:Ez.
      - rewrite orb_true_r. cbn. apply Hdnz; [done|done|lia].
      - rewrite (Hdz eq_refl), Ez. cbn. split; [|done]. intros _. apply kle_val; [done|done|lia|].
        rewrite (proj1 (is_nonzero_val l Hl8) Ez). by apply be_val_bound. }
    cbn in Hpast. rewrite Hpast. destruct (kleb_spec u k) as [Hle|Hnle]; split.
    + by intros [_ ?].
    + intros [_ Hlt]. exfalso. by apply kle_not_lt in Hle.
    + intros [Hle _]. split; [done|]. destruct (kltb_spec k u) as [|Hn]; [done|]. exfalso. apply Hnle. by apply kle_not_lt.
    + by intros [Hle _].
Qed.

(** A cell with a key of the range is not before the start nor past the end. *)
Lemma ranged_cells tab l u reverse it cell k c :
  Forall is_u8 l -> length l = n -> Forall is_u8 u -> length k = n -> ranged_iterator tab l u reverse = Ok it -> di_cell it = Some cell ->
  key_ok ksd k -> in_range l u k -> cell_id ksd k = Ok c ->
  (cell = c \/ cell_id_cmp cell c = Ok (if reverse then Gt else Lt)) /\
  forall e, di_end_cell_exclusive it = Some e -> cell_id_cmp c e = Ok (if reverse then Gt else Lt).
Proof.
  intros Hl8 Hln Hu8 Hkn (cu & Hcu & Hit)%ranged_fields Hcell Hk [Hlk Hku] Hc.
  assert (kle k u) as Hku' by (apply kle_iff; by left). assert (key_ok ksd u) as Huk by (by eapply cell_id_key_ok).
  pose proof (cells_le k u c cu Hk Huk Hku' Hc Hcu) as Hcc. destruct reverse.
  - destruct Hit as (cl & el & Hcl & Hel & ->). injection Hcell as <-. assert (key_ok ksd l) as Hlk' by (by eapply cell_id_key_ok). split.
    + destruct Hcc as [->|Hcc]; [by left|right; by apply cell_cmp_gt].
    + intros e [= ->]. apply rows_next_after in Hel. destruct (cells_le l k cl c Hlk' Hk Hlk Hcl Hc) as [->|Hlc]; [done|].
      by eapply (cell_id_cmp_trans c cl); [|apply cell_cmp_gt|].
  - destruct Hit as (c0 & eu & Hc0 & Heu & ->). injection Hcell as <-. destruct (decrement_ok l Hl8) as (Hd8 & Hdl & Hdnz & Hdz).
    set (p := saturated_decrement_vec l) in *. assert (key_ok ksd p) as Hpk by (by eapply cell_id_key_ok). split.
    + apply (cells_le p k); try done. destruct Hk as [Hk8 _]. apply kle_val; [done|done|lia|]. apply kle_val in Hlk; [|done|done|lia].
      destruct (is_nonzero l) eqn:Ez; [destruct (Hdnz eq_refl); lia|]. by rewrite (Hdz eq_refl).
    + intros e [= ->]. apply rows_next_after in Heu. destruct Hcc as [->|Hcc]; [done|]. by eapply (cell_id_cmp_trans c cu).
Qed.

(** C12. Iterating a range returns exactly its live keys, in order.  On a key
    space of fixed-size keys at rest, a [DbIterator] with a lower and an upper
    bound, reversed or not, over the database or a checkpoint, runs to its end
    without an error or a panic; the records it returns are newest records of
    live keys of [lower, upper), strictly ascending (descending when reversed),
    and every key of the range with a visible write is among them. *)
Theorem ranged_iteration_exact (tab : T) (l u : list Z) (reverse : bool) (it : DbIterator) (cell : CellId) (cs : list CellId)
    (walk_fuel table_fuel db_fuel next_fuel fuel : nat) :
  rests tab -> rows_complete tab -> Forall is_u8 l -> length l = n -> Forall is_u8 u ->
  ranged_iterator tab l u reverse = Ok it -> di_cell it = Some cell -> cells_ahead reverse (di_end_cell_exclusive it) tab cell cs ->
  (forall k, di_prev_key it = Some k -> In k (U cell)) -> Forall (fun c => length (U c) < walk_fuel)%nat (cell :: cs) ->
  (steps_left U reverse cell (di_prev_key it) cs <= table_fuel)%nat -> (steps_left U reverse cell (di_prev_key it) cs <= db_fuel)%nat ->
  (steps_left U reverse cell (di_prev_key it) cs <= fuel)%nat ->
  exists tab' it' items,
    iter_items blake2b256 ksd cfg st read_record source walk_fuel table_fuel db_fuel fuel (Datatypes.S next_fuel) tab it s =
      Ok (s, (tab', it', items)) /\
    Forall (live_item (in_range l u)) items /\ StronglySorted (follows (direction_from_bool reverse)) items /\
    forall c k w, in_range l u k -> visible floor (newest c k) = Some w -> exists value, In (NextRecord k value) items.
Proof.
  intros Hr Hrc Hl8 Hln Hu8 Hit Hcell Ha Hk Hwf Htf Hdf Hf.
  assert (di_reverse it = reverse /\ di_with_key_reduction it = false /\ di_iter_cache it = [] /\ cell_ok ksd cell) as (Hrev & Hred & Hca & Hco).
  { pose proof Hit as (cu & Hcu & Hit')%ranged_fields.
    destruct reverse; destruct Hit' as (x & ? & Hx & _ & ->); injection Hcell as <-; split_and!; try done.
    - by apply (cell_id_cell_ok ksd u).
    - apply (cell_id_cell_ok ksd (saturated_decrement_vec l)); [done|by apply (decrement_ok l)|done]. }
  destruct (iter_items_ok blake2b256 cfg ks record_at st s U hist Hu ksd Hks fixed_plain fixed_keys Hfull read_record source Hsource
    walk_fuel table_fuel db_fuel next_fuel fuel tab it cell (di_prev_key it) cs Hr) as (tab' & it' & items & Hitems & _ & He);
    rewrite ?Hrev; try done.
  { split; rewrite ?Hrev, ?Hca; try done. constructor. }
  exists tab', it', items. split; [exact Hitems|]. destruct (enumerates_sound record_at s U hist source it (cell :: cs) _ items He) as [Hs Hord]. rewrite Hrev in *.
  split_and!; [|done|].
  - eapply Forall_impl; [exact Hs|]. cbv beta. intros r (k & v & c & p & -> & Hin & Hpw & Hrest). exists k, v, c, p.
    split; [done|]. split; [done|]. split; [|done]. destruct (Hkeys c k Hin) as [[Hk8 _] Hkn]. by apply (ranged_keys tab l u reverse it k).
  - intros c k w Hrange Hv. destruct Hr as [Ht Hkm _].
    assert (In k (U c)) as Hin by (eapply (visible_within cfg ks record_at st s U hist source tab); [exact Ht|done|by rewrite Hv]).
    destruct (Hkeys c k Hin) as [Hok Hkn]. pose proof Hok as [Hk8 _].
    assert (hist c <> []) as Hh by (intros E; rewrite E in Hv; done).
    destruct (ranged_cells tab l u reverse it cell k c Hl8 Hln Hu8 Hkn Hit Hcell Hok Hrange (Hkm c k Hin)) as [Hstart Hend].
    pose proof (ahead_reaches hist ksd reverse _ tab cell cs c Hrc Hco Ha Hh Hstart Hend) as Hcin.
    apply (ranged_keys tab l u reverse it k) in Hrange as [Hp Hw]; try done.
    eapply (enumerates_complete record_at s U hist source it (cell :: cs) (di_prev_key it) items c k He); [done|by rewrite Hrev|done|by rewrite Hv].
Qed.

(** *** Turning an iterator around *)

Lemma reverse_new tab : iter_reverse blake2b256 ksd tab (iter_new ksd) = Ok (mkDbIterator (Some (last_cell ksd)) None None None false None true []).
Proof. unfold iter_reverse, iter_new, need_check_index_key, assert_supports_iterator_bound. by rewrite Hfixed. Qed.

Lemma reverse_twice tab :
  (it ← iter_reverse blake2b256 ksd tab (iter_new ksd); iter_reverse blake2b256 ksd tab it) = Ok (mkDbIterator (Some (last_cell ksd)) None None None false None false []).
Proof. rewrite reverse_new. cbn [mbind outcome_bind]. unfold iter_reverse, assert_supports_iterator_bound. by rewrite Hfixed. Qed.

(** Reversed, then bounded. *)
Lemma reverse_then_upper tab u cu : cell_id ksd u = Ok cu ->
  (it ← iter_reverse blake2b256 ksd tab (iter_new ksd); set_upper_bound blake2b256 ksd tab it u) = Ok (mkDbIterator (Some cu) (Some u) None (Some u) false None true []).
Proof.
  intros Hcu. rewrite reverse_new. cbn [mbind outcome_bind]. unfold set_upper_bound, assert_supports_iterator_bound. rewrite fixed_plain, Hfixed.
  cbn [mbind outcome_bind set_caches di_reverse di_with_key_reduction]. rewrite Hcu. done.
Qed.

(** Bounded, then reversed: the end of the forward walk stays. *)
Lemma upper_then_reverse tab u cu e : cell_id ksd u = Ok cu -> rows_next_cell tab cu false = Ok e ->
  (it ← set_upper_bound blake2b256 ksd tab (iter_new ksd) u; iter_reverse blake2b256 ksd tab it) = Ok (mkDbIterator (Some cu) (Some u) None (Some u) false e true []).
Proof.
  intros Hcu He. rewrite set_upper_forward by done. rewrite Hcu. cbn [mbind outcome_bind]. rewrite He. cbn [mbind outcome_bind].
  unfold iter_reverse, set_upper_bound, assert_supports_iterator_bound. rewrite Hfixed.
  cbn [iter_new mbind outcome_bind set_caches set_reverse set_full_bounds di_reverse di_full_upper_bound di_full_lower_bound di_with_key_reduction negb reduce_key]. unfold need_check_index_key. rewrite Hfixed, Hcu. done.
Qed.

(** Backwards, a cell behind the end of the forward walk ends the walk at once. *)
Lemma ahead_behind_end tab cu e : rows_next_cell tab cu false = Ok (Some e) -> forall o, rows_next_cell tab cu true = Ok o -> cells_ahead true (Some e) tab cu [].
Proof.
  intros He [c'|] Hc; [|by apply ahead_none]. eapply ahead_stop; [exact Hc|]. apply rows_next_after in He, Hc.
  assert (cell_id_cmp c' e = Ok Lt) as Hlt by (eapply (cell_id_cmp_trans c' cu e); [done| |exact He]; exact (cell_id_cmp_opp cu c' Gt Hc)).
  cbn. by rewrite Hlt.
Qed.

Lemma ahead_next_cell reverse end_cell tab c cs : cells_ahead reverse end_cell tab c cs -> exists o, rows_next_cell tab c reverse = Ok o.
Proof. by destruct 1; eexists. Qed.

(** A run of an iterator from a cell and a cursor. *)
Lemma plain_run tab it cell prev cs walk_fuel table_fuel db_fuel next_fuel fuel reverse lower upper e :
  rests tab -> it = mkDbIterator (Some cell) prev lower upper false e reverse [] -> (forall k, prev = Some k -> In k (U cell)) -> cells_ahead reverse e tab cell cs ->
  Forall (fun c => length (U c) < walk_fuel)%nat (cell :: cs) ->
  (steps_left U reverse cell prev cs <= table_fuel)%nat -> (steps_left U reverse cell prev cs <= db_fuel)%nat -> (steps_left U reverse cell prev cs <= fuel)%nat ->
  exists tab' it' items, iter_items blake2b256 ksd cfg st read_record source walk_fuel table_fuel db_fuel fuel (Datatypes.S next_fuel) tab it s = Ok (s, (tab', it', items)) /\
    enumerates record_at s U hist source it (cell :: cs) prev items.
Proof.
  intros Hr -> Hk Ha Hwf Htf Hdf Hf. destruct (iter_items_ok blake2b256 cfg ks record_at st s U hist Hu ksd Hks fixed_plain fixed_keys Hfull read_record source Hsource
    walk_fuel table_fuel db_fuel next_fuel fuel tab (mkDbIterator (Some cell) prev lower upper false e reverse []) cell prev cs Hr) as (tab' & it' & items & Hi & _ & He); try done.
  { split; try done. constructor. }
  by exists tab', it', items.
Qed.

(** Records come from the cells walked. *)
Lemma enumerates_cells it cells prev items k v :
  enumerates record_at s U hist source it cells prev items -> In (NextRecord k v) items -> exists c, In c cells /\ In k (U c).
Proof.
  revert prev. induction items as [|r items IH]; intros prev; [by intros _ []|]. destruct r as [k0 v0| |]; cbn [enumerates]; [|done|done].
  intros ((c & p & Hc & Hk & _) & _ & _ & _ & Hrest) [[= -> ->]|Hin]; [by exists c|]. by apply (IH (Some k0)).
Qed.

(** C38. Turning an iterator around loses keys.  On any key space of fixed-size
    keys at rest, an iterator that is reversed and then given an upper bound
    returns every live key below the bound; given the bound first and then
    reversed it keeps the end of its forward walk, and when a cell follows the
    cell of the bound it returns keys of that one cell only, so that every live
    key below the bound in another cell is lost.  Reversed twice, without
    bounds, it starts its forward walk at the last cell, and every live key of
    the cells before is lost. *)
Theorem reversed_iterator_loses_keys (tab : T) (u : list Z) (cu e : CellId) (cs last_cs : list CellId) (walk_fuel table_fuel db_fuel next_fuel fuel : nat) :
  rests tab -> rows_complete tab -> In u (U cu) -> rows_next_cell tab cu false = Ok (Some e) ->
  cells_ahead true None tab cu cs -> cells_ahead false None tab (last_cell ksd) last_cs ->
  Forall (fun c => length (U c) < walk_fuel)%nat (cu :: cs ++ last_cell ksd :: last_cs) ->
  (steps_left U true cu (Some u) cs + steps_left U false (last_cell ksd) None last_cs <= Nat.min table_fuel (Nat.min db_fuel fuel))%nat ->
  let run it := iter_items blake2b256 ksd cfg st read_record source walk_fuel table_fuel db_fuel fuel (Datatypes.S next_fuel) tab it s in
  exists it1 it2 it3 t1 t2 t3 i1 i2 i3 items1 items2 items3,
    (it ← iter_reverse blake2b256 ksd tab (iter_new ksd); set_upper_bound blake2b256 ksd tab it u) = Ok it1 /\ run it1 = Ok (s, (t1, i1, items1)) /\
    (it ← set_upper_bound blake2b256 ksd tab (iter_new ksd) u; iter_reverse blake2b256 ksd tab it) = Ok it2 /\ run it2 = Ok (s, (t2, i2, items2)) /\
    (it ← iter_reverse blake2b256 ksd tab (iter_new ksd); iter_reverse blake2b256 ksd tab it) = Ok it3 /\ run it3 = Ok (s, (t3, i3, items3)) /\
    (forall c k w, klt k u -> visible floor (newest c k) = Some w -> exists value, In (NextRecord k value) items1) /\
    (forall c k w, klt k u -> visible floor (newest c k) = Some w -> c <> cu -> forall value, ~ In (NextRecord k value) items2) /\
    (forall c k w, visible floor (newest c k) = Some w -> cell_id_cmp c (last_cell ksd) = Ok Lt -> forall value, ~ In (NextRecord k value) items3).
Proof.
  intros Hr Hrc Hu_in Hnext Ha Hlast Hwf Hfuel run. pose proof (kr_map _ _ _ _ _ _ _ _ _ _ Hr) as Hkm.
  assert (cell_id ksd u = Ok cu) as Hcu by (by apply Hkm). destruct (ahead_next_cell _ _ _ _ _ Ha) as [o Ho].
  assert (forall c, length (U c) < walk_fuel -> Forall (fun c => length (U c) < walk_fuel) [c])%nat as Hone by (intros c Hc; by constructor).
  apply Forall_cons in Hwf as [Hw0 [Hw1 Hw2]%Forall_app]. set (b := steps_left U false (last_cell ksd) None last_cs) in *.
  assert (steps_left U true cu (Some u) [] <= steps_left U true cu (Some u) cs)%nat as Hless by (destruct cs; cbn [steps_left]; lia).
  destruct (plain_run tab _ cu (Some u) cs walk_fuel table_fuel db_fuel next_fuel fuel true None (Some u) None Hr eq_refl ltac:(by intros ? [= <-]) Ha
    ltac:(by constructor) ltac:(lia) ltac:(lia) ltac:(lia)) as (t1 & i1 & items1 & R1 & E1).
  destruct (plain_run tab _ cu (Some u) [] walk_fuel table_fuel db_fuel next_fuel fuel true None (Some u) (Some e) Hr eq_refl ltac:(by intros ? [= <-])
    (ahead_behind_end tab cu e Hnext o Ho) ltac:(by apply Hone) ltac:(lia) ltac:(lia) ltac:(lia)) as (t2 & i2 & items2 & R2 & E2).
  destruct (plain_run tab _ (last_cell ksd) None last_cs walk_fuel table_fuel db_fuel next_fuel fuel false None None None Hr eq_refl ltac:(done) Hlast
    ltac:(done) ltac:(unfold b in *; lia) ltac:(unfold b in *; lia) ltac:(unfold b in *; lia)) as (t3 & i3 & items3 & R3 & E3).
  eexists _, _, _, t1, t2, t3, i1, i2, i3, items1, items2, items3.
  split; [by apply reverse_then_upper|]. split; [exact R1|]. split; [by apply (upper_then_reverse tab u cu (Some e))|]. split; [exact R2|]. split; [apply reverse_twice|]. split; [exact R3|].
  assert (forall c k w, visible floor (newest c k) = Some w -> In k (U c)) as Hin.
  { intros c k w Hv. eapply (visible_within cfg ks record_at st s U hist source tab); [apply Hr|done|by rewrite Hv]. }
  split_and!.
  - intros c k w Hlt Hv. pose proof (Hin c k w Hv) as Hk. destruct (Hkeys c k Hk) as [Hok _]. destruct (Hkeys cu u Hu_in) as [Huok _].
    eapply (enumerates_complete record_at s U hist source _ (cu :: cs) (Some u) items1 c k E1); [|done|done|by rewrite Hv].
    apply (ahead_reaches hist ksd true None tab cu cs c Hrc); [by apply (cell_id_cell_ok ksd u); [|apply Huok|]|done| | |done].
    + intros Eh. by rewrite Eh in Hv.
    + assert (kle k u) as Hle by (apply kle_iff; by left). destruct (cells_le k u c cu Hok Huok Hle (Hkm c k Hk) Hcu) as [->|Hc]; [by left|right; by apply cell_cmp_gt].
  - intros c k w _ Hv Hne value Hi. destruct (enumerates_cells _ _ _ _ _ _ E2 Hi) as (c' & [<-|[]] & Hk'). apply Hne.
    pose proof (Hkm c k (Hin c k w Hv)). pose proof (Hkm cu k Hk'). congruence.
  - intros c k w Hv Hbefore value Hi. destruct (enumerates_cells _ _ _ _ _ _ E3 Hi) as (c' & Hc' & Hk').
    assert (c = c') as <- by (pose proof (Hkm c k (Hin c k w Hv)); pose proof (Hkm c' k Hk'); congruence).
    pose proof (cell_id_cmp_opp _ _ _ Hbefore) as Hgt. cbn in Hgt. destruct Hc' as [<-|Hc']; [congruence|]. pose proof (ahead_cmp _ _ _ _ _ _ Hlast Hc'). congruence.
Qed.
End ranged.

(** ** Lower bounds on keys of variable length *)

Lemma klt_app_l (p : list Z) x suffix : klt p (p ++ x :: suffix).
Proof. unfold klt. change (bytes_cmp p (p ++ x :: suffix) = Lt). induction p as [|y p IH]; [done|]. cbn. rewrite Z.compare_refl. exact IH. Qed.

(** What is below a string of the same length stays below it when extended. *)
Lemma klt_extend (p l suffix : list Z) : length p = length l -> klt p l -> klt (p ++ suffix) l.
Proof.
  unfold klt. change (length p = length l -> bytes_cmp p l = Lt -> bytes_cmp (p ++ suffix) l = Lt). revert l. induction p as [|y p IH]; intros [|x l]; cbn; [done|done|done|].
  intros [= Hl]. destruct (y ?= x); [|done|done]. by apply IH.
Qed.

Section varlen.
Context (blake2b256 : list Z -> list Z).
Context {T C : Type} `{ValueCache C} `{!ValueCacheSpec C} {S : Type} `{Loader S} `{CellRows T C} `{!CellRowsSpec T C}.
Context (cfg : IterConfig) (ks : option nat) (record_at : list Z -> WalPosition -> list Z * list Z) (st : status_store) (s : S).
Context (U : CellId -> list (list Z)) (hist : CellId -> list entry) (Hu : forall cell, universe_ok ks (U cell)).
Context (ksd : KeySpaceDesc) (Hks : ks_ok ksd) (Hvar : ks_key_indexing ksd = VariableLength).
Context (Hkeys : forall cell k, In k (U cell) -> key_ok ksd k).
Context (Hfull : forall k w, (record_at k w).1 = k).
Context (read_record : WalPosition -> list Z -> option (option (list Z * list Z))) (source : option LastProcessed).
Context (Hsource : frontier_asked s source).

Lemma varlen_plain k : reduce_key blake2b256 (ks_key_indexing ksd) k = Ok k.
Proof. by rewrite Hvar. Qed.

(** The iterator a lower bound makes. *)
Lemma varlen_lower tab l cell : is_nonzero l = true -> cell_id ksd (saturated_decrement_vec l) = Ok cell ->
  set_lower_bound blake2b256 ksd tab (iter_new ksd) l = Ok (mkDbIterator (Some cell) (Some (saturated_decrement_vec l)) (Some l) None false None false []).
Proof.
  intros Hz Hc. unfold set_lower_bound, assert_supports_iterator_bound, iter_new, need_check_index_key. rewrite Hvar. cbn [reduce_key mbind outcome_bind set_caches di_reverse].
  rewrite Hc. cbn [mbind outcome_bind]. by rewrite Hz, orb_true_r.
Qed.

(** C39. With keys of variable length the lower bound is not a bound.  The cursor
    is put on the bound's predecessor of the same length; every proper extension
    of that predecessor is past the cursor and below the bound, and an iteration
    over any such key space at rest returns every live key between the two,
    although it is below the bound it was given. *)
Theorem varlen_lower_bound_leaks (tab : T) (l : list Z) (cell : CellId) (cs : list CellId) (walk_fuel table_fuel db_fuel next_fuel fuel : nat) :
  let p := saturated_decrement_vec l in
  key_space_rests cfg ks record_at st s U hist ksd read_record tab -> rows_complete hist ksd tab ->
  Forall is_u8 l -> is_nonzero l = true -> In p (U cell) -> cells_ahead false None tab cell cs ->
  Forall (fun c => length (U c) < walk_fuel)%nat (cell :: cs) ->
  (steps_left U false cell (Some p) cs <= Nat.min table_fuel (Nat.min db_fuel fuel))%nat ->
  (forall x suffix, klt p (p ++ x :: suffix) /\ klt (p ++ x :: suffix) l) /\
  exists it tab' it' items,
    set_lower_bound blake2b256 ksd tab (iter_new ksd) l = Ok it /\
    iter_items blake2b256 ksd cfg st read_record source walk_fuel table_fuel db_fuel fuel (Datatypes.S next_fuel) tab it s = Ok (s, (tab', it', items)) /\
    forall c k w, klt p k -> klt k l -> visible (ld_min_wal_position s) (newest_at (walk_frontier source) k (hist c)) = Some w ->
      exists value, In (NextRecord k value) items.
Proof.
  intros p Hr Hrc Hl8 Hz Hp Ha Hwf Hfuel. pose proof (kr_map _ _ _ _ _ _ _ _ _ _ Hr) as Hkm. destruct (decrement_ok l Hl8) as (Hp8 & Hpl & Hdz & _). fold p in Hp8, Hpl, Hdz.
  destruct (Hdz Hz) as [Hval _]. split.
  { intros x suffix. split; [apply klt_app_l|]. apply klt_extend; [done|]. apply klt_val; [done|done|done|lia]. }
  destruct (iter_items_ok blake2b256 cfg ks record_at st s U hist Hu ksd Hks varlen_plain Hkeys Hfull read_record source Hsource
    walk_fuel table_fuel db_fuel next_fuel fuel tab (mkDbIterator (Some cell) (Some p) (Some l) None false None false []) cell (Some p) cs Hr) as (tab' & it' & items & Hi & _ & He);
    try (cbn [di_reverse]; done || lia).
  { split; try done; [by intros ? [= <-]|constructor]. }
  eexists _, tab', it', items. split; [apply varlen_lower; [done|by apply Hkm]|]. split; [exact Hi|]. intros c k w Hpk _ Hv.
  assert (In k (U c)) as Hin by (eapply (visible_within cfg ks record_at st s U hist source tab); [apply Hr|done|by rewrite Hv]).
  eapply (enumerates_complete record_at s U hist source _ (cell :: cs) (Some p) items c k He); [|exact Hpk|done|by rewrite Hv].
  apply (ahead_reaches hist ksd false None tab cell cs c Hrc); [|done| | |done].
  - apply (cell_id_cell_ok ksd p); [done|done|by apply Hkm].
  - intros Eh. by rewrite Eh in Hv.
  - apply (cells_le ksd Hks p k); [by eapply Hkeys|by eapply Hkeys|apply kle_iff; by left|by apply Hkm|by apply Hkm].
Qed.
End varlen.

(** ** Witnesses *)

#[local] Existing Instance demo_loader.
#[local] Existing Instance demo_loader_spec.

(** BLAKE2b is not asked for fixed-size keys. *)
Definition no_digest (key : list Z) : list Z := key.

Lemma demo_rows_complete c : rows_complete demo_histories demo_uniform (demo_rows c).
Proof.
  intros x y reverse Hx Hy Hc. unfold demo_histories in Hy. case_bool_decide as E; [|done]. subst y.
  destruct x as [i|]; [|done]. cbn in Hc. injection Hc as Hc. change (0 <= i < 16) in Hx.
  destruct reverse; [|change (i < 0) in Hc; exfalso; lia]. apply Z.compare_gt_iff in Hc. exists (CellInteger (i - 1)). split_and!.
  - cbn. unfold lr_next_cell, table_next_cell, next_cell, next_bounded, checked_sub. cbn. destruct (Z.leb_spec 1 i); [done|lia].
  - change (0 <= i - 1 < 16). lia.
  - destruct (decide (i = 1)) as [->|]; [by left|]. right. cbn. f_equal. apply Z.compare_gt_iff. lia.
Qed.

Lemma ranged_iteration_exact_witness :
  exists s (c : LiveEntry list_cache) it tab' it' items value,
    ranged_iterator no_digest demo_uniform (demo_rows c) (demo_key 5) (demo_key 7) true = Ok it /\
    iter_items no_digest demo_uniform demo_iter_config no_transactions demo_read None 3 3 3 3 1 (demo_rows c) it s = Ok (s, (tab', it', items)) /\
    In (NextRecord (demo_key 5) value) items.
Proof.
  destruct demo_rows_rest as (s & c & Hr & Hlp & Hm). exists s, c, (mkDbIterator (Some (CellInteger 0)) (Some (demo_key 7)) (Some (demo_key 5)) (Some (demo_key 7)) false None true []).
  destruct (ranged_iteration_exact no_digest demo_iter_config (Some 5%nat) demo_record no_transactions s demo_cells demo_histories demo_cells_universe
    demo_uniform 5 demo_uniform_ok eq_refl ltac:(intros cell k Hin; destruct (demo_cells_keys cell k Hin) as (? & ? & _); done) ltac:(done)
    demo_read None I (demo_rows c) (demo_key 5) (demo_key 7) true
    (mkDbIterator (Some (CellInteger 0)) (Some (demo_key 7)) (Some (demo_key 5)) (Some (demo_key 7)) false None true [])
    (CellInteger 0) [] 3 3 3 0 3 Hr (demo_rows_complete c)) as (tab' & it' & items & Hi & _ & _ & Hall).
  - unfold demo_key, is_u8. repeat constructor; lia.
  - done.
  - unfold demo_key, is_u8. repeat constructor; lia.
  - reflexivity.
  - reflexivity.
  - apply ahead_none. reflexivity.
  - intros k [= <-]. right. by left.
  - repeat constructor.
  - vm_compute. lia.
  - vm_compute. lia.
  - vm_compute. lia.
  - destruct (Hall (CellInteger 0) (demo_key 5) (wp_new 150 10)) as [value Hin].
    + split; by vm_compute.
    + rewrite Hm. vm_compute. reflexivity.
    + exists tab', it', items, value. split_and!; [reflexivity|exact Hi|exact Hin].
Defined.

Lemma reversed_iterator_loses_keys_witness :
  exists s (c : LiveEntry list_cache) it1 it3 t1 t3 i1 i3 items1 items3 value,
    (it ← iter_reverse no_digest demo_uniform (demo_rows c) (iter_new demo_uniform); set_upper_bound no_digest demo_uniform (demo_rows c) it (demo_key 7)) = Ok it1 /\
    iter_items no_digest demo_uniform demo_iter_config no_transactions demo_read None 9 9 9 9 1 (demo_rows c) it1 s = Ok (s, (t1, i1, items1)) /\
    In (NextRecord (demo_key 5) value) items1 /\
    (it ← iter_reverse no_digest demo_uniform (demo_rows c) (iter_new demo_uniform); iter_reverse no_digest demo_uniform (demo_rows c) it) = Ok it3 /\
    iter_items no_digest demo_uniform demo_iter_config no_transactions demo_read None 9 9 9 9 1 (demo_rows c) it3 s = Ok (s, (t3, i3, items3)) /\
    ~ In (NextRecord (demo_key 5) value) items3.
Proof.
  destruct demo_rows_rest as (s & c & Hr & Hlp & Hm). exists s, c.
  destruct (reversed_iterator_loses_keys no_digest demo_iter_config (Some 5%nat) demo_record no_transactions s demo_cells demo_histories demo_cells_universe
    demo_uniform 5 demo_uniform_ok eq_refl ltac:(intros cell k Hin; destruct (demo_cells_keys cell k Hin) as (? & ? & _); done) ltac:(done)
    demo_read None I (demo_rows c) (demo_key 7) (CellInteger 0) (CellInteger 1) [] [] 9 9 9 0 9 Hr (demo_rows_complete c))
    as (it1 & it2 & it3 & t1 & t2 & t3 & i1 & i2 & i3 & items1 & items2 & items3 & E1 & R1 & _ & _ & E3 & R3 & H1 & _ & H3).
  - right. by left.
  - reflexivity.
  - apply ahead_none. reflexivity.
  - apply ahead_none. reflexivity.
  - repeat constructor.
  - vm_compute. lia.
  - assert (visible (ld_min_wal_position s) (newest_at (walk_frontier None) (demo_key 5) (demo_histories (CellInteger 0))) = Some (wp_new 150 10)) as Hv by (rewrite Hm; vm_compute; reflexivity).
    destruct (H1 (CellInteger 0) (demo_key 5) (wp_new 150 10)) as [value Hin]; [by vm_compute|exact Hv|].
    exists it1, it3, t1, t3, i1, i3, items1, items3, value. split_and!; [exact E1|exact R1|exact Hin|exact E3|exact R3|].
    apply (H3 (CellInteger 0) (demo_key 5) (wp_new 150 10)); [exact Hv|by vm_compute].
Defined.

(** *** A key space of variable-length keys with a key below the bound *)

Definition varlen_space : KeySpaceDesc := mkKeySpace 1 "v" VariableLength 4 (Uniform 4) false.

Definition varlen_universe (cell : CellId) : list (list Z) := if bool_decide (cell = CellInteger 0) then [[1]; [1; 7]; [2]] else [].

Definition varlen_history (cell : CellId) : list entry := if bool_decide (cell = CellInteger 0) then [([1; 7], iwp_new_modified (wp_new 100 10))] else [].

Definition varlen_cell : LiveEntry list_cache :=
  match cell_insert 130 demo_cell [1; 7] (wp_new 100 10) [1; 7] (Some [100]) with Ok c => c | Panic _ => demo_cell end.

Definition varlen_rows : LiveRows list_cache := mkLiveRows varlen_space demo_cell [(CellInteger 0, varlen_cell)] [].

Lemma varlen_universe_ok cell : universe_ok None (varlen_universe cell).
Proof. unfold varlen_universe. case_bool_decide; split; try (by vm_compute); repeat (constructor; [by vm_compute|]); constructor. Qed.

Lemma varlen_keys cell k : In k (varlen_universe cell) -> key_ok varlen_space k /\ cell_id varlen_space k = Ok cell.
Proof.
  unfold varlen_universe. case_bool_decide as E; [|done]. subst cell.
  intros [<-|[<-|[<-|[]]]]; (split; [|by vm_compute]); split; try (by vm_compute); unfold is_u8; repeat constructor; lia.
Qed.

Lemma varlen_opened U : cell_opened None U (mkCellSys demo_store demo_cell Idle [] 0).
Proof.
  split; [done|cbn; lia|by constructor|]. exists true, levels_new, 0, None, (Some []). split; [done|]. split; [|by intros ? [= <-]].
  split; try done. apply (levels_ok_slots None U demo_store []); [cbn; lia|constructor].
Qed.

Lemma varlen_rest : key_space_rests demo_iter_config None demo_record no_transactions demo_store varlen_universe varlen_history varlen_space demo_read varlen_rows.
Proof.
  split.
  - intros cell. eexists. split; [reflexivity|]. cbn. unfold lr_try_entry, lr_find. cbn.
    destruct (decide (CellInteger 0 = cell)) as [<-|Hne].
    + rewrite bool_decide_eq_true_2 by done. cbn. split; [split; [by eexists|by eexists]|].
      destruct (opened_inv None (varlen_universe (CellInteger 0)) demo_record _ (varlen_opened _)) as [es Hi].
      destruct (insert_keeps None (varlen_universe (CellInteger 0)) demo_record demo_store demo_cell Idle [] 0 es [1; 7] (wp_new 100 10) [1; 7] (Some [100]) Hi) as (c' & Hc & Hi').
      * split_and!; [right; by left|split; [unfold is_u64|]; cbn; lia|cbn; lia|unfold fresh_write; vm_compute; repeat constructor; discriminate].
      * done.
      * cbn in Hc. eexists _, _, es. unfold varlen_cell. cbn. injection Hc as <-. exact Hi'.
    + rewrite bool_decide_eq_false_2 by done. cbn. split; [split; [by eexists|by eexists]|].
      unfold varlen_universe, varlen_history. rewrite !bool_decide_eq_false_2 by congruence. destruct (opened_inv None [] demo_record _ (varlen_opened [])) as [es Hi]. by eexists _, _, es.
  - intros cell k Hin. by apply varlen_keys.
  - intros k w _. by unfold demo_read.
Qed.

Lemma varlen_rows_complete : rows_complete varlen_history varlen_space varlen_rows.
Proof.
  intros x y reverse Hx Hy Hc. unfold varlen_history in Hy. case_bool_decide as E; [|done]. subst y.
  destruct x as [i|]; [|done]. cbn in Hc. injection Hc as Hc. change (0 <= i < 16) in Hx.
  destruct reverse; [|change (i < 0) in Hc; exfalso; lia]. apply Z.compare_gt_iff in Hc. exists (CellInteger (i - 1)). split_and!.
  - cbn. unfold lr_next_cell, table_next_cell, next_cell, next_bounded, checked_sub. cbn. destruct (Z.leb_spec 1 i); [done|lia].
  - change (0 <= i - 1 < 16). lia.
  - destruct (decide (i = 1)) as [->|]; [by left|]. right. cbn. f_equal. apply Z.compare_gt_iff. lia.
Qed.

(** The cells after the first. *)
Lemma varlen_ahead : cells_ahead false None varlen_rows (CellInteger 0) (List.map (fun i => CellInteger (Z.of_nat i)) (seq 1 15)).
Proof. cbn [seq List.map]. do 15 (eapply ahead_next; [by vm_compute|done|]). by apply ahead_none. Qed.

Lemma varlen_lower_bound_leaks_witness :
  exists it tab' it' items value, set_lower_bound no_digest varlen_space varlen_rows (iter_new varlen_space) [2] = Ok it /\
    iter_items no_digest varlen_space demo_iter_config no_transactions demo_read None 30 30 30 30 1 varlen_rows it demo_store = Ok (demo_store, (tab', it', items)) /\
    klt [1; 7] [2] /\ In (NextRecord [1; 7] value) items.
Proof.
  destruct (varlen_lower_bound_leaks no_digest demo_iter_config None demo_record no_transactions demo_store varlen_universe varlen_history varlen_universe_ok
    varlen_space ltac:(by vm_compute) eq_refl ltac:(intros cell k Hin; by apply (varlen_keys cell)) ltac:(done) demo_read None I varlen_rows [2] (CellInteger 0)
    (List.map (fun i => CellInteger (Z.of_nat i)) (seq 1 15)) 30 30 30 0 30 varlen_rest varlen_rows_complete) as (_ & it & tab' & it' & items & E & R & Hall).
  - repeat constructor; unfold is_u8; lia.
  - reflexivity.
  - by left.
  - exact varlen_ahead.
  - apply List.Forall_forall. intros c Hc. unfold varlen_universe. case_bool_decide; cbn; lia.
  - vm_compute. lia.
  - destruct (Hall (CellInteger 0) [1; 7] (wp_new 100 10)) as [value Hin]; [by vm_compute..|]. exists it, tab', it', items, value. by split_and!.
Defined.
