(* ===== verification/CellView.v ===== *)
(** * The as-of view of a cell

    [LargeTable::get_index_for_cell] and [CellAsOfView] of
    src/tidehunter/src/large_table.rs: what relocation walks.  The view is built
    under the row lock from the write buffer below a frontier, the L0 blob of an
    unloaded cell and readers over the levels below L0.

    A reader stands for the table its blob decodes to: it keeps the blob readable
    after the levels were replaced. *)

From Stdlib Require Import ZArith Lia List Sorting.Sorted.
From stdpp Require Import base tactics list gmap strings relations.
From S2P Require Import Prelude BTree Bytes Position Cell Layout KeyShape Flat FlatFacts IndexTable IndexOps IndexTableFacts IndexWalk.
From S2P Require Import IndexPromote IndexFlush IndexUnmerge IndexCodec IndexClean Levels Loader Flusher FlusherFacts.
From S2P Require Import FlusherShards FlushCommand IndexFormat IndexStore FlushSpec TableEntry Snapshot Pending CellOps CellSystem.
From S2P Require Import CellInvariant CellSteps CellReads CellCorrect.

Local Open Scope Z_scope.

(** ** Definitions *)

Record CellAsOfView := mkAsOfView { av_top : IndexTable; av_below_l0 : list IndexTable }.

(** The entries of one level the top does not hold. *)
Fixpoint unshadowed (top : IndexTable) (entries : list (list Z * WalPosition)) : outcome (list (list Z * WalPosition)) :=
  match entries with
  | [] => Ok []
  | (key, position) :: rest =>
      held ← it_contains_key top key;
      rest ← unshadowed top rest;
      Ok (if held : bool then rest else (key, position) :: rest)
  end.

Fixpoint below_entries (top : IndexTable) (below_l0 : list IndexTable) : outcome (list (list Z * WalPosition)) :=
  match below_l0 with
  | [] => Ok []
  | t :: rest =>
      entries ← into_entries t;
      entries ← unshadowed top entries;
      rest ← below_entries top rest;
      Ok (entries ++ rest)
  end.

(** [CellAsOfView::iter] *)
Definition view_iter (v : CellAsOfView) : outcome (list (list Z * WalPosition)) :=
  top ← it_iter (av_top v);
  below ← below_entries (av_top v) (av_below_l0 v);
  Ok (top ++ below).

Section view.
Context {C : Type} `{ValueCache C} {S : Type} `{Loader S}.

(** The view of an entry whose pending writes were promoted; [None] is an error
    of the loader. *)
Definition entry_view (c : LiveEntry C) (last_processed : LastProcessed) : LM S (option CellAsOfView) :=
  let levels := le_levels (lv_entry c) in
  overlay ← lift (retain_processed (lv_table c) last_processed);
  base ← match levels_l0 levels, as_unloaded_state c with
         | Some l0_pos, Some _ => asks (fun s => ld_load s l0_pos)
         | _, _ => mret (Some it_default)
         end;
  match base with
  | None => mret None
  | Some base =>
      top ← lift (merge_dirty_and_clean base overlay);
      below_l0 ← asks (fun s => mapM (ld_load s) (levels_iter_below_l0 levels));
      match below_l0 with
      | None => mret None
      | Some below_l0 =>
          _ ← lift (assert_that ((length below_l0 <=? 1)%nat || levels_is_sharded levels) "levels below L0 must be one L1 blob or the shards");
          mret (Some (mkAsOfView top below_l0))
      end
  end.

(** [LargeTable::get_index_for_cell] on the entry of the cell, if there is one:
    the entry as it is left and the view. *)
Definition get_index_for_cell (st : status_store) (entry : option (LiveEntry C)) (last_processed : LastProcessed) :
    LM S (option (LiveEntry C) * option (option CellAsOfView)) :=
  match entry with
  | None => mret (None, Some None)
  | Some c =>
      frontier ← asks ld_last_processed;
      c ← lift (promote_pending frontier st c);
      v ← entry_view c last_processed;
      mret (Some c, option_map Some v)
  end.
End view.

(** ** Iterating tables *)

(** The readable entry of a key. *)
Definition readable (o : option IndexWalPosition) (w : WalPosition) : Prop := wal_view o = Some w /\ wp_is_valid w = true.

Lemma readable_demote b o w : readable (option_map (demote b) o) w <-> readable o w.
Proof. unfold readable, wal_view. destruct o as [p|]; cbn; [by rewrite demote_wal|done]. Qed.

Lemma sorted_iter_In (es : list entry) k w : bt_sorted es ->
  In (k, w) (List.filter (fun kp => wp_is_valid kp.2) (List.map (fun e => (e.1, into_wal_position e.2)) es)) <-> readable (bt_get k es) w.
Proof.
  intros Hs. rewrite filter_In, in_map_iff. unfold readable, wal_view. cbn [snd]. split.
  - intros [([k' p] & [= <- <-] & Hin) Hv]. apply (bt_get_In k' p) in Hin; [|done]. cbn [fst] in *. rewrite Hin. done.
  - intros [Hg Hv]. destruct (bt_get k es) as [p|] eqn:E; [|done]. injection Hg as <-. split; [|done]. exists (k, p). split; [done|]. by apply bt_get_In.
Qed.

Lemma it_iter_In t es : it_wf t es -> exists entries, it_iter t = Ok entries /\ forall k w, In (k, w) entries <-> readable (it_view t es k) w.
Proof.
  intros Hw. unfold it_iter, iter_inner. rewrite (iter_combined_ok t es Hw). cbn [mbind outcome_bind]. eexists. split; [done|].
  intros k w. cbn [orb]. rewrite sorted_iter_In by (by apply combined_sorted). by rewrite bt_get_combined.
Qed.

Lemma into_entries_In t es : flat_repr (it_flat t) (it_key_size t) es -> it_data t = [] ->
  exists entries, into_entries t = Ok entries /\ forall k w, In (k, w) entries <-> readable (bt_get k es) w.
Proof.
  intros Hr Hd. unfold into_entries. rewrite Hd. cbn [assert_that mbind outcome_bind]. rewrite (flat_repr_count _ _ _ Hr).
  rewrite (read_entries_spec _ es 0); [|by intros a x b E; apply (flat_repr_at _ _ _ a x b Hr)]. cbn [mbind outcome_bind].
  eexists. split; [done|]. intros k w. apply sorted_iter_In, Hr.
Qed.

Lemma unshadowed_In top tes entries : it_wf top tes ->
  exists out, unshadowed top entries = Ok out /\ forall k w, In (k, w) out <-> In (k, w) entries /\ it_view top tes k = None.
Proof.
  intros Hw. induction entries as [|[k0 w0] entries IH]; cbn [unshadowed]; [exists []; split; [done|]; cbn; tauto|].
  destruct IH as (out & -> & Hin). rewrite (it_contains_key_ok top tes k0 Hw). cbn [mbind outcome_bind]. eexists. split; [done|].
  intros k w. cbn [In]. destruct (it_view top tes k0) as [p|] eqn:E.
  - rewrite bool_decide_eq_true_2 by (by eexists). rewrite Hin. split; [tauto|]. intros [[[= <- <-]|?] ?]; [congruence|tauto].
  - rewrite bool_decide_eq_false_2 by (by intros []). cbn [In]. rewrite Hin. split; [|tauto]. intros [[= <- <-]|?]; tauto.
Qed.

(** ** What the view holds *)

Section facts.
Context {C : Type} `{ValueCache C} `{!ValueCacheSpec C} {S : Type} `{Loader S} (ks : option nat) (U : list (list Z)) `{!LoaderSpec S ks U}.
Context (Hu : universe_ok ks U) (record_at : list Z -> WalPosition -> list Z * list Z).
Notation cell_inv := (cell_inv ks U record_at).

Lemma below_entries_In s top tes ps : it_wf top tes -> Forall (blob_ok ks U s) ps ->
  exists ts entries, mapM (ld_load s) ps = Some ts /\ length ts = length ps /\ below_entries top ts = Ok entries /\
    forall k w, In (k, w) entries <-> it_view top tes k = None /\ exists p, In p ps /\ readable (blob_view s p k) w.
Proof.
  intros Hw. induction 1 as [|p ps Hp _ IH].
  { exists [], []. split_and!; [done..|]. intros k w. cbn. split; [done|]. by intros [_ (p & [] & _)]. }
  destruct IH as (ts & entries & Hm & Hl & Hb & Hin). destruct (blob_ok_load ks U s p Hp) as (t & Hld & Hbl).
  destruct (cell_blob_flat_only _ _ _ _ Hbl) as [_ Hfr]. destruct (into_entries_In t _ Hfr (cb_data _ _ _ _ Hbl)) as (e0 & He0 & Hin0).
  destruct (unshadowed_In top tes e0 Hw) as (e1 & He1 & Hin1).
  exists (t :: ts), (e1 ++ entries). split_and!.
  - cbn. by rewrite Hld, Hm.
  - cbn. by rewrite Hl.
  - cbn [below_entries]. rewrite He0. cbn [mbind outcome_bind]. rewrite He1. cbn [mbind outcome_bind]. by rewrite Hb.
  - intros k w. rewrite in_app_iff, Hin1, Hin0, Hin. fold (blob_view s p k). cbn [In]. split.
    + intros [[Hr Hn]|[Hn (q & Hq & Hr)]]; (split; [done|]); [exists p; auto|exists q; auto].
    + intros [Hn (q & [<-|Hq] & Hr)]; [left; auto|right; eauto].
Qed.

(** The levels below L0 hold a key at most once. *)
Lemma below_hits s l k w : levels_ok ks U s l ->
  (exists p, In p (levels_iter_below_l0 l) /\ readable (blob_view s p k) w) <-> readable (below_view s l k) w.
Proof.
  intros Hl. unfold levels_iter_below_l0. destruct (levels_is_sharded l) eqn:Es.
  - assert (List.filter wp_is_valid (drop 1 (lv_positions l)) = []) as ->.
    { pose proof (lo_below _ _ _ _ Hl Es) as H1. pose proof (lo_slots _ _ _ _ Hl) as Hlen. unfold levels_l1, levels_get in H1.
      destruct (lv_positions l) as [|a [|b [|]]]; cbn in Hlen, H1 |- *; [done|done| |lia]. rewrite wp_valid_if in H1. by destruct (wp_is_valid b). }
    cbn [app]. unfold below_view, below_l0_for. rewrite Es. pose proof (lo_shards _ _ _ _ Hl) as Ho. pose proof (lo_hold _ _ _ _ Hl) as Hh.
    unfold shards_hold in Hh. rewrite List.Forall_forall in Hh. unfold shard_positions, shard_for. split.
    + intros (p & (e & <- & He)%in_map_iff & Hr). assert (shard_entry_for l k = Some e) as ->; [|done].
      apply shard_entry_for_spec; [done|]. split; [done|]. apply (Hh e He). destruct Hr as [Hr _]. by destruct (blob_view s (shard_position e.2) k).
    + destruct (shard_entry_for l k) as [e|] eqn:E; [|by intros [? _]]. cbn. intros Hr. exists (shard_position e.2). split; [|done].
      apply shard_entry_for_spec in E as [He _]; [|done]. apply in_map_iff. by exists e.
  - rewrite below_view_unsharded by done. assert (shard_positions l = []) as ->.
    { unfold shard_positions. unfold levels_is_sharded in Es. by destruct (lv_shards l). }
    rewrite app_nil_r. pose proof (lo_slots _ _ _ _ Hl) as Hlen. unfold levels_l1, levels_get.
    destruct (lv_positions l) as [|a [|b [|]]]; cbn in Hlen |- *; [| | |lia].
    1-2: (split; [by intros (? & [] & _)|by intros [? _]]).
    rewrite wp_valid_if. destruct (wp_is_valid b); cbn.
    + split; [by intros (? & [<-|[]] & Hr)|]. intros Hr. exists b. auto.
    + split; [by intros (? & [] & _)|by intros [? _]].
Qed.

Lemma below_blobs s l : levels_ok ks U s l -> Forall (blob_ok ks U s) (levels_iter_below_l0 l).
Proof.
  intros Hl. pose proof (lo_blobs _ _ _ _ Hl) as Hb. unfold levels_iter, levels_iter_below_l0 in *. apply Forall_app in Hb as [Hb1 Hb2]. apply Forall_app. split; [|done].
  rewrite List.Forall_forall in *. intros p [Hin Hv]%filter_In. apply Hb1, filter_In. split; [|done].
  destruct (lv_positions l) as [|q ps]; [done|]. by right.
Qed.

Lemma below_count s l : levels_ok ks U s l -> levels_is_sharded l = false -> (length (levels_iter_below_l0 l) <= 1)%nat.
Proof.
  intros Hl Es. unfold levels_iter_below_l0. assert (shard_positions l = []) as ->.
  { unfold shard_positions. unfold levels_is_sharded in Es. by destruct (lv_shards l). }
  rewrite app_nil_r. pose proof (lo_slots _ _ _ _ Hl) as Hlen. etransitivity; [apply List.filter_length_le|]. rewrite length_drop. lia.
Qed.

(** The view holds what the write buffer below the frontier and the levels
    answer. *)
Lemma entry_view_exact s c f h b es lp :
  cell_inv s c f h b es ->
  exists v entries, entry_view c lp s = Ok (s, Some v) /\ view_iter v = Ok entries /\
    forall k w, In (k, w) entries <->
      readable (or_else (it_view_at (lv_table c) es k lp) (cell_disk s (lv_state c) (le_levels (lv_entry c)) k)) w.
Proof.
  intros Hi. pose proof (ci_levels _ _ _ _ _ _ _ _ _ Hi) as Hl. set (l := le_levels (lv_entry c)) in *.
  destruct (retain_processed_cell ks U (lv_table c) es lp (ci_table _ _ _ _ _ _ _ _ _ Hi)) as (overlay & Hov & Hto & Hview).
  assert (exists base bes, (match levels_l0 l, as_unloaded_state c with
            | Some l0_pos, Some _ => asks (fun s => ld_load s l0_pos) | _, _ => mret (Some it_default) end) s = Ok (s, Some base) /\
          cell_blob ks U base bes /\
          forall k, or_else (bt_get k bes) (below_view s l k) = cell_disk s (lv_state c) l k) as (base & bes & Hbase & Hbb & Hdisk).
  { destruct (levels_l0 l) as [l0|] eqn:E0.
    - destruct (as_unloaded_state c) as [d|] eqn:Eu.
      + destruct (levels_get_ok ks U s l 0 l0 Hl E0) as [Hb0 _]. destruct (blob_ok_load ks U s l0 Hb0) as (t & Ht & Hbt).
        exists t, (blob_entries s l0). split_and!; [by unfold asks; rewrite Ht|done|]. intros k. unfold cell_disk, levels_view. fold (below_view s l k). rewrite E0.
        unfold as_unloaded_state in Eu. by destruct (lv_state c).
      + exists it_default, []. split_and!; [done|apply cell_blob_default|]. intros k. unfold as_unloaded_state in Eu.
        pose proof (ci_state _ _ _ _ _ _ _ _ _ Hi) as Hst. unfold state_ok in Hst. fold l in Hst. unfold cell_disk.
        destruct (lv_state c); try done. destruct Hst as [E _]. by rewrite E in E0.
    - exists it_default, []. split_and!; [by destruct (as_unloaded_state c)|apply cell_blob_default|]. intros k. unfold cell_disk, levels_view. fold (below_view s l k).
      rewrite E0. by destruct (lv_state c). }
  destruct (merge_cell ks U base overlay bes es Hu Hbb Hto) as (top & tes & Hm & Htop & Hg & Hp).
  pose proof (ct_wf _ _ _ _ Htop) as Hwt.
  destruct (below_entries_In s top tes (levels_iter_below_l0 l) Hwt (below_blobs s l Hl)) as (ts & be & Hld & Hlen & Hbe & Hbin).
  destruct (it_iter_In top tes Hwt) as (te & Hte & Htin).
  exists (mkAsOfView top ts), (te ++ be). split_and!.
  - unfold entry_view. fold l. unfold mbind, LM_bind, lift. rewrite Hov. fold (@mbind (LM S)). rewrite Hbase. rewrite Hm. unfold asks at 1. rewrite Hld, Hlen.
    assert (((length (levels_iter_below_l0 l) <=? 1)%nat || levels_is_sharded l) = true) as ->; [|done].
    destruct (levels_is_sharded l) eqn:Es; [by rewrite orb_true_r|]. rewrite (proj2 (Nat.leb_le _ _)); [done|]. by apply (below_count s).
  - unfold view_iter. cbn [av_top av_below_l0]. rewrite Hte. cbn [mbind outcome_bind]. by rewrite Hbe.
  - intros k w. rewrite in_app_iff, Htin, Hbin.
    assert (it_view top tes k = or_else (option_map (demote true) (it_view_at (lv_table c) es k lp)) (bt_get k bes)) as Hv.
    { rewrite it_view_parts. unfold over_view. rewrite Hp, demote_last, Hg. fold (over_view overlay k). rewrite Hview, view_at_parts.
      destruct (last (processed_of lp (positions_of (it_data (lv_table c)) k))) as [p|]; [done|]. by destruct (bt_get k es). }
    rewrite <- Hdisk. rewrite Hv. destruct (it_view_at (lv_table c) es k lp) as [p|]; cbn [option_map or_else].
    + rewrite (readable_demote true (Some p)). split; [by intros [?|[? _]]|by left].
    + destruct (bt_get k bes) as [p|]; cbn [or_else]; [split; [by intros [?|[? _]]|by left]|].
      rewrite <- (below_hits s l k w Hl). split; [by intros [[? _]|[_ ?]]|by right].
Qed.

(** What a reader sees of a write that fits. *)
Lemma visible_readable x o w : (forall p, o = Some p -> iwp_fits p) -> visible x o = Some w <-> readable o w /\ x <= wp_offset w.
Proof.
  intros Hf. unfold visible, readable, wal_view. destruct o as [p|]; cbn; [|split; [done|by intros [[? _] _]]].
  specialize (Hf p eq_refl). pose proof (into_wal_valid p Hf) as Hv. destruct (is_removed p) eqn:Er; cbn in *.
  - split; [done|]. intros [[[= <-] H'] _]. congruence.
  - assert (wp_offset (into_wal_position p) = iwp_offset p) as Ho by (unfold is_removed in Er; by destruct p as [? ? []]).
    destruct (Z.ltb_spec (iwp_offset p) x); split; [done| |by intros [= <-]; rewrite Ho|by intros [[? _] _]]. intros [[[= <-] _] H']. lia.
Qed.

Lemma newest_fits lp k h p : history_ok h -> newest_at lp k h = Some p -> iwp_fits p.
Proof.
  intros Hh Hn. pose proof (history_fits k h Hh) as Hf. rewrite List.Forall_forall in Hf. apply Hf. unfold newest_at in Hn.
  apply last_Some_elem_of, list_elem_of_In in Hn. by apply processed_In in Hn as [? _].
Qed.

Lemma reads_fit s c f h b es lp k p : cell_inv s c f h b es ->
  or_else (it_view_at (lv_table c) es k lp) (cell_disk s (lv_state c) (le_levels (lv_entry c)) k) = Some p -> iwp_fits p.
Proof.
  intros Hi. pose proof (ci_levels _ _ _ _ _ _ _ _ _ Hi) as Hl. rewrite view_at_parts.
  destruct (last (processed_of lp (positions_of (it_data (lv_table c)) k))) as [q|] eqn:E; cbn [or_else].
  { intros [= ->]. apply last_Some_elem_of, list_elem_of_In, processed_In in E as [E _]. apply (ci_overlay _ _ _ _ _ _ _ _ _ Hi) in E.
    pose proof (history_fits k h (ci_history _ _ _ _ _ _ _ _ _ Hi)) as Hf. rewrite List.Forall_forall in Hf. by apply Hf. }
  destruct (bt_get k es) as [q|] eqn:Eg; cbn [or_else].
  { intros [= ->]. destruct (ct_wf _ _ _ _ (ci_table _ _ _ _ _ _ _ _ _ Hi)) as [_ (_ & Hs & Hf & _)]. apply bt_get_In in Eg; [|done].
    rewrite List.Forall_forall in Hf. apply (Hf _ Eg). }
  unfold cell_disk. destruct (lv_state c); intros Hp; (by apply (levels_view_fits ks U) in Hp) || by apply (below_view_fits ks U) in Hp.
Qed.

(** The newest write of the buffer is in every view from above it. *)
Lemma newest_kept t es k lp lp' p : it_wf t es -> it_view_at t es k lp' = Some p -> iwp_offset p < lp -> lp <= lp' ->
  last (processed_of lp' (positions_of (it_data t) k)) = last (positions_of (it_data t) k) -> it_view_at t es k lp = Some p.
Proof.
  intros Hw. rewrite !view_at_parts. intros Hp Hlt Hle Hall. rewrite Hall in Hp.
  pose proof (positions_of_sorted (it_data t) k (proj1 Hw)) as Hs.
  destruct (last (positions_of (it_data t) k)) as [q|] eqn:E; cbn [or_else] in Hp.
  - injection Hp as ->. apply pos_last_spec in E as [Hin Hmax]; [|done].
    assert (last (processed_of lp (positions_of (it_data t) k)) = Some p) as ->; [|done].
    apply pos_last_spec; [by apply processed_sorted|]. split; [by apply processed_In|]. intros r [Hr _]%processed_In. by apply Hmax.
  - apply last_None in E. by rewrite E.
Qed.

Lemma view_covers s c f h b es lp k w entries :
  cell_inv s c f h b es ->
  (forall k w, In (k, w) entries <->
     readable (or_else (it_view_at (lv_table c) es k lp) (cell_disk s (lv_state c) (le_levels (lv_entry c)) k)) w) ->
  lp <= 2 ^ 64 -> visible (ld_min_wal_position s) (newest_write k h) = Some w -> wp_offset w < lp -> In (k, w) entries.
Proof.
  intros Hi Hin Hlp Hv Hlt. rewrite Hin. pose proof (ci_history _ _ _ _ _ _ _ _ _ Hi) as Hh. pose proof (ci_frontier _ _ _ _ _ _ _ _ _ Hi) as Hfr.
  rewrite (newest_write_at k h Hh) in Hv. pose proof Hv as Hv'. apply visible_readable in Hv' as [[_ Hvalid] _]; [|intros p; by apply newest_fits].
  rewrite <- (ci_reads _ _ _ _ _ _ _ _ _ Hi k (2 ^ 64)) in Hv by lia. pose proof (ct_wf _ _ _ _ (ci_table _ _ _ _ _ _ _ _ _ Hi)) as Hw.
  set (d := cell_disk _ _ _ _) in *.
  assert (processed_of (2 ^ 64) (positions_of (it_data (lv_table c)) k) = positions_of (it_data (lv_table c)) k) as Hall.
  { unfold processed_of. apply filter_all, List.Forall_forall. intros p Hp. apply (ci_overlay _ _ _ _ _ _ _ _ _ Hi) in Hp.
    pose proof (history_fits k h Hh) as Hf. rewrite List.Forall_forall in Hf. destruct (Hf p Hp) as [[_ Ho] _]. by apply Z.ltb_lt. }
  destruct (it_view_at (lv_table c) es k (2 ^ 64)) as [p|] eqn:E.
  - cbn [or_else] in Hv. unfold visible in Hv. destruct (is_removed p) eqn:Er; [done|]. cbn in Hv. destruct (iwp_offset p <? _); [done|]. injection Hv as <-.
    assert (wp_offset (into_wal_position p) = iwp_offset p) as Ho by (unfold is_removed in Er; by destruct p as [? ? []]).
    rewrite (newest_kept (lv_table c) es k lp (2 ^ 64) p Hw E) by (lia || by rewrite Hall). done.
  - assert (it_view_at (lv_table c) es k lp = None) as ->.
    { rewrite view_at_parts, Hall in E. rewrite view_at_parts. destruct (last (positions_of (it_data (lv_table c)) k)) eqn:El; [done|].
      apply last_None in El. rewrite El. exact E. }
    cbn [or_else] in *. unfold visible in Hv. destruct d as [p|]; [|done]. destruct (_ || _); [done|]. injection Hv as <-. done.
Qed.
End facts.

(** C18. Relocation overlooks nothing.  In every reachable state of a live cell,
    with any flush in flight, building the view of it at a frontier succeeds, and
    what it yields contains the newest write of every key that is below the
    frontier and still readable, wherever it is: in the write buffer, in the blobs
    or in both.  From the published frontier on the view is exact: what it yields
    above the floor is for each key the newest write below the frontier. *)
Theorem cell_view_covers {C : Type} `{ValueCache C} `{!ValueCacheSpec C} {S : Type} `{Loader S} (ks : option nat) (U : list (list Z))
    `{!LoaderSpec S ks U} (cx : CellContext) (record_at : list Z -> WalPosition -> list Z * list Z) (x : CellSys C S) (lp : LastProcessed) :
  key_space_ok ks U cx -> cell_reachable ks U cx record_at x -> lp <= 2 ^ 64 ->
  let s := cs_store x in
  exists v entries, entry_view (cs_cell x) lp s = Ok (s, Some v) /\ view_iter v = Ok entries /\
    (forall k w, visible (ld_min_wal_position s) (newest_write k (cs_history x)) = Some w -> wp_offset w < lp -> In (k, w) entries) /\
    (ld_last_processed s <= lp -> forall k w, ld_min_wal_position s <= wp_offset w ->
       In (k, w) entries <-> visible (ld_min_wal_position s) (newest_at lp k (cs_history x)) = Some w).
Proof.
  intros Hk Hr Hlp. cbv zeta. destruct (cell_reachable_inv ks U cx record_at x Hk Hr) as [es Hi].
  destruct (entry_view_exact ks U (kso_universe _ _ _ Hk) record_at _ _ _ _ _ es lp Hi) as (v & entries & Hv & Hit & Hin).
  exists v, entries. split_and!; [done|done| |].
  - intros k w. exact (view_covers ks U record_at _ _ _ _ _ es lp k w entries Hi Hin Hlp).
  - intros Hfr k w Hw. rewrite Hin, <- (ci_reads ks U record_at _ _ _ _ _ es Hi k lp Hfr).
    rewrite visible_readable; [tauto|]. intros p. by apply (reads_fit ks U record_at _ _ _ _ _ es lp k p Hi).
Qed.

#[local] Existing Instance demo_loader.
#[local] Existing Instance demo_loader_spec.

(** The view of a cell after a flush, at its frontier: the key overwritten since
    the flush is in it once, at its newest write. *)
Lemma cell_view_covers_witness :
  exists s (c : LiveEntry list_cache) v entries, entry_view c (2 ^ 64) s = Ok (s, Some v) /\ view_iter v = Ok entries /\ In (demo_key 5, wp_new 150 10) entries.
Proof.
  destruct demo_flushed as (s & c & Hr & Hm & _).
  destruct (cell_view_covers (Some 5%nat) demo_universe demo_cx demo_record _ (2 ^ 64) demo_key_space_ok Hr) as (v & entries & Hv & Hit & Hall & _); [lia|].
  exists s, c, v, entries. split_and!; [exact Hv|exact Hit|]. apply Hall; [|cbn; lia]. cbn [cs_store cs_history]. rewrite Hm. reflexivity.
Defined.
