(* ===== verification/CellHandlers.v ===== *)
(** * The table's handlers on a cell

    What [LargeTable] (src/tidehunter/src/large_table.rs) does to the entry of
    a cell under its row lock: inserts and removals with the promotion of
    committed transactions and the flush they may trigger, the three phases of
    the promotion job, the flusher's completion callbacks, and the passes of a
    snapshot over all entries.  Each of them is a sequence of the steps of
    [CellSystem], so the properties of [CellCorrect] hold between any of them.

    A walk over the table visits its entries one by one, each under its row
    lock. *)

From Stdlib Require Import ZArith Lia List Sorting.Sorted.
From stdpp Require Import base tactics list gmap strings.
From S2P Require Import Prelude BTree Bytes Position Cell Layout KeyShape Flat FlatFacts IndexTable IndexOps IndexTableFacts IndexWalk.
From S2P Require Import IndexPromote IndexFlush IndexUnmerge IndexCodec IndexClean Levels Loader Flusher FlusherFacts.
From S2P Require Import FlusherShards FlushCommand IndexFormat IndexStore FlushSpec TableEntry Snapshot Pending CellOps CellSystem.
From S2P Require Import CellInvariant CellSteps CellReads CellCorrect.

Local Open Scope Z_scope.

(** ** Definitions *)

Section handlers.
Context {C : Type} `{ValueCache C} {S : Type} `{Loader S}.
Notation Live := (LiveEntry C).

(** [drop_guard] is what the frontier does when the guard of the write is
    dropped, before the cell is unloaded. *)
Definition table_insert (cx : CellContext) (flush_supported : bool) (st : status_store) (drop_guard : S -> S) (c : Live) (k : list Z) (v : WalPosition)
    (full_key value : list Z) : LM S (Live * bool * option FlushKind) :=
  frontier ← asks ld_last_processed;
  c ← lift (promote_pending_for frontier st c k);
  c ← lift (cell_insert frontier c k v full_key (Some value));
  if flush_supported && too_many_dirty cx c then
    _ ← (fun s => Ok (drop_guard s, tt));
    unload_if_ks_enabled cx st c
  else mret (c, true, None).

Definition table_remove (st : status_store) (c : Live) (k : list Z) (v : WalPosition) : LM S Live :=
  frontier ← asks ld_last_processed;
  c ← lift (promote_pending_for frontier st c k);
  lift (cell_remove frontier c k v).

(** *** The promotion job *)

(** Phase 1: the entry, what it returned, and the table and threshold to work
    on. *)
Definition promote_flat_collect (cx : CellContext) (flush_supported : bool) (st : status_store) (c : Live) :
    LM S (Live * option FlushKind * option (SharedTable * LastProcessed)) :=
  loader_lp ← asks ld_last_processed;
  '(c, ok, kind, _) ← promote_pending_and_check_flush cx flush_supported st c;
  if negb (ok : bool) then mret (c, kind, None)
  else
    let threshold := match le_pending_last_processed (lv_entry c) with Some p => p | None => loader_lp end in
    let '(c, arc) := clone_shared c in
    mret (c, kind, Some (arc, threshold)).

(** Phase 2, outside the lock. *)
Definition promote_flat_work (arc : SharedTable) (threshold : LastProcessed) : outcome (option IndexTable) :=
  should ← should_promote_to_flat (sh_table arc) threshold;
  if negb (should : bool) then Ok None
  else t ← promote_to_flat_unconditionally (sh_table arc) threshold; Ok (Some t).

(** Phase 3: the table is taken if the entry still shares the snapshot. *)
Definition promote_flat_write_back (c : Live) (arc : SharedTable) (promoted_table : IndexTable) : Live :=
  if same_shared c arc then put_owned c promoted_table else c.

(** *** The flusher's callbacks *)

Definition with_promoted_entry {R} (frontier : LastProcessed) (st : status_store) (c : Live)
    (f : Live -> outcome (Live * R)) : outcome (Live * R) :=
  c ← promote_pending frontier st c; f c.

Definition table_update_flushed_index (cx : CellContext) (frontier : LastProcessed) (st : status_store) (c : Live)
    (original_index : SharedTable) (new_levels : IndexLevels) : outcome (Live * list WalPosition) :=
  with_promoted_entry frontier st c (fun c =>
    let before := levels_iter (le_levels (lv_entry c)) in
    c ← update_flushed_index cx c original_index new_levels;
    Ok (c, dropped_positions c before)).

Definition table_update_relocated_index (frontier : LastProcessed) (st : status_store) (c : Live) (new_levels : IndexLevels) :
    outcome (Live * list WalPosition) :=
  with_promoted_entry frontier st c (fun c =>
    let before := levels_iter (le_levels (lv_entry c)) in
    c ← update_relocated_position c new_levels;
    Ok (c, dropped_positions c before)).

Definition sync_flush_for_relocation (cx : CellContext) (st : status_store) (c : Live) (relocation : RelocationFlush) :
    LM S (Live * bool * list WalPosition) :=
  frontier ← asks ld_last_processed;
  c ← lift (promote_pending frontier st c);
  let before := levels_iter (le_levels (lv_entry c)) in
  '(c, ok) ← sync_flush cx st c relocation;
  mret (c, ok, if (ok : bool) then dropped_positions c before else []).

(** *** Snapshots of a key space *)

(** An entry as a walk over the table visits it, with the frontier the loader
    answers then. *)
Record Visit := mkVisit { vi_cell : CellId; vi_entry : Live; vi_last_processed : LastProcessed }.

(** [ks_snapshot]: the entries as they are left, their snapshots and the least
    replay position. *)
Fixpoint ks_snapshot (st : status_store) (visits : list Visit) (replay_from : option Z) :
    outcome (list (CellId * Live) * list (CellId * SnapshotEntryData) * option Z) :=
  match visits with
  | [] => Ok ([], [], replay_from)
  | v :: rest =>
      c ← promote_pending (vi_last_processed v) st (vi_entry v);
      let '(c, data, position) := cell_snapshot (vi_last_processed v) c in
      let replay_from :=
        match position with
        | Some p => Some (Z.min (match replay_from with Some r => r | None => 2 ^ 64 - 1 end) p)
        | None => replay_from
        end in
      '(entries, ks_data, replay_from) ← ks_snapshot st rest replay_from;
      Ok ((vi_cell v, c) :: entries, (vi_cell v, data) :: ks_data, replay_from)
  end.

(** [snapshot]: all key spaces; [replay_from] starts as the frontier read before
    the walk. *)
Fixpoint table_snapshot (st : status_store) (table : list (list Visit)) (replay_from : Z) :
    outcome (list (list (CellId * Live)) * LargeTableContainer SnapshotEntryData * Z) :=
  match table with
  | [] => Ok ([], [], replay_from)
  | ks :: rest =>
      '(ks, ks_data, ks_replay_from) ← ks_snapshot st ks None;
      let replay_from := match ks_replay_from with Some r => Z.min replay_from r | None => replay_from end in
      '(table, data, replay_from) ← table_snapshot st rest replay_from;
      Ok (ks :: table, ks_data :: data, replay_from)
  end.

(** *** The passes before a snapshot *)

Fixpoint accumulate_levels (layout : WalLayout) (levels : list WalPosition) (accumulator : gmap Z Z) : outcome (gmap Z Z) :=
  match levels with
  | [] => Ok accumulator
  | pos :: rest =>
      file_id ← locate_file layout (wp_offset pos);
      accumulate_levels layout rest
        (<[file_id := match accumulator !! file_id with Some n => n | None => 0 end + wp_frame_len pos]> accumulator)
  end.

(** [flush_and_accumulate]: the live bytes of each file and the flushes
    requested. *)
Fixpoint flush_and_accumulate (st : status_store) (layout : WalLayout) (threshold_position : Z) (visits : list Visit)
    (accumulator : gmap Z Z) : outcome (list (Live * option FlushKind) * gmap Z Z) :=
  match visits with
  | [] => Ok ([], accumulator)
  | v :: rest =>
      c ← promote_pending (vi_last_processed v) st (vi_entry v);
      accumulator ← accumulate_levels layout (levels_iter (le_levels (lv_entry c))) accumulator;
      requested ← request_flush_if_behind c (vi_last_processed v) threshold_position;
      '(entries, accumulator) ← flush_and_accumulate st layout threshold_position rest accumulator;
      Ok (requested :: entries, accumulator)
  end.

(** [relocate_and_snapshot]: its requests. *)
Fixpoint request_relocations (st : status_store) (relocate_files : WalPosition -> bool) (visits : list Visit) :
    outcome (list (Live * option FlushKind)) :=
  match visits with
  | [] => Ok []
  | v :: rest =>
      c ← promote_pending (vi_last_processed v) st (vi_entry v);
      requested ← request_force_relocate c (vi_last_processed v) relocate_files;
      entries ← request_relocations st relocate_files rest;
      Ok (requested :: entries)
  end.
End handlers.

(** ** The handlers are sequences of steps *)

(** The write a committed change makes. *)
Definition change_write (ch : CommittedChange) : IndexWalPosition :=
  if cc_is_modified ch then iwp_new_modified (cc_value ch) else iwp_new_removed (cc_value ch).

(** The history after the changes. *)
Definition changes_history (h : list entry) (chs : list CommittedChange) : list entry :=
  fold_left (fun h ch => (cc_key ch, change_write ch) :: h) chs h.

Section refinement.
Context {C : Type} `{ValueCache C} `{!ValueCacheSpec C} {S : Type} `{Loader S} (ks : option nat) (U : list (list Z)) `{!LoaderSpec S ks U}.
Context (cx : CellContext) (record_at : list Z -> WalPosition -> list Z * list Z).
Notation cell_step := (cell_step U cx record_at).
Notation cell_inv := (cell_inv ks U record_at).
Notation Live := (LiveEntry C).

(** The changes may be applied, one after the other. *)
Fixpoint changes_allowed (h : list entry) (b : Z) (cached : Prop) (chs : list CommittedChange) : Prop :=
  match chs with
  | [] => True
  | ch :: rest =>
      write_allowed U h b (cc_key ch) (change_write ch) /\
      (cc_is_modified ch = true -> cached ->
       let '(full_key, lru_value) := split_lru_update (cc_key ch) (cc_lru_update ch) in
       cached_as record_at (cc_key ch) (cc_value ch) full_key lru_value) /\
      changes_allowed ((cc_key ch, change_write ch) :: h) b cached rest
  end.

(** Two states of the cell a sequence of steps leads between, the store, the
    flush in flight and the barrier as they were. *)
Definition steps_to (s : S) (f : Flight) (b : Z) (c : Live) (h : list entry) (c' : Live) (h' : list entry) : Prop :=
  rtc cell_step (mkCellSys s c f h b) (mkCellSys s c' f h' b).

Lemma insert_cached (frontier : LastProcessed) (c c' : Live) k v fk lv :
  cell_insert frontier c k v fk lv = Ok c' -> is_Some (lv_value_lru c') <-> is_Some (lv_value_lru c).
Proof.
  unfold cell_insert. intros Hc. inv_ok Hc; cbn in *; try done.
Qed.

Lemma remove_cached (frontier : LastProcessed) (c c' : Live) k v :
  cell_remove frontier c k v = Ok c' -> is_Some (lv_value_lru c') <-> is_Some (lv_value_lru c).
Proof. unfold cell_remove. intros Hc. inv_ok Hc; cbn in *; try done. apply fmap_is_Some. Qed.

Lemma changes_step s f b chs : forall (c : Live) h es,
  cell_inv s c f h b es -> changes_allowed h b (is_Some (lv_value_lru c)) chs ->
  exists c', apply_committed_changes (ld_last_processed s) c chs = Ok c' /\ steps_to s f b c h c' (changes_history h chs) /\
    cell_inv s c' f (changes_history h chs) b es /\ (is_Some (lv_value_lru c') <-> is_Some (lv_value_lru c)).
Proof.
  induction chs as [|ch chs IH]; intros c h es Hi Ha.
  { exists c. split; [done|]. split; [apply rtc_refl|]. by split. }
  destruct Ha as (Hw & Hca & Hrest). cbn [apply_committed_changes changes_history fold_left].
  assert (exists c1, (if cc_is_modified ch then
             let '(full_key, lru_value) := split_lru_update (cc_key ch) (cc_lru_update ch) in
             cell_insert (ld_last_processed s) c (cc_key ch) (cc_value ch) full_key lru_value
           else cell_remove (ld_last_processed s) c (cc_key ch) (cc_value ch)) = Ok c1 /\
           cell_step (mkCellSys s c f h b) (mkCellSys s c1 f ((cc_key ch, change_write ch) :: h) b) /\
           cell_inv s c1 f ((cc_key ch, change_write ch) :: h) b es /\ (is_Some (lv_value_lru c1) <-> is_Some (lv_value_lru c)))
    as (c1 & Hc1 & Hs1 & Hi1 & Hl1).
  { unfold change_write in *. destruct (cc_is_modified ch).
    - destruct (split_lru_update _ _) as [fk lv]. specialize (Hca eq_refl).
      destruct (insert_keeps ks U record_at s c f h b es _ _ fk lv Hi Hw Hca) as (c1 & Hc1 & Hi1). exists c1. split; [done|].
      split; [by eapply step_cell_insert|]. split; [done|]. by eapply insert_cached.
    - destruct (remove_keeps ks U record_at s c f h b es _ _ Hi Hw) as (c1 & Hc1 & Hi1). exists c1. split; [done|].
      split; [by eapply step_cell_remove|]. split; [done|]. by eapply remove_cached. }
  rewrite Hc1. unfold mbind, outcome_bind. destruct (IH c1 _ es Hi1) as (c' & Hc' & Hs' & Hi' & Hl').
  { revert Hrest. clear -Hl1. generalize ((cc_key ch, change_write ch) :: h). induction chs as [|ch' chs IH]; intros h'; [done|].
    intros (? & Hc & ?). split; [done|]. split; [|by apply IH]. intros Hm Hl. apply Hc; [done|]. by apply Hl1. }
  exists c'. split; [done|]. split; [by eapply rtc_l|]. split; [done|]. by rewrite Hl'.
Qed.

(** Promoting committed writes, all or one key's. *)
Lemma promote_pending_steps s f b c h es st pending chs n :
  cell_inv s c f h b es -> take_committed st (lv_pending_data c) = Ok (pending, chs, n) ->
  changes_allowed h b (is_Some (lv_value_lru c)) chs ->
  exists c', promote_pending (ld_last_processed s) st c = Ok c' /\ steps_to s f b c h c' (changes_history h chs) /\
    cell_inv s c' f (changes_history h chs) b es /\ (is_Some (lv_value_lru c') <-> is_Some (lv_value_lru c)).
Proof.
  intros Hi Ht Ha. unfold promote_pending. rewrite Ht.
  destruct (changes_step s f b chs (set_pending_data c pending) h es (pending_keeps ks U record_at _ _ _ _ _ _ pending Hi) Ha) as (c' & Hc & Hs & Hi' & Hl).
  exists c'. split; [exact Hc|]. split; [|done]. eapply rtc_l; [apply step_cell_pending|exact Hs].
Qed.

Lemma promote_pending_for_steps s f b c h es st k pending chs n :
  cell_inv s c f h b es -> take_committed_for st (lv_pending_data c) k = Ok (pending, chs, n) ->
  changes_allowed h b (is_Some (lv_value_lru c)) chs ->
  exists c', promote_pending_for (ld_last_processed s) st c k = Ok c' /\ steps_to s f b c h c' (changes_history h chs) /\
    cell_inv s c' f (changes_history h chs) b es /\ (is_Some (lv_value_lru c') <-> is_Some (lv_value_lru c)).
Proof.
  intros Hi Ht Ha. unfold promote_pending_for. rewrite Ht.
  destruct (changes_step s f b chs (set_pending_data c pending) h es (pending_keeps ks U record_at _ _ _ _ _ _ pending Hi) Ha) as (c' & Hc & Hs & Hi' & Hl).
  exists c'. split; [exact Hc|]. split; [|done]. eapply rtc_l; [apply step_cell_pending|exact Hs].
Qed.

(** Setting [pending_last_processed] commutes with writes. *)
Definition with_pending (p : option LastProcessed) (c : Live) : Live :=
  on_entry c (fun e => set_pending_last_processed e p).

Lemma insert_commutes p frontier c k v fk lv :
  cell_insert frontier (with_pending p c) k v fk lv = c' ← cell_insert frontier c k v fk lv; Ok (with_pending p c').
Proof.
  unfold cell_insert. change (lv_table (on_entry (with_pending p c) _)) with (lv_table c).
  change (lv_table (on_entry c _)) with (lv_table c). destruct (it_insert (lv_table c) k v) as [[t []]|]; [|done..].
  unfold mbind, outcome_bind. change (lv_value_lru (put_owned (on_entry (with_pending p c) _) t)) with (lv_value_lru c).
  change (lv_value_lru (put_owned (on_entry c _) t)) with (lv_value_lru c). destruct (lv_value_lru c); [|done]. by destruct lv.
Qed.

Lemma remove_commutes p frontier c k v :
  cell_remove frontier (with_pending p c) k v = c' ← cell_remove frontier c k v; Ok (with_pending p c').
Proof.
  unfold cell_remove. change (lv_table (on_entry (with_pending p c) _)) with (lv_table c).
  change (lv_table (on_entry c _)) with (lv_table c). by destruct (it_remove (lv_table c) k v) as [[t []]|].
Qed.

Lemma changes_commute p frontier chs : forall c,
  apply_committed_changes frontier (with_pending p c) chs = c' ← apply_committed_changes frontier c chs; Ok (with_pending p c').
Proof.
  induction chs as [|ch chs IH]; intros c; [done|]. cbn [apply_committed_changes]. destruct (cc_is_modified ch).
  - destruct (split_lru_update _ _) as [fk lv]. rewrite insert_commutes. destruct (cell_insert _ _ _ _ _ _); [apply IH|done].
  - rewrite remove_commutes. destruct (cell_remove _ _ _ _); [apply IH|done].
Qed.

Lemma promote_pending_commutes p frontier st c :
  promote_pending frontier st (with_pending p c) = c' ← promote_pending frontier st c; Ok (with_pending p c').
Proof.
  unfold promote_pending. change (lv_pending_data (with_pending p c)) with (lv_pending_data c).
  destruct (take_committed st (lv_pending_data c)) as [[[pending chs] n]|]; [|done].
  exact (changes_commute p frontier chs (set_pending_data c pending)).
Qed.

Lemma changes_dirty frontier chs c (c' : Live) :
  apply_committed_changes frontier c chs = Ok c' -> state_is_dirty (lv_state c) = true -> state_is_dirty (lv_state c') = true.
Proof.
  revert c. induction chs as [|ch chs IH]; intros c; [by intros [= <-]|]. cbn [apply_committed_changes].
  assert (forall c1, (if cc_is_modified ch then
             let '(full_key, lru_value) := split_lru_update (cc_key ch) (cc_lru_update ch) in
             cell_insert frontier c (cc_key ch) (cc_value ch) full_key lru_value
           else cell_remove frontier c (cc_key ch) (cc_value ch)) = Ok c1 ->
           state_is_dirty (lv_state c1) = true) as Hd1.
  { intros c1. destruct (cc_is_modified ch).
    - destruct (split_lru_update _ _) as [fk lv]. unfold cell_insert. intros Hc. inv_ok Hc; unfold lv_state; cbn; by destruct (le_state _).
    - unfold cell_remove. intros Hc. inv_ok Hc; unfold lv_state; cbn; by destruct (le_state _). }
  intros Hc Hd. destruct (if cc_is_modified ch then _ else _) as [c1|] eqn:E; [|done]. apply (IH c1); [exact Hc|]. by apply Hd1.
Qed.

Lemma insert_pending_data frontier c (c' : Live) k v fk lv :
  cell_insert frontier c k v fk lv = Ok c' -> lv_pending_data c' = lv_pending_data c.
Proof. unfold cell_insert. intros Hc. by inv_ok Hc. Qed.

Lemma remove_pending_data frontier c (c' : Live) k v :
  cell_remove frontier c k v = Ok c' -> lv_pending_data c' = lv_pending_data c.
Proof. unfold cell_remove. intros Hc. by inv_ok Hc. Qed.

Lemma changes_pending_data frontier chs : forall c (c' : Live),
  apply_committed_changes frontier c chs = Ok c' -> lv_pending_data c' = lv_pending_data c.
Proof.
  induction chs as [|ch chs IH]; intros c c'; cbn [apply_committed_changes]; [by intros [= <-]|].
  destruct (cc_is_modified ch).
  - destruct (split_lru_update _ _) as [fk lv]. destruct (cell_insert _ _ _ _ _ _) as [c1|] eqn:E; [|done]. intros Hc%IH.
    by rewrite Hc, (insert_pending_data _ _ _ _ _ _ _ E).
  - destruct (cell_remove _ _ _ _) as [c1|] eqn:E; [|done]. intros Hc%IH. by rewrite Hc, (remove_pending_data _ _ _ _ _ E).
Qed.

(** The asynchronous unload: nothing, or a flush request. *)
Lemma unload_steps s f b c h es st pending chs n :
  cell_inv s c f h b es -> cx_sync_flush cx = false -> cx_unloading_disabled cx = false -> state_is_dirty (lv_state c) = true ->
  take_committed st (lv_pending_data c) = Ok (pending, chs, n) -> changes_allowed h b (is_Some (lv_value_lru c)) chs ->
  exists c' kind h' f' b', unload_if_ks_enabled cx st c s = Ok (s, (c', true, kind)) /\
    rtc cell_step (mkCellSys s c f h b) (mkCellSys s c' f' h' b') /\
    f' = (match kind with Some kind => Requested kind | None => f end) /\ (h' = h \/ h' = changes_history h chs).
Proof.
  intros Hi Hsync Hun Hd Ht Ha. unfold unload_if_ks_enabled. rewrite Hun, Hsync.
  destruct (le_pending_last_processed (lv_entry c)) as [lp|] eqn:Ep.
  { exists c, None, h, f, b. split; [done|]. split; [apply rtc_refl|]. auto. }
  pose proof (no_pending_idle ks U record_at _ _ _ _ _ _ Hi Ep) as ->.
  destruct (promote_pending_steps s Idle b c h es st pending chs n Hi Ht Ha) as (c1 & Hc1 & Hs1 & Hi1 & _).
  assert (state_is_dirty (lv_state c1) = true) as Hd1.
  { unfold promote_pending in Hc1. rewrite Ht in Hc1. by eapply (changes_dirty _ chs (set_pending_data c pending)). }
  destruct (request_keeps ks U record_at s c1 _ b es [] Hi1 Hd1) as (c2 & kind & Hk & _).
  exists c2, (Some kind), (changes_history h chs), (Requested kind), (Z.max b (ld_last_processed s)). split; [|split; [|auto]].
  - unfold mbind, LM_bind, asks, lift. fold (with_pending (Some (ld_last_processed s)) c).
    rewrite promote_pending_commutes, Hc1. unfold mbind, outcome_bind. fold (with_pending (Some (ld_last_processed s)) c1) in Hk.
    by rewrite Hk.
  - eapply rtc_r; [exact Hs1|]. eapply step_cell_request; [apply (ci_flight _ _ _ _ _ _ _ _ _ Hi1)|exact Hk].
Qed.

(** *** The promotion job *)

(** A snapshot of the table the job holds: while the cell still shares it, it is
    the cell's table, and the threshold is not past the frontier nor past a
    flush in flight. *)
Definition job_holds (arc : SharedTable) (threshold : LastProcessed) (x : CellSys C S) : Prop :=
  (sh_id arc < lv_next_arc (cs_cell x))%nat /\
  (lv_shared (cs_cell x) = Some (sh_id arc) ->
   lv_table (cs_cell x) = sh_table arc /\ threshold <= ld_last_processed (cs_store x) /\
   forall p, le_pending_last_processed (lv_entry (cs_cell x)) = Some p -> threshold <= p).

Lemma job_holds_owned arc threshold s c f h b :
  (sh_id arc < lv_next_arc c)%nat -> lv_shared c = None -> job_holds arc threshold (mkCellSys s c f h b).
Proof. intros Hid Hn. split; [done|]. cbn. by rewrite Hn. Qed.

Lemma insert_owned frontier c (c' : Live) k v fk lv :
  cell_insert frontier c k v fk lv = Ok c' -> lv_shared c' = None /\ lv_next_arc c' = lv_next_arc c.
Proof. unfold cell_insert. intros Hc. by inv_ok Hc. Qed.

Lemma remove_owned frontier c (c' : Live) k v :
  cell_remove frontier c k v = Ok c' -> lv_shared c' = None /\ lv_next_arc c' = lv_next_arc c.
Proof. unfold cell_remove. intros Hc. by inv_ok Hc. Qed.

Lemma load_owned c (c' : Live) s : maybe_load c s = Ok (s, (c', true)) -> c' = c \/ lv_shared c' = None /\ lv_next_arc c' = lv_next_arc c.
Proof.
  unfold maybe_load. destruct (as_unloaded_state c) as [d|]; [|intros [= ->]; by left].
  destruct (le_pending_last_processed (lv_entry c)); [intros [= ->]; by left|].
  intros Hc. right. unfold mbind, LM_bind, lift, asks, mret, LM_ret in Hc.
  destruct (levels_l0 _); destruct d; cbn in Hc; inv_ok Hc; done.
Qed.

Lemma complete_owned c (c' : Live) sh l :
  cx_unloading_disabled cx = false -> update_flushed_index cx c sh l = Ok c' -> lv_shared c' = None /\ lv_next_arc c' = lv_next_arc c.
Proof.
  intros Hun. unfold update_flushed_index, commit_pending_last_processed, clear_after_flush. rewrite Hun. cbn [negb orb andb].
  intros Hc. inv_ok Hc; try done; match goal with E : _ && false = true |- _ => by rewrite andb_false_r in E end.
Qed.

Lemma clone_shared_cases (c : Live) :
  (clone_shared c).1 = c \/ lv_shared (clone_shared c).1 = Some (lv_next_arc c) /\ lv_next_arc (clone_shared c).1 = Datatypes.S (lv_next_arc c).
Proof. unfold clone_shared. destruct (lv_shared c); [by left|by right]. Qed.

Lemma clone_shared_job arc threshold s (c : Live) f h b :
  job_holds arc threshold (mkCellSys s c f h b) -> job_holds arc threshold (mkCellSys s (clone_shared c).1 f h b).
Proof.
  intros [Hid Hs]. cbn in Hid, Hs. destruct (clone_shared_cases c) as [->|[E1 E2]]; [done|].
  split; cbn; [rewrite E2; lia|]. rewrite E1. intros [= E]. lia.
Qed.

Lemma job_step arc threshold x y :
  key_space_ok ks U cx -> cell_sys_inv ks U record_at x -> cell_step x y -> job_holds arc threshold x -> job_holds arc threshold y.
Proof.
  intros [Hu Hser Hnc Hun] [es Hi] Hs [Hid Hsh]. pose proof (conj Hid Hsh) as Hj.
  destruct Hs as [s c f h b k v fk lv c' Ha Hlv Hc|s c f h b k v c' Ha Hc|s c f h b p|s c f h b lp t Hlp Hp Hc|s c f h b|s c f h b c' Hc
    |s c f h b|s s' c f h b Ha|s c h b rp c' kind Hp Hc|s c h b kind s' sh l Ha Hc|s c h b sh l c' Hc]; cbn [cs_cell cs_store] in *.
  - apply insert_owned in Hc as [E1 E2]. by apply job_holds_owned; [rewrite E2|].
  - apply remove_owned in Hc as [E1 E2]. by apply job_holds_owned; [rewrite E2|].
  - done.
  - by apply job_holds_owned.
  - by apply (clone_shared_job arc threshold s c f h b).
  - apply load_owned in Hc as [->|[E1 E2]]; [done|]. by apply job_holds_owned; [rewrite E2|].
  - unfold cell_snapshot. cbn [fst]. destruct (_ && _); done.
  - destruct Ha as (_ & _ & Hlp). split; [done|]. cbn. intros E. destruct (Hsh E) as (H1 & H2 & H3). split; [done|]. split; [lia|done].
  - assert (c' = (clone_shared (with_pending (Some (ld_last_processed s)) c)).1) as ->.
    { unfold flush_kind in Hc. fold (with_pending (Some (ld_last_processed s)) c) in Hc.
      destruct (lv_state (with_pending _ c)); try done; by destruct (clone_shared _); injection Hc as <- _. }
    apply (clone_shared_job arc threshold s). split; [done|]. cbn. intros E. destruct (Hsh E) as (H1 & H2 & H3).
    split; [done|]. split; [done|]. by intros p [= <-].
  - destruct (flush_keeps ks U Hu cx Hser Hnc record_at s c h b es kind Hi Ha) as (s'' & sh' & l' & Hc' & (_ & _ & Hlp) & _).
    rewrite Hc in Hc'. injection Hc' as <- <- <-. split; [done|]. cbn. intros E. destruct (Hsh E) as (H1 & H2 & H3).
    split; [done|]. split; [lia|done].
  - apply complete_owned in Hc as [E1 E2]; [|done]. by apply job_holds_owned; [rewrite E2|].
Qed.

Lemma should_promote_ok t lp : overlay_wf (it_data t) -> exists b, should_promote_to_flat t lp = Ok b.
Proof.
  intros [_ Hw]. unfold should_promote_to_flat, should_promote, drainable_position_count. destruct (_ <? _)%nat; [by eexists|].
  assert (exists n, drainable_positions lp (it_data t) = Ok n) as [n ->]; [|by eexists].
  induction Hw as [|[k ps] data (Hne & _) _ [n IH]]; [by eexists|]. cbn [drainable_positions snd] in *. unfold positions_processed.
  destruct (last ps) as [p|] eqn:E; [|by apply last_None in E]. cbn. rewrite IH. cbn. by eexists.
Qed.

Lemma promote_work_ok arc es threshold :
  universe_ok ks U -> cell_table ks U (sh_table arc) es ->
  exists r, promote_flat_work arc threshold = Ok r /\
    forall t, r = Some t -> promote_to_flat_unconditionally (sh_table arc) threshold = Ok t.
Proof.
  intros Hu Ht. unfold promote_flat_work. destruct (should_promote_ok (sh_table arc) threshold) as [b ->]; [apply Ht|].
  destruct (promote_cell ks U Hu (sh_table arc) es threshold Ht) as (t & Hp & _). destruct b; cbn.
  - rewrite Hp. cbn. eexists. split; [done|]. by intros ? [= <-].
  - by eexists.
Qed.

Lemma job_holds_rtc arc threshold x y :
  key_space_ok ks U cx -> rtc cell_step x y -> cell_sys_inv ks U record_at x -> job_holds arc threshold x -> job_holds arc threshold y.
Proof.
  intros Hk Hr. induction Hr as [|x z y Hs _ IH]; [done|]. intros Hi Hj. apply IH; [by eapply step_inv|by eapply job_step].
Qed.

(** What the job holds when it lets go of the lock. *)
Lemma job_holds_start x es :
  cell_inv (cs_store x) (cs_cell x) (cs_flight x) (cs_history x) (cs_barrier x) es ->
  job_holds (clone_shared (cs_cell x)).2
    (match le_pending_last_processed (lv_entry (cs_cell x)) with Some p => p | None => ld_last_processed (cs_store x) end)
    (mkCellSys (cs_store x) (clone_shared (cs_cell x)).1 (cs_flight x) (cs_history x) (cs_barrier x)).
Proof.
  intros Hi. set (threshold := match _ with Some _ => _ | None => _ end).
  assert (threshold <= ld_last_processed (cs_store x)) as Hle.
  { unfold threshold. pose proof (ci_frontier _ _ _ _ _ _ _ _ _ Hi). pose proof (ci_flight _ _ _ _ _ _ _ _ _ Hi) as Hfl.
    destruct (le_pending_last_processed _) as [p|] eqn:Ep; [|lia]. destruct (cs_flight x) as [|kind|sh l]; cbn in Hfl; [congruence| |].
    - destruct Hfl as (? & ? & lp & ? & _ & [E _ _ _ Hb _ _]). assert (lp = p) as -> by congruence. lia.
    - destruct Hfl as (lp & ? & ? & [E _ _ _ Hb _ _] & _). assert (lp = p) as -> by congruence. lia. }
  split; cbn [cs_cell cs_store].
  - pose proof (ci_arc _ _ _ _ _ _ _ _ _ Hi) as Ha. unfold clone_shared. destruct (lv_shared (cs_cell x)) as [id|] eqn:E; cbn; [by apply Ha|lia].
  - intros _. rewrite clone_shared_entry. split; [|split; [done|]].
    + unfold lv_table. rewrite clone_shared_entry. unfold clone_shared. by destruct (lv_shared (cs_cell x)).
    + intros p Ep. unfold threshold. rewrite Ep. lia.
Qed.

(** *** Replay positions *)

Definition at_most (r : option Z) (p : Z) : Prop := match r with Some r => r <= p | None => False end.

Lemma ks_snapshot_covers st visits : forall r es data r',
  ks_snapshot st visits r = Ok (es, data, r') ->
  (forall p, at_most r p -> at_most r' p) /\
  Forall (fun e => state_is_empty (lv_state e.2) = false -> at_most r' (le_last_processed (lv_entry e.2))) es /\
  List.map (fun e => (e.1, mkSnapshotEntry (le_levels (lv_entry e.2)) (le_last_processed (lv_entry e.2)))) es = data.
Proof.
  induction visits as [|v visits IH]; intros r es data r'; cbn [ks_snapshot].
  { intros [= <- <- <-]. split; [done|]. by split. }
  destruct (promote_pending _ st (vi_entry v)) as [c0|]; [|done]. unfold mbind, outcome_bind.
  destruct (cell_snapshot (vi_last_processed v) c0) as [[c d] p] eqn:Ec.
  destruct (ks_snapshot st visits _) as [[[es' data'] r'']|] eqn:Er; [|done]. intros [= <- <- <-].
  apply IH in Er as (Hmono & Hall & Hdata).
  assert (d = mkSnapshotEntry (le_levels (lv_entry c)) (le_last_processed (lv_entry c)) /\
          p = if state_is_empty (lv_state c) then None else Some (le_last_processed (lv_entry c))) as [-> ->]
    by (unfold cell_snapshot in Ec; by injection Ec as <- <- <-).
  split_and!; [|constructor; [|done]|by rewrite <- Hdata].
  - intros q Hq. apply Hmono. destruct (state_is_empty (lv_state c)); [done|]. destruct r as [r|]; [|done]. cbn in *. lia.
  - cbn. intros He. apply Hmono. rewrite He. cbn. lia.
Qed.

(** The position a snapshot stores is not past the frontier read before the
    walk, nor past the [last_processed] of any cell that is not empty. *)
Lemma table_snapshot_covers st table : forall r cells data r',
  table_snapshot st table r = Ok (cells, data, r') ->
  r' <= r /\ Forall (Forall (fun e => state_is_empty (lv_state e.2) = false -> r' <= le_last_processed (lv_entry e.2))) cells.
Proof.
  induction table as [|ks0 table IH]; intros r cells data r'; cbn [table_snapshot].
  { intros [= <- <- <-]. split; [lia|constructor]. }
  destruct (ks_snapshot st ks0 None) as [[[es ksd] kr]|] eqn:Ek; [|done]. unfold mbind, outcome_bind.
  destruct (table_snapshot st table _) as [[[cells' data'] r'']|] eqn:Et; [|done]. intros [= <- <- <-].
  apply ks_snapshot_covers in Ek as (_ & Hall & _). apply IH in Et as [Hle Hrest]. split; [destruct kr; lia|].
  constructor; [|done]. eapply Forall_impl; [exact Hall|]. cbv beta. intros e He Hn. specialize (He Hn). destruct kr; [|done]. cbn in He. lia.
Qed.

(** ** Properties *)

(** C9. An insert is a sequence of steps.  [LargeTable::insert] promotes the
    committed writes of the key, applies the write and, with too many dirty keys
    and no flush in flight, drops the guard of the write, which may move the
    frontier, drains all committed writes and requests a flush at the frontier
    read before the drain.  On a reachable cell it never panics, whatever the
    promotion drains and wherever the frontier moves, and it takes the cell through steps of the
    system: the write is in the history, and the request it returns is the
    flush in flight. *)
Theorem table_insert_steps (x : CellSys C S) (flush_supported : bool) (st : status_store) (drop_guard : S -> S) (k : list Z) (v : WalPosition)
    (full_key value : list Z) (pending1 pending2 : PendingTable) (chs1 chs2 : list CommittedChange) (n1 n2 : nat) :
  let cached := is_Some (lv_value_lru (cs_cell x)) in
  let w := (k, iwp_new_modified v) in
  key_space_ok ks U cx -> cell_reachable ks U cx record_at x -> cx_sync_flush cx = false ->
  store_advances (cs_store x) (drop_guard (cs_store x)) ->
  take_committed_for st (lv_pending_data (cs_cell x)) k = Ok (pending1, chs1, n1) ->
  take_committed st pending1 = Ok (pending2, chs2, n2) ->
  changes_allowed (cs_history x) (cs_barrier x) cached chs1 ->
  write_allowed U (changes_history (cs_history x) chs1) (cs_barrier x) k (iwp_new_modified v) ->
  (cached -> cached_as record_at k v full_key (Some value)) ->
  changes_allowed (w :: changes_history (cs_history x) chs1) (cs_barrier x) cached chs2 ->
  exists c' kind y,
    table_insert cx flush_supported st drop_guard (cs_cell x) k v full_key value (cs_store x) = Ok (cs_store y, (c', true, kind)) /\
    rtc cell_step x y /\ cs_cell y = c' /\ (cs_store y = cs_store x \/ cs_store y = drop_guard (cs_store x)) /\
    cs_flight y = (match kind with Some kind => Requested kind | None => cs_flight x end) /\
    (cs_history y = w :: changes_history (cs_history x) chs1 \/
     cs_history y = changes_history (w :: changes_history (cs_history x) chs1) chs2).
Proof.
  cbv zeta. intros Hk Hr Hsync Hdrop Ht1 Ht2 Ha1 Hw Hca Ha2. destruct (cell_reachable_inv ks U cx record_at x Hk Hr) as [es Hi].
  destruct x as [s c f h b]. cbn [cs_store cs_cell cs_flight cs_history cs_barrier] in *.
  destruct (promote_pending_for_steps s f b c h es st k pending1 chs1 n1 Hi Ht1 Ha1) as (c1 & Hc1 & Hs1 & Hi1 & Hl1).
  assert (lv_pending_data c1 = pending1) as Hp1.
  { unfold promote_pending_for in Hc1. rewrite Ht1 in Hc1. by rewrite (changes_pending_data _ chs1 (set_pending_data c pending1) c1 Hc1). }
  assert (is_Some (lv_value_lru c1) -> cached_as record_at k v full_key (Some value)) as Hca1 by (intros Hx; by apply Hca, Hl1).
  destruct (insert_keeps ks U record_at s c1 f _ b es k v full_key (Some value) Hi1 Hw Hca1) as (c2 & Hc2 & Hi2).
  assert (rtc cell_step (mkCellSys s c f h b) (mkCellSys s c2 f ((k, iwp_new_modified v) :: changes_history h chs1) b)) as Hs2.
  { eapply rtc_r; [exact Hs1|]. by eapply step_cell_insert. }
  unfold table_insert, mbind, LM_bind, asks, lift. rewrite Hc1, Hc2.
  destruct (flush_supported && too_many_dirty cx c2) eqn:Ef.
  - apply andb_true_iff in Ef as [_ Hd]. unfold too_many_dirty in Hd. apply andb_true_iff in Hd as [Hd _].
    pose proof (advance_keeps ks U record_at s (drop_guard s) c2 f _ b es Hi2 Hdrop) as Hi3.
    destruct (unload_steps (drop_guard s) f b c2 _ es st pending2 chs2 n2 Hi3 Hsync (kso_unloading _ _ _ Hk) Hd)
      as (c3 & kind & h3 & f3 & b3 & Hu & Hs3 & Hf3 & Hh3).
    + by rewrite (insert_pending_data _ _ _ _ _ _ _ Hc2), Hp1.
    + rewrite <- (insert_cached _ _ _ _ _ _ _ Hc2) in Hl1. clear -Ha2 Hl1. revert Ha2.
      generalize ((k, iwp_new_modified v) :: changes_history h chs1). induction chs2 as [|ch chs IH]; intros h'; [done|].
      intros (? & Hc & ?). split; [done|]. split; [|by apply IH]. intros Hm Hl. apply Hc; [done|]. by apply Hl1.
    + exists c3, kind, (mkCellSys (drop_guard s) c3 f3 h3 b3). split; [exact Hu|]. split; [etrans; [exact Hs2|]; eapply rtc_l; [by apply step_cell_advance|exact Hs3]|]. split_and!; [done|by right|done|done].
  - exists c2, None, (mkCellSys s c2 f ((k, iwp_new_modified v) :: changes_history h chs1) b). split; [done|]. split; [exact Hs2|]. split_and!; [done|by left|done|by left].
Qed.

(** C10. The promotion job is a step.  The job takes the table and a threshold
    under the row lock, promotes a copy outside it, and writes the copy back
    under the lock if the cell still shares the table it took.  Whatever steps
    the cell takes in between, the work on the copy does not panic, and the
    write-back is either dropped or a promotion the system allows: of the cell's
    current table, not past a flush requested meanwhile. *)
Theorem promote_job_steps (x y : CellSys C S) :
  let c := cs_cell x in let arc := (clone_shared c).2 in
  let threshold := match le_pending_last_processed (lv_entry c) with Some p => p | None => ld_last_processed (cs_store x) end in
  key_space_ok ks U cx -> cell_reachable ks U cx record_at x ->
  rtc cell_step (mkCellSys (cs_store x) (clone_shared c).1 (cs_flight x) (cs_history x) (cs_barrier x)) y ->
  exists r, promote_flat_work arc threshold = Ok r /\
    match r with
    | None => True
    | Some t =>
        promote_flat_write_back (cs_cell y) arc t = cs_cell y \/
        cell_step y (mkCellSys (cs_store y) (promote_flat_write_back (cs_cell y) arc t) (cs_flight y) (cs_history y)
                       (Z.max (cs_barrier y) threshold))
    end.
Proof.
  cbv zeta. intros Hk Hr Hsteps. destruct (cell_reachable_inv ks U cx record_at x Hk Hr) as [es Hi]. set (threshold := match _ with Some _ => _ | None => _ end).
  assert (cell_sys_inv ks U record_at (mkCellSys (cs_store x) (clone_shared (cs_cell x)).1 (cs_flight x) (cs_history x) (cs_barrier x))) as Hi1
    by (exists es; by apply share_keeps).
  pose proof (job_holds_start x es Hi) as Hj. fold threshold in Hj.
  assert (sh_table (clone_shared (cs_cell x)).2 = lv_table (cs_cell x)) as Et by (unfold clone_shared; by destruct (lv_shared (cs_cell x))).
  destruct (promote_work_ok (clone_shared (cs_cell x)).2 es threshold (kso_universe _ _ _ Hk)) as (r & Hw & Hp); [rewrite Et; apply Hi|].
  exists r. split; [done|]. destruct r as [t|]; [|done]. specialize (Hp t eq_refl).
  apply (job_holds_rtc _ _ _ _ Hk Hsteps Hi1) in Hj as [_ Hj]. unfold promote_flat_write_back.
  destruct (same_shared (cs_cell y) _) eqn:Es; [right|by left]. unfold same_shared in Es.
  destruct (lv_shared (cs_cell y)) as [id|] eqn:E; [|done]. apply Nat.eqb_eq in Es as ->. destruct (Hj eq_refl) as (Ht & Hlp & Hpend).
  destruct y as [s c f h b]. cbn [cs_store cs_cell cs_flight cs_history cs_barrier] in *.
  apply step_cell_promote; [done|done|]. by rewrite Ht.
Qed.
End refinement.

(** ** Witnesses *)

#[local] Existing Instance demo_loader.
#[local] Existing Instance demo_loader_spec.

(** One dirty key is too many. *)
Definition eager_cx : CellContext := mkCellContext demo_ctx 0 0 false false.

(** A committed write to another key is pending. *)
Definition demo_pending : PendingTable :=
  insert_pending pt_default (demo_key 7) true (wp_new 110 10) (Some (demo_key 7, [110])) (mkTx 3 false).

Definition demo_status : status_store := fun i => if Nat.eqb i 3 then TRANSACTION_STATUS_COMMITTED else TRANSACTION_STATUS_PENDING.

Definition pending_sys : CellSys list_cache (DbLoader FrameLog) := mkCellSys demo_store (set_pending_data demo_cell demo_pending) Idle [] 0.

Lemma eager_key_space_ok : key_space_ok (Some 5%nat) demo_universe eager_cx.
Proof. split; [apply demo_universe_ok|apply demo_serializes|done|done]. Qed.

Lemma pending_reachable : cell_reachable (Some 5%nat) demo_universe eager_cx demo_record pending_sys.
Proof. exists demo_cell_sys. split; [apply demo_opened|]. eapply rtc_once, step_cell_pending. Qed.

(** The frontier moves past the write. *)
Definition demo_drop (s : DbLoader FrameLog) : DbLoader FrameLog := mkDbLoader (db_indexes s) 131 (db_current_wal_position s) (db_min_wal_position s).

Lemma table_insert_steps_witness :
  exists c' kind, table_insert eager_cx true demo_status demo_drop (cs_cell pending_sys) (demo_key 5) (wp_new 120 10) (demo_key 5) [120] demo_store =
    Ok (demo_drop demo_store, (c', true, kind)) /\ is_Some kind.
Proof.
  destruct (take_committed_for demo_status (lv_pending_data (cs_cell pending_sys)) (demo_key 5)) as [[[p1 chs1] n1]|] eqn:E1;
    [|by vm_compute in E1].
  destruct (take_committed demo_status p1) as [[[p2 chs2] n2]|] eqn:E2; [|vm_compute in E1; injection E1 as <- _ _; by vm_compute in E2].
  destruct (table_insert_steps (Some 5%nat) demo_universe eager_cx demo_record pending_sys true demo_status demo_drop (demo_key 5) (wp_new 120 10)
    (demo_key 5) [120] p1 p2 chs1 chs2 n1 n2 eager_key_space_ok pending_reachable eq_refl) as (c' & kind & y & Ht & _ & _ & Hst & _); [|exact E1|exact E2|..].
  - split; [by intros p Hp|]. split; [done|]. cbn. lia.
  - vm_compute in E1. injection E1 as _ <- _. done.
  - vm_compute in E1. injection E1 as _ <- _. demo_write.
  - done.
  - vm_compute in E1. injection E1 as <- <- <-. vm_compute in E2. injection E2 as _ <- _. split; [demo_write|]. split; [|done].
    intros _ _. reflexivity.
  - exists c', kind. clear Hst. vm_compute in E1. injection E1 as <- <- <-. vm_compute in Ht. injection Ht as _ <- <-. split; [by vm_compute|by eexists].
Defined.

Lemma promote_job_steps_witness :
  exists s (c : LiveEntry list_cache) r, promote_flat_work (clone_shared c).2 (ld_last_processed s) = Ok r /\ lv_shared (clone_shared c).1 <> None.
Proof.
  destruct demo_flushed as (s & c & Hr & _).
  pose proof (promote_job_steps (Some 5%nat) demo_universe demo_cx demo_record _ _ demo_key_space_ok Hr (rtc_refl _ _)) as (r & Hw & _).
  destruct (cell_reachable_inv (Some 5%nat) demo_universe demo_cx demo_record _ demo_key_space_ok Hr) as [es Hi].
  pose proof (ci_flight _ _ _ _ _ _ _ _ _ Hi) as Hf. cbn [cs_store cs_cell cs_flight flight_ok] in *. rewrite Hf in Hw.
  exists s, c, r. split; [exact Hw|]. unfold clone_shared. by destruct (lv_shared c) as [id|] eqn:E; cbn; [rewrite E|].
Defined.
