(* ===== verification/Engine.v ===== *)
(** * Checkpoints over the running engine

    [src/tidehunter/src/checkpoint.rs] and [Db::checkpoint]
    (src/tidehunter/src/db.rs): a checkpoint is a latch on the WAL tracker, and
    reads the table as of the latched position.

    The claim of that file, that the view stays fixed while the database moves
    on, needs the parts together.  [engine_step] is the tracker behind its
    channel ([Tracker]), a cell with its flusher ([CellSystem]) and the
    transactions whose updates wait in the cell's pending table ([Pending]), in
    any interleaving.  What connects them is the WAL guard: a write reaches the
    cell, or its pending table, while its guard is alive; a transaction commits
    before its guards are dropped; the frontier the cell reads is the one the
    tracker publishes; and a flush, a promotion or a snapshot takes the
    committed updates first. *)

From Stdlib Require Import ZArith Lia List Sorting.Sorted.
From stdpp Require Import base tactics list gmap strings relations.
From S2P Require Import Prelude BTree Bytes Position Cell Layout Allocator Tracker KeyShape Flat FlatFacts IndexTable IndexOps IndexTableFacts.
From S2P Require Import IndexWalk IndexPromote IndexFlush IndexUnmerge IndexCodec IndexClean Levels Loader Flusher FlusherFacts.
From S2P Require Import FlusherShards FlushCommand IndexFormat IndexStore FlushSpec TableEntry Snapshot Pending CellOps CellSystem.
From S2P Require Import IterCache CellInvariant CellSteps CellReads CellWalk CellCorrect TableIter CellHandlers.

Local Open Scope Z_scope.

(** ** Checkpoints *)

Record DbCheckpoint := mkDbCheckpoint { ck_latch : WalTrackerLatch }.

(** [Db::checkpoint]: the request sent to the tracker, and the checkpoint its
    answer makes. *)
Definition db_checkpoint_request (response : nat) : WalTrackerMessage := LatchRequest response.

Definition db_checkpoint (response : nat) (ev : tracker_event) : option DbCheckpoint :=
  match ev with
  | LatchReply r latch => if (r =? response)%nat then Some (mkDbCheckpoint latch) else None
  | _ => None
  end.

(** [impl Drop for DbCheckpoint] *)
Definition checkpoint_drop (ck : DbCheckpoint) : WalTrackerMessage := LatchRelease (ck_latch ck).

Section reads.
Context `{BloomHashes} {C : Type} `{ValueCache C} {S : Type} `{Loader S}.
Context (blake2b256 : list Z -> list Z) (ksd : KeySpaceDesc).
Context (read_record_check_key : list Z -> WalPosition -> option (list Z)).

(** What [DbCheckpoint::get] makes of the table's answer. *)
Definition checkpoint_answer (k : list Z) (r : GetResult) : option (list Z) :=
  match r with
  | GetValue full_key value => if need_check_index_key ksd && negb (keqb full_key k) then None else Some value
  | GetWalPosition w => read_record_check_key k w
  | GetNotFound => None
  end.

(** [DbCheckpoint::get]; [None] is an error of the loader. *)
Definition checkpoint_get (st : status_store) (ck : DbCheckpoint) (c : LiveEntry C) (k : list Z) :
    LM S (LiveEntry C * option (option (list Z))) :=
  reduced_key ← lift (reduce_key blake2b256 (ks_key_indexing ksd) k);
  let last_processed := latch_position (ck_latch ck) in
  '(c, r) ← table_get_checkpoint st c reduced_key last_processed;
  mret (c, option_map (checkpoint_answer k) r).

(** [DbCheckpoint::next_entry], and the source of [DbCheckpoint::iterator]: the
    walk of [Db::next_entry] as of the latched position. *)
Definition checkpoint_source (ck : DbCheckpoint) : option LastProcessed := Some (latch_position (ck_latch ck)).

Context {T : Type} `{CellRows T C}.

Definition checkpoint_next_entry (cfg : IterConfig) (st : status_store) (walk_fuel : nat)
    (read_record_for_indexed_key : WalPosition -> list Z -> option (option (list Z * list Z))) (ck : DbCheckpoint) (fuel table_fuel : nat)
    (tab : T) (cell : CellId) (prev_key : option (list Z)) (end_cell_exclusive : option CellId) (reverse : bool) (caches : IterCaches) :
    LM S (T * IterCaches * option (option (CellId * list Z * list Z))) :=
  db_next_entry ksd cfg st walk_fuel read_record_for_indexed_key fuel table_fuel tab cell prev_key end_cell_exclusive reverse caches
    (checkpoint_source ck).
End reads.

(** ** The engine *)

Record Engine (C S : Type) := mkEngine {
  eg_wal : tracker_sys;
  eg_sys : CellSys C S;
  eg_status : status_store;
}.

Arguments mkEngine {C S}.
Arguments eg_wal {C S}.
Arguments eg_sys {C S}.
Arguments eg_status {C S}.

(** The updates waiting in the cell for a key. *)
Definition waiting {C} (c : LiveEntry C) (k : list Z) : list PendingUpdate := default [] (pt_data (lv_pending_data c) !! k).

Definition update_offset (u : PendingUpdate) : Z := wp_offset (pu_update u).

Definition update_write (u : PendingUpdate) : IndexWalPosition :=
  if pu_is_modified u then iwp_new_modified (pu_update u) else iwp_new_removed (pu_update u).

(** The guard of the allocation a position lies in is alive. *)
Definition guard_held (w : tracker_sys) (offset : Z) : Prop :=
  exists r, r ∈ sys_sent w /\ previous_position r ∈ sys_held w /\ previous_position r <= offset.

(** No committed update waits in the cell. *)
Definition drained {C} (st : status_store) (c : LiveEntry C) : Prop := forall k, List.filter (is_committed st) (waiting c k) = [].

(** The frontier of the tracker thread, before the latches cap it. *)
Definition internal_frontier (w : tracker_sys) : Z := ts_last_processed (tt_state (sys_thread w)).

Section engine.
Context `{BloomHashes} {C : Type} `{ValueCache C} {S : Type} `{Loader S} (U : list (list Z)) (cx : CellContext) (l : WalLayout).
Context (record_at : list Z -> WalPosition -> list Z * list Z).

(** The offsets of all writes to a key so far, applied or waiting. *)
Definition offsets_used (h : list entry) (c : LiveEntry C) (k : list Z) : list Z :=
  List.map iwp_offset (history_of k h) ++ List.map update_offset (waiting c k).

(** A write at a WAL position of its own whose guard is alive. *)
Definition write_guarded (w : tracker_sys) (h : list entry) (c : LiveEntry C) (k : list Z) (v : IndexWalPosition) : Prop :=
  In k U /\ iwp_fits v /\ guard_held w (iwp_offset v) /\ iwp_offset v ∉ offsets_used h c k.

Inductive engine_step : Engine C S -> Engine C S -> Prop :=
| eng_wal w w' s s' c f h b st :
    (** The WAL, the tracker and the rest of the database move on. *)
    tracker_step l w w' -> store_advances s s' -> ld_last_processed s' = tt_last_processed (sys_thread w') ->
    (forall k u, u ∈ waiting c k -> is_pending st u = true -> guard_held w (update_offset u) -> guard_held w' (update_offset u)) ->
    engine_step (mkEngine w (mkCellSys s c f h b) st) (mkEngine w' (mkCellSys s' c f h b) st)
| eng_cell w x x' st :
    (** Loads, promotions, snapshots and flushes of the cell. *)
    cell_step U cx record_at x x' -> cs_history x' = cs_history x ->
    lv_pending_data (cs_cell x') = lv_pending_data (cs_cell x) ->
    ld_last_processed (cs_store x') = ld_last_processed (cs_store x) ->
    (cs_barrier x' = cs_barrier x \/ drained st (cs_cell x)) ->
    engine_step (mkEngine w x st) (mkEngine w x' st)
| eng_insert w s c f h b st k v full_key lru_value c' :
    write_guarded w h c k (iwp_new_modified v) ->
    (is_Some (lv_value_lru c) -> cached_as record_at k v full_key lru_value) ->
    cell_insert (ld_last_processed s) c k v full_key lru_value = Ok c' ->
    engine_step (mkEngine w (mkCellSys s c f h b) st) (mkEngine w (mkCellSys s c' f ((k, iwp_new_modified v) :: h) b) st)
| eng_remove w s c f h b st k v c' :
    write_guarded w h c k (iwp_new_removed v) ->
    cell_remove (ld_last_processed s) c k v = Ok c' ->
    engine_step (mkEngine w (mkCellSys s c f h b) st) (mkEngine w (mkCellSys s c' f ((k, iwp_new_removed v) :: h) b) st)
| eng_begin w x st cell :
    (** A transaction starts, with a status cell of its own. *)
    (forall k u, u ∈ waiting (cs_cell x) k -> pu_status u <> cell) ->
    engine_step (mkEngine w x st) (mkEngine w x (tx_new st cell).1)
| eng_pend w s c f h b st k is_modified v lru_update tx :
    (** [apply_pending_batch] puts an update of a running transaction. *)
    let u := mkPU (tx_status tx) is_modified v lru_update in
    st (tx_status tx) = TRANSACTION_STATUS_PENDING -> write_guarded w h c k (update_write u) ->
    (is_modified = true -> is_Some (lv_value_lru c) ->
     let '(full_key, lru_value) := split_lru_update k lru_update in cached_as record_at k v full_key lru_value) ->
    engine_step (mkEngine w (mkCellSys s c f h b) st)
      (mkEngine w (mkCellSys s (set_pending_data c (insert_pending (lv_pending_data c) k is_modified v lru_update tx)) f h b) st)
| eng_commit w x st tx :
    st (tx_status tx) = TRANSACTION_STATUS_PENDING -> engine_step (mkEngine w x st) (mkEngine w x (tx_commit st tx))
| eng_revert w x st tx :
    st (tx_status tx) = TRANSACTION_STATUS_PENDING -> engine_step (mkEngine w x st) (mkEngine w x (tx_drop st tx))
| eng_promote w s c f h b st pending chs n c' :
    (** The committed updates are taken over, of all keys. *)
    take_committed st (lv_pending_data c) = Ok (pending, chs, n) ->
    promote_pending (ld_last_processed s) st c = Ok c' ->
    engine_step (mkEngine w (mkCellSys s c f h b) st) (mkEngine w (mkCellSys s c' f (changes_history h chs) b) st)
| eng_promote_for w s c f h b st k pending chs n c' :
    take_committed_for st (lv_pending_data c) k = Ok (pending, chs, n) ->
    promote_pending_for (ld_last_processed s) st c k = Ok c' ->
    engine_step (mkEngine w (mkCellSys s c f h b) st) (mkEngine w (mkCellSys s c' f (changes_history h chs) b) st).

(** All writes of a key that are in force: applied, or waiting and committed. *)
Definition engine_history (g : Engine C S) (k : list Z) : list entry :=
  changes_history (cs_history (eg_sys g)) (changes_of (eg_status g) k (waiting (cs_cell (eg_sys g)) k)).

(** The newest of them below a position. *)
Definition engine_newest (g : Engine C S) (lp : LastProcessed) (k : list Z) : option IndexWalPosition :=
  newest_at lp k (engine_history g k).

Definition latch_held (g : Engine C S) (ck : DbCheckpoint) : Prop :=
  In ((latch_position (ck_latch ck), latch_id (ck_latch ck)), tt) (tt_latches (sys_thread (eg_wal g))).

(** The checkpoint is open: its latch is held and its position processed, which
    is when the tracker answers the request. *)
Definition checkpoint_open (g : Engine C S) (ck : DbCheckpoint) : Prop :=
  latch_held g ck /\
  latch_position (ck_latch ck) <= internal_frontier (eg_wal g).
End engine.

(** ** Histories with changes *)

Lemma pos_insert_perm v ps : pos_insert v ps ≡ₚ v :: ps.
Proof.
  unfold pos_insert. rewrite <- Permutation_middle. constructor. induction ps as [|p ps IH]; [done|]. cbn [List.filter].
  destruct (iwp_offset p <? iwp_offset v); cbn [negb app]; [by constructor|]. rewrite <- Permutation_middle. by constructor.
Qed.

Lemma processed_insert lp v ps :
  processed_of lp (pos_insert v ps) = if is_processed lp v then pos_insert v (processed_of lp ps) else processed_of lp ps.
Proof.
  destruct (is_processed lp v) eqn:E.
  2:{ apply Z.ltb_ge in E. by apply write_later. }
  unfold processed_of, pos_insert. rewrite List.filter_app. cbn [List.filter]. rewrite E.
  assert (forall f g (l : list IndexWalPosition), List.filter f (List.filter g l) = List.filter g (List.filter f l)) as Hc.
  { intros f g l. clear. induction l as [|x l IH]; [done|]. cbn [List.filter].
    destruct (f x) eqn:Ef, (g x) eqn:Eg; cbn [List.filter]; rewrite ?Ef, ?Eg, IH; done. }
  by rewrite !(Hc _ (is_processed lp)).
Qed.

(** The processed writes of a key after the changes. *)
Definition changed_positions (lp : LastProcessed) (k : list Z) (ps : list IndexWalPosition) (chs : list CommittedChange) :
    list IndexWalPosition :=
  fold_left (fun ps ch => if keqb k (cc_key ch) && is_processed lp (change_write ch) then pos_insert (change_write ch) ps else ps) chs ps.

Lemma changes_processed lp k chs : forall h,
  processed_of lp (history_of k (changes_history h chs)) = changed_positions lp k (processed_of lp (history_of k h)) chs.
Proof.
  induction chs as [|ch chs IH]; intros h; [done|]. unfold changes_history, changed_positions. cbn [fold_left].
  fold (changes_history ((cc_key ch, change_write ch) :: h) chs). rewrite IH. unfold changed_positions. f_equal.
  rewrite history_of_cons. destruct (keqb_spec k (cc_key ch)) as [->|]; [|done]. apply processed_insert.
Qed.

(** Only changes of the key below the frontier count. *)
Lemma changed_positions_filter lp k chs (keep : CommittedChange -> bool) : forall ps,
  Forall (fun ch => keep ch = false -> keqb k (cc_key ch) && is_processed lp (change_write ch) = false) chs ->
  changed_positions lp k ps (List.filter keep chs) = changed_positions lp k ps chs.
Proof.
  induction chs as [|ch chs IH]; intros ps; [done|]. intros [Hc Hr]%Forall_cons. unfold changed_positions. cbn [List.filter fold_left].
  destruct (keep ch); [by apply IH|]. rewrite (Hc eq_refl). by apply IH.
Qed.

Lemma changed_positions_none lp k chs ps :
  Forall (fun ch => keqb k (cc_key ch) && is_processed lp (change_write ch) = false) chs -> changed_positions lp k ps chs = ps.
Proof.
  intros Hf. rewrite <- (changed_positions_filter lp k chs (fun _ => false)).
  - by rewrite filter_none by (by apply List.Forall_forall).
  - eapply Forall_impl; [exact Hf|done].
Qed.

Lemma changed_positions_key lp k chs ps :
  changed_positions lp k ps (List.filter (fun ch => keqb (cc_key ch) k) chs) = changed_positions lp k ps chs.
Proof.
  apply changed_positions_filter, List.Forall_forall. intros ch _ Hk. destruct (keqb_spec k (cc_key ch)) as [->|]; [|done].
  by destruct (keqb_spec (cc_key ch) (cc_key ch)).
Qed.

Lemma changed_positions_app lp k a b ps :
  changed_positions lp k ps (a ++ b) = changed_positions lp k (changed_positions lp k ps a) b.
Proof. apply fold_left_app. Qed.

Lemma change_of_update k u : change_write (as_change k u) = update_write u.
Proof. done. Qed.

Lemma update_write_offset u : iwp_offset (update_write u) = update_offset u.
Proof. unfold update_write. by destruct (pu_is_modified u). Qed.

(** Updates of a key counted or not, those above the frontier make no
    difference. *)
Lemma changes_of_above lp k st st' us ps :
  Forall (fun u => is_committed st u = true -> is_committed st' u = true) us ->
  Forall (fun u => is_committed st' u = true -> is_committed st u = false -> lp <= update_offset u) us ->
  changed_positions lp k ps (changes_of st' k us) = changed_positions lp k ps (changes_of st k us).
Proof.
  unfold changes_of. revert ps. induction us as [|u us IH]; intros ps; [done|]. intros [Ha Hra]%Forall_cons [Hb Hrb]%Forall_cons.
  cbn [List.filter]. destruct (is_committed st u) eqn:E.
  - rewrite (Ha eq_refl). cbn [List.map]. unfold changed_positions. cbn [fold_left]. by apply IH.
  - destruct (is_committed st' u) eqn:E'; [|by apply IH]. cbn [List.map]. unfold changed_positions at 1. cbn [fold_left].
    rewrite change_of_update. assert (is_processed lp (update_write u) = false) as ->.
    { apply Z.ltb_ge. unfold has_offset, iwp_has_offset. rewrite update_write_offset. by apply Hb. }
    rewrite andb_false_r. by apply IH.
Qed.

Lemma changes_offsets k chs : forall h,
  List.map iwp_offset (history_of k (changes_history h chs)) ≡ₚ
  List.map iwp_offset (history_of k h) ++
  List.map (fun ch => iwp_offset (change_write ch)) (List.filter (fun ch => keqb (cc_key ch) k) chs).
Proof.
  induction chs as [|ch chs IH]; intros h; [by rewrite app_nil_r|]. unfold changes_history. cbn [fold_left].
  fold (changes_history ((cc_key ch, change_write ch) :: h) chs). rewrite IH, history_of_cons. cbn [List.filter].
  destruct (keqb_spec k (cc_key ch)) as [->|Hne].
  - destruct (keqb_spec (cc_key ch) (cc_key ch)); [|done]. cbn [List.map]. rewrite <- Permutation_middle.
    by rewrite (Permutation_map iwp_offset (pos_insert_perm _ _)).
  - by destruct (keqb_spec (cc_key ch) k).
Qed.

Lemma filter_sublist {A B} (f : A -> bool) (g : A -> B) l : List.map g (List.filter f l) `sublist_of` List.map g l.
Proof. induction l as [|x l IH]; [constructor|]. cbn. by destruct (f x); constructor. Qed.

(** Taking the committed updates of a key over leaves every offset used once. *)
Lemma promoted_once (st : status_store) (A A' : list Z) (us : list PendingUpdate) :
  NoDup (A ++ List.map update_offset us) ->
  A' ≡ₚ A ++ List.map update_offset (List.filter (is_committed st) us) ->
  NoDup (A' ++ List.map update_offset (pending_of st us)).
Proof.
  intros Hn ->. rewrite <- app_assoc, <- List.map_app.
  assert (List.filter (is_committed st) us ++ pending_of st us ≡ₚ List.filter (fun u => is_committed st u || is_pending st u) us) as ->.
  { clear. unfold pending_of. induction us as [|u us IH]; [done|]. cbn [List.filter].
    destruct (is_committed st u) eqn:Ec; destruct (is_pending st u) eqn:Ep; cbn [orb app]; rewrite <- ?Permutation_middle, ?IH; try done.
    exfalso. unfold is_committed, is_pending in *. apply Z.eqb_eq in Ec, Ep. by rewrite Ec in Ep. }
  eapply sublist_NoDup; [exact Hn|]. apply sublist_app; [done|]. apply filter_sublist.
Qed.

Section facts.
Context `{BloomHashes} {C : Type} `{ValueCache C} `{!ValueCacheSpec C} {S : Type} `{Loader S} (ks : option nat) (U : list (list Z)) `{!LoaderSpec S ks U}.
Context (cx : CellContext) (l : WalLayout) (record_at : list Z -> WalPosition -> list Z * list Z).
Context (Hks : key_space_ok ks U cx) (p0 : Z).
Notation cell_step := (cell_step U cx record_at).
Notation cell_sys_inv := (cell_sys_inv ks U record_at).
Notation Live := (LiveEntry C).

(** What is known of an update that waits. *)
Definition update_ok (c : Live) (k : list Z) (u : PendingUpdate) : Prop :=
  In k U /\ iwp_fits (update_write u) /\
  (pu_is_modified u = true -> is_Some (lv_value_lru c) ->
   let '(full_key, lru_value) := split_lru_update k (pu_lru_update u) in cached_as record_at k (pu_update u) full_key lru_value).

Record engine_inv (g : Engine C S) : Prop := mkEngineInv {
  gi_wal : sys_inv l p0 (eg_wal g);
  gi_thread : tracker_inv (sys_thread (eg_wal g));
  gi_cell : cell_sys_inv (eg_sys g);
  gi_frontier : ld_last_processed (cs_store (eg_sys g)) = tt_last_processed (sys_thread (eg_wal g));
  gi_status : statuses_ok (eg_status g);
  gi_table : pt_ok (lv_pending_data (cs_cell (eg_sys g)));
  gi_waiting : forall k u, u ∈ waiting (cs_cell (eg_sys g)) k -> update_ok (cs_cell (eg_sys g)) k u;
  gi_once : forall k, NoDup (offsets_used (cs_history (eg_sys g)) (cs_cell (eg_sys g)) k);
  gi_guarded : forall k u, u ∈ waiting (cs_cell (eg_sys g)) k -> is_pending (eg_status g) u = true -> guard_held (eg_wal g) (update_offset u);
  gi_barrier : forall k u, u ∈ waiting (cs_cell (eg_sys g)) k -> is_committed (eg_status g) u = true ->
    cs_barrier (eg_sys g) <= update_offset u;
}.

(** A guard that is alive keeps the frontier below what it guards. *)
Lemma guard_frontier w offset : sys_inv l p0 w -> guard_held w offset -> internal_frontier w <= offset.
Proof.
  intros Hi (r & Hs & Hh & Hle). apply (si_sent _ _ _ Hi) in Hs as Hin.
  destruct (Z.ltb_spec (previous_position r) (internal_frontier w)) as [Hlt|]; [|lia].
  apply (frontier_done _ _ _ _ Hi Hin) in Hlt. by apply (si_done _ _ _ Hi) in Hlt as [_ ?].
Qed.

Lemma inv_barrier g : engine_inv g -> cs_barrier (eg_sys g) <= ld_last_processed (cs_store (eg_sys g)) <= internal_frontier (eg_wal g).
Proof.
  intros Hi. destruct (gi_cell _ Hi) as [es Hc]. pose proof (ci_frontier _ _ _ _ _ _ _ _ _ Hc) as [Hb _].
  split; [done|]. rewrite (gi_frontier _ Hi). apply external_le_internal, Hi.
Qed.

Lemma guard_barrier g offset : engine_inv g -> guard_held (eg_wal g) offset -> cs_barrier (eg_sys g) <= offset.
Proof. intros Hi Hg%(guard_frontier _ _ (gi_wal _ Hi)). pose proof (inv_barrier g Hi). lia. Qed.

Lemma write_guarded_allowed g k v :
  engine_inv g -> write_guarded U (eg_wal g) (cs_history (eg_sys g)) (cs_cell (eg_sys g)) k v ->
  write_allowed U (cs_history (eg_sys g)) (cs_barrier (eg_sys g)) k v.
Proof.
  intros Hi (Hk & Hf & Hg & Hu). split_and!; [done|done|by apply guard_barrier|]. apply List.Forall_forall. intros p Hp E.
  apply Hu. unfold offsets_used. apply elem_of_app. left. rewrite <- E. by apply list_elem_of_In, in_map.
Qed.

(** Whether a cell has a value cache does not change. *)
Lemma step_cached x y : cell_step x y -> is_Some (lv_value_lru (cs_cell y)) <-> is_Some (lv_value_lru (cs_cell x)).
Proof.
  intros Hs. destruct Hs as [s c f h b k v fk lv c' Ha Hlv Hc|s c f h b k v c' Ha Hc|s c f h b p|s c f h b lp t Hlp Hp Hc|s c f h b|s c f h b c' Hc
    |s c f h b|s s' c f h b Ha|s c h b rp c' kind Hp Hc|s c h b kind s' sh ls Ha Hc|s c h b sh ls c' Hc]; cbn [cs_cell]; try done.
  - by eapply insert_cached.
  - by eapply remove_cached.
  - unfold clone_shared. by destruct (lv_shared c).
  - unfold maybe_load in Hc. destruct (as_unloaded_state c) as [d|]; [|by injection Hc as ->].
    destruct (le_pending_last_processed (lv_entry c)); [by injection Hc as ->|].
    unfold mbind, LM_bind, lift, asks, mret, LM_ret in Hc. destruct (levels_l0 _); destruct d; cbn in Hc; inv_ok Hc; done.
  - unfold cell_snapshot. cbn [fst]. by destruct (_ && _).
  - unfold flush_kind in Hc. destruct (lv_state _); try done; unfold clone_shared in Hc; cbn in Hc;
      destruct (lv_shared c); by injection Hc as <- _.
  - unfold update_flushed_index, commit_pending_last_processed, clear_after_flush in Hc. inv_ok Hc; done.
Qed.

(** *** Taking committed updates over *)

(** [chs] are the committed updates of some keys, in order, and [pending] what
    is left. *)
Definition promotes (st : status_store) (c : Live) (pending : PendingTable) (chs : list CommittedChange) : Prop :=
  pt_ok pending /\
  forall k, let own := List.filter (fun ch => keqb (cc_key ch) k) chs in
    (own = [] /\ default [] (pt_data pending !! k) = waiting c k) \/
    (own = changes_of st k (waiting c k) /\ default [] (pt_data pending !! k) = pending_of st (waiting c k)).

Lemma take_promotes st c pending chs n :
  statuses_ok st -> pt_ok (lv_pending_data c) -> take_committed st (lv_pending_data c) = Ok (pending, chs, n) -> promotes st c pending chs.
Proof.
  intros Hs Hp Ht. destruct (take_committed_ok st _ Hs Hp) as (t' & chs' & n' & Ht' & Hp' & _ & Hk). rewrite Ht in Ht'.
  injection Ht' as <- <- <-. split; [done|]. intros k. right. apply Hk.
Qed.

Lemma changes_of_key st k k' us :
  List.filter (fun ch => keqb (cc_key ch) k) (changes_of st k' us) = if keqb k' k then changes_of st k' us else [].
Proof.
  unfold changes_of. induction (List.filter (is_committed st) us) as [|u us' IH]; [by destruct (keqb k' k)|]. cbn [List.map List.filter].
  change (cc_key (as_change k' u)) with k'. rewrite IH. by destruct (keqb k' k).
Qed.

Lemma take_for_promotes st c key pending chs n :
  statuses_ok st -> pt_ok (lv_pending_data c) -> take_committed_for st (lv_pending_data c) key = Ok (pending, chs, n) ->
  promotes st c pending chs.
Proof.
  intros Hs Hp Ht. destruct (take_committed_for_ok st _ key Hs Hp) as (t' & n' & Ht' & Hp' & _ & Hk). rewrite Ht in Ht'.
  injection Ht' as <- -> <-. split; [done|]. intros k. cbv zeta. rewrite changes_of_key, Hk. destruct (keqb_spec k key) as [->|Hne].
  - right. by destruct (keqb_spec key key).
  - left. by destruct (keqb_spec key k).
Qed.

(** Where a change comes from. *)
Lemma promotes_from st c pending chs ch :
  promotes st c pending chs -> In ch chs ->
  exists u, u ∈ waiting c (cc_key ch) /\ is_committed st u = true /\ ch = as_change (cc_key ch) u.
Proof.
  intros [_ Hp] Hin. assert (In ch (List.filter (fun ch' => keqb (cc_key ch') (cc_key ch)) chs)) as Hf.
  { apply filter_In. split; [done|]. by destruct (keqb_spec (cc_key ch) (cc_key ch)). }
  destruct (Hp (cc_key ch)) as [[E _]|[E _]]; rewrite E in Hf; [done|]. unfold changes_of in Hf.
  apply in_map_iff in Hf as (u & Hu & [Hin' Hc]%filter_In). exists u. split; [by apply list_elem_of_In|]. done.
Qed.

Lemma changes_allowed_ok b (cached : Prop) chs : forall h,
  (forall ch, In ch chs -> In (cc_key ch) U /\ iwp_fits (change_write ch) /\ b <= iwp_offset (change_write ch) /\
     (cc_is_modified ch = true -> cached ->
      let '(full_key, lru_value) := split_lru_update (cc_key ch) (cc_lru_update ch) in
      cached_as record_at (cc_key ch) (cc_value ch) full_key lru_value)) ->
  (forall k, NoDup (List.map iwp_offset (history_of k h) ++
     List.map (fun ch => iwp_offset (change_write ch)) (List.filter (fun ch => keqb (cc_key ch) k) chs))) ->
  changes_allowed U record_at h b cached chs.
Proof.
  induction chs as [|ch chs IH]; intros h Hok Hn; [done|]. destruct (Hok ch) as (Hk & Hf & Hb & Hc); [by left|]. cbn [changes_allowed].
  pose proof (Hn (cc_key ch)) as Hn1. cbn [List.filter] in Hn1. destruct (keqb_spec (cc_key ch) (cc_key ch)) as [_|]; [|done].
  cbn [List.map] in Hn1. rewrite <- Permutation_middle in Hn1. apply NoDup_cons in Hn1 as [Hnin Hn1]. split; [|split; [done|]].
  - split_and!; [done|done|done|]. apply List.Forall_forall. intros p Hp E. apply Hnin, elem_of_app. left. rewrite <- E.
    by apply list_elem_of_In, in_map.
  - apply IH; [intros ch' Hin; apply Hok; by right|]. intros k. rewrite history_of_cons. destruct (keqb_spec k (cc_key ch)) as [->|Hne].
    + rewrite (Permutation_map iwp_offset (pos_insert_perm _ _)). cbn [List.map app]. by apply NoDup_cons.
    + specialize (Hn k). cbn [List.filter] in Hn. by destruct (keqb_spec (cc_key ch) k).
Qed.

Lemma changes_of_offsets st k us :
  List.map (fun ch => iwp_offset (change_write ch)) (changes_of st k us) = List.map update_offset (List.filter (is_committed st) us).
Proof. unfold changes_of. rewrite List.map_map. apply map_ext. intros u. rewrite change_of_update. apply update_write_offset. Qed.

Lemma promotes_allowed w s c f h b st pending chs :
  engine_inv (mkEngine w (mkCellSys s c f h b) st) -> promotes st c pending chs ->
  changes_allowed U record_at h b (is_Some (lv_value_lru c)) chs.
Proof.
  intros Hi Hp. apply changes_allowed_ok.
  - intros ch Hin. destruct (promotes_from _ _ _ _ _ Hp Hin) as (u & Hu & Hc & E). rewrite E, change_of_update.
    destruct (gi_waiting _ Hi _ _ Hu) as (Hk & Hf & Hl). split_and!; [done|done| |done].
    rewrite update_write_offset. by apply (gi_barrier _ Hi _ _ Hu).
  - intros k. pose proof (gi_once _ Hi k) as Hn. cbn [eg_sys cs_history cs_cell] in Hn. unfold offsets_used in Hn.
    destruct Hp as [_ Hp]. destruct (Hp k) as [[-> _]|[-> _]].
    + cbn [List.map]. rewrite app_nil_r. by apply NoDup_app in Hn as [? _].
    + rewrite changes_of_offsets. eapply sublist_NoDup; [exact Hn|]. apply sublist_app; [done|]. apply filter_sublist.
Qed.

Lemma promotes_inv w s c f h b st pending chs :
  engine_inv (mkEngine w (mkCellSys s c f h b) st) -> promotes st c pending chs ->
  exists c', apply_committed_changes (ld_last_processed s) (set_pending_data c pending) chs = Ok c' /\
    lv_pending_data c' = pending /\ engine_inv (mkEngine w (mkCellSys s c' f (changes_history h chs) b) st).
Proof.
  intros Hi Hp. destruct (gi_cell _ Hi) as [es Hc]. cbn [eg_sys cs_store cs_cell cs_flight cs_history cs_barrier] in Hc.
  destruct (changes_step ks U cx record_at s f b chs (set_pending_data c pending) h es
    (pending_keeps ks U record_at _ _ _ _ _ _ pending Hc) (promotes_allowed _ _ _ _ _ _ _ _ _ Hi Hp)) as (c' & Ha & _ & Hc' & Hl).
  assert (lv_pending_data c' = pending) as Hpd by (by rewrite (changes_pending_data _ chs _ _ Ha)).
  exists c'. split; [done|]. split; [done|].
  assert (forall k u, u ∈ waiting c' k -> u ∈ waiting c k) as Hsub.
  { intros k u. unfold waiting at 1. rewrite Hpd. destruct (proj2 Hp k) as [[_ ->]|[_ ->]]; [done|]. by intros [? _]%filter_In_elem. }
  destruct Hi as [? ? ? ? ? ? Hw Ho Hg Hb]. split; cbn [eg_wal eg_sys eg_status cs_store cs_cell cs_flight cs_history cs_barrier] in *.
  1,2,4,5: done.
  - by exists es.
  - rewrite Hpd. apply Hp.
  - intros k u Hu%Hsub. destruct (Hw _ _ Hu) as (? & ? & Hca). split_and!; [done|done|]. intros Hm Hs. apply Hca; [done|]. by apply Hl.
  - intros k. unfold offsets_used, waiting. rewrite Hpd. specialize (Ho k). unfold offsets_used in Ho.
    destruct (proj2 Hp k) as [[E ->]|[E ->]].
    + by rewrite changes_offsets, E, app_nil_r.
    + apply (promoted_once st _ _ _ Ho). by rewrite changes_offsets, E, changes_of_offsets.
  - intros k u Hu%Hsub. by apply (Hg k).
  - intros k u Hu%Hsub. by apply (Hb k).
Qed.

(** *** Every step keeps the invariant *)

(** A write applied to the cell. *)
Lemma applied_inv w s c f h b st c' k v :
  engine_inv (mkEngine w (mkCellSys s c f h b) st) -> iwp_offset v ∉ offsets_used h c k ->
  cell_sys_inv (mkCellSys s c' f ((k, v) :: h) b) -> lv_pending_data c' = lv_pending_data c ->
  (is_Some (lv_value_lru c') <-> is_Some (lv_value_lru c)) ->
  engine_inv (mkEngine w (mkCellSys s c' f ((k, v) :: h) b) st).
Proof.
  intros [? ? ? ? ? ? Hw Ho Hg Hb] Hu Hc Hpd Hl.
  assert (forall k', waiting c' k' = waiting c k') as Hwt by (intros k'; unfold waiting; by rewrite Hpd).
  split; cbn [eg_wal eg_sys eg_status cs_store cs_cell cs_flight cs_history cs_barrier] in *; try done.
  - by rewrite Hpd.
  - intros k' u. rewrite Hwt. intros Hin. destruct (Hw _ _ Hin) as (? & ? & Hca). split_and!; [done|done|]. intros Hm Hs.
    apply Hca; [done|]. by apply Hl.
  - intros k'. unfold offsets_used. rewrite Hwt, history_of_cons. specialize (Ho k'). unfold offsets_used in *.
    destruct (keqb_spec k' k) as [->|]; [|done]. rewrite (Permutation_map iwp_offset (pos_insert_perm _ _)). by apply NoDup_cons.
  - intros k' u. rewrite Hwt. apply Hg.
  - intros k' u. rewrite Hwt. apply Hb.
Qed.

(** A change of the status cells. *)
Lemma status_inv w x st st' :
  engine_inv (mkEngine w x st) -> statuses_ok st' ->
  (forall k u, u ∈ waiting (cs_cell x) k -> is_pending st' u = true -> is_pending st u = true) ->
  (forall k u, u ∈ waiting (cs_cell x) k -> is_committed st' u = true -> is_committed st u = true \/ is_pending st u = true) ->
  engine_inv (mkEngine w x st').
Proof.
  intros Hi Hs Hp Hc. pose proof Hi as [? ? ? ? ? ? Hw Ho Hg Hb]. split; cbn [eg_wal eg_sys eg_status] in *; try done.
  - intros k u Hu Hst. apply (Hg k); [done|]. by eapply Hp.
  - intros k u Hu Hst. destruct (Hc k u Hu Hst) as [Hx|Hx]; [by apply (Hb k)|]. by apply (guard_barrier _ _ Hi), (Hg k).
Qed.

Lemma waiting_pend (c : Live) k b v lru tx k' :
  waiting (set_pending_data c (insert_pending (lv_pending_data c) k b v lru tx)) k' =
  if keqb k' k then waiting c k ++ [mkPU (tx_status tx) b v lru] else waiting c k'.
Proof.
  unfold waiting, insert_pending. cbn [lv_pending_data set_pending_data pt_data]. destruct (keqb_spec k' k) as [->|Hne].
  - by rewrite lookup_insert_eq.
  - by rewrite lookup_insert_ne.
Qed.

Lemma pend_inv w s c f h b st k is_modified v lru_update tx :
  let u := mkPU (tx_status tx) is_modified v lru_update in
  engine_inv (mkEngine w (mkCellSys s c f h b) st) -> st (tx_status tx) = TRANSACTION_STATUS_PENDING ->
  write_guarded U w h c k (update_write u) -> update_ok c k u ->
  engine_inv (mkEngine w (mkCellSys s (set_pending_data c (insert_pending (lv_pending_data c) k is_modified v lru_update tx)) f h b) st).
Proof.
  cbv zeta. set (u := mkPU _ _ _ _). intros Hi Hst (Hk & Hf & Hgd & Hu) Hok. set (c' := set_pending_data _ _).
  assert (forall k', waiting c' k' = if keqb k' k then waiting c k ++ [u] else waiting c k') as Hwt by (intros; apply waiting_pend).
  assert (forall k' u', u' ∈ waiting c' k' -> u' ∈ waiting c k' \/ (k' = k /\ u' = u)) as Hcase.
  { intros k' u'. rewrite Hwt. destruct (keqb_spec k' k) as [->|]; [|by left].
    intros [?| ->%list_elem_of_singleton]%elem_of_app; [by left|by right]. }
  rewrite update_write_offset in Hgd, Hu. destruct Hi as [? ? [es Hc] ? ? ? Hw Ho Hg Hb].
  split; cbn [eg_wal eg_sys eg_status cs_store cs_cell cs_flight cs_history cs_barrier] in *; try done.
  - exists es. by apply pending_keeps.
  - by apply insert_pending_ok.
  - intros k' u' [Hin|[-> ->]]%Hcase; [by apply Hw|done].
  - intros k'. unfold offsets_used. rewrite Hwt. specialize (Ho k'). unfold offsets_used in *. destruct (keqb_spec k' k) as [->|]; [|done].
    rewrite List.map_app. cbn [List.map]. rewrite app_assoc, (Permutation_app_comm (_ ++ _) [_]). by apply NoDup_cons.
  - intros k' u' [Hin|[-> ->]]%Hcase Hp; [by apply (Hg k')|done].
  - intros k' u' [Hin|[-> ->]]%Hcase Hp; [by apply (Hb k')|]. unfold is_committed, u in Hp. cbn in Hp. by rewrite Hst in Hp.
Qed.

Lemma is_pending_set st tx v u :
  is_pending (set_status st tx v) u = (if (pu_status u =? tx)%nat then v =? TRANSACTION_STATUS_PENDING else is_pending st u).
Proof. unfold is_pending, set_status. by destruct (pu_status u =? tx)%nat. Qed.

Lemma is_committed_set st tx v u :
  is_committed (set_status st tx v) u = (if (pu_status u =? tx)%nat then v =? TRANSACTION_STATUS_COMMITTED else is_committed st u).
Proof. unfold is_committed, set_status. by destruct (pu_status u =? tx)%nat. Qed.

Notation engine_step := (engine_step U cx l record_at).

Lemma engine_step_inv g g' : engine_inv g -> engine_step g g' -> engine_inv g'.
Proof.
  intros Hi Hs. destruct Hs as [w w' s s' c f h b st Ht Ha Hlp Hg|w x x' st Hx Hh Hpd Hlp Hb|w s c f h b st k v fk lv c' Hw Hca Hc
    |w s c f h b st k v c' Hw Hc|w x st cell Hn|w s c f h b st k m v lru tx u Hst Hw Hca|w x st tx Hst|w x st tx Hst
    |w s c f h b st pending chs n c' Ht Hc|w s c f h b st k pending chs n c' Ht Hc].
  - destruct Hi as [Hw Hth [es Hc] ? ? ? ? ? Hgd ?]. cbn [eg_wal eg_sys eg_status cs_store cs_cell] in *.
    destruct (sys_tracker_inv_step l p0 w w' Hw Hth Ht) as [Hth' _]. split; cbn [eg_wal eg_sys eg_status cs_store cs_cell]; try done.
    + by eapply sys_inv_step.
    + exists es. by eapply advance_keeps.
    + intros k u Hu Hp. apply (Hg k); [done|done|]. by apply (Hgd k).
  - pose proof (step_cached x x' Hx) as Hl. destruct Hi as [? ? Hc Hfr ? ? Hw Ho Hg Hbar]. cbn [eg_wal eg_sys eg_status] in *.
    assert (forall k, waiting (cs_cell x') k = waiting (cs_cell x) k) as Hwt by (intros k; unfold waiting; by rewrite Hpd).
    split; cbn [eg_wal eg_sys eg_status]; try done.
    + by eapply step_inv.
    + by rewrite Hlp.
    + by rewrite Hpd.
    + intros k u. rewrite Hwt. intros Hin. destruct (Hw _ _ Hin) as (? & ? & Hca). split_and!; [done|done|]. intros Hm Hs.
      apply Hca; [done|]. by apply Hl.
    + intros k. unfold offsets_used. rewrite Hwt, Hh. apply Ho.
    + intros k u. rewrite Hwt. apply Hg.
    + intros k u. rewrite Hwt. intros Hin Hco. destruct Hb as [->|Hd]; [by apply (Hbar k)|]. exfalso.
      assert (u ∈ List.filter (is_committed st) (waiting (cs_cell x) k)) as Hf by (by apply filter_In_elem). by rewrite Hd in Hf; apply not_elem_of_nil in Hf.
  - pose proof (write_guarded_allowed _ _ _ Hi Hw) as Hal. apply (applied_inv w s c f h b st c'); [done|apply Hw| |by eapply insert_pending_data|by eapply insert_cached].
    eapply (step_inv ks U cx record_at _ _ Hks (gi_cell _ Hi)). by eapply step_cell_insert.
  - pose proof (write_guarded_allowed _ _ _ Hi Hw) as Hal. apply (applied_inv w s c f h b st c'); [done|apply Hw| |by eapply remove_pending_data|by eapply remove_cached].
    eapply (step_inv ks U cx record_at _ _ Hks (gi_cell _ Hi)). by eapply step_cell_remove.
  - apply (status_inv w x st); [done|apply statuses_ok_set; [apply Hi|auto]|..]; intros k u Hu; cbn [tx_new fst];
      rewrite ?is_pending_set, ?is_committed_set; destruct (Nat.eqb_spec (pu_status u) cell) as [E|]; auto; by destruct (Hn k u).
  - apply pend_inv; [done|done|done|]. destruct Hw as (Hk & Hf & _). split_and!; [done|done|exact Hca].
  - apply (status_inv w x st); [done|apply statuses_ok_set; [apply Hi|auto]|..]; intros k u Hu; unfold tx_commit, tx_drop; cbn [tx_committed tx_status negb];
      rewrite ?is_pending_set, ?is_committed_set; destruct (Nat.eqb_spec (pu_status u) (tx_status tx)) as [E|]; auto; try done.
    intros _. right. unfold is_pending. by rewrite E, Hst.
  - unfold tx_drop. destruct (tx_committed tx); cbn [negb]; [done|].
    apply (status_inv w x st); [done|apply statuses_ok_set; [apply Hi|auto]|..]; intros k u Hu;
      rewrite ?is_pending_set, ?is_committed_set; destruct (Nat.eqb_spec (pu_status u) (tx_status tx)) as [E|]; auto; done.
  - destruct (promotes_inv w s c f h b st pending chs Hi) as (c'' & Hc'' & _ & Hi').
    { eapply take_promotes; [apply (gi_status _ Hi)|apply (gi_table _ Hi)|exact Ht]. }
    unfold promote_pending in Hc. rewrite Ht in Hc. cbn [mbind outcome_bind] in Hc. by assert (c'' = c') as <- by congruence.
  - destruct (promotes_inv w s c f h b st pending chs Hi) as (c'' & Hc'' & _ & Hi').
    { eapply take_for_promotes; [apply (gi_status _ Hi)|apply (gi_table _ Hi)|exact Ht]. }
    unfold promote_pending_for in Hc. rewrite Ht in Hc. cbn [mbind outcome_bind] in Hc. by assert (c'' = c') as <- by congruence.
Qed.

(** An engine as it is opened: nothing is allocated yet, no transaction has an
    update in the cell. *)
Record engine_opened (g : Engine C S) : Prop := mkEngineOpened {
  go_wal : eg_wal g = sys_init p0;
  go_cell : cell_opened ks U (eg_sys g);
  go_frontier : ld_last_processed (cs_store (eg_sys g)) = p0;
  go_status : statuses_ok (eg_status g);
}.

Definition engine_reachable (g : Engine C S) : Prop := exists g0, engine_opened g0 /\ rtc engine_step g0 g.

Lemma offsets_NoDup ps : pos_sorted ps -> NoDup (List.map iwp_offset ps).
Proof.
  unfold pos_sorted. induction 1 as [|p ps Hs IH Hall]; [constructor|]. cbn [List.map]. apply NoDup_cons. split; [|done].
  intros (q & E & Hq)%list_elem_of_In%in_map_iff. rewrite List.Forall_forall in Hall. specialize (Hall q Hq). cbv beta in Hall. lia.
Qed.

Lemma engine_opened_inv g : engine_opened g -> engine_inv g.
Proof.
  destruct g as [w x st]. intros [Ew Hc Hf Hs]. cbn [eg_wal eg_sys eg_status] in *. subst w. pose proof (opened_inv ks U record_at x Hc) as [es Hi].
  destruct (co_cell _ _ _ Hc) as (bloom & levels & lp & filter & lru & E & _).
  assert (lv_pending_data (cs_cell x) = pt_default) as Hpd by (by rewrite E).
  assert (forall k, waiting (cs_cell x) k = []) as Hw by (intros k; unfold waiting; by rewrite Hpd).
  split; cbn [eg_wal eg_sys eg_status]; try done.
  - apply sys_inv_init.
  - apply tracker_inv_start.
  - by exists es.
  - rewrite Hpd. split; [apply map_Forall_empty|done].
  - intros k u. rewrite Hw. by intros ?%not_elem_of_nil.
  - intros k. unfold offsets_used. rewrite Hw. cbn [List.map]. rewrite app_nil_r. apply offsets_NoDup, history_sorted.
    apply (ci_history _ _ _ _ _ _ _ _ _ Hi).
  - intros k u. rewrite Hw. by intros ?%not_elem_of_nil.
  - intros k u. rewrite Hw. by intros ?%not_elem_of_nil.
Qed.

Lemma engine_reachable_inv g : engine_reachable g -> engine_inv g.
Proof. intros (g0 & Hg%engine_opened_inv & Hr). induction Hr; eauto using engine_step_inv. Qed.

(** *** What a checkpoint sees is fixed *)

Lemma newest_processed lp k h h' :
  processed_of lp (history_of k h) = processed_of lp (history_of k h') -> newest_at lp k h = newest_at lp k h'.
Proof. unfold newest_at. by intros ->. Qed.

Lemma processed_cons lp k k' v h :
  lp <= iwp_offset v -> processed_of lp (history_of k ((k', v) :: h)) = processed_of lp (history_of k h).
Proof. intros Hle. rewrite history_of_cons. destruct (keqb_spec k k') as [->|]; [|done]. by apply write_later. Qed.

Lemma pending_no_changes st k us : changes_of st k (pending_of st us) = [].
Proof.
  unfold changes_of, pending_of. induction us as [|u us IH]; [done|]. cbn [List.filter]. destruct (is_pending st u) eqn:Ep; [|done].
  cbn [List.filter]. assert (is_committed st u = false) as ->; [|done]. unfold is_committed, is_pending in *. apply Z.eqb_eq in Ep. by rewrite Ep.
Qed.

Lemma promotes_newest lp k w (s : S) (c : Live) f h b st pending chs (c' : Live) :
  promotes st c pending chs -> lv_pending_data c' = pending ->
  engine_newest (mkEngine w (mkCellSys s c' f (changes_history h chs) b) st) lp k = engine_newest (mkEngine w (mkCellSys s c f h b) st) lp k.
Proof.
  intros [_ Hp] Hpd. apply newest_processed. unfold engine_history. cbn [eg_sys eg_status cs_history cs_cell].
  rewrite !changes_processed. rewrite <- (changed_positions_key lp k chs). unfold waiting at 1. rewrite Hpd.
  destruct (Hp k) as [[E ->]|[E ->]]; rewrite E; [done|].
  by rewrite pending_no_changes.
Qed.

Lemma status_newest lp k w (x : CellSys C S) st st' :
  (forall u, u ∈ waiting (cs_cell x) k -> is_committed st u = true -> is_committed st' u = true) ->
  (forall u, u ∈ waiting (cs_cell x) k -> is_committed st' u = true -> is_committed st u = false -> lp <= update_offset u) ->
  engine_newest (mkEngine w x st') lp k = engine_newest (mkEngine w x st) lp k.
Proof.
  intros Ha Hb. apply newest_processed. unfold engine_history. cbn [eg_sys eg_status]. rewrite !changes_processed.
  apply changes_of_above; apply Forall_forall; auto.
Qed.

(** A write made while the frontier has passed [lp] is not below [lp]. *)
Lemma applied_newest lp k w (s : S) (c : Live) f h b st (c' : Live) k' v :
  lp <= iwp_offset v -> lv_pending_data c' = lv_pending_data c ->
  engine_newest (mkEngine w (mkCellSys s c' f ((k', v) :: h) b) st) lp k = engine_newest (mkEngine w (mkCellSys s c f h b) st) lp k.
Proof.
  intros Hle Hpd. apply newest_processed. unfold engine_history. cbn [eg_sys eg_status cs_history cs_cell]. rewrite !changes_processed.
  rewrite processed_cons by done. unfold waiting. by rewrite Hpd.
Qed.

Lemma step_newest g g' lp k :
  engine_inv g -> engine_step g g' -> lp <= internal_frontier (eg_wal g) -> engine_newest g' lp k = engine_newest g lp k.
Proof.
  intros Hi Hs Hlp. pose proof (fun o => guard_frontier (eg_wal g) o (gi_wal _ Hi)) as Hfr.
  destruct Hs as [w w' s s' c f h b st Ht Ha Hl Hg|w x x' st Hx Hh Hpd Hl Hb|w s c f h b st k' v fk lv c' Hw Hca Hc
    |w s c f h b st k' v c' Hw Hc|w x st cell Hn|w s c f h b st k' m v lru tx u Hst Hw Hca|w x st tx Hst|w x st tx Hst
    |w s c f h b st pending chs n c' Ht Hc|w s c f h b st k' pending chs n c' Ht Hc]; cbn [eg_wal] in *.
  - done.
  - unfold engine_newest, engine_history, waiting. cbn [eg_sys eg_status]. by rewrite Hh, Hpd.
  - destruct Hw as (_ & _ & Hgd%Hfr & _). apply applied_newest; [lia|by eapply insert_pending_data].
  - destruct Hw as (_ & _ & Hgd%Hfr & _). apply applied_newest; [lia|by eapply remove_pending_data].
  - apply status_newest; intros u Hu; cbn [tx_new fst]; rewrite is_committed_set;
      (destruct (Nat.eqb_spec (pu_status u) cell) as [E|]; [by destruct (Hn k u)|]); [done|congruence].
  - apply newest_processed. unfold engine_history. cbn [eg_sys eg_status cs_history cs_cell]. do 2 f_equal.
    rewrite waiting_pend. destruct (keqb_spec k k') as [->|]; [|done]. fold u. unfold changes_of. rewrite List.filter_app. cbn [List.filter].
    assert (is_committed st u = false) as -> by (unfold is_committed, u; cbn; by rewrite Hst). by rewrite app_nil_r.
  - apply status_newest; intros u Hu; unfold tx_commit, tx_drop; cbn [tx_committed tx_status negb]; rewrite is_committed_set;
      destruct (Nat.eqb_spec (pu_status u) (tx_status tx)) as [E|]; [done|done| |congruence].
    intros _ _. etrans; [exact Hlp|]. apply Hfr, (gi_guarded _ Hi k u Hu). unfold is_pending. cbn [eg_status]. by rewrite E, Hst.
  - unfold tx_drop. destruct (tx_committed tx); cbn [negb]; [done|]. apply status_newest; intros u Hu; rewrite is_committed_set;
      destruct (Nat.eqb_spec (pu_status u) (tx_status tx)) as [E|]; [|done|done|congruence].
    unfold is_committed. by rewrite E, Hst.
  - destruct (promotes_inv w s c f h b st pending chs Hi) as (c'' & Hc'' & Hpd & _);
      [eapply take_promotes; [apply (gi_status _ Hi)|apply (gi_table _ Hi)|exact Ht]|].
    unfold promote_pending in Hc. rewrite Ht in Hc. cbn [mbind outcome_bind] in Hc. assert (c'' = c') as <- by congruence.
    eapply promotes_newest; [|exact Hpd]. eapply take_promotes; [apply (gi_status _ Hi)|apply (gi_table _ Hi)|exact Ht].
  - destruct (promotes_inv w s c f h b st pending chs Hi) as (c'' & Hc'' & Hpd & _);
      [eapply take_for_promotes; [apply (gi_status _ Hi)|apply (gi_table _ Hi)|exact Ht]|].
    unfold promote_pending_for in Hc. rewrite Ht in Hc. cbn [mbind outcome_bind] in Hc. assert (c'' = c') as <- by congruence.
    eapply promotes_newest; [|exact Hpd]. eapply take_for_promotes; [apply (gi_status _ Hi)|apply (gi_table _ Hi)|exact Ht].
Qed.

Lemma engine_internal_mono g g' : engine_inv g -> engine_step g g' -> internal_frontier (eg_wal g) <= internal_frontier (eg_wal g').
Proof.
  intros Hi Hs. destruct Hs; cbn [eg_wal]; try lia. eapply internal_frontier_mono; [apply (gi_wal _ Hi)|apply (gi_thread _ Hi)|done].
Qed.

(** While the latch is held every step leaves the view alone. *)
Lemma latched_newest g g' ck k :
  engine_inv g -> latch_position (ck_latch ck) <= internal_frontier (eg_wal g) -> latch_held g ck ->
  rtc (fun a b => engine_step a b /\ latch_held b ck) g g' ->
  engine_inv g' /\ latch_held g' ck /\ engine_newest g' (latch_position (ck_latch ck)) k = engine_newest g (latch_position (ck_latch ck)) k.
Proof.
  intros Hi Hlp Hh Hr. induction Hr as [g|g1 g2 g3 [Hs Hh2] _ IH]; [done|].
  destruct IH as (Hi3 & Hh3 & E); [by eapply engine_step_inv|by etrans; [|by eapply engine_internal_mono]|done|].
  split_and!; [done|done|]. rewrite E. by apply step_newest.
Qed.

(** A read of the table at a checkpoint. *)
Lemma table_get_checkpoint_ok w s c f h b st k lp :
  engine_inv (mkEngine w (mkCellSys s c f h b) st) -> In k U -> ld_last_processed s <= lp <= 2 ^ 64 ->
  exists c' r, table_get_checkpoint st c k lp s = Ok (s, (c', Some r)) /\
    answer_ok record_at (ld_min_wal_position s) k (engine_newest (mkEngine w (mkCellSys s c f h b) st) lp k) r.
Proof.
  intros Hi Hk Hlp. destruct (take_committed_ok st (lv_pending_data c) (gi_status _ Hi) (gi_table _ Hi)) as (pending & chs & n & Ht & _).
  pose proof (take_promotes st c pending chs n (gi_status _ Hi) (gi_table _ Hi) Ht) as Hp.
  destruct (promotes_inv w s c f h b st pending chs Hi Hp) as (c1 & Hc1 & Hpd & Hi1).
  destruct (gi_cell _ Hi1) as [es Hc]. cbn [eg_sys cs_store cs_cell cs_flight cs_history cs_barrier] in Hc.
  destruct (cell_lookup_at_ok ks U record_at s c1 f _ b es k lp Hc Hk Hlp) as (c' & r & Hl & Ha).
  exists c', r. split.
  - unfold table_get_checkpoint, promote_pending. unfold mbind, LM_bind, asks, lift. rewrite Ht. unfold outcome_bind. by rewrite Hc1.
  - rewrite <- (promotes_newest lp k w s c f h b st pending chs c1 Hp Hpd). unfold engine_newest, engine_history.
    cbn [eg_sys eg_status cs_history cs_cell]. unfold waiting. rewrite Hpd. destruct (proj2 Hp k) as [[E ->]|[_ ->]].
    2: by rewrite pending_no_changes.
    destruct (take_committed_ok st (lv_pending_data c) (gi_status _ Hi) (gi_table _ Hi)) as (? & ? & ? & Ht' & _ & _ & Hk').
    rewrite Ht in Ht'. injection Ht' as <- <- <-. destruct (Hk' k) as [Ho _]. rewrite E in Ho. unfold waiting. by rewrite <- Ho.
Qed.

(** C4. A checkpoint is a fixed view.  From the moment its latch is answered
    until it is released, whatever allocations, writes, removals, transactions,
    promotions, loads, snapshots and flushes the engine goes through,
    [DbCheckpoint::get] succeeds and answers with the newest write below the
    latched position that was in force when the checkpoint was opened: applied
    to the cell, or waiting in it and committed. *)
Theorem checkpoint_isolated (blake2b256 : list Z -> list Z) (ksd : KeySpaceDesc)
    (read_record_check_key : list Z -> WalPosition -> option (list Z)) (g g' : Engine C S) (ck : DbCheckpoint) (full_key k : list Z) :
  engine_reachable g -> checkpoint_open g ck -> latch_position (ck_latch ck) <= 2 ^ 64 ->
  rtc (fun a b => engine_step a b /\ latch_held b ck) g g' ->
  reduce_key blake2b256 (ks_key_indexing ksd) full_key = Ok k -> In k U ->
  let s := cs_store (eg_sys g') in
  exists c' r,
    checkpoint_get blake2b256 ksd read_record_check_key (eg_status g') ck (cs_cell (eg_sys g')) full_key s =
      Ok (s, (c', Some (checkpoint_answer ksd read_record_check_key full_key r))) /\
    answer_ok record_at (ld_min_wal_position s) k (engine_newest g (latch_position (ck_latch ck)) k) r.
Proof.
  intros Hr [Hh Hlp] Hmax Hrun Hred Hk. destruct (latched_newest g g' ck k (engine_reachable_inv g Hr) Hlp Hh Hrun) as (Hi & Hh' & E).
  cbv zeta. rewrite <- E. pose proof (tracker_latch_pins _ _ _ (gi_thread _ Hi) Hh') as Hpin. pose proof (gi_frontier _ Hi) as Hfr.
  destruct g' as [w [s c f h b] st]. cbn [eg_wal eg_sys eg_status cs_store cs_cell] in *.
  destruct (table_get_checkpoint_ok w s c f h b st k (latch_position (ck_latch ck)) Hi Hk ltac:(lia)) as (c' & r & Ht & Ha).
  exists c', r. split; [|done]. unfold checkpoint_get. unfold mbind, LM_bind, lift. rewrite Hred. cbv beta iota. by rewrite Ht.
Qed.
End facts.

(** ** A run with a checkpoint *)

#[local] Existing Instance demo_loader.
#[local] Existing Instance demo_loader_spec.
#[local] Existing Instance demo_bloom.

Notation demo_engine_step := (engine_step demo_universe demo_cx demo_layout demo_record).

Definition first_alloc : AllocationResult := mkAllocationResult 130 130 40.
Definition second_alloc : AllocationResult := mkAllocationResult 170 170 40.

Lemma demo_allocs_ok : allocation_ok demo_layout first_alloc /\ allocation_ok demo_layout second_alloc.
Proof. split; unfold allocation_ok, in_one_frag, u64_max; cbn; split_and!; try (reflexivity || lia); by exists 5. Qed.

(** A WAL step and the frontier it publishes; the blobs stay. *)
Lemma eng_wal_publish w w' indexes lp lp' cur c f h b st :
  tracker_step demo_layout w w' -> lp' = tt_last_processed (sys_thread w') -> lp <= lp' <= 2 ^ 64 ->
  (forall k, waiting c k = []) ->
  demo_engine_step (mkEngine w (mkCellSys (mkDbLoader indexes lp cur 0) c f h b) st)
    (mkEngine w' (mkCellSys (mkDbLoader indexes lp' cur 0) c f h b) st).
Proof.
  intros Ht Hlp Hle Hw. apply eng_wal; [done| |done|].
  - split_and!; [|done|apply Hle|apply Hle]. intros q _. split_and!; done.
  - intros k u. rewrite Hw. by intros ?%not_elem_of_nil.
Qed.

Definition no_status : status_store := fun _ => TRANSACTION_STATUS_REVERTED.

Definition demo_checkpoint : DbCheckpoint := mkDbCheckpoint (mkLatch 0 170).

(** A write is applied and processed, then the checkpoint is opened. *)
Lemma demo_checkpoint_open :
  exists w c, engine_reachable (Some 5%nat) demo_universe demo_cx demo_layout demo_record 130
      (mkEngine w (mkCellSys (mkDbLoader [] 170 200 0) c Idle [(demo_key 5, iwp_new_modified (wp_new 130 10))] 0) no_status) /\
    checkpoint_open (mkEngine w (mkCellSys (mkDbLoader [] 170 200 0 : DbLoader FrameLog) c Idle [(demo_key 5, iwp_new_modified (wp_new 130 10))] 0) no_status)
      demo_checkpoint /\
    sys_end w = 170 /\ sys_sent w = [first_alloc] /\ lv_pending_data c = pt_default /\
    tt_last_processed (sys_thread w) = 170 /\
    exists c', cell_insert 170 c (demo_key 5) (wp_new 170 10) (demo_key 5) (Some [170]) = Ok c' /\ lv_pending_data c' = pt_default.
Proof.
  eexists _, _. split.
  { exists (mkEngine (sys_init 130) demo_cell_sys no_status). split.
    { split; [done|apply demo_opened|done|]. intros tx. by right; right. }
    eapply rtc_l; [apply eng_wal_publish; [apply (sys_allocate _ _ first_alloc (proj1 demo_allocs_ok)); reflexivity|reflexivity|cbn; lia|done]|].
    eapply rtc_l; [apply eng_wal_publish; [apply (sys_announce _ _ first_alloc); cbn; [left|set_solver]|reflexivity|cbn; lia|done]|].
    eapply rtc_l.
    { eapply (eng_insert _ _ _ _ _ _ _ _ _ _ _ (demo_key 5) (wp_new 130 10) (demo_key 5) (Some [130])); [|done|vm_compute; reflexivity].
      split_and!; [cbn; auto|split; [unfold is_u64|]; cbn; lia| |cbn; by intros ?%not_elem_of_nil].
      exists first_alloc. cbn. split_and!; [set_solver|set_solver|lia]. }
    eapply rtc_l; [apply eng_wal_publish; [apply (sys_drop_guard _ _ first_alloc)|reflexivity|cbn; lia|done]|].
    eapply rtc_l; [apply eng_wal_publish; [eapply (sys_recv_alloc _ _ first_alloc); [reflexivity|cbn; set_solver|vm_compute; reflexivity]|reflexivity|cbn; lia|done]|].
    eapply rtc_l; [apply eng_wal_publish; [apply (sys_send _ _ (db_checkpoint_request 1)); discriminate|reflexivity|cbn; lia|done]|].
    eapply rtc_l; [apply eng_wal_publish; [eapply sys_recv_other; [reflexivity|discriminate|vm_compute; reflexivity]|reflexivity|cbn; lia|done]|].
    apply rtc_refl. }
  split; [split; cbn; [by left|lia]|]. do 4 (split; [done|]). eexists. split; vm_compute; reflexivity.
Qed.

Lemma checkpoint_isolated_witness :
  exists w c c' r,
    let c1 := c : LiveEntry list_cache in
    engine_newest (mkEngine w (mkCellSys (mkDbLoader [] 170 200 0 : DbLoader FrameLog) c1 Idle
      [(demo_key 5, iwp_new_modified (wp_new 170 10)); (demo_key 5, iwp_new_modified (wp_new 130 10))] 0) no_status) (2 ^ 64) (demo_key 5) =
      Some (iwp_new_modified (wp_new 170 10)) /\
    checkpoint_get (fun key => key) demo_uniform (fun k p => Some (demo_record k p).2) no_status demo_checkpoint c1 (demo_key 5)
      (mkDbLoader [] 170 200 0) = Ok (mkDbLoader [] 170 200 0, (c', Some (checkpoint_answer demo_uniform (fun k p => Some (demo_record k p).2) (demo_key 5) r))) /\
    answer_ok demo_record 0 (demo_key 5) (Some (iwp_new_modified (wp_new 130 10))) r.
Proof.
  destruct demo_checkpoint_open as (w & c & Hr & Ho & He & Hs & Hp & Hl & c' & Hc & Hp').
  assert (forall k, waiting c k = []) as Hw by (intros k; unfold waiting; by rewrite Hp).
  assert (forall k, waiting c' k = []) as Hw' by (intros k; unfold waiting; by rewrite Hp').
  assert (exists w', rtc (fun a b => demo_engine_step a b /\ latch_held b demo_checkpoint)
    (mkEngine w (mkCellSys (mkDbLoader [] 170 200 0 : DbLoader FrameLog) c Idle [(demo_key 5, iwp_new_modified (wp_new 130 10))] 0) no_status)
    (mkEngine w' (mkCellSys (mkDbLoader [] 170 200 0 : DbLoader FrameLog) c' Idle
      [(demo_key 5, iwp_new_modified (wp_new 170 10)); (demo_key 5, iwp_new_modified (wp_new 130 10))] 0) no_status)) as [w' Hrun].
  { eexists. eapply rtc_l.
    { split; [eapply (eng_wal_publish _ _ _ _ 170); [apply (sys_allocate _ _ second_alloc (proj2 demo_allocs_ok)); by rewrite He|by cbn; rewrite Hl|lia|done]|].
      exact (proj1 Ho). }
    eapply rtc_l.
    { split; [eapply (eng_wal_publish _ _ _ _ 170); [apply (sys_announce _ _ second_alloc); cbn; [set_solver|rewrite Hs; by intros Hx%list_elem_of_singleton]
        |by cbn; rewrite Hl|lia|done]|]. exact (proj1 Ho). }
    eapply rtc_l; [|apply rtc_refl]. split.
    { eapply (eng_insert _ _ _ _ _ _ _ _ _ _ _ (demo_key 5) (wp_new 170 10) (demo_key 5) (Some [170])); [|done|exact Hc].
      split_and!; [cbn; auto|split; [unfold is_u64|]; cbn; lia| |].
      - exists second_alloc. cbn. split_and!; [set_solver|set_solver|lia].
      - unfold offsets_used. rewrite Hw. cbn. by intros Hx%list_elem_of_singleton. }
    exact (proj1 Ho). }
  destruct (checkpoint_isolated (Some 5%nat) demo_universe demo_cx demo_layout demo_record demo_key_space_ok 130 (fun key => key) demo_uniform
    (fun k p => Some (demo_record k p).2) _ _ demo_checkpoint (demo_key 5) (demo_key 5) Hr Ho ltac:(cbn; lia) Hrun eq_refl ltac:(by left))
    as (c2 & r & Hg & Ha).
  exists w', c', c2, r. split; [|split; [exact Hg|]].
  - unfold engine_newest, engine_history. cbn [eg_sys eg_status cs_history cs_cell]. rewrite Hw'. vm_compute. reflexivity.
  - unfold engine_newest, engine_history in Ha. cbn [eg_sys eg_status cs_history cs_cell] in Ha. rewrite Hw in Ha. exact Ha.
Defined.
